(* ===== verification/_CoqProject ===== *)
-Q . S2P
Prelude.v
GoStrings.v
Quote.v
Floats.v
Values.v
Types.v
Stores.v
Genai.v
Cooldown.v
Regex.v
Classifier.v
Chain.v
FallbackLLM.v
OpenAI.v
Anthropic.v
Providers.v
AgentId.v
SessionKey.v
Route.v
AgentRegistry.v
Lru.v
Bus.v
Lock.v
Queue.v
Steering.v
Pruning.v
Compression.v
AgentLoop.v
AgentStream.v
Cron.v
Jsonl.v
Paths.v
PathGuard.v
Skills.v
ContextBuilder.v
DistLock.v
Subagent.v
Channels.v
Heartbeat.v
RateLimit.v
Guards.v
FileTools.v
SearchCache.v
Search.v
Consolidation.v
MemoryTools.v
Api.v
Accounts.v
Auth.v
AgentDefs.v
Console.v
ConsoleChat.v
Encryption.v
ConsoleSettings.v
AgentManager.v
Shell.v
Web.v
SkillStores.v
SkillMarket.v
Wecom.v
Telegram.v
Feishu.v
Discord.v
Cli.v
CronStore.v
CronTools.v
Config.v
App.v
Mcp.v
SkillRegistry.v
AgentTools.v
Plugins.v
Repl.v
VectorDB.v
Seeder.v
Boot.v
Http.v
Routes.v
SideStores.v
Lifecycle.v
