(* ===== verification/Prelude.v ===== *)
(** * A verified model of the core of abot

    abot is a multi-tenant platform for chat agents written in Go.  Messages arrive on
    transports ([pkg/channels]), pass a bus ([pkg/bus]) and are routed to an agent
    ([pkg/routing], [pkg/agent/registry.go]); the agent loop ([pkg/agent/loop.go]) runs
    the agent in the session of the sender ([pkg/session]), compresses sessions that grow
    too large ([pkg/agent/compression.go], [pkg/pruning]), calls models through a failover
    chain ([pkg/providers]) and publishes the answer on the bus.  The agent's instructions
    are put together from documents, memories and skills ([pkg/workspace], [pkg/skills]), and
    it acts through tools that are confined to the workspace of its user ([pkg/tools]).
    Around it are schedulers ([pkg/scheduler]), background tasks
    ([pkg/agent/subagent.go]), caches, locks and queues, clients of tool servers and of skill
    registries ([pkg/mcp], [pkg/skills/clawhub]), and a web console with accounts, agents and
    chat over a database ([pkg/api], [pkg/storage]).  Four programs put these parts together
    ([pkg/bootstrap], [cmd]).

    This library translates these parts into Rocq definitions and proves what makes them
    correct.  Definitions keep the names of the code and can be executed; where a name
    would clash it has a prefix of its file.  Paths below are relative to [src/].

    ** Parts

    Foundations:
    - [Prelude]: results, times and durations as integers (nanoseconds, with the
      saturation of [Time.Sub]), first-match searches, iteration orders of Go maps
      ([range_order]) and the tactics, hints and list lemmas the components share;
    - [GoStrings], [Quote], [Regex], [Paths], [Floats], [Values]: Go's [strings],
      [strconv.Quote], [regexp] and [path/filepath] as far as the program uses them, on byte
      strings; binary64 numbers; dynamic values as they come out of JSON.  [Regex.rmatch_lang] relates the matcher to
      the language of an expression;
    - [Types], [Stores], [Genai]: [pkg/types] and the messages of the model API, with the
      interfaces of the bus and of the stores that the other parts rely on.

    Models, [pkg/providers]:
    - [Cooldown], [Classifier], [Chain], [FallbackLLM] ([fallback]): the tracker of failures,
      the classification of errors, the chain over the candidates and its stream.
      [CooldownRemaining_exact], [ClassifyError_spec] and [Execute_accounts] say how long a
      provider is blocked, what kind a failure is, and what became of every candidate;
    - [OpenAI] ([openaicompat]) and [Anthropic] ([anthropic]): requests, responses and streams;
      [stream_equals_response] and [stream_answer] relate a stream to the answer it is for
      (all but the input tokens, which a stream loses), [messages_alternate] is the form of a
      request;
    - [Providers] ([registry.go], [factory.go], [pkg/bootstrap/providers.go]): the model for a
      configuration.

    Routing, [pkg/routing] and [pkg/agent/registry.go]:
    - [AgentId], [SessionKey]: normalised identifiers, the round trip of session keys, and
      isolation of direct conversations ([direct_key_isolation]);
    - [Route]: [ResolveRoute_priority], the refinement of the specification by tiers;
    - [AgentRegistry]: the routed agent has a runner ([resolved_agent_has_runner]) and is
      the best match ([ResolveRoute_best]), over any history of registrations.

    Shared state and concurrency:
    - [Lru] ([pkg/storage/cache], [pkg/storage/vectordb/embedding_cache.go]): the pointer
      structure refines a list ordered by recency ([lru_refines_list]);
    - [Bus] ([pkg/bus]), [Lock] ([pkg/lock]), [Queue] ([pkg/queue]): step relations whose
      steps are the synchronisation points of the code, with reachability and invariants:
      messages are delivered first in, first out; closing leaves nobody blocked; one
      goroutine per session; commands start in order and never twice.  The theorems name
      the side conditions the code needs ([bus_close_race], [cleanup_breaks_exclusion]
      and [idle_timeout_loses_command] show what happens without them);
    - [Steering] ([pkg/steering]): messages that arrive while an agent works;
    - [DistLock] ([pkg/scheduler/distributed_lock.go], [distributed_heartbeat.go]): the lease
      in the database is exclusive, and an instance runs one leader at a time;
    - [RateLimit] ([pkg/tools/ratelimit.go], [pkg/api/middleware/ratelimit.go]): token buckets.

    Sessions and the agent loop:
    - [Pruning], [Compression]: the pruning layers and their use for a session, against the
      interface [SessionService] with its laws;
    - [AgentLoop], [AgentStream]: the outcome of every message, plain and with streaming
      callbacks, panics of the runner and of the compression included, isolation of tenants,
      bounded retries; its parts are the definitions of [Route], [AgentRegistry], [Pruning]
      and [Compression];
    - [Jsonl] ([pkg/session]): a restart restores the sessions of users whose names have no
      underscore ([session_files_collide] shows what happens with one);
    - [Subagent]: background tasks on a heap of shared objects, in every interleaving; putting
      a task into the map and counting it in the wait group are two steps;
    - [ContextBuilder] ([pkg/workspace]): the layers of the system prompt and their trimming;
    - [Skills] ([pkg/skills]): which skills a tenant sees, the cache of their contents with
      calls that interleave at each access to the map and the disk ([skill_content_cache]),
      and installing; [SkillStores] ([pkg/storage/mysql/skills.go], [tenant_skills.go],
      [skill_proposals.go]) has their tables, [SkillRegistry] ([registry.go], [clawhub]) the
      remote registries, whose search is a step relation with a goroutine for each;
    - [Plugins] ([pkg/plugins/auditlog], [tokentracker]): the callbacks around calls, whose
      counters come to the sums of what was recorded in every interleaving
      ([tracker_counts]);
    - [Consolidation] ([pkg/plugins/memoryconsolidation]): memories extracted after a run and
      stored as points of a vector database, against the class [VectorStore].

    Tools, [pkg/tools] and [pkg/guard]:
    - [PathGuard] ([security.go]): confinement of file paths, the layout of the workspaces,
      the paths in shell commands;
    - [Shell] ([shell.go], [sandbox*.go]): the deny patterns, the sandboxes and the run of a
      command ([exec_spec]);
    - [FileTools], [MemoryTools], [Search], [SearchCache]: files and documents, memories with
      their ranking, BM25 and hybrid search, and the cache of skill searches;
    - [Guards]: who may use a tool, and the guards of prompts and tool results;
    - [Web] ([web.go]): fetching with its redirects connects to no address of the ranges that
      are reserved for the host, private networks or the link ([web_fetch_confined]; the IPv6
      unspecified address passes); [remove_blocks_cleans] is for the text of a page;
    - [AgentTools] ([message.go], [spawn.go], [subagent.go], [list_tasks.go], [builder.go]):
      messages and background tasks; [CronTools] ([cron.go]): a session sees and changes the
      jobs of its tenant only, in a program with a scheduler ([cron_confined]);
    - [Mcp] ([pkg/mcp]): clients of tool servers over pipes and HTTP; however many calls are
      made at the same time, each gets the answer to its own request
      ([mcp_answers_own]), and [calls_wait_for_the_process] says when they end.

    Storage, [pkg/storage]:
    - [VectorDB] ([vectordb]): the client of Qdrant refines a set of points
      ([store_refines_points]), with the memory service and the embeddings on it; the writes
      do not wait, so a search may see points as they were before, and vectors are
      normalised by the database;
    - [SideStores] ([mysql/memory_events.go], [agents.go], [allowlist.go],
      [sqlite/allowlist.go], [objectstore/s3]): what is written is read back, and the two
      stores of allow-lists agree; its module [LocalObjects] ([objectstore/store.go]) keeps
      objects below a directory ([sanitize_confined]);
    - [Seeder] ([seeder]): a start that seeds the database leaves the tenants and documents
      it makes sure of, and what it keeps when no query fails ([seed_spec]).

    Web API, [pkg/api]:
    - [Api] ([errors], [response], [validation]), [Accounts] (the stores of accounts, tenants,
      sessions and documents as interfaces with laws, and their tables), [Auth] ([auth]): a
      token says who its account is ([tokens_are_the_accounts]);
    - [AgentDefs] ([pkg/storage/mysql/agent_definitions.go]), [Console] and [AgentManager]
      ([console/agents.go], [console/agent_manager.go]): requests are confined to the
      caller's tenants, and the registry mirrors the store but for agents that were
      registered without it;
    - [ConsoleChat] ([console/sessions.go], [ws.go]): sessions and the chat connection, a step
      relation with one goroutine per run;
    - [ConsoleSettings], [Encryption] ([console/workspace_docs.go], [providers.go],
      [pkg/security]): documents and provider keys;
    - [SkillMarket] ([marketplace/handler.go], [pkg/tools/skills.go]): publishing and
      installing skills, by requests and by tools ([market_confined]);
    - [Http] ([middleware]): the multiplexer of Go, the response writer and the middleware;
      [Routes] ([console/handler.go], [static.go], the routes of the other servers): every
      endpoint but the chat's is reached under its pattern ([routes_reached]), and those that
      need a token run only with one ([console_guarded]).

    Periphery:
    - [Cron], [Heartbeat] ([pkg/scheduler]): which jobs fire, when, and what becomes of them;
      the periodic decision whether an agent has something to do; [CronStore]
      with its module [Sqlite] ([mysql/scheduler.go], [sqlite/scheduler.go]): the service and
      its table say the same after any history, statements that fail on other rows and the
      late save of [EnableJob] included ([table_mirrors_service]);
    - [Channels] ([pkg/channels]): the duplicate filter, the access list, the registry of
      the transports and the dispatch of outbound messages;
    - [Wecom], [Telegram], [Feishu], [Discord], [Cli]: the transports, from what the service
      sends to the messages on the bus, and back; [wecom_delivers] and
      [telegram_exactly_once] are about what the bus is handed, which it may refuse.  [Lifecycle] has their [Start] and
      [Stop]: what calls in turn guarantee ([one_loop_at_a_time], [Stop_stops]), what
      overlapping calls break ([overlapping_calls]), and the pages of their servers.

    Programs:
    - [Config] ([Validate] of [pkg/agent/bootstrap.go], [pkg/bootstrap/validation.go],
      [channels.go], [tools.go]) and the module [Setup] of [Boot] ([bootstrap/config.go],
      [cmd/abot-agent/init.go], [pkg/config]): configurations, how they are checked, loaded
      and made;
    - [App] ([pkg/agent/bootstrap.go], [a2a.go]): the assembly, the start and the end of the
      application, as the list of what was done to its parts;
    - [Boot] ([pkg/bootstrap/deps.go], [session.go], [database.go] and the programs of
      [cmd]): which parts each program makes, in what order, and which of them it serves
      ([consoles_do_not_listen], [gateway_without_secret]);
    - [Repl] ([cmd/abot/agent.go], [cmd/abot-agent]): talking to the agents from a terminal.

    ** Conventions

    A Go value with an error is a [result]; a panic is [None] of an option where the code
    can panic.  Code that holds one mutex from start to end is one function or step; code
    that releases it in between is cut there.  The clock, random identifiers, the order
    in which Go ranges over a map and the choice of [select] are arguments or
    non-deterministic, so theorems hold for all of them.  Pointers that are shared are
    kept as pointers into a heap.  Statements on the database are functions on tables that
    may fail at any time by an argument [fault].  Third-party code (the ADK session service
    and runner, the vector database, the cron parser, codecs and ciphers, HTTP, the operating
    system) is a parameter or a class with laws; witnesses instantiate each of them.  Log
    lines are left out.  Times in the database are those that were written: rounding to the
    precision of a column is taken as the identity.

    ** Fuel

    Recursions that are not structural carry fuel, started with the length of the input, of
    which every round consumes a byte or an element: trimming spaces ([trim_with], enough by
    [trim_with_clean]), removing the thinking tags of an answer ([remove_thinking]), the
    repetition of a regular expression ([star_iter], [lazy_iter], enough by
    [rmatch_lang]), the merge of [JaccardSimilarity] ([common], enough by
    [jaccard_exact]), the search of a keyword ([keyword_loop], enough by
    [keyword_loop_spec]), the trimming of a prompt ([trim_loop], enough by [trim_loop_spec]),
    the ranking of memories ([mmr_loop], enough by [mmr_loop_spec]), removing the scripts of a
    page ([remove_blocks], enough by [remove_blocks_cleans]), the links on a path
    ([check_links], enough by [sanitize_confined]) and the lines of a terminal
    ([readLoop], enough by [readLoop_spec]).  Other bounds are those of the code: the retries
    of the agent loop ([maxContextRetries]), the redirects of a request ([client_do] with
    [maxRedirects]), the lines that a client of a tool server skips ([read_response] with
    [maxSkipLines]), the four bytes of a rune ([cut_rune]).  Loops that serve until they are
    stopped ([pollLoop], [gatewayLoop], [session], the loop of [Repl]) run over a given list
    of rounds, and their theorems hold for every list.

    ** Not modelled

    What a program prints for its user and its log lines, the parsing of flags and signals,
    sockets and operating-system processes as such, the libraries for YAML, JSON, XML and
    ciphers, and the ADK: they are outside of the repository or have no state of their own.
    The schema of SQLite and the options of the S3 client, which are texts for a library; the
    printing tracer of [pkg/debug]; the completion of the terminal's prompt; the descriptions
    of tools for the model ([plugins/memoryconsolidation/tool_def.go]); example programs and
    what only tests use ([testing_exports.go]).  The conversions between the rows and the
    structures of the stores of accounts, tenants, documents and sessions, which copy fields:
    [Accounts] has the tables of the structures.  [cmd/abot/agent.go] repeats the functions of
    [cmd/abot-agent] and [Repl] has them once; [Start] and [Stop] of Discord and the terminal
    repeat Telegram's and [Lifecycle] has them once. *)
From Stdlib Require Export ZArith Lia Ascii String.
From stdpp Require Export base tactics option list list_numbers gmap strings fin_maps sorting.
#[global] Open Scope Z_scope.

(** ** Scope and results *)

Declare Scope abot_scope.
Delimit Scope abot_scope with abot.
#[global] Open Scope abot_scope.

(** A Go pair [(value, error)] of which exactly one half is meaningful. *)
Inductive result (E A : Type) : Type :=
| Ok (a : A)
| Err (e : E).
Arguments Ok {E A} _.
Arguments Err {E A} _.

(** [if err != nil { return err }; ...]: the error short-circuits. *)
Definition result_bind {E A B} (r : result E A) (f : A → result E B) : result E B :=
  match r with Ok a => f a | Err e => Err e end.

Notation "x <-? c ;; k" := (result_bind c (fun x => k))
  (at level 100, c at next level, right associativity) : abot_scope.

Definition is_ok {E A} (r : result E A) : bool :=
  match r with Ok _ => true | Err _ => false end.

#[global] Instance result_eq_dec {E A} `{EqDecision E, EqDecision A} : EqDecision (result E A).
Proof. solve_decision. Defined.

(** ** Time

    A [time.Time] is the number of nanoseconds since the zero [Time] (January 1,
    year 1 UTC), so that the zero value is [0] and [IsZero] tests for it.  A
    [time.Duration] is a 64-bit count of nanoseconds. *)

Abbreviation time := Z (only parsing).
Abbreviation duration := Z (only parsing).

Definition min_int64 : Z := - 2 ^ 63.
Definition max_int64 : Z := 2 ^ 63 - 1.

(** Two's complement arithmetic on [int] and [int64]. *)
Definition wrap64 (n : Z) : Z := (n + 2 ^ 63) `mod` 2 ^ 64 - 2 ^ 63.
Definition in_int64 (n : Z) : bool := (min_int64 <=? n) && (n <=? max_int64).

Lemma wrap64_id n : min_int64 ≤ n ≤ max_int64 → wrap64 n = n.
Proof. unfold wrap64, min_int64, max_int64. intros H. rewrite Z.mod_small; lia. Qed.

Definition Nanosecond : duration := 1.
Definition Millisecond : duration := 1000000.
Definition Second : duration := 1000 * Millisecond.
Definition Minute : duration := 60 * Second.
Definition Hour : duration := 60 * Minute.

Definition time_zero : time := 0.
Definition IsZero (t : time) : bool := t =? 0.
Definition Before (t u : time) : bool := t <? u.
Definition After (t u : time) : bool := u <? t.
Definition time_add (t : time) (d : duration) : time := t + d.
(** [t.Sub(u)] saturates at the bounds of [Duration]. *)
Definition time_sub (t u : time) : duration := Z.max min_int64 (Z.min max_int64 (t - u)).

Lemma time_sub_small t u : min_int64 ≤ t - u ≤ max_int64 → time_sub t u = t - u.
Proof. unfold time_sub. lia. Qed.

Lemma time_sub_pos t u : 0 < time_sub t u ↔ u < t.
Proof. unfold time_sub, min_int64, max_int64. lia. Qed.

Lemma time_sub_gt t u d : 0 ≤ d < max_int64 → d < time_sub t u ↔ u + d < t.
Proof. unfold time_sub, min_int64, max_int64. lia. Qed.

Lemma time_sub_ge t u d : 0 ≤ d ≤ max_int64 → d ≤ time_sub t u ↔ u + d ≤ t.
Proof. unfold time_sub, min_int64, max_int64. lia. Qed.

(** ** Automation *)

Create HintDb abot.

(** Turn the boolean tests of the model into arithmetic. *)
Ltac bool_arith :=
  unfold IsZero, Before, After, time_zero, time_add in *;
  rewrite ?andb_true_iff, ?andb_false_iff, ?orb_true_iff, ?orb_false_iff,
    ?negb_true_iff, ?negb_false_iff,
    ?Z.eqb_eq, ?Z.eqb_neq, ?Z.ltb_lt, ?Z.ltb_ge, ?Z.leb_le, ?Z.leb_gt,
    ?Z.geb_le, ?Z.gtb_lt in *.

(** Case analysis on every [if]/[match] scrutinee of the goal. *)
Ltac cases_match :=
  repeat match goal with
  | |- context [match ?x with _ => _ end] => destruct x eqn:?; simplify_eq/=
  end.

(** The same on a hypothesis. *)
Ltac cases_in H :=
  repeat match type of H with
  | context [match ?x with _ => _ end] => destruct x eqn:?; simplify_eq/=
  end.

(** ** Lists *)

Section lists.
Context {A : Type}.
Implicit Types (l k : list A) (x : A) (f : A → bool).

(** First element satisfying a test: the [for ... { if c { return } }] loop. *)
Fixpoint find_first f l : option A :=
  match l with
  | [] => None
  | x :: l => if f x then Some x else find_first f l
  end.

Lemma find_first_Some f l x :
  find_first f l = Some x ↔
  ∃ l1 l2, l = l1 ++ x :: l2 ∧ f x = true ∧ Forall (λ y, f y = false) l1.
Proof.
  split.
  - revert x. induction l as [|y l IH]; intros x; simpl; [done|].
    destruct (f y) eqn:Hy; intros H; simplify_eq.
    + by exists [], l.
    + destruct (IH _ H) as (l1 & l2 & -> & ? & ?).
      exists (y :: l1), l2. eauto using Forall_cons.
  - intros (l1 & l2 & -> & Hx & Hl). induction Hl as [|y l1 Hy _ IH]; simpl.
    + by rewrite Hx.
    + by rewrite Hy.
Qed.

Lemma find_first_None f l : find_first f l = None ↔ Forall (λ y, f y = false) l.
Proof.
  induction l as [|y l IH]; simpl; [by split; auto|].
  destruct (f y) eqn:Hy; rewrite Forall_cons; [naive_solver congruence|].
  rewrite IH. naive_solver.
Qed.

Lemma find_first_elem f l x : find_first f l = Some x → x ∈ l ∧ f x = true.
Proof.
  intros (l1 & l2 & -> & ? & _)%find_first_Some. split; [set_solver|done].
Qed.

Lemma find_first_ext f g l : (∀ x, x ∈ l → f x = g x) → find_first f l = find_first g l.
Proof.
  induction l as [|y l IH]; intros Hfg; simpl; [done|].
  rewrite <- (Hfg y) by set_solver. rewrite IH; [done|set_solver].
Qed.

(** The list without its longest prefix, or suffix, of elements passing a test. *)
Fixpoint drop_while f l : list A :=
  match l with
  | [] => []
  | x :: l' => if f x then drop_while f l' else l
  end.

Definition drop_while_end f l : list A := reverse (drop_while f (reverse l)).

Lemma drop_while_suffix f l : drop_while f l `suffix_of` l.
Proof.
  induction l as [|x l IH]; simpl; [done|].
  destruct (f x); [by apply suffix_cons_r|done].
Qed.

Lemma drop_while_end_prefix f l : drop_while_end f l `prefix_of` l.
Proof.
  unfold drop_while_end. destruct (drop_while_suffix f (reverse l)) as [k Hk].
  exists (reverse k). rewrite <- (reverse_involutive l), Hk at 1.
  by rewrite reverse_app.
Qed.

Lemma drop_while_head f l x k : drop_while f l = x :: k → f x = false.
Proof.
  induction l as [|y l IH]; simpl; [done|].
  destruct (f y) eqn:Hy; [done|]. by intros [= -> ->].
Qed.

Lemma drop_while_id f l : (∀ x k, l = x :: k → f x = false) → drop_while f l = l.
Proof. destruct l as [|x l]; simpl; [done|]. intros H. by rewrite (H x l). Qed.

Lemma drop_while_end_id f l : (∀ x k, l = k ++ [x] → f x = false) → drop_while_end f l = l.
Proof.
  intros H. unfold drop_while_end. rewrite drop_while_id, reverse_involutive; [done|].
  intros x k Hx. apply (H x (reverse k)).
  by rewrite <- (reverse_involutive l), Hx, reverse_cons.
Qed.

Lemma drop_while_end_last f l x k : drop_while_end f l = k ++ [x] → f x = false.
Proof.
  unfold drop_while_end. intros H.
  apply (f_equal reverse) in H.
  rewrite reverse_involutive, reverse_snoc in H. by eapply drop_while_head.
Qed.

Lemma Forall_drop_while (P : A → Prop) f l : Forall P l → Forall P (drop_while f l).
Proof.
  intros H. destruct (drop_while_suffix f l) as [k Hk].
  rewrite Hk in H. by apply Forall_app in H as [_ ?].
Qed.

Lemma Forall_drop_while_end (P : A → Prop) f l : Forall P l → Forall P (drop_while_end f l).
Proof.
  intros H. destruct (drop_while_end_prefix f l) as [k Hk].
  rewrite Hk in H. by apply Forall_app in H as [? _].
Qed.
End lists.

#[export] Hint Resolve Forall_drop_while Forall_drop_while_end : abot.

(** Sums over a list: the loop [n := 0; for x := range l { n += f(x) }]. *)
Definition sum_of {A} (f : A → Z) (l : list A) : Z := foldr (λ x n, f x + n) 0 l.

Lemma sum_of_cons {A} (f : A → Z) x l : sum_of f (x :: l) = f x + sum_of f l.
Proof. done. Qed.

Lemma sum_of_app {A} (f : A → Z) l k : sum_of f (l ++ k) = sum_of f l + sum_of f k.
Proof. induction l as [|x l IH]; [done|]. rewrite <- app_comm_cons, !sum_of_cons, IH. lia. Qed.

Lemma sum_of_nonneg {A} (f : A → Z) l : (∀ x, 0 ≤ f x) → 0 ≤ sum_of f l.
Proof. intros Hf. induction l as [|x l IH]; [done|]. rewrite sum_of_cons. specialize (Hf x). lia. Qed.

(** ** Finite maps *)

Section maps.
Context {K V : Type} `{Countable K}.
Implicit Types m : gmap K V.

(** [delete] of every entry of a map that fails a test, the loop
    [for k, v := range m { if c(v) { delete(m, k) } }]. *)
Definition map_keep (f : V → bool) m : gmap K V := filter (λ kv, f kv.2 = true) m.

Lemma map_keep_lookup f m k :
  map_keep f m !! k = (v ← m !! k; if f v then Some v else None).
Proof.
  unfold map_keep. rewrite map_lookup_filter.
  destruct (m !! k) as [v|]; simpl; [|done].
  destruct (f v) eqn:Hf; case_guard; simpl in *; congruence.
Qed.
End maps.

(** ** Ranging over a map

    Go ranges over a map in an unspecified order: operations that do so take the order
    of the keys as an argument, and theorems hold for every order of the map's keys. *)

Definition range_order {V} (m : gmap string V) (order : list string) : Prop :=
  order ≡ₚ (map_to_list m).*1.

Lemma range_order_elem {V} (m : gmap string V) order k :
  range_order m order → k ∈ order ↔ is_Some (m !! k).
Proof.
  unfold range_order. intros ->. rewrite list_elem_of_fmap. split.
  - intros ([i v] & -> & Hin%elem_of_map_to_list). by exists v.
  - intros [v Hv]. exists (k, v). split; [done|by apply elem_of_map_to_list].
Qed.

Lemma range_order_NoDup {V} (m : gmap string V) order : range_order m order → NoDup order.
Proof. unfold range_order. intros ->. apply NoDup_fst_map_to_list. Qed.

(** A run is known by its answer; the state after it is its first component. *)
Lemma run_of_answer {A B} (p : A * B) b : p.2 = b → p = (p.1, b).
Proof. destruct p. simpl. by intros ->. Qed.
