(* ===== verification/GoStrings.v ===== *)
(** The Go standard library's [strings] functions used by the program, on byte
    strings.  A Go string is a Rocq [string], one [ascii] per byte.  [TrimSpace]
    is exact (the UTF-8 encodings of every Unicode space are recognised);
    [ToLower] is exact on ASCII strings and calls the class [UnicodeCase] (the
    case tables of the [unicode] package) on the others. *)
From S2P Require Import Prelude.

(** ** Bytes *)

Abbreviation bytes := (list ascii).

Definition s2l : string → bytes := list_ascii_of_string.
Definition l2s : bytes → string := string_of_list_ascii.

Lemma l2s_s2l s : l2s (s2l s) = s.
Proof. apply string_of_list_ascii_of_string. Qed.
Lemma s2l_l2s l : s2l (l2s l) = l.
Proof. apply list_ascii_of_string_of_list_ascii. Qed.
Create Rewrite HintDb abot_str.
#[global] Hint Rewrite l2s_s2l s2l_l2s : abot_str.

Lemma s2l_app s t : s2l (s +:+ t) = s2l s ++ s2l t.
Proof. induction s as [|c s IH]; simpl; [done|]. by rewrite <- IH. Qed.
Lemma l2s_app l k : l2s (l ++ k) = l2s l +:+ l2s k.
Proof. induction l as [|c l IH]; simpl; [done|]. by rewrite IH. Qed.
#[global] Hint Rewrite s2l_app l2s_app : abot_str.

#[global] Instance s2l_inj : Inj (=) (=) s2l.
Proof. intros s t H. by rewrite <- (l2s_s2l s), H, l2s_s2l. Qed.
#[global] Instance l2s_inj : Inj (=) (=) l2s.
Proof. intros s t H. by rewrite <- (s2l_l2s s), H, s2l_l2s. Qed.

Definition byte_val (c : ascii) : Z := Z.of_N (N_of_ascii c).
Definition in_range (lo hi : ascii) (c : ascii) : bool :=
  (byte_val lo <=? byte_val c) && (byte_val c <=? byte_val hi).

Definition is_ascii_byte (c : ascii) : bool := byte_val c <? 128.
Definition is_upper_byte (c : ascii) : bool := in_range "A" "Z" c.
Definition is_lower_byte (c : ascii) : bool := in_range "a" "z" c.
Definition is_digit_byte (c : ascii) : bool := in_range "0" "9" c.

(** Go's [len(s)]. *)
Definition str_len (s : string) : nat := length (s2l s).
Definition str_empty (s : string) : bool := bool_decide (s = ""%string).

(** Decide a closed statement about all 256 bytes by evaluation. *)
Definition all_bytes (f : ascii → bool) : bool :=
  forallb (λ n, f (ascii_of_nat n)) (seq 0 256).

Lemma all_bytes_spec f : all_bytes f = true → ∀ c, f c = true.
Proof.
  unfold all_bytes. rewrite forallb_forall. intros H c.
  rewrite <- (ascii_nat_embedding c). apply H, in_seq.
  pose proof (nat_ascii_bounded c). lia.
Qed.

Ltac by_bytes c :=
  let H := fresh in
  pattern c;
  match goal with |- ?P c =>
    let f := eval cbv beta in (λ x : ascii, bool_decide (P x)) in
    assert (H : all_bytes f = true) by (vm_compute; reflexivity);
    exact (proj1 (bool_decide_eq_true _) (all_bytes_spec f H c))
  end.

(** ** Case mapping *)

Definition lower_byte (c : ascii) : ascii :=
  if is_upper_byte c then ascii_of_N (N_of_ascii c + 32) else c.

Lemma lower_byte_not_upper c : is_upper_byte (lower_byte c) = false.
Proof. by_bytes c. Qed.
Lemma lower_byte_id c : is_upper_byte c = false → lower_byte c = c.
Proof. unfold lower_byte. by intros ->. Qed.
Lemma lower_byte_ascii c : is_ascii_byte c = true → is_ascii_byte (lower_byte c) = true.
Proof. by_bytes c. Qed.

(** [strings.Map(unicode.ToLower, s)] on strings with a non-ASCII byte.  No
    rune's lower case is an ASCII capital. *)
Class UnicodeCase := {
  unicode_lower : string → string;
  unicode_lower_no_upper : ∀ s, Forall (λ c, is_upper_byte c = false) (s2l (unicode_lower s));
}.

(** The tables restricted to ASCII: every other byte is left alone. *)
Definition bytewise_lower (s : string) : string := l2s (lower_byte <$> s2l s).

Lemma bytewise_lower_no_upper s :
  Forall (λ c, is_upper_byte c = false) (s2l (bytewise_lower s)).
Proof.
  unfold bytewise_lower. rewrite s2l_l2s. apply Forall_fmap, Forall_true.
  apply lower_byte_not_upper.
Qed.

Definition bytewise_case : UnicodeCase :=
  {| unicode_lower := bytewise_lower; unicode_lower_no_upper := bytewise_lower_no_upper |}.

Definition is_ascii_str (s : string) : bool := forallb is_ascii_byte (s2l s).

Section lower.
Context `{U : UnicodeCase}.

Definition to_lower (s : string) : string :=
  if is_ascii_str s then bytewise_lower s else unicode_lower s.

Lemma to_lower_no_upper s : Forall (λ c, is_upper_byte c = false) (s2l (to_lower s)).
Proof.
  unfold to_lower. destruct (is_ascii_str s);
    [apply bytewise_lower_no_upper|apply unicode_lower_no_upper].
Qed.

Lemma to_lower_id s :
  is_ascii_str s = true → Forall (λ c, is_upper_byte c = false) (s2l s) → to_lower s = s.
Proof.
  intros Ha Hu. unfold to_lower. rewrite Ha. unfold bytewise_lower.
  rewrite <- (l2s_s2l s) at 2. f_equal.
  rewrite <- (list_fmap_id (s2l s)) at 2. apply list_fmap_ext.
  intros i c Hc. apply lower_byte_id. by eapply Forall_lookup_1 in Hu.
Qed.
End lower.

(** ** Trimming *)

Definition is_ascii_space (c : ascii) : bool :=
  existsb (Z.eqb (byte_val c)) [9; 10; 11; 12; 13; 32].

(** The UTF-8 encodings of the spaces beyond ASCII: U+0085, U+00A0, U+1680,
    U+2000 to U+200A, U+2028, U+2029, U+202F, U+205F and U+3000. *)
Definition space_runes : list bytes :=
  map (map (λ n, ascii_of_N (Z.to_N n)))
  [[194; 133]; [194; 160]; [225; 154; 128]; [226; 128; 128]; [226; 128; 129];
   [226; 128; 130]; [226; 128; 131]; [226; 128; 132]; [226; 128; 133]; [226; 128; 134];
   [226; 128; 135]; [226; 128; 136]; [226; 128; 137]; [226; 128; 138]; [226; 128; 168];
   [226; 128; 169]; [226; 128; 175]; [226; 129; 159]; [227; 128; 128]].

Fixpoint strip_prefix (p l : bytes) : option bytes :=
  match p, l with
  | [], _ => Some l
  | a :: p, b :: l => if Ascii.eqb a b then strip_prefix p l else None
  | _ :: _, [] => None
  end.

Fixpoint first_some {A B} (f : A → option B) (l : list A) : option B :=
  match l with
  | [] => None
  | x :: l => match f x with Some y => Some y | None => first_some f l end
  end.

(** Drop the leading spaces; [runes] are the multi-byte spaces in the reading
    direction.  [fuel] is the length of the string. *)
Fixpoint trim_with (fuel : nat) (runes : list bytes) (l : bytes) : bytes :=
  match fuel, l with
  | S fuel, c :: l' =>
      if is_ascii_space c then trim_with fuel runes l'
      else match first_some (λ r, strip_prefix r l) runes with
           | Some l'' => trim_with fuel runes l''
           | None => l
           end
  | _, _ => l
  end.

Definition trim_left (l : bytes) : bytes := trim_with (length l) space_runes l.
Definition trim_right (l : bytes) : bytes :=
  reverse (trim_with (length l) (reverse <$> space_runes) (reverse l)).

Definition trim_space (s : string) : string := l2s (trim_right (trim_left (s2l s))).

Lemma strip_prefix_Some p l k : strip_prefix p l = Some k ↔ l = p ++ k.
Proof.
  revert l. induction p as [|a p IH]; intros [|b l]; simpl; try naive_solver.
  destruct (Ascii.eqb_spec a b) as [->|Hne]; [rewrite IH|]; naive_solver.
Qed.

Lemma trim_with_suffix fuel runes l : trim_with fuel runes l `suffix_of` l.
Proof.
  revert l. induction fuel as [|fuel IH]; intros [|c l]; simpl; try done.
  destruct (is_ascii_space c); [by apply suffix_cons_r|].
  destruct (first_some _ runes) as [k|] eqn:Hf; [|done].
  assert (∃ r, c :: l = r ++ k) as [r Hr].
  { clear IH. induction runes as [|r runes IHr]; [done|]. cbn [first_some] in Hf.
    destruct (strip_prefix r (c :: l)) as [k'|] eqn:Hs; [|exact (IHr Hf)].
    simplify_eq. exists r. by apply strip_prefix_Some. }
  rewrite Hr. etrans; [apply IH|]. by eexists.
Qed.

Lemma trim_with_id fuel runes l :
  (∀ c k, l = c :: k → is_ascii_space c = false ∧ Forall (λ r, strip_prefix r l = None) runes) →
  trim_with fuel runes l = l.
Proof.
  destruct fuel as [|fuel], l as [|c l]; simpl; try done. intros H.
  destruct (H c l eq_refl) as [-> Hr].
  replace (first_some _ runes) with (@None bytes); [done|].
  clear H. induction Hr as [|r runes Hr _ IH]; [done|].
  cbn [first_some]. by rewrite Hr.
Qed.

(** Every multi-byte space starts, read in either direction, with a non-ASCII byte. *)
Definition head_not_ascii (r : bytes) : Prop :=
  match r with [] => False | a :: _ => is_ascii_byte a = false end.

Lemma strip_prefix_ascii r c l :
  head_not_ascii r → is_ascii_byte c = true → strip_prefix r (c :: l) = None.
Proof.
  destruct r as [|a r]; [done|]. cbn [head_not_ascii strip_prefix]. intros Ha Hc.
  destruct (Ascii.eqb_spec a c); [congruence|done].
Qed.

Lemma space_runes_head : Forall head_not_ascii space_runes.
Proof. repeat constructor. Qed.
Lemma space_runes_rev_head : Forall head_not_ascii (reverse <$> space_runes).
Proof. repeat constructor. Qed.

Lemma strip_runes_ascii runes c l :
  Forall head_not_ascii runes → is_ascii_byte c = true →
  Forall (λ r, strip_prefix r (c :: l) = None) runes.
Proof. intros Hr Hc. induction Hr; constructor; eauto using strip_prefix_ascii. Qed.

(** With enough fuel no space is left in front. *)
Definition starts_clean (runes : list bytes) (l : bytes) : Prop :=
  ∀ c k, l = c :: k → is_ascii_space c = false ∧ Forall (λ r, strip_prefix r l = None) runes.

Lemma trim_with_clean fuel runes l :
  Forall head_not_ascii runes → (length l ≤ fuel)%nat → starts_clean runes (trim_with fuel runes l).
Proof.
  intros Hr. revert l. induction fuel as [|fuel IH]; intros [|c l] Hlen; simpl in *; try (intros ??; done); [lia|].
  destruct (is_ascii_space c) eqn:Hc; [apply IH; lia|].
  destruct (first_some _ runes) as [rest|] eqn:Hf.
  - apply IH. clear IH. induction Hr as [|r runes Hr _ IHr]; [done|]. cbn [first_some] in Hf.
    destruct (strip_prefix r (c :: l)) as [k|] eqn:Hs; [|by apply IHr].
    simplify_eq. apply strip_prefix_Some in Hs. destruct r as [|d r]; [done|].
    simplify_eq/=. rewrite length_app in Hlen. lia.
  - intros c' k [= <- <-]. split; [done|]. clear -Hf. induction runes as [|r runes IHr]; [done|].
    cbn [first_some] in Hf. destruct (strip_prefix r (c :: l)) eqn:Hs; [done|].
    constructor; [done|by apply IHr].
Qed.

Lemma starts_clean_prefix runes l k : l `prefix_of` k → starts_clean runes k → starts_clean runes l.
Proof.
  intros [z ->] Hk c l' ->. destruct (Hk c (l' ++ z) eq_refl) as [? Hr]. split; [done|].
  eapply Forall_impl; [exact Hr|]. intros r Hs. cbv beta in *.
  destruct (strip_prefix r (c :: l')) as [m|] eqn:Hm; [|done].
  apply strip_prefix_Some in Hm.
  enough (strip_prefix r ((c :: l') ++ z) = Some (m ++ z)) by congruence.
  apply strip_prefix_Some. by rewrite Hm, <- app_assoc.
Qed.

(** No space is left at either end. *)
Lemma trim_space_clean s (r := s2l (trim_space s)) :
  starts_clean space_runes r ∧ starts_clean (reverse <$> space_runes) (reverse r).
Proof.
  unfold r, trim_space. rewrite s2l_l2s. unfold trim_right. split.
  - destruct (trim_with_suffix (length (trim_left (s2l s))) (reverse <$> space_runes)
      (reverse (trim_left (s2l s)))) as [z Hz].
    apply (starts_clean_prefix _ _ (trim_left (s2l s))).
    + exists (reverse z). rewrite <- reverse_app, <- Hz. by rewrite reverse_involutive.
    + apply trim_with_clean; [apply space_runes_head|done].
  - rewrite reverse_involutive. apply trim_with_clean; [apply space_runes_rev_head|]. by rewrite length_reverse.
Qed.

(** A text with no space at either end stays. *)
Lemma trim_space_stays s :
  starts_clean space_runes (s2l s) → starts_clean (reverse <$> space_runes) (reverse (s2l s)) → trim_space s = s.
Proof.
  intros Hl Hr. unfold trim_space.
  assert (trim_left (s2l s) = s2l s) as -> by (by apply trim_with_id).
  unfold trim_right. rewrite trim_with_id by done. rewrite reverse_involutive. apply l2s_s2l.
Qed.

Lemma trim_space_idem s : trim_space (trim_space s) = trim_space s.
Proof. apply trim_space_stays; apply trim_space_clean. Qed.

(** A byte that [TrimSpace] keeps wherever it stands. *)
Definition is_solid_byte (c : ascii) : bool := is_ascii_byte c && negb (is_ascii_space c).

Lemma trim_space_id s : Forall (λ c, is_solid_byte c = true) (s2l s) → trim_space s = s.
Proof.
  assert (∀ c, is_solid_byte c = true → is_ascii_space c = false ∧ is_ascii_byte c = true) as Hs.
  { intros c. unfold is_solid_byte. destruct (is_ascii_byte c), (is_ascii_space c); done. }
  intros H. unfold trim_space.
  assert (trim_left (s2l s) = s2l s) as ->.
  { unfold trim_left. apply trim_with_id. intros c k Hk. rewrite Hk in H |- *.
    apply Forall_cons in H as [Hc _]. destruct (Hs _ Hc).
    eauto using strip_runes_ascii, space_runes_head. }
  unfold trim_right. rewrite trim_with_id; [by rewrite reverse_involutive, l2s_s2l|].
  intros c k Hk. apply Forall_reverse in H. rewrite Hk in H |- *.
  apply Forall_cons in H as [Hc _]. destruct (Hs _ Hc).
  eauto using strip_runes_ascii, space_runes_rev_head.
Qed.

Lemma trim_space_infix s : ∃ a b, s2l s = a ++ s2l (trim_space s) ++ b.
Proof.
  unfold trim_space. rewrite s2l_l2s. unfold trim_right.
  set (l := trim_left (s2l s)).
  destruct (trim_with_suffix (length (s2l s)) space_runes (s2l s)) as [a Ha].
  destruct (trim_with_suffix (length l) (reverse <$> space_runes) (reverse l)) as [b Hb].
  exists a, (reverse b). fold (trim_left (s2l s)) in Ha. fold l in Ha.
  rewrite Ha. f_equal. rewrite <- reverse_app, <- Hb. by rewrite reverse_involutive.
Qed.

(** ** Searching and splitting *)

Definition has_prefix (s p : string) : bool :=
  match strip_prefix (s2l p) (s2l s) with Some _ => true | None => false end.

Fixpoint contains_bytes (l p : bytes) : bool :=
  match strip_prefix p l with
  | Some _ => true
  | None => match l with [] => false | _ :: l => contains_bytes l p end
  end.
Definition contains (s p : string) : bool := contains_bytes (s2l s) (s2l p).

(** [strings.Split] at a one-byte separator. *)
Fixpoint split_bytes (sep : ascii) (cur l : bytes) : list bytes :=
  match l with
  | [] => [reverse cur]
  | c :: l => if Ascii.eqb c sep then reverse cur :: split_bytes sep [] l
              else split_bytes sep (c :: cur) l
  end.
Definition split (s : string) (sep : ascii) : list string :=
  l2s <$> split_bytes sep [] (s2l s).

(** [strings.Cut] at a one-byte separator. *)
Fixpoint cut_bytes (sep : ascii) (l : bytes) : option (bytes * bytes) :=
  match l with
  | [] => None
  | c :: l => if Ascii.eqb c sep then Some ([], l)
              else match cut_bytes sep l with
                   | Some (a, b) => Some (c :: a, b)
                   | None => None
                   end
  end.

(** [strings.SplitN] at a one-byte separator: at most [n] pieces. *)
Fixpoint splitn_bytes (n : nat) (sep : ascii) (l : bytes) : list bytes :=
  match n with
  | O => []
  | S O => [l]
  | S n => match cut_bytes sep l with
           | Some (a, b) => a :: splitn_bytes n sep b
           | None => [l]
           end
  end.
Definition splitn (s : string) (sep : ascii) (n : nat) : list string :=
  l2s <$> splitn_bytes n sep (s2l s).

Lemma cut_bytes_app sep a b : sep ∉ a → cut_bytes sep (a ++ sep :: b) = Some (a, b).
Proof.
  induction a as [|c a IH]; intros Ha; simpl.
  - by rewrite Ascii.eqb_refl.
  - destruct (Ascii.eqb_spec c sep) as [->|]; [set_solver|].
    rewrite IH; [done|set_solver].
Qed.

Lemma cut_bytes_Some sep l a b : cut_bytes sep l = Some (a, b) → l = a ++ sep :: b ∧ sep ∉ a.
Proof.
  revert a. induction l as [|c l IH]; intros a; simpl; [done|].
  destruct (Ascii.eqb_spec c sep) as [->|Hne]; [intros [= <- <-]; split; [done|set_solver]|].
  destruct (cut_bytes sep l) as [[a' b']|]; [|done]. intros [= <- <-].
  destruct (IH a' eq_refl) as [-> Ha]. split; [done|set_solver].
Qed.

(** A field without the separator ends at the first one. *)
Lemma sep_field_inj sep (a b x y : bytes) :
  sep ∉ a → sep ∉ b → a ++ sep :: x = b ++ sep :: y → a = b ∧ x = y.
Proof.
  intros Ha Hb H. pose proof (cut_bytes_app _ _ x Ha) as H1. rewrite H in H1.
  rewrite cut_bytes_app in H1 by done. by simplify_eq.
Qed.

Lemma contains_bytes_spec l p : contains_bytes l p = true ↔ ∃ a b, l = a ++ p ++ b.
Proof.
  induction l as [|c l IH]; simpl.
  - destruct (strip_prefix p []) as [k|] eqn:Hp.
    + apply strip_prefix_Some in Hp. split; [|done]. intros _. by exists [], k.
    + split; [done|]. intros (a & b & Hab). destruct a; [|done].
      enough (strip_prefix p [] = Some b) by congruence. by apply strip_prefix_Some.
  - destruct (strip_prefix p (c :: l)) as [k|] eqn:Hp.
    + apply strip_prefix_Some in Hp. split; [|done]. intros _. by exists [], k.
    + rewrite IH. split.
      * intros (a & b & ->). by exists (c :: a), b.
      * intros ([|d a] & b & Hab); simplify_eq/=; [|eauto].
        enough (strip_prefix p (c :: l) = Some b) by congruence.
        by apply strip_prefix_Some.
Qed.

Lemma contains_spec s p : contains s p = true ↔ ∃ a b, s = a +:+ p +:+ b.
Proof.
  unfold contains. rewrite contains_bytes_spec. split.
  - intros (a & b & H). exists (l2s a), (l2s b). apply (inj s2l).
    by autorewrite with abot_str.
  - intros (a & b & ->). exists (s2l a), (s2l b). by autorewrite with abot_str.
Qed.

(** [strings.Join]. *)
Fixpoint join (l : list string) (sep : string) : string :=
  match l with
  | [] => ""
  | [x] => x
  | x :: l => x +:+ sep +:+ join l sep
  end.

(** ** Prefixes, suffixes and cut sets *)

Definition trim_prefix (s p : string) : string :=
  match strip_prefix (s2l p) (s2l s) with Some k => l2s k | None => s end.

Definition has_suffix (s p : string) : bool :=
  match strip_prefix (reverse (s2l p)) (reverse (s2l s)) with Some _ => true | None => false end.

Definition trim_suffix (s p : string) : string :=
  match strip_prefix (reverse (s2l p)) (reverse (s2l s)) with Some k => l2s (reverse k) | None => s end.

(** [strings.Trim] with an ASCII cut set, given as a test. *)
Definition trim_set (f : ascii → bool) (s : string) : string :=
  l2s (drop_while_end f (drop_while f (s2l s))).

(** [strings.Index]; [None] is [-1]. *)
Fixpoint index_bytes (l p : bytes) : option nat :=
  match strip_prefix p l with
  | Some _ => Some 0%nat
  | None => match l with [] => None | _ :: l => S <$> index_bytes l p end
  end.
Definition index (s p : string) : option nat := index_bytes (s2l s) (s2l p).

(** ** Replacing *)

(** [strings.ReplaceAll] of a text that is not empty; [skip] bytes of a match are still to
    be left out. *)
Fixpoint replace_from (skip : nat) (old new l : bytes) : bytes :=
  match l with
  | [] => []
  | c :: l' =>
      match skip with
      | S skip => replace_from skip old new l'
      | O => match strip_prefix old l with
             | Some _ => new ++ replace_from (length old - 1) old new l'
             | None => c :: replace_from 0 old new l'
             end
      end
  end.
Definition replace_all (s old new : string) : string := l2s (replace_from 0 (s2l old) (s2l new) (s2l s)).

(** The number of matches that do not overlap, of a text that is not empty. *)
Fixpoint count_from (skip : nat) (old l : bytes) : nat :=
  match l with
  | [] => 0
  | _ :: l' =>
      match skip with
      | S skip => count_from skip old l'
      | O => match strip_prefix old l with
             | Some _ => S (count_from (length old - 1) old l')
             | None => count_from 0 old l'
             end
      end
  end.

(** The first match replaced, [strings.Replace(s, old, new, 1)]. *)
Definition replace_first (s old new : string) : string :=
  match index s old with
  | Some i => l2s (take i (s2l s) ++ s2l new ++ drop (i + str_len old) (s2l s))
  | None => s
  end.

Lemma replace_from_byte c new l :
  replace_from 0 [c] new l = flat_map (λ x, if Ascii.eqb x c then new else [x]) l.
Proof.
  induction l as [|x l IH]; [done|]. cbn [replace_from strip_prefix flat_map length Nat.sub].
  destruct (Ascii.eqb_spec x c) as [->|Hne]; rewrite IH; [|].
  - by rewrite ?Ascii.eqb_refl.
  - by destruct (Ascii.eqb_spec c x); [congruence|].
Qed.

(** ** Runes

    [utf8.DecodeRuneInString]: the width of the first rune; an invalid sequence is one
    byte wide. *)

Definition byte_in (lo hi : Z) (c : ascii) : bool := (lo <=? byte_val c) && (byte_val c <=? hi).
Definition is_cont : ascii → bool := byte_in 128 191.

(** The admissible second bytes after a leading byte and the width it announces. *)
Definition lead_of (c : ascii) : option (nat * (ascii → bool)) :=
  if byte_in 194 223 c then Some (2%nat, is_cont)
  else if byte_in 224 224 c then Some (3%nat, byte_in 160 191)
  else if byte_in 237 237 c then Some (3%nat, byte_in 128 159)
  else if byte_in 225 239 c then Some (3%nat, is_cont)
  else if byte_in 240 240 c then Some (4%nat, byte_in 144 191)
  else if byte_in 244 244 c then Some (4%nat, byte_in 128 143)
  else if byte_in 241 243 c then Some (4%nat, is_cont)
  else None.

Definition rune_width (l : bytes) : nat :=
  match l with
  | [] => 0
  | c :: l =>
      match lead_of c with
      | Some (w, second) =>
          match take (w - 1) l with
          | d :: tail => if second d && forallb is_cont tail && (length tail =? w - 2)%nat then w else 1
          | [] => 1
          end
      | None => 1
      end
  end.

(** [utf8.RuneCountInString]; [skip] bytes of a rune are still to be passed. *)
Fixpoint rune_count_from (skip : nat) (l : bytes) : nat :=
  match l with
  | [] => 0
  | _ :: l' => match skip with
               | S skip => rune_count_from skip l'
               | O => S (rune_count_from (rune_width l - 1) l')
               end
  end.
Definition rune_count (s : string) : nat := rune_count_from 0 (s2l s).

(** [strings.Count]. *)
Definition count (s old : string) : nat :=
  if str_empty old then S (rune_count s) else count_from 0 (s2l old) (s2l s).

(** ** Integers in text *)

Definition is_digit (c : ascii) : bool := (48 <=? byte_val c) && (byte_val c <=? 57).

(** The digits a text starts with and the number they stand for. *)
Definition leading_digits (l : bytes) : bytes := take (length l - length (drop_while is_digit l)) l.
Definition digits_value (l : bytes) : Z := foldl (λ n c, n * 10 + (byte_val c - 48)) 0 l.

(** A sign and its effect. *)
Definition split_sign (l : bytes) : bool * bytes :=
  match l with
  | c :: l' => if byte_val c =? 45 then (true, l') else if byte_val c =? 43 then (false, l') else (false, l)
  | [] => (false, [])
  end.
Definition signed (neg : bool) (n : Z) : Z := if neg then - n else n.

(** [fmt.Sscanf(s, "%d", &n)]: the number read, none on an error. Spaces are skipped, but
    not a line feed. *)
Definition scan_d (s : string) : option Z :=
  let l := s2l s in
  let rest := trim_left l in
  if existsb (λ c, byte_val c =? 10) (take (length l - length rest) l) then None
  else
    let '(neg, body) := split_sign rest in
    match leading_digits body with
    | [] => None
    | ds => let n := signed neg (digits_value ds) in if in_int64 n then Some n else None
    end.

(** [strconv.Atoi]. *)
Definition atoi (s : string) : option Z :=
  let '(neg, body) := split_sign (s2l s) in
  match body with
  | [] => None
  | _ => if forallb is_digit body then
           let n := signed neg (digits_value body) in if in_int64 n then Some n else None
         else None
  end.

(** A text between double quotes, for the JSON of constant messages. *)
Definition quoted (s : string) : string := String (Ascii.ascii_of_nat 34) (s +:+ String (Ascii.ascii_of_nat 34) "").

(** The line feed. *)
Definition lf : string := String (Ascii.ascii_of_nat 10) "".
