(* ===== verification/Quote.v ===== *)
(** [strconv.Quote], which the verb %q of [fmt] uses for strings: a text in double quotes
    with escapes.  A rune beyond ASCII is taken to be printable if it is valid UTF-8. *)
From stdpp Require Import pretty.
From S2P Require Import Prelude GoStrings.

Definition backslash : ascii := Ascii.ascii_of_nat 92.
Definition double_quote : ascii := Ascii.ascii_of_nat 34.

(** A hexadecimal digit in small letters. *)
Definition small_hex (n : Z) : ascii := ascii_of_N (Z.to_N (if n <? 10 then n + 48 else n + 87)).

(** The escapes with a letter: bell, backspace, form feed, newline, return, tab, vertical tab. *)
Definition letter_escape (n : Z) : option ascii :=
  match n with
  | 7 => Some "a"%char | 8 => Some "b"%char | 12 => Some "f"%char | 10 => Some "n"%char | 13 => Some "r"%char
  | 9 => Some "t"%char | 11 => Some "v"%char | _ => None
  end.

Definition hex_escape (c : ascii) : bytes :=
  [backslash; "x"%char; small_hex (Z.shiftr (byte_val c) 4); small_hex (Z.land (byte_val c) 15)].

(** A byte of ASCII. *)
Definition quote_ascii (c : ascii) : bytes :=
  if Ascii.eqb c backslash || Ascii.eqb c double_quote then [backslash; c]
  else if (32 <=? byte_val c) && (byte_val c <? 127) then [c]
  else match letter_escape (byte_val c) with Some l => [backslash; l] | None => hex_escape c end.

(** [skip] bytes of a rune are still to be copied. *)
Fixpoint quote_bytes (skip : nat) (l : bytes) : bytes :=
  match l with
  | [] => []
  | c :: l' =>
      match skip with
      | S skip => c :: quote_bytes skip l'
      | O =>
          if is_ascii_byte c then quote_ascii c ++ quote_bytes 0 l'
          else if (rune_width l =? 1)%nat then hex_escape c ++ quote_bytes 0 l'
          else c :: quote_bytes (rune_width l - 1) l'
      end
  end.

Definition go_quote (s : string) : string := quoted (l2s (quote_bytes 0 (s2l s))).

(** A text of letters and other plain characters is quoted as it is. *)
Definition plain_byte (c : ascii) : bool :=
  (32 <=? byte_val c) && (byte_val c <? 127) && negb (Ascii.eqb c backslash) && negb (Ascii.eqb c double_quote).

Lemma quote_plain l : forallb plain_byte l = true → quote_bytes 0 l = l.
Proof.
  induction l as [|c l IH]; [done|]. cbn. intros [Hc Hl]%andb_true_iff. unfold plain_byte in Hc.
  rewrite !andb_true_iff, !negb_true_iff, Z.leb_le, Z.ltb_lt in Hc. destruct Hc as [[[Hlo Hhi] Hb] Hq].
  unfold is_ascii_byte. rewrite (proj2 (Z.ltb_lt _ _)) by lia. unfold quote_ascii. rewrite Hb, Hq. cbn [orb].
  rewrite (proj2 (Z.leb_le _ _)), (proj2 (Z.ltb_lt _ _)) by lia. cbn. by rewrite IH.
Qed.

Lemma go_quote_plain s : forallb plain_byte (s2l s) = true → go_quote s = quoted s.
Proof. intros Hs. unfold go_quote. by rewrite (quote_plain _ Hs), l2s_s2l. Qed.
