(* ===== verification/Floats.v ===== *)
(** IEEE floating-point numbers, with the Standard Library's [SpecFloat]: Go's [float64]
    (53 bits, exponents up to 1024) and [float32] (24 bits, up to 128), rounding to
    nearest. *)
From Stdlib Require Export SpecFloat.
From S2P Require Import Prelude.

Abbreviation float64 := spec_float.
Abbreviation float32 := spec_float.

Definition f64_of_Z (z : Z) : float64 := binary_normalize 53 1024 z 0 false.
Definition f64_add : float64 → float64 → float64 := SFadd 53 1024.
Definition f64_sub : float64 → float64 → float64 := SFsub 53 1024.
Definition f64_mul : float64 → float64 → float64 := SFmul 53 1024.
Definition f64_div : float64 → float64 → float64 := SFdiv 53 1024.

(** The double nearest to [num/den]. *)
Definition f64_ratio (num den : Z) : float64 := f64_div (f64_of_Z num) (f64_of_Z den).

Definition f64_zero : float64 := f64_of_Z 0.
Definition f64_one : float64 := f64_of_Z 1.
Definition f64_half : float64 := f64_ratio 1 2.

(** [d.Seconds()] and [d.Hours()]. *)
Definition Seconds (d : duration) : float64 :=
  f64_add (f64_of_Z (d `quot` Second)) (f64_div (f64_of_Z (d `rem` Second)) (f64_of_Z 1000000000)).
Definition Hours (d : duration) : float64 :=
  f64_add (f64_of_Z (d `quot` Hour)) (f64_div (f64_of_Z (d `rem` Hour)) (f64_of_Z (60 * 60 * 1000000000))).

(** [int(x)] of a finite number: truncation. *)
Definition trunc_float (x : spec_float) : Z :=
  match x with
  | S754_finite s m e =>
      let a := if 0 <=? e then Z.shiftl (Z.pos m) e else Z.shiftr (Z.pos m) (- e) in
      if s then - a else a
  | _ => 0
  end.

Definition is_nan (x : spec_float) : bool := match x with S754_nan => true | _ => false end.

(** [math.Min(x, 1)]. *)
Definition min_one (x : float64) : float64 :=
  match x with
  | S754_nan => S754_nan
  | _ => if SFltb x f64_one then x else f64_one
  end.

(** ** The order *)

(** Case analysis of comparisons on signs, exponents and mantissas. *)
Ltac sf_cases :=
  repeat match goal with s : bool |- _ => destruct s end; try done;
  repeat match goal with
  | H : context [Z.compare ?x ?y] |- _ => destruct (Z.compare_spec x y)
  | |- context [Z.compare ?x ?y] => destruct (Z.compare_spec x y)
  end; try done; try lia;
  repeat match goal with
  | H : context [Pos.compare_cont Eq ?x ?y] |- _ => change (Pos.compare_cont Eq x y) with (Pos.compare x y) in H
  | |- context [Pos.compare_cont Eq ?x ?y] => change (Pos.compare_cont Eq x y) with (Pos.compare x y)
  | H : context [Pos.compare ?x ?y] |- _ => destruct (Pos.compare_spec x y)
  | |- context [Pos.compare ?x ?y] => destruct (Pos.compare_spec x y)
  end; simpl in *; try done; try lia.

Lemma SFleb_trans t s b :
  b ≠ S754_nan → SFleb t s = true → SFltb b s = false → SFleb t b = true.
Proof.
  unfold SFleb, SFltb, SFcompare. intros Hb Hts Hbs.
  destruct t as [st|st| |st mt et], s as [ss|ss| |ss ms es], b as [sb|sb| |sb mb eb]; try done;
    sf_cases.
Qed.

Lemma SFltb_asym x y : SFltb x y = true → SFltb y x = false ∧ y ≠ S754_nan.
Proof.
  unfold SFltb, SFcompare. intros H. split; [|by destruct x as [s| [] | |s m e], y].
  destruct x as [sx|sx| |sx mx ex], y as [sy|sy| |sy my ey]; try done;
    sf_cases.
Qed.


(** Not being less is transitive among numbers. *)
Lemma SFltb_false_trans x y z :
  is_nan x = false → is_nan y = false → is_nan z = false →
  SFltb y x = false → SFltb z y = false → SFltb z x = false.
Proof.
  unfold SFltb, SFcompare. intros Hx Hy Hz H1 H2.
  destruct x as [sx|sx| |sx mx ex], y as [sy|sy| |sy my ey], z as [sz|sz| |sz mz ez]; try done;
    sf_cases.
Qed.

#[global] Instance spec_float_eq_dec : EqDecision spec_float.
Proof. solve_decision. Defined.
