(* ===== verification/Values.v ===== *)
(** Go's dynamic values, as they come out of JSON and are kept in maps of type
    [map[string]any], and the sort of slices by a comparison. *)
From S2P Require Import Prelude GoStrings Floats.

(** [JNum] is an [int] or an integral [float64], [JFloat] any other [float64], [JStrs] a
    [[]string]. *)
Inductive jany :=
| JStr (s : string) | JBool (b : bool) | JNum (z : Z) | JFloat (x : float64)
| JArr (l : list jany) | JObj (l : list (string * jany)) | JStrs (l : list string) | JNull.

(** [m[key]] of a decoded object. *)
Definition jget (key : string) (m : list (string * jany)) : option jany :=
  snd <$> find_first (λ kv, bool_decide (kv.1 = key)) m.

(** [v, _ := x.(string)] and the like. *)
Definition as_str (v : option jany) : string := match v with Some (JStr s) => s | _ => "" end.
Definition as_bool (v : option jany) : bool := match v with Some (JBool b) => b | _ => false end.

(** The switch over [float64], [int] and [int64]. *)
Definition as_int (v : option jany) : Z :=
  match v with Some (JNum z) => z | Some (JFloat x) => trunc_float x | _ => 0 end.

Definition strs_of (l : list jany) : list string := omap (λ v, match v with JStr s => Some s | _ => None end) l.

(** The switch over [[]string] and [[]any] that keeps the strings; an empty list is nil. *)
Definition as_strs (v : option jany) : list string :=
  match v with Some (JStrs l) => l | Some (JArr l) => strs_of l | _ => [] end.

#[global] Instance jany_eq_dec : EqDecision jany.
Proof.
  refine (fix go (x y : jany) {struct x} : {x = y} + {x ≠ y} := _).
  destruct x as [a|a|a|a|l|m|l|], y as [b|b|b|b|k|n|k|]; try (right; congruence); try (left; reflexivity).
  - destruct (decide (a = b)); [left|right]; congruence.
  - destruct (decide (a = b)); [left|right]; congruence.
  - destruct (decide (a = b)); [left|right]; congruence.
  - destruct (spec_float_eq_dec a b); [left|right]; congruence.
  - assert ({l = k} + {l ≠ k}) as [?|?]; [|left; congruence|right; congruence].
    revert k. induction l as [|x l IH]; intros [|y k]; [by left|by right|by right|].
    destruct (go x y), (IH k); [left|right..]; congruence.
  - assert ({m = n} + {m ≠ n}) as [?|?]; [|left; congruence|right; congruence].
    revert n. induction m as [|[s x] m IH]; intros [|[t y] n]; [by left|by right|by right|].
    destruct (decide (s = t)), (go x y), (IH n); [left|right..]; congruence.
  - destruct (decide (l = k)); [left|right]; congruence.
Defined.

(** ** sort.Slice

    The sort is not stable: it gives some permutation in which no element is less than
    an earlier one, whenever [less] is a strict weak order on the elements. *)

Definition weak_order {A} (P : A → Prop) (less : A → A → bool) : Prop :=
  (∀ x y, P x → P y → less x y = true → less y x = false)
  ∧ (∀ x y z, P x → P y → P z → less x y = false → less y z = false → less x z = false).

Class SliceSort := {
  sort_slice : ∀ {A : Type}, (A → A → bool) → list A → list A;
  sort_slice_perm : ∀ {A : Type} (less : A → A → bool) l, sort_slice less l ≡ₚ l;
  sort_slice_sorted : ∀ {A : Type} (P : A → Prop) (less : A → A → bool) l,
    weak_order P less → Forall P l → StronglySorted (λ x y, less y x = false) (sort_slice less l);
}.

(** Insertion sort, which is stable, as an instance. *)
Fixpoint insert_by {A} (less : A → A → bool) (x : A) (l : list A) : list A :=
  match l with
  | [] => [x]
  | y :: l' => if less y x then y :: insert_by less x l' else x :: l
  end.
Definition insertion_sort {A} (less : A → A → bool) (l : list A) : list A := foldr (insert_by less) [] l.

Lemma insert_by_perm {A} (less : A → A → bool) x l : insert_by less x l ≡ₚ x :: l.
Proof.
  induction l as [|y l IH]; simpl; [done|]. destruct (less y x); [|done]. rewrite IH. apply Permutation_swap.
Qed.

Lemma insertion_sort_perm {A} (less : A → A → bool) l : insertion_sort less l ≡ₚ l.
Proof. induction l as [|x l IH]; simpl; [done|]. by rewrite insert_by_perm, IH. Qed.

Lemma insert_by_sorted {A} P (less : A → A → bool) x l :
  weak_order P less → P x → Forall P l → StronglySorted (λ x y, less y x = false) l →
  StronglySorted (λ x y, less y x = false) (insert_by less x l).
Proof.
  intros [Hasym Htrans] Hx Hl Hs. revert Hl. induction Hs as [|y l Hs IH Hy]; intros Hl; simpl; [by repeat constructor|].
  apply Forall_cons in Hl as [HPy Hl]. destruct (less y x) eqn:Hyx.
  - constructor; [by apply IH|]. rewrite insert_by_perm. constructor; [by apply Hasym|done].
  - constructor; [by constructor|]. constructor; [done|].
    rewrite Forall_forall in Hy, Hl |- *. intros z Hz. apply (Htrans z y x); auto.
Qed.

Lemma insertion_sort_sorted {A} P (less : A → A → bool) l :
  weak_order P less → Forall P l → StronglySorted (λ x y, less y x = false) (insertion_sort less l).
Proof.
  intros Hw. induction 1 as [|x l Hx Hl IH]; simpl; [constructor|].
  apply (insert_by_sorted P); [done|done| |done]. by rewrite insertion_sort_perm.
Qed.

Definition stable_sort : SliceSort := {|
  sort_slice := @insertion_sort;
  sort_slice_perm := @insertion_sort_perm;
  sort_slice_sorted := @insertion_sort_sorted;
|}.

(** Comparing by a floating-point score, larger scores first, where no score is a NaN. *)
Lemma score_order {A} (score : A → float64) :
  weak_order (λ x, is_nan (score x) = false) (λ x y, SFltb (score y) (score x)).
Proof.
  split.
  - intros x y _ _ H. by apply SFltb_asym in H as [H _].
  - intros x y z Hx Hy Hz H1 H2. by eapply (SFltb_false_trans _ (score y)).
Qed.
