(* ===== verification/Types.v ===== *)
(** The shared data of [pkg/types]: messages, routes, agent definitions, failover
    reasons, cron jobs and sender allowlists, with the operations the package
    defines on them. *)
From S2P Require Import Prelude GoStrings.

(** ** Errors

    The errors the program tells apart by identity are constructors; any other
    error is known by its [Error()] text.  An error returned as part of another one by
    [%w] stands for both: the prefix is left out where the text is not used. *)
Inductive goerror :=
| ErrCanceled
| ErrDeadlineExceeded
| ErrText (msg : string).

#[global] Instance goerror_eq_dec : EqDecision goerror.
Proof. solve_decision. Defined.

Definition error_text (e : goerror) : string :=
  match e with
  | ErrCanceled => "context canceled"
  | ErrDeadlineExceeded => "context deadline exceeded"
  | ErrText msg => msg
  end.

(** ** provider.go *)

(** [FailoverReason]; the empty reason [""] is [None] where the code uses it. *)
Inductive FailoverReason :=
| FailoverAuth | FailoverRateLimit | FailoverBilling | FailoverTimeout
| FailoverFormat | FailoverOverloaded | FailoverUnknown.

#[global] Instance FailoverReason_eq_dec : EqDecision FailoverReason.
Proof. solve_decision. Defined.

Definition all_reasons : list FailoverReason :=
  [FailoverAuth; FailoverRateLimit; FailoverBilling; FailoverTimeout;
   FailoverFormat; FailoverOverloaded; FailoverUnknown].

Definition reason_string (r : FailoverReason) : string :=
  match r with
  | FailoverAuth => "auth" | FailoverRateLimit => "rate_limit"
  | FailoverBilling => "billing" | FailoverTimeout => "timeout"
  | FailoverFormat => "format" | FailoverOverloaded => "overloaded"
  | FailoverUnknown => "unknown"
  end.

Definition reason_of_string (s : string) : option FailoverReason :=
  find_first (λ r, bool_decide (reason_string r = s)) all_reasons.

Lemma reason_of_string_string r : reason_of_string (reason_string r) = Some r.
Proof. by destruct r; vm_compute. Qed.

#[global] Instance FailoverReason_countable : Countable FailoverReason :=
  inj_countable reason_string reason_of_string reason_of_string_string.

(** The loop over the responses of [model.LLM]: the last one, or the first error. *)
Fixpoint last_response {A} (resp : option A) (l : list (result goerror A)) : result goerror (option A) :=
  match l with
  | [] => Ok resp
  | Err e :: _ => Err e
  | Ok r :: l => last_response (Some r) l
  end.

(** ** message.go *)

Record InboundMessage := {
  in_Channel : string; in_TenantID : string; in_UserID : string; in_SenderID : string;
  in_ChatID : string; in_Content : string; in_Media : list string;
  in_Metadata : gmap string string; in_SessionKey : string; in_AgentID : string;
  in_Timestamp : time;
}.

(** Go's zero value [InboundMessage{}]. *)
Definition zero_inbound : InboundMessage :=
  {| in_Channel := ""; in_TenantID := ""; in_UserID := ""; in_SenderID := "";
     in_ChatID := ""; in_Content := ""; in_Media := []; in_Metadata := ∅;
     in_SessionKey := ""; in_AgentID := ""; in_Timestamp := time_zero |}.

Definition EffectiveSessionKey (m : InboundMessage) : string :=
  if str_empty (in_SessionKey m)
  then in_TenantID m +:+ ":" +:+ in_UserID m +:+ ":" +:+ in_Channel m
  else in_SessionKey m.

Record OutboundMessage := {
  out_Channel : string; out_ChatID : string; out_Content : string;
  out_Media : list string; out_Metadata : gmap string string;
}.

(** ** agent.go *)

Record PeerMatch := { pm_Kind : string; pm_ID : string }.

Record AgentRoute := {
  route_AgentID : string; route_Channel : string; route_ChatID : string;
  route_AccountID : string; route_Peer : option PeerMatch; route_GuildID : string;
  route_TeamID : string; route_Priority : Z; route_IsDefault : bool;
}.

(** [route.AgentID = id] on a copy of the route. *)
Definition route_with_agent (id : string) (r : AgentRoute) : AgentRoute :=
  {| route_AgentID := id; route_Channel := route_Channel r; route_ChatID := route_ChatID r;
     route_AccountID := route_AccountID r; route_Peer := route_Peer r;
     route_GuildID := route_GuildID r; route_TeamID := route_TeamID r;
     route_Priority := route_Priority r; route_IsDefault := route_IsDefault r |}.

Record AgentDefinition := {
  def_ID : string; def_Name : string; def_Description : string; def_Model : string;
  def_IsDefault : bool; def_Routes : list AgentRoute;
}.

(** ** scheduler.go *)

(** The three schedule kinds with the fields each uses; an unknown kind string is
    [ScheduleOther]. *)
Inductive CronSchedule :=
| ScheduleAt (AtTime : time)
| ScheduleEvery (Interval : duration)
| ScheduleCron (Expr Timezone : string)
| ScheduleOther (Kind : string).

Record CronJobState := {
  NextRunAt : time; LastRunAt : time; LastStatus : string; LastError : string;
}.

Record CronJob := {
  job_ID : string; job_TenantID : string; job_UserID : string; job_Name : string;
  job_Enabled : bool; job_Schedule : CronSchedule; job_Message : string;
  job_Channel : string; job_ChatID : string; job_DeleteAfterRun : bool;
  job_State : CronJobState; job_CreatedAt : time;
}.

Record CronJobLog := {
  log_JobID : string; log_RunAt : time; log_DurationMs : Z;
  log_Status : string; log_Error : string;
}.

(** ** allowlist.go *)

Inductive AllowlistMode := AllowlistModeTrigger | AllowlistModeDrop | AllowlistModeOther (s : string).

#[global] Instance AllowlistMode_eq_dec : EqDecision AllowlistMode.
Proof. solve_decision. Defined.

Record AllowlistEntry := { al_Allow : list string; al_Mode : AllowlistMode }.
Record SenderAllowlist := { al_Default : AllowlistEntry; al_Chats : gmap string AllowlistEntry }.

Definition GetEntry (a : SenderAllowlist) (chatID : string) : AllowlistEntry :=
  match al_Chats a !! chatID with Some e => e | None => al_Default a end.

Definition is_star (l : list string) : bool :=
  match l with [s] => bool_decide (s = "*"%string) | _ => false end.

Definition al_IsAllowed (a : SenderAllowlist) (chatID senderID : string) : bool :=
  let entry := GetEntry a chatID in
  if is_star (al_Allow entry) then true
  else existsb (λ id, bool_decide (id = senderID)) (al_Allow entry).

Definition ShouldDrop (a : SenderAllowlist) (chatID senderID : string) : bool :=
  if al_IsAllowed a chatID senderID then false
  else bool_decide (al_Mode (GetEntry a chatID) = AllowlistModeDrop).

(** ** The message bus

    The interface [types.MessageBus], split by direction: what its producers of inbound
    and of outbound messages rely on. *)

Class InboundBus (B : Type) := {
  bus_PublishInbound : InboundMessage → B → B * option goerror;
}.

Class MessageBus (B : Type) := {
  bus_PublishOutbound : OutboundMessage → B → B * option goerror;
}.
