(* ===== verification/Stores.v ===== *)
(** [pkg/types/workspace.go] and the store interfaces of [pkg/types/storage.go], as far as
    the modelled parts use them.  A store is a state; its answers may be errors. *)
From S2P Require Import Prelude GoStrings Floats Values Types.

(** ** workspace.go *)

Definition DefaultTenantID : string := "default".
Definition DefaultUserID : string := "user".
Definition StatusPublished : string := "published".

Abbreviation config := (list (string * jany)) (only parsing).

Record Tenant := { tn_TenantID : string; tn_Name : string; tn_GroupID : string; tn_Config : config; tn_CreatedAt : time }.

Record WorkspaceDoc := { wd_TenantID : string; wd_DocType : string; wd_Content : string; wd_Version : Z; wd_UpdatedAt : time }.

Record UserWorkspaceDoc := {
  ud_TenantID : string; ud_UserID : string; ud_DocType : string; ud_Content : string; ud_Version : Z;
  ud_UpdatedAt : time;
}.

Inductive SkillTier := SkillTierBuiltin | SkillTierGlobal | SkillTierGroup | SkillTierOther (s : string).

#[global] Instance SkillTier_eq_dec : EqDecision SkillTier.
Proof. solve_decision. Defined.

Definition tier_string (t : SkillTier) : string :=
  match t with
  | SkillTierBuiltin => "builtin" | SkillTierGlobal => "global" | SkillTierGroup => "group" | SkillTierOther s => s
  end.

Record SkillRecord := {
  sr_ID : Z; sr_Name : string; sr_Description : string; sr_Version : string; sr_ObjectPath : string;
  sr_Tier : SkillTier; sr_AlwaysLoad : bool; sr_Status : string; sr_Metadata : config;
  sr_CreatedAt : time; sr_UpdatedAt : time;
}.

Record TenantSkill := {
  ts_TenantID : string; ts_SkillID : Z; ts_AlwaysLoad : option bool; ts_Config : config; ts_Priority : Z;
  ts_InstalledAt : time;
}.

Record SkillProposal := {
  sp_ID : Z; sp_SkillName : string; sp_ProposedBy : string; sp_ObjectPath : string; sp_Status : string;
  sp_ReviewedBy : string; sp_CreatedAt : time;
}.

(** ** storage.go *)

Class TenantStore (S : Type) := {
  tns_Get : string → S → result goerror (option Tenant);  (* [None] is nil *)
  tns_Put : Tenant → S → S * option goerror;
  tns_List : string → S → result goerror (list Tenant);  (* of a group, or of all *)
}.

(** The document stores: [Ok None] is a nil document without an error. *)
Class WorkspaceStore (S : Type) := {
  ws_Get : string → string → S → result goerror (option WorkspaceDoc);
  ws_Put : WorkspaceDoc → S → S * option goerror;
}.

Class UserWorkspaceStore (S : Type) := {
  uws_Get : string → string → string → S → result goerror (option UserWorkspaceDoc);
  uws_Put : UserWorkspaceDoc → S → S * option goerror;
}.

(** An empty tier or status stands for all; the tier is its text. *)
Record SkillListOpts := { slo_Tier : string; slo_Status : string }.

Class SkillRegistryStore (S : Type) := {
  srs_Get : string → S → result goerror (option SkillRecord);
  srs_GetByID : Z → S → result goerror (option SkillRecord);
  srs_GetByIDs : list Z → S → result goerror (list SkillRecord);
  srs_List : SkillListOpts → S → result goerror (list SkillRecord);
  srs_Put : SkillRecord → S → S * option goerror;
  srs_Delete : string → S → S * option goerror;
}.

Class TenantSkillStore (S : Type) := {
  tss_Install : TenantSkill → S → S * option goerror;
  tss_Uninstall : string → Z → S → S * option goerror;
  tss_ListInstalled : string → S → result goerror (list TenantSkill);
  tss_UpdateConfig : string → Z → config → S → S * option goerror;
}.

Class SkillProposalStore (S : Type) := {
  sps_Create : SkillProposal → S → S * option goerror;
  sps_Get : Z → S → result goerror SkillProposal;
  sps_List : string → S → result goerror (list SkillProposal);
  sps_UpdateStatus : Z → string → string → S → S * option goerror;
}.

(** Object storage: [Get] reads the whole object, or fails. *)
Class ObjectStore (S : Type) := {
  obj_Put : string → string → S → S * option goerror;
  obj_Get : string → S → result goerror string;
  obj_Delete : string → S → S * option goerror;
}.

(** ** Vectors *)

Abbreviation payload := (gmap string jany).

Record VectorResult := { vr_ID : string; vr_Score : spec_float; vr_Payload : payload }.

Class VectorStore (St Vec : Type) := {
  vs_EnsureCollection : string → St → St * option goerror;
  vs_Search : string → Vec → payload → Z → St → result goerror (list VectorResult);
  vs_Upsert : string → string → Vec → payload → St → St * option goerror;
  vs_Delete : string → payload → St → St * option goerror;
  (* the point with an identifier in a collection, for the laws *)
  vs_point : string → string → St → option (Vec * payload);
}.

Class VectorLaws (St Vec : Type) `{VectorStore St Vec} := {
  ensure_points coll s c id : vs_point c id (vs_EnsureCollection coll s).1 = vs_point c id s;
  search_points coll v f k s l r :
    vs_Search coll v f k s = Ok l → r ∈ l → ∃ v', vs_point coll (vr_ID r) s = Some (v', vr_Payload r);
  upsert_ok coll id v p s s' :
    vs_Upsert coll id v p s = (s', None) → vs_point coll id s' = Some (v, p);
  upsert_fails coll id v p s s' e :
    vs_Upsert coll id v p s = (s', Some e) → vs_point coll id s' = vs_point coll id s ∨ vs_point coll id s' = Some (v, p);
  upsert_other coll id v p s c id' :
    (c, id') ≠ (coll, id) → vs_point c id' (vs_Upsert coll id v p s).1 = vs_point c id' s;
}.

(** What a filter means: the fields it names have the values it gives. *)
Class VectorFilterLaws (St Vec : Type) `{VectorStore St Vec} := {
  search_filter coll v f k s l r : vs_Search coll v f k s = Ok l → r ∈ l → f ⊆ vr_Payload r;
  delete_ok coll f s s' c id : vs_Delete coll f s = (s', None) →
    vs_point c id s' = match vs_point c id s with
                       | Some vp => if bool_decide (c = coll ∧ f ⊆ vp.2) then None else Some vp
                       | None => None
                       end;
  delete_fails coll f s s' e c id : vs_Delete coll f s = (s', Some e) →
    vs_point c id s' = vs_point c id s
    ∨ vs_point c id s' = None ∧ ∃ vp, vs_point c id s = Some vp ∧ c = coll ∧ f ⊆ vp.2;
}.
