(* ===== verification/Genai.v ===== *)
(** The data of the Gemini and ADK packages that the provider converters read and build,
    [genai.Content] and [model.LLMResponse] with the fields they use, the JSON codec for
    the maps of tool calls, and the consumer of a stream of responses.

    A nil pointer is [None]. *)
From S2P Require Import Prelude GoStrings Floats Values Types.

Abbreviation object := (list (string * jany)) (only parsing).

(** [json.Marshal] of a map and of a string, [json.Unmarshal] into them; a nil map is
    [None].  Marshalling can fail on values that have no JSON form. *)
Class ArgsCodec := {
  marshal_map : option object → option string;
  unmarshal_map : string → option (option object);
  marshal_string : string → string;
  unmarshal_string : string → option string;
}.

Class ArgsCodecLaws `{ArgsCodec} := {
  map_roundtrip m s : marshal_map m = Some s → unmarshal_map s = Some m ∧ s ≠ ""%string;
  string_roundtrip s : unmarshal_string (marshal_string s) = Some s ∧ marshal_string s ≠ ""%string;
}.

(** [_ = json.Unmarshal(s, &v)]: the variable stays as it is when the text is not JSON. *)
Definition args_of `{ArgsCodec} (s : string) : option object := default None (unmarshal_map s).
Definition string_of `{ArgsCodec} (s : string) : string := default ""%string (unmarshal_string s).

Record GCall := { fcall_ID : string; fcall_Name : string; fcall_Args : option object }.
Record GResp := { frsp_ID : string; frsp_Name : string; frsp_Response : option object }.
Record Blob := { blob_MIMEType : string; blob_Data : string }.

Record GPart := {
  gp_Text : string; gp_FunctionCall : option GCall; gp_FunctionResponse : option GResp; gp_InlineData : option Blob;
}.

Record GContent := { gc_Role : string; gc_Parts : list (option GPart) }.

Definition text_gpart (text : string) : GPart :=
  {| gp_Text := text; gp_FunctionCall := None; gp_FunctionResponse := None; gp_InlineData := None |}.
Definition call_gpart (c : GCall) : GPart :=
  {| gp_Text := ""; gp_FunctionCall := Some c; gp_FunctionResponse := None; gp_InlineData := None |}.

Inductive GSchema := MkSchema (typ desc : string) (required enum : list string) (items : option GSchema)
                              (properties : list (string * option GSchema)).

Record FunctionDeclaration := { fd_Name : string; fd_Description : string; fd_Parameters : option GSchema }.

Record GConfig := {
  cf_Temperature : option float32; cf_TopP : option float32; cf_TopK : option float32;
  cf_StopSequences : option (list string); cf_MaxOutputTokens : Z; cf_SystemInstruction : option GContent;
  cf_Tools : list (list FunctionDeclaration);
}.

Record LLMRequest := { rq_Config : option GConfig; rq_Contents : list (option GContent) }.

Inductive FinishReason := FinishReasonNone | FinishReasonStop | FinishReasonMaxTokens | FinishReasonOther.

Record UsageMetadata := { um_Prompt : Z; um_Candidates : Z; um_Total : Z }.

Record LLMResponse := {
  lr_Content : option GContent; lr_Partial : bool; lr_TurnComplete : bool; lr_FinishReason : FinishReason;
  lr_Usage : option UsageMetadata; lr_ErrorCode : string;
}.

Definition partial_response (p : GPart) : LLMResponse :=
  {| lr_Content := Some {| gc_Role := "model"; gc_Parts := [Some p] |}; lr_Partial := true; lr_TurnComplete := false;
     lr_FinishReason := FinishReasonNone; lr_Usage := None; lr_ErrorCode := "" |}.
Definition content_response (ps : list GPart) : LLMResponse :=
  {| lr_Content := Some {| gc_Role := "model"; gc_Parts := Some <$> ps |}; lr_Partial := false; lr_TurnComplete := false;
     lr_FinishReason := FinishReasonNone; lr_Usage := None; lr_ErrorCode := "" |}.
Definition final_response (r : FinishReason) (u : option UsageMetadata) : LLMResponse :=
  {| lr_Content := None; lr_Partial := false; lr_TurnComplete := true; lr_FinishReason := r; lr_Usage := u; lr_ErrorCode := "" |}.

(** [int32(n)]. *)
Definition wrap32 (n : Z) : Z := (n + 2 ^ 31) `mod` 2 ^ 32 - 2 ^ 31.

(** The text of the prefix of an event line and what follows it. *)
Definition sse_data (line : string) : option string :=
  if has_prefix line "data: " then Some (trim_prefix line "data: ") else None.

(** A concrete codec, for the witnesses: the nil map and the empty object, and strings
    between one quote and their end. *)
#[global] Instance small_codec : ArgsCodec := {|
  marshal_map m := match m with None => Some "null"%string | Some [] => Some "{}"%string | _ => None end;
  unmarshal_map s := if bool_decide (s = "null"%string) then Some None
                     else if bool_decide (s = "{}"%string) then Some (Some []) else None;
  marshal_string s := "'" +:+ s;
  unmarshal_string s := match s with String "'"%char t => Some t | _ => None end;
|}.

#[global] Instance small_codec_laws : ArgsCodecLaws.
Proof. split; [|done]. intros [[|[]]|] t [= <-]; done. Qed.
