(* ===== verification/Cooldown.v ===== *)
(** [pkg/providers/fallback/cooldown.go]: the per-provider cooldown tracker of the
    failover chain, with its exponential backoff tables.  Every method holds the
    tracker's mutex for its whole body, so each is one atomic state change; the
    clock reading [ct.nowFunc()] is the argument [now]. *)
From S2P Require Import Prelude GoStrings Types.

Definition defaultFailureWindow : duration := 24 * Hour.

(** ** State *)

Record cooldownEntry := CooldownEntry {
  ErrorCount_ : Z;
  FailureCounts : gmap FailoverReason Z;
  CooldownEnd : time;
  DisabledUntil : time;
  DisabledReason : option FailoverReason;
  LastFailure : time;
}.

Record CooldownTracker := Tracker {
  ct_entries : gmap string cooldownEntry;
  ct_failureWindow : duration;
}.

Definition NewCooldownTracker : CooldownTracker := Tracker ∅ defaultFailureWindow.

(** ** Backoff *)

(** [math.Pow(5, float64(exp))] for [0 <= exp <= 3] is exact in a float64, and so
    is the conversion back to [Duration]. *)
Definition CalculateCooldown (errorCount : Z) : duration :=
  if errorCount <=? 0 then 0
  else
    let exp := Z.min (errorCount - 1) 3 in
    let raw := 5 ^ exp in
    if Hour / Minute <? raw then Hour
    else Z.min (Minute * raw) Hour.

(** [baseMs * math.Pow(2, float64(exp))] is below 2^53, hence exact. *)
Definition calculateBillingCooldown (billingErrorCount : Z) : duration :=
  let baseMs := 5 * 60 * 60 * 1000 in
  let maxMs := 24 * 60 * 60 * 1000 in
  let n := Z.max 1 billingErrorCount in
  let exp := Z.min (n - 1) 10 in
  let raw := baseMs * 2 ^ exp in
  if maxMs <? raw then maxMs * Millisecond else raw * Millisecond.

(** ** Operations *)

Definition new_entry : cooldownEntry := CooldownEntry 0 ∅ time_zero time_zero None time_zero.

(** [getOrCreate]: the entry of the provider, a fresh one if there is none (the
    caller stores it back). *)
Definition getOrCreate (ct : CooldownTracker) (provider : string) : cooldownEntry :=
  default new_entry (ct_entries ct !! provider).

Definition put_entry (provider : string) (e : cooldownEntry) (ct : CooldownTracker) : CooldownTracker :=
  Tracker (<[provider := e]> (ct_entries ct)) (ct_failureWindow ct).

(** [m[k]] of a Go map of integers: zero when absent. *)
Definition count_of (m : gmap FailoverReason Z) (r : FailoverReason) : Z := default 0 (m !! r).

Definition reset_counts (e : cooldownEntry) : cooldownEntry :=
  CooldownEntry 0 ∅ (CooldownEnd e) (DisabledUntil e) (DisabledReason e) (LastFailure e).

Definition window_expired (window : duration) (now : time) (e : cooldownEntry) : bool :=
  negb (IsZero (LastFailure e)) && (window <? time_sub now (LastFailure e)).

(** [entry.ErrorCount++; entry.FailureCounts[reason]++; entry.LastFailure = now]. *)
Definition count_failure (reason : FailoverReason) (now : time) (e : cooldownEntry) : cooldownEntry :=
  CooldownEntry (ErrorCount_ e + 1)
    (<[reason := count_of (FailureCounts e) reason + 1]> (FailureCounts e))
    (CooldownEnd e) (DisabledUntil e) (DisabledReason e) now.

Definition set_cooldown (reason : FailoverReason) (now : time) (e : cooldownEntry) : cooldownEntry :=
  if bool_decide (reason = FailoverBilling) then
    CooldownEntry (ErrorCount_ e) (FailureCounts e) (CooldownEnd e)
      (time_add now (calculateBillingCooldown (count_of (FailureCounts e) FailoverBilling)))
      (Some FailoverBilling) (LastFailure e)
  else
    CooldownEntry (ErrorCount_ e) (FailureCounts e)
      (time_add now (CalculateCooldown (ErrorCount_ e)))
      (DisabledUntil e) (DisabledReason e) (LastFailure e).

Definition fail_entry (window : duration) (reason : FailoverReason) (now : time)
    (e : cooldownEntry) : cooldownEntry :=
  set_cooldown reason now (count_failure reason now
    (if window_expired window now e then reset_counts e else e)).

Definition MarkFailure (provider : string) (reason : FailoverReason) (now : time)
    (ct : CooldownTracker) : CooldownTracker :=
  put_entry provider (fail_entry (ct_failureWindow ct) reason now (getOrCreate ct provider)) ct.

Definition MarkSuccess (provider : string) (ct : CooldownTracker) : CooldownTracker :=
  match ct_entries ct !! provider with
  | None => ct
  | Some e => put_entry provider
                (CooldownEntry 0 ∅ time_zero time_zero None (LastFailure e)) ct
  end.

(** [!t.IsZero() && now.Before(t)]. *)
Definition pending (t now : time) : bool := negb (IsZero t) && Before now t.

Definition IsAvailable (ct : CooldownTracker) (provider : string) (now : time) : bool :=
  match ct_entries ct !! provider with
  | None => true
  | Some e =>
      if pending (DisabledUntil e) now then false
      else if pending (CooldownEnd e) now then false
      else true
  end.

Definition CooldownRemaining (ct : CooldownTracker) (provider : string) (now : time) : duration :=
  match ct_entries ct !! provider with
  | None => 0
  | Some e =>
      let r1 := if pending (DisabledUntil e) now
                then Z.max 0 (time_sub (DisabledUntil e) now) else 0 in
      if pending (CooldownEnd e) now then Z.max r1 (time_sub (CooldownEnd e) now) else r1
  end.

Definition ErrorCount (ct : CooldownTracker) (provider : string) : Z :=
  match ct_entries ct !! provider with None => 0 | Some e => ErrorCount_ e end.

Definition FailureCount (ct : CooldownTracker) (provider : string) (reason : FailoverReason) : Z :=
  match ct_entries ct !! provider with None => 0 | Some e => count_of (FailureCounts e) reason end.

(** ** Specification *)

(** The backoff a failure sets: what the doc comments of the two tables promise. *)
Definition backoff_spec (n : Z) : duration :=
  if n <=? 0 then 0 else if n =? 1 then 1 * Minute else if n =? 2 then 5 * Minute
  else if n =? 3 then 25 * Minute else 60 * Minute.

Definition billing_spec (n : Z) : duration :=
  if n <=? 1 then 5 * Hour else if n =? 2 then 10 * Hour else if n =? 3 then 20 * Hour
  else 24 * Hour.

(** The tracker's operations as a step relation, for invariants over histories. *)
Inductive ct_step : CooldownTracker → CooldownTracker → Prop :=
| step_failure ct p r now : 0 < now → ct_step ct (MarkFailure p r now ct)
| step_success ct p : ct_step ct (MarkSuccess p ct).

(** Total failures recorded by reason. *)
Definition sum_failures (m : gmap FailoverReason Z) : Z :=
  foldr (λ r acc, count_of m r + acc) 0 all_reasons.

Definition entry_ok (e : cooldownEntry) : Prop :=
  ErrorCount_ e = sum_failures (FailureCounts e)
  ∧ (∀ r, 0 ≤ count_of (FailureCounts e) r)
  ∧ (IsZero (DisabledUntil e) = true ↔ DisabledReason e = None).

Definition tracker_ok (ct : CooldownTracker) : Prop :=
  ∀ p e, ct_entries ct !! p = Some e → entry_ok e.

(** ** Lemmas *)

Lemma CalculateCooldown_table n : CalculateCooldown n = backoff_spec n.
Proof.
  unfold CalculateCooldown, backoff_spec.
  destruct (Z.leb_spec n 0); [done|].
  destruct (Z.eqb_spec n 1) as [->|]; [done|].
  destruct (Z.eqb_spec n 2) as [->|]; [done|].
  destruct (Z.eqb_spec n 3) as [->|]; [done|].
  replace (Z.min (n - 1) 3) with 3 by lia. done.
Qed.

Lemma calculateBillingCooldown_table n : calculateBillingCooldown n = billing_spec n.
Proof.
  unfold calculateBillingCooldown, billing_spec.
  destruct (Z.leb_spec n 1); [by replace (Z.max 1 n) with 1 by lia|].
  destruct (Z.eqb_spec n 2) as [->|]; [done|].
  destruct (Z.eqb_spec n 3) as [->|]; [done|].
  replace (Z.max 1 n) with n by lia.
  assert (2 ^ 3 ≤ 2 ^ Z.min (n - 1) 10) by (apply Z.pow_le_mono_r; lia).
  destruct (Z.ltb_spec (24 * 60 * 60 * 1000) (5 * 60 * 60 * 1000 * 2 ^ Z.min (n - 1) 10)); [done|].
  lia.
Qed.

Ltac unfold_units :=
  unfold Hour, Minute, Second, Millisecond in *.

Lemma CalculateCooldown_pos n : 0 < n → 0 < CalculateCooldown n ≤ Hour.
Proof.
  intros. rewrite CalculateCooldown_table. unfold backoff_spec, Hour, Minute, Second, Millisecond.
  destruct (Z.leb_spec n 0), (Z.eqb_spec n 1), (Z.eqb_spec n 2), (Z.eqb_spec n 3); lia.
Qed.

Lemma calculateBillingCooldown_pos n : 0 < calculateBillingCooldown n ≤ 24 * Hour.
Proof.
  rewrite calculateBillingCooldown_table. unfold billing_spec, Hour, Minute, Second, Millisecond.
  destruct (Z.leb_spec n 1), (Z.eqb_spec n 2), (Z.eqb_spec n 3); lia.
Qed.

Lemma count_of_insert m r r' n :
  count_of (<[r := n]> m) r' = if decide (r = r') then n else count_of m r'.
Proof. unfold count_of. rewrite lookup_insert. by case_decide. Qed.

Lemma sum_failures_insert m r :
  sum_failures (<[r := count_of m r + 1]> m) = sum_failures m + 1.
Proof.
  unfold sum_failures, all_reasons. simpl. rewrite !count_of_insert.
  destruct r; simpl; lia.
Qed.

Lemma pending_true t now : 0 < t → pending t now = (now <? t).
Proof. unfold pending, IsZero, Before. intros. by rewrite (proj2 (Z.eqb_neq t 0)) by lia. Qed.

Lemma put_entry_lookup p q e ct :
  ct_entries (put_entry p e ct) !! q = if decide (p = q) then Some e else ct_entries ct !! q.
Proof. simpl. rewrite lookup_insert. done. Qed.

Lemma new_entry_ok : entry_ok new_entry.
Proof.
  unfold entry_ok, new_entry, sum_failures, count_of; simpl. rewrite !lookup_empty. simpl.
  repeat split; try done.
Qed.

Lemma reset_counts_ok e : entry_ok e → entry_ok (reset_counts e).
Proof.
  intros (_ & _ & ?). destruct new_entry_ok as (? & ? & _).
  repeat split; simpl; try done; tauto.
Qed.

Lemma fail_entry_ok w r now e : 0 < now → entry_ok e → entry_ok (fail_entry w r now e).
Proof.
  intros Hnow He. unfold fail_entry.
  assert (entry_ok (if window_expired w now e then reset_counts e else e)) as He'
    by (destruct (window_expired w now e); auto using reset_counts_ok).
  revert He'. generalize (if window_expired w now e then reset_counts e else e).
  clear e He. intros e (Hsum & Hpos & Hdis).
  assert (∀ r', 0 ≤ count_of (FailureCounts (count_failure r now e)) r') as Hpos'.
  { intros r'. simpl. rewrite count_of_insert. case_decide; [|done]. specialize (Hpos r). lia. }
  pose proof (calculateBillingCooldown_pos (count_of (FailureCounts (count_failure r now e)) FailoverBilling)).
  unfold set_cooldown. case_bool_decide; (split_and!; [by simpl; rewrite sum_failures_insert, Hsum|done|]);
    [|done].
  cbn [DisabledUntil DisabledReason]. unfold IsZero, time_add. rewrite Z.eqb_eq. split; [lia|done].
Qed.

Lemma MarkSuccess_entry ct p e :
  ct_entries (MarkSuccess p ct) !! p = Some e →
  ErrorCount_ e = 0 ∧ FailureCounts e = ∅ ∧ CooldownEnd e = 0 ∧ DisabledUntil e = 0
  ∧ DisabledReason e = None.
Proof.
  unfold MarkSuccess. destruct (ct_entries ct !! p) as [e0|] eqn:He; [|congruence].
  rewrite put_entry_lookup. case_decide; [|done]. intros. by simplify_eq/=.
Qed.

Lemma MarkFailure_entry ct p r now :
  ct_entries (MarkFailure p r now ct) !! p
  = Some (fail_entry (ct_failureWindow ct) r now (getOrCreate ct p)).
Proof. unfold MarkFailure. rewrite put_entry_lookup. by case_decide. Qed.

Lemma getOrCreate_ok ct p : tracker_ok ct → entry_ok (getOrCreate ct p).
Proof.
  intros Hct. unfold getOrCreate. destruct (ct_entries ct !! p) as [e|] eqn:He; simpl;
    eauto using new_entry_ok.
Qed.

(** What is blocked after the operations, entry by entry. *)
Definition blocked (e : cooldownEntry) (t : time) : bool :=
  pending (DisabledUntil e) t || pending (CooldownEnd e) t.

Lemma IsAvailable_blocked ct p t :
  IsAvailable ct p t = negb (blocked (getOrCreate ct p) t).
Proof.
  unfold IsAvailable, getOrCreate, blocked. destruct (ct_entries ct !! p) as [e|]; simpl; [|done].
  by destruct (pending (DisabledUntil e) t), (pending (CooldownEnd e) t).
Qed.

Lemma getOrCreate_MarkFailure ct p r now q :
  getOrCreate (MarkFailure p r now ct) q
  = if decide (p = q) then fail_entry (ct_failureWindow ct) r now (getOrCreate ct p)
    else getOrCreate ct q.
Proof.
  unfold getOrCreate at 1, MarkFailure. rewrite put_entry_lookup. by case_decide.
Qed.

Lemma ErrorCount_getOrCreate ct p : ErrorCount ct p = ErrorCount_ (getOrCreate ct p).
Proof. unfold ErrorCount, getOrCreate. by destruct (ct_entries ct !! p). Qed.

Lemma FailureCount_getOrCreate ct p r :
  FailureCount ct p r = count_of (FailureCounts (getOrCreate ct p)) r.
Proof. unfold FailureCount, getOrCreate. by destruct (ct_entries ct !! p). Qed.

(** The error count after a failure: one more than before, or one if the last
    failure fell out of the window. *)
Lemma fail_entry_count w r now e :
  ErrorCount_ (fail_entry w r now e)
  = (if window_expired w now e then 0 else ErrorCount_ e) + 1.
Proof. unfold fail_entry, set_cooldown. case_bool_decide; simpl; by destruct (window_expired w now e). Qed.

Lemma fail_entry_last w r now e : LastFailure (fail_entry w r now e) = now.
Proof. unfold fail_entry, set_cooldown. by case_bool_decide. Qed.

Lemma fail_entry_window_kept w now e :
  DisabledUntil (if window_expired w now e then reset_counts e else e) = DisabledUntil e
  ∧ CooldownEnd (if window_expired w now e then reset_counts e else e) = CooldownEnd e.
Proof. by destruct (window_expired w now e). Qed.

Lemma negb_blocked_iff e t :
  negb (blocked e t) = true ↔
  pending (DisabledUntil e) t = false ∧ pending (CooldownEnd e) t = false.
Proof. unfold blocked. destruct (pending _ _), (pending _ _); naive_solver. Qed.

Lemma pending_false_iff t now : 0 < t → pending t now = false ↔ t ≤ now.
Proof. intros. rewrite pending_true by done. by rewrite Z.ltb_ge. Qed.

(** [fail_many p fs ct]: the failures [fs], reason and time, one after the other. *)
Definition fail_many (p : string) (fs : list (FailoverReason * time)) (ct : CooldownTracker) :
    CooldownTracker :=
  foldl (λ ct '(r, t), MarkFailure p r t ct) ct fs.

(** Each failure comes at most [w] after the one before, the first after [t0]. *)
Fixpoint spaced (w : duration) (t0 : time) (fs : list (FailoverReason * time)) : Prop :=
  match fs with
  | [] => True
  | (_, t) :: fs => t0 ≤ t ≤ t0 + w ∧ spaced w t fs
  end.

Lemma fail_many_count p fs ct :
  0 ≤ ct_failureWindow ct < max_int64 →
  0 < LastFailure (getOrCreate ct p) →
  spaced (ct_failureWindow ct) (LastFailure (getOrCreate ct p)) fs →
  ErrorCount (fail_many p fs ct) p = ErrorCount ct p + Z.of_nat (length fs).
Proof.
  revert ct. induction fs as [|[r t] fs IH]; intros ct Hw Hlast Hs; simpl; [lia|].
  destruct Hs as [Ht Hs].
  assert (getOrCreate (MarkFailure p r t ct) p
          = fail_entry (ct_failureWindow ct) r t (getOrCreate ct p)) as Hg.
  { rewrite getOrCreate_MarkFailure. by case_decide. }
  assert (window_expired (ct_failureWindow ct) t (getOrCreate ct p) = false) as Hwe.
  { unfold window_expired. apply andb_false_iff. right. apply Z.ltb_ge.
    pose proof (time_sub_gt t (LastFailure (getOrCreate ct p)) (ct_failureWindow ct)). lia. }
  unfold fail_many in *. simpl. rewrite IH; rewrite ?Hg, ?fail_entry_last; try done; [|lia].
  rewrite !ErrorCount_getOrCreate, Hg, fail_entry_count, Hwe. lia.
Qed.

(** ** Properties *)

(** The doc tables of the two backoff functions are what the arithmetic
    computes: 1, 5, 25 minutes then one hour; 5, 10, 20 hours then one day; both
    are monotone in the error count. *)
Theorem backoff_tables :
  (∀ n, CalculateCooldown n = backoff_spec n)
  ∧ (∀ n, calculateBillingCooldown n = billing_spec n)
  ∧ (∀ n m, n ≤ m → CalculateCooldown n ≤ CalculateCooldown m)
  ∧ (∀ n m, n ≤ m → calculateBillingCooldown n ≤ calculateBillingCooldown m).
Proof.
  split_and!; [apply CalculateCooldown_table|apply calculateBillingCooldown_table| |];
    intros n m ?; rewrite ?CalculateCooldown_table, ?calculateBillingCooldown_table;
    unfold backoff_spec, billing_spec; unfold_units;
    repeat (case_match; bool_arith; try lia).
Qed.

(** Exactly what a recorded failure blocks.  After [MarkFailure p r now] the
    provider is available again at the backoff of its new error count (billing: of
    its billing count), unless the other of the two timers was already running; the
    failures in the window add up, a failure after the window starts again at one;
    the other providers are not touched. *)
Theorem MarkFailure_blocks ct p r now t :
  0 < now →
  let ct' := MarkFailure p r now ct in
  let old := getOrCreate ct p in
  (r ≠ FailoverBilling →
     IsAvailable ct' p t = true ↔
     now + backoff_spec (ErrorCount ct' p) ≤ t ∧ pending (DisabledUntil old) t = false)
  ∧ (r = FailoverBilling →
     IsAvailable ct' p t = true ↔
     now + billing_spec (FailureCount ct' p FailoverBilling) ≤ t
     ∧ pending (CooldownEnd old) t = false)
  ∧ ErrorCount ct' p = (if window_expired (ct_failureWindow ct) now old then 0 else ErrorCount ct p) + 1
  ∧ (∀ q, q ≠ p → ct_entries ct' !! q = ct_entries ct !! q).
Proof.
  intros Hnow ct' old.
  assert (getOrCreate ct' p = fail_entry (ct_failureWindow ct) r now old) as Hg.
  { unfold ct'. rewrite getOrCreate_MarkFailure. by case_decide. }
  destruct (fail_entry_window_kept (ct_failureWindow ct) now old) as [Hd Hc].
  split_and!.
  - intros Hr. rewrite IsAvailable_blocked, ErrorCount_getOrCreate, Hg, negb_blocked_iff.
    unfold fail_entry, set_cooldown. rewrite bool_decide_false by done. cbn.
    rewrite Hd, <- CalculateCooldown_table. set (n := _ + 1).
    destruct (Z.le_gt_cases n 0).
    + unfold CalculateCooldown. rewrite (proj2 (Z.leb_le n 0)) by done. unfold time_add.
      rewrite (pending_false_iff (now + 0)) by lia. tauto.
    + pose proof (CalculateCooldown_pos n). unfold time_add.
      rewrite (pending_false_iff (now + _)) by lia. tauto.
  - intros ->. rewrite IsAvailable_blocked, FailureCount_getOrCreate, Hg, negb_blocked_iff.
    unfold fail_entry, set_cooldown. rewrite bool_decide_true by done. cbn.
    rewrite Hc, <- calculateBillingCooldown_table. unfold time_add.
    rewrite (pending_false_iff (now + _)); [tauto|].
    pose proof (calculateBillingCooldown_pos (count_of (<[FailoverBilling:=count_of
      (FailureCounts (if window_expired (ct_failureWindow ct) now old then reset_counts old else old))
      FailoverBilling + 1]> (FailureCounts (if window_expired (ct_failureWindow ct) now old
      then reset_counts old else old))) FailoverBilling)). lia.
  - rewrite !ErrorCount_getOrCreate, Hg. apply fail_entry_count.
  - intros q Hq. unfold ct', MarkFailure. rewrite put_entry_lookup. by rewrite decide_False by done.
Qed.

Lemma MarkFailure_blocks_witness :
  0 < Hour ∧ IsAvailable (MarkFailure "openai" FailoverRateLimit Hour NewCooldownTracker) "openai"
               (Hour + Minute) = true.
Proof.
  split; [done|].
  refine (proj2 (proj1 (MarkFailure_blocks NewCooldownTracker "openai" FailoverRateLimit Hour
    (Hour + Minute) _) _) _); [done|done|].
  split; by vm_compute.
Defined.

(** [CooldownRemaining] is exact: the provider is available at [t] from now on
    if and only if the remaining time has elapsed, and zero remaining time means
    available now.  (The second hypothesis: the value is not the saturated
    [time.Time.Sub].) *)
Theorem CooldownRemaining_exact ct p now t :
  0 ≤ now ≤ t → CooldownRemaining ct p now < max_int64 →
  (IsAvailable ct p t = true ↔ now + CooldownRemaining ct p now ≤ t)
  ∧ (IsAvailable ct p now = true ↔ CooldownRemaining ct p now = 0).
Proof.
  intros Ht. rewrite !IsAvailable_blocked.
  unfold CooldownRemaining, getOrCreate. destruct (ct_entries ct !! p) as [e|]; simpl.
  - unfold blocked, pending, time_sub, min_int64, max_int64, IsZero, Before. intros Hmax.
    destruct (Z.eqb_spec (DisabledUntil e) 0), (Z.eqb_spec (CooldownEnd e) 0); simpl in *;
    destruct (Z.ltb_spec now (DisabledUntil e)), (Z.ltb_spec now (CooldownEnd e)),
      (Z.ltb_spec t (DisabledUntil e)), (Z.ltb_spec t (CooldownEnd e)); simpl in *;
      split; split; intros; try done; lia.
  - intros _. split; split; intros; done || lia.
Qed.

Lemma CooldownRemaining_exact_witness :
  let ct := MarkFailure "openai" FailoverTimeout Hour NewCooldownTracker in
  CooldownRemaining ct "openai" Hour = Minute ∧
  (IsAvailable ct "openai" (Hour + Minute) = true ↔ Hour + CooldownRemaining ct "openai" Hour ≤ Hour + Minute).
Proof.
  split; [by vm_compute|].
  eapply (CooldownRemaining_exact _ "openai" Hour (Hour + Minute));
    [unfold_units; lia|by vm_compute].
Defined.

(** Counter invariant over every history of the tracker: the error count of a
    provider is the sum of its per-reason counts, no count is negative, and the
    billing timer is set exactly when a disable reason is recorded. *)
Theorem tracker_invariant ct :
  rtc ct_step NewCooldownTracker ct → tracker_ok ct.
Proof.
  intros Hr. apply rtc_ind_r with (P := tracker_ok) (x := NewCooldownTracker) in Hr; [done| |].
  - intros p e He. by vm_compute in He.
  - intros ct1 ct2 _ Hstep Hok. destruct Hstep as [ct1 q r now Hnow|ct1 q]; intros p e.
    + unfold MarkFailure. rewrite put_entry_lookup. case_decide; [|apply Hok].
      intros. simplify_eq. apply fail_entry_ok; [done|]. by apply getOrCreate_ok.
    + unfold MarkSuccess. destruct (ct_entries ct1 !! q) as [e0|] eqn:He0; [|apply Hok].
      rewrite put_entry_lookup. case_decide; [|apply Hok]. intros. simplify_eq.
      destruct new_entry_ok as (? & ? & ?). split_and!; done.
Qed.

Lemma tracker_invariant_witness :
  tracker_ok (MarkFailure "openai" FailoverBilling Hour NewCooldownTracker).
Proof. apply tracker_invariant, rtc_once. by constructor. Defined.

(** Success resets and streaks accumulate.  A success makes the provider
    available at every time with zero counters and leaves the others alone; [k]
    further failures, each within the window of the last, bring the error count
    from one to [1 + k], whatever their reasons. *)
Theorem success_then_streak ct p t0 r0 fs :
  0 < t0 → ct_failureWindow ct = defaultFailureWindow →
  spaced defaultFailureWindow t0 fs →
  let ct0 := MarkSuccess p ct in
  (∀ t, IsAvailable ct0 p t = true) ∧ ErrorCount ct0 p = 0
  ∧ (∀ r, FailureCount ct0 p r = 0)
  ∧ (∀ q, q ≠ p → ct_entries ct0 !! q = ct_entries ct !! q)
  ∧ ErrorCount (fail_many p fs (MarkFailure p r0 t0 ct0)) p = 1 + Z.of_nat (length fs).
Proof.
  intros Ht0 Hw Hs ct0.
  assert (ct_failureWindow ct0 = defaultFailureWindow) as Hw0.
  { unfold ct0, MarkSuccess. by destruct (ct_entries ct !! p). }
  assert (ErrorCount ct0 p = 0 ∧ (∀ t, IsAvailable ct0 p t = true) ∧ ∀ r, FailureCount ct0 p r = 0)
    as (Hc & Hav & Hf).
  { unfold ErrorCount, IsAvailable, FailureCount.
    destruct (ct_entries ct0 !! p) as [e|] eqn:He; [|done].
    apply MarkSuccess_entry in He as (-> & -> & -> & -> & _). done. }
  split_and!; try done.
  - intros q Hq. unfold ct0, MarkSuccess. destruct (ct_entries ct !! p); [|done].
    rewrite put_entry_lookup. by rewrite decide_False by done.
  - assert (getOrCreate (MarkFailure p r0 t0 ct0) p
            = fail_entry (ct_failureWindow ct0) r0 t0 (getOrCreate ct0 p)) as Hg.
    { rewrite getOrCreate_MarkFailure. by case_decide. }
    assert (ct_failureWindow (MarkFailure p r0 t0 ct0) = defaultFailureWindow) as Hwf by done.
    rewrite fail_many_count; rewrite ?Hwf, ?Hg, ?fail_entry_last; try done.
    rewrite ErrorCount_getOrCreate, Hg, fail_entry_count.
    rewrite <- (ErrorCount_getOrCreate ct0), Hc. by destruct (window_expired _ _ _).
Qed.

Lemma success_then_streak_witness :
  ErrorCount (fail_many "a" [(FailoverAuth, 2 * Hour); (FailoverTimeout, 3 * Hour)]
    (MarkFailure "a" FailoverAuth Hour (MarkSuccess "a" NewCooldownTracker))) "a" = 3.
Proof.
  refine (proj2 (proj2 (proj2 (proj2 (success_then_streak NewCooldownTracker "a" Hour FailoverAuth
    [(FailoverAuth, 2 * Hour); (FailoverTimeout, 3 * Hour)] _ _ _)))));
    [done|done|]. unfold defaultFailureWindow; unfold_units; simpl; lia.
Defined.
