(* ===== verification/Regex.v ===== *)
(** The part of Go's [regexp] package that the program's patterns use: classes,
    literals (case-insensitive or not), concatenation, greedy and lazy star, alternation and
    the ASCII word boundary.  [rmatch] lists the ways an expression matches at a
    position, best first in the leftmost-first order of Go, so that its head is the
    match [FindString] reports. *)
From S2P Require Import Prelude GoStrings.

Inductive re :=
| REps
| RSet (f : ascii → bool)
| RSeq (a b : re)
| RAlt (a b : re)
| RStar (a : re)
| RLazy (a : re)
| RWordB.

(** A position: the byte before it and the text after it. *)
Definition pos : Type := option ascii * bytes.

Definition is_word_byte (c : ascii) : bool :=
  is_upper_byte c || is_lower_byte c || is_digit_byte c || Ascii.eqb c "_".
Definition word_at (o : option ascii) : bool :=
  match o with Some c => is_word_byte c | None => false end.

(** Greedy repetition; [fuel] bounds the iterations by the length of the text,
    which suffices because an iteration that consumes nothing is not repeated. *)
Fixpoint star_iter (m : pos → list pos) (fuel : nat) (p : pos) : list pos :=
  match fuel with
  | O => [p]
  | S fuel =>
      flat_map (λ q, if (length q.2 <? length p.2)%nat then star_iter m fuel q else []) (m p)
      ++ [p]
  end.

(** Lazy repetition: stopping is tried first. *)
Fixpoint lazy_iter (m : pos → list pos) (fuel : nat) (p : pos) : list pos :=
  p :: match fuel with
       | O => []
       | S fuel => flat_map (λ q, if (length q.2 <? length p.2)%nat then lazy_iter m fuel q else []) (m p)
       end.

Fixpoint rmatch (r : re) (p : pos) : list pos :=
  match r with
  | REps => [p]
  | RSet f => match p.2 with
              | c :: l => if f c then [(Some c, l)] else []
              | [] => []
              end
  | RSeq a b => flat_map (rmatch b) (rmatch a p)
  | RAlt a b => rmatch a p ++ rmatch b p
  | RStar a => star_iter (rmatch a) (length p.2) p
  | RLazy a => lazy_iter (rmatch a) (length p.2) p
  | RWordB => if xorb (word_at p.1) (word_at (head p.2)) then [p] else []
  end.

(** Leftmost match: the text of the match, tried from each position in turn. *)
Fixpoint re_find_from (r : re) (prev : option ascii) (l : bytes) : option bytes :=
  match rmatch r (prev, l) with
  | (_, rest) :: _ => Some (take (length l - length rest) l)
  | [] => match l with
          | [] => None
          | c :: l' => re_find_from r (Some c) l'
          end
  end.

Definition re_find (r : re) (s : string) : option bytes := re_find_from r None (s2l s).
Definition re_match (r : re) (s : string) : bool :=
  match re_find r s with Some _ => true | None => false end.

(** [^r$]: whether the whole text matches. *)
Definition re_full (r : re) (s : string) : bool := existsb (λ p, (length p.2 =? 0)%nat) (rmatch r (None, s2l s)).

(** ** Building patterns *)

Definition rbyte (c : ascii) : re := RSet (Ascii.eqb c).
Definition rseq (l : list re) : re := foldr RSeq REps l.
Definition rstr (s : string) : re := rseq (rbyte <$> s2l s).

(** [(?i)] on one letter.  Beyond the two ASCII cases, Unicode folds U+017F to
    [s] and U+212A to [k]. *)
Definition ci_byte (c : ascii) : re :=
  let both := RSet (λ x, Ascii.eqb (lower_byte x) (lower_byte c)) in
  if Ascii.eqb (lower_byte c) "s" then RAlt both (RSeq (rbyte "197") (rbyte "191"))
  else if Ascii.eqb (lower_byte c) "k"
  then RAlt both (RSeq (rbyte "226") (RSeq (rbyte "132") (rbyte "170")))
  else both.
Definition ci_str (s : string) : re := rseq (ci_byte <$> s2l s).

Definition rany : re := RSet (λ c, negb (Ascii.eqb c "010")).
Definition rdigit : re := RSet is_digit_byte.
(** [\s] is [[\t\n\f\r ]]: without the vertical tab. *)
Definition is_re_space (c : ascii) : bool := existsb (Z.eqb (byte_val c)) [9; 10; 12; 13; 32].
Definition rspace : re := RSet is_re_space.
Definition rplus (r : re) : re := RSeq r (RStar r).
Definition ropt (r : re) : re := RAlt r REps.

(** ** Lemmas *)

(** A pattern that starts with a byte class fails on a text without such a byte. *)
Lemma re_find_class_None f r prev l :
  Forall (λ c, f c = false) l → re_find_from (RSeq (RSet f) r) prev l = None.
Proof.
  intros H. revert prev. induction H as [|c l Hc _ IH]; intros prev; simpl; [done|].
  rewrite Hc. simpl. apply IH.
Qed.

(** The match at the first position, when there is one. *)
Lemma re_find_here r prev l p ps :
  rmatch r (prev, l) = p :: ps → re_find_from r prev l = Some (take (length l - length p.2) l).
Proof. intros H. destruct p as [q rest]. destruct l; cbn [re_find_from]; by rewrite H. Qed.

Lemma rmatch_literal p prev l :
  ∃ q, rmatch (rseq (rbyte <$> p)) (prev, p ++ l) = [(q, l)].
Proof.
  revert prev. induction p as [|c p IH]; intros prev; [by eexists|].
  destruct (IH (Some c)) as [q Hq]. exists q. unfold rseq in *.
  cbn -[Ascii.eqb]. rewrite Ascii.eqb_refl. cbn -[Ascii.eqb]. by rewrite Hq.
Qed.

(** A pattern whose classes have a property consumes only bytes that have it. *)
Fixpoint classes_in (P : ascii → Prop) (r : re) : Prop :=
  match r with
  | REps | RWordB => True
  | RSet f => ∀ c, f c = true → P c
  | RSeq a b | RAlt a b => classes_in P a ∧ classes_in P b
  | RStar a | RLazy a => classes_in P a
  end.

Definition consumes (P : ascii → Prop) (m : pos → list pos) : Prop :=
  ∀ p q, q ∈ m p → ∃ k, p.2 = k ++ q.2 ∧ Forall P k.

Lemma consumes_iter P m (it : (pos → list pos) → nat → pos → list pos) :
  (it = star_iter ∨ it = lazy_iter) → consumes P m → ∀ fuel, consumes P (it m fuel).
Proof.
  intros Hit Hm fuel. induction fuel as [|fuel IH]; intros p q Hq.
  - destruct Hit as [-> | ->]; apply list_elem_of_singleton in Hq as ->; by exists [].
  - assert (q = p ∨ q ∈ flat_map (λ q, if (length q.2 <? length p.2)%nat then it m fuel q else []) (m p)) as [->|Hf].
    { destruct Hit as [-> | ->]; simpl in Hq; [|by apply elem_of_cons in Hq].
      apply elem_of_app in Hq as [?|Hq%list_elem_of_singleton]; [by right|by left]. }
    + by exists [].
    + apply list_elem_of_In, in_flat_map in Hf as (q' & Hq'%list_elem_of_In & Hin%list_elem_of_In).
      destruct (length q'.2 <? length p.2)%nat; [|by apply not_elem_of_nil in Hin].
      destruct (Hm p q' Hq') as (k1 & Hk1 & ?), (IH q' q Hin) as (k2 & Hk2 & ?).
      exists (k1 ++ k2). rewrite <- app_assoc, <- Hk2. split; [done|]. by apply Forall_app.
Qed.

Lemma rmatch_consumes P r : classes_in P r → consumes P (rmatch r).
Proof.
  induction r as [|f|a IHa b IHb|a IHa b IHb|a IHa|a IHa|]; intros Hr p q Hq; simpl in *.
  - apply list_elem_of_singleton in Hq as ->. by exists [].
  - destruct p as [pr [|c l]]; simpl in *; [by apply not_elem_of_nil in Hq|].
    destruct (f c) eqn:Hf; [|by apply not_elem_of_nil in Hq].
    apply list_elem_of_singleton in Hq as ->. exists [c]. split; [done|]. constructor; [by apply Hr|done].
  - apply list_elem_of_In, in_flat_map in Hq as (q' & Hq'%list_elem_of_In & Hin%list_elem_of_In).
    destruct (IHa (proj1 Hr) p q' Hq') as (k1 & Hk1 & ?), (IHb (proj2 Hr) q' q Hin) as (k2 & Hk2 & ?).
    exists (k1 ++ k2). rewrite <- app_assoc, <- Hk2. split; [done|]. by apply Forall_app.
  - apply elem_of_app in Hq as [Hq|Hq]; [by apply (IHa (proj1 Hr))|by apply (IHb (proj2 Hr))].
  - eapply (consumes_iter P (rmatch a) star_iter); eauto.
  - eapply (consumes_iter P (rmatch a) lazy_iter); eauto.
  - destruct (xorb _ _); [|by apply not_elem_of_nil in Hq]. apply list_elem_of_singleton in Hq as ->. by exists [].
Qed.

Lemma re_full_Forall P r s : classes_in P r → re_full r s = true → Forall P (s2l s).
Proof.
  intros Hr (p & Hp%list_elem_of_In & Hlen)%existsb_exists.
  destruct (rmatch_consumes P r Hr _ _ Hp) as (k & Hk & HF). simpl in Hk.
  destruct p as [? [|]]; [|done]. by rewrite Hk, app_nil_r.
Qed.

(** ** The language of an expression

    What an expression without the word boundary matches, whatever stands around it; a
    repetition is a list of non-empty pieces. *)
Fixpoint lang (r : re) (k : bytes) : Prop :=
  match r with
  | REps => k = []
  | RSet f => ∃ c, k = [c] ∧ f c = true
  | RSeq a b => ∃ k1 k2, k = k1 ++ k2 ∧ lang a k1 ∧ lang b k2
  | RAlt a b => lang a k ∨ lang b k
  | RStar a | RLazy a => ∃ ps, k = concat ps ∧ Forall (λ p, p ≠ [] ∧ lang a p) ps
  | RWordB => False
  end.

Fixpoint no_wordb (r : re) : bool :=
  match r with
  | REps | RSet _ => true
  | RSeq a b | RAlt a b => no_wordb a && no_wordb b
  | RStar a | RLazy a => no_wordb a
  | RWordB => false
  end.

(** [m] matches exactly the texts in [L]. *)
Definition matches (m : pos → list pos) (L : bytes → Prop) : Prop :=
  ∀ p l, (∃ pr, (pr, l) ∈ m p) ↔ ∃ k, p.2 = k ++ l ∧ L k.

Lemma elem_of_flat_map {A B} (f : A → list B) l y : y ∈ flat_map f l ↔ ∃ x, x ∈ l ∧ y ∈ f x.
Proof.
  rewrite list_elem_of_In, in_flat_map.
  split; intros (x & Hx & Hy); exists x; by rewrite ?list_elem_of_In in *.
Qed.

(** One round of a repetition: stop, or match a non-empty piece and go on. *)
Definition round (it : (pos → list pos) → nat → pos → list pos) : Prop :=
  ∀ m fuel p q, q ∈ it m fuel p ↔
    q = p ∨ ∃ n p', fuel = S n ∧ p' ∈ m p ∧ (length p'.2 < length p.2)%nat ∧ q ∈ it m n p'.

Lemma elem_of_round (m : pos → list pos) (it : nat → pos → list pos) n p q :
  q ∈ flat_map (λ q, if (length q.2 <? length p.2)%nat then it n q else []) (m p)
  ↔ ∃ p' : pos, p' ∈ m p ∧ (length p'.2 < length p.2)%nat ∧ q ∈ it n p'.
Proof.
  rewrite elem_of_flat_map. split; intros (p' & Hp' & Hq); exists p'; split; try done.
  - destruct (Nat.ltb_spec (length p'.2) (length p.2)); [done|by apply not_elem_of_nil in Hq].
  - destruct Hq as [Hlt Hq]. by rewrite (proj2 (Nat.ltb_lt _ _) Hlt).
Qed.

Lemma round_iters : round star_iter ∧ round lazy_iter.
Proof.
  split; intros m [|n] p q; cbn [star_iter lazy_iter]; rewrite ?elem_of_app, ?elem_of_cons, ?elem_of_round, ?elem_of_nil;
    (split; [|intros [->|(n' & p' & [= <-] & H)]]); try tauto; eauto 7.
  - intros [(p' & H)|[->|[]]]; [right|by left]. by exists n, p'.
  - intros [->|(p' & H)]; [by left|right]. by exists n, p'.
Qed.

Lemma matches_iter it m L :
  round it → matches m L →
  matches (λ p, it m (length p.2) p) (λ k, ∃ ps, k = concat ps ∧ Forall (λ p, p ≠ [] ∧ L p) ps).
Proof.
  intros Hround Hm p l. split.
  - intros [pr Hq]. remember (length p.2) as n eqn:Hn. clear Hn. revert p Hq.
    induction n as [n IH] using lt_wf_ind. intros p Hq.
    apply Hround in Hq as [Heq|(n' & p' & -> & Hp' & Hlt & Hq)].
    + exists []. split; [by rewrite <- Heq|]. by exists [].
    + destruct (IH n' ltac:(lia) p' Hq) as (k2 & Hk2 & ps & -> & Hps), p' as [pr' l'].
      destruct (proj1 (Hm p l') (ex_intro _ pr' Hp')) as (k1 & Hk1 & HL). cbn in *. subst l'.
      exists (k1 ++ concat ps). split; [by rewrite <- app_assoc|]. exists (k1 :: ps). split; [done|].
      constructor; [|done]. split; [|done]. intros ->. rewrite Hk1 in Hlt. cbn in Hlt. lia.
  - intros (k & Hk & ps & -> & Hps).
    assert (∀ n, (length (concat ps) ≤ n)%nat → ∃ pr, (pr, l) ∈ it m n p) as Hall.
    { revert p Hk. induction Hps as [|k1 ps [Hne HL] Hps IH]; intros p Hk n Hn.
      - destruct p as [pr l']. exists pr. apply Hround. left. cbn in Hk. by subst.
      - cbn in Hk, Hn. rewrite <- app_assoc in Hk. rewrite length_app in Hn.
        assert (length k1 ≠ 0%nat) by (by intros ?%nil_length_inv).
        destruct (proj2 (Hm p (concat ps ++ l)) (ex_intro _ k1 (conj Hk HL))) as [pr' Hp'].
        destruct n as [|n]; [lia|]. destruct (IH (pr', concat ps ++ l) eq_refl n ltac:(lia)) as [pr Hq].
        exists pr. apply Hround. right. exists n, (pr', concat ps ++ l). split; [done|]. split; [done|]. split; [|done].
        cbn [snd]. rewrite Hk, !length_app. lia. }
    apply Hall. rewrite Hk, length_app. lia.
Qed.

Lemma rmatch_lang r : no_wordb r = true → matches (rmatch r) (lang r).
Proof.
  induction r as [|f|a IHa b IHb|a IHa b IHb|a IHa|a IHa|]; cbn [no_wordb]; intros Hw; try (apply andb_true_iff in Hw as [Ha Hb]).
  - intros p l. cbn. setoid_rewrite list_elem_of_singleton. split.
    + intros [pr <-]. by exists [].
    + intros (k & Hp & ->). exists p.1. destruct p. cbn in *. by subst.
  - intros [pr0 [|c k]] l; cbn.
    + split; [by intros [? ?%not_elem_of_nil]|intros (k & Hk & c & -> & _); discriminate].
    + split.
      * intros [pr H]. destruct (f c) eqn:Hf; [|by apply not_elem_of_nil in H].
        apply list_elem_of_singleton in H as [= -> ->]. exists [c]. split; [done|]. by exists c.
      * intros (k' & Hk & c' & -> & Hf). injection Hk as -> ->. rewrite Hf. exists (Some c'). by apply list_elem_of_singleton.
  - specialize (IHa Ha). specialize (IHb Hb). intros p l. cbn. setoid_rewrite elem_of_flat_map. split.
    + intros (pr & [pr1 l1] & H1 & H2).
      destruct (proj1 (IHa p l1) (ex_intro _ pr1 H1)) as (k1 & Hk1 & HL1).
      destruct (proj1 (IHb _ l) (ex_intro _ pr H2)) as (k2 & Hk2 & HL2). cbn in Hk2. subst l1.
      exists (k1 ++ k2). rewrite <- app_assoc. split; [done|]. by exists k1, k2.
    + intros (k & Hk & k1 & k2 & -> & HL1 & HL2). rewrite <- app_assoc in Hk.
      destruct (proj2 (IHa p (k2 ++ l)) (ex_intro _ k1 (conj Hk HL1))) as [pr1 H1].
      destruct (proj2 (IHb (pr1, k2 ++ l) l) (ex_intro _ k2 (conj eq_refl HL2))) as [pr2 H2]. eauto.
  - specialize (IHa Ha). specialize (IHb Hb). intros p l. cbn. setoid_rewrite elem_of_app. specialize (IHa p l). specialize (IHb p l).
    naive_solver.
  - apply (matches_iter star_iter); [apply round_iters|auto].
  - apply (matches_iter lazy_iter); [apply round_iters|auto].
  - done.
Qed.

(** A full match is membership in the language. *)
Lemma re_full_lang r s : no_wordb r = true → re_full r s = true ↔ lang r (s2l s).
Proof.
  intros Hr. unfold re_full. rewrite existsb_exists. split.
  - intros ([pr l] & Hin%list_elem_of_In & Hl%Nat.eqb_eq%nil_length_inv). cbn in Hl. subst l.
    destruct (proj1 (rmatch_lang r Hr _ _) (ex_intro _ pr Hin)) as (k & Hk & HL). cbn in Hk. by rewrite Hk, app_nil_r.
  - intros HL. destruct (proj2 (rmatch_lang r Hr (None, s2l s) []) (ex_intro _ (s2l s) (conj (eq_sym (app_nil_r _)) HL))) as [pr Hin].
    exists (pr, []). by rewrite <- list_elem_of_In.
Qed.

Lemma lang_class_star f k : lang (RStar (RSet f)) k ↔ Forall (λ c, f c = true) k.
Proof.
  cbn. split.
  - intros (ps & -> & Hps). induction Hps as [|p ps [_ (c & -> & Hc)] _ IH]; [done|]. by constructor.
  - intros Hk. exists ((λ c, [c]) <$> k). induction Hk as [|c k Hc _ [Hk IH]]; [by split|]. split; [cbn; by f_equal|].
    rewrite fmap_cons. constructor; [|done]. split; [done|]. by exists c.
Qed.

(** One class, repeated at least once. *)
Lemma lang_class_plus f k : lang (rplus (RSet f)) k ↔ k ≠ [] ∧ Forall (λ c, f c = true) k.
Proof.
  unfold rplus. change (lang (RSeq ?a ?b) k) with (∃ k1 k2, k = k1 ++ k2 ∧ lang a k1 ∧ lang b k2).
  setoid_rewrite lang_class_star. split.
  - intros (k1 & k2 & -> & (c & -> & Hc) & Hk2). split; [done|]. by constructor.
  - intros [Hne Hk]. destruct Hk as [|c k Hc Hk]; [done|]. exists [c], k. split; [done|]. split; [by exists c|done].
Qed.

(** A sequence matches pieces one after the other. *)
Lemma lang_rseq rs k : lang (rseq rs) k ↔ ∃ ks, k = concat ks ∧ Forall2 lang rs ks.
Proof.
  revert k. induction rs as [|r rs IH]; intros k.
  - cbn. split; [intros ->; by exists []|]. by intros (ks & -> & ->%Forall2_nil_inv_l).
  - change (lang (rseq (r :: rs)) k) with (∃ k1 k2, k = k1 ++ k2 ∧ lang r k1 ∧ lang (rseq rs) k2).
    setoid_rewrite IH. split.
    + intros (k1 & k2 & -> & Hr & ks & -> & Hks). exists (k1 :: ks). split; [done|]. by constructor.
    + intros (ks & -> & (k1 & ks' & Hr & Hks & ->)%Forall2_cons_inv_l). exists k1, (concat ks'). eauto 6.
Qed.

Lemma lang_byte c k : lang (rbyte c) k ↔ k = [c].
Proof.
  cbn. split.
  - by intros (c' & -> & <-%Ascii.eqb_eq).
  - intros ->. exists c. split; [done|apply Ascii.eqb_refl].
Qed.
