(* ===== verification/Classifier.v ===== *)
(** [pkg/providers/fallback/classifier.go]: which failover reason an LLM error has.
    The pattern tables are the source's, as substrings and as expressions of
    [Regex]. *)
From S2P Require Import Prelude GoStrings Regex Types.

(** ** Patterns *)

(** [errorPattern]: exactly one of the two fields is set. *)
Inductive errorPattern := substr (s : string) | rxp (r : re).

Definition rateLimitPatterns : list errorPattern :=
  [ rxp (rseq [ci_str "rate"; RSet (λ c, Ascii.eqb c "_" || Ascii.eqb c " "); ci_str "limit"]);
    substr "too many requests"; substr "429"; substr "exceeded your current quota";
    rxp (rseq [ci_str "exceeded"; RStar rany; ci_str "quota"]);
    rxp (ci_str "resource has been exhausted");
    rxp (rseq [ci_str "resource"; RStar rany; ci_str "exhausted"]);
    substr "resource_exhausted"; substr "quota exceeded"; substr "usage limit" ].

(** The double-quote byte. *)
Definition dquote : ascii := "034".

Definition overloadedPatterns : list errorPattern :=
  [ rxp (ci_str "overloaded_error");
    rxp (rseq [rbyte dquote; ci_str "type"; rbyte dquote; RStar rspace; rbyte ":"; RStar rspace;
               rbyte dquote; ci_str "overloaded_error"; rbyte dquote]);
    substr "overloaded" ].

Definition timeoutPatterns : list errorPattern :=
  [ substr "timeout"; substr "timed out"; substr "deadline exceeded";
    substr "context deadline exceeded" ].

Definition billingPatterns : list errorPattern :=
  [ rxp (rseq [RWordB; rstr "402"; RWordB]); substr "payment required";
    substr "insufficient credits"; substr "credit balance"; substr "plans & billing";
    substr "insufficient balance" ].

Definition authPatterns : list errorPattern :=
  let sep := ropt (RSet (λ c, Ascii.eqb c "_" || Ascii.eqb c " ")) in
  [ rxp (rseq [ci_str "invalid"; sep; ci_str "api"; sep; ci_str "key"]);
    substr "incorrect api key"; substr "invalid token"; substr "authentication";
    substr "re-authenticate"; substr "oauth token refresh failed"; substr "unauthorized";
    substr "forbidden"; substr "access denied"; substr "expired"; substr "token has expired";
    rxp (rseq [RWordB; rstr "401"; RWordB]); rxp (rseq [RWordB; rstr "403"; RWordB]);
    substr "no credentials found"; substr "no api key found" ].

Definition formatPatterns : list errorPattern :=
  [ substr "string should match pattern"; substr "tool_use.id"; substr "tool_use_id";
    substr "messages.1.content.1.tool_use.id"; substr "invalid request format" ].

Definition imageDimensionPatterns : list errorPattern :=
  [ rxp (ci_str "image dimensions exceed max") ].
Definition imageSizePatterns : list errorPattern :=
  [ rxp (rseq [ci_str "image exceeds"; RStar rany; ci_str "mb"]) ].

Definition transientStatusCodes : list Z := [500; 502; 503; 521; 522; 523; 524; 529].

(** ** Matching *)

Definition matches (msg : string) (p : errorPattern) : bool :=
  match p with
  | rxp r => re_match r msg
  | substr s => negb (str_empty s) && contains msg s
  end.

Definition matchesAny (msg : string) (patterns : list errorPattern) : bool :=
  existsb (matches msg) patterns.

Definition IsImageDimensionError (msg : string) : bool := matchesAny msg imageDimensionPatterns.
Definition IsImageSizeError (msg : string) : bool := matchesAny msg imageSizePatterns.

(** ** Status codes *)

(** Go's [range s] visits runes; a byte of a non-ASCII rune is no digit. *)
Definition parseDigits (l : bytes) : Z :=
  foldl (λ n c, if is_digit_byte c then n * 10 + (byte_val c - byte_val "0") else n) 0 l.

Definition three_digits : re := rseq [rdigit; rdigit; rdigit].

(** [status[:\s]+(\d{3})]. *)
Definition statusPattern : re :=
  rseq [rstr "status"; rplus (RSet (λ c, Ascii.eqb c ":" || is_re_space c)); three_digits].

(** [HTTP[/\s]+\d*\.?\d*\s+(\d{3})]. *)
Definition httpPattern : re :=
  RSeq (rbyte "H") (rseq [rstr "TTP"; rplus (RSet (λ c, Ascii.eqb c "/" || is_re_space c));
        RStar rdigit; ropt (rbyte "."); RStar rdigit; rplus rspace; three_digits]).

Definition statusPatterns : list re := [statusPattern; httpPattern].

(** Both groups close the pattern: [m[1]] is the last three bytes of the match. *)
Definition group1 (m : bytes) : bytes := drop (length m - 3) m.

Definition extractHTTPStatus (msg : string) : Z :=
  match first_some (λ p, re_find p msg) statusPatterns with
  | Some m => parseDigits (group1 m)
  | None => 0
  end.

Definition classifyByStatus (status : Z) : option FailoverReason :=
  if (status =? 401) || (status =? 403) then Some FailoverAuth
  else if status =? 402 then Some FailoverBilling
  else if status =? 408 then Some FailoverTimeout
  else if status =? 429 then Some FailoverRateLimit
  else if status =? 400 then Some FailoverFormat
  else if existsb (Z.eqb status) transientStatusCodes then Some FailoverTimeout
  else None.

Definition classifyByMessage (msg : string) : option FailoverReason :=
  if matchesAny msg rateLimitPatterns then Some FailoverRateLimit
  else if matchesAny msg overloadedPatterns then Some FailoverRateLimit
  else if matchesAny msg billingPatterns then Some FailoverBilling
  else if matchesAny msg timeoutPatterns then Some FailoverTimeout
  else if matchesAny msg authPatterns then Some FailoverAuth
  else if matchesAny msg formatPatterns then Some FailoverFormat
  else None.

(** ** The classifier *)

Record FailoverError := MkFailover {
  fe_Reason : FailoverReason; fe_Provider : string; fe_Model : string;
  fe_Status : Z; fe_Wrapped : goerror;
}.

Definition IsRetriable (e : FailoverError) : bool :=
  negb (bool_decide (fe_Reason e = FailoverFormat)).

Section classify.
Context `{U : UnicodeCase}.

Definition ClassifyError (err : option goerror) (provider model : string) : option FailoverError :=
  match err with
  | None => None
  | Some ErrCanceled => None
  | Some ErrDeadlineExceeded =>
      Some (MkFailover FailoverTimeout provider model 0 ErrDeadlineExceeded)
  | Some e =>
      let msg := to_lower (error_text e) in
      if IsImageDimensionError msg || IsImageSizeError msg
      then Some (MkFailover FailoverFormat provider model 0 e)
      else
        let status := extractHTTPStatus msg in
        match (if 0 <? status then classifyByStatus status else None) with
        | Some reason => Some (MkFailover reason provider model status e)
        | None =>
            match classifyByMessage msg with
            | Some reason => Some (MkFailover reason provider model 0 e)
            | None => None
            end
        end
  end.
End classify.

(** ** Specification *)

(** The message tables in order of precedence. *)
Definition message_table : list (list errorPattern * FailoverReason) :=
  [ (rateLimitPatterns, FailoverRateLimit); (overloadedPatterns, FailoverRateLimit);
    (billingPatterns, FailoverBilling); (timeoutPatterns, FailoverTimeout);
    (authPatterns, FailoverAuth); (formatPatterns, FailoverFormat) ].

Definition spec_by_message (msg : string) : option FailoverReason :=
  snd <$> find_first (λ row, matchesAny msg row.1) message_table.

(** Status codes by reason. *)
Definition status_table : list (Z * FailoverReason) :=
  [ (401, FailoverAuth); (403, FailoverAuth); (402, FailoverBilling); (408, FailoverTimeout);
    (429, FailoverRateLimit); (400, FailoverFormat) ]
  ++ ((λ s, (s, FailoverTimeout)) <$> transientStatusCodes).

Definition spec_by_status (status : Z) : option FailoverReason :=
  snd <$> find_first (λ row, row.1 =? status) status_table.

Definition image_error (msg : string) : bool := IsImageDimensionError msg || IsImageSizeError msg.

(** What the classification of a plain error text should be. *)
Definition spec_reason (msg : string) : option FailoverReason :=
  if image_error msg then Some FailoverFormat
  else match spec_by_status (extractHTTPStatus msg) with
       | Some r => Some r
       | None => spec_by_message msg
       end.

(** ** Lemmas *)

Lemma classifyByMessage_spec msg : classifyByMessage msg = spec_by_message msg.
Proof. unfold classifyByMessage, spec_by_message, message_table. simpl. by cases_match. Qed.

Lemma classifyByStatus_spec status : classifyByStatus status = spec_by_status status.
Proof.
  unfold classifyByStatus, spec_by_status, status_table, transientStatusCodes.
  cbn -[Z.eqb]. rewrite !(Z.eqb_sym _ status).
  repeat (match goal with |- context [status =? ?n] => destruct (status =? n) eqn:? end;
          cbn; try done).
Qed.

Lemma httpPattern_dead msg : Forall (λ c, is_upper_byte c = false) (s2l msg) →
  re_find httpPattern msg = None.
Proof.
  intros H. apply re_find_class_None. eapply Forall_impl; [exact H|].
  intros c Hc. destruct (Ascii.eqb_spec "H" c) as [<-|]; done.
Qed.

Definition is_sep (c : ascii) : bool := Ascii.eqb c ":" || is_re_space c.

Lemma digit_not_sep c : is_digit_byte c = true → is_sep c = false.
Proof. by_bytes c. Qed.

Lemma rmatch_set f prev c l :
  rmatch (RSet f) (prev, c :: l) = if f c then [(Some c, l)] else [].
Proof. done. Qed.

(** The separators are taken greedily and the digits stop them. *)
Lemma star_seps seps prev d l m :
  (length seps ≤ m)%nat → Forall (λ c, is_sep c = true) seps → is_sep d = false →
  ∃ q ps, star_iter (rmatch (RSet is_sep)) m (prev, seps ++ d :: l) = (q, d :: l) :: ps.
Proof.
  intros Hm Hs Hd. revert prev m Hm. induction Hs as [|c seps Hc _ IH]; intros prev m Hm.
  - destruct m; cbn [star_iter app]; [by eauto|]. rewrite rmatch_set, Hd. simpl. by eauto.
  - simpl in Hm. destruct m as [|m]; [lia|]. cbn [star_iter app].
    rewrite rmatch_set, Hc. cbn [flat_map snd].
    rewrite (proj2 (Nat.ltb_lt _ _)) by (simpl; lia).
    destruct (IH (Some c) m ltac:(lia)) as (q & ps & ->). cbn [app]. eauto.
Qed.

Lemma rmatch_seq a b p : rmatch (RSeq a b) p = flat_map (rmatch b) (rmatch a p).
Proof. done. Qed.
Lemma rmatch_star a p : rmatch (RStar a) p = star_iter (rmatch a) (length p.2) p.
Proof. done. Qed.
Lemma flat_map_one {A B} (f : A → list B) x : flat_map f [x] = f x.
Proof. apply app_nil_r. Qed.

Lemma rmatch_three_digits prev a b c l :
  is_digit_byte a = true → is_digit_byte b = true → is_digit_byte c = true →
  rmatch three_digits (prev, a :: b :: c :: l) = [(Some c, l)].
Proof.
  intros Ha Hb Hc. unfold three_digits, rseq, rdigit. cbn [foldr].
  rewrite rmatch_seq, rmatch_set, Ha, flat_map_one, rmatch_seq, rmatch_set, Hb, flat_map_one,
    rmatch_seq, rmatch_set, Hc. done.
Qed.

Lemma rmatch_status prev s0 seps a b c l :
  is_sep s0 = true → Forall (λ x, is_sep x = true) seps →
  is_digit_byte a = true → is_digit_byte b = true → is_digit_byte c = true →
  ∃ ps, rmatch statusPattern (prev, s2l "status" ++ s0 :: seps ++ a :: b :: c :: l)
        = (Some c, l) :: ps.
Proof.
  intros H0 Hs Ha Hb Hc.
  destruct (rmatch_literal (s2l "status") prev (s0 :: seps ++ a :: b :: c :: l)) as [q Hq].
  destruct (star_seps seps (Some s0) a (b :: c :: l) (length (seps ++ a :: b :: c :: l)))
    as (q1 & ps & Hq1); [rewrite length_app; lia|done|by apply digit_not_sep|].
  unfold statusPattern, rplus, rseq at 1. cbn [foldr].
  rewrite rmatch_seq. unfold rstr. rewrite Hq, flat_map_one, !rmatch_seq.
  fold is_sep. rewrite rmatch_set, H0, flat_map_one, rmatch_star. cbn [snd]. rewrite Hq1.
  cbn [flat_map]. rewrite rmatch_seq, rmatch_three_digits by done. rewrite flat_map_one.
  cbn. by eexists.
Qed.

(** The text [statusPattern] reports when the subject starts with a match. *)
Lemma statusPattern_here prev s0 seps a b c l :
  is_sep s0 = true → Forall (λ x, is_sep x = true) seps →
  is_digit_byte a = true → is_digit_byte b = true → is_digit_byte c = true →
  re_find_from statusPattern prev (s2l "status" ++ s0 :: seps ++ a :: b :: c :: l)
  = Some (s2l "status" ++ s0 :: seps ++ [a; b; c]).
Proof.
  intros H0 Hs Ha Hb Hc.
  destruct (rmatch_status prev s0 seps a b c l) as [ps Hps]; [done..|].
  rewrite (re_find_here _ _ _ _ _ Hps). cbn [snd]. f_equal.
  set (m := s2l "status" ++ s0 :: seps ++ [a; b; c]).
  assert (s2l "status" ++ s0 :: seps ++ a :: b :: c :: l = m ++ l) as ->.
  { unfold m. rewrite <- app_assoc. f_equal. rewrite <- app_comm_cons. f_equal.
    by rewrite <- app_assoc. }
  rewrite length_app. replace (length m + length l - length l)%nat with (length m) by lia.
  apply take_app_length.
Qed.

Definition digits3 (a b c : ascii) : Z :=
  100 * (byte_val a - byte_val "0") + 10 * (byte_val b - byte_val "0") + (byte_val c - byte_val "0").

Lemma extractHTTPStatus_text pre s0 seps a b c rest :
  Forall (λ x, Ascii.eqb "s" x = false) pre →
  is_sep s0 = true → Forall (λ x, is_sep x = true) seps →
  is_digit_byte a = true → is_digit_byte b = true → is_digit_byte c = true →
  extractHTTPStatus (l2s (pre ++ s2l "status" ++ s0 :: seps ++ a :: b :: c :: rest)) = digits3 a b c.
Proof.
  intros Hpre H0 Hs Ha Hb Hc. unfold extractHTTPStatus, statusPatterns, re_find. rewrite s2l_l2s.
  cbn [first_some].
  assert (∀ prev, re_find_from statusPattern prev (pre ++ s2l "status" ++ s0 :: seps ++ a :: b :: c :: rest)
          = Some (s2l "status" ++ s0 :: seps ++ [a; b; c])) as ->.
  { intros prev. rewrite <- (statusPattern_here None s0 seps a b c rest) by done.
    revert prev. induction Hpre as [|x pre Hx _ IH]; intros prev.
    - cbn [app]. by rewrite !statusPattern_here.
    - rewrite <- (IH (Some x)). cbn [app re_find_from].
      assert (rmatch statusPattern (prev, x :: pre ++ s2l "status" ++ s0 :: seps ++ a :: b :: c :: rest) = [])
        as ->; [|done].
      unfold statusPattern, rseq. cbn [foldr]. rewrite rmatch_seq.
      replace (rmatch (rstr "status") _) with (@nil pos); [done|].
      change (rstr "status") with (RSeq (RSet (Ascii.eqb "s")) (rstr "tatus")).
      by rewrite rmatch_seq, rmatch_set, Hx. }
  unfold group1.
  replace (drop _ _) with [a; b; c].
  - unfold parseDigits, digits3. cbn [foldl]. rewrite Ha, Hb, Hc. lia.
  - rewrite app_comm_cons, app_assoc, length_app.
    replace (_ + length [a; b; c] - 3)%nat with (length (s2l "status" ++ s0 :: seps)) by (simpl; lia).
    by rewrite drop_app_length.
Qed.

Lemma digits3_pos a b c r : spec_by_status (digits3 a b c) = Some r → 0 < digits3 a b c.
Proof.
  unfold spec_by_status. intros H.
  destruct (find_first _ status_table) as [row|] eqn:Hf; [|done].
  apply find_first_elem in Hf as [Hin Heq]. apply Z.eqb_eq in Heq. rewrite <- Heq.
  unfold status_table, transientStatusCodes in Hin.
  assert (Forall (λ r, 0 < r.1) status_table) as Hall by (repeat constructor).
  by apply (Forall_forall (λ r : Z * FailoverReason, 0 < r.1) status_table) in Hin.
Qed.

(** ** Properties *)

(** A status code in the error text decides the reason.  For every text in
    which "status", separators and three digits follow a prefix without an "s",
    the classifier extracts those digits, and when the table knows the code its
    reason wins whatever the rest of the text says (image errors apart). *)
Theorem status_text_decides `{U : UnicodeCase} pre s0 seps a b c rest provider model reason :
  let text := l2s (pre ++ s2l "status" ++ s0 :: seps ++ a :: b :: c :: rest) in
  Forall (λ x, Ascii.eqb "s" x = false) pre →
  is_sep s0 = true → Forall (λ x, is_sep x = true) seps →
  is_digit_byte a = true → is_digit_byte b = true → is_digit_byte c = true →
  to_lower text = text → image_error text = false →
  spec_by_status (digits3 a b c) = Some reason →
  ClassifyError (Some (ErrText text)) provider model
  = Some (MkFailover reason provider model (digits3 a b c) (ErrText text)).
Proof.
  intros text Hpre H0 Hs Ha Hb Hc Hlow Himg Hr.
  unfold ClassifyError, error_text. rewrite Hlow. unfold image_error in Himg. rewrite Himg.
  unfold text. rewrite extractHTTPStatus_text by done.
  rewrite (proj2 (Z.ltb_lt _ _)) by (by eapply digits3_pos).
  by rewrite classifyByStatus_spec, Hr.
Qed.

Lemma status_text_decides_witness :
  let text := l2s (s2l "api error, " ++ s2l "status" ++ ":"%char :: s2l " " ++ "4" :: "2" :: "9"%char
                   :: s2l " unauthorized")%char in
  ClassifyError (U := bytewise_case) (Some (ErrText text)) "openai" "gpt-4o"
  = Some (MkFailover FailoverRateLimit "openai" "gpt-4o" 429 (ErrText text)).
Proof.
  apply (status_text_decides (U := bytewise_case) (s2l "api error, ") ":" (s2l " ") "4" "2" "9"
    (s2l " unauthorized") "openai" "gpt-4o" FailoverRateLimit); first [by vm_compute|repeat constructor].
Defined.

(** C40: [ClassifyError] implements its specification for every error: nil and
    [context.Canceled] are unclassified, a deadline is a timeout, an image error is
    a format error before anything else, then the status table, then the message
    tables in order, the first that matches; provider, model and wrapped error are
    passed through, and only the format reason is not retriable. *)
Theorem ClassifyError_spec `{U : UnicodeCase} err provider model :
  match err with
  | None | Some ErrCanceled => ClassifyError err provider model = None
  | Some ErrDeadlineExceeded =>
      ClassifyError err provider model
      = Some (MkFailover FailoverTimeout provider model 0 ErrDeadlineExceeded)
  | Some e =>
      fe_Reason <$> ClassifyError err provider model = spec_reason (to_lower (error_text e))
  end
  ∧ (∀ fe, ClassifyError err provider model = Some fe →
       fe_Provider fe = provider ∧ fe_Model fe = model ∧ Some (fe_Wrapped fe) = err
       ∧ (IsRetriable fe = false ↔ fe_Reason fe = FailoverFormat)).
Proof.
  assert (∀ fe, IsRetriable fe = false ↔ fe_Reason fe = FailoverFormat) as Hret.
  { intros fe. unfold IsRetriable. rewrite negb_false_iff. apply bool_decide_eq_true. }
  split.
  - destruct err as [[| |msg]|]; try done. unfold ClassifyError, spec_reason, image_error.
    cbn [error_text].
    destruct (IsImageDimensionError _ || IsImageSizeError _); [done|].
    rewrite classifyByStatus_spec, classifyByMessage_spec.
    destruct (Z.ltb_spec 0 (extractHTTPStatus (to_lower msg))) as [|Hle].
    + destruct (spec_by_status _); [done|]. by destruct (spec_by_message _).
    + assert (spec_by_status (extractHTTPStatus (to_lower msg)) = None) as ->;
        [|by destruct (spec_by_message _)].
      unfold spec_by_status. rewrite (proj2 (find_first_None _ status_table)); [done|].
      assert (Forall (λ r, 0 < r.1) status_table) as Hall by (repeat constructor).
      eapply Forall_impl; [exact Hall|]. intros row Hrow. cbv beta in Hrow. apply Z.eqb_neq. lia.
  - intros fe Hfe. unfold ClassifyError in Hfe. destruct err as [[| |msg]|]; simplify_eq/=; [by eauto|].
    cases_in Hfe; simplify_eq/=; by eauto.
Qed.

Lemma ClassifyError_spec_witness :
  fe_Reason <$> ClassifyError (U := bytewise_case) (Some (ErrText "Quota Exceeded: payment required")) "p" "m"
  = Some FailoverRateLimit.
Proof.
  rewrite (proj1 (ClassifyError_spec (U := bytewise_case)
    (Some (ErrText "Quota Exceeded: payment required")) "p" "m")).
  by vm_compute.
Defined.

(** The second status pattern, for "HTTP/1.1 503", is dead code: the text is
    lower-cased before the case-sensitive expression runs, so it never matches and
    the status is what the first pattern finds; the common text
    "HTTP/1.1 503 Service Unavailable" is left unclassified although 503 is in the
    table of transient codes. *)
Theorem http_pattern_dead `{U : UnicodeCase} text provider model :
  re_find httpPattern (to_lower text) = None
  ∧ extractHTTPStatus (to_lower text)
    = match re_find statusPattern (to_lower text) with Some m => parseDigits (group1 m) | None => 0 end
  ∧ spec_by_status 503 = Some FailoverTimeout
  ∧ ClassifyError (Some (ErrText "HTTP/1.1 503 Service Unavailable")) provider model = None.
Proof.
  assert (∀ s, re_find httpPattern (to_lower s) = None) as Hdead.
  { intros s. apply httpPattern_dead, to_lower_no_upper. }
  split_and!; [done| |done|by vm_compute].
  unfold extractHTTPStatus, statusPatterns. cbn [first_some].
  destruct (re_find statusPattern (to_lower text)); [done|]. by rewrite Hdead.
Qed.
