(* ===== verification/Chain.v ===== *)
(** [pkg/providers/fallback/chain.go]: the failover chain over an ordered list of
    candidates.  What the code reads from outside is a section parameter: [W] is
    the outside world, [ctx_err] the context's error, [clock] a reading of the time
    (which lets the world move on) and [run] the callback that calls a provider. *)
From S2P Require Import Prelude GoStrings Types Cooldown Classifier.

Record Candidate := { cand_Provider : string; cand_Model : string }.

(** [Attempt.Error]: the provider's error as it came, its classification, or the
    cooldown notice with the remaining time. *)
Inductive attempt_error :=
| AttemptRaw (e : goerror)
| AttemptFailover (e : FailoverError)
| AttemptCooldown (provider : string) (remaining : duration).

(** [Reason = ""] is [None]. *)
Record Attempt := MkAttempt {
  at_Provider : string; at_Model : string; at_Error : attempt_error;
  at_Reason : option FailoverReason; at_Duration : duration; at_Skipped : bool;
}.

Record Result := MkResult {
  res_Provider : string; res_Model : string; res_Attempts : list Attempt;
}.

Inductive chain_error :=
| NoCandidates
| ChainCanceled
| ChainFailover (e : FailoverError)
| ExhaustedError (attempts : list Attempt).

Section chain.
Context `{U : UnicodeCase} {W : Type}.
Context (ctx_err : W → option goerror) (clock : W → time * W)
        (run : string → string → W → option goerror * W).

(** The result, the tracker and the world when [Execute] returns. *)
Abbreviation outcome := (result chain_error Result * CooldownTracker * W)%type.

Definition canceled (w : W) : bool := bool_decide (ctx_err w = Some ErrCanceled).

(** The loop of [Execute] from candidate [i] of [n]. *)
Fixpoint execute_loop (n i : nat) (cands : list Candidate) (atts : list Attempt)
    (ct : CooldownTracker) (w : W) : outcome :=
  match cands with
  | [] => (Err (ExhaustedError atts), ct, w)
  | c :: rest =>
      if canceled w then (Err ChainCanceled, ct, w)
      else
      let p := cand_Provider c in
      let m := cand_Model c in
      let '(now, w) := clock w in
      if negb (IsAvailable ct p now) then
        let '(now2, w) := clock w in
        let remaining := CooldownRemaining ct p now2 in
        execute_loop n (S i) rest
          (atts ++ [MkAttempt p m (AttemptCooldown p remaining) (Some FailoverRateLimit) 0 true]) ct w
      else
      let '(start, w) := clock w in
      let '(err, w) := run p m w in
      let '(stop, w) := clock w in
      let elapsed := time_sub stop start in
      match err with
      | None => (Ok (MkResult p m atts), MarkSuccess p ct, w)
      | Some e =>
          if canceled w then (Err ChainCanceled, ct, w)
          else match ClassifyError (Some e) p m with
          | None =>
              let atts := atts ++ [MkAttempt p m (AttemptRaw e) (Some FailoverTimeout) elapsed false] in
              if (i =? n - 1)%nat then (Err (ExhaustedError atts), ct, w)
              else execute_loop n (S i) rest atts ct w
          | Some fe =>
              if negb (IsRetriable fe) then (Err (ChainFailover fe), ct, w)
              else
                let '(tfail, w) := clock w in
                let ct := MarkFailure p (fe_Reason fe) tfail ct in
                let atts := atts ++ [MkAttempt p m (AttemptFailover fe) (Some (fe_Reason fe)) elapsed false] in
                if (i =? n - 1)%nat then (Err (ExhaustedError atts), ct, w)
                else execute_loop n (S i) rest atts ct w
          end
      end
  end.

Definition Execute (candidates : list Candidate) (ct : CooldownTracker) (w : W) : outcome :=
  match candidates with
  | [] => (Err NoCandidates, ct, w)
  | _ => execute_loop (length candidates) 0 candidates [] ct w
  end.
End chain.

(** ** Specification *)

(** What an attempt records of its candidate when the chain moves on. *)
Definition attempt_for (c : Candidate) (a : Attempt) : Prop :=
  at_Provider a = cand_Provider c ∧ at_Model a = cand_Model c ∧
  match at_Error a with
  | AttemptCooldown p _ => at_Skipped a = true ∧ p = cand_Provider c ∧ at_Reason a = Some FailoverRateLimit
  | AttemptRaw _ => at_Skipped a = false ∧ at_Reason a = Some FailoverTimeout
  | AttemptFailover fe =>
      at_Skipped a = false ∧ at_Reason a = Some (fe_Reason fe) ∧ IsRetriable fe = true
      ∧ fe_Provider fe = cand_Provider c ∧ fe_Model fe = cand_Model c
  end.

(** The result accounts for the candidates [cands] after the attempts [atts]. *)
Definition accounts (cands : list Candidate) (atts : list Attempt) (r : result chain_error Result) : Prop :=
  match r with
  | Ok res => ∃ l1 c l2 new, cands = l1 ++ c :: l2 ∧ res_Attempts res = atts ++ new
      ∧ Forall2 attempt_for l1 new
      ∧ res_Provider res = cand_Provider c ∧ res_Model res = cand_Model c
  | Err (ExhaustedError final) => ∃ new, final = atts ++ new ∧ Forall2 attempt_for cands new
  | Err (ChainFailover fe) => fe_Reason fe = FailoverFormat
      ∧ ∃ c, c ∈ cands ∧ fe_Provider fe = cand_Provider c ∧ fe_Model fe = cand_Model c
  | Err ChainCanceled => True
  | Err NoCandidates => False
  end.

(** The calls that remain visible in the attempts: the candidates not skipped. *)
Definition called (a : Attempt) : bool := negb (at_Skipped a).
Definition calls_of (atts : list Attempt) : list (string * string) :=
  (λ a, (at_Provider a, at_Model a)) <$> filter (λ a, called a = true) atts.

(** The same callback writing down its calls. *)
Definition logged {W} (run : string → string → W → option goerror * W)
    (p m : string) (wl : W * list (string * string)) : option goerror * (W * list (string * string)) :=
  let '(e, w) := run p m wl.1 in (e, (w, wl.2 ++ [(p, m)])).
Definition logged_clock {W} (clock : W → time * W) (wl : W * list (string * string)) :
    time * (W * list (string * string)) :=
  let '(t, w) := clock wl.1 in (t, (w, wl.2)).

(** ** Lemmas *)

#[local] Arguments ClassifyError : simpl never.
#[local] Arguments IsRetriable : simpl never.
#[local] Arguments IsAvailable : simpl never.
#[local] Arguments MarkFailure : simpl never.
#[local] Arguments MarkSuccess : simpl never.

Section lemmas.
Context `{U : UnicodeCase} {W : Type}.
Context (ctx_err : W → option goerror) (clock : W → time * W)
        (run : string → string → W → option goerror * W).

Lemma classify_fields e p m fe : ClassifyError (Some e) p m = Some fe →
  fe_Provider fe = p ∧ fe_Model fe = m.
Proof.
  intros H. unfold ClassifyError in H. destruct e; simplify_eq/=; [done|].
  cases_in H; simplify_eq/=; done.
Qed.

Lemma accounts_cons c cands a atts r :
  attempt_for c a → accounts cands (atts ++ [a]) r → accounts (c :: cands) atts r.
Proof.
  intros Ha. destruct r as [res|[| |fe|final]]; simpl; try done.
  - intros (l1 & c' & l2 & new & -> & Hr & Hf & ? & ?).
    exists (c :: l1), c', l2, (a :: new). rewrite Hr, <- app_assoc.
    repeat split; try done. by constructor.
  - intros (Hf & c' & Hc & Hp). split; [done|]. exists c'. split; [by right|done].
  - intros (new & -> & Hf). exists (a :: new). rewrite <- app_assoc. split; [done|by constructor].
Qed.

Lemma accounts_last c a atts :
  attempt_for c a → accounts [c] atts (Err (ExhaustedError (atts ++ [a]))).
Proof. intros Ha. exists [a]. split; [done|]. by constructor. Qed.

Ltac read_clock := repeat match goal with
  | |- context [clock ?w] => destruct (clock w) as [??] eqn:?
  end.

Lemma execute_loop_accounts n i cands atts ct w :
  (i + length cands = n)%nat → (0 < length cands)%nat →
  accounts cands atts (execute_loop ctx_err clock run n i cands atts ct w).1.1.
Proof.
  intros Hn Hpos. clear Hpos. revert i atts ct w Hn.
  induction cands as [|c cands IH]; intros i atts ct w Hn; simpl.
  - exists []. split; [by rewrite app_nil_r|constructor].
  - assert (i = n - 1 → cands = [])%nat as Hlast.
    { simpl in Hn. intros ->. destruct cands; [done|]. simpl in Hn. lia. }
    simpl in Hn.
    destruct (canceled ctx_err w); [done|].
    destruct (clock w) as [now w1]. destruct (negb (IsAvailable ct (cand_Provider c) now)).
    { destruct (clock w1) as [now2 w2].
      eapply accounts_cons; [|apply IH; lia]. by repeat split. }
    destruct (clock w1) as [start w2]. destruct (run _ _ w2) as [[e|] w3].
    2:{ destruct (clock w3) as [stop w4]. simpl. exists [], c, cands, [].
        rewrite app_nil_r. by repeat split. }
    destruct (clock w3) as [stop w4]. destruct (canceled ctx_err w4); [done|].
    destruct (ClassifyError (Some e) (cand_Provider c) (cand_Model c)) as [fe|] eqn:Hcl.
    + destruct (classify_fields _ _ _ _ Hcl) as [Hp Hm].
      destruct (IsRetriable fe) eqn:Hret; simpl.
      * destruct (clock w4) as [tfail w5]. destruct (Nat.eqb_spec i (n - 1)) as [Hi|].
        -- rewrite (Hlast Hi). apply accounts_last. by repeat split.
        -- eapply accounts_cons; [|apply IH; lia]. by repeat split.
      * unfold IsRetriable in Hret. apply negb_false_iff, bool_decide_eq_true in Hret.
        split; [done|]. exists c. split; [by left|done].
    + destruct (Nat.eqb_spec i (n - 1)) as [Hi|].
      * rewrite (Hlast Hi). apply accounts_last. by repeat split.
      * eapply accounts_cons; [|apply IH; lia]. by repeat split.
Qed.

(** The tracker entries of providers outside the list are never written. *)
Lemma execute_loop_frame n i cands atts ct w q :
  (∀ c, c ∈ cands → cand_Provider c ≠ q) →
  ct_entries (execute_loop ctx_err clock run n i cands atts ct w).1.2 !! q = ct_entries ct !! q.
Proof.
  revert i atts ct w. induction cands as [|c cands IH]; intros i atts ct w Hq; simpl; [done|].
  assert (cand_Provider c ≠ q) as Hc by (apply Hq; set_solver).
  assert (∀ c, c ∈ cands → cand_Provider c ≠ q) as Hq' by (intros; apply Hq; set_solver).
  assert (∀ ct r t, ct_entries (MarkFailure (cand_Provider c) r t ct) !! q = ct_entries ct !! q) as Hf.
  { intros. unfold MarkFailure. rewrite put_entry_lookup. by rewrite decide_False. }
  assert (ct_entries (MarkSuccess (cand_Provider c) ct) !! q = ct_entries ct !! q) as Hs.
  { unfold MarkSuccess. destruct (ct_entries ct !! cand_Provider c); [|done].
    rewrite put_entry_lookup. by rewrite decide_False. }
  destruct (canceled ctx_err w); [done|].
  destruct (clock w) as [now w1]. destruct (negb (IsAvailable ct (cand_Provider c) now)).
  { destruct (clock w1) as [now2 w2]. by apply IH. }
  destruct (clock w1) as [start w2]. destruct (run _ _ w2) as [[e|] w3]; simpl;
    destruct (clock w3) as [stop w4]; [|done].
  destruct (canceled ctx_err w4); [done|].
  destruct (ClassifyError _ _ _) as [fe|].
  - destruct (negb (IsRetriable fe)); [done|]. destruct (clock w4) as [tf w5].
    destruct (i =? n - 1)%nat; simpl; [apply Hf|]. by rewrite IH, Hf.
  - destruct (i =? n - 1)%nat; [done|]. by apply IH.
Qed.
End lemmas.

(** ** The calls the chain makes *)

Section calls.
Context `{U : UnicodeCase} {W : Type}.
Context (ctx_err : W → option goerror) (clock : W → time * W)
        (run : string → string → W → option goerror * W).

Definition cand_call (c : Candidate) : string * string := (cand_Provider c, cand_Model c).

(** [log] extends [log0] as the result says, by calls of [cands] in order. *)
Definition calls_ok (cands : list Candidate) (atts : list Attempt)
    (log0 log : list (string * string)) (r : result chain_error Result) : Prop :=
  ∃ new, log = log0 ++ new ∧ new `sublist_of` (cand_call <$> cands) ∧
  match r with
  | Ok res => calls_of atts ++ new = calls_of (res_Attempts res) ++ [(res_Provider res, res_Model res)]
  | Err (ExhaustedError final) => calls_of atts ++ new = calls_of final
  | Err _ => True
  end.

Lemma calls_of_snoc atts a :
  calls_of (atts ++ [a]) = calls_of atts ++ (if called a then [(at_Provider a, at_Model a)] else []).
Proof.
  unfold calls_of. rewrite filter_app, fmap_app. f_equal.
  unfold filter, list_filter. simpl. destruct (called a); by case_decide.
Qed.

Lemma calls_ok_skip c cands atts a log0 log r :
  called a = false → calls_ok cands (atts ++ [a]) log0 log r → calls_ok (c :: cands) atts log0 log r.
Proof.
  intros Ha (new & -> & Hsub & Hr). exists new. split; [done|].
  split; [by apply sublist_cons|]. rewrite calls_of_snoc, Ha, app_nil_r in Hr. done.
Qed.

Lemma calls_ok_call c cands atts a log0 log r :
  called a = true → (at_Provider a, at_Model a) = cand_call c →
  calls_ok cands (atts ++ [a]) (log0 ++ [cand_call c]) log r → calls_ok (c :: cands) atts log0 log r.
Proof.
  intros Ha Hc (new & -> & Hsub & Hr). exists (cand_call c :: new).
  split; [by rewrite <- app_assoc|]. split; [by apply sublist_skip|].
  rewrite calls_of_snoc, Ha, Hc in Hr. destruct r as [res|[| |fe|final]]; try done;
    by rewrite <- app_assoc in Hr.
Qed.

(** The chain stops right after the call of [c]. *)
Lemma calls_ok_stop c cands atts log0 r :
  match r with
  | Ok res => res_Attempts res = atts ∧ (res_Provider res, res_Model res) = cand_call c
  | Err (ExhaustedError final) =>
      ∃ a, final = atts ++ [a] ∧ called a = true ∧ (at_Provider a, at_Model a) = cand_call c
  | Err _ => True
  end → calls_ok (c :: cands) atts log0 (log0 ++ [cand_call c]) r.
Proof.
  intros Hr. exists [cand_call c]. split; [done|].
  split; [apply sublist_skip, sublist_nil_l|].
  destruct r as [res|[| |fe|final]]; try done.
  - by destruct Hr as [-> ->].
  - destruct Hr as (a & -> & Ha & Hc). by rewrite calls_of_snoc, Ha, Hc.
Qed.

Lemma execute_loop_calls n i cands atts ct w log0 :
  let '(r, _, wl) := execute_loop (λ wl, ctx_err wl.1) (logged_clock clock) (logged run)
                       n i cands atts ct (w, log0) in
  calls_ok cands atts log0 wl.2 r.
Proof.
  revert i atts ct w log0. induction cands as [|c cands IH]; intros i atts ct w log0.
  { exists []. cbn. rewrite !app_nil_r. split; [done|]. split; [constructor|done]. }
  simpl. unfold canceled. simpl. case_bool_decide.
  { exists []. rewrite !app_nil_r. split; [done|]. split; [apply sublist_nil_l|done]. }
  unfold logged_clock at 1. simpl. destruct (clock w) as [now w1].
  destruct (negb (IsAvailable ct (cand_Provider c) now)).
  { unfold logged_clock at 1. simpl. destruct (clock w1) as [now2 w2].
    specialize (IH (S i) (atts ++ [MkAttempt (cand_Provider c) (cand_Model c)
      (AttemptCooldown (cand_Provider c) (CooldownRemaining ct (cand_Provider c) now2))
      (Some FailoverRateLimit) 0 true]) ct w2 log0).
    destruct (execute_loop _ _ _ _ _ _ _ _ _) as [[r ct'] wl]. eapply calls_ok_skip; [|exact IH]; done. }
  unfold logged_clock at 1. simpl. destruct (clock w1) as [start w2].
  unfold logged at 1. simpl. destruct (run _ _ w2) as [oe w3]. fold (cand_call c).
  unfold logged_clock at 1. simpl. destruct (clock w3) as [stop w4].
  destruct oe as [e|]; [|by apply calls_ok_stop].
  simpl. case_bool_decide; [by apply calls_ok_stop|].
  destruct (ClassifyError _ _ _) as [fe|].
  - destruct (negb (IsRetriable fe)); [by apply calls_ok_stop|].
    unfold logged_clock at 1. simpl. destruct (clock w4) as [tf w5].
    destruct (i =? n - 1)%nat; [apply calls_ok_stop; by eexists|].
    specialize (IH (S i) (atts ++ [MkAttempt (cand_Provider c) (cand_Model c) (AttemptFailover fe)
      (Some (fe_Reason fe)) (time_sub stop start) false])
      (MarkFailure (cand_Provider c) (fe_Reason fe) tf ct) w5 (log0 ++ [cand_call c])).
    destruct (execute_loop _ _ _ _ _ _ _ _ _) as [[r ct'] wl]. eapply calls_ok_call; [| |exact IH]; done.
  - destruct (i =? n - 1)%nat; [apply calls_ok_stop; by eexists|].
    specialize (IH (S i) (atts ++ [MkAttempt (cand_Provider c) (cand_Model c) (AttemptRaw e)
      (Some FailoverTimeout) (time_sub stop start) false]) ct w4 (log0 ++ [cand_call c])).
    destruct (execute_loop _ _ _ _ _ _ _ _ _) as [[r ct'] wl]. eapply calls_ok_call; [| |exact IH]; done.
Qed.
End calls.

(** A world for examples: the clock time and the scripted answers of the providers. *)
Record demo_world := { dw_time : time; dw_answers : list (option goerror) }.
Definition demo_clock (w : demo_world) : time * demo_world := (dw_time w, w).
Definition demo_run (_ _ : string) (w : demo_world) : option goerror * demo_world :=
  match dw_answers w with
  | [] => (None, w)
  | a :: l => (a, {| dw_time := dw_time w + Second; dw_answers := l |})
  end.

(** ** Properties *)

(** C1: Every candidate is accounted for.  On success the served candidate is in
    the list and the attempts pair off, one each, with the candidates before it; when
    the chain is exhausted they pair off with all candidates; each is a skip in
    cooldown or an unclassified or retriable failure of that candidate.  Any other
    error is cancellation or a format error of one of the candidates, and the
    "no candidates" error means the list is empty. *)
Theorem Execute_accounts `{U : UnicodeCase} {W} ctx_err clock run cands ct (w : W) :
  match cands with
  | [] => (Execute ctx_err clock run cands ct w).1.1 = Err NoCandidates
  | _ => accounts cands [] (Execute ctx_err clock run cands ct w).1.1
  end.
Proof.
  destruct cands as [|c cands]; [done|].
  apply execute_loop_accounts; simpl; lia.
Qed.

(** Which providers are called.  Running the chain with a callback that writes
    down its calls, the calls are a sublist of the candidates (each at most once, in
    order); on success or exhaustion they are exactly the attempts not marked as
    skipped, followed on success by the provider that served. *)
Theorem Execute_calls `{U : UnicodeCase} {W} ctx_err clock run cands ct (w : W) :
  let '(r, _, (_, log)) := Execute (λ wl, ctx_err wl.1) (logged_clock clock) (logged run) cands ct (w, []) in
  log `sublist_of` (cand_call <$> cands)
  ∧ match r with
    | Ok res => log = calls_of (res_Attempts res) ++ [(res_Provider res, res_Model res)]
    | Err (ExhaustedError final) => log = calls_of final
    | Err _ => True
    end.
Proof.
  destruct cands as [|c cands]; [done|]. unfold Execute.
  pose proof (execute_loop_calls ctx_err clock run (length (c :: cands)) 0 (c :: cands) [] ct w [])
    as H.
  destruct (execute_loop _ _ _ _ _ _ _ _ _) as [[r ct'] [w' log]].
  destruct H as (new & Hlog & Hsub & Hr). simpl in Hlog. by subst.
Qed.

(** Effect of the chain on the cooldowns.  A provider outside the list keeps
    its entry; the provider that served is available at every time with a zero error
    count; a cancelled context returns at once, without a call and with tracker and
    world unchanged. *)
Theorem Execute_tracker `{U : UnicodeCase} {W} ctx_err clock run cands ct (w : W) :
  let '(r, ct', w') := Execute ctx_err clock run cands ct w in
  (∀ q, (∀ c, c ∈ cands → cand_Provider c ≠ q) → ct_entries ct' !! q = ct_entries ct !! q)
  ∧ (∀ res t, r = Ok res → IsAvailable ct' (res_Provider res) t = true ∧ ErrorCount ct' (res_Provider res) = 0)
  ∧ (cands ≠ [] → ctx_err w = Some ErrCanceled → r = Err ChainCanceled ∧ ct' = ct ∧ w' = w).
Proof.
  destruct (Execute ctx_err clock run cands ct w) as [[r ct'] w'] eqn:He.
  destruct cands as [|c0 cands]; unfold Execute in He; [simplify_eq; by split_and!|].
  split_and!.
  - intros q Hq. change ct' with (r, ct', w').1.2. rewrite <- He. by apply execute_loop_frame.
  - intros res t ->. clear -He. revert He. generalize (length (c0 :: cands)), 0%nat, (@nil Attempt).
    revert ct w. generalize (c0 :: cands). intros l. induction l as [|c l IH];
      intros ct w n i atts He; cbn [execute_loop] in He; [done|].
    repeat (match type of He with
      | context [clock ?x] => destruct (clock x) as [? ?]
      | context [run ?a ?b ?x] => destruct (run a b x) as [[?|] ?]
      | context [if ?x then _ else _] => destruct x
      | context [match ClassifyError ?e ?p ?m with _ => _ end] => destruct (ClassifyError e p m)
      end; cbn [negb] in He); try done; try by eapply IH.
    all: simplify_eq; cbn [res_Provider].
    all: unfold IsAvailable, ErrorCount.
    all: destruct (ct_entries (MarkSuccess (cand_Provider c) ct) !! cand_Provider c) as [e|] eqn:Hent;
      [|done].
    all: by apply MarkSuccess_entry in Hent as (-> & _ & -> & -> & _).
  - intros _ Hc. cbn [execute_loop] in He. unfold canceled in He.
    rewrite bool_decide_true in He by done. by simplify_eq.
Qed.

Lemma Execute_tracker_witness :
  let ctx := λ w : demo_world, if dw_time w =? 0 then Some ErrCanceled else None in
  Execute (U := bytewise_case) ctx demo_clock demo_run [{| cand_Provider := "a"; cand_Model := "m" |}]
    NewCooldownTracker {| dw_time := 0; dw_answers := [] |}
  = (Err ChainCanceled, NewCooldownTracker, {| dw_time := 0; dw_answers := [] |}).
Proof.
  pose proof (Execute_tracker (U := bytewise_case)
    (λ w : demo_world, if dw_time w =? 0 then Some ErrCanceled else None) demo_clock demo_run
    [{| cand_Provider := "a"; cand_Model := "m" |}] NewCooldownTracker
    {| dw_time := 0; dw_answers := [] |}) as H.
  cbv zeta. destruct (Execute _ _ _ _ _ _) as [[r ct] w].
  destruct H as (_ & _ & H). destruct H as (-> & -> & ->); done.
Defined.
