(* ===== verification/FallbackLLM.v ===== *)
(** [pkg/providers/fallback/llm.go]: the model wrapper that streams from the first
    candidate of the failover chain that works.  A provider's stream is the list of
    its items; the consumer is the function [yield] of what it has received so far.
    The closure passed to [Chain.Execute] shares [lastErr], [yieldStopped] and the
    delivered items with its caller: they are part of the world it runs in. *)
From S2P Require Import Prelude GoStrings Types Cooldown Classifier Chain.

Section llm.
Context `{U : UnicodeCase} {World LLM LLMResponse : Type}.
Context (ctx_err : World → option goerror) (clock : World → time * World).
(** [llm.GenerateContent]: the items of the stream, and the world after it. *)
Context (GenerateContent : LLM → World → list (LLMResponse + goerror) * World).

Record LLMEntry := { entry_Provider : string; entry_Model : string; entry_LLM : LLM }.

(** What reaches the consumer: a response, a provider's error or the chain's. *)
Inductive delivery := Resp (r : LLMResponse) | ProviderErr (e : goerror) | ChainErr (e : chain_error).

Context (yield : list delivery → delivery → bool).

Record FallbackLLM := { fl_entries : list LLMEntry }.

Definition Name (f : FallbackLLM) : string :=
  "fallback[" +:+ join ((λ e, entry_Provider e +:+ "/" +:+ entry_Model e) <$> fl_entries f) "," +:+ "]".

(** [llmByProvider]: a later entry of the same provider overwrites an earlier one. *)
Definition llmByProvider (entries : list LLMEntry) : gmap string LLM :=
  foldl (λ m e, <[entry_Provider e := entry_LLM e]> m) ∅ entries.

(** The variables the closure captures. *)
Record capture := Capture {
  cap_world : World; cap_out : list delivery; cap_lastErr : option goerror; cap_stopped : bool;
}.

Fixpoint consume_stream (items : list (LLMResponse + goerror)) (s : capture) : option goerror * capture :=
  match items with
  | [] => (None, s)
  | inr e :: _ => (Some e, Capture (cap_world s) (cap_out s) (Some e) (cap_stopped s))
  | inl r :: items =>
      let continue := yield (cap_out s) (Resp r) in
      let s := Capture (cap_world s) (cap_out s ++ [Resp r]) None (cap_stopped s) in
      if continue then consume_stream items s
      else (None, Capture (cap_world s) (cap_out s) (cap_lastErr s) true)
  end.

(** The closure.  A provider without an entry would be a nil interface; the
    candidates are built from the same entries, so that branch is never taken. *)
Definition call_provider (entries : list LLMEntry) (provider modelName : string) (s : capture) :
    option goerror * capture :=
  match llmByProvider entries !! provider with
  | None => (Some (ErrText "nil LLM"), s)
  | Some llm =>
      let '(items, w) := GenerateContent llm (cap_world s) in
      consume_stream items (Capture w (cap_out s) (cap_lastErr s) (cap_stopped s))
  end.

Definition candidates_of (entries : list LLMEntry) : list Candidate :=
  (λ e, {| cand_Provider := entry_Provider e; cand_Model := entry_Model e |}) <$> entries.

Definition lift_clock (s : capture) : time * capture :=
  let '(t, w) := clock (cap_world s) in (t, Capture w (cap_out s) (cap_lastErr s) (cap_stopped s)).

Definition generateWithFallback (f : FallbackLLM) (ct : CooldownTracker) (w : World) :
    result chain_error Result * CooldownTracker * capture :=
  let '(r, ct, s) := Execute (λ s, ctx_err (cap_world s)) lift_clock (call_provider (fl_entries f))
                       (candidates_of (fl_entries f)) ct (Capture w [] None false) in
  if cap_stopped s then (r, ct, s)
  else match r with
       | Ok _ => (r, ct, s)
       | Err e =>
           let last := match cap_lastErr s with Some le => ProviderErr le | None => ChainErr e end in
           (r, ct, Capture (cap_world s) (cap_out s ++ [last]) (cap_lastErr s) (cap_stopped s))
       end.

(** The iterator of one provider handed straight to the consumer. *)
Fixpoint deliver_all (items : list (LLMResponse + goerror)) (out : list delivery) : list delivery :=
  match items with
  | [] => out
  | it :: items =>
      let d := match it with inl r => Resp r | inr e => ProviderErr e end in
      if yield out d then deliver_all items (out ++ [d]) else out ++ [d]
  end.

Definition Generate (f : FallbackLLM) (ct : CooldownTracker) (w : World) :
    list delivery * CooldownTracker * World :=
  match fl_entries f with
  | [e] => let '(items, w) := GenerateContent (entry_LLM e) w in (deliver_all items [], ct, w)
  | _ => let '(_, ct, s) := generateWithFallback f ct w in (cap_out s, ct, cap_world s)
  end.

(** ** Lemmas *)

Definition is_resp (d : delivery) : Prop := match d with Resp _ => True | _ => False end.

Lemma consume_stream_inv items s e s' :
  consume_stream items s = (e, s') → Forall is_resp (cap_out s) → Forall is_resp (cap_out s').
Proof.
  revert s. induction items as [|[r|err] items IH]; intros s Hc Hout; simpl in Hc; [by simplify_eq| |by simplify_eq].
  assert (Forall is_resp (cap_out s ++ [Resp r])) by (apply Forall_app; split; [done|by repeat constructor]).
  destruct (yield _ _). { eapply IH; [exact Hc|done]. } simplify_eq. done.
Qed.

Lemma llmByProvider_lookup entries p :
  llmByProvider entries !! p = entry_LLM <$> find_first (λ e, bool_decide (entry_Provider e = p)) (reverse entries).
Proof.
  unfold llmByProvider. induction entries as [|e entries IH] using rev_ind; [done|].
  rewrite foldl_app, reverse_snoc. simpl. rewrite lookup_insert, IH.
  case_decide; [by rewrite bool_decide_true|by rewrite bool_decide_false].
Qed.

Lemma llmByProvider_NoDup entries e :
  NoDup (entry_Provider <$> entries) → e ∈ entries →
  llmByProvider entries !! entry_Provider e = Some (entry_LLM e).
Proof.
  intros Hnd He. rewrite llmByProvider_lookup.
  destruct (find_first _ _) as [e'|] eqn:Hf.
  - apply find_first_elem in Hf as [He' Hp]. apply bool_decide_eq_true in Hp.
    rewrite elem_of_reverse in He'.
    enough (e' = e) as -> by done.
    apply list_elem_of_lookup in He as [i Hi], He' as [j Hj].
    assert (i = j) as ->; [|congruence].
    eapply NoDup_lookup; [exact Hnd| |];
      rewrite list_lookup_fmap; [by rewrite Hi|by rewrite Hj, <- Hp].
  - apply find_first_None in Hf. eapply Forall_forall in Hf; [|by apply elem_of_reverse].
    by apply bool_decide_eq_false in Hf.
Qed.

Lemma execute_loop_inv (P : capture → Prop) entries n i cands atts ct s r ct' s' :
  (∀ s t s', lift_clock s = (t, s') → P s → P s') →
  (∀ p m s e s', call_provider entries p m s = (e, s') → P s → P s') →
  execute_loop (λ s, ctx_err (cap_world s)) lift_clock (call_provider entries) n i cands atts ct s
    = (r, ct', s') → P s → P s'.
Proof.
  intros Hclock Hrun. revert i atts ct s.
  induction cands as [|c cands IH]; intros i atts ct s He Hs; cbn [execute_loop] in He; [by simplify_eq|].
  repeat (match type of He with
    | context [lift_clock ?x] => destruct (lift_clock x) as [? ?] eqn:?
    | context [call_provider ?a ?b ?c ?x] => destruct (call_provider a b c x) as [[?|] ?] eqn:?
    | context [if ?x then _ else _] => destruct x
    | context [match ClassifyError ?e ?p ?m with _ => _ end] => destruct (ClassifyError e p m)
    end; cbn [negb] in He);
  first [ eapply IH; [exact He|] | simplify_eq ];
  repeat match goal with
    | H : lift_clock _ = (_, ?x) |- P ?x => eapply Hclock; [exact H|]
    | H : call_provider _ _ _ _ = (_, ?x) |- P ?x => eapply Hrun; [exact H|]
    end; done.
Qed.

Lemma generate_out_inv f ct w r ct' s :
  Execute (λ s, ctx_err (cap_world s)) lift_clock (call_provider (fl_entries f))
    (candidates_of (fl_entries f)) ct (Capture w [] None false) = (r, ct', s) →
  Forall is_resp (cap_out s).
Proof.
  unfold Execute. destruct (candidates_of (fl_entries f)) as [|c cands]; intros He; [by simplify_eq|].
  revert He. intros He. eapply (execute_loop_inv (λ s, Forall is_resp (cap_out s))); [| |exact He|done].
  - intros s1 t s2 H. unfold lift_clock in H. destruct (clock _). by simplify_eq.
  - intros p m s1 e s2 H Hs1. unfold call_provider in H.
    destruct (llmByProvider _ !! p); [|by simplify_eq].
    destruct (GenerateContent _ _). by eapply consume_stream_inv.
Qed.
End llm.

Arguments LLMEntry : clear implicits.
Arguments FallbackLLM : clear implicits.
Arguments delivery : clear implicits.
Arguments Resp {_} _.
Arguments ProviderErr {_} _.
Arguments ChainErr {_} _.

(** ** Properties *)

(** What the consumer receives.  With several entries, every item is a response
    except possibly the last; the last is an error exactly when the chain failed and
    the consumer had not stopped; and then it is the last provider error, or the
    chain's own error if the most recent item of the streams was no error. *)
Theorem generate_delivers `{U : UnicodeCase} {World LLM LLMResponse} ctx_err clock
    (GenerateContent : LLM → World → list (LLMResponse + goerror) * World) yield f ct w :
  let '(r, _, s) := generateWithFallback ctx_err clock GenerateContent yield f ct w in
  ∃ resps, Forall is_resp resps ∧
  match r with
  | Err e => if cap_stopped s then cap_out s = resps
             else cap_out s = resps ++ [match cap_lastErr s with Some le => ProviderErr le | None => ChainErr e end]
  | Ok _ => cap_out s = resps
  end.
Proof.
  unfold generateWithFallback.
  destruct (Execute _ _ _ _ _ _) as [[r ct'] s] eqn:He.
  apply generate_out_inv in He. destruct (cap_stopped s) eqn:Hs.
  - exists (cap_out s). split; [done|]. destruct r; simpl; by rewrite ?Hs.
  - destruct r as [res|e]; exists (cap_out s); (split; [done|]); [done|]. simpl. by rewrite ?Hs.
Qed.

(** Which model serves a candidate.  When the configured provider names are
    distinct every candidate is served by its own model; but the map is keyed by the
    provider name alone, so of two entries of one provider both candidates are sent
    to the second model. *)
Theorem llm_dispatch {LLM} (entries : list (LLMEntry LLM)) :
  (NoDup (entry_Provider <$> entries) →
   Forall (λ e, (llmByProvider entries : gmap string LLM) !! entry_Provider e = Some (entry_LLM e)) entries)
  ∧ (∀ e1 e2 : LLMEntry LLM, entry_Provider e1 = entry_Provider e2 →
     (llmByProvider [e1; e2] : gmap string LLM) !! entry_Provider e1 = Some (entry_LLM e2)).
Proof.
  split.
  - intros Hnd. apply Forall_forall. intros e. by apply llmByProvider_NoDup.
  - intros e1 e2 He. rewrite llmByProvider_lookup. simpl. by rewrite bool_decide_true.
Qed.

Lemma llm_dispatch_witness :
  let e1 := {| entry_Provider := "openai"; entry_Model := "gpt-4o"; entry_LLM := 1 |} in
  let e2 := {| entry_Provider := "openai"; entry_Model := "gpt-4o-mini"; entry_LLM := 2 |} in
  (llmByProvider [e1; e2] : gmap string Z) !! "openai"%string = Some 2.
Proof.
  exact (proj2 (llm_dispatch (LLM := Z) [])
    {| entry_Provider := "openai"; entry_Model := "gpt-4o"; entry_LLM := 1 |}
    {| entry_Provider := "openai"; entry_Model := "gpt-4o-mini"; entry_LLM := 2 |} eq_refl).
Defined.
