(* ===== verification/OpenAI.v ===== *)
(** [pkg/providers/openaicompat]: the conversion between the data of [Genai] and the chat
    completion API ([convert.go], [types.go]), and the model that speaks it, with the
    stream of server-sent events ([model.go]).

    The JSON codecs and the HTTP client are parameters.  The consumer of a stream is the
    function [yield] of what it has received.  A panic is [None].  The tool calls of a
    stream are accumulated in a slice of structures with a [strings.Builder]: a builder
    that was moved by a growing slice and is written again panics, so the slice carries
    its capacity and the number of its array, and a builder the array it was first written
    in; [grow] is the capacity that [append] chooses. *)
From S2P Require Import Prelude GoStrings Floats Values Types Genai.

(** ** types.go *)

Record FunctionCall := { fn_Name : string; fn_Arguments : string }.
Record ToolCallMsg := { tc_Index : Z; tc_ID : string; tc_Type : string; tc_Function : FunctionCall }.

(** A raw message that is not set is empty. *)
Record ChatMessage := {
  cm_Role : string; cm_Content : string; cm_Name : string; cm_ToolCalls : list ToolCallMsg; cm_ToolCallID : string;
  cm_ReasoningContent : string;
}.

Record ChatFunction := { cfn_Name : string; cfn_Description : string; cfn_Parameters : string }.
Record ChatTool := { ctool_Type : string; ctool_Function : ChatFunction }.

Record ChatRequest := {
  cr_Model : string; cr_Messages : list ChatMessage; cr_Tools : list ChatTool; cr_Stream : bool; cr_MaxTokens : option Z;
  cr_Temperature : option float32; cr_TopP : option float32; cr_Stop : list string; cr_IncludeUsage : bool;
}.

Record ChatUsage := { cu_PromptTokens : Z; cu_CompletionTokens : Z; cu_TotalTokens : Z }.
Record ChatChoice := { cc_Message : ChatMessage; cc_Delta : ChatMessage; cc_FinishReason : string }.
Record ChatResponse := { crs_Choices : list ChatChoice; crs_Usage : option ChatUsage }.

(** ** convert.go *)

Section convert.
Context `{ArgsCodec} `{U : UnicodeCase}.

(** The codec of schemas: [json.Marshal] of the map made by [ConvertSchema]. *)
Context (marshal_schema : jany → option string).

Fixpoint schema_value (s : GSchema) : jany :=
  match s with
  | MkSchema typ desc required enum items properties =>
      let go o := match o with Some s => schema_value s | None => JObj [("type"%string, JStr "object")] end in
      JObj (("type"%string, JStr (to_lower typ))
            :: (if str_empty desc then [] else [("description"%string, JStr desc)])
            ++ (match required with [] => [] | _ => [("required"%string, JStrs required)] end)
            ++ (match enum with [] => [] | _ => [("enum"%string, JStrs enum)] end)
            ++ (match items with Some i => [("items"%string, schema_value i)] | None => [] end)
            ++ (match properties with
                | [] => []
                | _ => [("properties"%string, JObj ((fix props ps := match ps with
                                                                      | [] => []
                                                                      | (k, v) :: ps => (k, go v) :: props ps
                                                                      end) properties))]
                end))
  end.

Definition ConvertSchema (s : option GSchema) : jany :=
  match s with Some s => schema_value s | None => JObj [("type"%string, JStr "object")] end.

Definition convert_tool (fd : FunctionDeclaration) : result goerror ChatTool :=
  match marshal_schema (ConvertSchema (fd_Parameters fd)) with
  | None => Err (ErrText ("marshal tool " +:+ fd_Name fd))
  | Some params => Ok {| ctool_Type := "function";
                         ctool_Function := {| cfn_Name := fd_Name fd; cfn_Description := fd_Description fd; cfn_Parameters := params |} |}
  end.

Fixpoint convert_decls (fds : list FunctionDeclaration) : result goerror (list ChatTool) :=
  match fds with
  | [] => Ok []
  | fd :: fds => t <-? convert_tool fd;; ts <-? convert_decls fds;; Ok (t :: ts)
  end.

Definition convertTools (tools : list (list FunctionDeclaration)) : result goerror (list ChatTool) :=
  convert_decls (concat tools).

Definition chat_message (role content : string) : ChatMessage :=
  {| cm_Role := role; cm_Content := content; cm_Name := ""; cm_ToolCalls := []; cm_ToolCallID := ""; cm_ReasoningContent := "" |}.

(** What one part adds to the texts, the tool calls and the tool results; a value that
    cannot be marshalled becomes the empty text. *)
Definition part_text (p : GPart) : list string := if str_empty (gp_Text p) then [] else [gp_Text p].
Definition part_calls (p : GPart) : list ToolCallMsg :=
  match gp_FunctionCall p with
  | Some c => [{| tc_Index := 0; tc_ID := fcall_ID c; tc_Type := "function";
                  tc_Function := {| fn_Name := fcall_Name c; fn_Arguments := default ""%string (marshal_map (fcall_Args c)) |} |}]
  | None => []
  end.
Definition part_results (p : GPart) : list ChatMessage :=
  match gp_FunctionResponse p with
  | Some r => [{| cm_Role := "tool"; cm_Content := marshal_string (default ""%string (marshal_map (frsp_Response r)));
                  cm_Name := ""; cm_ToolCalls := []; cm_ToolCallID := frsp_ID r; cm_ReasoningContent := "" |}]
  | None => []
  end.

Definition parts_of (c : GContent) : list GPart := omap id (gc_Parts c).

Definition ConvertContent (c : GContent) : list ChatMessage :=
  let ps := parts_of c in
  let textParts := ps ≫= part_text in
  let toolCalls := ps ≫= part_calls in
  let toolResults := ps ≫= part_results in
  (if bool_decide (gc_Role c = "model"%string) then
     [{| cm_Role := "assistant";
         cm_Content := match textParts with [] => "" | _ => marshal_string (join textParts "") end;
         cm_Name := ""; cm_ToolCalls := toolCalls; cm_ToolCallID := ""; cm_ReasoningContent := "" |}]
   else match textParts with [] => [] | _ => [chat_message "user" (marshal_string (join textParts lf))] end)
  ++ toolResults.

Definition system_message (cfg : option GConfig) : list ChatMessage :=
  match (cfg ← cfg; cf_SystemInstruction cfg) with
  | None => []
  | Some si => match parts_of si ≫= part_text with
               | [] => []
               | texts => [chat_message "system" (marshal_string (join texts lf))]
               end
  end.

Definition ConvertContents (cfg : option GConfig) (contents : list (option GContent)) : list ChatMessage :=
  system_message cfg ++ (omap id contents ≫= ConvertContent).

Definition positive (n : Z) : option Z := if 0 <? n then Some n else None.

Definition ConvertRequest (req : LLMRequest) (modelName : string) (stream : bool) : result goerror ChatRequest :=
  let cfg := rq_Config req in
  tools <-? match cfg with
            | Some c => match cf_Tools c with [] => Ok [] | ts => convertTools ts end
            | None => Ok []
            end;;
  Ok {| cr_Model := modelName; cr_Messages := ConvertContents cfg (rq_Contents req); cr_Tools := tools; cr_Stream := stream;
        cr_MaxTokens := c ← cfg; positive (cf_MaxOutputTokens c); cr_Temperature := c ← cfg; cf_Temperature c;
        cr_TopP := c ← cfg; cf_TopP c; cr_Stop := default [] (c ← cfg; cf_StopSequences c); cr_IncludeUsage := stream |}.

Definition MapFinishReason (reason : string) : FinishReason :=
  if bool_decide (reason = "stop"%string) then FinishReasonStop
  else if bool_decide (reason = "length"%string) then FinishReasonMaxTokens
  else if bool_decide (reason = "tool_calls"%string) then FinishReasonStop
  else FinishReasonOther.

Definition usage_metadata (u : ChatUsage) : UsageMetadata :=
  {| um_Prompt := wrap32 (cu_PromptTokens u); um_Candidates := wrap32 (cu_CompletionTokens u); um_Total := wrap32 (cu_TotalTokens u) |}.

Definition call_part (id name args : string) : GPart :=
  call_gpart {| fcall_ID := id; fcall_Name := name; fcall_Args := args_of args |}.

Definition convertChoiceToContent (msg : ChatMessage) : GContent :=
  let text := if str_empty (cm_Content msg) then ""%string else string_of (cm_Content msg) in
  {| gc_Role := "model";
     gc_Parts := Some <$> (if str_empty (cm_ReasoningContent msg) then []
                           else [text_gpart ("<thinking>" +:+ lf +:+ cm_ReasoningContent msg +:+ lf +:+ "</thinking>")])
                          ++ (if str_empty text then [] else [text_gpart text])
                          ++ ((λ tc, call_part (tc_ID tc) (fn_Name (tc_Function tc)) (fn_Arguments (tc_Function tc))) <$> cm_ToolCalls msg) |}.

Definition ConvertResponse (resp : ChatResponse) : LLMResponse :=
  match crs_Choices resp with
  | [] => {| lr_Content := None; lr_Partial := false; lr_TurnComplete := true; lr_FinishReason := FinishReasonNone;
             lr_Usage := None; lr_ErrorCode := "empty_response" |}
  | choice :: _ =>
      {| lr_Content := Some (convertChoiceToContent (cc_Message choice)); lr_Partial := false; lr_TurnComplete := true;
         lr_FinishReason := MapFinishReason (cc_FinishReason choice); lr_Usage := usage_metadata <$> crs_Usage resp; lr_ErrorCode := "" |}
  end.

(** ** model.go *)

(** *** The accumulated tool calls *)

Record pendingTC := { ptc_id : string; ptc_name : string; ptc_args : string; ptc_addr : option nat }.

Record pending := { pd_calls : list pendingTC; pd_cap : nat; pd_array : nat }.

Definition no_calls : pending := {| pd_calls := []; pd_cap := 0; pd_array := 0 |}.
Definition no_call : pendingTC := {| ptc_id := ""; ptc_name := ""; ptc_args := ""; ptc_addr := None |}.

Context (grow : nat → nat).

Definition append_call (ps : pending) : pending :=
  if (length (pd_calls ps) <? pd_cap ps)%nat
  then {| pd_calls := pd_calls ps ++ [no_call]; pd_cap := pd_cap ps; pd_array := pd_array ps |}
  else {| pd_calls := pd_calls ps ++ [no_call]; pd_cap := grow (length (pd_calls ps)); pd_array := S (pd_array ps) |}.

(** [for len(pendingCalls) <= index]. *)
Definition extend (index : nat) (ps : pending) : pending := Nat.iter (S index - length (pd_calls ps)) append_call ps.

(** One write: [None] is the panic of a builder copied by value. *)
Definition write_args (array : nat) (args : string) (p : pendingTC) : option pendingTC :=
  if str_empty args then Some p
  else match ptc_addr p with
       | Some a => if (a =? array)%nat
                   then Some {| ptc_id := ptc_id p; ptc_name := ptc_name p; ptc_args := ptc_args p +:+ args; ptc_addr := Some a |}
                   else None
       | None => Some {| ptc_id := ptc_id p; ptc_name := ptc_name p; ptc_args := ptc_args p +:+ args; ptc_addr := Some array |}
       end.

Definition set_names (tc : ToolCallMsg) (p : pendingTC) : pendingTC :=
  {| ptc_id := if str_empty (tc_ID tc) then ptc_id p else tc_ID tc;
     ptc_name := if str_empty (fn_Name (tc_Function tc)) then ptc_name p else fn_Name (tc_Function tc);
     ptc_args := ptc_args p; ptc_addr := ptc_addr p |}.

(** One delta; a negative index is out of range. *)
Definition add_delta (ps : pending) (tc : ToolCallMsg) : option pending :=
  if tc_Index tc <? 0 then None
  else
    let i := Z.to_nat (tc_Index tc) in
    let ps := extend i ps in
    p ← pd_calls ps !! i;
    p ← write_args (pd_array ps) (fn_Arguments (tc_Function tc)) (set_names tc p);
    Some {| pd_calls := <[i := p]> (pd_calls ps); pd_cap := pd_cap ps; pd_array := pd_array ps |}.

Fixpoint add_deltas (ps : pending) (tcs : list ToolCallMsg) : option pending :=
  match tcs with
  | [] => Some ps
  | tc :: tcs => ps ← add_delta ps tc; add_deltas ps tcs
  end.

Definition call_parts (ps : pending) : list GPart :=
  (λ p, call_gpart {| fcall_ID := ptc_id p; fcall_Name := ptc_name p;
                      fcall_Args := if str_empty (ptc_args p) then None else args_of (ptc_args p) |}) <$> pd_calls ps.

(** *** The stream *)

Inductive model_error :=
| ErrConvert (e : goerror) | ErrMarshal | ErrCreate (e : goerror) | ErrHTTP (e : goerror) | ErrRead (e : goerror)
| ErrStatus (status : Z) (type message : string) | ErrUnmarshal | ErrReadStream (e : goerror) | ErrPremature.

Abbreviation item := (result model_error LLMResponse).

Context (yield : list item → item → bool) (unmarshal_chunk : string → option ChatResponse).

(** The text of a delta; a message without content has none. *)
Definition delta_text (delta : ChatMessage) : string :=
  if str_empty (cm_Content delta) then ""%string else string_of (cm_Content delta).

(** The end of a stream by a finish reason. *)
Definition finish_stream (ps : pending) (usage : option ChatUsage) (reason : string) (out : list item) : list item :=
  let final := Ok (final_response (MapFinishReason reason) (usage_metadata <$> usage)) in
  match pd_calls ps with
  | [] => out ++ [final]
  | _ => let calls := Ok (content_response (call_parts ps)) in
         if yield out calls then out ++ [calls; final] else out ++ [calls]
  end.

(** The end of the loop over the lines. *)
Definition end_stream (scan_err : option goerror) (out : list item) : list item :=
  match scan_err with Some e => out ++ [Err (ErrReadStream e)] | None => out ++ [Err ErrPremature] end.

(** [lines] are those the scanner gives before it stops, with its error. *)
Fixpoint sse_loop (lines : list string) (scan_err : option goerror) (ps : pending) (usage : option ChatUsage) (out : list item)
    : option (list item) :=
  match lines with
  | [] => Some (end_stream scan_err out)
  | line :: lines =>
      match sse_data line with
      | None => sse_loop lines scan_err ps usage out
      | Some data =>
          if bool_decide (data = "[DONE]"%string) then Some (end_stream None out)
          else match unmarshal_chunk data with
               | None => sse_loop lines scan_err ps usage out
               | Some chunk =>
                   let usage := match crs_Usage chunk with Some u => Some u | None => usage end in
                   match crs_Choices chunk with
                   | [] => sse_loop lines scan_err ps usage out
                   | choice :: _ =>
                       let delta := cc_Delta choice in
                       let text := delta_text delta in
                       let resp := Ok (partial_response (text_gpart text)) in
                       if negb (str_empty text) && negb (yield out resp) then Some (out ++ [resp])
                       else
                         let out := if str_empty text then out else out ++ [resp] in
                         ps ← add_deltas ps (cm_ToolCalls delta);
                         if str_empty (cc_FinishReason choice) then sse_loop lines scan_err ps usage out
                         else Some (finish_stream ps usage (cc_FinishReason choice) out)
                   end
               end
      end
  end.

Definition processSSE (lines : list string) (scan_err : option goerror) (out : list item) : option (list item) :=
  sse_loop lines scan_err no_calls None out.

(** *** The model *)

Record Model := { md_name : string; md_apiKey : string; md_apiBase : string }.

Definition default_base : string := "https://api.openai.com/v1".
Definition NewModel (name apiKey apiBase : string) : Model :=
  let base := l2s (drop_while_end (λ c, Ascii.eqb c "/"%char) (s2l apiBase)) in
  {| md_name := name; md_apiKey := apiKey; md_apiBase := if str_empty base then default_base else base |}.

Definition endpoint (m : Model) : string := md_apiBase m +:+ "/chat/completions".
Definition headers (m : Model) : list (string * string) :=
  ("Content-Type", "application/json")%string
  :: (if str_empty (md_apiKey m) then [] else [("Authorization"%string, "Bearer " +:+ md_apiKey m)]).

(** [marshal] gives the body of a request; [new_request] fails on a URL it cannot parse;
    [post] sends a body with its headers and gives the status and the body, or where
    reading the body failed; [unmarshal_error] reads the type and message of an error. *)
Context (marshal : ChatRequest → option string) (new_request : string → option goerror)
        (post : string → list (string * string) → string → result goerror (Z * result goerror string))
        (unmarshal_error : string → string * string).

Definition api_error (status : Z) (body : string) : model_error :=
  let '(type, message) := unmarshal_error body in ErrStatus status type message.

Definition generate (m : Model) (req : LLMRequest) : item :=
  match ConvertRequest req (md_name m) false with
  | Err e => Err (ErrConvert e)
  | Ok apiReq =>
      match marshal apiReq with
      | None => Err ErrMarshal
      | Some body =>
          match new_request (endpoint m) with
          | Some e => Err (ErrCreate e)
          | None =>
              match post (endpoint m) (headers m) body with
              | Err e => Err (ErrHTTP e)
              | Ok (_, Err e) => Err (ErrRead e)
              | Ok (status, Ok respBody) =>
                  if negb (status =? 200) then Err (api_error status respBody)
                  else match unmarshal_chunk respBody with
                       | None => Err ErrUnmarshal
                       | Some resp => Ok (ConvertResponse resp)
                       end
              end
          end
      end
  end.

(** [stream_lines] cuts the body of a response into the lines of the scanner; an error of
    the status is read from as much of the body as there is. *)
Context (post_stream : string → list (string * string) → string → result goerror (Z * (string * (list string * option goerror)))).

Definition generateStream (m : Model) (req : LLMRequest) : option (list item) :=
  match ConvertRequest req (md_name m) true with
  | Err e => Some [Err (ErrConvert e)]
  | Ok apiReq =>
      match marshal apiReq with
      | None => Some [Err ErrMarshal]
      | Some body =>
          match new_request (endpoint m) with
          | Some e => Some [Err (ErrCreate e)]
          | None =>
              match post_stream (endpoint m) (headers m) body with
              | Err e => Some [Err (ErrHTTP e)]
              | Ok (status, (respBody, (lines, scan_err))) =>
                  if negb (status =? 200) then Some [Err (api_error status respBody)]
                  else processSSE lines scan_err []
              end
          end
      end
  end.

Definition GenerateContent (m : Model) (req : LLMRequest) (stream : bool) : option (list item) :=
  if stream then generateStream m req else Some [generate m req].
End convert.

(** ** Lemmas *)

Section lemmas.
Context `{AL : ArgsCodecLaws} `{U : UnicodeCase}.

Lemma args_of_marshal m s : marshal_map m = Some s → args_of s = m.
Proof. intros Hm. apply map_roundtrip in Hm as [Hu _]. unfold args_of. by rewrite Hu. Qed.

Lemma string_of_marshal s : string_of (marshal_string s) = s ∧ str_empty (marshal_string s) = false.
Proof.
  destruct (string_roundtrip s) as [Hu Hne]. unfold string_of. rewrite Hu. split; [done|].
  unfold str_empty. by rewrite bool_decide_false.
Qed.

Lemma parts_of_Some role ps : parts_of {| gc_Role := role; gc_Parts := Some <$> ps |} = ps.
Proof. unfold parts_of. simpl. induction ps as [|p ps IH]; [done|]. rewrite fmap_cons. cbn [omap list_omap id]. by rewrite IH. Qed.

Lemma bind_nil {A B} (f : A → list B) l : Forall (λ x, f x = []) l → l ≫= f = [].
Proof. induction 1 as [|x l Hx _ IH]; [done|]. rewrite bind_cons, Hx. exact IH. Qed.

(** What the model said survives the round trip through the API's message: a content of
    a text and tool calls is turned into one assistant message that reads as the same
    content. *)
Theorem openai_roundtrip text calls :
  Forall (λ c, is_Some (marshal_map (fcall_Args c))) calls →
  let c := {| gc_Role := "model";
              gc_Parts := Some <$> (if str_empty text then [] else [text_gpart text]) ++ (call_gpart <$> calls) |} in
  ∃ msg, ConvertContent c = [msg] ∧ cm_Role msg = "assistant"%string ∧ convertChoiceToContent msg = c.
Proof.
  intros Hcalls c. unfold ConvertContent, c. rewrite parts_of_Some. cbn [gc_Role]. rewrite bool_decide_true by done.
  set (tp := if str_empty text then [] else [text_gpart text]).
  assert ((tp ++ (call_gpart <$> calls)) ≫= part_results = []) as ->.
  { apply bind_nil, Forall_app. split; [by unfold tp; destruct (str_empty text); repeat constructor|].
    apply Forall_fmap, Forall_true. done. }
  assert ((tp ++ (call_gpart <$> calls)) ≫= part_text = if str_empty text then [] else [text]) as ->.
  { rewrite bind_app, (bind_nil part_text (call_gpart <$> calls)) by (apply Forall_fmap, Forall_true; done).
    unfold tp. destruct (str_empty text) eqn:He; [done|]. rewrite bind_singleton. unfold part_text. simpl. by rewrite He. }
  assert ((tp ++ (call_gpart <$> calls)) ≫= part_calls = (call_gpart <$> calls) ≫= part_calls) as ->.
  { rewrite bind_app, (bind_nil part_calls tp); [done|]. by unfold tp; destruct (str_empty text); repeat constructor. }
  eexists. split; [done|]. split; [done|]. unfold convertChoiceToContent. cbn [cm_ReasoningContent cm_Content cm_ToolCalls].
  change (str_empty "") with true. cbn iota. cbn [app]. f_equal. f_equal. f_equal.
  - unfold tp. destruct (str_empty text) eqn:He; [done|]. cbn [join].
    destruct (string_of_marshal text) as [Hs ->]. by rewrite Hs, He.
  - induction Hcalls as [|x calls [s Hx] _ IH]; [done|]. rewrite fmap_cons, bind_cons, fmap_app, IH.
    unfold part_calls at 1. simpl. rewrite Hx. simpl. unfold call_part. rewrite (args_of_marshal _ _ Hx). by destruct x.
Qed.

(** Converting a history loses no tool result and no call of the model: the tool
    messages carry the identifiers of all function responses in their order, the assistant
    messages those of all function calls of the model's contents. *)
Theorem openai_tools_kept cfg contents :
  let msgs := ConvertContents cfg contents in
  let all f := omap id contents ≫= λ c, parts_of c ≫= f c in
  (cm_ToolCallID <$> filter (λ m, cm_Role m = "tool"%string) msgs
   = all (λ _ p, match gp_FunctionResponse p with Some r => [frsp_ID r] | None => [] end))
  ∧ (msgs ≫= λ m, tc_ID <$> cm_ToolCalls m)
    = all (λ c p, if bool_decide (gc_Role c = "model"%string)
                  then match gp_FunctionCall p with Some f => [fcall_ID f] | None => [] end else []).
Proof.
  intros msgs all. unfold msgs, ConvertContents.
  assert (∀ ps : list GPart, cm_ToolCallID <$> filter (λ m, cm_Role m = "tool"%string) (ps ≫= part_results)
                = ps ≫= λ p, match gp_FunctionResponse p with Some r => [frsp_ID r] | None => [] end) as Hres.
  { intros ps. induction ps as [|p ps IH]; [done|]. rewrite !bind_cons, filter_app, fmap_app, IH. f_equal.
    unfold part_results. by destruct (gp_FunctionResponse p). }
  assert (∀ ps : list GPart, ((ps ≫= part_results) ≫= λ m, tc_ID <$> cm_ToolCalls m) = []) as Hres2.
  { intros ps. induction ps as [|p ps IH]; [done|]. rewrite bind_cons, bind_app. rewrite IH, app_nil_r.
    unfold part_results. by destruct (gp_FunctionResponse p). }
  assert (∀ ps : list GPart, tc_ID <$> (ps ≫= part_calls) = ps ≫= λ p, match gp_FunctionCall p with Some f => [fcall_ID f] | None => [] end) as Hcalls.
  { intros ps. induction ps as [|p ps IH]; [done|]. rewrite !bind_cons, fmap_app, IH. f_equal.
    unfold part_calls. by destruct (gp_FunctionCall p). }
  assert (∀ c, cm_ToolCallID <$> filter (λ m, cm_Role m = "tool"%string) (ConvertContent c)
               = parts_of c ≫= λ p, match gp_FunctionResponse p with Some r => [frsp_ID r] | None => [] end) as H1.
  { intros c. unfold ConvertContent. rewrite filter_app, fmap_app, Hres.
    destruct (bool_decide _); [done|]. by destruct (parts_of c ≫= part_text). }
  assert (∀ c, (ConvertContent c ≫= λ m, tc_ID <$> cm_ToolCalls m)
               = parts_of c ≫= λ p, if bool_decide (gc_Role c = "model"%string)
                  then match gp_FunctionCall p with Some f => [fcall_ID f] | None => [] end else []) as H2.
  { intros c. unfold ConvertContent. rewrite bind_app, Hres2, app_nil_r. case_bool_decide.
    - rewrite bind_singleton. apply Hcalls.
    - rewrite (bind_nil (λ _, []) (parts_of c)) by by apply Forall_true. by destruct (parts_of c ≫= part_text). }
  assert (filter (λ m, cm_Role m = "tool"%string) (system_message cfg) = []
          ∧ (system_message cfg ≫= λ m, tc_ID <$> cm_ToolCalls m) = []) as [Hs1 Hs2].
  { unfold system_message. destruct (cfg ≫= _) as [si|]; [|done]. by destruct (parts_of si ≫= part_text). }
  unfold all. rewrite filter_app, bind_app, Hs1, Hs2. cbn [app]. split.
  - induction (omap id contents) as [|c cs IH]; [done|]. by rewrite !bind_cons, filter_app, fmap_app, IH, H1.
  - induction (omap id contents) as [|c cs IH]; [done|]. by rewrite !bind_cons, bind_app, IH, H2.
Qed.
End lemmas.

(** ** Streams *)

(** What the deltas of one index make: the last identifier and name, all arguments. *)
Definition call_at (i : Z) (tcs : list ToolCallMsg) : string * string * string :=
  foldl (λ '(id, name, args) tc,
    if bool_decide (tc_Index tc = i) then
      (if str_empty (tc_ID tc) then id else tc_ID tc,
       if str_empty (fn_Name (tc_Function tc)) then name else fn_Name (tc_Function tc),
       args +:+ fn_Arguments (tc_Function tc))
    else (id, name, args)) (""%string, ""%string, ""%string) tcs.

(** How many calls a list of deltas begins. *)
Definition calls_begun (tcs : list ToolCallMsg) : nat := foldl (λ n tc, Nat.max n (S (Z.to_nat (tc_Index tc)))) 0%nat tcs.

(** The deltas come call by call. *)
Definition in_order (tcs : list ToolCallMsg) : Prop :=
  StronglySorted (λ a b, tc_Index a ≤ tc_Index b) tcs ∧ Forall (λ tc, 0 ≤ tc_Index tc) tcs.

Definition fields_of (p : pendingTC) : string * string * string := (ptc_id p, ptc_name p, ptc_args p).

Section stream.
Context (grow : nat → nat).

Lemma extend_spec i ps :
  ∃ k, pd_calls (extend grow i ps) = pd_calls ps ++ replicate k no_call
     ∧ length (pd_calls (extend grow i ps)) = Nat.max (length (pd_calls ps)) (S i)
     ∧ (k = 0%nat → extend grow i ps = ps).
Proof.
  unfold extend. set (n := (S i - length (pd_calls ps))%nat). exists n.
  assert (∀ m, pd_calls (Nat.iter m (append_call grow) ps) = pd_calls ps ++ replicate m no_call) as Happ.
  { intros m. induction m as [|m IH]; [by rewrite app_nil_r|]. rewrite Nat.iter_succ.
    assert (∀ q, pd_calls (append_call grow q) = pd_calls q ++ [no_call]) as -> by (intros q; unfold append_call; by destruct (_ <? _)%nat).
    rewrite IH, <- app_assoc, <- replicate_S_end. done. }
  split; [apply Happ|]. split; [rewrite Happ, length_app, length_replicate; lia|]. by intros ->.
Qed.

Lemma call_at_snoc i tcs tc :
  call_at i (tcs ++ [tc]) =
    let '(id, name, args) := call_at i tcs in
    if bool_decide (tc_Index tc = i) then
      (if str_empty (tc_ID tc) then id else tc_ID tc,
       if str_empty (fn_Name (tc_Function tc)) then name else fn_Name (tc_Function tc),
       args +:+ fn_Arguments (tc_Function tc))
    else (id, name, args).
Proof. unfold call_at. rewrite foldl_snoc. by destruct (foldl _ _ tcs) as [[? ?] ?]. Qed.

Lemma calls_begun_snoc tcs tc : calls_begun (tcs ++ [tc]) = Nat.max (calls_begun tcs) (S (Z.to_nat (tc_Index tc))).
Proof. unfold calls_begun. by rewrite foldl_snoc. Qed.

Lemma call_at_fresh i tcs : (calls_begun tcs ≤ Z.to_nat i)%nat → 0 ≤ i → Forall (λ tc, 0 ≤ tc_Index tc) tcs → call_at i tcs = (""%string, ""%string, ""%string).
Proof.
  intros Hb Hi. induction tcs as [|tc tcs IH] using rev_ind; [done|]. rewrite calls_begun_snoc in Hb.
  intros [HF Htc]%Forall_app. apply Forall_cons in Htc as [Htc _]. rewrite call_at_snoc, IH by (done || lia).
  rewrite bool_decide_false by lia. done.
Qed.

(** The state after deltas that came call by call: the builder of the last call has not been
    moved since it was first written. *)
Definition pending_inv (ps : pending) (tcs : list ToolCallMsg) : Prop :=
  length (pd_calls ps) = calls_begun tcs
  ∧ (∀ i p, pd_calls ps !! i = Some p → fields_of p = call_at (Z.of_nat i) tcs)
  ∧ (∀ p, last (pd_calls ps) = Some p → ptc_addr p = None ∨ ptc_addr p = Some (pd_array ps)).

Lemma write_args_ok array args p :
  ptc_addr p = None ∨ ptc_addr p = Some array →
  ∃ p', write_args array args p = Some p' ∧ fields_of p' = (ptc_id p, ptc_name p, ptc_args p +:+ args)
    ∧ (ptc_addr p' = None ∨ ptc_addr p' = Some array).
Proof.
  intros Ha. unfold write_args, str_empty. case_bool_decide as He.
  - exists p. split; [done|]. split; [|done]. unfold fields_of. subst. f_equal.
    by rewrite <- (l2s_s2l (_ +:+ "")), s2l_app, app_nil_r, l2s_s2l.
  - destruct Ha as [->| ->]; [|rewrite Nat.eqb_refl]; eexists; (split; [done|]); (split; [done|]); by right.
Qed.

Lemma add_delta_inv ps tcs tc :
  pending_inv ps tcs → in_order (tcs ++ [tc]) → ∃ ps', add_delta grow ps tc = Some ps' ∧ pending_inv ps' (tcs ++ [tc]).
Proof.
  intros (Hlen & Hfields & Hlast) [Hsorted Hpos].
  apply Forall_app in Hpos as [Hpos Htc]. apply Forall_cons in Htc as [Htc _].
  set (i := Z.to_nat (tc_Index tc)).
  assert (calls_begun tcs ≤ S i)%nat as Hle.
  { apply StronglySorted_app in Hsorted as (Hle & _ & _). unfold i. clear -Hle Htc Hpos.
    assert (∀ x, x ∈ tcs → tc_Index x ≤ tc_Index tc) as Hall by (intros x Hx; apply Hle; [done|by left]).
    clear Hle. induction tcs as [|x tcs IH] using rev_ind; [unfold calls_begun; simpl; lia|]. rewrite calls_begun_snoc.
    apply Forall_app in Hpos as [Hp1 Hp2]. apply Forall_cons in Hp2 as [Hx _].
    assert (tc_Index x ≤ tc_Index tc) by (apply Hall; set_solver).
    specialize (IH Hp1 ltac:(intros y Hy; apply Hall; set_solver)). lia. }
  unfold add_delta. rewrite (proj2 (Z.ltb_ge _ _)) by lia. fold i.
  destruct (extend_spec i ps) as (k & Hcalls & Hlen' & Hk). set (ps1 := extend grow i ps) in *.
  assert (length (pd_calls ps1) = S i) as Hlen1 by lia.
  destruct (lookup_lt_is_Some_2 (pd_calls ps1) i ltac:(lia)) as [p Hp].
  assert (fields_of p = call_at (Z.of_nat i) tcs ∧ (ptc_addr p = None ∨ ptc_addr p = Some (pd_array ps1))) as [Hfp Hap].
  { destruct k as [|k].
    - assert (ps1 = ps) as Heq by by apply Hk. rewrite Heq in Hp, Hlen1 |- *. split; [by apply Hfields|].
      apply Hlast. rewrite last_lookup. by rewrite Hlen1.
    - rewrite Hcalls in Hp. rewrite lookup_app_r in Hp by (rewrite Hcalls, length_app, length_replicate in Hlen1; lia).
      apply lookup_replicate in Hp as [-> _]. split; [|by left]. rewrite call_at_fresh; [done| |lia|done].
      rewrite <- Hlen. rewrite Hcalls, length_app, length_replicate in Hlen1. lia. }
  rewrite Hp. simpl. destruct (write_args_ok (pd_array ps1) (fn_Arguments (tc_Function tc)) (set_names tc p)) as (p' & -> & Hf' & Ha');
    [exact Hap|]. simpl. eexists. split; [done|]. split_and!; simpl.
  - rewrite length_insert, calls_begun_snoc. fold i. lia.
  - intros j q [(<- & -> & _)|(Hne & Hq)]%list_lookup_insert_Some; rewrite call_at_snoc.
    + rewrite <- Hfp. unfold fields_of at 2. rewrite bool_decide_true by (unfold i; lia). rewrite Hf'. done.
    + assert (fields_of q = call_at (Z.of_nat j) tcs) as Hold.
      { destruct (decide (j < length (pd_calls ps))%nat) as [Hlt|Hge].
        - rewrite Hcalls, lookup_app_l in Hq by done. by apply Hfields.
        - rewrite Hcalls, lookup_app_r in Hq by lia. apply lookup_replicate in Hq as [-> _].
          rewrite call_at_fresh; [done|lia|lia|done]. }
      rewrite <- Hold. unfold fields_of. rewrite bool_decide_false; [done|]. unfold i in Hne. lia.
  - intros q Hq. rewrite last_lookup, length_insert, Hlen1 in Hq. simpl in Hq.
    rewrite list_lookup_insert_eq in Hq by lia. by injection Hq as <-.
Qed.

Lemma add_deltas_inv ps tcs new :
  pending_inv ps tcs → in_order (tcs ++ new) → ∃ ps', add_deltas grow ps new = Some ps' ∧ pending_inv ps' (tcs ++ new).
Proof.
  revert ps tcs. induction new as [|tc new IH]; intros ps tcs Hinv Hord.
  { exists ps. by rewrite app_nil_r. }
  cbn [add_deltas]. replace (tcs ++ tc :: new) with ((tcs ++ [tc]) ++ new) in * by by rewrite <- app_assoc.
  destruct (add_delta_inv ps tcs tc Hinv) as (ps1 & -> & Hinv1).
  { destruct Hord as [Hs Hp]. apply StronglySorted_app in Hs as (_ & Hs & _). by apply Forall_app in Hp as [Hp _]. }
  simpl. by apply IH.
Qed.

Lemma no_calls_inv : pending_inv no_calls [].
Proof. split_and!; [done|by intros i p ?|done]. Qed.
End stream.

Section whole_stream.
Context `{ArgsCodec} (grow : nat → nat) (unmarshal_chunk : string → option ChatResponse).

Abbreviation item := (result model_error LLMResponse).

Definition is_done (line : string) : bool := bool_decide (sse_data line = Some "[DONE]"%string).

(** The chunk of a line, and its first choice. *)
Definition line_chunk (line : string) : option ChatResponse := data ← sse_data line; unmarshal_chunk data.
Definition line_choice (line : string) : option ChatChoice := c ← line_chunk line; head (crs_Choices c).

(** A line that neither ends the stream nor carries a finish reason. *)
Definition goes_on (line : string) : Prop :=
  is_done line = false ∧ ∀ ch, line_choice line = Some ch → cc_FinishReason ch = ""%string.

Definition text_item (ch : ChatChoice) : option item :=
  let t := delta_text (cc_Delta ch) in if str_empty t then None else Some (Ok (partial_response (text_gpart t))).
Definition tool_deltas (chs : list ChatChoice) : list ToolCallMsg := chs ≫= λ ch, cm_ToolCalls (cc_Delta ch).
Definition last_usage (u : option ChatUsage) (lines : list string) : option ChatUsage :=
  foldl (λ u line, match (c ← line_chunk line; crs_Usage c) with Some u' => Some u' | None => u end) u lines.

Abbreviation loop := (sse_loop grow (λ _ _, true) unmarshal_chunk).

Lemma sse_loop_prefix pre rest scan_err ps tcs u out :
  Forall goes_on pre → pending_inv ps tcs → in_order (tcs ++ tool_deltas (omap line_choice pre)) →
  ∃ ps', pending_inv ps' (tcs ++ tool_deltas (omap line_choice pre))
    ∧ loop (pre ++ rest) scan_err ps u out
      = loop rest scan_err ps' (last_usage u pre) (out ++ omap text_item (omap line_choice pre)).
Proof.
  intros Hpre. revert ps tcs u out. induction Hpre as [|line pre [Hdone Hgo] _ IH]; intros ps tcs u out Hinv Hord.
  { exists ps. cbn. by rewrite !app_nil_r. }
  assert (last_usage u (line :: pre) = last_usage (match (c ← line_chunk line; crs_Usage c) with Some u' => Some u' | None => u end) pre)
    as -> by done.
  cbn [app sse_loop omap list_omap] in Hord |- *.
  destruct (sse_data line) as [data|] eqn:Hdata.
  2:{ assert (line_chunk line = None) as Hc by (unfold line_chunk; by rewrite Hdata).
      assert (line_choice line = None) as Hch by (unfold line_choice; by rewrite Hc).
      rewrite Hch in Hord |- *. rewrite Hc. by apply IH. }
  unfold is_done in Hdone. rewrite Hdata in Hdone. apply bool_decide_eq_false in Hdone.
  rewrite (bool_decide_false (data = "[DONE]"%string)) by congruence.
  destruct (unmarshal_chunk data) as [chunk|] eqn:Hchunk.
  2:{ assert (line_chunk line = None) as Hc by (unfold line_chunk; by rewrite Hdata).
      assert (line_choice line = None) as Hch by (unfold line_choice; by rewrite Hc).
      rewrite Hch in Hord |- *. rewrite Hc. by apply IH. }
  assert (line_chunk line = Some chunk) as Hc by (unfold line_chunk; by rewrite Hdata). rewrite Hc.
  assert (line_choice line = head (crs_Choices chunk)) as Hch by (unfold line_choice; by rewrite Hc).
  rewrite Hch in Hord, Hgo |- *. cbn [mbind option_bind].
  destruct (crs_Choices chunk) as [|ch chs]; cbn [head] in *; [by apply IH|].
  rewrite andb_false_r. unfold tool_deltas in Hord |- *. rewrite bind_cons, app_assoc in Hord |- *.
  destruct (add_deltas_inv grow ps tcs (cm_ToolCalls (cc_Delta ch)) Hinv) as (ps1 & -> & Hinv1).
  { destruct Hord as [Hs Hp]. apply StronglySorted_app in Hs as (_ & Hs & _). by apply Forall_app in Hp as [Hp _]. }
  cbn [mbind option_bind]. rewrite (Hgo ch eq_refl). change (str_empty "") with true. cbn iota.
  edestruct (IH ps1 (tcs ++ cm_ToolCalls (cc_Delta ch))) as (ps' & Hinv' & ->); [exact Hinv1|exact Hord|].
  exists ps'. split; [exact Hinv'|]. f_equal. cbn [omap list_omap]. unfold text_item at 2.
  destruct (str_empty _); [done|]. by rewrite <- app_assoc.
Qed.

(** The calls that a list of deltas makes, as the parts of a content. *)
Definition built_calls (tcs : list ToolCallMsg) : list GPart :=
  (λ i, let '(id, name, args) := call_at (Z.of_nat i) tcs in
        call_gpart {| fcall_ID := id; fcall_Name := name; fcall_Args := if str_empty args then None else args_of args |})
  <$> seq 0 (calls_begun tcs).

Lemma call_parts_built ps tcs : pending_inv ps tcs → call_parts ps = built_calls tcs.
Proof.
  intros (Hlen & Hfields & _). apply list_eq. intros i. unfold call_parts, built_calls. rewrite !list_lookup_fmap.
  destruct (pd_calls ps !! i) as [p|] eqn:Hp.
  - assert (i < calls_begun tcs)%nat by (rewrite <- Hlen; by eapply lookup_lt_Some).
    rewrite lookup_seq_lt by done. cbn. rewrite <- (Hfields i p Hp). done.
  - rewrite lookup_seq_ge; [done|]. rewrite <- Hlen. by apply lookup_ge_None.
Qed.

(** The answer of a whole stream: texts, then the calls if there are any, then the end. *)
Definition whole_answer (chs : list ChatChoice) (reason : string) (usage : option ChatUsage) : list item :=
  let tcs := tool_deltas chs in
  omap text_item chs
  ++ (if (calls_begun tcs =? 0)%nat then [] else [Ok (content_response (built_calls tcs))])
  ++ [Ok (final_response (MapFinishReason reason) (usage_metadata <$> usage))].

Lemma finish_stream_whole ps tcs usage reason out :
  pending_inv ps tcs →
  finish_stream (λ _ _, true) ps usage reason out
  = out ++ (if (calls_begun tcs =? 0)%nat then [] else [Ok (content_response (built_calls tcs))])
        ++ [Ok (final_response (MapFinishReason reason) (usage_metadata <$> usage))].
Proof.
  intros Hinv. unfold finish_stream. rewrite (call_parts_built _ _ Hinv). destruct Hinv as [Hlen _].
  rewrite <- Hlen. by destruct (pd_calls ps).
Qed.

(** A stream whose tool-call deltas come call by call is answered in full up to its
    first finish reason: every text delta in its order, then one content with the tool
    calls, each with the last identifier and name and all the argument fragments of its
    index, then a final response with the mapped reason and the last usage seen so far.
    Nothing after that line is read, the usage chunk included. *)
Theorem stream_answer pre line ch post scan_err :
  Forall goes_on pre → is_done line = false → line_choice line = Some ch → cc_FinishReason ch ≠ ""%string →
  in_order (tool_deltas (omap line_choice pre ++ [ch])) →
  processSSE grow (λ _ _, true) unmarshal_chunk (pre ++ line :: post) scan_err []
  = Some (whole_answer (omap line_choice pre ++ [ch]) (cc_FinishReason ch) (last_usage None (pre ++ [line]))).
Proof.
  intros Hpre Hdone Hch Hreason Hord. unfold processSSE.
  unfold tool_deltas in Hord. rewrite bind_app, bind_singleton in Hord.
  edestruct (sse_loop_prefix pre (line :: post) scan_err no_calls [] None []) as (ps & Hinv & ->);
    [done|apply no_calls_inv| |].
  { destruct Hord as [Hs Hp]. apply StronglySorted_app in Hs as (_ & Hs & _). by apply Forall_app in Hp as [Hp _]. }
  destruct (add_deltas_inv grow ps _ (cm_ToolCalls (cc_Delta ch)) Hinv Hord) as (ps' & Hadd & Hinv').
  unfold last_usage at 2. rewrite foldl_snoc. fold (last_usage None pre).
  unfold is_done in Hdone. apply bool_decide_eq_false in Hdone. cbn [sse_loop].
  unfold line_choice in Hch. unfold line_chunk in *. destruct (sse_data line) as [data|]; [|done].
  rewrite bool_decide_false by congruence. cbn [mbind option_bind] in Hch |- *.
  destruct (unmarshal_chunk data) as [chunk|]; [|done]. cbn in Hch |- *.
  destruct (crs_Choices chunk) as [|c chs]; [done|]. injection Hch as ->. rewrite andb_false_r, Hadd. cbn.
  unfold str_empty at 1. rewrite bool_decide_false by done. f_equal. rewrite (finish_stream_whole _ _ _ _ _ Hinv').
  unfold whole_answer. rewrite omap_app. unfold tool_deltas. rewrite bind_app, bind_singleton. cbn [app].
  assert (omap text_item [ch] = if str_empty (delta_text (cc_Delta ch)) then []
            else [Ok (partial_response (text_gpart (delta_text (cc_Delta ch))))]) as ->
    by (cbn [omap list_omap]; unfold text_item; by destruct (str_empty _)).
  destruct (str_empty _); [by rewrite app_nil_r|]. by rewrite <- !app_assoc.
Qed.

(** A stream that ends without a finish reason is always an error: its texts are
    given, its tool calls are not, and the end is the scanner's error, or a premature end,
    even after a [DONE]. *)
Theorem stream_unfinished pre line post scan_err :
  Forall goes_on pre → in_order (tool_deltas (omap line_choice pre)) → is_done line = true →
  let texts := omap text_item (omap line_choice pre) in
  processSSE grow (λ _ _, true) unmarshal_chunk pre scan_err []
    = Some (texts ++ [Err match scan_err with Some e => ErrReadStream e | None => ErrPremature end])
  ∧ processSSE grow (λ _ _, true) unmarshal_chunk (pre ++ line :: post) scan_err [] = Some (texts ++ [Err ErrPremature]).
Proof.
  intros Hpre Hord Hdone texts. unfold processSSE. split.
  - rewrite <- (app_nil_r pre).
    edestruct (sse_loop_prefix pre [] scan_err no_calls [] None []) as (ps & _ & ->); [done|apply no_calls_inv|done|].
    cbn [sse_loop app]. by destruct scan_err.
  - edestruct (sse_loop_prefix pre (line :: post) scan_err no_calls [] None []) as (ps & _ & ->);
      [done|apply no_calls_inv|done|].
    unfold is_done in Hdone. apply bool_decide_eq_true in Hdone. cbn [sse_loop]. rewrite Hdone. by rewrite bool_decide_true.
Qed.

End whole_stream.

(** ** Witnesses *)

Definition w_call : GCall := {| fcall_ID := "c1"; fcall_Name := "read_file"; fcall_Args := Some [] |}.

Lemma openai_roundtrip_witness :
  Forall (λ c, is_Some (marshal_map (fcall_Args c))) [w_call]
  ∧ ∃ msg, ConvertContent {| gc_Role := "model"; gc_Parts := [Some (text_gpart "hi"); Some (call_gpart w_call)] |} = [msg]
      ∧ cm_Role msg = "assistant"%string
      ∧ convertChoiceToContent msg = {| gc_Role := "model"; gc_Parts := [Some (text_gpart "hi"); Some (call_gpart w_call)] |}.
Proof.
  assert (Forall (λ c, is_Some (marshal_map (fcall_Args c))) [w_call]) as Hw by (repeat constructor; by eexists).
  split; [exact Hw|]. exact (openai_roundtrip "hi" [w_call] Hw).
Defined.

(** A small stream: one letter per chunk. *)
Definition w_delta (content : string) (calls : list ToolCallMsg) : ChatMessage :=
  {| cm_Role := "assistant"; cm_Content := content; cm_Name := ""; cm_ToolCalls := calls; cm_ToolCallID := "";
     cm_ReasoningContent := "" |}.
Definition w_tc (i : Z) (id name args : string) : ToolCallMsg :=
  {| tc_Index := i; tc_ID := id; tc_Type := "function"; tc_Function := {| fn_Name := name; fn_Arguments := args |} |}.
Definition w_chunk (d : ChatMessage) (reason : string) : ChatResponse :=
  {| crs_Choices := [{| cc_Message := w_delta "" []; cc_Delta := d; cc_FinishReason := reason |}]; crs_Usage := None |}.
Definition w_usage : ChatUsage := {| cu_PromptTokens := 7; cu_CompletionTokens := 5; cu_TotalTokens := 12 |}.
Definition w_chunks (data : string) : option ChatResponse :=
  if bool_decide (data = "t"%string) then Some (w_chunk (w_delta "'hi" []) "")
  else if bool_decide (data = "a"%string) then Some (w_chunk (w_delta "" [w_tc 0 "c1" "list" "{"]) "")
  else if bool_decide (data = "b"%string) then Some (w_chunk (w_delta "" [w_tc 0 "" "" "}"; w_tc 1 "c2" "stat" ""]) "")
  else if bool_decide (data = "z"%string) then Some (w_chunk (w_delta "" [w_tc 1 "" "" "{"]) "tool_calls")
  else if bool_decide (data = "y"%string) then Some (w_chunk (w_delta "" [w_tc 0 "" "" "}"]) "tool_calls")
  else if bool_decide (data = "u"%string) then Some {| crs_Choices := []; crs_Usage := Some w_usage |}
  else None.
Definition w_grow (n : nat) : nat := Nat.max 1 (2 * n).
Definition w_end : ChatChoice :=
  {| cc_Message := w_delta "" []; cc_Delta := w_delta "" [w_tc 1 "" "" "{"]; cc_FinishReason := "tool_calls" |}.

(** The usage chunk that the request asked for comes after the finish reason and is lost. *)
Lemma stream_answer_witness :
  in_order (tool_deltas (omap (line_choice w_chunks) ["data: t"; "data: a"; ""; "data: b"]%string ++ [w_end]))
  ∧ processSSE w_grow (λ _ _, true) w_chunks
      ["data: t"; "data: a"; ""; "data: b"; "data: z"; "data: u"; "data: [DONE]"]%string None []
    = Some [Ok (partial_response (text_gpart "hi"));
            Ok (content_response [call_gpart {| fcall_ID := "c1"; fcall_Name := "list"; fcall_Args := Some [] |};
                                  call_gpart {| fcall_ID := "c2"; fcall_Name := "stat"; fcall_Args := None |}]);
            Ok (final_response FinishReasonStop None)].
Proof.
  assert (in_order (tool_deltas (omap (line_choice w_chunks) ["data: t"; "data: a"; ""; "data: b"]%string ++ [w_end]))) as Hord.
  { split; vm_compute; repeat constructor; discriminate. }
  split; [exact Hord|].
  etransitivity.
  - apply (stream_answer w_grow w_chunks ["data: t"; "data: a"; ""; "data: b"]%string "data: z" w_end
             ["data: u"; "data: [DONE]"]%string None).
    + repeat constructor; intros ? [= <-]; reflexivity.
    + reflexivity.
    + reflexivity.
    + done.
    + exact Hord.
  - vm_compute. reflexivity.
Defined.

Lemma stream_unfinished_witness :
  processSSE w_grow (λ _ _, true) w_chunks ["data: t"; "data: a"; "data: [DONE]"]%string None []
  = Some [Ok (partial_response (text_gpart "hi")); Err ErrPremature].
Proof.
  etransitivity; [exact (proj2 (stream_unfinished w_grow w_chunks ["data: t"; "data: a"]%string "data: [DONE]" [] None
             ltac:(repeat constructor; intros ? [= <-]; reflexivity)
             ltac:(split; vm_compute; repeat constructor; discriminate) eq_refl))|].
  vm_compute. reflexivity.
Defined.

(** Two calls whose fragments are interleaved: the slice has grown since the builder of the
    first call was written, and writing it again panics. *)
Example interleaved_calls_panic :
  processSSE w_grow (λ _ _, true) w_chunks ["data: a"; "data: b"; "data: y"]%string None [] = None.
Proof. reflexivity. Qed.
