(* ===== verification/Anthropic.v ===== *)
(** [pkg/providers/anthropic]: the conversion between the data of [Genai] and the Messages
    API ([convert.go], [types.go]), and the model that speaks it, with the stream of
    server-sent events ([model.go]).

    The JSON codecs and the HTTP client are parameters, as is the conversion of a float to
    a 32-bit integer, which the language leaves to the implementation when the value does
    not fit.  A panic is [None].  The consumer of a stream is the function [yield] of what
    it has received. *)
From S2P Require Import Prelude GoStrings Floats Values Types Genai.

(** ** types.go *)

Definition CacheControl : Type := string.

Record imageSource := { is_Type : string; is_MediaType : string; is_Data : string }.

(** A raw message that is not set is empty. *)
Record ContentBlock := {
  cb_Type : string; cb_Text : string; cb_ID : string; cb_Name : string; cb_Input : string; cb_ToolUseID : string;
  cb_Content : string; cb_Source : option imageSource; cb_CacheControl : option CacheControl;
}.

Record APIMessage := { am_Role : string; am_Content : list ContentBlock }.

Inductive toolSchema := MkToolSchema (typ : string) (properties : list (string * option toolSchema)) (required : list string)
                                     (items : option toolSchema) (enum : list string) (desc : string).

Record APITool := {
  at_Name : string; at_Description : string; at_InputSchema : option toolSchema; at_CacheControl : option CacheControl;
}.

Record MessagesRequest := {
  mq_Model : string; mq_MaxTokens : Z; mq_Messages : list APIMessage; mq_System : list ContentBlock; mq_Tools : list APITool;
  mq_Stream : bool; mq_Temperature : option float32; mq_TopP : option float32; mq_TopK : option Z; mq_StopSequences : list string;
}.

Record APIUsage := { au_InputTokens : Z; au_OutputTokens : Z }.

Record MessagesResponse := { ms_Content : list ContentBlock; ms_StopReason : string; ms_Usage : APIUsage }.

Record streamEvent := {
  se_Type : string; se_ContentBlock : string; se_Delta : string; se_Usage : option APIUsage;
}.

Record streamDelta := { sd_Type : string; sd_Text : string; sd_PartialJSON : string; sd_StopReason : string }.

Definition roleModel : string := "model".

(** ** base64.StdEncoding *)

Definition b64_alphabet : string := "ABCDEFGHIJKLMNOPQRSTUVWXYZabcdefghijklmnopqrstuvwxyz0123456789+/".
Definition b64_char (n : nat) : Ascii.ascii := default "="%char (s2l b64_alphabet !! n).

(** Three bytes are four digits of six bits; a rest of one or two bytes is padded. *)
Fixpoint b64 (bytes : list nat) : list Ascii.ascii :=
  match bytes with
  | [] => []
  | [a] => [b64_char (a / 4); b64_char (a mod 4 * 16); "="%char; "="%char]
  | [a; b] => [b64_char (a / 4); b64_char (a mod 4 * 16 + b / 16); b64_char (b mod 16 * 4); "="%char]
  | a :: b :: c :: bytes =>
      b64_char (a / 4) :: b64_char (a mod 4 * 16 + b / 16) :: b64_char (b mod 16 * 4 + c / 64) :: b64_char (c mod 64) :: b64 bytes
  end.

Definition EncodeToString (data : string) : string := l2s (b64 (Ascii.nat_of_ascii <$> s2l data)).

Example encode_man : EncodeToString "Many" = "TWFueQ=="%string.
Proof. reflexivity. Qed.

(** ** convert.go *)

Section convert.
Context `{ArgsCodec} `{U : UnicodeCase} (int32_of : float32 → Z).

Definition empty_block (typ : string) : ContentBlock :=
  {| cb_Type := typ; cb_Text := ""; cb_ID := ""; cb_Name := ""; cb_Input := ""; cb_ToolUseID := ""; cb_Content := "";
     cb_Source := None; cb_CacheControl := None |}.
Definition text_block (text : string) : ContentBlock :=
  {| cb_Type := "text"; cb_Text := text; cb_ID := ""; cb_Name := ""; cb_Input := ""; cb_ToolUseID := ""; cb_Content := "";
     cb_Source := None; cb_CacheControl := None |}.

(** The parts of the instruction are dereferenced without a check for nil. *)
Fixpoint system_blocks (ps : list (option GPart)) : option (list ContentBlock) :=
  match ps with
  | [] => Some []
  | None :: _ => None
  | Some p :: ps => bs ← system_blocks ps; Some (if str_empty (gp_Text p) then bs else text_block (gp_Text p) :: bs)
  end.

Definition ConvertSystemInstruction (c : option GContent) : option (list ContentBlock) :=
  match c with None => Some [] | Some c => system_blocks (gc_Parts c) end.

Fixpoint schema (s : GSchema) : toolSchema :=
  match s with
  | MkSchema typ desc required enum items properties =>
      MkToolSchema (to_lower typ)
        ((fix props ps := match ps with
                          | [] => []
                          | (k, v) :: ps => (k, match v with Some s => Some (schema s) | None => None end) :: props ps
                          end) properties)
        required (match items with Some i => Some (schema i) | None => None end) enum desc
  end.

Definition convertSchema (s : option GSchema) : option toolSchema := schema <$> s.

Definition object_schema : toolSchema := MkToolSchema "object" [] [] None [] "".

Definition convert_tool (fd : FunctionDeclaration) : APITool :=
  {| at_Name := fd_Name fd; at_Description := fd_Description fd;
     at_InputSchema := match fd_Parameters fd with Some s => convertSchema (Some s) | None => Some object_schema end;
     at_CacheControl := None |}.

Definition convertTools (tools : list (list FunctionDeclaration)) : list APITool := tools ≫= fmap convert_tool.

Definition MapRole (genaiRole : string) : string :=
  if bool_decide (genaiRole = roleModel) then "assistant" else "user".

Definition call_block (c : GCall) : ContentBlock :=
  {| cb_Type := "tool_use"; cb_Text := ""; cb_ID := fcall_ID c; cb_Name := fcall_Name c;
     cb_Input := default "{}"%string (marshal_map (fcall_Args c)); cb_ToolUseID := ""; cb_Content := "";
     cb_Source := None; cb_CacheControl := None |}.
Definition result_block (r : GResp) : ContentBlock :=
  {| cb_Type := "tool_result"; cb_Text := ""; cb_ID := ""; cb_Name := ""; cb_Input := ""; cb_ToolUseID := frsp_ID r;
     cb_Content := default "{}"%string (marshal_map (frsp_Response r)); cb_Source := None; cb_CacheControl := None |}.
Definition image_block (b : Blob) : ContentBlock :=
  {| cb_Type := "image"; cb_Text := ""; cb_ID := ""; cb_Name := ""; cb_Input := ""; cb_ToolUseID := ""; cb_Content := "";
     cb_Source := Some {| is_Type := "base64"; is_MediaType := blob_MIMEType b; is_Data := EncodeToString (blob_Data b) |};
     cb_CacheControl := None |}.

Definition part_blocks (p : GPart) : list ContentBlock :=
  (if str_empty (gp_Text p) then [] else [text_block (gp_Text p)])
  ++ (match gp_FunctionCall p with Some c => [call_block c] | None => [] end)
  ++ (match gp_FunctionResponse p with Some r => [result_block r] | None => [] end)
  ++ (match gp_InlineData p with Some b => [image_block b] | None => [] end).

Definition convertParts (parts : list (option GPart)) : list ContentBlock := omap id parts ≫= part_blocks.

(** One content of the history joins the messages so far. *)
Definition add_content (msgs : list APIMessage) (c : option GContent) : list APIMessage :=
  match c with
  | None => msgs
  | Some c =>
      let role := MapRole (gc_Role c) in
      match convertParts (gc_Parts c) with
      | [] => msgs
      | blocks =>
          match last msgs with
          | Some m => if bool_decide (am_Role m = role)
                      then <[(length msgs - 1)%nat := {| am_Role := am_Role m; am_Content := am_Content m ++ blocks |}]> msgs
                      else msgs ++ [{| am_Role := role; am_Content := blocks |}]
          | None => msgs ++ [{| am_Role := role; am_Content := blocks |}]
          end
      end
  end.

Definition ConvertContents (contents : list (option GContent)) : list APIMessage := foldl add_content [] contents.

Definition ephemeral : CacheControl := "ephemeral".
Definition cache_block (b : ContentBlock) : ContentBlock :=
  {| cb_Type := cb_Type b; cb_Text := cb_Text b; cb_ID := cb_ID b; cb_Name := cb_Name b; cb_Input := cb_Input b;
     cb_ToolUseID := cb_ToolUseID b; cb_Content := cb_Content b; cb_Source := cb_Source b; cb_CacheControl := Some ephemeral |}.
Definition cache_tool (t : APITool) : APITool :=
  {| at_Name := at_Name t; at_Description := at_Description t; at_InputSchema := at_InputSchema t; at_CacheControl := Some ephemeral |}.

(** The last element of a slice is changed in place. *)
Definition mark_last {A} (f : A → A) (l : list A) : list A := alter f (length l - 1)%nat l.

Definition ConvertRequest (req : LLMRequest) (modelName : string) (stream promptCaching : bool) : option MessagesRequest :=
  let cfg := rq_Config req in
  system ← match (c ← cfg; cf_SystemInstruction c) with Some si => ConvertSystemInstruction (Some si) | None => Some [] end;
  let tools := match cfg with Some c => convertTools (cf_Tools c) | None => [] end in
  let mark {A} (f : A → A) l := if promptCaching then mark_last f l else l in
  Some {| mq_Model := modelName;
          mq_MaxTokens := match cfg with Some c => if 0 <? cf_MaxOutputTokens c then cf_MaxOutputTokens c else 8192 | None => 8192 end;
          mq_Messages := ConvertContents (rq_Contents req); mq_System := mark cache_block system; mq_Tools := mark cache_tool tools;
          mq_Stream := stream; mq_Temperature := c ← cfg; cf_Temperature c; mq_TopP := c ← cfg; cf_TopP c;
          mq_TopK := c ← cfg; int32_of <$> cf_TopK c; mq_StopSequences := default [] (c ← cfg; cf_StopSequences c) |}.

(** *** Responses *)

Definition MapStopReason (reason : string) : FinishReason :=
  if bool_decide (reason = "end_turn"%string) then FinishReasonStop
  else if bool_decide (reason = "max_tokens"%string) then FinishReasonMaxTokens
  else if bool_decide (reason = "tool_use"%string) then FinishReasonStop
  else FinishReasonOther.

(** [convertUsage], and the usage of [ConvertResponse]. *)
Definition usage_of (u : APIUsage) : UsageMetadata :=
  {| um_Prompt := wrap32 (au_InputTokens u); um_Candidates := wrap32 (au_OutputTokens u);
     um_Total := wrap32 (wrap64 (au_InputTokens u + au_OutputTokens u)) |}.
Definition convertUsage (u : option APIUsage) : option UsageMetadata := usage_of <$> u.

Definition convertStreamToolUse (bid name accumulatedJSON : string) : GPart :=
  call_gpart {| fcall_ID := bid; fcall_Name := name;
                fcall_Args := if str_empty accumulatedJSON then None else args_of accumulatedJSON |}.

Definition block_part (b : ContentBlock) : option GPart :=
  if bool_decide (cb_Type b = "text"%string) then Some (text_gpart (cb_Text b))
  else if bool_decide (cb_Type b = "tool_use"%string) then
    Some (call_gpart {| fcall_ID := cb_ID b; fcall_Name := cb_Name b;
                        fcall_Args := if str_empty (cb_Input b) then None else args_of (cb_Input b) |})
  else None.

Definition ConvertResponse (resp : MessagesResponse) : LLMResponse :=
  {| lr_Content := Some {| gc_Role := roleModel; gc_Parts := Some <$> omap block_part (ms_Content resp) |};
     lr_Partial := false; lr_TurnComplete := true; lr_FinishReason := MapStopReason (ms_StopReason resp);
     lr_Usage := Some (usage_of (ms_Usage resp)); lr_ErrorCode := "" |}.

Definition convertStreamDelta (d : streamDelta) : LLMResponse :=
  {| lr_Content := Some {| gc_Role := roleModel;
       gc_Parts := Some <$> (if bool_decide (sd_Type d = "text_delta"%string) then [text_gpart (sd_Text d)]
                             else if bool_decide (sd_Type d = "input_json_delta"%string) && negb (str_empty (sd_PartialJSON d))
                                  then [text_gpart (sd_PartialJSON d)] else []) |};
     lr_Partial := true; lr_TurnComplete := false; lr_FinishReason := FinishReasonNone; lr_Usage := None; lr_ErrorCode := "" |}.

(** ** model.go *)

Record Model := {
  md_name : string; md_apiKey : string; md_apiBase : string; md_apiVersion : string; md_promptCaching : bool;
}.

Definition defaultAPIBase : string := "https://api.anthropic.com".
Definition messagesEndpoint : string := "/v1/messages".
Definition defaultAPIVersion : string := "2023-06-01".

Definition NewModel (name apiKey apiBase apiVersion : string) (promptCaching : bool) : Model :=
  let base := if str_empty apiBase then defaultAPIBase else apiBase in
  {| md_name := name; md_apiKey := apiKey;
     md_apiBase := l2s (drop_while_end (λ c, Ascii.eqb c "/"%char) (s2l base));
     md_apiVersion := if str_empty apiVersion then defaultAPIVersion else apiVersion; md_promptCaching := promptCaching |}.

Definition headers (m : Model) : list (string * string) :=
  [("Content-Type", "application/json"); ("x-api-key", md_apiKey m); ("anthropic-version", md_apiVersion m)]%string.

Inductive model_error :=
| ErrMarshal | ErrCreate (e : goerror) | ErrHTTP (e : goerror) | ErrRead (e : goerror)
| ErrStatus (status : Z) (type message : string) | ErrUnmarshal | ErrReadStream (e : goerror)
| ErrStream (type message : string) | ErrStreamData (data : string).

Abbreviation item := (result model_error LLMResponse).

(** *** The stream of events *)

Context (yield : list item → item → bool)
        (unmarshal_event : string → option streamEvent) (unmarshal_block : string → option ContentBlock)
        (unmarshal_delta : string → option streamDelta) (unmarshal_error : string → option (string * string)).

(** The variables of the loop. *)
Record stream_state := {
  ss_ID : string; ss_Name : string; ss_Type : string; ss_JSON : string; ss_Usage : option APIUsage; ss_StopReason : string;
}.

Definition no_stream : stream_state :=
  {| ss_ID := ""; ss_Name := ""; ss_Type := ""; ss_JSON := ""; ss_Usage := None; ss_StopReason := "" |}.

Definition in_block (st : stream_state) (typ bid name json : string) : stream_state :=
  {| ss_ID := bid; ss_Name := name; ss_Type := typ; ss_JSON := json; ss_Usage := ss_Usage st; ss_StopReason := ss_StopReason st |}.

(** What an event makes: the loop goes on, or the function returns. *)
Inductive next := Continue (st : stream_state) (out : list item) | Return (out : list item).

(** [if !yield(resp, nil) { return }]. *)
Definition emit (resp : item) (st : stream_state) (out : list item) : next :=
  if yield out resp then Continue st (out ++ [resp]) else Return (out ++ [resp]).

Definition on_block_start (evt : streamEvent) (st : stream_state) (out : list item) : next :=
  match unmarshal_block (se_ContentBlock evt) with
  | Some b => Continue (in_block st (cb_Type b) (cb_ID b) (cb_Name b) "") out
  | None => Continue st out
  end.

Definition on_block_delta (evt : streamEvent) (st : stream_state) (out : list item) : next :=
  match unmarshal_delta (se_Delta evt) with
  | None => Continue st out
  | Some delta =>
      if bool_decide (sd_Type delta = "text_delta"%string) then emit (Ok (convertStreamDelta delta)) st out
      else if bool_decide (sd_Type delta = "input_json_delta"%string)
      then Continue (in_block st (ss_Type st) (ss_ID st) (ss_Name st) (ss_JSON st +:+ sd_PartialJSON delta)) out
      else Continue st out
  end.

Definition on_block_stop (st : stream_state) (out : list item) : next :=
  let st' := in_block st "" "" "" "" in
  if bool_decide (ss_Type st = "tool_use"%string) && negb (str_empty (ss_ID st))
  then emit (Ok (content_response [convertStreamToolUse (ss_ID st) (ss_Name st) (ss_JSON st)])) st' out
  else Continue st' out.

Definition on_message_delta (evt : streamEvent) (st : stream_state) : stream_state :=
  {| ss_ID := ss_ID st; ss_Name := ss_Name st; ss_Type := ss_Type st; ss_JSON := ss_JSON st;
     ss_Usage := match se_Usage evt with Some u => Some u | None => ss_Usage st end;
     ss_StopReason := match unmarshal_delta (se_Delta evt) with Some d => sd_StopReason d | None => ss_StopReason st end |}.

Definition on_message_stop (st : stream_state) : item :=
  Ok (final_response (MapStopReason (ss_StopReason st)) (convertUsage (ss_Usage st))).

Definition on_event (data : string) (evt : streamEvent) (st : stream_state) (out : list item) : next :=
  let typ := se_Type evt in
  if bool_decide (typ = "content_block_start"%string) then on_block_start evt st out
  else if bool_decide (typ = "content_block_delta"%string) then on_block_delta evt st out
  else if bool_decide (typ = "content_block_stop"%string) then on_block_stop st out
  else if bool_decide (typ = "message_delta"%string) then Continue (on_message_delta evt st) out
  else if bool_decide (typ = "message_stop"%string) then Return (out ++ [on_message_stop st])
  else if bool_decide (typ = "error"%string) then
    Return (out ++ [Err match unmarshal_error data with
                        | Some (type, message) => ErrStream type message
                        | None => ErrStreamData data
                        end])
  else Continue st out.

(** The loop over the lines that the scanner gives before it stops, with its error. *)
Fixpoint sse_loop (lines : list string) (scan_err : option goerror) (st : stream_state) (out : list item) : list item :=
  match lines with
  | [] => match scan_err with Some e => out ++ [Err (ErrReadStream e)] | None => out end
  | line :: lines =>
      match sse_data line with
      | None => sse_loop lines scan_err st out
      | Some data =>
          if str_empty data then sse_loop lines scan_err st out
          else match unmarshal_event data with
               | None => sse_loop lines scan_err st out
               | Some evt =>
                   match on_event data evt st out with
                   | Continue st out => sse_loop lines scan_err st out
                   | Return out => out
                   end
               end
      end
  end.

Definition processSSE (lines : list string) (scan_err : option goerror) : list item := sse_loop lines scan_err no_stream [].

(** *** Calls *)

Context (marshal : MessagesRequest → option string) (new_request : string → option goerror)
        (post : string → list (string * string) → string → result goerror (Z * result goerror string))
        (post_stream : string → list (string * string) → string → result goerror (Z * (string * (list string * option goerror))))
        (unmarshal_response : string → option MessagesResponse).

Definition api_error (status : Z) (body : string) : model_error :=
  let '(type, message) := default (""%string, ""%string) (unmarshal_error body) in ErrStatus status type message.

Definition endpoint (m : Model) : string := md_apiBase m +:+ messagesEndpoint.

Definition generate (m : Model) (req : LLMRequest) : option item :=
  apiReq ← ConvertRequest req (md_name m) false (md_promptCaching m);
  Some match marshal apiReq with
       | None => Err ErrMarshal
       | Some body =>
           match new_request (endpoint m) with
           | Some e => Err (ErrCreate e)
           | None =>
               match post (endpoint m) (headers m) body with
               | Err e => Err (ErrHTTP e)
               | Ok (_, Err e) => Err (ErrRead e)
               | Ok (status, Ok respBody) =>
                   if negb (status =? 200) then Err (api_error status respBody)
                   else match unmarshal_response respBody with
                        | None => Err ErrUnmarshal
                        | Some resp => Ok (ConvertResponse resp)
                        end
               end
           end
       end.

Definition generateStream (m : Model) (req : LLMRequest) : option (list item) :=
  apiReq ← ConvertRequest req (md_name m) true (md_promptCaching m);
  Some match marshal apiReq with
       | None => [Err ErrMarshal]
       | Some body =>
           match new_request (endpoint m) with
           | Some e => [Err (ErrCreate e)]
           | None =>
               match post_stream (endpoint m) (headers m) body with
               | Err e => [Err (ErrHTTP e)]
               | Ok (status, (respBody, (lines, scan_err))) =>
                   if negb (status =? 200) then [Err (api_error status respBody)] else processSSE lines scan_err
               end
           end
       end.

Definition GenerateContent (m : Model) (req : LLMRequest) (stream : bool) : option (list item) :=
  if stream then generateStream m req else (λ i, [i]) <$> generate m req.
End convert.

(** ** Requests *)

Section requests.
Context `{AL : ArgsCodecLaws}.







Lemma call_block_part x s : marshal_map (fcall_Args x) = Some s → block_part (call_block x) = Some (call_gpart x).
Proof.
  intros Hx. destruct (map_roundtrip _ _ Hx) as [Hu Hs]. unfold block_part, call_block. rewrite Hx.
  cbn [cb_Type cb_Input cb_ID cb_Name default]. rewrite bool_decide_false, bool_decide_true by done.
  change (id s) with s.
  unfold str_empty, args_of. rewrite bool_decide_false by done. rewrite Hu. by destruct x.
Qed.

(** A content of the model survives the round trip through the API's blocks. *)
Theorem anthropic_roundtrip text calls stop usage :
  Forall (λ c, is_Some (marshal_map (fcall_Args c))) calls →
  let c := {| gc_Role := roleModel;
              gc_Parts := Some <$> (if str_empty text then [] else [text_gpart text]) ++ (call_gpart <$> calls) |} in
  gc_Parts c ≠ [] →
  ∃ blocks, ConvertContents [Some c] = [{| am_Role := "assistant"; am_Content := blocks |}]
    ∧ lr_Content (ConvertResponse {| ms_Content := blocks; ms_StopReason := stop; ms_Usage := usage |}) = Some c.
Proof.
  intros Hcalls c Hne. set (tp := if str_empty text then [] else [text_gpart text]).
  assert (∀ l : list GPart, omap id (Some <$> l) = l) as Hid by (intros l; induction l as [|x l IH]; [done|]; rewrite fmap_cons; cbn [omap list_omap id]; by rewrite IH).
  assert (omap block_part (convertParts (gc_Parts c)) = tp ++ (call_gpart <$> calls)) as Hparts.
  { unfold convertParts, c. cbn [gc_Parts]. rewrite Hid, bind_app, omap_app. f_equal.
    - unfold tp. destruct (str_empty text) eqn:He; [done|]. rewrite bind_singleton. unfold part_blocks. cbn. by rewrite He.
    - clear Hne; clear c. induction Hcalls as [|x calls [s Hx] _ IH]; [done|]. rewrite fmap_cons, bind_cons, omap_app, IH.
      change (part_blocks (call_gpart x)) with [call_block x]. cbn [omap list_omap]. by rewrite (call_block_part _ _ Hx). }
  exists (convertParts (gc_Parts c)). unfold ConvertContents. cbn [foldl add_content last]. split.
  - destruct (convertParts (gc_Parts c)) eqn:He; [|done]. exfalso. apply Hne. unfold c. cbn [gc_Parts].
    fold tp. by rewrite <- Hparts.
  - unfold ConvertResponse. cbn [lr_Content ms_Content]. by rewrite Hparts.
Qed.
End requests.

(** ** Streams *)

Section streams.
Context `{ArgsCodec} (unmarshal_event : string → option streamEvent) (unmarshal_block : string → option ContentBlock)
        (unmarshal_delta : string → option streamDelta) (unmarshal_error : string → option (string * string)).

Abbreviation item := (result model_error LLMResponse).

(** What a line tells the loop; every other line is passed over. *)
Inductive event :=
| BlockStart (typ bid name : string) | TextDelta (text : string) | JsonDelta (json : string) | BlockStop
| MessageDelta (reason : option string) (usage : option APIUsage) | MessageStop | StreamError (e : model_error).

Definition decode_event (data : string) (evt : streamEvent) : option event :=
  let typ := se_Type evt in
  if bool_decide (typ = "content_block_start"%string) then
    (λ b, BlockStart (cb_Type b) (cb_ID b) (cb_Name b)) <$> unmarshal_block (se_ContentBlock evt)
  else if bool_decide (typ = "content_block_delta"%string) then
    delta ← unmarshal_delta (se_Delta evt);
    if bool_decide (sd_Type delta = "text_delta"%string) then Some (TextDelta (sd_Text delta))
    else if bool_decide (sd_Type delta = "input_json_delta"%string) then Some (JsonDelta (sd_PartialJSON delta)) else None
  else if bool_decide (typ = "content_block_stop"%string) then Some BlockStop
  else if bool_decide (typ = "message_delta"%string) then
    Some (MessageDelta (sd_StopReason <$> unmarshal_delta (se_Delta evt)) (se_Usage evt))
  else if bool_decide (typ = "message_stop"%string) then Some MessageStop
  else if bool_decide (typ = "error"%string) then
    Some (StreamError match unmarshal_error data with Some (t, m) => ErrStream t m | None => ErrStreamData data end)
  else None.

Definition line_event (line : string) : option event :=
  data ← sse_data line;
  if str_empty data then None else evt ← unmarshal_event data; decode_event data evt.

(** The answer to a sequence of events, for a consumer that takes everything. *)
Fixpoint answer (evs : list event) (st : stream_state) : list item :=
  match evs with
  | [] => []
  | BlockStart typ bid name :: evs => answer evs (in_block st typ bid name "")
  | TextDelta text :: evs => Ok (partial_response (text_gpart text)) :: answer evs st
  | JsonDelta json :: evs => answer evs (in_block st (ss_Type st) (ss_ID st) (ss_Name st) (ss_JSON st +:+ json))
  | BlockStop :: evs =>
      (if bool_decide (ss_Type st = "tool_use"%string) && negb (str_empty (ss_ID st))
       then [Ok (content_response [convertStreamToolUse (ss_ID st) (ss_Name st) (ss_JSON st)])] else [])
      ++ answer evs (in_block st "" "" "" "")
  | MessageDelta reason usage :: evs =>
      answer evs {| ss_ID := ss_ID st; ss_Name := ss_Name st; ss_Type := ss_Type st; ss_JSON := ss_JSON st;
                    ss_Usage := match usage with Some u => Some u | None => ss_Usage st end;
                    ss_StopReason := default (ss_StopReason st) reason |}
  | MessageStop :: _ => [on_message_stop st]
  | StreamError e :: _ => [Err e]
  end.

(** Whether the events themselves end the stream. *)
Definition is_end (e : event) : bool := match e with MessageStop | StreamError _ => true | _ => false end.

Abbreviation loop := (sse_loop (λ _ _, true) unmarshal_event unmarshal_block unmarshal_delta unmarshal_error).

Lemma sse_loop_answer lines scan_err st out :
  loop lines scan_err st out
  = out ++ answer (omap line_event lines) st
        ++ (if existsb is_end (omap line_event lines) then []
            else match scan_err with Some e => [Err (ErrReadStream e)] | None => [] end).
Proof.
  revert st out. induction lines as [|line lines IH]; intros st out.
  { cbn. destruct scan_err; [done|by rewrite app_nil_r]. }
  cbn [sse_loop omap list_omap]. remember (line_event line) as e eqn:He. unfold line_event in He.
  destruct (sse_data line) as [data|]; cbn in He; [|subst e; apply IH].
  destruct (str_empty data); [subst e; apply IH|].
  destruct (unmarshal_event data) as [evt|]; cbn in He; [|subst e; apply IH]. subst e.
  unfold on_event, decode_event.
  case_bool_decide; [|case_bool_decide; [|case_bool_decide; [|case_bool_decide; [|case_bool_decide; [|case_bool_decide]]]]].
  - unfold on_block_start. destruct (unmarshal_block _); cbn; by rewrite IH.
  - unfold on_block_delta. destruct (unmarshal_delta _) as [d|]; cbn [mbind option_bind]; [|apply IH].
    case_bool_decide as Ht; [|by case_bool_decide; cbn; rewrite IH].
    unfold emit. cbn. rewrite IH, <- app_assoc. unfold convertStreamDelta. by rewrite bool_decide_true.
  - unfold on_block_stop, emit. cbn [answer existsb is_end orb]. destruct (_ && _); rewrite IH; [by rewrite <- !app_assoc|done].
  - cbn. rewrite IH. unfold on_message_delta. by destruct (unmarshal_delta _).
  - cbn. done.
  - cbn. by destruct (unmarshal_error data) as [[? ?]|].
  - apply IH.
Qed.

(** A block of an answer as the API streams it: the fragments of its text or of its input.
    For an input without members the API sends no fragment, or an empty one. *)
Record streamed := { sb_block : ContentBlock; sb_fragments : list string }.

Definition streamed_ok (b : streamed) : Prop :=
  (cb_Type (sb_block b) = "text"%string ∧ join (sb_fragments b) "" = cb_Text (sb_block b))
  ∨ (cb_Type (sb_block b) = "tool_use"%string ∧ cb_ID (sb_block b) ≠ ""%string
     ∧ (join (sb_fragments b) "" = cb_Input (sb_block b)
        ∨ join (sb_fragments b) "" = ""%string ∧ cb_Input (sb_block b) = "{}"%string)).

Definition block_events (b : streamed) : list event :=
  let is_text := bool_decide (cb_Type (sb_block b) = "text"%string) in
  BlockStart (cb_Type (sb_block b)) (cb_ID (sb_block b)) (cb_Name (sb_block b))
  :: ((if is_text then TextDelta else JsonDelta) <$> sb_fragments b) ++ [BlockStop].

(** The events of a whole response.  The usage of [message_delta] is [counted]; the input
    tokens come with [message_start], which is none of the events that the loop looks at. *)
Definition response_events (blocks : list streamed) (reason : string) (counted : APIUsage) : list event :=
  (blocks ≫= block_events) ++ [MessageDelta (Some reason) (Some counted); MessageStop].

(** The call that the stream gives for one of the response: the same, or one whose nil
    arguments stand for the empty object. *)
Definition same_call (c : GCall) (p : GPart) : Prop :=
  p = call_gpart c
  ∨ fcall_Args c = None ∧ p = call_gpart {| fcall_ID := fcall_ID c; fcall_Name := fcall_Name c; fcall_Args := args_of "{}" |}.

(** The items that stand for one part: the fragments of a text one by one, a call at once. *)
Definition assembles (items : list item) (p : option GPart) : Prop :=
  (∃ texts, items = (λ t, Ok (partial_response (text_gpart t))) <$> texts ∧ p = Some (text_gpart (join texts "")))
  ∨ (∃ call part, items = [Ok (content_response [call_gpart call])] ∧ p = Some part ∧ same_call call part).

Lemma answer_texts frags st evs :
  answer ((TextDelta <$> frags) ++ evs) st = ((λ t, Ok (partial_response (text_gpart t))) <$> frags) ++ answer evs st.
Proof. induction frags as [|f frags IH]; [done|]. rewrite !fmap_cons. cbn. by rewrite IH. Qed.

Lemma answer_json frags st evs :
  answer ((JsonDelta <$> frags) ++ evs) st
  = answer evs (in_block st (ss_Type st) (ss_ID st) (ss_Name st) (ss_JSON st +:+ join frags "")).
Proof.
  revert st. induction frags as [|f frags IH]; intros st.
  { cbn. unfold in_block. destruct st. cbn. f_equal. f_equal. by rewrite <- (l2s_s2l (_ +:+ "")), s2l_app, app_nil_r, l2s_s2l. }
  rewrite fmap_cons. cbn [app answer]. rewrite IH. unfold in_block. cbn. f_equal. f_equal. apply s2l_inj.
  rewrite !s2l_app. destruct frags; cbn [join]; rewrite ?s2l_app; cbn; by rewrite ?app_nil_r, ?app_assoc.
Qed.

Lemma answer_block b evs st :
  streamed_ok b → ∃ items st' p, block_part (sb_block b) = Some p ∧ assembles items (Some p)
    ∧ answer (block_events b ++ evs) st = items ++ answer evs st'.
Proof.
  intros [[Ht Hj]|(Ht & Hid & Hj)]; unfold block_part, block_events; rewrite Ht.
  - rewrite !bool_decide_true by done. cbn [app answer]. rewrite <- app_assoc, answer_texts. cbn [app answer in_block ss_Type].
    rewrite bool_decide_false by done. cbn [andb app].
    eexists _, _, _. split; [done|]. split; [|done]. left. eexists. split; [done|]. by rewrite Hj.
  - rewrite (bool_decide_false ("tool_use"%string = "text"%string)), !bool_decide_true by done.
    cbn [app answer]. rewrite <- app_assoc, answer_json. cbn [app answer in_block ss_Type ss_ID ss_Name ss_JSON].
    assert (str_empty (cb_ID (sb_block b)) = false) as -> by (by apply bool_decide_eq_false).
    change ("" +:+ join (sb_fragments b) "")%string with (join (sb_fragments b) "").
    eexists _, _, _. split; [done|]. split; [|done]. right. eexists _, _. split; [done|]. split; [done|].
    destruct Hj as [->|[-> ->]]; [by left|by right].
Qed.

Lemma answer_blocks blocks evs st :
  Forall streamed_ok blocks → ∃ groups st',
    Forall2 assembles groups (Some <$> omap block_part (sb_block <$> blocks))
    ∧ answer ((blocks ≫= block_events) ++ evs) st = concat groups ++ answer evs st'.
Proof.
  intros Hok. revert st. induction Hok as [|b blocks Hb _ IH]; intros st; [by exists [], st; split; [constructor|]|].
  destruct (answer_block b ((blocks ≫= block_events) ++ evs) st Hb) as (items & st1 & p & Hp & Has & Heq).
  destruct (IH st1) as (groups & st2 & Hgroups & Heq2). exists (items :: groups), st2. split.
  - rewrite fmap_cons. cbn [omap list_omap]. rewrite Hp. by constructor.
  - rewrite bind_cons, <- app_assoc, Heq, Heq2. cbn [concat]. by rewrite app_assoc.
Qed.

Abbreviation process := (processSSE (λ _ _, true) unmarshal_event unmarshal_block unmarshal_delta unmarshal_error).

(** C8: Streaming an answer and asking for it at once give the same answer but for the
    input tokens.  Take an answer of text and of calls with an identifier, and a stream
    whose events, lines of other kinds such as message_start and ping left out, are the
    documented ones: each block in its fragments, a message_delta with the stop reason and
    the output tokens, a message_stop.  The items given to a consumer that takes them all
    fall into groups, one for each part of the converted response in order, a text being
    given fragment by fragment and a call at once (with nil arguments where the input is
    the empty object and had no fragments); the last item completes the turn, with the
    response's finish reason and output tokens, and with the input tokens that
    message_delta carried, so none when only message_start told them. *)
Theorem stream_equals_response blocks reason usage counted lines scan_err rest :
  Forall streamed_ok blocks → au_OutputTokens counted = au_OutputTokens usage →
  omap line_event lines = response_events blocks reason counted ++ rest →
  let resp := ConvertResponse {| ms_Content := sb_block <$> blocks; ms_StopReason := reason; ms_Usage := usage |} in
  ∃ groups c u v, lr_Content resp = Some c ∧ lr_Usage resp = Some u ∧ Forall2 assembles groups (gc_Parts c)
    ∧ process lines scan_err = concat groups ++ [Ok (final_response (lr_FinishReason resp) (Some v))]
    ∧ um_Candidates v = um_Candidates u ∧ um_Prompt v = wrap32 (au_InputTokens counted).
Proof.
  intros Hok Hout Hevs resp. unfold processSSE. rewrite sse_loop_answer, Hevs. unfold response_events.
  destruct (answer_blocks blocks ([MessageDelta (Some reason) (Some counted); MessageStop] ++ rest) no_stream Hok)
    as (groups & st & Hgroups & Heq).
  exists groups. eexists _, _, (usage_of counted). split; [done|]. split; [done|]. split; [exact Hgroups|].
  split; [|by cbn; rewrite Hout]. rewrite <- app_assoc, Heq. rewrite !existsb_app. cbn.
  by rewrite orb_true_r, app_nil_r.
Qed.

(** A stream that is cut before its message_stop tells the consumer nothing when the
    reader reports no error: what was decoded so far is given, no item of it completes the
    turn or is an error, and the function returns.  Only a reader's error is passed on. *)
Theorem stream_cut_short lines e :
  existsb is_end (omap line_event lines) = false →
  let out := answer (omap line_event lines) no_stream in
  Forall (λ i, ∃ r, i = Ok r ∧ lr_TurnComplete r = false) out
  ∧ process lines None = out ∧ process lines (Some e) = out ++ [Err (ErrReadStream e)].
Proof.
  intros Hend out. unfold processSSE. rewrite !sse_loop_answer, Hend, app_nil_r. split; [|done]. unfold out.
  generalize no_stream. induction (omap line_event lines) as [|ev evs IH]; intros st; [constructor|].
  cbn [existsb] in Hend. apply orb_false_iff in Hend as [Hev Hend]. specialize (IH Hend).
  destruct ev; try done; cbn [answer]; try apply IH.
  - constructor; [by eexists|apply IH].
  - apply Forall_app. split; [|apply IH]. destruct (_ && _); repeat constructor. by eexists.
Qed.
End streams.

(** ** Witnesses *)

Definition a_call : GCall := {| fcall_ID := "c1"; fcall_Name := "read_file"; fcall_Args := Some [] |}.
Definition a_usage : APIUsage := {| au_InputTokens := 7; au_OutputTokens := 5 |}.

Lemma anthropic_roundtrip_witness :
  ∃ blocks, ConvertContents [Some {| gc_Role := roleModel; gc_Parts := [Some (text_gpart "hi"); Some (call_gpart a_call)] |}]
      = [{| am_Role := "assistant"; am_Content := blocks |}]
    ∧ lr_Content (ConvertResponse {| ms_Content := blocks; ms_StopReason := "tool_use"; ms_Usage := a_usage |})
      = Some {| gc_Role := roleModel; gc_Parts := [Some (text_gpart "hi"); Some (call_gpart a_call)] |}.
Proof.
  exact (anthropic_roundtrip "hi" [a_call] "tool_use" a_usage ltac:(repeat constructor; by eexists) ltac:(done)).
Defined.

(** The usage of [message_delta] has no input tokens. *)
Definition a_delta_usage : APIUsage := {| au_InputTokens := 0; au_OutputTokens := 5 |}.

(** Events of one letter: the beginning of the message, the start and stop of a text and of a call, their fragments, and
    the end of the message. *)
Definition a_event (data : string) : option streamEvent :=
  let ev typ := Some {| se_Type := typ; se_ContentBlock := data; se_Delta := data; se_Usage := Some a_usage |} in
  if bool_decide (data = "t"%string ∨ data = "c"%string) then ev "content_block_start"%string
  else if bool_decide (data = "d"%string ∨ data = "j"%string) then ev "content_block_delta"%string
  else if bool_decide (data = "s"%string) then ev "content_block_stop"%string
  else if bool_decide (data = "b"%string) then ev "message_start"%string
  else if bool_decide (data = "m"%string) then
    Some {| se_Type := "message_delta"; se_ContentBlock := ""; se_Delta := data; se_Usage := Some a_delta_usage |}
  else if bool_decide (data = "e"%string) then ev "message_stop"%string
  else None.
Definition a_block (data : string) : option ContentBlock :=
  if bool_decide (data = "t"%string) then Some (text_block "")
  else if bool_decide (data = "c"%string) then Some (call_block a_call) else None.
Definition a_delta (data : string) : option streamDelta :=
  if bool_decide (data = "d"%string) then Some {| sd_Type := "text_delta"; sd_Text := "hi"; sd_PartialJSON := ""; sd_StopReason := "" |}
  else if bool_decide (data = "j"%string) then Some {| sd_Type := "input_json_delta"; sd_Text := ""; sd_PartialJSON := "{}"; sd_StopReason := "" |}
  else if bool_decide (data = "m"%string) then Some {| sd_Type := ""; sd_Text := ""; sd_PartialJSON := ""; sd_StopReason := "tool_use" |}
  else None.
Definition a_lines : list string :=
  ["event: x"; "data: b"; "data: t"; "data: d"; "data: d"; "data: s"; "data: c"; "data: j"; "data: s";
   "data: c"; "data: s"; "data: m"; "data: e"].
Definition a_blocks : list streamed :=
  [{| sb_block := text_block "hihi"; sb_fragments := ["hi"; "hi"]%string |}; {| sb_block := call_block a_call; sb_fragments := ["{}"%string] |};
   {| sb_block := call_block a_call; sb_fragments := [] |}].

Lemma stream_equals_response_witness :
  let resp := ConvertResponse {| ms_Content := sb_block <$> a_blocks; ms_StopReason := "tool_use"; ms_Usage := a_usage |} in
  um_Prompt <$> lr_Usage resp = Some 7
  ∧ ∃ groups c u v, lr_Content resp = Some c ∧ lr_Usage resp = Some u ∧ Forall2 assembles groups (gc_Parts c)
    ∧ processSSE (λ _ _, true) a_event a_block a_delta (λ _, None) a_lines None
      = concat groups ++ [Ok (final_response (lr_FinishReason resp) (Some v))]
    ∧ um_Candidates v = um_Candidates u ∧ um_Prompt v = wrap32 0.
Proof.
  split; [reflexivity|].
  apply (stream_equals_response a_event a_block a_delta (λ _, None) a_blocks "tool_use" a_usage a_delta_usage a_lines None []).
  - apply Forall_cons; split; [left; by split|]. apply Forall_cons; split; [right; split_and!; [done|done|by left]|].
    apply Forall_cons; split; [right; split_and!; [done|done|by right]|constructor].
  - reflexivity.
  - reflexivity.
Defined.

Lemma stream_cut_short_witness :
  processSSE (λ _ _, true) a_event a_block a_delta (λ _, None) ["data: t"; "data: d"]%string None
  = [Ok (partial_response (text_gpart "hi"))].
Proof.
  exact (proj1 (proj2 (stream_cut_short a_event a_block a_delta (λ _, None) ["data: t"; "data: d"]%string (ErrText "eof") eq_refl))).
Defined.
