(* ===== verification/Providers.v ===== *)
(** [pkg/providers]: the registry of provider specifications ([registry.go]), the factory
    that makes a model from its configuration ([factory.go]), and the chain of models that
    [pkg/bootstrap/providers.go] builds from the configuration of the program.

    The registry's map holds pointers into its slice; specifications are never changed, so
    the map holds values here.  The mutex is held for a whole operation.  A panic is
    [None]. *)
From S2P Require Import Prelude GoStrings Types OpenAI Anthropic.

(** ** registry.go *)

Record ProviderSpec := {
  ps_Name : string; ps_Keywords : list string; ps_IsGateway : bool; ps_DefaultAPIBase : string; ps_EnvKey : string;
}.

Definition isAlnum (c : Ascii.ascii) : bool := is_lower_byte c || is_upper_byte c || is_digit_byte c.

Definition left_ok (l : bytes) (pos : nat) : bool :=
  match pos with 0%nat => true | S p => match l !! p with Some c => negb (isAlnum c) | None => true end end.
Definition right_ok (l : bytes) (stop : nat) : bool := match l !! stop with Some c => negb (isAlnum c) | None => true end.

(** The loop over the occurrences; [s[idx:]] panics when [idx] is past the end.  [idx] grows
    by one at least, so the length of the text and two more turns are enough. *)
Fixpoint keyword_loop (fuel idx : nat) (l kw : bytes) : option bool :=
  match fuel with
  | 0%nat => None
  | S fuel =>
      if (length l <? idx)%nat then None
      else match index_bytes (drop idx l) kw with
           | None => Some false
           | Some p =>
               let pos := (p + idx)%nat in
               if left_ok l pos && right_ok l (pos + length kw) then Some true else keyword_loop fuel (S pos) l kw
           end
  end.

Definition ContainsKeyword (s kw : string) : option bool :=
  if (2 <? str_len kw)%nat then Some (contains s kw) else keyword_loop (2 + str_len s) 0 (s2l s) (s2l kw).

Record Registry := { rg_specs : list ProviderSpec; rg_byName : gmap string ProviderSpec }.

Definition NewRegistry : Registry := {| rg_specs := []; rg_byName := ∅ |}.

Definition Register (r : Registry) (spec : ProviderSpec) : Registry :=
  {| rg_specs := rg_specs r ++ [spec]; rg_byName := <[ps_Name spec := spec]> (rg_byName r) |}.

Definition FindByName (r : Registry) (name : string) : option ProviderSpec := rg_byName r !! name.

Definition All (r : Registry) : list ProviderSpec := rg_specs r.

Section registry.
Context `{U : UnicodeCase}.

(** [lower[:idx]] before the first slash, when there is something. *)
Definition provider_prefix (lower : string) : string :=
  match index lower "/" with Some (S i) => l2s (take (S i) (s2l lower)) | _ => "" end.

Fixpoint any_keyword (lower : string) (kws : list string) : option bool :=
  match kws with
  | [] => Some false
  | kw :: kws => b ← ContainsKeyword lower kw; if (b : bool) then Some true else any_keyword lower kws
  end.

Fixpoint by_keyword (lower : string) (specs : list ProviderSpec) : option (option ProviderSpec) :=
  match specs with
  | [] => Some None
  | s :: specs =>
      if ps_IsGateway s then by_keyword lower specs
      else b ← any_keyword lower (ps_Keywords s); if (b : bool) then Some (Some s) else by_keyword lower specs
  end.

Definition prefix_matches (pre : string) (s : ProviderSpec) : bool :=
  negb (ps_IsGateway s) && (negb (str_empty pre) && bool_decide (pre = ps_Name s)).

Definition FindByModel (r : Registry) (model : string) : option (option ProviderSpec) :=
  let lower := to_lower model in
  match find_first (prefix_matches (provider_prefix lower)) (rg_specs r) with
  | Some s => Some (Some s)
  | None => by_keyword lower (rg_specs r)
  end.

Definition gateway_matches (keyLower baseLower : string) (s : ProviderSpec) : bool :=
  ps_IsGateway s
  && (negb (str_empty (ps_EnvKey s)) && negb (str_empty keyLower) && has_prefix keyLower (to_lower (ps_Name s))
      || negb (str_empty (ps_DefaultAPIBase s)) && negb (str_empty baseLower) && contains baseLower (to_lower (ps_Name s))).

Definition FindGateway (r : Registry) (providerName apiKey apiBase : string) : option ProviderSpec :=
  let scan := find_first (gateway_matches (to_lower apiKey) (to_lower apiBase)) (rg_specs r) in
  if str_empty providerName then scan
  else match FindByName r providerName with
       | Some s => if ps_IsGateway s then Some s else scan
       | None => scan
       end.

Definition NormalizeProvider (provider : string) : string :=
  let p := to_lower (trim_space provider) in
  if bool_decide (p = "gpt"%string) then "openai"
  else if bool_decide (p = "claude"%string) then "anthropic"
  else if bool_decide (p = "google"%string) then "gemini"
  else p.

Record ModelRef := { mr_Provider : string; mr_Model : string }.

Definition ParseModelRef (raw defaultProvider : string) : option ModelRef :=
  let raw := trim_space raw in
  if str_empty raw then None
  else match index raw "/" with
       | Some (S i) =>
           let model := trim_space (l2s (drop (S (S i)) (s2l raw))) in
           if str_empty model then None
           else Some {| mr_Provider := NormalizeProvider (l2s (take (S i) (s2l raw))); mr_Model := model |}
       | _ => Some {| mr_Provider := NormalizeProvider defaultProvider; mr_Model := raw |}
       end.

Definition ModelKey (provider model : string) : string := NormalizeProvider provider +:+ "/" +:+ to_lower (trim_space model).

Definition spec (name : string) (keywords : list string) (gateway : bool) (base env : string) : ProviderSpec :=
  {| ps_Name := name; ps_Keywords := keywords; ps_IsGateway := gateway; ps_DefaultAPIBase := base; ps_EnvKey := env |}.

Definition default_specs : list ProviderSpec :=
  [spec "anthropic" ["anthropic"; "claude"] false "https://api.anthropic.com" "ANTHROPIC_API_KEY";
   spec "openai" ["openai"; "gpt"; "o1"; "o3"; "o4"] false "https://api.openai.com/v1" "OPENAI_API_KEY";
   spec "deepseek" ["deepseek"] false "https://api.deepseek.com/v1" "DEEPSEEK_API_KEY";
   spec "gemini" ["gemini"] false "https://generativelanguage.googleapis.com" "GEMINI_API_KEY";
   spec "openrouter" ["openrouter"] true "https://openrouter.ai/api/v1" "OPENROUTER_API_KEY"]%string.

Definition DefaultRegistry : Registry := foldl Register NewRegistry default_specs.

(** ** factory.go *)

Definition ExtractProtocol (modelStr : string) : string * string :=
  let modelStr := trim_space modelStr in
  match cut_bytes "/" (s2l modelStr) with
  | Some (a, b) => (l2s a, l2s b)
  | None => ("openai"%string, modelStr)
  end.

Record ModelFactoryConfig := { fc_Model : string; fc_APIKey : string; fc_APIBase : string; fc_PromptCaching : bool }.

Inductive LLM := AnthropicLLM (m : Anthropic.Model) | OpenAILLM (m : OpenAI.Model).

Inductive factory_error := ErrModelRequired | ErrKeyRequired (model : string) | ErrBaseRequired (protocol model : string).

Definition createAnthropicModel (cfg : ModelFactoryConfig) (modelID : string) : result factory_error (LLM * string) :=
  let apiBase := if str_empty (fc_APIBase cfg) then "https://api.anthropic.com"%string else fc_APIBase cfg in
  if str_empty (fc_APIKey cfg) then Err (ErrKeyRequired (fc_Model cfg))
  else Ok (AnthropicLLM (Anthropic.NewModel modelID (fc_APIKey cfg) apiBase "" (fc_PromptCaching cfg)), modelID).

Definition api_bases : list (string * string) :=
  [("openai", "https://api.openai.com/v1"); ("openrouter", "https://openrouter.ai/api/v1");
   ("groq", "https://api.groq.com/openai/v1"); ("zhipu", "https://open.bigmodel.cn/api/paas/v4");
   ("gemini", "https://generativelanguage.googleapis.com/v1beta"); ("nvidia", "https://integrate.api.nvidia.com/v1");
   ("ollama", "http://localhost:11434/v1"); ("moonshot", "https://api.moonshot.cn/v1");
   ("shengsuanyun", "https://router.shengsuanyun.com/api/v1"); ("deepseek", "https://api.deepseek.com/v1");
   ("cerebras", "https://api.cerebras.ai/v1"); ("volcengine", "https://ark.cn-beijing.volces.com/api/v3");
   ("qwen", "https://dashscope.aliyuncs.com/compatible-mode/v1"); ("vllm", "http://localhost:8000/v1");
   ("mistral", "https://api.mistral.ai/v1")]%string.

Definition GetDefaultAPIBase (protocol : string) : string :=
  default ""%string (snd <$> find_first (λ e, bool_decide (e.1 = protocol)) api_bases).

Definition createOpenAICompatModel (cfg : ModelFactoryConfig) (protocol modelID : string) : result factory_error (LLM * string) :=
  let apiBase := if str_empty (fc_APIBase cfg) then GetDefaultAPIBase protocol else fc_APIBase cfg in
  if str_empty apiBase then Err (ErrBaseRequired protocol (fc_Model cfg))
  else Ok (OpenAILLM (OpenAI.NewModel modelID (fc_APIKey cfg) apiBase), modelID).

Definition CreateModelFromConfig (cfg : ModelFactoryConfig) : result factory_error (LLM * string) :=
  if str_empty (fc_Model cfg) then Err ErrModelRequired
  else
    let '(protocol, modelID) := ExtractProtocol (fc_Model cfg) in
    if bool_decide (protocol = "anthropic"%string) then createAnthropicModel cfg modelID
    else createOpenAICompatModel cfg protocol modelID.

(** ** bootstrap/providers.go *)

Record ProviderConfig := { pc_Name : string; pc_Config : ModelFactoryConfig }.
Record LLMEntry := { le_Provider : string; le_Model : string; le_LLM : LLM }.

Inductive providers_error := ErrNoProviders | ErrCreateLLM (i : nat) (name : string) (e : factory_error).

Fixpoint create_entries (i : nat) (ps : list ProviderConfig) : result providers_error (list LLMEntry) :=
  match ps with
  | [] => Ok []
  | p :: ps =>
      match CreateModelFromConfig (pc_Config p) with
      | Err e => Err (ErrCreateLLM i (pc_Name p) e)
      | Ok (llm, modelID) =>
          es <-? create_entries (S i) ps;;
          Ok ({| le_Provider := pc_Name p; le_Model := modelID; le_LLM := llm |} :: es)
      end
  end.

(** The entries of the failover model, and the model for summaries, if it is another one. *)
Definition NewProviders (ps : list ProviderConfig) : result providers_error (list LLMEntry * option LLM) :=
  match ps with
  | [] => Err ErrNoProviders
  | _ => es <-? create_entries 0 ps;;
         Ok (es, if (1 <? length es)%nat then le_LLM <$> last es else None)
  end.
End registry.

(** ** Keywords *)

(** The reference: some position carries the keyword, between bytes that are no letters or
    digits when the keyword is short. *)
Definition occurs_at (l kw : bytes) (i : nat) : bool := bool_decide (is_Some (strip_prefix kw (drop i l))).
Definition bounded_at (l kw : bytes) (i : nat) : bool := left_ok l i && right_ok l (i + length kw).
Definition keyword_in (s kw : string) : bool :=
  let ok i := occurs_at (s2l s) (s2l kw) i && ((2 <? str_len kw)%nat || bounded_at (s2l s) (s2l kw) i) in
  existsb ok (seq 0 (S (str_len s))).

Section keywords.

Lemma occurs_at_spec l kw i : occurs_at l kw i = true ↔ ∃ b, drop i l = kw ++ b.
Proof.
  unfold occurs_at. rewrite bool_decide_eq_true. split; intros [b Hb]; exists b; by apply strip_prefix_Some.
Qed.

Lemma index_bytes_Some l kw p :
  index_bytes l kw = Some p → occurs_at l kw p = true ∧ (p ≤ length l)%nat ∧ ∀ j, (j < p)%nat → occurs_at l kw j = false.
Proof.
  revert p. induction l as [|c l IH]; intros p; cbn [index_bytes]; destruct (strip_prefix kw _) as [k|] eqn:Hk; try done.
  1,2: intros [= <-]; (split_and!; [unfold occurs_at; rewrite drop_0, Hk; by apply bool_decide_eq_true|lia|lia]).
  destruct (index_bytes l kw) as [q|]; [|done]. intros [= <-]. destruct (IH q eq_refl) as (Ho & Hle & Hlt).
  split_and!; [exact Ho|simpl; lia|]. intros [|j] Hj; [|apply Hlt; lia].
  unfold occurs_at. rewrite drop_0, Hk. apply bool_decide_eq_false. by intros [? ?].
Qed.

Lemma index_bytes_None l kw : index_bytes l kw = None → ∀ j, (j ≤ length l)%nat → occurs_at l kw j = false.
Proof.
  induction l as [|c l IH]; cbn [index_bytes]; destruct (strip_prefix kw _) as [k|] eqn:Hk; try done;
    intros Hi [|j] Hj; try (simpl in Hj; lia); try (unfold occurs_at; rewrite drop_0, Hk; apply bool_decide_eq_false; by intros [? ?]).
  destruct (index_bytes l kw) eqn:Heq; [done|]. apply (IH eq_refl). simpl in Hj. lia.
Qed.

Lemma occurs_at_drop l kw i j : occurs_at (drop i l) kw j = occurs_at l kw (i + j).
Proof. unfold occurs_at. by rewrite drop_drop. Qed.

(** An occurrence of a text that is not empty leaves room before the end. *)
Lemma occurs_at_lt l kw i : kw ≠ [] → occurs_at l kw i = true → (i < length l)%nat.
Proof.
  intros Hne [b Hb]%occurs_at_spec. apply (f_equal length) in Hb. rewrite length_drop, length_app in Hb.
  destruct kw; [done|]. simpl in Hb. lia.
Qed.

Lemma keyword_loop_spec fuel idx l kw :
  kw ≠ [] → (length l + 2 ≤ fuel + idx)%nat → (idx ≤ length l)%nat →
  (∀ j, (j < idx)%nat → occurs_at l kw j && bounded_at l kw j = false) →
  keyword_loop fuel idx l kw = Some (existsb (λ i, occurs_at l kw i && bounded_at l kw i) (seq 0 (S (length l)))).
Proof.
  intros Hne. revert idx. induction fuel as [|fuel IH]; intros idx Hfuel Hidx Hbefore; [lia|].
  cbn [keyword_loop]. rewrite (proj2 (Nat.ltb_ge _ _)) by lia.
  destruct (index_bytes (drop idx l) kw) as [p|] eqn:Hp.
  - apply index_bytes_Some in Hp as (Ho & Hle & Hlt). rewrite occurs_at_drop, Nat.add_comm in Ho.
    assert (∀ j, (j < p + idx)%nat → occurs_at l kw j && bounded_at l kw j = false) as Hbefore'.
    { intros j Hj. destruct (decide (j < idx)%nat) as [Hlt'|Hge]; [by apply Hbefore|].
      specialize (Hlt (j - idx)%nat ltac:(lia)). rewrite occurs_at_drop in Hlt.
      replace (idx + (j - idx))%nat with j in Hlt by lia. by rewrite Hlt. }
    pose proof (occurs_at_lt _ _ _ Hne Ho) as Hlt2. fold (bounded_at l kw (p + idx)).
    destruct (bounded_at l kw (p + idx)) eqn:Hb.
    + f_equal. symmetry. apply existsb_exists. exists (p + idx)%nat. rewrite Ho, Hb. split; [|done]. apply in_seq. lia.
    + apply IH; [lia|lia|]. intros j Hj. destruct (decide (j = p + idx)%nat) as [->|Hj']; [by rewrite Ho, Hb|]. apply Hbefore'. lia.
  - f_equal. symmetry. apply not_true_iff_false. intros (j & Hj%in_seq & Hok)%existsb_exists.
    destruct (decide (j < idx)%nat) as [Hlt|Hge]; [by rewrite Hbefore in Hok|].
    pose proof (index_bytes_None _ _ Hp (j - idx)%nat) as Hno. rewrite occurs_at_drop, length_drop in Hno.
    replace (idx + (j - idx))%nat with j in Hno by lia. rewrite Hno in Hok by lia. done.
Qed.

(** The search for a keyword always ends, and answers as the reference does: a short
    keyword counts only where the bytes around it are no letters or digits, a longer one
    anywhere.  An empty keyword would make it panic. *)
Lemma contains_keyword_exact s kw : kw ≠ ""%string → ContainsKeyword s kw = Some (keyword_in s kw).
Proof.
  intros Hne. assert (s2l kw ≠ []) as Hne'.
  { intros Hnil. apply Hne. by rewrite <- (l2s_s2l kw), Hnil. }
  unfold ContainsKeyword, keyword_in. destruct (2 <? str_len kw)%nat eqn:Hlen; cbn [orb].
  - f_equal. apply Bool.eq_iff_eq_true. unfold contains. rewrite contains_bytes_spec, existsb_exists. split.
    + intros (a & b & Hab). exists (length a). rewrite andb_true_r, occurs_at_spec. split.
      * apply in_seq. unfold str_len. rewrite Hab, length_app. lia.
      * exists b. rewrite Hab. by rewrite drop_app_length.
    + intros (i & _ & Hi). rewrite andb_true_r in Hi. apply occurs_at_spec in Hi as [b Hb].
      exists (take i (s2l s)), b. by rewrite <- Hb, take_drop.
  - apply keyword_loop_spec; [done|unfold str_len; lia|lia|lia].
Qed.

Example empty_keyword_panics : ContainsKeyword "a" "" = None.
Proof. reflexivity. Qed.
End keywords.

(** ** The registry *)

Section lookups.
Context `{U : UnicodeCase}.

Definition of_specs (l : list ProviderSpec) : Registry := foldl Register NewRegistry l.

(** What a model's name stands for: a keyword of a standard provider. *)
Definition has_keyword (lower : string) (s : ProviderSpec) : bool :=
  negb (ps_IsGateway s) && existsb (keyword_in lower) (ps_Keywords s).

Lemma any_keyword_exact lower kws :
  Forall (λ kw, kw ≠ ""%string) kws → any_keyword lower kws = Some (existsb (keyword_in lower) kws).
Proof.
  induction 1 as [|kw kws Hkw _ IH]; [done|]. cbn [any_keyword existsb]. rewrite contains_keyword_exact by done.
  cbn [mbind option_bind]. by destruct (keyword_in lower kw).
Qed.

Lemma by_keyword_exact lower specs :
  Forall (λ s, Forall (λ kw, kw ≠ ""%string) (ps_Keywords s)) specs →
  by_keyword lower specs = Some (find_first (has_keyword lower) specs).
Proof.
  induction 1 as [|s specs Hs _ IH]; [done|]. cbn [by_keyword find_first]. unfold has_keyword at 1.
  destruct (ps_IsGateway s); [exact IH|]. rewrite any_keyword_exact by done. cbn [mbind option_bind negb andb].
  by destruct (existsb _ _).
Qed.

Lemma of_specs_spec l :
  rg_specs (of_specs l) = l ∧ ∀ name, rg_byName (of_specs l) !! name = last (filter (λ s, ps_Name s = name) l).
Proof.
  unfold of_specs. induction l as [|s l [IH1 IH2]] using rev_ind; [done|]. rewrite foldl_snoc. cbn [Register rg_specs rg_byName].
  split; [by rewrite IH1|]. intros name. rewrite filter_app, filter_cons, filter_nil. case_decide as Hn.
  - subst name. by rewrite lookup_insert_eq, last_snoc.
  - by rewrite lookup_insert_ne, app_nil_r.
Qed.

(** A registry filled in some order answers by that order: it lists what was
    registered; a name means the last specification registered under it; a model means the
    first standard provider that its prefix names, else the first one with a keyword in
    it.  The search never panics when no keyword is empty. *)
Theorem registry_exact l model :
  Forall (λ s, Forall (λ kw, kw ≠ ""%string) (ps_Keywords s)) l →
  let r := of_specs l in
  let lower := to_lower model in
  All r = l
  ∧ (∀ name, FindByName r name = last (filter (λ s, ps_Name s = name) l))
  ∧ FindByModel r model
    = Some match find_first (prefix_matches (provider_prefix lower)) l with
           | Some s => Some s
           | None => find_first (has_keyword lower) l
           end.
Proof.
  intros Hl r lower. destruct (of_specs_spec l) as [Hall Hname]. split; [exact Hall|]. split; [exact Hname|].
  unfold FindByModel, r. rewrite Hall. fold lower. destruct (find_first _ _) as [s|]; [done|]. by apply by_keyword_exact.
Qed.

(** ** The chain of models *)

Definition made (p : ProviderConfig) (e : LLMEntry) : Prop :=
  le_Provider e = pc_Name p ∧ CreateModelFromConfig (pc_Config p) = Ok (le_LLM e, le_Model e).

Lemma create_entries_Ok i ps es : create_entries i ps = Ok es ↔ Forall2 made ps es.
Proof.
  revert i es. induction ps as [|p ps IH]; intros i es; cbn [create_entries].
  - split; [intros [= <-]; constructor|]. by intros ->%Forall2_nil_inv_l.
  - destruct (CreateModelFromConfig (pc_Config p)) as [[llm modelID]|e] eqn:Hc.
    + destruct (create_entries (S i) ps) as [es'|e'] eqn:Hes; cbn.
      * apply IH in Hes. split; [intros [= <-]; by constructor|].
        intros ([p' llm' id'] & es2 & [Hn Hm] & Hes2 & ->)%Forall2_cons_inv_l. cbn in *.
        rewrite Hm in Hc. injection Hc as -> ->. f_equal. f_equal; [by f_equal|].
        apply (IH (S i)) in Hes, Hes2. congruence.
      * split; [done|]. intros (? & es2 & _ & Hes2 & _)%Forall2_cons_inv_l. apply (IH (S i)) in Hes2. congruence.
    + split; [done|]. intros (? & ? & [_ Hm] & _)%Forall2_cons_inv_l. congruence.
Qed.

Lemma create_entries_Err i ps err :
  create_entries i ps = Err err ↔
  ∃ k p e, ps !! k = Some p ∧ CreateModelFromConfig (pc_Config p) = Err e ∧ err = ErrCreateLLM (i + k) (pc_Name p) e
    ∧ Forall (λ p, ∃ r, CreateModelFromConfig (pc_Config p) = Ok r) (take k ps).
Proof.
  revert i. induction ps as [|p ps IH]; intros i; cbn [create_entries].
  { split; [done|]. by intros (? & ? & ? & ? & _). }
  destruct (CreateModelFromConfig (pc_Config p)) as [[llm modelID]|e] eqn:Hc.
  - transitivity (create_entries (S i) ps = Err err); [by destruct (create_entries (S i) ps)|]. rewrite IH. split.
    + intros (k & p' & e & Hk & He & -> & Hok). exists (S k), p', e. split_and!; [done|done|by rewrite Nat.add_succ_r|].
      cbn. constructor; [by eexists|done].
    + intros ([|k] & p' & e & Hk & He & -> & Hok); [cbn in Hk; congruence|].
      exists k, p', e. split_and!; [done|done|by rewrite Nat.add_succ_r|]. cbn in Hok. by inversion Hok.
  - split.
    + intros [= <-]. exists 0%nat, p, e. split_and!; [done|done|by rewrite Nat.add_0_r|constructor].
    + intros ([|k] & p' & e' & Hk & He & -> & Hok); [cbn in Hk; injection Hk as ->; rewrite Hc in He; injection He as ->; by rewrite Nat.add_0_r|].
      cbn in Hok. apply Forall_cons in Hok as [[r Hr] _]. congruence.
Qed.

(** The program's chain of models is all or nothing: it is made exactly when the
    configuration is not empty and every provider of it can be made, in its order and under
    its names, the last one of several being the model for summaries; otherwise the error
    is that of the first provider that cannot be made, with its place. *)
Theorem NewProviders_spec ps :
  (∀ es summary, NewProviders ps = Ok (es, summary) ↔
     ps ≠ [] ∧ Forall2 made ps es ∧ summary = (if (1 <? length ps)%nat then le_LLM <$> last es else None))
  ∧ (∀ i name e, NewProviders ps = Err (ErrCreateLLM i name e) ↔
     ∃ p, ps !! i = Some p ∧ pc_Name p = name ∧ CreateModelFromConfig (pc_Config p) = Err e
       ∧ Forall (λ p, ∃ r, CreateModelFromConfig (pc_Config p) = Ok r) (take i ps)).
Proof.
  assert (∀ es, Forall2 made ps es → length es = length ps) as Hlen by (intros es Hes; symmetry; by eapply Forall2_length).
  destruct ps as [|p ps]; [split; [split; [done|by intros [? _]]|split; [done|by intros (? & ? & _)]]|].
  unfold NewProviders. split.
  - intros es summary. transitivity (∃ es', create_entries 0 (p :: ps) = Ok es'
      ∧ (es', if (1 <? length es')%nat then le_LLM <$> last es' else None) = (es, summary)).
    { destruct (create_entries 0 (p :: ps)) as [es'|e]; cbn; [|by split; [|intros (? & ? & _)]].
      split; [intros [= <- <-]; by eexists|]. by intros (? & [= ->] & [= <- <-]). }
    setoid_rewrite create_entries_Ok. split.
    + intros (es' & Hes & [= <- <-]). split; [done|]. split; [done|]. by rewrite (Hlen _ Hes).
    + intros (_ & Hes & ->). exists es. split; [done|]. by rewrite (Hlen _ Hes).
  - intros i name e. transitivity (create_entries 0 (p :: ps) = Err (ErrCreateLLM i name e)).
    { destruct (create_entries 0 (p :: ps)); cbn; split; congruence. }
    rewrite create_entries_Err. split.
    + intros (k & p' & e' & Hk & He & [= -> -> ->] & Hok). by exists p'.
    + intros (p' & Hi & <- & He & Hok). by exists i, p', e.
Qed.
End lookups.

(** ** Witnesses *)

#[local] Existing Instance bytewise_case.

Lemma registry_exact_witness :
  FindByModel DefaultRegistry "O1-mini" = Some (Some (spec "openai" ["openai"; "gpt"; "o1"; "o3"; "o4"]%string false "https://api.openai.com/v1" "OPENAI_API_KEY"))
  ∧ FindByModel DefaultRegistry "pro1xy" = Some None.
Proof.
  assert (Forall (λ s, Forall (λ kw, kw ≠ ""%string) (ps_Keywords s)) default_specs) as Hne by (repeat constructor; done).
  split.
  - etransitivity; [exact (proj2 (proj2 (registry_exact default_specs "O1-mini" Hne)))|]. vm_compute. reflexivity.
  - etransitivity; [exact (proj2 (proj2 (registry_exact default_specs "pro1xy" Hne)))|]. vm_compute. reflexivity.
Defined.

(** A prefix in front wins over a keyword behind it. *)
Example prefix_first :
  (ps_Name <$> default None (FindByModel DefaultRegistry "openai/claude-like")) = Some "openai"%string.
Proof. vm_compute. reflexivity. Qed.
