(* ===== verification/AgentId.v ===== *)
(** [pkg/routing/agent_id.go]: normalisation of agent and account identifiers.  The
    package's regular expressions are written out as list functions: the class
    [a-z0-9_-] is [id_char], and replacing its maximal runs, or the leading and
    trailing dashes, is a traversal. *)
From S2P Require Import Prelude GoStrings.

Definition DefaultAgentID : string := "main".
Definition DefaultMainKey : string := "main".
Definition DefaultAccountID : string := "default".
Definition MaxAgentIDLength : nat := 64.

Definition id_start (c : ascii) : bool := is_lower_byte c || is_digit_byte c.
Definition id_char (c : ascii) : bool := id_start c || Ascii.eqb c "_" || Ascii.eqb c "-".
Definition is_dash (c : ascii) : bool := Ascii.eqb c "-".

(** [validIDRe]: [^[a-z0-9][a-z0-9_-]{0,63}$]. *)
Definition valid_id (s : string) : bool :=
  match s2l s with
  | [] => false
  | c :: l => id_start c && forallb id_char l && (length l <=? 63)%nat
  end.

(** [invalidCharsRe.ReplaceAllString(s, "-")]; [in_run] says that the run at hand is
    already replaced. *)
Fixpoint collapse_invalid (in_run : bool) (l : bytes) : bytes :=
  match l with
  | [] => []
  | c :: l => if id_char c then c :: collapse_invalid false l
              else if in_run then collapse_invalid true l
              else "-"%char :: collapse_invalid true l
  end.

Section normalize.
Context `{U : UnicodeCase}.

Definition normalizeID (id fallback : string) : string :=
  let trimmed := trim_space id in
  if str_empty trimmed then fallback
  else
    let lower := to_lower trimmed in
    if valid_id lower then lower
    else
      let result := collapse_invalid false (s2l lower) in
      let result := drop_while is_dash result in
      let result := drop_while_end is_dash result in
      let result := if (MaxAgentIDLength <? length result)%nat
                    then take MaxAgentIDLength result else result in
      if bool_decide (result = []) then fallback else l2s result.

Definition NormalizeAgentID (id : string) : string := normalizeID id DefaultAgentID.
Definition NormalizeAccountID (id : string) : string := normalizeID id DefaultAccountID.
End normalize.

(** ** Specification *)

(** What every normalised identifier satisfies: one to 64 characters of the class,
    the first of them not a dash. *)
Definition id_shape (l : bytes) : Prop :=
  (1 ≤ length l ≤ MaxAgentIDLength)%nat ∧ Forall (λ c, id_char c = true) l
  ∧ (∀ c k, l = c :: k → is_dash c = false).

(** ** Lemmas *)

Lemma id_char_solid c : id_char c = true → is_solid_byte c = true.
Proof. by_bytes c. Qed.
Lemma id_char_ascii c : id_char c = true → is_ascii_byte c = true.
Proof. by_bytes c. Qed.
Lemma id_char_lower c : id_char c = true → is_upper_byte c = false.
Proof. by_bytes c. Qed.
Lemma id_char_not_colon c : id_char c = true → c ≠ ":"%char.
Proof. by_bytes c. Qed.
Lemma id_start_not_dash c : id_start c = true → is_dash c = false.
Proof. by_bytes c. Qed.
Lemma id_start_char c : id_start c = true → id_char c = true.
Proof. by_bytes c. Qed.

Lemma collapse_invalid_chars b l : Forall (λ c, id_char c = true) (collapse_invalid b l).
Proof.
  revert b. induction l as [|c l IH]; intros b; simpl; [done|].
  destruct (id_char c) eqn:Hc; [by constructor|]. destruct b; [done|]. by constructor.
Qed.

Lemma forallb_Forall_true {A} (f : A → bool) l : forallb f l = true ↔ Forall (λ x, f x = true) l.
Proof.
  induction l as [|x l IH]; simpl; [done|]. by rewrite andb_true_iff, Forall_cons, IH.
Qed.

Lemma valid_id_shape s : valid_id s = true →
  id_shape (s2l s) ∧ ∃ c l, s2l s = c :: l ∧ id_start c = true.
Proof.
  unfold valid_id. destruct (s2l s) as [|c l]; [done|].
  rewrite !andb_true_iff, forallb_Forall_true, Nat.leb_le. intros [[Hc Hl] Hlen].
  split; [|by eauto]. split; [simpl; unfold MaxAgentIDLength; lia|]. split.
  - constructor; [by apply id_start_char|done].
  - intros ? ? [= <- <-]. by apply id_start_not_dash.
Qed.

Lemma id_shape_valid s c l : id_shape (s2l s) → s2l s = c :: l → id_start c = true → valid_id s = true.
Proof.
  intros (Hlen & Hall & _) Hs Hc. unfold valid_id. rewrite Hs in *.
  apply Forall_cons in Hall as [_ Hall].
  rewrite !andb_true_iff, forallb_Forall_true, Nat.leb_le.
  simpl in Hlen. unfold MaxAgentIDLength in Hlen. split_and!; [done|done|lia].
Qed.

Lemma prefix_head {A} (l k : list A) x y l' k' :
  l `prefix_of` k → l = x :: l' → k = y :: k' → x = y.
Proof. intros [z ->] -> [= <- _]. done. Qed.

Section lemmas.
Context `{U : UnicodeCase}.

(** The cascade after the fast path. *)
Lemma normalize_slow_shape l :
  let r1 := drop_while_end is_dash (drop_while is_dash (collapse_invalid false l)) in
  let r := if (MaxAgentIDLength <? length r1)%nat then take MaxAgentIDLength r1 else r1 in
  r ≠ [] → id_shape r.
Proof.
  intros r1 r Hr.
  assert (r `prefix_of` r1) as Hpre.
  { unfold r. destruct (_ <? _)%nat; [apply prefix_take|done]. }
  assert (Forall (λ c, id_char c = true) r1) as Hall.
  { unfold r1. apply Forall_drop_while_end, Forall_drop_while, collapse_invalid_chars. }
  split_and!.
  - destruct r; [done|]. simpl; lia.
  - unfold r. destruct (Nat.ltb_spec MaxAgentIDLength (length r1)); [|done].
    rewrite length_take. lia.
  - destruct Hpre as [k Hk]. rewrite Hk in Hall. by apply Forall_app in Hall as [? _].
  - intros c k Hc.
    assert (r `prefix_of` drop_while is_dash (collapse_invalid false l)) as Hpre'.
    { etrans; [exact Hpre|]. apply drop_while_end_prefix. }
    destruct (drop_while is_dash (collapse_invalid false l)) as [|c' k'] eqn:Hd.
    { apply prefix_nil_inv in Hpre'. congruence. }
    rewrite (prefix_head _ _ _ _ _ _ Hpre' Hc eq_refl). by eapply drop_while_head.
Qed.

Lemma normalizeID_shape id fallback : valid_id fallback = true → id_shape (s2l (normalizeID id fallback)).
Proof.
  intros Hf. apply valid_id_shape in Hf as [Hf _]. unfold normalizeID.
  destruct (str_empty (trim_space id)); [done|].
  destruct (valid_id (to_lower (trim_space id))) eqn:Hv; [by apply valid_id_shape in Hv as [? _]|].
  case_bool_decide as Hr; [done|]. rewrite s2l_l2s. by apply normalize_slow_shape.
Qed.

Lemma valid_id_fixed s fallback : valid_id s = true → normalizeID s fallback = s.
Proof.
  intros Hv. destruct (valid_id_shape _ Hv) as [(Hlen & Hall & _) _].
  unfold normalizeID.
  rewrite trim_space_id by (eapply Forall_impl; [exact Hall|apply id_char_solid]).
  rewrite to_lower_id.
  - rewrite Hv. unfold str_empty. case_bool_decide as He; [|done].
    rewrite He in Hlen. simpl in Hlen. lia.
  - unfold is_ascii_str. apply forallb_Forall_true.
    eapply Forall_impl; [exact Hall|apply id_char_ascii].
  - eapply Forall_impl; [exact Hall|apply id_char_lower].
Qed.

Lemma NormalizeAgentID_shape id : id_shape (s2l (NormalizeAgentID id)).
Proof. by apply normalizeID_shape. Qed.
Lemma NormalizeAccountID_shape id : id_shape (s2l (NormalizeAccountID id)).
Proof. by apply normalizeID_shape. Qed.
End lemmas.

(** ** Properties *)

(** Every normalised identifier, whatever the input bytes and the Unicode case
    tables, has 1 to 64 characters of [a-z0-9_-] and does not start with a dash; one
    that starts with a letter or digit is valid and normalises to itself.  The
    documented pattern also excludes a leading underscore, which the code keeps. *)
Theorem NormalizeAgentID_sound `{U : UnicodeCase} id :
  let r := NormalizeAgentID id in
  id_shape (s2l r)
  ∧ (∀ c l, s2l r = c :: l → id_start c = true → valid_id r = true ∧ NormalizeAgentID r = r)
  ∧ (∀ s, valid_id s = true → NormalizeAgentID s = s)
  ∧ (NormalizeAgentID "_ops" = "_ops"%string ∧ valid_id "_ops" = false).
Proof.
  intros r. pose proof (NormalizeAgentID_shape id) as Hs. split_and!; [done| | |by vm_compute|done].
  - intros c l Hc Hst. assert (valid_id r = true) as Hv by (by eapply id_shape_valid).
    split; [done|]. by apply valid_id_fixed.
  - intros s Hv. by apply valid_id_fixed.
Qed.
