(* ===== verification/SessionKey.v ===== *)
(** [pkg/routing/session_key.go]: the keys under which conversations are stored.
    The identity-link map is given as the list of its entries in the order [range]
    visits them, which Go leaves unspecified: theorems hold for every order. *)
From S2P Require Import Prelude GoStrings AgentId.

(** [DMScope] with any other text as [DMScopeOther], the unset [""] included. *)
Inductive DMScope :=
| DMScopeMain | DMScopePerPeer | DMScopePerChannelPeer | DMScopePerAccountChannelPeer
| DMScopeOther (s : string).

#[global] Instance DMScope_eq_dec : EqDecision DMScope.
Proof. solve_decision. Defined.

(** [if dmScope == "" { dmScope = DMScopeMain }]. *)
Definition default_scope (s : DMScope) : DMScope :=
  match s with
  | DMScopeOther x => if str_empty x then DMScopeMain else s
  | _ => s
  end.

Record RoutePeer := { peer_Kind : string; peer_ID : string }.

Abbreviation identity_links := (list (string * list string)).

Record SessionKeyParams := {
  sk_AgentID : string; sk_Channel : string; sk_AccountID : string;
  sk_Peer : option RoutePeer; sk_DMScope : DMScope; sk_IdentityLinks : identity_links;
}.

Record ParsedSessionKey := { psk_AgentID : string; psk_Rest : string }.

Section keys.
Context `{U : UnicodeCase}.

Definition BuildAgentMainSessionKey (agentID : string) : string :=
  "agent:" +:+ NormalizeAgentID agentID +:+ ":" +:+ DefaultMainKey.

Definition normalizeChannel (channel : string) : string :=
  let c := trim_space (to_lower channel) in
  if str_empty c then "unknown" else c.

(** The set [candidates] of the code holds these one or two texts. *)
Definition link_candidates (channel peerID : string) : list string :=
  let channel := to_lower (trim_space channel) in
  to_lower peerID :: (if str_empty channel then [] else [channel +:+ ":" +:+ to_lower peerID]).

Definition link_matches (candidates ids : list string) : bool :=
  existsb (λ id, let normalized := to_lower (trim_space id) in
                 negb (str_empty normalized) && bool_decide (normalized ∈ candidates)) ids.

Definition resolveLinkedPeerID (identityLinks : identity_links) (channel peerID : string) : string :=
  if (length identityLinks =? 0)%nat then ""
  else
    let peerID := trim_space peerID in
    if str_empty peerID then ""
    else
      let candidates := link_candidates channel peerID in
      match find_first (λ e, negb (str_empty (trim_space e.1)) && link_matches candidates e.2)
              identityLinks with
      | Some (canonical, _) => trim_space canonical
      | None => ""
      end.

(** The peer identity a direct key is built from: trimmed, merged, lower-cased. *)
Definition direct_peer (params : SessionKeyParams) (peer : RoutePeer) (dmScope : DMScope) : string :=
  let peerID := trim_space (peer_ID peer) in
  let peerID :=
    if negb (bool_decide (dmScope = DMScopeMain)) && negb (str_empty peerID) then
      let linked := resolveLinkedPeerID (sk_IdentityLinks params) (sk_Channel params) peerID in
      if str_empty linked then peerID else linked
    else peerID in
  to_lower peerID.

Definition buildDirectSessionKey (agentID : string) (params : SessionKeyParams) (peer : RoutePeer) : string :=
  let dmScope := default_scope (sk_DMScope params) in
  let peerID := direct_peer params peer dmScope in
  let main := BuildAgentMainSessionKey agentID in
  match dmScope with
  | DMScopePerAccountChannelPeer =>
      if str_empty peerID then main
      else "agent:" +:+ agentID +:+ ":" +:+ normalizeChannel (sk_Channel params) +:+ ":"
             +:+ NormalizeAccountID (sk_AccountID params) +:+ ":direct:" +:+ peerID
  | DMScopePerChannelPeer =>
      if str_empty peerID then main
      else "agent:" +:+ agentID +:+ ":" +:+ normalizeChannel (sk_Channel params) +:+ ":direct:" +:+ peerID
  | DMScopePerPeer =>
      if str_empty peerID then main
      else "agent:" +:+ agentID +:+ ":direct:" +:+ peerID
  | _ => main
  end.

Definition peer_kind (peer : RoutePeer) : string :=
  let k := trim_space (peer_Kind peer) in if str_empty k then "direct" else k.

Definition group_peer (peer : RoutePeer) : string :=
  let p := to_lower (trim_space (peer_ID peer)) in if str_empty p then "unknown" else p.

Definition BuildAgentPeerSessionKey (params : SessionKeyParams) : string :=
  let agentID := NormalizeAgentID (sk_AgentID params) in
  let peer := default {| peer_Kind := "direct"; peer_ID := "" |} (sk_Peer params) in
  let peerKind := peer_kind peer in
  if bool_decide (peerKind = "direct"%string) then buildDirectSessionKey agentID params peer
  else "agent:" +:+ agentID +:+ ":" +:+ normalizeChannel (sk_Channel params) +:+ ":"
         +:+ peerKind +:+ ":" +:+ group_peer peer.

Definition ParseAgentSessionKey (sessionKey : string) : option ParsedSessionKey :=
  let raw := trim_space sessionKey in
  if str_empty raw then None
  else match splitn raw ":" 3 with
       | [a; b; rest] =>
           if negb (bool_decide (a = "agent"%string)) then None
           else
             let agentID := trim_space b in
             if str_empty agentID || str_empty rest then None
             else Some {| psk_AgentID := agentID; psk_Rest := rest |}
       | _ => None
       end.

Definition IsSubagentSessionKey (sessionKey : string) : bool :=
  let raw := trim_space sessionKey in
  if str_empty raw then false
  else if has_prefix (to_lower raw) "subagent:" then true
  else match ParseAgentSessionKey raw with
       | None => false
       | Some parsed => has_prefix (to_lower (psk_Rest parsed)) "subagent:"
       end.
End keys.

(** ** Lemmas *)

Lemma trim_left_solid l c k : l = c :: k → is_solid_byte c = true → trim_left l = l.
Proof.
  intros -> Hc. unfold trim_left. apply trim_with_id. intros c' k' [= <- <-].
  unfold is_solid_byte in Hc. rewrite andb_true_iff, negb_true_iff in Hc. destruct Hc as [? ?].
  eauto using strip_runes_ascii, space_runes_head.
Qed.

(** Trimming the end stops at a solid byte. *)
Lemma trim_with_stops fuel runes l c k :
  Forall head_not_ascii runes → Forall (λ r, Forall (λ c, is_ascii_byte c = false) r) runes →
  is_solid_byte c = true →
  ∃ l', trim_with fuel runes (l ++ c :: k) = l' ++ c :: k.
Proof.
  intros Hr Hr' Hc.
  assert (is_ascii_byte c = true ∧ is_ascii_space c = false) as [Hca Hcs].
  { unfold is_solid_byte in Hc. by rewrite andb_true_iff, negb_true_iff in Hc. }
  revert l. induction fuel as [|fuel IH]; intros l; [by exists l|].
  destruct l as [|d l]; cbn [trim_with app].
  - rewrite Hcs. exists []. replace (first_some _ runes) with (@None bytes); [done|].
    clear -Hr Hca. induction Hr as [|r runes Hr _ IH]; [done|].
    cbn [first_some]. by rewrite strip_prefix_ascii.
  - destruct (is_ascii_space d); [apply IH|].
    destruct (first_some _ runes) as [rest|] eqn:Hf; [|by exists (d :: l)].
    assert (∃ r, r ∈ runes ∧ d :: l ++ c :: k = r ++ rest) as (r & Hin & Hrest).
    { clear -Hf. induction runes as [|r runes IHr]; [done|]. cbn [first_some] in Hf.
      destruct (strip_prefix r _) as [k'|] eqn:Hs.
      - simplify_eq. exists r. split; [by left|]. by apply strip_prefix_Some.
      - destruct (IHr Hf) as (r' & ? & ?). exists r'. split; [by right|done]. }
    eapply Forall_forall in Hr'; [|exact Hin].
    rewrite app_comm_cons in Hrest. apply app_eq_inv in Hrest as [(m & _ & ->)|(m & -> & Hm)]; [apply IH|].
    destruct m as [|e m]; simplify_eq/=; [apply (IH [])|].
    apply Forall_cons in Hr' as [_ Hr']. apply Forall_app in Hr' as [_ Hr'].
    apply Forall_cons in Hr' as [He _]. congruence.
Qed.

Lemma trim_right_keeps l c k :
  is_solid_byte c = true → ∃ k', trim_right (l ++ c :: k) = l ++ c :: k' ∧ k' `prefix_of` k.
Proof.
  intros Hc. unfold trim_right.
  assert (reverse (l ++ c :: k) = reverse k ++ c :: reverse l) as ->.
  { by rewrite reverse_app, reverse_cons, <- app_assoc. }
  destruct (trim_with_stops (length (l ++ c :: k)) (reverse <$> space_runes) (reverse k) c (reverse l))
    as [k' Hk']; [apply space_runes_rev_head|by repeat constructor|done|].
  destruct (trim_with_suffix (length (l ++ c :: k)) (reverse <$> space_runes) (reverse k ++ c :: reverse l))
    as [z Hz].
  rewrite Hk' in *. exists (reverse k'). split.
  - by rewrite reverse_app, reverse_cons, reverse_involutive, <- app_assoc.
  - rewrite app_assoc in Hz. apply app_inv_tail in Hz. exists (reverse z).
    by rewrite <- reverse_app, <- Hz, reverse_involutive.
Qed.

Lemma trim_space_keeps s c0 l0 l c k :
  s2l s = c0 :: l0 → is_solid_byte c0 = true → s2l s = l ++ c :: k → is_solid_byte c = true →
  ∃ k', s2l (trim_space s) = l ++ c :: k' ∧ k' `prefix_of` k.
Proof.
  intros Hs0 Hc0 Hs Hc. unfold trim_space. rewrite s2l_l2s.
  rewrite (trim_left_solid _ _ _ Hs0 Hc0), Hs. by apply trim_right_keeps.
Qed.

Section lemmas.
Context `{U : UnicodeCase}.

Lemma id_no_colon s : Forall (λ c, id_char c = true) (s2l s) → ":"%char ∉ s2l s.
Proof.
  intros H Hin. eapply Forall_forall in H; [|exact Hin]. by apply id_char_not_colon in H.
Qed.
Lemma agent_no_colon id : ":"%char ∉ s2l (NormalizeAgentID id).
Proof. apply id_no_colon. by destruct (NormalizeAgentID_shape id) as (_ & ? & _). Qed.
Lemma account_no_colon id : ":"%char ∉ s2l (NormalizeAccountID id).
Proof. apply id_no_colon. by destruct (NormalizeAccountID_shape id) as (_ & ? & _). Qed.

Lemma NormalizeAgentID_trim id : trim_space (NormalizeAgentID id) = NormalizeAgentID id.
Proof.
  destruct (NormalizeAgentID_shape id) as (_ & H & _).
  apply trim_space_id. eapply Forall_impl; [exact H|apply id_char_solid].
Qed.
Lemma NormalizeAgentID_nonempty id : str_empty (NormalizeAgentID id) = false.
Proof.
  destruct (NormalizeAgentID_shape id) as (H & _). unfold str_empty.
  case_bool_decide as He; [|done]. rewrite He in H. simpl in H. lia.
Qed.

(** A key has the agent as second field; what follows the second colon ends in a
    solid byte or has another colon, so trimming the key cannot empty it. *)
Lemma key_shape params :
  let agent := NormalizeAgentID (sk_AgentID params) in
  NormalizeAgentID agent = agent →
  ∃ rest, s2l (BuildAgentPeerSessionKey params) = s2l "agent:" ++ s2l agent ++ ":"%char :: rest
  ∧ ∃ a c b, rest = a ++ c :: b ∧ is_solid_byte c = true.
Proof.
  intros agent Hid.
  assert (∀ x y, ∃ rest, s2l ("agent:" +:+ agent +:+ ":" +:+ x +:+ ":" +:+ y)
    = s2l "agent:" ++ s2l agent ++ ":"%char :: rest
    ∧ ∃ a c b, rest = a ++ c :: b ∧ is_solid_byte c = true) as Hf.
  { intros x y. exists (s2l x ++ ":"%char :: s2l y). rewrite !s2l_app. split; [done|by eexists _, _, _]. }
  assert (∀ x y, ∃ rest, s2l ("agent:" +:+ agent +:+ ":" +:+ x +:+ ":direct:" +:+ y)
    = s2l "agent:" ++ s2l agent ++ ":"%char :: rest
    ∧ ∃ a c b, rest = a ++ c :: b ∧ is_solid_byte c = true) as Hf'.
  { intros x y. destruct (Hf x ("direct:" +:+ y)) as (rest & Hr & ?). exists rest.
    split; [|done]. rewrite <- Hr. done. }
  assert (∃ rest, s2l (BuildAgentMainSessionKey agent) = s2l "agent:" ++ s2l agent ++ ":"%char :: rest
    ∧ ∃ a c b, rest = a ++ c :: b ∧ is_solid_byte c = true) as Hmain.
  { exists (s2l DefaultMainKey). unfold BuildAgentMainSessionKey. rewrite Hid, !s2l_app.
    split; [done|]. by exists [], "m"%char, (s2l "ain"). }
  unfold BuildAgentPeerSessionKey, buildDirectSessionKey. fold agent.
  repeat case_match; try exact Hmain; try apply Hf; try apply Hf'.
  apply (Hf "direct").
Qed.

(** [splitn] on a key: three fields when the first two have no colon. *)
Lemma splitn_key a rest :
  ":"%char ∉ s2l a →
  splitn (l2s (s2l "agent:" ++ s2l a ++ ":"%char :: rest)) ":" 3 = ["agent"%string; a; l2s rest].
Proof.
  intros Ha. unfold splitn. rewrite s2l_l2s.
  change (s2l "agent:" ++ s2l a ++ ":"%char :: rest)
    with (s2l "agent" ++ ":"%char :: (s2l a ++ ":"%char :: rest)).
  cbn [splitn_bytes]. rewrite cut_bytes_app by set_solver. rewrite cut_bytes_app by done.
  cbn [fmap list_fmap]. by rewrite !l2s_s2l.
Qed.

Lemma parse_built agent rest k :
  let a := NormalizeAgentID agent in
  s2l (trim_space k) = s2l "agent:" ++ s2l a ++ ":"%char :: rest → rest ≠ [] →
  ParseAgentSessionKey k = Some {| psk_AgentID := a; psk_Rest := l2s rest |}.
Proof.
  intros a Hk Hrest. unfold ParseAgentSessionKey.
  rewrite <- (l2s_s2l (trim_space k)), Hk. rewrite splitn_key by apply agent_no_colon.
  unfold a. rewrite NormalizeAgentID_trim, NormalizeAgentID_nonempty.
  replace (str_empty (l2s (s2l "agent:" ++ _))) with false by done.
  replace (str_empty (l2s rest)) with false; [done|].
  destruct rest; [done|]. done.
Qed.

Lemma default_peer_direct params peer :
  sk_Peer params = Some peer → peer_kind peer = "direct"%string →
  BuildAgentPeerSessionKey params
  = buildDirectSessionKey (NormalizeAgentID (sk_AgentID params)) params peer.
Proof.
  intros Hp Hk. unfold BuildAgentPeerSessionKey. rewrite Hp. simpl. by rewrite Hk, bool_decide_true.
Qed.
End lemmas.

(** ** Properties *)

(** Round trip.  Parsing a built key, for any peer, scope and links, gives back
    the normalised agent, and the rest is the trimmed key after the second colon:
    no choice of channel, account or peer text can change the agent that owns the
    session.  (The hypothesis excludes only identifiers with a leading underscore that
    truncation leaves ending in a dash.) *)
Theorem session_key_roundtrip `{U : UnicodeCase} params :
  let agent := NormalizeAgentID (sk_AgentID params) in
  NormalizeAgentID agent = agent →
  ∃ rest, trim_space (BuildAgentPeerSessionKey params) = "agent:" +:+ agent +:+ ":" +:+ rest
  ∧ ParseAgentSessionKey (BuildAgentPeerSessionKey params)
    = Some {| psk_AgentID := agent; psk_Rest := rest |}.
Proof.
  intros agent Hid. destruct (key_shape params Hid) as (rest & Hk & a & c & b & -> & Hc).
  fold agent in Hk.
  set (pre := s2l "agent:" ++ s2l agent ++ ":"%char :: a).
  assert (s2l (BuildAgentPeerSessionKey params) = pre ++ c :: b) as Hk'.
  { rewrite Hk. unfold pre. by rewrite <- !app_assoc. }
  destruct (trim_space_keeps (BuildAgentPeerSessionKey params) "a" (tail (pre ++ c :: b)) pre c b)
    as (k' & Ht & _); [by rewrite Hk'|done|done|done|].
  exists (l2s (a ++ c :: k')). split.
  - apply (inj s2l). rewrite Ht, !s2l_app, s2l_l2s. unfold pre. by rewrite <- !app_assoc.
  - apply parse_built; [|by destruct a]. rewrite Ht. unfold pre. by rewrite <- !app_assoc.
Qed.

Lemma session_key_roundtrip_witness :
  let params := {| sk_AgentID := "Sales Bot"; sk_Channel := "telegram"; sk_AccountID := "";
    sk_Peer := Some {| peer_Kind := "group"; peer_ID := "-100:7" |}; sk_DMScope := DMScopeMain;
    sk_IdentityLinks := [] |} in
  ∃ rest, trim_space (BuildAgentPeerSessionKey (U := bytewise_case) params) = "agent:sales-bot:" +:+ rest
  ∧ ParseAgentSessionKey (BuildAgentPeerSessionKey (U := bytewise_case) params)
    = Some {| psk_AgentID := "sales-bot"; psk_Rest := rest |}.
Proof.
  refine (session_key_roundtrip (U := bytewise_case) {| sk_AgentID := "Sales Bot"; sk_Channel := "telegram";
    sk_AccountID := ""; sk_Peer := Some {| peer_Kind := "group"; peer_ID := "-100:7" |};
    sk_DMScope := DMScopeMain; sk_IdentityLinks := [] |} _).
  by vm_compute.
Defined.

(** Isolation.  In the finest scope, two direct conversations with non-empty
    peers share a key only if agent, channel, account and peer agree after
    normalisation, provided the channel names have no colon; in the main scope every
    direct conversation of an agent, whatever its peer, has the agent's main key. *)
Theorem direct_key_isolation `{U : UnicodeCase} p1 p2 peer1 peer2 :
  sk_Peer p1 = Some peer1 → peer_kind peer1 = "direct"%string →
  sk_Peer p2 = Some peer2 → peer_kind peer2 = "direct"%string →
  (sk_DMScope p1 = DMScopePerAccountChannelPeer → sk_DMScope p2 = DMScopePerAccountChannelPeer →
   ":"%char ∉ s2l (normalizeChannel (sk_Channel p1)) →
   ":"%char ∉ s2l (normalizeChannel (sk_Channel p2)) →
   str_empty (direct_peer p1 peer1 DMScopePerAccountChannelPeer) = false →
   str_empty (direct_peer p2 peer2 DMScopePerAccountChannelPeer) = false →
   BuildAgentPeerSessionKey p1 = BuildAgentPeerSessionKey p2 →
   NormalizeAgentID (sk_AgentID p1) = NormalizeAgentID (sk_AgentID p2)
   ∧ normalizeChannel (sk_Channel p1) = normalizeChannel (sk_Channel p2)
   ∧ NormalizeAccountID (sk_AccountID p1) = NormalizeAccountID (sk_AccountID p2)
   ∧ direct_peer p1 peer1 DMScopePerAccountChannelPeer = direct_peer p2 peer2 DMScopePerAccountChannelPeer)
  ∧ (default_scope (sk_DMScope p1) = DMScopeMain →
     BuildAgentPeerSessionKey p1 = BuildAgentMainSessionKey (NormalizeAgentID (sk_AgentID p1))).
Proof.
  intros Hp1 Hk1 Hp2 Hk2. rewrite (default_peer_direct p1 peer1), (default_peer_direct p2 peer2) by done.
  unfold buildDirectSessionKey. split.
  - intros Hs1 Hs2 Hc1 Hc2 He1 He2. rewrite Hs1, Hs2. cbn [default_scope]. rewrite He1, He2.
    intros H. apply (f_equal s2l) in H. rewrite !s2l_app in H.
    apply app_inv_head in H. cbn [s2l list_ascii_of_string app] in H.
    apply sep_field_inj in H as [Ha H]; [|apply agent_no_colon..].
    apply sep_field_inj in H as [Hb H]; [|done..].
    apply sep_field_inj in H as [Hc H]; [|apply account_no_colon..].
    apply (inj s2l) in Ha, Hb, Hc. split_and!; try done.
    apply (app_inv_head (s2l "direct:")) in H. by apply (inj s2l).
  - by intros ->.
Qed.

Lemma direct_key_isolation_witness :
  let p := {| sk_AgentID := "main"; sk_Channel := "telegram"; sk_AccountID := "";
    sk_Peer := Some {| peer_Kind := ""; peer_ID := "42" |}; sk_DMScope := DMScopeOther "";
    sk_IdentityLinks := [] |} in
  BuildAgentPeerSessionKey (U := bytewise_case) p = "agent:main:main"%string.
Proof.
  pose (p := {| sk_AgentID := "main"; sk_Channel := "telegram"; sk_AccountID := "";
    sk_Peer := Some {| peer_Kind := ""; peer_ID := "42" |}; sk_DMScope := DMScopeOther "";
    sk_IdentityLinks := [] |}).
  refine (eq_trans (proj2 (direct_key_isolation (U := bytewise_case) p p
    {| peer_Kind := ""; peer_ID := "42" |} {| peer_Kind := ""; peer_ID := "42" |} _ _ _ _) _) _);
    by vm_compute.
Defined.
