(* ===== verification/Route.v ===== *)
(** [pkg/routing/route.go]: which agent an inbound message goes to.  A pointer to a
    route or peer is an option; the [find*] loops return the first match. *)
From S2P Require Import Prelude GoStrings Types AgentId SessionKey.

Record RouteInput := {
  ri_Channel : string; ri_AccountID : string; ri_Peer : option RoutePeer;
  ri_ParentPeer : option RoutePeer; ri_GuildID : string; ri_TeamID : string;
}.

Record ResolvedRoute := {
  rr_AgentID : string; rr_Channel : string; rr_AccountID : string;
  rr_SessionKey : string; rr_MainSessionKey : string; rr_MatchedBy : string;
}.

Record RouteConfig := {
  rc_Agents : list AgentDefinition; rc_DMScope : DMScope; rc_IdentityLinks : identity_links;
}.

Section route.
Context `{U : UnicodeCase}.

Definition matchesAccountID (matchAccountID actual : string) : bool :=
  let trimmed := trim_space matchAccountID in
  if str_empty trimmed then bool_decide (actual = DefaultAccountID)
  else if bool_decide (trimmed = "*"%string) then true
  else bool_decide (to_lower trimmed = to_lower actual).

(** The test of [collectRoutes]; the channel of the input is already normalised. *)
Definition route_applies (channel accountID : string) (route : AgentRoute) : bool :=
  let matchCh := to_lower (trim_space (route_Channel route)) in
  negb (str_empty matchCh || negb (bool_decide (matchCh = channel)))
  && matchesAccountID (route_AccountID route) accountID.

Definition collectRoutes (cfg : RouteConfig) (channel accountID : string) : list AgentRoute :=
  filter (λ r, route_applies channel accountID r = true)
    (flat_map (λ a, route_with_agent (def_ID a) <$> def_Routes a) (rc_Agents cfg)).

Definition peer_match (peer : RoutePeer) (r : AgentRoute) : bool :=
  match route_Peer r with
  | None => false
  | Some p =>
      let peerKind := to_lower (trim_space (pm_Kind p)) in
      let peerID := trim_space (pm_ID p) in
      negb (str_empty peerKind || str_empty peerID)
      && bool_decide (peerKind = to_lower (peer_Kind peer)) && bool_decide (peerID = peer_ID peer)
  end.

Definition guild_match (guildID : string) (r : AgentRoute) : bool :=
  let mg := trim_space (route_GuildID r) in
  negb (str_empty mg) && bool_decide (mg = guildID).

Definition team_match (teamID : string) (r : AgentRoute) : bool :=
  let mt := trim_space (route_TeamID r) in
  negb (str_empty mt) && bool_decide (mt = teamID).

Definition is_wildcard (r : AgentRoute) : bool := bool_decide (trim_space (route_AccountID r) = "*"%string).
Definition is_specific (r : AgentRoute) : bool :=
  match route_Peer r with Some _ => true | None => false end
  || negb (str_empty (route_GuildID r)) || negb (str_empty (route_TeamID r)).

Definition account_match (r : AgentRoute) : bool := negb (is_wildcard r) && negb (is_specific r).
Definition wildcard_match (r : AgentRoute) : bool := is_wildcard r && negb (is_specific r).

Definition findPeerMatch (routes : list AgentRoute) (peer : RoutePeer) := find_first (peer_match peer) routes.
Definition findGuildMatch (routes : list AgentRoute) (guildID : string) := find_first (guild_match guildID) routes.
Definition findTeamMatch (routes : list AgentRoute) (teamID : string) := find_first (team_match teamID) routes.
Definition findAccountMatch (routes : list AgentRoute) := find_first account_match routes.
Definition findChannelWildcard (routes : list AgentRoute) := find_first wildcard_match routes.

Definition resolveDefaultAgentID (cfg : RouteConfig) : string :=
  match rc_Agents cfg with
  | [] => DefaultAgentID
  | a0 :: _ =>
      match find_first (λ a, def_IsDefault a && negb (str_empty (trim_space (def_ID a)))) (rc_Agents cfg) with
      | Some a => NormalizeAgentID (trim_space (def_ID a))
      | None => let id := trim_space (def_ID a0) in
                if str_empty id then DefaultAgentID else NormalizeAgentID id
      end
  end.

Definition pickAgentID (cfg : RouteConfig) (agentID : string) : string :=
  let trimmed := trim_space agentID in
  if str_empty trimmed then NormalizeAgentID (resolveDefaultAgentID cfg)
  else
    let normalized := NormalizeAgentID trimmed in
    match rc_Agents cfg with
    | [] => normalized
    | agents =>
        if existsb (λ a, bool_decide (NormalizeAgentID (def_ID a) = normalized)) agents
        then normalized
        else NormalizeAgentID (resolveDefaultAgentID cfg)
    end.

(** The closure [choose] of [ResolveRoute]. *)
Definition choose (cfg : RouteConfig) (channel accountID : string) (peer : option RoutePeer)
    (agentID matchedBy : string) : ResolvedRoute :=
  let resolved := pickAgentID cfg agentID in
  {| rr_AgentID := resolved; rr_Channel := channel; rr_AccountID := accountID;
     rr_SessionKey := to_lower (BuildAgentPeerSessionKey
       {| sk_AgentID := resolved; sk_Channel := channel; sk_AccountID := accountID; sk_Peer := peer;
          sk_DMScope := default_scope (rc_DMScope cfg); sk_IdentityLinks := rc_IdentityLinks cfg |});
     rr_MainSessionKey := to_lower (BuildAgentMainSessionKey resolved);
     rr_MatchedBy := matchedBy |}.

(** A peer takes part when its trimmed ID is not empty. *)
Definition usable_peer (p : option RoutePeer) : option RoutePeer :=
  match p with
  | Some peer => if str_empty (trim_space (peer_ID peer)) then None else Some peer
  | None => None
  end.
Definition usable_text (s : string) : option string :=
  let t := trim_space s in if str_empty t then None else Some t.

Definition ResolveRoute (cfg : RouteConfig) (input : RouteInput) : ResolvedRoute :=
  let channel := to_lower (trim_space (ri_Channel input)) in
  let accountID := NormalizeAccountID (ri_AccountID input) in
  let peer := ri_Peer input in
  let routes := collectRoutes cfg channel accountID in
  let choose := choose cfg channel accountID peer in
  match peer ← usable_peer peer; findPeerMatch routes peer with
  | Some m => choose (route_AgentID m) "binding.peer"
  | None =>
  match pp ← usable_peer (ri_ParentPeer input); findPeerMatch routes pp with
  | Some m => choose (route_AgentID m) "binding.peer.parent"
  | None =>
  match gid ← usable_text (ri_GuildID input); findGuildMatch routes gid with
  | Some m => choose (route_AgentID m) "binding.guild"
  | None =>
  match tid ← usable_text (ri_TeamID input); findTeamMatch routes tid with
  | Some m => choose (route_AgentID m) "binding.team"
  | None =>
  match findAccountMatch routes with
  | Some m => choose (route_AgentID m) "binding.account"
  | None =>
  match findChannelWildcard routes with
  | Some m => choose (route_AgentID m) "binding.channel"
  | None => choose (resolveDefaultAgentID cfg) "default"
  end end end end end end.

(** ** Specification *)

(** The six binding tiers, strongest first: name and test. *)
Definition tiers (input : RouteInput) : list (string * (AgentRoute → bool)) :=
  [ ("binding.peer"%string, λ r, match usable_peer (ri_Peer input) with Some p => peer_match p r | None => false end);
    ("binding.peer.parent"%string,
      λ r, match usable_peer (ri_ParentPeer input) with Some p => peer_match p r | None => false end);
    ("binding.guild"%string, λ r, match usable_text (ri_GuildID input) with Some g => guild_match g r | None => false end);
    ("binding.team"%string, λ r, match usable_text (ri_TeamID input) with Some t => team_match t r | None => false end);
    ("binding.account"%string, account_match);
    ("binding.channel"%string, wildcard_match) ].

(** A configured route of an agent that concerns the channel and account at hand. *)
Definition candidate_route (cfg : RouteConfig) (input : RouteInput) (a : AgentDefinition) (r : AgentRoute) : Prop :=
  a ∈ rc_Agents cfg ∧ r ∈ def_Routes a ∧
  route_applies (to_lower (trim_space (ri_Channel input))) (NormalizeAccountID (ri_AccountID input)) r = true.

(** The tier at index [i] selects the configured route [r] of agent [a]. *)
Definition selects (cfg : RouteConfig) (input : RouteInput) (i : nat) (name : string)
    (a : AgentDefinition) (r : AgentRoute) : Prop :=
  ∃ test, tiers input !! i = Some (name, test) ∧ candidate_route cfg input a r ∧ test r = true.

(** ** Lemmas *)

Lemma collectRoutes_elem cfg channel account m :
  m ∈ collectRoutes cfg channel account ↔
  ∃ a r, a ∈ rc_Agents cfg ∧ r ∈ def_Routes a ∧ m = route_with_agent (def_ID a) r
         ∧ route_applies channel account r = true.
Proof.
  unfold collectRoutes. rewrite list_elem_of_filter, list_elem_of_In, in_flat_map.
  split.
  - intros [Ha (a & Hin & Hm)]. rewrite <- !list_elem_of_In in *.
    apply list_elem_of_fmap in Hm as (r & -> & Hr). exists a, r. done.
  - intros (a & r & Hin & Hr & -> & Ha). split; [done|]. exists a.
    rewrite <- !list_elem_of_In. split; [done|]. apply list_elem_of_fmap. eauto.
Qed.

(** The tests look only at fields that [route_with_agent] keeps. *)
Lemma tiers_agent input i name test id r :
  tiers input !! i = Some (name, test) → test (route_with_agent id r) = test r.
Proof. do 6 (destruct i as [|i]; simpl; [intros; by simplify_eq|]). done. Qed.

Lemma resolve_as_tiers cfg input :
  let channel := to_lower (trim_space (ri_Channel input)) in
  let accountID := NormalizeAccountID (ri_AccountID input) in
  let routes := collectRoutes cfg channel accountID in
  ResolveRoute cfg input
  = match first_some (λ t, (λ m, (t.1, m)) <$> find_first t.2 routes) (tiers input) with
    | Some (name, m) => choose cfg channel accountID (ri_Peer input) (route_AgentID m) name
    | None => choose cfg channel accountID (ri_Peer input) (resolveDefaultAgentID cfg) "default"
    end.
Proof.
  intros channel accountID routes. unfold ResolveRoute, tiers. fold channel accountID. fold routes.
  assert (∀ l, find_first (λ _ : AgentRoute, false) l = None) as Hf by (induction l; done).
  cbn [first_some fst snd].
  destruct (usable_peer (ri_Peer input)), (usable_peer (ri_ParentPeer input)),
    (usable_text (ri_GuildID input)), (usable_text (ri_TeamID input)); cbn [mbind option_bind];
    unfold findPeerMatch, findGuildMatch, findTeamMatch, findAccountMatch, findChannelWildcard;
    rewrite ?Hf; cbn [fmap option_fmap option_map];
    repeat case_match; simplify_eq/=; done.
Qed.

Lemma first_some_Some {A B} (f : A → option B) l y :
  first_some f l = Some y ↔
  ∃ i x, l !! i = Some x ∧ f x = Some y ∧ ∀ j x', (j < i)%nat → l !! j = Some x' → f x' = None.
Proof.
  split.
  - revert y. induction l as [|x l IH]; intros y; simpl; [done|].
    destruct (f x) as [z|] eqn:Hx; intros H; simplify_eq.
    + exists 0%nat, x. split_and!; [done..|]. lia.
    + destruct (IH _ H) as (i & x' & ? & ? & Hlt). exists (S i), x'. split_and!; [done..|].
      intros [|j] x'' Hj Hl; simplify_eq/=; [done|]. eapply Hlt; [|done]. lia.
  - intros (i & x & Hi & Hx & Hlt). revert i Hi Hlt.
    induction l as [|z l IH]; intros [|i] Hi Hlt; simplify_eq/=; [by rewrite Hx|].
    rewrite (Hlt 0%nat z ltac:(lia) eq_refl). apply (IH i Hi).
    intros j x' Hj Hl. apply (Hlt (S j) x'); [lia|done].
Qed.

Lemma first_some_None {A B} (f : A → option B) l :
  first_some f l = None ↔ ∀ x, x ∈ l → f x = None.
Proof.
  induction l as [|x l IH]; simpl.
  - split; [|done]. intros _ x Hx. by apply not_elem_of_nil in Hx.
  - destruct (f x) as [y|] eqn:Hx.
    + split; [done|]. intros H. specialize (H x). rewrite Hx in H.
      specialize (H ltac:(set_solver)). done.
    + rewrite IH. split; intros H z Hz; [|apply H; set_solver].
      assert (z = x ∨ z ∈ l) as [->|?] by set_solver; [done|by apply H].
Qed.

Lemma NormalizeAgentID_trimmed id : NormalizeAgentID (trim_space id) = NormalizeAgentID id.
Proof. unfold NormalizeAgentID, normalizeID. by rewrite trim_space_idem. Qed.

(** Identifiers that normalising once more does not change. *)
Definition stable_id (id : string) : Prop :=
  NormalizeAgentID (NormalizeAgentID id) = NormalizeAgentID id.

Definition usable_agents (cfg : RouteConfig) : Prop :=
  Forall (λ a, str_empty (trim_space (def_ID a)) = false ∧ stable_id (def_ID a)) (rc_Agents cfg).

Lemma default_agent_configured cfg :
  rc_Agents cfg ≠ [] → usable_agents cfg →
  ∃ a, a ∈ rc_Agents cfg ∧ NormalizeAgentID (resolveDefaultAgentID cfg) = NormalizeAgentID (def_ID a).
Proof.
  unfold resolveDefaultAgentID, usable_agents. destruct (rc_Agents cfg) as [|a0 agents]; [done|].
  intros _ Hu. destruct (find_first _ _) as [a|] eqn:Hf.
  - apply find_first_elem in Hf as [Ha _]. exists a. split; [done|].
    eapply Forall_forall in Hu as [_ Hst]; [|exact Ha]. by rewrite NormalizeAgentID_trimmed.
  - apply Forall_cons in Hu as [[He Hst] _]. exists a0. split; [set_solver|].
    by rewrite He, NormalizeAgentID_trimmed.
Qed.

Lemma pick_configured cfg id :
  rc_Agents cfg ≠ [] → usable_agents cfg →
  ∃ a, a ∈ rc_Agents cfg ∧ pickAgentID cfg id = NormalizeAgentID (def_ID a).
Proof.
  intros Hne Hu. pose proof (default_agent_configured cfg Hne Hu) as Hd. unfold pickAgentID.
  destruct (str_empty (trim_space id)); [done|].
  destruct (rc_Agents cfg) as [|a0 agents] eqn:Hag; [done|].
  destruct (existsb _ _) eqn:Hex; [|done].
  apply existsb_exists in Hex as (a & Ha & Hn). apply bool_decide_eq_true in Hn.
  exists a. split; [by apply list_elem_of_In|done].
Qed.

Lemma pick_of_agent cfg a :
  a ∈ rc_Agents cfg → str_empty (trim_space (def_ID a)) = false →
  pickAgentID cfg (def_ID a) = NormalizeAgentID (def_ID a).
Proof.
  intros Ha He. unfold pickAgentID. rewrite He, NormalizeAgentID_trimmed.
  destruct (rc_Agents cfg) as [|a0 agents] eqn:Hag; [done|].
  replace (existsb _ _) with true; [done|]. symmetry. apply existsb_exists.
  exists a. split; [by apply list_elem_of_In|by apply bool_decide_eq_true].
Qed.
End route.

(** ** Properties *)

(** C12: The priority cascade.  The route resolver answers with the strongest tier in
    which any configured route concerning this channel and account matches: peer, then
    parent peer, guild, team, account, channel wildcard.  It names that tier, picks the
    agent owning such a route, and falls back to the default agent exactly when no
    tier selects a route. *)
Theorem ResolveRoute_priority `{U : UnicodeCase} cfg input :
  let r := ResolveRoute cfg input in
  (∃ i a route, selects cfg input i (rr_MatchedBy r) a route
     ∧ rr_AgentID r = pickAgentID cfg (def_ID a)
     ∧ ∀ j name b route', (j < i)%nat → ¬ selects cfg input j name b route')
  ∨ (rr_MatchedBy r = "default"%string ∧ rr_AgentID r = pickAgentID cfg (resolveDefaultAgentID cfg)
     ∧ ∀ j name b route', ¬ selects cfg input j name b route').
Proof.
  intros r. unfold r. rewrite resolve_as_tiers.
  set (routes := collectRoutes _ _ _).
  assert (∀ t b route', find_first t.2 routes = None → t ∈ tiers input →
    candidate_route cfg input b route' → t.2 route' = true → False) as Hnone.
  { intros [name test] b route' Hf Ht (Hb & Hr & Happ) Htest. apply list_elem_of_lookup in Ht as [j Hj].
    apply find_first_None in Hf.
    eapply (Forall_forall _ _) in Hf; [|apply collectRoutes_elem; by eexists b, route'].
    cbv beta in Hf. rewrite (tiers_agent _ _ _ _ _ _ Hj) in Hf. simpl in *. congruence. }
  destruct (first_some _ _) as [[name m]|] eqn:Hf.
  - left. apply first_some_Some in Hf as (i & [name' test] & Hi & Hm & Hlt). simpl in Hm.
    destruct (find_first test routes) as [m'|] eqn:Hfind; [|done]. simplify_eq/=.
    apply find_first_elem in Hfind as [Hin Htest].
    apply collectRoutes_elem in Hin as (a & route & Ha & Hr & -> & Happ).
    exists i, a, route. rewrite (tiers_agent _ _ _ _ _ _ Hi) in Htest.
    split_and!; [by exists test|done|].
    intros j name' b route' Hj (test' & Hj' & Hc & Ht').
    specialize (Hlt j (name', test') Hj Hj'). simpl in Hlt.
    eapply (Hnone (name', test')); [|by eapply list_elem_of_lookup_2|exact Hc|done].
    simpl. by destruct (find_first test' routes).
  - right. rewrite first_some_None in Hf. split_and!; [done..|].
    intros j name b route' (test' & Hj' & Hc & Ht').
    assert ((name, test') ∈ tiers input) as Hin by (by eapply list_elem_of_lookup_2).
    specialize (Hf _ Hin). simpl in Hf.
    eapply (Hnone (name, test')); [|exact Hin|exact Hc|done].
    simpl. by destruct (find_first test' routes).
Qed.

(** The resolved agent exists.  When agents are configured (with usable
    identifiers), the resolver always answers with the normalised identifier of one of
    them; with none configured, a message without bindings goes to the agent "main".
    The session keys it returns contain no capital ASCII letter. *)
Theorem ResolveRoute_configured `{U : UnicodeCase} cfg input :
  let r := ResolveRoute cfg input in
  (rc_Agents cfg ≠ [] → usable_agents cfg →
     ∃ a, a ∈ rc_Agents cfg ∧ rr_AgentID r = NormalizeAgentID (def_ID a))
  ∧ (rc_Agents cfg = [] → rr_AgentID r = DefaultAgentID)
  ∧ Forall (λ c, is_upper_byte c = false) (s2l (rr_SessionKey r))
  ∧ Forall (λ c, is_upper_byte c = false) (s2l (rr_MainSessionKey r)).
Proof.
  intros r. unfold r. rewrite resolve_as_tiers.
  destruct (first_some _ _) as [[name m]|] eqn:Hf; cbn [choose rr_AgentID rr_SessionKey rr_MainSessionKey];
    (split_and!; [intros; by apply pick_configured| |apply to_lower_no_upper..]).
  - intros Hnil. apply first_some_Some in Hf as (i & t & _ & Hm & _).
    destruct (find_first _ _) as [m'|] eqn:Hfind; [|done].
    apply find_first_elem in Hfind as [Hin _]. apply collectRoutes_elem in Hin as (a & _ & Ha & _).
    rewrite Hnil in Ha. by apply not_elem_of_nil in Ha.
  - intros Hnil. unfold pickAgentID, resolveDefaultAgentID. rewrite Hnil. by vm_compute.
Qed.

Lemma ResolveRoute_configured_witness :
  let cfg := {| rc_Agents := [{| def_ID := "Support"; def_Name := ""; def_Description := "";
    def_Model := ""; def_IsDefault := false; def_Routes := [] |}];
    rc_DMScope := DMScopeMain; rc_IdentityLinks := [] |} in
  let input := {| ri_Channel := "telegram"; ri_AccountID := ""; ri_Peer := None; ri_ParentPeer := None;
    ri_GuildID := ""; ri_TeamID := "" |} in
  rr_AgentID (ResolveRoute (U := bytewise_case) cfg input) = "support"%string.
Proof.
  intros cfg input.
  destruct (proj1 (ResolveRoute_configured (U := bytewise_case) cfg input)) as (a & Ha & ->).
  - done.
  - repeat constructor; by vm_compute.
  - apply list_elem_of_singleton in Ha as ->. by vm_compute.
Defined.
