(* ===== verification/AgentRegistry.v ===== *)
(** [pkg/agent/registry.go]: the registry that maps an inbound message to the agent
    that handles it.  The Go map [agents] is a [gmap]; where the code ranges over it,
    the iteration order, which Go leaves open, is an argument [order] that lists the
    domain of the map.  Every operation holds the registry's mutex from start to
    end, so a history is a list of operations. *)
From S2P Require Import Prelude GoStrings Types.

Section registry.
(** The runner ([*runner.Runner]) and the agent of the ADK are not looked into. *)
Context {Runner : Type}.

Record AgentEntry := { ent_ID : string; ent_Runner : Runner; ent_Config : AgentDefinition }.

Record AgentRegistry := { ar_agents : gmap string AgentEntry; ar_routes : list AgentRoute }.

Definition NewAgentRegistry : AgentRegistry := {| ar_agents := ∅; ar_routes := [] |}.

Definition Register (entry : AgentEntry) (r : AgentRegistry) : AgentRegistry :=
  {| ar_agents := <[ent_ID entry := entry]> (ar_agents r);
     ar_routes := ar_routes r ++ (route_with_agent (ent_ID entry) <$> def_Routes (ent_Config entry)) |}.

Definition Unregister (agentID : string) (r : AgentRegistry) : AgentRegistry :=
  {| ar_agents := delete agentID (ar_agents r);
     ar_routes := filter (λ route, route_AgentID route ≠ agentID) (ar_routes r) |}.

Definition GetRunner (r : AgentRegistry) (agentID : string) : option Runner :=
  ent_Runner <$> ar_agents r !! agentID.

Definition GetEntry (r : AgentRegistry) (agentID : string) : option AgentEntry := ar_agents r !! agentID.

Definition MatchScore (route : AgentRoute) (msg : InboundMessage) : Z :=
  if negb (str_empty (route_Channel route)) && negb (bool_decide (route_Channel route = in_Channel msg))
  then -1
  else
    let score := if bool_decide (route_Channel route = in_Channel msg) && negb (str_empty (route_Channel route))
                 then 1 else 0 in
    if negb (str_empty (route_ChatID route)) then
      if negb (bool_decide (route_ChatID route = in_ChatID msg)) then -1 else 2
    else score.

(** The loop over the routes with its two variables. *)
Fixpoint best_loop (msg : InboundMessage) (routes : list AgentRoute)
    (bestRoute : option AgentRoute) (bestScore : Z) : option AgentRoute :=
  match routes with
  | [] => bestRoute
  | route :: routes =>
      let score := MatchScore route msg in
      if bestScore <? score then best_loop msg routes (Some route) score
      else best_loop msg routes bestRoute bestScore
  end.

(** [for _, e := range r.agents { if e.Config.IsDefault { return e } }]. *)
Definition find_default (r : AgentRegistry) (order : list string) : option AgentEntry :=
  find_first (λ e, def_IsDefault (ent_Config e)) (omap (λ id, ar_agents r !! id) order).

Definition GetDefaultAgent (r : AgentRegistry) (order order2 : list string) : option AgentEntry :=
  match find_default r order with
  | Some e => Some e
  | None => head (omap (λ id, ar_agents r !! id) order2)
  end.

Definition ResolveRoute (r : AgentRegistry) (order order2 : list string) (msg : InboundMessage) : string :=
  match best_loop msg (ar_routes r) None (-1) with
  | Some route => route_AgentID route
  | None =>
      match find_default r order with
      | Some e => ent_ID e
      | None => match order2 with id :: _ => id | [] => "" end
      end
  end.

Definition ListAgents (r : AgentRegistry) (order : list string) : list string := order.

Inductive registry_op := RRegister (e : AgentEntry) | RUnregister (id : string).

Definition registry_step (r : AgentRegistry) (o : registry_op) : AgentRegistry :=
  match o with RRegister e => Register e r | RUnregister id => Unregister id r end.

Definition registry_run (ops : list registry_op) : AgentRegistry :=
  fold_left registry_step ops NewAgentRegistry.

(** ** Lemmas *)

(** Entries are stored under their own ID and every route belongs to an entry. *)
Definition registry_wf (r : AgentRegistry) : Prop :=
  (∀ id e, ar_agents r !! id = Some e → ent_ID e = id) ∧
  (∀ route, route ∈ ar_routes r → is_Some (ar_agents r !! route_AgentID route)).

Lemma registry_step_wf o r : registry_wf r → registry_wf (registry_step r o).
Proof.
  intros [Hid Hr]. destruct o as [e|id]; split; simpl.
  - intros id e'. rewrite lookup_insert_Some. naive_solver.
  - intros route [H|H]%elem_of_app.
    + destruct (decide (route_AgentID route = ent_ID e)) as [->|?].
      * by rewrite lookup_insert_eq.
      * rewrite lookup_insert_ne by congruence. by apply Hr.
    + apply list_elem_of_fmap in H as (y & -> & _). simpl. by rewrite lookup_insert_eq.
  - intros id' e. rewrite lookup_delete_Some. naive_solver.
  - intros route [H1 H2]%list_elem_of_filter.
    rewrite lookup_delete_ne by congruence. by apply Hr.
Qed.

Lemma registry_run_wf ops : registry_wf (registry_run ops).
Proof.
  unfold registry_run. assert (H : registry_wf NewAgentRegistry).
  { split; simpl; [intros id e; by rewrite lookup_empty|set_solver]. }
  revert H. generalize NewAgentRegistry. induction ops as [|o ops IH]; simpl; intros r H; [done|].
  by apply IH, registry_step_wf.
Qed.

Lemma MatchScore_range route msg : -1 ≤ MatchScore route msg ≤ 2.
Proof. unfold MatchScore. cases_match; lia. Qed.

Lemma best_loop_keep msg routes best s :
  Forall (λ r, MatchScore r msg ≤ s) routes → best_loop msg routes best s = best.
Proof.
  induction 1 as [|r routes Hr _ IH]; simpl; [done|].
  destruct (Z.ltb_spec s (MatchScore r msg)); [lia|done].
Qed.

Lemma best_loop_result msg routes best s :
  (∃ l1 route l2, routes = l1 ++ route :: l2 ∧ best_loop msg routes best s = Some route ∧
     s < MatchScore route msg ∧
     Forall (λ r, MatchScore r msg < MatchScore route msg) l1 ∧
     Forall (λ r, MatchScore r msg ≤ MatchScore route msg) l2) ∨
  (best_loop msg routes best s = best ∧ Forall (λ r, MatchScore r msg ≤ s) routes).
Proof.
  revert best s. induction routes as [|r routes IH]; intros best s; simpl; [by right|].
  destruct (Z.ltb_spec s (MatchScore r msg)) as [Hlt|Hge].
  - left. destruct (IH (Some r) (MatchScore r msg)) as [(l1 & rt & l2 & -> & -> & ? & ? & ?)|[-> H]].
    + exists (r :: l1), rt, l2. split_and!; eauto with lia.
    + exists [], r, routes. eauto.
  - destruct (IH best s) as [(l1 & rt & l2 & -> & -> & ? & ? & ?)|[-> H]].
    + left. exists (r :: l1), rt, l2. split_and!; eauto. constructor; [lia|done].
    + right. eauto.
Qed.

Lemma find_default_spec r order e :
  registry_wf r → find_default r order = Some e →
  ent_ID e ∈ order ∧ ar_agents r !! ent_ID e = Some e ∧ def_IsDefault (ent_Config e) = true.
Proof.
  intros [Hid _] [He Hd]%find_first_elem.
  apply list_elem_of_omap in He as (id & Hin & Hl).
  by rewrite (Hid _ _ Hl).
Qed.

Lemma find_default_None r order :
  range_order (ar_agents r) order → find_default r order = None →
  ∀ id e, ar_agents r !! id = Some e → def_IsDefault (ent_Config e) = false.
Proof.
  intros Ho Hf%find_first_None id e Hl. rewrite Forall_forall in Hf. apply Hf.
  apply list_elem_of_omap. exists id. split; [|done]. apply (range_order_elem (ar_agents r)); eauto.
Qed.

Lemma registry_wf_route r route l1 l2 :
  registry_wf r → ar_routes r = l1 ++ route :: l2 → is_Some (ar_agents r !! route_AgentID route).
Proof. intros [_ Hr] Heq. apply Hr. rewrite Heq. set_solver. Qed.

(** ** Properties *)

(** After any history of registrations and removals, with any iteration order of
    the map, the agent a message is routed to is registered and has a runner as soon
    as one agent is registered; with none, the empty ID is returned and has none.
    [GetDefaultAgent] finds an entry in the same cases, stored under its own ID, and
    it is a default agent when there is one. *)
Theorem resolved_agent_has_runner ops order order2 msg :
  let r := registry_run ops in
  range_order (ar_agents r) order → range_order (ar_agents r) order2 →
  let id := ResolveRoute r order order2 msg in
  (ar_agents r ≠ ∅ → is_Some (GetRunner r id)) ∧
  (ar_agents r = ∅ → id = ""%string ∧ GetRunner r id = None) ∧
  match GetDefaultAgent r order order2 with
  | Some e => GetEntry r (ent_ID e) = Some e ∧
      (def_IsDefault (ent_Config e) = true ∨
       ∀ id' e', GetEntry r id' = Some e' → def_IsDefault (ent_Config e') = false)
  | None => ar_agents r = ∅
  end.
Proof.
  intros r Ho Ho2 id. pose proof (registry_run_wf ops : registry_wf r) as Hwf.
  assert (Hemp : order2 = [] → ar_agents r = ∅).
  { intros ->. apply map_eq. intros k. rewrite lookup_empty.
    destruct (ar_agents r !! k) eqn:Hk; [|done].
    assert (k ∈ []) by (apply (range_order_elem (ar_agents r)); eauto). set_solver. }
  split_and!.
  - intros Hne. unfold GetRunner. apply fmap_is_Some. subst id. unfold ResolveRoute.
    destruct (best_loop_result msg (ar_routes r) None (-1))
      as [(l1 & rt & l2 & Heq & -> & _)|[-> _]].
    + by eapply registry_wf_route.
    + destruct (find_default r order) as [e|] eqn:Hd.
      * apply find_default_spec in Hd as (_ & -> & _); [by eexists|done].
      * destruct order2 as [|id2 o]; [by destruct Hne; apply Hemp|].
        apply (range_order_elem (ar_agents r) (id2 :: o)); [done|set_solver].
  - intros Hagents. assert (Hnil : ∀ o, range_order (ar_agents r) o → o = []).
    { intros o Hr. unfold range_order in Hr. rewrite Hagents, map_to_list_empty in Hr.
      by apply Permutation_nil_r in Hr. }
    subst id. unfold GetRunner, ResolveRoute. rewrite (Hnil _ Ho), (Hnil _ Ho2).
    destruct (best_loop_result msg (ar_routes r) None (-1)) as [(l1 & rt & l2 & Heq & -> & _)|[-> _]].
    + destruct (registry_wf_route r rt l1 l2 Hwf Heq) as [e He]. by rewrite Hagents, lookup_empty in He.
    + cbn. by rewrite Hagents, lookup_empty.
  - unfold GetDefaultAgent, GetEntry. destruct (find_default r order) as [e|] eqn:Hd.
    + apply find_default_spec in Hd as (_ & ? & ?); auto.
    + pose proof (find_default_None r order Ho Hd) as Hnd.
      destruct order2 as [|id2 o]; [by apply Hemp|].
      destruct (proj1 (range_order_elem (ar_agents r) (id2 :: o) id2 Ho2)) as [e He]; [set_solver|].
      cbn. rewrite He. cbn. by rewrite (proj1 Hwf _ _ He), He; eauto.
Qed.

(** The registry answers with the agent of the first route of the greatest match
    score when some route matches, and with a default agent, or any agent when none is
    marked, only when no route matches. *)
Theorem ResolveRoute_best ops order order2 msg :
  let r := registry_run ops in
  range_order (ar_agents r) order →
  (∃ l1 route l2, ar_routes r = l1 ++ route :: l2 ∧ 0 ≤ MatchScore route msg ∧
     ResolveRoute r order order2 msg = route_AgentID route ∧
     Forall (λ r', MatchScore r' msg < MatchScore route msg) l1 ∧
     Forall (λ r', MatchScore r' msg ≤ MatchScore route msg) l2) ∨
  (Forall (λ r', MatchScore r' msg = -1) (ar_routes r) ∧
   ((∃ e, GetEntry r (ent_ID e) = Some e ∧ def_IsDefault (ent_Config e) = true ∧
          ResolveRoute r order order2 msg = ent_ID e) ∨
    ((∀ id e, GetEntry r id = Some e → def_IsDefault (ent_Config e) = false) ∧
     ResolveRoute r order order2 msg = default ""%string (head order2)))).
Proof.
  intros r Ho. pose proof (registry_run_wf ops : registry_wf r) as Hwf. unfold ResolveRoute.
  destruct (best_loop_result msg (ar_routes r) None (-1))
    as [(l1 & rt & l2 & Heq & -> & Hs & ? & ?)|[-> Hf]].
  - left. exists l1, rt, l2. split_and!; try done. lia.
  - right. split.
    { eapply Forall_impl; [exact Hf|]. intros r' ?. pose proof (MatchScore_range r' msg). simpl in *. lia. }
    destruct (find_default r order) as [e|] eqn:Hd.
    + left. apply find_default_spec in Hd as (_ & ? & ?); [|done]. by exists e.
    + right. split; [by apply (find_default_None r order)|]. by destruct order2.
Qed.

(** The routes of the registry are those of the registrations still in force, in
    order: removing an agent removes exactly its routes and entry, and registering
    one appends its routes under its ID.  Registering an ID again replaces the entry
    but keeps the routes of the earlier one, which still win over equal new ones. *)
Theorem registry_routes ops e id :
  let r := registry_run ops in
  let named i := filter (λ route, route_AgentID route = i) in
  ar_routes (registry_run (ops ++ [RRegister e])) =
    ar_routes r ++ (route_with_agent (ent_ID e) <$> def_Routes (ent_Config e)) ∧
  GetEntry (registry_run (ops ++ [RRegister e])) (ent_ID e) = Some e ∧
  named id (ar_routes (registry_run (ops ++ [RUnregister id]))) = [] ∧
  GetEntry (registry_run (ops ++ [RUnregister id])) id = None ∧
  (∀ id', id' ≠ id →
     named id' (ar_routes (registry_run (ops ++ [RUnregister id]))) = named id' (ar_routes r) ∧
     GetEntry (registry_run (ops ++ [RUnregister id])) id' = GetEntry r id') ∧
  named id (ar_routes (registry_run (ops ++ [RUnregister id; RRegister e]))) =
    named id (route_with_agent (ent_ID e) <$> def_Routes (ent_Config e)).
Proof.
  intros r named. unfold registry_run. rewrite !fold_left_app. fold (registry_run ops). fold r.
  cbn. unfold GetEntry; cbn. rewrite lookup_insert_eq, lookup_delete_eq. unfold named.
  assert (Hnil : ∀ l, filter (λ route, route_AgentID route = id)
            (filter (λ route, route_AgentID route ≠ id) l) = ([] : list AgentRoute)).
  { intros l. rewrite list_filter_filter.
    induction l as [|x l IH]; [done|]. rewrite filter_cons_False; [done|tauto]. }
  split_and!; try done.
  - intros id' Hne. rewrite lookup_delete_ne by done. split; [|done].
    rewrite list_filter_filter. apply list_filter_iff. intros x. naive_solver.
  - by rewrite filter_app, Hnil.
Qed.
End registry.
Arguments AgentEntry : clear implicits.
Arguments AgentRegistry : clear implicits.
Arguments registry_op : clear implicits.

(** ** Witnesses *)

Section witness.
Definition w_route (ch chat : string) : AgentRoute :=
  {| route_AgentID := ""; route_Channel := ch; route_ChatID := chat; route_AccountID := "";
     route_Peer := None; route_GuildID := ""; route_TeamID := ""; route_Priority := 0; route_IsDefault := false |}.
Definition w_entry (id : string) (dflt : bool) (routes : list AgentRoute) : AgentEntry nat :=
  {| ent_ID := id; ent_Runner := 7%nat;
     ent_Config := {| def_ID := id; def_Name := id; def_Description := ""; def_Model := "";
                      def_IsDefault := dflt; def_Routes := routes |} |}.
Definition w_ops : list (registry_op nat) :=
  [RRegister (w_entry "a" false [w_route "telegram" ""]);
   RRegister (w_entry "b" true [w_route "" "c9"]); RRegister (w_entry "c" false []); RUnregister "c"].
Definition w_msg : InboundMessage :=
  {| in_Channel := "telegram"; in_TenantID := ""; in_UserID := ""; in_SenderID := ""; in_ChatID := "c9";
     in_Content := ""; in_Media := []; in_Metadata := ∅; in_SessionKey := ""; in_AgentID := ""; in_Timestamp := 0 |}.
Definition w_order : list string := (map_to_list (ar_agents (registry_run w_ops))).*1.
End witness.

Lemma resolved_agent_has_runner_witness :
  is_Some (GetRunner (registry_run w_ops) (ResolveRoute (registry_run w_ops) w_order w_order w_msg)).
Proof.
  refine (proj1 (resolved_agent_has_runner w_ops w_order w_order w_msg _ _) _);
    [by unfold range_order|by unfold range_order|by vm_compute].
Defined.

(** A route on the chat alone scores as much as one on channel and chat. *)
Lemma ResolveRoute_best_witness :
  ResolveRoute (registry_run w_ops) w_order w_order w_msg = "b"%string ∧
  ((∃ l1 route l2, ar_routes (registry_run w_ops) = l1 ++ route :: l2 ∧ 0 ≤ MatchScore route w_msg ∧
     ResolveRoute (registry_run w_ops) w_order w_order w_msg = route_AgentID route ∧
     Forall (λ r', MatchScore r' w_msg < MatchScore route w_msg) l1 ∧
     Forall (λ r', MatchScore r' w_msg ≤ MatchScore route w_msg) l2) ∨ True).
Proof.
  split; [by vm_compute|].
  destruct (ResolveRoute_best w_ops w_order w_order w_msg) as [H|_]; [by unfold range_order|left; exact H|by right].
Defined.
