(* ===== verification/Lru.v ===== *)
(** [pkg/storage/cache/lru_impl.go], [pkg/storage/cache/lru.go] and
    [pkg/storage/vectordb/embedding_cache.go]: the least-recently-used caches.

    The model keeps the pointers of the code: [items] maps a key to a list element,
    [order] is the doubly linked list of elements, front first, and [heap] holds the
    [*entry] an element points to, which [Put] overwrites in place.  The
    specification is a plain association list, most recent first; a simulation
    relates the two. *)
From S2P Require Import Prelude.

(** ** Specification: an association list, most recently used first *)

Section spec.
Context {K V : Type} `{Countable K}.
Implicit Types (l : list (K * V)) (k : K) (v : V).

Definition assoc k l : option V := snd <$> find_first (λ kv, bool_decide (kv.1 = k)) l.
Definition without k l : list (K * V) := filter (λ kv, kv.1 ≠ k) l.

Inductive lru_op := LGet (k : K) | LPut (k : K) (v : V) | LDelete (k : K).

Definition spec_put (capacity : Z) k v l : list (K * V) :=
  match assoc k l with
  | Some _ => (k, v) :: without k l
  | None => (k, v) :: (if capacity <=? Z.of_nat (length l) then removelast l else l)
  end.

(** The new state and what [Get] answers. *)
Definition spec_step (capacity : Z) (o : lru_op) l : list (K * V) * option V :=
  match o with
  | LGet k => match assoc k l with Some v => ((k, v) :: without k l, Some v) | None => (l, None) end
  | LPut k v => (spec_put capacity k v l, None)
  | LDelete k => (without k l, None)
  end.

Lemma assoc_cons k k' v l : assoc k ((k', v) :: l) = if decide (k' = k) then Some v else assoc k l.
Proof. unfold assoc; simpl. by repeat case_decide || case_bool_decide. Qed.

Lemma assoc_elem k v l : assoc k l = Some v → (k, v) ∈ l.
Proof.
  unfold assoc. rewrite fmap_Some. intros ([k' v'] & [Hin Hk]%find_first_elem & ->).
  case_bool_decide; simplify_eq/=. done.
Qed.

Lemma assoc_None k l : assoc k l = None ↔ k ∉ l.*1.
Proof.
  unfold assoc. rewrite fmap_None, find_first_None, Forall_forall, list_elem_of_fmap. split.
  - intros Hf ([k' v'] & -> & Hin). specialize (Hf _ Hin). by case_bool_decide.
  - intros Hn [k' v'] Hin. case_bool_decide as Hk; [|done]. subst. destruct Hn. by exists (k', v').
Qed.

Lemma without_notin k l : k ∉ l.*1 → without k l = l.
Proof.
  unfold without. induction l as [|[k' v'] l IH]; simpl; [done|].
  rewrite not_elem_of_cons. intros [??]. rewrite filter_cons_True by (simpl; congruence). by rewrite IH.
Qed.

Lemma without_split k v l1 l2 :
  NoDup (l1 ++ (k, v) :: l2).*1 → without k (l1 ++ (k, v) :: l2) = l1 ++ l2.
Proof.
  rewrite fmap_app, fmap_cons. intros (_ & Hd & Hn)%NoDup_app. simpl in *.
  apply NoDup_cons in Hn as [Hk _].
  unfold without. rewrite filter_app, filter_cons_False by (simpl; tauto).
  fold (without k l1) (without k l2). rewrite !without_notin; [done|done|].
  intros Hin. apply (Hd k Hin). set_solver.
Qed.

Lemma assoc_split k v l1 l2 :
  NoDup (l1 ++ (k, v) :: l2).*1 → assoc k (l1 ++ (k, v) :: l2) = Some v.
Proof.
  induction l1 as [|[k' v'] l1 IH]; simpl; rewrite assoc_cons; [by case_decide|].
  intros [Hn Hnd]%NoDup_cons. case_decide as Hk; [|by apply IH].
  subst. destruct Hn. rewrite fmap_app, fmap_cons. set_solver.
Qed.

Lemma assoc_in k v l : NoDup l.*1 → (k, v) ∈ l → assoc k l = Some v.
Proof. intros Hn (l1 & l2 & ->)%list_elem_of_split. by apply assoc_split. Qed.

Lemma without_keys k l x : x ∈ (without k l).*1 ↔ x ∈ l.*1 ∧ x ≠ k.
Proof.
  unfold without. rewrite !list_elem_of_fmap. setoid_rewrite list_elem_of_filter. split.
  - intros ([k' v'] & -> & ? & ?). simpl in *. split; [by exists (k', v')|done].
  - intros (([k' v'] & -> & ?) & ?). by exists (k', v').
Qed.

Lemma NoDup_without k l : NoDup l.*1 → NoDup (without k l).*1.
Proof. intros Hn. eapply sublist_NoDup; [exact Hn|]. apply fmap_sublist, sublist_filter. Qed.

Lemma length_without k l : (length (without k l) ≤ length l)%nat.
Proof. apply length_filter. Qed.

Lemma length_without_in k v l :
  NoDup l.*1 → assoc k l = Some v → S (length (without k l)) = length l.
Proof.
  intros Hn (l1 & l2 & ->)%assoc_elem%list_elem_of_split.
  rewrite without_split by done. rewrite !length_app. simpl. lia.
Qed.

Lemma removelast_snoc l k v : removelast (l ++ [(k, v)]) = l.
Proof. apply removelast_last. Qed.

Lemma removelast_sublist l : removelast l `sublist_of` l.
Proof.
  destruct l as [|[k v] l _] using rev_ind; [done|]. rewrite removelast_last. by apply sublist_inserts_r.
Qed.

Lemma spec_step_NoDup capacity o l : NoDup l.*1 → NoDup (spec_step capacity o l).1.*1.
Proof.
  intros Hn. destruct o as [k|k v|k]; simpl; [|unfold spec_put|by apply NoDup_without].
  - destruct (assoc k l) eqn:Hk; simpl; [|done].
    constructor; [rewrite without_keys; tauto|by apply NoDup_without].
  - destruct (assoc k l) eqn:Hk; simpl.
    + constructor; [rewrite without_keys; tauto|by apply NoDup_without].
    + apply assoc_None in Hk.
      assert (Hs : (if capacity <=? Z.of_nat (length l) then removelast l else l) `sublist_of` l).
      { case_match; [apply removelast_sublist|done]. }
      constructor; [|eapply sublist_NoDup; [exact Hn|by apply fmap_sublist]].
      intros Hin. apply Hk. eapply elem_of_sublist; [exact Hin|by apply fmap_sublist].
Qed.

Lemma spec_step_length capacity o l :
  NoDup l.*1 → Z.of_nat (length l) ≤ Z.max 1 capacity →
  Z.of_nat (length (spec_step capacity o l).1) ≤ Z.max 1 capacity.
Proof.
  intros Hn Hl. destruct o as [k|k v|k]; simpl; [|unfold spec_put|pose proof (length_without k l); lia].
  - destruct (assoc k l) eqn:Hk; simpl; [|done].
    pose proof (length_without_in _ _ _ Hn Hk). lia.
  - destruct (assoc k l) eqn:Hk; simpl.
    + pose proof (length_without_in _ _ _ Hn Hk). lia.
    + destruct (Z.leb_spec capacity (Z.of_nat (length l))); [|lia].
      destruct l as [|[] l _] using rev_ind; simpl in *; [lia|].
      rewrite removelast_last. rewrite length_app in *. simpl in *. lia.
Qed.
(** The unbounded map the cache stands in for. *)
Definition store_step (m : gmap K V) (o : lru_op) : gmap K V :=
  match o with LGet _ => m | LPut k v => <[k := v]> m | LDelete k => delete k m end.

Definition agrees l (m : gmap K V) : Prop := ∀ kv, kv ∈ l → m !! kv.1 = Some kv.2.

Lemma agrees_sublist l l' m : l' `sublist_of` l → agrees l m → agrees l' m.
Proof. intros Hs Ha kv Hin. apply Ha. by eapply elem_of_sublist. Qed.

Lemma agrees_without k l m m' :
  (∀ k', k' ≠ k → m' !! k' = m !! k') → agrees l m → agrees (without k l) m'.
Proof.
  intros Hm Ha kv [Hne Hin]%list_elem_of_filter. rewrite Hm by done. by apply Ha.
Qed.

Lemma spec_step_agrees capacity o l m :
  agrees l m → agrees (spec_step capacity o l).1 (store_step m o).
Proof.
  intros Ha. destruct o as [k|k v|k]; simpl.
  - destruct (assoc k l) as [v|] eqn:Hk; simpl; [|done].
    intros kv [->|Hin]%elem_of_cons; [by apply (Ha (k, v)), assoc_elem|].
    by apply (agrees_without k l m m).
  - assert (Hm : ∀ k', k' ≠ k → <[k:=v]> m !! k' = m !! k') by (intros; by apply lookup_insert_ne).
    unfold spec_put. destruct (assoc k l) as [v'|] eqn:Hk; simpl;
      intros kv [->|Hin]%elem_of_cons; simpl; try apply lookup_insert_eq.
    + by apply (agrees_without k l m).
    + apply assoc_None in Hk. rewrite <- (without_notin k l Hk) in Hin.
      apply (agrees_without k l m); [done..|].
      revert Hin. case_match; [|done]. intros Hin.
      eapply elem_of_sublist; [exact Hin|apply removelast_sublist].
  - apply (agrees_without k l m); [|done]. intros. by apply lookup_delete_ne.
Qed.

(** The keys a history makes recent. *)
Definition touched (ops : list lru_op) : gset K :=
  list_to_set (omap (λ o, match o with LGet k | LPut k _ => Some k | LDelete _ => None end) ops).

Definition writes (k : K) (o : lru_op) : bool :=
  match o with LGet _ => false | LPut k' _ | LDelete k' => bool_decide (k' = k) end.

Lemma without_other k k' v l1 l2 :
  k ≠ k' → without k' (l1 ++ (k, v) :: l2) = without k' l1 ++ (k, v) :: without k' l2.
Proof. intros. unfold without. by rewrite filter_app, filter_cons_True. Qed.

(** [k] stays in the list as long as fewer than [capacity] keys, itself included, are
    in front of it or get in front. *)
Lemma spec_step_recent capacity o k v l1 l2 (S : gset K) :
  NoDup (l1 ++ (k, v) :: l2).*1 → list_to_set l1.*1 ⊆ S → writes k o = false →
  Z.of_nat (size ((S ∪ touched [o]) ∖ {[k]})) < capacity →
  ∃ l1' l2', (spec_step capacity o (l1 ++ (k, v) :: l2)).1 = l1' ++ (k, v) :: l2' ∧
    list_to_set l1'.*1 ⊆ S ∪ touched [o].
Proof.
  intros Hn HS Hw Hsize.
  assert (Hwo : ∀ k', list_to_set (without k' l1).*1 ⊆@{gset K} S).
  { intros k' x Hx%elem_of_list_to_set%without_keys. apply HS. set_solver. }
  assert (Hmove : ∀ k' v', k' ≠ k → k' ∈ touched [o] → ∃ l1' l2',
    (k', v') :: without k' (l1 ++ (k, v) :: l2) = l1' ++ (k, v) :: l2' ∧
    list_to_set l1'.*1 ⊆ S ∪ touched [o]).
  { intros k' v' Hne Ht. rewrite without_other by done.
    exists ((k', v') :: without k' l1), (without k' l2). split; [done|]. set_solver. }
  destruct o as [k'|k' v'|k']; simpl in Hw; try (apply bool_decide_eq_false in Hw).
  - simpl. destruct (assoc k' _) as [v'|] eqn:Hk; simpl; [|exists l1, l2; set_solver].
    destruct (decide (k' = k)) as [->|Hne]; [|apply Hmove; set_solver].
    exists [], (l1 ++ l2). rewrite without_split by done. rewrite assoc_split in Hk by done.
    split; [by simplify_eq|set_solver].
  - simpl. unfold spec_put. destruct (assoc k' _) as [v''|] eqn:Hk; simpl; [apply Hmove; set_solver|].
    apply assoc_None in Hk. destruct (Z.leb_spec capacity (Z.of_nat (length (l1 ++ (k, v) :: l2)))) as [Hfull|_].
    + exists ((k', v') :: l1), (removelast l2). split; [|set_solver].
      rewrite removelast_app by done. simpl. destruct l2; [|done].
      exfalso. rewrite length_app in Hfull. simpl in Hfull.
      rewrite fmap_app in Hn, Hk. apply NoDup_app in Hn as (Hn & Hd & _).
      assert (Hsub : list_to_set (k' :: l1.*1) ⊆ (S ∪ touched [LPut k' v']) ∖ {[k]}).
      { intros x Hx%elem_of_list_to_set. apply elem_of_difference. split; [set_solver|].
        intros ->%elem_of_singleton. apply elem_of_cons in Hx as [->|Hx]; [done|].
        apply (Hd k Hx). set_solver. }
      apply subseteq_size in Hsub. rewrite size_list_to_set in Hsub.
      * simpl in Hsub. rewrite length_fmap in Hsub. lia.
      * constructor; [set_solver|done].
    + exists ((k', v') :: l1), l2. set_solver.
  - simpl. rewrite without_other by done. exists (without k' l1), (without k' l2). set_solver.
Qed.
End spec.
Arguments lru_op : clear implicits.

(** ** [lruCache]: the map, the list and the heap of entries *)

Section lru.
Context {K V : Type} `{Countable K}.

Record entry := { entry_key : K; entry_value : V }.

(** [heap] and [next] are Go's allocator: [next] is the next free element. *)
Record lruCache := {
  capacity : Z; items : gmap K nat; order : list nat; heap : gmap nat entry; next : nat;
}.

Definition NewLRU (cap : Z) : lruCache :=
  {| capacity := cap; items := ∅; order := []; heap := ∅; next := 0 |}.

(** [container/list]: [Remove], [MoveToFront] and [Back] on the elements in the list. *)
Definition list_Remove (el : nat) (l : list nat) : list nat := filter (λ x, x ≠ el) l.
Definition list_MoveToFront (el : nat) (l : list nat) : list nat := el :: list_Remove el l.
Definition list_Back (l : list nat) : option nat := last l.

Definition Get (key : K) (c : lruCache) : lruCache * option V :=
  match items c !! key with
  | None => (c, None)
  | Some el =>
      ({| capacity := capacity c; items := items c; order := list_MoveToFront el (order c);
          heap := heap c; next := next c |},
       entry_value <$> heap c !! el)
  end.

(** The eviction of the last element when the list is full. *)
Definition evict (c : lruCache) : lruCache :=
  if capacity c <=? Z.of_nat (length (order c)) then
    match list_Back (order c) with
    | Some oldest =>
        {| capacity := capacity c;
           items := match heap c !! oldest with Some e => delete (entry_key e) (items c) | None => items c end;
           order := list_Remove oldest (order c); heap := heap c; next := next c |}
    | None => c
    end
  else c.

Definition Put (key : K) (value : V) (c : lruCache) : lruCache :=
  match items c !! key with
  | Some el =>
      {| capacity := capacity c; items := items c; order := list_MoveToFront el (order c);
         heap := alter (λ e, {| entry_key := entry_key e; entry_value := value |}) el (heap c);
         next := next c |}
  | None =>
      let c := evict c in
      let el := next c in
      {| capacity := capacity c; items := <[key := el]> (items c); order := el :: order c;
         heap := <[el := {| entry_key := key; entry_value := value |}]> (heap c); next := S el |}
  end.

Definition Delete (key : K) (c : lruCache) : lruCache :=
  match items c !! key with
  | Some el =>
      {| capacity := capacity c; items := delete key (items c); order := list_Remove el (order c);
         heap := heap c; next := next c |}
  | None => c
  end.

Definition lru_step (o : lru_op K V) (c : lruCache) : lruCache * option V :=
  match o with
  | LGet k => Get k c
  | LPut k v => (Put k v c, None)
  | LDelete k => (Delete k c, None)
  end.

(** A history of calls and the answers they give. *)
Fixpoint lru_run (ops : list (lru_op K V)) (c : lruCache) : lruCache * list (option V) :=
  match ops with
  | [] => (c, [])
  | o :: ops => let '(c, r) := lru_step o c in let '(c, rs) := lru_run ops c in (c, r :: rs)
  end.

Fixpoint spec_run (cap : Z) (ops : list (lru_op K V)) (l : list (K * V)) : list (K * V) * list (option V) :=
  match ops with
  | [] => (l, [])
  | o :: ops => let '(l, r) := spec_step cap o l in let '(l, rs) := spec_run cap ops l in (l, r :: rs)
  end.

(** ** Simulation *)

Definition pair_of (e : entry) : K * V := (entry_key e, entry_value e).

(** The association list a cache stands for. *)
Definition contents (h : gmap nat entry) (l : list nat) : list (K * V) :=
  omap (λ el, pair_of <$> h !! el) l.
Definition abs (c : lruCache) : list (K * V) := contents (heap c) (order c).

Definition lru_wf (c : lruCache) : Prop :=
  NoDup (order c) ∧
  (∀ k el, items c !! k = Some el ↔ el ∈ order c ∧ entry_key <$> heap c !! el = Some k) ∧
  (∀ el, el ∈ order c → is_Some (heap c !! el) ∧ (el < next c)%nat).

Lemma contents_step h el l :
  contents h (el :: l) =
  match h !! el with Some e => pair_of e :: contents h l | None => contents h l end.
Proof. unfold contents; simpl. by destruct (h !! el). Qed.

Lemma contents_cons h el e l : h !! el = Some e → contents h (el :: l) = pair_of e :: contents h l.
Proof. intros He. by rewrite contents_step, He. Qed.

Lemma contents_ext h h' l : (∀ el, el ∈ l → h !! el = h' !! el) → contents h l = contents h' l.
Proof.
  induction l as [|el l IH]; intros Heq; [done|].
  rewrite !contents_step, (Heq el), IH; [done|set_solver|set_solver].
Qed.

(** Removing the element of a key removes that key. *)
Lemma contents_remove h l el k :
  (∀ x, x ∈ l → is_Some (h !! x)) →
  (∀ x, x ∈ l → entry_key <$> h !! x = Some k ↔ x = el) →
  contents h (list_Remove el l) = without k (contents h l).
Proof.
  unfold list_Remove. induction l as [|x l IH]; intros Hs Hk; [done|].
  destruct (Hs x) as [e He]; [set_solver|].
  specialize (IH ltac:(set_solver) ltac:(set_solver)).
  specialize (Hk x ltac:(set_solver)). rewrite He in Hk. simpl in Hk.
  rewrite (contents_cons _ _ _ _ He). unfold without in *. destruct (decide (x = el)) as [->|Hne].
  - rewrite !filter_cons_False by (simpl; naive_solver). done.
  - rewrite !filter_cons_True by (simpl; naive_solver). by rewrite (contents_cons _ _ _ _ He), IH.
Qed.

Lemma wf_key_unique c el el' k :
  lru_wf c → el ∈ order c → el' ∈ order c →
  entry_key <$> heap c !! el = Some k → entry_key <$> heap c !! el' = Some k → el = el'.
Proof.
  intros (_ & Hi & _) Hel Hel' H1 H2.
  assert (items c !! k = Some el) by by apply Hi.
  assert (items c !! k = Some el') by by apply Hi. congruence.
Qed.

Lemma abs_remove c el k :
  lru_wf c → el ∈ order c → entry_key <$> heap c !! el = Some k →
  contents (heap c) (list_Remove el (order c)) = without k (abs c).
Proof.
  intros Hwf Hel Hk. apply contents_remove.
  - intros x Hx. by apply Hwf.
  - intros x Hx. split; [|by intros ->]. intros Hx2. by apply (wf_key_unique c x el k).
Qed.

Lemma abs_NoDup c : lru_wf c → NoDup (abs c).*1.
Proof.
  intros Hwf. assert (Hl : ∀ l, NoDup l → l ⊆ order c → NoDup (contents (heap c) l).*1);
    [|by apply Hl; [apply Hwf|]].
  induction l as [|x l IH]; intros Hnd Hsub; [constructor|].
  apply NoDup_cons in Hnd as [Hx Hnd].
  destruct (proj2 (proj2 Hwf) x) as [[e He] _]; [set_solver|].
  rewrite (contents_cons _ _ _ _ He). simpl. constructor; [|apply IH; set_solver].
  intros ([k v] & Hke & Hin)%list_elem_of_fmap.
  apply list_elem_of_omap in Hin as (y & Hy & Hye).
  destruct (heap c !! y) as [e'|] eqn:He'; [|done]. simpl in *. simplify_eq/=.
  assert (x = y); [|by subst].
  apply (wf_key_unique c x y (entry_key e)); rewrite ?He, ?He'; simpl; try done; [set_solver|set_solver|].
  unfold pair_of in Hye. congruence.
Qed.

Lemma abs_assoc c k :
  lru_wf c → assoc k (abs c) = el ← items c !! k; entry_value <$> heap c !! el.
Proof.
  intros Hwf. destruct (items c !! k) as [el|] eqn:Hel; simpl.
  - apply (proj1 (proj2 Hwf)) in Hel as [Hin Hk].
    destruct (heap c !! el) as [e|] eqn:He; simplify_eq/=.
    pose proof (abs_NoDup c Hwf) as Hnd.
    assert (Hp : pair_of e ∈ abs c).
    { apply list_elem_of_omap. exists el. by rewrite He. }
    by apply assoc_in.
  - apply assoc_None. intros ([k' v] & -> & Hin)%list_elem_of_fmap.
    apply list_elem_of_omap in Hin as (y & Hy & Hye).
    destruct (heap c !! y) as [e|] eqn:He; simplify_eq/=.
    assert (items c !! entry_key e = Some y); [|unfold pair_of in *; congruence].
    apply (proj1 (proj2 Hwf)). by rewrite He.
Qed.

(** Effects on the abstraction of the three ways the list changes. *)
Lemma wf_front c k el e :
  lru_wf c → items c !! k = Some el → heap c !! el = Some e → entry_key e = k →
  ∀ h, (∀ x, x ≠ el → h !! x = heap c !! x) →
  ∀ v, h !! el = Some {| entry_key := k; entry_value := v |} →
  contents h (list_MoveToFront el (order c)) = (k, v) :: without k (abs c).
Proof.
  intros Hwf Hel He Hk h Hh v Hv. unfold list_MoveToFront.
  rewrite (contents_cons _ _ _ _ Hv). unfold pair_of; simpl. f_equal.
  rewrite (contents_ext h (heap c)).
  - apply abs_remove; [done|by apply (proj1 (proj2 Hwf) k el)|by rewrite He, <- Hk].
  - intros x [Hx _]%list_elem_of_filter. by apply Hh.
Qed.

Lemma wf_MoveToFront c el h :
  lru_wf c → el ∈ order c →
  (∀ x, entry_key <$> h !! x = entry_key <$> heap c !! x) →
  lru_wf {| capacity := capacity c; items := items c; order := list_MoveToFront el (order c);
            heap := h; next := next c |}.
Proof.
  intros (Hn & Hi & Ho) Hel Hh. unfold lru_wf, list_MoveToFront, list_Remove; simpl.
  assert (Hin : ∀ x, x ∈ el :: filter (λ y, y ≠ el) (order c) ↔ x ∈ order c).
  { intros x. rewrite elem_of_cons, list_elem_of_filter. destruct (decide (x = el)); naive_solver. }
  split_and!.
  - constructor; [rewrite list_elem_of_filter; tauto|by apply NoDup_filter].
  - intros k x. by rewrite Hin, Hh.
  - intros x Hx%Hin. destruct (Ho x Hx) as [[e He] ?]. split; [|done].
    specialize (Hh x). rewrite He in Hh. destruct (h !! x); [by eexists|done].
Qed.

Lemma wf_remove c el k :
  lru_wf c → el ∈ order c → entry_key <$> heap c !! el = Some k →
  lru_wf {| capacity := capacity c; items := delete k (items c); order := list_Remove el (order c);
            heap := heap c; next := next c |}.
Proof.
  intros Hwf Hel Hk. pose proof Hwf as (Hn & Hi & Ho). unfold lru_wf, list_Remove; simpl. split_and!.
  - by apply NoDup_filter.
  - intros k' x. rewrite lookup_delete_Some, Hi, list_elem_of_filter. split.
    + intros (? & ? & Hx). split_and!; try done. intros ->. congruence.
    + intros [[Hne ?] Hx]. split_and!; try done. intros ->. by destruct Hne; apply (wf_key_unique c x el k').
  - intros x [_ Hx]%list_elem_of_filter. by apply Ho.
Qed.

Lemma wf_push c k v :
  lru_wf c → items c !! k = None →
  lru_wf {| capacity := capacity c; items := <[k := next c]> (items c); order := next c :: order c;
            heap := <[next c := {| entry_key := k; entry_value := v |}]> (heap c); next := S (next c) |}.
Proof.
  intros Hwf Hk. pose proof Hwf as (Hn & Hi & Ho).
  assert (Hfresh : ∀ x, x ∈ order c → x ≠ next c) by (intros x [_ ?]%Ho; lia).
  unfold lru_wf; simpl. split_and!.
  - constructor; [intros Hin; by apply (Hfresh _ Hin)|done].
  - intros k' x. rewrite lookup_insert_Some, elem_of_cons. destruct (decide (x = next c)) as [->|Hne].
    + rewrite lookup_insert_eq. simpl. split; [|naive_solver].
      intros [[-> _]|[_ [Hin _]%Hi]]; [by auto|by destruct (Hfresh _ Hin)].
    + rewrite lookup_insert_ne by done. rewrite Hi. split; [naive_solver|]. intros [[?|Hin] Hkx]; [done|].
      right. split; [|done]. intros ->. assert (items c !! k' = Some x) by by apply Hi. congruence.
  - intros x [->|Hin]%elem_of_cons; [rewrite lookup_insert_eq; eauto|].
    rewrite lookup_insert_ne by (by apply not_eq_sym, Hfresh). destruct (Ho x Hin). split; [done|lia].
Qed.

Lemma evict_abs c :
  lru_wf c → lru_wf (evict c) ∧ capacity (evict c) = capacity c ∧
  (∀ k, items c !! k = None → items (evict c) !! k = None) ∧
  abs (evict c) = if capacity c <=? Z.of_nat (length (abs c)) then removelast (abs c) else abs c.
Proof.
  intros Hwf. assert (Hlen : length (abs c) = length (order c)).
  { unfold abs. assert (Hsub : order c ⊆ order c) by done. revert Hsub.
    generalize (order c) at 1 3 4. induction l as [|x l IH]; intros Hsub; [done|].
    destruct (proj2 (proj2 Hwf) x) as [[e He] _]; [set_solver|].
    rewrite (contents_cons _ _ _ _ He). simpl. rewrite IH; [done|set_solver]. }
  unfold evict. rewrite Hlen. case_match; [|done].
  unfold list_Back. destruct (last (order c)) as [el|] eqn:Hlast.
  - assert (Hel : el ∈ order c) by (by apply last_Some_elem_of).
    destruct (proj2 (proj2 Hwf) el Hel) as [[e He] _]. rewrite He.
    assert (Hk : entry_key <$> heap c !! el = Some (entry_key e)) by by rewrite He.
    split_and!; [by apply wf_remove|done| |].
    + intros k Hnone. simpl. rewrite lookup_delete_None. by right.
    + unfold abs at 1; simpl. rewrite (abs_remove c el _ Hwf Hel Hk).
      apply last_Some in Hlast as [l' Hl'].
      assert (Ha : abs c = contents (heap c) l' ++ [pair_of e]).
      { unfold abs, contents. rewrite Hl', omap_app. simpl. by rewrite He. }
      unfold pair_of in Ha. rewrite Ha, removelast_snoc.
      rewrite <- (app_nil_r (contents (heap c) l')) at 2. apply (without_split _ (entry_value e)).
      rewrite <- Ha. by apply abs_NoDup.
  - apply last_None in Hlast. unfold abs. rewrite Hlast. done.
Qed.

Lemma lru_step_refines o c :
  lru_wf c → lru_wf (lru_step o c).1 ∧ capacity (lru_step o c).1 = capacity c ∧
  spec_step (capacity c) o (abs c) = (abs (lru_step o c).1, (lru_step o c).2).
Proof.
  intros Hwf. pose proof (abs_assoc c) as Ha. destruct o as [k|k v|k]; simpl.
  - unfold Get. rewrite (Ha k Hwf). destruct (items c !! k) as [el|] eqn:Hel; [|done].
    pose proof Hel as [Hin Hk]%(proj1 (proj2 Hwf)).
    destruct (heap c !! el) as [e|] eqn:He; simplify_eq/=. split_and!; [by apply wf_MoveToFront|done|].
    rewrite He; simpl. f_equal. unfold abs at 2; simpl. symmetry. apply (wf_front c _ el e); try done. by destruct e.
  - unfold Put, spec_put. rewrite (Ha k Hwf). destruct (items c !! k) as [el|] eqn:Hel; simpl.
    + pose proof Hel as [Hin Hk]%(proj1 (proj2 Hwf)).
      destruct (heap c !! el) as [e|] eqn:He; simplify_eq/=. split_and!; [|done|].
      * apply wf_MoveToFront; [done..|]. intros x. destruct (decide (x = el)) as [->|].
        -- by rewrite lookup_alter_eq, He.
        -- by rewrite lookup_alter_ne.
      * rewrite ?He; simpl. f_equal. unfold abs at 2; simpl. symmetry. apply (wf_front c _ el e); try done.
        -- intros x ?. by apply lookup_alter_ne.
        -- rewrite lookup_alter_eq, He. done.
    + destruct (evict_abs c Hwf) as (Hwf' & Hc & Hnone & Habs). rewrite <- Habs.
      split_and!; [apply wf_push; auto|done|]. f_equal. unfold abs at 2; simpl.
      rewrite lookup_insert_eq; simpl. f_equal. unfold abs. apply contents_ext. intros x Hx.
      rewrite lookup_insert_ne; [done|]. pose proof (proj2 (proj2 Hwf') x Hx). lia.
  - unfold Delete. destruct (items c !! k) as [el|] eqn:Hel.
    + pose proof Hel as [Hin Hk]%(proj1 (proj2 Hwf)). split_and!; [by apply wf_remove|done|].
      f_equal. unfold abs at 2; simpl. by rewrite (abs_remove c el k).
    + split_and!; try done. f_equal. apply without_notin, assoc_None. by rewrite (Ha k Hwf), Hel.
Qed.

Lemma NewLRU_wf cap : lru_wf (NewLRU cap).
Proof.
  unfold lru_wf; simpl. split_and!; [constructor| |set_solver].
  intros k el. rewrite lookup_empty. split; [done|]. intros [?%elem_of_nil _]. done.
Qed.

Lemma lru_run_refines ops c :
  lru_wf c → lru_wf (lru_run ops c).1 ∧ capacity (lru_run ops c).1 = capacity c ∧
  spec_run (capacity c) ops (abs c) = (abs (lru_run ops c).1, (lru_run ops c).2).
Proof.
  revert c. induction ops as [|o ops IH]; intros c Hwf; [done|]. simpl.
  destruct (lru_step_refines o c Hwf) as (Hwf' & Hc & ->).
  destruct (lru_step o c) as [c' r]. simpl in *. destruct (IH c' Hwf') as (? & Hc' & Hr).
  rewrite Hc in *. rewrite Hr. destruct (lru_run ops c'). simpl in *. split_and!; [done|congruence|done].
Qed.
End lru.

(** ** Properties *)

(** C21: On every history of calls the cache of map, linked list and heap entries gives
    the answers of an association list ordered by recency; in particular a hit moves
    its key to the front and a full cache drops the key used least recently. *)
Theorem lru_refines_list {K V} `{Countable K} (cap : Z) (ops : list (lru_op K V)) :
  spec_run cap ops [] = (abs (lru_run ops (NewLRU cap)).1, (lru_run ops (NewLRU cap)).2).
Proof. apply (lru_run_refines ops (NewLRU cap)), NewLRU_wf. Qed.

Section consequences.
Context {K V : Type} `{Countable K}.

Lemma lru_run_reachable cap (ops : list (lru_op K V)) :
  lru_wf (lru_run ops (NewLRU cap)).1 ∧ capacity (lru_run ops (NewLRU cap)).1 = cap.
Proof. by destruct (lru_run_refines ops (NewLRU cap) (NewLRU_wf cap)) as (? & ? & _). Qed.

Lemma lru_run_app (ops ops' : list (lru_op K V)) c :
  (lru_run (ops ++ ops') c).1 = (lru_run ops' (lru_run ops c).1).1.
Proof.
  revert c. induction ops as [|o ops IH]; intros c; simpl; [done|].
  destruct (lru_step o c) as [c' r]. specialize (IH c').
  destruct (lru_run (ops ++ ops') c'), (lru_run ops c'). done.
Qed.

(** An invariant of the specification holds of the abstraction of every reachable cache. *)
Lemma lru_run_ind cap (P : list (lru_op K V) → list (K * V) → Prop) :
  P [] [] →
  (∀ ops o l, NoDup l.*1 → P ops l → P (ops ++ [o]) (spec_step cap o l).1) →
  ∀ ops, P ops (abs (lru_run ops (NewLRU cap)).1).
Proof.
  intros H0 Hs ops. induction ops as [|o ops IH] using rev_ind; [done|].
  destruct (lru_run_reachable cap ops) as [Hwf Hc].
  destruct (lru_step_refines o _ Hwf) as (_ & _ & Hstep). rewrite Hc in Hstep.
  rewrite lru_run_app. simpl. destruct (lru_step o _) as [c' r] eqn:Ho. simpl in *.
  specialize (Hs ops o _ (abs_NoDup _ Hwf) IH). by rewrite Hstep in Hs.
Qed.

Lemma length_abs (c : @lruCache K V _ _) : lru_wf c → length (abs c) = length (order c).
Proof.
  intros Hwf. unfold abs. assert (Hl : ∀ l, l ⊆ order c → length (contents (heap c) l) = length l);
    [|by apply Hl].
  induction l as [|x l IH]; intros Hsub; [done|].
  destruct (proj2 (proj2 Hwf) x) as [[e He] _]; [set_solver|].
  rewrite (contents_cons _ _ _ _ He). simpl. rewrite IH; [done|set_solver].
Qed.
End consequences.

(** Whatever the history, the list holds at most [max 1 capacity] elements (a
    capacity of zero or less still caches one), and the map has exactly one entry for
    each of them, so neither side leaks. *)
Theorem lru_bounded {K V} `{Countable K} (cap : Z) (ops : list (lru_op K V)) :
  let c := (lru_run ops (NewLRU cap)).1 in
  Z.of_nat (length (order c)) ≤ Z.max 1 cap ∧ size (items c) = length (order c).
Proof.
  intros c. destruct (lru_run_reachable cap ops) as [Hwf Hc]. fold c in Hwf, Hc.
  rewrite <- (length_abs c Hwf). split.
  - apply (lru_run_ind cap (λ _ l, Z.of_nat (length l) ≤ Z.max 1 cap)); [simpl; lia|].
    intros. by apply spec_step_length.
  - rewrite <- (size_dom (D := gset K)), <- (length_fmap fst (abs c)).
    rewrite <- (size_list_to_set (C := gset K)) by by apply abs_NoDup.
    f_equal. apply set_eq. intros k. rewrite elem_of_dom, elem_of_list_to_set.
    pose proof (abs_assoc c k Hwf) as Ha. destruct (items c !! k) as [el|] eqn:Hel; simpl in Ha.
    + apply (proj1 (proj2 Hwf)) in Hel as [_ Hk]. destruct (heap c !! el) as [e|]; [|done]. simpl in Ha.
      apply assoc_elem in Ha. split; [|eauto]. intros _. by apply (list_elem_of_fmap_2 fst _ (k, entry_value e)).
    + apply assoc_None in Ha. split; [by intros []|done].
Qed.

(** A hit is never stale and a recent key is never missed: what [Get] returns is the
    value an unbounded map would hold after the same calls, and a key whose last write
    put [v] is still found as long as fewer than [capacity] other keys were used since. *)
Theorem lru_sound_and_recent {K V} `{Countable K} (cap : Z) (ops ops' : list (lru_op K V)) k v :
  let c := (lru_run (ops ++ LPut k v :: ops') (NewLRU cap)).1 in
  (∀ k' v', (Get k' c).2 = Some v' →
     fold_left store_step (ops ++ LPut k v :: ops') ∅ !! k' = Some v') ∧
  (existsb (writes k) ops' = false → Z.of_nat (size (touched ops' ∖ {[k]})) < cap →
   (Get k c).2 = Some v).
Proof.
  intros c. destruct (lru_run_reachable cap (ops ++ LPut k v :: ops')) as [Hwf Hc]. fold c in Hwf, Hc.
  assert (Hget : ∀ k', (Get k' c).2 = assoc k' (abs c)).
  { intros k'. rewrite (abs_assoc c k' Hwf). unfold Get. by destruct (items c !! k'). }
  split.
  - intros k' v'. rewrite Hget. intros Ha%assoc_elem.
    refine (lru_run_ind cap (λ ops l, agrees l (fold_left store_step ops ∅)) _ _ _ (k', v') Ha).
    + intros kv Hkv. by apply elem_of_nil in Hkv.
    + intros. rewrite fold_left_app. by apply spec_step_agrees.
  - intros Hw Hs. rewrite Hget. subst c.
    revert Hw Hs.
    enough (Hrec : existsb (writes k) ops' = false → Z.of_nat (size (touched ops' ∖ {[k]})) < cap →
      ∃ l1 l2, abs (lru_run (ops ++ LPut k v :: ops') (NewLRU cap)).1 = l1 ++ (k, v) :: l2 ∧
        list_to_set l1.*1 ⊆ touched ops').
    { intros Hw Hs. destruct (Hrec Hw Hs) as (l1 & l2 & Heq & _).
      pose proof (abs_NoDup _ Hwf) as Hnd. rewrite Heq in *.
      by apply assoc_split. }
    clear Hwf Hc Hget. induction ops' as [|o ops' IH] using rev_ind; intros Hw Hs.
    + rewrite lru_run_app. destruct (lru_run_reachable cap ops) as [Hwf Hc].
      destruct (lru_step_refines (LPut k v) _ Hwf) as (_ & _ & Hstep). simpl in *.
      injection Hstep as <-. unfold spec_put. exists [].
      destruct (assoc _ _); eexists; (split; [reflexivity|set_solver]).
    + rewrite existsb_app in Hw. apply orb_false_iff in Hw as [Hw Ho]. simpl in Ho.
      rewrite orb_false_r in Ho.
      assert (Ht : touched (ops' ++ [o]) = touched ops' ∪ touched [o]).
      { unfold touched. by rewrite omap_app, list_to_set_app_L. }
      rewrite Ht in *. destruct IH as (l1 & l2 & Heq & Hl1); [done| |].
      { eapply Z.le_lt_trans; [|exact Hs]. apply Nat2Z.inj_le, subseteq_size. set_solver. }
      rewrite app_comm_cons, app_assoc, lru_run_app.
      destruct (lru_run_reachable cap (ops ++ LPut k v :: ops')) as [Hwf Hc].
      destruct (lru_step_refines o _ Hwf) as (_ & _ & Hstep). rewrite Hc in Hstep. simpl.
      destruct (lru_step o _) as [c' r]. simpl in *.
      apply (f_equal fst) in Hstep. simpl in Hstep. rewrite <- Hstep, Heq.
      apply spec_step_recent; [|done..]. rewrite <- Heq. by apply abs_NoDup.
Qed.

(** An eviction: with capacity 2 the key read last survives, the other is dropped. *)
Lemma lru_sound_and_recent_witness :
  (Get "a"%string (lru_run ([] ++ LPut "a"%string 1 :: [LPut "b"%string 2; LGet "a"%string]) (NewLRU 2)).1).2 = Some 1 ∧
  (Get "b"%string (lru_run ([] ++ LPut "a"%string 1 :: [LPut "b"%string 2; LGet "a"%string; LPut "c"%string 3]) (NewLRU 2)).1).2 = None.
Proof.
  split; [|by vm_compute].
  apply (proj2 (lru_sound_and_recent 2 [] [LPut "b"%string 2; LGet "a"%string] "a"%string 1)); by vm_compute.
Defined.

(** ** [CacheLayer] *)

Section cache_layer.
(** [*types.Tenant] with its ID, and [*types.TenantSkill]. *)
Context {Tenant TenantSkill : Type} (TenantID : Tenant → string).

Record CacheLayer := {
  tenantConfigs : @lruCache string Tenant _ _;
  tenantSkills : @lruCache string (list TenantSkill) _ _;
  skillContent : @lruCache string string _ _;
}.

Definition NewCacheLayer (tenantSize skillSize : Z) : CacheLayer :=
  {| tenantConfigs := NewLRU tenantSize; tenantSkills := NewLRU tenantSize;
     skillContent := NewLRU skillSize |}.

Definition with_tenants (c : CacheLayer) t :=
  {| tenantConfigs := t; tenantSkills := tenantSkills c; skillContent := skillContent c |}.
Definition with_skills (c : CacheLayer) s :=
  {| tenantConfigs := tenantConfigs c; tenantSkills := s; skillContent := skillContent c |}.
Definition with_content (c : CacheLayer) s :=
  {| tenantConfigs := tenantConfigs c; tenantSkills := tenantSkills c; skillContent := s |}.

Definition GetTenant (tenantID : string) (c : CacheLayer) : CacheLayer * option Tenant :=
  let '(t, r) := Get tenantID (tenantConfigs c) in (with_tenants c t, r).
Definition PutTenant (tenant : Tenant) (c : CacheLayer) : CacheLayer :=
  with_tenants c (Put (TenantID tenant) tenant (tenantConfigs c)).
Definition InvalidateTenant (tenantID : string) (c : CacheLayer) : CacheLayer :=
  with_tenants c (Delete tenantID (tenantConfigs c)).

Definition GetTenantSkills (tenantID : string) (c : CacheLayer) : CacheLayer * option (list TenantSkill) :=
  let '(s, r) := Get tenantID (tenantSkills c) in (with_skills c s, r).
Definition PutTenantSkills (tenantID : string) (skills : list TenantSkill) (c : CacheLayer) : CacheLayer :=
  with_skills c (Put tenantID skills (tenantSkills c)).
Definition InvalidateTenantSkills (tenantID : string) (c : CacheLayer) : CacheLayer :=
  with_skills c (Delete tenantID (tenantSkills c)).

Definition GetSkillContent (key : string) (c : CacheLayer) : CacheLayer * option string :=
  let '(s, r) := Get key (skillContent c) in (with_content c s, r).
Definition PutSkillContent (key localPath : string) (c : CacheLayer) : CacheLayer :=
  with_content c (Put key localPath (skillContent c)).
End cache_layer.

(** ** [EmbeddingCache]: the same cache on digests of the texts *)

Section embedding.
(** [digest] is [hash], the hexadecimal MD5 sum; [V] a vector of floats. *)
Context {V : Type} (hash : string → string).
Implicit Types (c : @lruCache string V _ _).

Definition NewEmbeddingCache (maxSize : Z) : @lruCache string V _ _ :=
  NewLRU (if maxSize <=? 0 then 10000 else maxSize).
Definition ec_Get (text : string) c := Get (hash text) c.
Definition ec_Set (text : string) (vec : V) c := Put (hash text) vec c.
(** [Clear] allocates a new map and list; the old elements are garbage. *)
Definition ec_Clear c : @lruCache string V _ _ :=
  {| capacity := capacity c; items := ∅; order := []; heap := heap c; next := next c |}.
Definition ec_Size c : Z := Z.of_nat (length (order c)).

Inductive ec_op := EGet (text : string) | ESet (text : string) (vec : V) | EClear.

Definition ec_step c (o : ec_op) : @lruCache string V _ _ :=
  match o with EGet t => (ec_Get t c).1 | ESet t v => ec_Set t v c | EClear => ec_Clear c end.

Definition ec_run (maxSize : Z) (ops : list ec_op) := fold_left ec_step ops (NewEmbeddingCache maxSize).

(** The texts stored since the last [Clear], as an unbounded map of digests. *)
Definition ec_store (m : gmap string V) (o : ec_op) : gmap string V :=
  match o with EGet _ => m | ESet t v => <[hash t := v]> m | EClear => ∅ end.

Definition ec_inv (cap : Z) c (m : gmap string V) : Prop :=
  lru_wf c ∧ capacity c = cap ∧ Z.of_nat (length (abs c)) ≤ Z.max 1 cap ∧ agrees (abs c) m.

Lemma ec_step_inv cap o c m : ec_inv cap c m → ec_inv cap (ec_step c o) (ec_store m o).
Proof.
  assert (Hlru : ∀ o, ec_inv cap c m → ec_inv cap (lru_step o c).1 (store_step m o)).
  { intros o' (Hwf & Hc & Hl & Ha). destruct (lru_step_refines o' c Hwf) as (Hwf' & Hc' & Hstep).
    rewrite Hc in *. destruct (lru_step o' c) as [c' r]. simpl in *.
    apply (f_equal fst) in Hstep. simpl in Hstep. unfold ec_inv. rewrite <- Hstep.
    split_and!; [done..|by apply spec_step_length; [apply abs_NoDup|]|by apply spec_step_agrees]. }
  intros Hinv. destruct o as [t|t v|].
  - apply (Hlru (LGet (hash t)) Hinv).
  - apply (Hlru (LPut (hash t) v) Hinv).
  - destruct Hinv as (Hwf & Hc & Hl & Ha). split_and!; [|done| |].
    + split_and!; simpl; [constructor| |].
      * intros k el. rewrite lookup_empty. split; [done|]. intros [?%elem_of_nil _]. done.
      * intros el ?%elem_of_nil. done.
    + simpl. lia.
    + intros kv ?%elem_of_nil. done.
Qed.

Lemma ec_run_inv maxSize ops :
  ec_inv (if maxSize <=? 0 then 10000 else maxSize) (ec_run maxSize ops) (fold_left ec_store ops ∅).
Proof.
  induction ops as [|o ops IH] using rev_ind.
  - split_and!; [apply NewLRU_wf|done|simpl; lia|]. intros kv ?%elem_of_nil. done.
  - unfold ec_run. rewrite !fold_left_app. by apply ec_step_inv.
Qed.

(** The embedding cache never exceeds its size limit, with 10000 for a limit that is
    not positive, returns only a vector stored since the last [Clear] for a text of the
    same digest, and finds a text that was just stored. *)
Theorem embedding_cache_correct maxSize ops text :
  let c := ec_run maxSize ops in
  ec_Size c ≤ (if maxSize <=? 0 then 10000 else maxSize) ∧
  (∀ vec, (ec_Get text c).2 = Some vec → fold_left ec_store ops ∅ !! hash text = Some vec) ∧
  (∀ vec, (ec_Get text (ec_Set text vec c)).2 = Some vec) ∧
  (ec_Get text (ec_Clear c)).2 = None.
Proof.
  intros c. destruct (ec_run_inv maxSize ops) as (Hwf & Hc & Hl & Ha). fold c in Hwf, Hc, Hl, Ha.
  assert (Hget : ∀ c', lru_wf c' → (ec_Get text c').2 = assoc (hash text) (abs c')).
  { intros c' Hwf'. rewrite (abs_assoc c' _ Hwf'). unfold ec_Get, Get. by destruct (items c' !! hash text). }
  split_and!.
  - unfold ec_Size. rewrite <- length_abs by done. destruct (Z.leb_spec maxSize 0); lia.
  - intros vec. rewrite Hget by done. intros Hin%assoc_elem. apply (Ha _ Hin).
  - intros vec. destruct (lru_step_refines (LPut (hash text) vec) c Hwf) as (Hwf' & _ & Hstep).
    simpl in *. change (ec_Set text vec c) with (Put (hash text) vec c).
    rewrite Hget by done. injection Hstep as Hstep. rewrite <- Hstep.
    unfold spec_put. destruct (assoc (hash text) (abs c)); rewrite assoc_cons; by rewrite decide_True.
  - unfold ec_Get, Get, ec_Clear; simpl. by rewrite lookup_empty.
Qed.
End embedding.
