(* ===== verification/Bus.v ===== *)
(** [pkg/bus/bus.go]: the in-process message bus.

    A buffered Go channel is the list of its messages, oldest first, with a capacity.
    A [select] is the list of the outcomes of its ready cases, from which Go picks any:
    the empty list means that the goroutine blocks.  The calls of the goroutines
    interleave at the points where the code synchronises: the load of [closed], each
    [select], the swap of [closed] and the closing of [done]. *)
From S2P Require Import Prelude GoStrings Types.

(** [ErrBusClosed], or the error [ctx.Err()] of the caller's context. *)
Inductive bus_error := ErrBusClosed | CtxErr (e : goerror).

Definition DefaultBufferSize : Z := 100.

Record ChannelBus := {
  bufferSize : Z; inbound : list InboundMessage; outbound : list OutboundMessage;
  closed : bool; done : bool;
}.

Definition New (size : Z) : ChannelBus :=
  {| bufferSize := if size <=? 0 then DefaultBufferSize else size;
     inbound := []; outbound := []; closed := false; done := false |}.

Definition set_inbound (l : list InboundMessage) (b : ChannelBus) : ChannelBus :=
  {| bufferSize := bufferSize b; inbound := l; outbound := outbound b; closed := closed b; done := done b |}.
Definition set_outbound (l : list OutboundMessage) (b : ChannelBus) : ChannelBus :=
  {| bufferSize := bufferSize b; inbound := inbound b; outbound := l; closed := closed b; done := done b |}.

(** ** The three [select] statements, for a channel of any message type *)

Section select.
Context {M : Type}.

(** The select of [Publish*]: the new buffer and the result; [ctx] is the caller's
    context error, if it is cancelled. *)
Definition publish_select (cap : Z) (dn : bool) (ctx : option goerror) (m : M) (buf : list M)
    : list (list M * option bus_error) :=
  (if Z.of_nat (length buf) <? cap then [(buf ++ [m], None)] else [])
  ++ (match ctx with Some e => [(buf, Some (CtxErr e))] | None => [] end)
  ++ (if dn then [(buf, Some ErrBusClosed)] else []).

(** The outer select of [Consume*]: [None] is the [done] case, which goes on to drain. *)
Definition consume_select (dn : bool) (ctx : option goerror) (buf : list M)
    : list (list M * option (result bus_error M)) :=
  (match buf with m :: rest => [(rest, Some (Ok m))] | [] => [] end)
  ++ (match ctx with Some e => [(buf, Some (Err (CtxErr e)))] | None => [] end)
  ++ (if dn then [(buf, None)] else []).

(** The inner select with a [default]; the channel is never closed, so [ok] holds. *)
Definition drain_select (buf : list M) : list M * result bus_error M :=
  match buf with m :: rest => (rest, Ok m) | [] => (buf, Err ErrBusClosed) end.
End select.

(** ** The operations of the bus *)

(** The load of [closed] at the start of [PublishInbound] and [PublishOutbound]. *)
Definition publish_check (b : ChannelBus) : option bus_error :=
  if closed b then Some ErrBusClosed else None.

Definition PublishInbound (ctx : option goerror) (m : InboundMessage) (b : ChannelBus)
    : list (ChannelBus * option bus_error) :=
  prod_map (λ l, set_inbound l b) id <$> publish_select (bufferSize b) (done b) ctx m (inbound b).
Definition PublishOutbound (ctx : option goerror) (m : OutboundMessage) (b : ChannelBus)
    : list (ChannelBus * option bus_error) :=
  prod_map (λ l, set_outbound l b) id <$> publish_select (bufferSize b) (done b) ctx m (outbound b).
Definition ConsumeInbound (ctx : option goerror) (b : ChannelBus)
    : list (ChannelBus * option (result bus_error InboundMessage)) :=
  prod_map (λ l, set_inbound l b) id <$> consume_select (done b) ctx (inbound b).
Definition ConsumeOutbound (ctx : option goerror) (b : ChannelBus)
    : list (ChannelBus * option (result bus_error OutboundMessage)) :=
  prod_map (λ l, set_outbound l b) id <$> consume_select (done b) ctx (outbound b).
Definition drainInbound (b : ChannelBus) : ChannelBus * result bus_error InboundMessage :=
  prod_map (λ l, set_inbound l b) id (drain_select (inbound b)).
Definition drainOutbound (b : ChannelBus) : ChannelBus * result bus_error OutboundMessage :=
  prod_map (λ l, set_outbound l b) id (drain_select (outbound b)).

Definition InboundSize (b : ChannelBus) : Z := Z.of_nat (length (inbound b)).
Definition OutboundSize (b : ChannelBus) : Z := Z.of_nat (length (outbound b)).

(** [b.closed.Swap(true)]: the old value. *)
Definition close_swap (b : ChannelBus) : ChannelBus * bool :=
  ({| bufferSize := bufferSize b; inbound := inbound b; outbound := outbound b;
      closed := true; done := done b |}, closed b).
(** [close(b.done)]; closing it twice would panic. *)
Definition close_done (b : ChannelBus) : option ChannelBus :=
  if done b then None
  else Some {| bufferSize := bufferSize b; inbound := inbound b; outbound := outbound b;
               closed := closed b; done := true |}.

(** ** Interleavings *)

(** Where a goroutine is inside a call of the bus. *)
Inductive bus_pc :=
| PubIn (m : InboundMessage) | PubOut (m : OutboundMessage)
| ConIn | ConOut | DrainIn | DrainOut | Closing.

(** What a call returned. *)
Inductive bus_ret :=
| RPub (e : option bus_error)
| RConIn (r : result bus_error InboundMessage)
| RConOut (r : result bus_error OutboundMessage)
| RClose.

Record bus_state := {
  the_bus : ChannelBus;
  pcs : gmap nat bus_pc;                (* goroutines inside a call *)
  rets : list (nat * bus_ret);          (* the calls that returned, oldest first *)
  acc_in : list InboundMessage; del_in : list InboundMessage;    (* accepted, delivered *)
  acc_out : list OutboundMessage; del_out : list OutboundMessage;
}.

Definition bus_init (size : Z) : bus_state :=
  {| the_bus := New size; pcs := ∅; rets := []; acc_in := []; del_in := []; acc_out := []; del_out := [] |}.

Definition enter (t : nat) (p : bus_pc) (b : ChannelBus) (s : bus_state) : bus_state :=
  {| the_bus := b; pcs := <[t := p]> (pcs s); rets := rets s;
     acc_in := acc_in s; del_in := del_in s; acc_out := acc_out s; del_out := del_out s |}.

(** Return from a call; the message a publisher sent is accepted, the one a consumer
    gets is delivered. *)
Definition return_ (t : nat) (r : bus_ret) (p : bus_pc) (b : ChannelBus) (s : bus_state) : bus_state :=
  {| the_bus := b; pcs := delete t (pcs s); rets := rets s ++ [(t, r)];
     acc_in := match r, p with RPub None, PubIn m => acc_in s ++ [m] | _, _ => acc_in s end;
     del_in := match r with RConIn (Ok m) => del_in s ++ [m] | _ => del_in s end;
     acc_out := match r, p with RPub None, PubOut m => acc_out s ++ [m] | _, _ => acc_out s end;
     del_out := match r with RConOut (Ok m) => del_out s ++ [m] | _ => del_out s end |}.

(** One step of goroutine [t]; [ctx] is the state of its context at that moment. *)
Inductive bus_step : bus_state → bus_state → Prop :=
| step_publish_closed s t p e :
    pcs s !! t = None → (∃ m, p = PubIn m) ∨ (∃ m, p = PubOut m) →
    publish_check (the_bus s) = Some e →
    bus_step s (return_ t (RPub (Some e)) p (the_bus s) s)
| step_publish_enter s t p :
    pcs s !! t = None → (∃ m, p = PubIn m) ∨ (∃ m, p = PubOut m) →
    publish_check (the_bus s) = None → bus_step s (enter t p (the_bus s) s)
| step_consume_enter s t p :
    pcs s !! t = None → p = ConIn ∨ p = ConOut → bus_step s (enter t p (the_bus s) s)
| step_publish_in s t m ctx b r :
    pcs s !! t = Some (PubIn m) → (b, r) ∈ PublishInbound ctx m (the_bus s) →
    bus_step s (return_ t (RPub r) (PubIn m) b s)
| step_publish_out s t m ctx b r :
    pcs s !! t = Some (PubOut m) → (b, r) ∈ PublishOutbound ctx m (the_bus s) →
    bus_step s (return_ t (RPub r) (PubOut m) b s)
| step_consume_in s t ctx b r :
    pcs s !! t = Some ConIn → (b, r) ∈ ConsumeInbound ctx (the_bus s) →
    bus_step s (match r with Some r => return_ t (RConIn r) ConIn b s | None => enter t DrainIn b s end)
| step_consume_out s t ctx b r :
    pcs s !! t = Some ConOut → (b, r) ∈ ConsumeOutbound ctx (the_bus s) →
    bus_step s (match r with Some r => return_ t (RConOut r) ConOut b s | None => enter t DrainOut b s end)
| step_drain_in s t b r :
    pcs s !! t = Some DrainIn → drainInbound (the_bus s) = (b, r) →
    bus_step s (return_ t (RConIn r) DrainIn b s)
| step_drain_out s t b r :
    pcs s !! t = Some DrainOut → drainOutbound (the_bus s) = (b, r) →
    bus_step s (return_ t (RConOut r) DrainOut b s)
| step_close_swap s t b already :
    pcs s !! t = None → close_swap (the_bus s) = (b, already) →
    bus_step s (if already : bool then return_ t RClose Closing b s else enter t Closing b s)
| step_close_done s t b :
    pcs s !! t = Some Closing → close_done (the_bus s) = Some b →
    bus_step s (return_ t RClose Closing b s).

Inductive bus_reachable (size : Z) : bus_state → Prop :=
| bus_start : bus_reachable size (bus_init size)
| bus_next s s' : bus_reachable size s → bus_step s s' → bus_reachable size s'.

(** ** Lemmas *)

(** One channel: what was accepted is what was delivered followed by the buffer. *)
Definition chan_ok {M} (cap : Z) (buf acc del : list M) : Prop :=
  acc = del ++ buf ∧ Z.of_nat (length buf) ≤ cap.

Lemma publish_select_ok {M} cap dn ctx (m : M) buf acc del buf' r :
  chan_ok cap buf acc del → (buf', r) ∈ publish_select cap dn ctx m buf →
  chan_ok cap buf' (if r is None then acc ++ [m] else acc) del.
Proof.
  unfold publish_select, chan_ok. intros [-> Hl].
  rewrite !elem_of_app. intros [H|[H|H]].
  - destruct (Z.ltb_spec (Z.of_nat (length buf)) cap); [|by apply elem_of_nil in H].
    apply list_elem_of_singleton in H. simplify_eq. split; [by rewrite app_assoc|rewrite length_app; simpl; lia].
  - destruct ctx; [|by apply elem_of_nil in H]. apply list_elem_of_singleton in H. by simplify_eq.
  - destruct dn; [|by apply elem_of_nil in H]. apply list_elem_of_singleton in H. by simplify_eq.
Qed.

Lemma consume_select_ok {M} cap dn ctx (buf acc del buf' : list M) r :
  chan_ok cap buf acc del → (buf', r) ∈ consume_select dn ctx buf →
  chan_ok cap buf' acc (match r with Some (Ok m) => del ++ [m] | _ => del end) ∧ (r = None → dn = true).
Proof.
  unfold consume_select, chan_ok. intros [-> Hl].
  rewrite !elem_of_app. intros [H|[H|H]].
  - destruct buf as [|m buf]; [by apply elem_of_nil in H|].
    apply list_elem_of_singleton in H. simplify_eq. rewrite <- app_assoc. cbn [length] in Hl. split; [split; [done|lia]|done].
  - destruct ctx; [|by apply elem_of_nil in H]. apply list_elem_of_singleton in H. by simplify_eq.
  - destruct dn; [|by apply elem_of_nil in H]. apply list_elem_of_singleton in H. by simplify_eq.
Qed.

Lemma drain_select_ok {M} cap (buf acc del buf' : list M) r :
  chan_ok cap buf acc del → drain_select buf = (buf', r) →
  chan_ok cap buf' acc (match r with Ok m => del ++ [m] | _ => del end).
Proof.
  unfold drain_select, chan_ok. intros [-> Hl] H. destruct buf as [|m buf]; simplify_eq; [done|].
  rewrite <- app_assoc. cbn [length] in Hl. split; [done|lia].
Qed.



Definition chans_inv (size : Z) (s : bus_state) : Prop :=
  let b := the_bus s in
  bufferSize b = bufferSize (New size) ∧
  chan_ok (bufferSize b) (inbound b) (acc_in s) (del_in s) ∧
  chan_ok (bufferSize b) (outbound b) (acc_out s) (del_out s).

Lemma pair_map_elem {A B C} (f : A → B) (l : list (A * C)) b c :
  (b, c) ∈ (prod_map f id <$> l) → ∃ a, b = f a ∧ (a, c) ∈ l.
Proof. intros ([a c'] & Heq & ?)%list_elem_of_fmap. simpl in Heq. simplify_eq. by exists a. Qed.

Lemma bus_step_chans size s s' : chans_inv size s → bus_step s s' → chans_inv size s'.
Proof.
  intros (Hs & Hin & Hout) Hstep. unfold chans_inv.
  destruct Hstep as [s t p e ? Hp ?|s t p ? Hp ?|s t p ? Hp|s t m ctx b r ? H|s t m ctx b r ? H
    |s t ctx b r ? H|s t ctx b r ? H|s t b r ? H|s t b r ? H|s t b already ? H|s t b ? H].
  - destruct Hp as [[m ->]|[m ->]]; done.
  - done.
  - done.
  - apply pair_map_elem in H as (l & -> & H). pose proof (publish_select_ok _ _ _ _ _ _ _ _ _ Hin H). by destruct r.
  - apply pair_map_elem in H as (l & -> & H). pose proof (publish_select_ok _ _ _ _ _ _ _ _ _ Hout H). by destruct r.
  - apply pair_map_elem in H as (l & -> & H).
    destruct (consume_select_ok _ _ _ _ _ _ _ _ Hin H) as [? _]. by destruct r as [[]|].
  - apply pair_map_elem in H as (l & -> & H).
    destruct (consume_select_ok _ _ _ _ _ _ _ _ Hout H) as [? _]. by destruct r as [[]|].
  - unfold drainInbound in H. destruct (drain_select _) as [l r'] eqn:Hd. simplify_eq/=.
    pose proof (drain_select_ok _ _ _ _ _ _ Hin Hd). by destruct r.
  - unfold drainOutbound in H. destruct (drain_select _) as [l r'] eqn:Hd. simplify_eq/=.
    pose proof (drain_select_ok _ _ _ _ _ _ Hout Hd). by destruct r.
  - unfold close_swap in H. simplify_eq. by destruct (closed (the_bus s)).
  - unfold close_done in H. destruct (done _); by simplify_eq.
Qed.

(** The control state: who may be draining or closing. *)
Definition ctl_inv (s : bus_state) : Prop :=
  let b := the_bus s in
  (done b = true → closed b = true) ∧
  (∀ t, pcs s !! t = Some DrainIn ∨ pcs s !! t = Some DrainOut → done b = true) ∧
  (∀ t, pcs s !! t = Some Closing →
     closed b = true ∧ done b = false ∧ ∀ t', pcs s !! t' = Some Closing → t = t') ∧
  ((∀ t, pcs s !! t ≠ Some Closing) → closed b = done b).

(** A step that leaves the flags alone and moves [t], which is not closing. *)
Lemma ctl_inv_move s s' t :
  ctl_inv s → closed (the_bus s') = closed (the_bus s) → done (the_bus s') = done (the_bus s) →
  pcs s !! t ≠ Some Closing → pcs s' !! t ≠ Some Closing →
  (pcs s' !! t = Some DrainIn ∨ pcs s' !! t = Some DrainOut → done (the_bus s) = true) →
  (∀ t', t' ≠ t → pcs s' !! t' = pcs s !! t') → ctl_inv s'.
Proof.
  intros (H1 & H2 & H3 & H4) Hc Hd Ht Ht' Hdr Hpcs. unfold ctl_inv. rewrite Hc, Hd.
  assert (Hcl : ∀ t', pcs s' !! t' = Some Closing ↔ pcs s !! t' = Some Closing).
  { intros t'. destruct (decide (t' = t)) as [->|]; [done|by rewrite Hpcs]. }
  split_and!; [done| | |].
  - intros t' Hd'. destruct (decide (t' = t)) as [->|]; [by apply Hdr|]. rewrite Hpcs in Hd' by done. eauto.
  - intros t' Hcl'%Hcl. destruct (H3 _ Hcl') as (? & ? & Hu). split_and!; [done..|].
    intros t'' ?%Hcl. by apply Hu.
  - intros Hno. apply H4. intros t' ?%Hcl. by apply (Hno t').
Qed.

Ltac ctl_move t :=
  match goal with H : ctl_inv _ |- _ => apply (ctl_inv_move _ _ t H) end; simpl;
  [done|done|congruence
  |rewrite ?lookup_insert_eq, ?lookup_delete_eq; congruence
  |rewrite ?lookup_insert_eq, ?lookup_delete_eq; first [by auto|intros [?|?]; congruence]
  |intros ??; by rewrite ?lookup_insert_ne, ?lookup_delete_ne by congruence].

Lemma bus_step_ctl s s' : ctl_inv s → bus_step s s' → ctl_inv s'.
Proof.
  intros Hinv Hstep. pose proof Hinv as (H1 & H2 & H3 & H4).
  destruct Hstep as [s t p e Ht Hp ?|s t p Ht Hp ?|s t p Ht Hp|s t m ctx b r Ht H|s t m ctx b r Ht H
    |s t ctx b r Ht H|s t ctx b r Ht H|s t b r Ht H|s t b r Ht H|s t b already Ht H|s t b Ht H].
  - ctl_move t.
  - destruct Hp as [[m ->]|[m ->]]; ctl_move t.
  - destruct Hp as [-> | ->]; ctl_move t.
  - apply pair_map_elem in H as (l & -> & H). ctl_move t.
  - apply pair_map_elem in H as (l & -> & H). ctl_move t.
  - apply pair_map_elem in H as (l & -> & H).
    destruct (consume_select_ok (Z.of_nat (length (inbound (the_bus s)))) _ _ _ _ _ _ _
      (conj (eq_refl ([] ++ inbound (the_bus s))) (Z.le_refl _)) H) as [_ Hd].
    destruct r as [r|]; ctl_move t.
  - apply pair_map_elem in H as (l & -> & H).
    destruct (consume_select_ok (Z.of_nat (length (outbound (the_bus s)))) _ _ _ _ _ _ _
      (conj (eq_refl ([] ++ outbound (the_bus s))) (Z.le_refl _)) H) as [_ Hd].
    destruct r as [r|]; ctl_move t.
  - unfold drainInbound in H. destruct (drain_select _). simplify_eq/=. ctl_move t.
  - unfold drainOutbound in H. destruct (drain_select _). simplify_eq/=. ctl_move t.
  - unfold close_swap in H. simplify_eq. destruct (closed (the_bus s)) eqn:Hc.
    + ctl_move t.
    + assert (Hno : ∀ t', pcs s !! t' ≠ Some Closing) by (intros t' [??]%H3; congruence).
      specialize (H4 Hno). unfold ctl_inv; simpl. split_and!; [done| | |].
      * intros t' Hd. destruct (decide (t' = t)) as [->|].
        -- rewrite lookup_insert_eq in Hd. naive_solver.
        -- rewrite lookup_insert_ne in Hd by done. eauto.
      * intros t' Hcl. split_and!; [done|congruence|]. intros t'' Hcl'.
        destruct (decide (t' = t)) as [->|], (decide (t'' = t)) as [->|]; [done| | |];
          rewrite ?lookup_insert_ne in * by done; by edestruct Hno.
      * intros Hno'. destruct (Hno' t). by rewrite lookup_insert_eq.
  - unfold close_done in H. destruct (done (the_bus s)) eqn:Hd; [done|]. simplify_eq.
    destruct (H3 _ Ht) as (Hc & _ & Hu). unfold ctl_inv; simpl. split_and!; [done|done| |done].
    intros t' [Hne Hcl]%lookup_delete_Some. by destruct Hne; apply Hu.
Qed.

Lemma bus_reachable_inv size s : bus_reachable size s → chans_inv size s ∧ ctl_inv s.
Proof.
  induction 1 as [|s s' _ [IH1 IH2] Hstep].
  - split; [|by split_and!; intros *; rewrite ?lookup_empty; naive_solver].
    unfold chans_inv, chan_ok; simpl. destruct (Z.leb_spec size 0); unfold DefaultBufferSize; split_and!; (done || lia).
  - eauto using bus_step_chans, bus_step_ctl.
Qed.

(** ** Properties *)

(** Under every interleaving of publishers, consumers and closers, in both
    directions the accepted messages are the delivered ones followed by the buffer:
    nothing is lost, duplicated or reordered; and the buffer holds at most its size. *)
Theorem bus_fifo size s :
  bus_reachable size s →
  acc_in s = del_in s ++ inbound (the_bus s) ∧ acc_out s = del_out s ++ outbound (the_bus s) ∧
  InboundSize (the_bus s) ≤ (if size <=? 0 then DefaultBufferSize else size) ∧
  OutboundSize (the_bus s) ≤ (if size <=? 0 then DefaultBufferSize else size).
Proof.
  intros [(Hs & [? Hi] & [? Ho]) _]%bus_reachable_inv. simpl in Hs. by rewrite Hs in Hi, Ho.
Qed.


Lemma closed_monotone s s' : bus_step s s' → closed (the_bus s) = true → closed (the_bus s') = true.
Proof.
  intros Hstep Hc.
  destruct Hstep as [| | |s t m ctx b r ? H|s t m ctx b r ? H
    |s t ctx b r ? H|s t ctx b r ? H|s t b r ? H|s t b r ? H|s t b already ? H|s t b ? H]; try done.
  - by apply pair_map_elem in H as (l & -> & _).
  - by apply pair_map_elem in H as (l & -> & _).
  - apply pair_map_elem in H as (l & -> & _). by destruct r.
  - apply pair_map_elem in H as (l & -> & _). by destruct r.
  - unfold drainInbound in H. destruct (drain_select _). by simplify_eq/=.
  - unfold drainOutbound in H. destruct (drain_select _). by simplify_eq/=.
  - unfold close_swap in H. simplify_eq. by destruct (closed (the_bus s)).
  - unfold close_done in H. destruct (done _); by simplify_eq.
Qed.

(** What [Close] does and does not promise.  A publish that starts once the bus is
    closed, now or after any further steps, is refused.  But one that had passed the
    check before is not: [Close] can return, a consumer can drain the empty buffer and
    be told that the bus is closed, and the publisher then still gets success for a
    message that stays in the buffer. *)
Theorem bus_close_race size m :
  (∀ s s', bus_reachable size s → closed (the_bus s) = true → rtc bus_step s s' →
     publish_check (the_bus s') = Some ErrBusClosed) ∧
  (∃ s, bus_reachable size s ∧
     rets s = [(1%nat, RClose); (2%nat, RConIn (Err ErrBusClosed)); (0%nat, RPub None)] ∧
     inbound (the_bus s) = [m] ∧ del_in s = [] ∧ pcs s = ∅).
Proof.
  split.
  - intros s s' _ Hc Hsteps. unfold publish_check.
    assert (closed (the_bus s') = true) as ->; [|done].
    induction Hsteps as [s|s s1 s' Hstep _ IH]; [done|]. apply IH. by eapply closed_monotone.
  - assert (Hcap : (0 <? (if size <=? 0 then DefaultBufferSize else size)) = true).
    { destruct (Z.leb_spec size 0); [done|]. by apply Z.ltb_lt. }
    set (s0 := bus_init size).
    set (s1 := enter 0 (PubIn m) (the_bus s0) s0).
    set (s2 := enter 1 Closing (close_swap (the_bus s1)).1 s1).
    set (s3 := return_ 1 RClose Closing (default (the_bus s2) (close_done (the_bus s2))) s2).
    set (s4 := enter 2 ConIn (the_bus s3) s3).
    set (s5 := enter 2 DrainIn (the_bus s4) s4).
    set (s6 := return_ 2 (RConIn (Err ErrBusClosed)) DrainIn (the_bus s5) s5).
    pose proof (bus_start size : bus_reachable size s0) as R.
    pose proof (bus_next _ _ s1 R (step_publish_enter s0 0 (PubIn m) eq_refl (or_introl (ex_intro _ m eq_refl)) eq_refl)) as R1.
    pose proof (bus_next _ _ s2 R1 (step_close_swap s1 1 _ _ eq_refl eq_refl)) as R2.
    pose proof (bus_next _ _ s3 R2 (step_close_done s2 1 _ eq_refl eq_refl)) as R3.
    pose proof (bus_next _ _ s4 R3 (step_consume_enter s3 2 ConIn eq_refl (or_introl eq_refl))) as R4.
    assert (Hc : (the_bus s4, None) ∈ ConsumeInbound None (the_bus s4)) by by left.
    pose proof (bus_next _ _ s5 R4 (step_consume_in s4 2 None _ None eq_refl Hc)) as R5.
    pose proof (bus_next _ _ s6 R5 (step_drain_in s5 2 _ _ eq_refl eq_refl)) as R6.
    assert (Hp : (set_inbound [m] (the_bus s6), None) ∈ PublishInbound None m (the_bus s6)).
    { unfold PublishInbound, publish_select. 
      assert (Hb : (Z.of_nat (length (inbound (the_bus s6))) <? bufferSize (the_bus s6)) = true) by exact Hcap.
      rewrite Hb. by left. }
    exists (return_ 0 (RPub None) (PubIn m) (set_inbound [m] (the_bus s6)) s6).
    split; [exact (bus_next _ _ _ R6 (step_publish_in s6 0 m None _ None eq_refl Hp))|]. by split_and!.
Qed.

Lemma bus_close_race_witness :
  publish_check (enter 7 Closing (close_swap (the_bus (bus_init 1))).1 (bus_init 1)).(the_bus) = Some ErrBusClosed.
Proof.
  refine (proj1 (bus_close_race 1 zero_inbound) _ _ _ _ (rtc_refl _ _)); [|reflexivity].
  exact (bus_next _ _ _ (bus_start 1) (step_close_swap (bus_init 1) 7 _ _ eq_refl eq_refl)).
Defined.

Lemma bus_fifo_witness :
  InboundSize (the_bus (bus_init 0)) ≤ DefaultBufferSize.
Proof. apply (bus_fifo 0 (bus_init 0)), bus_start. Defined.

