(* ===== verification/Lock.v ===== *)
(** [pkg/lock/session.go]: one write lock per session.

    A mutex is a number; [held] is the set of the locked ones.  [Lock] looks the mutex
    up under [s.mu] and locks it after releasing [s.mu], so other goroutines run in
    between; the model has a step for each half.  [Cleanup] holds [s.mu] and treats one
    key at a time, which is the step [cleanup_key]. *)
From S2P Require Import Prelude.

Record SessionLock := { locks : gmap string nat; held : gset nat; next_mutex : nat }.

Definition NewSessionLock : SessionLock := {| locks := ∅; held := ∅; next_mutex := 0 |}.

(** First half of [Lock]: find or create the mutex of the session. *)
Definition lock_lookup (key : string) (s : SessionLock) : SessionLock * nat :=
  match locks s !! key with
  | Some m => (s, m)
  | None => ({| locks := <[key := next_mutex s]> (locks s); held := held s; next_mutex := S (next_mutex s) |},
             next_mutex s)
  end.

(** [lock.Lock()] on a mutex: [None] while it is held. *)
Definition mutex_lock (m : nat) (s : SessionLock) : option SessionLock :=
  if decide (m ∈ held s) then None
  else Some {| locks := locks s; held := {[m]} ∪ held s; next_mutex := next_mutex s |}.

(** [lock.Unlock()]: [None] is Go's fatal error for a mutex that is not locked. *)
Definition mutex_unlock (m : nat) (s : SessionLock) : option SessionLock :=
  if decide (m ∈ held s)
  then Some {| locks := locks s; held := held s ∖ {[m]}; next_mutex := next_mutex s |}
  else None.

(** First half of [Unlock]: the mutex the map holds for the session now. *)
Definition unlock_lookup (key : string) (s : SessionLock) : option nat := locks s !! key.

(** Second half: nothing happens when the session has no entry. *)
Definition unlock_release (lock : option nat) (s : SessionLock) : option SessionLock :=
  match lock with Some m => mutex_unlock m s | None => Some s end.

(** [if lock.TryLock() { lock.Unlock(); delete(s.locks, key) }]. *)
Definition cleanup_key (key : string) (s : SessionLock) : SessionLock * bool :=
  match locks s !! key with
  | Some m =>
      if decide (m ∈ held s) then (s, false)
      else ({| locks := delete key (locks s); held := held s; next_mutex := next_mutex s |}, true)
  | None => (s, false)
  end.

(** The loop over the map in some order of its keys; the result counts the removals. *)
Definition Cleanup (order : list string) (s : SessionLock) : SessionLock * Z :=
  fold_left (λ '(s, n) key, let '(s, r) := cleanup_key key s in (s, if r : bool then n + 1 else n)) order (s, 0).

(** ** Goroutines that run [WithLock] *)

Inductive lock_pc :=
| Waiting (key : string) (m : nat)          (* between the two halves of Lock *)
| Holding (key : string)                    (* running the function *)
| Releasing (key : string) (m : option nat). (* between the two halves of Unlock *)

Record lock_state := { sl : SessionLock; threads : gmap nat lock_pc; fatal : bool }.

Definition lock_init : lock_state := {| sl := NewSessionLock; threads := ∅; fatal := false |}.

Definition goto (t : nat) (p : lock_pc) (l : SessionLock) (s : lock_state) : lock_state :=
  {| sl := l; threads := <[t := p]> (threads s); fatal := fatal s |}.

(** With [quiet] set, [Cleanup] only meets sessions nobody is waiting for. *)
Inductive lock_step (quiet : bool) : lock_state → lock_state → Prop :=
| step_lookup s t key l m :
    threads s !! t = None → lock_lookup key (sl s) = (l, m) →
    lock_step quiet s (goto t (Waiting key m) l s)
| step_acquire s t key m l :
    threads s !! t = Some (Waiting key m) → mutex_lock m (sl s) = Some l →
    lock_step quiet s (goto t (Holding key) l s)
| step_unlock s t key :
    threads s !! t = Some (Holding key) →
    lock_step quiet s (goto t (Releasing key (unlock_lookup key (sl s))) (sl s) s)
| step_release s t key o :
    threads s !! t = Some (Releasing key o) →
    lock_step quiet s
      match unlock_release o (sl s) with
      | Some l => {| sl := l; threads := delete t (threads s); fatal := fatal s |}
      | None => {| sl := sl s; threads := delete t (threads s); fatal := true |}
      end
| step_cleanup s key :
    (quiet = true → ∀ t m, threads s !! t ≠ Some (Waiting key m)) →
    lock_step quiet s {| sl := (cleanup_key key (sl s)).1; threads := threads s; fatal := fatal s |}.

Inductive lock_reachable (quiet : bool) : lock_state → Prop :=
| lock_start : lock_reachable quiet lock_init
| lock_next s s' : lock_reachable quiet s → lock_step quiet s s' → lock_reachable quiet s'.

(** ** Lemmas *)

(** [t] has the session's lock: it runs the function or is about to release. *)
Definition owns (s : lock_state) (t : nat) (key : string) : Prop :=
  threads s !! t = Some (Holding key) ∨ ∃ o, threads s !! t = Some (Releasing key o).

Record lock_inv (s : lock_state) : Prop := {
  inv_inj : ∀ k k' m, locks (sl s) !! k = Some m → locks (sl s) !! k' = Some m → k = k';
  inv_fresh : ∀ k m, locks (sl s) !! k = Some m → (m < next_mutex (sl s))%nat;
  inv_wait : ∀ t k m, threads s !! t = Some (Waiting k m) → locks (sl s) !! k = Some m;
  inv_own : ∀ t k, owns s t k → ∃ m, locks (sl s) !! k = Some m ∧ m ∈ held (sl s);
  inv_rel : ∀ t k o, threads s !! t = Some (Releasing k o) → o = locks (sl s) !! k;
  inv_one : ∀ t t' k, owns s t k → owns s t' k → t = t';
  inv_held : ∀ m, m ∈ held (sl s) → ∃ t k, locks (sl s) !! k = Some m ∧ owns s t k;
  inv_fatal : fatal s = false;
}.

Lemma owns_insert s l t p t' k :
  owns (goto t p l s) t' k ↔
  (t = t' ∧ (p = Holding k ∨ ∃ o, p = Releasing k o)) ∨ (t ≠ t' ∧ owns s t' k).
Proof.
  unfold owns, goto; simpl. destruct (decide (t = t')) as [->|Hne].
  - rewrite lookup_insert_eq. naive_solver.
  - rewrite lookup_insert_ne by done. naive_solver.
Qed.

Lemma owns_not_waiting s t k k' m : threads s !! t = Some (Waiting k m) → ¬ owns s t k'.
Proof. unfold owns. intros ->. naive_solver. Qed.

Lemma owns_same s t k k' : owns s t k → owns s t k' → k = k'.
Proof. unfold owns. naive_solver. Qed.

Lemma inv_lookup s t key l m :
  lock_inv s → threads s !! t = None → lock_lookup key (sl s) = (l, m) →
  lock_inv (goto t (Waiting key m) l s).
Proof.
  intros I Ht Hl.
  assert (Hlk : locks l !! key = Some m ∧ held l = held (sl s) ∧
    (∀ k m', locks (sl s) !! k = Some m' → locks l !! k = Some m') ∧
    (∀ k m', locks l !! k = Some m' → locks (sl s) !! k = Some m' ∨ (k = key ∧ m' = next_mutex (sl s) ∧ locks (sl s) !! key = None)) ∧
    (∀ k m', locks l !! k = Some m' → m' < next_mutex l)%nat).
  { unfold lock_lookup in Hl. destruct (locks (sl s) !! key) as [m0|] eqn:Hk; simplify_eq/=.
    - split_and!; try done; [by left; eauto|]. apply (inv_fresh _ I).
    - rewrite lookup_insert_eq. split_and!; try done.
      + intros k m' Hk'. rewrite lookup_insert_ne; [done|congruence].
      + intros k m' [[-> <-]|[? ?]]%lookup_insert_Some; auto.
      + intros k m' [[-> <-]|[? ?%(inv_fresh _ I)]]%lookup_insert_Some; lia. }
  destruct Hlk as (Hkey & Hheld & Hold & Hnew & Hlt).
  assert (Hown : ∀ t' k, owns (goto t (Waiting key m) l s) t' k ↔ owns s t' k).
  { intros t' k. rewrite owns_insert. split; [naive_solver|]. intros Ho. right. split; [|done].
    intros ->. unfold owns in Ho. naive_solver. }
  constructor; simpl; rewrite ?Hheld.
  - intros k k' m' H1 H2.
    destruct (Hnew _ _ H1) as [H1'|(-> & -> & ?)], (Hnew _ _ H2) as [H2'|(-> & ? & ?)]; subst; try done.
    + by apply (inv_inj _ I k k' m').
    + apply (inv_fresh _ I) in H1'. lia.
    + apply (inv_fresh _ I) in H2'. lia.
  - done.
  - intros t' k m' [[-> ?]|[? Hw]]%lookup_insert_Some; [by simplify_eq|]. by apply Hold, (inv_wait _ I t').
  - intros t' k (m' & ? & ?)%Hown%(inv_own _ I). eauto.
  - intros t' k o [[_ ?]|[? Hr]]%lookup_insert_Some; [done|].
    pose proof (inv_rel _ I _ _ _ Hr) as ->. destruct (inv_own _ I t' k) as (m' & Hm & _); [right; eauto|].
    rewrite Hm. symmetry. by apply Hold.
  - intros t1 t2 k H1%Hown H2%Hown. by apply (inv_one _ I _ _ k).
  - intros m' (t' & k & ? & ?)%(inv_held _ I). exists t', k. split; [by apply Hold|by apply Hown].
  - apply (inv_fatal _ I).
Qed.

Lemma inv_acquire s t key m l :
  lock_inv s → threads s !! t = Some (Waiting key m) → mutex_lock m (sl s) = Some l →
  lock_inv (goto t (Holding key) l s).
Proof.
  intros I Ht Hl. unfold mutex_lock in Hl. case_decide as Hm; [done|]. simplify_eq.
  pose proof (inv_wait _ I _ _ _ Ht) as Hkey.
  assert (Hno : ∀ t', ¬ owns s t' key).
  { intros t' (m' & Hm' & Hin)%(inv_own _ I). congruence. }
  constructor; simpl.
  - apply (inv_inj _ I).
  - apply (inv_fresh _ I).
  - intros t' k m' [[_ ?]|[? Hw]]%lookup_insert_Some; [done|]. by apply (inv_wait _ I t').
  - intros t' k [[-> [?|[??]]]|[? (m' & ? & ?)%(inv_own _ I)]]%owns_insert; simplify_eq; set_solver.
  - intros t' k o [[_ ?]|[? Hr]]%lookup_insert_Some; [done|]. by apply (inv_rel _ I t').
  - intros t1 t2 k [[-> H1]|[? H1]]%owns_insert [[-> H2]|[? H2]]%owns_insert; try done.
    + destruct H1 as [?|[??]]; simplify_eq. by destruct (Hno t2).
    + destruct H2 as [?|[??]]; simplify_eq. by destruct (Hno t1).
    + by apply (inv_one _ I _ _ k).
  - intros m' [->%elem_of_singleton|(t' & k & ? & Ho)%(inv_held _ I)]%elem_of_union.
    + exists t, key. split; [done|]. apply owns_insert. auto.
    + exists t', k. split; [done|]. apply owns_insert. right. split; [|done].
      intros ->. by apply (owns_not_waiting _ _ _ k _ Ht).
  - apply (inv_fatal _ I).
Qed.

Lemma inv_unlock s t key :
  lock_inv s → threads s !! t = Some (Holding key) →
  lock_inv (goto t (Releasing key (unlock_lookup key (sl s))) (sl s) s).
Proof.
  intros I Ht.
  assert (Hown : ∀ t' k, owns (goto t (Releasing key (unlock_lookup key (sl s))) (sl s) s) t' k ↔ owns s t' k).
  { intros t' k. rewrite owns_insert. split.
    - intros [[<- [?|[??]]]|[??]]; simplify_eq; [by left|done].
    - intros Ho. destruct (decide (t = t')) as [->|]; [|by right]. left. split; [done|]. right.
      rewrite (owns_same s t' k key Ho (or_introl Ht)). eauto. }
  constructor; simpl.
  - apply (inv_inj _ I).
  - apply (inv_fresh _ I).
  - intros t' k m' [[_ ?]|[? Hw]]%lookup_insert_Some; [done|]. by apply (inv_wait _ I t').
  - intros t' k ?%Hown. by apply (inv_own _ I t').
  - intros t' k o [[-> ?]|[? Hr]]%lookup_insert_Some; [by simplify_eq|]. by apply (inv_rel _ I t').
  - intros t1 t2 k H1%Hown H2%Hown. by apply (inv_one _ I _ _ k).
  - intros m' (t' & k & ? & ?)%(inv_held _ I). exists t', k. split; [done|by apply Hown].
  - apply (inv_fatal _ I).
Qed.

Lemma inv_release s t key o :
  lock_inv s → threads s !! t = Some (Releasing key o) →
  ∃ l, unlock_release o (sl s) = Some l ∧
    lock_inv {| sl := l; threads := delete t (threads s); fatal := fatal s |}.
Proof.
  intros I Ht. assert (Hme : owns s t key) by (right; eauto).
  destruct (inv_own _ I t key Hme) as (m & Hm & Hheld).
  rewrite (inv_rel _ I _ _ _ Ht), Hm. simpl. unfold mutex_unlock.
  rewrite decide_True by done. eexists. split; [done|].
  assert (Hown : ∀ t' k, owns {| sl := {| locks := locks (sl s); held := held (sl s) ∖ {[m]};
      next_mutex := next_mutex (sl s) |}; threads := delete t (threads s); fatal := fatal s |} t' k
      ↔ t ≠ t' ∧ owns s t' k).
  { intros t' k. unfold owns; simpl. setoid_rewrite lookup_delete_Some. naive_solver. }
  constructor; simpl.
  - apply (inv_inj _ I).
  - apply (inv_fresh _ I).
  - intros t' k m' [_ ?]%lookup_delete_Some. by apply (inv_wait _ I t').
  - intros t' k [Hne Ho]%Hown. destruct (inv_own _ I t' k Ho) as (m' & Hm' & ?). exists m'. split; [done|].
    apply elem_of_difference. split; [done|]. intros ->%elem_of_singleton.
    assert (k = key) as -> by by apply (inv_inj _ I k key m).
    by destruct Hne; apply (inv_one _ I _ _ key).
  - intros t' k o' [_ ?]%lookup_delete_Some. by apply (inv_rel _ I t').
  - intros t1 t2 k [_ ?]%Hown [_ ?]%Hown. by apply (inv_one _ I _ _ k).
  - intros m' [Hin Hne%not_elem_of_singleton]%elem_of_difference.
    destruct (inv_held _ I m' Hin) as (t' & k & ? & Ho). exists t', k. split; [done|]. apply Hown.
    split; [|done]. intros <-. rewrite (owns_same _ _ _ _ Ho Hme) in *. congruence.
  - apply (inv_fatal _ I).
Qed.

Lemma inv_cleanup s key :
  lock_inv s → (∀ t m, threads s !! t ≠ Some (Waiting key m)) →
  lock_inv {| sl := (cleanup_key key (sl s)).1; threads := threads s; fatal := fatal s |}.
Proof.
  intros I Hq. unfold cleanup_key.
  destruct (locks (sl s) !! key) as [m|] eqn:Hm; [|by destruct s].
  case_decide as Hheld; [by destruct s|].
  assert (Hother : ∀ t k, owns s t k → key ≠ k).
  { intros t k Ho ->. destruct (inv_own _ I t k Ho) as (m' & ? & ?). congruence. }
  constructor; simpl.
  - intros k k' m' [_ ?]%lookup_delete_Some [_ ?]%lookup_delete_Some. by apply (inv_inj _ I k k' m').
  - intros k m' [_ ?]%lookup_delete_Some. by apply (inv_fresh _ I k).
  - intros t k m' Hw. rewrite lookup_delete_ne; [by apply (inv_wait _ I t)|]. intros ->. by apply (Hq t m').
  - intros t k Ho. destruct (inv_own _ I t k Ho) as (m' & ? & ?). exists m'.
    by rewrite lookup_delete_ne by (by apply (Hother t)).
  - intros t k o Hr. rewrite lookup_delete_ne; [by apply (inv_rel _ I t)|]. apply (Hother t). right; eauto.
  - intros t1 t2 k H1 H2. by apply (inv_one _ I _ _ k).
  - intros m' (t & k & ? & Ho)%(inv_held _ I). exists t, k.
    rewrite lookup_delete_ne by (by apply (Hother t)). done.
  - apply (inv_fatal _ I).
Qed.

Lemma lock_reachable_inv s : lock_reachable true s → lock_inv s.
Proof.
  induction 1 as [|s s' _ I Hstep].
  - constructor; simpl; try done; intros *; try (rewrite lookup_empty; done).
    + intros [?|[??]]; simpl in *; by rewrite lookup_empty in *.
    + intros [Ho|[? Ho]]; simpl in Ho; by rewrite lookup_empty in Ho.
  - destruct Hstep as [s t key l m|s t key m l|s t key|s t key o Ht|s key Hq].
    + by eapply inv_lookup.
    + by eapply inv_acquire.
    + by apply inv_unlock.
    + destruct (inv_release s t key o I Ht) as (l & -> & ?). done.
    + apply inv_cleanup; auto.
Qed.

(** ** Properties *)

(** C34: As long as [Cleanup] only meets sessions nobody is waiting for, at most one
    goroutine runs a session's function at a time, unlocking never hits an unlocked
    mutex, and all waiters of a session wait on the mutex its owner holds. *)
Theorem lock_mutual_exclusion s :
  lock_reachable true s →
  fatal s = false ∧
  (∀ t t' key, threads s !! t = Some (Holding key) → threads s !! t' = Some (Holding key) → t = t') ∧
  (∀ t t' key m, owns s t key → threads s !! t' = Some (Waiting key m) →
     locks (sl s) !! key = Some m ∧ mutex_lock m (sl s) = None).
Proof.
  intros I%lock_reachable_inv. split_and!.
  - apply (inv_fatal _ I).
  - intros t t' key H1 H2. by apply (inv_one _ I _ _ key); left.
  - intros t t' key m Ho Hw. pose proof (inv_wait _ I _ _ _ Hw) as Hm. split; [done|].
    destruct (inv_own _ I _ _ Ho) as (m' & ? & ?). unfold mutex_lock. rewrite decide_True; [done|congruence].
Qed.

(** No goroutine is stuck: one that waits for a session can lock its mutex, or the
    goroutine that owns the session can take a step towards releasing it; after at
    most two steps of the owner the mutex is free. *)
Theorem lock_progress s t key m :
  lock_reachable true s → threads s !! t = Some (Waiting key m) →
  is_Some (mutex_lock m (sl s)) ∨
  (∃ t', owns s t' key ∧ ∃ s', rtc (lock_step true) s s' ∧
     threads s' !! t = Some (Waiting key m) ∧ is_Some (mutex_lock m (sl s'))).
Proof.
  intros Hr Hw. pose proof (lock_reachable_inv s Hr) as I. pose proof (inv_wait _ I _ _ _ Hw) as Hm.
  unfold mutex_lock. case_decide as Hheld; [|left; eauto]. right.
  destruct (inv_held _ I m Hheld) as (t' & k & Hk & Ho).
  assert (k = key) as -> by by apply (inv_inj _ I k key m).
  exists t'. split; [done|].
  assert (Hne : t' ≠ t) by (intros ->; by apply (owns_not_waiting _ _ _ key _ Hw)).
  assert (Hrel : ∀ s1 o, lock_inv s1 → threads s1 !! t' = Some (Releasing key o) →
    threads s1 !! t = Some (Waiting key m) → ∃ s2, lock_step true s1 s2 ∧
      threads s2 !! t = Some (Waiting key m) ∧ is_Some (mutex_lock m (sl s2))).
  { intros s1 o I1 Ht1 Hw1. pose proof (step_release true s1 t' key o Ht1) as Hstep.
    pose proof (inv_rel _ I1 _ _ _ Ht1) as ->. rewrite (inv_wait _ I1 _ _ _ Hw1) in *.
    destruct (inv_own _ I1 t' key ltac:(right; eauto)) as (m' & Hm' & Hh).
    rewrite (inv_wait _ I1 _ _ _ Hw1) in Hm'. simplify_eq. simpl in Hstep.
    unfold mutex_unlock in Hstep. rewrite decide_True in Hstep by done.
    eexists. split; [exact Hstep|]. simpl. rewrite lookup_delete_ne by done. split; [done|].
    unfold mutex_lock; simpl. rewrite decide_False by set_solver. by eexists. }
  destruct Ho as [Ho|[o Ho]].
  - pose proof (step_unlock true s t' key Ho) as Hstep.
    destruct (Hrel _ _ (inv_unlock s t' key I Ho) (lookup_insert_eq _ _ _)) as (s2 & ? & ? & ?).
    { simpl. by rewrite lookup_insert_ne. }
    exists s2. split_and!; [by eapply rtc_l, rtc_once|done..].
  - destruct (Hrel s o I Ho Hw) as (s2 & ? & ? & ?). exists s2. split_and!; [by apply rtc_once|done..].
Qed.

(** ** The race with [Cleanup] *)

(** Goroutine 0 owns session [s], goroutine 1 has fetched its mutex and waits, 0
    releases, [Cleanup] drops the free mutex, goroutine 2 creates another one. *)
Definition race_key : string := "s".
Definition run_or (d : SessionLock) (o : option SessionLock) : SessionLock := default d o.
Definition race1 := goto 0 (Waiting race_key 0) (lock_lookup race_key NewSessionLock).1 lock_init.
Definition race2 := goto 0 (Holding race_key) (run_or (sl race1) (mutex_lock 0 (sl race1))) race1.
Definition race3 := goto 1 (Waiting race_key 0) (sl race2) race2.
Definition race4 := goto 0 (Releasing race_key (unlock_lookup race_key (sl race3))) (sl race3) race3.
Definition race5 := {| sl := run_or (sl race4) (mutex_unlock 0 (sl race4));
                       threads := delete 0%nat (threads race4); fatal := fatal race4 |}.
Definition race6 := {| sl := (cleanup_key race_key (sl race5)).1; threads := threads race5; fatal := fatal race5 |}.
Definition race7 := goto 2 (Waiting race_key 1) (lock_lookup race_key (sl race6)).1 race6.
Definition race8 := goto 2 (Holding race_key) (run_or (sl race7) (mutex_lock 1 (sl race7))) race7.
Definition race9 := goto 1 (Holding race_key) (run_or (sl race8) (mutex_lock 0 (sl race8))) race8.
(** Both unlock: 1 unlocks the mutex of 2, and 2 then unlocks a free mutex. *)
Definition race10 := goto 1 (Releasing race_key (unlock_lookup race_key (sl race9))) (sl race9) race9.
Definition race11 := {| sl := run_or (sl race10) (mutex_unlock 1 (sl race10));
                        threads := delete 1%nat (threads race10); fatal := fatal race10 |}.
Definition race12 := goto 2 (Releasing race_key (unlock_lookup race_key (sl race11))) (sl race11) race11.
Definition race13 := {| sl := sl race12; threads := delete 2%nat (threads race12); fatal := true |}.

Lemma race9_reachable : lock_reachable false race9.
Proof.
  pose proof (lock_start false) as R.
  apply (λ R, lock_next _ _ race1 R (step_lookup _ lock_init 0 race_key _ 0 eq_refl eq_refl)) in R.
  apply (λ R, lock_next _ _ race2 R (step_acquire _ race1 0 race_key 0 _ eq_refl eq_refl)) in R.
  apply (λ R, lock_next _ _ race3 R (step_lookup _ race2 1 race_key _ 0 eq_refl eq_refl)) in R.
  apply (λ R, lock_next _ _ race4 R (step_unlock _ race3 0 race_key eq_refl)) in R.
  apply (λ R, lock_next _ _ race5 R (step_release _ race4 0 race_key _ eq_refl)) in R.
  apply (λ R, lock_next _ _ race6 R (step_cleanup _ race5 race_key (λ H, match Bool.diff_false_true H with end))) in R.
  apply (λ R, lock_next _ _ race7 R (step_lookup _ race6 2 race_key _ 1 eq_refl eq_refl)) in R.
  apply (λ R, lock_next _ _ race8 R (step_acquire _ race7 2 race_key 1 _ eq_refl eq_refl)) in R.
  exact (lock_next _ _ race9 R (step_acquire _ race8 1 race_key 0 _ eq_refl eq_refl)).
Qed.

(** [Cleanup] breaks the lock when a goroutine has fetched a session's mutex but not
    yet locked it: two goroutines then run the same session's function at once, and when
    both unlock, the second unlocks a mutex that is not locked, which is fatal. *)
Theorem cleanup_breaks_exclusion :
  (∃ s, lock_reachable false s ∧
     threads s !! 1%nat = Some (Holding race_key) ∧ threads s !! 2%nat = Some (Holding race_key)) ∧
  (∃ s, lock_reachable false s ∧ fatal s = true).
Proof.
  pose proof race9_reachable as R. split; [exists race9; split_and!; [exact R|reflexivity..]|].
  apply (λ R, lock_next _ _ race10 R (step_unlock _ race9 1 race_key eq_refl)) in R.
  apply (λ R, lock_next _ _ race11 R (step_release _ race10 1 race_key _ eq_refl)) in R.
  apply (λ R, lock_next _ _ race12 R (step_unlock _ race11 2 race_key eq_refl)) in R.
  apply (λ R, lock_next _ _ race13 R (step_release _ race12 2 race_key _ eq_refl)) in R.
  by exists race13.
Qed.

(** Goroutine 0 owns the session, goroutine 1 waits. *)
Lemma lock_mutual_exclusion_witness : mutex_lock 0 (sl race3) = None.
Proof.
  refine (proj2 (proj2 (proj2 (lock_mutual_exclusion race3 _)) 0%nat 1%nat race_key 0%nat (or_introl eq_refl) eq_refl)).
  pose proof (lock_start true) as R.
  apply (λ R, lock_next _ _ race1 R (step_lookup _ lock_init 0 race_key _ 0 eq_refl eq_refl)) in R.
  apply (λ R, lock_next _ _ race2 R (step_acquire _ race1 0 race_key 0 _ eq_refl eq_refl)) in R.
  exact (lock_next _ _ race3 R (step_lookup _ race2 1 race_key _ 0 eq_refl eq_refl)).
Defined.

Lemma lock_progress_witness : is_Some (mutex_lock 0 (sl race1)) ∨ ∃ t', owns race1 t' race_key.
Proof.
  destruct (lock_progress race1 0 race_key 0) as [H|(t' & H & _)]; [|reflexivity|by left|right; eauto].
  exact (lock_next _ _ race1 (lock_start true) (step_lookup _ lock_init 0 race_key _ 0 eq_refl eq_refl)).
Defined.
