(* ===== verification/Queue.v ===== *)
(** [pkg/queue/lane.go]: the command queue with its global lane and session lanes.

    A channel is the list of its commands, oldest first.  Each goroutine is a program
    counter: the callers of [Enqueue], the worker of the global lane and one worker per
    session channel.  Running a command takes a start and a finish step, so that other
    goroutines run in between; the idle timer may fire whenever its worker is in the
    [select], also when a command is ready, as Go picks any ready case. *)
From S2P Require Import Prelude.

Inductive Lane := GlobalLane | SessionLane | OtherLane (name : string).

(** [Execute] is opaque; a command is known by its ID. *)
Record Command := { cmd_ID : string; cmd_Lane : Lane; cmd_Key : string }.

Definition globalCap : Z := 100.
Definition sessionCap : Z := 10.

(** The [Queue]: channels are numbers, [chans] holds their contents and [owner] the key
    whose worker reads them. *)
Record Queue := {
  globalCh : list Command;
  sessionChs : gmap string nat;
  chans : gmap nat (list Command);
  cancelled : bool;               (* q.ctx *)
  next_ch : nat;
}.

(** A caller of [Enqueue] at its channel send. *)
Inductive enq_pc := SendGlobal (c : Command) | SendSession (ch : nat) (c : Command).

(** A worker: in its select, running a command, in its deferred clean-up, gone. *)
Inductive worker_pc := Select | Running (c : Command) | Exiting | Gone.

Record worker := { w_key : string; w_pc : worker_pc }.

Record queue_state := {
  q : Queue;
  callers : gmap nat enq_pc;
  gworker : worker_pc;
  workers : gmap nat worker;          (* by channel *)
  gsent : list Command; gstarted : list Command;
  sent : gmap nat (list Command); started : gmap nat (list Command);
}.

Definition NewQueue : queue_state :=
  {| q := {| globalCh := []; sessionChs := ∅; chans := ∅; cancelled := false; next_ch := 0 |};
     callers := ∅; gworker := Select; workers := ∅;
     gsent := []; gstarted := []; sent := ∅; started := ∅ |}.

(** The part of [enqueueSession] under [q.mu]: the channel of the key, a new one with
    its worker when there is none. *)
Definition enqueueSession_lookup (key : string) (s : queue_state) : queue_state * nat :=
  match sessionChs (q s) !! key with
  | Some ch => (s, ch)
  | None =>
      let ch := next_ch (q s) in
      ({| q := {| globalCh := globalCh (q s); sessionChs := <[key := ch]> (sessionChs (q s));
                  chans := <[ch := []]> (chans (q s)); cancelled := cancelled (q s); next_ch := S ch |};
          callers := callers s; gworker := gworker s;
          workers := <[ch := {| w_key := key; w_pc := Select |}]> (workers s);
          gsent := gsent s; gstarted := gstarted s;
          sent := <[ch := []]> (sent s); started := <[ch := []]> (started s) |}, ch)
  end.

(** [Enqueue] up to its channel send. *)
Definition Enqueue (t : nat) (c : Command) (s : queue_state) : queue_state :=
  let '(s, p) := match cmd_Lane c with
                 | GlobalLane => (s, SendGlobal c)
                 | _ => let '(s, ch) := enqueueSession_lookup (cmd_Key c) s in (s, SendSession ch c)
                 end in
  {| q := q s; callers := <[t := p]> (callers s); gworker := gworker s; workers := workers s;
     gsent := gsent s; gstarted := gstarted s; sent := sent s; started := started s |}.

Definition with_q (s : queue_state) (q' : Queue) : queue_state :=
  {| q := q'; callers := callers s; gworker := gworker s; workers := workers s;
     gsent := gsent s; gstarted := gstarted s; sent := sent s; started := started s |}.

Definition leave (t : nat) (s : queue_state) : queue_state :=
  {| q := q s; callers := delete t (callers s); gworker := gworker s; workers := workers s;
     gsent := gsent s; gstarted := gstarted s; sent := sent s; started := started s |}.

Definition set_chan (ch : nat) (l : list Command) (k : Queue) : Queue :=
  {| globalCh := globalCh k; sessionChs := sessionChs k; chans := <[ch := l]> (chans k);
     cancelled := cancelled k; next_ch := next_ch k |}.
Definition set_global (l : list Command) (k : Queue) : Queue :=
  {| globalCh := l; sessionChs := sessionChs k; chans := chans k;
     cancelled := cancelled k; next_ch := next_ch k |}.

(** [q.globalCh <- cmd]: there is no other case, so it blocks while the lane is full. *)
Definition send_global (c : Command) (s : queue_state) : option queue_state :=
  if Z.of_nat (length (globalCh (q s))) <? globalCap
  then Some {| q := set_global (globalCh (q s) ++ [c]) (q s); callers := callers s; gworker := gworker s;
               workers := workers s; gsent := gsent s ++ [c]; gstarted := gstarted s;
               sent := sent s; started := started s |}
  else None.

(** The select of [enqueueSession]: the outcomes of its ready cases. *)
Definition send_session (ch : nat) (c : Command) (s : queue_state) : list queue_state :=
  match chans (q s) !! ch with
  | Some l =>
      if Z.of_nat (length l) <? sessionCap
      then [{| q := set_chan ch (l ++ [c]) (q s); callers := callers s; gworker := gworker s;
               workers := workers s; gsent := gsent s; gstarted := gstarted s;
               sent := alter (.++ [c]) ch (sent s); started := started s |}]
      else []
  | None => []
  end ++ (if cancelled (q s) then [s] else []).

Definition set_gworker (p : worker_pc) (s : queue_state) : queue_state :=
  {| q := q s; callers := callers s; gworker := p; workers := workers s;
     gsent := gsent s; gstarted := gstarted s; sent := sent s; started := started s |}.

(** One turn of [runGlobalWorker]. *)
Definition global_turn (s : queue_state) : list queue_state :=
  match gworker s with
  | Select =>
      (if cancelled (q s) then [set_gworker Gone s] else []) ++
      match globalCh (q s) with
      | c :: l => [{| q := set_global l (q s); callers := callers s; gworker := Running c; workers := workers s;
                      gsent := gsent s; gstarted := gstarted s ++ [c]; sent := sent s; started := started s |}]
      | [] => []
      end
  | Running _ => [set_gworker Select s]
  | Exiting | Gone => []
  end.

Definition set_worker (ch : nat) (p : worker_pc) (s : queue_state) : queue_state :=
  {| q := q s; callers := callers s; gworker := gworker s;
     workers := alter (λ w, {| w_key := w_key w; w_pc := p |}) ch (workers s);
     gsent := gsent s; gstarted := gstarted s; sent := sent s; started := started s |}.

(** [delete(q.sessionChs, key)] in the deferred function. *)
Definition forget (key : string) (s : queue_state) : queue_state :=
  with_q s {| globalCh := globalCh (q s); sessionChs := delete key (sessionChs (q s)); chans := chans (q s);
              cancelled := cancelled (q s); next_ch := next_ch (q s) |}.

(** One turn of [runSessionWorker] on channel [ch]; [timer] when the idle timer has fired. *)
Definition session_turn (ch : nat) (timer : bool) (s : queue_state) : list queue_state :=
  match workers s !! ch with
  | Some w =>
      match w_pc w with
      | Select =>
          (if cancelled (q s) || timer then [set_worker ch Exiting s] else []) ++
          match chans (q s) !! ch with
          | Some (c :: l) =>
              [set_worker ch (Running c)
                 {| q := set_chan ch l (q s); callers := callers s; gworker := gworker s; workers := workers s;
                    gsent := gsent s; gstarted := gstarted s; sent := sent s;
                    started := alter (.++ [c]) ch (started s) |}]
          | _ => []
          end
      | Running _ => [set_worker ch Select s]
      | Exiting => [set_worker ch Gone (forget (w_key w) s)]
      | Gone => []
      end
  | None => []
  end.

(** [q.cancel()] of [Stop]. *)
Definition cancel (s : queue_state) : queue_state :=
  with_q s {| globalCh := globalCh (q s); sessionChs := sessionChs (q s); chans := chans (q s);
              cancelled := true; next_ch := next_ch (q s) |}.

Inductive queue_step : queue_state → queue_state → Prop :=
| qs_enqueue s t c : callers s !! t = None → queue_step s (Enqueue t c s)
| qs_send_global s t c s' :
    callers s !! t = Some (SendGlobal c) → send_global c s = Some s' → queue_step s (leave t s')
| qs_send_session s t ch c s' :
    callers s !! t = Some (SendSession ch c) → s' ∈ send_session ch c s → queue_step s (leave t s')
| qs_global s s' : s' ∈ global_turn s → queue_step s s'
| qs_session s ch timer s' : s' ∈ session_turn ch timer s → queue_step s s'
| qs_cancel s : queue_step s (cancel s).

Inductive queue_reachable : queue_state → Prop :=
| queue_start : queue_reachable NewQueue
| queue_next s s' : queue_reachable s → queue_step s s' → queue_reachable s'.

(** ** Lemmas *)

(** What was accepted on a channel is what was started followed by the buffer, all of
    the worker's session, and the command that runs is the last one started. *)
Definition chan_inv (s : queue_state) (ch : nat) (w : worker) : Prop :=
  ∃ l b, chans (q s) !! ch = Some l ∧ started s !! ch = Some b ∧ sent s !! ch = Some (b ++ l) ∧
    Z.of_nat (length l) ≤ sessionCap ∧ (∀ c, c ∈ b ++ l → cmd_Key c = w_key w) ∧
    (∀ c, w_pc w = Running c → last b = Some c).

Record queue_inv (s : queue_state) : Prop := {
  qi_chan : ∀ ch w, workers s !! ch = Some w → chan_inv s ch w;
  qi_fresh : ∀ ch w, workers s !! ch = Some w → (ch < next_ch (q s))%nat;
  qi_live : ∀ ch w, workers s !! ch = Some w → w_pc w ≠ Gone ↔ sessionChs (q s) !! w_key w = Some ch;
  qi_map : ∀ k ch, sessionChs (q s) !! k = Some ch → ∃ w, workers s !! ch = Some w ∧ w_key w = k;
  qi_call : ∀ t ch c, callers s !! t = Some (SendSession ch c) →
    ∃ w, workers s !! ch = Some w ∧ w_key w = cmd_Key c;
  qi_global : gsent s = gstarted s ++ globalCh (q s) ∧ Z.of_nat (length (globalCh (q s))) ≤ globalCap;
  qi_grun : ∀ c, gworker s = Running c → last (gstarted s) = Some c;
}.

(** Everything the session part of the invariant reads. *)
Definition same_sessions (s s' : queue_state) : Prop :=
  workers s' = workers s ∧ chans (q s') = chans (q s) ∧ started s' = started s ∧ sent s' = sent s ∧
  sessionChs (q s') = sessionChs (q s) ∧ next_ch (q s') = next_ch (q s).

Lemma queue_inv_same s s' :
  same_sessions s s' → queue_inv s →
  (∀ t ch c, callers s' !! t = Some (SendSession ch c) → ∃ w, workers s !! ch = Some w ∧ w_key w = cmd_Key c) →
  gsent s' = gstarted s' ++ globalCh (q s') ∧ Z.of_nat (length (globalCh (q s'))) ≤ globalCap →
  (∀ c, gworker s' = Running c → last (gstarted s') = Some c) →
  queue_inv s'.
Proof.
  intros (Hw & Hc & Hst & Hse & Hm & Hn) I Hcall Hg Hr.
  constructor; rewrite ?Hw, ?Hm, ?Hn; try done; try apply I.
  intros ch w H. unfold chan_inv. rewrite Hc, Hst, Hse. by apply (qi_chan _ I).
Qed.

Lemma inv_new_channel key s :
  queue_inv s → queue_inv (enqueueSession_lookup key s).1 ∧
  callers (enqueueSession_lookup key s).1 = callers s ∧
  ∃ w, workers (enqueueSession_lookup key s).1 !! (enqueueSession_lookup key s).2 = Some w ∧ w_key w = key.
Proof.
  intros I. unfold enqueueSession_lookup. destruct (sessionChs (q s) !! key) as [ch|] eqn:Hk; simpl.
  { split; [done|]. split; [done|]. by apply (qi_map _ I). }
  set (n := next_ch (q s)).
  assert (Hn : ∀ ch w, workers s !! ch = Some w → ch ≠ n) by (intros ch w ?%(qi_fresh _ I); lia).
  split; [|split; [done|]; rewrite lookup_insert_eq; eauto].
  constructor; simpl.
  - intros ch w [[<- <-]|[Hne Hw]]%lookup_insert_Some; unfold chan_inv; simpl.
    + rewrite !lookup_insert_eq. exists [], []. split_and!; try done. intros c []%elem_of_nil.
    + rewrite !lookup_insert_ne by done. by apply (qi_chan _ I).
  - intros ch w [[<- _]|[_ ?%(qi_fresh _ I)]]%lookup_insert_Some; lia.
  - intros ch w [[<- <-]|[Hne Hw]]%lookup_insert_Some; simpl.
    + by rewrite lookup_insert_eq.
    + rewrite (qi_live _ I ch w Hw). destruct (decide (key = w_key w)) as [->|].
      * rewrite lookup_insert_eq, Hk. split; congruence.
      * by rewrite lookup_insert_ne.
  - intros k ch [[<- <-]|[Hne (w & ? & ?)%(qi_map _ I)]]%lookup_insert_Some.
    + rewrite lookup_insert_eq. eauto.
    + rewrite lookup_insert_ne by (by apply not_eq_sym, (Hn ch w)). eauto.
  - intros t ch c (w & Hw & ?)%(qi_call _ I). rewrite lookup_insert_ne by (by apply not_eq_sym, (Hn ch w)). eauto.
  - apply (qi_global _ I).
  - apply (qi_grun _ I).
Qed.

Lemma inv_Enqueue t c s : queue_inv s → queue_inv (Enqueue t c s).
Proof.
  intros I. unfold Enqueue.
  destruct (cmd_Lane c).
  { eapply (queue_inv_same s); simpl; [done|done| |apply I|apply I].
    intros t' ch c' [[_ ?]|[_ ?%(qi_call _ I)]]%lookup_insert_Some; [done|eauto]. }
  all: destruct (inv_new_channel (cmd_Key c) s I) as (I' & Hc & Hw);
    destruct (enqueueSession_lookup (cmd_Key c) s) as [s' ch0]; simpl in *;
    eapply (queue_inv_same s'); simpl; [done|done| |apply I'|apply I'];
    intros t' ch c' [[_ ?]|[_ ?%(qi_call _ I')]]%lookup_insert_Some; [by simplify_eq|eauto].
Qed.

(** A change at one channel of a session whose worker stays where the map says. *)
Lemma inv_update s s' ch w w' :
  queue_inv s → workers s !! ch = Some w → w_key w' = w_key w →
  (∀ ch', ch' ≠ ch → workers s' !! ch' = workers s !! ch' ∧ chans (q s') !! ch' = chans (q s) !! ch' ∧
     started s' !! ch' = started s !! ch' ∧ sent s' !! ch' = sent s !! ch') →
  workers s' !! ch = Some w' → chan_inv s' ch w' →
  (w_pc w' = Gone → w_pc w ≠ Gone → sessionChs (q s') = delete (w_key w) (sessionChs (q s))) →
  (w_pc w' = Gone ∧ w_pc w ≠ Gone ∨ (w_pc w' = Gone ↔ w_pc w = Gone) ∧ sessionChs (q s') = sessionChs (q s)) →
  next_ch (q s') = next_ch (q s) → callers s' = callers s → gsent s' = gsent s → gstarted s' = gstarted s →
  globalCh (q s') = globalCh (q s) → gworker s' = gworker s → queue_inv s'.
Proof.
  intros I Hw Hk Hoth Hw' Hch Hgone Hmap Hn Hc Hgs Hgt Hg Hgw.
  assert (Hback : ∀ ch' v, workers s' !! ch' = Some v → ch' = ch ∧ v = w' ∨ ch' ≠ ch ∧ workers s !! ch' = Some v).
  { intros ch' v Hv. destruct (decide (ch' = ch)) as [->|Hne]; [left; split; congruence|right].
    split; [done|]. by rewrite <- (proj1 (Hoth ch' Hne)). }
  assert (Hfwd : ∀ ch' v, workers s !! ch' = Some v → ∃ v', workers s' !! ch' = Some v' ∧ w_key v' = w_key v).
  { intros ch' v Hv. destruct (decide (ch' = ch)) as [->|Hne].
    - exists w'. split; [done|]. congruence.
    - exists v. by rewrite (proj1 (Hoth ch' Hne)). }
  assert (Hlive : ∀ ch' v, ch' ≠ ch → workers s !! ch' = Some v →
    sessionChs (q s') !! w_key v = Some ch' ↔ sessionChs (q s) !! w_key v = Some ch').
  { intros ch' v Hne Hv. destruct Hmap as [[H1 H2]|[_ ->]]; [|done]. rewrite (Hgone H1 H2).
    rewrite lookup_delete_Some. split; [tauto|]. intros Hv'. split; [|done].
    intros Heq. assert (sessionChs (q s) !! w_key w = Some ch) by by apply (qi_live _ I). congruence. }
  constructor; rewrite ?Hn, ?Hc, ?Hgs, ?Hgt, ?Hg, ?Hgw; try apply I.
  - intros ch' v [[-> ->]|[Hne Hv]]%Hback; [done|].
    destruct (Hoth ch' Hne) as (_ & H1 & H2 & H3). unfold chan_inv. rewrite H1, H2, H3. by apply (qi_chan _ I).
  - intros ch' v [[-> ->]|[Hne Hv]]%Hback; [by apply (qi_fresh _ I ch w)|by apply (qi_fresh _ I ch' v)].
  - intros ch' v [[-> ->]|[Hne Hv]]%Hback.
    + rewrite Hk. destruct Hmap as [[H1 H2]|[Hiff ->]].
      * rewrite (Hgone H1 H2), lookup_delete_eq. split; [tauto|done].
      * rewrite <- (qi_live _ I ch w Hw). tauto.
    + rewrite Hlive by done. by apply (qi_live _ I).
  - intros k ch' Hm. assert (Hm' : sessionChs (q s) !! k = Some ch').
    { destruct Hmap as [[H1 H2]|[_ Heq]]; [|congruence]. rewrite (Hgone H1 H2) in Hm.
      by apply lookup_delete_Some in Hm as [_ ?]. }
    destruct (qi_map _ I _ _ Hm') as (v & Hv & <-). eauto.
  - intros t ch' c (v & Hv & <-)%(qi_call _ I). eauto.
Qed.

Lemma inv_leave t s : queue_inv s → queue_inv (leave t s).
Proof.
  intros I. apply (queue_inv_same s); simpl; [done|done| |apply I|apply I].
  intros t' ch c [_ ?%(qi_call _ I)]%lookup_delete_Some. done.
Qed.

Lemma inv_send_session t ch c s s' :
  queue_inv s → callers s !! t = Some (SendSession ch c) → s' ∈ send_session ch c s → queue_inv s'.
Proof.
  intros I Ht [H|H]%elem_of_app.
  - destruct (qi_call _ I _ _ _ Ht) as (w & Hw & Hk).
    destruct (qi_chan _ I ch w Hw) as (l & b & Hc & Hb & Hs & Hl & Hkeys & Hrun).
    rewrite Hc in H. destruct (Z.ltb_spec (Z.of_nat (length l)) sessionCap); [|by apply elem_of_nil in H].
    apply list_elem_of_singleton in H as ->.
    eapply (inv_update s _ ch w w); simpl; try done; [| |by right].
    + intros ch' Hne. by rewrite lookup_insert_ne, lookup_alter_ne by done.
    + exists (l ++ [c]), b. simpl. rewrite lookup_insert_eq, lookup_alter_eq, Hs. simpl.
      split_and!; [done|done|by rewrite app_assoc|rewrite length_app; simpl; lia| |done].
      intros c' Hin. rewrite app_assoc in Hin. apply elem_of_app in Hin as [?|?%list_elem_of_singleton]; [auto|congruence].
  - destruct (cancelled (q s)); [|by apply elem_of_nil in H]. by apply list_elem_of_singleton in H as ->.
Qed.

(** The worker of [ch] moves and its channel data stay. *)
Lemma inv_set_worker ch p w s :
  queue_inv s → workers s !! ch = Some w → w_pc w ≠ Gone → p ≠ Gone → (∀ c, p ≠ Running c) →
  queue_inv (set_worker ch p s).
Proof.
  intros I Hw Hg Hp Hr. destruct (qi_chan _ I ch w Hw) as (l & b & Hc & Hb & Hs & Hl & Hkeys & Hrun).
  eapply (inv_update s _ ch w {| w_key := w_key w; w_pc := p |}); simpl; try done.
  - intros ch' Hne. by rewrite lookup_alter_ne.
  - by rewrite lookup_alter_eq, Hw.
  - exists l, b. split_and!; try done. intros c ?. by destruct (Hr c).
  - by right.
Qed.

Lemma inv_session_turn ch timer s s' : queue_inv s → s' ∈ session_turn ch timer s → queue_inv s'.
Proof.
  intros I H. unfold session_turn in H. destruct (workers s !! ch) as [w|] eqn:Hw; [|by apply elem_of_nil in H].
  destruct (qi_chan _ I ch w Hw) as (l & b & Hc & Hb & Hs & Hl & Hkeys & Hrun).
  destruct (w_pc w) as [|c| |] eqn:Hpc; [| | |by apply elem_of_nil in H].
  - apply elem_of_app in H as [H|H].
    + destruct (cancelled (q s) || timer); [|by apply elem_of_nil in H].
      apply list_elem_of_singleton in H as ->. by apply (inv_set_worker _ _ w); rewrite ?Hpc.
    + rewrite Hc in H. destruct l as [|c l]; [by apply elem_of_nil in H|].
      apply list_elem_of_singleton in H as ->.
      eapply (inv_update s _ ch w {| w_key := w_key w; w_pc := Running c |}); simpl; try done.
      * intros ch' Hne. by rewrite lookup_insert_ne, !lookup_alter_ne by done.
      * by rewrite lookup_alter_eq, Hw.
      * exists l, (b ++ [c]). simpl. rewrite lookup_insert_eq, lookup_alter_eq, Hb, <- app_assoc. simpl.
        cbn [length] in Hl. split_and!; try done; [lia|]. intros c' [= <-]. apply last_snoc.
      * right. by rewrite Hpc.
  - apply list_elem_of_singleton in H as ->. by apply (inv_set_worker _ _ w); rewrite ?Hpc.
  - apply list_elem_of_singleton in H as ->.
    eapply (inv_update s _ ch w {| w_key := w_key w; w_pc := Gone |}); simpl; try done.
    + intros ch' Hne. by rewrite lookup_alter_ne.
    + by rewrite lookup_alter_eq, Hw.
    + by exists l, b.
    + left. by rewrite Hpc.
Qed.

Lemma inv_global_turn s s' : queue_inv s → s' ∈ global_turn s → queue_inv s'.
Proof.
  intros I H. pose proof (qi_global _ I) as [Hg Hl]. unfold global_turn in H.
  assert (Hpc : ∀ p, (∀ c, p ≠ Running c) → queue_inv (set_gworker p s)).
  { intros p Hp. apply (queue_inv_same s); [done|done|apply I|done|]. intros c ?. by destruct (Hp c). }
  destruct (gworker s) as [|c| |]; [| |by apply elem_of_nil in H|by apply elem_of_nil in H].
  - apply elem_of_app in H as [H|H].
    + destruct (cancelled _); [|by apply elem_of_nil in H]. apply list_elem_of_singleton in H as ->. by apply Hpc.
    + destruct (globalCh (q s)) as [|c l] eqn:Hgl; [by apply elem_of_nil in H|].
      apply list_elem_of_singleton in H as ->. apply (queue_inv_same s); simpl; [done|done|apply I| |].
      * rewrite <- app_assoc. cbn [length] in Hl. split; [done|lia].
      * intros c' [= <-]. apply last_snoc.
  - apply list_elem_of_singleton in H as ->. by apply Hpc.
Qed.

Lemma queue_reachable_inv s : queue_reachable s → queue_inv s.
Proof.
  induction 1 as [|s s' _ I Hstep].
  - constructor; simpl; try (intros *; rewrite lookup_empty; done); done.
  - destruct Hstep as [s t c|s t c s' Ht Hs|s t ch c s' Ht Hs|s s' Hs|s ch timer s' Hs|s].
    + by apply inv_Enqueue.
    + apply inv_leave. unfold send_global in Hs. case_match eqn:Hlt; [|done]. simplify_eq.
      apply Z.ltb_lt in Hlt. apply (queue_inv_same s); simpl; [done|done|apply I| |apply I].
      rewrite length_app. simpl. rewrite (proj1 (qi_global _ I)), app_assoc. split; [done|lia].
    + apply inv_leave. by apply (inv_send_session t ch c s).
    + by apply (inv_global_turn s).
    + by apply (inv_session_turn ch timer s).
    + apply (queue_inv_same s); [done|done|apply I|apply I|apply I].
Qed.

(** ** Properties *)

(** C33: Under every interleaving each lane starts its commands in the order in which
    they were accepted, none twice; a session has at most one live worker, so its
    commands run one at a time; a session channel carries commands of its session only;
    and the lanes hold at most 10 and 100 waiting commands. *)
Theorem queue_serial_fifo s :
  queue_reachable s →
  (gsent s = gstarted s ++ globalCh (q s) ∧ Z.of_nat (length (globalCh (q s))) ≤ 100) ∧
  (∀ ch w, workers s !! ch = Some w → ∃ l b,
     chans (q s) !! ch = Some l ∧ started s !! ch = Some b ∧ sent s !! ch = Some (b ++ l) ∧
     Z.of_nat (length l) ≤ 10 ∧ ∀ c, c ∈ b ++ l → cmd_Key c = w_key w) ∧
  (∀ ch ch' w w', workers s !! ch = Some w → workers s !! ch' = Some w' →
     w_pc w ≠ Gone → w_pc w' ≠ Gone → w_key w = w_key w' → ch = ch').
Proof.
  intros I%queue_reachable_inv. split_and!.
  - apply (qi_global _ I).
  - apply (qi_global _ I).
  - intros ch w Hw. destruct (qi_chan _ I ch w Hw) as (l & b & ? & ? & ? & ? & ? & _). exists l, b. by split_and!.
  - intros ch ch' w w' Hw Hw' Hg%(qi_live _ I ch w Hw) Hg'%(qi_live _ I ch' w' Hw') Hk. congruence.
Qed.

(** A channel whose worker is gone is never read again. *)
Definition dead (ch : nat) (l b : list Command) (s : queue_state) : Prop :=
  ∃ w l', workers s !! ch = Some w ∧ w_pc w = Gone ∧ chans (q s) !! ch = Some (l ++ l') ∧ started s !! ch = Some b.

Lemma dead_step ch l b s s' : queue_inv s → dead ch l b s → queue_step s s' → dead ch l b s'.
Proof.
  intros I (w & l' & Hw & Hpc & Hc & Hb) Hstep.
  assert (Hsame : ∀ s', workers s' = workers s → chans (q s') = chans (q s) → started s' = started s → dead ch l b s').
  { intros s2 H1 H2 H3. exists w, l'. by rewrite H1, H2, H3. }
  destruct Hstep as [s t c|s t c s' Ht Hs|s t ch' c s' Ht Hs|s s' Hs|s ch' timer s' Hs|s].
  - unfold Enqueue, enqueueSession_lookup.
    assert (Hn : next_ch (q s) ≠ ch) by (pose proof (qi_fresh _ I ch w Hw); lia).
    destruct (cmd_Lane c); [by apply Hsame| |];
      (destruct (sessionChs (q s) !! cmd_Key c); [by apply Hsame|]; exists w, l'; simpl; by rewrite !lookup_insert_ne).
  - unfold send_global in Hs. case_match; [|done]. simplify_eq. by apply Hsame.
  - apply elem_of_app in Hs as [Hs|Hs].
    + destruct (chans (q s) !! ch') as [l2|] eqn:Hc2; [|by apply elem_of_nil in Hs].
      case_match; [|by apply elem_of_nil in Hs]. apply list_elem_of_singleton in Hs as ->.
      destruct (decide (ch' = ch)) as [->|Hne].
      * simplify_eq. exists w, (l' ++ [c]). simpl. by rewrite lookup_insert_eq, app_assoc.
      * exists w, l'. simpl. by rewrite lookup_insert_ne.
    + case_match; [|by apply elem_of_nil in Hs]. apply list_elem_of_singleton in Hs as ->. by apply Hsame.
  - unfold global_turn in Hs.
    destruct (gworker s); [|apply list_elem_of_singleton in Hs as ->; by apply Hsame|by apply elem_of_nil in Hs..].
    apply elem_of_app in Hs as [Hs|Hs].
    + destruct (cancelled (q s)); [|by apply elem_of_nil in Hs].
      apply list_elem_of_singleton in Hs as ->. by apply Hsame.
    + destruct (globalCh (q s)); [by apply elem_of_nil in Hs|].
      apply list_elem_of_singleton in Hs as ->. by apply Hsame.
  - unfold session_turn in Hs. destruct (decide (ch' = ch)) as [->|Hne].
    { rewrite Hw, Hpc in Hs. by apply elem_of_nil in Hs. }
    destruct (workers s !! ch') as [w'|]; [|by apply elem_of_nil in Hs].
    assert (Hoth : ∀ s' p, workers s' !! ch = workers s !! ch → chans (q s') !! ch = chans (q s) !! ch →
      started s' !! ch = started s !! ch → dead ch l b (set_worker ch' p s')).
    { intros s2 p H1 H2 H3. exists w, l'. simpl. rewrite lookup_alter_ne by done. by rewrite H1, H2, H3. }
    destruct (w_pc w'); [|apply list_elem_of_singleton in Hs as ->; by apply Hoth..|by apply elem_of_nil in Hs].
    apply elem_of_app in Hs as [Hs|Hs].
    + case_match; [|by apply elem_of_nil in Hs]. apply list_elem_of_singleton in Hs as ->. by apply Hoth.
    + destruct (chans (q s) !! ch') as [[|c2 l2]|]; [by apply elem_of_nil in Hs| |by apply elem_of_nil in Hs].
      apply list_elem_of_singleton in Hs as ->. apply Hoth; simpl; [done|by rewrite lookup_insert_ne|by rewrite lookup_alter_ne].
  - by apply Hsame.
Qed.

Lemma dead_forever ch l b s s' : queue_reachable s → dead ch l b s → rtc queue_step s s' → dead ch l b s'.
Proof.
  intros Hr Hd Hs. induction Hs as [|s s1 s2 Hstep _ IH]; [done|].
  apply IH; [by eapply queue_next|by eapply dead_step; [apply queue_reachable_inv| |]].
Qed.

(** ** The idle time-out *)

Definition cmd_x : Command := {| cmd_ID := "x"; cmd_Lane := SessionLane; cmd_Key := "s" |}.
Definition cmd_y : Command := {| cmd_ID := "y"; cmd_Lane := SessionLane; cmd_Key := "s" |}.
Definition pick (l : list queue_state) : queue_state := default NewQueue (head l).

(** [x] runs and the worker is idle; a caller has looked the channel up for [y]; the
    worker times out and cleans up; the caller sends. *)
Definition idle1 := Enqueue 0 cmd_x NewQueue.
Definition idle2 := leave 0 (pick (send_session 0 cmd_x idle1)).
Definition idle3 := pick (session_turn 0 false idle2).
Definition idle4 := pick (session_turn 0 false idle3).
Definition idle5 := Enqueue 1 cmd_y idle4.
Definition idle6 := pick (session_turn 0 true idle5).
Definition idle7 := pick (session_turn 0 false idle6).
Definition idle8 := leave 1 (pick (send_session 0 cmd_y idle7)).

Lemma idle_reachable : queue_reachable idle8.
Proof.
  pose proof queue_start as R.
  apply (λ R, queue_next _ idle1 R (qs_enqueue NewQueue 0 cmd_x eq_refl)) in R.
  apply (λ R, queue_next _ idle2 R (qs_send_session idle1 0 0 cmd_x _ eq_refl ltac:(by left))) in R.
  apply (λ R, queue_next _ idle3 R (qs_session idle2 0 false _ ltac:(by left))) in R.
  apply (λ R, queue_next _ idle4 R (qs_session idle3 0 false _ ltac:(by left))) in R.
  apply (λ R, queue_next _ idle5 R (qs_enqueue idle4 1 cmd_y eq_refl)) in R.
  apply (λ R, queue_next _ idle6 R (qs_session idle5 0 true _ ltac:(by left))) in R.
  apply (λ R, queue_next _ idle7 R (qs_session idle6 0 false _ ltac:(by left))) in R.
  exact (queue_next _ idle8 R (qs_send_session idle7 1 0 cmd_y _ eq_refl ltac:(by left))).
Qed.

(** A command can be accepted and never run although the queue is not stopped: when
    the worker of a session times out between a caller's look-up of the channel and its
    send, the command stays in a channel nobody reads, whatever happens afterwards. *)
Theorem idle_timeout_loses_command :
  ∃ s, queue_reachable s ∧ cancelled (q s) = false ∧ callers s = ∅ ∧
    sent s !! 0%nat = Some [cmd_x; cmd_y] ∧
    ∀ s', rtc queue_step s s' → started s' !! 0%nat = Some [cmd_x] ∧
      ∃ l, chans (q s') !! 0%nat = Some (cmd_y :: l).
Proof.
  exists idle8. split_and!; [apply idle_reachable|reflexivity..|].
  intros s' Hs. destruct (dead_forever 0 [cmd_y] [cmd_x] idle8 s') as (w & l' & _ & _ & Hc & Hb);
    [apply idle_reachable| |done|].
  - by exists {| w_key := "s"; w_pc := Gone |}, [].
  - split; [done|]. by exists l'.
Qed.

Lemma queue_serial_fifo_witness :
  gsent idle8 = gstarted idle8 ++ globalCh (q idle8).
Proof. apply (queue_serial_fifo idle8), idle_reachable. Defined.
