(* ===== verification/Steering.v ===== *)
(** [pkg/steering/manager.go] and [pkg/steering/adk_steering.go]: messages that arrive
    while an agent works on their session.  Both keep a map from session to pending
    messages under a mutex; a missing key and a nil slice are both the empty list. *)
From S2P Require Import Prelude GoStrings Types.

(** ** Receiving from a Go channel *)

Record chan (A : Type) := { chan_buf : list A; chan_closed : bool }.
Arguments chan_buf {A} _.
Arguments chan_closed {A} _.

(** [<-ch] when it does not block: the oldest value, or the zero value [z] of a closed
    and drained channel. *)
Definition chan_recv {A} (z : A) (ch : chan A) : option A :=
  match chan_buf ch with
  | x :: _ => Some x
  | [] => if chan_closed ch then Some z else None
  end.

(** ** [Manager] *)

Abbreviation pending_map := (gmap string (list InboundMessage)) (only parsing).
Definition pending (m : pending_map) (key : string) : list InboundMessage := default [] (m !! key).

(** [make(chan T)] and [close(ch)]. *)
Definition peekInbound (sessionKey : string) : chan InboundMessage :=
  {| chan_buf := []; chan_closed := true |}.

Definition QueueSteering (sessionKey : string) (msg : InboundMessage) (m : pending_map) : pending_map :=
  <[sessionKey := pending m sessionKey ++ [msg]]> m.

(** The messages returned, [[]] for [nil], and the new map. *)
Definition CheckSteering (sessionKey : string) (m : pending_map) : pending_map * list InboundMessage :=
  match pending m sessionKey with
  | [] =>
      match chan_recv zero_inbound (peekInbound sessionKey) with
      | Some msg => (m, [msg])
      | None => (m, [])          (* the default case of the select *)
      end
  | msgs => (<[sessionKey := []]> m, msgs)
  end.

Inductive steer_op := SQueue (key : string) (msg : InboundMessage) | SCheck (key : string).

(** A history: the map and, per session, what the checks returned, in order. *)
Fixpoint steer_run (ops : list steer_op) (m : pending_map) : pending_map * list (string * list InboundMessage) :=
  match ops with
  | [] => (m, [])
  | SQueue key msg :: ops => steer_run ops (QueueSteering key msg m)
  | SCheck key :: ops =>
      let '(m, r) := CheckSteering key m in
      let '(m, rs) := steer_run ops m in (m, (key, r) :: rs)
  end.

Definition queued (key : string) (ops : list steer_op) : list InboundMessage :=
  omap (λ o, match o with SQueue k msg => if decide (k = key) then Some msg else None | SCheck _ => None end) ops.

(** ** [ADKSteering] *)

Record ADKSteering := {
  activeContexts : gmap string nat;    (* the context whose [cancel] is registered *)
  pendingMessages : pending_map;
  cancelled : list nat;                (* the contexts cancelled so far *)
}.

Definition NewADKSteering : ADKSteering :=
  {| activeContexts := ∅; pendingMessages := ∅; cancelled := [] |}.

Definition RegisterContext (sessionKey : string) (ctx : nat) (s : ADKSteering) : ADKSteering :=
  {| activeContexts := <[sessionKey := ctx]> (activeContexts s);
     pendingMessages := pendingMessages s; cancelled := cancelled s |}.

Definition UnregisterContext (sessionKey : string) (s : ADKSteering) : ADKSteering :=
  {| activeContexts := delete sessionKey (activeContexts s);
     pendingMessages := pendingMessages s; cancelled := cancelled s |}.

Definition call_cancel (sessionKey : string) (s : ADKSteering) : ADKSteering * bool :=
  match activeContexts s !! sessionKey with
  | Some ctx => ({| activeContexts := activeContexts s; pendingMessages := pendingMessages s;
                    cancelled := cancelled s ++ [ctx] |}, true)
  | None => (s, false)
  end.

Definition InterruptIfNeeded (sessionKey : string) (s : ADKSteering) : ADKSteering * bool :=
  match pending (pendingMessages s) sessionKey with
  | [] => (s, false)
  | _ => call_cancel sessionKey s
  end.

Definition QueueSteeringMessage (sessionKey : string) (msg : InboundMessage) (s : ADKSteering) : ADKSteering :=
  (call_cancel sessionKey
     {| activeContexts := activeContexts s;
        pendingMessages := QueueSteering sessionKey msg (pendingMessages s);
        cancelled := cancelled s |}).1.

Definition GetPendingMessages (sessionKey : string) (s : ADKSteering) : ADKSteering * list InboundMessage :=
  ({| activeContexts := activeContexts s; pendingMessages := <[sessionKey := []]> (pendingMessages s);
      cancelled := cancelled s |}, pending (pendingMessages s) sessionKey).

Inductive adk_op :=
| ARegister (key : string) (ctx : nat) | AUnregister (key : string) | AInterrupt (key : string)
| AQueue (key : string) (msg : InboundMessage) | AGet (key : string).

Definition adk_step (o : adk_op) (s : ADKSteering) : ADKSteering * list InboundMessage :=
  match o with
  | ARegister key ctx => (RegisterContext key ctx s, [])
  | AUnregister key => (UnregisterContext key s, [])
  | AInterrupt key => ((InterruptIfNeeded key s).1, [])
  | AQueue key msg => (QueueSteeringMessage key msg s, [])
  | AGet key => GetPendingMessages key s
  end.

(** The state, and the messages handed out for each session so far. *)
Fixpoint adk_run (ops : list adk_op) (s : ADKSteering) (got : string → list InboundMessage)
    : ADKSteering * (string → list InboundMessage) :=
  match ops with
  | [] => (s, got)
  | o :: ops =>
      let '(s, r) := adk_step o s in
      adk_run ops s (λ k, got k ++ match o with AGet key => if decide (key = k) then r else [] | _ => [] end)
  end.

Definition adk_queued (key : string) (ops : list adk_op) : list InboundMessage :=
  omap (λ o, match o with AQueue k msg => if decide (k = key) then Some msg else None | _ => None end) ops.

(** ** Lemmas *)

Lemma pending_insert m k k' l : pending (<[k := l]> m) k' = if decide (k = k') then l else pending m k'.
Proof.
  unfold pending. case_decide as H; [subst; by rewrite lookup_insert_eq|by rewrite lookup_insert_ne].
Qed.

Lemma queue_pending m k k' msg :
  pending (QueueSteering k msg m) k' = pending m k' ++ (if decide (k = k') then [msg] else []).
Proof. unfold QueueSteering. rewrite pending_insert. case_decide; subst; [done|by rewrite app_nil_r]. Qed.

(** The real messages of a list of answers for one session. *)
Definition answers (key : string) (rs : list (string * list InboundMessage)) : list (list InboundMessage) :=
  omap (λ kr, if decide (kr.1 = key) then Some kr.2 else None) rs.

Lemma answers_cons key k r rs :
  answers key ((k, r) :: rs) = (if decide (k = key) then [r] else []) ++ answers key rs.
Proof. unfold answers; simpl. by case_decide. Qed.

Lemma queued_cons key o ops :
  queued key (o :: ops) =
  match o with SQueue k msg => if decide (k = key) then [msg] else [] | SCheck _ => [] end ++ queued key ops.
Proof. unfold queued; simpl. destruct o; [by case_decide|done]. Qed.

Lemma adk_queued_cons key o ops :
  adk_queued key (o :: ops) =
  match o with AQueue k msg => if decide (k = key) then [msg] else [] | _ => [] end ++ adk_queued key ops.
Proof. unfold adk_queued; simpl. destruct o; [done..|by case_decide|done]. Qed.

(** One answer: everything pending, or one zero message when nothing is. *)
Lemma CheckSteering_spec key m :
  CheckSteering key m =
  (match pending m key with [] => m | _ => <[key := []]> m end,
   match pending m key with [] => [zero_inbound] | l => l end).
Proof. unfold CheckSteering. by destruct (pending m key). Qed.

(** ** Properties *)

(** Over any history each message queued for a session is returned by one check of
    that session, in order, or is still pending: the answers, without those of checks
    that found nothing, concatenate to a prefix of the queue.  But no check ever
    answers that there is nothing: with nothing pending it returns one zero message,
    because the channel [peekInbound] makes is closed, not empty. *)
Theorem steering_answers ops m key :
  let '(m', rs) := steer_run ops m in
  (∃ real, pending m key ++ queued key ops = concat real ++ pending m' key ∧
     Forall2 (λ r r', r = match r' with [] => [zero_inbound] | l => l end) (answers key rs) real) ∧
  Forall (λ kr, kr.2 ≠ []) rs.
Proof.
  revert m. induction ops as [|o ops IH]; intros m.
  { simpl. split; [|done]. exists []. simpl. by rewrite app_nil_r. }
  destruct o as [k msg|k]; cbn [steer_run].
  - specialize (IH (QueueSteering k msg m)). destruct (steer_run ops _) as [m' rs].
    destruct IH as [(real & Heq & Hf) Hne]. split; [|done]. exists real. split; [|done].
    rewrite queued_cons, app_assoc, <- queue_pending. done.
  - rewrite CheckSteering_spec. specialize (IH (match pending m k with [] => m | _ => <[k := []]> m end)).
    destruct (steer_run ops _) as [m' rs]. destruct IH as [(real & Heq & Hf) Hne]. split.
    + rewrite queued_cons, answers_cons. simpl. case_decide as Hk.
      * subst k. exists (pending m key :: real). split; [|constructor; [by destruct (pending m key)|done]].
        simpl. rewrite <- app_assoc, <- Heq. destruct (pending m key) eqn:Hp; simpl; [by rewrite Hp|].
        by rewrite pending_insert, decide_True.
      * exists real. split; [|done]. rewrite <- Heq. simpl. f_equal.
        destruct (pending m k); [done|]. by rewrite pending_insert, decide_False.
    + constructor; [|done]. simpl. by destruct (pending m k).
Qed.

(** Every message queued through the ADK manager is handed out exactly once and in
    order, or is still pending, whatever sessions and contexts come and go; and queuing
    a message for a session cancels the context registered for it at that moment, and
    that one only. *)
Theorem adk_steering_delivers ops key msg :
  let '(s, got) := adk_run ops NewADKSteering (λ _, []) in
  adk_queued key ops = got key ++ pending (pendingMessages s) key ∧
  cancelled (QueueSteeringMessage key msg s) =
    cancelled s ++ (match activeContexts s !! key with Some ctx => [ctx] | None => [] end) ∧
  ((InterruptIfNeeded key s).2 = true ↔
     pending (pendingMessages s) key ≠ [] ∧ is_Some (activeContexts s !! key)).
Proof.
  destruct (adk_run ops NewADKSteering (λ _, [])) as [s got] eqn:Hrun. split.
  - assert (Hgen : ∀ ops s0 got0 s got, adk_run ops s0 got0 = (s, got) →
      got0 key ++ pending (pendingMessages s0) key ++ adk_queued key ops
      = got key ++ pending (pendingMessages s) key).
    { clear. induction ops as [|o ops IH]; intros s0 got0 s got Hr; simpl in Hr.
      { simplify_eq. simpl. by rewrite app_nil_r. }
      destruct (adk_step o s0) as [s1 r] eqn:Ho. apply IH in Hr. rewrite <- Hr, adk_queued_cons, <- !app_assoc.
      f_equal. destruct o as [k ctx|k|k|k m|k]; simpl in Ho; simplify_eq/=; try done.
      - unfold InterruptIfNeeded, call_cancel. by repeat case_match.
      - assert (Hp : pendingMessages (QueueSteeringMessage k m s0) = QueueSteering k m (pendingMessages s0)).
        { unfold QueueSteeringMessage, call_cancel; simpl. by case_match. }
        by rewrite Hp, queue_pending, <- app_assoc.
      - injection Ho as <- <-. simpl. rewrite pending_insert. case_decide; by subst. }
    by apply Hgen in Hrun.
  - unfold QueueSteeringMessage, InterruptIfNeeded, call_cancel; simpl.
    destruct (activeContexts s !! key), (pending (pendingMessages s) key); simpl;
      rewrite ?app_nil_r; split_and!; try done; (split; [|by intros [? ?]]); intros; split; done.
Qed.
