(* ===== verification/Pruning.v ===== *)
(** [pkg/pruning/pruning.go]: three-layer pruning of a conversation to a token target.

    [genai.Content], [genai.Part] and [genai.FunctionResponse] are records with the
    fields the code reads or writes; what else a part holds is [part_rest].  A response
    is a [map[string]any]; the values are strings or something the code does not look
    into.  Ranging over it takes the order from the argument [range].  Slicing a string
    out of bounds panics: such functions return an option. *)
From Stdlib Require Import QArith.
From S2P Require Import Prelude GoStrings.

Record Strategy := {
  SoftTrimRatio : Q; HardClearRatio : Q;     (* read by no operation *)
  KeepRecentN : Z; HeadChars : Z; TailChars : Z;
}.

Definition DefaultStrategy : Strategy :=
  {| SoftTrimRatio := 3 # 10; HardClearRatio := 5 # 10; KeepRecentN := 5; HeadChars := 500; TailChars := 500 |}.

Inductive any := AStr (s : string) | AOther (tag : nat).
Abbreviation response := (gmap string any) (only parsing).

(** [Response] is [None] for a nil map. *)
Record FunctionResponse := { fr_Name : string; fr_Response : option response; fr_ID : string }.
Record Part := { part_Text : string; part_FunctionResponse : option FunctionResponse; part_rest : nat }.
Record Content := { ct_Role : string; ct_Parts : list Part }.

(** [s[lo:hi]]. *)
Definition slice (s : string) (lo hi : Z) : option string :=
  if (0 <=? lo) && (lo <=? hi) && (hi <=? Z.of_nat (String.length s))
  then Some (String.substring (Z.to_nat lo) (Z.to_nat (hi - lo)) s) else None.

Definition zlen (s : string) : Z := Z.of_nat (String.length s).

Section pruning.
Context (range : gmap string any → list (string * any)).

Definition toString (v : any) : string := match v with AStr s => s | AOther _ => "" end.

Definition nl : string := String (Ascii.ascii_of_nat 10) "".

Definition extractTextContent (r : option response) : string :=
  match r with
  | None => ""
  | Some m =>
      match m !! "content"%string with
      | Some (AStr content) => content
      | _ => String.concat "" ((λ kv, kv.1 +:+ ": " +:+ toString kv.2 +:+ nl) <$> range m)
      end
  end.

Definition part_chars (p : Part) : Z :=
  (if str_empty (part_Text p) then 0 else zlen (part_Text p)) +
  match part_FunctionResponse p with Some fr => zlen (extractTextContent (fr_Response fr)) | None => 0 end.

Definition content_chars (c : Content) : Z := sum_of part_chars (ct_Parts c).
Definition chars (l : list Content) : Z := sum_of content_chars l.

(** [chars / 4]; the count is not negative, so Go's division is the floor. *)
Definition estimateTokens (l : list Content) : Z := chars l `div` 4.

Definition text_part (name text : string) : Part :=
  {| part_Text := "";
     part_FunctionResponse := Some {| fr_Name := name;
       fr_Response := Some {[ "content"%string := AStr text ]}; fr_ID := "" |};
     part_rest := 0 |}.

Definition trim_marker : string := nl +:+ "... [truncated] ..." +:+ nl.

Definition softTrimPart (s : Strategy) (p : Part) (fr : FunctionResponse) : option Part :=
  let content := extractTextContent (fr_Response fr) in
  if zlen content <=? HeadChars s + TailChars s then Some p
  else
    head ← slice content 0 (HeadChars s);
    tail ← slice content (zlen content - TailChars s) (zlen content);
    Some (text_part (fr_Name fr) (head +:+ trim_marker +:+ tail)).

Definition softTrimMessage (s : Strategy) (msg : Content) : option Content :=
  if negb (bool_decide (ct_Role msg = "user"%string)) then Some msg
  else
    parts ← mapM (λ p, match part_FunctionResponse p with
                       | Some fr => match fr_Response fr with
                                    | Some _ => softTrimPart s p fr
                                    | None => Some p
                                    end
                       | None => Some p
                       end) (ct_Parts msg);
    Some {| ct_Role := ct_Role msg; ct_Parts := parts |}.

Definition softTrimToolResults (s : Strategy) (l : list Content) : option (list Content) :=
  mapM (softTrimMessage s) l.

Definition cleared : string := "[Old tool result content cleared]".

Definition hardClearMessage (msg : Content) : Content :=
  if negb (bool_decide (ct_Role msg = "user"%string)) then msg
  else {| ct_Role := ct_Role msg;
          ct_Parts := (λ p, match part_FunctionResponse p with
                            | Some fr => text_part (fr_Name fr) cleared
                            | None => p
                            end) <$> ct_Parts msg |}.

Definition hardClearToolResults (l : list Content) : list Content := hardClearMessage <$> l.

(** The loop of [findRecentAssistantIndices] from the last message down; the list is the
    conversation reversed, each message with its index. *)
Fixpoint recent_loop (keep count : Z) (rev : list (nat * Content)) : list nat :=
  match rev with
  | [] => []
  | (i, msg) :: rev =>
      if count <? keep then
        if bool_decide (ct_Role msg = "model"%string) then i :: recent_loop keep (count + 1) rev
        else recent_loop keep count rev
      else []
  end.

Definition indexed (l : list Content) : list (nat * Content) := zip (seq 0 (length l)) l.

Definition findRecentAssistantIndices (s : Strategy) (l : list Content) : list nat :=
  recent_loop (KeepRecentN s) 0 (reverse (indexed l)).

(** The loop of [dropOldMessages], with its accumulator [result]. *)
Fixpoint drop_loop (target : Z) (protected : list nat) (rev : list (nat * Content))
    (result : list Content) (currentTokens : Z) : list Content :=
  match rev with
  | [] => result
  | (i, msg) :: rev =>
      let tokens := estimateTokens [msg] in
      if (currentTokens + tokens <=? target) || bool_decide (i ∈ protected)
      then drop_loop target protected rev (msg :: result) (currentTokens + tokens)
      else drop_loop target protected rev result currentTokens
  end.

Definition dropOldMessages (s : Strategy) (l : list Content) (target : Z) : list Content :=
  drop_loop target (findRecentAssistantIndices s l) (reverse (indexed l)) [] 0.

Definition Prune (s : Strategy) (l : list Content) (target : Z) : option (list Content) :=
  if estimateTokens l <=? target then Some l
  else
    l1 ← softTrimToolResults s l;
    if estimateTokens l1 <=? target then Some l1
    else
      let l2 := hardClearToolResults l1 in
      if estimateTokens l2 <=? target then Some l2
      else Some (dropOldMessages s l2 target).
End pruning.

(** ** Specification *)

(** What layers 1 and 2 may do to a part and a message. *)
Definition same_part (p p' : Part) : Prop :=
  p' = p ∨ ∃ fr fr', part_FunctionResponse p = Some fr ∧ part_FunctionResponse p' = Some fr' ∧
    fr_Name fr' = fr_Name fr ∧ part_Text p' = ""%string.

Definition same_shape (c c' : Content) : Prop :=
  ct_Role c' = ct_Role c ∧ (ct_Role c ≠ "user"%string → c' = c) ∧
  Forall2 same_part (ct_Parts c) (ct_Parts c').

Definition is_model (c : Content) : bool := bool_decide (ct_Role c = "model"%string).

(** The messages layer 3 must keep: model messages with fewer than [keep] after them. *)
Definition recent (keep : Z) (l : list Content) (i : nat) : Prop :=
  ∃ msg, l !! i = Some msg ∧ is_model msg = true ∧
    Z.of_nat (length (filter (λ c, is_model c = true) (drop (S i) l))) < keep.

(** ** Lemmas *)

Lemma same_part_refl p : same_part p p.
Proof. by left. Qed.

Lemma same_shape_refl c : same_shape c c.
Proof. split_and!; [done|done|]. apply Forall2_same_length_lookup_2; [done|]. intros; simplify_eq. by left. Qed.

Lemma same_part_trans p1 p2 p3 : same_part p1 p2 → same_part p2 p3 → same_part p1 p3.
Proof.
  intros [->|(f1 & f2 & H1 & H2 & H3 & H4)] [->|(f3 & f4 & H5 & H6 & H7 & H8)]; unfold same_part.
  - by left.
  - right. by exists f3, f4.
  - right. by exists f1, f2.
  - right. exists f1, f4. split_and!; [done..|congruence|done].
Qed.

Lemma same_shape_trans c1 c2 c3 : same_shape c1 c2 → same_shape c2 c3 → same_shape c1 c3.
Proof.
  intros (R1 & E1 & F1) (R2 & E2 & F2). split_and!; [congruence| |].
  - intros Hu. rewrite E2, E1; [done|done|congruence].
  - revert F2. generalize (ct_Parts c3). induction F1 as [|p1 p2 l1 l2 H1 _ IH]; intros l3 F2.
    + by apply Forall2_nil_inv_l in F2 as ->.
    + apply Forall2_cons_inv_l in F2 as (p3 & l3' & H2 & F2 & ->).
      constructor; [by eapply same_part_trans|by apply IH].
Qed.

Lemma slice_some s lo hi : 0 ≤ lo → lo ≤ hi → hi ≤ zlen s → is_Some (slice s lo hi).
Proof.
  unfold slice, zlen. intros. rewrite !(proj2 (Z.leb_le _ _)) by done. simpl. by eexists.
Qed.

Lemma slice_length s lo hi t : slice s lo hi = Some t → zlen t = hi - lo.
Proof.
  unfold slice, zlen. destruct (Z.leb_spec 0 lo), (Z.leb_spec lo hi), (Z.leb_spec hi (Z.of_nat (String.length s)));
    intros [= <-]; try done.
  assert (Hsub : ∀ n m s, (n + m ≤ String.length s)%nat → String.length (String.substring n m s) = m).
  { clear. induction n as [|n IH]; intros m s.
    - revert s. induction m as [|m IHm]; intros [|c s] Hl; simpl in *; try lia. rewrite IHm; lia.
    - destruct s as [|c s]; simpl; [lia|]. intros. apply IH. lia. }
  rewrite Hsub; lia.
Qed.

Lemma zlen_app s t : zlen (s +:+ t) = zlen s + zlen t.
Proof. unfold zlen. induction s as [|c s IH]; [done|]. change (String c s +:+ t) with (String c (s +:+ t)). cbn [String.length]. lia. Qed.

Lemma mapM_total {A B} (f : A → option B) l (R : A → B → Prop) :
  (∀ x, x ∈ l → ∃ y, f x = Some y ∧ R x y) → ∃ k, mapM f l = Some k ∧ Forall2 R l k.
Proof.
  induction l as [|x l IH]; intros H; [by exists []|].
  destruct (H x) as (y & Hy & HR); [set_solver|].
  destruct IH as (k & Hk & HF); [set_solver|]. exists (y :: k). simpl. rewrite Hy; simpl. rewrite Hk. auto.
Qed.

Section lemmas.
Context (range : gmap string any → list (string * any)).

Lemma text_part_chars name text :
  part_chars range (text_part name text) = zlen text.
Proof.
  unfold part_chars, text_part, extractTextContent; simpl. done.
Qed.

Lemma softTrimPart_total s p fr :
  0 ≤ HeadChars s → 0 ≤ TailChars s → part_FunctionResponse p = Some fr →
  ∃ p', softTrimPart range s p fr = Some p' ∧ same_part p p' ∧
    (zlen (extractTextContent range (fr_Response fr)) ≤ HeadChars s + TailChars s ∧ p' = p ∨
     HeadChars s + TailChars s < zlen (extractTextContent range (fr_Response fr)) ∧
     part_chars range p' = HeadChars s + TailChars s + 21).
Proof.
  intros Hh Ht Hfr. unfold softTrimPart. set (content := extractTextContent range (fr_Response fr)).
  destruct (Z.leb_spec (zlen content) (HeadChars s + TailChars s)); [exists p; eauto using same_part_refl|].
  destruct (slice_some content 0 (HeadChars s)) as [h Hhd]; [lia..|].
  destruct (slice_some content (zlen content - TailChars s) (zlen content)) as [t Htl]; [lia..|].
  rewrite Hhd; simpl. rewrite Htl; simpl. eexists. split_and!; [done| |].
  - right. by eexists fr, _.
  - right. split; [done|]. rewrite text_part_chars, !zlen_app.
    rewrite (slice_length _ _ _ _ Hhd), (slice_length _ _ _ _ Htl). unfold trim_marker, nl, zlen; simpl. lia.
Qed.

Lemma softTrimMessage_total s c :
  0 ≤ HeadChars s → 0 ≤ TailChars s → ∃ c', softTrimMessage range s c = Some c' ∧ same_shape c c'.
Proof.
  intros Hh Ht. unfold softTrimMessage. case_bool_decide as Hr; simpl; [|eauto using same_shape_refl].
  destruct (mapM_total (λ p, match part_FunctionResponse p with
     | Some fr => match fr_Response fr with Some _ => softTrimPart range s p fr | None => Some p end
     | None => Some p end) (ct_Parts c) same_part) as (k & Hk & HF).
  { intros p _. destruct (part_FunctionResponse p) as [fr|] eqn:Hfr; [|eauto using same_part_refl].
    destruct (fr_Response fr); [|eauto using same_part_refl].
    destruct (softTrimPart_total s p fr Hh Ht Hfr) as (p' & ? & ? & _). eauto. }
  rewrite Hk. simpl. eexists. split; [done|]. by split_and!.
Qed.

Lemma hardClearMessage_shape c : same_shape c (hardClearMessage c).
Proof.
  unfold hardClearMessage. case_bool_decide as Hr; simpl; [|apply same_shape_refl].
  split_and!; simpl; [done|done|]. apply Forall2_fmap_r. apply Forall2_same_length_lookup_2; [done|].
  intros i p p' H1 H2. simplify_eq. unfold same_part, compose. destruct (part_FunctionResponse p) as [fr|] eqn:Hfr; [|by left].
  right. by eexists fr, _.
Qed.

Lemma part_chars_nonneg p : 0 ≤ part_chars range p.
Proof. unfold part_chars, zlen. case_match; case_match; lia. Qed.

Lemma content_chars_nonneg c : 0 ≤ content_chars range c.
Proof. apply sum_of_nonneg, part_chars_nonneg. Qed.

Definition tokens_sum (l : list Content) : Z := sum_of (λ c, estimateTokens range [c]) l.

Lemma estimate_single c : estimateTokens range [c] = content_chars range c `div` 4.
Proof. unfold estimateTokens, chars. rewrite sum_of_cons. f_equal. simpl. lia. Qed.

Lemma estimate_sum l : estimateTokens range l ≤ tokens_sum l + (3 * Z.of_nat (length l)) `div` 4.
Proof.
  assert (chars range l ≤ 4 * tokens_sum l + 3 * Z.of_nat (length l)).
  { induction l as [|c l IH]; [done|]. unfold chars, tokens_sum in *. rewrite !sum_of_cons, estimate_single. cbn [length]. pose proof (Z.mod_pos_bound (content_chars range c) 4).
    pose proof (Z.div_mod (content_chars range c) 4). lia. }
  unfold estimateTokens.
  rewrite <- Z.div_add_l by done. apply Z.div_le_mono; lia.
Qed.

Lemma estimate_nonneg l : 0 ≤ estimateTokens range l.
Proof. apply Z.div_pos; [|done]. apply sum_of_nonneg, content_chars_nonneg. Qed.

Lemma tokens_sum_cons c l : tokens_sum (c :: l) = estimateTokens range [c] + tokens_sum l.
Proof. done. Qed.

(** The loop keeps a sublist with every protected message and stays within the target
    plus the protected messages. *)
Lemma drop_loop_spec target prot rev result cur :
  ∃ K, K `sublist_of` rev ∧ drop_loop range target prot rev result cur = reverse (snd <$> K) ++ result ∧
    (∀ i c, (i, c) ∈ rev → i ∈ prot → (i, c) ∈ K) ∧
    cur + tokens_sum (snd <$> K) ≤
      Z.max cur target + tokens_sum (snd <$> filter (λ ic, ic.1 ∈ prot) rev).
Proof.
  revert result cur. induction rev as [|[i c] rev IH]; intros result cur.
  { exists []. split_and!; [done..|]. unfold tokens_sum; simpl. lia. }
  simpl. pose proof (estimate_nonneg [c]) as Hc.
  destruct ((cur + estimateTokens range [c] <=? target) || bool_decide (i ∈ prot)) eqn:Hb.
  - destruct (IH (c :: result) (cur + estimateTokens range [c])) as (K & Hs & Heq & Hp & Hk).
    exists ((i, c) :: K). split_and!.
    + by apply sublist_skip.
    + rewrite Heq. simpl. by rewrite reverse_cons, <- app_assoc.
    + intros i' c' [?|Hin]%elem_of_cons Hi; [simplify_eq; set_solver|]. apply elem_of_cons. right. eauto.
    + rewrite fmap_cons, tokens_sum_cons, filter_cons. apply orb_true_iff in Hb as [Hb%Z.leb_le|Hb%bool_decide_eq_true].
      * case_decide; [rewrite fmap_cons, tokens_sum_cons|]; simpl in *; lia.
      * rewrite decide_True by done. rewrite fmap_cons, tokens_sum_cons. simpl in *. lia.
  - destruct (IH result cur) as (K & Hs & Heq & Hp & Hk). exists K.
    apply orb_false_iff in Hb as [_ Hb%bool_decide_eq_false]. split_and!.
    + by apply sublist_cons.
    + done.
    + intros i' c' [?|Hin]%elem_of_cons Hi; [by simplify_eq|eauto].
    + by rewrite filter_cons_False.
Qed.

(** The loop over the messages from the last one finds exactly the recent ones: [l2] is
    the part already seen. *)
Lemma recent_loop_spec keep l1 l2 i :
  i ∈ recent_loop keep (Z.of_nat (length (filter (λ c, is_model c = true) l2)))
        (reverse (indexed l1)) ↔ recent keep (l1 ++ l2) i ∧ (i < length l1)%nat.
Proof.
  revert l2 i. induction l1 as [|msg l1 IH] using rev_ind; intros l2 i.
  { simpl. rewrite elem_of_nil. split; [done|]. intros [_ ?]. lia. }
  assert (Hidx : indexed (l1 ++ [msg]) = indexed l1 ++ [(length l1, msg)]).
  { unfold indexed. rewrite length_app, seq_app, zip_with_app; [done|by rewrite length_seq]. }
  set (n := Z.of_nat (length (filter (λ c, is_model c = true) l2))).
  assert (Hpos : recent keep ((l1 ++ [msg]) ++ l2) (length l1) ↔ is_model msg = true ∧ n < keep).
  { unfold recent. rewrite <- app_assoc. cbn [app]. rewrite lookup_app_r, Nat.sub_diag by lia.
    rewrite drop_app_ge by lia.
    assert (S (length l1) - length l1 = 1)%nat as -> by lia. simpl.
    split; [|by exists msg]. intros (m & ? & ? & ?). by simplify_eq. }
  rewrite Hidx, reverse_snoc. simpl. fold n.
  assert (Hm : Z.of_nat (length (filter (λ c, is_model c = true) (msg :: l2)))
     = if is_model msg then n + 1 else n).
  { rewrite filter_cons. destruct (is_model msg); case_decide; try done. simpl. lia. }
  specialize (IH (msg :: l2) i). rewrite Hm in IH. unfold is_model in IH at 1.
  rewrite length_app. simpl. rewrite <- app_assoc. simpl.
  rewrite <- app_assoc in Hpos. simpl in Hpos. unfold is_model in Hpos at 1.
  destruct (Z.ltb_spec n keep) as [Hlt|Hge].
  - case_bool_decide as Hr; rewrite ?elem_of_cons, IH; split.
    + intros [->|[? ?]]; [rewrite Hpos; split; [done|lia]|split; [done|lia]].
    + intros [Hrec ?]. destruct (decide (i = length l1)) as [->|]; [by left|right]. split; [done|lia].
    + intros [? ?]. split; [done|lia].
    + intros [Hrec ?]. destruct (decide (i = length l1)) as [->|]; [|split; [done|lia]].
      by apply Hpos in Hrec as [? _].
  - rewrite elem_of_nil. split; [done|]. intros [(m & Hi & Hmod & Hcnt) Hlt].
    assert (n ≤ Z.of_nat (length (filter (λ c, is_model c = true) (drop (S i) (l1 ++ msg :: l2))))); [|lia].
    assert (∃ k, drop (S i) (l1 ++ msg :: l2) = k ++ l2) as [k ->].
    { rewrite drop_app. destruct (S i - length l1)%nat as [|j] eqn:Hj.
      - exists (drop (S i) l1 ++ [msg]). by rewrite <- app_assoc.
      - assert (j = 0)%nat as -> by lia. by exists (drop (S i) l1). }
    subst n. rewrite filter_app, length_app. lia.
Qed.

Lemma protected_spec s l i : i ∈ findRecentAssistantIndices s l ↔ recent (KeepRecentN s) l i.
Proof.
  unfold findRecentAssistantIndices. rewrite (recent_loop_spec (KeepRecentN s) l [] i), app_nil_r.
  split; [by intros []|]. intros Hr. split; [done|]. destruct Hr as (m & ?%lookup_lt_Some & _). done.
Qed.

Lemma indexed_elem l i c : (i, c) ∈ indexed l ↔ l !! i = Some c.
Proof.
  unfold indexed. rewrite list_elem_of_lookup. setoid_rewrite lookup_zip_with_Some. split.
  - intros (j & x & y & ? & Hx%lookup_seq & ?). destruct Hx as [-> ?]. by simplify_eq.
  - intros Hl. exists i, i, c. split_and!; [done| |done]. apply lookup_seq.
    split; [done|by apply lookup_lt_Some in Hl].
Qed.
End lemmas.

(** ** A conversation and its rewritten copy *)

Lemma sublist_Forall2 {A B} (P : A → B → Prop) l k k' :
  Forall2 P l k → k' `sublist_of` k → ∃ l', l' `sublist_of` l ∧ Forall2 P l' k'.
Proof.
  intros HF. revert k'. induction HF as [|x y l k Hxy HF IH]; intros k' Hs.
  - apply sublist_nil_r in Hs as ->. by exists [].
  - apply sublist_cons_r in Hs as [Hs|(k2 & -> & Hs)].
    + destruct (IH k' Hs) as (l' & ? & ?). exists l'. split; [by apply sublist_cons|done].
    + destruct (IH k2 Hs) as (l' & ? & ?). exists (x :: l'). split; [by apply sublist_skip|by constructor].
Qed.

Lemma sublist_rev {A} (l k : list A) : l `sublist_of` k → reverse l `sublist_of` reverse k.
Proof.
  induction 1 as [|x l k Hs IH|x l k Hs IH]; [done| |]; rewrite !reverse_cons.
  - by apply sublist_app.
  - by apply sublist_inserts_r.
Qed.

Lemma filter_Forall2_eq {A} (R : A → A → Prop) (P : A → Prop) `{∀ x, Decision (P x)} l k :
  Forall2 R l k → (∀ x y, x ∈ l → R x y → (P x ↔ P y) ∧ (P x → x = y)) → filter P l = filter P k.
Proof.
  induction 1 as [|x y l k Hxy HF IH]; intros HP; [done|].
  destruct (HP x y) as [Hiff Heq]; [set_solver|done|]. rewrite !filter_cons, IH by set_solver.
  repeat case_decide; try tauto. by rewrite Heq.
Qed.

Lemma same_shape_model c c' : same_shape c c' → is_model c' = is_model c ∧ (is_model c = true → c' = c).
Proof.
  unfold same_shape, is_model. intros (-> & He & _). split; [done|].
  intros Hm%bool_decide_eq_true. apply He. by rewrite Hm.
Qed.

Lemma recent_shape keep l l' i : Forall2 same_shape l l' → recent keep l i ↔ recent keep l' i.
Proof.
  intros HF.
  assert (Hlen : ∀ n, length (filter (λ c, is_model c = true) (drop n l)) =
                      length (filter (λ c, is_model c = true) (drop n l'))).
  { intros n. pose proof (Forall2_drop _ _ _ n HF) as Hd. induction Hd as [|x y ?? Hs _ IH]; [done|].
    apply same_shape_model in Hs as [Hs _]. rewrite !filter_cons. repeat case_decide; simpl; congruence. }
  unfold recent. setoid_rewrite Hlen. split.
  - intros (c & Hc & Hm & ?). destruct (Forall2_lookup_l _ _ _ _ _ HF Hc) as (c' & Hc' & Hs).
    apply same_shape_model in Hs as [Hs _]. exists c'. by rewrite Hs.
  - intros (c & Hc & Hm & ?). destruct (Forall2_lookup_r _ _ _ _ _ HF Hc) as (c' & Hc' & Hs).
    apply same_shape_model in Hs as [Hs _]. exists c'. by rewrite <- Hs.
Qed.

Lemma indexed_shape l l' : Forall2 same_shape l l' →
  Forall2 (λ ic ic', ic'.1 = ic.1 ∧ same_shape ic.2 ic'.2) (indexed l) (indexed l').
Proof.
  intros HF. unfold indexed. rewrite <- (Forall2_length _ _ _ HF). generalize 0%nat.
  induction HF as [|c c' l l' Hc HF IH]; intros n; simpl; constructor; simpl; auto.
Qed.

Section theorems.
Context (range : gmap string any → list (string * any)).

Lemma Prune_returns s l target :
  0 ≤ HeadChars s → 0 ≤ TailChars s → is_Some (Prune range s l target).
Proof.
  intros Hh Ht. unfold Prune. case_match; [by eexists|].
  destruct (mapM_total (softTrimMessage range s) l same_shape) as (l1 & Hl1 & _).
  { intros c _. by apply softTrimMessage_total. }
  unfold softTrimToolResults. rewrite Hl1; simpl. case_match; [by eexists|]. case_match; by eexists.
Qed.

Lemma dropOldMessages_spec s l l2 target :
  Forall2 same_shape l l2 →
  let r := dropOldMessages range s l2 target in
  ∃ K, K `sublist_of` indexed l ∧ Forall2 same_shape (snd <$> K) r ∧
    (∀ i c, recent (KeepRecentN s) l i → l !! i = Some c → (i, c) ∈ K) ∧
    estimateTokens range r ≤
      Z.max 0 target +
      tokens_sum range (snd <$> filter (λ ic, ic.1 ∈ findRecentAssistantIndices s l) (indexed l)) +
      (3 * Z.of_nat (length r)) `div` 4.
Proof.
  intros HF r. pose proof (indexed_shape _ _ HF) as HFi.
  destruct (drop_loop_spec range target (findRecentAssistantIndices s l2) (reverse (indexed l2)) [] 0)
    as (K2 & Hs & Hr & Hprot & Hbound).
  fold (dropOldMessages range s l2 target) in Hr. fold r in Hr. rewrite app_nil_r in Hr.
  assert (Hs2 : reverse K2 `sublist_of` indexed l2).
  { rewrite <- (reverse_involutive (indexed l2)). by apply sublist_rev. }
  destruct (sublist_Forall2 _ _ _ _ HFi Hs2) as (K & HK & HKF).
  assert (Hr2 : r = snd <$> reverse K2) by (by rewrite Hr, fmap_reverse).
  assert (Hprots : ∀ i, i ∈ findRecentAssistantIndices s l ↔ i ∈ findRecentAssistantIndices s l2).
  { intros i. rewrite !protected_spec. by apply recent_shape. }
  exists K. split_and!; [done| | |].
  - rewrite Hr2. apply Forall2_fmap. eapply Forall2_impl; [exact HKF|]. by intros ?? [_ ?].
  - intros i c Hrec Hc. pose proof Hrec as Hrec2%(recent_shape _ _ _ _ HF).
    assert (Hin : (i, c) ∈ reverse K2).
    { rewrite elem_of_reverse. apply Hprot; [|by apply protected_spec].
      rewrite elem_of_reverse. apply indexed_elem.
      destruct (Forall2_lookup_l _ _ _ _ _ HF Hc) as (c' & Hc' & Hsh).
      destruct Hrec as (c0 & ? & Hm & _). simplify_eq.
      apply same_shape_model in Hsh as [_ Hsh]. by rewrite Hsh in Hc'. }
    apply list_elem_of_lookup in Hin as [j Hj].
    destruct (Forall2_lookup_r _ _ _ _ _ HKF Hj) as ([i' c'] & Hj' & Hi & Hsh). simpl in *. subst i'.
    assert (Hin : (i, c') ∈ indexed l).
    { eapply elem_of_sublist; [|exact HK]. by eapply list_elem_of_lookup_2. }
    apply indexed_elem in Hin. simplify_eq. by eapply list_elem_of_lookup_2.
  - pose proof (estimate_sum range r) as He.
    assert (Hfil : filter (λ ic, ic.1 ∈ findRecentAssistantIndices s l) (indexed l) =
                   filter (λ ic, ic.1 ∈ findRecentAssistantIndices s l2) (indexed l2)).
    { rewrite (list_filter_iff _ (λ ic, ic.1 ∈ findRecentAssistantIndices s l2)) by (intros []; apply Hprots).
      eapply filter_Forall2_eq; [exact HFi|]. intros [i c] [i' c'] Hin [Hi Hsh]. simpl in *. subst i'.
      split; [done|]. intros (c0 & Hc0 & Hm & _)%Hprots%protected_spec. apply indexed_elem in Hin. simplify_eq.
      apply same_shape_model in Hsh as [_ Hsh]. by rewrite Hsh. }
    rewrite Hfil.
    assert (Hrev : ∀ k : list (nat * Content), tokens_sum range (snd <$> reverse k) = tokens_sum range (snd <$> k)).
    { intros k. unfold tokens_sum. induction k as [|x k IHk]; [done|].
      rewrite reverse_cons, fmap_app, sum_of_app, IHk, !fmap_cons, !sum_of_cons, fmap_nil. unfold sum_of at 2. simpl foldr. lia. }
    rewrite Hr2, Hrev in He. rewrite filter_reverse, Hrev in Hbound. rewrite Hr2, length_fmap in *. lia.
Qed.

(** ** Properties *)

(** Pruning always returns.  The result meets the token target with every message in
    place, roles unchanged and only tool results of user messages rewritten; or it is a
    selection of the messages in their order that contains each of the last
    [KeepRecentN] model messages, untouched, and exceeds the target by at most the tokens
    of those and the rounding of the estimate (three quarters of a token a message). *)
Theorem Prune_sound s l target :
  0 ≤ HeadChars s → 0 ≤ TailChars s →
  ∃ r, Prune range s l target = Some r ∧
    ((estimateTokens range r ≤ target ∧ Forall2 same_shape l r) ∨
     ∃ K, K `sublist_of` indexed l ∧ Forall2 same_shape (snd <$> K) r ∧
       (∀ i c, recent (KeepRecentN s) l i → l !! i = Some c → (i, c) ∈ K) ∧
       estimateTokens range r ≤
         Z.max 0 target +
         tokens_sum range (snd <$> filter (λ ic, ic.1 ∈ findRecentAssistantIndices s l) (indexed l)) +
         (3 * Z.of_nat (length r)) `div` 4).
Proof.
  intros Hh Ht. unfold Prune.
  destruct (Z.leb_spec (estimateTokens range l) target).
  { exists l. split; [done|left]. split; [done|].
    apply Forall2_same_length_lookup_2; [done|]. intros; simplify_eq. apply same_shape_refl. }
  destruct (mapM_total (softTrimMessage range s) l same_shape) as (l1 & Hl1 & HF1).
  { intros c _. by apply softTrimMessage_total. }
  unfold softTrimToolResults. rewrite Hl1; simpl.
  destruct (Z.leb_spec (estimateTokens range l1) target); [exists l1; eauto|].
  assert (HF : Forall2 same_shape l (hardClearToolResults l1)).
  { apply Forall2_fmap_r. eapply Forall2_impl; [exact HF1|]. intros c c' Hs.
    eapply same_shape_trans; [exact Hs|apply hardClearMessage_shape]. }
  set (l2 := hardClearToolResults l1) in *.
  destruct (Z.leb_spec (estimateTokens range l2) target); [exists l2; eauto|].
  exists (dropOldMessages range s l2 target). split; [done|right]. by apply dropOldMessages_spec.
Qed.

(** A soft-trimmed tool result has exactly [HeadChars + TailChars + 21] characters of
    text, whatever it had: a result up to 20 characters longer than the two ends gets
    longer.  A hard-cleared result has 33 characters, so short results grow too. *)
Theorem trim_lengths s p fr m :
  0 ≤ HeadChars s → 0 ≤ TailChars s →
  part_FunctionResponse p = Some fr → fr_Response fr = Some m → part_Text p = ""%string →
  ∃ p', softTrimPart range s p fr = Some p' ∧
    (if part_chars range p <=? HeadChars s + TailChars s then p' = p
     else part_chars range p' = HeadChars s + TailChars s + 21) ∧
    part_chars range (text_part (fr_Name fr) cleared) = 33.
Proof.
  intros Hh Ht Hfr Hm Htx. destruct (softTrimPart_total range s p fr Hh Ht Hfr) as (p' & Hp & _ & Hcase).
  assert (Hc : part_chars range p = zlen (extractTextContent range (fr_Response fr))).
  { unfold part_chars. by rewrite Htx, Hfr. }
  exists p'. split; [done|]. rewrite Hc. split; [|by rewrite text_part_chars].
  destruct (Z.leb_spec (zlen (extractTextContent range (fr_Response fr))) (HeadChars s + TailChars s)).
  - destruct Hcase as [[_ ?]|[? _]]; [done|lia].
  - destruct Hcase as [[? _]|[_ ?]]; [lia|done].
Qed.
End theorems.

(** ** Witnesses *)

Definition w_strategy : Strategy :=
  {| SoftTrimRatio := 0; HardClearRatio := 0; KeepRecentN := 1; HeadChars := 2; TailChars := 2 |}.
Definition w_part : Part := text_part "t" "0123456789".
Definition w_text (role text : string) : Content :=
  {| ct_Role := role; ct_Parts := [{| part_Text := text; part_FunctionResponse := None; part_rest := 0 |}] |}.
Definition w_conv : list Content :=
  [w_text "user" "aaaaaaaa"; w_text "model" "bbbb"; {| ct_Role := "user"; ct_Parts := [w_part] |}; w_text "model" "cccccccc"].

(** Only the protected last answer fits. *)
Lemma Prune_sound_witness :
  Prune map_to_list w_strategy w_conv 1 = Some [w_text "model" "cccccccc"] ∧
  ∃ r, Prune map_to_list w_strategy w_conv 1 = Some r.
Proof.
  split; [by vm_compute|].
  destruct (Prune_sound map_to_list w_strategy w_conv 1) as (r & Hr & _); [by vm_compute..|]. by exists r.
Defined.

Definition w_response : gmap string any := {[ "content"%string := AStr "0123456789" ]}.

(** A result of 10 characters becomes one of 25. *)
Lemma trim_lengths_witness :
  part_chars map_to_list w_part = 10 ∧
  ∃ p', softTrimPart map_to_list w_strategy w_part {| fr_Name := "t"; fr_Response := Some w_response; fr_ID := "" |} = Some p'.
Proof.
  split; [by vm_compute|].
  destruct (trim_lengths map_to_list w_strategy w_part
    {| fr_Name := "t"; fr_Response := Some w_response; fr_ID := "" |} w_response)
    as (p' & Hp & _); [by vm_compute|by vm_compute|reflexivity|reflexivity|reflexivity|]. by exists p'.
Defined.
