(* ===== verification/Compression.v ===== *)
(** [pkg/agent/compression.go]: compression of a session whose context has grown too
    large, on top of the session service interface of the ADK.

    The service is third-party: [SessionService] is its interface and [SessionLaws] what
    the code relies on, namely that what was created or appended successfully is what a
    later [Get] of that session returns, that a session that was got has no nil events (the
    services of the ADK refuse to append one), and that other sessions are not touched.  A
    call may fail at any time.  [mem_service] is an instance. *)
From stdpp Require Import pretty.
From S2P Require Import Prelude GoStrings Types Pruning.

(** [session.Event] with the fields the code uses. *)
Record Event := { ev_Invocation : string; ev_Author : string; ev_Content : option Content; ev_rest : nat }.

(** A [session.Session]: the snapshot [Get] and [Create] return; [Events().At(i)] may be nil. *)
Record Session := {
  ss_UserID : string; ss_ID : string; ss_State : gmap string any; ss_Events : list (option Event);
}.

Class SessionService (S : Type) := {
  svc_Get : string → string → S → result goerror Session;
  svc_Create : string → string → gmap string any → S → S * result goerror Session;
  svc_Delete : string → string → S → S * option goerror;
  svc_AppendEvent : Session → Event → S → S * option goerror;
}.

Class SessionLaws (S : Type) `{SessionService S} := {
  get_create u i st s s' sess :
    svc_Create u i st s = (s', Ok sess) →
    svc_Get u i s' = Ok sess ∧ ss_UserID sess = u ∧ ss_ID sess = i ∧ ss_State sess = st ∧ ss_Events sess = [];
  get_own u i s sess : svc_Get u i s = Ok sess → ss_UserID sess = u ∧ ss_ID sess = i;
  get_events u i s sess : svc_Get u i s = Ok sess → Forall is_Some (ss_Events sess);
  get_append sess ev s s' cur :
    svc_AppendEvent sess ev s = (s', None) → svc_Get (ss_UserID sess) (ss_ID sess) s = Ok cur →
    ∃ cur', svc_Get (ss_UserID sess) (ss_ID sess) s' = Ok cur' ∧ ss_Events cur' = ss_Events cur ++ [Some ev];
  get_delete u i s s' :
    svc_Delete u i s = (s', None) → is_ok (svc_Get u i s') = false;
  create_fails u i st s s' e :
    svc_Create u i st s = (s', Err e) → svc_Get u i s' = svc_Get u i s;
  create_other u i st s u' i' :
    (u', i') ≠ (u, i) → svc_Get u' i' (svc_Create u i st s).1 = svc_Get u' i' s;
  append_other sess ev s u' i' :
    (u', i') ≠ (ss_UserID sess, ss_ID sess) → svc_Get u' i' (svc_AppendEvent sess ev s).1 = svc_Get u' i' s;
  delete_other u i s u' i' :
    (u', i') ≠ (u, i) → svc_Get u' i' (svc_Delete u i s).1 = svc_Get u' i' s;
}.

Definition eventThreshold : Z := 50.
Definition contextWindowPercent : Z := 75.
Definition charsPerToken : Z := 4.
Definition minEventsToCompress : Z := 4.
Definition keepRecentPercent : Z := 25.

(** The contents of the events that are not nil and have one. *)
Definition eventsToMessages (events : list (option Event)) : list Content :=
  omap (λ ev, ev ← ev; ev_Content ev) events.

(** The tokens of the texts: each part's text is rounded down on its own. *)
Definition content_tokens (c : Content) : Z := sum_of (λ p, zlen (part_Text p) `div` charsPerToken) (ct_Parts c).

(** The estimate of the compressor, which reads the content of every event: [None] is its
    panic on a nil one. *)
Fixpoint event_tokens (evs : list (option Event)) (total : Z) : option Z :=
  match evs with
  | [] => Some total
  | None :: _ => None
  | Some ev :: evs => event_tokens evs (total + match ev_Content ev with Some c => content_tokens c | None => 0 end)
  end.
Definition estimateTokens (sess : Session) : option Z := event_tokens (ss_Events sess) 0.

Definition n_events (sess : Session) : Z := Z.of_nat (length (ss_Events sess)).

Definition ShouldCompress (sess : Session) (contextWindow : Z) : option bool :=
  if eventThreshold <? n_events sess then Some true
  else tokenEst ← estimateTokens sess; Some (Z.quot (contextWindow * contextWindowPercent) 100 <? tokenEst).

Definition extractText (events : list (option Event)) (from to : nat) : string :=
  String.concat "" (omap (λ p, if str_empty (part_Text p) then None else Some (part_Text p +:+ nl))
    (c ← eventsToMessages (take (to - from) (drop from events)); ct_Parts c)).

Section compression.
Context {S : Type} `{SessionService S}.
(** Iteration over a [map[string]any], and the summary model: the stream of responses
    to the prompt for a text. *)
Context (range : gmap string any → list (string * any)).
Context (summaryLLM : string → list (result goerror (option Content))).

(** [session.NewEvent(invocation)]; the fresh ID and time stamp are in [ev_rest]. *)
Definition summary_event (text : string) : Event :=
  {| ev_Invocation := "compression"; ev_Author := "system";
     ev_Content := Some {| ct_Role := "model";
       ct_Parts := [{| part_Text := text; part_FunctionResponse := None; part_rest := 0 |}] |};
     ev_rest := 0 |}.
Definition pruned_event (msg : Content) : Event :=
  {| ev_Invocation := "pruned"; ev_Author := ""; ev_Content := Some msg; ev_rest := 0 |}.

(** The loop that appends events, stopping at the first failure. *)
Fixpoint append_all (sess : Session) (prefix : string) (i : Z) (evs : list Event) (s : S) : S * option goerror :=
  match evs with
  | [] => (s, None)
  | ev :: evs =>
      match svc_AppendEvent sess ev s with
      | (s, Some e) => (s, Some (ErrText (prefix +:+ " " +:+ pretty i +:+ ": " +:+ error_text e)))
      | (s, None) => append_all sess prefix (i + 1) evs s
      end
  end.

Definition kept_events (sess : Session) (keepFrom : nat) : list Event :=
  omap id (drop keepFrom (ss_Events sess)).

Definition replaceSession (sess : Session) (summaryText : string) (keepFrom : nat) (s : S) : S * option goerror :=
  let state := ss_State sess in
  let keptEvents := kept_events sess keepFrom in
  match svc_Delete (ss_UserID sess) (ss_ID sess) s with
  | (s, Some e) => (s, Some (ErrText ("delete session: " +:+ error_text e)))
  | (s, None) =>
      match svc_Create (ss_UserID sess) (ss_ID sess) state s with
      | (s, Err e) => (s, Some (ErrText ("recreate session (data collected, not lost): " +:+ error_text e)))
      | (s, Ok newSess) =>
          match svc_AppendEvent newSess (summary_event summaryText) s with
          | (s, Some e) => (s, Some (ErrText ("append summary event: " +:+ error_text e)))
          | (s, None) => append_all newSess "append kept event" 0 keptEvents s
          end
      end
  end.

Definition replaceSessionWithMessages (sess : Session) (messages : list Content) (s : S) : S * option goerror :=
  let state := ss_State sess in
  match svc_Delete (ss_UserID sess) (ss_ID sess) s with
  | (s, Some e) => (s, Some (ErrText ("delete session: " +:+ error_text e)))
  | (s, None) =>
      match svc_Create (ss_UserID sess) (ss_ID sess) state s with
      | (s, Err e) => (s, Some (ErrText ("recreate session: " +:+ error_text e)))
      | (s, Ok newSess) => append_all newSess "append message" 0 (pruned_event <$> messages) s
      end
  end.

(** The text of the responses; the stream ends at its first error. *)
Fixpoint collect_summary (l : list (result goerror (option Content))) (acc : string) : result goerror string :=
  match l with
  | [] => Ok acc
  | Err e :: _ => Err e
  | Ok None :: l => collect_summary l acc
  | Ok (Some c) :: l => collect_summary l (acc +:+ String.concat "" (part_Text <$> ct_Parts c))
  end.

Definition callSummaryLLM (text : string) : result goerror string := collect_summary (summaryLLM text) "".

(** [None] is a panic: of [estimateTokens], or of [Prune], which does not panic with the
    default strategy.  Nothing was changed before it. *)
Definition Compress (sess : Session) (s : S) : option (S * option goerror) :=
  if n_events sess <=? minEventsToCompress then Some (s, None)
  else
    let messages := eventsToMessages (ss_Events sess) in
    tokens ← estimateTokens sess;
    let targetTokens := Z.quot (tokens * 70) 100 in
    pruned ← Prune range DefaultStrategy messages targetTokens;
    if (length pruned <? length messages)%nat then Some (replaceSessionWithMessages sess pruned s)
    else
      let keepFrom := Z.quot (n_events sess * (100 - keepRecentPercent)) 100 in
      let oldText := extractText (ss_Events sess) 0 (Z.to_nat keepFrom) in
      Some match callSummaryLLM oldText with
           | Err e => (s, Some (ErrText ("compression summary failed: " +:+ error_text e)))
           | Ok summary => replaceSession sess summary (Z.to_nat keepFrom) s
           end.

Definition force_note (keepFrom : Z) : string :=
  "[System: Emergency compression dropped " +:+ pretty keepFrom +:+ " oldest events]".

Definition ForceCompress (sess : Session) (s : S) : S * option goerror :=
  if n_events sess <=? minEventsToCompress then (s, None)
  else
    let keepFrom := Z.quot (n_events sess) 2 in
    replaceSession sess (force_note keepFrom) (Z.to_nat keepFrom) s.

(** [AgentLoop.maybeCompress]. *)
Definition maybeCompress (contextWindow : Z) (sess : Session) (s : S) : option S :=
  should ← ShouldCompress sess contextWindow;
  if negb should then Some s
  else
    r ← Compress sess s;
    match r with
    | (s, None) => Some s
    | (s, Some _) => Some (ForceCompress sess s).1
    end.
End compression.

(** ** A service in memory, with failures *)

(** Sessions by user and ID; each call that writes fails when the next entry of
    [ms_faults] is [true], without an effect. *)
Record mem_state := { ms_sessions : gmap (string * string) Session; ms_faults : list bool }.

Definition next_fault (s : mem_state) : bool * mem_state :=
  match ms_faults s with
  | [] => (false, s)
  | f :: fs => (f, {| ms_sessions := ms_sessions s; ms_faults := fs |})
  end.

Definition put_session (u i : string) (sess : Session) (s : mem_state) : mem_state :=
  {| ms_sessions := <[(u, i) := sess]> (ms_sessions s); ms_faults := ms_faults s |}.

Definition fault : goerror := ErrText "storage unavailable".

#[global] Instance mem_service : SessionService mem_state := {
  svc_Get u i s :=
    match ms_sessions s !! (u, i) with
    | Some sess => Ok {| ss_UserID := u; ss_ID := i; ss_State := ss_State sess; ss_Events := Some <$> omap id (ss_Events sess) |}
    | None => Err (ErrText "not found")
    end;
  svc_Create u i st s :=
    let '(f, s) := next_fault s in
    if f || bool_decide (is_Some (ms_sessions s !! (u, i))) then (s, Err fault)
    else let sess := {| ss_UserID := u; ss_ID := i; ss_State := st; ss_Events := [] |} in
         (put_session u i sess s, Ok sess);
  svc_Delete u i s :=
    let '(f, s) := next_fault s in
    if f : bool then (s, Some fault)
    else ({| ms_sessions := delete (u, i) (ms_sessions s); ms_faults := ms_faults s |}, None);
  svc_AppendEvent sess ev s :=
    let '(f, s) := next_fault s in
    match ms_sessions s !! (ss_UserID sess, ss_ID sess) with
    | Some cur =>
        if f : bool then (s, Some fault)
        else (put_session (ss_UserID sess) (ss_ID sess)
                {| ss_UserID := ss_UserID cur; ss_ID := ss_ID cur; ss_State := ss_State cur;
                   ss_Events := ss_Events cur ++ [Some ev] |} s, None)
    | None => (s, Some (ErrText "not found"))
    end;
}.

Lemma next_fault_sessions s : ms_sessions (next_fault s).2 = ms_sessions s.
Proof. unfold next_fault. by destruct (ms_faults s). Qed.

#[global] Instance mem_laws : SessionLaws mem_state.
Proof.
  split; simpl.
  - intros u i st s s' sess. destruct (next_fault s) as [f s0]. destruct (f || _); [done|].
    intros [= <- <-]. simpl. by rewrite lookup_insert_eq.
  - intros u i s sess. by destruct (ms_sessions s !! (u, i)); intros [= <-].
  - intros u i s sess. destruct (ms_sessions s !! (u, i)) as [cur|]; intros [= <-]. cbn. apply Forall_fmap, Forall_true. by eexists.
  - intros sess ev s s' cur. pose proof (next_fault_sessions s) as Hs. destruct (next_fault s) as [f s0].
    simpl in Hs. rewrite Hs. destruct (ms_sessions s !! _) as [cur0|]; [|done].
    destruct f; [done|]. intros [= <-] [= <-]. simpl. rewrite lookup_insert_eq. eexists. split; [done|].
    cbn. by rewrite omap_app, fmap_app.
  - intros u i s s'. destruct (next_fault s) as [f s0]. destruct f; [done|]. intros [= <-]. simpl.
    by rewrite lookup_delete_eq.
  - intros u i st s s' e. pose proof (next_fault_sessions s) as Hs. destruct (next_fault s) as [f s0].
    simpl in Hs. destruct (f || _); [|done]. intros [= <- _]. by rewrite Hs.
  - intros u i st s u' i' Hne. pose proof (next_fault_sessions s) as Hs. destruct (next_fault s) as [f s0].
    simpl in Hs. destruct (f || _); simpl; [by rewrite Hs|]. by rewrite lookup_insert_ne, Hs.
  - intros sess ev s u' i' Hne. pose proof (next_fault_sessions s) as Hs. destruct (next_fault s) as [f s0].
    simpl in Hs. rewrite Hs. destruct (ms_sessions s !! _) as [cur0|]; [|simpl; by rewrite Hs].
    destruct f; simpl; [by rewrite Hs|]. by rewrite lookup_insert_ne, Hs.
  - intros u i s u' i' Hne. pose proof (next_fault_sessions s) as Hs. destruct (next_fault s) as [f s0].
    simpl in Hs. destruct f; simpl; [by rewrite Hs|]. by rewrite lookup_delete_ne, Hs.
Qed.

(** ** Lemmas *)

Section laws.
Context {S : Type} `{SessionLaws S}.

Lemma append_all_ok sess prefix i evs s s' cur :
  append_all sess prefix i evs s = (s', None) → svc_Get (ss_UserID sess) (ss_ID sess) s = Ok cur →
  ∃ cur', svc_Get (ss_UserID sess) (ss_ID sess) s' = Ok cur' ∧ ss_Events cur' = ss_Events cur ++ (Some <$> evs).
Proof.
  revert i s cur. induction evs as [|ev evs IH]; intros i s cur Ha Hc; simpl in Ha.
  { simplify_eq. exists cur. by rewrite app_nil_r. }
  destruct (svc_AppendEvent sess ev s) as [s1 [e|]] eqn:He; [done|].
  destruct (get_append _ _ _ _ _ He Hc) as (cur1 & Hc1 & Hev).
  destruct (IH _ _ _ Ha Hc1) as (cur2 & ? & Hev2). exists cur2. split; [done|].
  by rewrite Hev2, Hev, <- app_assoc.
Qed.

Lemma append_all_other sess prefix i evs s u' i' :
  (u', i') ≠ (ss_UserID sess, ss_ID sess) →
  svc_Get u' i' (append_all sess prefix i evs s).1 = svc_Get u' i' s.
Proof.
  intros Hne. revert i s. induction evs as [|ev evs IH]; intros i s; simpl; [done|].
  pose proof (append_other sess ev s u' i' Hne) as Ha.
  destruct (svc_AppendEvent sess ev s) as [s1 [e|]]; simpl in *; [done|]. by rewrite IH.
Qed.

(** The shape shared by the two replacements: delete, create, append. *)
Lemma replace_ok sess s s' evs prefix newSess s1 s2 :
  svc_Delete (ss_UserID sess) (ss_ID sess) s = (s1, None) →
  svc_Create (ss_UserID sess) (ss_ID sess) (ss_State sess) s1 = (s2, Ok newSess) →
  append_all newSess prefix 0 evs s2 = (s', None) →
  ∃ cur, svc_Get (ss_UserID sess) (ss_ID sess) s' = Ok cur ∧ ss_Events cur = Some <$> evs.
Proof.
  intros _ Hc Ha. destruct (get_create _ _ _ _ _ _ Hc) as (Hg & Hu & Hi & _ & He).
  destruct (append_all_ok newSess prefix 0 evs s2 s' newSess Ha) as (cur & Hcur & Hev); [by rewrite Hu, Hi|].
  rewrite Hu, Hi in Hcur. exists cur. split; [done|]. by rewrite Hev, He.
Qed.

Lemma replaceSession_ok sess text k s s' :
  replaceSession sess text k s = (s', None) →
  ∃ cur, svc_Get (ss_UserID sess) (ss_ID sess) s' = Ok cur ∧
    ss_Events cur = Some (summary_event text) :: (Some <$> kept_events sess k).
Proof.
  unfold replaceSession. destruct (svc_Delete _ _ s) as [s1 [e|]] eqn:Hd; [done|].
  destruct (svc_Create _ _ _ s1) as [s2 [newSess|e]] eqn:Hc; [|done].
  destruct (get_create _ _ _ _ _ _ Hc) as (Hg & Hu & Hi & _ & He).
  destruct (svc_AppendEvent newSess _ s2) as [s3 [e|]] eqn:Hs; [done|]. intros Ha.
  rewrite <- Hu, <- Hi in Hg. destruct (get_append _ _ _ _ _ Hs Hg) as (cur & Hcur & Hev).
  destruct (append_all_ok _ _ _ _ _ _ _ Ha Hcur) as (cur' & Hcur' & Hev').
  rewrite Hu, Hi in Hcur'. exists cur'. split; [done|]. by rewrite Hev', Hev, He.
Qed.

Lemma replaceMessages_ok sess msgs s s' :
  replaceSessionWithMessages sess msgs s = (s', None) →
  ∃ cur, svc_Get (ss_UserID sess) (ss_ID sess) s' = Ok cur ∧ ss_Events cur = Some <$> (pruned_event <$> msgs).
Proof.
  unfold replaceSessionWithMessages. destruct (svc_Delete _ _ s) as [s1 [e|]] eqn:Hd; [done|].
  destruct (svc_Create _ _ _ s1) as [s2 [newSess|e]] eqn:Hc; [|done]. intros Ha. by eapply replace_ok.
Qed.

(** No other session is touched, whether the replacement succeeds or fails. *)
Lemma delete_create_other sess s1 s2 r st u' i' :
  (u', i') ≠ (ss_UserID sess, ss_ID sess) →
  svc_Create (ss_UserID sess) (ss_ID sess) st s1 = (s2, r) →
  svc_Get u' i' s2 = svc_Get u' i' s1.
Proof. intros Hne Hc. pose proof (create_other _ _ st s1 u' i' Hne) as Ho. by rewrite Hc in Ho. Qed.

Lemma replace_other sess s u' i' :
  (u', i') ≠ (ss_UserID sess, ss_ID sess) →
  (∀ text k, svc_Get u' i' (replaceSession sess text k s).1 = svc_Get u' i' s) ∧
  (∀ msgs, svc_Get u' i' (replaceSessionWithMessages sess msgs s).1 = svc_Get u' i' s).
Proof.
  intros Hne. unfold replaceSession, replaceSessionWithMessages.
  pose proof (delete_other _ _ s u' i' Hne) as Hd.
  destruct (svc_Delete _ _ s) as [s1 [e|]]; simpl in *; [done|].
  destruct (svc_Create _ _ _ s1) as [s2 [newSess|e]] eqn:Hc;
    pose proof (delete_create_other _ _ _ _ _ _ _ Hne Hc) as Hco; simpl; [|split; intros; congruence].
  destruct (get_create _ _ _ _ _ _ Hc) as (_ & Hu & Hi & _).
  rewrite <- Hu, <- Hi in Hne. split.
  - intros text k. pose proof (append_other newSess (summary_event text) s2 u' i' Hne) as Ha.
    destruct (svc_AppendEvent _ _ s2) as [s3 [e|]]; simpl in *; [congruence|].
    rewrite append_all_other by done. congruence.
  - intros msgs. rewrite append_all_other by done. congruence.
Qed.
End laws.

(** The tokens of a session without nil events. *)
Definition text_tokens (l : list Content) : Z := sum_of content_tokens l.
Definition session_tokens (sess : Session) : Z := text_tokens (eventsToMessages (ss_Events sess)).

Lemma event_tokens_all evs n : Forall is_Some evs → event_tokens evs n = Some (n + text_tokens (eventsToMessages evs)).
Proof.
  intros Hs. revert n. induction Hs as [|ev evs [e ->] Hs IH]; intros n; cbn [event_tokens]; [cbn; f_equal; lia|].
  rewrite IH. assert (text_tokens (eventsToMessages (Some e :: evs))
    = match ev_Content e with Some c => content_tokens c | None => 0 end + text_tokens (eventsToMessages evs)) as ->; [|f_equal; lia].
  assert (eventsToMessages (Some e :: evs) = match ev_Content e with Some c => [c] | None => [] end ++ eventsToMessages evs) as ->
    by (unfold eventsToMessages; cbn; by destruct (ev_Content e)).
  unfold text_tokens. destruct (ev_Content e) as [c|]; [by rewrite <- sum_of_cons|done].
Qed.
Lemma estimateTokens_all sess : Forall is_Some (ss_Events sess) → estimateTokens sess = Some (session_tokens sess).
Proof. intros Hs. unfold estimateTokens. rewrite event_tokens_all by done. done. Qed.

Lemma event_tokens_nil evs n : None ∈ evs → event_tokens evs n = None.
Proof.
  revert n. induction evs as [|[ev|] evs IH]; intros n Hin; [by apply not_elem_of_nil in Hin| |done]. cbn. apply IH.
  by apply elem_of_cons in Hin as [|].
Qed.

(** A nil event of a session of more than four makes [Compress] panic. *)
Lemma nil_event_panics {S} `{SessionService S} range llm sess (s : S) :
  None ∈ ss_Events sess → 4 < n_events sess → Compress range llm sess s = None.
Proof.
  intros Hin Hn. unfold Compress, minEventsToCompress. rewrite (proj2 (Z.leb_gt _ _)) by lia.
  unfold estimateTokens. by rewrite event_tokens_nil.
Qed.

Lemma Compress_returns {S} `{SessionLaws S} range llm sess (s : S) :
  Forall is_Some (ss_Events sess) →
  ∃ s' err, Compress range llm sess s = Some (s', err) ∧
    ∀ u i, (u, i) ≠ (ss_UserID sess, ss_ID sess) → svc_Get u i s' = svc_Get u i s.
Proof.
  intros Hall. unfold Compress. case_match; [by exists s, None|]. rewrite estimateTokens_all by done. cbn [mbind option_bind].
  destruct (Prune_returns range DefaultStrategy (eventsToMessages (ss_Events sess))
    (Z.quot (session_tokens sess * 70) 100)) as [pruned ->]; [done..|]. simpl. case_match.
  - destruct (replaceSessionWithMessages sess pruned s) as [s' err] eqn:Hr. exists s', err. split; [done|].
    intros u i Hne. pose proof (proj2 (replace_other sess s u i Hne) pruned) as Ho. by rewrite Hr in Ho.
  - destruct (callSummaryLLM _ _) as [summary|e]; [|by eexists _, _].
    destruct (replaceSession _ summary _ s) as [s' err] eqn:Hr. exists s', err. split; [done|].
    intros u i Hne. pose proof (proj1 (replace_other sess s u i Hne) summary) as Ho.
    specialize (Ho (Z.to_nat (Z.quot (n_events sess * (100 - keepRecentPercent)) 100))). by rewrite Hr in Ho.
Qed.

Lemma ForceCompress_other {S} `{SessionLaws S} sess (s : S) u i :
  (u, i) ≠ (ss_UserID sess, ss_ID sess) → svc_Get u i (ForceCompress sess s).1 = svc_Get u i s.
Proof. intros Hne. unfold ForceCompress. case_match; [done|]. by apply replace_other. Qed.

(** ** The token target of [Compress] *)

(** A part holds a text or a function response, as the parts of the API do. *)
Definition one_kind (c : Content) : Prop :=
  Forall (λ p, part_FunctionResponse p = None ∨ part_Text p = ""%string) (ct_Parts c).

Lemma sum_of_mono {A} (f g : A → Z) l : (∀ x, f x ≤ g x) → sum_of f l ≤ sum_of g l.
Proof. intros Hfg. induction l as [|x l IH]; [done|]. rewrite !sum_of_cons. specialize (Hfg x). lia. Qed.

Lemma sum_of_scale {A} (f : A → Z) n l : n * sum_of f l = sum_of (λ x, n * f x) l.
Proof. induction l as [|x l IH]; [unfold sum_of; simpl; lia|]. rewrite (sum_of_cons f), (sum_of_cons (λ x, n * f x)), <- IH. lia. Qed.

Lemma text_tokens_le_estimate range l : text_tokens l ≤ Pruning.estimateTokens range l.
Proof.
  unfold Pruning.estimateTokens. apply Z.div_le_lower_bound; [done|].
  unfold text_tokens. rewrite sum_of_scale. apply sum_of_mono. intros c.
  unfold content_tokens. rewrite sum_of_scale. apply sum_of_mono. intros p. unfold part_chars, charsPerToken.
  assert ((if str_empty (part_Text p) then 0 else zlen (part_Text p)) = zlen (part_Text p)) as ->.
  { unfold str_empty. case_bool_decide as He; [by rewrite He|done]. }
  pose proof (Z.mul_div_le (zlen (part_Text p)) 4).
  assert (0 ≤ match part_FunctionResponse p with Some fr => zlen (extractTextContent range (fr_Response fr)) | None => 0 end)
    by (destruct (part_FunctionResponse p); unfold zlen; lia).
  lia.
Qed.

Lemma same_shape_text c c' :
  one_kind c → same_shape c c' →
  sum_of (λ p, zlen (part_Text p) `div` charsPerToken) (ct_Parts c') =
  sum_of (λ p, zlen (part_Text p) `div` charsPerToken) (ct_Parts c).
Proof.
  unfold one_kind. intros Hk (_ & _ & HF). revert Hk. induction HF as [|p p' l l' Hp HF IH]; intros Hk; [done|].
  apply Forall_cons in Hk as [Hk1 Hk]. rewrite !sum_of_cons, IH by done. f_equal.
  destruct Hp as [->|(fr & fr' & Hfr & _ & _ & Ht)]; [done|].
  destruct Hk1 as [Hk1|Hk1]; [congruence|]. by rewrite Ht, Hk1.
Qed.

Lemma same_shape_text_tokens l l' :
  Forall one_kind l → Forall2 same_shape l l' → text_tokens l' = text_tokens l.
Proof.
  intros Hk HF. revert Hk. induction HF as [|c c' l l' Hc HF IH]; intros Hk; [done|].
  apply Forall_cons in Hk as [Hk1 Hk]. unfold text_tokens in *. rewrite !sum_of_cons, IH by done.
  f_equal. by apply same_shape_text.
Qed.

(** ** Properties *)

Section theorems.
Context {S : Type} `{SessionLaws S}.
Context (range : gmap string any → list (string * any)).
Context (summaryLLM : string → list (result goerror (option Content))).

(** Compression of a session without nil events never panics and never touches another one.  When it succeeds on
    a session of more than four events, the stored session holds either the messages
    that pruning kept, fewer than before, each in an event without author, or the
    summary followed by the newest quarter of the events; four events or fewer are left
    alone. *)
Theorem Compress_spec sess s :
  let messages := eventsToMessages (ss_Events sess) in
  let keepFrom := Z.quot (n_events sess * 75) 100 in
  Forall is_Some (ss_Events sess) →
  ∃ s' err, Compress range summaryLLM sess s = Some (s', err) ∧
    (∀ u i, (u, i) ≠ (ss_UserID sess, ss_ID sess) → svc_Get u i s' = svc_Get u i s) ∧
    (err = None →
     (n_events sess ≤ 4 ∧ s' = s) ∨
     ∃ cur, svc_Get (ss_UserID sess) (ss_ID sess) s' = Ok cur ∧ 4 < n_events sess ∧
       ((∃ pruned, Prune range DefaultStrategy messages (Z.quot (session_tokens sess * 70) 100) = Some pruned ∧
           (length pruned < length messages)%nat ∧ ss_Events cur = Some <$> (pruned_event <$> pruned)) ∨
        (∃ summary, callSummaryLLM summaryLLM (extractText (ss_Events sess) 0 (Z.to_nat keepFrom)) = Ok summary ∧
           ss_Events cur = Some (summary_event summary) :: (Some <$> kept_events sess (Z.to_nat keepFrom))))).
Proof.
  intros messages keepFrom Hall. unfold Compress, minEventsToCompress.
  destruct (Z.leb_spec (n_events sess) 4) as [Hn|Hn]; [exists s, None; eauto|].
  rewrite estimateTokens_all by done. cbn [mbind option_bind].
  destruct (Prune_returns range DefaultStrategy messages (Z.quot (session_tokens sess * 70) 100)) as [pruned Hp];
    [done..|]. fold messages. rewrite Hp; simpl.
  destruct (Nat.ltb_spec (length pruned) (length messages)) as [Hlt|_].
  - destruct (replaceSessionWithMessages sess pruned s) as [s' err] eqn:Hr. exists s', err. split_and!; [done| |].
    + intros u i Hne. pose proof (proj2 (replace_other sess s u i Hne) pruned) as Ho. by rewrite Hr in Ho.
    + intros ->. right. apply replaceMessages_ok in Hr as (cur & ? & ?). exists cur. eauto 8.
  - change (100 - keepRecentPercent) with 75. fold keepFrom.
    destruct (callSummaryLLM summaryLLM _) as [summary|e] eqn:Hs; [|by eexists _, _].
    destruct (replaceSession sess summary (Z.to_nat keepFrom) s) as [s' err] eqn:Hr. exists s', err. split_and!; [done| |].
    + intros u i Hne. pose proof (proj1 (replace_other sess s u i Hne) summary (Z.to_nat keepFrom)) as Ho. by rewrite Hr in Ho.
    + intros ->. right. apply replaceSession_ok in Hr as (cur & ? & ?). exists cur. eauto 8.
Qed.

(** The window between delete and create: when the store fails to create the
    session again, the session is gone although the error says that the data are not
    lost; only the caller's snapshot still has them, and the forced compression that
    [maybeCompress] then tries from it restores the newest half at best. *)
Theorem replace_failure_loses_session sess s s1 s2 e text k :
  svc_Delete (ss_UserID sess) (ss_ID sess) s = (s1, None) →
  svc_Create (ss_UserID sess) (ss_ID sess) (ss_State sess) s1 = (s2, Err e) →
  replaceSession sess text k s =
    (s2, Some (ErrText ("recreate session (data collected, not lost): " +:+ error_text e))) ∧
  is_ok (svc_Get (ss_UserID sess) (ss_ID sess) s2) = false ∧
  (∀ s3, 4 < n_events sess → ForceCompress sess s2 = (s3, None) →
     ∃ cur, svc_Get (ss_UserID sess) (ss_ID sess) s3 = Ok cur ∧
       ss_Events cur = Some (summary_event (force_note (Z.quot (n_events sess) 2)))
         :: (Some <$> kept_events sess (Z.to_nat (Z.quot (n_events sess) 2)))).
Proof.
  intros Hd Hc. split_and!.
  - unfold replaceSession. by rewrite Hd, Hc.
  - rewrite (create_fails _ _ _ _ _ _ Hc). by eapply get_delete.
  - intros s3 Hn. unfold ForceCompress, minEventsToCompress.
    destruct (Z.leb_spec (n_events sess) 4); [lia|]. apply replaceSession_ok.
Qed.

(** Layers 1 and 2 of the pruning never satisfy [Compress] on a session with text:
    the target is 70% of the tokens of the texts, which these layers leave alone, so
    every such compression clears all tool results and goes on to drop messages. *)
Theorem Compress_always_drops sess :
  let messages := eventsToMessages (ss_Events sess) in
  let target := Z.quot (session_tokens sess * 70) 100 in
  Forall one_kind messages → 0 < session_tokens sess →
  ∃ trimmed, softTrimToolResults range DefaultStrategy messages = Some trimmed ∧
    Prune range DefaultStrategy messages target =
      Some (dropOldMessages range DefaultStrategy (hardClearToolResults trimmed) target).
Proof.
  intros messages target Hk Hpos. set (T := session_tokens sess) in *.
  assert (Ht : target < T). { subst target. rewrite Z.quot_div_nonneg by lia. apply Z.div_lt_upper_bound; lia. }
  destruct (mapM_total (softTrimMessage range DefaultStrategy) messages same_shape) as (l1 & Hl1 & HF1).
  { intros c _. by apply softTrimMessage_total. }
  assert (HF2 : Forall2 same_shape messages (hardClearToolResults l1)).
  { apply Forall2_fmap_r. eapply Forall2_impl; [exact HF1|]. intros c c' Hs.
    eapply same_shape_trans; [exact Hs|apply hardClearMessage_shape]. }
  pose proof (text_tokens_le_estimate range messages) as E0.
  pose proof (text_tokens_le_estimate range l1) as E1.
  pose proof (text_tokens_le_estimate range (hardClearToolResults l1)) as E2.
  rewrite (same_shape_text_tokens _ _ Hk HF1) in E1. rewrite (same_shape_text_tokens _ _ Hk HF2) in E2.
  change (text_tokens messages) with T in *.
  exists l1. split; [done|]. unfold Prune, softTrimToolResults. rewrite Hl1; cbn [mbind option_bind].
  by rewrite !(proj2 (Z.leb_gt _ _)) by lia.
Qed.
End theorems.

(** ** Witnesses *)

Definition w_event (role text : string) : Event :=
  {| ev_Invocation := "i"; ev_Author := role;
     ev_Content := Some {| ct_Role := role;
       ct_Parts := [{| part_Text := text; part_FunctionResponse := None; part_rest := 0 |}] |};
     ev_rest := 0 |}.
Definition w_session : Session :=
  {| ss_UserID := "u"; ss_ID := "k"; ss_State := ∅;
     ss_Events := Some <$> [w_event "user" "a"; w_event "model" "b"; w_event "user" "c"; w_event "model" "d";
                            w_event "user" "e"; w_event "model" "f"; w_event "user" "g"; w_event "model" "h"] |}.
Definition w_store (faults : list bool) : mem_state :=
  {| ms_sessions := {[ ("u", "k")%string := w_session ]}; ms_faults := faults |}.
Definition w_llm (text : string) : list (result goerror (option Content)) := [Ok (ev_Content (w_event "model" "sum"))].

(** Pruning keeps all eight messages, so the summary replaces the oldest six. *)
Lemma Compress_spec_witness :
  ∃ s' err, Compress map_to_list w_llm w_session (w_store []) = Some (s', err) ∧ err = None ∧
    (ss_Events <$> ms_sessions s' !! ("u", "k")%string)
      = Some [Some (summary_event "sum"); Some (w_event "user" "g"); Some (w_event "model" "h")].
Proof.
  destruct (Compress_spec map_to_list w_llm w_session (w_store []) ltac:(repeat constructor; by eexists)) as (s' & err & Hc & _).
  exists s', err. split; [exact Hc|]. vm_compute in Hc. injection Hc as <- <-. split; reflexivity.
Defined.

(** Delete succeeds, create fails: the session of eight events is gone; the forced
    compression brings four of them back. *)
Lemma replace_failure_loses_session_witness :
  is_ok (svc_Get "u" "k" (replaceSession w_session "sum" 6 (w_store [false; true])).1) = false ∧
  (ForceCompress w_session (replaceSession w_session "sum" 6 (w_store [false; true])).1).2 = None.
Proof.
  split; [|by vm_compute].
  refine (proj1 (proj2 (replace_failure_loses_session w_session (w_store [false; true])
    (svc_Delete "u" "k" (w_store [false; true])).1 _ fault "sum" 6 _ _))); [reflexivity|reflexivity].
Defined.

Definition w_tool_session : Session :=
  {| ss_UserID := "u"; ss_ID := "k"; ss_State := ∅;
     ss_Events := Some <$> [w_event "user" "0123456789"; w_event "model" "0123456789"; w_event "user" "01234567"] |}.

Lemma Compress_always_drops_witness :
  session_tokens w_tool_session = 6 ∧
  ∃ trimmed, softTrimToolResults map_to_list DefaultStrategy (eventsToMessages (ss_Events w_tool_session)) = Some trimmed.
Proof.
  split; [by vm_compute|].
  destruct (Compress_always_drops map_to_list w_tool_session) as (t & Ht & _); [|by vm_compute|by exists t].
  repeat constructor; by left.
Defined.
