(* ===== verification/AgentLoop.v ===== *)
(** [pkg/agent/loop.go]: the main loop, from an inbound message to the agent's answer.

    The runner and the session service are third-party.  A run is the stream of events
    it yields, and whether it panics after them; the loop stops reading at the first error.
    The bus is the interface [MessageBus] of [pkg/types].  A function that may panic gives
    the state it leaves with [None].  Log lines are left out, and errors are values of
    [loop_error] instead of texts. *)
From S2P Require Import Prelude GoStrings Types AgentRegistry Pruning Compression.

Definition maxContextRetries : nat := 2.

Definition sessionKeySep : ascii := Ascii.ascii_of_nat 31.

Definition SessionKey (tenantID userID channel agentID : string) : string :=
  tenantID +:+ String sessionKeySep (userID +:+ String sessionKeySep
    (channel +:+ String sessionKeySep agentID)).

Inductive loop_error :=
| ErrNoAgent (channel chatID : string)
| ErrNoRunner (agentID : string)
| ErrCreateSession (e : goerror)
| ErrPublish (e : goerror)
| ErrPanic.

(** ** Reasoning blocks

    The pattern [(?s)<think(?:ing)?>\n?.*?\n?</think(?:ing)?>] matches from an opening
    tag to the nearest closing tag after it; matches are replaced from left to right. *)
Definition open_tags : list bytes := s2l <$> ["<think>"; "<thinking>"]%string.
Definition close_tags : list bytes := s2l <$> ["</think>"; "</thinking>"]%string.

Definition strip_tag (tags : list bytes) (l : bytes) : option bytes :=
  first_some (λ t, strip_prefix t l) tags.

(** What follows the nearest closing tag. *)
Fixpoint after_close (l : bytes) : option bytes :=
  match strip_tag close_tags l with
  | Some rest => Some rest
  | None => match l with [] => None | _ :: l => after_close l end
  end.

Fixpoint remove_thinking (fuel : nat) (l : bytes) : bytes :=
  match fuel, l with
  | O, _ | _, [] => l
  | Datatypes.S fuel, c :: l' =>
      match rest ← strip_tag open_tags l; after_close rest with
      | Some rest => remove_thinking fuel rest
      | None => c :: remove_thinking fuel l'
      end
  end.

Definition stripThinking (s : string) : string :=
  trim_space (l2s (remove_thinking (str_len s) (s2l s))).

(** ** Overflow errors *)

Section loop.
Context `{U : UnicodeCase}.

Definition contextOverflowPatterns : list string :=
  ["context_length_exceeded"; "max_tokens"; "maximum context length"; "token limit";
   "context window"; "too many tokens"; "request too large"; "prompt is too long"]%string.

Definition IsContextOverflowError (err : option goerror) : bool :=
  match err with
  | None => false
  | Some e => existsb (contains (to_lower (error_text e))) contextOverflowPatterns
  end.

(** ** Runs *)

Record RunEvent := { re_Content : option Content; re_Final : bool }.

Context {S B Runner : Type} `{SessionService S} `{MessageBus B}.
(** [r.Run(ctx, user, session, content)]: the store after, the events it yields, and
    whether it panics then. *)
Context (Run : Runner → string → string → Content → S → S * list (result goerror (option RunEvent)) * bool).
Context (range : gmap string any → list (string * any)).

(** The texts of the final events up to the first error. *)
Fixpoint collect_run (evs : list (result goerror (option RunEvent))) (acc : string) : string * option goerror :=
  match evs with
  | [] => (acc, None)
  | Err e :: _ => (acc, Some e)
  | Ok None :: evs => collect_run evs acc
  | Ok (Some ev) :: evs =>
      match re_Content ev with
      | None => collect_run evs acc
      | Some c =>
          collect_run evs (if re_Final ev then acc +:+ String.concat "" (part_Text <$> ct_Parts c) else acc)
      end
  end.

(** How a run ended. *)
Inductive run_end := RunDone | RunFailed (e : goerror) | RunPanicked.

Definition runAgentOnce (r : Runner) (userID sessionID : string) (content : Content) (s : S)
    : S * (string * run_end) :=
  let '(s, evs, panics) := Run r userID sessionID content s in
  match collect_run evs "" with
  | (text, Some e) => (s, (stripThinking text, RunFailed e))
  | (text, None) => if panics : bool then (s, (""%string, RunPanicked)) else (s, (stripThinking text, RunDone))
  end.

Record AgentLoop := {
  al_registry : AgentRegistry Runner;
  (* the summary model of the compressor, when there is a compressor *)
  al_compressor : option (string → list (result goerror (option Content)));
  al_contextWindow : Z;
}.

(** The loop of [runAgentWithRetry]; [remaining] is how many retries remain.  The last
    component lists the ends of the runs made, for the statements below. *)
Fixpoint retry_loop (al : AgentLoop) (r : Runner) (msg : InboundMessage) (key : string)
    (content : Content) (remaining : nat) (s : S) : S * option string * list run_end :=
  let '(s, (response, ended)) := runAgentOnce r (in_UserID msg) key content s in
  match ended with
  | RunDone => (s, Some response, [ended])
  | RunPanicked => (s, None, [ended])
  | RunFailed e =>
      let stop_here s := (s, Some ""%string, [ended]) in
      if negb (IsContextOverflowError (Some e)) then stop_here s
      else
        match remaining with
        | O => stop_here s
        | Datatypes.S remaining =>
            let again s := let '(s, resp, ends) := retry_loop al r msg key content remaining s in (s, resp, ended :: ends) in
            match al_compressor al with
            | None => stop_here s
            | Some llm =>
                match svc_Get (in_UserID msg) key s with
                | Err _ => stop_here s
                | Ok sess =>
                    match Compress range llm sess s with
                    | None => (s, None, [ended])
                    | Some (s, None) => again s
                    | Some (s, Some _) =>
                        match ForceCompress sess s with
                        | (s, Some _) => stop_here s
                        | (s, None) => again s
                        end
                    end
                end
            end
        end
  end.

Definition runAgentWithRetry (al : AgentLoop) (r : Runner) (msg : InboundMessage) (key : string)
    (content : Content) (s : S) := retry_loop al r msg key content maxContextRetries s.

(** ** One message *)

Definition session_state (msg : InboundMessage) : gmap string any :=
  <["tenant_id" := AStr (in_TenantID msg)]> (<["user_id" := AStr (in_UserID msg)]>
    (<["channel" := AStr (in_Channel msg)]> {[ "chat_id"%string := AStr (in_ChatID msg) ]})).

Definition ensureSession (msg : InboundMessage) (key : string) (s : S) : S * result loop_error Session :=
  match svc_Get (in_UserID msg) key s with
  | Ok sess => (s, Ok sess)
  | Err _ =>
      match svc_Create (in_UserID msg) key (session_state msg) s with
      | (s, Ok sess) => (s, Ok sess)
      | (s, Err e) => (s, Err (ErrCreateSession e))
      end
  end.

(** [order] and [order2] are the orders in which the registry ranges over its agents. *)
Definition message_agent (al : AgentLoop) (order order2 : list string) (msg : InboundMessage) : string :=
  if str_empty (in_AgentID msg) then ResolveRoute (al_registry al) order order2 msg else in_AgentID msg.

Definition message_key (msg : InboundMessage) (agentID : string) : string :=
  if str_empty (in_SessionKey msg)
  then SessionKey (in_TenantID msg) (in_UserID msg) (in_Channel msg) agentID else in_SessionKey msg.

Definition user_content (msg : InboundMessage) : Content :=
  {| ct_Role := "user"; ct_Parts := [{| part_Text := in_Content msg; part_FunctionResponse := None; part_rest := 0 |}] |}.

Definition prepareAndRun (al : AgentLoop) (order order2 : list string) (msg : InboundMessage) (s : S)
    : S * option (result loop_error string) :=
  let agentID := message_agent al order order2 msg in
  if str_empty agentID then (s, Some (Err (ErrNoAgent (in_Channel msg) (in_ChatID msg))))
  else
    match GetRunner (al_registry al) agentID with
    | None => (s, Some (Err (ErrNoRunner agentID)))
    | Some r =>
        let key := message_key msg agentID in
        match ensureSession msg key s with
        | (s, Err e) => (s, Some (Err e))
        | (s, Ok _) =>
            match runAgentWithRetry al r msg key (user_content msg) s with
            | (s, None, _) => (s, None)
            | (s, Some response, _) =>
                match al_compressor al with
                | None => (s, Some (Ok response))
                | Some llm =>
                    match svc_Get (in_UserID msg) key s with
                    | Err _ => (s, Some (Ok response))
                    | Ok fresh =>
                        match maybeCompress range llm (al_contextWindow al) fresh s with
                        | None => (s, None)
                        | Some s => (s, Some (Ok response))
                        end
                    end
                end
            end
        end
    end.

Definition ProcessDirect := prepareAndRun.

Definition reply (msg : InboundMessage) (response : string) : OutboundMessage :=
  {| out_Channel := in_Channel msg; out_ChatID := in_ChatID msg; out_Content := response;
     out_Media := []; out_Metadata := ∅ |}.

Definition processMessage (al : AgentLoop) (order order2 : list string) (msg : InboundMessage) (s : S) (b : B)
    : S * B * option (option loop_error) :=
  match prepareAndRun al order order2 msg s with
  | (s, None) => (s, b, None)
  | (s, Some (Err e)) => (s, b, Some (Some e))
  | (s, Some (Ok response)) =>
      if str_empty response then (s, b, Some None)
      else match bus_PublishOutbound (reply msg response) b with
           | (b, Some e) => (s, b, Some (Some (ErrPublish e)))
           | (b, None) => (s, b, Some None)
           end
  end.

(** The deferred [recover] turns a panic into an error. *)
Definition safeProcessMessage (al : AgentLoop) (order order2 : list string) (msg : InboundMessage) (s : S) (b : B)
    : S * B * option loop_error :=
  let '(s, b, r) := processMessage al order order2 msg s b in
  (s, b, match r with Some err => err | None => Some ErrPanic end).

(** ** Lemmas *)

Context `{!SessionLaws S}.

(** Sessions other than [(u, i)] are as before. *)
Definition others_kept (u i : string) (s s' : S) : Prop :=
  ∀ u' i', (u', i') ≠ (u, i) → svc_Get u' i' s' = svc_Get u' i' s.

Lemma others_kept_trans u i s1 s2 s3 : others_kept u i s1 s2 → others_kept u i s2 s3 → others_kept u i s1 s3.
Proof. intros H1 H2 u' i' Hne. by rewrite H2, H1. Qed.

(** What the code relies on in the runner: it works on its own session only. *)
Definition run_own : Prop := ∀ r u i c s, others_kept u i s (Run r u i c s).1.1.
(** A runner that never panics. *)
Definition run_calm : Prop := ∀ r u i c s, (Run r u i c s).2 = false.

Lemma compress_step llm sess s u i :
  svc_Get u i s = Ok sess → ∃ s' err, Compress range llm sess s = Some (s', err) ∧ others_kept u i s s'.
Proof.
  intros Hg. destruct (get_own _ _ _ _ Hg) as [<- <-].
  destruct (Compress_returns range llm sess s (get_events _ _ _ _ Hg)) as (s' & err & Hc & Ho). exists s', err. done.
Qed.

Lemma force_step sess s u i :
  ss_UserID sess = u → ss_ID sess = i → others_kept u i s (ForceCompress sess s).1.
Proof. intros <- <- u' i' Hne. by apply ForceCompress_other. Qed.

Lemma maybe_other llm w sess s u i :
  svc_Get u i s = Ok sess → ∃ s', maybeCompress range llm w sess s = Some s' ∧ others_kept u i s s'.
Proof.
  intros Hg. destruct (get_own _ _ _ _ Hg) as [Hu Hi]. unfold maybeCompress.
  assert (∃ should, ShouldCompress sess w = Some should) as [should ->].
  { unfold ShouldCompress. destruct (_ <? _); [by eexists|]. rewrite (estimateTokens_all _ (get_events _ _ _ _ Hg)). by eexists. }
  cbn [mbind option_bind]. destruct should; cbn [negb]; [|by exists s].
  destruct (compress_step llm sess s _ _ Hg) as (s1 & err & -> & Ho). cbn [mbind option_bind].
  destruct err; [|by exists s1]. eexists. split; [done|].
  eapply others_kept_trans; [exact Ho|by apply force_step].
Qed.

Lemma run_step r u i c s s' res : run_own → runAgentOnce r u i c s = (s', res) → others_kept u i s s'.
Proof.
  unfold runAgentOnce. intros Hrun. pose proof (Hrun r u i c s) as Ho.
  destruct (Run r u i c s) as [[s1 evs] panics]. simpl in Ho.
  destruct (collect_run evs "") as [text [e|]]; [by intros [= <- _]|]. by destruct panics; intros [= <- _].
Qed.

Definition overflowed (e : run_end) : bool := match e with RunFailed e => IsContextOverflowError (Some e) | _ => false end.

(** The runs of the loop: all but the last overflowed, the loop panics exactly if the last
    run did, and else the answer is empty unless the last run succeeded. *)
Definition retry_trace (n : nat) (resp : option string) (ends : list run_end) : Prop :=
  ∃ front e, ends = front ++ [e] ∧ (length ends ≤ Datatypes.S n)%nat ∧ Forall (λ e, overflowed e = true) front ∧
    match e with RunPanicked => resp = None | RunFailed _ => resp = Some ""%string | RunDone => is_Some resp end.

Lemma retry_trace_cons n resp e ends :
  overflowed e = true → retry_trace n resp ends → retry_trace (Datatypes.S n) resp (e :: ends).
Proof.
  intros He (front & e' & -> & Hl & Hf & Hr). exists (e :: front), e'. split_and!; [done|simpl in *; lia|by constructor|done].
Qed.

Lemma retry_loop_spec al r msg key content n s :
  run_own →
  ∃ s' resp ends, retry_loop al r msg key content n s = (s', resp, ends) ∧
    retry_trace n resp ends ∧ others_kept (in_UserID msg) key s s'.
Proof.
  intros Hrun. revert s. induction n as [|n IH]; intros s; cbn [retry_loop];
    destruct (runAgentOnce r (in_UserID msg) key content s) as [s1 [resp ended]] eqn:Hr;
    pose proof (run_step _ _ _ _ _ _ _ Hrun Hr) as Ho;
    assert (∀ n s2 resp e, match e with RunPanicked => resp = None | RunFailed _ => resp = Some ""%string | RunDone => is_Some resp end →
      others_kept (in_UserID msg) key s s2 →
      ∃ s' resp' ends, (s2, resp, [e]) = (s', resp', ends) ∧ retry_trace n resp' ends ∧ others_kept (in_UserID msg) key s s') as Hone
      by (intros k s2 resp' e' He Hk; eexists _, _, _; split; [done|]; split; [exists [], e'; split_and!; [done|simpl; lia|done..]|done]);
    destruct ended as [|e|]; try (by apply Hone; [try by eexists|]).
  - destruct (IsContextOverflowError (Some e)); by apply Hone.
  - destruct (IsContextOverflowError (Some e)) eqn:Hov; cbn [negb]; [|by apply Hone].
    destruct (al_compressor al) as [llm|]; [|by apply Hone].
    destruct (svc_Get (in_UserID msg) key s1) as [sess|e'] eqn:Hg; [|by apply Hone].
    destruct (get_own _ _ _ _ Hg) as [Hu Hi].
    destruct (compress_step llm sess s1 _ _ Hg) as (s2 & cerr & Hc & Ho2). rewrite Hc.
    pose proof (others_kept_trans _ _ _ _ _ Ho Ho2) as Ho12.
    assert (∀ s3, others_kept (in_UserID msg) key s s3 →
      ∃ s' resp0 ends, (let '(s, resp, ends) := retry_loop al r msg key content n s3 in (s, resp, RunFailed e :: ends))
        = (s', resp0, ends) ∧ retry_trace (Datatypes.S n) resp0 ends ∧ others_kept (in_UserID msg) key s s') as Hcont.
    { intros s3 Ho3. destruct (IH s3) as (s4 & resp4 & ends4 & -> & Ht & Ho4).
      eexists _, _, _. split_and!; [done|by apply retry_trace_cons|by eapply others_kept_trans]. }
    destruct cerr as [ce|]; [|by apply Hcont].
    pose proof (force_step sess s2 _ _ Hu Hi) as Ho3.
    destruct (ForceCompress sess s2) as [s3 [fe|]]; cbn [fst] in Ho3;
      pose proof (others_kept_trans _ _ _ _ _ Ho12 Ho3) as Ho13; [by apply Hone|by apply Hcont].
Qed.

Lemma ensure_other msg key s : others_kept (in_UserID msg) key s (ensureSession msg key s).1.
Proof.
  intros u' i' Hne. unfold ensureSession. destruct (svc_Get (in_UserID msg) key s); [done|].
  pose proof (create_other _ _ (session_state msg) s u' i' Hne) as Ho.
  by destruct (svc_Create _ _ _ s) as [s1 []].
Qed.

(** Only a session that is neither found nor created is an error. *)
Lemma ensure_fails msg key s s' e : ensureSession msg key s = (s', Err e) → ∃ e', e = ErrCreateSession e'.
Proof.
  unfold ensureSession. destruct (svc_Get _ key s); [done|]. destruct (svc_Create _ _ _ s) as [s0 []]; [done|].
  intros [= _ <-]. by eexists.
Qed.

(** What [prepareAndRun] answers: an error for no agent, no runner or no session, a panic if the
    runner panics in its last run, and else the response of the loop over the runs. *)
Definition prepared (al : AgentLoop) (order order2 : list string) (msg : InboundMessage) (s : S)
    (r : option (result loop_error string)) : Prop :=
  let agentID := message_agent al order order2 msg in
  if str_empty agentID then r = Some (Err (ErrNoAgent (in_Channel msg) (in_ChatID msg)))
  else match GetRunner (al_registry al) agentID with
       | None => r = Some (Err (ErrNoRunner agentID))
       | Some run =>
           match ensureSession msg (message_key msg agentID) s with
           | (_, Err e) => r = Some (Err e) ∧ ∃ e', e = ErrCreateSession e'
           | (s1, Ok _) => r = Ok <$> (runAgentWithRetry al run msg (message_key msg agentID) (user_content msg) s1).1.2
           end
       end.

Lemma prepareAndRun_spec al order order2 msg s :
  run_own →
  ∃ s' r, prepareAndRun al order order2 msg s = (s', r) ∧ prepared al order order2 msg s r ∧
    others_kept (in_UserID msg) (message_key msg (message_agent al order order2 msg)) s s'.
Proof.
  intros Hrun. unfold prepareAndRun, prepared. set (id := message_agent al order order2 msg).
  destruct (str_empty id); [by eexists _, _|].
  destruct (GetRunner (al_registry al) id) as [r|] eqn:Hr; [|by eexists _, _].
  set (key := message_key msg id). pose proof (ensure_other msg key s) as Ho.
  destruct (ensureSession msg key s) as [s1 [sess|e]] eqn:He; cbn [fst] in Ho.
  - destruct (retry_loop_spec al r msg key (user_content msg) maxContextRetries s1 Hrun)
      as (s2 & resp & ends & Hl & _ & Ho2). unfold runAgentWithRetry. rewrite Hl. cbn [fst snd].
    pose proof (others_kept_trans _ _ _ _ _ Ho Ho2) as Ho12. destruct resp as [resp|]; [|by eexists _, _].
    destruct (al_compressor al) as [llm|]; [|by eexists _, _].
    destruct (svc_Get (in_UserID msg) key s2) as [fresh|e] eqn:Hg; [|by eexists _, _].
    destruct (maybe_other llm (al_contextWindow al) fresh s2 _ _ Hg) as (s3 & -> & Ho3).
    eexists _, _. split; [done|]. split; [done|]. by eapply others_kept_trans.
  - eexists _, _. split; [done|]. split; [|done]. split; [done|by eapply ensure_fails].
Qed.

Lemma SessionKey_cut t u c a :
  sessionKeySep ∉ s2l t → cut_bytes sessionKeySep (s2l (SessionKey t u c a)) =
    Some (s2l t, s2l (u +:+ String sessionKeySep (c +:+ String sessionKeySep a))).
Proof. intros Ht. unfold SessionKey. rewrite s2l_app. by apply cut_bytes_app. Qed.

Lemma cut_sep x y : sessionKeySep ∉ s2l x →
  cut_bytes sessionKeySep (s2l (x +:+ String sessionKeySep y)) = Some (s2l x, s2l y).
Proof. intros Hx. rewrite s2l_app. by apply cut_bytes_app. Qed.

Lemma SessionKey_inj t u c a t' u' c' a' :
  Forall (λ x, sessionKeySep ∉ s2l x) [t; u; c; t'; u'; c'] →
  SessionKey t u c a = SessionKey t' u' c' a' → t = t' ∧ u = u' ∧ c = c' ∧ a = a'.
Proof.
  rewrite !Forall_cons. intros (Ht & Hu & Hc & Ht' & Hu' & Hc' & _) Heq.
  pose proof (f_equal (cut_bytes sessionKeySep ∘ s2l) Heq) as H1. simpl in H1.
  rewrite !SessionKey_cut in H1 by done. injection H1 as H1 H2. apply s2l_inj in H1, H2.
  pose proof (f_equal (cut_bytes sessionKeySep ∘ s2l) H2) as H3. simpl in H3.
  rewrite !cut_sep in H3 by done. injection H3 as H3 H4. apply s2l_inj in H3, H4.
  pose proof (f_equal (cut_bytes sessionKeySep ∘ s2l) H4) as H5. simpl in H5.
  rewrite !cut_sep in H5 by done. injection H5 as H5 H6. by apply s2l_inj in H5, H6.
Qed.

(** ** Properties *)

Lemma retry_trace_ends n resp ends : retry_trace n resp ends →
  (1 ≤ length ends ≤ Datatypes.S n)%nat ∧ Forall (λ e, overflowed e = true) (removelast ends) ∧
  (resp = None ↔ last ends = Some RunPanicked) ∧ (last ends ≠ Some RunDone → default "" resp = ""%string).
Proof.
  intros (front & e & -> & Hl & Hf & He). rewrite removelast_last, last_snoc. rewrite length_app in *. cbn [length] in *.
  split; [lia|]. split; [done|]. destruct e; [destruct He as [t ->]| |]; subst; naive_solver.
Qed.


(** C3: Sessions are isolated, with a runner that works on its own session only: processing a
    message leaves every session but its own as it is, compression, failures and panics
    included.  Its own session is the one of its user under its explicit key, if it has one;
    without one, and with names that contain no unit separator, two messages have the same
    session only if they are of the same tenant, user and channel and for the same agent. *)
Theorem processing_is_isolated al order order2 msg s b :
  run_own →
  let own m := (in_UserID m, message_key m (message_agent al order order2 m)) in
  (∀ u i, (u, i) ≠ own msg → svc_Get u i (safeProcessMessage al order order2 msg s b).1.1 = svc_Get u i s) ∧
  ∀ other, in_SessionKey msg = ""%string → in_SessionKey other = ""%string →
    Forall (λ x, sessionKeySep ∉ s2l x)
      [in_TenantID msg; in_UserID msg; in_Channel msg; in_TenantID other; in_UserID other; in_Channel other] →
    own other = own msg →
    (in_TenantID msg, in_UserID msg, in_Channel msg, message_agent al order order2 msg) =
    (in_TenantID other, in_UserID other, in_Channel other, message_agent al order order2 other).
Proof.
  intros Hrun own. split.
  - intros u i Hne. destruct (prepareAndRun_spec al order order2 msg s Hrun) as (s1 & r & Hpr & _ & Ho).
    assert ((safeProcessMessage al order order2 msg s b).1.1 = s1) as ->; [|by apply Ho].
    unfold safeProcessMessage, processMessage. rewrite Hpr. destruct r as [[resp|e]|]; [|done..].
    destruct (str_empty resp); [done|]. by destruct (bus_PublishOutbound _ b) as [? []].
  - intros other Hk1 Hk2 Hsep. unfold own, message_key. rewrite Hk1, Hk2. cbn [str_empty]. intros Heq. injection Heq as _ Heq.
    apply SessionKey_inj in Heq as (? & ? & ? & ?); [|rewrite !Forall_cons in *; naive_solver]. congruence.
Qed.

(** A run that fails is invisible outside: when the runner's error is not a context
    overflow, the message is answered with nothing, no error is reported to the error
    handler and nothing is published. *)
Theorem runner_error_is_silent al order order2 msg s b r s1 sess s2 resp e :
  run_own →
  message_agent al order order2 msg ≠ ""%string →
  GetRunner (al_registry al) (message_agent al order order2 msg) = Some r →
  let key := message_key msg (message_agent al order order2 msg) in
  ensureSession msg key s = (s1, Ok sess) →
  runAgentOnce r (in_UserID msg) key (user_content msg) s1 = (s2, (resp, RunFailed e)) →
  IsContextOverflowError (Some e) = false →
  ∃ s', safeProcessMessage al order order2 msg s b = (s', b, None).
Proof.
  intros Hrun Hid Hr key Hs Hone Hov. unfold safeProcessMessage, processMessage.
  destruct (prepareAndRun_spec al order order2 msg s Hrun) as (s' & res & -> & Hp & _). unfold prepared in Hp.
  unfold str_empty in Hp. rewrite bool_decide_eq_false_2 in Hp by done. rewrite Hr in Hp. fold key in Hp. rewrite Hs in Hp.
  unfold runAgentWithRetry, maxContextRetries in Hp. cbn [retry_loop] in Hp. rewrite Hone, Hov in Hp. cbn in Hp. subst res.
  by eexists.
Qed.

(** C38: The runner is called at most three times for a message; every call but the last
    ended in a context overflow, the loop panics exactly if the last call did, and unless the
    last call succeeded the answer is empty. *)
Theorem retries_are_bounded al r msg key s :
  run_own →
  ∃ s' resp ends, runAgentWithRetry al r msg key (user_content msg) s = (s', resp, ends) ∧
    (1 ≤ length ends ≤ 3)%nat ∧
    Forall (λ e, overflowed e = true) (removelast ends) ∧
    (resp = None ↔ last ends = Some RunPanicked) ∧
    (last ends ≠ Some RunDone → default "" resp = ""%string).
Proof.
  intros Hrun.
  destruct (retry_loop_spec al r msg key (user_content msg) maxContextRetries s Hrun) as (s' & resp & ends & Hl & Ht & _).
  exists s', resp, ends. split; [exact Hl|]. by apply retry_trace_ends in Ht.
Qed.
End loop.

(** ** Witnesses *)

(** A bus that records what is published. *)
#[local] Instance recording_bus : MessageBus (list OutboundMessage) :=
  {| bus_PublishOutbound m l := (l ++ [m], None) |}.

(** Runner 0 answers, runner 1 fails, any other runner panics. *)
Definition w_run (r : nat) (u i : string) (c : Content) (s : mem_state)
    : mem_state * list (result goerror (option RunEvent)) * bool :=
  (s, match r with
      | O => [Ok (Some {| re_Content := Some (user_content
                {| in_Channel := ""; in_TenantID := ""; in_UserID := ""; in_SenderID := ""; in_ChatID := "";
                   in_Content := "<think>hm</think> hi "; in_Media := []; in_Metadata := ∅; in_SessionKey := "";
                   in_AgentID := ""; in_Timestamp := 0 |}); re_Final := true |})]
      | 1%nat => [Err (ErrText "boom")]
      | _ => []
      end, negb (r <? 2)%nat).

Definition w_inbound (tenant : string) : InboundMessage :=
  {| in_Channel := "telegram"; in_TenantID := tenant; in_UserID := "u"; in_SenderID := ""; in_ChatID := "c9";
     in_Content := "hello"; in_Media := []; in_Metadata := ∅; in_SessionKey := ""; in_AgentID := "";
     in_Timestamp := 0 |}.

Definition w_entry_with (r : nat) : AgentEntry nat :=
  {| ent_ID := "a"; ent_Runner := r;
     ent_Config := {| def_ID := "a"; def_Name := "a"; def_Description := ""; def_Model := "";
                      def_IsDefault := true; def_Routes := [] |} |}.
Definition w_loop (r : nat) : @AgentLoop nat :=
  {| al_registry := Register (w_entry_with r) NewAgentRegistry; al_compressor := None; al_contextWindow := 100 |}.
Definition w_empty : mem_state := {| ms_sessions := ∅; ms_faults := [] |}.

Definition w_process (r : nat) :=
  safeProcessMessage (U := bytewise_case) w_run map_to_list (w_loop r) ["a"%string] ["a"%string] (w_inbound "t1") w_empty [].

Lemma w_run_own : run_own w_run.
Proof. by intros r u i c s u' i' _. Qed.


Lemma runner_error_is_silent_witness :
  ∃ s', safeProcessMessage (U := bytewise_case) w_run map_to_list (w_loop 1) ["a"%string] ["a"%string]
    (w_inbound "t1") w_empty ([] : list OutboundMessage) = (s', [], None).
Proof.
  eapply (runner_error_is_silent (U := bytewise_case) w_run map_to_list (w_loop 1) ["a"%string] ["a"%string]
    (w_inbound "t1") w_empty [] 1%nat _ _ _ _ (ErrText "boom") w_run_own);
    [by vm_compute|reflexivity|reflexivity|reflexivity|by vm_compute].
Defined.

Lemma retries_are_bounded_witness :
  ∃ s' resp ends, runAgentWithRetry (U := bytewise_case) w_run map_to_list (w_loop 0) 0%nat (w_inbound "t1") "k"
    (user_content (w_inbound "t1")) w_empty = (s', resp, ends) ∧ resp = Some "hi"%string.
Proof.
  destruct (retries_are_bounded (U := bytewise_case) w_run map_to_list (w_loop 0) 0%nat (w_inbound "t1") "k" w_empty
    w_run_own) as (s' & resp & ends & Hr & _).
  exists s', resp, ends. split; [exact Hr|]. vm_compute in Hr. injection Hr as _ <- _. reflexivity.
Defined.

(** Two tenants with the same user, channel and agent. *)
Lemma processing_is_isolated_witness :
  svc_Get "u" (message_key (w_inbound "t2") (message_agent (w_loop 0) ["a"%string] ["a"%string] (w_inbound "t2")))
    (w_process 0).1.1 =
  svc_Get "u" (message_key (w_inbound "t2") (message_agent (w_loop 0) ["a"%string] ["a"%string] (w_inbound "t2"))) w_empty ∧
  ∀ t, sessionKeySep ∉ s2l t →
    message_key (w_inbound t) (message_agent (w_loop 0) ["a"%string] ["a"%string] (w_inbound t))
    = message_key (w_inbound "t1") (message_agent (w_loop 0) ["a"%string] ["a"%string] (w_inbound "t1")) → "t1"%string = t.
Proof.
  destruct (processing_is_isolated (U := bytewise_case) (B := list OutboundMessage) w_run map_to_list (w_loop 0)
    ["a"%string] ["a"%string] (w_inbound "t1") w_empty [] w_run_own) as [Hk Ho]. split; [apply Hk; by vm_compute|].
  intros t Ht Heq. pose proof (Ho (w_inbound t) eq_refl eq_refl) as Hs. cbn beta zeta in Hs. rewrite Heq in Hs.
  assert (("t1", "u", "telegram", message_agent (w_loop 0) ["a"%string] ["a"%string] (w_inbound "t1"))%string
    = (t, "u", "telegram", message_agent (w_loop 0) ["a"%string] ["a"%string] (w_inbound t))%string) as Hq; [|congruence].
  apply Hs; [|reflexivity]. repeat (apply List.Forall_cons; [first [exact Ht|refine (bool_decide_unpack _ _); by vm_compute]|]). apply List.Forall_nil.
Defined.
