(* ===== verification/AgentStream.v ===== *)
(** [pkg/agent/loop.go], the rest of it: the streaming variant [ProcessDirectStream] and
    the consuming loop [Run].

    A callback is known by the events it is given, in their order.  The text of an error
    event is a value of [stream_error].  As in [AgentLoop], a run is the stream of events
    of the runner and the loop stops reading at the first error; the function call of a
    part is read by [function_call]. *)
From S2P Require Import Prelude GoStrings Values Types AgentRegistry Pruning Compression AgentLoop.

Inductive stream_error :=
| SErrLoop (e : loop_error) | SErrRun (e : goerror) | SErrRetries | SErrNoCompressor | SErrGetSession | SErrCompression.

Record StreamEvent := {
  sev_Type : string; sev_Content : string; sev_Args : list (string * jany); sev_Error : option stream_error;
}.

Definition text_delta (text : string) : StreamEvent :=
  {| sev_Type := "text_delta"; sev_Content := text; sev_Args := []; sev_Error := None |}.
Definition tool_call (name : string) (args : list (string * jany)) : StreamEvent :=
  {| sev_Type := "tool_call"; sev_Content := name; sev_Args := args; sev_Error := None |}.
Definition tool_result (text : string) : StreamEvent :=
  {| sev_Type := "tool_result"; sev_Content := text; sev_Args := []; sev_Error := None |}.
Definition done_event : StreamEvent := {| sev_Type := "done"; sev_Content := ""; sev_Args := []; sev_Error := None |}.
Definition error_event (e : stream_error) : StreamEvent :=
  {| sev_Type := "error"; sev_Content := ""; sev_Args := []; sev_Error := Some e |}.

(** What [ProcessDirectStream] returns. *)
Inductive direct_error := DErrLoop (e : loop_error) | DErr (e : goerror).

Section stream.
Context `{U : UnicodeCase} {S B Runner : Type} `{SessionService S} `{MessageBus B}.
Context (Run : Runner → string → string → Content → S → S * list (result goerror (option RunEvent)) * bool).
Context (range : gmap string any → list (string * any)).
Context (function_call : Part → option (string * list (string * jany))).

(** ** One run *)

Definition result_text (fr : FunctionResponse) : string :=
  match fr_Response fr with
  | None => ""
  | Some r => match r !! "result"%string with Some (AStr s) => s | _ => "" end
  end.

(** One part: what it adds to the final text, and its events. *)
Definition part_final (final : bool) (p : Part) : string := if final then part_Text p else "".
Definition part_events (final : bool) (p : Part) : list StreamEvent :=
  (if negb (str_empty (part_Text p)) && negb final then [text_delta (part_Text p)] else [])
  ++ match function_call p with Some (name, args) => [tool_call name args] | None => [] end
  ++ match part_FunctionResponse p with Some fr => [tool_result (result_text fr)] | None => [] end.

(** The loop over the events of a run; [text] is the final text so far. *)
Fixpoint stream_run (evs : list (result goerror (option RunEvent))) (text : string) : list StreamEvent * option goerror :=
  match evs with
  | [] => ([], None)
  | Err e :: _ => ([], Some e)
  | Ok ev :: evs =>
      match ev with
      | Some {| re_Content := Some c; re_Final := final |} =>
          let text := text +:+ String.concat "" (part_final final <$> ct_Parts c) in
          let '(out, err) := stream_run evs text in
          ((ct_Parts c ≫= part_events final)
           ++ (if final then [text_delta (stripThinking text); done_event] else []) ++ out, err)
      | _ => stream_run evs text
      end
  end.

(** The last component says whether the run panicked. *)
Definition runAgentStreamOnce (r : Runner) (userID sessionID : string) (content : Content) (s : S)
    : S * (list StreamEvent * option goerror) * bool :=
  let '(s, evs, panics) := Run r userID sessionID content s in
  let '(out, err) := stream_run evs "" in
  (s, (out, err), match err with Some _ => false | None => panics end).

(** ** Retries

    As in [retry_loop]; [remaining] is how many retries remain, the last component lists
    the errors of the runs made, and [None] is a panic. *)
Fixpoint stream_retry (al : @AgentLoop Runner) (r : Runner) (msg : InboundMessage) (key : string) (content : Content)
    (remaining : nat) (s : S) : option (S * list StreamEvent * option goerror * list (option goerror)) :=
  let '(s, (out, err), panics) := runAgentStreamOnce r (in_UserID msg) key content s in
  if panics then None else
  match err with
  | None => Some (s, out, None, [None])
  | Some e =>
      let fail s why ret := Some (s, out ++ [error_event why], Some ret, [err]) in
      let again s := '(s, out', ret, errs) ← match remaining with
                                             | O => None
                                             | Datatypes.S n => stream_retry al r msg key content n s
                                             end;
                     Some (s, out ++ out', ret, err :: errs) in
      if negb (IsContextOverflowError err) then fail s (SErrRun e) e
      else if (remaining =? 0)%nat then fail s SErrRetries e
      else
        match al_compressor al with
        | None => fail s SErrNoCompressor e
        | Some llm =>
            match svc_Get (in_UserID msg) key s with
            | Err getErr => fail s SErrGetSession getErr
            | Ok sess =>
                c ← Compress range llm sess s;
                match c with
                | (s, None) => again s
                | (s, Some _) =>
                    match ForceCompress sess s with
                    | (s, Some forceErr) => fail s SErrCompression forceErr
                    | (s, None) => again s
                    end
                end
            end
        end
  end.

Definition runAgentStreamWithRetry (al : @AgentLoop Runner) (r : Runner) (msg : InboundMessage) (key : string)
    (content : Content) (s : S) := stream_retry al r msg key content maxContextRetries s.

(** ** One message

    [None] is a panic; then the errors of the runs that were made. *)
Definition ProcessDirectStream (al : @AgentLoop Runner) (order order2 : list string) (msg : InboundMessage) (s : S)
    : option (S * list StreamEvent * option direct_error * list (option goerror)) :=
  let agentID := message_agent al order order2 msg in
  let fail s e := Some (s, [error_event (SErrLoop e)], Some (DErrLoop e), []) in
  if str_empty agentID then fail s (ErrNoAgent (in_Channel msg) (in_ChatID msg))
  else
    match GetRunner (al_registry al) agentID with
    | None => fail s (ErrNoRunner agentID)
    | Some r =>
        let key := message_key msg agentID in
        match ensureSession msg key s with
        | (s, Err e) => fail s e
        | (s, Ok _) =>
            match runAgentStreamWithRetry al r msg key (user_content msg) s with
            | None => None
            | Some (s, out, err, errs) =>
                let ret s := Some (s, out, DErr <$> err, errs) in
                match al_compressor al with
                | None => ret s
                | Some llm =>
                    match svc_Get (in_UserID msg) key s with
                    | Err _ => ret s
                    | Ok fresh => s ← maybeCompress range llm (al_contextWindow al) fresh s; ret s
                    end
                end
            end
        end
    end.

(** ** The loop over the bus *)

(** What one call of [ConsumeInbound] gives: a message, with the orders in which the
    registry ranges over its agents, or an error and whether the context is done. *)
Inductive consumed := Consumed (msg : InboundMessage) (order order2 : list string) | ConsumeErr (e : goerror) (done : bool).

Inductive loop_end := LoopWaits | LoopStopped | LoopFailed (e : goerror).

(** [Run]: the state after the calls given, what the error handler was called with, and
    whether the loop has returned. *)
Fixpoint loop_Run (al : @AgentLoop Runner) (inputs : list consumed) (s : S) (b : B)
    : S * B * list (InboundMessage * loop_error) * loop_end :=
  match inputs with
  | [] => (s, b, [], LoopWaits)
  | ConsumeErr e isDone :: _ => (s, b, [], if isDone then LoopStopped else LoopFailed e)
  | Consumed msg order order2 :: inputs =>
      let '(s, b, err) := safeProcessMessage Run range al order order2 msg s b in
      let '(s, b, handled, stop) := loop_Run al inputs s b in
      (s, b, match err with Some e => (msg, e) :: handled | None => handled end, stop)
  end.

(** ** Lemmas *)

Context `{!SessionLaws S}.

Definition is_error (ev : StreamEvent) : bool := bool_decide (sev_Type ev = "error"%string).

Lemma part_events_no_error final p : Forall (λ ev, is_error ev = false) (part_events final p).
Proof.
  unfold part_events. apply Forall_app. split; [by destruct (_ && _); repeat constructor|].
  apply Forall_app. split; [by destruct (function_call p) as [[? ?]|]; repeat constructor|].
  by destruct (part_FunctionResponse p); repeat constructor.
Qed.

Lemma stream_run_no_error evs text : Forall (λ ev, is_error ev = false) (stream_run evs text).1.
Proof.
  revert text. induction evs as [|[[[[c|] final]|]|e] evs IH]; intros text; cbn [stream_run]; try done.
  specialize (IH (text +:+ String.concat "" (part_final final <$> ct_Parts c))).
  destruct (stream_run evs _) as [out err]. apply Forall_app. split; [|apply Forall_app; split; [|exact IH]].
  - apply Forall_bind, Forall_true. intros p. apply part_events_no_error.
  - by destruct final; repeat constructor.
Qed.

(** How a stream ends: an error is told once, as the last event, and returned; without one
    there is no error event. *)
Definition well_ended {E} (out : list StreamEvent) (ret : option E) : Prop :=
  match ret with
  | None => Forall (λ ev, is_error ev = false) out
  | Some _ => ∃ pre e, out = pre ++ [error_event e] ∧ Forall (λ ev, is_error ev = false) pre
  end.

Lemma well_ended_app {E} pre out (ret : option E) :
  Forall (λ ev, is_error ev = false) pre → well_ended out ret → well_ended (pre ++ out) ret.
Proof.
  intros Hpre. destruct ret as [e|]; simpl; [|intros Hout; apply Forall_app; by split].
  intros (p & e' & -> & Hp). exists (pre ++ p), e'. split; [by rewrite app_assoc|]. apply Forall_app. by split.
Qed.

Lemma well_ended_fail {E} out why (e : E) :
  Forall (λ ev, is_error ev = false) out → well_ended (out ++ [error_event why]) (Some e).
Proof. intros Hout. exists out, why. by split. Qed.

(** The runs of a message: at most [n] and one more, all but the last overflowed. *)
Definition runs_ok (n : nat) (errs : list (option goerror)) : Prop :=
  (length errs ≤ Datatypes.S n)%nat ∧ ∃ front e, errs = front ++ [e] ∧ Forall (λ e, IsContextOverflowError e = true) front.

(** A path of [stream_retry] that gives up, with what it changed. *)
Ltac failed Ho :=
  eexists _, _, _, _; split; [reflexivity|]; split; [by apply well_ended_fail|];
  split; [split; [simpl; lia|by eexists [], _]|exact Ho].

Lemma stream_retry_spec al r msg key content n s :
  run_own Run → run_calm Run →
  ∃ s' out ret errs, stream_retry al r msg key content n s = Some (s', out, ret, errs)
    ∧ well_ended out ret ∧ runs_ok n errs ∧ others_kept (in_UserID msg) key s s'.
Proof.
  intros Hrun Hcalm. revert s. induction n as [|n IH]; intros s; cbn [stream_retry]; unfold runAgentStreamOnce at 1;
    pose proof (Hrun r (in_UserID msg) key content s) as Ho; pose proof (Hcalm r (in_UserID msg) key content s) as Hc;
    destruct (Run r (in_UserID msg) key content s) as [[s1 evs] panics]; cbn [fst snd] in Ho, Hc; subst panics;
    pose proof (stream_run_no_error evs "") as Hout; destruct (stream_run evs "") as [out [e|]]; cbn [fst] in Hout;
    try (by eexists _, _, _, _; split; [done|]; split; [exact Hout|]; split; [|exact Ho]; split; [simpl; lia|]; by exists [], None).
  - destruct (IsContextOverflowError (Some e)); by failed Ho.
  - destruct (IsContextOverflowError (Some e)) eqn:Hov; [|by failed Ho]. cbn [negb Nat.eqb].
    destruct (al_compressor al) as [llm|]; [|by failed Ho].
    destruct (svc_Get (in_UserID msg) key s1) as [sess|e'] eqn:Hg; [|by failed Ho].
    destruct (get_own _ _ _ _ Hg) as [Hu Hi].
    destruct (compress_step range llm sess s1 _ _ Hg) as (s2 & cerr & -> & Ho2). cbn [mbind option_bind].
    assert (Hagain : ∀ s3, others_kept (in_UserID msg) key s s3 →
      ∃ s' out0 ret errs, ('(s, out', ret, errs) ← stream_retry al r msg key content n s3;
          Some (s, out ++ out', ret, Some e :: errs)) = Some (s', out0, ret, errs)
        ∧ well_ended out0 ret ∧ runs_ok (Datatypes.S n) errs ∧ others_kept (in_UserID msg) key s s').
    { intros s3 Ho3. destruct (IH s3) as (s4 & out4 & ret4 & errs4 & -> & Hw & [Hl (front & e4 & -> & Hf)] & Ho4).
      cbn [mbind option_bind]. eexists _, _, _, _. split; [done|]. split; [by apply well_ended_app|].
      split; [|by eapply others_kept_trans]. split; [simpl in *; lia|]. exists (Some e :: front), e4.
      split; [done|]. by constructor. }
    pose proof (others_kept_trans _ _ _ _ _ Ho Ho2) as Ho12.
    destruct cerr as [ce|]; [|by apply Hagain].
    pose proof (force_step sess s2 _ _ Hu Hi) as Ho3.
    destruct (ForceCompress sess s2) as [s3 [fe|]]; cbn [fst] in Ho3; pose proof (others_kept_trans _ _ _ _ _ Ho12 Ho3) as Ho13;
      [by failed Ho13|by apply Hagain].
Qed.

Definition is_done_event (ev : StreamEvent) : bool := bool_decide (sev_Type ev = "done"%string).
Definition is_final (ev : result goerror (option RunEvent)) : bool :=
  match ev with Ok (Some {| re_Content := Some _; re_Final := true |}) => true | _ => false end.

Lemma part_events_not_done final p : Forall (λ ev, is_done_event ev = false) (part_events final p).
Proof.
  unfold part_events. apply Forall_app. split; [by destruct (_ && _); repeat constructor|].
  apply Forall_app. split; [by destruct (function_call p) as [[? ?]|]; repeat constructor|].
  by destruct (part_FunctionResponse p); repeat constructor.
Qed.

Lemma part_final_text final ps text :
  text +:+ String.concat "" (part_final final <$> ps)
  = if final then text +:+ String.concat "" (part_Text <$> ps) else text.
Proof.
  destruct final; [done|].
  assert (String.concat "" (part_final false <$> ps) = ""%string) as ->.
  { induction ps as [|p ps IH]; [done|]. rewrite fmap_cons. cbn [String.concat]. rewrite IH. by destruct (part_final false <$> ps). }
  apply s2l_inj. by rewrite s2l_app, app_nil_r.
Qed.

Lemma stream_run_collect evs text t :
  collect_run evs text = (t, None) →
  (stream_run evs text).2 = None
  ∧ if existsb is_final evs
    then ∃ pre post, (stream_run evs text).1 = pre ++ [text_delta (stripThinking t); done_event] ++ post
         ∧ Forall (λ ev, is_done_event ev = false) post
    else t = text ∧ Forall (λ ev, is_done_event ev = false) (stream_run evs text).1.
Proof.
  revert text. induction evs as [|[[[[c|] final]|]|e] evs IH]; intros text; cbn [collect_run stream_run existsb is_final];
    try apply IH; try done; [by intros [= ->]|].
  cbn [re_Content re_Final]. rewrite part_final_text. set (text' := if final then _ else _). intros Hc. specialize (IH text' Hc).
  destruct (stream_run evs text') as [out err]. cbn [fst snd] in *. destruct IH as [-> IH]. split; [done|].
  assert (Forall (λ ev, is_done_event ev = false) (ct_Parts c ≫= part_events final)) as Hparts
    by (apply Forall_bind, Forall_true; intros p; apply part_events_not_done).
  destruct (existsb is_final evs); [|destruct IH as [-> IH]].
  - destruct IH as (pre & post & -> & Hpost). rewrite orb_true_r.
    exists ((ct_Parts c ≫= part_events final) ++ (if final then [text_delta (stripThinking text'); done_event] else []) ++ pre), post.
    split; [rewrite <- !app_assoc; reflexivity|done].
  - rewrite orb_false_r. destruct final; cbn [is_final].
    + exists (ct_Parts c ≫= part_events true), out. by split.
    + split; [done|]. cbn [app]. apply Forall_app. by split.
Qed.

(** Streaming says what the plain call answers: when the run of the agent has no error and
    a final event, the last text before the last end of the stream is the answer of
    [runAgentOnce], and nothing ends after it. *)
Theorem stream_says_the_answer r u i c s answer :
  (runAgentOnce Run r u i c s).2 = (answer, RunDone) → existsb is_final (Run r u i c s).1.2 = true →
  ∃ pre post, (runAgentStreamOnce r u i c s).1.2 = (pre ++ [text_delta answer; done_event] ++ post, None)
    ∧ Forall (λ ev, is_done_event ev = false) post.
Proof.
  unfold runAgentOnce, runAgentStreamOnce. destruct (Run r u i c s) as [[s1 evs] panics]. cbn [fst snd].
  destruct (collect_run evs "") as [t [err|]] eqn:Hc; [done|]. destruct panics; [done|]. cbn [snd]. intros [= <-] Hfinal.
  destruct (stream_run_collect evs "" t Hc) as [Hnone Hout]. rewrite Hfinal in Hout.
  destruct Hout as (pre & post & Hout & Hpost). exists pre, post. split; [|done].
  destruct (stream_run evs ""). cbn in *. by subst.
Qed.

(** Processing a message with callbacks always ends, and without a panic if the runner never
    panics: at most three runs
    are made, an error is told as the last event, exactly once, and returned, no error
    event is given otherwise, and no session but the message's own is touched. *)
Theorem stream_outcome al order order2 msg s :
  run_own Run → run_calm Run →
  ∃ s' out ret errs, ProcessDirectStream al order order2 msg s = Some (s', out, ret, errs)
    ∧ well_ended out ret ∧ (length errs ≤ 3)%nat
    ∧ others_kept (in_UserID msg) (message_key msg (message_agent al order order2 msg)) s s'.
Proof.
  intros Hrun Hcalm. unfold ProcessDirectStream. set (id := message_agent al order order2 msg).
  assert (∀ e (ret : direct_error), well_ended [error_event (SErrLoop e)] (Some ret)) as Hfail
    by (intros e ret; by exists [], (SErrLoop e)).
  destruct (str_empty id); [eexists _, _, _, _; split; [done|]; split; [apply Hfail|]; split; [simpl; lia|done]|].
  destruct (GetRunner (al_registry al) id) as [r|];
    [|eexists _, _, _, _; split; [done|]; split; [apply Hfail|]; split; [simpl; lia|done]].
  set (key := message_key msg id). pose proof (ensure_other msg key s) as Ho.
  destruct (ensureSession msg key s) as [s1 [sess|e]]; cbn [fst] in Ho;
    [|eexists _, _, _, _; split; [done|]; split; [apply Hfail|]; split; [simpl; lia|done]].
  destruct (stream_retry_spec al r msg key (user_content msg) maxContextRetries s1 Hrun Hcalm)
    as (s2 & out & ret & errs & Hl & Hw & [Hlen _] & Ho2).
  unfold runAgentStreamWithRetry. rewrite Hl. pose proof (others_kept_trans _ _ _ _ _ Ho Ho2) as Ho12.
  assert (well_ended out (DErr <$> ret)) as Hw' by (by destruct ret).
  assert (∀ s', others_kept (in_UserID msg) key s s' →
    ∃ s0 out0 ret0 errs0, Some (s', out, DErr <$> ret, errs) = Some (s0, out0, ret0, errs0)
      ∧ well_ended out0 ret0 ∧ (length errs0 ≤ 3)%nat ∧ others_kept (in_UserID msg) key s s0) as Hok
    by (intros s' Hs'; by eexists _, _, _, _).
  cbv zeta. destruct (al_compressor al) as [llm|]; [|by apply Hok].
  destruct (svc_Get (in_UserID msg) key s2) as [fresh|e] eqn:Hg; [|by apply Hok].
  destruct (maybe_other range llm (al_contextWindow al) fresh s2 _ _ Hg) as (s3 & -> & Ho3). cbn [mbind option_bind].
  apply Hok. by eapply others_kept_trans.
Qed.

(** The loop processes every message it consumes, in order and whatever the earlier ones
    did, and tells each error to the handler. *)
Theorem loop_Run_spec al inputs msgs e isDone s b :
  inputs = ((λ m, Consumed m.1.1 m.1.2 m.2) <$> msgs) ++ [ConsumeErr e isDone] →
  let step := λ '(s, b, handled) m,
    let '(s, b, err) := safeProcessMessage Run range al m.1.2 m.2 m.1.1 s b in
    (s, b, match err with Some e => handled ++ [(m.1.1, e)] | None => handled end) in
  ∀ rest, loop_Run al (inputs ++ rest) s b
    = (foldl step (s, b, []) msgs, if isDone then LoopStopped else LoopFailed e).
Proof.
  intros -> step rest. rewrite <- app_assoc.
  assert (∀ handled, let '(s', b', h, stop) := loop_Run al (((λ m, Consumed m.1.1 m.1.2 m.2) <$> msgs) ++ [ConsumeErr e isDone] ++ rest) s b in
            (s', b', handled ++ h, stop) = (foldl step (s, b, handled) msgs, if isDone then LoopStopped else LoopFailed e)) as Hall.
  { revert s b. induction msgs as [|[[m o1] o2] msgs IH]; intros s b handled; [cbn; by rewrite app_nil_r|].
    rewrite fmap_cons. cbn [app loop_Run foldl fst snd step].
    destruct (safeProcessMessage Run range al o1 o2 m s b) as [[s1 b1] err].
    specialize (IH s1 b1 (match err with Some e => handled ++ [(m, e)] | None => handled end)).
    destruct (loop_Run al _ s1 b1) as [[[s2 b2] h] stop]. rewrite <- IH. destruct err; [by rewrite <- app_assoc|done]. }
  specialize (Hall []). destruct (loop_Run al _ s b) as [[[s' b'] h] stop]. exact Hall.
Qed.
End stream.

(** ** Witnesses *)

(** The runner of the witnesses without its panic. *)
Definition w_calm (r : nat) (u i : string) (c : Content) (s : mem_state) := ((w_run r u i c s).1, false).
Lemma w_calm_own : run_own w_calm.
Proof. by intros r u i c s u' i' _. Qed.
Lemma w_calm_calm : run_calm w_calm.
Proof. done. Qed.

Definition w_stream_run := ProcessDirectStream (U := bytewise_case) w_calm map_to_list (λ _, None) (w_loop 0)
  ["a"%string] ["a"%string] (w_inbound "t1") w_empty.

Lemma stream_outcome_witness :
  ∃ s' errs, w_stream_run = Some (s', [text_delta "hi"; done_event], None, errs).
Proof.
  destruct (stream_outcome (U := bytewise_case) w_calm map_to_list (λ _, None) (w_loop 0) ["a"%string] ["a"%string]
    (w_inbound "t1") w_empty w_calm_own w_calm_calm) as (s' & out & ret & errs & Hr & _).
  exists s', errs. unfold w_stream_run. rewrite Hr. clear -Hr. vm_compute in Hr. injection Hr as <- <- <- <-. reflexivity.
Defined.

Lemma stream_says_the_answer_witness :
  ∃ pre post, (runAgentStreamOnce (Runner := nat) w_calm (λ _, None) 0%nat "u" "k" (user_content (w_inbound "t1")) w_empty).1.2
    = (pre ++ [text_delta "hi"; done_event] ++ post, None).
Proof.
  destruct (stream_says_the_answer w_calm (λ _, None) 0%nat "u" "k" (user_content (w_inbound "t1")) w_empty "hi"
    ltac:(vm_compute; reflexivity) ltac:(vm_compute; reflexivity)) as (pre & post & H & _).
  exists pre, post. exact H.
Defined.
