(* ===== verification/Cron.v ===== *)
(** [pkg/scheduler/cron.go]: the cron service.

    Jobs are shared by pointer: [cs_jobs] maps a job ID to a pointer and [cs_heap] holds
    what it points to, so that a job picked for firing is the one other calls change.
    The store and the bus are the interfaces of [pkg/types].  The cron parser, its
    schedules and the time zones are third-party; of a schedule the code needs that its
    next time is later than the time asked about, or zero.  The clock is an argument. *)
From S2P Require Import Prelude GoStrings Types.

(** [types.SchedulerStore] as the service uses it; each call may fail. *)
Class SchedulerStore (St : Type) := {
  st_SaveJob : CronJob → St → St * option goerror;
  st_ListJobs : string → St → result goerror (list (nat * CronJob));
  st_DeleteJob : string → St → St * option goerror;
  st_UpdateJobState : string → CronJobState → St → St * option goerror;
  st_LogExecution : CronJobLog → St → St * option goerror;
}.

Definition job_with_state (j : CronJob) (s : CronJobState) : CronJob :=
  {| job_ID := job_ID j; job_TenantID := job_TenantID j; job_UserID := job_UserID j; job_Name := job_Name j;
     job_Enabled := job_Enabled j; job_Schedule := job_Schedule j; job_Message := job_Message j;
     job_Channel := job_Channel j; job_ChatID := job_ChatID j; job_DeleteAfterRun := job_DeleteAfterRun j;
     job_State := s; job_CreatedAt := job_CreatedAt j |}.
Definition job_with_enabled (j : CronJob) (b : bool) : CronJob :=
  {| job_ID := job_ID j; job_TenantID := job_TenantID j; job_UserID := job_UserID j; job_Name := job_Name j;
     job_Enabled := b; job_Schedule := job_Schedule j; job_Message := job_Message j;
     job_Channel := job_Channel j; job_ChatID := job_ChatID j; job_DeleteAfterRun := job_DeleteAfterRun j;
     job_State := job_State j; job_CreatedAt := job_CreatedAt j |}.
Definition job_with_created (j : CronJob) (t : time) : CronJob :=
  {| job_ID := job_ID j; job_TenantID := job_TenantID j; job_UserID := job_UserID j; job_Name := job_Name j;
     job_Enabled := job_Enabled j; job_Schedule := job_Schedule j; job_Message := job_Message j;
     job_Channel := job_Channel j; job_ChatID := job_ChatID j; job_DeleteAfterRun := job_DeleteAfterRun j;
     job_State := job_State j; job_CreatedAt := t |}.
Definition with_next (s : CronJobState) (t : time) : CronJobState :=
  {| NextRunAt := t; LastRunAt := LastRunAt s; LastStatus := LastStatus s; LastError := LastError s |}.
Definition job_set_next (j : CronJob) (t : time) : CronJob := job_with_state j (with_next (job_State j) t).

Section cron.
Context {Loc Sched : Type}.
Context (UTC : Loc) (LoadLocation : string → option Loc).
Context (parse : string → option Sched) (inner_Next : Sched → Loc → time → time).

(** [parseCronExpr]: the schedule and its location, [None] on an error. *)
Definition parseCronExpr (expr tz : string) : option (Sched * Loc) :=
  loc ← (if str_empty tz then Some UTC else LoadLocation tz);
  sched ← parse expr;
  Some (sched, loc).

(** [tzSchedule.Next]. *)
Definition tz_Next (t : Sched * Loc) (now : time) : time := inner_Next t.1 t.2 now.

Definition ComputeNextRun (job : CronJob) (after : time) : time :=
  match job_Schedule job with
  | ScheduleAt AtTime => if After AtTime after then AtTime else time_zero
  | ScheduleEvery Interval =>
      let last := LastRunAt (job_State job) in
      if IsZero last then time_add after Interval
      else
        let next := time_add last Interval in
        if Before next after then time_add after Interval else next
  | ScheduleCron Expr Timezone =>
      match parseCronExpr Expr Timezone with
      | Some sched => tz_Next sched after
      | None => time_zero
      end
  | ScheduleOther _ => time_zero
  end.

Context {St B : Type} `{SchedulerStore St} `{InboundBus B}.

(** [cs_wake] is the wake channel of capacity one; [cs_running] is [s.cancel != nil]. *)
Record CronService := {
  cs_jobs : gmap string nat; cs_heap : gmap nat CronJob; cs_wake : bool; cs_running : bool;
}.
Definition New : CronService := {| cs_jobs := ∅; cs_heap := ∅; cs_wake := false; cs_running := false |}.

Record world := { svc : CronService; store : St; bus : B }.

Definition with_svc (w : world) (s : CronService) : world := {| svc := s; store := store w; bus := bus w |}.
Definition with_store (w : world) (s : St) : world := {| svc := svc w; store := s; bus := bus w |}.
Definition set_job (p : nat) (j : CronJob) (s : CronService) : CronService :=
  {| cs_jobs := cs_jobs s; cs_heap := <[p := j]> (cs_heap s); cs_wake := cs_wake s; cs_running := cs_running s |}.
Definition drop_job (id : string) (s : CronService) : CronService :=
  {| cs_jobs := delete id (cs_jobs s); cs_heap := cs_heap s; cs_wake := cs_wake s; cs_running := cs_running s |}.
Definition signal (s : CronService) : CronService :=
  {| cs_jobs := cs_jobs s; cs_heap := cs_heap s; cs_wake := true; cs_running := cs_running s |}.

(** One job of the loop of [Start]. *)
Definition start_job (now : time) (s : CronService) (pj : nat * CronJob) : CronService :=
  let '(p, j) := pj in
  let j := if job_Enabled j && IsZero (NextRunAt (job_State j)) then job_set_next j (ComputeNextRun j now) else j in
  {| cs_jobs := <[job_ID j := p]> (cs_jobs s); cs_heap := <[p := j]> (cs_heap s);
     cs_wake := cs_wake s; cs_running := cs_running s |}.

Definition Start (now : time) (w : world) : world * option goerror :=
  match st_ListJobs "" (store w) with
  | Err e => (w, Some (ErrText ("scheduler: load jobs: " +:+ error_text e)))
  | Ok jobs =>
      let s := fold_left (start_job now) jobs (svc w) in
      (with_svc w {| cs_jobs := cs_jobs s; cs_heap := cs_heap s; cs_wake := cs_wake s; cs_running := true |}, None)
  end.

(** [AddJob] on the caller's pointer [p] to [job]: both time stamps are set on the
    caller's job before it is saved. *)
Definition AddJob (now : time) (p : nat) (job : CronJob) (w : world) : world * option goerror :=
  let job := if IsZero (job_CreatedAt job) then job_with_created job now else job in
  let job := if IsZero (NextRunAt (job_State job)) then job_set_next job (ComputeNextRun job now) else job in
  match st_SaveJob job (store w) with
  | (s, Some e) => (with_store w s, Some (ErrText ("scheduler: save job: " +:+ error_text e)))
  | (s, None) =>
      (with_svc (with_store w s)
         (signal {| cs_jobs := <[job_ID job := p]> (cs_jobs (svc w)); cs_heap := <[p := job]> (cs_heap (svc w));
                    cs_wake := cs_wake (svc w); cs_running := cs_running (svc w) |}), None)
  end.

Definition RemoveJob (jobID : string) (w : world) : world * option goerror :=
  match st_DeleteJob jobID (store w) with
  | (s, Some e) => (with_store w s, Some (ErrText ("scheduler: delete job: " +:+ error_text e)))
  | (s, None) => (with_svc (with_store w s) (signal (drop_job jobID (svc w))), None)
  end.

Definition lookup_job (s : CronService) (id : string) : option (nat * CronJob) :=
  p ← cs_jobs s !! id; j ← cs_heap s !! p; Some (p, j).

(** The job is changed in memory first; a failed save leaves it changed. *)
Definition EnableJob (now : time) (jobID : string) (enabled : bool) (w : world) : world * option goerror :=
  match lookup_job (svc w) jobID with
  | None => (w, Some (ErrText "scheduler: job not found"))
  | Some (p, j) =>
      let j := job_with_enabled j enabled in
      let j := if enabled then job_set_next j (ComputeNextRun j now) else j in
      let w := with_svc w (set_job p j (svc w)) in
      match st_SaveJob j (store w) with
      | (s, Some e) => (with_store w s, Some (ErrText ("scheduler: save job: " +:+ error_text e)))
      | (s, None) => (with_svc (with_store w s) (signal (svc w)), None)
      end
  end.

(** The jobs in the order in which Go ranges over the map. *)
Definition ranged (s : CronService) (order : list string) : list (nat * CronJob) := omap (lookup_job s) order.

Definition ListJobs (s : CronService) (order : list string) (tenantID : string) : list CronJob :=
  snd <$> filter (λ pj, (str_empty tenantID || bool_decide (job_TenantID pj.2 = tenantID)) = true) (ranged s order).

(** The loop of [earliestRun] with its two variables. *)
Definition earlier (acc : option time) (j : CronJob) : option time :=
  if negb (job_Enabled j) || IsZero (NextRunAt (job_State j)) then acc
  else match acc with
       | Some earliest => if Before (NextRunAt (job_State j)) earliest then Some (NextRunAt (job_State j)) else acc
       | None => Some (NextRunAt (job_State j))
       end.

Definition earliestRun (s : CronService) (order : list string) : option time :=
  fold_left earlier (snd <$> ranged s order) None.

(** How long [loop] sleeps when it looks at the jobs at [now]. *)
Definition sleep_time (s : CronService) (order : list string) (now : time) : duration :=
  match earliestRun s order with
  | Some next => Z.max (time_sub next now) 0
  | None => 24 * Hour
  end.

Definition is_due (now : time) (j : CronJob) : bool :=
  job_Enabled j && negb (IsZero (NextRunAt (job_State j))) && negb (After (NextRunAt (job_State j)) now).

Definition job_message (job : CronJob) (now : time) : InboundMessage :=
  {| in_Channel := job_Channel job; in_TenantID := job_TenantID job; in_UserID := job_UserID job; in_SenderID := "";
     in_ChatID := job_ChatID job; in_Content := job_Message job; in_Media := [];
     in_Metadata := <["cron_job_id" := job_ID job]> {[ "cron_job_name"%string := job_Name job ]};
     in_SessionKey := ""; in_AgentID := ""; in_Timestamp := now |}.

Definition fired_state (s : CronJobState) (now : time) (err : option goerror) : CronJobState :=
  {| NextRunAt := NextRunAt s; LastRunAt := now;
     LastStatus := match err with Some _ => "error" | None => "ok" end;
     LastError := match err with Some e => error_text e | None => "" end |}.

Definition is_at (s : CronSchedule) : bool := match s with ScheduleAt _ => true | _ => false end.

Definition logExecution (jobID : string) (runAt : time) (durationMs : Z) (err : option goerror) (w : world) : world :=
  with_store w (st_LogExecution
    {| log_JobID := jobID; log_RunAt := runAt; log_DurationMs := durationMs;
       log_Status := match err with Some _ => "error" | None => "ok" end;
       log_Error := match err with Some e => error_text e | None => "" end |} (store w)).1.

(** [fireJob] on pointer [p]; the publish took [durationMs]. *)
Definition fireJob (now : time) (durationMs : Z) (p : nat) (w : world) : world :=
  match cs_heap (svc w) !! p with
  | None => w
  | Some job =>
      let '(b, err) := bus_PublishInbound (job_message job now) (bus w) in
      let job := job_with_state job (fired_state (job_State job) now err) in
      if job_DeleteAfterRun job && is_at (job_Schedule job) then
        let w := {| svc := drop_job (job_ID job) (set_job p job (svc w)); store := store w; bus := b |} in
        let w := with_store w (st_DeleteJob (job_ID job) (store w)).1 in
        logExecution (job_ID job) now durationMs err w
      else
        let job := job_set_next job (ComputeNextRun job now) in
        let w := {| svc := set_job p job (svc w); store := store w; bus := b |} in
        let w := with_store w (st_UpdateJobState (job_ID job) (job_State job) (store w)).1 in
        logExecution (job_ID job) now durationMs err w
  end.

Definition due_jobs (now : time) (s : CronService) (order : list string) : list nat :=
  fst <$> filter (λ pj, is_due now pj.2 = true) (ranged s order).

(** [durations] gives the time each publish took. *)
Definition fireDueJobs (now : time) (durations : nat → Z) (order : list string) (w : world) : world :=
  fold_left (λ w p, fireJob now (durations p) p w) (due_jobs now (svc w) order) w.

Record SchedulerStatus := { Running : bool; TotalJobs : Z; EnabledJobs : Z; NextWakeAt : option time }.

Definition Status (s : CronService) (order : list string) : SchedulerStatus :=
  {| Running := cs_running s; TotalJobs := Z.of_nat (size (cs_jobs s));
     EnabledJobs := Z.of_nat (length (filter (λ pj, job_Enabled pj.2 = true) (ranged s order)));
     NextWakeAt := fold_left (λ acc pj, if job_Enabled pj.2 then earlier acc pj.2 else acc) (ranged s order) None |}.

(** ** Lemmas *)

(** Every entry of the map points to a job stored under its own ID. *)
Definition jobs_wf (s : CronService) : Prop :=
  ∀ id p, cs_jobs s !! id = Some p → ∃ j, cs_heap s !! p = Some j ∧ job_ID j = id.

(** What the code relies on: a cron schedule moves forward or has no next time. *)
Definition schedules_advance : Prop := ∀ s l t, inner_Next s l t = time_zero ∨ t < inner_Next s l t.

Definition one_shot (j : CronJob) : bool := job_DeleteAfterRun j && is_at (job_Schedule j).

(** A job after it was fired. *)
Definition fired_job (now : time) (j : CronJob) (err : option goerror) : CronJob :=
  let j := job_with_state j (fired_state (job_State j) now err) in
  if one_shot j then j else job_set_next j (ComputeNextRun j now).

(** The messages of a list of jobs published one after the other. *)
Fixpoint publish_all (now : time) (js : list CronJob) (b : B) : B * list (option goerror) :=
  match js with
  | [] => (b, [])
  | j :: js =>
      let '(b, err) := bus_PublishInbound (job_message j now) b in
      let '(b, errs) := publish_all now js b in (b, err :: errs)
  end.

Lemma lookup_job_Some s id p j :
  lookup_job s id = Some (p, j) ↔ cs_jobs s !! id = Some p ∧ cs_heap s !! p = Some j.
Proof.
  unfold lookup_job. destruct (cs_jobs s !! id) as [p'|]; simpl; [|by split; [|intros []]].
  destruct (cs_heap s !! p') as [j'|] eqn:Hj; simpl.
  - split; [by intros [= -> ->]|]. intros [[= ->] ?]. congruence.
  - split; [done|]. intros [[= ->] ?]. congruence.
Qed.

Lemma fireJob_spec now d p j w b err :
  cs_heap (svc w) !! p = Some j → bus_PublishInbound (job_message j now) (bus w) = (b, err) →
  let w' := fireJob now d p w in
  bus w' = b ∧ cs_heap (svc w') = <[p := fired_job now j err]> (cs_heap (svc w)) ∧
  cs_jobs (svc w') = if one_shot j then delete (job_ID j) (cs_jobs (svc w)) else cs_jobs (svc w).
Proof.
  intros Hj Hb. unfold fireJob, fired_job, one_shot. rewrite Hj, Hb. simpl.
  destruct (job_DeleteAfterRun j && is_at (job_Schedule j)); simpl; done.
Qed.

Lemma fire_all_spec now d (due : list (nat * CronJob)) w :
  NoDup due.*1 → (∀ p j, (p, j) ∈ due → cs_heap (svc w) !! p = Some j) →
  let w' := fold_left (λ w p, fireJob now (d p) p w) due.*1 w in
  let '(b, errs) := publish_all now due.*2 (bus w) in
  bus w' = b ∧ length errs = length due ∧
  (∀ i p j err, due !! i = Some (p, j) → errs !! i = Some err → cs_heap (svc w') !! p = Some (fired_job now j err)) ∧
  (∀ p, p ∉ due.*1 → cs_heap (svc w') !! p = cs_heap (svc w) !! p) ∧
  (∀ id, (∀ p j, (p, j) ∈ due → one_shot j = true → job_ID j ≠ id) → cs_jobs (svc w') !! id = cs_jobs (svc w) !! id) ∧
  (∀ p j, (p, j) ∈ due → one_shot j = true → cs_jobs (svc w') !! job_ID j = None).
Proof.
  revert w. induction due as [|[p j] due IH]; intros w Hnd Hheap.
  { simpl. split_and!; try done. intros p j []%elem_of_nil. }
  rewrite fmap_cons, fmap_cons. cbn [fold_left publish_all fst snd].
  destruct (bus_PublishInbound (job_message j now) (bus w)) as [b err] eqn:Hb.
  assert (Hj : cs_heap (svc w) !! p = Some j) by (apply Hheap; set_solver).
  destruct (fireJob_spec now (d p) p j w b err Hj Hb) as (Hbus & Hh & Hjobs).
  rewrite fmap_cons in Hnd. apply NoDup_cons in Hnd as [Hp Hnd]. simpl in Hp.
  set (w1 := fireJob now (d p) p w) in *.
  specialize (IH w1 Hnd). rewrite Hbus in IH.
  destruct (publish_all now due.*2 b) as [b' errs]. destruct IH as (IH1 & IH2 & IH3 & IH4 & IH5 & IH6).
  { intros p' j' Hin. rewrite Hh, lookup_insert_ne; [apply Hheap; set_solver|].
    intros ->. apply Hp. by apply (list_elem_of_fmap_2 fst _ (p', j')). }
  split_and!; [done|simpl; congruence| | | |].
  - intros [|i] p' j' err' Hi He; simpl in *; simplify_eq; [|by eapply IH3].
    rewrite IH4 by done. by rewrite Hh, lookup_insert_eq.
  - intros p' [Hne Hp']%not_elem_of_cons. simpl in Hne.
    rewrite IH4 by done. by rewrite Hh, lookup_insert_ne.
  - intros id Hid. rewrite IH5 by (intros p2 j2 Hin; apply (Hid p2 j2); apply elem_of_cons; by right). rewrite Hjobs.
    destruct (one_shot j) eqn:Ho; [|done]. rewrite lookup_delete_ne; [done|]. apply (Hid p j); [apply elem_of_cons; by left|done].
  - intros p' j' [Heq|Hin]%elem_of_cons Ho; [|by eapply IH6]. simplify_eq.
    destruct (decide (Exists (λ pj, job_ID pj.2 = job_ID j ∧ one_shot pj.2 = true) due)) as [Hex|Hnex].
    + apply Exists_exists in Hex as ([p2 j2] & Hin & Heq & Ho2). simpl in *. rewrite <- Heq. by eapply IH6.
    + rewrite IH5, Hjobs, Ho, lookup_delete_eq; [done|].
      intros p2 j2 Hin Ho2 Heq. apply Hnex, Exists_exists. by exists (p2, j2).
Qed.

Lemma ranged_elem s order p j :
  (p, j) ∈ ranged s order ↔ ∃ id, id ∈ order ∧ cs_jobs s !! id = Some p ∧ cs_heap s !! p = Some j.
Proof. unfold ranged. rewrite list_elem_of_omap. by setoid_rewrite lookup_job_Some. Qed.

Lemma ranged_NoDup s order : jobs_wf s → NoDup order → NoDup (ranged s order).*1.
Proof.
  intros Hwf. induction order as [|id order IH]; intros Hnd; [constructor|].
  apply NoDup_cons in Hnd as [Hid Hnd]. unfold ranged. simpl.
  destruct (lookup_job s id) as [[p j]|] eqn:Hl; [|by apply IH]. simpl. constructor; [|by apply IH].
  apply lookup_job_Some in Hl as [Hp Hj]. intros ([p' j'] & Heq & Hin)%list_elem_of_fmap. simpl in Heq. subst p'.
  apply ranged_elem in Hin as (id' & Hin & Hp' & _).
  destruct (Hwf _ _ Hp) as (j1 & ? & ?), (Hwf _ _ Hp') as (j2 & ? & ?).
  assert (id = id') as <- by congruence. done.
Qed.

(** A job just fired is not due again at once. *)
Lemma fired_job_later now j err :
  schedules_advance → now ≠ time_zero →
  (∀ i, job_Schedule j = ScheduleEvery i → 0 < i) →
  one_shot j = true ∨ is_due now (fired_job now j err) = false.
Proof.
  intros Hadv Hnow Hint. destruct (one_shot j) eqn:Ho; [by left|right].
  assert (Hf : fired_job now j err = job_set_next (job_with_state j (fired_state (job_State j) now err))
    (ComputeNextRun (job_with_state j (fired_state (job_State j) now err)) now)).
  { unfold fired_job. unfold one_shot in *. simpl. by rewrite Ho. }
  assert (Hn : ∀ t, (t = time_zero ∨ now < t) → ∀ j0, is_due now (job_set_next j0 t) = false).
  { intros t Ht j0. unfold is_due, IsZero, After; simpl. destruct Ht as [->|Ht].
    - by destruct (job_Enabled j0).
    - by rewrite (proj2 (Z.ltb_lt _ _) Ht), andb_false_r. }
  rewrite Hf. apply Hn. unfold ComputeNextRun. simpl. destruct (job_Schedule j) as [t|i|expr tz|k] eqn:Hs.
  - unfold After. destruct (Z.ltb_spec now t); auto.
  - specialize (Hint i eq_refl). unfold IsZero, Before, time_add, time_zero in *.
    destruct (Z.eqb_spec now 0); [done|]. destruct (Z.ltb_spec (now + i) now); lia.
  - destruct (parseCronExpr expr tz) as [[sc l]|]; [apply Hadv|by left].
  - by left.
Qed.

Lemma due_jobs_filter now s order :
  due_jobs now s order = (filter (λ pj, is_due now pj.2 = true) (ranged s order)).*1.
Proof. done. Qed.

Lemma due_fires now order w :
  jobs_wf (svc w) → range_order (cs_jobs (svc w)) order →
  let due := filter (λ pj, is_due now pj.2 = true) (ranged (svc w) order) in
  NoDup due.*1 ∧ ∀ p j, (p, j) ∈ due → cs_heap (svc w) !! p = Some j.
Proof.
  intros Hwf Ho due. split.
  - eapply sublist_NoDup; [apply (ranged_NoDup _ order Hwf)|]; [by eapply range_order_NoDup|].
    apply fmap_sublist, sublist_filter.
  - intros p j [_ (id & _ & _ & ?)%ranged_elem]%list_elem_of_filter. done.
Qed.

(** The loop of [earliestRun] computes a minimum. *)
Definition waits (j : CronJob) : bool := job_Enabled j && negb (IsZero (NextRunAt (job_State j))).

Lemma earlier_spec js acc :
  match fold_left earlier js acc with
  | Some t => (acc = Some t ∨ ∃ j, j ∈ js ∧ waits j = true ∧ NextRunAt (job_State j) = t) ∧
      (∀ j, j ∈ js → waits j = true → t ≤ NextRunAt (job_State j)) ∧ (∀ t0, acc = Some t0 → t ≤ t0)
  | None => acc = None ∧ ∀ j, j ∈ js → waits j = false
  end.
Proof.
  revert acc. induction js as [|j js IH]; intros acc; simpl.
  { destruct acc; [|split; [done|set_solver]]. split_and!; [by left|set_solver|]. intros ? [= ->]. lia. }
  specialize (IH (earlier acc j)). unfold earlier in *.
  assert (Hw : negb (job_Enabled j) || IsZero (NextRunAt (job_State j)) = negb (waits j)).
  { unfold waits. by destruct (job_Enabled j), (IsZero _). }
  rewrite Hw in *. destruct (waits j) eqn:Hj; simpl in *.
  - destruct acc as [t0|]; simpl in *.
    + unfold Before in *. destruct (Z.ltb_spec (NextRunAt (job_State j)) t0).
      * destruct (fold_left _ js _) as [t|]; [|naive_solver]. destruct IH as (E1 & E2 & E3).
        specialize (E3 _ eq_refl). split_and!; [|set_solver|intros ? [= <-]; lia].
        right. destruct E1 as [[= <-]|(j' & ? & ? & ?)]; [exists j|exists j']; set_solver.
      * destruct (fold_left _ js _) as [t|]; [|naive_solver]. destruct IH as (E1 & E2 & E3).
        specialize (E3 _ eq_refl) as E3'. split_and!; [|intros j' [->|?]%elem_of_cons ?; [lia|auto]|done].
        destruct E1 as [?|(j' & ? & ? & ?)]; [by left|right; exists j'; set_solver].
    + destruct (fold_left _ js _) as [t|]; [|naive_solver]. destruct IH as (E1 & E2 & E3).
      specialize (E3 _ eq_refl). split_and!; [|intros j' [->|?]%elem_of_cons ?; [lia|auto]|done].
      right. destruct E1 as [[= <-]|(j' & ? & ? & ?)]; [exists j|exists j']; set_solver.
  - destruct (fold_left _ js acc) as [t|].
    + destruct IH as (E1 & E2 & E3). split_and!; [|intros j' [->|?]%elem_of_cons ?; [congruence|auto]|done].
      destruct E1 as [?|(j' & ? & ? & ?)]; [by left|right; exists j'; set_solver].
    + destruct IH as [-> Hf]. split; [done|]. intros j' [->|?]%elem_of_cons; auto.
Qed.

Lemma Status_next s order : NextWakeAt (Status s order) = earliestRun s order.
Proof.
  unfold Status, earliestRun; simpl. generalize (@None time). induction (ranged s order) as [|[p j] l IH]; intros acc; [done|].
  simpl. rewrite IH. f_equal. unfold earlier. simpl. by destruct (job_Enabled j).
Qed.

(** ** Properties *)

(** A wake-up at [now] fires exactly the jobs that are enabled and whose next run is
    set and not later than [now], each once, in the order of the map: the bus sees their
    messages and nothing else; each fired job records the outcome of its own publish and
    its next run, other jobs stay as they are, and exactly the one-shot jobs that were
    fired disappear. *)
Theorem fire_due_exact now d order w :
  jobs_wf (svc w) → range_order (cs_jobs (svc w)) order →
  let due := filter (λ pj, is_due now pj.2 = true) (ranged (svc w) order) in
  let w' := fireDueJobs now d order w in
  (∀ p j, (p, j) ∈ due ↔ ∃ id, cs_jobs (svc w) !! id = Some p ∧ cs_heap (svc w) !! p = Some j ∧ is_due now j = true) ∧
  NoDup due.*1 ∧
  bus w' = (publish_all now due.*2 (bus w)).1 ∧
  (∀ i p j err, due !! i = Some (p, j) → (publish_all now due.*2 (bus w)).2 !! i = Some err →
     cs_heap (svc w') !! p = Some (fired_job now j err)) ∧
  (∀ p, p ∉ due.*1 → cs_heap (svc w') !! p = cs_heap (svc w) !! p) ∧
  (∀ id p j, lookup_job (svc w) id = Some (p, j) →
     cs_jobs (svc w') !! id = if is_due now j && one_shot j then None else Some p).
Proof.
  intros Hwf Ho due w'. destruct (due_fires now order w Hwf Ho) as [Hnd Hheap]. fold due in Hnd, Hheap.
  pose proof (fire_all_spec now d due w Hnd Hheap) as Hf.
  change (fold_left (λ w p, fireJob now (d p) p w) due.*1 w) with w' in Hf.
  destruct (publish_all now due.*2 (bus w)) as [b errs]. destruct Hf as (H1 & H2 & H3 & H4 & H5 & H6).
  assert (Hdue : ∀ p j, (p, j) ∈ due ↔ ∃ id, cs_jobs (svc w) !! id = Some p ∧ cs_heap (svc w) !! p = Some j ∧ is_due now j = true).
  { intros p j. unfold due. rewrite list_elem_of_filter, ranged_elem. simpl. split.
    - intros (? & id & _ & ? & ?). eauto.
    - intros (id & ? & ? & ?). split; [done|]. exists id. split_and!; [|done..].
      apply (range_order_elem _ _ _ Ho). eauto. }
  split_and!; [done..|]. intros id p j [Hp Hj]%lookup_job_Some.
  destruct (Hwf _ _ Hp) as (j' & Hj' & Hid). assert (j' = j) as -> by congruence.
  destruct (is_due now j) eqn:Hd; simpl.
  - destruct (one_shot j) eqn:Hos; [rewrite <- Hid; apply (H6 p j); [|done]; apply Hdue; eauto|].
    rewrite H5; [done|]. intros p2 j2 (id2 & Hp2 & Hj2 & _)%Hdue Hos2 Heq.
    destruct (Hwf _ _ Hp2) as (j3 & ? & ?). assert (id2 = id) as -> by congruence. congruence.
  - rewrite H5; [done|]. intros p2 j2 (id2 & Hp2 & Hj2 & Hd2)%Hdue Hos2 Heq.
    destruct (Hwf _ _ Hp2) as (j3 & ? & ?). assert (id2 = id) as -> by congruence. congruence.
Qed.

(** No job fires twice for one wake-up: after the due jobs were fired at [now] none is
    due at [now] any more, provided intervals are positive and cron schedules move
    forward; an "at" job whose time has come gets no next run at all. *)
Theorem nothing_due_after_firing now d order w :
  jobs_wf (svc w) → range_order (cs_jobs (svc w)) order → schedules_advance → now ≠ time_zero →
  (∀ p j i, cs_heap (svc w) !! p = Some j → job_Schedule j = ScheduleEvery i → 0 < i) →
  let w' := fireDueJobs now d order w in
  ∀ id p j, lookup_job (svc w') id = Some (p, j) →
    is_due now j = false ∧
    (∀ j0 t, lookup_job (svc w) id = Some (p, j0) → is_due now j0 = true → job_Schedule j0 = ScheduleAt t → t ≤ now →
       NextRunAt (job_State j) = time_zero).
Proof.
  intros Hwf Ho Hadv Hnow Hint w' id p j [Hp Hj]%lookup_job_Some.
  set (due := filter (λ pj, is_due now pj.2 = true) (ranged (svc w) order)).
  destruct (due_fires now order w Hwf Ho) as [Hnd Hheap]. fold due in Hnd, Hheap.
  pose proof (fire_all_spec now d due w Hnd Hheap) as Hf.
  change (fold_left (λ w p, fireJob now (d p) p w) due.*1 w) with w' in Hf.
  destruct (publish_all now due.*2 (bus w)) as [b errs]. destruct Hf as (_ & H2 & H3 & H4 & H5 & H6).
  assert (Hdue : ∀ id p j, cs_jobs (svc w) !! id = Some p → cs_heap (svc w) !! p = Some j → is_due now j = true → (p, j) ∈ due).
  { intros id1 p1 j1 Hp1 Hj1 Hd1. apply list_elem_of_filter. split; [done|]. apply ranged_elem. exists id1.
    split_and!; [|done..]. apply (range_order_elem _ _ _ Ho). eauto. }
  assert (Hp0 : cs_jobs (svc w) !! id = Some p).
  { destruct (decide (Exists (λ pj, job_ID pj.2 = id ∧ one_shot pj.2 = true) due)) as [Hex|Hnex].
    - apply Exists_exists in Hex as ([p2 j2] & Hin & Heq & Ho2). simpl in *. rewrite <- Heq, (H6 _ _ Hin Ho2) in Hp. done.
    - rewrite H5 in Hp; [done|]. intros p2 j2 Hin Ho2 Heq. apply Hnex, Exists_exists. by exists (p2, j2). }
  destruct (Hwf _ _ Hp0) as (j0 & Hj0 & Hid0).
  destruct (is_due now j0) eqn:Hd0.
  - pose proof (Hdue _ _ _ Hp0 Hj0 Hd0) as Hin. apply list_elem_of_lookup in Hin as [i Hi].
    destruct (lookup_lt_is_Some_2 errs i) as [err He]; [rewrite H2; by eapply lookup_lt_Some|].
    rewrite (H3 _ _ _ _ Hi He) in Hj. simplify_eq.
    destruct (one_shot j0) eqn:Hos.
    { apply list_elem_of_lookup_2 in Hi. by rewrite (H6 _ _ Hi Hos) in Hp. }
    destruct (fired_job_later now j0 err Hadv Hnow) as [?|Hl]; [by eauto|congruence|]. split; [done|].
    intros j1 t [_ Hj1]%lookup_job_Some _ Hs Ht. assert (j1 = j0) as -> by congruence.
    unfold fired_job. unfold one_shot in Hos |- *. simpl. rewrite Hos. simpl.
    unfold ComputeNextRun, After; simpl. rewrite Hs. by rewrite (proj2 (Z.ltb_ge _ _) Ht).
  - rewrite H4 in Hj.
    + simplify_eq. split; [done|]. intros j1 t [_ ?]%lookup_job_Some Hd1. congruence.
    + intros ([p1 j1] & Heq & Hin)%list_elem_of_fmap. simpl in Heq. subst p1.
      pose proof (Hheap _ _ Hin). apply list_elem_of_filter in Hin as [Hd1 _]. simpl in *. congruence.
Qed.

(** The loop wakes in time: the earliest run is the least next run of the enabled jobs
    that have one, the status reports the same instant, and the loop never sleeps past
    the run of an enabled job. *)
Theorem earliest_run_is_least s order now :
  range_order (cs_jobs s) order →
  match earliestRun s order with
  | Some t => (∃ id p j, lookup_job s id = Some (p, j) ∧ waits j = true ∧ NextRunAt (job_State j) = t) ∧
      ∀ id p j, lookup_job s id = Some (p, j) → waits j = true → t ≤ NextRunAt (job_State j) ∧
        now + sleep_time s order now ≤ Z.max now (NextRunAt (job_State j))
  | None => ∀ id p j, lookup_job s id = Some (p, j) → waits j = false
  end ∧ NextWakeAt (Status s order) = earliestRun s order.
Proof.
  intros Ho. split; [|apply Status_next]. unfold sleep_time, earliestRun.
  assert (Hin : ∀ j, j ∈ (ranged s order).*2 ↔ ∃ id p, lookup_job s id = Some (p, j)).
  { intros j. rewrite list_elem_of_fmap. setoid_rewrite lookup_job_Some. split.
    - intros ([p j'] & -> & (id & _ & ? & ?)%ranged_elem). eauto.
    - intros (id & p & Hp & Hj). exists (p, j). split; [done|]. apply ranged_elem. exists id.
      split_and!; [|done..]. apply (range_order_elem _ _ _ Ho). eauto. }
  pose proof (earlier_spec (ranged s order).*2 None) as He.
  destruct (fold_left earlier (ranged s order).*2 None) as [t|].
  - destruct He as ([?|(j & (id & p & ?)%Hin & ? & ?)] & H2 & _); [done|]. split; [eauto 6|].
    intros id' p' j' Hl Hw. assert (t ≤ NextRunAt (job_State j')) by (apply H2; [apply Hin; eauto|done]).
    split; [done|]. unfold time_sub. unfold min_int64, max_int64. lia.
  - destruct He as [_ He]. intros id p j Hl. apply He, Hin. eauto.
Qed.
End cron.

(** ** Witnesses *)

(** A store that accepts everything and a bus that records. *)
#[local] Instance w_cron_store : SchedulerStore unit :=
  {| st_SaveJob _ s := (s, None); st_ListJobs _ _ := Ok []; st_DeleteJob _ s := (s, None);
     st_UpdateJobState _ _ s := (s, None); st_LogExecution _ s := (s, None) |}.
#[local] Instance w_cron_bus : InboundBus (list InboundMessage) :=
  {| bus_PublishInbound m l := (l ++ [m], None) |}.

Definition w_job (id : string) (sch : CronSchedule) (next : time) (once : bool) : CronJob :=
  {| job_ID := id; job_TenantID := "t"; job_UserID := "u"; job_Name := id; job_Enabled := true;
     job_Schedule := sch; job_Message := id; job_Channel := "c"; job_ChatID := "h"; job_DeleteAfterRun := once;
     job_State := {| NextRunAt := next; LastRunAt := 0; LastStatus := ""; LastError := "" |}; job_CreatedAt := 1 |}.

Definition w_svc : CronService :=
  {| cs_jobs := <["a" := 0%nat]> (<["b" := 1%nat]> {[ "c"%string := 2%nat ]});
     cs_heap := <[0%nat := w_job "a" (ScheduleEvery 10) 100 false]>
       (<[1%nat := w_job "b" (ScheduleAt 90) 90 true]> {[ 2%nat := w_job "c" (ScheduleCron "* * * * *" "") 160 false ]});
     cs_wake := false; cs_running := true |}.
Definition w_world : @world unit (list InboundMessage) := {| svc := w_svc; store := tt; bus := [] |}.
Definition w_jobs_order : list string := (map_to_list (cs_jobs w_svc)).*1.
Definition w_next (s : Z) (l : unit) (t : time) : time := t + 1.
Definition w_fire := fireDueJobs tt (λ _, None) (λ _, Some 1) w_next 100 (λ _, 5) w_jobs_order w_world.

Lemma w_svc_wf : jobs_wf w_svc.
Proof.
  intros id p Hp. unfold w_svc in *. simpl in Hp.
  apply lookup_insert_Some in Hp as [[<- <-]|[_ Hp]]; [by eexists|].
  apply lookup_insert_Some in Hp as [[<- <-]|[_ Hp]]; [by eexists|].
  apply lookup_singleton_Some in Hp as [<- <-]. by eexists.
Qed.

(** Jobs a and b are due at 100, the one-shot b disappears. *)
Lemma fire_due_exact_witness :
  length (bus w_fire) = 2%nat ∧ cs_jobs (svc w_fire) !! "b"%string = None.
Proof.
  split; [by vm_compute|].
  destruct (fire_due_exact tt (λ _, None) (λ _, Some 1) w_next 100 (λ _, 5) w_jobs_order w_world)
    as (_ & _ & _ & _ & _ & H); [exact w_svc_wf|unfold range_order, w_jobs_order; reflexivity|].
  exact (H "b"%string 1%nat (w_job "b" (ScheduleAt 90) 90 true) eq_refl).
Defined.

Lemma nothing_due_after_firing_witness :
  ∃ j, lookup_job (svc w_fire) "a" = Some (0%nat, j) ∧ is_due 100 j = false.
Proof.
  eexists. split; [by vm_compute|].
  refine (proj1 (nothing_due_after_firing tt (λ _, None) (λ _, Some 1) w_next 100 (λ _, 5) w_jobs_order w_world
    w_svc_wf _ _ _ _ "a"%string 0%nat _ _));
    [unfold range_order, w_jobs_order; reflexivity|intros s l t; right; unfold w_next; lia|done| |by vm_compute].
  intros p j i Hp Hs. simpl in Hp.
  apply lookup_insert_Some in Hp as [[_ <-]|[_ Hp]]; [simpl in Hs; injection Hs as <-; done|].
  apply lookup_insert_Some in Hp as [[_ <-]|[_ Hp]]; [done|].
  by apply lookup_singleton_Some in Hp as [_ <-].
Defined.

Lemma earliest_run_is_least_witness :
  NextWakeAt (Status w_svc w_jobs_order) = Some 90.
Proof.
  transitivity (earliestRun w_svc w_jobs_order); [|by vm_compute].
  apply (proj2 (earliest_run_is_least w_svc w_jobs_order 100 ltac:(unfold range_order, w_jobs_order; reflexivity))).
Defined.
