(* ===== verification/Jsonl.v ===== *)
(** [pkg/session/jsonl_store.go]: the session service that keeps every session in a file
    of JSON lines next to the in-memory service of the ADK.

    A file is the list of its lines, without the line feeds; it is known by its
    directory and its name, as the application, user and session names are taken to be
    plain path components.  The in-memory service ([InMemory]) and the JSON coding
    ([JsonCodec]) are interfaces with the laws the code relies on: what was encoded is
    decoded again, a metadata line read as an event shows its own type, and encoded
    lines are not empty.  A disk fault is an argument of the operations that write. *)
From S2P Require Import Prelude GoStrings.

Definition DefaultCompactThreshold : Z := 10 * 1024 * 1024.
Definition DefaultCompactKeepEvents : Z := 200.

Record skey := { k_App : string; k_User : string; k_ID : string }.
#[global] Instance skey_eq_dec : EqDecision skey.
Proof. solve_decision. Defined.

(** An ADK event; [je_rest] is what the store does not write. *)
Record JEvent (C : Type) := {
  je_ID : string; je_Timestamp : time; je_InvocationID : string; je_Author : string; je_Branch : string;
  je_Content : option C; je_TurnComplete : bool; je_Partial : bool; je_rest : nat;
}.
Arguments Build_JEvent {C} _ _ _ _ _ _ _ _ _.
Arguments je_ID {C} _. Arguments je_Timestamp {C} _. Arguments je_InvocationID {C} _. Arguments je_Author {C} _.
Arguments je_Branch {C} _. Arguments je_Content {C} _. Arguments je_TurnComplete {C} _. Arguments je_Partial {C} _.
Arguments je_rest {C} _.

Record metadataRecord (ST : Type) := {
  mr_Type : string; mr_App : string; mr_User : string; mr_Session : string; mr_CreatedAt : time; mr_State : ST;
}.
Arguments Build_metadataRecord {ST} _ _ _ _ _ _.
Arguments mr_Type {ST} _. Arguments mr_App {ST} _. Arguments mr_User {ST} _. Arguments mr_Session {ST} _.
Arguments mr_CreatedAt {ST} _. Arguments mr_State {ST} _.

(** [er_Content] is the raw JSON, empty for no content. *)
Record eventRecord := {
  er_Type : string; er_ID : string; er_Timestamp : time; er_InvocationID : string; er_Author : string;
  er_Branch : string; er_Content : string; er_TurnComplete : bool; er_Partial : bool;
}.

(** The ADK's in-memory service; [None] is an error. *)
Class InMemory (I ST C : Type) := {
  in_Create : skey → ST → I → option I;
  in_Append : skey → JEvent C → I → option I;
  in_Delete : skey → I → option I;
  in_events : skey → I → option (list (JEvent C));
}.

Class InMemoryLaws (I ST C : Type) `{InMemory I ST C} := {
  create_fresh k st i i' : in_Create k st i = Some i' → in_events k i = None ∧ in_events k i' = Some [];
  create_total k st i : in_events k i = None → is_Some (in_Create k st i);
  create_others k st i i' k' : in_Create k st i = Some i' → k' ≠ k → in_events k' i' = in_events k' i;
  append_known k e i i' : in_Append k e i = Some i' → is_Some (in_events k i);
  append_adds k e i i' evs : in_Append k e i = Some i' → in_events k i = Some evs →
    in_events k i' = Some (if je_Partial e then evs else evs ++ [e]);
  append_total k e i : is_Some (in_events k i) → is_Some (in_Append k e i);
  append_others k e i i' k' : in_Append k e i = Some i' → k' ≠ k → in_events k' i' = in_events k' i;
  delete_gone k i i' : in_Delete k i = Some i' → in_events k i' = None;
  delete_others k i i' k' : in_Delete k i = Some i' → k' ≠ k → in_events k' i' = in_events k' i;
}.

Class JsonCodec (ST C : Type) := {
  enc_meta : metadataRecord ST → string; dec_meta : string → option (metadataRecord ST);
  enc_event : eventRecord → string; dec_event : string → option eventRecord;
  enc_content : C → string; dec_content : string → option C;
}.

Class JsonLaws (ST C : Type) `{JsonCodec ST C} := {
  dec_enc_meta m : dec_meta (enc_meta m) = Some m;
  dec_enc_event r : dec_event (enc_event r) = Some r;
  dec_enc_content c : dec_content (enc_content c) = Some c;
  meta_as_event m : ∃ r, dec_event (enc_meta m) = Some r ∧ er_Type r = mr_Type m;
  enc_meta_nonempty m : enc_meta m ≠ ""%string;
  enc_event_nonempty r : enc_event r ≠ ""%string;
  enc_content_real c : enc_content c ≠ ""%string ∧ enc_content c ≠ "null"%string;
}.

Section jsonl.
Context {I ST C : Type} `{InMemory I ST C} `{JsonCodec ST C}.

Abbreviation path := (string * string)%type (only parsing).

Record JSONLService := {
  js_inner : I; js_files : gmap path (list string); compactThreshold : Z; compactKeep : Z;
}.

Definition with_inner (s : JSONLService) (i : I) : JSONLService :=
  {| js_inner := i; js_files := js_files s; compactThreshold := compactThreshold s; compactKeep := compactKeep s |}.
Definition with_files (s : JSONLService) (f : gmap path (list string)) : JSONLService :=
  {| js_inner := js_inner s; js_files := f; compactThreshold := compactThreshold s; compactKeep := compactKeep s |}.

Definition sessionPath (k : skey) : path := (k_App k, k_User k +:+ "_" +:+ k_ID k +:+ ".jsonl").

(** Append one line, creating the file when it is not there. *)
Definition appendLine (p : path) (line : string) (s : JSONLService) : JSONLService :=
  with_files s (<[p := default [] (js_files s !! p) ++ [line]]> (js_files s)).

Definition meta_of (now : time) (k : skey) (st : ST) : metadataRecord ST :=
  {| mr_Type := "metadata"; mr_App := k_App k; mr_User := k_User k; mr_Session := k_ID k;
     mr_CreatedAt := now; mr_State := st |}.

(** The second component is [false] on an error; [fault] is a failing write. *)
Definition Create (now : time) (k : skey) (st : ST) (fault : bool) (s : JSONLService) : JSONLService * bool :=
  match in_Create k st (js_inner s) with
  | None => (s, false)
  | Some i =>
      let s := with_inner s i in
      if fault then (s, false) else (appendLine (sessionPath k) (enc_meta (meta_of now k st)) s, true)
  end.

Definition Delete (k : skey) (fault : bool) (s : JSONLService) : JSONLService * bool :=
  match in_Delete k (js_inner s) with
  | None => (s, false)
  | Some i =>
      let s := with_inner s i in
      if fault then (s, false) else (with_files s (delete (sessionPath k) (js_files s)), true)
  end.

Definition record_of (e : JEvent C) : eventRecord :=
  {| er_Type := "event"; er_ID := je_ID e; er_Timestamp := je_Timestamp e; er_InvocationID := je_InvocationID e;
     er_Author := je_Author e; er_Branch := je_Branch e;
     er_Content := match je_Content e with Some c => enc_content c | None => "" end;
     er_TurnComplete := je_TurnComplete e; er_Partial := je_Partial e |}.

(** The size of a file: its lines with their line feeds. *)
Definition file_size (lines : list string) : Z := sum_of (λ l, Z.of_nat (String.length l) + 1) lines.

(** The lines [compact] keeps: the first and the last [keep]. *)
Definition compact_lines (keep : Z) (lines : list string) : list string :=
  let keep := if keep <=? 0 then DefaultCompactKeepEvents else keep in
  if Z.of_nat (length lines) <=? keep + 1 then lines
  else match lines with
       | [] => []
       | meta :: _ => meta :: drop (length lines - Z.to_nat keep) lines
       end.

Definition maybeCompact (p : path) (s : JSONLService) : JSONLService :=
  let threshold := if compactThreshold s <=? 0 then DefaultCompactThreshold else compactThreshold s in
  match js_files s !! p with
  | None => s
  | Some lines =>
      if file_size lines <? threshold then s
      else with_files s (<[p := compact_lines (compactKeep s) lines]> (js_files s))
  end.

Definition AppendEvent (k : skey) (e : JEvent C) (fault : bool) (s : JSONLService) : JSONLService * bool :=
  match in_Append k e (js_inner s) with
  | None => (s, false)
  | Some i =>
      let s := with_inner s i in
      if je_Partial e then (s, true)
      else if fault then (s, false)
      else (maybeCompact (sessionPath k) (appendLine (sessionPath k) (enc_event (record_of e)) s), true)
  end.

(** ** Loading *)

Definition event_of (r : eventRecord) : option (JEvent C) :=
  c ← (if str_empty (er_Content r) || bool_decide (er_Content r = "null"%string) then Some None
       else Some <$> dec_content (er_Content r));
  Some {| je_ID := er_ID r; je_Timestamp := er_Timestamp r; je_InvocationID := er_InvocationID r;
          je_Author := er_Author r; je_Branch := er_Branch r; je_Content := c;
          je_TurnComplete := er_TurnComplete r; je_Partial := er_Partial r; je_rest := 0 |}.

(** The scanner's buffer: a line that does not fit with its line feed ends the scan. *)
Definition max_line : Z := 10 * 1024 * 1024.
Definition too_long (line : string) : bool := max_line <=? Z.of_nat (String.length line).

(** [loadEvents]; [None] is an error, such as the scanner's for a line too long. *)
Fixpoint loadEvents (k : skey) (lines : list string) (i : I) : option I :=
  match lines with
  | [] => Some i
  | line :: lines =>
      if too_long line then None
      else if str_empty line then loadEvents k lines i
      else
        r ← dec_event line;
        if negb (bool_decide (er_Type r = "event"%string)) then loadEvents k lines i
        else
          e ← event_of r;
          i ← in_Append k e i;
          loadEvents k lines i
  end.

Definition loadFile (lines : list string) (i : I) : option I :=
  match lines with
  | [] => Some i
  | line :: lines =>
      if too_long line then Some i       (* [!scanner.Scan()]: taken for an empty file *)
      else
        meta ← dec_meta line;
        if negb (bool_decide (mr_Type meta = "metadata"%string)) then None
        else
          let k := {| k_App := mr_App meta; k_User := mr_User meta; k_ID := mr_Session meta |} in
          i ← in_Create k (mr_State meta) i;
          loadEvents k lines i
  end.

(** [loadAll] over the files in the order of the directories; all of them end in ".jsonl". *)
Fixpoint loadAll (files : list (list string)) (i : I) : option I :=
  match files with
  | [] => Some i
  | lines :: files => i ← loadFile lines i; loadAll files i
  end.

(** ** Histories *)

Inductive js_op := JCreate (now : time) (k : skey) (st : ST) | JAppend (k : skey) (e : JEvent C) | JDelete (k : skey).


(** A call without a disk fault. *)
Definition js_step (s : JSONLService) (o : js_op) : JSONLService :=
  match o with
  | JCreate now k st => (Create now k st false s).1
  | JAppend k e => (AppendEvent k e false s).1
  | JDelete k => (Delete k false s).1
  end.

Definition js_empty (i0 : I) (threshold keep : Z) : JSONLService :=
  {| js_inner := i0; js_files := ∅; compactThreshold := threshold; compactKeep := keep |}.

(** ** Lemmas *)

Context `{!InMemoryLaws I ST C} `{!JsonLaws ST C}.

(** What survives a restart of an event. *)
Definition restored (e : JEvent C) : JEvent C :=
  {| je_ID := je_ID e; je_Timestamp := je_Timestamp e; je_InvocationID := je_InvocationID e;
     je_Author := je_Author e; je_Branch := je_Branch e; je_Content := je_Content e;
     je_TurnComplete := je_TurnComplete e; je_Partial := je_Partial e; je_rest := 0 |}.






Lemma event_of_record e : event_of (record_of e) = Some (restored e).
Proof.
  unfold event_of, record_of, restored. simpl. destruct (je_Content e) as [c|]; [|done].
  destruct (enc_content_real c) as [H1' H2']. unfold str_empty.
  rewrite !bool_decide_eq_false_2 by done. simpl. by rewrite dec_enc_content.
Qed.











(** ** Properties *)


(** Two sessions can share a file: session [c] of user [a_b] and session [b_c] of user
    [a] do.  After a restart the events of the second are in the first, and the second is
    gone; deleting the second deletes the file of the first. *)
Theorem session_files_collide i0 threshold keep now st1 st2 e :
  (∀ k, in_events k i0 = None) → 0 < threshold → je_Partial e = false →
  let k1 := {| k_App := "app"; k_User := "a_b"; k_ID := "c" |} in
  let k2 := {| k_App := "app"; k_User := "a"; k_ID := "b_c" |} in
  let s := fold_left js_step [JCreate now k1 st1; JCreate now k2 st2; JAppend k2 e] (js_empty i0 threshold keep) in
  let lines := [enc_meta (meta_of now k1 st1); enc_meta (meta_of now k2 st2); enc_event (record_of e)] in
  file_size lines < threshold → Forall (λ l, too_long l = false) lines →
  in_events k1 (js_inner s) = Some [] ∧ in_events k2 (js_inner s) = Some [e] ∧
  js_files s = {[ sessionPath k1 := lines ]} ∧
  (∃ i', loadAll [lines] i0 = Some i' ∧ in_events k1 i' = Some [restored e] ∧ in_events k2 i' = None) ∧
  (∀ i, in_Delete k2 (js_inner s) = Some i → js_files (js_step s (JDelete k2)) = ∅).
Proof.
  intros Hi0 Hth Hp k1 k2 s lines Hsize Hlong.
  assert (Hne : k2 ≠ k1) by done. assert (Hpath : sessionPath k2 = sessionPath k1) by done.
  destruct (create_total k1 st1 i0 (Hi0 k1)) as [i1 Hi1].
  destruct (create_fresh _ _ _ _ Hi1) as [_ E1].
  assert (Hk2 : in_events k2 i1 = None) by (rewrite (create_others _ _ _ _ k2 Hi1 Hne); apply Hi0).
  destruct (create_total k2 st2 i1 Hk2) as [i2 Hi2]. destruct (create_fresh _ _ _ _ Hi2) as [_ E2].
  destruct (append_total k2 e i2) as [i3 Hi3]; [eauto|].
  pose proof (append_adds _ _ _ _ _ Hi3 E2) as E3. rewrite Hp in E3. simpl in E3.
  assert (Hs : s = {| js_inner := i3; js_files := {[ sessionPath k1 := lines ]};
                      compactThreshold := threshold; compactKeep := keep |}).
  { subst s. cbn [fold_left js_step]. unfold Create at 2, js_empty. cbn [js_inner]. rewrite Hi1. cbn [fst].
    unfold appendLine, with_inner, with_files. cbn. unfold Create. cbn [js_inner]. rewrite Hi2. cbn [fst].
    unfold appendLine, with_inner, with_files. cbn -[sessionPath]. rewrite Hpath, insert_empty, lookup_singleton_eq.
    unfold AppendEvent. cbn [js_inner]. rewrite Hi3, Hp. cbn -[sessionPath]. rewrite Hpath.
    unfold maybeCompact, appendLine, with_inner, with_files. cbn -[sessionPath file_size].
    rewrite insert_singleton_eq, !lookup_singleton_eq, insert_singleton_eq, lookup_singleton_eq.
    cbn -[sessionPath file_size]. rewrite lookup_empty.
    match goal with |- context [file_size ?l] => change l with lines end.
    destruct (Z.leb_spec threshold 0); [lia|]. by rewrite (proj2 (Z.ltb_lt _ _) Hsize). }
  rewrite Hs. cbn [js_inner js_files]. split_and!.
  - rewrite (append_others _ _ _ _ k1 Hi3) by done. by rewrite (create_others _ _ _ _ k1 Hi2).
  - done.
  - done.
  - unfold lines in Hlong. rewrite !Forall_cons in Hlong. destruct Hlong as (Hl1 & Hl2 & Hl3 & _).
    cbn [loadAll]. unfold loadFile, lines. rewrite Hl1, dec_enc_meta. cbn [mbind option_bind].
    rewrite bool_decide_eq_true_2 by done. cbn [negb].
    change ({| k_App := _; k_User := _; k_ID := _ |}) with k1. change (mr_State _) with st1.
    rewrite Hi1. cbn [mbind option_bind loadEvents]. rewrite Hl2, Hl3.
    unfold str_empty. rewrite bool_decide_eq_false_2 by apply enc_meta_nonempty.
    destruct (meta_as_event (meta_of now k2 st2)) as (r & Hr & Ht). rewrite Hr. cbn [mbind option_bind].
    rewrite bool_decide_eq_false_2 by (rewrite Ht; done). cbn [negb].
    rewrite bool_decide_eq_false_2 by apply enc_event_nonempty. rewrite dec_enc_event. cbn [mbind option_bind].
    rewrite bool_decide_eq_true_2 by done. cbn [negb]. rewrite event_of_record. cbn [mbind option_bind].
    destruct (append_total k1 (restored e) i1) as [i4 Hi4]; [eauto|]. rewrite Hi4. cbn [mbind option_bind].
    exists i4. split_and!; [done| |by rewrite (append_others _ _ _ _ k2 Hi4)].
    rewrite (append_adds _ _ _ _ _ Hi4 E1). simpl. by rewrite Hp.
  - intros i Hi. cbn [js_step]. unfold Delete. cbn [js_inner]. rewrite Hi. cbn -[sessionPath]. rewrite Hpath.
    apply delete_singleton_eq.
Qed.
End jsonl.

(** ** An instance, for the witnesses: a map in memory and a coding by numbers in binary *)

Module MemJson.

#[global] Instance skey_countable : Countable skey.
Proof.
  refine (inj_countable' (λ k, (k_App k, k_User k, k_ID k)) (λ t, {| k_App := t.1.1; k_User := t.1.2; k_ID := t.2 |}) _).
  by intros [].
Defined.

#[global] Instance mem : InMemory (gmap skey (list (JEvent unit))) unit unit := {
  in_Create k _ i := match i !! k with Some _ => None | None => Some (<[k := []]> i) end;
  in_Append k e i := match i !! k with
                     | Some evs => Some (<[k := if je_Partial e then evs else evs ++ [e]]> i)
                     | None => None
                     end;
  in_Delete k i := Some (delete k i);
  in_events k i := i !! k;
}.

#[global] Instance mem_laws : InMemoryLaws (gmap skey (list (JEvent unit))) unit unit.
Proof.
  split; simpl.
  - intros k st i i'. destruct (i !! k); intros [= <-]. split; [done|apply lookup_insert_eq].
  - intros k st i ->. eauto.
  - intros k st i i' k' Hc Hne. destruct (i !! k); simplify_eq. by rewrite lookup_insert_ne.
  - intros k e i i'. destruct (i !! k); [eauto|done].
  - intros k e i i' evs Ha Hk. rewrite Hk in Ha. simplify_eq. by rewrite lookup_insert_eq.
  - intros k e i [evs ->]. eauto.
  - intros k e i i' k' Ha Hne. destruct (i !! k); simplify_eq. by rewrite lookup_insert_ne.
  - intros k i i' [= <-]. apply lookup_delete_eq.
  - intros k i i' k' [= <-] Hne. by rewrite lookup_delete_ne.
Qed.

Fixpoint pos_str (p : positive) : string :=
  match p with xH => "" | xO p => String "0" (pos_str p) | xI p => String "1" (pos_str p) end.
Fixpoint str_pos (s : string) : positive :=
  match s with "" => xH | String "0" s => xO (str_pos s) | String _ s => xI (str_pos s) end.

Lemma str_pos_str p : str_pos (pos_str p) = p.
Proof. by induction p as [p IH|p IH|]; simpl; rewrite ?IH. Qed.

Definition event_tuple (r : eventRecord) :=
  (er_Type r, er_ID r, er_Timestamp r, er_InvocationID r, er_Author r, er_Branch r, er_Content r, er_TurnComplete r, er_Partial r).
Definition event_untuple (t : string * string * Z * string * string * string * string * bool * bool) : eventRecord :=
  let '(a, b, c, d, e, f, g, h, i) := t in
  {| er_Type := a; er_ID := b; er_Timestamp := c; er_InvocationID := d; er_Author := e; er_Branch := f;
     er_Content := g; er_TurnComplete := h; er_Partial := i |}.
Definition meta_tuple (m : metadataRecord unit) := (mr_Type m, mr_App m, mr_User m, mr_Session m, mr_CreatedAt m).
Definition meta_untuple (t : string * string * string * string * Z) : metadataRecord unit :=
  let '(a, b, c, d, e) := t in
  {| mr_Type := a; mr_App := b; mr_User := c; mr_Session := d; mr_CreatedAt := e; mr_State := tt |}.

Definition decode_as {A} `{Countable A} (s : string) : option A := decode (str_pos s).

#[global] Instance codec : JsonCodec unit unit := {
  enc_meta m := String "M" (pos_str (encode (meta_tuple m)));
  dec_meta s := match s with String "M" s => meta_untuple <$> decode_as s | _ => None end;
  enc_event r := String "E" (pos_str (encode (event_tuple r)));
  dec_event s := match s with
                 | String "E" s => event_untuple <$> decode_as s
                 | String "M" s => t ← decode_as s; let m := meta_untuple t in
                     Some {| er_Type := mr_Type m; er_ID := ""; er_Timestamp := 0; er_InvocationID := ""; er_Author := "";
                             er_Branch := ""; er_Content := ""; er_TurnComplete := false; er_Partial := false |}
                 | _ => None
                 end;
  enc_content _ := "{}"; dec_content _ := Some tt;
}.

Lemma decode_as_encode {A} `{Countable A} (x : A) : decode_as (pos_str (encode x)) = Some x.
Proof. unfold decode_as. by rewrite str_pos_str, decode_encode. Qed.

#[global] Instance codec_laws : JsonLaws unit unit.
Proof.
  split.
  - intros m. change (meta_untuple <$> decode_as (pos_str (encode (meta_tuple m))) = Some m).
    rewrite decode_as_encode. by destruct m as [????? []].
  - intros r. change (event_untuple <$> decode_as (pos_str (encode (event_tuple r))) = Some r).
    rewrite decode_as_encode. by destruct r.
  - by intros [].
  - intros m. change (dec_event (enc_meta m)) with (t ← decode_as (pos_str (encode (meta_tuple m))); let m := meta_untuple t in
      Some {| er_Type := mr_Type m; er_ID := ""; er_Timestamp := 0; er_InvocationID := ""; er_Author := "";
              er_Branch := ""; er_Content := ""; er_TurnComplete := false; er_Partial := false |}).
    rewrite decode_as_encode. eexists. split; [done|]. by destruct m.
  - done.
  - done.
  - done.
Qed.

Definition k1 : skey := {| k_App := "a"; k_User := "u"; k_ID := "s" |}.
Definition ev (id : string) (rest : nat) : JEvent unit :=
  {| je_ID := id; je_Timestamp := 1; je_InvocationID := ""; je_Author := "m"; je_Branch := ""; je_Content := Some tt;
     je_TurnComplete := true; je_Partial := false; je_rest := rest |}.
End MemJson.


Lemma session_files_collide_witness :
  let e := MemJson.ev "1" 0 in
  let k1 := {| k_App := "app"; k_User := "a_b"; k_ID := "c" |} in
  let k2 := {| k_App := "app"; k_User := "a"; k_ID := "b_c" |} in
  let s := fold_left js_step [JCreate 5 k1 tt; JCreate 5 k2 tt; JAppend k2 e] (js_empty ∅ 100000 0) in
  in_events k1 (js_inner s) = Some [].
Proof.
  refine (proj1 (session_files_collide ∅ 100000 0 5 tt tt (MemJson.ev "1" 0) _ _ _ _ _));
    [intros k; apply lookup_empty|done|done|by vm_compute|refine (bool_decide_unpack _ _); by vm_compute].
Defined.
