(* ===== verification/Paths.v ===== *)
(** Go's [path/filepath] on Unix, as far as the tools use it: [IsAbs], [Clean], [Join],
    [Abs] and [Dir], with the lemmas that relate a clean absolute path to the list of its
    components. *)
From S2P Require Import Prelude GoStrings.

Definition slash : ascii := "/"%char.
Definition dot : bytes := s2l ".".
Definition dotdot : bytes := s2l "..".

Definition parts (s : string) : list bytes := split_bytes slash [] (s2l s).

(** The components joined by slashes. *)
Fixpoint join_parts (l : list bytes) : bytes :=
  match l with
  | [] => []
  | [c] => c
  | c :: l => c ++ slash :: join_parts l
  end.

Definition IsAbs (s : string) : bool :=
  match s2l s with c :: _ => Ascii.eqb c slash | [] => false end.

(** One element of the path; [stack] holds the elements kept so far, last first. *)
Definition clean_step (rooted : bool) (stack : list bytes) (c : bytes) : list bytes :=
  if bool_decide (c = [] ∨ c = dot) then stack
  else if bool_decide (c = dotdot) then
    match stack with
    | top :: rest => if bool_decide (top = dotdot) then c :: stack else rest
    | [] => if rooted then [] else [c]
    end
  else c :: stack.

Definition clean_parts (rooted : bool) (l : list bytes) : list bytes :=
  reverse (foldl (clean_step rooted) [] l).

Definition abs_path (l : list bytes) : string := l2s (slash :: join_parts l).

Definition Clean (s : string) : string :=
  if IsAbs s then abs_path (clean_parts true (parts s))
  else match clean_parts false (parts s) with
       | [] => "."
       | l => l2s (join_parts l)
       end.

(** [filepath.Join]: leading empty elements are skipped; all empty gives the empty string. *)
Fixpoint Join (elem : list string) : string :=
  match elem with
  | [] => ""
  | e :: rest => if str_empty e then Join rest else Clean (join elem "/")
  end.

(** [filepath.Abs] with the working directory, [None] when that cannot be found. *)
Definition Abs (getwd : option string) (path : string) : option string :=
  if IsAbs path then Some (Clean path)
  else wd ← getwd; Some (Join [wd; path]).

(** [filepath.Dir]: what precedes the last slash, cleaned. *)
Definition Dir (path : string) : string :=
  Clean (l2s (drop_while_end (λ c, negb (Ascii.eqb c slash)) (s2l path))).

(** [filepath.Base]. *)
Definition Base (path : string) : string :=
  if str_empty path then "."%string
  else match drop_while_end (Ascii.eqb slash) (s2l path) with
       | [] => "/"%string
       | l => l2s (default [] (last (split_bytes slash [] l)))
       end.

(** ** Components *)

Definition plain (c : bytes) : Prop := c ≠ [] ∧ c ≠ dot ∧ c ≠ dotdot ∧ slash ∉ c.

#[global] Instance plain_dec c : Decision (plain c).
Proof. unfold plain. apply _. Defined.

Lemma split_bytes_nosep sep cur l : sep ∉ l → split_bytes sep cur l = [reverse cur ++ l].
Proof.
  revert cur. induction l as [|c l IH]; intros cur Hl; simpl.
  - by rewrite app_nil_r.
  - destruct (Ascii.eqb_spec c sep) as [->|Hne]; [set_solver|].
    rewrite IH by set_solver. by rewrite reverse_cons, <- app_assoc.
Qed.

Lemma split_bytes_app sep cur a b :
  split_bytes sep cur (a ++ sep :: b) = split_bytes sep cur a ++ split_bytes sep [] b.
Proof.
  revert cur. induction a as [|c a IH]; intros cur; simpl.
  - by rewrite Ascii.eqb_refl.
  - destruct (Ascii.eqb_spec c sep); [by rewrite IH|apply IH].
Qed.

Lemma split_bytes_no_sep sep cur l : sep ∉ cur → Forall (λ c, sep ∉ c) (split_bytes sep cur l).
Proof.
  revert cur. induction l as [|c l IH]; intros cur Hcur; simpl.
  - repeat constructor. by rewrite elem_of_reverse.
  - destruct (Ascii.eqb_spec c sep) as [->|Hne].
    + constructor; [by rewrite elem_of_reverse|]. apply IH. set_solver.
    + apply IH. set_solver.
Qed.

Lemma split_bytes_nonempty sep cur l : split_bytes sep cur l ≠ [].
Proof. revert cur. induction l as [|c l IH]; intros cur; simpl; [done|]. by destruct (Ascii.eqb c sep). Qed.

Lemma parts_join l : l ≠ [] → Forall plain l → split_bytes slash [] (join_parts l) = l.
Proof.
  intros Hl HF. induction HF as [|c l (Hne & _ & _ & Hc) HF IH]; [done|].
  destruct l as [|c' l]; simpl.
  - by rewrite split_bytes_nosep.
  - rewrite split_bytes_app, split_bytes_nosep by done. simpl. f_equal. by apply IH.
Qed.

Lemma join_parts_app l k : l ≠ [] → k ≠ [] → join_parts (l ++ k) = join_parts l ++ slash :: join_parts k.
Proof.
  intros Hl Hk. induction l as [|c l IH]; [done|]. destruct l as [|c' l].
  - by destruct k.
  - change ((c :: c' :: l) ++ k) with (c :: (c' :: l) ++ k).
    change (join_parts (c :: (c' :: l) ++ k)) with (c ++ slash :: join_parts ((c' :: l) ++ k)).
    rewrite IH by done. simpl. by rewrite <- app_assoc.
Qed.

Lemma abs_path_parts l : Forall plain l → l ≠ [] → parts (abs_path l) = [] :: l.
Proof.
  intros HF Hl. unfold parts, abs_path. rewrite s2l_l2s. cbn [split_bytes].
  rewrite Ascii.eqb_refl. cbn [reverse rev_append]. by rewrite parts_join.
Qed.

Lemma abs_path_inj l k : Forall plain l → Forall plain k → abs_path l = abs_path k → l = k.
Proof.
  intros Hl Hk H. unfold abs_path in H. apply (inj l2s) in H. injection H as H.
  destruct (decide (l = [])) as [->|Hl'], (decide (k = [])) as [->|Hk']; [done|..].
  - exfalso. destruct k as [|c [|c' k]]; [done|..]; inversion Hk as [|? ? Hc]; destruct Hc as [Hc _].
    + by simpl in H; subst.
    + simpl in H. by destruct c.
  - exfalso. destruct l as [|c [|c' l]]; [done|..]; inversion Hl as [|? ? Hc]; destruct Hc as [Hc _].
    + by simpl in H; subst.
    + simpl in H. by destruct c.
  - rewrite <- (parts_join l), <- (parts_join k) by done. by rewrite H.
Qed.

(** ** What [Clean] returns *)

Lemma clean_step_plain stack c :
  slash ∉ c → Forall plain stack → Forall plain (clean_step true stack c).
Proof.
  intros Hc HF. unfold clean_step.
  case_bool_decide as H1; [done|]. case_bool_decide as H2.
  - destruct HF as [|top rest Ht HF]; [done|].
    rewrite bool_decide_false; [done|]. by destruct Ht as (_ & _ & ? & _).
  - constructor; [|done]. repeat split; naive_solver.
Qed.

Lemma clean_fold_plain l stack :
  Forall (λ c, slash ∉ c) l → Forall plain stack → Forall plain (foldl (clean_step true) stack l).
Proof.
  intros HF. revert stack. induction HF as [|c l Hc HF IH]; intros stack Hs; simpl; [done|].
  apply IH. by apply clean_step_plain.
Qed.

Lemma clean_parts_plain s : Forall plain (clean_parts true (parts s)).
Proof.
  apply Forall_reverse, clean_fold_plain; [|done]. apply split_bytes_no_sep. set_solver.
Qed.

Lemma Clean_abs s : IsAbs s = true → Clean s = abs_path (clean_parts true (parts s)).
Proof. unfold Clean. by intros ->. Qed.

Lemma IsAbs_abs_path l : IsAbs (abs_path l) = true.
Proof. unfold IsAbs, abs_path. rewrite s2l_l2s. apply Ascii.eqb_refl. Qed.

(** Pushing plain components only grows the stack. *)
Lemma clean_fold_push l stack : Forall plain l → foldl (clean_step true) stack l = reverse l ++ stack.
Proof.
  intros HF. revert stack. induction HF as [|c l (H1 & H2 & H3 & _) HF IH]; intros stack; simpl; [done|].
  unfold clean_step at 2. rewrite (bool_decide_false (c = [] ∨ c = dot)) by naive_solver.
  rewrite bool_decide_false by done. by rewrite IH, reverse_cons, <- app_assoc.
Qed.

Lemma Clean_abs_path l : Forall plain l → Clean (abs_path l) = abs_path l.
Proof.
  intros HF. rewrite Clean_abs by apply IsAbs_abs_path. f_equal. unfold clean_parts.
  destruct (decide (l = [])) as [->|Hl]; [done|].
  rewrite abs_path_parts by done. simpl. unfold clean_step at 2. simpl.
  by rewrite clean_fold_push, app_nil_r, reverse_involutive by done.
Qed.

Lemma parts_slash a b : parts (a +:+ "/" +:+ b) = parts a ++ parts b.
Proof. unfold parts. rewrite !s2l_app. apply split_bytes_app. Qed.

Lemma str_empty_abs l : str_empty (abs_path l) = false.
Proof. unfold str_empty, abs_path. by rewrite bool_decide_false. Qed.

Lemma IsAbs_app a b : IsAbs a = true → IsAbs (a +:+ b) = true.
Proof. unfold IsAbs. rewrite s2l_app. by destruct (s2l a). Qed.

(** Joining a path to a clean absolute one walks from there. *)
Lemma Join_abs l p :
  Forall plain l → Join [abs_path l; p] = abs_path (reverse (foldl (clean_step true) (reverse l) (parts p))).
Proof.
  intros HF. cbn [Join]. rewrite str_empty_abs. cbn [join].
  rewrite Clean_abs by apply IsAbs_app, IsAbs_abs_path. f_equal. unfold clean_parts.
  rewrite parts_slash, foldl_app. do 2 f_equal.
  destruct (decide (l = [])) as [->|Hl]; [done|].
  rewrite abs_path_parts by done. simpl. unfold clean_step at 2. simpl.
  by rewrite clean_fold_push, app_nil_r by done.
Qed.

Lemma walk_plain l p :
  Forall plain l → Forall plain (reverse (foldl (clean_step true) (reverse l) (parts p))).
Proof.
  intros HF. apply Forall_reverse, clean_fold_plain; [apply split_bytes_no_sep; set_solver|].
  by apply Forall_reverse.
Qed.

Lemma Join_plain l p :
  Forall plain l → Forall plain (parts p) → Join [abs_path l; p] = abs_path (l ++ parts p).
Proof.
  intros Hl Hp. rewrite Join_abs, clean_fold_push by done.
  by rewrite reverse_app, !reverse_involutive.
Qed.

Lemma Abs_clean getwd p q :
  (∀ wd, getwd = Some wd → IsAbs wd = true) →
  Abs getwd p = Some q → ∃ l, Forall plain l ∧ q = abs_path l.
Proof.
  intros Hwd. unfold Abs. destruct (IsAbs p) eqn:Hp.
  - intros [= <-]. eexists. split; [apply clean_parts_plain|by apply Clean_abs].
  - destruct getwd as [wd|]; [|done]. simpl. intros [= <-]. specialize (Hwd wd eq_refl).
    destruct (str_empty wd) eqn:He.
    { apply bool_decide_eq_true in He. by subst. }
    eexists. split; [apply clean_parts_plain|]. apply Clean_abs. by apply IsAbs_app.
Qed.

(** ** Being inside a directory *)

(** [strings.HasPrefix(p, root+"/") || p == root]. *)
Definition under (p root : string) : bool := has_prefix p (root +:+ "/") || bool_decide (p = root).

Lemma under_app root k : Forall plain root → root ≠ [] → under (abs_path (root ++ k)) (abs_path root) = true.
Proof.
  intros Hr Hne. unfold under. destruct (decide (k = [])) as [->|Hk].
  - rewrite app_nil_r, (bool_decide_true (_ = _)) by done. apply orb_true_r.
  - apply orb_true_intro. left. unfold has_prefix.
    assert (strip_prefix (s2l (abs_path root +:+ "/")) (s2l (abs_path (root ++ k))) = Some (join_parts k)) as ->; [|done].
    apply strip_prefix_Some. rewrite s2l_app. unfold abs_path. rewrite !s2l_l2s, join_parts_app by done.
    by rewrite <- app_assoc.
Qed.

Lemma under_abs l root :
  Forall plain l → Forall plain root → under (abs_path l) (abs_path root) = true → ∃ k, l = root ++ k.
Proof.
  intros Hl Hr. unfold under. rewrite orb_true_iff. intros [H|H%bool_decide_eq_true].
  2: { exists []. rewrite app_nil_r. by apply abs_path_inj. }
  unfold has_prefix in H. destruct (strip_prefix _ _) as [rest|] eqn:Hs; [clear H|done].
  apply strip_prefix_Some in Hs. rewrite s2l_app in Hs. unfold abs_path in Hs. rewrite !s2l_l2s in Hs.
  injection Hs as Hs. rewrite <- app_assoc in Hs. simpl in Hs.
  assert (l ≠ []) as Hne. { intros ->. by destruct (join_parts root). }
  assert (split_bytes slash [] (join_parts root ++ slash :: rest) = l) as Hsp
    by (change slash with "/"%char; rewrite <- Hs; by apply parts_join).
  rewrite split_bytes_app in Hsp. destruct (decide (root = [])) as [->|Hroot].
  - simpl in Hsp. subst l. inversion Hl as [|? ? Hc]. by destruct Hc.
  - rewrite parts_join in Hsp by done. by eexists.
Qed.

(** ** [Dir] *)

Lemma drop_while_end_app (f : ascii → bool) a x b :
  f x = false → Forall (λ c, f c = true) b → drop_while_end f (a ++ x :: b) = a ++ [x].
Proof.
  intros Hx Hb. unfold drop_while_end. rewrite reverse_app, reverse_cons.
  assert (∀ l k, Forall (λ c, f c = true) l → drop_while f (l ++ k) = drop_while f k) as Hdrop.
  { intros l k. induction 1 as [|c l Hc _ IH]; [done|]. simpl. by rewrite Hc. }
  rewrite <- app_assoc, Hdrop by by apply Forall_reverse.
  simpl. rewrite Hx. by rewrite reverse_cons, reverse_involutive.
Qed.

Lemma Dir_abs_path l c : Forall plain (l ++ [c]) → Dir (abs_path (l ++ [c])) = abs_path l.
Proof.
  intros [Hl (_ & _ & _ & Hc)%Forall_singleton]%Forall_app. unfold Dir.
  assert (Forall (λ x, negb (Ascii.eqb x slash) = true) c) as Hneq.
  { rewrite Forall_forall. intros x Hx. destruct (Ascii.eqb_spec x slash); [by subst|done]. }
  assert (drop_while_end (λ x, negb (Ascii.eqb x slash)) (s2l (abs_path (l ++ [c])))
          = s2l (abs_path l) ++ (if decide (l = []) then [] else [slash])) as ->.
  { unfold abs_path. rewrite !s2l_l2s. destruct (decide (l = [])) as [->|Hne].
    - exact (drop_while_end_app _ [] slash c eq_refl Hneq).
    - rewrite join_parts_app by done. rewrite app_comm_cons, drop_while_end_app; [done..]. }
  destruct (decide (l = [])) as [->|Hne]; [done|].
  rewrite l2s_app, l2s_s2l. rewrite Clean_abs by apply IsAbs_app, IsAbs_abs_path. f_equal.
  change (abs_path l +:+ l2s [slash]) with (abs_path l +:+ "/" +:+ "").
  rewrite parts_slash, abs_path_parts by done. unfold clean_parts. rewrite foldl_app. simpl.
  unfold clean_step at 1. simpl. unfold clean_step at 2. simpl.
  by rewrite clean_fold_push, app_nil_r, reverse_involutive by done.
Qed.

Lemma plain_parts c : plain c → parts (l2s c) = [c].
Proof. intros (_ & _ & _ & Hc). unfold parts. rewrite s2l_l2s, split_bytes_nosep by done. done. Qed.

Lemma Join_ids base ids :
  Forall plain base → Forall (λ id, plain (s2l id)) ids → ids ≠ [] →
  Join (abs_path base :: ids) = abs_path (base ++ (s2l <$> ids)).
Proof.
  intros Hb Hids Hne.
  assert (Join (abs_path base :: ids) = Join [abs_path base; join ids "/"]) as ->.
  { cbn [Join]. rewrite str_empty_abs. by destruct ids. }
  assert (parts (join ids "/") = s2l <$> ids) as Hp.
  { clear Hb. induction Hids as [|id ids Hid Hids IH]; [done|].
    assert (parts id = [s2l id]) as Hid1 by (rewrite <- (l2s_s2l id) at 1; by apply plain_parts).
    destruct ids as [|id' ids]; [by simpl|].
    change (join (id :: id' :: ids) "/") with (id +:+ "/" +:+ join (id' :: ids) "/").
    by rewrite parts_slash, Hid1, IH. }
  rewrite Join_plain, Hp; [done|done|]. rewrite Hp. by apply Forall_fmap.
Qed.
