(* ===== verification/PathGuard.v ===== *)
(** [pkg/tools/security.go]: the sandbox of the file and shell tools, namely the check
    that a path stays in the workspace, the check of the paths named in a command and the
    layout of the workspace directories.

    The working directory and the resolution of symbolic links belong to the operating
    system: [getwd] and [EvalSymlinks] are parameters, [EvalSymlinks p = None] when [p]
    does not exist. *)
From S2P Require Import Prelude GoStrings Paths.

Inductive path_error :=
| ErrNoWorkspace | ErrBadWorkspace | ErrEscapes (path workspace : string)
| ErrSymlink (path : string) | ErrParent.

#[global] Instance path_error_eq_dec : EqDecision path_error.
Proof. solve_decision. Defined.

Section guard.
Context (getwd : option string) (EvalSymlinks : string → option string).

Definition isUnderAllowedPaths (fullPath : string) (allowedPaths : list string) : bool :=
  existsb (λ ap, match Abs getwd ap with Some abs => under fullPath abs | None => false end) allowedPaths.

(** [fullPath] of [ValidatePath]. *)
Definition full_path (path absWorkspace : string) : string :=
  if IsAbs path then Clean path else Clean (Join [absWorkspace; path]).

Definition inside (p absWorkspace : string) (allowedPaths : list string) : bool :=
  under p absWorkspace || isUnderAllowedPaths p allowedPaths.

Definition ValidatePath (path workspace : string) (allowedPaths : list string) : result path_error string :=
  if str_empty workspace then Err ErrNoWorkspace
  else match Abs getwd workspace with
  | None => Err ErrBadWorkspace
  | Some absWorkspace =>
      let fullPath := full_path path absWorkspace in
      if negb (inside fullPath absWorkspace allowedPaths) then Err (ErrEscapes path absWorkspace)
      else match EvalSymlinks fullPath with
      | Some resolved =>
          if negb (inside resolved absWorkspace allowedPaths) then Err (ErrSymlink path) else Ok resolved
      | None =>
          match EvalSymlinks (Dir fullPath) with
          | Some resolved =>
              if negb (inside resolved absWorkspace allowedPaths) then Err ErrParent else Ok fullPath
          | None => Ok fullPath
          end
      end
  end.

(** ** Directories of tenants and users *)

Definition TenantWorkspaceDir (baseDir tenantID : string) : string :=
  let tenantID := if str_empty tenantID then "default"%string else tenantID in
  Join [baseDir; tenantID].

Definition is_default (id : string) : bool := str_empty id || bool_decide (id = "default"%string).

Definition UserWorkspaceDir (baseDir tenantID userID : string) : string :=
  if is_default tenantID then
    if is_default userID then baseDir else Join [baseDir; userID]
  else if is_default userID then Join [baseDir; tenantID]
  else Join [baseDir; tenantID; userID].

(** ** Commands *)

(** [strings.FieldsFunc] at the separators of the command line. *)
Definition cmd_sep (c : ascii) : bool :=
  existsb (Ascii.eqb c) (" " :: ascii_of_nat 9 :: ";" :: "|" :: "&" :: ">" :: "<" :: [])%char.

Fixpoint fields (cur l : bytes) : list bytes :=
  match l with
  | [] => if bool_decide (cur = []) then [] else [reverse cur]
  | c :: l => if cmd_sep c then (if bool_decide (cur = []) then [] else [reverse cur]) ++ fields [] l
              else fields (c :: cur) l
  end.

Inductive command_error := ErrTraversal | ErrWorkspacePath | ErrCommandEscapes (tok : string).

(** A token is skipped, accepted or refused. *)
Definition token_ok (absWorkspace tok : string) : bool :=
  str_empty tok || has_prefix tok "-" || negb (IsAbs tok) || under (Clean tok) absWorkspace.

Definition ValidateWorkspaceCommand (cmd workspace : string) : option command_error :=
  if str_empty workspace then None
  else if contains cmd "../" || contains cmd "..\" then Some ErrTraversal
  else match Abs getwd workspace with
  | None => Some ErrWorkspacePath
  | Some absWorkspace =>
      ErrCommandEscapes <$> find_first (λ tok, negb (token_ok absWorkspace tok)) (l2s <$> fields [] (s2l cmd))
  end.
End guard.

(** ** Lemmas *)

Lemma full_path_abs path aws :
  Forall plain aws →
  full_path path (abs_path aws) =
    abs_path (if IsAbs path then clean_parts true (parts path)
              else reverse (foldl (clean_step true) (reverse aws) (parts path))).
Proof.
  intros Haws. unfold full_path. destruct (IsAbs path) eqn:Hp; [by apply Clean_abs|].
  rewrite Join_abs by done. apply Clean_abs_path. by apply walk_plain.
Qed.

Lemma full_path_plain path aws :
  Forall plain aws → ∃ l, Forall plain l ∧ full_path path (abs_path aws) = abs_path l.
Proof.
  intros Haws. rewrite full_path_abs by done. eexists. split; [|done].
  destruct (IsAbs path); [apply clean_parts_plain|by apply walk_plain].
Qed.

(** A clean path that passes the check lies in one of the directories. *)
Lemma inside_spec getwd l aws allowed :
  (∀ wd, getwd = Some wd → IsAbs wd = true) → Forall plain l → Forall plain aws →
  inside getwd (abs_path l) (abs_path aws) allowed = true →
  ∃ root k, (root = aws ∨ ∃ ap, ap ∈ allowed ∧ Abs getwd ap = Some (abs_path root)) ∧
    Forall plain root ∧ l = root ++ k.
Proof.
  intros Hwd Hl Haws. unfold inside, isUnderAllowedPaths. rewrite orb_true_iff, existsb_exists.
  intros [H|(ap & Hin & H)].
  - destruct (under_abs l aws) as [k ->]; [done..|]. exists aws, k. naive_solver.
  - destruct (Abs getwd ap) as [a|] eqn:Ha; [|done].
    destruct (Abs_clean getwd ap a Hwd Ha) as (root & Hroot & ->).
    destruct (under_abs l root) as [k ->]; [done..|]. exists root, k.
    split; [right; exists ap; split; [by apply list_elem_of_In|done]|done].
Qed.

Lemma inside_workspace getwd aws k allowed :
  Forall plain aws → aws ≠ [] → inside getwd (abs_path (aws ++ k)) (abs_path aws) allowed = true.
Proof. intros Haws Hne. unfold inside. by rewrite under_app. Qed.

(** The identifiers that name a directory level. *)
Definition dir_ids (tenantID userID : string) : list string :=
  (if is_default tenantID then [] else [tenantID]) ++ (if is_default userID then [] else [userID]).

Lemma UserWorkspaceDir_ids base t u :
  Forall plain base → plain (s2l t) ∨ t = ""%string → plain (s2l u) ∨ u = ""%string →
  UserWorkspaceDir (abs_path base) t u = abs_path (base ++ (s2l <$> dir_ids t u)).
Proof.
  intros Hb Ht Hu.
  assert (∀ id, plain (s2l id) ∨ id = ""%string → is_default id = false → plain (s2l id)) as Hpl.
  { by intros id [Hid| ->] Hnd. }
  unfold UserWorkspaceDir, dir_ids.
  destruct (is_default t) eqn:Hdt, (is_default u) eqn:Hdu; cbn [app].
  - by rewrite app_nil_r.
  - apply Join_ids; [done|rewrite ?Forall_cons; auto|done].
  - apply Join_ids; [done|rewrite ?Forall_cons; auto|done].
  - apply Join_ids; [done|rewrite ?Forall_cons; auto|done].
Qed.

(** *** The words of a command *)

(** A word stands between two separators, or at an end of the text, and has none in it. *)
Definition word_at (a w b : bytes) : Prop :=
  w ≠ [] ∧ Forall (λ c, cmd_sep c = false) w
  ∧ (a = [] ∨ ∃ a' c, a = a' ++ [c] ∧ cmd_sep c = true) ∧ (b = [] ∨ ∃ c b', b = c :: b' ∧ cmd_sep c = true).
Definition cmd_word (cmd w : string) : Prop := ∃ a b, s2l cmd = a ++ s2l w ++ b ∧ word_at a (s2l w) b.

(** The same byte is a separator and is none. *)
Ltac sep_clash := cbv beta in *; congruence.

Lemma no_sep_end (l a w b : bytes) :
  Forall (λ c, cmd_sep c = false) l → l = a ++ w ++ b → word_at a w b → a = [] ∧ b = [].
Proof.
  intros Hl -> (_ & _ & Ha & Hb). apply Forall_app in Hl as [Hla [_ Hlb]%Forall_app]. split.
  - destruct Ha as [?|(a' & c & -> & Hc)]; [done|]. apply Forall_app in Hla as [_ [Hla _]%Forall_cons]. sep_clash.
  - destruct Hb as [?|(c & b' & -> & Hc)]; [done|]. apply Forall_cons in Hlb as [Hlb _]. sep_clash.
Qed.

(** A separator after a text without one: the word before it is that text, or it comes later. *)
Lemma word_at_sep (l : bytes) c k a w b :
  Forall (λ c, cmd_sep c = false) l → cmd_sep c = true → l ++ c :: k = a ++ w ++ b → word_at a w b →
  w = l ∨ ∃ a', k = a' ++ w ++ b ∧ word_at a' w b.
Proof.
  intros Hl Hc Heq Hw. pose proof Hw as (Hne & Hnos & [->|(a' & d & -> & Hd)] & Hb).
  - left. cbn in Heq. apply app_eq_inv in Heq as [(x & -> & Hx)|(x & -> & Hx)].
    + destruct Hb as [->|(e & b' & -> & He)]; [by destruct x|]. destruct x as [|y x]; [by rewrite app_nil_r|]. injection Hx as -> _.
      apply Forall_app in Hl as [_ [Hy _]%Forall_cons]. sep_clash.
    + destruct x as [|y x]; [by rewrite app_nil_r|]. injection Hx as <- _. apply Forall_app in Hnos as [_ [Hy _]%Forall_cons]. sep_clash.
  - right. rewrite <- app_assoc in Heq. apply app_eq_inv in Heq as [(x & -> & Hx)|(x & -> & Hx)].
    + destruct x as [|y x]; cbn in Hx.
      * injection Hx as -> ->. exists []. split; [done|]. split_and!; [done|done|by left|done].
      * injection Hx as <- _. apply Forall_app in Hl as [_ [Hy _]%Forall_cons]. sep_clash.
    + destruct x as [|y x]; cbn in Hx; injection Hx as <- Hx.
      * exists []. split; [done|]. split_and!; [done|done|by left|done].
      * exists (x ++ [d]). split; [by rewrite Hx, <- app_assoc|]. split_and!; [done|done|right; by eexists _, _|done].
Qed.

Lemma fields_word cur l w :
  Forall (λ c, cmd_sep c = false) cur → w ∈ fields cur l ↔ ∃ a b, reverse cur ++ l = a ++ w ++ b ∧ word_at a w b.
Proof.
  revert cur. induction l as [|c l IH]; intros cur Hcur; cbn [fields].
  - assert (Forall (λ c, cmd_sep c = false) (reverse cur)) as Hrev by by apply Forall_reverse. rewrite app_nil_r.
    case_bool_decide as Hnil.
    + split; [by intros ?%not_elem_of_nil|]. intros (a & b & Heq & Hw). destruct (no_sep_end _ a w b Hrev Heq Hw) as [-> ->].
      rewrite Hnil in Heq. destruct Hw as (Hne & _). cbn in Heq. rewrite app_nil_r in Heq. by subst w.
    + rewrite list_elem_of_singleton. split.
      * intros ->. exists [], []. rewrite app_nil_r. split; [done|]. split_and!; [|done|by left|by left].
        intros Hr%(f_equal reverse). by rewrite reverse_involutive in Hr.
      * intros (a & b & Heq & Hw). destruct (no_sep_end _ a w b Hrev Heq Hw) as [-> ->]. cbn in Heq. by rewrite app_nil_r in Heq.
  - assert (Forall (λ c, cmd_sep c = false) (reverse cur)) as Hrev by by apply Forall_reverse.
    destruct (cmd_sep c) eqn:Hc.
    + rewrite elem_of_app, (IH []) by constructor. cbn [app reverse rev_append]. split.
      * intros [Hin|(a & b & Heq & Hne & Hnos & Ha & Hb)].
        -- case_bool_decide as Hnil; [by apply not_elem_of_nil in Hin|]. apply list_elem_of_singleton in Hin as ->.
           exists [], (c :: l). split; [done|]. split_and!; [|done|by left|right; by eexists _, _].
           intros Hr%(f_equal reverse). by rewrite reverse_involutive in Hr.
        -- cbn in Heq. exists (reverse cur ++ c :: a), b. split; [by rewrite Heq, <- app_assoc|]. split_and!; [done|done| |done]. right.
           destruct Ha as [->|(a' & d & -> & Hd)]; [by exists (reverse cur), c|]. exists (reverse cur ++ c :: a'), d. by rewrite <- app_assoc.
      * intros (a & b & Heq & Hw). destruct (word_at_sep _ _ _ _ _ _ Hrev Hc Heq Hw) as [->|(a' & -> & Hw')]; [left|right; by exists a', b].
        destruct Hw as (Hne & _). rewrite bool_decide_false; [by apply list_elem_of_singleton|]. by intros ->.
    + rewrite IH by by constructor. by rewrite reverse_cons, <- app_assoc.
Qed.

Lemma fields_cmd_word cmd w : w ∈ l2s <$> fields [] (s2l cmd) ↔ cmd_word cmd w.
Proof.
  rewrite list_elem_of_fmap. unfold cmd_word. setoid_rewrite (fields_word [] (s2l cmd)); [|constructor]. split.
  - intros (l & -> & a & b & Heq & Hw). exists a, b. by rewrite s2l_l2s.
  - intros (a & b & Heq & Hw). exists (s2l w). split; [by rewrite l2s_s2l|]. by exists a, b.
Qed.

(** ** Properties *)

(** C14: [ValidatePath] confines: an accepted path is the workspace, one of the allowed
    directories or a path below it through ordinary components only, none of them [..];
    when the requested path exists, it is what that path resolves to. *)
Theorem ValidatePath_confined getwd EvalSymlinks path workspace allowed p
  (Hwd : ∀ wd, getwd = Some wd → IsAbs wd = true)
  (Heval : ∀ q r, IsAbs q = true → EvalSymlinks q = Some r → ∃ l, Forall plain l ∧ r = abs_path l) :
  ValidatePath getwd EvalSymlinks path workspace allowed = Ok p →
  ∃ dir root k aws, dir ∈ workspace :: allowed ∧ Abs getwd dir = Some (abs_path root) ∧
    Forall plain (root ++ k) ∧ p = abs_path (root ++ k) ∧
    Abs getwd workspace = Some aws ∧
    (EvalSymlinks (full_path path aws) = Some p ∨ EvalSymlinks (full_path path aws) = None ∧ p = full_path path aws).
Proof.
  unfold ValidatePath. destruct (str_empty workspace); [done|].
  destruct (Abs getwd workspace) as [aws|] eqn:Haws; [|done].
  destruct (Abs_clean getwd workspace aws Hwd Haws) as (al & Hal & ->).
  destruct (full_path_plain path al Hal) as (fl & Hfl & Hfull).
  assert (∀ l q, Forall plain l → q = abs_path l → inside getwd q (abs_path al) allowed = true →
    ∃ dir root k, dir ∈ workspace :: allowed ∧ Abs getwd dir = Some (abs_path root) ∧
      Forall plain (root ++ k) ∧ q = abs_path (root ++ k)) as Hin.
  { intros l q Hl -> Hin. destruct (inside_spec getwd l al allowed) as (root & k & Hroot & _ & ->); [done..|].
    destruct Hroot as [->|(ap & Hap & Ha)].
    - exists workspace, al, k. split; [by left|done].
    - exists ap, root, k. split; [by right|done]. }
  destruct (inside getwd (full_path _ _) _ _) eqn:Hi; [simpl|done].
  destruct (EvalSymlinks (full_path path (abs_path al))) as [r|] eqn:Hr.
  - destruct (inside getwd r _ _) eqn:Hir; [simpl|done]. intros [= <-].
    destruct (Heval (full_path path (abs_path al)) r ltac:(rewrite Hfull; apply IsAbs_abs_path) Hr) as (rl & Hrl & ->).
    destruct (Hin rl _ Hrl eq_refl Hir) as (dir & root & k & ? & ? & ? & ?).
    exists dir, root, k, (abs_path al). do 5 (split; [done|]). by left.
  - intros Hok. assert (p = full_path path (abs_path al)) as ->.
    { destruct (EvalSymlinks (Dir _)) as [r|]; [destruct (negb _)|]; congruence. }
    destruct (Hin fl _ Hfl Hfull Hi) as (dir & root & k & ? & ? & ? & ?).
    exists dir, root, k, (abs_path al). do 5 (split; [done|]). by right.
Qed.

(** A relative path of ordinary components is accepted and stands for the file of that
    name in the workspace, as long as no symbolic links are involved. *)
Theorem ValidatePath_accepts getwd EvalSymlinks path workspace allowed aws
  (Hws : workspace ≠ ""%string) (Habs : Abs getwd workspace = Some (abs_path aws))
  (Haws : Forall plain aws) (Hroot : aws ≠ [])
  (Hlinks : ∀ q r, EvalSymlinks q = Some r → r = q) :
  Forall plain (parts path) →
  ValidatePath getwd EvalSymlinks path workspace allowed = Ok (abs_path (aws ++ parts path)).
Proof.
  intros Hpath. unfold ValidatePath. unfold str_empty. rewrite bool_decide_false, Habs by done.
  assert (IsAbs path = false) as Hrel.
  { destruct (IsAbs path) eqn:H; [|done]. unfold IsAbs in H. unfold parts in Hpath.
    destruct (s2l path) as [|c l]; [done|]. simpl in Hpath. rewrite H in Hpath.
    inversion Hpath as [|? ? Hc]. by destruct Hc. }
  assert (full_path path (abs_path aws) = abs_path (aws ++ parts path)) as ->.
  { rewrite full_path_abs, Hrel, clean_fold_push by done. by rewrite reverse_app, !reverse_involutive. }
  rewrite inside_workspace by done. cbn [negb].
  destruct (EvalSymlinks (abs_path _)) as [r|] eqn:Hr.
  { rewrite (Hlinks _ _ Hr), inside_workspace by done. done. }
  destruct (parts path) as [|c l _] eqn:Hp using rev_ind; [by apply split_bytes_nonempty in Hp|].
  rewrite app_assoc, Dir_abs_path by (rewrite <- app_assoc; by apply Forall_app).
  destruct (EvalSymlinks (abs_path (aws ++ l))) as [r|] eqn:Hr'; [|done].
  by rewrite (Hlinks _ _ Hr'), inside_workspace.
Qed.

(** A file system with the directories [/ws] and [/etc], and a link [/ws/link] to [/etc]. *)
Definition link_fs (q : string) : option string :=
  if bool_decide (q = "/ws/link"%string) then Some "/etc"%string
  else if bool_decide (q ∈ ["/"; "/ws"; "/etc"]%string) then Some q else None.

(** Only the path and its parent directory are resolved: when neither exists, the check is
    purely lexical, so below a link out of the workspace a file two levels deep is
    accepted, although the link itself and a file directly below it are refused. *)
Theorem missing_parent_unchecked :
  (∀ getwd EvalSymlinks path workspace allowed aws,
     workspace ≠ ""%string → Abs getwd workspace = Some aws →
     inside getwd (full_path path aws) aws allowed = true →
     EvalSymlinks (full_path path aws) = None → EvalSymlinks (Dir (full_path path aws)) = None →
     ValidatePath getwd EvalSymlinks path workspace allowed = Ok (full_path path aws))
  ∧ ValidatePath None link_fs "link" "/ws" [] = Err (ErrSymlink "link")
  ∧ ValidatePath None link_fs "link/a" "/ws" [] = Err ErrParent
  ∧ ValidatePath None link_fs "link/a/b" "/ws" [] = Ok "/ws/link/a/b"%string.
Proof.
  split; [|by vm_compute]. intros getwd Eval path ws allowed aws Hws Habs Hin Hf Hd.
  unfold ValidatePath, str_empty. rewrite bool_decide_false, Habs by done.
  by rewrite Hin, Hf, Hd.
Qed.

(** For identifiers that are plain directory names, one user's workspace lies in
    another's exactly when the identifiers that are not [default] of the second start
    those of the first.  Two named users of named tenants are therefore separated unless
    they are the same, but user [x] of the default tenant and the default user of tenant
    [x] share one directory. *)
Theorem workspace_dirs base t u t' u'
  (Hbase : Forall plain base) (Hne : base ≠ [])
  (Ht : plain (s2l t)) (Hu : plain (s2l u)) (Ht' : plain (s2l t')) (Hu' : plain (s2l u')) :
  let dir := UserWorkspaceDir (abs_path base) in
  (under (dir t' u') (dir t u) = true ↔ dir_ids t u `prefix_of` dir_ids t' u')
  ∧ (is_default t = false → is_default u = false → is_default t' = false → is_default u' = false →
     under (dir t' u') (dir t u) = true → t = t' ∧ u = u')
  ∧ dir "default"%string t = dir t "default"%string.
Proof.
  intros dir.
  assert (∀ t u, plain (s2l t) → plain (s2l u) → Forall plain (s2l <$> dir_ids t u)) as Hpl.
  { intros t0 u0 H1 H2. unfold dir_ids. apply Forall_fmap, Forall_app.
    by destruct (is_default t0), (is_default u0); rewrite ?Forall_cons. }
  assert (under (dir t' u') (dir t u) = true ↔ dir_ids t u `prefix_of` dir_ids t' u') as Hiff.
  { unfold dir. rewrite !UserWorkspaceDir_ids by auto. split.
    - intros [k Hk]%under_abs; [|by apply Forall_app; auto..].
      rewrite <- app_assoc in Hk. apply (inj (app base)) in Hk.
      apply fmap_app_inv in Hk as (l1 & l2 & Hl1 & -> & Hl). apply (inj (fmap s2l)) in Hl1 as ->.
      rewrite Hl. by exists l2.
    - intros [k Hk]. rewrite Hk, fmap_app, app_assoc. apply under_app; [by apply Forall_app; auto|].
      by destruct base. }
  split; [exact Hiff|]. split.
  - intros H1 H2 H3 H4 [k Hk]%Hiff. unfold dir_ids in Hk. rewrite H1, H2, H3, H4 in Hk.
    simpl in Hk. by simplify_eq.
  - unfold dir, UserWorkspaceDir. replace (is_default "default") with true by done.
    by destruct (is_default t).
Qed.

(** What the check promises: no parent directory is named, and a word that begins with a
    slash is the workspace or a path below it, through ordinary components only. *)
Definition stays_inside (getwd : option string) (ws cmd : string) : Prop :=
  (¬ ∃ a b, cmd = a +:+ "../" +:+ b) ∧ (¬ ∃ a b, cmd = a +:+ "..\" +:+ b)
  ∧ ∃ root, Abs getwd ws = Some (abs_path root)
      ∧ ∀ w, cmd_word cmd w → (∃ x, w = String "/" x) → ∃ k, Forall plain (root ++ k) ∧ Clean w = abs_path (root ++ k).

Lemma ValidateWorkspaceCommand_inside getwd cmd ws :
  (∀ wd, getwd = Some wd → IsAbs wd = true) → ws ≠ ""%string →
  ValidateWorkspaceCommand getwd cmd ws = None → stays_inside getwd ws cmd.
Proof.
  intros Hwd Hws. unfold ValidateWorkspaceCommand, str_empty. rewrite bool_decide_false by done.
  assert (∀ p, contains cmd p = false → ¬ ∃ a b, cmd = a +:+ p +:+ b) as Hcon.
  { intros p. rewrite <- contains_spec. by destruct (contains cmd p). }
  destruct (contains cmd "../") eqn:H1, (contains cmd "..\") eqn:H2; cbn [orb]; try done.
  destruct (Abs getwd ws) as [aws|] eqn:Habs; [|done].
  destruct (Abs_clean getwd ws aws Hwd Habs) as (root & Hroot & ->). rewrite fmap_None, find_first_None, Forall_forall.
  intros H. split; [by apply Hcon|]. split; [by apply Hcon|]. exists root. split; [done|]. intros w Hw%fields_cmd_word [x ->].
  specialize (H _ Hw). cbn beta in H. apply negb_false_iff in H. unfold token_ok in H.
  assert (IsAbs (String "/" x) = true ∧ str_empty (String "/" x) = false ∧ has_prefix (String "/" x) "-" = false) as (Hx & He & Hd) by done.
  rewrite Hx, He, Hd in H. cbn [negb orb] in H. rewrite (Clean_abs _ Hx) in H |- *.
  pose proof (clean_parts_plain (String "/" x)) as Hp. destruct (under_abs _ _ Hp Hroot H) as [k Hk].
  exists k. rewrite <- Hk. by split.
Qed.

(** A command passes the workspace check exactly when it has no [../] and no token that is
    an absolute path outside the workspace.  The tokens are cut at blanks and at the
    operators only: a quoted path is not seen. *)
Theorem ValidateWorkspaceCommand_spec getwd cmd workspace aws
  (Hws : workspace ≠ ""%string) (Habs : Abs getwd workspace = Some aws) :
  (ValidateWorkspaceCommand getwd cmd workspace = None ↔
   contains cmd "../" = false ∧ contains cmd "..\" = false ∧
   ∀ tok, tok ∈ l2s <$> fields [] (s2l cmd) → IsAbs tok = true → under (Clean tok) aws = true)
  ∧ ValidateWorkspaceCommand getwd "cat '/etc/passwd'" workspace = None.
Proof.
  unfold ValidateWorkspaceCommand, str_empty. rewrite bool_decide_false, Habs by done. split; [|done].
  destruct (contains cmd "../"), (contains cmd "..\"); simpl; try (split; [done|intros (? & ? & ?); done]).
  rewrite fmap_None, find_first_None, Forall_forall. unfold token_ok.
  split; [intros H; split_and!; [done..|]|intros (_ & _ & H)]; intros tok Htok.
  - intros Htabs. specialize (H tok Htok). cbv beta in H. rewrite Htabs in H.
    apply negb_false_iff in H. unfold str_empty, has_prefix, IsAbs in *.
    destruct (s2l tok) as [|c l] eqn:Hs; [done|]. apply Ascii.eqb_eq in Htabs as ->.
    rewrite bool_decide_false in H by by intros ->. done.
  - apply negb_false_iff. destruct (IsAbs tok) eqn:Htabs; [|by rewrite !orb_true_r].
    by rewrite H, orb_true_r.
Qed.

(** ** Witnesses *)

Lemma link_fs_clean q r : IsAbs q = true → link_fs q = Some r → ∃ l, Forall plain l ∧ r = abs_path l.
Proof.
  intros _. unfold link_fs. case_bool_decide; [intros [= <-]; exists [s2l "etc"]; split; [|done]|].
  { by apply (bool_decide_unpack (Forall plain _)). }
  case_bool_decide as Hin; [intros [= <-]|done].
  assert (∃ c, q = abs_path c ∧ Forall plain c) as (c & -> & Hc); [|by exists c].
  repeat (apply elem_of_cons in Hin as [->|Hin]); [exists []|exists [s2l "ws"]|exists [s2l "etc"]|];
    try (by split; [|apply (bool_decide_unpack (Forall plain _))]).
  by apply not_elem_of_nil in Hin.
Qed.

Lemma ValidatePath_confined_witness :
  ∃ dir root k aws, dir ∈ ["/ws"]%string ∧ Abs None dir = Some (abs_path root) ∧
    Forall plain (root ++ k) ∧ "/ws/link/a/b"%string = abs_path (root ++ k) ∧
    Abs None "/ws" = Some aws ∧
    (link_fs (full_path "link/a/b" aws) = Some "/ws/link/a/b"%string
     ∨ link_fs (full_path "link/a/b" aws) = None ∧ "/ws/link/a/b"%string = full_path "link/a/b" aws).
Proof.
  apply (ValidatePath_confined None link_fs "link/a/b" "/ws" []); [done|exact link_fs_clean|by vm_compute].
Defined.

Lemma ValidatePath_accepts_witness :
  ValidatePath None (λ _, None) "notes/today.md" "/ws" [] = Ok "/ws/notes/today.md"%string.
Proof.
  refine (ValidatePath_accepts None (λ _, None) "notes/today.md" "/ws" [] [s2l "ws"] _ _ _ _ _ _).
  - done.
  - by vm_compute.
  - apply (bool_decide_unpack _). by vm_compute.
  - done.
  - done.
  - apply (bool_decide_unpack _). by vm_compute.
Defined.

Lemma missing_parent_unchecked_witness :
  ValidatePath None (λ _, None) "a/b" "/ws" [] = Ok "/ws/a/b"%string.
Proof.
  exact (proj1 missing_parent_unchecked None (λ _, None) "a/b"%string "/ws"%string [] "/ws"%string
           ltac:(done) ltac:(by vm_compute) ltac:(by vm_compute) ltac:(done) ltac:(done)).
Defined.

Lemma workspace_dirs_witness :
  UserWorkspaceDir "/data" "default" "acme" = UserWorkspaceDir "/data" "acme" "default".
Proof.
  destruct (workspace_dirs [s2l "data"] "acme" "bob" "acme" "bob") as (_ & _ & H);
    [apply (bool_decide_unpack _); by vm_compute|done|apply (bool_decide_unpack _); by vm_compute..|].
  exact H.
Defined.

Lemma ValidateWorkspaceCommand_spec_witness :
  ValidateWorkspaceCommand None "ls /ws/a;cat b" "/ws" = None
  ∧ ValidateWorkspaceCommand None "cat '/etc/passwd'" "/ws" = None.
Proof.
  destruct (ValidateWorkspaceCommand_spec None "ls /ws/a;cat b" "/ws" "/ws") as [H1 H2];
    [done|by vm_compute|]. split; [|exact H2]. apply H1. split; [done|]. split; [done|].
  intros tok Htok. revert tok Htok.
  apply (proj1 (Forall_forall (λ tok, IsAbs tok = true → under (Clean tok) "/ws" = true) _)).
  apply (bool_decide_unpack _). by vm_compute.
Defined.
