(* ===== verification/Skills.v ===== *)
(** [pkg/skills/loader.go], [installer.go] and [builtin.go]: which skills a tenant sees,
    where their content comes from, and how skills are installed.

    The stores are the interfaces of [Stores]; [ListInstalled], [GetByIDs], [List] and
    [Get] of the loader's stores are given by their answers.  JSON decoding and HTTP are
    third-party.  Log lines are left out.

    [ResolveContent] is a call that nothing interleaves with, on a disk that is a map from
    file names to contents.  For calls that run at the same time [resolve_step] is one access
    of a call to the map or to the disk, where a file is created, then filled piece by
    piece, and may be opened by one call while another writes it; [call_alone] says that
    the steps of one call make up [ResolveContent]. *)
From stdpp Require Import gmap.
From S2P Require Import Prelude GoStrings Regex Values Types Stores Paths.

(** ** Names *)

Definition MaxNameLength : nat := 64.

Definition is_alnum (c : ascii) : bool := is_lower_byte c || is_upper_byte c || is_digit_byte c.

(** [[a-zA-Z0-9]+(-[a-zA-Z0-9]+)*] *)
Definition namePattern : re :=
  RSeq (rplus (RSet is_alnum)) (RStar (RSeq (rbyte "-") (rplus (RSet is_alnum)))).

Inductive name_error := ErrNameRequired | ErrNameLength | ErrNamePattern.

Definition ValidateSkillName (name : string) : option name_error :=
  if str_empty name then Some ErrNameRequired
  else if (MaxNameLength <? str_len name)%nat then Some ErrNameLength
  else if negb (re_full namePattern name) then Some ErrNamePattern
  else None.

(** ** Frontmatter *)

Definition LF : ascii := Ascii.ascii_of_nat 10.
Definition CR : ascii := Ascii.ascii_of_nat 13.

Definition re_newline : re := RAlt (rseq [rbyte CR; rbyte LF]) (RAlt (rbyte LF) (rbyte CR)).
Definition re_any : re := RSet (λ _, true).

(** [^---NL(.*?)NL---]: the ways to match, best first, as the group and what follows. *)
Definition frontmatter_matches (l : bytes) : list (bytes * pos) :=
  flat_map (λ p : pos, flat_map (λ q : pos,
      (λ r, (take (length p.2 - length q.2) p.2, r)) <$> rmatch (RSeq re_newline (rstr "---")) q)
    (rmatch (RLazy re_any) p)) (rmatch (RSeq (rstr "---") re_newline) (None, l)).

Definition extractFrontmatter (content : string) : string :=
  match frontmatter_matches (s2l content) with (g, _) :: _ => l2s g | [] => "" end.

(** The match of [StripFrontmatterRe] also takes the newlines that follow; as it is
    anchored it is replaced once. *)
Definition StripFrontmatter (content : string) : string :=
  match flat_map (λ gr : bytes * pos, rmatch (RStar re_newline) gr.2) (frontmatter_matches (s2l content)) with
  | (_, rest) :: _ => l2s rest
  | [] => content
  end.

Definition is_quote (c : ascii) : bool := existsb (Ascii.eqb c) [Ascii.ascii_of_nat 34; "'"%char].

Definition cr : string := String CR "".

(** One line of [parseSimpleYAML]. *)
Definition yaml_line (line : string) : option (string * string) :=
  let line := trim_space line in
  if str_empty line || has_prefix line "#" then None
  else match splitn line ":" 2 with
       | [k; v] => Some (trim_space k, trim_set is_quote (trim_space v))
       | _ => None
       end.

Definition parseSimpleYAML (content : string) : gmap string string :=
  let normalized := replace_all (replace_all content (cr +:+ lf) lf) cr lf in
  fold_left (λ m line, match yaml_line line with Some (k, v) => <[k := v]> m | None => m end)
    (split normalized LF) ∅.

(** The empty list is nil. *)
Definition parseSimpleYAMLList (value : string) : list string :=
  let value := trim_space (trim_suffix (trim_prefix (trim_space value) "[") "]") in
  if str_empty value then []
  else filter (λ p, p ≠ ""%string) ((λ p, trim_set is_quote (trim_space p)) <$> split value ",").

Record skill_meta := { mt_Name : string; mt_Description : string; mt_Always : bool; mt_Capabilities : list string }.

Definition no_meta : skill_meta := {| mt_Name := ""; mt_Description := ""; mt_Always := false; mt_Capabilities := [] |}.

(** [json.Unmarshal] into the four fields is the parameter [json]. *)
Definition ParseSkillMetadata (json : string → option skill_meta) (content : string) : skill_meta :=
  let fm := extractFrontmatter content in
  if str_empty fm then no_meta
  else
    let yaml := let kv := parseSimpleYAML fm in
      {| mt_Name := default ""%string (kv !! "name"%string);
         mt_Description := default ""%string (kv !! "description"%string);
         mt_Always := bool_decide (kv !! "always"%string = Some "true"%string);
         mt_Capabilities := parseSimpleYAMLList (default ""%string (kv !! "capabilities"%string)) |} in
    match json fm with
    | Some jm => if str_empty (mt_Name jm) then yaml else jm
    | None => yaml
    end.

(** Nil and the empty list are both empty. *)
Definition ExtractCapabilities (meta : config) : list string := as_strs (jget "capabilities" meta).

Definition escapeXML (s : string) : string :=
  replace_all (replace_all (replace_all s "&" "&amp;") "<" "&lt;") ">" "&gt;".

(** ** The skills of a tenant *)

Record ResolvedSkill := { rs_Record : SkillRecord; rs_Priority : Z; rs_Capabilities : list string }.

Definition resolve (prio : Z) (rec : SkillRecord) : ResolvedSkill :=
  {| rs_Record := rec; rs_Priority := prio; rs_Capabilities := ExtractCapabilities (sr_Metadata rec) |}.

(** The body of each loop, with [seen] and [result]. *)
Definition add_skill (prio : Z) (acc : gset string * list ResolvedSkill) (rec : SkillRecord)
    : gset string * list ResolvedSkill :=
  if decide (sr_Name rec ∈ acc.1) then acc
  else ({[sr_Name rec]} ∪ acc.1, acc.2 ++ [resolve prio rec]).

(** [byID[id]]: of two records with one identifier the last. *)
Definition by_id (records : list SkillRecord) (id : Z) : option SkillRecord :=
  find_first (λ rec, sr_ID rec =? id) (reverse records).

Definition installed_records (records : list SkillRecord) (installed : list TenantSkill) : list SkillRecord :=
  omap (λ ts, by_id records (ts_SkillID ts)) installed.

Definition of_tier (t : SkillTier) (l : list SkillRecord) : list SkillRecord := filter (λ rec, sr_Tier rec = t) l.

Section loader.
(** The answers of the stores: the tenant's installed skills, records by identifiers,
    the published records, the tenant. *)
Context (ListInstalled : result goerror (list TenantSkill)) (GetByIDs : list Z → result goerror (list SkillRecord)).
Context (ListPublished : result goerror (list SkillRecord)) (GetTenant : result goerror (option Tenant)).

Definition add_installed : result goerror (gset string * list ResolvedSkill) :=
  installed <-? ListInstalled;;
  match installed with
  | [] => Ok (∅, [])
  | _ => records <-? GetByIDs (ts_SkillID <$> installed);;
         Ok (fold_left (add_skill 1) (installed_records records installed) (∅, []))
  end.

(** From the query of the published skills to the end; [None] is the panic on a nil
    tenant. *)
Definition add_published (acc : gset string * list ResolvedSkill) : option (list ResolvedSkill) :=
  let published := match ListPublished with Ok l => l | Err _ => [] end in
  acc ← match GetTenant with
        | Ok None => None
        | Ok (Some tenant) =>
            Some (if str_empty (tn_GroupID tenant) then acc
                  else fold_left (add_skill 2) (of_tier SkillTierGroup published) acc)
        | Err _ => Some acc
        end;
  let acc := fold_left (add_skill 3) (of_tier SkillTierGlobal published) acc in
  let acc := fold_left (add_skill 4) (of_tier SkillTierBuiltin published) acc in
  Some acc.2.

Definition LoadForTenant : option (result goerror (list ResolvedSkill)) :=
  match add_installed with
  | Err e => Some (Err e)
  | Ok acc => Ok <$> add_published acc
  end.

Definition summary_lines (rs : ResolvedSkill) : list string :=
  ["  <skill>"; "    <name>" +:+ escapeXML (sr_Name (rs_Record rs)) +:+ "</name>";
   "    <description>" +:+ escapeXML (sr_Description (rs_Record rs)) +:+ "</description>";
   "    <tier>" +:+ escapeXML (tier_string (sr_Tier (rs_Record rs))) +:+ "</tier>"]%string
  ++ (if sr_AlwaysLoad (rs_Record rs) then ["    <always_load>true</always_load>"%string] else [])
  ++ ["  </skill>"%string].

Definition BuildSummary : option (result goerror string) :=
  r ← LoadForTenant;
  Some match r with
       | Err e => Err e
       | Ok [] => Ok ""%string
       | Ok resolved => Ok (join ("<skills>"%string :: flat_map summary_lines resolved ++ ["</skills>"%string]) lf)
       end.
End loader.

Definition IsAlwaysLoad (rec : SkillRecord) (ts : option TenantSkill) : bool :=
  match ts ≫= ts_AlwaysLoad with Some b => b | None => sr_AlwaysLoad rec end.

(** ** Content *)

Record loader := { pathCache : gmap string string; disk : gmap string string }.

Definition with_path (k : string) (p : option string) (st : loader) : loader :=
  {| pathCache := partial_alter (λ _, p) k (pathCache st); disk := disk st |}.
Definition with_file (f : string) (content : string) (st : loader) : loader :=
  {| pathCache := pathCache st; disk := <[f := content]> (disk st) |}.

Definition cache_key (name version : string) : string := name +:+ ":" +:+ version.
Definition skill_file (dir : string) : string := Join [dir; "SKILL.md"%string].

(** What may go wrong while an object is written to the disk; [CopyFails n] after [n]
    bytes. *)
Inductive pull_fault := NoFault | MkdirFails | CreateFails | CopyFails (n : nat) | SyncFails.

Inductive resolve_error := ErrNoObjectPath | ErrFetch (e : goerror) | ErrMkdir | ErrCreate | ErrCopy | ErrSync.

(** [os.Create], and [io.Copy] up to [n] bytes. *)
Definition create_file (f : string) (st : loader) : loader := with_file f "" st.
Definition copy_file (n : nat) (f content : string) (st : loader) : loader := with_file f (l2s (take n (s2l content))) st.

(** From [os.MkdirAll] to the end. *)
Definition write_skill (fault : pull_fault) (key localDir content : string) (st : loader)
    : loader * result resolve_error string :=
  let f := skill_file localDir in
  match fault with
  | MkdirFails => (st, Err ErrMkdir)
  | CreateFails => (st, Err ErrCreate)
  | CopyFails n => (copy_file n f content (create_file f st), Err ErrCopy)
  | SyncFails => (copy_file (str_len content) f content (create_file f st), Err ErrSync)
  | NoFault => (with_path key (Some localDir) (copy_file (str_len content) f content (create_file f st)), Ok localDir)
  end.

Section content.
Context (cacheDir : string).

Definition on_disk (dir : string) (st : loader) : bool := bool_decide (is_Some (disk st !! skill_file dir)).

(** Levels 2 and 3: the disk and the object store. *)
Definition pull_content (objGet : string → result goerror string) (fault : pull_fault)
    (name version objectPath : string) (st : loader) : loader * result resolve_error string :=
  let localDir := Join [cacheDir; name; version] in
  if on_disk localDir st then (with_path (cache_key name version) (Some localDir) st, Ok localDir)
  else if str_empty objectPath then (st, Err ErrNoObjectPath)
  else match objGet objectPath with
       | Err e => (st, Err (ErrFetch e))
       | Ok content => write_skill fault (cache_key name version) localDir content st
       end.

Definition ResolveContent (objGet : string → result goerror string) (fault : pull_fault)
    (name version objectPath : string) (st : loader) : loader * result resolve_error string :=
  let key := cache_key name version in
  match pathCache st !! key with
  | Some p => if on_disk p st then (st, Ok p)
              else pull_content objGet fault name version objectPath (with_path key None st)
  | None => pull_content objGet fault name version objectPath st
  end.

Definition LoadSkillContent (localPath : string) (st : loader) : option string :=
  StripFrontmatter <$> disk st !! skill_file localPath.

Definition InvalidateCache (name version : string) (st : loader) : loader :=
  with_path (cache_key name version) None st.

(** [os.RemoveAll]. *)
Definition remove_all (dir : string) (st : loader) : loader :=
  {| pathCache := pathCache st; disk := filter (λ kv, under kv.1 dir = false) (disk st) |}.

(** The clean-up visits the version directories of the cache: skill, version, modification
    time (in seconds) of its SKILL.md if it has one, and whether removing succeeds. *)
Definition cleanup_version (now maxAge : Z) (st : loader) (v : string * string * option Z * bool) : loader :=
  let '(skill, ver, mtime, removable) := v in
  match mtime with
  | None => st
  | Some t =>
      if maxAge <? now - t then
        if removable then with_path (cache_key skill ver) None (remove_all (Join [Join [cacheDir; skill]; ver]) st)
        else st
      else st
  end.

Definition CleanupStaleCache (now maxAge : Z) (versions : list (string * string * option Z * bool)) (st : loader) : loader :=
  if str_empty cacheDir then st else fold_left (cleanup_version now maxAge) versions st.

(** The goroutines of the warm-up, one after the other; in [cache_step] they run at the same
    time as any other calls. *)
Definition WarmupAlwaysLoad (objGet : string → result goerror string) (published : result goerror (list SkillRecord))
    (st : loader) : loader * option goerror :=
  match published with
  | Err e => (st, Some e)
  | Ok l => (fold_left (λ st rec, (ResolveContent objGet NoFault (sr_Name rec) (sr_Version rec) (sr_ObjectPath rec) st).1)
               (filter (λ rec, sr_AlwaysLoad rec = true) l) st, None)
  end.

(** Calls that run at the same time.  A call is before its next access to the map or the
    disk; an open file is its number and the bytes written so far. *)
Inductive call_pc :=
| ToLook | ToStatCached (p : string) | ToForget | ToStat | ToGet | ToMkdir (object : bytes) | ToCreate (object : bytes)
| Copying (object : bytes) (file done : nat) | ToSync | ToKeep | Returned (r : result resolve_error string).

Record call := { cl_name : string; cl_version : string; cl_object : string; cl_pc : call_pc }.
Record shared := { sh_paths : gmap string string; sh_dir : gmap string nat; sh_files : list bytes }.

Definition set_pc (pc : call_pc) (cl : call) : call :=
  {| cl_name := cl_name cl; cl_version := cl_version cl; cl_object := cl_object cl; cl_pc := pc |}.
Definition set_cached (k : string) (p : option string) (s : shared) : shared :=
  {| sh_paths := partial_alter (λ _, p) k (sh_paths s); sh_dir := sh_dir s; sh_files := sh_files s |}.

(** [os.Create] empties a file that is there. *)
Definition open_new (f : string) (s : shared) : shared * nat :=
  match sh_dir s !! f with
  | Some i => ({| sh_paths := sh_paths s; sh_dir := sh_dir s; sh_files := <[i := []]> (sh_files s) |}, i)
  | None => let i := length (sh_files s) in
            ({| sh_paths := sh_paths s; sh_dir := <[f := i]> (sh_dir s); sh_files := sh_files s ++ [[]] |}, i)
  end.

(** Writing behind the end leaves zeros before. *)
Definition write_at (off : nat) (chunk x : bytes) : bytes :=
  take off (x ++ replicate off "000"%char) ++ chunk ++ drop (off + length chunk) x.

Definition write_file (i off : nat) (chunk : bytes) (s : shared) : shared :=
  {| sh_paths := sh_paths s; sh_dir := sh_dir s; sh_files := alter (write_at off chunk) i (sh_files s) |}.

(** The next access of a call, that fails or not; a copy writes [k] bytes. *)
Definition resolve_step (objGet : string → result goerror string) (fail : option goerror) (k : nat) (cl : call) (s : shared) : shared * call_pc :=
  let key := cache_key (cl_name cl) (cl_version cl) in
  let localDir := Join [cacheDir; cl_name cl; cl_version cl] in
  match cl_pc cl with
  | ToLook => (s, match sh_paths s !! key with Some p => ToStatCached p | None => ToStat end)
  | ToStatCached p =>
      (s, match fail, sh_dir s !! skill_file p with None, Some _ => Returned (Ok p) | _, _ => ToForget end)
  | ToForget => (set_cached key None s, ToStat)
  | ToStat =>
      (s, match fail, sh_dir s !! skill_file localDir with
          | None, Some _ => ToKeep
          | _, _ => if str_empty (cl_object cl) then Returned (Err ErrNoObjectPath) else ToGet
          end)
  | ToGet =>
      (s, match fail, objGet (cl_object cl) with
          | Some e, _ | None, Err e => Returned (Err (ErrFetch e))
          | None, Ok object => ToMkdir (s2l object)
          end)
  | ToMkdir object => (s, match fail with Some _ => Returned (Err ErrMkdir) | None => ToCreate object end)
  | ToCreate object =>
      match fail with
      | Some _ => (s, Returned (Err ErrCreate))
      | None => let '(s, i) := open_new (skill_file localDir) s in (s, Copying object i 0)
      end
  | Copying object i off =>
      match fail with
      | Some _ => (s, Returned (Err ErrCopy))
      | None => if (off <? length object)%nat then let chunk := take k (drop off object) in
                                                   (write_file i off chunk s, Copying object i (off + length chunk))
                else (s, ToSync)
      end
  | ToSync => (s, match fail with Some _ => Returned (Err ErrSync) | None => ToKeep end)
  | ToKeep => (set_cached key (Some localDir) s, Returned (Ok localDir))
  | Returned r => (s, Returned r)
  end.

Record calls := { cs_shared : shared; cs_calls : list call }.

(** A call begins, of a session or of the warm-up; it goes on; [InvalidateCache] or the
    clean-up deletes an entry of the map; the clean-up removes a directory. *)
Inductive cache_event :=
| EvCall (name version objectPath : string)
| EvStep (i : nat) (fail : option goerror) (k : nat)
| EvForget (name version : string)
| EvRemove (dir : string).

Definition cache_step (objGet : string → result goerror string) (w : calls) (ev : cache_event) : calls :=
  let s := cs_shared w in
  match ev with
  | EvCall name version objectPath =>
      {| cs_shared := s; cs_calls := cs_calls w ++ [{| cl_name := name; cl_version := version; cl_object := objectPath; cl_pc := ToLook |}] |}
  | EvStep i fail k =>
      match cs_calls w !! i with
      | Some cl => let '(s, pc) := resolve_step objGet fail k cl s in {| cs_shared := s; cs_calls := <[i := set_pc pc cl]> (cs_calls w) |}
      | None => w
      end
  | EvForget name version => {| cs_shared := set_cached (cache_key name version) None s; cs_calls := cs_calls w |}
  | EvRemove dir =>
      {| cs_shared := {| sh_paths := sh_paths s; sh_dir := filter (λ kv, under kv.1 dir = false) (sh_dir s); sh_files := sh_files s |};
         cs_calls := cs_calls w |}
  end.

Definition no_calls : calls := {| cs_shared := {| sh_paths := ∅; sh_dir := ∅; sh_files := [] |}; cs_calls := [] |}.

(** The map and the disk as a call that now runs alone finds them. *)
Definition view (s : shared) : loader :=
  {| pathCache := sh_paths s; disk := omap (λ i, l2s <$> sh_files s !! i) (sh_dir s) |}.
End content.

(** ** Installing *)

Section installer.
Context {R O : Type} `{SkillRegistryStore R} `{ObjectStore O}.
(** The JSON of a frontmatter, and a GET request: an error, or the status and the body. *)
Context (json : string → option skill_meta) (http : string → result goerror (Z * result goerror string)).

Inductive install_error :=
| ErrInvalidName (e : name_error) | ErrExists | ErrHTTP (status : Z) | ErrRequest (e : goerror)
| ErrUpload (e : goerror) | ErrRegister (e : goerror).

Definition maxSkillFileSize : Z := 1 * 1024 * 1024.

(** The body is read up to [maxSize] bytes, the rest is dropped. *)
Definition fetchURL (url : string) (maxSize : Z) : result install_error string :=
  match http url with
  | Err e => Err (ErrRequest e)
  | Ok (status, body) =>
      if negb (status =? 200) then Err (ErrHTTP status)
      else match body with
           | Err e => Err (ErrRequest e)
           | Ok b => Ok (l2s (take (Z.to_nat maxSize) (s2l b)))
           end
  end.

Definition github_url (repo : string) : string :=
  "https://raw.githubusercontent.com/" +:+ repo +:+ "/main/SKILL.md".
Definition github_object (skillName : string) : string := "skills/" +:+ skillName +:+ "/github/SKILL.md".

Definition github_record (repo body objectPath skillName : string) (now : time) : SkillRecord :=
  let m := ParseSkillMetadata json body in
  {| sr_ID := 0; sr_Name := if str_empty (mt_Name m) then skillName else mt_Name m;
     sr_Description := mt_Description m; sr_Version := "github"; sr_ObjectPath := objectPath;
     sr_Tier := SkillTierGlobal; sr_AlwaysLoad := mt_Always m; sr_Status := StatusPublished;
     sr_Metadata := [("source", JStr "github"); ("repository", JStr repo)]%string
                    ++ match mt_Capabilities m with [] => [] | caps => [("capabilities"%string, JStrs caps)] end;
     sr_CreatedAt := now; sr_UpdatedAt := now |}.

Definition InstallFromGitHub (repo : string) (now : time) (reg : R) (obj : O) : R * O * result install_error SkillRecord :=
  let skillName := Base repo in
  match ValidateSkillName skillName with
  | Some e => (reg, obj, Err (ErrInvalidName e))
  | None =>
      match srs_Get skillName reg with
      | Ok (Some _) => (reg, obj, Err ErrExists)
      | _ =>
          match fetchURL (github_url repo) maxSkillFileSize with
          | Err e => (reg, obj, Err e)
          | Ok body =>
              let objectPath := github_object skillName in
              match obj_Put objectPath body obj with
              | (obj, Some e) => (reg, obj, Err (ErrUpload e))
              | (obj, None) =>
                  let rec := github_record repo body objectPath skillName now in
                  match srs_Put rec reg with
                  | (reg, Some e) => (reg, obj, Err (ErrRegister e))
                  | (reg, None) => (reg, obj, Ok rec)
                  end
              end
          end
      end
  end.

(** [None] is the panic on a nil record. *)
Definition Uninstall (skillName : string) (reg : R) (obj : O) : option (R * O * option goerror) :=
  match srs_Get skillName reg with
  | Err e => Some (reg, obj, Some e)
  | Ok None => None
  | Ok (Some rec) =>
      let obj := if str_empty (sr_ObjectPath rec) then obj else (obj_Delete (sr_ObjectPath rec) obj).1 in
      let '(reg, e) := srs_Delete skillName reg in Some (reg, obj, e)
  end.

(** The community's list of skills, which is not kept; a list that is longer than its limit is
    cut before it is decoded. *)
Record AvailableSkill := { av_Name : string; av_Repository : string; av_Description : string; av_Author : string; av_Tags : list string }.

Definition maxSkillsListSize : Z := 2 * 1024 * 1024.
Definition communitySkillsURL : string := "https://raw.githubusercontent.com/abot/abot-skills/main/skills.json".

Definition ListAvailableSkills (unmarshal : string → result goerror (list AvailableSkill)) : result install_error (list AvailableSkill) :=
  body <-? fetchURL communitySkillsURL maxSkillsListSize ;;
  match unmarshal body with Err e => Err (ErrRequest e) | Ok l => Ok l end.

(** ** builtin.go *)

Definition builtin_record (name data : string) (now1 now2 : time) : SkillRecord :=
  let m := ParseSkillMetadata json data in
  {| sr_ID := 0; sr_Name := if str_empty (mt_Name m) then name else mt_Name m;
     sr_Description := mt_Description m; sr_Version := "builtin"; sr_ObjectPath := "";
     sr_Tier := SkillTierBuiltin; sr_AlwaysLoad := mt_Always m; sr_Status := StatusPublished;
     sr_Metadata := match mt_Capabilities m with [] => [] | caps => [("capabilities"%string, JStrs caps)] end;
     sr_CreatedAt := now1; sr_UpdatedAt := now2 |}.

(** The entries of the embedded file system: name, whether a directory, its SKILL.md;
    and the two clock readings. *)
Fixpoint RegisterBuiltins (entries : list (string * bool * option string * (time * time))) (reg : R) : R * option goerror :=
  match entries with
  | [] => (reg, None)
  | (name, isDir, data, (now1, now2)) :: entries =>
      if negb isDir then RegisterBuiltins entries reg
      else match srs_Get name reg with
           | Ok (Some _) => RegisterBuiltins entries reg
           | _ => match data with
                  | None => RegisterBuiltins entries reg
                  | Some data =>
                      match srs_Put (builtin_record name data now1 now2) reg with
                      | (reg, Some e) => (reg, Some e)
                      | (reg, None) => RegisterBuiltins entries reg
                      end
                  end
           end
  end.
End installer.

(** [data] is the file of the skill in the embedded file system. *)
Definition LoadBuiltinContent (data : option string) : option string := StripFrontmatter <$> data.

(** ** Lemmas: names *)





(** ** Lemmas: the skills of a tenant *)

Definition add_candidate (acc : gset string * list ResolvedSkill) (c : Z * SkillRecord) := add_skill c.1 acc c.2.

Lemma fold_add_skill p l acc : fold_left (add_skill p) l acc = fold_left add_candidate ((p,.) <$> l) acc.
Proof. revert acc. induction l as [|rec l IH]; intros acc; [done|]. apply IH. Qed.

Definition rs_name (rs : ResolvedSkill) : string := sr_Name (rs_Record rs).

(** What one more candidate changes. *)
Definition acc_ok (done_ : list (Z * SkillRecord)) (acc : gset string * list ResolvedSkill) : Prop :=
  NoDup (rs_name <$> acc.2)
  ∧ (∀ n, n ∈ acc.1 ↔ n ∈ (λ c, sr_Name c.2) <$> done_)
  ∧ (∀ n, n ∈ acc.1 ↔ n ∈ rs_name <$> acc.2)
  ∧ (∀ rs, rs ∈ acc.2 ↔ ∃ l1 c l2, done_ = l1 ++ c :: l2 ∧ rs = resolve c.1 c.2
             ∧ Forall (λ c', sr_Name c'.2 ≠ sr_Name c.2) l1)
  ∧ ∃ keep, acc.2 = (λ c, resolve c.1 c.2) <$> keep ∧ keep `sublist_of` done_.

Lemma acc_ok_step d acc c : acc_ok d acc → acc_ok (d ++ [c]) (add_candidate acc c).
Proof.
  intros (Hnd & Hseen & Hnames & Hin & keep & Hkeep & Hsub).
  assert (∀ rs, (∃ l1 c' l2, d ++ [c] = l1 ++ c' :: l2 ∧ rs = resolve c'.1 c'.2
                   ∧ Forall (λ x, sr_Name x.2 ≠ sr_Name c'.2) l1)
          ↔ rs ∈ acc.2 ∨ (sr_Name c.2 ∉ acc.1) ∧ rs = resolve c.1 c.2) as Hlast.
  { intros rs. rewrite Hin. split.
    - intros (l1 & c' & l2 & Heq & -> & HF). destruct l2 as [|x l2 _] using rev_ind.
      + apply app_inj_tail in Heq as [-> <-]. right. split; [|done].
        rewrite Hseen, list_elem_of_fmap. intros (x & Hx & Hxin). rewrite Forall_forall in HF. by apply (HF x).
      + rewrite app_comm_cons, app_assoc in Heq. apply app_inj_tail in Heq as [-> _].
        left. by exists l1, c', l2.
    - intros [(l1 & c' & l2 & -> & -> & HF)|[Hno ->]].
      + exists l1, c', (l2 ++ [c]). by rewrite <- app_assoc.
      + exists d, c, []. split_and!; [done..|]. apply Forall_forall. intros x Hx Heq. apply Hno, Hseen.
        apply list_elem_of_fmap. by exists x. }
  unfold add_candidate, add_skill. destruct (decide (sr_Name c.2 ∈ acc.1)) as [Hs|Hs].
  - split_and!; [done| |done| |].
    + intros n. rewrite Hseen, fmap_app, elem_of_app. split; [by left|].
      intros [?|Hn]; [done|]. apply list_elem_of_singleton in Hn as ->. by apply Hseen.
    + intros rs. rewrite Hlast. naive_solver.
    + exists keep. split; [done|]. by apply sublist_inserts_r.
  - split_and!; simpl.
    + rewrite fmap_app. apply NoDup_app. split_and!; [done| |apply NoDup_singleton].
      intros n Hn Hn2. apply list_elem_of_singleton in Hn2 as ->. by apply Hs, Hnames.
    + intros n. rewrite elem_of_union, elem_of_singleton, fmap_app, elem_of_app, Hseen.
      simpl. rewrite list_elem_of_singleton. tauto.
    + intros n. rewrite elem_of_union, elem_of_singleton, fmap_app, elem_of_app, Hnames.
      simpl. rewrite list_elem_of_singleton. tauto.
    + intros rs. rewrite elem_of_app, list_elem_of_singleton, Hlast. tauto.
    + exists (keep ++ [c]). rewrite fmap_app, Hkeep. split; [done|]. by apply sublist_app.
Qed.

Lemma acc_ok_fold l : ∀ d acc, acc_ok d acc → acc_ok (d ++ l) (fold_left add_candidate l acc).
Proof.
  induction l as [|c l IH]; intros d acc Hok; simpl; [by rewrite app_nil_r|].
  rewrite (cons_middle c d l), app_assoc. by apply IH, acc_ok_step.
Qed.

Lemma acc_ok_nil : acc_ok [] (∅, []).
Proof.
  split_and!; simpl; [constructor|set_solver|set_solver| |by exists []].
  intros rs. split; [by intros ?%not_elem_of_nil|]. intros (l1 & c & l2 & H & _). by destruct l1.
Qed.

(** The candidates in order of priority. *)
Definition candidates (records : list SkillRecord) (installed : list TenantSkill) (published : list SkillRecord)
    (tenant : result goerror (option Tenant)) : list (Z * SkillRecord) :=
  ((1,.) <$> installed_records records installed)
  ++ match tenant with
     | Ok (Some t) => if str_empty (tn_GroupID t) then [] else (2,.) <$> of_tier SkillTierGroup published
     | _ => []
     end
  ++ ((3,.) <$> of_tier SkillTierGlobal published) ++ ((4,.) <$> of_tier SkillTierBuiltin published).

Lemma candidates_sorted records installed published tenant :
  StronglySorted Z.le ((candidates records installed published tenant).*1).
Proof.
  assert (∀ (p : Z) (l : list SkillRecord), Forall (λ x, x = p) ((p,.) <$> l).*1) as Hp.
  { intros p l. apply Forall_fmap, Forall_fmap, Forall_true. done. }
  assert (∀ (p : Z) l k, Forall (λ x, x = p) l → Forall (λ x, p ≤ x) k → StronglySorted Z.le k →
            StronglySorted Z.le (l ++ k)) as Happ.
  { intros p l k Hl Hk Hs. induction Hl as [|x l -> Hl IH]; simpl; [done|]. constructor; [done|].
    apply Forall_app. split; [|done]. eapply Forall_impl; [exact Hl|]. simpl. lia. }
  assert (∀ (p q : Z) l, p ≤ q → Forall (λ x, x = q) l → Forall (λ x, p ≤ x) l) as Hle.
  { intros p q l Hpq Hl. eapply Forall_impl; [exact Hl|]. simpl. lia. }
  unfold candidates. rewrite !fmap_app. apply (Happ 1); [apply Hp| |].
  - rewrite !Forall_app. split_and!; [|eapply Hle; [|apply Hp]; lia..].
    destruct tenant as [[t|]|]; [|constructor..]. destruct (str_empty _); [constructor|].
    eapply Hle; [|apply Hp]; lia.
  - apply (Happ 2).
    + destruct tenant as [[t|]|]; [|constructor..]. destruct (str_empty _); [constructor|apply Hp].
    + rewrite !Forall_app. split; (eapply Hle; [|apply Hp]; lia).
    + apply (Happ 3); [apply Hp|eapply Hle; [|apply Hp]; lia|].
      rewrite <- (app_nil_r (_ <$> _ : list Z)). apply (Happ 4); [apply Hp|constructor|constructor].
Qed.

Lemma StronglySorted_sublist {A} (R : A → A → Prop) l k :
  l `sublist_of` k → StronglySorted R k → StronglySorted R l.
Proof.
  induction 1 as [|x l k Hsub IH|x l k Hsub IH]; intros Hs; [done|..]; inversion Hs as [|? ? Hs' Hx]; subst.
  - constructor; [by apply IH|]. rewrite Forall_forall in *. intros y Hy. apply Hx. by eapply elem_of_sublist.
  - by apply IH.
Qed.

Lemma add_published_eq ListPublished GetTenant acc l :
  add_published ListPublished GetTenant acc = Some l →
  l = (fold_left add_candidate
         (candidates [] [] (match ListPublished with Ok l => l | Err _ => [] end) GetTenant) acc).2.
Proof.
  unfold add_published, candidates. simpl. rewrite !fold_left_app, <- !fold_add_skill.
  destruct GetTenant as [[t|]|]; [|done|]; [destruct (str_empty (tn_GroupID t))|];
    rewrite <- ?fold_add_skill; cbn [mbind option_bind]; by intros [= <-].
Qed.

Lemma LoadForTenant_eq ListInstalled GetByIDs ListPublished GetTenant l :
  LoadForTenant ListInstalled GetByIDs ListPublished GetTenant = Some (Ok l) →
  ∃ installed records, ListInstalled = Ok installed ∧ (installed = [] ∨ GetByIDs (ts_SkillID <$> installed) = Ok records)
    ∧ l = (fold_left add_candidate
             (candidates records installed (match ListPublished with Ok l => l | Err _ => [] end) GetTenant) (∅, [])).2.
Proof.
  unfold LoadForTenant, add_installed. destruct ListInstalled as [installed|e]; [|done]. cbn [result_bind].
  assert (∀ recs, candidates recs installed (match ListPublished with Ok l => l | Err _ => [] end) GetTenant
    = ((1,.) <$> installed_records recs installed)
      ++ candidates [] [] (match ListPublished with Ok l => l | Err _ => [] end) GetTenant) as Hc by done.
  intros H. destruct installed as [|ts installed].
  - exists [], []. split; [done|]. split; [by left|]. apply fmap_Some in H as (l' & H & [= ->]).
    by apply add_published_eq.
  - destruct (GetByIDs _) as [records|e] eqn:Hget; [|done]. cbn [result_bind] in H.
    apply fmap_Some in H as (l' & H & [= ->]). exists (ts :: installed), records.
    split; [done|]. split; [by right|]. rewrite Hc, fold_left_app, <- fold_add_skill. by apply add_published_eq.
Qed.

(** ** Lemmas: content *)


Section content_lemmas.
Context (base : list bytes) (content : string → string → string).
Context (Hbase : Forall plain base).

Abbreviation cache := (abs_path base).


Definition skill_dir (n v : string) : string := Join [cache; n; v].







(** *** Calls that run at the same time *)

Section interleaving.
Context (objGet : string → result goerror string).




















(** The steps of a call, with nothing between them. *)
Fixpoint call_run (steps : list (option goerror * nat)) (cl : call) (s : shared) : shared * call_pc :=
  match steps with
  | [] => (s, cl_pc cl)
  | (fail, k) :: steps => let '(s, pc) := resolve_step cache objGet fail k cl s in call_run steps (set_pc pc cl) s
  end.

(** The files of the directory are files. *)
Definition dir_ok (s : shared) : Prop := ∀ f i, sh_dir s !! f = Some i → (i < length (sh_files s))%nat.

Lemma view_dir s f : dir_ok s → (sh_dir s !! f = None ↔ disk (view s) !! f = None).
Proof.
  intros Hs. cbn. rewrite lookup_omap. destruct (sh_dir s !! f) as [i|] eqn:Hf; [|done]. cbn.
  by destruct (lookup_lt_is_Some_2 _ _ (Hs _ _ Hf)) as [x ->].
Qed.

Lemma view_cached k p s : view (set_cached k p s) = with_path k p (view s).
Proof. done. Qed.

Lemma view_forget n v w : view (cs_shared (cache_step cache objGet w (EvForget n v))) = InvalidateCache n v (view (cs_shared w)).
Proof. done. Qed.

Lemma view_remove dir w : view (cs_shared (cache_step cache objGet w (EvRemove dir))) = remove_all dir (view (cs_shared w)).
Proof.
  unfold view, remove_all. cbn. f_equal. apply map_eq. intros f. apply option_eq. intros x.
  rewrite lookup_omap, map_lookup_filter_Some, lookup_omap, !bind_Some. setoid_rewrite map_lookup_filter_Some. naive_solver.
Qed.

(** A file created and filled to [chunk]. *)
Lemma view_written f chunk s : dir_ok s → sh_dir s !! f = None →
  let '(s1, i) := open_new f s in view s1 = create_file f (view s) ∧ view (write_file i 0 chunk s1) = with_file f (l2s chunk) (view s).
Proof.
  intros Hs Hf. unfold open_new. rewrite Hf.
  assert (∀ x, omap (λ i, l2s <$> (sh_files s ++ [x]) !! i) (<[f := length (sh_files s)]> (sh_dir s))
    = <[f := l2s x]> (omap (λ i, l2s <$> sh_files s !! i) (sh_dir s))) as Hview.
  { intros x. apply map_eq. intros f'. rewrite lookup_omap. destruct (decide (f' = f)) as [->|Hne].
    - rewrite !lookup_insert_eq. cbn. by rewrite lookup_app_r, Nat.sub_diag.
    - rewrite !lookup_insert_ne, lookup_omap by done. destruct (sh_dir s !! f') as [i|] eqn:Hi; cbn; [|done].
      rewrite lookup_app_l by (by eapply Hs). done. }
  split; unfold view, create_file, with_file; cbn; f_equal; [apply (Hview [])|].
  rewrite <- Hview, alter_app_r_alt, Nat.sub_diag by done. cbn. unfold write_at. by rewrite ?drop_nil, ?app_nil_r.
Qed.

Lemma call_run_app l1 l2 cl s :
  call_run (l1 ++ l2) cl s = let '(s', pc) := call_run l1 cl s in call_run l2 (set_pc pc cl) s'.
Proof.
  revert cl s. induction l1 as [|[fail k] l1 IH]; intros cl s; cbn [app call_run]; [by destruct cl|].
  destruct (resolve_step _ _ _ _ _ _) as [s1 pc1]. rewrite IH. by destruct (call_run l1 _ s1).
Qed.

(** A call in the state [pc] that runs alone from [s] can end like [out]. *)
Definition runs_to (cl : call) (s : shared) (out : loader * result resolve_error string) : Prop :=
  ∃ steps, let '(s', pc) := call_run steps cl s in pc = Returned out.2 ∧ view s' = out.1.

Lemma runs_to_step fail k cl s out :
  (let '(s1, pc1) := resolve_step cache objGet fail k cl s in runs_to (set_pc pc1 cl) s1 out) → runs_to cl s out.
Proof. destruct (resolve_step _ _ _ _ _ _) as [s1 pc1] eqn:Hs. intros [steps H]. exists ((fail, k) :: steps). cbn [call_run]. by rewrite Hs. Qed.

Lemma runs_to_done cl s out : cl_pc cl = Returned out.2 → view s = out.1 → runs_to cl s out.
Proof. intros Hpc Hs. by exists []. Qed.

Lemma copy_alone n v o object k s out :
  let f := skill_file (skill_dir n v) in
  dir_ok s → sh_dir s !! f = None →
  (∀ s' i, view s' = copy_file k f object (create_file f (view s)) →
     runs_to {| cl_name := n; cl_version := v; cl_object := o; cl_pc := Copying (s2l object) i (length (take k (s2l object))) |} s' out) →
  runs_to {| cl_name := n; cl_version := v; cl_object := o; cl_pc := ToCreate (s2l object) |} s out.
Proof.
  intros f Hs Hf Hnext. apply (runs_to_step None 0). unfold resolve_step. cbn [cl_pc cl_name cl_version]. fold (skill_dir n v). fold f.
  pose proof (view_written f (take k (s2l object)) s Hs Hf) as Hview. destruct (open_new f s) as [s1 i]. destruct Hview as [Hv1 Hv2].
  assert (∀ x st, with_file f x (create_file f st) = with_file f x st) as Htwice
    by (intros x st; unfold create_file, with_file; cbn; by rewrite insert_insert_eq).
  destruct (s2l object) as [|b l] eqn:Ho.
  - rewrite take_nil in *. apply Hnext. unfold copy_file. by rewrite Ho, take_nil, Htwice, Hv1.
  - apply (runs_to_step None k). unfold resolve_step. cbn [set_pc cl_pc]. rewrite (proj2 (Nat.ltb_lt 0 _)) by (cbn; lia).
    rewrite drop_0. apply Hnext. unfold copy_file. by rewrite Ho, Htwice.
Qed.

Lemma write_alone fault n v o object s :
  dir_ok s → sh_dir s !! skill_file (skill_dir n v) = None →
  runs_to {| cl_name := n; cl_version := v; cl_object := o; cl_pc := ToMkdir (s2l object) |} s
    (write_skill fault (cache_key n v) (skill_dir n v) object (view s)).
Proof.
  intros Hs Hf. pose proof (ErrText "") as e.
  assert (∀ s' i out, runs_to {| cl_name := n; cl_version := v; cl_object := o; cl_pc := ToSync |} s' out →
    runs_to {| cl_name := n; cl_version := v; cl_object := o; cl_pc := Copying (s2l object) i (length (take (str_len object) (s2l object))) |} s' out) as Hend.
  { intros s' i out H. apply (runs_to_step None 0). unfold resolve_step. cbn [cl_pc]. unfold str_len. rewrite take_ge, Nat.ltb_irrefl by done. exact H. }
  destruct fault as [| | |k|].
  - apply (runs_to_step None 0), (copy_alone _ _ _ _ (str_len object)); [done|done|]. intros s' i Hv. apply Hend.
    apply (runs_to_step None 0), (runs_to_step None 0), runs_to_done; [done|]. cbn. fold (skill_dir n v). by rewrite view_cached, Hv.
  - by apply (runs_to_step (Some e) 0), runs_to_done.
  - by apply (runs_to_step None 0), (runs_to_step (Some e) 0), runs_to_done.
  - apply (runs_to_step None 0), (copy_alone _ _ _ _ k); [done|done|]. intros s' i Hv. by apply (runs_to_step (Some e) 0), runs_to_done.
  - apply (runs_to_step None 0), (copy_alone _ _ _ _ (str_len object)); [done|done|]. intros s' i Hv. apply Hend.
    by apply (runs_to_step (Some e) 0), runs_to_done.
Qed.

(** The steps of one call make up [ResolveContent]. *)
Lemma call_alone fault n v o s :
  dir_ok s →
  runs_to {| cl_name := n; cl_version := v; cl_object := o; cl_pc := ToLook |} s (ResolveContent cache objGet fault n v o (view s)).
Proof.
  intros Hs.
  assert (∀ s, dir_ok s → runs_to {| cl_name := n; cl_version := v; cl_object := o; cl_pc := ToStat |} s
    (pull_content cache objGet fault n v o (view s))) as Hpull.
  { clear s Hs. intros s Hs. unfold pull_content, on_disk. fold (skill_dir n v). pose proof (view_dir s (skill_file (skill_dir n v)) Hs) as Hv.
    apply (runs_to_step None 0). unfold resolve_step. cbn [cl_pc cl_name cl_version cl_object]. fold (skill_dir n v).
    destruct (sh_dir s !! skill_file (skill_dir n v)) as [i|] eqn:Hf.
    - rewrite bool_decide_true by (rewrite <- not_eq_None_Some; by rewrite <- Hv). by apply (runs_to_step None 0), runs_to_done.
    - rewrite bool_decide_false by (rewrite <- eq_None_not_Some; by apply Hv). destruct (str_empty o); [by apply runs_to_done|].
      apply (runs_to_step None 0). unfold resolve_step. cbn [set_pc cl_pc cl_name cl_version cl_object].
      destruct (objGet o) as [c|e]; [by apply write_alone|by apply runs_to_done]. }
  apply (runs_to_step None 0). unfold ResolveContent, resolve_step. cbn [cl_pc cl_name cl_version view pathCache].
  destruct (sh_paths s !! cache_key n v) as [p|]; [|by apply Hpull].
  apply (runs_to_step None 0). unfold resolve_step. cbn [set_pc cl_pc]. pose proof (view_dir s (skill_file p) Hs) as Hv. unfold on_disk.
  destruct (sh_dir s !! skill_file p) as [i|] eqn:Hf.
  - rewrite bool_decide_true by (rewrite <- not_eq_None_Some; by rewrite <- Hv). by apply runs_to_done.
  - rewrite bool_decide_false by (rewrite <- eq_None_not_Some; by apply Hv). apply (runs_to_step None 0). cbn.
    rewrite <- view_cached. by apply Hpull.
Qed.

End interleaving.
End content_lemmas.

(** ** Lemmas: frontmatter *)

Lemma lazy_any_cons prev c l :
  rmatch (RLazy re_any) (prev, c :: l) = (prev, c :: l) :: rmatch (RLazy re_any) (Some c, l).
Proof.
  cbn [rmatch snd length lazy_iter re_any flat_map]. f_equal.
  rewrite (proj2 (Nat.ltb_lt _ _)) by lia. by rewrite app_nil_r.
Qed.

Definition dashes : bytes := s2l "---".

(** No closing line starts inside the text before it. *)
Lemma close_not_yet prev s body :
  s ≠ [] → CR ∉ s → contains_bytes s (LF :: dashes) = false →
  rmatch (RSeq re_newline (rstr "---")) (prev, s ++ LF :: dashes ++ LF :: body) = [].
Proof.
  intros Hne Hcr Hno. destruct s as [|c s]; [done|].
  assert (c ≠ CR) as Hc by set_solver.
  change (flat_map (rmatch (rstr "---")) (rmatch re_newline (prev, c :: s ++ LF :: dashes ++ LF :: body)) = []).
  assert (rmatch re_newline (prev, c :: s ++ LF :: dashes ++ LF :: body) =
    if Ascii.eqb LF c then [(Some c, s ++ LF :: dashes ++ LF :: body)] else []) as ->.
  { cbn [re_newline rmatch rbyte rseq foldr fmap list_fmap snd flat_map].
    destruct (Ascii.eqb_spec CR c); [by subst|]. cbn [flat_map app]. by destruct (Ascii.eqb LF c). }
  destruct (Ascii.eqb_spec LF c) as [<-|]; [|done]. cbn [flat_map app]. rewrite app_nil_r.
  assert (∀ b, contains_bytes (LF :: s) (LF :: dashes) = true ∨ s ++ b ≠ dashes ++ drop 3 (s ++ b) ∨ (length s < 3)%nat) as Hpre.
  { intros b. destruct (decide (length s < 3)%nat); [tauto|].
    destruct (decide (s ++ b = dashes ++ drop 3 (s ++ b))) as [Heq|]; [|tauto]. left.
    apply contains_bytes_spec. destruct s as [|x [|y [|z s]]]; simpl in *; try lia.
    injection Heq as -> -> ->. by exists [], s. }
  destruct (Hpre (LF :: dashes ++ LF :: body)) as [H|[H|H]].
  - rewrite H in Hno. done.
  - destruct s as [|x [|y [|z s]]]; cbn [app rstr rmatch rseq foldr fmap list_fmap snd rbyte s2l list_ascii_of_string flat_map].
    1-3: repeat (match goal with |- context [if Ascii.eqb ?a ?b then _ else _] =>
      destruct (Ascii.eqb_spec a b); simplify_eq end; cbn [flat_map app snd]); done.
    repeat (match goal with |- context [if Ascii.eqb ?a ?b then _ else _] =>
      destruct (Ascii.eqb_spec a b); simplify_eq end; cbn [flat_map app snd]); try done.
  - destruct s as [|x [|y [|z s]]]; simpl in H; try lia;
    cbn [app rstr rmatch rseq foldr fmap list_fmap snd rbyte s2l list_ascii_of_string flat_map];
    repeat (match goal with |- context [if Ascii.eqb ?a ?b then _ else _] =>
      destruct (Ascii.eqb_spec a b); simplify_eq end; cbn [flat_map app snd]); done.
Qed.

(** The group ends at the first closing line. *)
Lemma lazy_first fm body prev (F : pos → list (bytes * pos)) :
  CR ∉ fm → contains_bytes fm (LF :: dashes) = false →
  (∀ q, rmatch (RSeq re_newline (rstr "---")) q = [] → F q = []) →
  ∃ prev' rest, flat_map F (rmatch (RLazy re_any) (prev, fm ++ LF :: dashes ++ LF :: body))
                = F (prev', LF :: dashes ++ LF :: body) ++ rest.
Proof.
  intros Hcr Hno HF. revert prev. induction fm as [|c fm IH]; intros prev.
  - simpl app. rewrite lazy_any_cons. cbn [flat_map]. eauto.
  - cbn [app]. rewrite lazy_any_cons. cbn [flat_map].
    rewrite HF by (by apply (close_not_yet prev (c :: fm) body)). cbn [app].
    apply IH; [set_solver|]. clear -Hno. cbn [contains_bytes] in Hno.
    by destruct (strip_prefix (LF :: dashes) (c :: fm)).
Qed.

Lemma close_here prev body :
  rmatch (RSeq re_newline (rstr "---")) (prev, LF :: dashes ++ LF :: body) = [(Some "-"%char, LF :: body)].
Proof. by vm_compute. Qed.

Lemma frontmatter_first fm body :
  CR ∉ fm → contains_bytes fm (LF :: dashes) = false →
  ∃ rest, frontmatter_matches (dashes ++ LF :: fm ++ LF :: dashes ++ LF :: body)
          = (fm, (Some "-"%char, LF :: body)) :: rest.
Proof.
  intros Hcr Hno. unfold frontmatter_matches.
  assert (rmatch (RSeq (rstr "---") re_newline) (None, dashes ++ LF :: fm ++ LF :: dashes ++ LF :: body)
          = [(Some LF, fm ++ LF :: dashes ++ LF :: body)]) as ->.
  { generalize (fm ++ LF :: dashes ++ LF :: body). intros l. by vm_compute. }
  cbn [flat_map]. rewrite app_nil_r.
  set (F := λ q : pos, _).
  destruct (lazy_first fm body (Some LF) F) as (prev' & rest & Heq); [done|done| |].
  { intros q Hq. unfold F. by rewrite Hq. }
  exists rest. etrans; [exact Heq|]. unfold F. rewrite close_here. cbn [fmap list_fmap app snd].
  do 2 f_equal. rewrite length_app, Nat.add_sub. by rewrite take_app_length.
Qed.

Definition newline_byte (c : ascii) : bool := Ascii.eqb c LF || Ascii.eqb c CR.

(** The newlines after the closing line. *)
Lemma strip_newline body :
  match body with c :: _ => newline_byte c = false | [] => True end →
  ∃ rest, rmatch (RStar re_newline) (Some "-"%char, LF :: body) = (Some LF, body) :: rest.
Proof.
  intros Hb. cbn [rmatch snd length star_iter].
  assert (∀ prev, rmatch re_newline (prev, LF :: body) = [(Some LF, body)]) as Hn by (intros; by vm_compute).
  rewrite Hn. cbn [flat_map snd length]. rewrite (proj2 (Nat.ltb_lt _ _)) by lia. rewrite app_nil_r.
  assert (∀ n, star_iter (rmatch re_newline) n (Some LF, body) = [(Some LF, body)]) as ->; [|eauto].
  intros [|n]; [done|]. cbn [star_iter].
  assert (rmatch re_newline (Some LF, body) = []) as ->; [|done].
  destruct body as [|c body]; [done|]. apply orb_false_iff in Hb as [H1 H2].
  cbn [re_newline rmatch rbyte rseq foldr fmap list_fmap snd flat_map].
  rewrite (Ascii.eqb_sym CR c), (Ascii.eqb_sym LF c), H1, H2. done.
Qed.

(** ** Properties *)

(** A tenant sees each skill name once, as the first candidate of that name in the order of
    priority: the installed skills in the order of installation, the group skills if the
    tenant has a group, the global and the builtin ones; priorities never decrease along
    the list, and only the queries of the installed skills can fail the load. *)
Theorem LoadForTenant_spec ListInstalled GetByIDs ListPublished GetTenant :
  (∀ l, LoadForTenant ListInstalled GetByIDs ListPublished GetTenant = Some (Ok l) →
    ∃ installed records,
      ListInstalled = Ok installed ∧ (installed = [] ∨ GetByIDs (ts_SkillID <$> installed) = Ok records)
      ∧ let cands := candidates records installed (match ListPublished with Ok p => p | Err _ => [] end) GetTenant in
        NoDup (rs_name <$> l)
        ∧ StronglySorted Z.le (rs_Priority <$> l)
        ∧ (∀ n, n ∈ rs_name <$> l ↔ n ∈ (λ c, sr_Name c.2) <$> cands)
        ∧ (∀ rs, rs ∈ l ↔ ∃ l1 c l2, cands = l1 ++ c :: l2 ∧ rs = resolve c.1 c.2
                 ∧ Forall (λ c', sr_Name c'.2 ≠ sr_Name c.2) l1))
  ∧ (GetTenant ≠ Ok None → ∀ installed, ListInstalled = Ok installed →
       installed = [] ∨ is_ok (GetByIDs (ts_SkillID <$> installed)) = true →
       ∃ l, LoadForTenant ListInstalled GetByIDs ListPublished GetTenant = Some (Ok l)).
Proof.
  split.
  - intros l (installed & records & Hi & Hr & ->)%LoadForTenant_eq. exists installed, records.
    split; [done|]. split; [done|]. intros cands. fold cands.
    destruct (acc_ok_fold cands [] _ acc_ok_nil) as (Hnd & Hseen & Hnames & Hin & keep & Hkeep & Hsub).
    split; [done|]. split; [|split; [|exact Hin]].
    + rewrite Hkeep, <- list_fmap_compose. apply (StronglySorted_sublist _ _ (cands.*1)); [|apply candidates_sorted].
      change (keep.*1 `sublist_of` cands.*1). by apply fmap_sublist.
    + intros n. by rewrite <- Hnames, Hseen.
  - intros Ht installed -> Hg. unfold LoadForTenant, add_installed. cbn [result_bind].
    assert (∀ acc, ∃ l, add_published ListPublished GetTenant acc = Some l) as Hadd.
    { intros acc. unfold add_published. destruct GetTenant as [[t|]|]; [by eexists|done|by eexists]. }
    destruct installed as [|ts installed].
    + destruct (Hadd (∅, [])) as [l ->]. by exists l.
    + destruct Hg as [|Hg]; [done|]. destruct (GetByIDs _) as [records|]; [|done]. cbn [result_bind].
      edestruct Hadd as [l ->]. by exists l.
Qed.

(** The frontmatter of a SKILL.md and its body are separated exactly: for a frontmatter
    without carriage returns and without a line that starts with three dashes, and a body
    that does not start with a newline. *)
Theorem frontmatter_roundtrip fm body
  (Hcr : CR ∉ s2l fm) (Hno : contains fm (lf +:+ "---") = false)
  (Hbody : match s2l body with c :: _ => newline_byte c = false | [] => True end) :
  let content := "---" +:+ lf +:+ fm +:+ lf +:+ "---" +:+ lf +:+ body in
  extractFrontmatter content = fm ∧ StripFrontmatter content = body.
Proof.
  intros content. unfold extractFrontmatter, StripFrontmatter.
  assert (s2l content = dashes ++ LF :: s2l fm ++ LF :: dashes ++ LF :: s2l body) as ->.
  { unfold content. by autorewrite with abot_str. }
  destruct (frontmatter_first (s2l fm) (s2l body)) as [rest ->]; [done|exact Hno|].
  split; [apply l2s_s2l|]. cbn [flat_map snd].
  destruct (strip_newline (s2l body) Hbody) as [rest' ->]. cbn [app]. apply l2s_s2l.
Qed.


(** ** In-memory stores *)

#[local] Instance mem_registry : SkillRegistryStore (gmap string SkillRecord) := {
  srs_Get := λ n s, match s !! n with Some r => Ok (Some r) | None => Err (ErrText "record not found") end;
  srs_GetByIDs := λ ids s, Ok (filter (λ r, sr_ID r ∈ ids) (map_to_list s).*2);
  srs_GetByID := λ i s, Ok (list_find (λ r, sr_ID r = i) (map_to_list s).*2 ≫= λ p, Some p.2);
  srs_List := λ o s, Ok (filter (λ r, sr_Status r = slo_Status o) (map_to_list s).*2);
  srs_Put := λ r s, (<[sr_Name r := r]> s, None);
  srs_Delete := λ n s, (delete n s, None);
}.
#[local] Instance mem_objects : ObjectStore (gmap string string) := {
  obj_Put := λ p d s, (<[p := d]> s, None);
  obj_Get := λ p s, match s !! p with Some d => Ok d | None => Err (ErrText "no such object") end;
  obj_Delete := λ p s, (delete p s, None);
}.

Definition w_record (name : string) (tier : SkillTier) : SkillRecord :=
  {| sr_ID := 1; sr_Name := name; sr_Description := ""; sr_Version := "1"; sr_ObjectPath := "o"; sr_Tier := tier;
     sr_AlwaysLoad := false; sr_Status := StatusPublished; sr_Metadata := []; sr_CreatedAt := 0; sr_UpdatedAt := 0 |}.

Definition w_skill_md : string := "---" +:+ lf +:+ "name: memory" +:+ lf +:+ "---" +:+ lf +:+ "text".

(** Installing from a repository stores the first megabyte of its SKILL.md under the path of
    the repository's name and registers the record made of it, only if that name is valid
    and not registered; a failure before the upload changes nothing, and one while
    registering leaves the object behind.  The name registered is the one of the
    frontmatter, which is not checked: installing a repository whose SKILL.md names
    another skill overwrites that skill's record. *)
Theorem InstallFromGitHub_spec {R O} `{SkillRegistryStore R} `{ObjectStore O} json http repo now (reg : R) (obj : O) :
  (∀ reg' obj' rec, InstallFromGitHub json http repo now reg obj = (reg', obj', Ok rec) →
     ValidateSkillName (Base repo) = None ∧ (∀ r, srs_Get (Base repo) reg ≠ Ok (Some r))
     ∧ ∃ b, http (github_url repo) = Ok (200, Ok b)
       ∧ let body := l2s (take (Z.to_nat maxSkillFileSize) (s2l b)) in
         obj_Put (github_object (Base repo)) body obj = (obj', None)
         ∧ rec = github_record json repo body (github_object (Base repo)) (Base repo) now
         ∧ srs_Put rec reg = (reg', None))
  ∧ (∀ reg' obj' e, InstallFromGitHub json http repo now reg obj = (reg', obj', Err e) →
       match e with
       | ErrUpload _ => reg' = reg
       | ErrRegister _ => ∃ body rec, obj_Put (github_object (Base repo)) body obj = (obj', None) ∧ (srs_Put rec reg).1 = reg'
       | _ => reg' = reg ∧ obj' = obj
       end)
  ∧ (let before := {[ "memory"%string := w_record "memory" SkillTierBuiltin ]} : gmap string SkillRecord in
     let '(after, _, r) := InstallFromGitHub (λ _, None) (λ _, Ok (200, Ok w_skill_md)) "eve/notes" 0 before
                             (∅ : gmap string string) in
     is_ok r = true ∧ sr_Tier <$> after !! "memory"%string = Some SkillTierGlobal ∧ after !! "notes"%string = None).
Proof.
  assert (∀ url n, match fetchURL http url n with
    | Ok body => ∃ b, http url = Ok (200, Ok b) ∧ body = l2s (take (Z.to_nat n) (s2l b))
    | Err e => (∃ s, e = ErrHTTP s) ∨ ∃ g, e = ErrRequest g
    end) as Hfetch.
  { intros url n. unfold fetchURL. destruct (http url) as [[status [b|g]]|g]; [..|eauto];
      (destruct (Z.eqb_spec status 200) as [->|]; simpl; eauto). }
  specialize (Hfetch (github_url repo) maxSkillFileSize).
  split; [|split; [|by vm_compute]]; intros reg' obj' x Heq; unfold InstallFromGitHub in Heq;
    (destruct (ValidateSkillName (Base repo)) as [ne|]; [by simplify_eq|]);
    (destruct (srs_Get (Base repo) reg) as [[r|]|g] eqn:Hget; [by simplify_eq|..]);
    (destruct (fetchURL http (github_url repo) maxSkillFileSize) as [body|ie];
      [destruct Hfetch as (b & Hhttp & ->)|by simplify_eq; destruct Hfetch as [[? ->]|[? ->]]]);
    (destruct (obj_Put _ _ obj) as [obj1 [g1|]] eqn:Hput; [by simplify_eq|]);
    (destruct (srs_Put _ reg) as [reg1 [g2|]] eqn:Hreg; simplify_eq).
  1-2: split_and!; [done|by intros|by exists b].
  1-2: eexists _, _; split; [exact Hput|by rewrite Hreg].
Qed.

(** ** Witnesses *)

Lemma frontmatter_roundtrip_witness : StripFrontmatter w_skill_md = "text"%string.
Proof. refine (proj2 (frontmatter_roundtrip "name: memory" "text" _ _ _)); [apply (bool_decide_unpack _); by vm_compute|by vm_compute|done]. Defined.

Definition w_get (p : string) : result goerror string := Ok "content of notes"%string.

(** Two calls at the same time: the second finds the file when the first has copied ten
    bytes, and returns. *)
Definition w_events (copied : nat) : list cache_event :=
  [EvCall "notes" "1" "o"; EvCall "notes" "1" "o"] ++ (EvStep 0 None <$> [0; 0; 0; 0; 0; copied]%nat).
Definition w_second : list cache_event := EvStep 1 None <$> [0; 0; 0]%nat.
Definition w_calls (evs : list cache_event) : calls := fold_left (cache_step "/cache" w_get) evs no_calls.

Lemma partial_file_is_served :
  let w := w_calls (w_events 10 ++ w_second) in
  cl_pc <$> cs_calls w !! 1%nat = Some (Returned (Ok "/cache/notes/1"%string))
  ∧ LoadSkillContent "/cache/notes/1" (view (cs_shared w)) = Some "content of"%string.
Proof. split; by vm_compute. Qed.


