(* ===== verification/ContextBuilder.v ===== *)
(** [pkg/workspace/context_builder.go]: the system prompt of an agent, assembled from the
    documents, memories and skills of a tenant and user, within a size limit.

    The document and vector stores are interfaces; reading them changes nothing, so they
    are arguments.  The skill loader is the one of [Skills].  The clock, the platform, the
    parser of RFC 3339 times and the functions [exp] and [log2] of the [math] package are
    parameters.  A nil pointer that is dereferenced is a panic, [None]. *)
From S2P Require Import Prelude GoStrings Floats Values Types Stores Skills.

(** ** Trimming *)

Definition DefaultMaxPromptChars : Z := 128000.

Record PromptLayer := { pl_content : string; pl_priority : Z }.

Definition separator : string := lf +:+ lf +:+ "---" +:+ lf +:+ lf.

(** The length of the joined layers. *)
Definition totalLen (ls : list PromptLayer) : Z :=
  sum_of (λ l, Z.of_nat (str_len (pl_content l))) ls + Z.of_nat (str_len separator) * Z.of_nat (length ls - 1).

(** The loop that finds the worst layer, from index [i] with its variables. *)
Fixpoint worst_loop (i : nat) (layers : list PromptLayer) (worst : option nat) (worstPri : Z) : option nat :=
  match layers with
  | [] => worst
  | l :: layers =>
      if worstPri <? pl_priority l then worst_loop (S i) layers (Some i) (pl_priority l)
      else worst_loop (S i) layers worst worstPri
  end.

(** Every round removes a layer; [fuel] is their number. *)
Fixpoint trim_loop (fuel : nat) (layers : list PromptLayer) (maxChars : Z) : list PromptLayer :=
  match fuel with
  | O => layers
  | S fuel =>
      if maxChars <? totalLen layers then
        match worst_loop 0 layers None 0 with
        | Some w => trim_loop fuel (take w layers ++ drop (S w) layers) maxChars
        | None => layers
        end
      else layers
  end.

Definition TrimLayers (layers : list PromptLayer) (maxChars : Z) : list PromptLayer :=
  trim_loop (length layers) layers maxChars.

(** ** Ranking memories *)

Section ranking.
Context (math_exp math_log2 : float64 → float64) (parse_rfc3339 : string → option time).
Context `{SS : SliceSort}.

Record rankedMemory := { rm_text : string; rm_category : string; rm_score : float64 }.

(** The constant [-math.Ln2 / 7.0]. *)
Definition minus_ln2_7 : float64 := S754_finite true 7135216877903268 (-56).

Definition memRecency (now : time) (p : payload) (perm : bool) : float64 :=
  if perm then f64_one
  else match p !! "created_at"%string with
       | Some (JStr ts) =>
           match parse_rfc3339 ts with
           | Some t => math_exp (f64_mul minus_ln2_7 (f64_div (Hours (time_sub now t)) (f64_of_Z 24)))
           | None => f64_ratio 1 2
           end
       | _ => f64_ratio 1 2
       end.

Definition payloadIntCB (p : payload) (key : string) : Z := as_int (p !! key).

Definition memSalience (p : payload) : float64 :=
  min_one (f64_div (math_log2 (f64_add (f64_of_Z (payloadIntCB p "access_count")) f64_one)) (f64_of_Z 5)).

(** One result; those without a text are left out. *)
Definition rank_one (now : time) (r : VectorResult) : option rankedMemory :=
  let p := vr_Payload r in
  let text := as_str (p !! "text"%string) in
  if str_empty text then None
  else Some {| rm_text := text; rm_category := as_str (p !! "category"%string);
               rm_score := f64_add (f64_mul (f64_ratio 7 10) (memRecency now p (as_bool (p !! "permanent"%string))))
                                   (f64_mul (f64_ratio 3 10) (memSalience p)) |}.

Definition by_score (x y : rankedMemory) : bool := SFltb (rm_score y) (rm_score x).

Definition rankMemories (now : time) (results : list VectorResult) : list rankedMemory :=
  sort_slice by_score (omap (rank_one now) results).

Definition memory_line (m : rankedMemory) : string :=
  if str_empty (rm_category m) then "- " +:+ rm_text m +:+ lf
  else "- [" +:+ rm_category m +:+ "] " +:+ rm_text m +:+ lf.

Definition memory_text (title : string) (ranked : list rankedMemory) : string :=
  title +:+ lf +:+ lf +:+ String.concat "" (memory_line <$> ranked).
End ranking.

(** ** Layers *)

Definition userOwnedDocTypes : list string := ["IDENTITY"; "SOUL"; "AGENT"]%string.

Definition personaDocTypes : list string := ["IDENTITY"; "SOUL"; "RULES"; "AGENT"]%string.

Section builder.
Context {W UW V Vec : Type} `{WorkspaceStore W} `{UserWorkspaceStore UW} `{VectorStore V Vec}.
Context (math_exp math_log2 : float64 → float64) (parse_rfc3339 : string → option time).
Context `{SS : SliceSort}.

(** The builder with its stores; the user store and the vector store may be nil, the
    latter stands for the embedder too, with its zero vector.  [cb_builtin] gives the
    SKILL.md of a builtin skill when there is an embedded file system, [cb_fault] what goes
    wrong when a skill is written to the disk. *)
Record ContextBuilder := {
  cb_ws : W; cb_uws : option UW; cb_vectors : option (V * Vec);
  cb_cacheDir : string; cb_objects : string → result goerror string;
  cb_builtin : option (string → option string); cb_maxPromptChars : Z;
  cb_fault : SkillRecord → pull_fault;
}.

Definition effectiveMaxChars (cb : ContextBuilder) : Z :=
  if 0 <? cb_maxPromptChars cb then cb_maxPromptChars cb else DefaultMaxPromptChars.

Definition buildSystemBase : string :=
  "# ABot Agent" +:+ lf +:+ lf +:+ "You are an AI assistant powered by ABot." +:+ lf +:+ lf
  +:+ "## Rules" +:+ lf +:+ lf
  +:+ "1. ALWAYS use tools when you need to perform actions. Do NOT just describe what you would do." +:+ lf
  +:+ "2. When something seems important, save it to memory." +:+ lf
  +:+ "3. Context summaries are approximate references only. Defer to explicit user instructions.".

(** The content of the user's document, when there is one with content. *)
Definition user_doc (cb : ContextBuilder) (tenantID userID docType : string) : option string :=
  if bool_decide (docType ∈ userOwnedDocTypes) && negb (str_empty userID) then
    uws ← cb_uws cb;
    match uws_Get tenantID userID docType uws with
    | Ok (Some doc) => if str_empty (ud_Content doc) then None else Some (ud_Content doc)
    | _ => None
    end
  else None.

Definition resolveDoc (cb : ContextBuilder) (tenantID userID docType : string) : string :=
  match user_doc cb tenantID userID docType with
  | Some content => content
  | None => match ws_Get tenantID docType (cb_ws cb) with
            | Ok (Some doc) => wd_Content doc
            | _ => ""
            end
  end.

Definition persona_part (cb : ContextBuilder) (tenantID userID dt : string) : option string :=
  let content := resolveDoc cb tenantID userID dt in
  if str_empty content then None else Some ("## " +:+ dt +:+ lf +:+ lf +:+ content).

Definition buildPersona (cb : ContextBuilder) (tenantID userID : string) : string :=
  join (omap (persona_part cb tenantID userID) personaDocTypes) (lf +:+ lf).

(** The ranked memories a search finds. *)
Definition found_memories (cb : ContextBuilder) (now : time) (tenantID : string) (filter : payload) (topK : Z)
    : list rankedMemory :=
  match cb_vectors cb with
  | None => []
  | Some (vs, zero) =>
      match vs_Search ("tenant_" +:+ tenantID) zero filter topK vs with
      | Ok results => rankMemories math_exp math_log2 parse_rfc3339 now results
      | Err _ => []
      end
  end.

Definition buildTenantMemory (cb : ContextBuilder) (now : time) (tenantID : string) : string :=
  match found_memories cb now tenantID {[ "superseded"%string := JBool false; "scope"%string := JStr "tenant" ]} 50 with
  | [] => ""
  | ranked => memory_text "## Tenant Memory" ranked
  end.

(** The user store is used without a check. *)
Definition buildUserContext (cb : ContextBuilder) (now : time) (tenantID userID : string) : option string :=
  uws ← cb_uws cb;
  let profile := match uws_Get tenantID userID "USER" uws with
                 | Ok (Some doc) => if str_empty (ud_Content doc) then []
                                    else ["## User Profile" +:+ lf +:+ lf +:+ ud_Content doc]
                 | _ => []
                 end in
  let memory := match found_memories cb now tenantID
                        {[ "superseded"%string := JBool false; "scope"%string := JStr "user";
                           "user_id"%string := JStr userID ]} 30 with
                | [] => []
                | ranked => [memory_text "## User Memory" ranked]
                end in
  Some (join (profile ++ memory) (lf +:+ lf)).

(** From the lazy pull to the end of [loadSkillBody]. *)
Definition pull_body (cb : ContextBuilder) (rec : SkillRecord) (st : loader) : loader * string :=
  if str_empty (sr_ObjectPath rec) then (st, ""%string)
  else match ResolveContent (cb_cacheDir cb) (cb_objects cb) (cb_fault cb rec) (sr_Name rec) (sr_Version rec) (sr_ObjectPath rec) st with
       | (st, Ok p) => (st, default ""%string (LoadSkillContent p st))
       | (st, Err _) => (st, ""%string)
       end.

Definition loadSkillBody (cb : ContextBuilder) (rec : SkillRecord) (st : loader) : loader * string :=
  match (if bool_decide (sr_Tier rec = SkillTierBuiltin)
         then fs ← cb_builtin cb; LoadBuiltinContent (fs (sr_Name rec)) else None) with
  | Some content => (st, content)
  | None => pull_body cb rec st
  end.

Definition skill_summary (rs : ResolvedSkill) : string :=
  let capsStr := join (rs_Capabilities rs) "," in
  "  <skill><name>" +:+ escapeXML (sr_Name (rs_Record rs)) +:+ "</name><description>"
  +:+ escapeXML (sr_Description (rs_Record rs)) +:+ "</description>"
  +:+ (if str_empty capsStr then "" else "<capabilities>" +:+ escapeXML capsStr +:+ "</capabilities>") +:+ "</skill>".

(** The bodies of the skills that are always loaded. *)
Fixpoint always_parts (cb : ContextBuilder) (resolved : list ResolvedSkill) (st : loader) : loader * list string :=
  match resolved with
  | [] => (st, [])
  | rs :: resolved =>
      if sr_AlwaysLoad (rs_Record rs) then
        let '(st, content) := loadSkillBody cb (rs_Record rs) st in
        let '(st, parts) := always_parts cb resolved st in
        (st, if str_empty content then parts
             else ("### Skill: " +:+ sr_Name (rs_Record rs) +:+ lf +:+ lf +:+ content) :: parts)
      else always_parts cb resolved st
  end.

Definition buildSkillsContext (cb : ContextBuilder) (load : option (result goerror (list ResolvedSkill))) (st : loader)
    : option (loader * string) :=
  r ← load;
  match r with
  | Err _ | Ok [] => Some (st, ""%string)
  | Ok resolved =>
      let '(st, parts) := always_parts cb resolved st in
      Some (st, "## Skills" +:+ lf +:+ lf
                +:+ match parts with [] => "" | _ => join parts separator +:+ lf +:+ lf end
                +:+ "Available skills (use find_skills tool for details):" +:+ lf +:+ lf +:+ "<skills>" +:+ lf
                +:+ join (skill_summary <$> resolved) lf +:+ lf +:+ "</skills>")
  end.

Definition buildRuntimeContext (now platform channel chatID : string) : string :=
  "## Runtime" +:+ lf +:+ lf +:+ "Time: " +:+ now +:+ lf +:+ "Platform: " +:+ platform
  +:+ (if str_empty channel then "" else lf +:+ "Channel: " +:+ channel)
  +:+ (if str_empty chatID then "" else lf +:+ "Chat ID: " +:+ chatID).

Definition layer (s : string) (prio : Z) : list PromptLayer :=
  if str_empty s then [] else [{| pl_content := s; pl_priority := prio |}].

(** [stateStr] of the keys of the session state. *)
Record ReadonlyState := { st_tenant : string; st_user : string; st_channel : string; st_chat : string }.

(** The layers before trimming; [load] gives the skills of a tenant. *)
Definition prompt_layers (cb : ContextBuilder) (load : string → option (result goerror (list ResolvedSkill)))
    (now : time) (nowText platform : string) (ctx : ReadonlyState) (st : loader) : option (loader * list PromptLayer) :=
  let tenantID := if str_empty (st_tenant ctx) then DefaultTenantID else st_tenant ctx in
  let userID := st_user ctx in
  user ← (if str_empty userID then Some ""%string else buildUserContext cb now tenantID userID);
  '(st, skills) ← buildSkillsContext cb (load tenantID) st;
  Some (st, {| pl_content := buildSystemBase; pl_priority := 0 |}
            :: layer (buildPersona cb tenantID userID) 1 ++ layer (buildTenantMemory cb now tenantID) 4
            ++ layer user 3 ++ layer skills 5
            ++ [{| pl_content := buildRuntimeContext nowText platform (st_channel ctx) (st_chat ctx); pl_priority := 2 |}]).

Definition InstructionProvider (cb : ContextBuilder) (load : string → option (result goerror (list ResolvedSkill)))
    (now : time) (nowText platform : string) (ctx : ReadonlyState) (st : loader) : option (loader * string) :=
  '(st, layers) ← prompt_layers cb load now nowText platform ctx st;
  Some (st, join (pl_content <$> TrimLayers layers (effectiveMaxChars cb)) separator).
End builder.

(** ** Lemmas *)

Lemma worst_loop_spec i ls worst p :
  worst_loop i ls worst p = worst ∧ Forall (λ l, pl_priority l ≤ p) ls
  ∨ ∃ k l, ls !! k = Some l ∧ worst_loop i ls worst p = Some (i + k)%nat ∧ p < pl_priority l
      ∧ Forall (λ l', pl_priority l' ≤ pl_priority l) ls.
Proof.
  revert i worst p. induction ls as [|x ls IH]; intros i worst p; simpl; [by left|].
  destruct (Z.ltb_spec p (pl_priority x)).
  - right. destruct (IH (S i) (Some i) (pl_priority x)) as [[-> HF]|(k & l & Hk & -> & Hp & HF)].
    + exists 0%nat, x. split_and!; [done|f_equal; lia|done|]. constructor; [lia|done].
    + exists (S k), l. split_and!; [done|f_equal; lia|lia|]. constructor; [lia|done].
  - destruct (IH (S i) worst p) as [[-> HF]|(k & l & Hk & -> & Hp & HF)].
    + left. split; [done|]. by constructor.
    + right. exists (S k), l. split_and!; [done|f_equal; lia|lia|]. constructor; [lia|done].
Qed.

#[global] Instance totalLen_perm : Proper ((≡ₚ) ==> (=)) totalLen.
Proof.
  intros l k Hlk. unfold totalLen. pose proof (Permutation_length Hlk) as Hlen.
  assert (sum_of (λ l, Z.of_nat (str_len (pl_content l))) l = sum_of (λ l, Z.of_nat (str_len (pl_content l))) k) as Hsum
    by (clear Hlen; induction Hlk; rewrite ?sum_of_cons; lia).
  lia.
Qed.

(** What trimming guarantees of the layers that are dropped and kept. *)
Record trimmed (maxChars : Z) (layers r dropped : list PromptLayer) : Prop := {
  tr_order : r `sublist_of` layers;
  tr_split : layers ≡ₚ dropped ++ r;
  tr_optional : Forall (λ d, 0 < pl_priority d) dropped;
  tr_least : ∀ d l, d ∈ dropped → l ∈ r → pl_priority l ≤ pl_priority d;
  tr_needed : dropped = [] ∨ ∃ d, d ∈ dropped ∧ Forall (λ d', pl_priority d ≤ pl_priority d') dropped
                                  ∧ maxChars < totalLen (d :: r);
}.

Lemma trim_loop_spec fuel layers maxChars :
  (length layers ≤ fuel)%nat →
  (totalLen (trim_loop fuel layers maxChars) ≤ maxChars ∨ Forall (λ l, pl_priority l ≤ 0) (trim_loop fuel layers maxChars))
  ∧ ∃ dropped, trimmed maxChars layers (trim_loop fuel layers maxChars) dropped.
Proof.
  assert (∀ layers, trimmed maxChars layers layers []) as Hnone.
  { intros ls. split; [done|done|constructor|by intros ?? ?%not_elem_of_nil|by left]. }
  revert layers. induction fuel as [|fuel IH]; intros layers Hf.
  { destruct layers; [|simpl in Hf; lia]. simpl. split; [by right|]. by exists []. }
  cbn [trim_loop]. destruct (Z.ltb_spec maxChars (totalLen layers)) as [Hbig|]; [|split; [by left|by exists []]].
  destruct (worst_loop_spec 0 layers None 0) as [[-> HF]|(k & l & Hk & -> & Hp & HF)].
  { split; [by right|]. by exists []. }
  cbn [Nat.add]. set (rest := take k layers ++ drop (S k) layers).
  assert (layers = take k layers ++ l :: drop (S k) layers) as Hl by by rewrite take_drop_middle.
  assert (layers ≡ₚ l :: rest) as Hperm.
  { rewrite Hl at 1. unfold rest. by rewrite Permutation_middle. }
  destruct (IH rest) as [Hstop [dropped [Ho Hs Hopt Hle Hneed]]].
  { apply Permutation_length in Hperm. simpl in Hperm. lia. }
  assert (∀ x, x ∈ rest → pl_priority x ≤ pl_priority l) as Hrest.
  { rewrite Hperm in HF. apply Forall_cons in HF as [_ HF]. by apply Forall_forall. }
  generalize dependent (trim_loop fuel rest maxChars). intros r Hstop Ho Hs Hle Hneed.
  split; [exact Hstop|]. exists (l :: dropped). split.
  - etrans; [exact Ho|]. rewrite Hl at 1. unfold rest. apply sublist_app; [done|]. by apply sublist_cons.
  - by rewrite Hperm, Hs.
  - by constructor.
  - intros d x [->|Hd]%elem_of_cons Hx; [|by apply Hle]. apply Hrest. rewrite Hs. set_solver.
  - right. destruct Hneed as [->|(d & Hd & HFd & Hmax)].
    + exists l. split; [by left|]. split; [by repeat constructor|]. simpl in Hs. by rewrite <- Hs, <- Hperm.
    + exists d. split; [by right|]. split; [|done]. constructor; [|done]. apply Hrest. rewrite Hs. set_solver.
Qed.

Lemma join_length (ls : list PromptLayer) :
  Z.of_nat (str_len (join (pl_content <$> ls) separator)) = totalLen ls.
Proof.
  unfold totalLen. induction ls as [|x [|y ls] IH]; [done| |].
  - simpl. lia.
  - change (join (pl_content <$> x :: y :: ls) separator)
      with (pl_content x +:+ separator +:+ join (pl_content <$> y :: ls) separator).
    rewrite sum_of_cons. unfold str_len in *. rewrite !s2l_app, !length_app, !Nat2Z.inj_add, IH.
    change (length (x :: y :: ls) - 1)%nat with (S (length ls)).
    change (length (y :: ls) - 1)%nat with (length ls - 0)%nat. rewrite Nat.sub_0_r. lia.
Qed.

(** The relation of a layer's priority to its place: only the base cannot be dropped. *)
Section prompt.
Context {W UW V Vec : Type} `{WorkspaceStore W} `{UserWorkspaceStore UW} `{VectorStore V Vec}.
Context (math_exp math_log2 : float64 → float64) (parse_rfc3339 : string → option time).
Context `{SS : SliceSort}.

Abbreviation builder := (@ContextBuilder W UW V Vec).
Abbreviation layers_of := (prompt_layers math_exp math_log2 parse_rfc3339).
Abbreviation provide := (InstructionProvider math_exp math_log2 parse_rfc3339).

Lemma layer_positive s p l : 0 < p → l ∈ layer s p → 0 < pl_priority l.
Proof. unfold layer. intros Hp. destruct (str_empty s); [by intros ?%not_elem_of_nil|by intros ->%list_elem_of_singleton]. Qed.

Lemma prompt_layers_base (cb : builder) load now nt pf ctx st st' layers :
  layers_of cb load now nt pf ctx st = Some (st', layers) →
  ∃ rest, layers = {| pl_content := buildSystemBase; pl_priority := 0 |} :: rest ∧ Forall (λ l, 0 < pl_priority l) rest.
Proof.
  unfold prompt_layers. intros Hp.
  apply bind_Some in Hp as (user & _ & Hp). apply bind_Some in Hp as ([st1 skills] & _ & Hp). simplify_eq.
  eexists. split; [done|]. apply Forall_forall. intros l Hl.
  rewrite !elem_of_app, list_elem_of_singleton in Hl.
  destruct Hl as [Hl|[Hl|[Hl|[Hl| ->]]]]; try (eapply layer_positive; [|exact Hl]; lia). done.
Qed.

(** When the layers of the base and optional ones are trimmed, the base is first. *)
Lemma TrimLayers_keeps_base base rest maxChars :
  pl_priority base = 0 → Forall (λ l, 0 < pl_priority l) rest →
  ∃ kept, TrimLayers (base :: rest) maxChars = base :: kept ∧ kept `sublist_of` rest
    ∧ (totalLen (base :: kept) ≤ maxChars ∨ kept = []).
Proof.
  intros Hb Hrest. unfold TrimLayers.
  destruct (trim_loop_spec (length (base :: rest)) (base :: rest) maxChars) as [Hstop [dropped [Ho Hs Hopt _ _]]]; [done|].
  generalize dependent (trim_loop (length (base :: rest)) (base :: rest) maxChars). intros r Hstop Ho Hs.
  assert (base ∈ r) as Hbr.
  { assert (base ∈ dropped ++ r) as [Hd|?]%elem_of_app by (rewrite <- Hs; by left); [|done].
    rewrite Forall_forall in Hopt. specialize (Hopt _ Hd). lia. }
  apply sublist_cons_r in Ho as [Ho|(kept & -> & Ho)].
  { assert (base ∈ rest) as Hin by (eapply elem_of_submseteq; [exact Hbr|by apply sublist_submseteq]).
    rewrite Forall_forall in Hrest. specialize (Hrest _ Hin). lia. }
  exists kept. split; [done|]. split; [done|]. destruct Hstop as [|Hle]; [by left|right].
  apply Forall_cons in Hle as [_ Hle]. destruct kept as [|x kept]; [done|]. apply Forall_cons in Hle as [Hx _].
  assert (x ∈ rest) as Hin by (eapply elem_of_submseteq; [by left|by apply sublist_submseteq]).
  rewrite Forall_forall in Hrest. specialize (Hrest _ Hin). lia.
Qed.

Lemma TrimLayers_fits layers maxChars : totalLen layers ≤ maxChars → TrimLayers layers maxChars = layers.
Proof.
  intros Hle. unfold TrimLayers. destruct layers as [|x layers]; [done|]. cbn [length trim_loop].
  by rewrite (proj2 (Z.ltb_ge _ _)).
Qed.

Lemma join_cons_prefix x (ls : list PromptLayer) :
  ∃ rest, join (pl_content <$> x :: ls) separator = pl_content x +:+ rest.
Proof.
  destruct ls as [|y ls]; [exists ""%string; simpl; by rewrite <- (l2s_s2l (_ +:+ "")), s2l_app, app_nil_r, l2s_s2l|].
  by exists (separator +:+ join (pl_content <$> y :: ls) separator).
Qed.

(** The system prompt always starts with the base rules; it respects the size limit
    unless it is the base alone; when the layers fit, they are all in the prompt, in the
    order base, persona, tenant memory, user context, skills, runtime.  The provider
    panics exactly when a user is known and there is no user store, or loading the skills
    panics. *)
Theorem InstructionProvider_spec (cb : builder) load now nt pf ctx st :
  let tenant := if str_empty (st_tenant ctx) then DefaultTenantID else st_tenant ctx in
  match provide cb load now nt pf ctx st with
  | Some (st', prompt) =>
      ∃ layers, layers_of cb load now nt pf ctx st = Some (st', layers)
        ∧ (∃ rest, prompt = buildSystemBase +:+ rest)
        ∧ (Z.of_nat (str_len prompt) ≤ effectiveMaxChars cb ∨ prompt = buildSystemBase)
        ∧ (totalLen layers ≤ effectiveMaxChars cb → prompt = join (pl_content <$> layers) separator)
  | None => st_user ctx ≠ ""%string ∧ cb_uws cb = None ∨ load tenant = None
  end.
Proof.
  intros tenant. unfold InstructionProvider. destruct (layers_of cb load now nt pf ctx st) as [[st' layers]|] eqn:Hl; simpl.
  - exists layers. split; [done|]. destruct (prompt_layers_base cb load now nt pf ctx st st' layers Hl) as (rest & -> & Hrest).
    set (base := {| pl_content := buildSystemBase; pl_priority := 0 |}) in *.
    destruct (TrimLayers_keeps_base base rest (effectiveMaxChars cb) eq_refl Hrest) as (kept & Hk & _ & Hstop).
    rewrite Hk. split_and!.
    + destruct (join_cons_prefix base kept) as [r Hr]. by exists r.
    + destruct Hstop as [| ->]; [left; by rewrite join_length|by right].
    + intros Hle. by rewrite <- Hk, TrimLayers_fits.
  - unfold prompt_layers in Hl. apply bind_None in Hl as [Hl|(u & _ & Hl)].
    + left. destruct (str_empty (st_user ctx)) eqn:He; [done|]. split; [intros Hu; by rewrite Hu in He|].
      unfold buildUserContext in Hl. by apply bind_None in Hl as [?|(? & _ & ?)].
    + right. unfold tenant. apply bind_None in Hl as [Hl|([st1 ?] & _ & ?)]; [|done].
      unfold buildSkillsContext in Hl. apply bind_None in Hl as [?|(r & _ & Hl)]; [done|].
      destruct r as [[|x r]|e]; try done. by destruct (always_parts _ _ _).
Qed.
End prompt.

(** C39: Trimming keeps the order of the layers and drops only optional ones, those of the
    largest priority numbers first and no more than needed: without the last one dropped
    the rest would not fit.  It stops when the layers fit or only layers that are never
    trimmed remain. *)
Theorem TrimLayers_spec layers maxChars :
  (totalLen (TrimLayers layers maxChars) ≤ maxChars ∨ Forall (λ l, pl_priority l ≤ 0) (TrimLayers layers maxChars))
  ∧ ∃ dropped, trimmed maxChars layers (TrimLayers layers maxChars) dropped.
Proof. by apply trim_loop_spec. Qed.

(** The tenant memory is dropped before the user's context. *)
Example tenant_memory_before_user :
  pl_content <$> TrimLayers [{| pl_content := "base"; pl_priority := 0 |}; {| pl_content := "tenant memory"; pl_priority := 4 |};
                             {| pl_content := "user context"; pl_priority := 3 |}] 30 = ["base"; "user context"]%string.
Proof. reflexivity. Qed.

(** ** Memories *)

(** The memories of a prompt are the found ones that have a text, each once; when no
    score is a NaN they are in descending order of score. *)
Theorem rankMemories_spec `{SS : SliceSort} math_exp math_log2 parse_rfc3339 now results :
  let score := rank_one math_exp math_log2 parse_rfc3339 now in
  let ranked := rankMemories math_exp math_log2 parse_rfc3339 now results in
  ranked ≡ₚ omap score results
  ∧ (∀ m, m ∈ ranked → rm_text m ≠ ""%string
       ∧ ∃ r, r ∈ results ∧ vr_Payload r !! "text"%string = Some (JStr (rm_text m)))
  ∧ (Forall (λ m, is_nan (rm_score m) = false) ranked →
     StronglySorted (λ x y, SFltb (rm_score x) (rm_score y) = false) ranked).
Proof.
  intros score ranked. split; [apply sort_slice_perm|]. split.
  - intros m Hm. unfold ranked, rankMemories in Hm. rewrite sort_slice_perm in Hm.
    apply list_elem_of_omap in Hm as (r & Hr & Hs). unfold rank_one in Hs.
    destruct (str_empty (as_str (vr_Payload r !! "text"%string))) eqn:He; [done|]. simplify_eq. simpl.
    split; [intros Ht; by rewrite Ht in He|]. exists r. split; [done|].
    destruct (vr_Payload r !! "text"%string) as [[]|]; simpl in *; done.
  - intros Hn. unfold ranked, rankMemories. unfold by_score.
    apply (sort_slice_sorted (λ x, is_nan (rm_score x) = false)); [apply score_order|].
    by rewrite <- (sort_slice_perm by_score).
Qed.

(** ** Documents *)

(** A user's own document is used for the types a user may own when the user is known
    and the document has content, else the tenant's; the rules are always the tenant's. *)
Theorem resolveDoc_spec {W UW V Vec} `{WorkspaceStore W} `{UserWorkspaceStore UW} (cb : @ContextBuilder W UW V Vec)
    tenant user dt :
  (∀ uws doc, cb_uws cb = Some uws → user ≠ ""%string → dt ∈ userOwnedDocTypes →
     uws_Get tenant user dt uws = Ok (Some doc) → ud_Content doc ≠ ""%string →
     resolveDoc cb tenant user dt = ud_Content doc)
  ∧ (dt ∉ userOwnedDocTypes ∨ user = ""%string ∨ cb_uws cb = None
       ∨ (∃ uws, cb_uws cb = Some uws
            ∧ ∀ doc, uws_Get tenant user dt uws = Ok (Some doc) → ud_Content doc = ""%string) →
     resolveDoc cb tenant user dt
     = match ws_Get tenant dt (cb_ws cb) with Ok (Some doc) => wd_Content doc | _ => ""%string end).
Proof.
  assert (str_empty ""%string = true) as Hemp by done.
  split.
  - intros uws doc Hu Huser Hdt Hg Hc. unfold resolveDoc, user_doc. rewrite bool_decide_true by done.
    assert (str_empty user = false) as -> by by destruct user. simpl. rewrite Hu. simpl. rewrite Hg.
    by assert (str_empty (ud_Content doc) = false) as -> by by destruct (ud_Content doc).
  - intros Hno. unfold resolveDoc. assert (user_doc cb tenant user dt = None) as ->; [|done]. unfold user_doc.
    destruct (bool_decide_reflect (dt ∈ userOwnedDocTypes)); [|done].
    destruct (str_empty user) eqn:He; [done|]. simpl.
    destruct (cb_uws cb) as [uws|] eqn:Hu; [|done]. simpl.
    destruct Hno as [?|[->|[?|(? & [= <-] & Hg)]]]; [done|done|done|].
    destruct (uws_Get tenant user dt uws) as [[doc|]|]; [|done|done].
    by rewrite (Hg doc eq_refl).
Qed.
