(* ===== verification/DistLock.v ===== *)
(** [pkg/scheduler/distributed_lock.go] and [distributed_heartbeat.go]: the lock in the
    database that elects the instance sending heartbeats, and the leader loop.

    A table is a map from the lock name to its row.  The statements are those of the
    source, executed atomically by the database: MySQL evaluates the assignments of
    [ON DUPLICATE KEY UPDATE] from left to right, each one seeing the previous ones.  A
    statement that fails ([fault]) has no effect.  Every statement carries the clock
    reading of the instance that issues it.  The rounding of times to the
    precision of the columns is taken as the identity: a row has the times that were
    written. *)
From S2P Require Import Prelude GoStrings.

Record HeartbeatLock := { hl_InstanceID : string; hl_AcquiredAt : time; hl_ExpiresAt : time }.

#[global] Instance HeartbeatLock_eq_dec : EqDecision HeartbeatLock.
Proof. solve_decision. Defined.

Abbreviation table := (gmap string HeartbeatLock).

Record DistributedLock := { dl_lockName : string; dl_instanceID : string; dl_lockTimeout : duration }.

Definition NewDistributedLock (instanceID : string) : DistributedLock :=
  {| dl_lockName := "heartbeat_leader"; dl_instanceID := instanceID; dl_lockTimeout := 5 * Minute |}.

(** The three assignments of the update, in their order. *)
Definition set_instance (v : string) (now : time) (r : HeartbeatLock) : HeartbeatLock :=
  {| hl_InstanceID := if Before (hl_ExpiresAt r) now then v else hl_InstanceID r;
     hl_AcquiredAt := hl_AcquiredAt r; hl_ExpiresAt := hl_ExpiresAt r |}.
Definition set_acquired (v : time) (now : time) (r : HeartbeatLock) : HeartbeatLock :=
  {| hl_InstanceID := hl_InstanceID r;
     hl_AcquiredAt := if Before (hl_ExpiresAt r) now then v else hl_AcquiredAt r;
     hl_ExpiresAt := hl_ExpiresAt r |}.
Definition set_expires (v : time) (now : time) (r : HeartbeatLock) : HeartbeatLock :=
  {| hl_InstanceID := hl_InstanceID r; hl_AcquiredAt := hl_AcquiredAt r;
     hl_ExpiresAt := if Before (hl_ExpiresAt r) now then v else hl_ExpiresAt r |}.

(** The first statement of [TryAcquire]. *)
Definition acquire_exec (d : DistributedLock) (now : time) (db : table) : table :=
  let expiresAt := time_add now (dl_lockTimeout d) in
  <[dl_lockName d :=
      match db !! dl_lockName d with
      | None => {| hl_InstanceID := dl_instanceID d; hl_AcquiredAt := now; hl_ExpiresAt := expiresAt |}
      | Some r => set_expires expiresAt now (set_acquired now now (set_instance (dl_instanceID d) now r))
      end]> db.

(** The second statement and the answer; [None] is an error, such as a missing row. *)
Definition acquire_check (d : DistributedLock) (db : table) : option bool :=
  lock ← db !! dl_lockName d; Some (bool_decide (hl_InstanceID lock = dl_instanceID d)).

Definition TryAcquire (d : DistributedLock) (fault1 fault2 : bool) (now : time) (db : table) : table * option bool :=
  if fault1 then (db, None)
  else let db := acquire_exec d now db in
       (db, if fault2 then None else acquire_check d db).

Definition is_mine (d : DistributedLock) (r : HeartbeatLock) : bool :=
  bool_decide (hl_InstanceID r = dl_instanceID d).

Definition Release (d : DistributedLock) (db : table) : table :=
  match db !! dl_lockName d with
  | Some r => if is_mine d r then delete (dl_lockName d) db else db
  | None => db
  end.

(** [Renew]: [false] when no row was updated. *)
Definition Renew (d : DistributedLock) (now : time) (db : table) : table * bool :=
  match db !! dl_lockName d with
  | Some r =>
      if is_mine d r
      then (<[dl_lockName d := {| hl_InstanceID := hl_InstanceID r; hl_AcquiredAt := hl_AcquiredAt r;
                                 hl_ExpiresAt := time_add now (dl_lockTimeout d) |}]> db, true)
      else (db, false)
  | None => (db, false)
  end.

Definition CleanupExpired (now : time) (db : table) : table :=
  filter (λ kv, Before (hl_ExpiresAt kv.2) now = false) db.

(** ** The leader loop of one instance

    [gos] are the goroutines of [runAsLeader]; [canceled] says that their context is
    done.  A goroutine is in its [select] or inside [tick].  What the database answers
    is free, and the body of a case of a [select] is one step; with [prompt] set, a goroutine whose context is done when it selects
    returns, while Go may choose any ready case. *)

Inductive leader_pc := InSelect | InTick.

Record leader := { canceled : bool; l_pc : leader_pc }.

Record hb_state := {
  isLeader : bool; leaderCancel : option nat; gos : gmap nat leader; next_go : nat; stopped : bool;
}.

Definition hb_init : hb_state :=
  {| isLeader := false; leaderCancel := None; gos := ∅; next_go := 0; stopped := false |}.

Definition with_gos (g : gmap nat leader) (s : hb_state) : hb_state :=
  {| isLeader := isLeader s; leaderCancel := leaderCancel s; gos := g; next_go := next_go s; stopped := stopped s |}.

Definition cancel_go (l : leader) : leader := {| canceled := true; l_pc := l_pc l |}.

(** [if d.leaderCancel != nil { d.leaderCancel(); d.leaderCancel = nil }] *)
Definition cancel_leader (s : hb_state) : hb_state :=
  {| isLeader := isLeader s; leaderCancel := None;
     gos := match leaderCancel s with Some g => alter cancel_go g (gos s) | None => gos s end;
     next_go := next_go s; stopped := stopped s |}.

Definition set_leader (b : bool) (s : hb_state) : hb_state :=
  {| isLeader := b; leaderCancel := leaderCancel s; gos := gos s; next_go := next_go s; stopped := stopped s |}.

(** What a tick of [leaderLoop] does with the answer of [TryAcquire]. *)
Definition on_acquire (acquired : bool) (s : hb_state) : hb_state :=
  if acquired then
    if isLeader s then s
    else {| isLeader := true; leaderCancel := Some (next_go s);
            gos := <[next_go s := {| canceled := false; l_pc := InSelect |}]> (gos s);
            next_go := S (next_go s); stopped := stopped s |}
  else if isLeader s then cancel_leader (set_leader false s) else s.

(** The end of the loop: [releaseLock], and the contexts of all leaders are done. *)
Definition on_stop (s : hb_state) : hb_state :=
  let s := if isLeader s then cancel_leader (set_leader false s) else s in
  {| isLeader := isLeader s; leaderCancel := leaderCancel s; gos := cancel_go <$> gos s;
     next_go := next_go s; stopped := true |}.

(** A failed renewal: [d.isLeader.Store(false); return]. *)
Definition on_renew_failed (g : nat) (s : hb_state) : hb_state :=
  set_leader false (with_gos (delete g (gos s)) s).

Inductive hb_step (prompt : bool) : hb_state → hb_state → Prop :=
| hb_acquire s acquired : stopped s = false → hb_step prompt s (on_acquire acquired s)
| hb_stop s : stopped s = false → hb_step prompt s (on_stop s)
| hb_tick s g c :
    gos s !! g = Some {| canceled := c; l_pc := InSelect |} → (prompt = true → c = false) →
    hb_step prompt s (with_gos (<[g := {| canceled := c; l_pc := InTick |}]> (gos s)) s)
| hb_tick_end s g c :
    gos s !! g = Some {| canceled := c; l_pc := InTick |} →
    hb_step prompt s (with_gos (<[g := {| canceled := c; l_pc := InSelect |}]> (gos s)) s)
| hb_renew_failed s g c :
    gos s !! g = Some {| canceled := c; l_pc := InSelect |} → (prompt = true → c = false) →
    hb_step prompt s (on_renew_failed g s)
| hb_done s g :
    gos s !! g = Some {| canceled := true; l_pc := InSelect |} →
    hb_step prompt s (with_gos (delete g (gos s)) s).

Inductive hb_reachable (prompt : bool) : hb_state → Prop :=
| hbr_init : hb_reachable prompt hb_init
| hbr_step s s' : hb_reachable prompt s → hb_step prompt s s' → hb_reachable prompt s'.

(** The goroutines whose context is not done. *)
Definition live (s : hb_state) (g : nat) : Prop := ∃ p, gos s !! g = Some {| canceled := false; l_pc := p |}.

(** ** Histories of statements *)

Inductive lock_op :=
| OpExec (d : DistributedLock) (now : time)
| OpRelease (d : DistributedLock) (now : time)
| OpRenew (d : DistributedLock) (now : time)
| OpCleanup (now : time).

Definition op_time (o : lock_op) : time :=
  match o with OpExec _ t | OpRelease _ t | OpRenew _ t | OpCleanup t => t end.

Definition lock_op_step (db : table) (o : lock_op) : table :=
  match o with
  | OpExec d now => acquire_exec d now db
  | OpRelease d _ => Release d db
  | OpRenew d now => (Renew d now db).1
  | OpCleanup now => CleanupExpired now db
  end.

(** The instances of the program differ in their identifier only. *)
Definition op_ours (o : lock_op) : Prop :=
  match o with
  | OpExec d _ | OpRelease d _ | OpRenew d _ => d = NewDistributedLock (dl_instanceID d)
  | OpCleanup _ => True
  end.

Definition releases (id : string) (o : lock_op) : Prop :=
  match o with OpRelease d _ => dl_instanceID d = id | _ => False end.

(** ** Lemmas *)

(** Left to right, the three conditional assignments replace the row or leave it. *)
Lemma acquire_exec_row d now db :
  acquire_exec d now db !! dl_lockName d =
    Some (let fresh := {| hl_InstanceID := dl_instanceID d; hl_AcquiredAt := now;
                          hl_ExpiresAt := time_add now (dl_lockTimeout d) |} in
          match db !! dl_lockName d with
          | Some r => if Before (hl_ExpiresAt r) now then fresh else r
          | None => fresh
          end).
Proof.
  unfold acquire_exec. rewrite lookup_insert, decide_True by done. f_equal.
  destruct (db !! _) as [r|]; [|done].
  unfold set_expires, set_acquired, set_instance. simpl. destruct (Before _ _); [done|by destruct r].
Qed.

(** The lock belongs to [me] at least until [E]. *)
Definition granted (me : string) (E : time) (db : table) : Prop :=
  ∃ r, db !! "heartbeat_leader"%string = Some r ∧ hl_InstanceID r = me ∧ E ≤ hl_ExpiresAt r.

Lemma granted_step me E db o :
  granted me E db → op_ours o → E - 5 * Minute ≤ op_time o ≤ E → ¬ releases me o →
  granted me E (lock_op_step db o).
Proof.
  intros (r & Hr & Hme & HE) Hours Ht Hrel. destruct o as [d now|d now|d now|now]; simpl in *.
  - exists r. split; [|done].
    assert (dl_lockName d = "heartbeat_leader"%string) as Hn by by rewrite Hours.
    rewrite <- Hn, acquire_exec_row. rewrite Hn, Hr. simpl. unfold Before.
    destruct (Z.ltb_spec (hl_ExpiresAt r) now); [lia|done].
  - exists r. split; [|done]. unfold Release.
    assert (dl_lockName d = "heartbeat_leader"%string) as -> by by rewrite Hours.
    rewrite Hr. unfold is_mine. rewrite bool_decide_false by congruence. done.
  - unfold Renew, is_mine. rewrite Hours. cbn [dl_lockName NewDistributedLock dl_instanceID]. rewrite Hr.
    case_bool_decide as Hmine; [|by exists r]. cbn [fst]. eexists. rewrite lookup_insert, decide_True by done.
    split_and!; [done|done|]. simpl. unfold time_add. lia.
  - exists r. split; [|done]. unfold CleanupExpired. apply map_lookup_filter_Some. split; [done|].
    simpl. unfold Before. apply Z.ltb_ge. lia.
Qed.

(** At most one goroutine is live, and only when the instance leads. *)
Definition hb_ok (s : hb_state) : Prop :=
  (∀ g, is_Some (gos s !! g) → (g < next_go s)%nat)
  ∧ (∀ g, live s g → isLeader s = true ∧ leaderCancel s = Some g)
  ∧ (isLeader s = true → ∃ g, live s g)
  ∧ (stopped s = true → isLeader s = false).

Lemma cancel_leader_dead s :
  (∀ g, live s g → leaderCancel s = Some g) → ∀ g, ¬ live (cancel_leader s) g.
Proof.
  intros Hs g [p Hg]. unfold cancel_leader in Hg. simpl in Hg.
  destruct (leaderCancel s) as [g0|] eqn:Hc; simpl in Hg.
  - destruct (decide (g = g0)) as [->|Hne].
    + rewrite lookup_alter, decide_True in Hg by done. by destruct (gos s !! g0) as [[]|].
    + rewrite lookup_alter_ne in Hg by done. specialize (Hs g (ex_intro _ p Hg)). congruence.
  - specialize (Hs g (ex_intro _ p Hg)). congruence.
Qed.

Lemma cancel_leader_bound s n :
  (∀ g, is_Some (gos s !! g) → (g < n)%nat) → ∀ g, is_Some (gos (cancel_leader s) !! g) → (g < n)%nat.
Proof.
  intros Hs g. unfold cancel_leader. simpl. destruct (leaderCancel s) as [g0|]; [|apply Hs].
  intros [l Hl]. apply Hs. destruct (decide (g = g0)) as [->|Hne].
  - rewrite lookup_alter, decide_True in Hl by done. destruct (gos s !! g0); [done|by simpl in Hl].
  - rewrite lookup_alter_ne in Hl by done. by exists l.
Qed.

(** Without a live goroutine and without leadership the state is fine. *)
Lemma hb_ok_dead s :
  (∀ g, is_Some (gos s !! g) → (g < next_go s)%nat) → (∀ g, ¬ live s g) → isLeader s = false → hb_ok s.
Proof.
  intros Hb Hd Hl. split_and!; [done| | |done].
  - intros g Hg. by destruct (Hd g).
  - rewrite Hl. done.
Qed.

(** Updates of one goroutine that keep its context. *)
Lemma hb_ok_move s g c p p' :
  hb_ok s → gos s !! g = Some {| canceled := c; l_pc := p |} →
  hb_ok (with_gos (<[g := {| canceled := c; l_pc := p' |}]> (gos s)) s).
Proof.
  intros (Hb & Hlive & Hlead & Hst) Hg. split_and!; simpl.
  - intros g'. destruct (decide (g' = g)) as [->|Hne]; [intros _; apply Hb; by rewrite Hg|].
    rewrite lookup_insert_ne by done. apply Hb.
  - intros g' [q Hq]. apply Hlive. simpl in Hq. destruct (decide (g' = g)) as [->|Hne].
    + rewrite lookup_insert, decide_True in Hq by done. simplify_eq. by exists p.
    + rewrite lookup_insert_ne in Hq by done. by exists q.
  - intros [g' [q Hq]]%Hlead. exists g'. destruct (decide (g' = g)) as [->|Hne].
    + rewrite Hg in Hq. simplify_eq. exists p'. simpl. by rewrite lookup_insert, decide_True.
    + exists q. simpl. by rewrite lookup_insert_ne.
  - done.
Qed.

Lemma hb_step_ok s s' : hb_step true s s' → hb_ok s → hb_ok s'.
Proof.
  intros Hstep Hok. pose proof Hok as (Hb & Hlive & Hlead & Hst).
  destruct Hstep as [s acq Hs|s Hs|s g c Hg Hp|s g c Hg|s g c Hg Hp|s g Hg].
  - unfold on_acquire. destruct acq, (isLeader s) eqn:Hl; [done| | |done].
    + split_and!; simpl.
      * intros g. destruct (decide (g = next_go s)) as [->|Hne]; [lia|].
        rewrite lookup_insert_ne by done. intros ?%Hb. lia.
      * intros g [p Hg]. simpl in Hg. split; [done|]. destruct (decide (g = next_go s)) as [->|Hne]; [done|].
        rewrite lookup_insert_ne in Hg by done. by destruct (Hlive g (ex_intro _ p Hg)).
      * intros _. exists (next_go s), InSelect. simpl. by rewrite lookup_insert, decide_True.
      * intros H. congruence.
    + apply hb_ok_dead; [by apply cancel_leader_bound|apply cancel_leader_dead; simpl|done].
      intros g Hg. by apply Hlive.
  - set (s1 := if isLeader s then cancel_leader (set_leader false s) else s).
    assert ((∀ g, ¬ live s1 g) ∧ isLeader s1 = false ∧ ∀ g, is_Some (gos s1 !! g) → (g < next_go s1)%nat)
      as (Hd & Hf & Hb1).
    { unfold s1. destruct (isLeader s) eqn:Hl.
      - split; [apply cancel_leader_dead; intros g Hg; by apply Hlive|].
        split; [done|by apply cancel_leader_bound].
      - split; [intros g Hg; by destruct (Hlive g Hg)|done]. }
    apply hb_ok_dead; simpl; [|intros g [p Hg]|done].
    + intros g. rewrite lookup_fmap, fmap_is_Some. apply Hb1.
    + simpl in Hg. rewrite lookup_fmap in Hg. by destruct (_ !! g).
  - by eapply hb_ok_move.
  - by eapply hb_ok_move.
  - specialize (Hp eq_refl) as ->. destruct (Hlive g (ex_intro _ InSelect Hg)) as [Hl Hc].
    apply hb_ok_dead; simpl; [|intros g' [p Hg']|done].
    + intros g' [l Hl']. apply Hb. apply lookup_delete_Some in Hl' as [_ Hl']. by exists l.
    + simpl in Hg'. apply lookup_delete_Some in Hg' as [Hne Hg'].
      destruct (Hlive g' (ex_intro _ p Hg')) as [_ Hc']. congruence.
  - split_and!; simpl.
    + intros g' [l Hl']. apply Hb. apply lookup_delete_Some in Hl' as [_ Hl']. by exists l.
    + intros g' [p Hg']. apply Hlive. simpl in Hg'. apply lookup_delete_Some in Hg' as [_ Hg']. by exists p.
    + intros [g' [p Hg']]%Hlead. exists g', p. simpl. rewrite lookup_delete_ne; [done|]. intros <-. congruence.
    + done.
Qed.

Lemma hb_reachable_ok s : hb_reachable true s → hb_ok s.
Proof.
  induction 1 as [|s s' _ IH Hstep]; [|by eapply hb_step_ok].
  apply hb_ok_dead; [|intros g [p Hg]|done]; simpl in *; [intros g [l Hl]|]; by simplify_map_eq.
Qed.

(** ** Properties *)

(** C19: The lease is exclusive: once the lock belongs to an instance until a time [E] - as it
    does after it took a free lock or renewed its own five minutes before - it keeps it,
    and every other instance is told so, whatever statements all instances issue, as long
    as their clocks stay in the lease and the holder does not release it. *)
Theorem lease_exclusive me E db ops
  (Hours : Forall op_ours ops) (Htime : Forall (λ o, E - 5 * Minute ≤ op_time o ≤ E) ops)
  (Hkeep : Forall (λ o, ¬ releases me o) ops) :
  let d := NewDistributedLock me in
  (granted me E db →
     granted me E (fold_left lock_op_step ops db)
     ∧ ∀ other, acquire_check (NewDistributedLock other) (fold_left lock_op_step ops db)
                = Some (bool_decide (me = other)))
  ∧ (∀ t db', E = t + 5 * Minute → Renew d t db = (db', true) → granted me E db')
  ∧ (∀ t, E = t + 5 * Minute →
       (∀ r, db !! "heartbeat_leader"%string = Some r → hl_ExpiresAt r < t) → granted me E (acquire_exec d t db)).
Proof.
  intros d. split_and!.
  - intros Hg. assert (granted me E (fold_left lock_op_step ops db)) as Hg'.
    { revert db Hg. induction ops as [|o ops IH]; intros db Hg; simpl; [done|].
      inversion Hours; inversion Htime; inversion Hkeep; subst.
      apply IH; [done..|]. by apply granted_step. }
    split; [done|]. intros other. destruct Hg' as (r & Hr & Hme & _). unfold acquire_check.
    cbn [dl_lockName NewDistributedLock dl_instanceID]. rewrite Hr. simpl. by rewrite Hme.
  - intros t db' -> HR. unfold Renew, is_mine in HR. cbn [d dl_lockName NewDistributedLock dl_instanceID] in HR.
    destruct (db !! _) as [r|] eqn:Hr; [|done]. case_bool_decide as Hm; [|done]. simplify_eq.
    eexists. rewrite lookup_insert, decide_True by done. by split_and!.
  - intros t -> Hfree. eexists. split; [apply (acquire_exec_row d t db)|].
    cbn [d dl_lockName NewDistributedLock dl_instanceID].
    destruct (db !! _) as [r|] eqn:Hr; simpl; [|done].
    unfold Before. rewrite (proj2 (Z.ltb_lt _ _) (Hfree r eq_refl)). done.
Qed.

(** What [TryAcquire] does when the database answers: a free or expired lock is taken,
    also from a crashed instance, with a full lease; any other lock is left as it is, so
    that asking again does not prolong the own lease; the answer is whether the lock is
    now held by the asking instance. *)
Theorem TryAcquire_spec id now db :
  let d := NewDistributedLock id in
  let fresh := {| hl_InstanceID := id; hl_AcquiredAt := now; hl_ExpiresAt := now + 5 * Minute |} in
  let r' := match db !! "heartbeat_leader"%string with
            | Some r => if decide (hl_ExpiresAt r < now) then fresh else r
            | None => fresh
            end in
  TryAcquire d false false now db =
    (<["heartbeat_leader"%string := r']> db, Some (bool_decide (hl_InstanceID r' = id)))
  ∧ (∀ fault2, (TryAcquire d true fault2 now db) = (db, None)).
Proof.
  intros d fresh r'. split; [|done]. unfold TryAcquire.
  assert (acquire_exec d now db = <["heartbeat_leader"%string := r']> db) as Hx.
  { apply map_eq. intros k. destruct (decide (k = "heartbeat_leader"%string)) as [->|Hne].
    - rewrite lookup_insert, decide_True by done.
      etrans; [exact (acquire_exec_row d now db)|]. f_equal. unfold r'. cbn [d dl_lockName NewDistributedLock dl_instanceID].
      destruct (db !! _) as [r|]; [|done]. unfold Before.
      destruct (Z.ltb_spec (hl_ExpiresAt r) now), (decide (hl_ExpiresAt r < now)); lia || done.
    - unfold acquire_exec. cbn [d dl_lockName NewDistributedLock]. by rewrite !lookup_insert_ne. }
  rewrite Hx. f_equal. unfold acquire_check. cbn [d dl_lockName NewDistributedLock dl_instanceID].
  by rewrite lookup_insert, decide_True.
Qed.

(** The race of a goroutine that lost the leadership inside a long tick. *)
Definition race1 := on_acquire true hb_init.
Definition race2 := with_gos (<[0%nat := {| canceled := false; l_pc := InTick |}]> (gos race1)) race1.
Definition race3 := on_acquire true (on_acquire false race2).
Definition race4 := with_gos (<[0%nat := {| canceled := true; l_pc := InSelect |}]> (gos race3)) race3.
Definition race5 := on_acquire true (on_renew_failed 0 race4).

Lemma race_reachable : hb_reachable false race5.
Proof.
  unfold race5. eapply hbr_step; [|by apply hb_acquire].
  eapply hbr_step; [|by apply (hb_renew_failed false race4 0 true)].
  eapply hbr_step; [|by apply (hb_tick_end false race3 0 true)].
  unfold race3. eapply hbr_step; [|by apply hb_acquire].
  eapply hbr_step; [|by apply hb_acquire].
  eapply hbr_step; [|by apply (hb_tick false race1 0 false)].
  eapply hbr_step; [apply hbr_init|by apply hb_acquire].
Qed.

(** An instance runs the heartbeat at most once at a time, exactly while it believes to
    lead and until it stops - provided a goroutine whose context is done returns when it
    reaches its [select].  Go may pick the renewal instead: a goroutine that lost the
    leadership inside a tick then clears the flag of its successor, and two goroutines
    send heartbeats. *)
Theorem one_leader_goroutine :
  (∀ s, hb_reachable true s →
     (∀ g g', live s g → live s g' → g = g')
     ∧ (isLeader s = true ↔ ∃ g, live s g)
     ∧ (stopped s = true → ∀ g, ¬ live s g))
  ∧ ∃ s g g', hb_reachable false s ∧ g ≠ g' ∧ live s g ∧ live s g'.
Proof.
  split.
  - intros s (_ & Hlive & Hlead & Hst)%hb_reachable_ok. split_and!.
    + intros g g' [_ H1]%Hlive [_ H2]%Hlive. congruence.
    + split; [done|]. by intros [g [H _]%Hlive].
    + intros Hs g [H _]%Hlive. specialize (Hst Hs). congruence.
  - exists race5, 1%nat, 2%nat. split; [exact race_reachable|]. split; [done|].
    split; exists InSelect; by vm_compute.
Qed.

(** ** Witnesses *)

Lemma lease_exclusive_witness :
  let db := acquire_exec (NewDistributedLock "a") 100 ∅ in
  acquire_check (NewDistributedLock "b")
    (fold_left lock_op_step [OpExec (NewDistributedLock "b") 200; OpRenew (NewDistributedLock "a") 300] db) = Some false.
Proof.
  intros db.
  set (ops := [OpExec (NewDistributedLock "b") 200; OpRenew (NewDistributedLock "a") 300]).
  destruct (lease_exclusive "a" (100 + 5 * Minute) db ops) as (Hex & _ & _);
    [repeat constructor|repeat constructor; by vm_compute|repeat constructor; simpl; tauto|].
  destruct (lease_exclusive "a" (100 + 5 * Minute) ∅ []) as (_ & _ & Hgrant); [constructor..|].
  exact (proj2 (Hex (Hgrant 100 eq_refl ltac:(intros r Hr; by simplify_map_eq))) "b"%string).
Defined.

Lemma one_leader_goroutine_witness :
  isLeader (on_acquire true hb_init) = true ↔ ∃ g, live (on_acquire true hb_init) g.
Proof.
  refine (proj1 (proj2 (proj1 one_leader_goroutine (on_acquire true hb_init) _))).
  eapply hbr_step; [apply hbr_init|by apply hb_acquire].
Defined.
