(* ===== verification/Subagent.v ===== *)
(** [pkg/agent/subagent.go]: tasks given to agents in the background.

    A task is a shared object: the goroutine that executes it and the map of the manager
    hold the same pointer, so tasks live in a heap.  [Spawn] is cut after its critical section,
    [execute] at its calls, at the critical section of [finishTask] and before its end.  What the session service and the runner
    answer is free; every outside call is recorded in [sub_calls] with the task it is
    made for.  The task identifier is drawn at random by the source and an argument here. *)
From S2P Require Import Prelude GoStrings Types AgentRegistry Pruning Compression AgentLoop.

Record SubagentTask := {
  sub_ID : string; sub_Task : string; sub_AgentID : string; sub_OriginChannel : string;
  sub_OriginChatID : string; sub_TenantID : string; sub_UserID : string;
  sub_Status : string; sub_Result : string;
}.

Definition status_running : string := "running".
Definition status_completed : string := "completed".
Definition status_failed : string := "failed".

Section subagent.
Context {Runner : Type}.

Inductive sub_call :=
| CallCreate (userID sessionID : string) (st : gmap string any)
| CallRun (r : Runner) (userID sessionID task : string)
| CallPublish (m : OutboundMessage).

(** Where the execution of a task stands: the task is in the map, but [Spawn] has not
    counted it; then the goroutine is before [Create], before [Run], before [finishTask] with
    its arguments, before [PublishOutbound], before [wg.Done]. *)
Inductive exec_pc :=
| AtAdd (r : Runner) | AtCreate (r : Runner) | AtRun (r : Runner) | AtFinish (status result : string) | AtNotify (result : string)
| AtDone.

Record sub_state := {
  sub_tasks : gmap string nat; sub_heap : gmap nat SubagentTask; sub_next : nat;
  sub_workers : gmap nat exec_pc; sub_calls : list (nat * sub_call);
  (* the counter of the wait group *)
  sub_wg : nat;
}.

Definition NewSubagentManager : sub_state :=
  {| sub_tasks := ∅; sub_heap := ∅; sub_next := 0; sub_workers := ∅; sub_calls := []; sub_wg := 0 |}.

Definition or_system (userID : string) : string := if str_empty userID then "system" else userID.

Definition task_state (tenantID userID channel chatID : string) : gmap string any :=
  <["tenant_id" := AStr tenantID]> (<["user_id" := AStr userID]>
    (<["channel" := AStr channel]> {[ "chat_id"%string := AStr chatID ]})).

(** The texts of the final events, or the first error. *)
Fixpoint collect_final (evs : list (result goerror (option RunEvent))) (acc : string) : result goerror string :=
  match evs with
  | [] => Ok acc
  | Err e :: _ => Err e
  | Ok None :: evs => collect_final evs acc
  | Ok (Some ev) :: evs =>
      match re_Final ev, re_Content ev with
      | true, Some c => collect_final evs (acc +:+ String.concat "" (part_Text <$> ct_Parts c))
      | _, _ => collect_final evs acc
      end
  end.

Definition set_worker (p : nat) (w : option exec_pc) (s : sub_state) : sub_state :=
  {| sub_tasks := sub_tasks s; sub_heap := sub_heap s; sub_next := sub_next s;
     sub_workers := partial_alter (λ _, w) p (sub_workers s); sub_calls := sub_calls s; sub_wg := sub_wg s |}.

Definition call (p : nat) (c : sub_call) (s : sub_state) : sub_state :=
  {| sub_tasks := sub_tasks s; sub_heap := sub_heap s; sub_next := sub_next s;
     sub_workers := sub_workers s; sub_calls := sub_calls s ++ [(p, c)]; sub_wg := sub_wg s |}.

Definition set_wg (n : nat) (s : sub_state) : sub_state :=
  {| sub_tasks := sub_tasks s; sub_heap := sub_heap s; sub_next := sub_next s;
     sub_workers := sub_workers s; sub_calls := sub_calls s; sub_wg := n |}.

(** [Spawn] up to the end of its critical section, with the pointer of the task; [None] when
    the agent is not known. *)
Definition spawn_insert (reg : AgentRegistry Runner) (taskID task agentID channel chatID tenantID userID : string)
    (s : sub_state) : option (sub_state * nat) :=
  r ← GetRunner reg agentID;
  let st := {| sub_ID := taskID; sub_Task := task; sub_AgentID := agentID; sub_OriginChannel := channel;
               sub_OriginChatID := chatID; sub_TenantID := tenantID; sub_UserID := userID;
               sub_Status := status_running; sub_Result := "" |} in
  Some ({| sub_tasks := <[taskID := sub_next s]> (sub_tasks s);
           sub_heap := <[sub_next s := st]> (sub_heap s); sub_next := S (sub_next s);
           sub_workers := <[sub_next s := AtAdd r]> (sub_workers s); sub_calls := sub_calls s; sub_wg := sub_wg s |}, sub_next s).

(** [wg.Add(1)] and the start of the goroutine. *)
Definition spawn_count (p : nat) (s : sub_state) : option sub_state :=
  match sub_workers s !! p with
  | Some (AtAdd r) => Some (set_wg (S (sub_wg s)) (set_worker p (Some (AtCreate r)) s))
  | _ => None
  end.

(** [Spawn] when nothing comes in between. *)
Definition Spawn (reg : AgentRegistry Runner) (taskID task agentID channel chatID tenantID userID : string)
    (s : sub_state) : option (sub_state * string) :=
  '(s, p) ← spawn_insert reg taskID task agentID channel chatID tenantID userID s;
  s ← spawn_count p s; Some (s, taskID).

Definition SpawnAsync := Spawn.

(** [execute] up to the answer [err] of [Create]. *)
Definition exec_create (p : nat) (r : Runner) (err : option goerror) (s : sub_state) : option sub_state :=
  st ← sub_heap s !! p;
  let userID := or_system (sub_UserID st) in
  let s := call p (CallCreate userID ("spawn-" +:+ sub_ID st)
                     (task_state (sub_TenantID st) userID (sub_OriginChannel st) (sub_OriginChatID st))) s in
  Some (set_worker p (Some match err with
                           | Some e => AtFinish status_failed ("create session: " +:+ error_text e)
                           | None => AtRun r
                           end) s).

(** The run with the events [evs]. *)
Definition exec_run (p : nat) (r : Runner) (evs : list (result goerror (option RunEvent))) (s : sub_state)
    : option sub_state :=
  st ← sub_heap s !! p;
  let s := call p (CallRun r (or_system (sub_UserID st)) ("spawn-" +:+ sub_ID st) (sub_Task st)) s in
  Some (set_worker p (Some match collect_final evs "" with
                           | Err e => AtFinish status_failed ("run error: " +:+ error_text e)
                           | Ok result => AtFinish status_completed result
                           end) s).

Definition finishTask (p : nat) (status result : string) (s : sub_state) : sub_state :=
  {| sub_tasks := sub_tasks s;
     sub_heap := alter (λ st, {| sub_ID := sub_ID st; sub_Task := sub_Task st; sub_AgentID := sub_AgentID st;
                                 sub_OriginChannel := sub_OriginChannel st; sub_OriginChatID := sub_OriginChatID st;
                                 sub_TenantID := sub_TenantID st; sub_UserID := sub_UserID st;
                                 sub_Status := status; sub_Result := result |}) p (sub_heap s);
     sub_next := sub_next s; sub_workers := sub_workers s; sub_calls := sub_calls s; sub_wg := sub_wg s |}.

(** [finishTask] and what follows it. *)
Definition exec_finish (p : nat) (status result : string) (s : sub_state) : sub_state :=
  set_worker p (if bool_decide (status = status_completed) then Some (AtNotify result) else Some AtDone)
    (finishTask p status result s).

Definition completion (st : SubagentTask) (result : string) : OutboundMessage :=
  {| out_Channel := sub_OriginChannel st; out_ChatID := sub_OriginChatID st;
     out_Content := "[Subtask " +:+ sub_ID st +:+ " completed]" +:+ nl +:+ result;
     out_Media := []; out_Metadata := ∅ |}.

Definition exec_notify (p : nat) (result : string) (s : sub_state) : option sub_state :=
  st ← sub_heap s !! p; Some (set_worker p (Some AtDone) (call p (CallPublish (completion st result)) s)).

(** The deferred [wg.Done]. *)
Definition exec_done (p : nat) (s : sub_state) : sub_state := set_wg (pred (sub_wg s)) (set_worker p None s).

Definition GetTask (taskID : string) (s : sub_state) : option SubagentTask :=
  p ← sub_tasks s !! taskID; sub_heap s !! p.

Definition finished (st : SubagentTask) : bool :=
  bool_decide (sub_Status st = status_completed) || bool_decide (sub_Status st = status_failed).

Definition is_finished (s : sub_state) (p : nat) : bool :=
  match sub_heap s !! p with Some st => finished st | None => false end.

(** [CleanupCompleted] with the number of entries it removes. *)
Definition CleanupCompleted (s : sub_state) : sub_state * nat :=
  let kept := map_keep (λ p, negb (is_finished s p)) (sub_tasks s) in
  ({| sub_tasks := kept; sub_heap := sub_heap s; sub_next := sub_next s;
      sub_workers := sub_workers s; sub_calls := sub_calls s; sub_wg := sub_wg s |}, (size (sub_tasks s) - size kept)%nat).

Definition GetTaskStatus (taskID : string) (s : sub_state) : option (string * string) :=
  st ← GetTask taskID s; Some (sub_Status st, sub_Result st).

Definition ListTasks (order : list string) (s : sub_state) : list (string * string * string * string) :=
  omap (λ id, st ← GetTask id s; Some (sub_ID st, sub_AgentID st, sub_Status st, sub_Task st)) order.

(** [Wait] returns when the counter is zero. *)
Definition wait_returns (s : sub_state) : Prop := sub_wg s = 0%nat.

(** [SpawnSync] with the answers of the session service and the runner, and the calls it
    makes; [id] is the random part of the session identifier.  [None] when the agent is
    not known. *)
Definition SpawnSync (reg : AgentRegistry Runner) (id task agentID channel chatID tenantID userID : string)
    (err : option goerror) (evs : list (result goerror (option RunEvent)))
    : option (list sub_call * result goerror string) :=
  r ← GetRunner reg agentID;
  let sessionID := "sync-" +:+ id in
  let userID := or_system userID in
  let create := CallCreate userID sessionID (task_state tenantID userID channel chatID) in
  Some match err with
       | Some e => ([create], Err e)
       | None => ([create; CallRun r userID sessionID task], collect_final evs "")
       end.

Inductive sub_step (reg : AgentRegistry Runner) : sub_state → sub_state → Prop :=
| ss_insert s id task agentID channel chatID tenantID userID s' p :
    spawn_insert reg id task agentID channel chatID tenantID userID s = Some (s', p) → sub_step reg s s'
| ss_count s p s' : spawn_count p s = Some s' → sub_step reg s s'
| ss_create s p r err s' :
    sub_workers s !! p = Some (AtCreate r) → exec_create p r err s = Some s' → sub_step reg s s'
| ss_run s p r evs s' :
    sub_workers s !! p = Some (AtRun r) → exec_run p r evs s = Some s' → sub_step reg s s'
| ss_finish s p status result :
    sub_workers s !! p = Some (AtFinish status result) → sub_step reg s (exec_finish p status result s)
| ss_notify s p result s' :
    sub_workers s !! p = Some (AtNotify result) → exec_notify p result s = Some s' → sub_step reg s s'
| ss_done s p : sub_workers s !! p = Some AtDone → sub_step reg s (exec_done p s)
| ss_cleanup s : sub_step reg s (CleanupCompleted s).1.

Inductive sub_reachable (reg : AgentRegistry Runner) : sub_state → Prop :=
| sr_init : sub_reachable reg NewSubagentManager
| sr_step s s' : sub_reachable reg s → sub_step reg s s' → sub_reachable reg s'.

(** ** Lemmas *)

Definition calls_of (p : nat) (s : sub_state) : list sub_call :=
  omap (λ pc, if decide (pc.1 = p) then Some pc.2 else None) (sub_calls s).

Definition create_call (st : SubagentTask) : sub_call :=
  CallCreate (or_system (sub_UserID st)) ("spawn-" +:+ sub_ID st)
    (task_state (sub_TenantID st) (or_system (sub_UserID st)) (sub_OriginChannel st) (sub_OriginChatID st)).

Definition run_call (r : Runner) (st : SubagentTask) : sub_call :=
  CallRun r (or_system (sub_UserID st)) ("spawn-" +:+ sub_ID st) (sub_Task st).

(** The calls of a task whose execution has come to a status. *)
Definition calls_until (st : SubagentTask) (status : string) (l : list sub_call) : Prop :=
  status = status_completed ∧ (∃ r, l = [create_call st; run_call r st])
  ∨ status = status_failed ∧ (l = [create_call st] ∨ ∃ r, l = [create_call st; run_call r st]).

(** Where a task stands, what it says and which calls were made for it. *)
Definition task_ok (st : SubagentTask) (w : option exec_pc) (l : list sub_call) : Prop :=
  match w with
  | Some (AtAdd _) | Some (AtCreate _) => sub_Status st = status_running ∧ sub_Result st = ""%string ∧ l = []
  | Some (AtRun _) => sub_Status st = status_running ∧ sub_Result st = ""%string ∧ l = [create_call st]
  | Some (AtFinish status _) =>
      sub_Status st = status_running ∧ sub_Result st = ""%string ∧ calls_until st status l
  | Some (AtNotify result) =>
      sub_Status st = status_completed ∧ sub_Result st = result ∧ calls_until st status_completed l
  | Some AtDone | None =>
      sub_Status st = status_failed ∧ calls_until st status_failed l
      ∨ sub_Status st = status_completed ∧
        ∃ l', calls_until st status_completed l' ∧ l = l' ++ [CallPublish (completion st (sub_Result st))]
  end.

(** The goroutines that are counted. *)
Definition counted (w : exec_pc) : Prop := match w with AtAdd _ => False | _ => True end.
#[local] Instance counted_dec w : Decision (counted w).
Proof. destruct w; apply _. Defined.
Definition n_counted (m : gmap nat exec_pc) : nat := size (filter (λ pw, counted pw.2) m).

Record sub_ok (s : sub_state) : Prop := {
  ok_wg : sub_wg s = n_counted (sub_workers s);
  ok_task p st : sub_heap s !! p = Some st → task_ok st (sub_workers s !! p) (calls_of p s);
  ok_worker p : is_Some (sub_workers s !! p) → is_Some (sub_heap s !! p);
  ok_next p : is_Some (sub_heap s !! p) → (p < sub_next s)%nat;
  ok_calls p : ¬ (p < sub_next s)%nat → calls_of p s = [];
  ok_map id p : sub_tasks s !! id = Some p → ∃ st, sub_heap s !! p = Some st ∧ sub_ID st = id;
}.

Lemma calls_of_call p q c s : calls_of p (call q c s) = calls_of p s ++ (if decide (q = p) then [c] else []).
Proof. unfold calls_of, call. simpl. rewrite omap_app. simpl. by destruct (decide (q = p)). Qed.

Definition weight (w : option exec_pc) : nat := match w with Some w => if decide (counted w) then 1 else 0 | None => 0 end.

Lemma n_counted_at p m : n_counted m = (weight (m !! p) + n_counted (delete p m))%nat.
Proof.
  unfold n_counted. destruct (m !! p) as [w|] eqn:Hp; [|by rewrite delete_id]. rewrite <- (insert_delete_id m p w) at 1 by done.
  cbn [weight]. case_decide as Hw.
  - rewrite map_filter_insert_True, map_size_insert_None by (done || rewrite map_lookup_filter, lookup_delete_eq; done). done.
  - rewrite map_filter_insert_False by done. by rewrite delete_delete_eq.
Qed.

Lemma n_counted_move p m m' : (∀ q, q ≠ p → m' !! q = m !! q) →
  (n_counted m' + weight (m !! p) = n_counted m + weight (m' !! p))%nat.
Proof.
  intros Hq. rewrite (n_counted_at p m), (n_counted_at p m'). assert (delete p m' = delete p m) as ->; [|lia].
  apply map_eq. intros q. destruct (decide (q = p)) as [->|Hne]; [by rewrite !lookup_delete_eq|].
  rewrite !lookup_delete_ne by done. by apply Hq.
Qed.

(** A step of the goroutine [p]: new status and worker, more calls, for [p] only. *)
Lemma sub_ok_move s s' p st st' :
  sub_ok s → sub_heap s !! p = Some st →
  sub_tasks s' = sub_tasks s → sub_next s' = sub_next s →
  sub_heap s' = <[p := st']> (sub_heap s) → sub_ID st' = sub_ID st →
  (∀ q, q ≠ p → sub_workers s' !! q = sub_workers s !! q ∧ calls_of q s' = calls_of q s) →
  (sub_wg s' + weight (sub_workers s !! p) = sub_wg s + weight (sub_workers s' !! p))%nat →
  task_ok st' (sub_workers s' !! p) (calls_of p s') → sub_ok s'.
Proof.
  intros Hok Hp Ht Hn Hh Hid Hq Hwg Hnew. split.
  - pose proof (n_counted_move p (sub_workers s) (sub_workers s') (λ q Hne, proj1 (Hq q Hne))) as Hm.
    pose proof (ok_wg s Hok). lia.
  - intros q stq. rewrite Hh. destruct (decide (q = p)) as [->|Hne].
    + rewrite lookup_insert, decide_True by done. by intros [= <-].
    + rewrite lookup_insert_ne by done. destruct (Hq q Hne) as [-> ->]. apply (ok_task s Hok).
  - intros q. rewrite Hh. destruct (decide (q = p)) as [->|Hne].
    + rewrite lookup_insert, decide_True by done. by eexists.
    + rewrite lookup_insert_ne by done. destruct (Hq q Hne) as [-> _]. apply (ok_worker s Hok).
  - intros q. rewrite Hh, Hn. destruct (decide (q = p)) as [->|Hne].
    + intros _. apply (ok_next s Hok). by rewrite Hp.
    + rewrite lookup_insert_ne by done. apply (ok_next s Hok).
  - intros q. rewrite Hn. destruct (decide (q = p)) as [->|Hne].
    + intros []. apply (ok_next s Hok). by rewrite Hp.
    + destruct (Hq q Hne) as [_ ->]. apply (ok_calls s Hok).
  - intros id q. rewrite Ht, Hh. intros (stq & Hstq & Hidq)%(ok_map s Hok).
    destruct (decide (q = p)) as [->|Hne].
    + exists st'. rewrite lookup_insert, decide_True by done. split; [done|congruence].
    + exists stq. by rewrite lookup_insert_ne.
Qed.

Lemma insert_same_heap (s : sub_state) p st :
  sub_heap s !! p = Some st → sub_heap s = <[p := st]> (sub_heap s).
Proof. intros H. by rewrite insert_id. Qed.

Lemma calls_until_completed st l : calls_until st status_completed l → ∃ r, l = [create_call st; run_call r st].
Proof. by intros [[_ H]|[H _]]. Qed.

Lemma set_worker_other p q w s : q ≠ p → sub_workers (set_worker p w s) !! q = sub_workers s !! q.
Proof. intros. unfold set_worker. simpl. by rewrite lookup_partial_alter_ne. Qed.
Lemma set_worker_same p w s : sub_workers (set_worker p w s) !! p = w.
Proof. unfold set_worker. simpl. by rewrite lookup_partial_alter, decide_True. Qed.

Lemma insert_ok reg s id task agentID channel chatID tenantID userID s' p0 :
  sub_ok s → spawn_insert reg id task agentID channel chatID tenantID userID s = Some (s', p0) → sub_ok s'.
Proof.
  intros Hok. unfold spawn_insert. destruct (GetRunner reg agentID) as [r|]; [|done]. simpl. intros [= <- _].
  assert (∀ p, is_Some (sub_heap s !! p) → p ≠ sub_next s) as Hne.
  { intros p Hp ->. pose proof (ok_next s Hok _ Hp). lia. }
  split; simpl.
  - assert (sub_workers s !! sub_next s = None) as Hnone.
    { apply eq_None_not_Some. intros Hw%(ok_worker s Hok). by apply (Hne (sub_next s)). }
    pose proof (n_counted_move (sub_next s) (sub_workers s) (<[sub_next s := AtAdd r]> (sub_workers s))
      (λ q Hq, lookup_insert_ne _ _ _ _ (not_eq_sym Hq))) as Hm.
    rewrite Hnone, lookup_insert_eq in Hm. change (weight (Some (AtAdd r))) with 0%nat in Hm. change (weight None) with 0%nat in Hm.
    pose proof (ok_wg s Hok). lia.
  - intros p st. destruct (decide (p = sub_next s)) as [->|Hp].
    + rewrite !lookup_insert, !decide_True by done. intros [= <-]. simpl.
      split; [done|]. split; [done|]. apply (ok_calls s Hok). lia.
    + rewrite !lookup_insert_ne by done. apply (ok_task s Hok).
  - intros p. destruct (decide (p = sub_next s)) as [->|Hp].
    + rewrite !lookup_insert, !decide_True by done. by eexists.
    + rewrite !lookup_insert_ne by done. apply (ok_worker s Hok).
  - intros p. destruct (decide (p = sub_next s)) as [->|Hp]; [lia|].
    rewrite lookup_insert_ne by done. intros ?%(ok_next s Hok). lia.
  - intros p Hp. apply (ok_calls s Hok). lia.
  - intros id' p. destruct (decide (id' = id)) as [->|Hid].
    + rewrite lookup_insert, decide_True by done. intros [= <-].
      eexists. rewrite lookup_insert, decide_True by done. done.
    + rewrite lookup_insert_ne by done. intros (st & Hst & Hi)%(ok_map s Hok).
      exists st. rewrite lookup_insert_ne; [done|]. intros <-. by apply (Hne (sub_next s)).
Qed.

Lemma cleanup_ok s : sub_ok s → sub_ok (CleanupCompleted s).1.
Proof.
  intros Hok. split; simpl; [apply (ok_wg s Hok)|apply (ok_task s Hok)|apply (ok_worker s Hok)|apply (ok_next s Hok)
    |apply (ok_calls s Hok)|].
  intros id p. rewrite map_keep_lookup. destruct (sub_tasks s !! id) as [q|] eqn:Hq; [|done]. simpl.
  destruct (negb _); [|done]. intros [= <-]. by apply (ok_map s Hok).
Qed.

(** A call of the goroutine [p] after which it goes on at [w]. *)
Lemma sub_ok_call s p st c w0 w :
  sub_ok s → sub_heap s !! p = Some st → sub_workers s !! p = Some w0 → counted w0 → weight w = 1%nat → task_ok st w (calls_of p s ++ [c]) →
  sub_ok (set_worker p w (call p c s)).
Proof.
  intros Hok Hp Hw0 Hc Hw Ht. eapply (sub_ok_move s _ p st st); [done..|exact (insert_same_heap s p st Hp)|done| | |].
  - intros q Hq. rewrite set_worker_other by done. split; [done|].
    change (calls_of q (call p c s) = calls_of q s). by rewrite calls_of_call, decide_False, app_nil_r.
  - rewrite set_worker_same, Hw0, Hw. cbn. by rewrite decide_True.
  - rewrite set_worker_same. change (task_ok st w (calls_of p (call p c s))).
    by rewrite calls_of_call, decide_True.
Qed.

Lemma finish_ok s p st status res :
  sub_ok s → sub_heap s !! p = Some st → sub_workers s !! p = Some (AtFinish status res) →
  sub_ok (exec_finish p status res s).
Proof.
  intros Hok Hp Hw. pose proof (ok_task s Hok p st Hp) as Ht. rewrite Hw in Ht. destruct Ht as (Hst & Hres & Hl).
  eapply (sub_ok_move s _ p st); [done..| | | | |].
  - unfold exec_finish, finishTask. simpl. apply map_eq. intros q.
    destruct (decide (q = p)) as [->|Hne].
    + rewrite lookup_alter, lookup_insert, !decide_True, Hp by done. reflexivity.
    + by rewrite lookup_alter_ne, lookup_insert_ne.
  - done.
  - intros q Hq. unfold exec_finish. by rewrite set_worker_other.
  - unfold exec_finish. rewrite set_worker_same, Hw. cbn. by case_bool_decide.
  - unfold exec_finish. rewrite set_worker_same. case_bool_decide as Hc; simpl.
    + split; [done|]. split; [done|]. by subst.
    + left. destruct Hl as [[? _]|[-> Hl]]; [done|]. split; [done|]. right. by split.
Qed.

(** The two ends of a goroutine do not touch its task. *)
Lemma sub_ok_worker s p st w0 w n :
  sub_ok s → sub_heap s !! p = Some st → sub_workers s !! p = Some w0 → (n + weight (Some w0) = sub_wg s + weight w)%nat →
  task_ok st w (calls_of p s) → sub_ok (set_wg n (set_worker p w s)).
Proof.
  intros Hok Hp Hw0 Hn Ht. eapply (sub_ok_move s _ p st st); [done..|exact (insert_same_heap s p st Hp)|done| | |].
  - intros q Hq. split; [|done]. exact (set_worker_other p q w s Hq).
  - rewrite Hw0. change (sub_workers (set_wg n (set_worker p w s))) with (sub_workers (set_worker p w s)). by rewrite set_worker_same.
  - change (sub_workers (set_wg n (set_worker p w s))) with (sub_workers (set_worker p w s)). by rewrite set_worker_same.
Qed.

Lemma worker_task s p w : sub_ok s → sub_workers s !! p = Some w → ∃ st, sub_heap s !! p = Some st ∧ task_ok st (Some w) (calls_of p s).
Proof.
  intros Hok Hw. destruct (ok_worker s Hok p ltac:(by rewrite Hw)) as [st Hp]. exists st. split; [done|].
  pose proof (ok_task s Hok p st Hp) as Ht. by rewrite Hw in Ht.
Qed.

Lemma sub_step_ok reg s s' : sub_step reg s s' → sub_ok s → sub_ok s'.
Proof.
  destruct 1 as [s id task ag ch chat ten us s' p Hs|s p s' Hs|s p r err s' Hw Hs|s p r evs s' Hw Hs
    |s p status res Hw|s p res s' Hw Hs|s p Hw|s]; intros Hok.
  - by eapply insert_ok.
  - unfold spawn_count in Hs. destruct (sub_workers s !! p) as [w|] eqn:Hw; [|done]. destruct w as [r| | | | |]; try done. simplify_eq.
    destruct (worker_task s p _ Hok Hw) as (st & Hp & Ht). eapply sub_ok_worker; [done..| |exact Ht]. change (weight (Some (AtAdd r))) with 0%nat. change (weight (Some (AtCreate r))) with 1%nat. lia.
  - destruct (worker_task s p _ Hok Hw) as (st & Hp & Hst & Hres & Hl). unfold exec_create in Hs. rewrite Hp in Hs. cbn in Hs. simplify_eq.
    apply (sub_ok_call s p st _ (AtCreate r)); [done..|by destruct err|]. rewrite Hl.
    destruct err as [e|]; simpl; [|done]. split; [done|]. split; [done|]. right. split; [done|]. by left.
  - destruct (worker_task s p _ Hok Hw) as (st & Hp & Hst & Hres & Hl). unfold exec_run in Hs. rewrite Hp in Hs. cbn in Hs. simplify_eq.
    apply (sub_ok_call s p st _ (AtRun r)); [done..|by destruct (collect_final evs "")|]. rewrite Hl.
    destruct (collect_final evs "") as [res|e]; simpl; (split; [done|]; split; [done|]).
    + left. split; [done|]. by exists r.
    + right. split; [done|]. right. by exists r.
  - destruct (ok_worker s Hok p ltac:(by rewrite Hw)) as [st Hp]. by eapply finish_ok.
  - destruct (worker_task s p _ Hok Hw) as (st & Hp & Hst & Hres & Hl). unfold exec_notify in Hs. rewrite Hp in Hs. cbn in Hs. simplify_eq.
    apply (sub_ok_call s p st _ (AtNotify (sub_Result st))); [done..|]. simpl. right. split; [done|].
    by exists (calls_of p s).
  - destruct (worker_task s p _ Hok Hw) as (st & Hp & Ht). eapply sub_ok_worker; [done..| |exact Ht].
    pose proof (n_counted_at p (sub_workers s)) as Hc. rewrite Hw in Hc. change (weight (Some AtDone)) with 1%nat in *.
    change (weight None) with 0%nat. pose proof (ok_wg s Hok). lia.
  - by apply cleanup_ok.
Qed.

Lemma sub_reachable_ok reg s : sub_reachable reg s → sub_ok s.
Proof.
  induction 1 as [|s s' _ IH Hstep]; [|by eapply sub_step_ok].
  split; simpl; try done; intros ??; try (intros [? ?]); by simplify_map_eq.
Qed.
End subagent.

(** ** Properties *)

(** C32: In every interleaving each background task is executed once: its session is created
    with the data of the task, then it is run, then its status changes from running to
    completed or failed, and a completed task is reported once to the chat it came from,
    a failed one never.  When [Wait] can return, every task whose [Spawn] has counted it has
    finished, and so have its calls; a task that is in the map but not counted yet is still
    running, and [Wait] does not wait for it. *)
Theorem subagent_lifecycle {Runner} (reg : AgentRegistry Runner) s (Hr : sub_reachable reg s) :
  (∀ p st, sub_heap s !! p = Some st → task_ok st (sub_workers s !! p) (calls_of p s))
  ∧ (∀ id st, GetTask id s = Some st → sub_ID st = id)
  ∧ (wait_returns s → ∀ p st, sub_heap s !! p = Some st →
       sub_workers s !! p = None ∧ finished st = true
       ∨ (∃ r, sub_workers s !! p = Some (AtAdd r)) ∧ finished st = false).
Proof.
  pose proof (sub_reachable_ok reg s Hr) as Hok. split_and!.
  - apply (ok_task s Hok).
  - intros id st. unfold GetTask. destruct (sub_tasks s !! id) as [p|] eqn:Hp; [|done]. simpl.
    destruct (ok_map s Hok id p Hp) as (st' & -> & Hid). by intros [= <-].
  - intros Hw p st Hp. pose proof (ok_task s Hok p st Hp) as Ht. unfold wait_returns in Hw.
    pose proof (n_counted_at p (sub_workers s)) as Hc. rewrite <- (ok_wg s Hok), Hw in Hc.
    unfold finished. destruct (sub_workers s !! p) as [w|].
    + assert (¬ counted w) as Hnc by (intros Hcw; unfold weight in Hc; rewrite decide_True in Hc by exact Hcw; lia).
      destruct w as [r| | | | |]; try (by destruct Hnc). right. destruct Ht as (-> & _). split; [by eexists|done].
    + left. split; [done|]. destruct Ht as [[-> _]|[-> _]]; done.
Qed.

(** The result of a finished task never changes, and a task can be looked up until it has
    finished and is cleaned up, or until another task is given the same identifier;
    cleaning up removes exactly the finished tasks. *)
Theorem subagent_results_stay {Runner} (reg : AgentRegistry Runner) s s'
  (Hr : sub_reachable reg s) (Hstep : sub_step reg s s') :
  (∀ p st, sub_heap s !! p = Some st → finished st = true → sub_heap s' !! p = Some st)
  ∧ (∀ id p, sub_tasks s !! id = Some p →
       sub_tasks s' !! id = Some p
       ∨ is_finished s p = true ∧ sub_tasks s' !! id = None
       ∨ sub_tasks s' !! id = Some (sub_next s) ∧ sub_heap s !! sub_next s = None)
  ∧ (∀ id p, sub_tasks (CleanupCompleted s).1 !! id = Some p ↔ sub_tasks s !! id = Some p ∧ is_finished s p = false).
Proof.
  pose proof (sub_reachable_ok reg s Hr) as Hok.
  assert (∀ id p, sub_tasks (CleanupCompleted s).1 !! id = Some p ↔
                  sub_tasks s !! id = Some p ∧ is_finished s p = false) as Hclean.
  { intros id p. simpl. rewrite map_keep_lookup. destruct (sub_tasks s !! id) as [q|]; simpl; [|naive_solver].
    destruct (is_finished s q) eqn:Hf; simpl; naive_solver congruence. }
  assert (sub_heap s !! sub_next s = None) as Hfresh.
  { apply eq_None_not_Some. intros Hs%(ok_next s Hok). lia. }
  split_and!; [| |done].
  - intros p st Hp Hf. destruct Hstep as [s id task ag ch chat ten us s' q Hs|s q s' Hs|s q r err s' Hw Hs
      |s q r evs s' Hw Hs|s q status res Hw|s q res s' Hw Hs|s q Hw|s]; [| | | | | |done|done].
    2: { unfold spawn_count in Hs. by destruct (sub_workers s !! q) as [[]|]; simplify_eq. }
    + unfold spawn_insert in Hs. destruct (GetRunner reg ag); [|done]. simpl in Hs. simplify_eq. simpl.
      rewrite lookup_insert_ne; [done|]. intros <-. congruence.
    + unfold exec_create in Hs. by destruct (sub_heap s !! q); simpl in Hs; simplify_eq.
    + unfold exec_run in Hs. by destruct (sub_heap s !! q); simpl in Hs; simplify_eq.
    + unfold exec_finish. simpl. destruct (decide (p = q)) as [->|Hne]; [|by rewrite lookup_alter_ne].
      pose proof (ok_task s Hok q st Hp) as Ht. rewrite Hw in Ht. destruct Ht as (Hrun & _).
      unfold finished in Hf. by rewrite Hrun in Hf.
    + unfold exec_notify in Hs. by destruct (sub_heap s !! q); simpl in Hs; simplify_eq.
  - intros id p Hp. destruct Hstep as [s id' task ag ch chat ten us s' q Hs|s q s' Hs|s q r err s' Hw Hs
      |s q r evs s' Hw Hs|s q status res Hw|s q res s' Hw Hs|s q Hw|s].
    2: { unfold spawn_count in Hs. left. by destruct (sub_workers s !! q) as [[]|]; simplify_eq. }
    + unfold spawn_insert in Hs. destruct (GetRunner reg ag); [|done]. simpl in Hs. simplify_eq. simpl.
      destruct (decide (id = id')) as [->|Hne]; [|left; by rewrite lookup_insert_ne].
      right. right. by rewrite lookup_insert, decide_True.
    + unfold exec_create in Hs. left. by destruct (sub_heap s !! q); simpl in Hs; simplify_eq.
    + unfold exec_run in Hs. left. by destruct (sub_heap s !! q); simpl in Hs; simplify_eq.
    + by left.
    + unfold exec_notify in Hs. left. by destruct (sub_heap s !! q); simpl in Hs; simplify_eq.
    + by left.
    + destruct (is_finished s p) eqn:Hf; [|left; by apply Hclean].
      right. left. split; [done|]. apply eq_None_not_Some. intros [q Hq].
      apply Hclean in Hq as [Hq Hqf]. congruence.
Qed.

(** ** Witnesses *)

Definition w_sub_reg : AgentRegistry nat := Register (AgentRegistry.w_entry "main" true []) NewAgentRegistry.

Definition w_sub_s0 : sub_state :=
  default NewSubagentManager (fst <$> spawn_insert w_sub_reg "t1" "count" "main" "tg" "c1" "t" "" NewSubagentManager).
Definition w_sub_s1 : sub_state := default w_sub_s0 (spawn_count 0 w_sub_s0).
Definition w_sub_s2 : sub_state := default w_sub_s1 (exec_create 0 7%nat None w_sub_s1).
Definition w_sub_s3 : sub_state := default w_sub_s2 (exec_run 0 7%nat [Ok None] w_sub_s2).
Definition w_sub_s4 : sub_state := exec_finish 0 status_completed "" w_sub_s3.
Definition w_sub_s5 : sub_state := default w_sub_s4 (exec_notify 0 "" w_sub_s4).
Definition w_sub_s6 : sub_state := exec_done 0 w_sub_s5.

Lemma w_sub_inserted : sub_reachable w_sub_reg w_sub_s0.
Proof. eapply sr_step; [apply sr_init|]. by apply (ss_insert _ _ "t1" "count" "main" "tg" "c1" "t" "" _ 0). Qed.

Lemma w_sub_reachable : sub_reachable w_sub_reg w_sub_s4.
Proof.
  eapply sr_step; [|by apply (ss_finish _ w_sub_s3 0 status_completed "")].
  eapply sr_step; [|by apply (ss_run _ w_sub_s2 0 7%nat [Ok None])].
  eapply sr_step; [|by apply (ss_create _ w_sub_s1 0 7%nat None)].
  eapply sr_step; [exact w_sub_inserted|]. by apply (ss_count _ _ 0).
Qed.

Lemma w_sub_last : sub_step w_sub_reg w_sub_s4 w_sub_s5.
Proof. by apply (ss_notify _ w_sub_s4 0 ""). Qed.

Lemma w_sub_end : sub_reachable w_sub_reg w_sub_s6.
Proof. eapply sr_step; [exact (sr_step _ _ _ w_sub_reachable w_sub_last)|]. by apply (ss_done _ w_sub_s5 0). Qed.

(** A task from its spawn to its end; before it is counted, [Wait] returns with it running. *)
Lemma subagent_lifecycle_witness :
  finished <$> GetTask "t1" w_sub_s6 = Some true ∧ wait_returns w_sub_s0 ∧ finished <$> GetTask "t1" w_sub_s0 = Some false.
Proof.
  split; [|split; [reflexivity|]].
  - destruct (subagent_lifecycle w_sub_reg w_sub_s6 w_sub_end) as (_ & _ & Hdone).
    destruct (GetTask "t1" w_sub_s6) as [st|] eqn:Hst; [|by vm_compute in Hst].
    simpl. f_equal. destruct (Hdone eq_refl 0%nat st Hst) as [[_ Hf]|[[r Hr] _]]; [exact Hf|by vm_compute in Hr].
  - destruct (subagent_lifecycle w_sub_reg w_sub_s0 w_sub_inserted) as (_ & _ & Hdone).
    destruct (GetTask "t1" w_sub_s0) as [st|] eqn:Hst; [|by vm_compute in Hst].
    simpl. f_equal. destruct (Hdone eq_refl 0%nat st Hst) as [[Hr _]|[_ Hf]]; [by vm_compute in Hr|exact Hf].
Defined.

Lemma subagent_results_stay_witness : sub_heap w_sub_s5 !! 0%nat = sub_heap w_sub_s4 !! 0%nat.
Proof.
  destruct (subagent_results_stay w_sub_reg w_sub_s4 w_sub_s5 w_sub_reachable w_sub_last) as (Hstay & _ & _).
  destruct (sub_heap w_sub_s4 !! 0%nat) as [st|] eqn:Hst; [|by vm_compute in Hst].
  apply (Hstay 0%nat st Hst). vm_compute in Hst. by injection Hst as <-.
Defined.
