(* ===== verification/Channels.v ===== *)
(** [pkg/channels]: what the message transports share, namely the duplicate filter
    ([dedup_cache.go]), the access check of [base.go], and the registry of channels with
    the dispatcher of outbound messages ([registry.go], [adapter.go]).

    A transport is a third party behind the interface [types.Channel]; each name is
    registered with a channel object of its own.  Where the code ranges over a map the
    order is an argument. *)
From S2P Require Import Prelude GoStrings Types.

(** ** dedup_cache.go *)

Definition defaultDedupMaxSize : Z := 100000.

Record DedupCache := { dd_entries : gmap string time; dd_ttl : duration; dd_maxSize : Z }.

Definition NewDedupCache (ttl : duration) : DedupCache :=
  {| dd_entries := ∅; dd_ttl := ttl; dd_maxSize := defaultDedupMaxSize |}.

Definition with_entries (e : gmap string time) (d : DedupCache) : DedupCache :=
  {| dd_entries := e; dd_ttl := dd_ttl d; dd_maxSize := dd_maxSize d |}.

(** The loop of [evictOldest] over the keys in some order, with its two variables. *)
Fixpoint oldest_loop (e : gmap string time) (order : list string) (oldestKey : string) (oldestTime : time)
    : string :=
  match order with
  | [] => oldestKey
  | k :: order =>
      match e !! k with
      | Some t => if str_empty oldestKey || Before t oldestTime then oldest_loop e order k t
                  else oldest_loop e order oldestKey oldestTime
      | None => oldest_loop e order oldestKey oldestTime
      end
  end.

Definition evictOldest (order : list string) (d : DedupCache) : DedupCache :=
  let oldestKey := oldest_loop (dd_entries d) order "" time_zero in
  if str_empty oldestKey then d else with_entries (delete oldestKey (dd_entries d)) d.

(** [Check]: whether the identifier was seen. *)
Definition dd_Check (id : string) (now : time) (order : list string) (d : DedupCache) : DedupCache * bool :=
  match dd_entries d !! id with
  | Some _ => (d, true)
  | None =>
      let d := if dd_maxSize d <=? Z.of_nat (size (dd_entries d)) then evictOldest order d else d in
      (with_entries (<[id := now]> (dd_entries d)) d, false)
  end.

Definition dd_cleanup (now : time) (d : DedupCache) : DedupCache :=
  let cutoff := time_add now (- dd_ttl d) in
  with_entries (map_keep (λ t, negb (Before t cutoff)) (dd_entries d)) d.

Inductive dedup_op := DCheck (id : string) (now : time) (order : list string) | DCleanup (now : time).

Definition dedup_step (d : DedupCache) (o : dedup_op) : DedupCache :=
  match o with DCheck id now order => (dd_Check id now order d).1 | DCleanup now => dd_cleanup now d end.

Definition dedup_time (o : dedup_op) : time := match o with DCheck _ t _ | DCleanup t => t end.

(** ** base.go *)

(** [strings.EqualFold] beyond ASCII. *)
Class UnicodeFold := { unicode_fold : string → string → bool }.

Section base.
Context `{F : UnicodeFold} {B : Type} `{InboundBus B}.

Definition EqualFold (s t : string) : bool :=
  if is_ascii_str s && is_ascii_str t then bool_decide (bytewise_lower s = bytewise_lower t) else unicode_fold s t.

Record BaseChannel := { bc_name : string; bc_allowList : list string; bc_running : bool }.

Definition bc_IsAllowed (c : BaseChannel) (senderID : string) : bool :=
  if (length (bc_allowList c) =? 0)%nat then true
  else existsb (λ allowed, existsb (λ part, EqualFold (trim_space part) (trim_space allowed)) (split senderID "|"))
         (bc_allowList c).

Definition inbound_of (c : BaseChannel) (tenantID userID senderID chatID content : string) (media : list string)
    (metadata : gmap string string) (now : time) : InboundMessage :=
  {| in_Channel := bc_name c; in_TenantID := tenantID; in_UserID := userID; in_SenderID := senderID;
     in_ChatID := chatID; in_Content := content; in_Media := media; in_Metadata := metadata;
     in_SessionKey := ""; in_AgentID := ""; in_Timestamp := now |}.

Definition HandleMessage (c : BaseChannel) (tenantID userID senderID chatID content : string)
    (media : list string) (metadata : gmap string string) (now : time) (b : B) : B * option goerror :=
  if negb (bc_IsAllowed c senderID) then (b, None)
  else bus_PublishInbound (inbound_of c tenantID userID senderID chatID content media metadata now) b.
End base.

(** A bus that takes every message, and the messages without their times: what the theorems
    on the transports are stated with. *)
Definition log_bus : InboundBus (list InboundMessage) := {| bus_PublishInbound m b := (b ++ [m], None) |}.

Definition untimed (m : InboundMessage) : InboundMessage :=
  {| in_Channel := in_Channel m; in_TenantID := in_TenantID m; in_UserID := in_UserID m; in_SenderID := in_SenderID m;
     in_ChatID := in_ChatID m; in_Content := in_Content m; in_Media := in_Media m; in_Metadata := in_Metadata m;
     in_SessionKey := in_SessionKey m; in_AgentID := in_AgentID m; in_Timestamp := time_zero |}.

(** ** registry.go and adapter.go *)

Class Channel (C : Type) := {
  ch_Start : C → C * option goerror;
  ch_Stop : C → C * option goerror;
  ch_Send : OutboundMessage → C → C * option goerror;
  ch_IsRunning : C → bool;
}.

Section registry.
Context {C : Type} `{Channel C}.

Record Registry := { rg_adapters : gmap string C; rg_dispatching : bool }.

Definition NewRegistry : Registry := {| rg_adapters := ∅; rg_dispatching := false |}.

Definition with_adapters (a : gmap string C) (r : Registry) : Registry :=
  {| rg_adapters := a; rg_dispatching := rg_dispatching r |}.

Definition rg_Register (name : string) (ch : C) (r : Registry) : Registry :=
  with_adapters (<[name := ch]> (rg_adapters r)) r.

Definition rg_Get (name : string) (r : Registry) : option C := rg_adapters r !! name.

Definition rg_Unregister (name : string) (r : Registry) : Registry :=
  with_adapters (delete name (rg_adapters r)) r.

Definition GetStatus (r : Registry) : gmap string bool := ch_IsRunning <$> rg_adapters r.

(** A call of a method of the channel registered under [name], if there is one. *)
Definition on_channel (f : C → C * option goerror) (name : string) (a : gmap string C) : gmap string C * option goerror :=
  match a !! name with
  | Some c => let '(c, e) := f c in (<[name := c]> a, e)
  | None => (a, None)
  end.

(** Stop every channel of the list, whatever they answer. *)
Definition stop_each (names : list string) (a : gmap string C) : gmap string C :=
  fold_left (λ a name, (on_channel ch_Stop name a).1) names a.

(** The loop of [StartAll]; [started] are the names started so far. *)
Fixpoint start_loop (order started : list string) (a : gmap string C) : gmap string C * option goerror :=
  match order with
  | [] => (a, None)
  | name :: order =>
      match on_channel ch_Start name a with
      | (a, Some e) => (stop_each started a, Some e)
      | (a, None) => start_loop order (started ++ [name]) a
      end
  end.

Definition StartAll (order : list string) (r : Registry) : Registry * option goerror :=
  match start_loop order [] (rg_adapters r) with
  | (a, Some e) => (with_adapters a r, Some e)
  | (a, None) =>
      ({| rg_adapters := a; rg_dispatching := if (0 <? size a)%nat then true else rg_dispatching r |}, None)
  end.

(** The loop of [StopAll] with its variable [firstErr]. *)
Fixpoint stop_loop (order : list string) (a : gmap string C) (firstErr : option goerror)
    : gmap string C * option goerror :=
  match order with
  | [] => (a, firstErr)
  | name :: order =>
      let '(a, e) := on_channel ch_Stop name a in
      stop_loop order a (match firstErr with Some _ => firstErr | None => e end)
  end.

Definition StopAll (order : list string) (r : Registry) : Registry * option goerror :=
  let '(a, e) := stop_loop order (rg_adapters r) None in
  ({| rg_adapters := a; rg_dispatching := false |}, e).

(** [SendToChannel]; [None] when there is no such channel. *)
Definition SendToChannel (channelName chatID content : string) (r : Registry)
    : option (Registry * option goerror) :=
  match rg_adapters r !! channelName with
  | None => None
  | Some _ =>
      let m := {| out_Channel := channelName; out_ChatID := chatID; out_Content := content;
                  out_Media := []; out_Metadata := ∅ |} in
      let '(a, e) := on_channel (ch_Send m) channelName (rg_adapters r) in
      Some (with_adapters a r, e)
  end.

(** The dispatcher: [ms] are the answers of [ConsumeOutbound]. *)
Fixpoint dispatch (ms : list (result goerror OutboundMessage)) (a : gmap string C) : gmap string C :=
  match ms with
  | [] | Err _ :: _ => a
  | Ok m :: ms => dispatch ms (on_channel (ch_Send m) (out_Channel m) a).1
  end.
End registry.

(** ** Lemmas: the duplicate filter *)

Lemma oldest_loop_spec e order k0 t0 :
  "" ∉ order → k0 ≠ ""%string → e !! k0 = Some t0 →
  let r := oldest_loop e order k0 t0 in
  r ≠ ""%string ∧ ∃ t, e !! r = Some t ∧ t ≤ t0 ∧ ∀ k t', k ∈ order → e !! k = Some t' → t ≤ t'.
Proof.
  revert k0 t0. induction order as [|k order IH]; intros k0 t0 Hne Hk0 He; simpl.
  - split; [done|]. exists t0. split; [done|]. split; [lia|]. set_solver.
  - assert (k ≠ ""%string ∧ "" ∉ order) as [Hk Hord] by set_solver.
    destruct (e !! k) as [t|] eqn:Hek.
    + unfold str_empty. rewrite bool_decide_false by done. unfold Before. simpl.
      destruct (Z.ltb_spec t t0).
      * destruct (IH k t Hord Hk Hek) as (Hr & t2 & Hr2 & Hle & Hmin). split; [done|]. exists t2.
        split; [done|]. split; [lia|]. intros k' t' [->|Hin]%elem_of_cons Hk'; [simplify_eq; lia|eauto].
      * destruct (IH k0 t0 Hord Hk0 He) as (Hr & t2 & Hr2 & Hle & Hmin). split; [done|]. exists t2.
        split; [done|]. split; [lia|]. intros k' t' [->|Hin]%elem_of_cons Hk'; [simplify_eq; lia|eauto].
    + destruct (IH k0 t0 Hord Hk0 He) as (Hr & t2 & Hr2 & Hle & Hmin). split; [done|]. exists t2.
      split; [done|]. split; [lia|]. intros k' t' [->|Hin]%elem_of_cons Hk'; [congruence|eauto].
Qed.

(** A full cache without an empty identifier loses exactly its oldest entry. *)
Lemma evictOldest_spec d order :
  range_order (dd_entries d) order → dd_entries d !! ""%string = None → dd_entries d ≠ ∅ →
  ∃ k t, dd_entries d !! k = Some t ∧ (∀ k' t', dd_entries d !! k' = Some t' → t ≤ t') ∧
    evictOldest order d = with_entries (delete k (dd_entries d)) d.
Proof.
  intros Ho He Hne. pose proof (range_order_elem (dd_entries d) order) as Hel.
  assert ("" ∉ order) as Hemp. { intros H%(Hel _ Ho). rewrite He in H. by destruct H. }
  destruct order as [|k0 order].
  { exfalso. apply Hne, map_eq. intros k. rewrite lookup_empty. apply eq_None_not_Some.
    intros H%(Hel _ Ho). set_solver. }
  destruct (proj1 (Hel k0 Ho) ltac:(by left)) as [t0 Ht0].
  destruct (oldest_loop_spec (dd_entries d) order k0 t0) as (Hr & t & Hrt & Hle & Hmin); [set_solver..|done|].
  exists (oldest_loop (dd_entries d) order k0 t0), t. split; [done|]. split.
  - intros k' t' Hk'. assert (k' ∈ k0 :: order) as Hin by (apply (Hel k' Ho); by eexists).
    apply elem_of_cons in Hin as [->|Hin]; [by simplify_eq|]. by eapply Hmin.
  - unfold evictOldest. cbn [oldest_loop]. rewrite Ht0. cbn [str_empty orb].
    replace (str_empty "") with true by done. cbn [orb].
    unfold str_empty at 1. by rewrite bool_decide_false.
Qed.

(** The operations of a history that Go can perform: the keys are ranged over in some
    order, and no identifier is empty. *)
Definition dedup_op_ok (d : DedupCache) (o : dedup_op) : Prop :=
  match o with DCheck id _ order => id ≠ ""%string ∧ range_order (dd_entries d) order | DCleanup _ => True end.

Fixpoint dedup_valid (d : DedupCache) (ops : list dedup_op) : Prop :=
  match ops with
  | [] => True
  | o :: ops => dedup_op_ok d o ∧ dedup_valid (dedup_step d o) ops
  end.

(** How many identifiers the history records. *)
Definition records (d : DedupCache) (o : dedup_op) : nat :=
  match o with DCheck id now order => if (dd_Check id now order d).2 then 0 else 1 | DCleanup _ => 0 end.
Fixpoint recorded (d : DedupCache) (ops : list dedup_op) : nat :=
  match ops with [] => 0 | o :: ops => records d o + recorded (dedup_step d o) ops end.

Definition dedup_run (d : DedupCache) (ops : list dedup_op) : DedupCache := fold_left dedup_step ops d.

(** The entries other than [id] that are at least as young as [t0]. *)
Definition younger (id : string) (t0 : time) (e : gmap string time) : gmap string time :=
  filter (λ kv, kv.1 ≠ id ∧ t0 ≤ kv.2) e.

Definition dedup_inv (d : DedupCache) : Prop :=
  dd_entries d !! ""%string = None ∧ Z.of_nat (size (dd_entries d)) ≤ dd_maxSize d ∧ 1 ≤ dd_maxSize d.

(** One check that records: what remains of the old entries. *)
Lemma dd_Check_records id now order d d' :
  dedup_inv d → range_order (dd_entries d) order → dd_Check id now order d = (d', false) →
  ∃ e, d' = with_entries (<[id := now]> e) d ∧ dd_entries d !! id = None ∧
    Z.of_nat (size e) + 1 ≤ dd_maxSize d ∧
    (e = dd_entries d ∨
     ∃ k t, dd_entries d !! k = Some t ∧ (∀ k' t', dd_entries d !! k' = Some t' → t ≤ t') ∧
       e = delete k (dd_entries d) ∧ dd_maxSize d ≤ Z.of_nat (size (dd_entries d))).
Proof.
  intros (Hemp & Hsize & Hmax) Ho. unfold dd_Check.
  destruct (dd_entries d !! id) as [t0|] eqn:Hid; [done|].
  destruct (Z.leb_spec (dd_maxSize d) (Z.of_nat (size (dd_entries d)))) as [Hfull|Hroom].
  - destruct (evictOldest_spec d order Ho Hemp) as (k & t & Hk & Hmin & ->).
    { intros He. rewrite He, map_size_empty in Hfull. lia. }
    intros [= <-]. exists (delete k (dd_entries d)). split; [done|]. split; [done|]. split.
    + assert (size (delete k (dd_entries d)) = pred (size (dd_entries d))) as Hd by (apply map_size_delete_Some; by eexists).
      assert (0 < size (dd_entries d))%nat; [|lia].
      destruct (decide (dd_entries d = ∅)) as [E|E]; [by rewrite E, lookup_empty in Hk|].
      apply map_size_non_empty_iff in E. lia.
    + right. by exists k, t.
  - intros [= <-]. exists (dd_entries d). split; [done|]. split; [done|]. split; [lia|]. by left.
Qed.

Lemma dedup_step_inv d o : dedup_inv d → dedup_op_ok d o → dedup_inv (dedup_step d o).
Proof.
  intros Hinv Ho. pose proof Hinv as (Hemp & Hsize & Hmax). destruct o as [id now order|now]; simpl.
  - destruct Ho as [Hid Ho]. destruct (dd_Check id now order d) as [d' []] eqn:Hc; simpl.
    { unfold dd_Check in Hc. destruct (dd_entries d !! id); by simplify_eq. }
    destruct (dd_Check_records id now order d d' Hinv Ho Hc) as (e & -> & Hnone & Hle & He).
    assert (e !! ""%string = None ∧ e !! id = None) as [He1 He2].
    { destruct He as [->|(k & t & _ & _ & -> & _)]; [done|]. by rewrite !lookup_delete_None; auto. }
    split_and!; simpl; [by rewrite lookup_insert_ne|rewrite map_size_insert_None by done; lia|done].
  - split_and!; simpl; [by rewrite map_keep_lookup, Hemp| |done].
    assert (map_keep (λ t, negb (Before t (time_add now (- dd_ttl d)))) (dd_entries d) ⊆ dd_entries d) as Hsub
      by apply map_filter_subseteq.
    apply map_subseteq_size in Hsub. lia.
Qed.

(** The operations whose clock readings keep an entry of time [t0] in its window. *)
Definition in_window (t0 : time) (ttl : duration) (o : dedup_op) : Prop :=
  match o with DCheck _ now _ => t0 ≤ now | DCleanup now => now ≤ t0 + ttl end.

Definition kept_inv (id : string) (t0 : time) (k : nat) (d : DedupCache) : Prop :=
  dedup_inv d ∧ dd_entries d !! id = Some t0 ∧ (size (younger id t0 (dd_entries d)) ≤ k)%nat.

Lemma younger_insert id t0 id2 now (e : gmap string time) :
  e !! id2 = None → (size (younger id t0 (<[id2 := now]> e)) ≤ S (size (younger id t0 e)))%nat.
Proof.
  intros He. assert (younger id t0 (<[id2 := now]> e) ⊆ <[id2 := now]> (younger id t0 e)) as Hs%map_subseteq_size.
  { apply map_subseteq_spec. intros k t. unfold younger. rewrite map_lookup_filter_Some.
    intros [Hk Hc]. destruct (decide (k = id2)) as [->|Hne].
    - rewrite lookup_insert, decide_True in Hk by done. simplify_eq. by rewrite lookup_insert, decide_True.
    - rewrite lookup_insert_ne in Hk by done. rewrite lookup_insert_ne by done. by apply map_lookup_filter_Some. }
  rewrite map_size_insert_None in Hs; [lia|].
  apply map_lookup_filter_None. left. done.
Qed.

Lemma younger_delete id t0 k (e : gmap string time) : (size (younger id t0 (delete k e)) ≤ size (younger id t0 e))%nat.
Proof.
  apply map_subseteq_size, map_subseteq_spec. intros k' t. unfold younger. rewrite !map_lookup_filter_Some.
  intros [[_ Hk]%lookup_delete_Some Hc]. done.
Qed.

(** When the entry is the oldest, all others are younger. *)
Lemma younger_all id t0 (e : gmap string time) :
  e !! id = Some t0 → (∀ k t, e !! k = Some t → t0 ≤ t) → size e = S (size (younger id t0 e)).
Proof.
  intros He Hmin. assert (younger id t0 e = delete id e) as ->.
  { apply map_eq. intros k. unfold younger. apply option_eq. intros t.
    rewrite map_lookup_filter_Some, lookup_delete_Some. simpl. split; [naive_solver|].
    intros [Hne Hk]. split; [done|]. split; [done|]. by eapply Hmin. }
  rewrite map_size_delete_Some by by eexists.
  assert (size e ≠ 0)%nat; [|lia]. apply map_size_non_empty_iff. intros ->. by rewrite lookup_empty in He.
Qed.

Lemma kept_step id t0 k d o :
  kept_inv id t0 k d → dedup_op_ok d o → in_window t0 (dd_ttl d) o →
  Z.of_nat (k + records d o) < dd_maxSize d →
  kept_inv id t0 (k + records d o) (dedup_step d o).
Proof.
  intros (Hinv & Hid & Hk) Ho Hw Hroom. split; [by apply dedup_step_inv|]. destruct o as [id2 now order|now]; simpl in *.
  - destruct Ho as [Hne Ho]. destruct (dd_Check id2 now order d) as [d' []] eqn:Hc; simpl in *.
    { unfold dd_Check in Hc. destruct (dd_entries d !! id2); simplify_eq. split; [done|lia]. }
    destruct (dd_Check_records id2 now order d d' Hinv Ho Hc) as (e & -> & Hnone & Hle & He). simpl.
    assert (id ≠ id2) as Hidne by (intros <-; congruence).
    rewrite lookup_insert_ne by done.
    destruct He as [->|(kk & t & Hkk & Hmin & -> & Hfull)].
    + split; [done|]. pose proof (younger_insert id t0 id2 now (dd_entries d) Hnone). lia.
    + assert (kk ≠ id) as Hkne.
      { intros ->. simplify_eq. pose proof (younger_all id t0 (dd_entries d) Hid Hmin). lia. }
      rewrite lookup_delete_ne by done. split; [done|].
      pose proof (younger_insert id t0 id2 now (delete kk (dd_entries d))) as Hy.
      specialize (Hy ltac:(apply lookup_delete_None; auto)).
      pose proof (younger_delete id t0 kk (dd_entries d)). lia.
  - rewrite map_keep_lookup, Hid. simpl. unfold Before, time_add.
    destruct (Z.ltb_spec t0 (now + - dd_ttl d)); [lia|]. split; [done|].
    assert (younger id t0 (map_keep (λ t, negb (t <? now + - dd_ttl d)) (dd_entries d)) ⊆ younger id t0 (dd_entries d))
      as Hs%map_subseteq_size; [|lia].
    apply map_subseteq_spec. intros k' t'. unfold younger, map_keep. rewrite !map_lookup_filter_Some. naive_solver.
Qed.

Lemma dedup_step_params d o : dd_ttl (dedup_step d o) = dd_ttl d ∧ dd_maxSize (dedup_step d o) = dd_maxSize d.
Proof.
  destruct o as [id now order|now]; [|done]. simpl. unfold dd_Check, evictOldest.
  repeat case_match; done.
Qed.

Lemma dedup_run_params d ops : dd_ttl (dedup_run d ops) = dd_ttl d ∧ dd_maxSize (dedup_run d ops) = dd_maxSize d.
Proof.
  revert d. induction ops as [|o ops IH]; intros d; [done|]. destruct (dedup_step_params d o) as [<- <-]. apply (IH (dedup_step d o)).
Qed.

(** An identifier that was not known is stored with its time. *)
Lemma dd_Check_stores id now order d : (dd_Check id now order d).2 = false → dd_entries (dd_Check id now order d).1 !! id = Some now.
Proof. unfold dd_Check. destruct (dd_entries d !! id); [done|]. intros _. apply lookup_insert_eq. Qed.

Lemma kept_run id t0 ops d k :
  kept_inv id t0 k d → dedup_valid d ops → Forall (in_window t0 (dd_ttl d)) ops →
  Z.of_nat (k + recorded d ops) < dd_maxSize d → dd_entries (dedup_run d ops) !! id = Some t0.
Proof.
  revert d k. induction ops as [|o ops IH]; intros d k Hk Hv Hw Hroom; [by destruct Hk as (_ & ? & _)|].
  destruct Hv as [Ho Hv]. inversion Hw; subst. simpl in *. destruct (dedup_step_params d o) as [Httl Hmax].
  apply (IH (dedup_step d o) (k + records d o)%nat); [|done|by rewrite Httl|rewrite Hmax; lia].
  apply kept_step; [done..|lia].
Qed.

Lemma dedup_run_ids d ops id :
  is_Some (dd_entries (dedup_run d ops) !! id) →
  is_Some (dd_entries d !! id) ∨ ∃ now order, DCheck id now order ∈ ops.
Proof.
  revert d. induction ops as [|o ops IH]; intros d; [by left|].
  intros [H|(now & order & Hin)]%IH; [|right; exists now, order; by right].
  destruct o as [id2 now order|now]; simpl in H.
  - destruct (decide (id = id2)) as [->|Hne]; [right; exists now, order; by left|left].
    unfold dd_Check, evictOldest in H. destruct (dd_entries d !! id2); [done|].
    destruct (_ <=? _); [destruct (str_empty _)|]; simpl in H; rewrite lookup_insert_ne in H by done; [done| |done].
    destruct H as [t Ht]. apply lookup_delete_Some in Ht as [_ Ht]. by exists t.
  - left. rewrite map_keep_lookup in H. destruct (dd_entries d !! id); [by eexists|by destruct H].
Qed.

Lemma dedup_run_inv d ops : dedup_inv d → dedup_valid d ops → dedup_inv (dedup_run d ops).
Proof.
  revert d. induction ops as [|o ops IH]; intros d Hinv Hv; [done|]. destruct Hv as [Ho Hv].
  apply (IH (dedup_step d o)); [by apply dedup_step_inv|done].
Qed.

(** ** Lemmas: the registry *)

Section registry_lemmas.
Context {C : Type} `{Channel C}.
Implicit Types a : gmap string C.

Lemma on_channel_lookup f name a n :
  (on_channel f name a).1 !! n = if decide (n = name) then fst ∘ f <$> a !! n else a !! n.
Proof.
  unfold on_channel. destruct (a !! name) as [c|] eqn:Hc.
  - destruct (f c) as [c' e] eqn:Hf. simpl. destruct (decide (n = name)) as [->|Hne].
    + by rewrite lookup_insert, decide_True, Hc by done; simpl; rewrite Hf.
    + by rewrite lookup_insert_ne.
  - simpl. destruct (decide (n = name)) as [->|]; [by rewrite Hc|done].
Qed.

Lemma stop_each_lookup names a n :
  NoDup names →
  stop_each names a !! n = if decide (n ∈ names) then fst ∘ ch_Stop <$> a !! n else a !! n.
Proof.
  unfold stop_each. revert a. induction names as [|name names IH]; intros a; [done|].
  intros [Hnin Hnd]%NoDup_cons. cbn [fold_left]. rewrite IH, on_channel_lookup by done.
  destruct (decide (n = name)) as [->|Hne].
  - rewrite (decide_False (P := name ∈ names)) by done. by rewrite decide_True by left.
  - destruct (decide (n ∈ names)); [by rewrite decide_True by by right|].
    rewrite decide_False; [done|]. set_solver.
Qed.

(** The channels of [order] have been started from [a]. *)
Lemma start_loop_spec order started a :
  NoDup (started ++ order) → (∀ n, n ∈ order → is_Some (a !! n)) →
  match start_loop order started a with
  | (a', None) =>
      (∀ n, a' !! n = if decide (n ∈ order) then fst ∘ ch_Start <$> a !! n else a !! n)
      ∧ ∀ n c, n ∈ order → a !! n = Some c → (ch_Start c).2 = None
  | (a', Some e) =>
      ∃ l1 bad l2 c, order = l1 ++ bad :: l2 ∧ a !! bad = Some c ∧ (ch_Start c).2 = Some e ∧
        ∀ n, a' !! n =
          if decide (n ∈ started) then fst ∘ ch_Stop <$> a !! n
          else if decide (n ∈ l1) then fst ∘ ch_Stop ∘ fst ∘ ch_Start <$> a !! n
          else if decide (n = bad) then fst ∘ ch_Start <$> a !! n else a !! n
  end.
Proof.
  revert started a. induction order as [|name order IH]; intros started a Hnd Hin; cbn [start_loop].
  { split; [intros n; by rewrite decide_False by set_solver|set_solver]. }
  assert ((name ∉ started) ∧ (name ∉ order) ∧ NoDup started) as (Hns & Hno & Hnd1).
  { apply NoDup_app in Hnd as (H1 & H2 & H3). apply NoDup_cons in H3 as [H3 _].
    split; [|done]. intros Hs. by apply (H2 name Hs); left. }
  destruct (Hin name ltac:(by left)) as [c Hc].
  destruct (on_channel ch_Start name a) as [a1 e1] eqn:Hon.
  assert (∀ n, a1 !! n = if decide (n = name) then fst ∘ ch_Start <$> a !! n else a !! n) as Ha1.
  { intros n. rewrite <- on_channel_lookup, Hon. done. }
  assert (e1 = (ch_Start c).2) as He1.
  { unfold on_channel in Hon. rewrite Hc in Hon. destruct (ch_Start c). by simplify_eq. }
  destruct e1 as [e|].
  - exists [], name, order, c. split; [done|]. split; [done|]. split; [done|]. intros n.
    rewrite stop_each_lookup, Ha1 by done. rewrite (decide_False (P := n ∈ [])) by set_solver.
    destruct (decide (n ∈ started)); [|done]. by rewrite decide_False by (intros ->; done).
  - specialize (IH (started ++ [name]) a1). rewrite <- app_assoc in IH. specialize (IH Hnd).
    assert (∀ n, n ∈ order → is_Some (a1 !! n)) as Hin1.
    { intros n Hn. rewrite Ha1, decide_False by (intros ->; done). apply Hin. by right. }
    specialize (IH Hin1). destruct (start_loop order (started ++ [name]) a1) as [a2 [e|]].
    + destruct IH as (l1 & bad & l2 & cb & -> & Hb & Hbe & Hall).
      exists (name :: l1), bad, l2, cb. split; [done|].
      rewrite Ha1, decide_False in Hb by (intros ->; set_solver). split; [done|]. split; [done|].
      intros n. rewrite Hall, Ha1. destruct (decide (n = name)) as [->|Hne].
      * rewrite (decide_True (P := name ∈ started ++ [name])), (decide_False (P := name ∈ started)) by set_solver.
        rewrite (decide_True (P := name ∈ name :: l1)) by by left. by rewrite <- option_fmap_compose.
      * destruct (decide (n ∈ started)); [by rewrite decide_True by set_solver|].
        rewrite decide_False by set_solver.
        destruct (decide (n ∈ l1)); [by rewrite decide_True by set_solver|].
        by rewrite (decide_False (P := n ∈ name :: l1)) by set_solver.
    + destruct IH as [Hall Hok]. split.
      * intros n. rewrite Hall, Ha1. destruct (decide (n = name)) as [->|Hne].
        -- rewrite decide_False by done. by rewrite decide_True by by left.
        -- destruct (decide (n ∈ order)); [by rewrite decide_True by by right|].
           by rewrite decide_False by set_solver.
      * intros n cn [->|Hn]%elem_of_cons Hcn; [by simplify_eq|].
        apply (Hok n cn Hn). rewrite Ha1, decide_False by (intros ->; done). done.
Qed.
End registry_lemmas.

(** The messages the dispatcher gets before the bus first answers with an error. *)
Fixpoint received (ms : list (result goerror OutboundMessage)) : list OutboundMessage :=
  match ms with Ok m :: ms => m :: received ms | _ => [] end.

Lemma stop_loop_lookup `{Channel C} order (a : gmap string C) e n :
  NoDup order →
  (stop_loop order a e).1 !! n = if decide (n ∈ order) then fst ∘ ch_Stop <$> a !! n else a !! n.
Proof.
  revert a e. induction order as [|name order IH]; intros a e; cbn [stop_loop]; [done|].
  intros [Hnin Hnd]%NoDup_cons. destruct (on_channel ch_Stop name a) as [a1 e1] eqn:Hon. rewrite IH by done.
  change a1 with (a1, e1).1. rewrite <- Hon, on_channel_lookup.
  destruct (decide (n = name)) as [->|Hne].
  - rewrite (decide_False (P := name ∈ order)) by done. by rewrite decide_True by left.
  - destruct (decide (n ∈ order)); [by rewrite decide_True by by right|].
    by rewrite decide_False by set_solver.
Qed.

Lemma dispatch_lookup `{Channel C} ms (a : gmap string C) n :
  dispatch ms a !! n =
    (λ c, fold_left (λ c m, (ch_Send m c).1) (filter (λ m, out_Channel m = n) (received ms)) c) <$> a !! n.
Proof.
  revert a. induction ms as [|[m|e] ms IH]; intros a; cbn [dispatch received].
  - by destruct (a !! n).
  - rewrite IH, on_channel_lookup, filter_cons.
    destruct (decide (n = out_Channel m)) as [->|Hne].
    + rewrite decide_True by done. by destruct (a !! out_Channel m).
    + by rewrite decide_False by congruence.
  - by destruct (a !! n).
Qed.

(** ** Properties *)

(** The duplicate filter: a message recorded later than all others is reported as a
    duplicate until its time to live is over, as long as fewer than [maxSize] other
    messages were recorded since; only recorded messages are; and there are never more
    than [maxSize] entries.  All this for identifiers that are not empty: the empty one can
    make the cache outgrow its bound. *)
Theorem dedup_exact d ops
  (Hinv : dedup_inv d) (Hvalid : dedup_valid d ops) :
  (∀ id t0 now order,
     dd_entries d !! id = Some t0 → (∀ k t, dd_entries d !! k = Some t → k ≠ id → t < t0) →
     Forall (in_window t0 (dd_ttl d)) ops → Z.of_nat (recorded d ops) < dd_maxSize d →
     (dd_Check id now order (dedup_run d ops)).2 = true)
  ∧ (∀ id now order, (dd_Check id now order (dedup_run d ops)).2 = true →
       is_Some (dd_entries d !! id) ∨ ∃ t o, DCheck id t o ∈ ops)
  ∧ Z.of_nat (size (dd_entries (dedup_run d ops))) ≤ dd_maxSize d
  ∧ size (dd_entries (dedup_run {| dd_entries := ∅; dd_ttl := 10; dd_maxSize := 1 |}
                        [DCheck "" 1 []; DCheck "a" 2 [""%string]])) = 2%nat.
Proof.
  split_and!; [| | |by vm_compute].
  - intros id t0 now order Hid Hold Hw Hroom. unfold dd_Check.
    rewrite (kept_run id t0 ops d 0); [done| |done..]. split; [done|]. split; [done|].
    assert (younger id t0 (dd_entries d) = ∅) as ->; [|done].
    apply map_empty. intros k. apply map_lookup_filter_None. right. intros t Hk [Hne Hle].
    simpl in *. specialize (Hold k t Hk Hne). lia.
  - intros id now order H. apply dedup_run_ids. unfold dd_Check in H.
    destruct (dd_entries (dedup_run d ops) !! id); [by eexists|done].
  - destruct (dedup_run_inv d ops Hinv Hvalid) as (_ & Hs & _).
    by destruct (dedup_run_params d ops) as [_ <-].
Qed.

(** Starting the channels is all or nothing: either every channel has been started and the
    dispatcher runs, or the first channel that fails stops the whole start, the channels
    started before it are stopped again, the others are not touched and no dispatcher is
    started.  Stopping stops every channel and the dispatcher, whatever fails. *)
Theorem StartAll_all_or_nothing `{Channel C} (r : Registry (C := C)) order
  (Ho : range_order (rg_adapters r) order) :
  match StartAll order r with
  | (r', None) =>
      rg_adapters r' = fst ∘ ch_Start <$> rg_adapters r
      ∧ (∀ n c, rg_adapters r !! n = Some c → (ch_Start c).2 = None)
      ∧ (rg_adapters r ≠ ∅ → rg_dispatching r' = true)
  | (r', Some e) =>
      rg_dispatching r' = rg_dispatching r
      ∧ ∃ l1 bad l2 c, order = l1 ++ bad :: l2 ∧ rg_adapters r !! bad = Some c ∧ (ch_Start c).2 = Some e
        ∧ ∀ n, rg_adapters r' !! n =
            if decide (n ∈ l1) then fst ∘ ch_Stop ∘ fst ∘ ch_Start <$> rg_adapters r !! n
            else if decide (n = bad) then fst ∘ ch_Start <$> rg_adapters r !! n
            else rg_adapters r !! n
  end
  ∧ rg_adapters (StopAll order r).1 = fst ∘ ch_Stop <$> rg_adapters r
  ∧ rg_dispatching (StopAll order r).1 = false.
Proof.
  pose proof (λ n, range_order_elem (rg_adapters r) order n Ho) as Hel.
  pose proof (range_order_NoDup (rg_adapters r) order Ho) as Hnd.
  assert (∀ (f : C → C) n, (if decide (n ∈ order) then f <$> rg_adapters r !! n else rg_adapters r !! n)
                           = f <$> rg_adapters r !! n) as Hall.
  { intros f n. destruct (decide (n ∈ order)) as [|Hn]; [done|].
    destruct (rg_adapters r !! n) eqn:Hr; [|done]. destruct Hn. apply Hel. by eexists. }
  split.
  - unfold StartAll. pose proof (start_loop_spec order [] (rg_adapters r) Hnd) as Hs.
    specialize (Hs ltac:(intros n; apply Hel)).
    destruct (start_loop order [] (rg_adapters r)) as [a [e|]]; cbn [rg_adapters rg_dispatching with_adapters].
    + split; [done|]. destruct Hs as (l1 & bad & l2 & c & ? & ? & ? & Hn). exists l1, bad, l2, c.
      split_and!; [done..|]. intros n. by rewrite Hn, decide_False by set_solver.
    + destruct Hs as [Hn Hok]. assert (a = fst ∘ ch_Start <$> rg_adapters r) as ->.
      { apply map_eq. intros n. by rewrite Hn, Hall, lookup_fmap. }
      split; [done|]. split.
      * intros n c Hc. apply (Hok n c); [|done]. apply Hel. by eexists.
      * intros Hne. rewrite map_size_fmap. apply map_size_non_empty_iff in Hne.
        by rewrite (proj2 (Nat.ltb_lt _ _)) by lia.
  - unfold StopAll. destruct (stop_loop order (rg_adapters r) None) as [a e] eqn:Hs. simpl. split; [|done].
    apply map_eq. intros n. change a with (a, e).1. rewrite <- Hs, stop_loop_lookup by done.
    by rewrite Hall, lookup_fmap.
Qed.

(** Every message taken from the bus reaches exactly the channel it names, once and in
    order, whatever the channels answer; messages for an unknown channel are dropped.  On
    the way in, a message of a sender who is not allowed never reaches the bus. *)
Theorem channel_traffic `{Channel C} `{InboundBus B} `{F : UnicodeFold} :
  (∀ ms (a : gmap string C) n,
     dispatch ms a !! n =
       (λ c, fold_left (λ c m, (ch_Send m c).1) (filter (λ m, out_Channel m = n) (received ms)) c) <$> a !! n)
  ∧ (∀ c tenantID userID senderID chatID content media metadata now (b : B),
       HandleMessage c tenantID userID senderID chatID content media metadata now b =
         if bc_IsAllowed c senderID
         then bus_PublishInbound (inbound_of c tenantID userID senderID chatID content media metadata now) b
         else (b, None))
  ∧ (∀ c senderID, bc_IsAllowed c senderID = true ↔
       bc_allowList c = [] ∨
       ∃ allowed part, allowed ∈ bc_allowList c ∧ part ∈ split senderID "|" ∧
         EqualFold (trim_space part) (trim_space allowed) = true).
Proof.
  split_and!.
  - apply dispatch_lookup.
  - intros. unfold HandleMessage. by destruct (bc_IsAllowed c senderID).
  - intros c senderID. unfold bc_IsAllowed. destruct (bc_allowList c) as [|al l]; [naive_solver|].
    cbn [length Nat.eqb]. rewrite existsb_exists. setoid_rewrite existsb_exists.
    setoid_rewrite <- list_elem_of_In. naive_solver.
Qed.

(** ** Witnesses *)

Definition w_dedup : DedupCache := (dd_Check "m1" 5 [] (NewDedupCache 100)).1.

Lemma dedup_exact_witness :
  (dd_Check "m1" 50 [] (dedup_run w_dedup [DCheck "m2" 7 ["m1"%string]; DCleanup 60])).2 = true.
Proof.
  refine (proj1 (dedup_exact w_dedup [DCheck "m2" 7 ["m1"%string]; DCleanup 60] _ _) "m1"%string 5 50 [] _ _ _ _).
  - split_and!; by vm_compute.
  - split; [split; [done|by vm_compute]|done].
  - by vm_compute.
  - intros k t Hk Hne. change (dd_entries w_dedup) with (<["m1"%string := 5]> (∅ : gmap string time)) in Hk.
    by rewrite lookup_insert_ne in Hk by done.
  - repeat constructor; by vm_compute.
  - by vm_compute.
Defined.

(** A channel that counts its starts and fails to start when it is broken. *)
Definition w_start (c : bool * Z) : bool * Z * option goerror :=
  ((c.1, c.2 + 1), if c.1 then Some (ErrText "broken") else None).
#[local] Instance w_channel : Channel (bool * Z) := {|
  ch_Start := w_start;
  ch_Stop := λ c, ((c.1, c.2 - 1), None);
  ch_Send := λ _ c, (c, None);
  ch_IsRunning := λ c, 0 <? c.2;
|}.

Lemma StartAll_all_or_nothing_witness :
  let r := rg_Register "a" (false, 0) (rg_Register "b" (true, 0) NewRegistry) in
  range_order (rg_adapters r) ["a"; "b"]%string ∧ (StartAll ["a"; "b"]%string r).2 = Some (ErrText "broken")
  ∧ rg_dispatching (StopAll ["a"; "b"]%string r).1 = false.
Proof.
  intros r. assert (range_order (rg_adapters r) ["a"; "b"]%string) as Ho.
  { unfold range_order. vm_compute (map_to_list _).*1. reflexivity || apply Permutation_swap. }
  split; [exact Ho|]. split; [by vm_compute|]. apply (StartAll_all_or_nothing r ["a"; "b"]%string Ho).
Defined.
