(* ===== verification/Heartbeat.v ===== *)
(** [pkg/scheduler/heartbeat.go] and [smart_heartbeat.go]: the periodic look at every tenant's
    HEARTBEAT document, the life cycle of the service, and the rules of the smart variant.

    The stores, the bus and the language model are interfaces; [function_call] projects the
    call out of a part of the model's answer, as in [Consolidation].  The clock, the state of
    the context and the answers of the model are given per round.  SHA-256 is a parameter:
    its value reaches nothing.  Log lines are left out. *)
From stdpp Require Import pretty.
From S2P Require Import Prelude GoStrings Values Types Stores Pruning.

(** ** heartbeat.go *)

Section heartbeat.
Context {T W B : Type} `{TenantStore T} `{WorkspaceStore W} `{InboundBus B}.
Context (function_call : Part → option (string * list (string * jany))).

(** [llm.GenerateContent] of one content: the responses and errors it yields. *)
Abbreviation llm_model := (string → list (result goerror (option Content))) (only parsing).

Record HeartbeatConfig := { hc_Interval : duration; hc_Channel : string; hc_DecisionMode : string; hc_HasLLM : bool }.

Record HeartbeatService := { hs_interval : duration; hs_channel : string; hs_decisionMode : string; hs_llm : bool }.

Definition NewHeartbeat (cfg : HeartbeatConfig) : HeartbeatService :=
  {| hs_interval := if hc_Interval cfg <=? 0 then 30 * Minute else hc_Interval cfg;
     hs_channel := hc_Channel cfg;
     hs_decisionMode := if str_empty (hc_DecisionMode cfg) then "passive" else hc_DecisionMode cfg;
     hs_llm := hc_HasLLM cfg |}.

Inductive decision_error := DErrNoLLM | DErrGenerate (e : goerror) | DErrEmpty | DErrNoCall.

(** The decision of one part. *)
Definition part_decision (p : Part) : option (string * string) :=
  '(name, args) ← function_call p;
  if bool_decide (name = "heartbeat_decision"%string)
  then Some (as_str (jget "action" args), as_str (jget "tasks" args)) else None.

Definition callLLMDecision (h : HeartbeatService) (llm : llm_model) (content : string)
    : result decision_error (string * string) :=
  if negb (hs_llm h) then Err DErrNoLLM
  else match last_response None (llm content) with
       | Err e => Err (DErrGenerate e)
       | Ok (Some (Some c)) =>
           match first_some part_decision (ct_Parts c) with
           | Some d => Ok d
           | None => Err DErrNoCall
           end
       | Ok _ => Err DErrEmpty
       end.

(** What surrounds round [i] of a tick: the context, the model and the clock. *)
Record tick_env := { te_done : nat → bool; te_llm : nat → llm_model; te_now : nat → time }.

Definition heartbeat_message (h : HeartbeatService) (t : Tenant) (content : string) (llm_mode : bool) (now : time)
    : InboundMessage :=
  let meta := {[ "source"%string := "heartbeat"%string ]} in
  {| in_Channel := hs_channel h; in_TenantID := tn_TenantID t; in_UserID := ""; in_SenderID := ""; in_ChatID := "";
     in_Content := content; in_Media := [];
     in_Metadata := if llm_mode then <["mode"%string := "llm"%string]> meta else meta;
     in_SessionKey := ""; in_AgentID := ""; in_Timestamp := now |}.

(** The body of the loop up to the message, none when the tenant is skipped. *)
Definition tenant_message (h : HeartbeatService) (ws : W) (env : tick_env) (i : nat) (t : Tenant) : option InboundMessage :=
  match ws_Get (tn_TenantID t) "HEARTBEAT" ws with
  | Ok (Some doc) =>
      if str_empty (wd_Content doc) then None
      else if bool_decide (hs_decisionMode h = "llm"%string) && hs_llm h then
        match callLLMDecision h (te_llm env i) (wd_Content doc) with
        | Ok (action, tasks) =>
            if bool_decide (action = "run"%string) then Some (heartbeat_message h t tasks true (te_now env i)) else None
        | Err _ => None
        end
      else Some (heartbeat_message h t (wd_Content doc) false (te_now env i))
  | _ => None
  end.

Fixpoint tick_loop (h : HeartbeatService) (ws : W) (env : tick_env) (i : nat) (ts : list Tenant) (b : B) : B :=
  match ts with
  | [] => b
  | t :: ts =>
      if te_done env i then b
      else tick_loop h ws env (S i) ts
             match tenant_message h ws env i t with
             | Some m => (bus_PublishInbound m b).1
             | None => b
             end
  end.

Definition tick (h : HeartbeatService) (tenants : T) (ws : W) (env : tick_env) (b : B) : B :=
  match tns_List "" tenants with
  | Err _ => b
  | Ok ts => tick_loop h ws env 0 ts b
  end.

(** ** Specification of a tick *)

(** What the service has to say to a tenant: the document itself, or the tasks the model
    reports in the first decision of its last response when that decision is to run. *)
Definition heartbeat_due (h : HeartbeatService) (ws : W) (env : tick_env) (i : nat) (t : Tenant) (m : InboundMessage) : Prop :=
  ∃ doc, ws_Get (tn_TenantID t) "HEARTBEAT" ws = Ok (Some doc) ∧ wd_Content doc ≠ ""%string
    ∧ (if bool_decide (hs_decisionMode h = "llm"%string) && hs_llm h then
         ∃ c l1 p l2 args, last_response None (te_llm env i (wd_Content doc)) = Ok (Some (Some c))
           ∧ ct_Parts c = l1 ++ p :: l2 ∧ Forall (λ p, part_decision p = None) l1
           ∧ function_call p = Some ("heartbeat_decision"%string, args) ∧ jget "action" args = Some (JStr "run")
           ∧ m = heartbeat_message h t (as_str (jget "tasks" args)) true (te_now env i)
       else m = heartbeat_message h t (wd_Content doc) false (te_now env i)).

Lemma first_some_split {A C} (f : A → option C) l y :
  first_some f l = Some y ↔ ∃ l1 x l2, l = l1 ++ x :: l2 ∧ Forall (λ x, f x = None) l1 ∧ f x = Some y.
Proof.
  split.
  - induction l as [|x l IH]; simpl; [done|]. destruct (f x) as [z|] eqn:Hx.
    + intros [= ->]. by exists [], x, l.
    + intros (l1 & x' & l2 & -> & HF & Hy)%IH. exists (x :: l1), x', l2. split_and!; [done|by constructor|done].
  - intros (l1 & x & l2 & -> & HF & Hy). induction HF as [|z l1 Hz _ IH]; simpl; [by rewrite Hy|by rewrite Hz].
Qed.

Lemma as_str_Some v s : as_str v = s → s ≠ ""%string → v = Some (JStr s).
Proof. destruct v as [[]|]; simpl; intros <- Hne; done. Qed.

Lemma tenant_message_due h ws env i t m : tenant_message h ws env i t = Some m ↔ heartbeat_due h ws env i t m.
Proof.
  unfold tenant_message, heartbeat_due. destruct (ws_Get _ _ ws) as [[doc|]|]; [|naive_solver..].
  destruct (str_empty (wd_Content doc)) eqn:He; unfold str_empty in He.
  { apply bool_decide_eq_true in He. naive_solver. }
  apply bool_decide_eq_false in He.
  destruct (bool_decide (hs_decisionMode h = "llm"%string) && hs_llm h) eqn:Hm; [|naive_solver].
  apply andb_true_iff in Hm as [_ Hllm]. unfold callLLMDecision. rewrite Hllm. simpl. split.
  - destruct (last_response _ _) as [[[c|]|]|] eqn:Hl; [|done..].
    destruct (first_some _ _) as [[action tasks]|] eqn:Hf; [|done]. case_bool_decide as Ha; [|done].
    intros [= <-]. apply first_some_split in Hf as (l1 & p & l2 & Hc & HF & Hp).
    unfold part_decision in Hp. destruct (function_call p) as [[name args]|] eqn:Hcall; [|done]. simpl in Hp.
    case_bool_decide as Hn; [|done]. injection Hp as Hact Htasks. subst tasks name.
    exists doc. split; [done|]. split; [done|]. exists c, l1, p, l2, args. split_and!; try done.
    by apply as_str_Some; [rewrite Hact|].
  - intros (doc' & [= <-] & _ & c & l1 & p & l2 & args & -> & Hc & HF & Hcall & Hact & ->).
    rewrite (proj2 (first_some_split part_decision (ct_Parts c) ("run"%string, as_str (jget "tasks" args)))).
    { by rewrite bool_decide_true. }
    exists l1, p, l2. split; [done|]. split; [done|]. unfold part_decision. rewrite Hcall. simpl. by rewrite Hact.
Qed.

(** A tick publishes, in the order of the tenants, one message for each tenant with a
    heartbeat to give and nothing for the others; an error with one tenant, or of the bus,
    does not stop the rest.  It ends early only when the context is done, and does nothing
    when the tenants cannot be listed. *)
Theorem tick_publishes h tenants ws env b :
  match tns_List "" tenants with
  | Err _ => tick h tenants ws env b = b
  | Ok ts =>
      ∃ n ms, (n ≤ length ts)%nat ∧ (n = length ts ∨ te_done env n = true) ∧ (∀ i, (i < n)%nat → te_done env i = false)
        ∧ tick h tenants ws env b = foldl (λ b m, (bus_PublishInbound m b).1) b (omap id ms)
        ∧ length ms = n
        ∧ ∀ i t m, ts !! i = Some t → (i < n)%nat → ms !! i = Some (Some m) ↔ heartbeat_due h ws env i t m
  end.
Proof.
  unfold tick. destruct (tns_List _ _) as [ts|]; [|done].
  assert (∀ k b, ∃ n ms, (n ≤ length ts)%nat ∧ (n = length ts ∨ te_done env (k + n) = true)
      ∧ (∀ i, (i < n)%nat → te_done env (k + i) = false)
      ∧ tick_loop h ws env k ts b = foldl (λ b m, (bus_PublishInbound m b).1) b (omap id ms)
      ∧ length ms = n
      ∧ ∀ i t m, ts !! i = Some t → (i < n)%nat → ms !! i = Some (Some m) ↔ heartbeat_due h ws env (k + i) t m)
    as Hgen; [|exact (Hgen 0%nat b)].
  clear b. induction ts as [|t ts IH]; intros k b.
  { exists 0%nat, []. split_and!; try done; [by left|..]; intros; lia. }
  cbn [tick_loop]. destruct (te_done env k) eqn:Hk.
  { exists 0%nat, []. rewrite Nat.add_0_r. split_and!; try done; [simpl; lia|by right|..]; intros; lia. }
  set (b' := match tenant_message h ws env k t with Some m => (bus_PublishInbound m b).1 | None => b end).
  destruct (IH (S k) b') as (n & ms & Hn & Hstop & Hbefore & -> & Hlen & Hms).
  exists (S n), (tenant_message h ws env k t :: ms). split_and!.
  - simpl. lia.
  - destruct Hstop as [->|Hd]; [by left|right]. by rewrite Nat.add_succ_r.
  - intros [|i] Hi; [by rewrite Nat.add_0_r|]. rewrite Nat.add_succ_r. apply Hbefore. lia.
  - unfold b'. cbn [omap list_omap id]. by destruct (tenant_message h ws env k t).
  - simpl. lia.
  - intros [|i] t' m Ht Hi; simpl in Ht |- *.
    + injection Ht as <-. rewrite Nat.add_0_r. rewrite <- tenant_message_due. split; [by intros [=]|by intros ->].
    + rewrite Nat.add_succ_r. apply Hms; [done|lia].
Qed.
End heartbeat.

(** ** The life of the service

    [Start], [Stop] and the goroutines of [loop], in every interleaving.  A context is known
    by the number of its [Start]; [once] restricts the runs to those with one [Start]. *)

Inductive loop_pc := LTick | LSelect | LGone.

Record svc_state := {
  sv_cancel : option nat; sv_done : bool; sv_loops : list loop_pc;
  sv_canceled : list nat;      (* the contexts that are done *)
  sv_waiting : nat;            (* calls of Stop at [<-h.done] *)
  sv_panic : bool;
}.

Definition svc_init : svc_state :=
  {| sv_cancel := None; sv_done := false; sv_loops := []; sv_canceled := []; sv_waiting := 0; sv_panic := false |}.

Definition svc_Start (s : svc_state) : svc_state :=
  {| sv_cancel := Some (length (sv_loops s)); sv_done := sv_done s; sv_loops := sv_loops s ++ [LTick];
     sv_canceled := sv_canceled s; sv_waiting := sv_waiting s; sv_panic := sv_panic s |}.

(** [Stop] up to the wait. *)
Definition svc_Stop (s : svc_state) : svc_state :=
  {| sv_cancel := sv_cancel s; sv_done := sv_done s; sv_loops := sv_loops s;
     sv_canceled := match sv_cancel s with Some c => c :: sv_canceled s | None => sv_canceled s end;
     sv_waiting := S (sv_waiting s); sv_panic := sv_panic s |}.

Definition with_loop (i : nat) (p : loop_pc) (s : svc_state) : svc_state :=
  {| sv_cancel := sv_cancel s; sv_done := sv_done s; sv_loops := <[i := p]> (sv_loops s);
     sv_canceled := sv_canceled s; sv_waiting := sv_waiting s; sv_panic := sv_panic s |}.

(** The end of a loop: [close(h.done)]. *)
Definition loop_exit (i : nat) (s : svc_state) : svc_state :=
  {| sv_cancel := sv_cancel s; sv_done := true; sv_loops := <[i := LGone]> (sv_loops s);
     sv_canceled := sv_canceled s; sv_waiting := sv_waiting s; sv_panic := sv_panic s || sv_done s |}.

Definition parent_done (i : nat) (s : svc_state) : svc_state :=
  {| sv_cancel := sv_cancel s; sv_done := sv_done s; sv_loops := sv_loops s;
     sv_canceled := i :: sv_canceled s; sv_waiting := sv_waiting s; sv_panic := sv_panic s |}.

Definition stop_return (s : svc_state) : svc_state :=
  {| sv_cancel := sv_cancel s; sv_done := sv_done s; sv_loops := sv_loops s;
     sv_canceled := sv_canceled s; sv_waiting := pred (sv_waiting s); sv_panic := sv_panic s |}.

Inductive svc_step (once : bool) : svc_state → svc_state → Prop :=
| svs_start s : (once = true → sv_loops s = []) → svc_step once s (svc_Start s)
| svs_tick_end s i : sv_loops s !! i = Some LTick → svc_step once s (with_loop i LSelect s)
| svs_tick s i : sv_loops s !! i = Some LSelect → svc_step once s (with_loop i LTick s)
| svs_exit s i : sv_loops s !! i = Some LSelect → i ∈ sv_canceled s → svc_step once s (loop_exit i s)
| svs_parent s i : svc_step once s (parent_done i s)
| svs_stop s : svc_step once s (svc_Stop s)
| svs_return s : (0 < sv_waiting s)%nat → sv_done s = true → svc_step once s (stop_return s).

(** With one [Start] there is at most one loop, and the channel is closed when it is gone. *)
Definition svc_inv (s : svc_state) : Prop :=
  sv_panic s = false
  ∧ (sv_loops s = [] ∧ sv_done s = false ∧ sv_cancel s = None
     ∨ ∃ p, sv_loops s = [p] ∧ sv_cancel s = Some 0%nat ∧ (sv_done s = true ↔ p = LGone)).

Lemma svc_step_inv s s' : svc_step true s s' → svc_inv s → svc_inv s'.
Proof.
  intros Hstep [Hp Hs]. destruct Hstep as [s Honce|s i Hi|s i Hi|s i Hi Hc|s i|s|s Hw Hd].
  - specialize (Honce eq_refl). split; [done|]. right. exists LTick. simpl. rewrite Honce.
    split_and!; [done|done|]. destruct Hs as [(_ & -> & _)|(? & ? & _)]; [by split|congruence].
  - split; [done|]. right. destruct Hs as [(Hl & _)|(p & Hl & Hcan & Hd)]; rewrite Hl in Hi; [done|].
    destruct i; [|done]. injection Hi as ->. exists LSelect. simpl. rewrite Hl. split_and!; [done..|]. rewrite Hd. by split.
  - split; [done|]. right. destruct Hs as [(Hl & _)|(p & Hl & Hcan & Hd)]; rewrite Hl in Hi; [done|].
    destruct i; [|done]. injection Hi as ->. exists LTick. simpl. rewrite Hl. split_and!; [done..|]. rewrite Hd. by split.
  - destruct Hs as [(Hl & _)|(p & Hl & Hcan & Hd)]; rewrite Hl in Hi; [done|].
    destruct i; [|done]. injection Hi as ->.
    assert (sv_done s = false) as Hdone by (apply not_true_is_false; intros Hx; by apply Hd in Hx).
    split; [simpl; by rewrite Hp, Hdone|]. right. exists LGone. simpl. rewrite Hl. by split_and!.
  - split; [done|exact Hs].
  - split; [done|exact Hs].
  - split; [done|exact Hs].
Qed.

Lemma svc_reachable_inv s : rtc (svc_step true) svc_init s → svc_inv s.
Proof.
  assert (∀ s0, rtc (svc_step true) s0 s → svc_inv s0 → svc_inv s) as Hgen.
  { induction 1 as [|s0 s1 s2 Hstep _ IH]; [done|]. intros Hi. by eapply IH, svc_step_inv. }
  intros Hr. apply (Hgen _ Hr). split; [done|by left].
Qed.

Lemma all_stops_return s : sv_done s = true → ∃ s', rtc (svc_step true) s s' ∧ sv_waiting s' = 0%nat.
Proof.
  remember (sv_waiting s) as n eqn:Hn. revert s Hn. induction n as [|n IH]; intros s Hn Hd; [by exists s|].
  destruct (IH (stop_return s)) as (s' & Hr & Hw); [by simpl; rewrite <- Hn|done|].
  exists s'. split; [|done]. eapply rtc_l; [|exact Hr]. apply svs_return; [lia|done].
Qed.

(** Used with one [Start], the service never panics, and from whatever state a [Stop]
    after the [Start] is called in, there is a run in which every waiting [Stop] returns;
    before the [Start] no [Stop] can return. *)
Theorem heartbeat_stops s :
  rtc (svc_step true) svc_init s →
  sv_panic s = false
  ∧ (sv_loops s ≠ [] → ∃ s', rtc (svc_step true) (svc_Stop s) s' ∧ sv_waiting s' = 0%nat)
  ∧ (sv_loops s = [] → ∀ s', svc_step true s s' → (sv_waiting s ≤ sv_waiting s')%nat).
Proof.
  intros Hr. apply svc_reachable_inv in Hr as [Hp Hs]. split; [done|]. split.
  - intros Hne. destruct Hs as [(Hl & _)|(p & Hl & Hc & Hd)]; [done|].
    assert (∀ s1, sv_loops s1 = [LSelect] → 0%nat ∈ sv_canceled s1 →
              ∃ s', rtc (svc_step true) s1 s' ∧ sv_waiting s' = 0%nat) as Hsel.
    { intros s1 Hl1 Hc1. destruct (all_stops_return (loop_exit 0 s1)) as (s' & Hr' & Hw); [done|].
      exists s'. split; [|done]. eapply rtc_l; [|exact Hr']. apply svs_exit; [by rewrite Hl1|done]. }
    assert (0%nat ∈ sv_canceled (svc_Stop s)) as Hcan by (simpl; rewrite Hc; by left).
    destruct p.
    + destruct (Hsel (with_loop 0 LSelect (svc_Stop s))) as (s' & Hr' & Hw); [simpl; by rewrite Hl|done|].
      exists s'. split; [|done]. eapply rtc_l; [|exact Hr']. apply svs_tick_end. simpl. by rewrite Hl.
    + apply Hsel; [done|done].
    + apply all_stops_return. simpl. by apply Hd.
  - intros Hl s' Hstep. assert (sv_done s = false) as Hd by (destruct Hs as [(_ & ? & _)|(? & ? & _)]; congruence).
    destruct Hstep; simpl; try lia. congruence.
Qed.

Lemma heartbeat_stops_witness :
  ∃ s', rtc (svc_step true) (svc_Stop (svc_Start svc_init)) s' ∧ sv_waiting s' = 0%nat.
Proof.
  apply (heartbeat_stops (svc_Start svc_init)); [|done]. eapply rtc_l; [|apply rtc_refl]. by apply svs_start.
Defined.

(** A second [Start] makes a second loop, which closes the channel again. *)
Example second_start_panics : ∃ s, rtc (svc_step false) svc_init s ∧ sv_panic s = true.
Proof.
  eexists. split.
  - eapply rtc_l; [by apply svs_start|]. eapply rtc_l; [by apply svs_start|].
    eapply rtc_l; [apply (svs_tick_end _ _ 0); reflexivity|]. eapply rtc_l; [apply (svs_tick_end _ _ 1); reflexivity|].
    eapply rtc_l; [apply (svs_parent _ _ 0)|]. eapply rtc_l; [apply (svs_parent _ _ 1)|].
    eapply rtc_l; [apply (svs_exit _ _ 0); [reflexivity|by right; left]|].
    eapply rtc_l; [apply (svs_exit _ _ 1); [reflexivity|by left]|]. apply rtc_refl.
  - reflexivity.
Qed.

(** ** smart_heartbeat.go: the rules *)

Definition parseTimeToMinutes (timeStr : string) : Z :=
  match split timeStr ":" with
  | [h; m] => wrap64 (wrap64 (default 0 (scan_d h) * 60) + default 0 (scan_d m))
  | _ => 0
  end.

Record SmartHeartbeatConfig := {
  sc_Start : string; sc_End : string; sc_CoalesceWindow : duration; sc_DuplicateWindow : duration;
}.

(** The defaults of [NewSmartHeartbeat]. *)
Definition NewSmartHeartbeat (cfg : SmartHeartbeatConfig) : SmartHeartbeatConfig :=
  {| sc_Start := sc_Start cfg; sc_End := sc_End cfg;
     sc_CoalesceWindow := if sc_CoalesceWindow cfg =? 0 then 250 * Millisecond else sc_CoalesceWindow cfg;
     sc_DuplicateWindow := if sc_DuplicateWindow cfg =? 0 then 24 * Hour else sc_DuplicateWindow cfg |}.

(** [hour] and [min] are those of the clock. *)
Definition isWithinActiveHours (cfg : SmartHeartbeatConfig) (hour min : Z) : bool :=
  if str_empty (sc_Start cfg) || str_empty (sc_End cfg) then true
  else
    let currentMinutes := hour * 60 + min in
    let start := parseTimeToMinutes (sc_Start cfg) in
    let end_ := parseTimeToMinutes (sc_End cfg) in
    if end_ <? start then (start <=? currentMinutes) || (currentMinutes <? end_)
    else (start <=? currentMinutes) && (currentMinutes <? end_).

Section smart.
Context {T : Type} `{TenantStore T} (hashContent : string → string).

Definition getRecentHashes (tenant : option Tenant) (stateKey : string) : list string := [].

Definition isDuplicate (tenantID content : string) (ts : T) : result goerror bool :=
  let hash := hashContent content in
  let stateKey := "heartbeat_history_" +:+ tenantID in
  match tns_Get tenantID ts with
  | Err e => Err e
  | Ok tenant => Ok (existsb (λ h, bool_decide (h = hash)) (getRecentHashes tenant stateKey))
  end.

Definition shouldSendHeartbeat (cfg : SmartHeartbeatConfig) (hour min : Z) (tenantID content : string) (ts : T)
    : result goerror bool :=
  if negb (isWithinActiveHours cfg hour min) then Ok false
  else match isDuplicate tenantID content ts with
       | Err e => Err e
       | Ok isDup => Ok (negb isDup)
       end.
End smart.

(** The text of a time of the day: HH:MM. *)
Definition two_digits (n : Z) : string := pretty (n `div` 10) +:+ pretty (n `mod` 10).
Definition clock_text (minute : Z) : string := two_digits (minute `div` 60) +:+ ":" +:+ two_digits (minute `mod` 60).

Lemma clock_text_parse m : 0 ≤ m < 1440 → parseTimeToMinutes (clock_text m) = m ∧ str_empty (clock_text m) = false.
Proof.
  intros Hm.
  assert (forallb (λ m, (parseTimeToMinutes (clock_text m) =? m) && negb (str_empty (clock_text m))) (seqZ 0 1440) = true) as Hall
    by (vm_compute; reflexivity).
  rewrite forallb_forall in Hall. specialize (Hall m).
  rewrite andb_true_iff, Z.eqb_eq, negb_true_iff in Hall. apply Hall.
  apply list_elem_of_In, elem_of_seqZ. lia.
Qed.

(** With the hours written as HH:MM, the heartbeat is sent exactly when the time that
    has passed since the start, around midnight if need be, is less than the length of the
    active span; equal times give an empty span.  No content is ever a duplicate: inside the
    hours a tenant that can be read is always sent its heartbeat. *)
Theorem active_hours_exact {T} `{TenantStore T} hashContent cw dw s e h m tenantID content (ts : T) :
  0 ≤ s < 1440 → 0 ≤ e < 1440 → 0 ≤ h < 24 → 0 ≤ m < 60 →
  let cfg := {| sc_Start := clock_text s; sc_End := clock_text e; sc_CoalesceWindow := cw; sc_DuplicateWindow := dw |} in
  let active := (h * 60 + m - s) `mod` 1440 <? (e - s) `mod` 1440 in
  isWithinActiveHours cfg h m = active
  ∧ (∀ t, tns_Get tenantID ts = Ok t → shouldSendHeartbeat hashContent cfg h m tenantID content ts = Ok active).
Proof.
  intros Hs He Hh Hm cfg active. destruct (clock_text_parse s Hs) as [Ps Es]. destruct (clock_text_parse e He) as [Pe Ee].
  assert (isWithinActiveHours cfg h m = active) as Hw.
  { unfold isWithinActiveHours, cfg. simpl. rewrite Es, Ee, Ps, Pe. simpl. unfold active.
    assert ((h * 60 + m - s) `mod` 1440 = if s <=? h * 60 + m then h * 60 + m - s else h * 60 + m - s + 1440) as ->.
    { destruct (Z.leb_spec s (h * 60 + m)); [by rewrite Z.mod_small by lia|].
      rewrite <- (Z.mod_add _ 1), Z.mod_small by lia. lia. }
    assert ((e - s) `mod` 1440 = if s <=? e then e - s else e - s + 1440) as ->.
    { destruct (Z.leb_spec s e); [by rewrite Z.mod_small by lia|].
      rewrite <- (Z.mod_add _ 1), Z.mod_small by lia. lia. }
    destruct (Z.leb_spec s (h * 60 + m)), (Z.leb_spec s e), (Z.ltb_spec e s), (Z.ltb_spec (h * 60 + m) e);
      simpl; try lia; symmetry; rewrite ?Z.ltb_lt, ?Z.ltb_ge; lia. }
  split; [done|]. intros t Ht. unfold shouldSendHeartbeat. rewrite Hw. destruct active; [|done]. simpl.
  unfold isDuplicate. by rewrite Ht.
Qed.

(** ** smart_heartbeat.go: coalescing

    A timer is known by its number; [Stop] takes a timer that has not fired away.  A
    callback that has fired waits for the mutex in [co_fired]. *)

Record timer := { tm_tenant : string; tm_at : time }.

Record coalescer := {
  pendingRequests : gmap string (list time);
  coalesceTimer : option nat;
  co_timers : gmap nat timer; co_next : nat;
  co_fired : list string;
  co_log : list (string * nat);    (* executed: the tenant and its number of requests *)
}.

Definition co_init : coalescer :=
  {| pendingRequests := ∅; coalesceTimer := None; co_timers := ∅; co_next := 0; co_fired := []; co_log := [] |}.

Definition requests_of (c : coalescer) (t : string) : list time := default [] (pendingRequests c !! t).

Definition coalesceRequests (window : duration) (t : string) (now : time) (c : coalescer) : coalescer :=
  {| pendingRequests := <[t := requests_of c t ++ [now]]> (pendingRequests c);
     coalesceTimer := Some (co_next c);
     co_timers := <[co_next c := {| tm_tenant := t; tm_at := time_add now window |}]>
                    (match coalesceTimer c with Some i => delete i (co_timers c) | None => co_timers c end);
     co_next := S (co_next c); co_fired := co_fired c; co_log := co_log c |}.

Definition timer_fires (i : nat) (tm : timer) (c : coalescer) : coalescer :=
  {| pendingRequests := pendingRequests c; coalesceTimer := coalesceTimer c; co_timers := delete i (co_timers c);
     co_next := co_next c; co_fired := co_fired c ++ [tm_tenant tm]; co_log := co_log c |}.

(** The callback of the [k]th fired timer. *)
Definition executeCoalesced (k : nat) (t : string) (c : coalescer) : coalescer :=
  match requests_of c t with
  | [] => {| pendingRequests := pendingRequests c; coalesceTimer := coalesceTimer c; co_timers := co_timers c;
             co_next := co_next c; co_fired := delete k (co_fired c); co_log := co_log c |}
  | requests => {| pendingRequests := delete t (pendingRequests c); coalesceTimer := coalesceTimer c;
                   co_timers := co_timers c; co_next := co_next c; co_fired := delete k (co_fired c);
                   co_log := co_log c ++ [(t, length requests)] |}
  end.

(** The steps, with the list of the tenants' requests. *)
Inductive co_reachable (window : duration) : list string → coalescer → Prop :=
| cor_init : co_reachable window [] co_init
| cor_request rs c t now :
    co_reachable window rs c → co_reachable window (rs ++ [t]) (coalesceRequests window t now c)
| cor_fire rs c i tm :
    co_reachable window rs c → co_timers c !! i = Some tm → co_reachable window rs (timer_fires i tm c)
| cor_execute rs c k t :
    co_reachable window rs c → co_fired c !! k = Some t → co_reachable window rs (executeCoalesced k t c).

(** How many requests of a tenant have been executed. *)
Definition executed (t : string) (log : list (string * nat)) : Z :=
  sum_of (λ e, if bool_decide (e.1 = t) then Z.of_nat e.2 else 0) log.
Definition requested (t : string) (rs : list string) : Z := sum_of (λ t', if bool_decide (t' = t) then 1 else 0) rs.

Lemma requests_of_insert c m ti tm nx fi lg t t' l :
  pendingRequests c = m →
  requests_of {| pendingRequests := <[t := l]> m; coalesceTimer := ti; co_timers := tm; co_next := nx;
                 co_fired := fi; co_log := lg |} t' = if bool_decide (t = t') then l else requests_of c t'.
Proof.
  intros <-. unfold requests_of. simpl. case_bool_decide as Hd.
  - subst. by rewrite lookup_insert_eq.
  - by rewrite lookup_insert_ne.
Qed.

(** Every timer that can fire is the current one. *)
Definition co_inv (rs : list string) (c : coalescer) : Prop :=
  (∀ t, requested t rs = executed t (co_log c) + Z.of_nat (length (requests_of c t)))
  ∧ (∀ i tm, co_timers c !! i = Some tm → coalesceTimer c = Some i ∧ (i < co_next c)%nat)
  ∧ (∀ t, (∀ t', t' ∈ rs → t' = t) → requests_of c t ≠ [] →
       t ∈ co_fired c ∨ ∃ i tm, co_timers c !! i = Some tm ∧ tm_tenant tm = t)
  ∧ (∀ t, t ∈ co_fired c → t ∈ rs) ∧ (∀ i tm, co_timers c !! i = Some tm → tm_tenant tm ∈ rs).

Lemma requested_snoc t rs t0 : requested t (rs ++ [t0]) = requested t rs + if bool_decide (t0 = t) then 1 else 0.
Proof. unfold requested. rewrite sum_of_app, sum_of_cons. unfold sum_of at 2. simpl. lia. Qed.

Lemma executed_snoc t log e : executed t (log ++ [e]) = executed t log + if bool_decide (e.1 = t) then Z.of_nat e.2 else 0.
Proof. unfold executed. rewrite sum_of_app, sum_of_cons. unfold sum_of at 2. simpl. lia. Qed.

Lemma requests_after_request w c t0 now t :
  requests_of (coalesceRequests w t0 now c) t = requests_of c t ++ if bool_decide (t0 = t) then [now] else [].
Proof.
  unfold coalesceRequests, requests_of. simpl. case_bool_decide as Hd.
  - subst. by rewrite lookup_insert_eq.
  - rewrite lookup_insert_ne by done. by rewrite app_nil_r.
Qed.

Lemma co_request_inv w rs c t0 now : co_inv rs c → co_inv (rs ++ [t0]) (coalesceRequests w t0 now c).
Proof.
  intros (Hcount & Htimers & Hlive & Hfired & Htm).
  assert (∀ i tm, co_timers (coalesceRequests w t0 now c) !! i = Some tm →
            i = co_next c ∧ tm_tenant tm = t0) as Hone.
  { intros i tm. unfold coalesceRequests. simpl. intros [[<- <-]|[Hne Hi]]%lookup_insert_Some; [done|].
    destruct (coalesceTimer c) as [j|] eqn:Hj.
    - apply lookup_delete_Some in Hi as [Hij Hi]. apply Htimers in Hi as [Hi _]. congruence.
    - apply Htimers in Hi as [Hi _]. congruence. }
  split_and!.
  - intros t. rewrite requested_snoc, requests_after_request, Hcount, length_app. simpl. case_bool_decide; simpl; lia.
  - intros i tm Hi. destruct (Hone i tm Hi) as [-> _]. simpl. split; [done|lia].
  - intros t Hall _. right. assert (t0 = t) as -> by (apply Hall; set_solver).
    eexists (co_next c), _. simpl. by rewrite lookup_insert_eq.
  - intros t Ht. simpl in Ht. apply Hfired in Ht. set_solver.
  - intros i tm Hi. destruct (Hone i tm Hi) as [_ ->]. set_solver.
Qed.

Lemma co_fire_inv rs c i tm : co_inv rs c → co_timers c !! i = Some tm → co_inv rs (timer_fires i tm c).
Proof.
  intros (Hcount & Htimers & Hlive & Hfired & Htm) Hi. split_and!.
  - exact Hcount.
  - simpl. intros j tm' [_ Hj]%lookup_delete_Some. by apply (Htimers j tm').
  - intros t Hall Hne. destruct (Hlive t Hall Hne) as [Hf|(j & tm' & Hj & Ht)]; [left; simpl; set_solver|].
    destruct (decide (i = j)) as [->|Hij].
    + left. simpl. assert (tm' = tm) as -> by congruence. set_solver.
    + right. exists j, tm'. simpl. by rewrite lookup_delete_ne.
  - simpl. intros t [Ht| ->%list_elem_of_singleton]%elem_of_app; [by apply Hfired|by eapply Htm].
  - simpl. intros j tm' [_ Hj]%lookup_delete_Some. by apply (Htm j tm').
Qed.

Lemma co_execute_inv rs c k t0 : co_inv rs c → co_fired c !! k = Some t0 → co_inv rs (executeCoalesced k t0 c).
Proof.
  intros (Hcount & Htimers & Hlive & Hfired & Htm) Hk.
  assert (∀ t, t ∈ delete k (co_fired c) → t ∈ rs) as Hdel.
  { intros t Ht. apply Hfired. rewrite (delete_Permutation _ _ _ Hk). by right. }
  assert (t0 ∈ rs) as Hin by by eapply Hfired, list_elem_of_lookup_2.
  unfold executeCoalesced. destruct (requests_of c t0) as [|r l] eqn:Hr.
  - split_and!; try done. intros t Hall Hne. specialize (Hall _ Hin) as ->. by rewrite <- Hr in Hne.
  - assert (∀ t, requests_of {| pendingRequests := delete t0 (pendingRequests c); coalesceTimer := coalesceTimer c;
                                co_timers := co_timers c; co_next := co_next c; co_fired := delete k (co_fired c);
                                co_log := co_log c ++ [(t0, length (r :: l))] |} t
                = if bool_decide (t0 = t) then [] else requests_of c t) as Hreq.
    { intros t. unfold requests_of. simpl. case_bool_decide as Hd; [subst; by rewrite lookup_delete_eq|by rewrite lookup_delete_ne]. }
    split_and!; try done.
    + intros t. rewrite Hreq. cbn [co_log]. rewrite executed_snoc, Hcount. cbn [fst snd]. case_bool_decide as Hd; [subst t0; rewrite Hr; simpl|]; lia.
    + intros t Hall Hne. specialize (Hall _ Hin) as ->. by rewrite Hreq, bool_decide_true in Hne.
Qed.

Lemma co_reachable_inv w rs c : co_reachable w rs c → co_inv rs c.
Proof.
  induction 1 as [|rs c t now _ IH|rs c i tm _ IH Hi|rs c k t _ IH Hk].
  - split_and!; try done; intros t; by intros ?%not_elem_of_nil.
  - by apply co_request_inv.
  - by apply co_fire_inv.
  - by apply co_execute_inv.
Qed.

(** In every interleaving each request is counted once: executed or pending.  With
    requests of one tenant only, a pending request always has a timer or a callback that
    will execute it; but the timer is shared, so that a request of another tenant can
    leave one pending with nothing to execute it. *)
Theorem coalesce_accounts w rs c :
  co_reachable w rs c →
  (∀ t, requested t rs = executed t (co_log c) + Z.of_nat (length (requests_of c t)))
  ∧ (∀ t, (∀ t', t' ∈ rs → t' = t) → requests_of c t ≠ [] →
       t ∈ co_fired c ∨ ∃ i tm, co_timers c !! i = Some tm ∧ tm_tenant tm = t)
  ∧ ∀ a b, a ≠ b → ∃ c', co_reachable w [a; b] c' ∧ requests_of c' a ≠ [] ∧ co_timers c' = ∅ ∧ co_fired c' = [].
Proof.
  intros (Hcount & _ & Hlive & _)%co_reachable_inv. split; [done|]. split; [done|]. intros a b Hab.
  set (c1 := coalesceRequests w a 0 co_init). set (c2 := coalesceRequests w b 0 c1).
  set (tm := {| tm_tenant := b; tm_at := time_add 0 w |}).
  assert (co_timers c2 = {[ 1%nat := tm ]}) as Htm.
  { unfold c2, c1, coalesceRequests. simpl. by rewrite insert_empty, delete_singleton_eq. }
  exists (executeCoalesced 0 b (timer_fires 1 tm c2)).
  assert (requests_of (timer_fires 1 tm c2) b = [0] ∧ requests_of c2 a = [0]) as [Hb Ha].
  { unfold timer_fires, c2, requests_of. simpl. rewrite lookup_insert_eq, !lookup_insert_ne by done.
    unfold requests_of. simpl. by rewrite lookup_insert_eq, lookup_insert_ne. }
  split_and!.
  - apply (cor_execute w [a; b] _ 0 b); [|done]. apply (cor_fire w [a; b]); [|by rewrite Htm, lookup_singleton_eq].
    apply (cor_request w [a]). apply (cor_request w []). constructor.
  - unfold executeCoalesced. rewrite Hb. unfold requests_of. simpl. rewrite lookup_delete_ne by done.
    change (requests_of c2 a ≠ []). by rewrite Ha.
  - unfold executeCoalesced. rewrite Hb. change (delete 1%nat (co_timers c2) = ∅). by rewrite Htm, delete_singleton_eq.
  - unfold executeCoalesced. by rewrite Hb.
Qed.

(** ** Witnesses *)

Definition no_tenants : TenantStore unit := {| tns_Get := λ _ _, Err ErrCanceled; tns_Put := λ _ s, (s, None); tns_List := λ _ _, Ok [] |}.

Lemma active_hours_exact_witness :
  isWithinActiveHours {| sc_Start := clock_text 1320; sc_End := clock_text 360; sc_CoalesceWindow := 0; sc_DuplicateWindow := 0 |} 23 30 = true.
Proof. refine (proj1 (active_hours_exact (H := no_tenants) (λ s, s) 0 0 1320 360 23 30 "" "" tt _ _ _ _)); lia. Defined.

Lemma coalesce_accounts_witness :
  requested "t" ["t"%string] = executed "t" (co_log (coalesceRequests 5 "t" 0 co_init))
                             + Z.of_nat (length (requests_of (coalesceRequests 5 "t" 0 co_init) "t")).
Proof. apply (coalesce_accounts 5 ["t"%string]). apply (cor_request 5 []). constructor. Defined.
