(* ===== verification/RateLimit.v ===== *)
(** Token buckets: [pkg/tools/ratelimit.go] limits the tool calls of a tenant,
    [pkg/api/middleware/ratelimit.go] the requests of a client address.

    Tokens are binary64 numbers.  The tenant limiter holds its mutex for a whole call; the
    middleware looks the bucket up under the mutex of the map and then locks the bucket, so
    that its buckets are pointers and a call is two steps.  The cleanup goroutines call the
    functions below; the clock is an argument. *)
From S2P Require Import Prelude GoStrings Floats.

(** [tokens += elapsed * rate], and no more than the capacity. *)
Definition refill (tokens cap rate : float64) (elapsed : duration) : float64 :=
  let t := f64_add tokens (f64_mul (Seconds elapsed) rate) in
  if SFltb cap t then cap else t.

(** ** tools/ratelimit.go *)

Record bucket := { bk_tokens : float64; bk_lastCheck : time }.

Record TenantRateLimiter := { rl_buckets : gmap string bucket; rl_rate : float64; rl_burst : Z }.

Definition NewTenantRateLimiter (rate : float64) (burst : Z) : TenantRateLimiter :=
  {| rl_buckets := ∅; rl_rate := rate; rl_burst := burst |}.

Definition with_buckets (m : gmap string bucket) (rl : TenantRateLimiter) : TenantRateLimiter :=
  {| rl_buckets := m; rl_rate := rl_rate rl; rl_burst := rl_burst rl |}.

(** The bucket after a call, and whether the call is allowed. *)
Definition take_token (rate : float64) (burst : Z) (now : time) (b : bucket) : bucket * bool :=
  let tokens := refill (bk_tokens b) (f64_of_Z burst) rate (time_sub now (bk_lastCheck b)) in
  if SFltb tokens f64_one then ({| bk_tokens := tokens; bk_lastCheck := now |}, false)
  else ({| bk_tokens := f64_sub tokens f64_one; bk_lastCheck := now |}, true).

Definition Allow (tenantID : string) (now : time) (rl : TenantRateLimiter) : TenantRateLimiter * bool :=
  let b := default {| bk_tokens := f64_of_Z (rl_burst rl); bk_lastCheck := now |} (rl_buckets rl !! tenantID) in
  let '(b, ok) := take_token (rl_rate rl) (rl_burst rl) now b in
  (with_buckets (<[tenantID := b]> (rl_buckets rl)) rl, ok).

Definition cleanup (now : time) (rl : TenantRateLimiter) : TenantRateLimiter :=
  with_buckets (map_keep (λ b, negb (10 * Minute <? time_sub now (bk_lastCheck b))) (rl_buckets rl)) rl.

(** ** Histories *)

Inductive limit_op := OpAllow (tenantID : string) (now : time) | OpCleanup (now : time).

Definition limit_step (rl : TenantRateLimiter) (o : limit_op) : TenantRateLimiter * list (string * bool) :=
  match o with
  | OpAllow t now => let '(rl, ok) := Allow t now rl in (rl, [(t, ok)])
  | OpCleanup now => (cleanup now rl, [])
  end.

(** The answers of a history, with the tenant each went to. *)
Fixpoint limit_run (rl : TenantRateLimiter) (ops : list limit_op) : list (string * bool) :=
  match ops with
  | [] => []
  | o :: ops => let '(rl, out) := limit_step rl o in out ++ limit_run rl ops
  end.

Definition of_tenant (t : string) (o : limit_op) : bool :=
  match o with OpAllow t' _ => bool_decide (t' = t) | OpCleanup _ => true end.

Definition answers_to (t : string) (out : list (string * bool)) : list bool :=
  omap (λ a, if bool_decide (a.1 = t) then Some a.2 else None) out.

Lemma answers_to_app t l k : answers_to t (l ++ k) = answers_to t l ++ answers_to t k.
Proof. apply omap_app. Qed.

Lemma Allow_other t t' now rl : t' ≠ t → rl_buckets (Allow t now rl).1 !! t' = rl_buckets rl !! t'.
Proof. intros Hne. unfold Allow. destruct (take_token _ _ _ _) as [b ok]. simpl. by rewrite lookup_insert_ne. Qed.

(** Two limiters of the same rate with the same bucket of a tenant. *)
Definition same_for (t : string) (r1 r2 : TenantRateLimiter) : Prop :=
  rl_rate r1 = rl_rate r2 ∧ rl_burst r1 = rl_burst r2 ∧ rl_buckets r1 !! t = rl_buckets r2 !! t.

Lemma Allow_same t now r1 r2 :
  same_for t r1 r2 → same_for t (Allow t now r1).1 (Allow t now r2).1 ∧ (Allow t now r1).2 = (Allow t now r2).2.
Proof.
  intros (Hr & Hb & Hl). unfold Allow. rewrite Hl, Hr, Hb. destruct (take_token _ _ _ _) as [b ok]. simpl.
  split; [|done]. split_and!; [done|done|]. simpl. by rewrite !lookup_insert_eq.
Qed.

Lemma Allow_same_other t t' now r1 r2 : t' ≠ t → same_for t r1 r2 → same_for t (Allow t' now r1).1 r2.
Proof.
  intros Hne (Hr & Hb & Hl). split_and!; [..|rewrite Allow_other by done; exact Hl];
    unfold Allow; by destruct (take_token _ _ _ _).
Qed.

(** Tenants are independent: in any history the answers to one are those of the
    history without the calls of the others. *)
Theorem tenants_independent rate burst t ops :
  answers_to t (limit_run (NewTenantRateLimiter rate burst) ops)
  = answers_to t (limit_run (NewTenantRateLimiter rate burst) (filter (λ o, of_tenant t o = true) ops)).
Proof.
  assert (∀ r1 r2, same_for t r1 r2 →
            answers_to t (limit_run r1 ops) = answers_to t (limit_run r2 (filter (λ o, of_tenant t o = true) ops))) as Hgen;
    [|by apply Hgen].
  induction ops as [|[t' now|now] ops IH]; intros r1 r2 Hs; [done|rewrite filter_cons|rewrite filter_cons].
  - cbn [of_tenant]. case_decide as Hd.
    + apply bool_decide_eq_true in Hd as ->. cbn [limit_run limit_step].
      destruct (Allow_same t now r1 r2 Hs) as [Hs' Heq].
      destruct (Allow t now r1) as [r1' ok1], (Allow t now r2) as [r2' ok2]. simpl in Hs', Heq. subst.
      rewrite !answers_to_app. f_equal. by apply IH.
    + apply not_true_is_false, bool_decide_eq_false in Hd. cbn [limit_run limit_step].
      pose proof (Allow_same_other t t' now r1 r2 Hd Hs) as Hs'.
      destruct (Allow t' now r1) as [r1' ok1]. rewrite answers_to_app. unfold answers_to at 1. simpl.
      rewrite bool_decide_false by done. by apply IH.
  - rewrite decide_True by done. cbn [limit_run limit_step app]. apply IH.
    destruct Hs as (Hr & Hb & Hl). split_and!; [done|done|]. unfold cleanup. simpl. by rewrite !map_keep_lookup, Hl.
Qed.

(** ** The burst *)

(** A finite rate and a finite number of tokens, with no time passing. *)
Definition finite_float (x : float64) : bool :=
  match x with S754_zero _ | S754_finite _ _ _ => true | _ => false end.

Lemma refill_now s m e cap rate : finite_float rate = true → SFltb cap (S754_finite s m e) = false →
  refill (S754_finite s m e) cap rate 0 = S754_finite s m e.
Proof. intros Hr Hc. destruct rate; try done; unfold refill; simpl; by rewrite Hc. Qed.

(** Whole numbers of tokens up to 4096 are exact. *)
Lemma whole_tokens k : 1 ≤ k ≤ 4096 →
  (∃ m e, f64_of_Z k = S754_finite false m e) ∧ SFltb (f64_of_Z k) f64_one = false
  ∧ f64_sub (f64_of_Z k) f64_one = f64_of_Z (k - 1) ∧ SFltb (f64_of_Z k) (f64_of_Z (k - 1)) = false.
Proof.
  intros Hk.
  assert (forallb (λ k, match f64_of_Z k with S754_finite false _ _ => true | _ => false end
            && negb (SFltb (f64_of_Z k) f64_one) && bool_decide (f64_sub (f64_of_Z k) f64_one = f64_of_Z (k - 1))
            && negb (SFltb (f64_of_Z k) (f64_of_Z (k - 1)))) (seqZ 1 4096) = true) as Hall by (vm_compute; reflexivity).
  rewrite forallb_forall in Hall. specialize (Hall k).
  rewrite !andb_true_iff, !negb_true_iff, bool_decide_eq_true in Hall.
  destruct Hall as [[[Hf H1] H2] H3]; [apply list_elem_of_In, elem_of_seqZ; lia|].
  split_and!; [|done..]. destruct (f64_of_Z k) as [| | |[] m e]; try done. by exists m, e.
Qed.

Lemma whole_tokens_order k n : 0 ≤ k → k + Z.of_nat n ≤ 4096 → SFltb (f64_of_Z (k + Z.of_nat n)) (f64_of_Z k) = false.
Proof.
  intros Hk. assert (∀ j, 0 ≤ j ≤ 4096 → is_nan (f64_of_Z j) = false) as Hnan.
  { intros j Hj. destruct (decide (j = 0)) as [->|]; [done|].
    destruct (whole_tokens j) as [(m & e & ->) _]; [lia|done]. }
  induction n as [|n IH]; intros Hn.
  - rewrite Z.add_0_r. destruct (decide (k = 0)) as [->|]; [done|].
    destruct (whole_tokens k) as [(m & e & ->) _]; [lia|]. unfold SFltb, SFcompare. simpl.
    rewrite Z.compare_refl. by rewrite Pos.compare_cont_refl.
  - replace (k + Z.of_nat (S n)) with (k + Z.of_nat n + 1) in * by lia.
    apply (SFltb_false_trans _ (f64_of_Z (k + Z.of_nat n))); [apply Hnan; lia..| |].
    + apply IH. lia.
    + destruct (whole_tokens (k + Z.of_nat n + 1)) as (_ & _ & _ & H); [lia|].
      by replace (k + Z.of_nat n + 1 - 1) with (k + Z.of_nat n) in H by lia.
Qed.

(** The calls of one instant. *)
Fixpoint calls (n : nat) (t : string) (now : time) (rl : TenantRateLimiter) : list bool :=
  match n with
  | O => []
  | S n => let '(rl, ok) := Allow t now rl in ok :: calls n t now rl
  end.

Lemma calls_empty n t now rl s :
  finite_float (rl_rate rl) = true → 1 ≤ rl_burst rl ≤ 4096 →
  rl_buckets rl !! t = Some {| bk_tokens := S754_zero s; bk_lastCheck := now |} →
  calls n t now rl = replicate n false.
Proof.
  revert rl s. induction n as [|n IH]; intros rl s Hr Hb Hl; [done|]. cbn [calls]. unfold Allow.
  rewrite Hl. simpl. unfold take_token. simpl. rewrite (time_sub_small now now), Z.sub_diag by (unfold min_int64, max_int64; lia).
  assert (∃ s', refill (S754_zero s) (f64_of_Z (rl_burst rl)) (rl_rate rl) 0 = S754_zero s') as [s' Hz].
  { destruct (whole_tokens (rl_burst rl)) as [(m & e & Hbf) _]; [done|]. rewrite Hbf.
    unfold refill. destruct (rl_rate rl) as [sr| | |sr mr er]; try done; destruct s, sr; by eexists. }
  rewrite Hz. change (SFltb (S754_zero s') f64_one) with true. cbn iota. simpl. f_equal.
  eapply (IH _ s'); [done|done|]. simpl. by rewrite lookup_insert_eq.
Qed.

Lemma calls_whole n t now rl k :
  1 ≤ rl_burst rl ≤ 4096 → finite_float (rl_rate rl) = true → 0 ≤ k ≤ rl_burst rl →
  rl_buckets rl !! t = Some {| bk_tokens := f64_of_Z k; bk_lastCheck := now |} →
  calls n t now rl = (λ i, bool_decide (Z.of_nat i < k)) <$> seq 0 n.
Proof.
  revert rl k. induction n as [|n IH]; intros rl k Hb Hr Hk Hl; [done|].
  destruct (decide (k = 0)) as [->|Hk0].
  - rewrite (calls_empty _ _ _ _ false Hr Hb Hl). clear. generalize 0%nat. induction (S n) as [|m IH]; intros j; [done|].
    cbn [replicate seq]. rewrite fmap_cons. f_equal; [symmetry; apply bool_decide_eq_false; lia|done].
  - cbn [calls]. unfold Allow. rewrite Hl. cbn [default from_option id]. unfold take_token. cbn [bk_tokens bk_lastCheck].
    rewrite (time_sub_small now now), Z.sub_diag by (unfold min_int64, max_int64; lia).
    destruct (whole_tokens k) as ((m & e & Hf) & H1 & H2 & _); [lia|].
    assert (refill (f64_of_Z k) (f64_of_Z (rl_burst rl)) (rl_rate rl) 0 = f64_of_Z k) as ->.
    { rewrite Hf. apply refill_now; [done|]. rewrite <- Hf.
      replace (rl_burst rl) with (k + Z.of_nat (Z.to_nat (rl_burst rl - k))) by lia. apply whole_tokens_order; lia. }
    rewrite H1, H2. cbn [seq]. rewrite fmap_cons. f_equal; [symmetry; apply bool_decide_eq_true; lia|].
    rewrite (IH _ (k - 1)); [|done|done|simpl; lia|simpl; by rewrite lookup_insert_eq].
    rewrite <- fmap_S_seq, <- list_fmap_compose. apply list_fmap_ext. intros i j _. unfold compose.
    apply bool_decide_ext. lia.
Qed.

(** Of any number of calls at one instant a tenant the limiter does not know yet gets
    exactly the burst; the further ones are refused. *)
Theorem burst_exact n t now rl :
  1 ≤ rl_burst rl ≤ 4096 → finite_float (rl_rate rl) = true → rl_buckets rl !! t = None →
  calls n t now rl = (λ i, bool_decide (Z.of_nat i < rl_burst rl)) <$> seq 0 n.
Proof.
  intros Hb Hr Hl. transitivity (calls n t now (with_buckets (<[t := {| bk_tokens := f64_of_Z (rl_burst rl); bk_lastCheck := now |}]> (rl_buckets rl)) rl)).
  - destruct n as [|n]; [done|]. cbn [calls]. unfold Allow. simpl. rewrite Hl, lookup_insert_eq. simpl.
    destruct (take_token _ _ _ _) as [b ok]. unfold with_buckets. simpl. by rewrite insert_insert_eq.
  - apply calls_whole; simpl; [done|done|lia|by rewrite lookup_insert_eq].
Qed.

Lemma burst_exact_witness :
  calls 3 "t" 7 (NewTenantRateLimiter (f64_of_Z 1) 2) = [true; true; false].
Proof. exact (burst_exact 3 "t" 7 (NewTenantRateLimiter (f64_of_Z 1) 2) ltac:(simpl; lia) eq_refl eq_refl). Defined.

(** ** middleware/ratelimit.go *)

Record tokenBucket := { tb_tokens : float64; tb_capacity : float64; tb_refillRate : float64; tb_lastRefill : time }.

Definition newTokenBucket (rate burst : Z) (now : time) : tokenBucket :=
  let capacity := if burst =? 0 then f64_of_Z rate else f64_of_Z burst in
  {| tb_tokens := capacity; tb_capacity := capacity;
     tb_refillRate := f64_div (f64_of_Z rate) (f64_of_Z 60); tb_lastRefill := now |}.

Definition tb_allow (now : time) (tb : tokenBucket) : tokenBucket * bool :=
  let tokens := refill (tb_tokens tb) (tb_capacity tb) (tb_refillRate tb) (time_sub now (tb_lastRefill tb)) in
  let after := λ t, {| tb_tokens := t; tb_capacity := tb_capacity tb; tb_refillRate := tb_refillRate tb; tb_lastRefill := now |} in
  if SFleb f64_one tokens then (after (f64_sub tokens f64_one), true) else (after tokens, false).

(** The buckets are pointers into [lm_heap]. *)
Record rateLimiter := { lm_buckets : gmap string nat; lm_heap : gmap nat tokenBucket; lm_next : nat; lm_rate : Z; lm_burst : Z }.

Definition newRateLimiter (rate burst : Z) : rateLimiter :=
  {| lm_buckets := ∅; lm_heap := ∅; lm_next := 0; lm_rate := rate; lm_burst := burst |}.

(** The part of [allow] under the mutex of the map: the bucket of a key. *)
Definition find_bucket (key : string) (now : time) (rl : rateLimiter) : rateLimiter * nat :=
  match lm_buckets rl !! key with
  | Some p => (rl, p)
  | None => ({| lm_buckets := <[key := lm_next rl]> (lm_buckets rl);
                lm_heap := <[lm_next rl := newTokenBucket (lm_rate rl) (lm_burst rl) now]> (lm_heap rl);
                lm_next := S (lm_next rl); lm_rate := lm_rate rl; lm_burst := lm_burst rl |}, lm_next rl)
  end.

(** The part under the mutex of the bucket. *)
Definition bucket_allow (p : nat) (now : time) (rl : rateLimiter) : rateLimiter * bool :=
  match lm_heap rl !! p with
  | None => (rl, false)  (* no such pointer is handed out *)
  | Some tb =>
      let '(tb, ok) := tb_allow now tb in
      ({| lm_buckets := lm_buckets rl; lm_heap := <[p := tb]> (lm_heap rl); lm_next := lm_next rl;
          lm_rate := lm_rate rl; lm_burst := lm_burst rl |}, ok)
  end.

(** Nothing happens between the two parts. *)
Definition rl_allow (key : string) (now : time) (rl : rateLimiter) : rateLimiter * bool :=
  let '(rl, p) := find_bucket key now rl in bucket_allow p now rl.

Definition inactive (now : time) (rl : rateLimiter) (p : nat) : bool :=
  match lm_heap rl !! p with Some tb => 5 * Minute <? time_sub now (tb_lastRefill tb) | None => false end.

Definition rl_cleanup (now : time) (rl : rateLimiter) : rateLimiter :=
  {| lm_buckets := map_keep (λ p, negb (inactive now rl p)) (lm_buckets rl); lm_heap := lm_heap rl;
     lm_next := lm_next rl; lm_rate := lm_rate rl; lm_burst := lm_burst rl |}.

(** The address of the client, from the headers and [RemoteAddr]; an absent header is empty. *)
Definition getClientIP (xff xri remoteAddr : string) : string :=
  if negb (str_empty xff) then
    match split xff "," with ip :: _ => trim_space ip | [] => "" end
  else if negb (str_empty xri) then xri else remoteAddr.

(** What the middleware answers, when it does not call the next handler. *)
Definition rate_limited : Z * string :=
  (429, "{" +:+ quoted "error" +:+ ":{" +:+ quoted "code" +:+ ":" +:+ quoted "RATE_LIMIT_EXCEEDED" +:+ ","
        +:+ quoted "message" +:+ ":" +:+ quoted "Rate limit exceeded" +:+ "}}").

Definition RateLimit (xff xri remoteAddr : string) (now : time) (rl : rateLimiter) : rateLimiter * option (Z * string) :=
  let '(rl, ok) := rl_allow (getClientIP xff xri remoteAddr) now rl in
  (rl, if ok then None else Some rate_limited).

(** *** Interleavings

    Requests in flight hold the bucket they found; the cleanup may drop it from the map
    meanwhile. *)
Record lm_state := { lm : rateLimiter; lm_flight : list (string * nat) }.

Inductive lm_step : lm_state → lm_state → Prop :=
| lm_find s key now rl p :
    find_bucket key now (lm s) = (rl, p) → lm_step s {| lm := rl; lm_flight := (key, p) :: lm_flight s |}
| lm_take s i key p now rl ok :
    lm_flight s !! i = Some (key, p) → bucket_allow p now (lm s) = (rl, ok) →
    lm_step s {| lm := rl; lm_flight := delete i (lm_flight s) |}
| lm_clean s now : lm_step s {| lm := rl_cleanup now (lm s); lm_flight := lm_flight s |}.

(** [k] uses the bucket [p]: in the map or in a request. *)
Definition uses (s : lm_state) (k : string) (p : nat) : Prop := lm_buckets (lm s) !! k = Some p ∨ (k, p) ∈ lm_flight s.

Definition lm_inv (s : lm_state) : Prop :=
  (∀ k p, uses s k p → is_Some (lm_heap (lm s) !! p) ∧ (p < lm_next (lm s))%nat)
  ∧ ∀ k k' p, uses s k p → uses s k' p → k = k'.

Lemma lm_step_inv s s' : lm_step s s' → lm_inv s → lm_inv s'.
Proof.
  intros Hstep [Hheap Huniq]. destruct Hstep as [s key now rl p Hf|s i key p now rl ok Hi Ha|s now].
  - unfold find_bucket in Hf. destruct (lm_buckets (lm s) !! key) as [q|] eqn:Hq; simplify_eq.
    + assert (∀ k p', uses {| lm := lm s; lm_flight := (key, p) :: lm_flight s |} k p' → uses s k p') as Hold.
      { unfold uses. simpl. intros k p' [?|[[= -> ->]|?]%elem_of_cons]; auto. }
      split; [intros k p' H|intros k k' p' H H']; eauto.
    + assert (∀ k p', uses {| lm := {| lm_buckets := <[key := lm_next (lm s)]> (lm_buckets (lm s));
                lm_heap := <[lm_next (lm s) := newTokenBucket (lm_rate (lm s)) (lm_burst (lm s)) now]> (lm_heap (lm s));
                lm_next := S (lm_next (lm s)); lm_rate := lm_rate (lm s); lm_burst := lm_burst (lm s) |};
                lm_flight := (key, lm_next (lm s)) :: lm_flight s |} k p' →
              k = key ∧ p' = lm_next (lm s) ∨ uses s k p') as Hold.
      { unfold uses. simpl. intros k p' [[[<- <-]|[_ ?]]%lookup_insert_Some|[[= -> ->]|?]%elem_of_cons]; auto. }
      assert (∀ k p', uses s k p' → p' ≠ lm_next (lm s)) as Hfresh by (intros k p' [_ ?]%Hheap; lia).
      split.
      * intros k p' [[-> ->]|H]%Hold; simpl; [rewrite lookup_insert_eq; split; [done|lia]|].
        destruct (Hheap _ _ H) as [Hh Hlt]. rewrite lookup_insert_ne by lia. split; [done|lia].
      * intros k k' p' H H'. apply Hold in H as [[-> Hp]|H]; apply Hold in H' as [[-> Hp']|H']; [done| | |by eapply Huniq].
        -- by destruct (Hfresh _ _ H').
        -- by destruct (Hfresh _ _ H).
  - assert (lm_buckets rl = lm_buckets (lm s) ∧ lm_next rl = lm_next (lm s)
            ∧ ∀ p', is_Some (lm_heap (lm s) !! p') → is_Some (lm_heap rl !! p')) as (Hb & Hn & Hh).
    { unfold bucket_allow in Ha. destruct (lm_heap (lm s) !! p) as [tb|]; [|by simplify_eq].
      destruct (tb_allow now tb) as [tb' ok']. simplify_eq. simpl. split_and!; [done|done|].
      intros p' Hs. apply lookup_insert_is_Some. destruct (decide (p = p')); auto. }
    assert (∀ k p', uses {| lm := rl; lm_flight := delete i (lm_flight s) |} k p' → uses s k p') as Hold.
    { unfold uses. simpl. rewrite Hb. intros k p' [?|Hin]; [by left|right].
      rewrite (delete_Permutation _ _ _ Hi). by right. }
    split; [|intros k k' p' H H'; eauto]. intros k p' H%Hold. simpl. rewrite Hn. destruct (Hheap _ _ H). auto.
  - assert (∀ k p', uses {| lm := rl_cleanup now (lm s); lm_flight := lm_flight s |} k p' → uses s k p') as Hold.
    { unfold uses. simpl. intros k p' [Hk|]; [|by right]. left. rewrite map_keep_lookup in Hk.
      destruct (lm_buckets (lm s) !! k) as [q|]; [|done]. simpl in Hk. by destruct (negb _). }
    split; [intros k p' H%Hold; by apply (Hheap k)|intros k k' p' H H'; eauto].
Qed.

(** In every interleaving of requests and cleanups the requests of different clients
    never share a bucket, and a request in flight always finds the bucket it was given. *)
Theorem clients_do_not_share rate burst s :
  rtc lm_step {| lm := newRateLimiter rate burst; lm_flight := [] |} s →
  (∀ k k' p, uses s k p → uses s k' p → k = k')
  ∧ ∀ i key p now, lm_flight s !! i = Some (key, p) →
      ∃ tb, lm_heap (lm s) !! p = Some tb ∧ (bucket_allow p now (lm s)).2 = (tb_allow now tb).2.
Proof.
  intros Hr. assert (lm_inv s) as [Hheap Huniq].
  { remember {| lm := newRateLimiter rate burst; lm_flight := [] |} as s0 eqn:Hs0.
    assert (lm_inv s0) as Hinit.
    { subst. split; [intros k p H|intros k k' p H]; by destruct H as [?|?%not_elem_of_nil]. }
    clear Hs0. induction Hr as [|s0 s1 s2 Hstep _ IH]; [done|]. by eapply IH, lm_step_inv. }
  split; [exact Huniq|]. intros i key p now Hi.
  destruct (Hheap key p) as [[tb Htb] _]; [right; by eapply list_elem_of_lookup_2|].
  exists tb. split; [done|]. unfold bucket_allow. rewrite Htb. by destruct (tb_allow now tb).
Qed.

Lemma clients_do_not_share_witness : ∀ k k' p,
  uses {| lm := (find_bucket "a" 0 (newRateLimiter 60 2)).1; lm_flight := [("a"%string, 0%nat)] |} k p →
  uses {| lm := (find_bucket "a" 0 (newRateLimiter 60 2)).1; lm_flight := [("a"%string, 0%nat)] |} k' p → k = k'.
Proof.
  refine (proj1 (clients_do_not_share 60 2 _ _)). eapply rtc_l; [|apply rtc_refl].
  by apply (lm_find {| lm := newRateLimiter 60 2; lm_flight := [] |} "a" 0).
Defined.
