(* ===== verification/Guards.v ===== *)
(** [pkg/guard/context_window.go] and [tool_result.go]: the checks of a conversation's size
    and of tool results; [pkg/tools/guard.go]: the checks around every tool call.

    The tool itself and the tenant store are arguments; the session state of a call is the
    record [tool_state].  The rate limiter is the one of [RateLimit].  The text of an error
    is built with [fmt]: only what tells the errors apart is kept.  Log lines are left out. *)
From S2P Require Import Prelude GoStrings Floats Values Types Stores Pruning RateLimit.

(** ** guard/context_window.go *)

Definition HardMinTokens : Z := 4000.
Definition WarnBelowTokens : Z := 8000.

Record ContextWindowGuard := { contextWindow : Z; hardMin : Z; warnThreshold : Z }.

Definition NewContextWindowGuard (w : Z) : ContextWindowGuard :=
  {| contextWindow := w; hardMin := HardMinTokens; warnThreshold := WarnBelowTokens |}.

Inductive Level := LevelOK | LevelWarning | LevelCritical.
Inductive DegradeStrategy := StrategyNone | StrategyGracefulCompress | StrategyEmergencyCompress.

Record EvaluationResult := {
  er_Level : Level; er_Strategy : DegradeStrategy; er_Available : Z; er_ContextWindow : Z; er_CurrentTokens : Z;
}.

Definition Evaluate (g : ContextWindowGuard) (currentTokens : Z) : EvaluationResult :=
  let available := wrap64 (contextWindow g - currentTokens) in
  let result := λ l s, {| er_Level := l; er_Strategy := s; er_Available := available;
                          er_ContextWindow := contextWindow g; er_CurrentTokens := currentTokens |} in
  if available <? hardMin g then result LevelCritical StrategyEmergencyCompress
  else if available <? warnThreshold g then result LevelWarning StrategyGracefulCompress
  else result LevelOK StrategyNone.

(** ** guard/tool_result.go *)

Inductive protect_error := ErrNoResponse | ErrNoName | ErrNoData.

Definition validateToolResult (p : Part) : option protect_error :=
  match part_FunctionResponse p with
  | None => Some ErrNoResponse
  | Some fr =>
      if str_empty (fr_Name fr) then Some ErrNoName
      else match fr_Response fr with None => Some ErrNoData | Some _ => None end
  end.

Fixpoint protect_parts (ps : list Part) : option protect_error :=
  match ps with
  | [] => None
  | p :: ps =>
      match part_FunctionResponse p with
      | None => protect_parts ps
      | Some _ => match validateToolResult p with Some e => Some e | None => protect_parts ps end
      end
  end.

Definition Protect (content : option Content) : option protect_error :=
  match content with None => None | Some c => protect_parts (ct_Parts c) end.

(** ** tools/guard.go *)

(** The keys of the session state the guard reads: [stateStr] and [stateStrSlice]; a value
    that is missing or cannot be read is [None]. *)
Record tool_state := { ts_tenant_id : option jany; ts_skill_allowed_tools : option jany }.

Definition stateStrSlice (v : option jany) : list string := as_strs v.
Definition containsStr (slice : list string) (val : string) : bool := existsb (λ s, bool_decide (s = val)) slice.

Inductive deny_error :=
| DeniedStore (e : goerror) | DeniedTool (tool tenant : string)
| DeniedCapability (tool : string) | DeniedRate (tenant : string).

Section guard.
Context {T Out : Type} `{TenantStore T}.

(** A tool takes its arguments as part of the world and may change the world [Wd]. *)
Context {Wd : Type}.

Record Deps := { dp_tenants : option T; dp_rate : option TenantRateLimiter }.

Definition checkPermission (name : string) (tenants : T) (tenantID : string) : option deny_error :=
  match tns_Get tenantID tenants with
  | Err e => Some (DeniedStore e)
  | Ok None => None
  | Ok (Some tenant) =>
      match jget "denied_tools" (tn_Config tenant) with
      | Some (JArr denied) =>
          if existsb (λ d, match d with JStr s => bool_decide (s = name) | _ => false end) denied
          then Some (DeniedTool name tenantID) else None
      | Some (JStrs denied) =>
          if existsb (λ s, bool_decide (s = name)) denied then Some (DeniedTool name tenantID) else None
      | _ => None
      end
  end.

(** A denied call answers with a map that holds the error, and no error of its own. *)
Inductive tool_answer := Denied (e : deny_error) | Ran (o : Out).

(** The state of the rate limiter is threaded through; the tool runs last. *)
Definition guarded_Run (name : string) (inner : Wd → Wd * Out) (tenants : option T) (rate : option TenantRateLimiter)
    (st : tool_state) (now : time) (w : Wd) : option TenantRateLimiter * Wd * tool_answer :=
  let tenantID := as_str (ts_tenant_id st) in
  match (match tenants with
         | Some ts => if str_empty tenantID then None else checkPermission name ts tenantID
         | None => None
         end) with
  | Some e => (rate, w, Denied e)
  | None =>
      let allowed := stateStrSlice (ts_skill_allowed_tools st) in
      if negb (bool_decide (allowed = [])) && negb (containsStr allowed name) then (rate, w, Denied (DeniedCapability name))
      else
        match rate with
        | Some rl =>
            if str_empty tenantID then let '(w, o) := inner w in (rate, w, Ran o)
            else let '(rl, ok) := Allow tenantID now rl in
                 if ok then let '(w, o) := inner w in (Some rl, w, Ran o)
                 else (Some rl, w, Denied (DeniedRate tenantID))
        | None => let '(w, o) := inner w in (rate, w, Ran o)
        end
  end.

(** [wrapGuard]: without a store and a limiter, or when the tool is no function tool, the
    tool is used as it is. *)
Definition wrapGuard (name : string) (is_function : bool) (inner : Wd → Wd * Out) (deps : Deps)
    (st : tool_state) (now : time) (w : Wd) : option TenantRateLimiter * Wd * tool_answer :=
  match dp_tenants deps, dp_rate deps with
  | None, None => let '(w, o) := inner w in (dp_rate deps, w, Ran o)
  | _, _ => if is_function then guarded_Run name inner (dp_tenants deps) (dp_rate deps) st now w
            else let '(w, o) := inner w in (dp_rate deps, w, Ran o)
  end.

(** *** Specification *)

(** The tenant's configuration forbids the tool, as a list of strings or of dynamic values. *)
Definition forbids (tenant : Tenant) (name : string) : Prop :=
  name ∈ as_strs (jget "denied_tools" (tn_Config tenant)).

(** When the tool may run as far as the tenant and the skill go. *)
Definition permitted (name : string) (tenants : option T) (st : tool_state) : Prop :=
  let tenantID := as_str (ts_tenant_id st) in
  (∀ ts, tenants = Some ts → tenantID ≠ ""%string →
     tns_Get tenantID ts = Ok None ∨ ∃ tenant, tns_Get tenantID ts = Ok (Some tenant) ∧ ¬ forbids tenant name)
  ∧ (as_strs (ts_skill_allowed_tools st) = [] ∨ name ∈ as_strs (ts_skill_allowed_tools st)).

Lemma existsb_elem_of {A} `{EqDecision A} (l : list A) x : existsb (λ y, bool_decide (y = x)) l = true ↔ x ∈ l.
Proof.
  induction l as [|y l IH]; simpl; [split; [done|by intros ?%not_elem_of_nil]|].
  rewrite orb_true_iff, bool_decide_eq_true, IH, elem_of_cons. naive_solver.
Qed.

Lemma strs_of_existsb l name :
  existsb (λ d, match d with JStr s => bool_decide (s = name) | _ => false end) l = true ↔ name ∈ strs_of l.
Proof.
  unfold strs_of. rewrite existsb_exists, list_elem_of_omap. split.
  - intros (d & Hin%list_elem_of_In & Hd). exists d. split; [done|]. destruct d; try done. by apply bool_decide_eq_true in Hd as ->.
  - intros (d & Hin & Hd). exists d. split; [by apply list_elem_of_In|]. destruct d; simplify_eq. by apply bool_decide_eq_true.
Qed.

Lemma checkPermission_None name ts tenantID :
  checkPermission name ts tenantID = None ↔
  tns_Get tenantID ts = Ok None ∨ ∃ tenant, tns_Get tenantID ts = Ok (Some tenant) ∧ ¬ forbids tenant name.
Proof.
  unfold checkPermission, forbids. destruct (tns_Get tenantID ts) as [[tenant|]|e]; [|naive_solver..].
  assert (∀ b (P : Prop) e, (b = true ↔ P) → (if b then Some e else @None deny_error) = None ↔ ¬ P) as Hif
    by (intros [] P e HP; naive_solver).
  assert (∀ P : Prop, P ↔ (@Ok goerror _ (Some tenant) = Ok None ∨ ∃ t, @Ok goerror _ (Some tenant) = Ok (Some t) ∧ P)) as Hd
    by (naive_solver).
  destruct (jget "denied_tools" (tn_Config tenant)) as [[]|] eqn:Hj.
  all: transitivity (name ∉ as_strs (jget "denied_tools" (tn_Config tenant))); [rewrite Hj|naive_solver].
  all: cbn [as_strs]; try (split; [by intros _ ?%not_elem_of_nil|done]).
  - apply Hif, strs_of_existsb.
  - apply Hif, existsb_elem_of.
Qed.

(** C13: The tool runs if and only if the tenant may use it, the skill may use it, and a
    token is left; it is then given the world as it is and its answer returned.  Otherwise
    the world stays as it is.  A tenant that cannot be read is denied.  A token is taken
    only from the caller's bucket, and only when the call is permitted. *)
Theorem guarded_Run_spec name inner tenants rate st now w :
  let tenantID := as_str (ts_tenant_id st) in
  let token := match rate with
               | Some rl => if str_empty tenantID then true else (Allow tenantID now rl).2
               | None => true
               end in
  let '(rate', w', ans) := guarded_Run name inner tenants rate st now w in
  ((∃ o, ans = Ran o) ↔ permitted name tenants st ∧ token = true)
  ∧ (∀ o, ans = Ran o → inner w = (w', o))
  ∧ (∀ e, ans = Denied e → w' = w)
  ∧ (rate' = rate ∨ ∃ rl, rate = Some rl ∧ rate' = Some (Allow tenantID now rl).1 ∧ permitted name tenants st ∧ tenantID ≠ ""%string)
  ∧ (∀ ts e, tenants = Some ts → tenantID ≠ ""%string → tns_Get tenantID ts = Err e → ans = Denied (DeniedStore e)).
Proof.
  intros tenantID token.
  set (perm := match tenants with Some ts => if str_empty tenantID then None else checkPermission name ts tenantID | None => None end).
  assert (perm = None ↔ ∀ ts, tenants = Some ts → tenantID ≠ ""%string →
     tns_Get tenantID ts = Ok None ∨ ∃ tenant, tns_Get tenantID ts = Ok (Some tenant) ∧ ¬ forbids tenant name) as Hperm.
  { unfold perm. destruct tenants as [ts|]; [|naive_solver]. unfold str_empty. case_bool_decide as He; [naive_solver|].
    rewrite checkPermission_None. naive_solver. }
  assert (negb (bool_decide (as_strs (ts_skill_allowed_tools st) = [])) && negb (containsStr (as_strs (ts_skill_allowed_tools st)) name) = false
          ↔ as_strs (ts_skill_allowed_tools st) = [] ∨ name ∈ as_strs (ts_skill_allowed_tools st)) as Hcap.
  { rewrite andb_false_iff, !negb_false_iff, bool_decide_eq_true. unfold containsStr. by rewrite existsb_elem_of. }
  unfold guarded_Run. fold tenantID. fold perm. unfold stateStrSlice.
  destruct perm as [e|] eqn:Hp.
  { assert (¬ permitted name tenants st) as Hno by (intros [Hx _]; by apply Hperm in Hx).
    split_and!; [by split; [intros [o Ho]|intros [Hx _]]|done|done|by left|]. intros ts e' -> Hne Hget. unfold perm in Hp.
    unfold str_empty in Hp. rewrite bool_decide_false in Hp by done. unfold checkPermission in Hp. rewrite Hget in Hp.
    by injection Hp as <-. }
  assert (∀ ts e, tenants = Some ts → tenantID ≠ ""%string → tns_Get tenantID ts = Err e → False) as Hok.
  { intros ts e Ht Hne Hget. apply (proj1 Hperm eq_refl ts Ht) in Hne. destruct Hne as [?|(? & ? & _)]; congruence. }
  destruct (_ && _) eqn:Hc.
  { assert (¬ permitted name tenants st) as Hno.
    { intros [_ Hx]. apply Hcap in Hx. congruence. }
    split_and!; [by split; [intros [o Ho]|intros [Hx _]]|done|done|by left|]. intros ts e Ht Hne Hget. by destruct (Hok ts e). }
  assert (permitted name tenants st) as Hyes by (split; [by apply Hperm|by apply Hcap]).
  unfold token. destruct rate as [rl|].
  - destruct (str_empty tenantID) eqn:He.
    + destruct (inner w) as [w' o]. split_and!; [split; [done|by intros _; exists o]|by intros o' [= <-]|done|by left|]. intros ts e Ht Hne Hget. by destruct (Hok ts e).
    + destruct (Allow tenantID now rl) as [rl' ok] eqn:Ha. unfold str_empty in He. apply bool_decide_eq_false in He.
      destruct ok; [destruct (inner w) as [w' o]|].
      * split_and!; [split; [done|by intros _; exists o]|by intros o' [= <-]|done| |intros ts e Ht Hne Hget; by destruct (Hok ts e)].
        right. exists rl. by rewrite Ha.
      * split_and!; [by split; [intros [o Ho]|intros [_ Hx]]|done|done| |intros ts e Ht Hne Hget; by destruct (Hok ts e)].
        right. exists rl. by rewrite Ha.
  - destruct (inner w) as [w' o]. split_and!; [split; [done|by intros _; exists o]|by intros o' [= <-]|done|by left|]. intros ts e Ht Hne Hget. by destruct (Hok ts e).
Qed.
End guard.

Definition level_rank (l : Level) : Z := match l with LevelOK => 0 | LevelWarning => 1 | LevelCritical => 2 end.

(** In a window and with a count that are not negative, the guard's answer follows the
    tokens that are left: fewer than 4000 is critical, fewer than 8000 a warning; a larger
    count never gives a milder level. *)
Theorem Evaluate_levels w c c' :
  0 ≤ w ≤ max_int64 → 0 ≤ c ≤ c' → c' ≤ max_int64 →
  let r := Evaluate (NewContextWindowGuard w) c in
  er_Available r = w - c
  ∧ (er_Level r = LevelCritical ↔ w - c < 4000)
  ∧ (er_Level r = LevelWarning ↔ 4000 ≤ w - c < 8000)
  ∧ level_rank (er_Level r) ≤ level_rank (er_Level (Evaluate (NewContextWindowGuard w) c')).
Proof.
  intros Hw Hc Hc'. unfold Evaluate, NewContextWindowGuard, HardMinTokens, WarnBelowTokens. simpl.
  unfold max_int64 in *. rewrite !wrap64_id by (unfold min_int64, max_int64; lia).
  destruct (Z.ltb_spec (w - c) 4000), (Z.ltb_spec (w - c) 8000), (Z.ltb_spec (w - c') 4000), (Z.ltb_spec (w - c') 8000);
    simpl; split_and!; intros; try first [done|lia]; split; intros; first [done|exfalso; lia].
Qed.

(** A content passes exactly when each of its function responses has a name and data. *)
Theorem Protect_spec c :
  Protect (Some c) = None ↔
  ∀ p fr, p ∈ ct_Parts c → part_FunctionResponse p = Some fr → fr_Name fr ≠ ""%string ∧ is_Some (fr_Response fr).
Proof.
  simpl. induction (ct_Parts c) as [|p ps IH]; simpl.
  { split; [by intros _ ?? ?%not_elem_of_nil|done]. }
  unfold validateToolResult. destruct (part_FunctionResponse p) as [fr|] eqn:Hp.
  - unfold str_empty. case_bool_decide as Hn.
    { split; [done|]. intros Hall. destruct (Hall p fr) as [? _]; [by left|done|done]. }
    destruct (fr_Response fr) as [m|] eqn:Hr.
    + rewrite IH. split; [intros Hall p' fr' [->|Hin]%elem_of_cons Hfr|intros Hall p' fr' Hin Hfr].
      * assert (fr' = fr) as -> by congruence. by rewrite Hr.
      * by apply (Hall p').
      * apply (Hall p'); [by right|done].
    + split; [done|]. intros Hall. destruct (Hall p fr) as [_ [m Hm]]; [by left|done|congruence].
  - rewrite IH. split; [intros Hall p' fr' [->|Hin]%elem_of_cons Hfr|intros Hall p' fr' Hin Hfr].
    + congruence.
    + by apply (Hall p').
    + apply (Hall p'); [by right|done].
Qed.

Lemma Evaluate_levels_witness : er_Available (Evaluate (NewContextWindowGuard 10000) 7000) = 3000.
Proof. exact (proj1 (Evaluate_levels 10000 7000 7000 ltac:(unfold max_int64; lia) ltac:(lia) ltac:(unfold max_int64; lia))). Defined.

(** A denied tool is not run: the tenant's configuration lists it among dynamic values. *)
Example denied_tool_not_run :
  guarded_Run (H := {| tns_Get := λ id _, Ok (Some {| tn_TenantID := id; tn_Name := ""; tn_GroupID := "";
                         tn_Config := [("denied_tools"%string, JArr [JStr "exec"])]; tn_CreatedAt := 0 |});
                       tns_Put := λ _ s, (s, None); tns_List := λ _ _, Ok [] |})
    "exec" (λ n : nat, (S n, tt)) (Some tt) None {| ts_tenant_id := Some (JStr "t"); ts_skill_allowed_tools := None |} 0 5%nat
  = (None, 5%nat, Denied (DeniedTool "exec" "t")).
Proof. reflexivity. Qed.
