(* ===== verification/FileTools.v ===== *)
(** [pkg/tools/filesystem.go] and [docs.go]: the tools that read, write, edit, append and
    list files of a workspace, with the documents that live in a store as well.

    The file system is the class [FileSystem], of which [FileLaws] states what a process that
    has the files for itself relies on; the document stores are those of [Stores] and may be
    nil.  Paths are checked by [ValidatePath] of [PathGuard].  Texts of errors are kept
    apart by constructors; log lines and the JSON of the answers are left out. *)
From S2P Require Import Prelude GoStrings Types Stores Paths PathGuard.

(** ** Interfaces *)

Record dir_entry := { de_Name : string; de_IsDir : bool; de_Info : option Z (* the size, when [Info] succeeds *) }.

Class FileSystem (F : Type) := {
  fs_EvalSymlinks : F → string → option string;
  fs_Stat : string → F → result goerror Z;                 (* the size *)
  fs_ReadFile : string → F → result goerror string;
  fs_ReadDir : string → F → result goerror (list dir_entry);
  fs_MkdirAll : string → F → F * option goerror;
  fs_WriteFile : string → string → F → F * option goerror;
  fs_OpenAppend : string → F → F * option goerror;         (* creates the file *)
  fs_WriteString : string → string → F → F * option goerror;  (* at the end of the open file *)
}.

(** What the tools rely on: a file written can be read back, links lead to the same file, and
    creating files and directories changes neither links nor the content of other files. *)
Class FileLaws (F : Type) `{FileSystem F} := {
  write_read p c s s' : fs_WriteFile p c s = (s', None) →
    fs_ReadFile p s' = Ok c ∧ fs_Stat p s' = Ok (Z.of_nat (str_len c));
  write_links p c s s' q r : fs_WriteFile p c s = (s', None) → fs_EvalSymlinks s q = Some r → fs_EvalSymlinks s' q = Some r;
  mkdir_links p s s' q r : fs_MkdirAll p s = (s', None) → fs_EvalSymlinks s q = Some r → fs_EvalSymlinks s' q = Some r;
  link_same s q r : fs_EvalSymlinks s q = Some r → fs_ReadFile r s = fs_ReadFile q s ∧ fs_Stat r s = fs_Stat q s;
  mkdir_read p q s s' c : fs_MkdirAll q s = (s', None) → fs_ReadFile p s' = Ok c ↔ fs_ReadFile p s = Ok c;
  open_read p s s' : fs_OpenAppend p s = (s', None) →
    fs_ReadFile p s' = match fs_ReadFile p s with Ok c => Ok c | Err _ => Ok ""%string end;
  append_read p c c0 s s' : fs_ReadFile p s = Ok c0 → fs_WriteString p c s = (s', None) → fs_ReadFile p s' = Ok (c0 +:+ c);
}.

(** A document that was put is the one that is read. *)
Class DocLaws (W UW : Type) `{WorkspaceStore W} `{UserWorkspaceStore UW} := {
  ws_put_get doc s s' : ws_Put doc s = (s', None) →
    ∃ doc', ws_Get (wd_TenantID doc) (wd_DocType doc) s' = Ok (Some doc') ∧ wd_Content doc' = wd_Content doc;
  uws_put_get doc s s' : uws_Put doc s = (s', None) →
    ∃ doc', uws_Get (ud_TenantID doc) (ud_UserID doc) (ud_DocType doc) s' = Ok (Some doc') ∧ ud_Content doc' = ud_Content doc;
}.

(** ** The documents *)

Inductive doc_store := InWorkspace | InUser.

Definition docSyncMap : gmap string (string * doc_store) :=
  list_to_map [("IDENTITY.md", ("IDENTITY", InUser)); ("SOUL.md", ("SOUL", InUser)); ("RULES.md", ("RULES", InWorkspace));
               ("TOOLS.md", ("TOOLS", InWorkspace)); ("AGENT.md", ("AGENT", InUser)); ("HEARTBEAT.md", ("HEARTBEAT", InWorkspace));
               ("USER.md", ("USER", InUser)); ("EXPERIMENTS.md", ("EXPERIMENTS", InUser)); ("NOTES.md", ("NOTES", InUser))]%string.

Definition allowedDocTypes : list string := ["IDENTITY"; "SOUL"; "AGENT"; "USER"; "TOOLS"; "EXPERIMENTS"; "NOTES"]%string.
Definition IsAllowedDocType (dt : string) : bool := bool_decide (dt ∈ allowedDocTypes).

Definition personaFileMap : gmap string string :=
  list_to_map [("IDENTITY.md", "IDENTITY"); ("SOUL.md", "SOUL"); ("AGENT.md", "AGENT"); ("USER.md", "USER");
               ("TOOLS.md", "TOOLS"); ("EXPERIMENTS.md", "EXPERIMENTS"); ("NOTES.md", "NOTES")]%string.

Definition IsPersonaFile (filename : string) : bool := bool_decide (is_Some (personaFileMap !! filename)).
Definition FilenameToDocType (filename : string) : string := default ""%string (personaFileMap !! filename).
Definition DocTypeToFilename (docType : string) : string := docType +:+ ".md".

Section tools.
Context {F W UW : Type} `{FileSystem F} `{WorkspaceStore W} `{UserWorkspaceStore UW}.
Context (getwd : option string).

(** The files and the stores, and the fixed part of [Deps]. *)
Record world := { w_fs : F; w_ws : option W; w_uws : option UW }.
Record file_deps := { fd_WorkspaceDir : string; fd_AllowedPaths : list string }.

(** [tenant_id] and [user_id] of the session state. *)
Record tool_ctx := { tc_tenant : string; tc_user : string }.

Definition tenant_or_default (ctx : tool_ctx) : string := if str_empty (tc_tenant ctx) then DefaultTenantID else tc_tenant ctx.
Definition user_or_default (ctx : tool_ctx) : string := if str_empty (tc_user ctx) then DefaultUserID else tc_user ctx.

Definition with_fs (f : F) (w : world) : world := {| w_fs := f; w_ws := w_ws w; w_uws := w_uws w |}.
Definition with_ws (s : W) (w : world) : world := {| w_fs := w_fs w; w_ws := Some s; w_uws := w_uws w |}.
Definition with_uws (s : UW) (w : world) : world := {| w_fs := w_fs w; w_ws := w_ws w; w_uws := Some s |}.

Definition syncFileToStore (ctx : tool_ctx) (relPath content : string) (w : world) : world * option goerror :=
  match docSyncMap !! relPath with
  | None => (w, None)
  | Some (docType, InWorkspace) =>
      match w_ws w with
      | None => (w, None)
      | Some s => let '(s, err) := ws_Put {| wd_TenantID := tenant_or_default ctx; wd_DocType := docType;
                                             wd_Content := content; wd_Version := 1; wd_UpdatedAt := time_zero |} s in (with_ws s w, err)
      end
  | Some (docType, InUser) =>
      match w_uws w with
      | None => (w, None)
      | Some s => let '(s, err) := uws_Put {| ud_TenantID := tenant_or_default ctx; ud_UserID := user_or_default ctx;
                                              ud_DocType := docType; ud_Content := content; ud_Version := 1; ud_UpdatedAt := time_zero |} s in
                  (with_uws s w, err)
      end
  end.

(** The document of a store, when the store has one. *)
Definition stored_doc (ctx : tool_ctx) (info : string * doc_store) (w : world) : option string :=
  match info.2 with
  | InWorkspace => s ← w_ws w; match ws_Get (tenant_or_default ctx) info.1 s with
                               | Ok (Some doc) => Some (wd_Content doc) | _ => None end
  | InUser => s ← w_uws w; match uws_Get (tenant_or_default ctx) (user_or_default ctx) info.1 s with
                           | Ok (Some doc) => Some (ud_Content doc) | _ => None end
  end.

Inductive file_error :=
| FPath (e : path_error) | FStat (e : goerror) | FTooLarge (size : Z) | FRead (e : goerror) | FMkdir (e : goerror)
| FWrite (e : goerror) | FOpen (e : goerror) | FAppend (e : goerror) | FNotFound | FNotUnique (n : nat) | FReadDir (e : goerror)
| FDocType (dt : string) | FEmptyContent | FNoStore | FStore (e : goerror).

Definition wsDir (d : file_deps) (ctx : tool_ctx) : string := UserWorkspaceDir (fd_WorkspaceDir d) (tc_tenant ctx) (tc_user ctx).

Definition tool_path (d : file_deps) (ctx : tool_ctx) (path : string) (w : world) : result file_error string :=
  match ValidatePath getwd (fs_EvalSymlinks (w_fs w)) path (wsDir d ctx) (fd_AllowedPaths d) with
  | Ok p => Ok p
  | Err e => Err (FPath e)
  end.

Definition MaxReadFileSize : Z := 2 * 1024 * 1024.

(** ** The tools *)

(** The part of [read_file] that reads the file system. *)
Definition read_disk (d : file_deps) (ctx : tool_ctx) (path : string) (w : world) : result file_error string :=
  fullPath <-? tool_path d ctx path w;;
  match fs_Stat fullPath (w_fs w) with
  | Err e => Err (FStat e)
  | Ok size =>
      if MaxReadFileSize <? size then Err (FTooLarge size)
      else match fs_ReadFile fullPath (w_fs w) with
           | Ok data => Ok data
           | Err e => Err (FRead e)
           end
  end.

Definition read_file (d : file_deps) (ctx : tool_ctx) (path : string) (w : world) : result file_error string :=
  match (info ← docSyncMap !! path; stored_doc ctx info w) with
  | Some content => Ok content
  | None => read_disk d ctx path w
  end.

(** The answer of a tool that changes a file: the number of bytes, or nothing. *)
Definition write_file (d : file_deps) (ctx : tool_ctx) (path content : string) (w : world) : world * result file_error nat :=
  match tool_path d ctx path w with
  | Err e => (w, Err e)
  | Ok fullPath =>
      let '(fs, err) := fs_MkdirAll (Dir fullPath) (w_fs w) in
      match err with
      | Some e => (with_fs fs w, Err (FMkdir e))
      | None =>
          let '(fs, err) := fs_WriteFile fullPath content fs in
          match err with
          | Some e => (with_fs fs w, Err (FWrite e))
          | None => ((syncFileToStore ctx path content (with_fs fs w)).1, Ok (str_len content))
          end
      end
  end.

Definition edit_file (d : file_deps) (ctx : tool_ctx) (path oldText newText : string) (w : world)
    : world * result file_error unit :=
  match tool_path d ctx path w with
  | Err e => (w, Err e)
  | Ok fullPath =>
      match fs_ReadFile fullPath (w_fs w) with
      | Err e => (w, Err (FRead e))
      | Ok content =>
          let n := count content oldText in
          if (n =? 0)%nat then (w, Err FNotFound)
          else if (1 <? n)%nat then (w, Err (FNotUnique n))
          else
            let newContent := replace_first content oldText newText in
            let '(fs, err) := fs_WriteFile fullPath newContent (w_fs w) in
            match err with
            | Some e => (with_fs fs w, Err (FWrite e))
            | None => ((syncFileToStore ctx path newContent (with_fs fs w)).1, Ok tt)
            end
      end
  end.

(** The end of [append_file]: the whole file is given to the store when it can be read. *)
Definition sync_appended (ctx : tool_ctx) (path fullPath : string) (w : world) : world :=
  match fs_ReadFile fullPath (w_fs w) with
  | Ok final => (syncFileToStore ctx path final w).1
  | Err _ => w
  end.

Definition append_file (d : file_deps) (ctx : tool_ctx) (path content : string) (w : world) : world * result file_error nat :=
  match tool_path d ctx path w with
  | Err e => (w, Err e)
  | Ok fullPath =>
      let '(fs, err) := fs_MkdirAll (Dir fullPath) (w_fs w) in
      match err with
      | Some e => (with_fs fs w, Err (FMkdir e))
      | None =>
          let '(fs, err) := fs_OpenAppend fullPath fs in
          match err with
          | Some e => (with_fs fs w, Err (FOpen e))
          | None =>
              let '(fs, err) := fs_WriteString fullPath content fs in
              match err with
              | Some e => (with_fs fs w, Err (FAppend e))
              | None => (sync_appended ctx path fullPath (with_fs fs w), Ok (str_len content))
              end
          end
      end
  end.

Record listDirEntry := { ld_Name : string; ld_IsDir : bool; ld_Size : Z }.

Definition disk_entry (e : dir_entry) : listDirEntry :=
  {| ld_Name := de_Name e; ld_IsDir := de_IsDir e; ld_Size := default 0 (de_Info e) |}.

(** One document of the loop over [docSyncMap]. *)
Definition virtual_entry (ctx : tool_ctx) (w : world) (existing : list string) (doc : string * (string * doc_store)) : option listDirEntry :=
  if bool_decide (doc.1 ∈ existing) then None
  else
    let content := default ""%string (stored_doc ctx doc.2 w) in
    if str_empty content then None
    else Some {| ld_Name := doc.1; ld_IsDir := false; ld_Size := Z.of_nat (str_len content) |}.

(** [order] is the order in which Go ranges over [docSyncMap]. *)
Definition list_dir (d : file_deps) (ctx : tool_ctx) (order : list (string * (string * doc_store))) (path : string) (w : world)
    : result file_error (list listDirEntry) :=
  let dirPath := if str_empty path then "."%string else path in
  fullPath <-? tool_path d ctx dirPath w;;
  match fs_ReadDir fullPath (w_fs w) with
  | Err e => Err (FReadDir e)
  | Ok entries =>
      Ok ((disk_entry <$> entries)
          ++ if str_empty path || bool_decide (path = "."%string)
             then omap (virtual_entry ctx w (de_Name <$> entries)) order else [])
  end.

(** docs.go *)
Definition update_doc (ctx : tool_ctx) (docType content : string) (w : world) : world * result file_error unit :=
  if negb (IsAllowedDocType docType) then (w, Err (FDocType docType))
  else if str_empty content then (w, Err FEmptyContent)
  else match w_uws w with
       | None => (w, Err FNoStore)
       | Some s =>
           let '(s, err) := uws_Put {| ud_TenantID := tenant_or_default ctx; ud_UserID := user_or_default ctx;
                                       ud_DocType := docType; ud_Content := content; ud_Version := 1; ud_UpdatedAt := time_zero |} s in
           (with_uws s w, match err with Some e => Err (FStore e) | None => Ok tt end)
       end.
End tools.

(** ** Lemmas *)

Section lemmas.
Context {F W UW : Type} `{FL : FileLaws F} `{DL : DocLaws W UW}.
Context (getwd : option string).

Abbreviation world := (@world F W UW).
Abbreviation tool_path := (tool_path getwd).

Lemma sync_fs ctx path content (w : world) : w_fs (syncFileToStore ctx path content w).1 = w_fs w.
Proof.
  unfold syncFileToStore. destruct (docSyncMap !! path) as [[dt []]|]; [| |done].
  - destruct (w_ws w) as [s|]; [|done]. by destruct (ws_Put _ s).
  - destruct (w_uws w) as [s|]; [|done]. by destruct (uws_Put _ s).
Qed.

(** Whether a store stands behind a document. *)
Definition has_store (info : string * doc_store) (w : world) : Prop :=
  match info.2 with InWorkspace => is_Some (w_ws w) | InUser => is_Some (w_uws w) end.

Lemma sync_stored ctx path content (w : world) info :
  docSyncMap !! path = Some info → has_store info w → (syncFileToStore ctx path content w).2 = None →
  stored_doc ctx info (syncFileToStore ctx path content w).1 = Some content.
Proof.
  destruct info as [dt st]. unfold syncFileToStore, stored_doc, has_store. simpl. intros -> Hst.
  destruct st, Hst as [s Hs]; rewrite Hs.
  - destruct (ws_Put _ s) as [s' err] eqn:Hp. simpl. intros ->.
    apply ws_put_get in Hp as (doc & Hg & Hc). simpl in Hg, Hc. by rewrite Hg, Hc.
  - destruct (uws_Put _ s) as [s' err] eqn:Hp. simpl. intros ->.
    apply uws_put_get in Hp as (doc & Hg & Hc). simpl in Hg, Hc. by rewrite Hg, Hc.
Qed.

Lemma sync_no_store ctx path content (w : world) info :
  docSyncMap !! path = Some info → ¬ has_store info w →
  stored_doc ctx info (syncFileToStore ctx path content w).1 = None.
Proof.
  destruct info as [dt st]. unfold syncFileToStore, stored_doc, has_store. simpl. intros -> Hst.
  destruct st; [destruct (w_ws w) as [s|] eqn:Hs|destruct (w_uws w) as [s|] eqn:Hs]; try by destruct Hst.
  - simpl. by rewrite Hs.
  - simpl. by rewrite Hs.
Qed.

(** The outcome of [sync] does not look at the files. *)
Lemma sync_with_fs ctx path content f (w : world) :
  (syncFileToStore ctx path content (with_fs f w)).2 = (syncFileToStore ctx path content w).2.
Proof.
  unfold syncFileToStore. destruct (docSyncMap !! path) as [[dt []]|]; [| |done]; simpl.
  - destruct (w_ws w) as [s|]; [|done]. by destruct (ws_Put _ s).
  - destruct (w_uws w) as [s|]; [|done]. by destruct (uws_Put _ s).
Qed.

(** A path that is accepted again once the file has been written names the same file. *)
Lemma tool_path_same d ctx path (w w' : world) p p' :
  tool_path d ctx path w = Ok p → tool_path d ctx path w' = Ok p' →
  (∀ q r, fs_EvalSymlinks (w_fs w) q = Some r → fs_EvalSymlinks (w_fs w') q = Some r) →
  p' = p ∨ fs_EvalSymlinks (w_fs w') p = Some p'.
Proof.
  unfold FileTools.tool_path, ValidatePath. destruct (str_empty _); [done|].
  destruct (Abs getwd _) as [aws|]; [|done]. set (fp := full_path path aws).
  destruct (negb (inside getwd fp aws _)); [done|]. intros Hp Hp' Hlinks.
  destruct (fs_EvalSymlinks (w_fs w) fp) as [r|] eqn:Hr.
  - rewrite (Hlinks _ _ Hr) in Hp'. destruct (negb _); [done|]. left. congruence.
  - assert (p = fp) as -> by (destruct (fs_EvalSymlinks (w_fs w) (Dir fp)) as [r|]; [destruct (negb _)|]; congruence).
    destruct (fs_EvalSymlinks (w_fs w') fp) as [r'|] eqn:Hr'.
    + destruct (negb _); [done|]. right. congruence.
    + left. destruct (fs_EvalSymlinks (w_fs w') (Dir fp)) as [r|]; [destruct (negb _)|]; congruence.
Qed.

Lemma read_disk_written d ctx path (w w' : world) p c :
  tool_path d ctx path w = Ok p →
  (∀ q r, fs_EvalSymlinks (w_fs w) q = Some r → fs_EvalSymlinks (w_fs w') q = Some r) →
  fs_ReadFile p (w_fs w') = Ok c → fs_Stat p (w_fs w') = Ok (Z.of_nat (str_len c)) →
  read_disk getwd d ctx path w' = Ok c
  ∨ read_disk getwd d ctx path w' = Err (FTooLarge (Z.of_nat (str_len c))) ∧ MaxReadFileSize < Z.of_nat (str_len c)
  ∨ ∃ e, read_disk getwd d ctx path w' = Err (FPath e).
Proof.
  intros Hp Hlinks Hread Hstat. unfold read_disk. destruct (tool_path d ctx path w') as [p'|e] eqn:Hp'; simpl.
  - assert (fs_ReadFile p' (w_fs w') = Ok c ∧ fs_Stat p' (w_fs w') = Ok (Z.of_nat (str_len c))) as [-> ->].
    { destruct (tool_path_same d ctx path w w' p p' Hp Hp' Hlinks) as [->|Hl]; [done|].
      apply link_same in Hl as [-> ->]. done. }
    destruct (Z.ltb_spec MaxReadFileSize (Z.of_nat (str_len c))); [right; left; done|by left].
  - right. right. unfold FileTools.tool_path in Hp'. destruct (ValidatePath _ _ _ _ _) as [|e']; simplify_eq. by exists e'.
Qed.

(** *** Counting and replacing *)

Lemma count_from_skip skip old l : count_from skip old l = count_from 0 old (drop skip l).
Proof.
  revert skip. induction l as [|c l IH]; intros [|skip]; [done..|]. cbn [drop]. rewrite <- IH. done.
Qed.

Lemma count_from_zero old l : old ≠ [] → count_from 0 old l = 0%nat ↔ contains_bytes l old = false.
Proof.
  intros Hne. induction l as [|c l IH]; [by destruct old|]. cbn [count_from contains_bytes].
  destruct (strip_prefix old (c :: l)); [done|exact IH].
Qed.

Lemma count_zero s old : count s old = 0%nat ↔ old ≠ ""%string ∧ contains s old = false.
Proof.
  unfold count, str_empty. case_bool_decide as Ho; [naive_solver|].
  assert (s2l old ≠ []) as Hne by (intros Hx; apply Ho; apply (inj s2l); by rewrite Hx).
  rewrite count_from_zero by done. unfold contains. naive_solver.
Qed.

(** A text that occurs: the first match, and no match that overlaps or follows when it is
    counted once. *)
Lemma count_from_one old l :
  old ≠ [] → count_from 0 old l = 1%nat →
  ∃ i b, index_bytes l old = Some i ∧ l = take i l ++ old ++ b ∧ contains_bytes b old = false.
Proof.
  intros Hne. induction l as [|c l IH]; [done|]. cbn [count_from index_bytes].
  destruct (strip_prefix old (c :: l)) as [k|] eqn:Hs.
  - apply strip_prefix_Some in Hs. intros [= Hc]. exists 0%nat, k. split; [done|]. split; [exact Hs|].
    apply count_from_zero; [done|]. rewrite count_from_skip in Hc.
    destruct old as [|d old]; [done|]. injection Hs as -> ->. simpl in Hc. rewrite Nat.sub_0_r, drop_app_length in Hc. done.
  - intros Hc. destruct (IH Hc) as (i & b & -> & Hl & Hb). exists (S i), b. split; [done|]. split; [|done].
    cbn [take app]. f_equal. exact Hl.
Qed.

(** [strings.Count] of a text that occurs once. *)
Lemma count_one s old :
  count s old = 1%nat →
  (s = "" ∧ old = "")%string
  ∨ old ≠ ""%string ∧ ∃ a b, s = a +:+ old +:+ b ∧ contains b old = false
      ∧ ∀ new, replace_first s old new = a +:+ new +:+ b.
Proof.
  unfold count. unfold str_empty. case_bool_decide as Ho.
  - intros [= Hc]. left. split; [|done]. unfold rune_count in Hc. destruct (s2l s) as [|c l] eqn:Hs; [|done].
    apply (inj s2l). by rewrite Hs.
  - intros Hc. right. split; [done|].
    assert (s2l old ≠ []) as Hne by (intros Hx; apply Ho; apply (inj s2l); by rewrite Hx).
    destruct (count_from_one (s2l old) (s2l s) Hne Hc) as (i & b & Hi & Hl & Hb).
    exists (l2s (take i (s2l s))), (l2s b). split_and!.
    + apply (inj s2l). autorewrite with abot_str. exact Hl.
    + unfold contains. by rewrite s2l_l2s.
    + intros new. unfold replace_first, index. rewrite Hi. apply (inj s2l). autorewrite with abot_str. f_equal. f_equal.
      assert (length (take i (s2l s)) = i) as Hlen.
      { rewrite length_take. assert (i ≤ length (s2l s))%nat; [|lia].
        clear -Hi. revert i Hi. induction (s2l s) as [|c l IH]; intros i; cbn [index_bytes].
        - destruct (strip_prefix _ []); [|done]. intros [= <-]. simpl. lia.
        - destruct (strip_prefix _ (c :: l)); [intros [= <-]; simpl; lia|].
          destruct (index_bytes l (s2l old)) as [j|]; [|done]. intros [= <-]. specialize (IH j eq_refl). simpl. lia. }
      rewrite Hl at 1. unfold str_len. rewrite <- Hlen at 1. rewrite app_assoc, <- length_app, drop_app_length. done.
Qed.

(** What [write_file] wrote, [read_file] reads: the content comes back, from the store or
    the disk, when the store took it too; a file that is too large or whose path now leads
    out of the workspace is refused. *)
Theorem write_then_read d ctx path content (w w' : world) n :
  write_file getwd d ctx path content w = (w', Ok n) → (syncFileToStore ctx path content w).2 = None →
  n = str_len content
  ∧ (read_file getwd d ctx path w' = Ok content
     ∨ read_file getwd d ctx path w' = Err (FTooLarge (Z.of_nat (str_len content))) ∧ MaxReadFileSize < Z.of_nat (str_len content)
     ∨ ∃ e, read_file getwd d ctx path w' = Err (FPath e)).
Proof.
  unfold write_file. destruct (tool_path d ctx path w) as [p|] eqn:Hp; [|done].
  destruct (fs_MkdirAll (Dir p) (w_fs w)) as [f1 [e|]] eqn:Hmk; [done|].
  destruct (fs_WriteFile p content f1) as [f2 [e|]] eqn:Hwr; [done|]. intros [= <- <-] Hsync. split; [done|].
  set (w1 := (syncFileToStore ctx path content (with_fs f2 w)).1).
  rewrite <- (sync_with_fs ctx path content f2) in Hsync.
  assert (w_fs w1 = f2) as Hfs by apply sync_fs.
  assert (read_disk getwd d ctx path w1 = Ok content
     ∨ read_disk getwd d ctx path w1 = Err (FTooLarge (Z.of_nat (str_len content))) ∧ MaxReadFileSize < Z.of_nat (str_len content)
     ∨ ∃ e, read_disk getwd d ctx path w1 = Err (FPath e)) as Hdisk.
  { apply write_read in Hwr as Hrd. destruct Hrd as [Hr Hs].
    apply (read_disk_written d ctx path w w1 p content Hp); rewrite Hfs; [|done|done].
    intros q r Hq. eapply write_links; [exact Hwr|]. by eapply mkdir_links. }
  unfold read_file. destruct (docSyncMap !! path) as [info|] eqn:Hdoc; simpl; [|exact Hdisk].
  assert (has_store info (with_fs f2 w) ∨ ¬ has_store info (with_fs f2 w)) as [Hst|Hst].
  { destruct info as [dt []]; unfold has_store; simpl; [destruct (w_ws w)|destruct (w_uws w)];
      try (left; by eexists); right; by intros [? ?]. }
  - unfold w1. rewrite (sync_stored ctx path content _ info Hdoc Hst Hsync). by left.
  - unfold w1. rewrite (sync_no_store ctx path content _ info Hdoc Hst). exact Hdisk.
Qed.

(** [edit_file] replaces the first occurrence in the file on the disk and only when no
    occurrence follows it that does not overlap it; the empty text is replaced in an empty
    file only.  The store of a document receives the edited file whatever it held before.
    On an error nothing changes, except by a failed write. *)
Theorem edit_file_spec d ctx path old new (w w' : world) r :
  edit_file getwd d ctx path old new w = (w', r) →
  match r with
  | Ok _ => ∃ p content a b, tool_path d ctx path w = Ok p ∧ fs_ReadFile p (w_fs w) = Ok content
      ∧ content = a +:+ old +:+ b ∧ (old = ""%string → content = ""%string) ∧ (old ≠ ""%string → contains b old = false)
      ∧ fs_ReadFile p (w_fs w') = Ok (a +:+ new +:+ b)
      ∧ ∀ info, docSyncMap !! path = Some info → has_store info w →
          (syncFileToStore ctx path (a +:+ new +:+ b) w).2 = None → stored_doc ctx info w' = Some (a +:+ new +:+ b)
  | Err FNotFound => w' = w ∧ old ≠ ""%string
      ∧ ∃ p content, tool_path d ctx path w = Ok p ∧ fs_ReadFile p (w_fs w) = Ok content ∧ contains content old = false
  | Err (FWrite _) => True
  | Err _ => w' = w
  end.
Proof.
  unfold edit_file. destruct (tool_path d ctx path w) as [p|e] eqn:Hp.
  2:{ intros [= <- <-]. unfold FileTools.tool_path in Hp. destruct (ValidatePath _ _ _ _ _); by simplify_eq. }
  destruct (fs_ReadFile p (w_fs w)) as [content|e] eqn:Hr; [|by intros [= <- <-]].
  destruct (Nat.eqb_spec (count content old) 0) as [Hz|Hz].
  { intros [= <- <-]. apply count_zero in Hz as [Hne Hc]. eauto 10. }
  destruct (Nat.ltb_spec 1 (count content old)) as [Hm|Hm]; [by intros [= <- <-]|].
  destruct (fs_WriteFile _ _ _) as [f [e|]] eqn:Hwr; intros [= <- <-]; [done|].
  assert (count content old = 1%nat) as Hone by lia. apply count_one in Hone.
  assert (∃ a b, content = a +:+ old +:+ b ∧ (old = ""%string → content = ""%string) ∧ (old ≠ ""%string → contains b old = false)
            ∧ replace_first content old new = a +:+ new +:+ b) as (a & b & Hab & Hemp & Hb & Hrep).
  { destruct Hone as [[-> ->]|(Hne & a & b & Hab & Hb & Hrep)].
    - exists ""%string, ""%string. split_and!; [done..|]. apply (inj s2l). unfold replace_first. simpl. by autorewrite with abot_str.
    - exists a, b. split_and!; [done|by intros ?|done|apply Hrep]. }
  rewrite Hrep in Hwr |- *. apply write_read in Hwr as [Hrd _].
  exists p, content, a, b. split_and!; [done..| |].
  - by rewrite sync_fs.
  - intros info Hdoc Hst Hsync. apply sync_stored; [done| |by rewrite sync_with_fs].
    unfold has_store in *. by destruct info as [dt []].
Qed.

(** The content of a file, an absent one counting as empty. *)
Definition disk_before (p : string) (w : world) : string :=
  match fs_ReadFile p (w_fs w) with Ok c => c | Err _ => ""%string end.

(** [append_file] adds to the file on the disk, an absent one counting as empty, and
    gives the whole file to the store of a document whatever the store held before. *)
Theorem append_file_spec d ctx path content (w w' : world) n :
  append_file getwd d ctx path content w = (w', Ok n) →
  ∃ p, tool_path d ctx path w = Ok p ∧ n = str_len content
    ∧ fs_ReadFile p (w_fs w') = Ok (disk_before p w +:+ content)
    ∧ ∀ info, docSyncMap !! path = Some info → has_store info w →
        (syncFileToStore ctx path (disk_before p w +:+ content) w).2 = None →
        stored_doc ctx info w' = Some (disk_before p w +:+ content).
Proof.
  unfold append_file. destruct (tool_path d ctx path w) as [p|] eqn:Hp; [|done].
  destruct (fs_MkdirAll (Dir p) (w_fs w)) as [f1 [e|]] eqn:Hmk; [done|].
  destruct (fs_OpenAppend p f1) as [f2 [e|]] eqn:Hop; [done|].
  destruct (fs_WriteString p content f2) as [f3 [e|]] eqn:Hwr; [done|]. intros [= <- <-].
  exists p. split; [done|]. split; [done|].
  assert (fs_ReadFile p f2 = Ok (disk_before p w)) as Hb.
  { rewrite (open_read p f1 f2 Hop). unfold disk_before. destruct (fs_ReadFile p (w_fs w)) as [c|] eqn:Hc.
    - by rewrite (proj2 (mkdir_read p (Dir p) (w_fs w) f1 c Hmk) Hc).
    - destruct (fs_ReadFile p f1) as [c|] eqn:Hc1; [|done]. apply (mkdir_read p _ _ _ _ Hmk) in Hc1. congruence. }
  pose proof (append_read p content (disk_before p w) f2 f3 Hb Hwr) as Hall.
  assert (sync_appended ctx path p (with_fs f3 w) = (syncFileToStore ctx path (disk_before p w +:+ content) (with_fs f3 w)).1) as ->.
  { unfold sync_appended. simpl. by rewrite Hall. }
  split; [by rewrite sync_fs|]. intros info Hdoc Hst Hsync.
  apply sync_stored; [done| |by rewrite sync_with_fs]. unfold has_store in *. by destruct info as [dt []].
Qed.

(** A listing holds every entry of the directory and, at the root, the documents of the
    stores that have content and no file of their name; no name is listed twice. *)
Theorem list_dir_names d ctx order path (w : world) es :
  order ≡ₚ map_to_list docSyncMap →
  (∀ p l, fs_ReadDir p (w_fs w) = Ok l → NoDup (de_Name <$> l)) →
  list_dir getwd d ctx order path w = Ok es →
  NoDup (ld_Name <$> es)
  ∧ ∃ p l, tool_path d ctx (if str_empty path then "."%string else path) w = Ok p ∧ fs_ReadDir p (w_fs w) = Ok l
      ∧ ∀ name, name ∈ ld_Name <$> es ↔
          name ∈ de_Name <$> l
          ∨ (path = ""%string ∨ path = "."%string) ∧ (name ∉ de_Name <$> l)
            ∧ ∃ info c, docSyncMap !! name = Some info ∧ stored_doc ctx info w = Some c ∧ c ≠ ""%string.
Proof.
  intros Horder Hnodup. unfold list_dir. destruct (tool_path d ctx _ w) as [p|] eqn:Hp; [|done]. simpl.
  destruct (fs_ReadDir p (w_fs w)) as [l|] eqn:Hl; [|done]. intros [= <-].
  specialize (Hnodup p l Hl). rewrite fmap_app.
  assert (ld_Name <$> (disk_entry <$> l) = de_Name <$> l) as -> by by rewrite <- list_fmap_compose.
  assert (∀ doc e, virtual_entry ctx w (de_Name <$> l) doc = Some e →
            ld_Name e = doc.1 ∧ (doc.1 ∉ de_Name <$> l) ∧ ∃ c, stored_doc ctx doc.2 w = Some c ∧ c ≠ ""%string) as Hv.
  { intros [name info] e. unfold virtual_entry. case_bool_decide; [done|].
    destruct (stored_doc ctx _ w) as [c|]; simpl; [|done]. unfold str_empty. case_bool_decide; [done|]. intros [= <-]. eauto. }
  assert (NoDup order.*1) as Hord by (rewrite Horder; apply NoDup_fst_map_to_list).
  assert (∀ e, e ∈ omap (virtual_entry ctx w (de_Name <$> l)) order → ld_Name e ∈ order.*1 ∧ ld_Name e ∉ de_Name <$> l) as Hin.
  { intros e (doc & Hd & He)%list_elem_of_omap. destruct (Hv doc e He) as (-> & Hni & _). split; [|done].
    by apply list_elem_of_fmap_2. }
  split.
  - apply NoDup_app. split; [done|].
    destruct (str_empty path || _); [|split; [by intros ? _ ?%not_elem_of_nil|constructor]]. split.
    + intros x Hx (e & -> & He)%list_elem_of_fmap. by apply Hin in He as [_ ?].
    + clear Hin Horder. induction order as [|doc order IH]; [constructor|]. cbn [omap list_omap].
      rewrite fmap_cons in Hord. apply NoDup_cons in Hord as [Hnot Hord].
      destruct (virtual_entry ctx w (de_Name <$> l) doc) as [e|] eqn:He; [|by apply IH].
      rewrite fmap_cons. apply NoDup_cons. split; [|by apply IH]. destruct (Hv doc e He) as (-> & _).
      intros (e' & Heq & (doc' & Hd' & He')%list_elem_of_omap)%list_elem_of_fmap. destruct (Hv doc' e' He') as (Hn' & _).
      apply Hnot. rewrite Heq, Hn'. by apply list_elem_of_fmap_2.
  - exists p, l. split; [done|]. split; [done|]. intros name. rewrite elem_of_app.
    assert (str_empty path || bool_decide (path = "."%string) = true ↔ path = ""%string ∨ path = "."%string) as Hroot.
    { unfold str_empty. by rewrite orb_true_iff, !bool_decide_eq_true. }
    destruct (str_empty path || _).
    + split; [intros [?|(e & -> & (doc & Hd & He)%list_elem_of_omap)%list_elem_of_fmap]; [by left|right]|].
      * destruct (Hv doc e He) as (-> & Hni & c & Hc & Hne). split; [by apply Hroot|]. split; [done|].
        exists doc.2, c. split; [|done]. rewrite Horder in Hd. destruct doc as [k i]. by apply elem_of_map_to_list in Hd.
      * intros [?|(_ & Hni & info & c & Hi & Hc & Hne)]; [by left|right]. apply list_elem_of_fmap.
        exists {| ld_Name := name; ld_IsDir := false; ld_Size := Z.of_nat (str_len c) |}. split; [done|].
        apply list_elem_of_omap. exists (name, info). split; [rewrite Horder; by apply elem_of_map_to_list|].
        unfold virtual_entry. simpl. rewrite bool_decide_false, Hc by done. simpl. unfold str_empty. by rewrite bool_decide_false.
    + split; [intros [?|?%not_elem_of_nil]; [by left|done]|]. intros [?|(Hr & _)]; [by left|]. apply Hroot in Hr. done.
Qed.
End lemmas.

(** ** Witnesses

    Files and documents in memory, without links. *)

Abbreviation mem_files := (gmap string string).

#[local] Instance mem_fs : FileSystem mem_files := {
  fs_EvalSymlinks := λ s p, match s !! p with Some _ => Some p | None => None end;
  fs_Stat := λ p s, match s !! p with Some c => Ok (Z.of_nat (str_len c)) | None => Err (ErrText "no such file") end;
  fs_ReadFile := λ p s, match s !! p with Some c => Ok c | None => Err (ErrText "no such file") end;
  fs_ReadDir := λ _ s, Ok ((λ kv, {| de_Name := kv.1; de_IsDir := false; de_Info := Some (Z.of_nat (str_len kv.2)) |}) <$> map_to_list s);
  fs_MkdirAll := λ _ s, (s, None);
  fs_WriteFile := λ p c s, (<[p := c]> s, None);
  fs_OpenAppend := λ p s, (match s !! p with Some _ => s | None => <[p := ""%string]> s end, None);
  fs_WriteString := λ p x s, (match s !! p with Some c => <[p := c +:+ x]> s | None => s end, None);
}.

#[local] Instance mem_fs_laws : FileLaws mem_files.
Proof.
  split; simpl.
  - intros p c s s' [= <-]. by rewrite lookup_insert_eq.
  - intros p c s s' q r [= <-] Hq. destruct (s !! q) as [x|] eqn:Hx; simplify_eq.
    destruct (decide (p = r)) as [->|Hne]; [by rewrite lookup_insert_eq|by rewrite lookup_insert_ne, Hx].
  - by intros p s s' q r [= <-].
  - intros s q r Hq. destruct (s !! q) as [x|] eqn:Hx; [injection Hq as <-; by rewrite Hx|done].
  - by intros p q s s' c [= <-].
  - intros p s s' [= <-]. destruct (s !! p) as [c|] eqn:Hc; [by rewrite Hc|by rewrite lookup_insert_eq].
  - intros p c c0 s s' Hr [= <-]. destruct (s !! p) as [c1|] eqn:Hc; [|done]. injection Hr as ->. by rewrite lookup_insert_eq.
Qed.

Abbreviation mem_docs := (gmap (string * string) WorkspaceDoc).
Abbreviation mem_user_docs := (gmap (string * string * string) UserWorkspaceDoc).

#[local] Instance mem_docs_store : WorkspaceStore mem_docs := {
  ws_Get := λ t d s, Ok (s !! (t, d));
  ws_Put := λ doc s, (<[(wd_TenantID doc, wd_DocType doc) := doc]> s, None);
}.
#[local] Instance mem_user_docs_store : UserWorkspaceStore mem_user_docs := {
  uws_Get := λ t u d s, Ok (s !! (t, u, d));
  uws_Put := λ doc s, (<[(ud_TenantID doc, ud_UserID doc, ud_DocType doc) := doc]> s, None);
}.
#[local] Instance mem_doc_laws : DocLaws mem_docs mem_user_docs.
Proof.
  split; simpl.
  - intros doc s s' [= <-]. exists doc. by rewrite lookup_insert_eq.
  - intros doc s s' [= <-]. exists doc. by rewrite lookup_insert_eq.
Qed.

Definition w_deps : file_deps := {| fd_WorkspaceDir := "/ws"; fd_AllowedPaths := [] |}.
Definition w_ctx : tool_ctx := {| tc_tenant := ""; tc_user := "" |}.

(** The user's SOUL document is in the store, not on the disk. *)
Definition w_world : @world mem_files mem_docs mem_user_docs :=
  {| w_fs := ∅; w_ws := Some ∅;
     w_uws := Some {[ ("default", "user", "SOUL")%string :=
       {| ud_TenantID := "default"; ud_UserID := "user"; ud_DocType := "SOUL"; ud_Content := "soul"; ud_Version := 1; ud_UpdatedAt := time_zero |} ]} |}.

Definition w_written : @world mem_files mem_docs mem_user_docs := (write_file None w_deps w_ctx "notes/a.md" "text" w_world).1.

Lemma write_then_read_witness : read_file None w_deps w_ctx "notes/a.md" w_written = Ok "text"%string.
Proof.
  assert (write_file None w_deps w_ctx "notes/a.md" "text" w_world = (w_written, Ok 4%nat)) as Hw by (apply run_of_answer; vm_compute; reflexivity).
  destruct (write_then_read None w_deps w_ctx "notes/a.md" "text" w_world w_written 4 Hw eq_refl) as [_ [H|[[_ H]|[e H]]]].
  - exact H.
  - exfalso. clear -H. vm_compute in H. discriminate.
  - exfalso. assert (read_file None w_deps w_ctx "notes/a.md" w_written = Ok "text"%string) as Hr by (vm_compute; reflexivity). congruence.
Defined.

Definition w_files : mem_files := {[ "/ws/a.md"%string := "aXb"%string ]}.
Definition w_edit : @world mem_files mem_docs mem_user_docs := with_fs w_files w_world.
Definition w_edited : @world mem_files mem_docs mem_user_docs := (edit_file None w_deps w_ctx "a.md" "X" "Y" w_edit).1.

Lemma edit_file_spec_witness :
  ∃ p content a b, tool_path None w_deps w_ctx "a.md" w_edit = Ok p
    ∧ fs_ReadFile p (w_fs w_edit) = Ok content ∧ content = a +:+ "X" +:+ b.
Proof.
  assert (edit_file None w_deps w_ctx "a.md" "X" "Y" w_edit = (w_edited, Ok tt)) as He by (apply run_of_answer; vm_compute; reflexivity).
  destruct (edit_file_spec None w_deps w_ctx "a.md" "X" "Y" w_edit w_edited (Ok tt) He) as (p & content & a & b & Hp & Hc & Hab & _).
  exists p, content, a, b. split; [exact Hp|]. split; [exact Hc|exact Hab].
Defined.

(** Appending to a document that only the store has replaces it by the appended text. *)
Definition w_appended : @world mem_files mem_docs mem_user_docs := (append_file None w_deps w_ctx "SOUL.md" "more" w_world).1.

Lemma append_file_spec_witness :
  stored_doc w_ctx ("SOUL"%string, InUser) w_world = Some "soul"%string
  ∧ stored_doc w_ctx ("SOUL"%string, InUser) w_appended = Some "more"%string.
Proof.
  split; [vm_compute; reflexivity|].
  assert (append_file None w_deps w_ctx "SOUL.md" "more" w_world = (w_appended, Ok 4%nat)) as Ha by (apply run_of_answer; vm_compute; reflexivity).
  destruct (append_file_spec None w_deps w_ctx "SOUL.md" "more" w_world w_appended 4 Ha) as (p & Hp & _ & _ & H).
  assert (p = "/ws/SOUL.md"%string) as ->.
  { assert (tool_path None w_deps w_ctx "SOUL.md" w_world = Ok "/ws/SOUL.md"%string) as Hp' by (vm_compute; reflexivity). congruence. }
  apply (H ("SOUL"%string, InUser)); [vm_compute; reflexivity|by eexists|vm_compute; reflexivity].
Defined.

Lemma list_dir_names_witness :
  NoDup (ld_Name <$> [{| ld_Name := "SOUL.md"; ld_IsDir := false; ld_Size := 4 |}]).
Proof.
  refine (proj1 (list_dir_names None w_deps w_ctx (map_to_list docSyncMap) "" w_world _ _ _ _)).
  - done.
  - intros p l. simpl. intros [= <-]. constructor.
  - vm_compute. reflexivity.
Defined.

(** [update_doc] stores TOOLS with the user's documents, [read_file] looks for it among the
    tenant's. *)
Definition w_tools : @world mem_files mem_docs mem_user_docs := (update_doc w_ctx "TOOLS" "text" w_world).1.

Example updated_tools_not_read :
  (update_doc w_ctx "TOOLS" "text" w_world).2 = Ok tt
  ∧ stored_doc w_ctx ("TOOLS"%string, InWorkspace) w_tools = None
  ∧ docSyncMap !! "TOOLS.md"%string = Some ("TOOLS"%string, InWorkspace).
Proof. split_and!; vm_compute; reflexivity. Qed.
