(* ===== verification/SearchCache.v ===== *)
(** [pkg/skills/search_cache.go]: the cache of search results that also answers similar
    queries, by the Jaccard similarity of trigram sets.

    Floating-point numbers are IEEE binary64, with the Standard Library's [SpecFloat].
    Every clock reading is an argument: [now] of the exact match, [now_at k] when the
    loop visits the entry of [k].  The map is ranged over in an order given as argument.
    Results are copied on the way in and out, so they are plain values. *)
From stdpp Require Import fin_sets gmap sorting.
From S2P Require Import Prelude GoStrings Floats.

(** ** Trigrams *)

(** [uint32(a)<<16 | uint32(b)<<8 | uint32(c)]; the three fields do not overlap. *)
Definition trigram (a b c : ascii) : Z :=
  Z.lor (Z.lor (Z.shiftl (byte_val a) 16) (Z.shiftl (byte_val b) 8)) (byte_val c).

Fixpoint windows (l : bytes) : list Z :=
  match l with
  | a :: (b :: c :: _) as l' => trigram a b c :: windows l'
  | _ => []
  end.

(** The loop that keeps the elements different from their predecessor. *)
Fixpoint dedup_loop (prev : Z) (l : list Z) : list Z :=
  match l with
  | [] => []
  | x :: l => if x =? prev then dedup_loop x l else x :: dedup_loop x l
  end.

Definition BuildTrigrams (s : string) : list Z :=
  if (str_len s <? 3)%nat then []
  else match merge_sort Z.le (windows (s2l s)) with
       | [] => []
       | x :: l => x :: dedup_loop x l
       end.

(** ** Similarity *)

Definition float_of_nat (n : nat) : float64 := binary_normalize 53 1024 (Z.of_nat n) 0 false.
Definition float_div : float64 → float64 → float64 := SFdiv 53 1024.

(** 0.7, the double nearest to it. *)
Definition similarityThreshold : float64 := S754_finite false 6305039478318694 (-53).

(** The merge of [JaccardSimilarity]: the number of common elements; [fuel] is the sum of
    the lengths. *)
Fixpoint common (fuel : nat) (a b : list Z) : nat :=
  match fuel, a, b with
  | S fuel, x :: a', y :: b' =>
      if x =? y then S (common fuel a' b')
      else if x <? y then common fuel a' b else common fuel a b'
  | _, _, _ => 0
  end.

Definition JaccardSimilarity (a b : list Z) : float64 :=
  match a, b with
  | [], [] => float_of_nat 1
  | _, _ =>
      let intersection := common (length a + length b) a b in
      let union := (length a + length b - intersection)%nat in
      float_div (float_of_nat intersection) (float_of_nat union)
  end.

(** ** The cache *)

Section cache.
Context `{U : UnicodeCase} {R : Type}.

Record cacheEntry := { ce_query : string; ce_trigrams : list Z; ce_results : R; ce_createdAt : time }.

Record SearchCache := {
  sc_entries : gmap string cacheEntry; sc_order : list string; sc_maxEntries : Z; sc_ttl : duration;
}.

Definition NewSearchCache (maxEntries : Z) (ttl : duration) : SearchCache :=
  {| sc_entries := ∅; sc_order := []; sc_maxEntries := if maxEntries <=? 0 then 50 else maxEntries;
     sc_ttl := if ttl <=? 0 then 5 * Minute else ttl |}.

Definition normalizeQuery (q : string) : string := to_lower (trim_space q).

Definition with_cache (e : gmap string cacheEntry) (o : list string) (c : SearchCache) : SearchCache :=
  {| sc_entries := e; sc_order := o; sc_maxEntries := sc_maxEntries c; sc_ttl := sc_ttl c |}.

Fixpoint remove_first (key : string) (l : list string) : list string :=
  match l with
  | [] => []
  | k :: l => if bool_decide (k = key) then l else k :: remove_first key l
  end.

Definition moveToEnd (key : string) (c : SearchCache) : SearchCache :=
  with_cache (sc_entries c) (remove_first key (sc_order c) ++ [key]) c.

Definition fresh (c : SearchCache) (now : time) (e : cacheEntry) : bool :=
  time_sub now (ce_createdAt e) <? sc_ttl c.

(** The loop over the entries with its variables [bestEntry] and [bestSim]. *)
Fixpoint best_entry (c : SearchCache) (query : list Z) (now_at : string → time) (order : list string)
    (bestEntry : option cacheEntry) (bestSim : float64) : option cacheEntry * float64 :=
  match order with
  | [] => (bestEntry, bestSim)
  | k :: order =>
      match sc_entries c !! k with
      | Some entry =>
          if negb (fresh c (now_at k) entry) then best_entry c query now_at order bestEntry bestSim
          else let sim := JaccardSimilarity query (ce_trigrams entry) in
               if SFltb bestSim sim then best_entry c query now_at order (Some entry) sim
               else best_entry c query now_at order bestEntry bestSim
      | None => best_entry c query now_at order bestEntry bestSim
      end
  end.

Definition get_similar (normalized : string) (now_at : string → time) (order : list string) (c : SearchCache)
    : SearchCache * option R :=
  match best_entry c (BuildTrigrams normalized) now_at order None (S754_zero false) with
  | (Some e, bestSim) =>
      if SFleb similarityThreshold bestSim then (moveToEnd (ce_query e) c, Some (ce_results e)) else (c, None)
  | (None, _) => (c, None)
  end.

Definition sc_Get (query : string) (now : time) (now_at : string → time) (order : list string) (c : SearchCache)
    : SearchCache * option R :=
  let normalized := normalizeQuery query in
  if str_empty normalized then (c, None)
  else match sc_entries c !! normalized with
       | Some e => if fresh c now e then (moveToEnd normalized c, Some (ce_results e))
                   else get_similar normalized now_at order c
       | None => get_similar normalized now_at order c
       end.

(** The loop of [evictExpiredLocked] over the order, with [newOrder]. *)
Fixpoint expire_loop (ttl : duration) (now : time) (order newOrder : list string) (e : gmap string cacheEntry)
    : gmap string cacheEntry * list string :=
  match order with
  | [] => (e, newOrder)
  | key :: order =>
      match e !! key with
      | Some entry =>
          if ttl <=? time_sub now (ce_createdAt entry) then expire_loop ttl now order newOrder (delete key e)
          else expire_loop ttl now order (newOrder ++ [key]) e
      | None => expire_loop ttl now order newOrder (delete key e)
      end
  end.

Definition evictExpired (now : time) (c : SearchCache) : SearchCache :=
  let '(e, o) := expire_loop (sc_ttl c) now (sc_order c) [] (sc_entries c) in with_cache e o c.

(** [for len(sc.entries) >= sc.maxEntries && len(sc.order) > 0 { ... }]. *)
Fixpoint evict_lru (maxEntries : Z) (order : list string) (e : gmap string cacheEntry)
    : gmap string cacheEntry * list string :=
  match order with
  | [] => (e, [])
  | oldest :: rest =>
      if maxEntries <=? Z.of_nat (size e) then evict_lru maxEntries rest (delete oldest e) else (e, order)
  end.

Definition new_cache_entry (normalized : string) (results : R) (now : time) : cacheEntry :=
  {| ce_query := normalized; ce_trigrams := BuildTrigrams normalized; ce_results := results; ce_createdAt := now |}.

Definition sc_Put (query : string) (results : R) (now now2 : time) (c : SearchCache) : SearchCache :=
  let normalized := normalizeQuery query in
  if str_empty normalized then c
  else
    let c := evictExpired now c in
    let entry := new_cache_entry normalized results now2 in
    match sc_entries c !! normalized with
    | Some _ => moveToEnd normalized (with_cache (<[normalized := entry]> (sc_entries c)) (sc_order c) c)
    | None =>
        let '(e, o) := evict_lru (sc_maxEntries c) (sc_order c) (sc_entries c) in
        with_cache (<[normalized := entry]> e) (o ++ [normalized]) c
    end.

Definition sc_Len (c : SearchCache) : nat := size (sc_entries c).

Inductive search_op :=
| SGet (query : string) (now : time) (now_at : string → time) (order : list string)
| SPut (query : string) (results : R) (now now2 : time).

Definition search_step (c : SearchCache) (o : search_op) : SearchCache :=
  match o with
  | SGet q now now_at order => (sc_Get q now now_at order c).1
  | SPut q r now now2 => sc_Put q r now now2 c
  end.
End cache.

(** ** Lemmas: trigram sets *)

Lemma dedup_loop_spec prev l :
  StronglySorted Z.le (prev :: l) →
  StronglySorted Z.lt (prev :: dedup_loop prev l) ∧ ∀ x, x ∈ prev :: dedup_loop prev l ↔ x ∈ prev :: l.
Proof.
  revert prev. induction l as [|y l IH]; intros prev [Hs HF]%StronglySorted_inv; simpl.
  - split; [repeat constructor|done].
  - inversion HF as [|? ? Hle HF2]; subst. destruct (IH y Hs) as [Hss Hel].
    destruct (Z.eqb_spec y prev) as [->|Hne].
    + split; [done|]. intros x. specialize (Hel x). rewrite Hel. set_solver.
    + split.
      * constructor; [done|]. constructor; [lia|].
        apply StronglySorted_inv in Hss as [_ Hss]. eapply Forall_impl; [exact Hss|]. intros x Hx. cbv beta in *. lia.
      * intros x. rewrite (elem_of_cons _ x prev), Hel. set_solver.
Qed.

Lemma windows_short l : (length l < 3)%nat → windows l = [].
Proof. destruct l as [|a [|b [|c l]]]; simpl; [done..|lia]. Qed.

Lemma BuildTrigrams_spec s :
  StronglySorted Z.lt (BuildTrigrams s) ∧ ∀ t, t ∈ BuildTrigrams s ↔ t ∈ windows (s2l s).
Proof.
  unfold BuildTrigrams, str_len. destruct (Nat.ltb_spec (length (s2l s)) 3) as [Hlt|Hge].
  { rewrite windows_short by done. split; [constructor|done]. }
  pose proof (StronglySorted_merge_sort Z.le (windows (s2l s))) as Hs.
  pose proof (merge_sort_Permutation Z.le (windows (s2l s))) as Hp.
  destruct (merge_sort Z.le (windows (s2l s))) as [|x l].
  { split; [constructor|]. intros t. by rewrite <- Hp. }
  destruct (dedup_loop_spec x l Hs) as [Hss Hel]. split; [done|]. intros t. by rewrite Hel, Hp.
Qed.

Lemma sorted_lt_NoDup (l : list Z) : StronglySorted Z.lt l → NoDup l.
Proof.
  induction 1 as [|x l Hs IH HF]; constructor; [|done]. intros Hin.
  rewrite Forall_forall in HF. specialize (HF x Hin). lia.
Qed.

(** The trigrams as a set. *)
Definition tset (l : list Z) : gset Z := list_to_set l.

Lemma common_spec fuel a b :
  (length a + length b ≤ fuel)%nat → StronglySorted Z.lt a → StronglySorted Z.lt b →
  common fuel a b = size (tset a ∩ tset b).
Proof.
  unfold tset. revert a b. induction fuel as [|fuel IH]; intros a b Hf Ha Hb.
  { destruct a; [|simpl in Hf; lia]. cbn [common list_to_set]. by rewrite intersection_empty_l_L, size_empty. }
  destruct a as [|x a]; [cbn [common list_to_set]; by rewrite intersection_empty_l_L, size_empty|].
  destruct b as [|y b]; [cbn [common list_to_set]; by rewrite intersection_empty_r_L, size_empty|].
  pose proof Ha as [Ha' HFa]%StronglySorted_inv. pose proof Hb as [Hb' HFb]%StronglySorted_inv.
  rewrite Forall_forall in HFa, HFb. cbn [common]. cbn [length] in Hf.
  assert (∀ z, z ∈ a → x < z) as HFa' by (intros z Hz; by apply HFa).
  assert (∀ z, z ∈ b → y < z) as HFb' by (intros z Hz; by apply HFb).
  destruct (Z.eqb_spec x y) as [->|Hne].
  - rewrite IH by (done || lia). cbn [list_to_set].
    assert (y ∉ (list_to_set a : gset Z)) as Hy by (rewrite elem_of_list_to_set; intros Hin%HFa'; lia).
    revert Hy. generalize (list_to_set a : gset Z), (list_to_set b : gset Z). intros A B Hy.
    assert (({[y]} ∪ A) ∩ ({[y]} ∪ B) = {[y]} ∪ (A ∩ B)) as -> by set_solver.
    rewrite (size_union {[y]} (A ∩ B)), size_singleton; [done|set_solver].
  - destruct (Z.ltb_spec x y).
    + rewrite IH by (done || (simpl; lia)). f_equal. cbn [list_to_set].
      assert (x ∉ (list_to_set b : gset Z)); [|set_solver].
      rewrite elem_of_list_to_set. intros Hin%HFb'. lia.
    + rewrite IH by (done || (simpl; lia)). f_equal. cbn [list_to_set].
      assert (y ∉ (list_to_set a : gset Z)); [|set_solver].
      rewrite elem_of_list_to_set. intros Hin%HFa'. lia.
Qed.

Lemma size_tset l : StronglySorted Z.lt l → size (tset l) = length l.
Proof. intros Hs%sorted_lt_NoDup. by apply size_list_to_set. Qed.

Lemma size_tset_union a b :
  size (tset a ∪ tset b) = (size (tset a) + size (tset b) - size (tset a ∩ tset b))%nat.
Proof.
  rewrite size_union_alt, size_difference_alt.
  replace (tset b ∩ tset a) with (tset a ∩ tset b) by set_solver.
  assert (size (tset a ∩ tset b) ≤ size (tset b))%nat by (apply subseteq_size; set_solver). lia.
Qed.

(** ** Lemmas: the cache *)

Section cache_lemmas.
Context `{U : UnicodeCase} {R : Type}.
Implicit Types c : SearchCache (R := R).

Definition sc_ok c : Prop :=
  NoDup (sc_order c)
  ∧ (∀ k, k ∈ sc_order c ↔ is_Some (sc_entries c !! k))
  ∧ (∀ k e, sc_entries c !! k = Some e → ce_query e = k ∧ ce_trigrams e = BuildTrigrams k)
  ∧ Z.of_nat (size (sc_entries c)) ≤ sc_maxEntries c ∧ 1 ≤ sc_maxEntries c.

Lemma remove_first_filter key l : NoDup l → remove_first key l = filter (λ k, k ≠ key) l.
Proof.
  induction 1 as [|k l Hk Hl IH]; [done|]. cbn [remove_first]. rewrite filter_cons. case_bool_decide as H.
  - subst. rewrite decide_False by naive_solver. rewrite <- IH.
    clear -Hk. induction l as [|k' l IHl]; [done|]. cbn [remove_first].
    rewrite bool_decide_false by set_solver. f_equal. apply IHl. set_solver.
  - rewrite decide_True by done. by f_equal.
Qed.

Lemma moveToEnd_order key c :
  sc_ok c → is_Some (sc_entries c !! key) →
  NoDup (sc_order (moveToEnd key c)) ∧ ∀ k, k ∈ sc_order (moveToEnd key c) ↔ k ∈ sc_order c.
Proof.
  intros (Hnd & Hel & _) Hk. unfold moveToEnd. cbn [sc_order with_cache]. rewrite remove_first_filter by done.
  split.
  - apply NoDup_app. split; [by apply NoDup_filter|]. split; [|apply NoDup_singleton].
    intros k [Hne _]%list_elem_of_filter ->%list_elem_of_singleton. done.
  - intros k. rewrite elem_of_app, list_elem_of_filter, list_elem_of_singleton.
    destruct (decide (k = key)) as [->|]; [|naive_solver]. rewrite (Hel key). naive_solver.
Qed.

Lemma moveToEnd_ok key c : sc_ok c → is_Some (sc_entries c !! key) → sc_ok (moveToEnd key c).
Proof.
  intros Hok Hk. destruct (moveToEnd_order key c Hok Hk) as [Hnd Hel].
  destruct Hok as (_ & Hel' & Hq & Hs & Hm). split_and!; [done| |done..].
  intros k. rewrite Hel. apply Hel'.
Qed.

Lemma best_entry_spec c q now_at order b s :
  s ≠ S754_nan →
  let '(b', s') := best_entry c q now_at order b s in
  s' ≠ S754_nan ∧ (∀ t, SFleb t s = true → SFleb t s' = true)
  ∧ (∀ k e t, k ∈ order → sc_entries c !! k = Some e → fresh c (now_at k) e = true →
       SFleb t (JaccardSimilarity q (ce_trigrams e)) = true → SFleb t s' = true)
  ∧ (b' = b ∧ s' = s ∨
     ∃ k e, k ∈ order ∧ b' = Some e ∧ sc_entries c !! k = Some e ∧ fresh c (now_at k) e = true
            ∧ s' = JaccardSimilarity q (ce_trigrams e)).
Proof.
  revert b s. induction order as [|k order IH]; intros b s Hs; cbn [best_entry].
  { split_and!; [done|done|set_solver|by left]. }
  assert (∀ b1 s1, s1 ≠ S754_nan → (∀ t, SFleb t s = true → SFleb t s1 = true) →
    (∀ e t, sc_entries c !! k = Some e → fresh c (now_at k) e = true →
       SFleb t (JaccardSimilarity q (ce_trigrams e)) = true → SFleb t s1 = true) →
    (b1 = b ∧ s1 = s ∨ ∃ e, b1 = Some e ∧ sc_entries c !! k = Some e ∧ fresh c (now_at k) e = true
       ∧ s1 = JaccardSimilarity q (ce_trigrams e)) →
    let '(b', s') := best_entry c q now_at order b1 s1 in
    s' ≠ S754_nan ∧ (∀ t, SFleb t s = true → SFleb t s' = true)
    ∧ (∀ k' e t, k' ∈ k :: order → sc_entries c !! k' = Some e → fresh c (now_at k') e = true →
         SFleb t (JaccardSimilarity q (ce_trigrams e)) = true → SFleb t s' = true)
    ∧ (b' = b ∧ s' = s ∨
       ∃ k' e, k' ∈ k :: order ∧ b' = Some e ∧ sc_entries c !! k' = Some e ∧ fresh c (now_at k') e = true
              ∧ s' = JaccardSimilarity q (ce_trigrams e))) as Hgo.
  { intros b1 s1 Hs1 Hmono Hk Hb. specialize (IH b1 s1 Hs1).
    destruct (best_entry c q now_at order b1 s1) as [b' s']. destruct IH as (Hn & Hm & Hall & Hres).
    split_and!; [done|auto| |].
    - intros k' e t [->|Hin]%elem_of_cons He Hf Ht; [by eapply Hm, Hk|by eapply Hall].
    - destruct Hres as [[-> ->]|(k' & e & Hin & ? & ? & ? & ?)].
      + destruct Hb as [?|(e & ? & ? & ? & ?)]; [by left|]. right. exists k, e. split; [by left|done].
      + right. exists k', e. split; [by right|done]. }
  destruct (sc_entries c !! k) as [e|] eqn:He; [|apply Hgo; naive_solver].
  destruct (fresh c (now_at k) e) eqn:Hf; cbn [negb]; [|apply Hgo; naive_solver congruence].
  destruct (SFltb s (JaccardSimilarity q (ce_trigrams e))) eqn:Hlt.
  - destruct (SFltb_asym _ _ Hlt) as [Hge Hnan]. apply Hgo; [done| | |].
    + intros t Ht. by apply (SFleb_trans t s).
    + intros e' t [= <-] _ Ht. done.
    + right. by exists e.
  - apply Hgo; [done|done| |by left].
    intros e' t [= <-] _ Ht. by apply (SFleb_trans t (JaccardSimilarity q (ce_trigrams e))).
Qed.

Lemma get_similar_spec normalized now_at order c :
  sc_ok c → range_order (sc_entries c) order →
  match get_similar normalized now_at order c with
  | (c', Some r) => ∃ k e, sc_entries c !! k = Some e ∧ ce_results e = r ∧ c' = moveToEnd k c ∧
      fresh c (now_at k) e = true ∧
      SFleb similarityThreshold (JaccardSimilarity (BuildTrigrams normalized) (BuildTrigrams k)) = true
  | (c', None) => c' = c ∧ ∀ k e, sc_entries c !! k = Some e → fresh c (now_at k) e = true →
      SFleb similarityThreshold (JaccardSimilarity (BuildTrigrams normalized) (BuildTrigrams k)) = false
  end.
Proof.
  intros (_ & _ & Hq & _) Ho. unfold get_similar.
  pose proof (best_entry_spec c (BuildTrigrams normalized) now_at order None (S754_zero false)) as Hb.
  specialize (Hb ltac:(done)). destruct (best_entry _ _ _ _ _ _) as [b s].
  destruct Hb as (_ & _ & Hall & Hres).
  assert (SFleb similarityThreshold s = false → ∀ k e, sc_entries c !! k = Some e → fresh c (now_at k) e = true →
      SFleb similarityThreshold (JaccardSimilarity (BuildTrigrams normalized) (BuildTrigrams k)) = false) as Hmiss.
  { intros Hs k e He Hf. destruct (SFleb _ (JaccardSimilarity _ _)) eqn:Hsim; [|done].
    rewrite <- Hs. symmetry. apply (Hall k e); [|done|done|].
    - apply (range_order_elem (sc_entries c) order k Ho). by eexists.
    - by destruct (Hq k e He) as [_ ->]. }
  destruct Hres as [[-> ->]|(k & e & Hin & -> & He & Hf & ->)].
  - split; [done|]. by apply Hmiss.
  - destruct (Hq k e He) as [Hk Htri]. rewrite Htri in *.
    destruct (SFleb similarityThreshold _) eqn:Hs; [|by split; [|apply Hmiss]].
    exists k, e. split_and!; [done|done|by rewrite Hk|done|done].
Qed.

(** What [evictExpired] keeps of the order and of the entries. *)
Definition lives (ttl : duration) (now : time) (e : gmap string (cacheEntry (R := R))) (k : string) : bool :=
  match e !! k with Some entry => negb (ttl <=? time_sub now (ce_createdAt entry)) | None => false end.

Lemma expire_loop_spec ttl now order newOrder (e : gmap string (cacheEntry (R := R))) :
  NoDup order →
  let '(e', o') := expire_loop ttl now order newOrder e in
  o' = newOrder ++ filter (λ k, lives ttl now e k = true) order
  ∧ ∀ k, e' !! k = if decide (k ∈ order ∧ lives ttl now e k = false) then None else e !! k.
Proof.
  intros Hnd. revert newOrder e. induction Hnd as [|key order Hkey Hnd IH]; intros newOrder e; cbn [expire_loop].
  { split; [by rewrite app_nil_r|]. intros k. by rewrite decide_False by set_solver. }
  assert (∀ e', (∀ k, k ≠ key → e' !! k = e !! k) → ∀ k, k ∈ order → lives ttl now e' k = lives ttl now e k) as Hl.
  { intros e' He' k Hk. unfold lives. rewrite He'; [done|]. by intros ->. }
  assert (lives ttl now e key = false →
    let '(e', o') := expire_loop ttl now order newOrder (delete key e) in
    o' = newOrder ++ filter (λ k, lives ttl now e k = true) (key :: order)
    ∧ ∀ k, e' !! k = if decide (k ∈ key :: order ∧ lives ttl now e k = false) then None else e !! k) as Hdel.
  { intros Hdead. specialize (IH newOrder (delete key e)).
    destruct (expire_loop ttl now order newOrder (delete key e)) as [e' o']. destruct IH as [-> He'].
    assert (∀ k, k ≠ key → delete key e !! k = e !! k) as Hoth by (intros k Hk; by rewrite lookup_delete_ne).
    split.
    - rewrite filter_cons_False by congruence. f_equal. clear -Hl Hoth.
      assert (∀ k, k ∈ order → lives ttl now (delete key e) k = lives ttl now e k) as Heq by by apply Hl.
      clear Hl Hoth. induction order as [|k order IHo]; [done|]. rewrite !filter_cons, Heq by by left.
      rewrite IHo by (intros; apply Heq; by right). done.
    - intros k. rewrite He'. destruct (decide (k = key)) as [->|Hne].
      + rewrite decide_False by naive_solver. rewrite lookup_delete, decide_True by done.
        rewrite decide_True; [done|]. split; [by left|done].
      + rewrite Hoth by done. destruct (decide (k ∈ order)) as [Hin|Hin].
        * rewrite Hl by (done || intros; by apply Hoth).
          destruct (lives ttl now e k) eqn:Hlk.
          -- by rewrite !decide_False by naive_solver.
          -- rewrite !decide_True; [done|split; [by right|done]|done].
        * by rewrite !decide_False by set_solver. }
  destruct (e !! key) as [entry|] eqn:He.
  - destruct (ttl <=? time_sub now (ce_createdAt entry)) eqn:Ht.
    + apply Hdel. unfold lives. by rewrite He, Ht.
    + assert (lives ttl now e key = true) as Hk by (unfold lives; by rewrite He, Ht).
      specialize (IH (newOrder ++ [key]) e). destruct (expire_loop _ _ _ _ e) as [e' o'].
      destruct IH as [-> He']. split.
      * by rewrite filter_cons_True, <- app_assoc by done.
      * intros k. rewrite He'. destruct (decide (k = key)) as [->|Hne].
        -- rewrite !decide_False; [done|..]; intros [_ ?]; congruence.
        -- destruct (decide (k ∈ order ∧ lives ttl now e k = false)) as [[? ?]|Hn].
           ++ rewrite decide_True; [done|]. split; [by right|done].
           ++ rewrite decide_False; [done|]. set_solver.
  - apply Hdel. unfold lives. by rewrite He.
Qed.

Lemma evictExpired_ok now c :
  sc_ok c → sc_ok (evictExpired now c) ∧
  sc_maxEntries (evictExpired now c) = sc_maxEntries c ∧ sc_ttl (evictExpired now c) = sc_ttl c.
Proof.
  intros (Hnd & Hel & Hq & Hs & Hm). unfold evictExpired.
  pose proof (expire_loop_spec (sc_ttl c) now (sc_order c) [] (sc_entries c) Hnd) as He.
  destruct (expire_loop _ _ _ _ _) as [e o]. destruct He as [-> He]. split; [|done]. cbn [app].
  assert (∀ k x, e !! k = Some x → sc_entries c !! k = Some x ∧ lives (sc_ttl c) now (sc_entries c) k = true) as Hsub.
  { intros k x. rewrite He. destruct (decide _) as [|Hn]; [done|]. intros Hx. split; [done|].
    destruct (lives _ _ _ k) eqn:Hl; [done|]. destruct Hn. split; [|done]. apply Hel. by eexists. }
  split_and!; cbn [sc_order sc_entries sc_maxEntries with_cache]; [by apply NoDup_filter| | | |done].
  - intros k. rewrite list_elem_of_filter, Hel. split.
    + intros [Hl [x Hx]]. exists x. rewrite He, decide_False; [done|]. intros [_ ?]. congruence.
    + intros [x Hx]. destruct (Hsub k x Hx) as [Hx' Hl]. split; [done|by eexists].
  - intros k x [Hx _]%Hsub. by apply Hq.
  - assert (e ⊆ sc_entries c) as Hle%map_subseteq_size; [|lia].
    apply map_subseteq_spec. intros k x Hx. by apply Hsub.
Qed.

(** The least recently used entries go until there is room. *)
Lemma evict_lru_spec maxEntries order (e : gmap string (cacheEntry (R := R))) :
  NoDup order → (∀ k, k ∈ order → is_Some (e !! k)) → 1 ≤ maxEntries → (size e ≤ length order)%nat →
  let '(e', o') := evict_lru maxEntries order e in
  ∃ gone, order = gone ++ o' ∧ (∀ k, e' !! k = if decide (k ∈ gone) then None else e !! k)
  ∧ Z.of_nat (size e') < maxEntries
  ∧ (Z.of_nat (size e) < maxEntries → gone = [])
  ∧ (Z.of_nat (size e) ≤ maxEntries → (length gone ≤ 1)%nat).
Proof.
  intros Hnd. revert e. induction Hnd as [|k order Hk Hnd IH]; intros e Hin Hmax Hsz; cbn [evict_lru].
  - exists []. simpl in Hsz. split_and!; [done|intros k; by rewrite decide_False by set_solver|lia|done|simpl; lia].
  - destruct (Z.leb_spec maxEntries (Z.of_nat (size e))) as [Hfull|Hroom].
    + assert (size (delete k e) = pred (size e)) as Hd by (apply map_size_delete_Some, Hin; by left).
      specialize (IH (delete k e)).
      destruct (evict_lru maxEntries order (delete k e)) as [e' o'].
      destruct IH as (gone & -> & He' & Hlt & Hnone & _).
      * intros k' Hk'. rewrite lookup_delete_ne by (intros ->; done). apply Hin. by right.
      * done.
      * simpl in Hsz. lia.
      * exists (k :: gone). split; [done|]. split; [|split; [done|split; [lia|]]].
        -- intros k'. rewrite He'. destruct (decide (k' = k)) as [->|Hne].
           ++ rewrite lookup_delete, (decide_True (P := k = k)) by done. rewrite (decide_True (P := k ∈ k :: gone)) by by left. by destruct (decide (k ∈ gone)).
           ++ rewrite lookup_delete_ne by done.
              destruct (decide (k' ∈ gone)); [by rewrite decide_True by by right|].
              by rewrite decide_False by set_solver.
        -- intros Hle. rewrite Hnone by lia. simpl. lia.
    + exists []. split_and!; [done|intros k'; by rewrite decide_False by set_solver|lia|done|simpl; lia].
Qed.

Lemma sc_ok_size c : sc_ok c → size (sc_entries c) = length (sc_order c).
Proof.
  intros (Hnd & Hel & _). rewrite <- size_dom. rewrite <- (size_list_to_set (C := gset string)) by done.
  f_equal. apply set_eq. intros k. by rewrite elem_of_dom, elem_of_list_to_set, Hel.
Qed.

(** [Put] into a checked cache: what it keeps, and that the new entry is the youngest. *)
Lemma sc_Put_ok query (results : R) now now2 c :
  sc_ok c →
  let c' := sc_Put query results now now2 c in
  sc_ok c' ∧ sc_ttl c' = sc_ttl c ∧
  (normalizeQuery query ≠ ""%string →
   sc_entries c' !! normalizeQuery query = Some (new_cache_entry (normalizeQuery query) results now2)).
Proof.
  intros Hok. unfold sc_Put. set (q := normalizeQuery query). destruct (str_empty q) eqn:Hq.
  { apply bool_decide_eq_true in Hq. by split_and!. }
  destruct (evictExpired_ok now c Hok) as (Hok1 & Hmax1 & Httl1).
  set (c1 := evictExpired now c) in *. pose proof (sc_ok_size c1 Hok1) as Hsize.
  pose proof Hok1 as (Hnd & Hel & Hent & Hs & Hm).
  set (entry := new_cache_entry q results now2).
  assert (∀ (e : gmap string (cacheEntry (R := R))), (∀ k x, e !! k = Some x → sc_entries c1 !! k = Some x) →
    ∀ k x, <[q := entry]> e !! k = Some x → ce_query x = k ∧ ce_trigrams x = BuildTrigrams k) as Hnew.
  { intros e He k x. destruct (decide (k = q)) as [->|Hne].
    - rewrite lookup_insert, decide_True by done. by intros [= <-].
    - rewrite lookup_insert_ne by done. intros Hx%He. by apply Hent. }
  destruct (sc_entries c1 !! q) as [old|] eqn:Hold; cbn [sc_entries sc_ttl with_cache moveToEnd].
  - split; [|split; [done|intros _; by rewrite lookup_insert, decide_True]].
    apply moveToEnd_ok; [|cbn [sc_entries with_cache]; rewrite lookup_insert, decide_True by done; by eexists].
    split_and!; cbn [sc_order sc_entries sc_maxEntries with_cache]; [done| |by apply Hnew| |done].
    + intros k. rewrite Hel. destruct (decide (k = q)) as [->|Hne].
      * rewrite lookup_insert, decide_True, Hold by done. split; by eexists.
      * by rewrite lookup_insert_ne.
    + rewrite map_size_insert_Some; [done|by eexists].
  - pose proof (evict_lru_spec (sc_maxEntries c1) (sc_order c1) (sc_entries c1) Hnd) as Hev.
    specialize (Hev ltac:(intros k; apply Hel) Hm ltac:(lia)).
    destruct (evict_lru _ _ _) as [e o]. destruct Hev as (gone & Hord & He & Hlt & _ & _).
    rewrite Hord in Hnd. pose proof Hnd as (_ & Hdis & Hndo)%NoDup_app.
    assert (∀ k x, e !! k = Some x → sc_entries c1 !! k = Some x) as Hsub.
    { intros k x. rewrite He. by destruct (decide (k ∈ gone)). }
    assert (q ∉ o) as Hqo. { intros Hin. destruct (proj1 (Hel q)) as [x Hx]; [rewrite Hord; set_solver|congruence]. }
    cbn [sc_entries sc_ttl with_cache]. split; [|split; [done|intros _; by rewrite lookup_insert, decide_True]].
    split_and!; cbn [sc_order sc_entries sc_maxEntries with_cache]; [| |by apply Hnew| |done].
    + apply NoDup_app. split; [done|]. split; [|apply NoDup_singleton].
      intros k Hk ->%list_elem_of_singleton. done.
    + intros k. rewrite elem_of_app, list_elem_of_singleton. destruct (decide (k = q)) as [->|Hne].
      * rewrite lookup_insert, decide_True by done. split; [by eexists|by right].
      * rewrite lookup_insert_ne, He by done. specialize (Hel k). rewrite Hord, elem_of_app in Hel.
        destruct (decide (k ∈ gone)) as [Hg|Hg].
        -- specialize (Hdis k Hg). split; [by intros [?|?]|by intros [? ?]].
        -- rewrite <- Hel. naive_solver.
    + destruct (e !! q) as [x|] eqn:Heq; [apply Hsub in Heq; congruence|].
      rewrite map_size_insert_None by done. lia.
Qed.

Lemma search_step_ok (c : SearchCache (R := R)) o :
  sc_ok c → (match o with SGet _ _ _ order => range_order (sc_entries c) order | SPut _ _ _ _ => True end) →
  sc_ok (search_step c o).
Proof.
  intros Hok Ho. destruct o as [query now now_at order|query r now now2]; [|by apply sc_Put_ok]. simpl.
  unfold sc_Get. destruct (str_empty _); [done|].
  assert (sc_ok (get_similar (normalizeQuery query) now_at order c).1) as Hsim.
  { pose proof (get_similar_spec (normalizeQuery query) now_at order c Hok Ho) as Hg.
    destruct (get_similar _ _ _ _) as [c' [r|]]; simpl.
    - destruct Hg as (k & e & He & _ & -> & _). apply moveToEnd_ok; [done|by eexists].
    - by destruct Hg as [-> _]. }
  destruct (sc_entries c !! _) as [e|] eqn:He; [|done]. destruct (fresh c now e); [|done].
  apply moveToEnd_ok; [done|by eexists].
Qed.

(** Histories in which every [Get] ranges over the map in some order. *)
Fixpoint search_valid (c : SearchCache (R := R)) (ops : list search_op) : Prop :=
  match ops with
  | [] => True
  | o :: ops => (match o with SGet _ _ _ order => range_order (sc_entries c) order | SPut _ _ _ _ => True end)
                ∧ search_valid (search_step c o) ops
  end.

Lemma search_run_ok ops (c : SearchCache (R := R)) :
  sc_ok c → search_valid c ops → sc_ok (fold_left search_step ops c).
Proof.
  revert c. induction ops as [|o ops IH]; intros c Hok Hv; [done|]. destruct Hv as [Ho Hv].
  apply IH; [by apply search_step_ok|done].
Qed.

Lemma NewSearchCache_ok maxEntries ttl : sc_ok (NewSearchCache (R := R) maxEntries ttl).
Proof.
  split_and!; simpl; [constructor| |done| |].
  - intros k. rewrite lookup_empty. split; [set_solver|by intros [? ?]].
  - rewrite map_size_empty. destruct (Z.leb_spec maxEntries 0); lia.
  - destruct (Z.leb_spec maxEntries 0); lia.
Qed.
End cache_lemmas.

(** ** Properties *)

(** The similarity of two texts is the Jaccard index of their sets of trigrams, rounded
    once: the merge of the two sorted lists computes the sizes of intersection and union,
    and [BuildTrigrams] gives the strictly increasing list of the text's trigrams. *)
Theorem jaccard_exact s t :
  let X := tset (windows (s2l s)) in
  let Y := tset (windows (s2l t)) in
  JaccardSimilarity (BuildTrigrams s) (BuildTrigrams t) =
    (if decide (X = ∅ ∧ Y = ∅) then float_of_nat 1
     else float_div (float_of_nat (size (X ∩ Y))) (float_of_nat (size (X ∪ Y))))
  ∧ StronglySorted Z.lt (BuildTrigrams s) ∧ (∀ x, x ∈ BuildTrigrams s ↔ x ∈ windows (s2l s)).
Proof.
  intros X Y. destruct (BuildTrigrams_spec s) as [Hs Hse], (BuildTrigrams_spec t) as [Ht Hte].
  split; [|done].
  assert (X = tset (BuildTrigrams s)) as -> 
    by (apply set_eq; intros x; unfold X, tset; rewrite !elem_of_list_to_set; symmetry; apply Hse).
  assert (Y = tset (BuildTrigrams t)) as -> 
    by (apply set_eq; intros x; unfold Y, tset; rewrite !elem_of_list_to_set; symmetry; apply Hte).
  clear Hse Hte. revert Hs Ht. generalize (BuildTrigrams s), (BuildTrigrams t). intros a b Hs Ht.
  rewrite size_tset_union, !size_tset by done.
  rewrite <- (common_spec (length a + length b) a b) by done.
  destruct a as [|x a]; [destruct b as [|y b]|].
  - by rewrite decide_True.
  - rewrite decide_False; [done|]. intros [_ H]. unfold tset in H. simpl in H. set_solver.
  - rewrite decide_False; [done|]. intros [H _]. unfold tset in H. simpl in H. set_solver.
Qed.

(** After any history, looking up a query answers with the results of an unexpired entry
    that is the query itself or similar to it, and marks that entry as used; it misses
    only when no unexpired entry reaches the threshold. *)
Theorem search_get_spec `{U : UnicodeCase} {R} maxEntries ttl ops query now now_at order
  (Hv : search_valid (NewSearchCache (R := R) maxEntries ttl) ops) :
  let c := fold_left search_step ops (NewSearchCache (R := R) maxEntries ttl) in
  range_order (sc_entries c) order →
  let q := normalizeQuery query in
  match sc_Get query now now_at order c with
  | (c', Some r) =>
      ∃ k e, sc_entries c !! k = Some e ∧ ce_results e = r ∧ c' = moveToEnd k c
        ∧ (k = q ∧ fresh c now e = true
           ∨ fresh c (now_at k) e = true
             ∧ SFleb similarityThreshold (JaccardSimilarity (BuildTrigrams q) (BuildTrigrams k)) = true)
  | (c', None) =>
      c' = c
      ∧ (q ≠ ""%string →
         (∀ e, sc_entries c !! q = Some e → fresh c now e = false)
         ∧ ∀ k e, sc_entries c !! k = Some e → fresh c (now_at k) e = true →
             SFleb similarityThreshold (JaccardSimilarity (BuildTrigrams q) (BuildTrigrams k)) = false)
  end.
Proof.
  intros c Ho q. assert (sc_ok c) as Hok by (apply search_run_ok; [apply NewSearchCache_ok|done]).
  unfold sc_Get. fold q. destruct (str_empty q) eqn:Hq.
  { apply bool_decide_eq_true in Hq. split; [done|]. by rewrite Hq. }
  pose proof (get_similar_spec q now_at order c Hok Ho) as Hsim.
  assert ((∀ e, sc_entries c !! q = Some e → fresh c now e = false) →
    match get_similar q now_at order c with
    | (c', Some r) =>
        ∃ k e, sc_entries c !! k = Some e ∧ ce_results e = r ∧ c' = moveToEnd k c
          ∧ (k = q ∧ fresh c now e = true
             ∨ fresh c (now_at k) e = true
               ∧ SFleb similarityThreshold (JaccardSimilarity (BuildTrigrams q) (BuildTrigrams k)) = true)
    | (c', None) =>
        c' = c
        ∧ (q ≠ ""%string →
           (∀ e, sc_entries c !! q = Some e → fresh c now e = false)
           ∧ ∀ k e, sc_entries c !! k = Some e → fresh c (now_at k) e = true →
               SFleb similarityThreshold (JaccardSimilarity (BuildTrigrams q) (BuildTrigrams k)) = false)
    end) as Hgo.
  { intros Hex. destruct (get_similar q now_at order c) as [c' [r|]].
    - destruct Hsim as (k & e & ? & ? & ? & ? & ?). exists k, e. split_and!; [done..|]. by right.
    - destruct Hsim as [-> Hsim]. by split. }
  destruct (sc_entries c !! q) as [e|] eqn:He; [|by apply Hgo].
  destruct (fresh c now e) eqn:Hf; [|apply Hgo; by intros e' [= <-]].
  exists q, e. split_and!; [done..|]. by left.
Qed.

(** After any history the cache holds at most [maxEntries] entries and orders exactly
    these by use; a stored result is found again, under any query that normalises alike,
    until its time to live is over. *)
Theorem search_put_get `{U : UnicodeCase} {R} maxEntries ttl ops query query' (r : R) now now2 now3 now_at order
  (Hv : search_valid (NewSearchCache (R := R) maxEntries ttl) ops) :
  let c := fold_left search_step ops (NewSearchCache (R := R) maxEntries ttl) in
  Z.of_nat (sc_Len c) ≤ sc_maxEntries c
  ∧ NoDup (sc_order c) ∧ (∀ k, k ∈ sc_order c ↔ is_Some (sc_entries c !! k))
  ∧ (normalizeQuery query' = normalizeQuery query → normalizeQuery query ≠ ""%string →
     time_sub now3 now2 < sc_ttl c →
     (sc_Get query' now3 now_at order (sc_Put query r now now2 c)).2 = Some r).
Proof.
  intros c. assert (sc_ok c) as Hok by (apply search_run_ok; [apply NewSearchCache_ok|done]).
  pose proof Hok as (Hnd & Hel & _ & Hs & _). split_and!; [done..|].
  intros Hq Hne Httl. destruct (sc_Put_ok query r now now2 c Hok) as (_ & Ht & Hput).
  unfold sc_Get. rewrite Hq. unfold str_empty at 1. rewrite bool_decide_false by done.
  rewrite Hput by done. unfold fresh. rewrite Ht. cbn [ce_createdAt new_cache_entry].
  by rewrite (proj2 (Z.ltb_lt _ _) Httl).
Qed.

(** ** Witnesses *)

#[local] Existing Instance bytewise_case.

Lemma search_get_spec_witness :
  ∃ k e, ce_results e = 7 ∧ k = "hello world"%string ∧
    sc_Get "Hello Worlds" 30 (λ _, 30) ["hello world"%string] (sc_Put "hello world" 7 10 10 (NewSearchCache 2 100))
      = (moveToEnd k (sc_Put "hello world" 7 10 10 (NewSearchCache 2 100)), Some (ce_results e)).
Proof.
  pose proof (search_get_spec (R := Z) 2 100 [SPut "hello world" 7 10 10] "Hello Worlds" 30 (λ _, 30)
                ["hello world"%string] ltac:(done)) as H. cbv zeta in H.
  specialize (H ltac:(by vm_compute)).
  assert ((sc_Get "Hello Worlds" 30 (λ _, 30) ["hello world"%string]
             (fold_left search_step [SPut "hello world" 7 10 10] (NewSearchCache 2 100))).2 = Some 7) as Hr by by vm_compute.
  destruct (sc_Get _ _ _ _ _) as [c' [r|]] eqn:Hg; [|done]. simpl in Hr. injection Hr as ->.
  destruct H as (k & e & He & Hres & -> & _). exists k, e. split; [exact Hres|].
  assert (k = "hello world"%string) as Hk.
  { destruct (decide (k = "hello world"%string)) as [Heq|Hne]; [exact Heq|].
    exfalso. assert (sc_entries (fold_left search_step [SPut "hello world" 7 10 10] (NewSearchCache 2 100))
      = <["hello world"%string := new_cache_entry "hello world" 7 10]> (∅ : gmap string cacheEntry)) as Hent
      by by vm_compute.
    rewrite Hent in He. clear -He Hne. apply lookup_insert_Some in He as [[Heq _]|[_ He]]; [congruence|].
    by rewrite lookup_empty in He. }
  split; [exact Hk|]. rewrite Hres. cbn [fold_left search_step]. reflexivity.
Defined.

Lemma search_put_get_witness :
  (sc_Get " Hello " 60 (λ _, 60) ["a"; "hello"]%string
     (sc_Put "hello" 7 10 10 (fold_left search_step [SPut "a" 1 5 5] (NewSearchCache 2 100)))).2 = Some 7.
Proof.
  refine (proj2 (proj2 (proj2 (search_put_get (R := Z) 2 100 [SPut "a" 1 5 5] "hello" " Hello " 7 10 10 60 (λ _, 60)
            ["a"; "hello"]%string ltac:(done)))) _ _ _); by vm_compute.
Defined.
