(* ===== verification/Search.v ===== *)
(** [pkg/search/bm25.go] and [hybrid.go]: keyword search with BM25 and its mix with a vector
    search; [pkg/storage/vectordb/bm25.go]: the BM25 scorer of the memory tools.

    Scores are binary64 numbers; [math.Log] is a parameter.  The order in which Go ranges
    over a map is an argument where it shows.  A slice bound out of range is a panic,
    [None].  An index is used under its lock. *)
From S2P Require Import Prelude GoStrings Floats Values Types.

(** [strings.FieldsFunc] at bytes: a rune beyond ASCII is a separator, and so are its bytes. *)
Fixpoint fields_func (sep : ascii → bool) (cur l : bytes) : list bytes :=
  match l with
  | [] => match cur with [] => [] | _ => [reverse cur] end
  | c :: l => if sep c then match cur with [] => fields_func sep [] l | _ => reverse cur :: fields_func sep [] l end
              else fields_func sep (c :: cur) l
  end.

(** ** bm25.go *)

Section bm25.
Context `{U : UnicodeCase} (math_log : float64 → float64) `{SS : SliceSort}.

Record Document := { doc_ID : string; doc_Content : string; doc_tokens : list string; doc_termFreq : gmap string Z }.

Record BM25Index := { ix_documents : list Document; ix_idf : gmap string float64; ix_avgDocLen : float64 }.

Record SearchResult := { res_ID : string; res_Content : string; res_Score : float64 }.

Definition bm25_k1 : float64 := f64_ratio 3 2.
Definition bm25_b : float64 := f64_ratio 3 4.

Definition NewBM25Index : BM25Index := {| ix_documents := []; ix_idf := ∅; ix_avgDocLen := f64_zero |}.

Definition token_char (c : ascii) : bool := byte_in 97 122 c || byte_in 48 57 c.

Definition tokenize (text : string) : list string := l2s <$> fields_func (λ c, negb (token_char c)) [] (s2l (to_lower text)).

Definition calculateTermFreq (tokens : list string) : gmap string Z :=
  foldl (λ freq t, <[t := default 0 (freq !! t) + 1]> freq) ∅ tokens.

(** [docFreq]: in how many documents a term occurs; the keys of a map are seen once. *)
Definition docFreq (docs : list Document) : gmap string Z :=
  foldl (λ freq d, map_fold (λ t _ freq, <[t := default 0 (freq !! t) + 1]> freq) freq (doc_termFreq d)) ∅ docs.

Definition idf_of (n df : Z) : float64 :=
  math_log (f64_div (f64_add (f64_sub (f64_of_Z n) (f64_of_Z df)) f64_half) (f64_add (f64_of_Z df) f64_half)).

Definition updateIDF (ix : BM25Index) : BM25Index :=
  let docs := ix_documents ix in
  let n := Z.of_nat (length docs) in
  let totalLen := sum_of (λ d, Z.of_nat (length (doc_tokens d))) docs in
  {| ix_documents := docs;
     ix_idf := map_fold (λ t df idf, <[t := idf_of n df]> idf) (ix_idf ix) (docFreq docs);
     ix_avgDocLen := if 0 <? n then f64_div (f64_of_Z totalLen) (f64_of_Z n) else ix_avgDocLen ix |}.

Definition AddDocument (id content : string) (ix : BM25Index) : BM25Index :=
  let tokens := tokenize content in
  let doc := {| doc_ID := id; doc_Content := content; doc_tokens := tokens; doc_termFreq := calculateTermFreq tokens |} in
  updateIDF {| ix_documents := ix_documents ix ++ [doc]; ix_idf := ix_idf ix; ix_avgDocLen := ix_avgDocLen ix |}.

(** What one token of the query adds. *)
Definition token_score (ix : BM25Index) (doc : Document) (score : float64) (token : string) : float64 :=
  match doc_termFreq doc !! token with
  | None => score
  | Some freq =>
      let docLen := f64_of_Z (Z.of_nat (length (doc_tokens doc))) in
      let numerator := f64_mul (f64_of_Z freq) (f64_add bm25_k1 f64_one) in
      let denominator := f64_add (f64_of_Z freq)
            (f64_mul bm25_k1 (f64_add (f64_sub f64_one bm25_b) (f64_mul bm25_b (f64_div docLen (ix_avgDocLen ix))))) in
      f64_add score (f64_mul (default f64_zero (ix_idf ix !! token)) (f64_div numerator denominator))
  end.

Definition calculateBM25 (ix : BM25Index) (queryTokens : list string) (doc : Document) : float64 :=
  foldl (token_score ix doc) f64_zero queryTokens.

Definition by_score_desc (x y : SearchResult) : bool := SFltb (res_Score y) (res_Score x).

(** [results[:limit]] when there are more than [limit]. *)
Definition cap {A} (limit : Z) (l : list A) : option (list A) :=
  if limit <? Z.of_nat (length l) then if limit <? 0 then None else Some (take (Z.to_nat limit) l) else Some l.

Definition match_doc (ix : BM25Index) (queryTokens : list string) (doc : Document) : option SearchResult :=
  let score := calculateBM25 ix queryTokens doc in
  if SFltb f64_zero score then Some {| res_ID := doc_ID doc; res_Content := doc_Content doc; res_Score := score |} else None.

Definition bm25_Search (ix : BM25Index) (query : string) (limit : Z) : option (list SearchResult) :=
  cap limit (sort_slice by_score_desc (omap (match_doc ix (tokenize query)) (ix_documents ix))).

(** ** hybrid.go *)

Record SearchWeights := { sw_Keyword : float64; sw_Vector : float64 }.

Definition default_weights : SearchWeights := {| sw_Keyword := f64_ratio 3 10; sw_Vector := f64_ratio 7 10 |}.

Definition normalizeScores (results : list SearchResult) : list SearchResult :=
  match results, last results with
  | first :: _, Some lst =>
      let maxScore := res_Score first in
      let minScore := res_Score lst in
      if SFeqb maxScore minScore then results
      else (λ r, {| res_ID := res_ID r; res_Content := res_Content r;
                    res_Score := f64_div (f64_sub (res_Score r) minScore) (f64_sub maxScore minScore) |}) <$> results
  | _, _ => results
  end.

Definition scaled (w : float64) (r : SearchResult) : SearchResult :=
  {| res_ID := res_ID r; res_Content := res_Content r; res_Score := f64_mul (res_Score r) w |}.

Definition merge_keyword (w : SearchWeights) (m : gmap string SearchResult) (r : SearchResult) : gmap string SearchResult :=
  <[res_ID r := scaled (sw_Keyword w) r]> m.

Definition merge_vector (w : SearchWeights) (m : gmap string SearchResult) (r : SearchResult) : gmap string SearchResult :=
  <[res_ID r := match m !! res_ID r with
                | Some e => {| res_ID := res_ID e; res_Content := res_Content e;
                               res_Score := f64_add (res_Score e) (f64_mul (res_Score r) (sw_Vector w)) |}
                | None => scaled (sw_Vector w) r
                end]> m.

Definition scoreMap (w : SearchWeights) (keyword vector : list SearchResult) : gmap string SearchResult :=
  foldl (merge_vector w) (foldl (merge_keyword w) ∅ (normalizeScores keyword)) (normalizeScores vector).

(** [range] gives the entries of a map in the order of the loop. *)
Definition mergeResults (range : gmap string SearchResult → list SearchResult) (w : SearchWeights)
    (keyword vector : list SearchResult) : list SearchResult :=
  sort_slice by_score_desc (range (scoreMap w keyword vector)).

(** [vectorSearch] is the interface [VectorStore] of the package. *)
Definition hybrid_Search (range : gmap string SearchResult → list SearchResult) (w : SearchWeights) (ix : BM25Index)
    (vectorSearch : string → Z → result goerror (list SearchResult)) (query : string) (limit : Z)
    : option (result goerror (list SearchResult)) :=
  keywordResults ← bm25_Search ix query (wrap64 (limit * 2));
  match vectorSearch query (wrap64 (limit * 2)) with
  | Err e => Some (Err e)
  | Ok vectorResults => merged ← cap limit (mergeResults range w keywordResults vectorResults); Some (Ok merged)
  end.
End bm25.

(** ** vectordb/bm25.go *)

Section scorer.
Context `{U : UnicodeCase} (math_log : float64 → float64).

Record BM25Scorer := { bs_docCount : Z; bs_avgDocLen : float64; bs_idf : gmap string float64 }.

Definition bs_k1 : float64 := f64_ratio 12 10.

Definition NewBM25Scorer : BM25Scorer := {| bs_docCount := 0; bs_avgDocLen := f64_zero; bs_idf := ∅ |}.

(** [strings.Fields]: the text is cut at white space; [fuel] is its length. *)
Fixpoint white_fields (fuel : nat) (cur l : bytes) : list bytes :=
  match fuel, l with
  | S fuel, c :: l' =>
      let rest := if is_ascii_space c then Some l' else first_some (λ r, strip_prefix r l) space_runes in
      match rest with
      | Some k => match cur with [] => white_fields fuel [] k | _ => reverse cur :: white_fields fuel [] k end
      | None => white_fields fuel (c :: cur) l'
      end
  | _, _ => match cur with [] => [] | _ => [reverse cur] end
  end.
Definition Fields (s : string) : list string := l2s <$> white_fields (str_len s) [] (s2l s).

Definition scorer_tokenize (text : string) : list string := Fields (to_lower text).

Definition getIDF (s : BM25Scorer) (term : string) : float64 := default f64_one (bs_idf s !! term).

Definition scorer_term (s : BM25Scorer) (tf : gmap string Z) (docLen : float64) (score : float64) (qt : string) : float64 :=
  match tf !! qt with
  | None => score
  | Some freq =>
      let numerator := f64_mul (f64_of_Z freq) (f64_add bs_k1 f64_one) in
      let denominator := f64_add (f64_of_Z freq)
            (f64_mul bs_k1 (f64_add (f64_sub f64_one bm25_b) (f64_div (f64_mul bm25_b docLen) (bs_avgDocLen s)))) in
      f64_add score (f64_mul (getIDF s qt) (f64_div numerator denominator))
  end.

(** The first document scored sets the average length when none is known. *)
Definition Score (query doc : string) (s : BM25Scorer) : BM25Scorer * float64 :=
  let queryTerms := scorer_tokenize query in
  let docTerms := scorer_tokenize doc in
  if bool_decide (queryTerms = []) || bool_decide (docTerms = []) then (s, f64_zero)
  else
    let tf := calculateTermFreq docTerms in
    let docLen := f64_of_Z (Z.of_nat (length docTerms)) in
    let s := if SFeqb (bs_avgDocLen s) f64_zero
             then {| bs_docCount := bs_docCount s; bs_avgDocLen := docLen; bs_idf := bs_idf s |} else s in
    (s, foldl (scorer_term s tf docLen) f64_zero queryTerms).

Definition UpdateStats (docCount : Z) (avgDocLen : float64) (termDocFreq : gmap string Z) (s : BM25Scorer) : BM25Scorer :=
  {| bs_docCount := docCount; bs_avgDocLen := avgDocLen;
     bs_idf := map_fold (λ t df idf,
       <[t := math_log (f64_add (f64_div (f64_add (f64_sub (f64_of_Z docCount) (f64_of_Z df)) f64_half)
                                          (f64_add (f64_of_Z df) f64_half)) f64_one)]> idf) (bs_idf s) termDocFreq |}.
End scorer.

(** ** Lemmas *)

(** A fold of insertions over a map overrides the entries of the map. *)
Lemma map_fold_insert {V B} (f : string → V → B) (m : gmap string V) (acc : gmap string B) k :
  map_fold (λ t v acc, <[t := f t v]> acc) acc m !! k = match m !! k with Some v => Some (f k v) | None => acc !! k end.
Proof.
  apply (map_fold_weak_ind (λ (r : gmap string B) (m : gmap string V), r !! k = match m !! k with Some v => Some (f k v) | None => acc !! k end)).
  - by rewrite lookup_empty.
  - intros i x m' r Hi IH. destruct (decide (i = k)) as [->|Hne].
    + by rewrite !lookup_insert_eq.
    + by rewrite !lookup_insert_ne.
Qed.

(** Counting the keys of a map. *)
Lemma map_fold_count (m freq : gmap string Z) k :
  map_fold (λ t (_ : Z) freq, <[t := default 0 (freq !! t) + 1]> freq) freq m !! k
  = match m !! k with Some _ => Some (default 0 (freq !! k) + 1) | None => freq !! k end.
Proof.
  apply (map_fold_weak_ind (λ (r : gmap string Z) (m : gmap string Z),
    r !! k = match m !! k with Some _ => Some (default 0 (freq !! k) + 1) | None => freq !! k end)).
  - by rewrite lookup_empty.
  - intros i x m' r Hi IH. destruct (decide (i = k)) as [->|Hne].
    + rewrite !lookup_insert_eq, IH, Hi. done.
    + by rewrite !lookup_insert_ne.
Qed.

Definition has_term (t : string) (d : Document) : bool := bool_decide (is_Some (doc_termFreq d !! t)).

(** In how many documents a term occurs. *)
Definition occurrences (t : string) (docs : list Document) : Z := sum_of (λ d, if has_term t d then 1 else 0) docs.

Lemma occurrences_nonneg t docs : 0 ≤ occurrences t docs.
Proof. apply sum_of_nonneg. intros d. by destruct (has_term t d). Qed.

Lemma occurrences_snoc t docs d : occurrences t (docs ++ [d]) = occurrences t docs + if has_term t d then 1 else 0.
Proof. unfold occurrences. rewrite sum_of_app, sum_of_cons. unfold sum_of at 2. simpl. lia. Qed.

Lemma docFreq_spec docs t :
  docFreq docs !! t = if bool_decide (occurrences t docs = 0) then None else Some (occurrences t docs).
Proof.
  unfold docFreq. induction docs as [|d docs IH] using rev_ind; [done|].
  rewrite foldl_snoc, map_fold_count, IH, occurrences_snoc. pose proof (occurrences_nonneg t docs) as Hn.
  unfold has_term. destruct (doc_termFreq d !! t) as [x|].
  - rewrite (bool_decide_true (is_Some _)) by done. rewrite (bool_decide_false (_ + 1 = 0)) by lia.
    case_bool_decide as Hz; simpl; f_equal; lia.
  - rewrite (bool_decide_false (is_Some _)) by (by intros [? ?]). by rewrite Z.add_0_r.
Qed.

(** *** The index against its definition *)

Section index_lemmas.
Context `{U : UnicodeCase} (math_log : float64 → float64) `{SS : SliceSort}.

Definition add_documents (docs : list (string * string)) (ix : BM25Index) : BM25Index :=
  foldl (λ ix d, AddDocument math_log d.1 d.2 ix) ix docs.

Lemma docFreq_grows docs d t : is_Some (docFreq docs !! t) → is_Some (docFreq (docs ++ [d]) !! t).
Proof.
  rewrite !docFreq_spec, occurrences_snoc. pose proof (occurrences_nonneg t docs) as Hn.
  destruct (bool_decide_reflect (occurrences t docs = 0)) as [Hz|Hz]; [by intros [? ?]|].
  intros _. rewrite bool_decide_false; [done|]. destruct (has_term t d); lia.
Qed.

(** After any documents were added, the inverse frequency kept for a term is the one
    of the number of documents it occurs in, terms that occur nowhere have none, and the
    average length is that of all documents, although the index only ever updates. *)
Theorem index_statistics docs t :
  let ix := add_documents docs NewBM25Index in
  let n := Z.of_nat (length docs) in
  (doc_ID <$> ix_documents ix = docs.*1)
  ∧ ix_idf ix !! t = (if bool_decide (occurrences t (ix_documents ix) = 0) then None
                      else Some (idf_of math_log n (occurrences t (ix_documents ix))))
  ∧ (docs ≠ [] → ix_avgDocLen ix = f64_div (f64_of_Z (sum_of (λ d, Z.of_nat (length (tokenize d.2))) docs)) (f64_of_Z n)).
Proof.
  intros ix n. unfold ix, n. clear ix n.
  assert (∀ docs, let ix := add_documents docs NewBM25Index in
     doc_ID <$> ix_documents ix = docs.*1
     ∧ doc_tokens <$> ix_documents ix = (λ d, tokenize d.2) <$> docs
     ∧ (∀ t, ix_idf ix !! t = idf_of math_log (Z.of_nat (length docs)) <$> docFreq (ix_documents ix) !! t)
     ∧ (docs ≠ [] → ix_avgDocLen ix = f64_div (f64_of_Z (sum_of (λ d, Z.of_nat (length (doc_tokens d))) (ix_documents ix)))
                                              (f64_of_Z (Z.of_nat (length docs))))) as Hall.
  { clear. intros docs. induction docs as [|d docs IH] using rev_ind; [by split_and!|].
    destruct IH as (Hid & Htok & Hidf & _). unfold add_documents in *. rewrite foldl_snoc.
    set (ix := foldl _ NewBM25Index docs) in *. unfold AddDocument, updateIDF. cbn [ix_documents ix_idf ix_avgDocLen].
    assert (length (ix_documents ix) = length docs) as Hlen.
    { apply (f_equal length) in Hid. by rewrite !length_fmap in Hid. }
    rewrite !fmap_app, Hid, Htok, !length_app, Hlen. cbn [length]. split_and!; [done|done| |].
    - intros t. rewrite map_fold_insert, Hidf. set (new := {| doc_ID := d.1 |}).
      destruct (docFreq (ix_documents ix ++ [new]) !! t) as [df|] eqn:Hdf; [done|].
      destruct (docFreq (ix_documents ix) !! t) as [df|] eqn:Hold; [|done].
      destruct (docFreq_grows (ix_documents ix) new t) as [x Hx]; [by eexists|congruence].
    - intros _. by rewrite (proj2 (Z.ltb_lt _ _)) by lia. }
  destruct (Hall docs) as (Hid & Htok & Hidf & Havg). split; [done|]. split.
  - rewrite Hidf, docFreq_spec. by case_bool_decide.
  - intros Hne. rewrite (Havg Hne). do 2 f_equal. clear Hall Havg Hidf Hid Hne.
    revert Htok. generalize (ix_documents (add_documents docs NewBM25Index)) as l.
    induction docs as [|d docs IH]; intros [|x l] Htok; try done. rewrite !fmap_cons in Htok.
    injection Htok as Hx Hl. rewrite !sum_of_cons, Hx, (IH l Hl). done.
Qed.

(** *** Searching *)

Lemma cap_Some {A} limit (l r : list A) : cap limit l = Some r → r `prefix_of` l ∧ Z.of_nat (length r) ≤ Z.max limit (Z.of_nat (length r)) ∧ (Z.of_nat (length l) ≤ limit → r = l) ∧ (limit < Z.of_nat (length l) → Z.of_nat (length r) = limit).
Proof.
  unfold cap. destruct (Z.ltb_spec limit (Z.of_nat (length l))) as [Hlt|].
  - destruct (Z.ltb_spec limit 0); [done|]. intros [= <-]. split_and!; [apply prefix_take|lia|lia|].
    intros _. rewrite length_take. lia.
  - intros [= <-]. split_and!; [done|lia|done|lia].
Qed.

Definition with_id (l : list SearchResult) (id : string) : Prop := id ∈ res_ID <$> l.

Lemma normalize_ids l : res_ID <$> normalizeScores l = res_ID <$> l.
Proof.
  unfold normalizeScores. destruct l as [|x l]; [done|]. destruct (last (x :: l)); [|done].
  destruct (SFeqb _ _); [done|]. by rewrite <- list_fmap_compose.
Qed.

(** The map holds the results of both searches under their own identifiers. *)
Lemma merge_keyword_ids w l m :
  (∀ id r, m !! id = Some r → res_ID r = id) →
  (∀ id r, foldl (merge_keyword w) m l !! id = Some r → res_ID r = id)
  ∧ ∀ id, is_Some (foldl (merge_keyword w) m l !! id) ↔ is_Some (m !! id) ∨ with_id l id.
Proof.
  revert m. induction l as [|x l IH]; intros m Hm.
  { split; [done|]. intros id. unfold with_id. simpl. rewrite elem_of_nil. tauto. }
  cbn [foldl]. destruct (IH (merge_keyword w m x)) as [H1 H2].
  { unfold merge_keyword. intros id r [[<- <-]|[_ ?]]%lookup_insert_Some; [done|by apply Hm]. }
  split; [exact H1|]. intros id. rewrite H2. unfold merge_keyword, with_id. rewrite lookup_insert_is_Some', fmap_cons, elem_of_cons.
  naive_solver.
Qed.

Lemma merge_vector_ids w l m :
  (∀ id r, m !! id = Some r → res_ID r = id) →
  (∀ id r, foldl (merge_vector w) m l !! id = Some r → res_ID r = id)
  ∧ ∀ id, is_Some (foldl (merge_vector w) m l !! id) ↔ is_Some (m !! id) ∨ with_id l id.
Proof.
  revert m. induction l as [|x l IH]; intros m Hm.
  { split; [done|]. intros id. unfold with_id. simpl. rewrite elem_of_nil. tauto. }
  cbn [foldl]. destruct (IH (merge_vector w m x)) as [H1 H2].
  { unfold merge_vector. intros id r [[<- <-]|[_ ?]]%lookup_insert_Some; [|by apply Hm].
    destruct (m !! res_ID x) as [e|] eqn:He; [simpl; by apply Hm|done]. }
  split; [exact H1|]. intros id. rewrite H2. unfold merge_vector, with_id. rewrite lookup_insert_is_Some', fmap_cons, elem_of_cons.
  naive_solver.
Qed.

(** The hybrid search answers each identifier at most once and only identifiers that
    one of the two searches found; none is lost when the limit allows; the answer is sorted
    by score when no score is a NaN.  It fails exactly when the vector search does, and
    panics only for a negative limit. *)
Theorem hybrid_Search_spec range w ix vectorSearch query limit :
  (∀ m, range m ≡ₚ (map_to_list m).*2) →
  - 2 ^ 62 ≤ limit < 2 ^ 62 →
  match hybrid_Search range w ix vectorSearch query limit with
  | None => limit < 0
  | Some (Err e) => vectorSearch query (limit * 2) = Err e
  | Some (Ok merged) =>
      ∃ kw vec, bm25_Search ix query (limit * 2) = Some kw ∧ vectorSearch query (limit * 2) = Ok vec
        ∧ NoDup (res_ID <$> merged)
        ∧ (∀ id, with_id merged id → with_id kw id ∨ with_id vec id)
        ∧ (Z.of_nat (length merged) < limit → ∀ id, with_id kw id ∨ with_id vec id → with_id merged id)
        ∧ (limit < Z.of_nat (length merged) → False)
        ∧ (Forall (λ r, is_nan (res_Score r) = false) (range (scoreMap w kw vec)) →
           StronglySorted (λ x y, SFltb (res_Score x) (res_Score y) = false) merged)
  end.
Proof.
  intros Hrange Hlim. unfold hybrid_Search.
  assert (wrap64 (limit * 2) = limit * 2) as -> by (apply wrap64_id; unfold min_int64, max_int64; lia).
  destruct (bm25_Search ix query (limit * 2)) as [kw|] eqn:Hkw; simpl.
  2:{ unfold bm25_Search, cap in Hkw. destruct (_ <? _); [|done]. destruct (Z.ltb_spec (limit * 2) 0); [lia|done]. }
  destruct (vectorSearch query (limit * 2)) as [vec|e] eqn:Hvec; [|done].
  destruct (cap limit (mergeResults range w kw vec)) as [merged|] eqn:Hcap; simpl.
  2:{ unfold cap in Hcap. destruct (_ <? _); [|done]. destruct (Z.ltb_spec limit 0); [lia|done]. }
  exists kw, vec. split; [done|]. split; [done|].
  destruct (merge_keyword_ids w (normalizeScores kw) ∅) as [Hk1 Hk2]; [by intros ? ? ?%lookup_empty_Some|].
  destruct (merge_vector_ids w (normalizeScores vec) _ Hk1) as [Hv1 Hv2].
  fold (scoreMap w kw vec) in Hv1, Hv2.
  assert (mergeResults range w kw vec ≡ₚ (map_to_list (scoreMap w kw vec)).*2) as Hperm.
  { unfold mergeResults. by rewrite sort_slice_perm, Hrange. }
  assert (∀ id, with_id (mergeResults range w kw vec) id ↔ with_id kw id ∨ with_id vec id) as Hids.
  { intros id. unfold with_id at 1. rewrite Hperm, <- list_fmap_compose, list_elem_of_fmap.
    transitivity (is_Some (scoreMap w kw vec !! id)).
    - split.
      + intros ([k r] & -> & Hin%elem_of_map_to_list). simpl. rewrite (Hv1 _ _ Hin). by eexists.
      + intros [r Hr]. exists (id, r). split; [simpl; by rewrite (Hv1 _ _ Hr)|by apply elem_of_map_to_list].
    - rewrite Hv2, Hk2, lookup_empty. unfold with_id. rewrite !normalize_ids. split; [intros [[[? ?]|?]|?]; naive_solver|naive_solver]. }
  assert (NoDup (res_ID <$> mergeResults range w kw vec)) as Hnd.
  { rewrite Hperm, <- list_fmap_compose.
    assert ((res_ID ∘ snd) <$> map_to_list (scoreMap w kw vec) = (map_to_list (scoreMap w kw vec)).*1) as ->.
    { apply list_fmap_ext. intros i [k r] Hi. simpl. apply Hv1, elem_of_map_to_list. by eapply list_elem_of_lookup_2. }
    apply NoDup_fst_map_to_list. }
  destruct (cap_Some _ _ _ Hcap) as ([tail Htail] & _ & Hfit & Hover).
  rewrite Htail in Hnd, Hids, Hfit, Hover. rewrite length_app in Hfit, Hover.
  assert (∀ id, with_id merged id → with_id (merged ++ tail) id) as Hsub.
  { intros id. unfold with_id. rewrite fmap_app, elem_of_app. by left. }
  split_and!.
  - rewrite fmap_app in Hnd. by apply NoDup_app in Hnd as [? _].
  - intros id Hid. by apply Hids, Hsub.
  - intros Hlt id Hid. destruct (Z.le_gt_cases (Z.of_nat (length merged + length tail)) limit) as [Hle|Hgt].
    + rewrite (Hfit Hle). by apply Hids.
    + specialize (Hover ltac:(lia)). lia.
  - intros Hgt. destruct (Z.le_gt_cases (Z.of_nat (length merged + length tail)) limit); [lia|].
    specialize (Hover ltac:(lia)). lia.
  - intros Hnan. assert (StronglySorted (λ x y, SFltb (res_Score x) (res_Score y) = false) (merged ++ tail)) as Hs.
    { rewrite <- Htail. unfold mergeResults, by_score_desc.
      apply (sort_slice_sorted (λ r, is_nan (res_Score r) = false)); [apply score_order|done]. }
    by apply StronglySorted_app in Hs as (_ & ? & _).
Qed.
End index_lemmas.

(** ** Witnesses *)

Definition w_index : BM25Index :=
  add_documents (U := bytewise_case) (λ _, f64_one) [("a", "tea and milk"); ("b", "tea"); ("c", "milk")]%string NewBM25Index.

Definition w_vectors (query : string) (limit : Z) : result goerror (list SearchResult) :=
  Ok [{| res_ID := "b"; res_Content := "tea"; res_Score := f64_one |}; {| res_ID := "d"; res_Content := "cup"; res_Score := f64_half |}].

Definition w_range (m : gmap string SearchResult) : list SearchResult := (map_to_list m).*2.

Definition w_merged : list SearchResult :=
  match hybrid_Search (U := bytewise_case) (SS := stable_sort) w_range default_weights w_index w_vectors "Tea" 2 with
  | Some (Ok l) => l | _ => [] end.

Lemma hybrid_Search_spec_witness : NoDup (res_ID <$> w_merged) ∧ res_ID <$> w_merged = ["b"; "a"]%string.
Proof.
  split; [|vm_compute; reflexivity].
  pose proof (hybrid_Search_spec (U := bytewise_case) (SS := stable_sort) w_range default_weights w_index w_vectors "Tea" 2
                (λ m, reflexivity _) ltac:(lia)) as H.
  assert (hybrid_Search (U := bytewise_case) (SS := stable_sort) w_range default_weights w_index w_vectors "Tea" 2 = Some (Ok w_merged)) as Heq
    by (vm_compute; reflexivity).
  rewrite Heq in H. by destruct H as (kw & vec & _ & _ & Hnd & _).
Defined.

(** A term that at least half of the documents contain has a logarithm of at most zero and
    adds nothing that could be found: with one document its own words do not find it.
    [-1.0986...] is the logarithm of a third. *)
Example single_document_not_found :
  bm25_Search (U := bytewise_case) (SS := stable_sort)
    (AddDocument (U := bytewise_case) (λ _, S754_finite true 4947709893870347 (-52)) "a" "hello" NewBM25Index) "hello" 10 = Some [].
Proof. vm_compute. reflexivity. Qed.
