(* ===== verification/Consolidation.v ===== *)
(** [pkg/plugins/memoryconsolidation]: after a run, the conversation is given to a model
    that extracts memories, and these are stored as points of a vector database; older
    similar memories are marked as superseded.

    The vector database, the embedder and the model are third-party.  [VectorStore] of
    [Stores] is the interface of the database, [VectorLaws] what the plugin relies on.  Scores are binary32 numbers.  The values of a tool call are the dynamic
    values of [Values]; [function_call] projects the call out of the fields of a part
    that the other models do not look into.  Log lines are left out. *)
From stdpp Require Import pretty.
From S2P Require Import Prelude GoStrings Floats Values Types Stores Pruning Compression.

(** ** Data *)

Record MemoryEntry := { me_Category : string; me_Text : string; me_Scope : string; me_Permanent : option bool }.

Record VectorMemory := { vm_ID : string; vm_Category : string; vm_Text : string; vm_Scope : string }.

Record MemoryEvent := { mv_TenantID : string; mv_UserID : string; mv_Category : string; mv_Summary : string; mv_CreatedAt : time }.

(** ** parse.go *)

Definition strVal (m : list (string * jany)) (key : string) : string :=
  match jget key m with Some (JStr v) => v | _ => "" end.

(** One item of the loop of [parseEntries]. *)
Definition parse_item (item : jany) : option MemoryEntry :=
  match item with
  | JObj m =>
      let text := strVal m "text" in
      let scope := strVal m "scope" in
      if str_empty text then None
      else Some {| me_Category := strVal m "category"; me_Text := text;
                   me_Scope := if str_empty scope then "tenant" else scope;
                   me_Permanent := match jget "permanent" m with Some (JBool p) => Some p | _ => None end |}
  | _ => None
  end.

Inductive parse_error := ErrNoToolCall | ErrNoEntries | ErrNotArray | ErrLLM (e : goerror) | ErrEmptyResponse.

Definition parseEntries (args : list (string * jany)) : result parse_error (list MemoryEntry) :=
  match jget "entries" args with
  | None => Err ErrNoEntries
  | Some (JArr arr) => Ok (omap parse_item arr)
  | Some _ => Err ErrNotArray
  end.

Section consolidation.
Context (function_call : Part → option (string * list (string * jany))).

Definition saves_memories (p : Part) : option (list (string * jany)) :=
  '(name, args) ← function_call p; if bool_decide (name = "save_memories"%string) then Some args else None.

Definition ParseToolCall (content : Content) : result parse_error (list MemoryEntry) :=
  match first_some saves_memories (ct_Parts content) with
  | Some args => parseEntries args
  | None => Err ErrNoToolCall
  end.

(** ** extract.go *)

Definition extractConversation (sess : Session) : string :=
  String.concat "" (flat_map (λ ev,
    match ev with
    | Some ev =>
        match ev_Content ev with
        | Some c =>
            let author := if str_empty (ev_Author ev) then "system"%string else ev_Author ev in
            flat_map (λ p,
              (if str_empty (part_Text p) then [] else ["[" +:+ author +:+ "] " +:+ part_Text p +:+ nl]) ++
              (match function_call p with
               | Some (name, _) => ["[" +:+ author +:+ "] called tool: " +:+ name +:+ nl]
               | None => []
               end)) (ct_Parts c)
        | None => []
        end
    | None => []
    end) (ss_Events sess)).

(** ** prompt.go *)

Definition prompt_rules : string := String.concat nl [
  "You are a memory consolidation assistant. Analyze the conversation and extract important memories as categorized entries.";
  "";
  "## Rules";
  "- Each memory should be concise, self-contained, and categorized";
  "- Categories are free-form: preference, fact, event, instruction, relationship, skill, goal, etc.";
  "- Scope " +:+ quoted "tenant" +:+ " = shared knowledge about the workspace/group";
  "- Scope " +:+ quoted "user" +:+ " = personal to the specific user (preferences, habits, personal info)";
  "- If a memory updates or contradicts an existing one, output the NEW version (the system handles dedup)";
  "- Do NOT repeat existing memories that haven't changed";
  "- Only extract genuinely useful information, skip trivial chatter";
  "- Prefer saving facts over actions. e.g. " +:+ quoted "User likes dark mode" +:+ " > "
    +:+ quoted "I changed the setting";
  "- Use the permanent field: true for preference/identity/instruction/fact (never decays), "
    +:+ "false for event/goal/general (decays over time)";
  ""; ""]%string.

Definition memory_lines (title : string) (ms : list VectorMemory) : string :=
  title +:+ nl +:+ String.concat "" ((λ m, "- [" +:+ vm_Category m +:+ "] " +:+ vm_Text m +:+ nl) <$> ms) +:+ nl.

Definition is_nil {A} (l : list A) : bool := match l with [] => true | _ => false end.

Definition BuildPrompt (conversation : string) (existingTenant existingUser : list VectorMemory) (hasUser : bool) : string :=
  prompt_rules
  +:+ (if is_nil existingTenant then "" else memory_lines "## Existing Tenant Memories" existingTenant)
  +:+ (if hasUser && negb (is_nil existingUser) then memory_lines "## Existing User Memories" existingUser else "")
  +:+ "## Conversation" +:+ nl +:+ conversation +:+ nl +:+ nl
  +:+ "Call the save_memories tool with the extracted entries."
  +:+ (if hasUser then "" else " All entries must have scope " +:+ quoted "tenant" +:+ ".").

(** ** llm.go *)

Definition consolidate (llm : string → list (result goerror (option Content))) (conversation : string)
    (existingTenant existingUser : list VectorMemory) (hasUser : bool) : result parse_error (list MemoryEntry) :=
  match last_response None (llm (BuildPrompt conversation existingTenant existingUser hasUser)) with
  | Err e => Err (ErrLLM e)
  | Ok (Some (Some content)) => ParseToolCall content
  | Ok _ => Err ErrEmptyResponse
  end.
End consolidation.

(** ** persist.go *)

Section store.
Context {St Vec : Type} `{VectorStore St Vec}.
(** The embedder: [Embed] of one text, its dimension as the zero vector, and the zero
    vector of the length of another; [rfc3339] formats a time. *)
Context (Embed : string → result goerror (list Vec)) (zero_dim : Vec) (zero_like : Vec → Vec).
Context (rfc3339 : time → string).

(** 0.85, the binary32 number nearest to it. *)
Definition defaultDedupScore : spec_float := S754_finite false 14260634 (-24).

Record consolidator := {
  co_threshold : Z; co_dedupScore : spec_float;
  co_llm : string → list (result goerror (option Content));
}.

Definition zero_score : spec_float := S754_zero false.

(** [New] with the defaults of its configuration. *)
Definition Consolidator_New (llm : string → list (result goerror (option Content))) (MessageThreshold : Z)
    (DedupScore : spec_float) : consolidator :=
  {| co_threshold := if MessageThreshold <=? 0 then 50 else MessageThreshold;
     co_dedupScore := if SFleb DedupScore zero_score then defaultDedupScore else DedupScore;
     co_llm := llm |}.

Definition permanentCategories : list string := ["preference"; "identity"; "instruction"; "fact"]%string.

Definition isPermanent (e : MemoryEntry) : bool :=
  match me_Permanent e with Some p => p | None => bool_decide (me_Category e ∈ permanentCategories) end.

(** [now.UnixMilli()]. *)
Definition unix_epoch : time := 62135596800 * Second.
Definition UnixMilli (t : time) : Z := (t - unix_epoch) `div` 1000000.

Definition memory_id (tenantID : string) (now : time) : string :=
  "mem_" +:+ tenantID +:+ "_" +:+ pretty (UnixMilli now).

Definition dedup_filter (userID : string) (e : MemoryEntry) : payload :=
  let f := <["superseded" := JBool false]> {[ "scope"%string := JStr (me_Scope e) ]} in
  if bool_decide (me_Scope e = "user"%string) then <["user_id" := JStr userID]> f else f.

Definition supersede_payload (newID : string) (now : time) (p : payload) : payload :=
  <["superseded_at" := JStr (rfc3339 now)]> (<["superseded_by" := JStr newID]> (<["superseded" := JBool true]> p)).

(** The loop that marks similar entries; a failed write is only logged. *)
Fixpoint supersede_loop (coll newID : string) (now : time) (threshold : spec_float) (zeroVec : Vec)
    (results : list VectorResult) (s : St) : St :=
  match results with
  | [] => s
  | r :: results =>
      if SFltb (vr_Score r) threshold then supersede_loop coll newID now threshold zeroVec results s
      else supersede_loop coll newID now threshold zeroVec results
             (vs_Upsert coll (vr_ID r) zeroVec (supersede_payload newID now (vr_Payload r)) s).1
  end.

Definition entry_payload (userID : string) (now : time) (e : MemoryEntry) : payload :=
  let p := <["text" := JStr (me_Text e)]> (<["category" := JStr (me_Category e)]> (<["scope" := JStr (me_Scope e)]>
           (<["superseded" := JBool false]> (<["permanent" := JBool (isPermanent e)]> (<["access_count" := JNum 0]>
           (<["created_at" := JStr (rfc3339 now)]> {[ "source"%string := JStr "consolidation" ]})))))) in
  if negb (str_empty userID) && bool_decide (me_Scope e = "user"%string) then <["user_id" := JStr userID]> p else p.

(** [persistEntry]; [None] is the panic of [vecs[0]] on an empty answer. *)
Definition persistEntry (c : consolidator) (coll tenantID userID : string) (e : MemoryEntry) (now : time) (s : St)
    : option St :=
  match Embed (me_Text e) with
  | Err _ => Some s
  | Ok [] => None
  | Ok (vec :: _) =>
      let threshold := if SFleb (co_dedupScore c) zero_score then defaultDedupScore else co_dedupScore c in
      let results := match vs_Search coll vec (dedup_filter userID e) 5 s with Ok l => l | Err _ => [] end in
      let newID := memory_id tenantID now in
      let s := supersede_loop coll newID now threshold (zero_like vec) results s in
      Some (vs_Upsert coll newID vec (entry_payload userID now e) s).1
  end.

Definition skipped (userID : string) (e : MemoryEntry) : bool :=
  bool_decide (me_Scope e = "user"%string) && str_empty userID.

(** The loop of [persist] over the entries with the clock readings of [persistEntry]. *)
Fixpoint persist_loop (c : consolidator) (coll tenantID userID : string) (entries : list (MemoryEntry * time))
    (s : St) : option St :=
  match entries with
  | [] => Some s
  | (e, now) :: entries =>
      if skipped userID e then persist_loop c coll tenantID userID entries s
      else s ← persistEntry c coll tenantID userID e now s; persist_loop c coll tenantID userID entries s
  end.

Definition collection_of (tenantID : string) : string := "tenant_" +:+ tenantID.

Definition persist (c : consolidator) (tenantID userID : string) (entries : list (MemoryEntry * time)) (s : St)
    : option St :=
  if is_nil entries then Some s
  else match vs_EnsureCollection (collection_of tenantID) s with
       | (s, Some _) => Some s
       | (s, None) => persist_loop c (collection_of tenantID) tenantID userID entries s
       end.

Definition payloadStr (p : payload) (key : string) : string := match p !! key with Some (JStr v) => v | _ => "" end.

Definition loadVectorMemories (tenantID userID : string) (s : St) : list VectorMemory :=
  let f : payload := {[ "superseded"%string := JBool false ]} in
  let f := if str_empty userID then <["scope" := JStr "tenant"]> f
           else <["user_id" := JStr userID]> (<["scope" := JStr "user"]> f) in
  match vs_Search (collection_of tenantID) zero_dim f 100 s with
  | Err _ => []
  | Ok results =>
      (λ r, {| vm_ID := vr_ID r; vm_Category := payloadStr (vr_Payload r) "category";
               vm_Text := payloadStr (vr_Payload r) "text"; vm_Scope := payloadStr (vr_Payload r) "scope" |}) <$> results
  end.

(** ** consolidator.go *)

Definition stateString (sess : Session) (key : string) : string :=
  match ss_State sess !! key with Some (AStr s) => s | _ => "" end.

(** The event of [writeEventLog], when it writes one. *)
Definition writeEventLog (tenantID userID : string) (entries : list MemoryEntry) (now : time) : option MemoryEvent :=
  if is_nil entries then None
  else Some {| mv_TenantID := tenantID; mv_UserID := userID; mv_Category := "consolidation";
               mv_Summary := "Consolidated " +:+ pretty (length entries) +:+ " memories"; mv_CreatedAt := now |}.

(** [afterRun] with the clock readings it may need: the store and the event written. *)
Definition afterRun (function_call : Part → option (string * list (string * jany))) (c : consolidator)
    (sess : Session) (clock : nat → time) (s : St) : option (St * option MemoryEvent) :=
  if n_events sess <? co_threshold c then Some (s, None)
  else
    let tenantID := stateString sess "tenant_id" in
    let userID := stateString sess "user_id" in
    if str_empty tenantID then Some (s, None)
    else
      let conversation := extractConversation function_call sess in
      if str_empty conversation then Some (s, None)
      else
        let existingTenant := loadVectorMemories tenantID "" s in
        let existingUser := if str_empty userID then [] else loadVectorMemories tenantID userID s in
        match consolidate function_call (co_llm c) conversation existingTenant existingUser (negb (str_empty userID)) with
        | Err _ => Some (s, None)
        | Ok entries =>
            s ← persist c tenantID userID (imap (λ i e, (e, clock i)) entries) s;
            Some (s, writeEventLog tenantID userID entries (clock (length entries)))
        end.
End store.

(** ** Lemmas *)

Section store_lemmas.
Context {St Vec : Type} `{VectorLaws St Vec}.
Context (Embed : string → result goerror (list Vec)) (zero_dim : Vec) (zero_like : Vec → Vec).
Context (rfc3339 : time → string).

Definition text_of (p : payload) : option string := match p !! "text"%string with Some (JStr t) => Some t | _ => None end.

(** The text of the memory stored under an identifier. *)
Definition text_at (coll id : string) (s : St) : option string := vp ← vs_point coll id s; text_of vp.2.

Lemma text_of_supersede newID now p : text_of (supersede_payload rfc3339 newID now p) = text_of p.
Proof. unfold text_of, supersede_payload. by rewrite !lookup_insert_ne. Qed.

Lemma text_of_entry userID now e : text_of (entry_payload rfc3339 userID now e) = Some (me_Text e).
Proof.
  unfold text_of, entry_payload. destruct (_ && _); [rewrite lookup_insert_ne by done|];
    by rewrite lookup_insert, decide_True.
Qed.

Lemma text_at_upsert coll id v p s c id' :
  text_at c id' (vs_Upsert coll id v p s).1 =
    text_at c id' s ∨ (c, id') = (coll, id) ∧ text_at c id' (vs_Upsert coll id v p s).1 = text_of p.
Proof.
  unfold text_at. destruct (decide ((c, id') = (coll, id))) as [Heq|Hne].
  - injection Heq as -> ->. destruct (vs_Upsert coll id v p s) as [s' [e|]] eqn:Hu; simpl.
    + destruct (upsert_fails _ _ _ _ _ _ _ Hu) as [-> | ->]; [by left|by right].
    + right. by rewrite (upsert_ok _ _ _ _ _ _ Hu).
  - left. by rewrite upsert_other.
Qed.

(** Marking points as superseded changes no text. *)
Lemma supersede_loop_text coll newID now threshold z results s c id :
  (∀ r, r ∈ results → text_at coll (vr_ID r) s = text_of (vr_Payload r)) →
  text_at c id (supersede_loop rfc3339 coll newID now threshold z results s) = text_at c id s.
Proof.
  revert s. induction results as [|r results IH]; intros s Hr; cbn [supersede_loop]; [done|].
  assert (∀ c id, text_at c id (vs_Upsert coll (vr_ID r) z (supersede_payload rfc3339 newID now (vr_Payload r)) s).1
                  = text_at c id s) as Hup.
  { intros c' id'. destruct (text_at_upsert coll (vr_ID r) z
      (supersede_payload rfc3339 newID now (vr_Payload r)) s c' id') as [H1|[Heq H1]]; [done|].
    rewrite H1, text_of_supersede. injection Heq as -> ->. symmetry. apply Hr. by left. }
  destruct (SFltb _ _); [apply IH; intros r' Hr'; apply Hr; by right|].
  rewrite IH; [apply Hup|]. intros r' Hr'. rewrite Hup. apply Hr. by right.
Qed.

Lemma search_texts coll v f k s r :
  r ∈ match vs_Search coll v f k s with Ok l => l | Err _ => [] end →
  text_at coll (vr_ID r) s = text_of (vr_Payload r).
Proof.
  destruct (vs_Search coll v f k s) as [l|e] eqn:Hs; [|by intros ?%not_elem_of_nil].
  intros Hr. destruct (search_points _ _ _ _ _ _ _ Hs Hr) as [v' Hp]. unfold text_at. by rewrite Hp.
Qed.

Context (Hembed : ∀ t, ∃ v l, Embed t = Ok (v :: l)).
Context (Hupsert : ∀ coll id v p s, (vs_Upsert coll id v p s).2 = None).

Lemma persistEntry_text c coll tenantID userID e now s :
  ∃ s', persistEntry Embed zero_like rfc3339 c coll tenantID userID e now s = Some s'
    ∧ ∀ id, text_at coll id s' = if decide (id = memory_id tenantID now) then Some (me_Text e) else text_at coll id s.
Proof.
  unfold persistEntry. destruct (Hembed (me_Text e)) as (v & l & ->).
  eexists. split; [done|]. intros id.
  set (s1 := supersede_loop rfc3339 _ _ _ _ _ _ s).
  destruct (vs_Upsert coll (memory_id tenantID now) v (entry_payload rfc3339 userID now e) s1) as [s' o] eqn:Hu.
  assert (o = None) as -> by by rewrite <- (Hupsert coll (memory_id tenantID now) v (entry_payload rfc3339 userID now e) s1), Hu.
  simpl. destruct (decide (id = memory_id tenantID now)) as [->|Hne].
  - unfold text_at. rewrite (upsert_ok _ _ _ _ _ _ Hu). apply text_of_entry.
  - change s' with (s', @None goerror).1. rewrite <- Hu. unfold text_at at 1. rewrite upsert_other by congruence.
    apply (supersede_loop_text coll _ _ _ _ _ s coll id). intros r Hr. by eapply search_texts.
Qed.

Lemma persist_loop_text c coll tenantID userID entries s :
  ∃ s', persist_loop Embed zero_like rfc3339 c coll tenantID userID entries s = Some s'
    ∧ ∀ id, text_at coll id s' =
        match find_first (λ en, negb (skipped userID en.1) && bool_decide (memory_id tenantID en.2 = id)) (reverse entries) with
        | Some en => Some (me_Text en.1)
        | None => text_at coll id s
        end.
Proof.
  revert s. induction entries as [|[e now] entries IH]; intros s; cbn [persist_loop]; [by exists s|].
  assert (∀ (f : MemoryEntry * time → bool) l x, find_first f (l ++ [x]) =
    match find_first f l with Some y => Some y | None => if f x then Some x else None end) as Hff.
  { intros f l x. induction l as [|y l IHl]; simpl; [done|]. by destruct (f y). }
  destruct (skipped userID e) eqn:Hsk.
  - destruct (IH s) as (s' & Hs' & Ht). exists s'. split; [done|]. intros id. rewrite Ht, reverse_cons, Hff.
    destruct (find_first _ (reverse entries)); [done|]. cbn [fst]. by rewrite Hsk.
  - destruct (persistEntry_text c coll tenantID userID e now s) as (s1 & -> & Ht1). simpl.
    destruct (IH s1) as (s' & Hs' & Ht). exists s'. split; [done|]. intros id. rewrite Ht, reverse_cons, Hff.
    destruct (find_first _ (reverse entries)); [done|]. cbn [fst snd]. rewrite Hsk, Ht1. cbn [negb andb].
    destruct (decide (id = memory_id tenantID now)) as [->|Hne].
    + by rewrite bool_decide_true.
    + by rewrite bool_decide_false by congruence.
Qed.
End store_lemmas.

(** ** Properties *)

(** Without faults every extracted memory, but those of scope user without a user, is
    stored under the identifier made of the tenant and the millisecond, and no stored text
    is changed otherwise.  Of several memories of one millisecond only the last remains. *)
Theorem persist_stores {St Vec} `{VectorLaws St Vec} Embed zero_like rfc3339 c tenantID userID entries (s : St)
  (Hembed : ∀ t, ∃ (v : Vec) l, Embed t = Ok (v :: l))
  (Hupsert : ∀ coll id (v : Vec) p (s : St), (vs_Upsert coll id v p s).2 = None)
  (Hensure : ∀ coll (s : St), (vs_EnsureCollection coll s).2 = None) :
  let coll := collection_of tenantID in
  let stored en := skipped userID en.1 = false in
  let id en := memory_id tenantID en.2 in
  ∃ s', persist Embed zero_like rfc3339 c tenantID userID entries s = Some s'
  ∧ (∀ l1 en l2, entries = l1 ++ en :: l2 → stored en → Forall (λ en', stored en' → id en' ≠ id en) l2 →
       text_at coll (id en) s' = Some (me_Text en.1))
  ∧ (∀ i, Forall (λ en, stored en → id en ≠ i) entries → text_at coll i s' = text_at coll i s)
  ∧ (∀ e1 e2 now1 now2, entries = [(e1, now1); (e2, now2)] → UnixMilli now1 = UnixMilli now2 →
       skipped userID e2 = false → me_Text e1 ≠ me_Text e2 →
       ∀ i, text_at coll i s' = Some (me_Text e1) → text_at coll i s = Some (me_Text e1)).
Proof.
  intros coll stored id.
  assert (∃ s', persist Embed zero_like rfc3339 c tenantID userID entries s = Some s'
    ∧ ∀ i, text_at coll i s' =
        match find_first (λ en, negb (skipped userID en.1) && bool_decide (id en = i)) (reverse entries) with
        | Some en => Some (me_Text en.1)
        | None => text_at coll i s
        end) as (s' & Hs' & Ht).
  { unfold persist. destruct entries as [|en entries]; [by exists s|]. cbn [is_nil].
    pose proof (Hensure coll s) as He. fold coll. destruct (vs_EnsureCollection coll s) as [s1 o] eqn:Hens.
    simpl in He. subst o.
    destruct (persist_loop_text Embed zero_like rfc3339 Hembed Hupsert c coll tenantID userID (en :: entries) s1)
      as (s' & Hs' & Ht). exists s'. split; [done|]. intros i. rewrite Ht.
    assert (text_at coll i s1 = text_at coll i s) as ->; [|done].
    unfold text_at. change s1 with (s1, @None goerror).1. by rewrite <- Hens, ensure_points. }
  exists s'. split; [done|]. split; [|split].
  - intros l1 en l2 -> Hst Hl2. rewrite Ht.
    assert (find_first (λ en0, negb (skipped userID en0.1) && bool_decide (id en0 = id en))
              (reverse (l1 ++ en :: l2)) = Some en) as ->; [|done].
    apply find_first_Some. exists (reverse l2), (reverse l1). split_and!.
    + by rewrite reverse_app, reverse_cons, <- app_assoc.
    + rewrite bool_decide_true by done. unfold stored in Hst. by rewrite Hst.
    + apply Forall_reverse. eapply Forall_impl; [exact Hl2|]. intros en' Hne. cbv beta.
      destruct (skipped userID en'.1) eqn:Hs; [done|]. by rewrite bool_decide_false by by apply Hne.
  - intros i Hi. rewrite Ht. assert (find_first (λ en, negb (skipped userID en.1) && bool_decide (id en = i))
      (reverse entries) = None) as ->; [|done].
    apply find_first_None, Forall_reverse. eapply Forall_impl; [exact Hi|]. intros en Hne. cbv beta.
    destruct (skipped userID en.1) eqn:Hs; [done|]. by rewrite bool_decide_false by by apply Hne.
  - intros e1 e2 now1 now2 -> Hms Hst Htext i. rewrite Ht. unfold id. cbn [reverse rev_append find_first fst snd].
    rewrite Hst. unfold memory_id. rewrite Hms. cbn [negb andb]. case_bool_decide; [by intros [= Heq]|].
    by rewrite andb_false_r.
Qed.

(** Whether a result is similar enough to be superseded. *)
Definition similar (c : consolidator) (r : VectorResult) : bool :=
  negb (SFltb (vr_Score r) (if SFleb (co_dedupScore c) zero_score then defaultDedupScore else co_dedupScore c)).

Lemma supersede_loop_points {St Vec} `{VectorLaws St Vec} rfc3339 coll newID now threshold (z : Vec) results (s : St)
  (Hupsert : ∀ coll id (v : Vec) p (s : St), (vs_Upsert coll id v p s).2 = None) c id :
  let hit r := negb (SFltb (vr_Score r) threshold) && bool_decide ((c, id) = (coll, vr_ID r)) in
  vs_point c id (supersede_loop rfc3339 coll newID now threshold z results s) =
    match find_first hit (reverse results) with
    | Some r => Some (z, supersede_payload rfc3339 newID now (vr_Payload r))
    | None => vs_point c id s
    end.
Proof.
  intros hit. assert (∀ l x, find_first hit (l ++ [x]) =
    match find_first hit l with Some y => Some y | None => if hit x then Some x else None end) as Hff.
  { intros l x. induction l as [|y l IHl]; simpl; [done|]. by destruct (hit y). }
  revert s. induction results as [|r results IH]; intros s; cbn [supersede_loop]; [done|].
  rewrite reverse_cons, Hff. destruct (SFltb (vr_Score r) threshold) eqn:Hs; rewrite IH;
    destruct (find_first hit (reverse results)); try done; unfold hit; rewrite Hs; cbn [negb andb]; [done|].
  destruct (vs_Upsert coll (vr_ID r) z (supersede_payload rfc3339 newID now (vr_Payload r)) s) as [s' o] eqn:Hu.
  assert (o = None) as -> by by rewrite <- (Hupsert coll (vr_ID r) z (supersede_payload rfc3339 newID now (vr_Payload r)) s), Hu.
  cbn [fst]. case_bool_decide as Hid; [injection Hid as -> ->; by apply (upsert_ok _ _ _ _ _ _ Hu)|].
  change s' with (s', @None goerror).1. by rewrite <- Hu, upsert_other.
Qed.

(** Storing one memory without faults changes exactly two kinds of points of the tenant's
    collection: the new one, and the similar ones found, which lose their vector and are
    marked as superseded by it with all other fields kept.  Everything else, and every
    other collection, stays as it is. *)
Theorem persistEntry_points {St Vec} `{VectorLaws St Vec} Embed zero_like rfc3339 c coll tenantID userID e now
    (s : St) (vec : Vec) rest
  (Hembed : Embed (me_Text e) = Ok (vec :: rest))
  (Hupsert : ∀ coll id (v : Vec) p (s : St), (vs_Upsert coll id v p s).2 = None) :
  let results := match vs_Search coll vec (dedup_filter userID e) 5 s with Ok l => l | Err _ => [] end in
  let newID := memory_id tenantID now in
  ∃ s', persistEntry Embed zero_like rfc3339 c coll tenantID userID e now s = Some s'
  ∧ vs_point coll newID s' = Some (vec, entry_payload rfc3339 userID now e)
  ∧ (∀ r, r ∈ results → similar c r = true → vr_ID r ≠ newID →
       ∃ p, vs_point coll (vr_ID r) s' = Some (zero_like vec, supersede_payload rfc3339 newID now p)
            ∧ ∃ v, vs_point coll (vr_ID r) s = Some (v, p))
  ∧ (∀ c' id, (c', id) ≠ (coll, newID) → (∀ r, r ∈ results → similar c r = true → (c', id) ≠ (coll, vr_ID r)) →
       vs_point c' id s' = vs_point c' id s).
Proof.
  intros results newID. unfold persistEntry. rewrite Hembed. fold results newID.
  set (th := if SFleb (co_dedupScore c) zero_score then defaultDedupScore else co_dedupScore c).
  set (s1 := supersede_loop rfc3339 coll newID now th (zero_like vec) results s).
  pose proof (supersede_loop_points rfc3339 coll newID now th (zero_like vec) results s Hupsert) as Hp.
  cbv zeta in Hp. fold s1 in Hp.
  destruct (vs_Upsert coll newID vec (entry_payload rfc3339 userID now e) s1) as [s' o] eqn:Hu.
  assert (o = None) as -> by by rewrite <- (Hupsert coll newID vec (entry_payload rfc3339 userID now e) s1), Hu.
  assert (∀ c' id, (c', id) ≠ (coll, newID) → vs_point c' id s' = vs_point c' id s1) as Hoth.
  { intros c' id Hne. change s' with (s', @None goerror).1. by rewrite <- Hu, upsert_other. }
  exists s'. split; [done|]. split; [by apply (upsert_ok _ _ _ _ _ _ Hu)|]. split.
  - intros r Hr Hsim Hne. rewrite Hoth by congruence. rewrite Hp.
    destruct (find_first _ (reverse results)) as [r'|] eqn:Hf.
    + apply find_first_Some in Hf as (l1 & l2 & Hl & Hhit & _).
      apply andb_true_iff in Hhit as [_ Hid%bool_decide_eq_true]. injection Hid as Hid.
      exists (vr_Payload r'). split; [done|].
      assert (r' ∈ results) as Hr'. { apply elem_of_reverse. rewrite Hl. set_solver. }
      unfold results in Hr'. destruct (vs_Search coll vec _ 5 s) as [l|] eqn:Hs; [|by apply not_elem_of_nil in Hr'].
      rewrite Hid. by apply (search_points _ _ _ _ _ _ _ Hs Hr').
    + exfalso. apply find_first_None in Hf. rewrite Forall_forall in Hf.
      specialize (Hf r ltac:(by apply elem_of_reverse)). cbv beta in Hf.
      unfold similar in Hsim. fold th in Hsim. rewrite Hsim in Hf. by rewrite bool_decide_true in Hf.
  - intros c' id Hne Hnot. rewrite Hoth, Hp by done.
    destruct (find_first _ (reverse results)) as [r'|] eqn:Hf; [|done]. exfalso.
    apply find_first_Some in Hf as (l1 & l2 & Hl & Hhit & _).
    apply andb_true_iff in Hhit as [Hsim Hid%bool_decide_eq_true].
    assert (r' ∈ results) as Hr'. { apply elem_of_reverse. rewrite Hl. set_solver. }
    by apply (Hnot r' Hr').
Qed.

(** What reaches the store: the entries of the first [save_memories] call of the model's
    last response that are objects with a text, in their order and with the scope
    defaulting to tenant; short sessions, sessions without a tenant or a text and failed
    extractions leave the store as it is. *)
Theorem afterRun_spec {St Vec} `{VectorStore St Vec} Embed zero_dim zero_like rfc3339 fc c sess clock (s : St) :
  let tenantID := stateString sess "tenant_id" in
  let userID := stateString sess "user_id" in
  let conversation := extractConversation fc sess in
  let entries := consolidate fc (co_llm c) conversation (loadVectorMemories zero_dim tenantID "" s)
                   (if str_empty userID then [] else loadVectorMemories zero_dim tenantID userID s)
                   (negb (str_empty userID)) in
  (co_threshold c ≤ n_events sess ∧ tenantID ≠ ""%string ∧ conversation ≠ ""%string ∧ is_ok entries = true
   ∨ afterRun Embed zero_dim zero_like rfc3339 fc c sess clock s = Some (s, None))
  ∧ (∀ l, entries = Ok l →
       Forall (λ e, me_Text e ≠ ""%string ∧ me_Scope e ≠ ""%string) l
       ∧ ∃ content l1 p l2 args arr,
           ct_Parts content = l1 ++ p :: l2 ∧ Forall (λ p, saves_memories fc p = None) l1
           ∧ fc p = Some ("save_memories"%string, args) ∧ jget "entries" args = Some (JArr arr)
           ∧ l = omap parse_item arr).
Proof.
  intros tenantID userID conversation entries. split.
  - unfold afterRun. fold tenantID userID conversation entries.
    destruct (Z.ltb_spec (n_events sess) (co_threshold c)); [by right|].
    unfold str_empty at 1. case_bool_decide; [by right|].
    unfold str_empty at 1. case_bool_decide; [by right|].
    destruct entries as [l|e]; [by left|by right].
  - intros l Hl. unfold entries, consolidate in Hl.
    destruct (last_response _ _) as [[[content|]|]|]; [|done..]. unfold ParseToolCall in Hl.
    destruct (first_some (saves_memories fc) (ct_Parts content)) as [args|] eqn:Hf; [|done].
    assert (∃ l1 p l2, ct_Parts content = l1 ++ p :: l2 ∧ Forall (λ p, saves_memories fc p = None) l1
            ∧ saves_memories fc p = Some args) as (l1 & p & l2 & Hparts & Hl1 & Hp).
    { clear Hl. revert Hf. induction (ct_Parts content) as [|p ps IH]; simpl; [done|].
      destruct (saves_memories fc p) as [a|] eqn:Hp.
      - intros [= ->]. by exists [], p, ps.
      - intros (l1 & p' & l2 & -> & HF & Hp')%IH. exists (p :: l1), p', l2. split_and!; [done|by constructor|done]. }
    unfold parseEntries in Hl. destruct (jget "entries" args) as [[| | | |arr| | |]|] eqn:Hj; try done.
    injection Hl as <-. split.
    + apply Forall_forall. intros e (item & Hin & Hitem)%list_elem_of_omap.
      unfold parse_item in Hitem. destruct item as [| | | | |m| |]; try done. unfold str_empty in Hitem.
      case_bool_decide as Ht; [done|]. injection Hitem as <-. simpl. split; [done|]. by case_bool_decide.
    + exists content, l1, p, l2, args, arr. split_and!; [done..| |done|done].
      unfold saves_memories in Hp. destruct (fc p) as [[name a]|]; [|done]. simpl in Hp.
      case_bool_decide as Hn; [|done]. by simplify_eq.
Qed.

(** ** Witnesses

    A vector store that satisfies the laws: one map of points, searched by collection. *)

Abbreviation mem_store := (gmap (string * string) (Z * payload)).

#[local] Instance mem_vectors : VectorStore mem_store Z := {
  vs_EnsureCollection := λ _ s, (s, None);
  vs_Search := λ coll _ _ _ s, Ok ((λ kp, {| vr_ID := kp.1.2; vr_Score := S754_infinity false; vr_Payload := kp.2.2 |})
                 <$> filter (λ kp : (string * string) * (Z * payload), kp.1.1 = coll) (map_to_list s));
  vs_Upsert := λ coll id v p s, (<[(coll, id) := (v, p)]> s, None);
  vs_Delete := λ coll f s, (filter (λ kp : (string * string) * (Z * payload), ¬ (kp.1.1 = coll ∧ f ⊆ kp.2.2)) s, None);
  vs_point := λ coll id s, s !! (coll, id);
}.

#[local] Instance mem_vector_laws : VectorLaws mem_store Z.
Proof.
  split; simpl.
  - done.
  - intros coll v f k s r l [= <-] Hr. apply list_elem_of_fmap in Hr as ([[c id] [v' p]] & -> & Hin).
    apply list_elem_of_filter in Hin as [Hc Hin]. simpl in *. subst c. exists v'. by apply elem_of_map_to_list.
  - intros coll id v p s s' [= <-]. apply lookup_insert_eq.
  - done.
  - intros coll id v p s c id' Hne. by apply lookup_insert_ne.
Qed.

Lemma mem_upsert_ok (coll id : string) (v : Z) (p : payload) (s : mem_store) : (vs_Upsert coll id v p s).2 = None.
Proof. done. Qed.

Lemma mem_ensure_ok (coll : string) (s : mem_store) : (vs_EnsureCollection (Vec:=Z) coll s).2 = None.
Proof. done. Qed.

Definition mem_entry (text : string) : MemoryEntry :=
  {| me_Category := "fact"; me_Text := text; me_Scope := "tenant"; me_Permanent := None |}.
Definition mem_consolidator : consolidator := Consolidator_New (λ _, []) 0 zero_score.

Lemma persist_stores_witness :
  ∃ s' : mem_store,
    persist (λ t, Ok [Z.of_nat (String.length t)]) (λ _, 0) (λ _, "now"%string) mem_consolidator "t" ""
      [(mem_entry "first", unix_epoch); (mem_entry "second", unix_epoch + 5)] ∅ = Some s'
    ∧ text_at (collection_of "t") "mem_t_0" s' = Some "second"%string
    ∧ (∀ i, text_at (collection_of "t") i s' ≠ Some "first"%string).
Proof.
  destruct (persist_stores (λ t, Ok [Z.of_nat (String.length t)]) (λ _, 0) (λ _, "now"%string) mem_consolidator
    "t" "" [(mem_entry "first", unix_epoch); (mem_entry "second", unix_epoch + 5)] (∅ : mem_store)
    (λ t, ex_intro _ _ (ex_intro _ [] eq_refl)) mem_upsert_ok mem_ensure_ok) as (s' & Hs' & Hlast & _ & Hlost).
  exists s'. split; [exact Hs'|]. split.
  - refine (Hlast [(mem_entry "first", unix_epoch)] (mem_entry "second", unix_epoch + 5) [] eq_refl eq_refl _).
    by constructor.
  - intros i Hi. assert (text_at (collection_of "t") i (∅ : mem_store) = Some "first"%string) as Hno; [|done].
    by refine (Hlost (mem_entry "first") (mem_entry "second") unix_epoch (unix_epoch + 5) eq_refl _ eq_refl _ i Hi).
Defined.

Lemma persistEntry_points_witness :
  let old : mem_store := {[ (collection_of "t", "old"%string) := (3, {[ "text"%string := JStr "likes tea" ]}) ]} in
  ∃ s' p, persistEntry (λ _, Ok [7]) (λ _, 0) (λ _, "now"%string) mem_consolidator (collection_of "t") "t" ""
      (mem_entry "likes coffee") unix_epoch old = Some s'
    ∧ vs_point (collection_of "t") "old" s' = Some (0, supersede_payload (λ _, "now"%string) "mem_t_0" unix_epoch p)
    ∧ text_of p = Some "likes tea"%string.
Proof.
  intros old.
  destruct (persistEntry_points (λ _, Ok [7]) (λ _, 0) (λ _, "now"%string) mem_consolidator (collection_of "t") "t" ""
    (mem_entry "likes coffee") unix_epoch old 7 [] eq_refl mem_upsert_ok) as (s' & Hs' & _ & Hsim & _).
  destruct (Hsim {| vr_ID := "old"; vr_Score := S754_infinity false;
                    vr_Payload := {[ "text"%string := JStr "likes tea" ]} |}) as (p & Hp & v & Hold).
  - simpl. unfold old. rewrite map_to_list_singleton. cbn. rewrite decide_True by done. by left.
  - by vm_compute.
  - done.
  - exists s', p. split; [exact Hs'|]. split; [exact Hp|]. simpl in Hold. unfold old in Hold.
    rewrite lookup_singleton, decide_True in Hold by done. by injection Hold as <- <-.
Defined.
