(* ===== verification/MemoryTools.v ===== *)
(** [pkg/tools/memory.go] and [memory_events.go]: the tools that save, search and delete
    memories of a tenant and browse its event log.

    The vector store is the class [VectorStore] of [Stores]; the embedder, the RFC 3339 and
    date formats, the functions of [math] and the identifiers of [uuid.New] are parameters.
    The embedding cache is the one of [Lru], the scorer the one of [Search]; both may be
    nil.  An empty vector and a nil payload do not occur.  [vecs[0]] of an empty answer is a
    panic, [None].  The texts of successful answers and the log lines are left out. *)
From S2P Require Import Prelude GoStrings Floats Values Types Stores Lru Search Consolidation.

(** ** Scoring *)

Section memory.
Context {St Vec : Type} `{VectorStore St Vec} `{U : UnicodeCase} `{SS : SliceSort}.
Context (math_exp math_log2 : float64 → float64).
Context (rfc3339 : time → string) (parse_rfc3339 parse_date : string → option time).
Context (Embed : string → result goerror (list Vec)) (zero_like : Vec → Vec) (hash : string → string).

Abbreviation embedding_cache := (@lruCache string Vec _ _).

(** 0.70, 0.85 and 0.60, the binary32 numbers nearest to them. *)
Definition dedupSameCategory : float32 := S754_finite false 11744051 (-24).
Definition dedupCrossCategory : float32 := S754_finite false 14260634 (-24).
Definition deleteThreshold : float32 := S754_finite false 10066330 (-24).

Definition permanentCategories : list string := ["preference"; "identity"; "instruction"; "fact"]%string.
Definition isPermanentDefault (category : string) : bool := bool_decide (category ∈ permanentCategories).

(** [-math.Ln2 / 7]. *)
Definition minus_lambda : float64 := S754_finite true 7135216877903268 (-56).

Definition recencyScore (now createdAt : time) (permanent : bool) : float64 :=
  if permanent then f64_one
  else
    let days := f64_div (Hours (time_sub now createdAt)) (f64_of_Z 24) in
    let days := if SFltb days f64_zero then f64_zero else days in
    math_exp (f64_mul minus_lambda days).

Definition salienceScore (accessCount : Z) : float64 :=
  if accessCount <=? 0 then f64_zero
  else min_one (f64_div (math_log2 (f64_add (f64_of_Z accessCount) f64_one)) (f64_of_Z 5)).

(** ** The tools *)

Record memory_world := { mw_store : St; mw_cache : option embedding_cache; mw_bm25 : option BM25Scorer }.

Definition with_store (s : St) (w : memory_world) : memory_world :=
  {| mw_store := s; mw_cache := mw_cache w; mw_bm25 := mw_bm25 w |}.
Definition with_cache (c : option embedding_cache) (w : memory_world) : memory_world :=
  {| mw_store := mw_store w; mw_cache := c; mw_bm25 := mw_bm25 w |}.
Definition with_bm25 (b : option BM25Scorer) (w : memory_world) : memory_world :=
  {| mw_store := mw_store w; mw_cache := mw_cache w; mw_bm25 := b |}.

Inductive memory_error :=
| MNotConfigured | MEmptyContent | MEmptyQuery | MEnsure (e : goerror) | MEmbed (e : goerror) | MUpsert (e : goerror)
| MSearch (e : goerror) | MDelete (e : goerror) | MNoEvents | MListEvents (e : goerror).

(** [tenant_id] and [user_id] of the session state. *)
Record memory_ctx := { mc_tenant : string; mc_user : string }.

Definition mem_tenant (ctx : memory_ctx) : string := if str_empty (mc_tenant ctx) then DefaultTenantID else mc_tenant ctx.

(** The vector of a text, from the cache or the embedder. *)
Definition embed_text (text : string) (c : option embedding_cache) : option embedding_cache * option (result goerror Vec) :=
  let '(c, cached) := match c with Some l => let '(l, v) := ec_Get hash text l in (Some l, v) | None => (None, None) end in
  match cached with
  | Some vec => (c, Some (Ok vec))
  | None =>
      match Embed text with
      | Err e => (c, Some (Err e))
      | Ok [] => (c, None)
      | Ok (vec :: _) => (ec_Set hash text vec <$> c, Some (Ok vec))
      end
  end.

(** The loops that overwrite found points: those that pass [hit] get the zero vector and a
    changed payload; a failed write is ignored. *)
Fixpoint mark_loop (coll : string) (zeroVec : Vec) (hit : VectorResult → bool) (mark : payload → payload)
    (results : list VectorResult) (s : St) : St :=
  match results with
  | [] => s
  | r :: results =>
      if hit r then mark_loop coll zeroVec hit mark results (vs_Upsert coll (vr_ID r) zeroVec (mark (vr_Payload r)) s).1
      else mark_loop coll zeroVec hit mark results s
  end.

(** *** save_memory *)

Record saveMemoryArgs := { sa_Content : string; sa_Category : string; sa_Permanent : option bool }.

Definition save_category (args : saveMemoryArgs) : string := if str_empty (sa_Category args) then "general"%string else sa_Category args.
Definition save_scope (userID : string) : string := if str_empty userID then "tenant" else "user".

Definition save_filter (userID : string) : payload :=
  let f := <["superseded" := JBool false]> {[ "scope"%string := JStr (save_scope userID) ]} in
  if bool_decide (save_scope userID = "user"%string) then <["user_id" := JStr userID]> f else f.

(** Similar enough, with the lower bar for the same category. *)
Definition save_hit (category : string) (r : VectorResult) : bool :=
  let threshold := if bool_decide (as_str (vr_Payload r !! "category"%string) = category) then dedupSameCategory else dedupCrossCategory in
  negb (SFltb (vr_Score r) threshold).

Definition save_payload (userID category : string) (now : time) (args : saveMemoryArgs) : payload :=
  let perm := default (isPermanentDefault category) (sa_Permanent args) in
  let p := <["text" := JStr (sa_Content args)]> (<["category" := JStr category]> (<["scope" := JStr (save_scope userID)]>
           (<["superseded" := JBool false]> (<["permanent" := JBool perm]> (<["access_count" := JNum 0]>
           (<["created_at" := JStr (rfc3339 now)]> {[ "source"%string := JStr "user" ]})))))) in
  if str_empty userID then p else <["user_id" := JStr userID]> p.

(** From the vector on. *)
Definition save_vector (ctx : memory_ctx) (args : saveMemoryArgs) (now : time) (id : string) (vec : Vec) (s : St)
    : St * option goerror :=
  let coll := collection_of (mem_tenant ctx) in
  let category := save_category args in
  let s := match vs_Search coll vec (save_filter (mc_user ctx)) 5 s with
           | Ok similar => mark_loop coll (zero_like vec) (save_hit category) (supersede_payload rfc3339 id now) similar s
           | Err _ => s
           end in
  vs_Upsert coll id vec (save_payload (mc_user ctx) category now args) s.

Definition save_memory (configured : bool) (ctx : memory_ctx) (args : saveMemoryArgs) (now : time) (id : string) (w : memory_world)
    : memory_world * option (result memory_error string) :=
  if negb configured then (w, Some (Err MNotConfigured))
  else if str_empty (trim_space (sa_Content args)) then (w, Some (Err MEmptyContent))
  else
    let '(s, err) := vs_EnsureCollection (collection_of (mem_tenant ctx)) (mw_store w) in
    let w := with_store s w in
    match err with
    | Some e => (w, Some (Err (MEnsure e)))
    | None =>
        let '(c, r) := embed_text (sa_Content args) (mw_cache w) in
        let w := with_cache c w in
        match r with
        | None => (w, None)
        | Some (Err e) => (w, Some (Err (MEmbed e)))
        | Some (Ok vec) =>
            let '(s, err) := save_vector ctx args now id vec (mw_store w) in
            (with_store s w, Some (match err with Some e => Err (MUpsert e) | None => Ok (save_category args) end))
        end
    end.

(** *** search_memory *)

Record searchMemoryArgs := { qa_Query : string; qa_DateFrom : string; qa_DateTo : string }.

Record memoryHit := { mh_Category : string; mh_Text : string; mh_Score : float64; mh_CreatedAt : string; mh_Permanent : bool }.

Definition parse_from (s : string) : time :=
  let f := default time_zero (parse_rfc3339 s) in
  if IsZero f then default time_zero (parse_date s) else f.

(** A date is the end of its day. *)
Definition parse_to (s : string) : time :=
  let t := default time_zero (parse_rfc3339 s) in
  if IsZero t then match parse_date s with Some d => time_add d (24 * Hour - Nanosecond) | None => t end else t.

Definition parseDateBounds (from to : string) : time * time :=
  (if str_empty from then time_zero else parse_from from, if str_empty to then time_zero else parse_to to).

Definition payloadInt (p : payload) (key : string) : Z := as_int (p !! key).

(** The created date a hit is filtered by, and the filter. *)
Definition created_at (p : payload) : time := default time_zero (parse_rfc3339 (as_str (p !! "created_at"%string))).
Definition in_bounds (dateFrom dateTo createdAt : time) : bool :=
  negb (negb (IsZero dateFrom) && Before createdAt dateFrom) && negb (negb (IsZero dateTo) && After createdAt dateTo).

Definition mixed_score (now : time) (query : string) (r : VectorResult) (b : option BM25Scorer) : option BM25Scorer * float64 :=
  let p := vr_Payload r in
  let recency := recencyScore now (created_at p) (as_bool (p !! "permanent"%string)) in
  let salience := salienceScore (payloadInt p "access_count") in
  match b with
  | Some s =>
      let '(s, bm25) := Score query (as_str (p !! "text"%string)) s in
      (Some s, f64_add (f64_add (f64_add (f64_mul (f64_ratio 40 100) (vr_Score r)) (f64_mul (f64_ratio 30 100) bm25))
                                (f64_mul (f64_ratio 20 100) recency)) (f64_mul (f64_ratio 10 100) salience))
  | None => (None, f64_add (f64_add (f64_mul (f64_ratio 60 100) (vr_Score r)) (f64_mul (f64_ratio 25 100) recency))
                           (f64_mul (f64_ratio 15 100) salience))
  end.

(** The loop over the results. *)
Fixpoint hit_loop (now : time) (query : string) (dateFrom dateTo : time) (results : list VectorResult) (b : option BM25Scorer)
    : option BM25Scorer * list memoryHit :=
  match results with
  | [] => (b, [])
  | r :: results =>
      let p := vr_Payload r in
      if str_empty (as_str (p !! "text"%string)) || negb (in_bounds dateFrom dateTo (created_at p))
      then hit_loop now query dateFrom dateTo results b
      else
        let '(b, score) := mixed_score now query r b in
        let '(b, hits) := hit_loop now query dateFrom dateTo results b in
        (b, {| mh_Category := as_str (p !! "category"%string); mh_Text := as_str (p !! "text"%string); mh_Score := score;
               mh_CreatedAt := as_str (p !! "created_at"%string); mh_Permanent := as_bool (p !! "permanent"%string) |} :: hits)
  end.

Definition jaccardSimilarity (a b : string) : float64 :=
  let setA : gset string := list_to_set (Fields (to_lower a)) in
  let setB : gset string := list_to_set (Fields (to_lower b)) in
  let intersection := Z.of_nat (size (setA ∩ setB)) in
  let union := Z.of_nat (size setA) + Z.of_nat (size setB) - intersection in
  if union =? 0 then f64_zero else f64_div (f64_of_Z intersection) (f64_of_Z union).

Definition maxSim (cand : memoryHit) (selected : list memoryHit) : float64 :=
  foldl (λ m sel, let sim := jaccardSimilarity (mh_Text cand) (mh_Text sel) in if SFltb m sim then sim else m) f64_zero selected.

Definition mmr_score (lambda : float64) (selected : list memoryHit) (cand : memoryHit) : float64 :=
  f64_sub (f64_mul lambda (mh_Score cand)) (f64_mul (f64_sub f64_one lambda) (maxSim cand selected)).

(** The loop for the best candidate, from index [i]. *)
Fixpoint best_mmr (lambda : float64) (selected : list memoryHit) (i : nat) (remaining : list memoryHit) (bestIdx : option nat)
    (bestMMR : float64) : option nat :=
  match remaining with
  | [] => bestIdx
  | cand :: remaining =>
      let mmr := mmr_score lambda selected cand in
      if SFltb bestMMR mmr then best_mmr lambda selected (S i) remaining (Some i) mmr
      else best_mmr lambda selected (S i) remaining bestIdx bestMMR
  end.

(** Every round takes a candidate; [fuel] is their number. *)
Fixpoint mmr_loop (fuel : nat) (lambda : float64) (selected remaining : list memoryHit) : list memoryHit :=
  match fuel, remaining with
  | S fuel, _ :: _ =>
      if (length selected <? 10)%nat then
        match best_mmr lambda selected 0 remaining None (f64_of_Z (-1000000000)) with
        | Some i =>
            match remaining !! i with
            | Some cand => mmr_loop fuel lambda (selected ++ [cand]) (delete i remaining)
            | None => selected
            end
        | None => selected
        end
      else selected
  | _, _ => selected
  end.

Definition applyMMR (hits : list memoryHit) (lambda : float64) : list memoryHit :=
  match hits with
  | [] | [_] => hits
  | h :: remaining => mmr_loop (length remaining) lambda [h] remaining
  end.

Definition by_hit_score (x y : memoryHit) : bool := SFltb (mh_Score y) (mh_Score x).

Definition tenant_filter : payload := <["superseded" := JBool false]> {[ "scope"%string := JStr "tenant" ]}.
Definition user_filter (userID : string) : payload :=
  let f := <["superseded" := JBool false]> {[ "scope"%string := JStr "user" ]} in
  if str_empty userID then f else <["user_id" := JStr userID]> f.

(** The end of the search: sorted, diversified, the first ten. *)
Definition rank_hits (hits : list memoryHit) : list memoryHit :=
  let hits := sort_slice by_hit_score hits in
  let hits := if (1 <? length hits)%nat then applyMMR hits (f64_ratio 7 10) else hits in
  take 10 hits.

Definition search_memory (configured : bool) (ctx : memory_ctx) (args : searchMemoryArgs) (now : time) (w : memory_world)
    : memory_world * option (result memory_error (list memoryHit)) :=
  if negb configured then (w, Some (Err MNotConfigured))
  else if str_empty (trim_space (qa_Query args)) then (w, Some (Err MEmptyQuery))
  else
    let coll := collection_of (mem_tenant ctx) in
    let '(c, r) := embed_text (qa_Query args) (mw_cache w) in
    let w := with_cache c w in
    match r with
    | None => (w, None)
    | Some (Err e) => (w, Some (Err (MEmbed e)))
    | Some (Ok vec) =>
        match vs_Search coll vec tenant_filter 15 (mw_store w) with
        | Err e => (w, Some (Err (MSearch e)))
        | Ok tenantResults =>
            match vs_Search coll vec (user_filter (mc_user ctx)) 15 (mw_store w) with
            | Err e => (w, Some (Err (MSearch e)))
            | Ok userResults =>
                let '(dateFrom, dateTo) := parseDateBounds (qa_DateFrom args) (qa_DateTo args) in
                let '(b, hits) := hit_loop now (qa_Query args) dateFrom dateTo (tenantResults ++ userResults) (mw_bm25 w) in
                (with_bm25 b w, Some (Ok (rank_hits hits)))
            end
        end
    end.

(** *** delete_memory *)

Record deleteMemoryArgs := { da_Query : string; da_ClearAll : bool }.

Definition clear_filter (superseded : bool) (userID : string) : payload :=
  let f := {[ "superseded"%string := JBool superseded ]} in
  if str_empty userID then <["scope" := JStr "tenant"]> f else <["user_id" := JStr userID]> f.

Definition delete_filter (userID : string) : payload :=
  let f := {[ "superseded"%string := JBool false ]} in
  if str_empty userID then f else <["user_id" := JStr userID]> f.

Definition deleted_payload (p : payload) : payload := <["superseded_by" := JStr "deleted"]> (<["superseded" := JBool true]> p).

Definition delete_hit (r : VectorResult) : bool := negb (SFltb (vr_Score r) deleteThreshold).

(** The answer is the number of memories, none when all were cleared. *)
Definition delete_memory (configured : bool) (ctx : memory_ctx) (args : deleteMemoryArgs) (w : memory_world)
    : memory_world * option (result memory_error (option nat)) :=
  if negb configured then (w, Some (Err MNotConfigured))
  else
    let coll := collection_of (mem_tenant ctx) in
    if da_ClearAll args then
      let '(s, err) := vs_Delete coll (clear_filter false (mc_user ctx)) (mw_store w) in
      match err with
      | Some e => (with_store s w, Some (Err (MDelete e)))
      | None => (with_store (vs_Delete coll (clear_filter true (mc_user ctx)) s).1 w, Some (Ok None))
      end
    else if str_empty (trim_space (da_Query args)) then (w, Some (Err MEmptyQuery))
    else
      let '(c, r) := embed_text (da_Query args) (mw_cache w) in
      let w := with_cache c w in
      match r with
      | None => (w, None)
      | Some (Err e) => (w, Some (Err (MEmbed e)))
      | Some (Ok vec) =>
          match vs_Search coll vec (delete_filter (mc_user ctx)) 5 (mw_store w) with
          | Err e => (w, Some (Err (MSearch e)))
          | Ok results =>
              (with_store (mark_loop coll (zero_like vec) delete_hit deleted_payload results (mw_store w)) w,
               Some (Ok (Some (length (filter (λ r, delete_hit r = true) results)))))
          end
      end.

(** *** browse_events *)

Record browseEventsArgs := { ba_DateFrom : string; ba_DateTo : string; ba_Limit : Z }.

Definition browse_limit (limit : Z) : Z := let l := if limit <=? 0 then 30 else limit in if 100 <? l then 100 else l.

(** [minus_week] is [AddDate(0, 0, -7)], [list] the event store's [List], when there is one;
    a hit is the event with its time as text. *)
Definition browse_events (list_events : option (string → string → time → time → Z → result goerror (list MemoryEvent)))
    (minus_week : time → time) (ctx : memory_ctx) (args : browseEventsArgs) (now : time)
    : result memory_error (list (string * string * string)) :=
  match list_events with
  | None => Err MNoEvents
  | Some list =>
      let '(from, to) := parseDateBounds (ba_DateFrom args) (ba_DateTo args) in
      let from := if IsZero from then minus_week now else from in
      match list (mem_tenant ctx) (mc_user ctx) from to (browse_limit (ba_Limit args)) with
      | Err e => Err (MListEvents e)
      | Ok events => Ok ((λ e, (mv_Category e, mv_Summary e, rfc3339 (mv_CreatedAt e))) <$> events)
      end
  end.
End memory.

(** ** Lemmas *)

Section lemmas.
Context {St Vec : Type} `{VL : VectorLaws St Vec} `{VF : !VectorFilterLaws St Vec} `{U : UnicodeCase} `{SS : SliceSort}.
Context (math_exp math_log2 : float64 → float64).
Context (rfc3339 : time → string) (parse_rfc3339 parse_date : string → option time).
Context (Embed : string → result goerror (list Vec)) (zero_like : Vec → Vec) (hash : string → string).

(** Overwriting found points changes these only. *)
Lemma mark_loop_points coll (z : Vec) hit mark results (s : St) c id :
  vs_point c id (mark_loop coll z hit mark results s) = vs_point c id s
  ∨ c = coll ∧ ∃ r, r ∈ results ∧ hit r = true ∧ vr_ID r = id
      ∧ vs_point c id (mark_loop coll z hit mark results s) = Some (z, mark (vr_Payload r)).
Proof.
  revert s. induction results as [|r results IH]; intros s; cbn [mark_loop]; [by left|].
  destruct (hit r) eqn:Hhit.
  - set (s1 := (vs_Upsert coll (vr_ID r) z (mark (vr_Payload r)) s).1).
    assert (vs_point c id s1 = vs_point c id s ∨ c = coll ∧ vr_ID r = id ∧ vs_point c id s1 = Some (z, mark (vr_Payload r))) as Hup.
    { unfold s1. destruct (decide ((c, id) = (coll, vr_ID r))) as [Heq|Hne]; [|left; by apply upsert_other].
      injection Heq as -> ->. destruct (vs_Upsert coll (vr_ID r) z _ s) as [s' [e|]] eqn:Hu; simpl.
      - destruct (upsert_fails _ _ _ _ _ _ _ Hu) as [->| ->]; [by left|by right].
      - right. by rewrite (upsert_ok _ _ _ _ _ _ Hu). }
    destruct (IH s1) as [->|(-> & r' & Hr' & Hh & Hid & Hp)].
    + destruct Hup as [->|(-> & Hid & Hp)]; [by left|right]. split; [done|]. exists r. split_and!; [by left|done..].
    + right. split; [done|]. exists r'. split_and!; [by right|done..].
  - destruct (IH s) as [->|(-> & r' & Hr' & Hh & Hid & Hp)]; [by left|right].
    split; [done|]. exists r'. split_and!; [by right|done..].
Qed.

(** The results of a search that overwriting them finds again. *)
Lemma mark_found coll (v z : Vec) f k hit mark l (s : St) c id :
  vs_Search coll v f k s = Ok l →
  vs_point c id (mark_loop coll z hit mark l s) = vs_point c id s
  ∨ c = coll ∧ ∃ r v', hit r = true ∧ vr_ID r = id ∧ vs_point c id s = Some (v', vr_Payload r) ∧ f ⊆ vr_Payload r
      ∧ vs_point c id (mark_loop coll z hit mark l s) = Some (z, mark (vr_Payload r)).
Proof.
  intros Hs. destruct (mark_loop_points coll z hit mark l s c id) as [?|(-> & r & Hr & Hh & <- & Hp)]; [by left|right].
  destruct (search_points _ _ _ _ _ _ _ Hs Hr) as [v' Hv]. split; [done|]. exists r, v'. split_and!; try done.
  by eapply search_filter.
Qed.

(** [save_memory] stores the memory under its new identifier and supersedes only
    memories that are not superseded yet, of the tenant, of the same scope and user, and
    similar enough, 0.70 within the category and 0.85 across; they keep all other fields.
    Every other point of every tenant stays as it is. *)
Theorem save_memory_spec configured ctx args now id (w w' : memory_world) cat :
  save_memory rfc3339 Embed zero_like hash configured ctx args now id w = (w', Some (Ok cat)) →
  let coll := collection_of (mem_tenant ctx) in
  (∃ vec, vs_point coll id (mw_store w') = Some (vec, save_payload rfc3339 (mc_user ctx) cat now args))
  ∧ ∀ c i, (c, i) ≠ (coll, id) →
      vs_point c i (mw_store w') = vs_point c i (mw_store w)
      ∨ c = coll ∧ ∃ r v' z, vr_ID r = i ∧ save_hit cat r = true ∧ vs_point c i (mw_store w) = Some (v', vr_Payload r)
          ∧ save_filter (mc_user ctx) ⊆ vr_Payload r
          ∧ vs_point c i (mw_store w') = Some (z, supersede_payload rfc3339 id now (vr_Payload r)).
Proof.
  unfold save_memory. destruct (negb configured); [done|]. destruct (str_empty (trim_space _)); [done|].
  destruct (vs_EnsureCollection _ (mw_store w)) as [s1 [e|]] eqn:Hens; [done|].
  destruct (embed_text _ _ _ _) as [c0 [[vec|e]|]] eqn:Hemb; [|done..].
  destruct (save_vector _ _ _ _ _ _ _ _) as [s2 [e|]] eqn:Hsave; [done|]. intros [= <- <-]. unfold save_vector in Hsave.
  set (coll := collection_of (mem_tenant ctx)) in *.
  cbn [mw_store with_store with_cache] in Hsave |- *.
  assert (∀ c i, vs_point c i s1 = vs_point c i (mw_store w)) as Hs1.
  { intros c i. change s1 with (s1, @None goerror).1. by rewrite <- Hens, ensure_points. }
  set (s1' := match vs_Search coll vec _ 5 s1 with Ok _ => _ | Err _ => s1 end) in Hsave.
  split; [exists vec; by apply (upsert_ok _ _ _ _ _ _ Hsave)|]. intros c i Hne.
  assert (vs_point c i s2 = vs_point c i s1') as ->.
  { change s2 with (s2, @None goerror).1. rewrite <- Hsave. by apply upsert_other. }
  unfold s1'. destruct (vs_Search coll vec (save_filter (mc_user ctx)) 5 s1) as [l|e] eqn:Hl; [|by left].
  destruct (mark_found coll vec (zero_like vec) _ 5 (save_hit (save_category args)) (supersede_payload rfc3339 id now) l s1 c i Hl)
    as [->|(-> & r & v' & Hh & Hid & Hp & Hf & Hp')]; [by left|right].
  split; [done|]. exists r, v', (zero_like vec). rewrite <- Hs1. by split_and!.
Qed.

(** [delete_memory] touches points of the tenant only.  Clearing removes every memory
    that is not superseded of the user, or of the tenant's scope without a user, and beyond
    these at most the superseded ones of the same; deleting by query marks found memories,
    with a user this user's only, as superseded and keeps their other fields. *)
Theorem delete_memory_spec configured ctx args (w w' : memory_world) n :
  delete_memory Embed zero_like hash configured ctx args w = (w', Some (Ok n)) →
  let coll := collection_of (mem_tenant ctx) in
  ∀ c i, match n with
         | None => ∀ vp, vs_point c i (mw_store w) = Some vp →
             (c = coll → clear_filter false (mc_user ctx) ⊆ vp.2 → vs_point c i (mw_store w') = None)
             ∧ (vs_point c i (mw_store w') = Some vp
                ∨ c = coll ∧ ∃ b, clear_filter b (mc_user ctx) ⊆ vp.2)
         | Some _ =>
             vs_point c i (mw_store w') = vs_point c i (mw_store w)
             ∨ c = coll ∧ ∃ v' z p, vs_point c i (mw_store w) = Some (v', p) ∧ delete_filter (mc_user ctx) ⊆ p
                 ∧ vs_point c i (mw_store w') = Some (z, deleted_payload p)
         end.
Proof.
  unfold delete_memory. destruct (negb configured); [done|]. destruct (da_ClearAll args).
  - destruct (vs_Delete _ (clear_filter false _) (mw_store w)) as [s1 [e|]] eqn:Hd1; [done|]. intros [= <- <-] c i vp Hvp.
    set (coll := collection_of (mem_tenant ctx)) in *. cbn [mw_store with_store]. pose proof (delete_ok _ _ _ _ c i Hd1) as H1. rewrite Hvp in H1.
    destruct (vs_Delete coll (clear_filter true (mc_user ctx)) s1) as [s2 [e|]] eqn:Hd2; simpl.
    + case_bool_decide as Hm.
      * assert (vs_point c i s2 = None) as ->.
        { destruct (delete_fails _ _ _ _ _ c i Hd2) as [->|[-> _]]; done. }
        split; [done|]. right. destruct Hm as [-> Hm]. split; [done|]. by exists false.
      * split; [intros -> Hm'; by destruct Hm|].
        destruct (delete_fails _ _ _ _ _ c i Hd2) as [->|(_ & vp' & Hvp' & -> & Hf)]; [by left|right].
        split; [done|]. exists true. by assert (vp' = vp) as <- by congruence.
    + pose proof (delete_ok _ _ _ _ c i Hd2) as H2. rewrite H1 in H2. case_bool_decide as Hm.
      * rewrite H2. split; [done|]. right. destruct Hm as [-> Hm]. split; [done|]. by exists false.
      * rewrite H2. case_bool_decide as Hm2.
        -- split; [done|]. right. destruct Hm2 as [-> Hm2]. split; [done|]. by exists true.
        -- split; [intros -> Hm'; by destruct Hm|by left].
  - destruct (str_empty (trim_space _)); [done|]. destruct (embed_text _ _ _ _) as [c0 [[vec|e]|]] eqn:Hemb; [|done..].
    cbn [mw_store with_cache]. destruct (vs_Search _ vec _ 5 (mw_store w)) as [l|e] eqn:Hl; [|done].
    intros [= <- <-] c i. set (coll := collection_of (mem_tenant ctx)) in *. cbn [mw_store with_store with_cache].
    destruct (mark_found coll vec (zero_like vec) _ 5 delete_hit deleted_payload l (mw_store w) c i Hl)
      as [->|(-> & r & v' & _ & _ & Hp & Hf & Hp')]; [by left|right].
    split; [done|]. by exists v', (zero_like vec), (vr_Payload r).
Qed.

(** *** Ranking *)

Lemma best_mmr_Some lambda sel i l best b j :
  best_mmr lambda sel i l best b = Some j → best = Some j ∨ ∃ k, j = (i + k)%nat ∧ (k < length l)%nat.
Proof.
  revert i best b. induction l as [|x l IH]; intros i best b; cbn [best_mmr]; [by left|].
  destruct (SFltb _ _); intros Hb; destruct (IH _ _ _ Hb) as [Hbest|(k & -> & Hk)].
  - injection Hbest as <-. right. exists 0%nat. simpl. lia.
  - right. exists (S k). simpl. lia.
  - by left.
  - right. exists (S k). simpl. lia.
Qed.

(** The selected hits are followed by candidates, each taken once. *)
Lemma mmr_loop_spec fuel lambda sel rem :
  ∃ added rest, mmr_loop fuel lambda sel rem = sel ++ added ∧ rem ≡ₚ added ++ rest
    ∧ ((length sel ≤ 10)%nat → (length (sel ++ added) ≤ 10)%nat).
Proof.
  revert sel rem. induction fuel as [|fuel IH]; intros sel rem; cbn [mmr_loop].
  { exists [], rem. by rewrite app_nil_r. }
  assert (∃ added rest, sel = sel ++ added ∧ rem ≡ₚ added ++ rest ∧ ((length sel ≤ 10)%nat → (length (sel ++ added) ≤ 10)%nat)) as Hstop.
  { exists [], rem. by rewrite app_nil_r. }
  destruct rem as [|x rem']; [exact Hstop|]. destruct (Nat.ltb_spec (length sel) 10) as [Hlt|]; [|exact Hstop].
  destruct (best_mmr _ _ _ _ _ _) as [i|]; [|exact Hstop].
  destruct ((x :: rem') !! i) as [cand|] eqn:Hc; [|exact Hstop].
  destruct (IH (sel ++ [cand]) (delete i (x :: rem'))) as (added & rest & -> & Hp & Hlen).
  exists (cand :: added), rest. rewrite <- app_assoc in *. split; [done|]. split.
  - rewrite (delete_Permutation _ _ _ Hc), Hp. done.
  - intros _. apply Hlen. rewrite length_app. simpl. lia.
Qed.

Lemma applyMMR_spec hits lambda : ∃ rest, hits ≡ₚ applyMMR hits lambda ++ rest ∧ head (applyMMR hits lambda) = head hits
  ∧ ((length (applyMMR hits lambda) ≤ 10)%nat).
Proof.
  destruct hits as [|h [|h' hits]]; [exists []; split_and!; [by rewrite app_nil_r|done|simpl; lia]..|].
  unfold applyMMR. destruct (mmr_loop_spec (length (h' :: hits)) lambda [h] (h' :: hits)) as (added & rest & -> & Hp & Hlen).
  exists rest. split_and!; [simpl; by rewrite Hp|done|apply Hlen; simpl; lia].
Qed.

(** Ranking keeps at most ten hits, each of them once, and the hit of the best score
    first when no score is a NaN. *)
Theorem rank_hits_spec hits :
  (length (rank_hits hits) ≤ 10)%nat
  ∧ (∃ rest, hits ≡ₚ rank_hits hits ++ rest)
  ∧ (Forall (λ h, is_nan (mh_Score h) = false) hits →
     ∀ best h, head (rank_hits hits) = Some best → h ∈ hits → SFltb (mh_Score best) (mh_Score h) = false).
Proof.
  unfold rank_hits. pose proof (sort_slice_perm by_hit_score hits) as Hperm.
  assert (Forall (λ h, is_nan (mh_Score h) = false) hits →
    StronglySorted (λ x y, by_hit_score y x = false) (sort_slice by_hit_score hits)) as Hsorted.
  { intros Hn. apply (sort_slice_sorted (λ h, is_nan (mh_Score h) = false)); [apply score_order|done]. }
  set (sorted := sort_slice by_hit_score hits) in *.
  assert (∃ kept rest, (if (1 <? length sorted)%nat then applyMMR sorted (f64_ratio 7 10) else sorted) = kept
            ∧ sorted ≡ₚ kept ++ rest ∧ head kept = head sorted ∧ (length kept ≤ 10)%nat) as (kept & rest & -> & Hkept & Hhead & Hlen).
  { destruct (Nat.ltb_spec 1 (length sorted)).
    - destruct (applyMMR_spec sorted (f64_ratio 7 10)) as (rest & H1 & H2 & H3). by exists (applyMMR sorted (f64_ratio 7 10)), rest.
    - exists sorted, []. rewrite app_nil_r. split_and!; [done..|lia]. }
  rewrite take_ge by done. split; [done|]. split; [exists rest; by rewrite <- Hkept, Hperm|].
  intros Hn best h Hb Hh. specialize (Hsorted Hn). rewrite Hhead in Hb.
  destruct sorted as [|x l] eqn:Hl; [done|]. injection Hb as ->. rewrite <- Hperm in Hh.
  apply StronglySorted_inv in Hsorted as [_ Hall]. apply elem_of_cons in Hh as [->|Hh].
  - unfold SFltb, SFcompare. destruct (mh_Score best) as [[]|[]| |[] m e]; try done; by rewrite ?Z.compare_refl, ?Pos.compare_cont_refl.
  - rewrite Forall_forall in Hall. specialize (Hall h Hh). exact Hall.
Qed.

(** The hits come from the results. *)
Lemma hit_loop_sound now query dateFrom dateTo results b h :
  h ∈ (hit_loop math_exp math_log2 parse_rfc3339 now query dateFrom dateTo results b).2 →
  ∃ r, r ∈ results ∧ mh_Text h = as_str (vr_Payload r !! "text"%string) ∧ mh_Text h ≠ ""%string
    ∧ mh_Category h = as_str (vr_Payload r !! "category"%string)
    ∧ in_bounds dateFrom dateTo (created_at parse_rfc3339 (vr_Payload r)) = true.
Proof.
  revert b. induction results as [|r results IH]; intros b; cbn [hit_loop]; [by intros ?%not_elem_of_nil|].
  destruct (str_empty _ || negb _) eqn:Hskip.
  { intros Hh. destruct (IH b Hh) as (r' & Hr' & Hrest). exists r'. split; [by right|done]. }
  apply orb_false_iff in Hskip as [Ht Hb%negb_false_iff]. unfold str_empty in Ht. apply bool_decide_eq_false in Ht.
  destruct (mixed_score _ _ _ _ _ _ _) as [b1 score]. specialize (IH b1).
  destruct (hit_loop _ _ _ _ _ _ _ results b1) as [b2 hits]. simpl. intros [->|Hh]%elem_of_cons.
  - exists r. split; [by left|]. by split_and!.
  - destruct (IH Hh) as (r' & Hr' & Hrest). exists r'. split; [by right|done].
Qed.

(** [search_memory] changes no memory.  It answers at most ten hits, each the text of a
    memory of the tenant's collection that is not superseded, is of the tenant's scope or
    passes the filter of the user, and was created within the bounds. *)
Theorem search_memory_spec configured ctx args now (w w' : memory_world) hits :
  search_memory math_exp math_log2 parse_rfc3339 parse_date Embed hash configured ctx args now w = (w', Some (Ok hits)) →
  mw_store w' = mw_store w
  ∧ (length hits ≤ 10)%nat
  ∧ ∀ h, h ∈ hits → ∃ id v p, vs_point (collection_of (mem_tenant ctx)) id (mw_store w) = Some (v, p)
      ∧ mh_Text h = as_str (p !! "text"%string) ∧ mh_Text h ≠ ""%string
      ∧ (tenant_filter ⊆ p ∨ user_filter (mc_user ctx) ⊆ p)
      ∧ let bounds := parseDateBounds parse_rfc3339 parse_date (qa_DateFrom args) (qa_DateTo args) in
        in_bounds bounds.1 bounds.2 (created_at parse_rfc3339 p) = true.
Proof.
  unfold search_memory. destruct (negb configured); [done|]. destruct (str_empty (trim_space _)); [done|].
  destruct (embed_text _ _ _ _) as [c0 [[vec|e]|]] eqn:Hemb; [|done..]. cbn [mw_store with_cache mw_bm25].
  set (coll := collection_of (mem_tenant ctx)).
  destruct (vs_Search coll vec tenant_filter 15 _) as [tr|e] eqn:Ht; [|done].
  destruct (vs_Search coll vec (user_filter (mc_user ctx)) 15 _) as [ur|e] eqn:Hu; [|done].
  destruct (parseDateBounds _ _ _ _) as [from to] eqn:Hb.
  destruct (hit_loop _ _ _ _ _ _ _ _ _) as [b hs] eqn:Hl. intros [= <- <-]. split; [done|].
  destruct (rank_hits_spec hs) as (Hlen & [rest Hperm] & _). split; [done|]. intros h Hh.
  assert (h ∈ (hit_loop math_exp math_log2 parse_rfc3339 now (qa_Query args) from to (tr ++ ur) (mw_bm25 w)).2) as Hin.
  { rewrite Hl. simpl. rewrite Hperm. apply elem_of_app. by left. }
  apply hit_loop_sound in Hin as (r & Hr & Htext & Hne & _ & Hbounds).
  assert (∃ v, vs_point coll (vr_ID r) (mw_store w) = Some (v, vr_Payload r)) as [v Hv].
  { apply elem_of_app in Hr as [Hr|Hr]; [exact (search_points _ _ _ _ _ _ _ Ht Hr)|exact (search_points _ _ _ _ _ _ _ Hu Hr)]. }
  exists (vr_ID r), v, (vr_Payload r). split_and!; [done..| |done].
  apply elem_of_app in Hr as [Hr|Hr]; [left; exact (search_filter _ _ _ _ _ _ _ Ht Hr)|right; exact (search_filter _ _ _ _ _ _ _ Hu Hr)].
Qed.
End lemmas.

(** ** Witnesses

    A vector store in memory that searches by the filter alone. *)

Abbreviation point_store := (gmap (string * string) (Z * payload)).

#[local] Instance point_vectors : VectorStore point_store Z := {
  vs_EnsureCollection := λ _ s, (s, None);
  vs_Search := λ coll _ f _ s, Ok ((λ kp, {| vr_ID := kp.1.2; vr_Score := S754_infinity false; vr_Payload := kp.2.2 |})
                 <$> filter (λ kp : (string * string) * (Z * payload), kp.1.1 = coll ∧ f ⊆ kp.2.2) (map_to_list s));
  vs_Upsert := λ coll id v p s, (<[(coll, id) := (v, p)]> s, None);
  vs_Delete := λ coll f s, (filter (λ kp : (string * string) * (Z * payload), ¬ (kp.1.1 = coll ∧ f ⊆ kp.2.2)) s, None);
  vs_point := λ coll id s, s !! (coll, id);
}.

#[local] Instance point_vector_laws : VectorLaws point_store Z.
Proof.
  split; simpl.
  - done.
  - intros coll v f k s r l [= <-] Hr. apply list_elem_of_fmap in Hr as ([[c id] [v' p]] & -> & Hin).
    apply list_elem_of_filter in Hin as [[Hc _] Hin]. simpl in *. subst c. exists v'. by apply elem_of_map_to_list.
  - intros coll id v p s s' [= <-]. apply lookup_insert_eq.
  - done.
  - intros coll id v p s c id' Hne. by apply lookup_insert_ne.
Qed.

#[local] Instance point_filter_laws : VectorFilterLaws point_store Z.
Proof.
  split; simpl.
  - intros coll v f k s l r [= <-] Hr. apply list_elem_of_fmap in Hr as ([[c id] [v' p]] & -> & Hin).
    by apply list_elem_of_filter in Hin as [[_ Hf] _].
  - intros coll f s s' c id [= <-]. rewrite map_lookup_filter. destruct (s !! (c, id)) as [vp|]; simpl; [|done].
    case_bool_decide as Hm; case_guard as Hg; simpl in *; try done; by destruct Hg.
  - done.
Qed.

Definition w_embed (t : string) : result goerror (list Z) := Ok [Z.of_nat (str_len t)].
Definition w_time (t : time) : string := "now".
Definition w_no_time (s : string) : option time := None.
Definition w_user : memory_ctx := {| mc_tenant := "t"; mc_user := "alice" |}.
Definition w_nobody : memory_ctx := {| mc_tenant := "t"; mc_user := "" |}.
Definition w_empty : @memory_world point_store Z := {| mw_store := ∅; mw_cache := None; mw_bm25 := None |}.
Definition w_args : saveMemoryArgs := {| sa_Content := "likes tea"; sa_Category := "fact"; sa_Permanent := None |}.
Definition w_query : searchMemoryArgs := {| qa_Query := "tea"; qa_DateFrom := ""; qa_DateTo := "" |}.

Definition w_saved : @memory_world point_store Z :=
  (save_memory w_time w_embed (λ _, 0) (λ s, s) true w_user w_args 0 "id" w_empty).1.

Lemma save_memory_spec_witness :
  ∃ vec, vs_point "tenant_t" "id" (mw_store w_saved) = Some (vec, save_payload w_time "alice" "fact" 0 w_args).
Proof.
  assert (save_memory w_time w_embed (λ _, 0) (λ s, s) true w_user w_args 0 "id" w_empty = (w_saved, Some (Ok "fact"%string))) as Hs
    by (apply run_of_answer; vm_compute; reflexivity).
  exact (proj1 (save_memory_spec w_time w_embed (λ _, 0) (λ s, s) true w_user w_args 0 "id" w_empty w_saved "fact" Hs)).
Defined.

Definition w_search (ctx : memory_ctx) :=
  search_memory (U := bytewise_case) (SS := stable_sort) (λ x, x) (λ x, x) w_no_time w_no_time w_embed (λ s, s) true ctx w_query 0 w_saved.

(** Without a user the memories of every user are searched: what alice saved is found. *)
Definition w_leaked : list memoryHit := match (w_search w_nobody).2 with Some (Ok l) => l | _ => [] end.

Lemma search_memory_spec_witness :
  mh_Text <$> w_leaked = ["likes tea"%string] ∧ (length w_leaked ≤ 10)%nat.
Proof.
  split; [vm_compute; reflexivity|].
  assert (w_search w_nobody = ((w_search w_nobody).1, Some (Ok w_leaked))) as Hs by (apply run_of_answer; vm_compute; reflexivity).
  refine (proj1 (proj2 (search_memory_spec (U := bytewise_case) (SS := stable_sort) (λ x, x) (λ x, x) w_no_time w_no_time
    w_embed (λ s, s) true w_nobody w_query 0 w_saved (w_search w_nobody).1 w_leaked Hs))).
Defined.

Definition w_clear : deleteMemoryArgs := {| da_Query := ""; da_ClearAll := true |}.
Definition w_cleared : @memory_world point_store Z := (delete_memory w_embed (λ _, 0) (λ s, s) true w_user w_clear w_saved).1.

Lemma delete_memory_spec_witness : vs_point "tenant_t" "id" (mw_store w_cleared) = None.
Proof.
  assert (delete_memory w_embed (λ _, 0) (λ s, s) true w_user w_clear w_saved = (w_cleared, Some (Ok None))) as Hd
    by (apply run_of_answer; vm_compute; reflexivity).
  pose proof (delete_memory_spec w_embed (λ _, 0) (λ s, s) true w_user w_clear w_saved w_cleared None Hd "tenant_t" "id"
    (9, save_payload w_time "alice" "fact" 0 w_args)) as H.
  destruct H as [H _]; [apply (bool_decide_unpack _); vm_compute; exact I|]. apply H; [done|].
  apply (bool_decide_unpack _). vm_compute. exact I.
Defined.
