(* ===== verification/Api.v ===== *)
(** [pkg/api/errors], [pkg/api/response] and [pkg/api/validation]: what the handlers of the
    web console answer with, and the rules for e-mail addresses and passwords.

    A response is its status and its body; the headers are left out, and so is the
    timestamp of an error.  A handler that has written no body answers [NoBody]. *)
From S2P Require Import Prelude GoStrings Regex Types.

(** ** errors.go *)

Record AppError := {
  ae_Code : string; ae_Message : string; ae_StatusCode : Z; ae_Err : option goerror; ae_RequestID : string;
}.

Definition CodeBadRequest : string := "BAD_REQUEST".
Definition CodeUnauthorized : string := "UNAUTHORIZED".
Definition CodeForbidden : string := "FORBIDDEN".
Definition CodeNotFound : string := "NOT_FOUND".
Definition CodeConflict : string := "CONFLICT".
Definition CodeInternalError : string := "INTERNAL_ERROR".
Definition CodeValidationFailed : string := "VALIDATION_FAILED".
Definition CodeRateLimitExceeded : string := "RATE_LIMIT_EXCEEDED".

Definition StatusOK : Z := 200.
Definition StatusCreated : Z := 201.
Definition StatusBadRequest : Z := 400.
Definition StatusUnauthorized : Z := 401.
Definition StatusForbidden : Z := 403.
Definition StatusNotFound : Z := 404.
Definition StatusConflict : Z := 409.
Definition StatusTooManyRequests : Z := 429.
Definition StatusInternalServerError : Z := 500.

Definition NewError (code message : string) (statusCode : Z) (err : option goerror) : AppError :=
  {| ae_Code := code; ae_Message := message; ae_StatusCode := statusCode; ae_Err := err; ae_RequestID := "" |}.

Definition app_error_text (e : AppError) : string :=
  ae_Code e +:+ ": " +:+ ae_Message e +:+ match ae_Err e with Some err => ": " +:+ error_text err | None => "" end.

Definition WithRequestID (requestID : string) (e : AppError) : AppError :=
  {| ae_Code := ae_Code e; ae_Message := ae_Message e; ae_StatusCode := ae_StatusCode e; ae_Err := ae_Err e;
     ae_RequestID := requestID |}.

Definition BadRequest (message : string) : AppError := NewError CodeBadRequest message StatusBadRequest None.
Definition Unauthorized (message : string) : AppError := NewError CodeUnauthorized message StatusUnauthorized None.
Definition Forbidden (message : string) : AppError := NewError CodeForbidden message StatusForbidden None.
Definition NotFound (message : string) : AppError := NewError CodeNotFound message StatusNotFound None.
Definition Conflict (message : string) : AppError := NewError CodeConflict message StatusConflict None.
Definition InternalError (err : goerror) : AppError :=
  NewError CodeInternalError "Internal server error" StatusInternalServerError (Some err).
Definition ValidationError (message : string) : AppError := NewError CodeValidationFailed message StatusBadRequest None.
Definition RateLimitError : AppError := NewError CodeRateLimitExceeded "Rate limit exceeded" StatusTooManyRequests None.

(** ** response.go *)

(** [ErrorBody] is [ErrorResponse] as JSON gives it: without the status and the cause.
    [TextBody] is the plain form [{"error": text}]. *)
Inductive body (D : Type) : Type :=
| NoBody
| Data (d : D)
| ErrorBody (code message requestID : string)
| TextBody (text : string).
Arguments NoBody {D}.
Arguments Data {D} _.
Arguments ErrorBody {D} _ _ _.
Arguments TextBody {D} _.

Record Response (D : Type) := { rs_Status : Z; rs_Body : body D }.
Arguments rs_Status {D} _.
Arguments rs_Body {D} _.

Section response.
Context {D : Type}.

Definition HandleError (err : AppError + goerror) : Response D :=
  let e := match err with inl e => e | inr err => InternalError err end in
  {| rs_Status := ae_StatusCode e; rs_Body := ErrorBody (ae_Code e) (ae_Message e) (ae_RequestID e) |}.

Definition JSON (status : Z) (data : option D) : Response D :=
  {| rs_Status := status; rs_Body := match data with Some d => Data d | None => NoBody end |}.
Definition Success (data : option D) : Response D := JSON StatusOK data.
Definition Created (data : option D) : Response D := JSON StatusCreated data.
Definition NoContent : Response D := {| rs_Status := 204; rs_Body := NoBody |}.
Definition Accepted (data : option D) : Response D := JSON 202 data.

(** [writeError] and [writeJSON] of the console's handlers. *)
Definition writeError (status : Z) (msg : string) : Response D := HandleError (inl (NewError "ERROR" msg status None)).
Definition writeJSON (status : Z) (v : D) : Response D := JSON status (Some v).
End response.

(** ** validation.go *)

Definition is_letter (c : ascii) : bool := is_upper_byte c || is_lower_byte c.
Definition one_of (s : string) (c : ascii) : bool := existsb (Ascii.eqb c) (s2l s).
Definition local_char (c : ascii) : bool := is_letter c || is_digit_byte c || one_of "._%+-" c.
Definition domain_char (c : ascii) : bool := is_letter c || is_digit_byte c || one_of ".-" c.

(** [^[a-zA-Z0-9._%+\-]+@[a-zA-Z0-9.\-]+\.[a-zA-Z]{2,}$] *)
Definition emailRegex : re :=
  rseq [rplus (RSet local_char); rbyte "@"; rplus (RSet domain_char); rbyte "."; RSet is_letter; rplus (RSet is_letter)].

Definition ValidateEmail (email : string) : option string :=
  if str_empty email then Some "email is required"%string
  else if (255 <? str_len email)%nat then Some "email is too long"%string
  else if negb (re_full emailRegex email) then Some "invalid email format"%string
  else None.

(** The three flags; the ranges are tested in turn and hold single bytes only. *)
Definition see_char (st : bool * bool * bool) (ch : ascii) : bool * bool * bool :=
  let '(hasUpper, hasLower, hasNumber) := st in
  if is_upper_byte ch then (true, hasLower, hasNumber)
  else if is_lower_byte ch then (hasUpper, true, hasNumber)
  else if is_digit_byte ch then (hasUpper, hasLower, true)
  else st.

Definition ValidatePassword (password : string) : option string :=
  if str_empty password then Some "password is required"%string
  else if (str_len password <? 8)%nat then Some "password must be at least 8 characters"%string
  else if (128 <? str_len password)%nat then Some "password is too long"%string
  else
    let '(hasUpper, hasLower, hasNumber) := foldl see_char (false, false, false) (s2l password) in
    if negb hasUpper || negb hasLower || negb hasNumber
    then Some "password must contain uppercase, lowercase, and numbers"%string
    else None.

(** ** Properties *)

Lemma s2l_empty s : s2l s = [] ↔ s = ""%string.
Proof. split; [intros H; by rewrite <- (l2s_s2l s), H|by intros ->]. Qed.

(** An address is accepted if and only if it has at most 255 bytes and consists of a
    local part, an [@], a domain and a dot with a name of two letters or more, all of the
    characters allowed in them. *)
Theorem ValidateEmail_spec email :
  ValidateEmail email = None ↔
  (str_len email ≤ 255)%nat ∧ ∃ loc dom top,
    s2l email = loc ++ "@"%char :: dom ++ "."%char :: top
    ∧ loc ≠ [] ∧ Forall (λ c, local_char c = true) loc
    ∧ dom ≠ [] ∧ Forall (λ c, domain_char c = true) dom
    ∧ (2 ≤ length top)%nat ∧ Forall (λ c, is_letter c = true) top.
Proof.
  assert (re_full emailRegex email = true ↔ ∃ loc dom top,
    s2l email = loc ++ "@"%char :: dom ++ "."%char :: top
    ∧ loc ≠ [] ∧ Forall (λ c, local_char c = true) loc
    ∧ dom ≠ [] ∧ Forall (λ c, domain_char c = true) dom
    ∧ (2 ≤ length top)%nat ∧ Forall (λ c, is_letter c = true) top) as Hre.
  { rewrite re_full_lang by reflexivity. unfold emailRegex. rewrite lang_rseq. split.
    - intros (ks & -> & H). inv H as [|? loc ? ? Hl H']. inv H' as [|? at_ ? ? Ha H]. inv H as [|? dom ? ? Hd H'].
      inv H' as [|? dot ? ? Ho H]. inv H as [|? t1 ? ? Ht1 H']. inv H' as [|? top ? ? Ht H]. inv H.
      apply lang_class_plus in Hl as [? ?], Hd as [? ?], Ht as [Hne ?]. apply lang_byte in Ha as ->, Ho as ->.
      destruct Ht1 as (c & -> & Hc). exists loc, dom, (c :: top). cbn. rewrite app_nil_r.
      split_and!; try done; [|by constructor]. destruct top; [done|]. simpl. lia.
    - intros (loc & dom & [|c top] & -> & Hl1 & Hl2 & Hd1 & Hd2 & Ht & HF); [simpl in Ht; lia|].
      apply Forall_cons in HF as [Hc Htop].
      exists [loc; ["@"%char]; dom; ["."%char]; [c]; top]. cbn [concat]. rewrite app_nil_r. split; [done|].
      repeat constructor; rewrite ?lang_class_plus, ?lang_byte; try done; [by exists c|].
      split; [|done]. intros ->. simpl in Ht. lia. }
  unfold ValidateEmail. destruct (str_empty email) eqn:He.
  { apply bool_decide_eq_true in He as ->. split; [done|]. intros [_ (loc & dom & top & Heq & Hl & _)].
    by destruct loc. }
  destruct (Nat.ltb_spec 255 (str_len email)); [split; [done|lia]|].
  destruct (re_full emailRegex email); cbn [negb].
  - split; [intros _|done]. split; [done|]. by apply Hre.
  - split; [done|]. intros [_ H']. by apply Hre in H'.
Qed.

Lemma see_char_fold l u w n :
  foldl see_char (u, w, n) l
  = (u || existsb is_upper_byte l, w || existsb is_lower_byte l, n || existsb is_digit_byte l).
Proof.
  revert u w n. induction l as [|c l IH]; intros u w n; [by rewrite !orb_false_r|].
  cbn [foldl existsb]. unfold see_char at 2.
  assert (is_upper_byte c = true → is_lower_byte c = false ∧ is_digit_byte c = false) as Hu by (clear; by_bytes c).
  assert (is_lower_byte c = true → is_digit_byte c = false) as Hw by (clear; by_bytes c).
  destruct (is_upper_byte c); [destruct Hu as [-> ->]; [done|]; by rewrite IH, ?orb_true_r|].
  destruct (is_lower_byte c); [rewrite Hw by done; by rewrite IH, ?orb_true_r|].
  destruct (is_digit_byte c); by rewrite IH, ?orb_true_r.
Qed.

(** A password is accepted if and only if it has 8 to 128 bytes with a capital, a small
    letter and a digit among them. *)
Theorem ValidatePassword_spec password :
  ValidatePassword password = None ↔
  (8 ≤ str_len password ≤ 128)%nat
  ∧ existsb is_upper_byte (s2l password) = true ∧ existsb is_lower_byte (s2l password) = true
  ∧ existsb is_digit_byte (s2l password) = true.
Proof.
  unfold ValidatePassword. destruct (str_empty password) eqn:He.
  { apply bool_decide_eq_true in He as ->. split; [done|]. intros [Hl _]. unfold str_len in Hl. simpl in Hl. lia. }
  destruct (Nat.ltb_spec (str_len password) 8); [split; [done|lia]|].
  destruct (Nat.ltb_spec 128 (str_len password)); [split; [done|lia]|].
  rewrite see_char_fold. cbn [orb].
  destruct (existsb is_upper_byte _), (existsb is_lower_byte _), (existsb is_digit_byte _); cbn; naive_solver lia.
Qed.
