(* ===== verification/Accounts.v ===== *)
(** [pkg/types/account.go], the interfaces of the account and session stores with their
    laws, and their implementation on a database, [pkg/storage/mysql] ([accounts.go],
    [chat_sessions.go], [tenant.go], [workspace.go], [user_workspace.go]), which has the
    laws.

    A database is a record of tables, maps from the primary keys of [migrate.go] to rows.
    A statement may fail instead of running: [fault] says whether it does.  The order in
    which a query finds its rows is unspecified where the query does not ask for one
    ([scan]).  The columns of the models are the fields of the types, so the conversions
    between them are left out; the JSON of a tenant's configuration is read back as it
    was written. *)
From S2P Require Import Prelude GoStrings Floats Values Types Stores.

(** ** account.go *)

Record Account := {
  acc_ID : string; acc_Email : string; acc_PasswordHash : string; acc_DisplayName : string; acc_Status : string;
  acc_Role : string; acc_CreatedAt : time;
}.

Record AccountTenant := { at_AccountID : string; at_TenantID : string; at_Role : string; at_CreatedAt : time }.

Record ChatSession := {
  cs_ID : string; cs_TenantID : string; cs_AccountID : string; cs_AgentID : string; cs_Title : string;
  cs_SessionKey : string; cs_Pinned : bool; cs_Archived : bool; cs_CreatedAt : time; cs_UpdatedAt : time;
}.

#[global] Instance Account_eq_dec : EqDecision Account.
Proof. solve_decision. Defined.
#[global] Instance AccountTenant_eq_dec : EqDecision AccountTenant.
Proof. solve_decision. Defined.
#[global] Instance ChatSession_eq_dec : EqDecision ChatSession.
Proof. solve_decision. Defined.

(** A column with a default value gets it in place of the empty string. *)
Definition or_default (v d : string) : string := if str_empty v then d else v.

(** A creation or update time that is zero is set by the statement. *)
Definition or_now (now t : time) : time := if IsZero t then now else t.

Definition stored_account (now : time) (a : Account) : Account :=
  {| acc_ID := acc_ID a; acc_Email := acc_Email a; acc_PasswordHash := acc_PasswordHash a;
     acc_DisplayName := acc_DisplayName a; acc_Status := or_default (acc_Status a) "active";
     acc_Role := or_default (acc_Role a) "user"; acc_CreatedAt := or_now now (acc_CreatedAt a) |}.

(** ** The interfaces *)

Class AccountStore (S : Type) := {
  acs_Create : Account → S → S * option goerror;
  acs_GetByID : string → S → result goerror Account;
  acs_GetByEmail : string → S → result goerror Account;
  acs_Update : Account → S → S * option goerror;
  (* the account with an identifier, for the laws *)
  acs_row : string → S → option Account;
}.

Class AccountTenantStore (S : Type) := {
  ats_Create : AccountTenant → S → S * option goerror;
  ats_ListByAccount : string → S → result goerror (list AccountTenant);
  ats_HasAccess : string → string → S → result goerror bool;
  (* whether an account is linked to a tenant, for the laws *)
  ats_linked : string → string → S → bool;
}.

Class ChatSessionStore (S : Type) := {
  css_Create : ChatSession → S → S * option goerror;
  css_Get : string → S → result goerror ChatSession;
  css_GetByAccountID : string → string → S → result goerror ChatSession;
  css_ListByAccount : string → string → bool → S → result goerror (list ChatSession);
  css_Update : ChatSession → S → S * option goerror;
  css_Delete : string → S → S * option goerror;
  (* the session with an identifier, for the laws *)
  css_row : string → S → option ChatSession;
}.

(** What accounts promise: identifiers and addresses are unique, a lookup finds what is
    there, and a failed statement changes nothing. *)
Class AccountLaws (S : Type) `{AccountStore S} := {
  acs_by_id i s a : acs_GetByID i s = Ok a → acs_row i s = Some a;
  acs_by_email e s a : acs_GetByEmail e s = Ok a → acs_row (acc_ID a) s = Some a ∧ acc_Email a = e;
  acs_row_id i s a : acs_row i s = Some a → acc_ID a = i;
  acs_unique i j s a b : acs_row i s = Some a → acs_row j s = Some b → acc_Email a = acc_Email b → i = j;
  acs_create_ok a s s' : acs_Create a s = (s', None) →
    acs_row (acc_ID a) s = None
    ∧ ∃ now, ∀ i, acs_row i s' = if decide (i = acc_ID a) then Some (stored_account now a) else acs_row i s;
  acs_create_fails a s s' e i : acs_Create a s = (s', Some e) → acs_row i s' = acs_row i s;
}.

Class AccountTenantLaws (S : Type) `{AccountTenantStore S} := {
  ats_list a s l : ats_ListByAccount a s = Ok l →
    NoDup (at_TenantID <$> l) ∧ ∀ t, ats_linked a t s = true ↔ t ∈ at_TenantID <$> l;
  ats_create_ok at_ s s' a t : ats_Create at_ s = (s', None) →
    ats_linked a t s' = bool_decide ((a, t) = (at_AccountID at_, at_TenantID at_)) || ats_linked a t s;
  ats_create_fails at_ s s' e a t : ats_Create at_ s = (s', Some e) → ats_linked a t s' = ats_linked a t s;
  ats_access a t s b : ats_HasAccess a t s = Ok b → b = ats_linked a t s;
}.

(** What the handlers of sessions rely on: the query with the account in it. *)
Class ChatSessionLaws (S : Type) `{ChatSessionStore S} := {
  css_by_account i a s cs : css_GetByAccountID i a s = Ok cs → css_row i s = Some cs ∧ cs_AccountID cs = a;
  css_row_id i s cs : css_row i s = Some cs → cs_ID cs = i;
  css_list a t ar s l cs : css_ListByAccount a t ar s = Ok l →
    cs ∈ l ↔ css_row (cs_ID cs) s = Some cs ∧ cs_AccountID cs = a ∧ cs_TenantID cs = t ∧ cs_Archived cs = ar;
  css_create_other cs s i : i ≠ cs_ID cs → css_row i (css_Create cs s).1 = css_row i s;
  css_create_new cs s s' : css_Create cs s = (s', None) →
    css_row (cs_ID cs) s = None ∧ ∃ cs', css_row (cs_ID cs) s' = Some cs' ∧ cs_AccountID cs' = cs_AccountID cs;
  css_create_taken cs s : css_row (cs_ID cs) s ≠ None → css_row (cs_ID cs) (css_Create cs s).1 = css_row (cs_ID cs) s;
  css_update_other cs s i : i ≠ cs_ID cs → css_row i (css_Update cs s).1 = css_row i s;
  css_delete_other d s i : i ≠ d → css_row i (css_Delete d s).1 = css_row i s;
}.

(** The stores of one database keep out of each other's tables. *)
Class SeparateStores (S : Type) `{AccountStore S} `{AccountTenantStore S} `{TenantStore S} `{WorkspaceStore S} := {
  acs_row_tenants i t s : acs_row i (tns_Put t s).1 = acs_row i s;
  acs_row_links i l s : acs_row i (ats_Create l s).1 = acs_row i s;
  acs_row_docs i d s : acs_row i (ws_Put d s).1 = acs_row i s;
  ats_linked_accounts a t x s : ats_linked a t (acs_Create x s).1 = ats_linked a t s;
  ats_linked_tenants a t x s : ats_linked a t (tns_Put x s).1 = ats_linked a t s;
  ats_linked_docs a t d s : ats_linked a t (ws_Put d s).1 = ats_linked a t s;
}.

(** ** The database *)

Record tables := {
  tb_accounts : gmap string Account;
  tb_links : gmap (string * string) AccountTenant;
  tb_sessions : gmap string ChatSession;
  tb_tenants : gmap string Tenant;
  tb_docs : gmap (string * string) WorkspaceDoc;
  tb_user_docs : gmap (string * string * string) UserWorkspaceDoc;
}.

(** Rows are filed under their primary keys, and the addresses of accounts are unique. *)
Definition constraints (t : tables) : Prop :=
  map_Forall (λ i a, acc_ID a = i ∧ map_Forall (λ j b, acc_Email a = acc_Email b → i = j) (tb_accounts t)) (tb_accounts t)
  ∧ map_Forall (λ k l, (at_AccountID l, at_TenantID l) = k) (tb_links t)
  ∧ map_Forall (λ i cs, cs_ID cs = i) (tb_sessions t)
  ∧ map_Forall (λ i t, tn_TenantID t = i) (tb_tenants t)
  ∧ map_Forall (λ k d, (wd_TenantID d, wd_DocType d) = k) (tb_docs t)
  ∧ map_Forall (λ k d, (ud_TenantID d, ud_UserID d, ud_DocType d) = k) (tb_user_docs t).

#[global] Instance constraints_dec t : Decision (constraints t).
Proof. unfold constraints. apply _. Defined.

(** [db_now] is the clock of the statements. *)
Record db := { db_tables : tables; db_now : time; db_ok : constraints db_tables }.

Inductive operation := OpInsert | OpUpsert | OpSave | OpQuery | OpDelete.
Inductive table := TAccounts | TAccountTenants | TChatSessions | TTenants | TWorkspaceDocs | TUserWorkspaceDocs.

Definition ErrRecordNotFound : goerror := ErrText "record not found".
Definition ErrConstraint : goerror := ErrText "duplicated key not allowed".

(** The rows a query finds, in some order. *)
Class Scan := {
  scan : ∀ {A : Type}, list A → list A;
  scan_perm : ∀ {A : Type} (l : list A), scan l ≡ₚ l;
}.

Definition rows {K V} `{Countable K} (f : V → bool) (m : gmap K V) : list V :=
  filter (λ v, f v = true) (map_to_list m).*2.

Lemma elem_of_rows {K V} `{Countable K} (f : V → bool) (m : gmap K V) v :
  v ∈ rows f m ↔ f v = true ∧ ∃ k, m !! k = Some v.
Proof.
  unfold rows. rewrite list_elem_of_filter, list_elem_of_fmap. split; intros [Hf H']; split; try done.
  - destruct H' as ([k w] & -> & Hk%elem_of_map_to_list). by exists k.
  - destruct H' as [k Hk]. exists (k, v). by rewrite elem_of_map_to_list.
Qed.

Lemma rows_NoDup {K V} `{Countable K} (key : V → K) (f : V → bool) (m : gmap K V) :
  map_Forall (λ k v, key v = k) m → NoDup (rows f m).
Proof.
  intros Hkey. apply NoDup_filter, NoDup_fmap_2_strong, NoDup_map_to_list.
  intros [k v] [k' v'] Hk%elem_of_map_to_list Hk'%elem_of_map_to_list Heq. cbn in Heq. subst v'.
  by rewrite <- (Hkey _ _ Hk), <- (Hkey _ _ Hk').
Qed.

Section mysql.
Context (fault : operation → table → list string → db → option goerror).
Context `{Scan} `{SliceSort}.

(** A statement that changes the tables: it may fail, and so it does when the result
    breaks a constraint. *)
Definition exec (op : operation) (tb : table) (key : list string) (f : tables → option tables) (s : db)
    : db * option goerror :=
  match fault op tb key s with
  | Some e => (s, Some e)
  | None =>
      match f (db_tables s) with
      | None => (s, Some ErrConstraint)
      | Some t => match decide (constraints t) with
                  | left ok => ({| db_tables := t; db_now := db_now s; db_ok := ok |}, None)
                  | right _ => (s, Some ErrConstraint)
                  end
      end
  end.

Definition query {A} (tb : table) (key : list string) (f : tables → result goerror A) (s : db) : result goerror A :=
  match fault OpQuery tb key s with Some e => Err e | None => f (db_tables s) end.

Definition found {A} (o : option A) : result goerror A := match o with Some a => Ok a | None => Err ErrRecordNotFound end.
Definition found_ptr {A} (o : option A) : result goerror (option A) := found (Some <$> o).

(** Insert, upsert and delete on one table. *)
Definition insert_new {K V} `{Countable K} (k : K) (v : V) (m : gmap K V) : option (gmap K V) :=
  match m !! k with Some _ => None | None => Some (<[k := v]> m) end.

Definition with_accounts (f : gmap string Account → option (gmap string Account)) (t : tables) : option tables :=
  m ← f (tb_accounts t);
  Some {| tb_accounts := m; tb_links := tb_links t; tb_sessions := tb_sessions t; tb_tenants := tb_tenants t;
          tb_docs := tb_docs t; tb_user_docs := tb_user_docs t |}.
Definition with_links (f : gmap (string * string) AccountTenant → option (gmap (string * string) AccountTenant))
    (t : tables) : option tables :=
  m ← f (tb_links t);
  Some {| tb_accounts := tb_accounts t; tb_links := m; tb_sessions := tb_sessions t; tb_tenants := tb_tenants t;
          tb_docs := tb_docs t; tb_user_docs := tb_user_docs t |}.
Definition with_sessions (f : gmap string ChatSession → option (gmap string ChatSession)) (t : tables) : option tables :=
  m ← f (tb_sessions t);
  Some {| tb_accounts := tb_accounts t; tb_links := tb_links t; tb_sessions := m; tb_tenants := tb_tenants t;
          tb_docs := tb_docs t; tb_user_docs := tb_user_docs t |}.
Definition with_tenants (f : gmap string Tenant → gmap string Tenant) (t : tables) : option tables :=
  Some {| tb_accounts := tb_accounts t; tb_links := tb_links t; tb_sessions := tb_sessions t;
          tb_tenants := f (tb_tenants t); tb_docs := tb_docs t; tb_user_docs := tb_user_docs t |}.
Definition with_docs (f : gmap (string * string) WorkspaceDoc → gmap (string * string) WorkspaceDoc) (t : tables)
    : option tables :=
  Some {| tb_accounts := tb_accounts t; tb_links := tb_links t; tb_sessions := tb_sessions t;
          tb_tenants := tb_tenants t; tb_docs := f (tb_docs t); tb_user_docs := tb_user_docs t |}.
Definition with_user_docs
    (f : gmap (string * string * string) UserWorkspaceDoc → gmap (string * string * string) UserWorkspaceDoc)
    (t : tables) : option tables :=
  Some {| tb_accounts := tb_accounts t; tb_links := tb_links t; tb_sessions := tb_sessions t;
          tb_tenants := tb_tenants t; tb_docs := tb_docs t; tb_user_docs := f (tb_user_docs t) |}.

(** accounts.go *)
#[global] Instance mysql_accounts : AccountStore db := {
  acs_Create a s := exec OpInsert TAccounts [acc_ID a] (with_accounts (insert_new (acc_ID a) (stored_account (db_now s) a))) s;
  acs_GetByID id := query TAccounts [id] (λ t, found (tb_accounts t !! id));
  acs_GetByEmail email :=
    query TAccounts [email] (λ t, found (head (scan (rows (λ a, bool_decide (acc_Email a = email)) (tb_accounts t)))));
  acs_Update a := exec OpSave TAccounts [acc_ID a] (with_accounts (λ m, Some (<[acc_ID a := a]> m)));
  acs_row id s := tb_accounts (db_tables s) !! id;
}.

Definition stored_link (now : time) (l : AccountTenant) : AccountTenant :=
  {| at_AccountID := at_AccountID l; at_TenantID := at_TenantID l; at_Role := or_default (at_Role l) "owner";
     at_CreatedAt := or_now now (at_CreatedAt l) |}.

#[global] Instance mysql_links : AccountTenantStore db := {
  ats_Create l s := exec OpInsert TAccountTenants [at_AccountID l; at_TenantID l]
    (with_links (insert_new (at_AccountID l, at_TenantID l) (stored_link (db_now s) l))) s;
  ats_ListByAccount id :=
    query TAccountTenants [id] (λ t, Ok (scan (rows (λ l, bool_decide (at_AccountID l = id)) (tb_links t))));
  ats_HasAccess id tenant :=
    query TAccountTenants [id; tenant]
      (λ t, Ok (negb (length (rows (λ l, bool_decide (at_AccountID l = id) && bool_decide (at_TenantID l = tenant))
                                (tb_links t)) =? 0)%nat));
  ats_linked id tenant s := bool_decide (is_Some (tb_links (db_tables s) !! (id, tenant)));
}.

(** chat_sessions.go *)
Definition touch (created updated : time) (cs : ChatSession) : ChatSession :=
  {| cs_ID := cs_ID cs; cs_TenantID := cs_TenantID cs; cs_AccountID := cs_AccountID cs; cs_AgentID := cs_AgentID cs;
     cs_Title := cs_Title cs; cs_SessionKey := cs_SessionKey cs; cs_Pinned := cs_Pinned cs;
     cs_Archived := cs_Archived cs; cs_CreatedAt := created; cs_UpdatedAt := updated |}.
Definition stored_session (now : time) (cs : ChatSession) : ChatSession :=
  touch (or_now now (cs_CreatedAt cs)) (or_now now (cs_UpdatedAt cs)) cs.

Definition of_account (accountID : string) (cs : ChatSession) : option ChatSession :=
  if decide (cs_AccountID cs = accountID) then Some cs else None.

#[global] Instance mysql_sessions : ChatSessionStore db := {
  css_Create cs s := exec OpInsert TChatSessions [cs_ID cs]
    (with_sessions (insert_new (cs_ID cs) (stored_session (db_now s) cs))) s;
  css_Get id := query TChatSessions [id] (λ t, found (tb_sessions t !! id));
  css_GetByAccountID id accountID :=
    query TChatSessions [id; accountID] (λ t, found (tb_sessions t !! id ≫= of_account accountID));
  css_ListByAccount accountID tenantID archived :=
    query TChatSessions [accountID; tenantID]
      (λ t, Ok (sort_slice (λ a b, cs_UpdatedAt b <? cs_UpdatedAt a)
                  (rows (λ cs, bool_decide (cs_AccountID cs = accountID) && bool_decide (cs_TenantID cs = tenantID)
                               && Bool.eqb (cs_Archived cs) archived) (tb_sessions t))));
  css_Update cs s := exec OpSave TChatSessions [cs_ID cs]
    (with_sessions (λ m, Some (<[cs_ID cs := touch (cs_CreatedAt cs) (db_now s) cs]> m))) s;
  css_Delete id := exec OpDelete TChatSessions [id] (with_sessions (λ m, Some (delete id m)));
  css_row id s := tb_sessions (db_tables s) !! id;
}.

(** tenant.go: the upsert leaves the creation time of a tenant that exists. *)
Definition upsert_tenant (now : time) (t : Tenant) (m : gmap string Tenant) : gmap string Tenant :=
  <[tn_TenantID t := {| tn_TenantID := tn_TenantID t; tn_Name := tn_Name t; tn_GroupID := tn_GroupID t;
                        tn_Config := tn_Config t;
                        tn_CreatedAt := match m !! tn_TenantID t with
                                        | Some old => tn_CreatedAt old
                                        | None => or_now now (tn_CreatedAt t)
                                        end |}]> m.

#[global] Instance mysql_tenants : TenantStore db := {
  tns_Get id := query TTenants [id] (λ t, found_ptr (tb_tenants t !! id));
  tns_Put t s := exec OpUpsert TTenants [tn_TenantID t] (with_tenants (upsert_tenant (db_now s) t)) s;
  tns_List groupID :=
    query TTenants [groupID]
      (λ t, Ok (scan (rows (λ t, str_empty groupID || bool_decide (tn_GroupID t = groupID)) (tb_tenants t))));
}.
Definition tns_Delete (id : string) : db → db * option goerror := exec OpDelete TTenants [id] (with_tenants (delete id)).

(** workspace.go and user_workspace.go: a document that is not there is an error, never
    a nil document. *)
#[global] Instance mysql_docs : WorkspaceStore db := {
  ws_Get tenantID docType := query TWorkspaceDocs [tenantID; docType] (λ t, found_ptr (tb_docs t !! (tenantID, docType)));
  ws_Put d s := exec OpUpsert TWorkspaceDocs [wd_TenantID d; wd_DocType d]
    (with_docs (insert (wd_TenantID d, wd_DocType d)
       {| wd_TenantID := wd_TenantID d; wd_DocType := wd_DocType d; wd_Content := wd_Content d;
          wd_Version := wd_Version d; wd_UpdatedAt := or_now (db_now s) (wd_UpdatedAt d) |})) s;
}.
Definition ws_List (tenantID : string) : db → result goerror (list WorkspaceDoc) :=
  query TWorkspaceDocs [tenantID] (λ t, Ok (scan (rows (λ d, bool_decide (wd_TenantID d = tenantID)) (tb_docs t)))).
Definition ws_Delete (tenantID docType : string) : db → db * option goerror :=
  exec OpDelete TWorkspaceDocs [tenantID; docType] (with_docs (delete (tenantID, docType))).

#[global] Instance mysql_user_docs : UserWorkspaceStore db := {
  uws_Get tenantID userID docType :=
    query TUserWorkspaceDocs [tenantID; userID; docType]
      (λ t, found_ptr (tb_user_docs t !! (tenantID, userID, docType)));
  uws_Put d s := exec OpUpsert TUserWorkspaceDocs [ud_TenantID d; ud_UserID d; ud_DocType d]
    (with_user_docs (insert (ud_TenantID d, ud_UserID d, ud_DocType d)
       {| ud_TenantID := ud_TenantID d; ud_UserID := ud_UserID d; ud_DocType := ud_DocType d;
          ud_Content := ud_Content d; ud_Version := ud_Version d;
          ud_UpdatedAt := or_now (db_now s) (ud_UpdatedAt d) |})) s;
}.
Definition uws_List (tenantID userID : string) : db → result goerror (list UserWorkspaceDoc) :=
  query TUserWorkspaceDocs [tenantID; userID]
    (λ t, Ok (scan (rows (λ d, bool_decide (ud_TenantID d = tenantID) && bool_decide (ud_UserID d = userID)) (tb_user_docs t)))).
Definition uws_Delete (tenantID userID docType : string) : db → db * option goerror :=
  exec OpDelete TUserWorkspaceDocs [tenantID; userID; docType] (with_user_docs (delete (tenantID, userID, docType))).

(** ** The laws *)

Lemma exec_ok op tb key f s s' :
  exec op tb key f s = (s', None) → f (db_tables s) = Some (db_tables s').
Proof.
  unfold exec. destruct (fault op tb key s); [done|]. destruct (f (db_tables s)); [|done].
  case_match; [|done]. by intros [= <-].
Qed.

Lemma exec_fails op tb key f s s' e : exec op tb key f s = (s', Some e) → s' = s.
Proof.
  unfold exec. destruct (fault op tb key s); [naive_solver|]. destruct (f (db_tables s)); [|naive_solver].
  case_match; naive_solver.
Qed.

(** Whatever becomes of a statement, a part of the tables it does not change stays. *)
Lemma exec_keeps {A} (g : tables → A) op tb key f s :
  (∀ t t', f t = Some t' → g t' = g t) → g (db_tables (exec op tb key f s).1) = g (db_tables s).
Proof.
  intros Hg. destruct (exec op tb key f s) as [s' [e|]] eqn:He; cbn [fst].
  - by rewrite (exec_fails _ _ _ _ _ _ _ He).
  - by apply Hg, (exec_ok _ _ _ _ _ _ He).
Qed.

Lemma query_ok {A} tb key (f : tables → result goerror A) s a : query tb key f s = Ok a → f (db_tables s) = Ok a.
Proof. unfold query. by destruct (fault OpQuery tb key s). Qed.

Lemma found_ok {A} (o : option A) a : found o = Ok a → o = Some a.
Proof. destruct o; [by intros [= ->]|done]. Qed.

Lemma insert_new_Some {K V} `{Countable K} (k : K) (v : V) m m' :
  insert_new k v m = Some m' → m !! k = None ∧ m' = <[k := v]> m.
Proof. unfold insert_new. destruct (m !! k); [done|]. by intros [= <-]. Qed.

#[global] Instance mysql_account_laws : AccountLaws db.
Proof.
  split.
  - intros i s a Hq%query_ok%found_ok. exact Hq.
  - intros e s a Hq%query_ok%found_ok%head_Some_elem_of. rewrite scan_perm, elem_of_rows in Hq.
    destruct Hq as [He%bool_decide_eq_true [k Hk]]. destruct (proj1 (db_ok s) k a Hk) as [Hid _]. cbn. by rewrite Hid.
  - intros i s a Ha. apply (proj1 (db_ok s) i a Ha).
  - intros i j s a b Ha Hb. exact (proj2 (proj1 (db_ok s) i a Ha) j b Hb).
  - intros a s s' He%exec_ok. unfold with_accounts in He. apply bind_Some in He as (m & Hm & [= Ht]).
    apply insert_new_Some in Hm as [Hnone ->]. split; [exact Hnone|]. exists (db_now s). intros i. cbn. rewrite <- Ht. cbn.
    rewrite lookup_insert. by repeat case_decide; subst.
  - intros a s s' e i He%exec_fails. by subst.
Qed.

#[global] Instance mysql_link_laws : AccountTenantLaws db.
Proof.
  assert (∀ (a : string) (s : db) l, l ∈ rows (λ l, bool_decide (at_AccountID l = a)) (tb_links (db_tables s))
    ↔ at_AccountID l = a ∧ tb_links (db_tables s) !! (a, at_TenantID l) = Some l) as Hrows.
  { intros a s l. rewrite elem_of_rows, bool_decide_eq_true. split; [|naive_solver].
    intros [<- [k Hk]]. split; [done|]. pose proof (proj1 (proj2 (db_ok s)) k l Hk) as Heq. cbn in Heq. by rewrite Heq. }
  split.
  - intros a s l Hq%query_ok. injection Hq as <-. rewrite scan_perm. split.
    + assert (NoDup (rows (λ l, bool_decide (at_AccountID l = a)) (tb_links (db_tables s)))) as Hnd.
        by apply (rows_NoDup _ _ _ (proj1 (proj2 (db_ok s)))).
      apply NoDup_fmap_2_strong; [|done]. intros x y [<- Hx]%Hrows [Hy Hy']%Hrows Heq. congruence.
    + intros t. cbn. rewrite bool_decide_eq_true, list_elem_of_fmap. split.
      * intros [l Hl]. exists l. pose proof (proj1 (proj2 (db_ok s)) _ _ Hl) as [= Ha Ht].
        split; [done|]. rewrite scan_perm. apply Hrows. by rewrite Ha, Ht.
      * intros (l & -> & Hl). rewrite scan_perm in Hl. apply Hrows in Hl as [_ Hl]. by exists l.
  - intros l s s' a t He%exec_ok. unfold with_links in He. apply bind_Some in He as (m & Hm & [= Ht]).
    apply insert_new_Some in Hm as [Hnone ->]. cbn. rewrite <- Ht. cbn.
    destruct (decide ((a, t) = (at_AccountID l, at_TenantID l))) as [->|Hne].
    + rewrite lookup_insert, decide_True by done. by rewrite !bool_decide_eq_true_2 by eauto.
    + rewrite lookup_insert_ne by done. by rewrite (bool_decide_eq_false_2 _ Hne).
  - intros l s s' e a t He%exec_fails. by subst.
  - intros a t s b Hq%query_ok. injection Hq as <-. cbn. apply eq_true_iff_eq.
    rewrite negb_true_iff, Nat.eqb_neq, bool_decide_eq_true. split.
    + intros Hl. destruct (rows _ _) as [|l ls] eqn:Hr; [done|].
      assert (l ∈ l :: ls) as Hin by left. rewrite <- Hr in Hin. apply elem_of_rows in Hin as [Hf [k Hk]].
      apply andb_true_iff in Hf as [<-%bool_decide_eq_true <-%bool_decide_eq_true].
      exists l. by rewrite (proj1 (proj2 (db_ok s)) k l Hk).
    + intros [l Hl] Hlen%nil_length_inv. pose proof (proj1 (proj2 (db_ok s)) _ _ Hl) as [= Ha Ht].
      assert (l ∈ rows (λ l, bool_decide (at_AccountID l = a) && bool_decide (at_TenantID l = t)) (tb_links (db_tables s))) as Hin.
      { apply elem_of_rows. split; [|by eauto]. by rewrite !bool_decide_eq_true_2. }
      rewrite Hlen in Hin. by apply not_elem_of_nil in Hin.
Qed.

#[global] Instance mysql_session_laws : ChatSessionLaws db.
Proof.
  assert (∀ (s : db) i cs, tb_sessions (db_tables s) !! i = Some cs → cs_ID cs = i) as Hid.
  { intros s i cs Hi. by apply (proj1 (proj2 (proj2 (db_ok s)))). }
  split.
  - intros i a s cs Hq%query_ok%found_ok. apply bind_Some in Hq as (cs' & Hi & Ha). unfold of_account in Ha.
    case_decide; [|done]. by simplify_eq.
  - intros i s cs. apply Hid.
  - intros a t ar s l cs Hq%query_ok. injection Hq as <-. rewrite sort_slice_perm, elem_of_rows, !andb_true_iff, !bool_decide_eq_true, eqb_true_iff.
    cbn. split; [|by naive_solver]. intros [Hcs [k Hk]]. rewrite (Hid _ _ _ Hk). naive_solver.
  - intros cs s i Hne. apply (exec_keeps (λ t, tb_sessions t !! i)).
    intros t t' (m & (_ & ->)%insert_new_Some & [= <-])%bind_Some. by apply lookup_insert_ne.
  - intros cs s s' (m & (Hnone & ->)%insert_new_Some & [= Ht])%exec_ok%bind_Some. split; [exact Hnone|].
    cbn. rewrite <- Ht. cbn. rewrite lookup_insert, decide_True by done. by eexists.
  - intros cs s Htaken. cbn in *. destruct (exec _ _ _ _ s) as [s' [e|]] eqn:He.
    + by rewrite (exec_fails _ _ _ _ _ _ _ He).
    + apply exec_ok, bind_Some in He as (m & (Hnone & ->)%insert_new_Some & _). done.
  - intros cs s i Hne. apply (exec_keeps (λ t, tb_sessions t !! i)).
    intros t t' [= <-]. by apply lookup_insert_ne.
  - intros d s i Hne. apply (exec_keeps (λ t, tb_sessions t !! i)).
    intros t t' [= <-]. by apply lookup_delete_ne.
Qed.

#[global] Instance mysql_separate : SeparateStores db.
Proof.
  split; intros; cbn.
  1-3: apply (exec_keeps (λ t, tb_accounts t !! i)).
  4-6: apply bool_decide_ext; rewrite (exec_keeps (λ tb, tb_links tb !! (a, t))); [done|].
  all: intros t1 t2; try (intros [= <-]; done); intros (m & _ & [= <-])%bind_Some; done.
Qed.
End mysql.

(** ** For witnesses

    Codes as texts, and a database without rows whose queries keep the order of keys. *)

Fixpoint bits_of (p : positive) : string :=
  match p with xH => "" | xO p => String "0" (bits_of p) | xI p => String "1" (bits_of p) end.
Fixpoint of_bits (s : string) : positive :=
  match s with EmptyString => xH | String c s => if Ascii.eqb c "0" then xO (of_bits s) else xI (of_bits s) end.

Lemma of_bits_bits p : of_bits (bits_of p) = p.
Proof. induction p as [p IH|p IH|]; simpl; congruence. Qed.

Definition to_code {A} `{Countable A} (x : A) : string := bits_of (encode x).
Definition of_code {A} `{Countable A} (s : string) : option A := decode (of_bits s).
Arguments to_code : simpl never.
Arguments of_code : simpl never.

Lemma of_code_to_code {A} `{Countable A} (x : A) : of_code (to_code x) = Some x.
Proof. unfold of_code, to_code. by rewrite of_bits_bits, decode_encode. Qed.

#[global] Instance demo_scan : Scan := {| scan := λ A l, l; scan_perm := λ A l, reflexivity l |}.

Definition no_tables : tables :=
  {| tb_accounts := ∅; tb_links := ∅; tb_sessions := ∅; tb_tenants := ∅; tb_docs := ∅; tb_user_docs := ∅ |}.
Definition w_db : db := {| db_tables := no_tables; db_now := 100; db_ok := bool_decide_unpack (constraints no_tables) I |}.

Definition no_fault (op : operation) (tb : table) (key : list string) (s : db) : option goerror := None.
(** The table of tenants takes no row. *)
Definition tenants_fault (op : operation) (tb : table) (key : list string) (s : db) : option goerror :=
  match op, tb with OpUpsert, TTenants => Some ErrDeadlineExceeded | _, _ => None end.
