(* ===== verification/Auth.v ===== *)
(** [pkg/api/auth]: tokens, the authentication of requests, and the handlers that register
    accounts, log in, refresh tokens and describe the caller.

    The libraries of password hashes and of JSON web tokens are classes with laws.  The
    body of a request is what the decoder makes of it, [None] when it fails (also for a
    body over the limit).  The handlers work against the interfaces of the stores. *)
From S2P Require Import Prelude GoStrings Types Values Stores Api Accounts.

(** ** The libraries *)

(** bcrypt: [salt] stands for the random bytes of a hash. *)
Class Bcrypt := {
  bcrypt_hash : Z → string → result goerror string;
  bcrypt_compare : string → string → bool;
}.
Class BcryptLaws `{Bcrypt} := {
  bcrypt_own salt pw h : bcrypt_hash salt pw = Ok h → bcrypt_compare h pw = true;
  (* [GenerateFromPassword] does not accept passwords longer than 72 bytes *)
  bcrypt_too_long salt pw : (72 < str_len pw)%nat → is_ok (bcrypt_hash salt pw) = false;
}.

Record JWTConfig := { jc_Secret : string; jc_Expiry : duration }.

Record Claims := {
  cl_AccountID : string; cl_Role : string; cl_Tenants : list string;
  cl_ExpiresAt : time; cl_IssuedAt : time; cl_Issuer : string;
}.

#[global] Instance Claims_eq_dec : EqDecision Claims.
Proof. solve_decision. Defined.

(** The methods a token may be signed with: those of type [SigningMethodHMAC], and others. *)
Inductive SigningMethod := HMAC (alg : string) | OtherMethod (alg : string).

(** [jwt_parse] asks its first argument for the key and gives the claims and [token.Valid]. *)
Class JWT := {
  jwt_sign : SigningMethod → string → Claims → result goerror string;
  jwt_parse : (SigningMethod → option string) → time → string → result goerror (Claims * bool);
}.
Class JWTLaws `{JWT} := {
  jwt_round_trip m key c tok keyfunc now :
    jwt_sign m key c = Ok tok → keyfunc m = Some key → now < cl_ExpiresAt c → jwt_parse keyfunc now tok = Ok (c, true);
  jwt_expires m key c tok keyfunc now :
    jwt_sign m key c = Ok tok → cl_ExpiresAt c ≤ now → is_ok (jwt_parse keyfunc now tok) = false;
  jwt_needs_key m key c tok keyfunc now :
    jwt_sign m key c = Ok tok → keyfunc m = None → is_ok (jwt_parse keyfunc now tok) = false;
}.

(** ** jwt.go *)

(** [jwt.NewNumericDate] keeps whole seconds. *)
Definition NewNumericDate (t : time) : time := t - t `mod` Second.

Definition ErrInvalidToken : goerror := ErrText "invalid token".

Section jwt.
Context `{JWT}.

Definition token_claims (cfg : JWTConfig) (now : time) (accountID role : string) (tenants : list string) : Claims :=
  let expiry := if jc_Expiry cfg =? 0 then 24 * Hour else jc_Expiry cfg in
  {| cl_AccountID := accountID; cl_Role := role; cl_Tenants := tenants;
     cl_ExpiresAt := NewNumericDate (time_add now expiry); cl_IssuedAt := NewNumericDate now; cl_Issuer := "abot-console" |}.

Definition GenerateToken (cfg : JWTConfig) (now : time) (accountID role : string) (tenants : list string)
    : result goerror string := jwt_sign (HMAC "HS256") (jc_Secret cfg) (token_claims cfg now accountID role tenants).

Definition keyfunc (cfg : JWTConfig) (m : SigningMethod) : option string :=
  match m with HMAC _ => Some (jc_Secret cfg) | OtherMethod _ => None end.

Definition ValidateToken (cfg : JWTConfig) (now : time) (tokenStr : string) : result goerror Claims :=
  match jwt_parse (keyfunc cfg) now tokenStr with
  | Err e => Err e
  | Ok (claims, valid) => if valid then Ok claims else Err ErrInvalidToken
  end.
End jwt.

(** ** middleware.go *)

(** [strings.EqualFold] with an ASCII word in which neither [k] nor [s] occurs: no other
    rune folds to one of its letters. *)
Definition equal_fold_word (s w : string) : bool := bool_decide (bytewise_lower s = w).

(** The argument is the [Authorization] header, empty when there is none. *)
Definition extractBearerToken (auth : string) : string :=
  if str_empty auth then ""
  else match splitn auth " " 2 with
       | [scheme; token] => if equal_fold_word scheme "bearer" then token else ""
       | _ => ""
       end.

Section auth.
Context `{JWT} {S : Type}.

(** The next handler is called with the claims in the context. *)
Definition AuthMiddleware {D} (cfg : JWTConfig) (now : time) (auth : string)
    (next : option Claims → S → S * Response D) (s : S) : S * Response D :=
  let tokenStr := extractBearerToken auth in
  let fail msg := (s, {| rs_Status := StatusUnauthorized; rs_Body := TextBody msg |}) in
  if str_empty tokenStr then fail "missing authorization token"%string
  else match ValidateToken cfg now tokenStr with
       | Err _ => fail "invalid or expired token"%string
       | Ok claims => next (Some claims) s
       end.

Definition AccountFromCtx (c : option Claims) : string := match c with Some c => cl_AccountID c | None => "" end.
Definition TenantsFromCtx (c : option Claims) : list string := match c with Some c => cl_Tenants c | None => [] end.

(** ** handler.go *)

Context `{AccountStore S} `{AccountTenantStore S} `{TenantStore S} `{WorkspaceStore S} `{Bcrypt}.

Record registerRequest := { rr_Email : string; rr_Password : string; rr_DisplayName : string }.
Record loginRequest := { lr_Email : string; lr_Password : string }.
Inductive auth_data :=
| TokenData (token : string)
| MeData (id email displayName role : string) (tenants : list string).

Definition writeAuthError (status : Z) (msg : string) : Response auth_data :=
  {| rs_Status := status; rs_Body := TextBody msg |}.
Definition writeAuthJSON (status : Z) (v : auth_data) : Response auth_data := {| rs_Status := status; rs_Body := Data v |}.

(** A statement of a function that returns its first error. *)
Definition and_then (r : S * option goerror) (k : S → S * option goerror) : S * option goerror :=
  match r with (s, Some e) => (s, Some e) | (s, None) => k s end.

Fixpoint seed_docs (tenantID : string) (docs : list (string * string)) (s : S) : S * option goerror :=
  match docs with
  | [] => (s, None)
  | (docType, content) :: docs =>
      and_then (ws_Put {| wd_TenantID := tenantID; wd_DocType := docType; wd_Content := content; wd_Version := 1;
                          wd_UpdatedAt := time_zero |} s) (seed_docs tenantID docs)
  end.

Definition defaultDocs : list (string * string) :=
  [("IDENTITY", "You are a helpful AI assistant."); ("RULES", "Be helpful, harmless, and honest.")]%string.

(** What is not decided by the request: the time, the random parts, the order in which
    the default documents are ranged over, and the errors of beginning and committing the
    transaction. *)
Record register_env := {
  re_now : time; re_salt : Z; re_accountID : string; re_tenantUUID : string; re_docs : list (string * string);
  re_begin : option goerror; re_commit : option goerror;
}.

Definition new_tenantID (uuid : string) : string := "t-" +:+ l2s (take 8 (s2l uuid)).

Definition new_account (now : time) (accountID email hash displayName : string) : Account :=
  {| acc_ID := accountID; acc_Email := email; acc_PasswordHash := hash; acc_DisplayName := displayName;
     acc_Status := "active"; acc_Role := "user"; acc_CreatedAt := now |}.

(** The function given to [Transaction].  It does not use the transaction: the stores
    write through their own handle. *)
Definition create_all (now : time) (account : Account) (tenantID : string) (docs : list (string * string)) (s : S)
    : S * option goerror :=
  and_then (acs_Create account s) (λ s,
  and_then (tns_Put {| tn_TenantID := tenantID; tn_Name := acc_DisplayName account +:+ "'s workspace"; tn_GroupID := "";
                       tn_Config := []; tn_CreatedAt := now |} s) (λ s,
  and_then (ats_Create {| at_AccountID := acc_ID account; at_TenantID := tenantID; at_Role := "owner";
                          at_CreatedAt := now |} s) (seed_docs tenantID docs))).

(** [DB.Transaction]: rolling back undoes what was written through the transaction, which
    is nothing. *)
Definition Transaction (env : register_env) (f : S → S * option goerror) (s : S) : S * option goerror :=
  match re_begin env with
  | Some e => (s, Some e)
  | None => match f s with
            | (s, Some e) => (s, Some e)
            | (s, None) => (s, re_commit env)
            end
  end.

Definition register (cfg : JWTConfig) (env : register_env) (req : option registerRequest) (s : S)
    : S * Response auth_data :=
  let fail s e := (s, HandleError (inl e)) in
  match req with
  | None => fail s (BadRequest "invalid request body")
  | Some req =>
      match ValidateEmail (rr_Email req) with
      | Some e => fail s (ValidationError e)
      | None =>
          match ValidatePassword (rr_Password req) with
          | Some e => fail s (ValidationError e)
          | None =>
              match acs_GetByEmail (rr_Email req) s with
              | Ok _ => fail s (BadRequest "registration failed, please try again or use a different email")
              | Err _ =>
                  match bcrypt_hash (re_salt env) (rr_Password req) with
                  | Err e => fail s (InternalError e)
                  | Ok hash =>
                      let tenantID := new_tenantID (re_tenantUUID env) in
                      let displayName := if str_empty (rr_DisplayName req) then rr_Email req else rr_DisplayName req in
                      let account := new_account (re_now env) (re_accountID env) (rr_Email req) hash displayName in
                      match Transaction env (create_all (re_now env) account tenantID (re_docs env)) s with
                      | (s, Some e) => fail s (InternalError e)
                      | (s, None) =>
                          match GenerateToken cfg (re_now env) (re_accountID env) "user" [tenantID] with
                          | Err e => fail s (InternalError e)
                          | Ok token => (s, Created (Some (TokenData token)))
                          end
                      end
                  end
              end
          end
      end
  end.

(** The end that login and refresh share: the tenants of the account, and a token for them. *)
Definition issue (cfg : JWTConfig) (now : time) (account : Account) (s : S) : Response auth_data :=
  match ats_ListByAccount (acc_ID account) s with
  | Err _ => writeAuthError StatusInternalServerError "failed to load tenants"
  | Ok ats =>
      match GenerateToken cfg now (acc_ID account) (acc_Role account) (at_TenantID <$> ats) with
      | Err _ => writeAuthError StatusInternalServerError "failed to generate token"
      | Ok token => writeAuthJSON StatusOK (TokenData token)
      end
  end.

Definition login (cfg : JWTConfig) (now : time) (req : option loginRequest) (s : S) : Response auth_data :=
  match req with
  | None => writeAuthError StatusBadRequest "invalid request body"
  | Some req =>
      if str_empty (lr_Email req) || str_empty (lr_Password req)
      then writeAuthError StatusBadRequest "email and password are required"
      else
        match acs_GetByEmail (lr_Email req) s with
        | Err _ => writeAuthError StatusUnauthorized "invalid email or password"
        | Ok account =>
            if negb (bcrypt_compare (acc_PasswordHash account) (lr_Password req))
            then writeAuthError StatusUnauthorized "invalid email or password"
            else if negb (bool_decide (acc_Status account = "active"%string))
            then writeAuthError StatusForbidden "account is suspended"
            else issue cfg now account s
        end
  end.

Definition refresh (cfg : JWTConfig) (now : time) (auth : string) (s : S) : Response auth_data :=
  let tokenStr := extractBearerToken auth in
  if str_empty tokenStr then writeAuthError StatusUnauthorized "missing token"
  else
    match ValidateToken cfg now tokenStr with
    | Err _ => writeAuthError StatusUnauthorized "invalid token"
    | Ok claims =>
        match acs_GetByID (cl_AccountID claims) s with
        | Err _ => writeAuthError StatusForbidden "account not found or suspended"
        | Ok account =>
            if negb (bool_decide (acc_Status account = "active"%string))
            then writeAuthError StatusForbidden "account not found or suspended"
            else issue cfg now account s
        end
    end.

Definition me (claims : option Claims) (s : S) : Response auth_data :=
  match claims with
  | None => writeAuthError StatusUnauthorized "not authenticated"
  | Some claims =>
      match acs_GetByID (cl_AccountID claims) s with
      | Err _ => writeAuthError StatusNotFound "account not found"
      | Ok a => writeAuthJSON StatusOK (MeData (acc_ID a) (acc_Email a) (acc_DisplayName a) (acc_Role a) (cl_Tenants claims))
      end
  end.
End auth.

(** ** Properties *)

(** The instant from which a token issued at [now] is refused. *)
Definition expires (cfg : JWTConfig) (now : time) : time :=
  NewNumericDate (time_add now (if jc_Expiry cfg =? 0 then 24 * Hour else jc_Expiry cfg)).

Definition token_of (r : Response auth_data) : option string :=
  match rs_Body r with Data (TokenData t) => Some t | _ => None end.

Section properties.
Context `{JWTLaws} `{BcryptLaws} {S : Type} `{AccountLaws S} `{AccountTenantLaws S} `{TenantStore S} `{WorkspaceStore S}.

Lemma generated_token cfg now accountID role tenants t now' :
  GenerateToken cfg now accountID role tenants = Ok t →
  ValidateToken cfg now' t = Ok (token_claims cfg now accountID role tenants) ∧ now' < expires cfg now
  ∨ is_ok (ValidateToken cfg now' t) = false ∧ expires cfg now ≤ now'.
Proof.
  intros Ht. unfold ValidateToken, GenerateToken in *. set (c := token_claims _ _ _ _ _) in *.
  destruct (Z.lt_ge_cases now' (expires cfg now)) as [Hlt|Hge]; [left|right].
  - by rewrite (jwt_round_trip _ _ c t (keyfunc cfg) now' Ht eq_refl Hlt).
  - pose proof (jwt_expires _ _ c t (keyfunc cfg) now' Ht Hge) as Hbad. split; [|done].
    by destruct (jwt_parse _ _ _) as [[? []]|].
Qed.

(** What a token says of an account: who it is, its role and the tenants it is linked to. *)
Definition speaks_for (c : Claims) (a : Account) (s : S) : Prop :=
  cl_AccountID c = acc_ID a ∧ cl_Role c = acc_Role a
  ∧ ∀ t, t ∈ cl_Tenants c ↔ ats_linked (acc_ID a) t s = true.

Lemma issue_token cfg now a s t :
  token_of (issue cfg now a s) = Some t →
  ∀ now', if now' <? expires cfg now
          then ∃ c, ValidateToken cfg now' t = Ok c ∧ speaks_for c a s
          else is_ok (ValidateToken cfg now' t) = false.
Proof.
  unfold issue. destruct (ats_ListByAccount (acc_ID a) s) as [ats|] eqn:Hl; [|done].
  destruct (GenerateToken _ _ _ _ _) as [t'|] eqn:Ht; [|done]. intros [= ->] now'.
  destruct (generated_token _ _ _ _ _ _ now' Ht) as [[Hv Hlt]|[Hv Hge]].
  - rewrite (proj2 (Z.ltb_lt _ _) Hlt). eexists. split; [exact Hv|]. split; [done|]. split; [done|].
    intros tenant. by rewrite (proj2 (ats_list _ _ _ Hl)).
  - by rewrite (proj2 (Z.ltb_ge _ _) Hge).
Qed.

(** Who may be given a token: the owner of an active account, known by its address and
    password or by a token that is still good. *)
Inductive identified (cfg : JWTConfig) (now : time) (s : S) (a : Account) : option loginRequest → string → Prop :=
| by_password req auth :
    acc_Email a = lr_Email req → bcrypt_compare (acc_PasswordHash a) (lr_Password req) = true →
    identified cfg now s a (Some req) auth
| by_token req auth c :
    ValidateToken cfg now (extractBearerToken auth) = Ok c → cl_AccountID c = acc_ID a → identified cfg now s a req auth.

(** C5: A token is only issued for an active account that the caller proved to own, by its
    password or by a valid token; until it expires it says exactly who the account is, its
    present role and the tenants it is linked to, and afterwards it is refused. *)
Theorem tokens_are_the_accounts cfg now req auth s t :
  token_of (login cfg now req s) = Some t ∨ token_of (refresh cfg now auth s) = Some t →
  ∃ a, acs_row (acc_ID a) s = Some a ∧ acc_Status a = "active"%string ∧ identified cfg now s a req auth
    ∧ ∀ now', if now' <? expires cfg now
              then ∃ c, ValidateToken cfg now' t = Ok c ∧ speaks_for c a s
              else is_ok (ValidateToken cfg now' t) = false.
Proof.
  intros [Ht|Ht].
  - destruct req as [req|]; [|done]. cbn [login] in Ht. destruct (_ || _); [done|].
    destruct (acs_GetByEmail (lr_Email req) s) as [a|] eqn:Ha; [|done].
    destruct (acs_by_email _ _ _ Ha) as [Hrow Hemail].
    destruct (bcrypt_compare _ _) eqn:Hpw; [|done]. cbn [negb] in Ht.
    destruct (bool_decide _) eqn:Hact in Ht; [|done]. apply bool_decide_eq_true in Hact.
    exists a. split; [done|]. split; [done|]. split; [by apply by_password|]. by apply issue_token.
  - unfold refresh in Ht. destruct (str_empty _); [done|].
    destruct (ValidateToken cfg now (extractBearerToken auth)) as [c|] eqn:Hc; [|done].
    destruct (acs_GetByID (cl_AccountID c) s) as [a|] eqn:Ha; [|done].
    pose proof (acs_by_id _ _ _ Ha) as Hrow. pose proof (acs_row_id _ _ _ Hrow) as Hid.
    destruct (bool_decide _) eqn:Hact in Ht; [|done]. apply bool_decide_eq_true in Hact. rewrite <- Hid in Hrow.
    exists a. split; [done|]. split; [done|]. split; [by eapply by_token|]. by apply issue_token.
Qed.

(** *** Registration *)

Context `{!SeparateStores S}.

(** A change that leaves the accounts and the links alone. *)
Definition apart (s s' : S) : Prop :=
  (∀ i, acs_row i s' = acs_row i s) ∧ ∀ a t, ats_linked a t s' = ats_linked a t s.

Lemma apart_trans s1 s2 s3 : apart s1 s2 → apart s2 s3 → apart s1 s3.
Proof. intros [Ha Hl] [Ha' Hl']. split; intros; by rewrite ?Ha', ?Hl'. Qed.

Lemma tenants_apart t s : apart s (tns_Put t s).1.
Proof. split; intros; [apply acs_row_tenants|apply ats_linked_tenants]. Qed.

Lemma docs_apart d s : apart s (ws_Put d s).1.
Proof. split; intros; [apply acs_row_docs|apply ats_linked_docs]. Qed.

Lemma seed_apart tenant docs s : apart s (seed_docs tenant docs s).1.
Proof.
  revert s. induction docs as [|[dt c] docs IH]; intros s; [done|]. cbn [seed_docs].
  pose proof (docs_apart {| wd_TenantID := tenant; wd_DocType := dt; wd_Content := c; wd_Version := 1;
                            wd_UpdatedAt := time_zero |} s) as Hd.
  destruct (ws_Put _ s) as [s1 [e|]]; [done|]. eapply apart_trans; [done|apply IH].
Qed.

(** What [create_all] did to the accounts and links, however far it got: nothing, or the
    new account; a link only if it got there. *)
Definition created (a : Account) (tenant : string) (err : option goerror) (s s' : S) : Prop :=
  apart s s' ∧ err ≠ None
  ∨ acs_row (acc_ID a) s = None
    ∧ (∃ now, ∀ i, acs_row i s' = if decide (i = acc_ID a) then Some (stored_account now a) else acs_row i s)
    ∧ ∃ linked, (err = None → linked = true)
      ∧ ∀ x t, ats_linked x t s' = linked && bool_decide ((x, t) = (acc_ID a, tenant)) || ats_linked x t s.

Lemma created_apart a tenant err err' s s1 s2 :
  created a tenant err s s1 → apart s1 s2 → (err' = None → err = None) → created a tenant err' s s2.
Proof.
  intros [[Hap He]|(Hnone & (now & Hrow) & linked & Herr & Hlink)] Hap2 Hn.
  - left. split; [by eapply apart_trans|]. intros ->. auto.
  - right. split; [done|]. destruct Hap2 as [Ha Hl]. split; [exists now; intros i; by rewrite Ha|].
    exists linked. split; [auto|]. intros x t. by rewrite Hl.
Qed.

Lemma create_all_spec now a tenant docs s s' err :
  create_all now a tenant docs s = (s', err) → created a tenant err s s'.
Proof.
  unfold create_all. destruct (acs_Create a s) as [s1 [e|]] eqn:Hc; cbn [and_then].
  { intros [= <- <-]. left. split; [|done]. split; intros; [by eapply acs_create_fails|].
    by rewrite <- (ats_linked_accounts a0 t a s), Hc. }
  destruct (acs_create_ok _ _ _ Hc) as [Hnone [nw Hrow]].
  assert (∀ x t, ats_linked x t s1 = ats_linked x t s) as Hlink
    by (intros x t; by rewrite <- (ats_linked_accounts x t a s), Hc).
  assert (∀ e : goerror, created a tenant (Some e) s s1) as Hc1.
  { intros e. right. split; [done|]. split; [by exists nw|]. by exists false. }
  match goal with |- context [tns_Put ?t s1] => pose proof (tenants_apart t s1) as Ht; destruct (tns_Put t s1) as [s2 [e|]] end;
    cbn [and_then fst] in *; [intros [= <- <-]; by eapply created_apart|].
  match goal with |- context [ats_Create ?l s2] => set (lk := l); destruct (ats_Create lk s2) as [s3 [e|]] eqn:Hl end; cbn [and_then].
  { intros [= <- <-]. eapply created_apart; [by apply (Hc1 e)| |done]. eapply apart_trans; [done|]. split; intros.
    - by rewrite <- (acs_row_links i lk s2), Hl.
    - by eapply ats_create_fails. }
  intros Hseed. pose proof (seed_apart tenant docs s3) as Hs. rewrite Hseed in Hs. cbn [fst] in Hs.
  eapply (created_apart _ _ None); [|done|done]. right. split; [done|]. split.
  - exists nw. intros i. by rewrite <- Hrow, <- (proj1 Ht i), <- (acs_row_links i lk s2), Hl.
  - exists true. split; [done|]. intros x t. by rewrite (ats_create_ok _ _ _ x t Hl), (proj2 Ht), Hlink.
Qed.

(** A registration that got as far as the database. *)
Definition registers (env : register_env) (req : registerRequest) (hash : string) : Account :=
  new_account (re_now env) (re_accountID env) (rr_Email req) hash
    (if str_empty (rr_DisplayName req) then rr_Email req else rr_DisplayName req).

Lemma register_cases cfg env req s :
  (register cfg env (Some req) s).1 = s ∧ rs_Status (register cfg env (Some req) s).2 ≠ StatusCreated
  ∨ ∃ hash err, ValidateEmail (rr_Email req) = None ∧ ValidatePassword (rr_Password req) = None
    ∧ bcrypt_hash (re_salt env) (rr_Password req) = Ok hash
    ∧ created (registers env req hash) (new_tenantID (re_tenantUUID env)) err s (register cfg env (Some req) s).1
    ∧ (err ≠ None → rs_Status (register cfg env (Some req) s).2 ≠ StatusCreated)
    ∧ (rs_Status (register cfg env (Some req) s).2 = StatusCreated →
       ∃ t, GenerateToken cfg (re_now env) (re_accountID env) "user" [new_tenantID (re_tenantUUID env)] = Ok t
            ∧ token_of (register cfg env (Some req) s).2 = Some t).
Proof.
  unfold register. cbv zeta. destruct (ValidateEmail _) eqn:He; [by left|]. destruct (ValidatePassword _) eqn:Hp; [by left|].
  destruct (acs_GetByEmail _ s); [by left|]. destruct (bcrypt_hash _ _) as [hash|] eqn:Hh; [|by left].
  fold (registers env req hash). unfold Transaction. destruct (re_begin env); [by left|].
  destruct (create_all _ _ _ _ s) as [s1 [e1|]] eqn:Hc; apply create_all_spec in Hc.
  { right. exists hash, (Some e1). cbn. by repeat split. }
  right. exists hash, None. split; [done|]. split; [done|]. split; [done|].
  destruct (re_commit env); [by repeat split|]. destruct (GenerateToken _ _ _ _ _) as [t|] eqn:Ht; cbn; [|by repeat split].
  repeat split; try done. by exists t.
Qed.

(** C23: Registering answers with a token only for a valid address and password and an account
    that was not there; it touches no other account and no other account's tenants.  The
    token speaks for the new account and its one tenant, and so does every token that
    logging in with the same address and password gives afterwards. *)
Theorem register_then_login cfg env req s s' r :
  register cfg env (Some req) s = (s', r) →
  (∀ t, ats_linked (re_accountID env) t s = false) →
  (∀ c, is_ok (jwt_sign (HMAC "HS256") (jc_Secret cfg) c) = true) →
  let a := re_accountID env in
  let good t now := ∀ now', now' < expires cfg now →
    ∃ c, ValidateToken cfg now' t = Ok c ∧ cl_AccountID c = a ∧ cl_Role c = "user"%string
         ∧ ∀ x, x ∈ cl_Tenants c ↔ x = new_tenantID (re_tenantUUID env) in
  (∀ i, i ≠ a → acs_row i s' = acs_row i s ∧ ∀ t, ats_linked i t s' = ats_linked i t s)
  ∧ (rs_Status r = StatusCreated →
     ValidateEmail (rr_Email req) = None ∧ ValidatePassword (rr_Password req) = None ∧ acs_row a s = None
     ∧ (∃ t, token_of r = Some t ∧ good t (re_now env))
     ∧ ∀ now, is_ok (acs_GetByEmail (rr_Email req) s') = true → is_ok (ats_ListByAccount a s') = true →
       ∃ t, token_of (login cfg now (Some {| lr_Email := rr_Email req; lr_Password := rr_Password req |}) s') = Some t
            ∧ good t now).
Proof.
  intros Hr Hfresh Hsign a good. pose proof (register_cases cfg env req s) as Hcases. rewrite Hr in Hcases. cbn [fst snd] in Hcases.
  destruct Hcases as [[-> Hst]|(hash & err & Hem & Hpw & Hhash & Hcr & Herr & Htok)]; [by split|].
  split.
  { intros i Hi. destruct Hcr as [[[Ha Hl] _]|(_ & (now & Hrow) & linked & _ & Hl)]; [by split|].
    rewrite Hrow, decide_False by done. split; [done|]. intros t. rewrite Hl.
    rewrite bool_decide_eq_false_2; [by rewrite andb_false_r|]. by intros [= -> _]. }
  intros Hst. destruct (Htok Hst) as (t & Hgen & Ht). split; [done|]. split; [done|].
  assert (err = None) as -> by (destruct err; [by destruct (Herr ltac:(done))|done]).
  destruct Hcr as [[_ []]|(Hnone & (nw & Hrow) & linked & Hlinked & Hl)]; [done|]. rewrite (Hlinked eq_refl) in Hl.
  split; [exact Hnone|]. split.
  { exists t. split; [done|]. intros now' Hlt. destruct (generated_token _ _ _ _ _ _ now' Hgen) as [[Hv _]|[_ Hge]]; [|lia].
    eexists. split; [exact Hv|]. split; [done|]. split; [done|]. intros x. cbn. apply list_elem_of_singleton. }
  intros now Hmail Hlist. destruct (acs_GetByEmail (rr_Email req) s') as [a2|] eqn:Hget; [|done].
  destruct (acs_by_email _ _ _ Hget) as [Hrow2 Hem2].
  pose proof (Hrow a) as Hrow1. rewrite decide_True in Hrow1 by done.
  pose proof (acs_unique _ _ _ _ _ Hrow1 Hrow2 ltac:(cbn; congruence)) as Hid.
  rewrite <- Hid, Hrow1 in Hrow2. injection Hrow2 as <-.
  assert (login cfg now (Some {| lr_Email := rr_Email req; lr_Password := rr_Password req |}) s'
          = issue cfg now (stored_account nw (registers env req hash)) s') as ->.
  { cbn [login lr_Email lr_Password]. rewrite Hget.
    assert (str_empty (rr_Email req) = false ∧ str_empty (rr_Password req) = false) as [-> ->].
    { unfold ValidateEmail in Hem. unfold ValidatePassword in Hpw.
      destruct (str_empty (rr_Email req)), (str_empty (rr_Password req)); done. }
    cbn [orb stored_account registers new_account acc_PasswordHash acc_Status].
    by rewrite (bcrypt_own _ _ _ Hhash). }
  assert (∃ t2, token_of (issue cfg now (stored_account nw (registers env req hash)) s') = Some t2) as [t2 Ht2].
  { unfold issue. cbn [stored_account registers new_account acc_ID acc_Role]. fold a.
    destruct (ats_ListByAccount a s') as [ats|]; [|done].
    specialize (Hsign (token_claims cfg now a "user" (at_TenantID <$> ats))). unfold GenerateToken.
    change (or_default "user" "user") with "user"%string. destruct (jwt_sign _ _ _); [by eexists|done]. }
  exists t2. split; [done|]. intros now' Hlt. pose proof (issue_token _ _ _ _ _ Ht2 now') as Hgood.
  rewrite (proj2 (Z.ltb_lt _ _) Hlt) in Hgood. destruct Hgood as (c & Hv & Hcid & Hrole & Hten).
  exists c. split; [done|]. split; [done|]. split; [done|]. intros x. rewrite Hten.
  cbn [stored_account registers new_account acc_ID]. rewrite Hl, (Hfresh x), orb_false_r, andb_true_l, bool_decide_eq_true.
  split; [by intros [= ->]|by intros ->].
Qed.

(** A registration that failed half way leaves its account behind: once an account has
    the address, registering with it never succeeds again, whoever tries and whatever the
    stores answer. *)
Theorem address_is_used_up cfg env req s a :
  acs_row (acc_ID a) s = Some a → acc_Email a = rr_Email req →
  rs_Status (register cfg env (Some req) s).2 ≠ StatusCreated.
Proof.
  intros Hrow Hmail. destruct (register_cases cfg env req s) as [[_ ?]|(hash & err & _ & _ & _ & Hcr & Herr & _)]; [done|].
  destruct err as [e|]; [by apply Herr|]. exfalso.
  destruct Hcr as [[_ []]|(Hnone & (now & Hafter) & _)]; [done|].
  assert (acc_ID a ≠ acc_ID (registers env req hash)) as Hne by congruence.
  pose proof (Hafter (acc_ID a)) as H1'. rewrite decide_False, Hrow in H1' by done.
  pose proof (Hafter (acc_ID (registers env req hash))) as H2'. rewrite decide_True in H2' by done.
  apply Hne. exact (acs_unique _ _ _ _ _ H1' H2' Hmail).
Qed.

(** Passwords of 73 to 128 bytes pass the validation and then fail as an internal error. *)
Theorem long_passwords_fail cfg env req s :
  ValidateEmail (rr_Email req) = None → ValidatePassword (rr_Password req) = None →
  is_ok (acs_GetByEmail (rr_Email req) s) = false → (72 < str_len (rr_Password req))%nat →
  (register cfg env (Some req) s).1 = s ∧ rs_Status (register cfg env (Some req) s).2 = StatusInternalServerError.
Proof.
  intros Hem Hpw Hfree Hlong. unfold register. rewrite Hem, Hpw.
  destruct (acs_GetByEmail _ s); [done|]. pose proof (bcrypt_too_long (re_salt env) _ Hlong) as Hh.
  by destruct (bcrypt_hash _ _).
Qed.
End properties.

(** ** The bearer token *)

(** The token of a header is what follows the word bearer, in any case, and one space. *)
Lemma bearer_token auth tok :
  tok ≠ ""%string →
  extractBearerToken auth = tok ↔ ∃ scheme, auth = scheme +:+ " " +:+ tok ∧ bytewise_lower scheme = "bearer"%string.
Proof.
  intros Hne. unfold extractBearerToken, splitn, equal_fold_word. split.
  - destruct (str_empty auth); [by intros <-|]. cbn [splitn_bytes].
    destruct (cut_bytes " " (s2l auth)) as [[a b]|] eqn:Hc; [|by intros <-]. cbn.
    destruct (bool_decide_reflect (bytewise_lower (l2s a) = "bearer"%string)) as [Hl|]; [|by intros <-].
    intros <-. apply cut_bytes_Some in Hc as [Hauth _]. exists (l2s a). split; [|done].
    apply (inj s2l). rewrite !s2l_app, !s2l_l2s. exact Hauth.
  - intros (scheme & -> & Hl). unfold str_empty. rewrite bool_decide_eq_false_2.
    2:{ intros Heq%(f_equal s2l). rewrite !s2l_app in Heq. destruct (s2l scheme); discriminate. }
    assert (" "%char ∉ s2l scheme) as Hsp.
    { intros (k1 & k2 & Hin)%list_elem_of_split. unfold bytewise_lower in Hl.
      apply (f_equal s2l) in Hl. rewrite s2l_l2s, Hin, fmap_app, fmap_cons in Hl.
      change (lower_byte " ") with " "%char in Hl.
      assert (" "%char ∈ s2l "bearer") as Hbad by (rewrite <- Hl; set_solver). vm_compute in Hbad. set_solver. }
    cbn [splitn_bytes]. rewrite !s2l_app. change (s2l " ") with [" "%char]. cbn [app]. rewrite cut_bytes_app by done.
    cbn. by rewrite !l2s_s2l, bool_decide_eq_true_2.
Qed.

(** A request reaches the protected handlers if and only if its header carries a token
    that is valid now, and then with the claims of that token; any other request is
    answered with 401. *)
Theorem AuthMiddleware_spec `{JWT} {S D} cfg now auth (next : option Claims → S → S * Response D) s :
  (∀ scheme tok c, auth = scheme +:+ " " +:+ tok → bytewise_lower scheme = "bearer"%string → tok ≠ ""%string →
     ValidateToken cfg now tok = Ok c → AuthMiddleware cfg now auth next s = next (Some c) s)
  ∧ ((∀ scheme tok, auth = scheme +:+ " " +:+ tok → bytewise_lower scheme = "bearer"%string → tok ≠ ""%string →
        is_ok (ValidateToken cfg now tok) = false) →
     (AuthMiddleware cfg now auth next s).1 = s ∧ rs_Status (AuthMiddleware cfg now auth next s).2 = StatusUnauthorized).
Proof.
  unfold AuthMiddleware. split.
  - intros scheme tok c Ha Hs Ht Hv. rewrite (proj2 (bearer_token auth tok Ht)) by eauto. unfold str_empty.
    by rewrite bool_decide_eq_false_2, Hv.
  - intros Hall. destruct (str_empty (extractBearerToken auth)) eqn:He; [done|].
    assert (extractBearerToken auth ≠ ""%string) as Hne by (by apply bool_decide_eq_false in He).
    destruct (proj1 (bearer_token auth _ Hne) eq_refl) as (scheme & Ha & Hs).
    specialize (Hall scheme _ Ha Hs Hne). by destruct (ValidateToken _ _ _).
Qed.

(** ** Witnesses

    Concrete libraries: a token is the code of its contents, and a
    hash is the password behind a mark. *)

#[global] Instance SigningMethod_eq_dec : EqDecision SigningMethod.
Proof. solve_decision. Defined.

Definition token_contents : Type := bool * string * string * (string * string * list string * time * time * string).

Definition pack (m : SigningMethod) (key : string) (c : Claims) : token_contents :=
  (match m with HMAC a => (true, a) | OtherMethod a => (false, a) end, key,
   (cl_AccountID c, cl_Role c, cl_Tenants c, cl_ExpiresAt c, cl_IssuedAt c, cl_Issuer c)).

Definition demo_parse (kf : SigningMethod → option string) (now : time) (tok : string) : result goerror (Claims * bool) :=
  match (of_code tok : option token_contents) with
  | None => Err ErrInvalidToken
  | Some (h, alg, key, (i, r, ts, ex, ia, iss)) =>
      if bool_decide (kf (if h then HMAC alg else OtherMethod alg) = Some key) && (now <? ex)
      then Ok ({| cl_AccountID := i; cl_Role := r; cl_Tenants := ts; cl_ExpiresAt := ex; cl_IssuedAt := ia; cl_Issuer := iss |}, true)
      else Err ErrInvalidToken
  end.

#[global] Instance demo_jwt : JWT := {
  jwt_sign m key c := Ok (to_code (pack m key c));
  jwt_parse := demo_parse;
}.

Lemma demo_parse_sign m key c kf now tok :
  jwt_sign m key c = Ok tok →
  jwt_parse kf now tok = if bool_decide (kf m = Some key) && (now <? cl_ExpiresAt c) then Ok (c, true) else Err ErrInvalidToken.
Proof.
  intros [= <-]. unfold jwt_parse, demo_jwt, demo_parse. rewrite of_code_to_code.
  by destruct m, c.
Qed.

#[global] Instance demo_jwt_laws : JWTLaws.
Proof.
  split; intros m key c tok kf now Hs; rewrite (demo_parse_sign _ _ _ _ _ _ Hs).
  - intros Hk Hlt. by rewrite bool_decide_eq_true_2, (proj2 (Z.ltb_lt _ _) Hlt).
  - intros Hge. by rewrite (proj2 (Z.ltb_ge _ _) Hge), andb_false_r.
  - intros Hk. by rewrite Hk.
Qed.

#[global] Instance demo_bcrypt : Bcrypt := {
  bcrypt_hash _ pw := if (72 <? str_len pw)%nat then Err (ErrText "bcrypt: password length exceeds 72 bytes")
                      else Ok ("$" +:+ pw);
  bcrypt_compare h pw := bool_decide (h = "$" +:+ pw);
}.

#[global] Instance demo_bcrypt_laws : BcryptLaws.
Proof.
  split; intros salt pw; cbn -[Nat.ltb].
  - intros h. case_match; [done|]. intros [= <-]. by apply bool_decide_eq_true_2.
  - intros Hl. by rewrite (proj2 (Nat.ltb_lt _ _) Hl).
Qed.


Definition w_cfg : JWTConfig := {| jc_Secret := "s"; jc_Expiry := Hour |}.
Definition w_env : register_env :=
  {| re_now := 100 * Second; re_salt := 0; re_accountID := "a1"; re_tenantUUID := "0123456789"; re_docs := defaultDocs;
     re_begin := None; re_commit := None |}.
Definition w_req : registerRequest := {| rr_Email := "a@b.cd"; rr_Password := "Passw0rd"; rr_DisplayName := "" |}.

Section witnesses.
Context (fault : operation → table → list string → db → option goerror).

Definition w_register (s : db) : db * Response auth_data :=
  register (S := db) (H0 := mysql_accounts fault) (H1 := mysql_links fault) (H2 := mysql_tenants fault)
    (H3 := mysql_docs fault) w_cfg w_env (Some w_req) s.
Definition w_login (now : time) (s : db) : Response auth_data :=
  login (S := db) (H0 := mysql_accounts fault) (H1 := mysql_links fault) w_cfg now
    (Some {| lr_Email := "a@b.cd"; lr_Password := "Passw0rd" |}) s.
End witnesses.

#[local] Existing Instance stable_sort.
#[local] Existing Instance mysql_account_laws.
#[local] Existing Instance mysql_link_laws.
#[local] Existing Instance mysql_separate.

Definition w_registered : db := (w_register no_fault w_db).1.
(** The account row of a registration whose tenant could not be stored. *)
Definition w_half : db := (w_register tenants_fault w_db).1.
Definition w_account : Account := stored_account 100 (registers w_env w_req "$Passw0rd").

Lemma register_then_login_witness :
  ∃ t, token_of (w_login no_fault (200 * Second) w_registered) = Some t
    ∧ ∃ c, ValidateToken w_cfg (300 * Second) t = Ok c ∧ cl_AccountID c = "a1"%string ∧ ∀ x, x ∈ cl_Tenants c ↔ x = "t-01234567"%string.
Proof.
  destruct (register_then_login (S := db) (H3 := mysql_accounts no_fault) (H5 := mysql_links no_fault)
    (H7 := mysql_tenants no_fault) (H8 := mysql_docs no_fault) w_cfg w_env w_req w_db _ _
    (surjective_pairing (w_register no_fault w_db)) ltac:(intros t; vm_compute; reflexivity)
    ltac:(intros c; reflexivity)) as [_ Hok].
  destruct Hok as (_ & _ & _ & _ & Hlogin); [vm_compute; reflexivity|].
  destruct (Hlogin (200 * Second)) as (t & Ht & Hgood); [vm_compute; reflexivity..|].
  exists t. split; [exact Ht|]. destruct (Hgood (300 * Second)) as (c & Hv & Hid & _ & Hx); [vm_compute; reflexivity|].
  exists c. split; [exact Hv|]. split; [exact Hid|exact Hx].
Defined.

Lemma tokens_are_the_accounts_witness :
  ∃ t a, token_of (w_login no_fault (200 * Second) w_registered) = Some t ∧ acc_Status a = "active"%string
    ∧ acs_row (AccountStore := mysql_accounts no_fault) (acc_ID a) w_registered = Some a
    ∧ is_ok (ValidateToken w_cfg (4000 * Second) t) = false.
Proof.
  destruct (token_of (w_login no_fault (200 * Second) w_registered)) as [t|] eqn:Ht; [|vm_compute in Ht; discriminate].
  destruct (tokens_are_the_accounts (S := db) (H3 := mysql_accounts no_fault) (H5 := mysql_links no_fault)
    w_cfg (200 * Second) (Some {| lr_Email := "a@b.cd"; lr_Password := "Passw0rd" |}) "" w_registered t
    (or_introl Ht)) as (a & Hrow & Hact & _ & Hgood).
  exists t, a. split; [reflexivity|]. split; [exact Hact|]. split; [exact Hrow|]. exact (Hgood (4000 * Second)).
Defined.

(** The registration failed, its answer was 500, and the address is used up. *)
Lemma address_is_used_up_witness :
  rs_Status (w_register tenants_fault w_db).2 = StatusInternalServerError
  ∧ rs_Status (w_register no_fault w_half).2 ≠ StatusCreated.
Proof.
  split; [vm_compute; reflexivity|].
  apply (address_is_used_up (S := db) (H3 := mysql_accounts no_fault) (H5 := mysql_links no_fault)
    (H7 := mysql_tenants no_fault) (H8 := mysql_docs no_fault) w_cfg w_env w_req w_half w_account); vm_compute; reflexivity.
Defined.

Lemma long_passwords_fail_witness :
  let req := {| rr_Email := "a@b.cd"; rr_DisplayName := "";
                rr_Password := "Passw0rd" +:+ l2s (replicate 70 "x"%char) |} in
  rs_Status (register (S := db) (H0 := mysql_accounts no_fault) (H1 := mysql_links no_fault) (H2 := mysql_tenants no_fault)
    (H3 := mysql_docs no_fault) w_cfg w_env (Some req) w_db).2 = StatusInternalServerError.
Proof.
  intros req. apply (long_passwords_fail (S := db) (H3 := mysql_accounts no_fault) (H5 := mysql_links no_fault)
    (H7 := mysql_tenants no_fault) (H8 := mysql_docs no_fault) w_cfg w_env req w_db); vm_compute; try reflexivity. lia.
Defined.
