(* ===== verification/AgentDefs.v ===== *)
(** [pkg/storage/mysql/agent_definitions.go]: the agents and their channels in a database.

    The two tables are maps from primary keys; a statement fails when [fault] says so or
    when its key is taken, and a transaction that fails changes nothing.  What the object
    mapper does with a model is written out: a zero value of a column with a default is
    replaced by the default when a row is created, and saving writes every column.  JSON
    columns hold texts; the codec is a class. *)
From S2P Require Import Prelude GoStrings Floats Values Types Stores Accounts.

(** ** JSON columns *)

(** A decoded value: every list is an array of any values. *)
Fixpoint json_plain (v : jany) : bool :=
  match v with
  | JStrs _ => false
  | JArr l => forallb json_plain l
  | JObj l => forallb (λ kv, json_plain kv.2) l
  | _ => true
  end.

Class JsonCodec := {
  json_marshal : payload → result goerror string;
  json_unmarshal : string → result goerror (option payload);  (* [None] is a nil map *)
}.
Class JsonLaws `{JsonCodec} := {
  json_round_trip m t : map_Forall (λ _ v, json_plain v = true) m → json_marshal m = Ok t → json_unmarshal t = Ok (Some m);
  json_not_null m t : json_marshal m = Ok t → t ≠ ""%string ∧ t ≠ "null"%string;
}.

(** ** The types *)

Record AgentChannel := {
  ac_AgentID : string; ac_Channel : string; ac_Enabled : bool; ac_Config : option payload; ac_CreatedAt : time;
  ac_UpdatedAt : time;
}.

Record mysql_AgentDefinition := {
  ad_ID : string; ad_TenantID : string; ad_Name : string; ad_Description : string; ad_Avatar : string;
  ad_Model : string; ad_Provider : string; ad_Status : string; ad_Config : option payload;
  ad_Channels : list AgentChannel; ad_CreatedAt : time; ad_UpdatedAt : time;
}.

Record AgentDefinitionModel := {
  adm_ID : string; adm_TenantID : string; adm_Name : string; adm_Description : string; adm_Avatar : string;
  adm_Model : string; adm_Provider : string; adm_Status : string; adm_Config : option string;
  adm_CreatedAt : time; adm_UpdatedAt : time;
}.

Record AgentChannelModel := {
  acm_AgentID : string; acm_Channel : string; acm_Enabled : bool; acm_Config : option string; acm_CreatedAt : time;
  acm_UpdatedAt : time;
}.

#[global] Instance AgentDefinitionModel_eq_dec : EqDecision AgentDefinitionModel.
Proof. solve_decision. Defined.
#[global] Instance AgentChannelModel_eq_dec : EqDecision AgentChannelModel.
Proof. solve_decision. Defined.

(** The tables [agent_definitions] and [agent_channels] and the clock of the statements. *)
Record agent_db := {
  ag_agents : gmap string AgentDefinitionModel; ag_channels : gmap (string * string) AgentChannelModel; ag_now : time;
}.

Inductive agent_table := TAgentDefinitions | TAgentChannels.

Section agent_definitions.
Context `{JsonCodec} `{Scan} `{SliceSort}.
Context (fault : operation → agent_table → list string → agent_db → option goerror).
Context (commit_fault : agent_db → option goerror).

(** ** Conversions *)

(** [JSON.Value]: an empty text and the text of null are stored as NULL. *)
Definition json_value (t : string) : option string :=
  if str_empty t || bool_decide (t = "null"%string) then None else Some t.

Definition to_column (config : option payload) : result goerror (option string) :=
  match config with
  | None => Ok None
  | Some m => t <-? json_marshal m ;; Ok (json_value t)
  end.

Definition of_column (c : option string) : result goerror (option payload) :=
  match c with
  | None => Ok None
  | Some t => if (str_len t =? 0)%nat then Ok None else json_unmarshal t
  end.

Definition modelToAgent (m : AgentDefinitionModel) : result goerror mysql_AgentDefinition :=
  config <-? of_column (adm_Config m) ;;
  Ok {| ad_ID := adm_ID m; ad_TenantID := adm_TenantID m; ad_Name := adm_Name m; ad_Description := adm_Description m;
        ad_Avatar := adm_Avatar m; ad_Model := adm_Model m; ad_Provider := adm_Provider m; ad_Status := adm_Status m;
        ad_Config := config; ad_Channels := []; ad_CreatedAt := adm_CreatedAt m; ad_UpdatedAt := adm_UpdatedAt m |}.

Definition agentToModel (a : mysql_AgentDefinition) : result goerror AgentDefinitionModel :=
  config <-? to_column (ad_Config a) ;;
  Ok {| adm_ID := ad_ID a; adm_TenantID := ad_TenantID a; adm_Name := ad_Name a; adm_Description := ad_Description a;
        adm_Avatar := ad_Avatar a; adm_Model := ad_Model a; adm_Provider := ad_Provider a; adm_Status := ad_Status a;
        adm_Config := config; adm_CreatedAt := time_zero; adm_UpdatedAt := time_zero |}.

Definition modelToChannel (m : AgentChannelModel) : result goerror AgentChannel :=
  config <-? of_column (acm_Config m) ;;
  Ok {| ac_AgentID := acm_AgentID m; ac_Channel := acm_Channel m; ac_Enabled := acm_Enabled m; ac_Config := config;
        ac_CreatedAt := acm_CreatedAt m; ac_UpdatedAt := acm_UpdatedAt m |}.

Definition channelToModel (c : AgentChannel) : result goerror AgentChannelModel :=
  config <-? to_column (ac_Config c) ;;
  Ok {| acm_AgentID := ac_AgentID c; acm_Channel := ac_Channel c; acm_Enabled := ac_Enabled c; acm_Config := config;
        acm_CreatedAt := time_zero; acm_UpdatedAt := time_zero |}.

(** The first error, or all results. *)
Fixpoint all_ok {A B} (f : A → result goerror B) (l : list A) : result goerror (list B) :=
  match l with
  | [] => Ok []
  | x :: l => y <-? f x ;; ys <-? all_ok f l ;; Ok (y :: ys)
  end.

(** ** Queries *)

Definition getChannels (agentID : string) (s : agent_db) : result goerror (list AgentChannel) :=
  match fault OpQuery TAgentChannels [agentID] s with
  | Some e => Err e
  | None => all_ok modelToChannel (scan (rows (λ m, bool_decide (acm_AgentID m = agentID)) (ag_channels s)))
  end.

Definition with_channels (a : mysql_AgentDefinition) (channels : list AgentChannel) : mysql_AgentDefinition :=
  {| ad_ID := ad_ID a; ad_TenantID := ad_TenantID a; ad_Name := ad_Name a; ad_Description := ad_Description a;
     ad_Avatar := ad_Avatar a; ad_Model := ad_Model a; ad_Provider := ad_Provider a; ad_Status := ad_Status a;
     ad_Config := ad_Config a; ad_Channels := channels; ad_CreatedAt := ad_CreatedAt a; ad_UpdatedAt := ad_UpdatedAt a |}.

(** A model with its channels; an error in reading the channels leaves it without any. *)
Definition load (s : agent_db) (m : AgentDefinitionModel) : result goerror mysql_AgentDefinition :=
  agent <-? modelToAgent m ;;
  Ok (with_channels agent (match getChannels (adm_ID m) s with Ok l => l | Err _ => [] end)).

Definition newest_first (l : list AgentDefinitionModel) : list AgentDefinitionModel :=
  sort_slice (λ a b, adm_CreatedAt b <? adm_CreatedAt a) l.

Definition ads_List (tenantID : string) (s : agent_db) : result goerror (list mysql_AgentDefinition) :=
  match fault OpQuery TAgentDefinitions [tenantID] s with
  | Some e => Err e
  | None => all_ok (load s) (newest_first (rows (λ m, bool_decide (adm_TenantID m = tenantID)) (ag_agents s)))
  end.

Definition ads_ListAll (s : agent_db) : result goerror (list mysql_AgentDefinition) :=
  match fault OpQuery TAgentDefinitions [] s with
  | Some e => Err e
  | None => all_ok (load s) (newest_first (rows (λ _, true) (ag_agents s)))
  end.

(** [Ok None] is the answer for an agent that is not there. *)
Definition ads_Get (agentID : string) (s : agent_db) : result goerror (option mysql_AgentDefinition) :=
  match fault OpQuery TAgentDefinitions [agentID] s with
  | Some e => Err e
  | None => match ag_agents s !! agentID with
            | None => Ok None
            | Some m => a <-? load s m ;; Ok (Some a)
            end
  end.

(** ** Changes *)

Definition statement (op : operation) (tb : agent_table) (key : list string)
    (f : agent_db → result goerror agent_db) (s : agent_db) : result goerror agent_db :=
  match fault op tb key s with Some e => Err e | None => f s end.

Definition set_agents (m : gmap string AgentDefinitionModel) (s : agent_db) : agent_db :=
  {| ag_agents := m; ag_channels := ag_channels s; ag_now := ag_now s |}.
Definition set_channels (m : gmap (string * string) AgentChannelModel) (s : agent_db) : agent_db :=
  {| ag_agents := ag_agents s; ag_channels := m; ag_now := ag_now s |}.

Definition taken {K V} `{Countable K} (k : K) (v : V) (m : gmap K V) : result goerror (gmap K V) :=
  match insert_new k v m with Some m => Ok m | None => Err ErrConstraint end.

(** A created row: [default:active] for the status, and the two times. *)
Definition created_agent (now : time) (m : AgentDefinitionModel) : AgentDefinitionModel :=
  {| adm_ID := adm_ID m; adm_TenantID := adm_TenantID m; adm_Name := adm_Name m; adm_Description := adm_Description m;
     adm_Avatar := adm_Avatar m; adm_Model := adm_Model m; adm_Provider := adm_Provider m;
     adm_Status := or_default (adm_Status m) "active"; adm_Config := adm_Config m;
     adm_CreatedAt := or_now now (adm_CreatedAt m); adm_UpdatedAt := or_now now (adm_UpdatedAt m) |}.

(** [default:true]: false is the zero value, so the default takes its place. *)
Definition created_channel (now : time) (m : AgentChannelModel) : AgentChannelModel :=
  {| acm_AgentID := acm_AgentID m; acm_Channel := acm_Channel m; acm_Enabled := if acm_Enabled m then true else true;
     acm_Config := acm_Config m; acm_CreatedAt := or_now now (acm_CreatedAt m);
     acm_UpdatedAt := or_now now (acm_UpdatedAt m) |}.

(** A saved row: every column as it is in the model, the update time set. *)
Definition saved_agent (now : time) (m : AgentDefinitionModel) : AgentDefinitionModel :=
  {| adm_ID := adm_ID m; adm_TenantID := adm_TenantID m; adm_Name := adm_Name m; adm_Description := adm_Description m;
     adm_Avatar := adm_Avatar m; adm_Model := adm_Model m; adm_Provider := adm_Provider m; adm_Status := adm_Status m;
     adm_Config := adm_Config m; adm_CreatedAt := adm_CreatedAt m; adm_UpdatedAt := now |}.

Definition transaction (f : agent_db → result goerror agent_db) (s : agent_db) : agent_db * option goerror :=
  match f s with
  | Err e => (s, Some e)
  | Ok s' => match commit_fault s' with Some e => (s, Some e) | None => (s', None) end
  end.

Definition create_channel (ch : AgentChannel) : agent_db → result goerror agent_db := λ s,
  m <-? channelToModel ch ;;
  statement OpInsert TAgentChannels [acm_AgentID m; acm_Channel m]
    (λ s, t <-? taken (acm_AgentID m, acm_Channel m) (created_channel (ag_now s) m) (ag_channels s) ;;
          Ok (set_channels t s)) s.

Fixpoint create_channels (chs : list AgentChannel) (s : agent_db) : result goerror agent_db :=
  match chs with
  | [] => Ok s
  | ch :: chs => s <-? create_channel ch s ;; create_channels chs s
  end.

(** [Where("agent_id = ?").Delete] *)
Definition delete_channels (agentID : string) : agent_db → result goerror agent_db :=
  statement OpDelete TAgentChannels [agentID]
    (λ s, Ok (set_channels (filter (λ kv, acm_AgentID kv.2 ≠ agentID) (ag_channels s)) s)).

Definition ads_Create (agent : mysql_AgentDefinition) (s : agent_db) : agent_db * option goerror :=
  match agentToModel agent with
  | Err e => (s, Some e)
  | Ok m =>
      transaction (λ s,
        s <-? statement OpInsert TAgentDefinitions [adm_ID m]
                (λ s, t <-? taken (adm_ID m) (created_agent (ag_now s) m) (ag_agents s) ;; Ok (set_agents t s)) s ;;
        create_channels (ad_Channels agent) s) s
  end.

Definition ads_Update (agent : mysql_AgentDefinition) (s : agent_db) : agent_db * option goerror :=
  match agentToModel agent with
  | Err e => (s, Some e)
  | Ok m =>
      transaction (λ s,
        s <-? statement OpSave TAgentDefinitions [adm_ID m]
                (λ s, Ok (set_agents (<[adm_ID m := match ag_agents s !! adm_ID m with
                                                    | Some _ => saved_agent (ag_now s) m
                                                    | None => created_agent (ag_now s) m
                                                    end]> (ag_agents s)) s)) s ;;
        s <-? delete_channels (ad_ID agent) s ;;
        create_channels (ad_Channels agent) s) s
  end.

Definition ads_Delete (agentID : string) (s : agent_db) : agent_db * option goerror :=
  transaction (λ s,
    s <-? delete_channels agentID s ;;
    statement OpDelete TAgentDefinitions [agentID] (λ s, Ok (set_agents (delete agentID (ag_agents s)) s)) s) s.
End agent_definitions.

(** ** Properties *)

Section properties.
Context `{JsonLaws} `{Scan} `{SliceSort}.
Context (fault : operation → agent_table → list string → agent_db → option goerror).
Context (commit_fault : agent_db → option goerror).

Definition chan_key (m : AgentChannelModel) : string * string := (acm_AgentID m, acm_Channel m).

(** The tables of a store: rows are filed under their keys, a channel belongs to an agent
    that is there, and every channel is enabled. *)
Definition tables_ok (s : agent_db) : Prop :=
  (∀ k m, ag_agents s !! k = Some m → adm_ID m = k)
  ∧ ∀ k m, ag_channels s !! k = Some m → chan_key m = k ∧ acm_Enabled m = true ∧ is_Some (ag_agents s !! acm_AgentID m).

(** The channels of an agent carry its identifier. *)
Definition own_channels (a : mysql_AgentDefinition) : Prop := Forall (λ c, ac_AgentID c = ad_ID a) (ad_Channels a).

Lemma bind_Ok {E A B} (r : result E A) (f : A → result E B) b : result_bind r f = Ok b → ∃ a, r = Ok a ∧ f a = Ok b.
Proof. destruct r; [by eauto|done]. Qed.

Lemma statement_Ok op tb key f s s' : statement fault op tb key f s = Ok s' → f s = Ok s'.
Proof. unfold statement. by destruct (fault op tb key s). Qed.

Lemma transaction_Ok f s s' : transaction commit_fault f s = (s', None) → f s = Ok s'.
Proof. unfold transaction. destruct (f s) as [t|]; [|done]. destruct (commit_fault t); [done|]. by intros [= ->]. Qed.

Lemma transaction_fails f s s' e : transaction commit_fault f s = (s', Some e) → s' = s.
Proof. unfold transaction. destruct (f s) as [t|]; [|by intros [= ->]]. destruct (commit_fault t); by intros [= ->]. Qed.

Lemma all_ok_elem {A B} (f : A → result goerror B) l ys y :
  all_ok f l = Ok ys → y ∈ ys ↔ ∃ x, x ∈ l ∧ f x = Ok y.
Proof.
  revert ys. induction l as [|x l IH]; intros ys; cbn [all_ok].
  - intros [= <-]. set_solver.
  - intros (y' & Hy & (ys' & Hys & [= <-])%bind_Ok)%bind_Ok. rewrite elem_of_cons, (IH _ Hys). split.
    + intros [->|(x' & ? & ?)]; [exists x|exists x']; set_solver.
    + intros (x' & [->|Hx']%elem_of_cons & Hf); [left; congruence|right; by exists x'].
Qed.

Lemma all_ok_all {A B} (f : A → result goerror B) l : (∀ x, x ∈ l → is_ok (f x) = true) → ∃ ys, all_ok f l = Ok ys.
Proof.
  induction l as [|x l IH]; intros Hok; cbn [all_ok]; [by eexists|].
  destruct (f x) as [y|] eqn:Hx; [|specialize (Hok x); rewrite Hx in Hok; set_solver].
  destruct IH as [ys ->]; [set_solver|]. by eexists.
Qed.

Lemma all_ok_in {A B} (f : A → result goerror B) l ys x : all_ok f l = Ok ys → x ∈ l → ∃ y, y ∈ ys ∧ f x = Ok y.
Proof.
  revert ys. induction l as [|x' l IH]; intros ys; cbn [all_ok]; [by intros _ ?%not_elem_of_nil|].
  intros (y & Hy & (ys' & Hys & [= <-])%bind_Ok)%bind_Ok [->|Hin]%elem_of_cons; [exists y; set_solver|].
  destruct (IH _ Hys Hin) as (y' & ? & ?). exists y'. set_solver.
Qed.

(** Creating channels adds exactly them, each enabled. *)
Lemma create_channels_spec chs s s' :
  create_channels fault chs s = Ok s' →
  ag_agents s' = ag_agents s ∧ ag_now s' = ag_now s
  ∧ ∃ ms, all_ok channelToModel chs = Ok ms
    ∧ ∀ k m, ag_channels s' !! k = Some m ↔
        (∃ m0, m0 ∈ ms ∧ k = chan_key m0 ∧ m = created_channel (ag_now s) m0) ∨ ag_channels s !! k = Some m.
Proof.
  revert s. induction chs as [|ch chs IH]; intros s; cbn [create_channels].
  - intros [= <-]. split; [done|]. split; [done|]. exists []. split; [done|]. set_solver.
  - intros (s1 & (m & Hm & Hst)%bind_Ok & Hrest)%bind_Ok. apply statement_Ok in Hst.
    apply bind_Ok in Hst as (t & Ht & [= <-]). unfold taken in Ht.
    destruct (insert_new _ _ _) as [t'|] eqn:Hins; [|done]. injection Ht as <-.
    apply insert_new_Some in Hins as [Hnone ->].
    destruct (IH _ Hrest) as (Ha & Hn & ms & Hms & Hch). cbn in Ha, Hn, Hch.
    split; [done|]. split; [done|]. exists (m :: ms). cbn [all_ok]. rewrite Hm. cbn [result_bind]. rewrite Hms.
    split; [done|]. intros k m'. rewrite Hch. fold (chan_key m). split.
    + intros [(m0 & Hin & -> & ->)|Hk]; [left; exists m0; set_solver|].
      apply lookup_insert_Some in Hk as [[<- <-]|[_ Hk]]; [left; exists m; set_solver|by right].
    + intros [(m0 & [->|Hin]%elem_of_cons & -> & ->)|Hk]; [right|left; by exists m0|right].
      * by rewrite lookup_insert, decide_True.
      * rewrite lookup_insert_ne; [done|]. intros <-. fold (chan_key m) in Hnone. by rewrite Hnone in Hk.
Qed.

Lemma delete_channels_spec id s s' :
  delete_channels fault id s = Ok s' →
  ag_agents s' = ag_agents s ∧ ag_now s' = ag_now s
  ∧ ∀ k m, ag_channels s' !! k = Some m ↔ ag_channels s !! k = Some m ∧ acm_AgentID m ≠ id.
Proof.
  intros Hst%statement_Ok. injection Hst as <-. split; [done|]. split; [done|]. intros k m. cbn.
  apply map_lookup_filter_Some.
Qed.

Lemma channelToModel_key c m : channelToModel c = Ok m → chan_key m = (ac_AgentID c, ac_Channel c).
Proof. unfold channelToModel. intros (cfg & _ & [= <-])%bind_Ok. done. Qed.

Lemma agentToModel_id a m : agentToModel a = Ok m → adm_ID m = ad_ID a ∧ adm_TenantID m = ad_TenantID a.
Proof. unfold agentToModel. by intros (cfg & _ & [= <-])%bind_Ok. Qed.

(** What a change of one agent leaves as it is. *)
Definition others_kept (id : string) (s s' : agent_db) : Prop :=
  (∀ j, j ≠ id → ag_agents s' !! j = ag_agents s !! j)
  ∧ ∀ k m, acm_AgentID m ≠ id → ag_channels s' !! k = Some m ↔ ag_channels s !! k = Some m.

(** The row a model becomes: saved over the one that is there, or created. *)
Definition stored_row (s : agent_db) (m : AgentDefinitionModel) : AgentDefinitionModel :=
  match ag_agents s !! adm_ID m with Some _ => saved_agent (ag_now s) m | None => created_agent (ag_now s) m end.

(** The rows of an agent that was created or updated. *)
Definition stored (a : mysql_AgentDefinition) (s s' : agent_db) : Prop :=
  ∃ m ms, agentToModel a = Ok m ∧ all_ok channelToModel (ad_Channels a) = Ok ms
    ∧ ag_agents s' = <[ad_ID a := stored_row s m]> (ag_agents s)
    ∧ ∀ k c, ag_channels s' !! k = Some c ↔
        (∃ c0, c0 ∈ ms ∧ k = chan_key c0 ∧ c = created_channel (ag_now s) c0)
        ∨ ag_channels s !! k = Some c ∧ acm_AgentID c ≠ ad_ID a.

Lemma Create_stored a s s' :
  tables_ok s → ads_Create fault commit_fault a s = (s', None) → ag_agents s !! ad_ID a = None ∧ stored a s s'.
Proof.
  intros [_ Hch]. unfold ads_Create. destruct (agentToModel a) as [m|] eqn:Hm; [|done].
  destruct (agentToModel_id _ _ Hm) as [Hid _].
  intros (s1 & Hst%statement_Ok & Hc)%transaction_Ok%bind_Ok. apply bind_Ok in Hst as (t & Ht & [= <-]).
  unfold taken in Ht. destruct (insert_new _ _ _) as [t'|] eqn:Hins; [|done]. injection Ht as <-.
  apply insert_new_Some in Hins as [Hnone ->]. rewrite Hid in *. split; [done|].
  destruct (create_channels_spec _ _ _ Hc) as (Ha & _ & ms & Hms & Hchs). cbn in Ha, Hchs.
  exists m, ms. unfold stored_row. rewrite Hid, Hnone. split; [done|]. split; [done|]. split; [done|]. intros k c. rewrite Hchs.
  split; (intros [?|Hk]; [by left|right]); [|by destruct Hk]. split; [done|]. intros Heq.
  destruct (Hch _ _ Hk) as (_ & _ & [m' Hm']). by rewrite Heq, Hnone in Hm'.
Qed.

Lemma Update_stored a s s' : ads_Update fault commit_fault a s = (s', None) → stored a s s'.
Proof.
  unfold ads_Update. destruct (agentToModel a) as [m|] eqn:Hm; [|done]. destruct (agentToModel_id _ _ Hm) as [Hid _].
  intros (s1 & Hst%statement_Ok & (s2 & Hd & Hc)%bind_Ok)%transaction_Ok%bind_Ok. injection Hst as <-. rewrite Hid in *.
  destruct (delete_channels_spec _ _ _ Hd) as (Ha2 & Hn2 & Hch2), (create_channels_spec _ _ _ Hc) as (Ha & _ & ms & Hms & Hchs).
  cbn in Ha2, Hn2, Hch2. exists m, ms. split; [done|]. split; [done|]. split.
  - unfold stored_row. by rewrite Ha, Ha2, Hid.
  - intros k c. by rewrite Hchs, Hch2, Hn2.
Qed.

Lemma Delete_spec id s s' :
  ads_Delete fault commit_fault id s = (s', None) →
  ag_agents s' = delete id (ag_agents s)
  ∧ ∀ k m, ag_channels s' !! k = Some m ↔ ag_channels s !! k = Some m ∧ acm_AgentID m ≠ id.
Proof.
  unfold ads_Delete. intros (s1 & Hd & Hst%statement_Ok)%transaction_Ok%bind_Ok. injection Hst as <-.
  destruct (delete_channels_spec _ _ _ Hd) as (Ha & _ & Hch). cbn. by rewrite Ha.
Qed.

(** An operation on the store, with the agent it is about. *)
Inductive change := CCreate (a : mysql_AgentDefinition) | CUpdate (a : mysql_AgentDefinition) | CDelete (id : string).

Definition apply_change (c : change) (s : agent_db) : agent_db * option goerror :=
  match c with
  | CCreate a => ads_Create fault commit_fault a s
  | CUpdate a => ads_Update fault commit_fault a s
  | CDelete id => ads_Delete fault commit_fault id s
  end.
Definition change_id (c : change) : string := match c with CCreate a | CUpdate a => ad_ID a | CDelete id => id end.
Definition change_own (c : change) : Prop := match c with CCreate a | CUpdate a => own_channels a | CDelete _ => True end.

Lemma change_fails c s s' e : apply_change c s = (s', Some e) → s' = s.
Proof.
  destruct c as [a|a|id]; cbn; unfold ads_Create, ads_Update, ads_Delete; try destruct (agentToModel a);
    try (by intros [= ->]); apply transaction_fails.
Qed.

Lemma stored_own a s s' :
  own_channels a → stored a s s' →
  others_kept (ad_ID a) s s'
  ∧ ∃ m, agentToModel a = Ok m ∧ ag_agents s' !! ad_ID a = Some (stored_row s m).
Proof.
  intros Hown (m & ms & Hm & Hms & Ha & Hch). split; [split|].
  - intros j Hj. rewrite Ha. by apply lookup_insert_ne.
  - intros k c Hc. rewrite Hch. split; [intros [(c0 & Hin & -> & ->)|[? _]]; [|done]|by right].
    apply (all_ok_elem _ _ _ _ Hms) in Hin as (ch & Hin & Hkey%channelToModel_key).
    unfold own_channels in Hown. rewrite Forall_forall in Hown. specialize (Hown _ Hin). injection Hkey as Hk _. cbn in Hc. congruence.
  - exists m. split; [done|]. by rewrite Ha, lookup_insert, decide_True.
Qed.

(** Whatever is done to an agent and its channels, whether it succeeds or not, no other
    agent's rows change; and the tables stay well-formed: no channel without its agent,
    and no channel that is disabled. *)
Theorem change_keeps_tables c s s' err :
  tables_ok s → change_own c → apply_change c s = (s', err) → tables_ok s' ∧ others_kept (change_id c) s s'.
Proof.
  intros Hok Hown Hc. destruct err as [e|]; [by apply change_fails in Hc as ->|].
  assert (∀ a, own_channels a → stored a s s' → tables_ok s' ∧ others_kept (ad_ID a) s s') as Hst.
  { intros a Ha Hs. destruct (stored_own _ _ _ Ha Hs) as [Hoth _]. split; [|done].
    destruct Hs as (m & ms & Hm & Hms & Hag & Hch), Hok as [Hk Hc']. split.
    - intros k m' Hk'. rewrite Hag in Hk'. apply lookup_insert_Some in Hk' as [[<- <-]|[_ Hk']]; [|by apply Hk].
      destruct (agentToModel_id _ _ Hm) as [Hid _]. unfold stored_row. rewrite Hid. by destruct (ag_agents s !! ad_ID a).
    - intros k c' Hk'. apply Hch in Hk' as [(c0 & Hin & -> & ->)|[Hk' Hne]].
      + split; [done|]. split; [by cbn; destruct (acm_Enabled c0)|].
        apply (all_ok_elem _ _ _ _ Hms) in Hin as (ch & Hin & [= Hkey _]%channelToModel_key). cbn.
        rewrite Hkey. unfold own_channels in Ha. rewrite Forall_forall in Ha. rewrite (Ha _ Hin), Hag, lookup_insert, decide_True by done.
        by eexists.
      + destruct (Hc' _ _ Hk') as (? & ? & ?). split; [done|]. split; [done|]. rewrite Hag. by rewrite lookup_insert_ne. }
  destruct c as [a|a|id]; cbn in *.
  - apply Hst; [done|]. by apply Create_stored.
  - apply Hst; [done|]. by apply Update_stored.
  - apply Delete_spec in Hc as [Ha Hch]. destruct Hok as [Hk Hc']. split; [split|split].
    + intros k m Hk'. rewrite Ha in Hk'. apply lookup_delete_Some in Hk' as [_ Hk']. by apply Hk.
    + intros k m [Hk' Hne]%Hch. destruct (Hc' _ _ Hk') as (? & ? & ?). split; [done|]. split; [done|].
      by rewrite Ha, lookup_delete_ne.
    + intros j Hj. rewrite Ha. by apply lookup_delete_ne.
    + intros k m Hm. rewrite Hch. naive_solver.
Qed.

(** What is read of an agent is its row, with channels of its own. *)
Lemma ads_Get_row id s a :
  tables_ok s → ads_Get fault id s = Ok (Some a) →
  ad_ID a = id ∧ own_channels a ∧ ∃ m, ag_agents s !! id = Some m ∧ adm_TenantID m = ad_TenantID a.
Proof.
  intros [Hk _]. unfold ads_Get. destruct (fault _ _ _ _); [done|].
  destruct (ag_agents s !! id) as [m|] eqn:Hm; [|done]. intros (a' & Hl & [= <-])%bind_Ok.
  apply bind_Ok in Hl as (a0 & Ha0 & [= <-]). pose proof (Hk _ _ Hm) as Hid.
  unfold modelToAgent in Ha0. apply bind_Ok in Ha0 as (cfg & _ & [= <-]). cbn.
  split; [done|]. split; [|by exists m]. unfold own_channels. cbn.
  destruct (getChannels _ _ _) as [chs|] eqn:Hch; [|constructor]. unfold getChannels in Hch.
  destruct (fault _ _ _ _); [done|]. apply Forall_forall. intros ch (c0 & Hin & Hc)%(all_ok_elem _ _ _ _ Hch).
  rewrite scan_perm, elem_of_rows in Hin. destruct Hin as [Hin%bool_decide_eq_true _].
  unfold modelToChannel in Hc. by apply bind_Ok in Hc as (? & _ & [= <-]).
Qed.

(** *** Reading back *)

Definition plain_config (c : option payload) : Prop :=
  match c with Some m => map_Forall (λ _ v, json_plain v = true) m | None => True end.
Definition plain_agent (a : mysql_AgentDefinition) : Prop :=
  plain_config (ad_Config a) ∧ Forall (λ c, plain_config (ac_Config c)) (ad_Channels a).

Lemma column_round_trip c col : plain_config c → to_column c = Ok col → of_column col = Ok c.
Proof.
  destruct c as [m|]; cbn; [|by intros _ [= <-]]. intros Hp (t & Ht & [= <-])%bind_Ok.
  destruct (json_not_null _ _ Ht) as [H1' H2']. unfold json_value, str_empty.
  rewrite !bool_decide_eq_false_2 by done. cbn. destruct (Nat.eqb_spec (str_len t) 0) as [Hl|_].
  - exfalso. apply H1'. apply (inj s2l). by apply nil_length_inv.
  - by apply json_round_trip.
Qed.

(** A channel as the store gives it back. *)
Definition channel_back (now : time) (c : AgentChannel) : AgentChannel :=
  {| ac_AgentID := ac_AgentID c; ac_Channel := ac_Channel c; ac_Enabled := true; ac_Config := ac_Config c;
     ac_CreatedAt := now; ac_UpdatedAt := now |}.

(** An agent as the store gives it back, but for its channels: [existed] says whether its
    row was there before.  Then its status is written as it is, and its time of creation
    is lost. *)
Definition agent_back (now : time) (existed : bool) (a : mysql_AgentDefinition) : mysql_AgentDefinition :=
  {| ad_ID := ad_ID a; ad_TenantID := ad_TenantID a; ad_Name := ad_Name a; ad_Description := ad_Description a;
     ad_Avatar := ad_Avatar a; ad_Model := ad_Model a; ad_Provider := ad_Provider a;
     ad_Status := if existed then ad_Status a else or_default (ad_Status a) "active"; ad_Config := ad_Config a;
     ad_Channels := []; ad_CreatedAt := if existed then time_zero else now; ad_UpdatedAt := now |}.

Lemma model_back now existed a m :
  plain_agent a → agentToModel a = Ok m →
  modelToAgent (if existed : bool then saved_agent now m else created_agent now m) = Ok (agent_back now existed a).
Proof.
  intros [Hp _] (col & Hcol & [= <-])%bind_Ok. pose proof (column_round_trip _ _ Hp Hcol) as Hback.
  unfold modelToAgent. by destruct existed; cbn; rewrite Hback.
Qed.

Lemma channel_model_back now c m :
  plain_config (ac_Config c) → channelToModel c = Ok m → modelToChannel (created_channel now m) = Ok (channel_back now c).
Proof.
  intros Hp (col & Hcol & [= <-])%bind_Ok. pose proof (column_round_trip _ _ Hp Hcol) as Hback.
  unfold modelToChannel. cbn. rewrite Hback. by destruct (ac_Enabled c).
Qed.

(** What was created or updated is read back field by field, with its channels: only a
    channel that was given as disabled comes back enabled, and an updated agent has lost
    its time of creation. *)
Theorem agent_read_back c a s s' :
  c = CCreate a ∨ c = CUpdate a → tables_ok s → own_channels a → plain_agent a → apply_change c s = (s', None) →
  (∀ tb key, fault OpQuery tb key s' = None) →
  ∃ channels, ads_Get fault (ad_ID a) s'
      = Ok (Some (with_channels (agent_back (ag_now s) (bool_decide (is_Some (ag_agents s !! ad_ID a))) a) channels))
    ∧ ∀ ch, ch ∈ channels ↔ ∃ ch0, ch0 ∈ ad_Channels a ∧ ch = channel_back (ag_now s) ch0.
Proof.
  intros Hc Hok Hown Hplain Hrun Hread.
  assert (stored a s s') as Hst by (destruct Hc as [-> | ->]; [by apply Create_stored|by apply Update_stored]).
  destruct (stored_own _ _ _ Hown Hst) as [_ (m & Hm & Hrow)], Hst as (m' & ms & Hm' & Hms & _ & Hch).
  assert (m' = m) as -> by congruence. destruct (agentToModel_id _ _ Hm) as [Hid _].
  assert (stored_row s m = if bool_decide (is_Some (ag_agents s !! ad_ID a)) then saved_agent (ag_now s) m else created_agent (ag_now s) m) as Hsr.
  { unfold stored_row. rewrite Hid. by destruct (ag_agents s !! ad_ID a). }
  unfold ads_Get. rewrite Hread, Hrow. unfold load. pose proof (model_back (ag_now s) (bool_decide (is_Some (ag_agents s !! ad_ID a))) _ _ Hplain Hm) as Hmb. rewrite <- Hsr in Hmb. rewrite Hmb. cbn [result_bind].
  assert (adm_ID (stored_row s m) = ad_ID a) as -> by (unfold stored_row; rewrite <- Hid; by destruct (ag_agents s !! adm_ID m)).
  destruct Hplain as [_ Hpc]. rewrite Forall_forall in Hpc. unfold own_channels in Hown. rewrite Forall_forall in Hown.
  assert (∀ row, row ∈ scan (rows (λ r, bool_decide (acm_AgentID r = ad_ID a)) (ag_channels s'))
    ↔ ∃ c0, c0 ∈ ms ∧ row = created_channel (ag_now s) c0) as Hrows.
  { intros row. rewrite scan_perm, elem_of_rows, bool_decide_eq_true. split.
    - intros [Hrid [k [(c0 & Hin & _ & ->)|[_ Hne]]%Hch]]; [by exists c0|done].
    - intros (c0 & Hin & ->). apply (all_ok_elem _ _ _ _ Hms) in Hin as Hin'. destruct Hin' as (ch & Hch' & Hk%channelToModel_key).
      injection Hk as Hk _. cbn. rewrite Hk. split; [by apply Hown|]. exists (chan_key c0). apply Hch. left. by exists c0. }
  unfold getChannels. rewrite Hread.
  destruct (all_ok_all modelToChannel (scan (rows (λ r, bool_decide (acm_AgentID r = ad_ID a)) (ag_channels s')))) as [channels Hchs].
  { intros row (c0 & (ch & Hin & Hcm)%(all_ok_elem _ _ _ _ Hms) & ->)%Hrows. by rewrite (channel_model_back _ _ _ (Hpc _ Hin) Hcm). }
  rewrite Hchs. exists channels. split; [done|]. intros ch. rewrite (all_ok_elem _ _ _ _ Hchs). split.
  - intros (row & (c0 & (ch0 & Hin & Hcm)%(all_ok_elem _ _ _ _ Hms) & ->)%Hrows & Hback).
    rewrite (channel_model_back _ _ _ (Hpc _ Hin) Hcm) in Hback. injection Hback as <-. by exists ch0.
  - intros (ch0 & Hin & ->).
    destruct (all_ok_in _ _ _ _ Hms Hin) as (c0 & Hc0 & Hcm).
    exists (created_channel (ag_now s) c0). split; [apply Hrows; by exists c0|by apply channel_model_back; [apply Hpc|]].
Qed.
End properties.

(** ** Witnesses

    A codec of the objects whose values are strings. *)

Definition str_field (kv : string * jany) : option (string * string) :=
  match kv.2 with JStr s => Some (kv.1, s) | _ => None end.

#[global] Instance demo_codec : JsonCodec := {
  json_marshal m := match mapM str_field (map_to_list m) with
                    | Some l => Ok ("{" +:+ to_code l)
                    | None => Err (ErrText "unsupported value")
                    end;
  json_unmarshal t := match t with
                      | EmptyString => Err (ErrText "unexpected end")
                      | String _ bits =>
                          match (of_code bits : option (list (string * string))) with
                          | Some l => Ok (Some (list_to_map ((λ kv, (kv.1, JStr kv.2)) <$> l)))
                          | None => Err (ErrText "invalid character")
                          end
                      end;
}.

#[global] Instance demo_codec_laws : JsonLaws.
Proof.
  split; intros m t; cbn; [intros _|]; destruct (mapM str_field (map_to_list m)) as [l|] eqn:Hl; try done.
  - intros [= <-]. change ("{" +:+ to_code l) with (String "{" (to_code l)). cbv beta iota. rewrite of_code_to_code. do 2 f_equal.
    apply mapM_Some in Hl. rewrite <- (list_to_map_to_list m). f_equal.
    induction Hl as [|[k v] [k' s] kvs l Hkv _ IH]; [done|]. rewrite fmap_cons, IH. f_equal.
    unfold str_field in Hkv. cbn in Hkv. by destruct v; simplify_eq.
  - intros [= <-]. by split.
Qed.

Definition no_agent_fault (op : operation) (tb : agent_table) (key : list string) (s : agent_db) : option goerror := None.
Definition no_commit_fault (s : agent_db) : option goerror := None.
Definition w_agents : agent_db := {| ag_agents := ∅; ag_channels := ∅; ag_now := 7 |}.
Definition w_agent_channel (ch : string) (enabled : bool) : AgentChannel :=
  {| ac_AgentID := "g"; ac_Channel := ch; ac_Enabled := enabled; ac_Config := Some {["token" := JStr "x"]};
     ac_CreatedAt := 0; ac_UpdatedAt := 0 |}.
Definition w_agent : mysql_AgentDefinition :=
  {| ad_ID := "g"; ad_TenantID := "t"; ad_Name := "n"; ad_Description := ""; ad_Avatar := ""; ad_Model := "m";
     ad_Provider := "primary"; ad_Status := "active"; ad_Config := Some ∅;
     ad_Channels := [w_agent_channel "web" true; w_agent_channel "wecom" false]; ad_CreatedAt := 3; ad_UpdatedAt := 3 |}.
#[local] Existing Instance stable_sort.

Lemma w_agents_ok : tables_ok w_agents.
Proof. by split. Qed.

Definition w_stored : agent_db := (ads_Create no_agent_fault no_commit_fault w_agent w_agents).1.

(** The disabled channel comes back enabled. *)
Lemma agent_read_back_witness :
  ∃ channels, ads_Get no_agent_fault "g" w_stored = Ok (Some (with_channels (agent_back 7 false w_agent) channels))
    ∧ channel_back 7 (w_agent_channel "wecom" false) ∈ channels.
Proof.
  destruct (agent_read_back no_agent_fault no_commit_fault (CCreate w_agent) w_agent w_agents w_stored (or_introl eq_refl)
    w_agents_ok) as (channels & Hget & Hch).
  - repeat constructor.
  - split; [apply map_Forall_empty|]. repeat constructor; cbn; apply map_Forall_singleton; reflexivity.
  - apply run_of_answer. vm_compute. reflexivity.
  - reflexivity.
  - exists channels. split; [exact Hget|]. apply Hch. exists (w_agent_channel "wecom" false). split; [|reflexivity].
    cbn. right. left.
Defined.

Lemma change_keeps_tables_witness : tables_ok w_stored ∧ others_kept "g" w_agents w_stored.
Proof.
  apply (change_keeps_tables no_agent_fault no_commit_fault (CCreate w_agent) w_agents w_stored None w_agents_ok).
  - repeat constructor.
  - apply run_of_answer. vm_compute. reflexivity.
Defined.
