(* ===== verification/Console.v ===== *)
(** [pkg/api/console/agents.go] and [sessions.go]: the handlers of the web console for
    agents and chat sessions, on the store of agents ([AgentDefs]), the registry and the
    interface of the session store.

    A handler is called with the claims that the middleware put into the context, [None]
    when there are none.  The body of a request is what the decoder made of it, [None] when
    it failed.  [None] as a result is a panic: the handlers that change agents use the
    database without asking whether there is one. *)
From S2P Require Import Prelude GoStrings Floats Values Types AgentRegistry Stores Api Accounts Auth AgentDefs.

Section agents.
Context `{JsonCodec} `{Scan} `{SliceSort} {Runner : Type}.
Context (fault : operation → agent_table → list string → agent_db → option goerror).
Context (commit_fault : agent_db → option goerror).

(** The registry with an order in which its agents are ranged over. *)
Context (registry : @AgentRegistry Runner) (order : list string).

(** ** agents.go *)

(** What is shown of an agent of the registry. *)
Record entry_view := {
  ev_id : string; ev_name : string; ev_description : string; ev_model : string; ev_status : string; ev_avatar : string;
  ev_channels : list string; ev_created_at : string;
}.

Definition view_of (today : string) (e : @AgentEntry Runner) : entry_view :=
  {| ev_id := def_ID (ent_Config e); ev_name := def_Name (ent_Config e); ev_description := def_Description (ent_Config e);
     ev_model := def_Model (ent_Config e); ev_status := "active"; ev_avatar := "🤖"; ev_channels := ["web"%string];
     ev_created_at := today |}.

Inductive agent_data :=
| AgentsData (l : list mysql_AgentDefinition) | AgentData (a : mysql_AgentDefinition)
| EntriesData (l : list entry_view) | EntryData (e : entry_view)
| ConfigData (config : option payload) | ChannelsData (l : list AgentChannel) | AgentMessage (msg : string).

Abbreviation answer := (option (option agent_db * Response agent_data)) (only parsing).

Definition verifyTenantAccess (claims : Claims) (agentTenantID : string) : bool :=
  if str_empty agentTenantID then bool_decide (cl_Role claims = "admin"%string)
  else existsb (λ t, bool_decide (t = agentTenantID)) (cl_Tenants claims).

(** The tenant new agents are given. *)
Definition first_tenant (claims : Claims) : string := default "" (head (cl_Tenants claims)).

Definition not_authenticated : Response agent_data := writeError StatusUnauthorized "not authenticated".

Definition agents_list (claims : option Claims) (today : string) (s : option agent_db) : Response agent_data :=
  match claims with
  | None => not_authenticated
  | Some claims =>
      let fallback := writeJSON StatusOK (EntriesData (view_of today <$> omap (GetEntry registry) (ListAgents registry order))) in
      match s with
      | None => fallback
      | Some db => match ads_List fault (first_tenant claims) db with
                   | Ok agents => writeJSON StatusOK (AgentsData agents)
                   | Err _ => fallback
                   end
      end
  end.

Definition agents_get (claims : option Claims) (agentID today : string) (s : option agent_db) : Response agent_data :=
  match claims with
  | None => not_authenticated
  | Some claims =>
      if str_empty agentID then writeError StatusBadRequest "agent_id is required"
      else
        let fallback := match GetEntry registry agentID with
                        | None => writeError StatusNotFound "agent not found"
                        | Some entry => writeJSON StatusOK (EntryData (view_of today entry))
                        end in
        match s with
        | None => fallback
        | Some db =>
            match ads_Get fault agentID db with
            | Ok (Some agent) =>
                if negb (verifyTenantAccess claims (ad_TenantID agent)) then writeError StatusForbidden "access denied"
                else writeJSON StatusOK (AgentData agent)
            | _ => fallback
            end
        end
  end.

(** The channels of a request. *)
Record channel_request := { cr_Channel : string; cr_Enabled : bool; cr_Config : option payload }.

Record agent_request := {
  ar_Name : string; ar_Description : string; ar_Avatar : string; ar_Model : string; ar_Provider : string;
  ar_Status : string; ar_Config : option payload; ar_Channels : list channel_request;
}.

Definition requested_channel (agentID : string) (ch : channel_request) : AgentChannel :=
  {| ac_AgentID := agentID; ac_Channel := cr_Channel ch; ac_Enabled := cr_Enabled ch; ac_Config := cr_Config ch;
     ac_CreatedAt := time_zero; ac_UpdatedAt := time_zero |}.

Definition default_config : payload :=
  {["system_prompt" := JStr "你是一个友好、专业的 AI 助手。"; "temperature" := JFloat (f64_ratio 7 10);
    "max_tokens" := JNum 2048; "top_p" := JFloat (f64_ratio 9 10)]}.

Definition new_agent (id tenantID : string) (now : time) (req : agent_request) : mysql_AgentDefinition :=
  {| ad_ID := id; ad_TenantID := tenantID; ad_Name := ar_Name req; ad_Description := ar_Description req;
     ad_Avatar := or_default (ar_Avatar req) "🤖"; ad_Model := or_default (ar_Model req) "MiniMax-M2.5";
     ad_Provider := or_default (ar_Provider req) "primary"; ad_Status := "active";
     ad_Config := Some (default default_config (ar_Config req));
     ad_Channels := match ar_Channels req with
                    | [] => [requested_channel id {| cr_Channel := "web"; cr_Enabled := true; cr_Config := Some ∅ |}]
                    | chs => requested_channel id <$> chs
                    end;
     ad_CreatedAt := now; ad_UpdatedAt := now |}.

Definition agents_create (claims : option Claims) (id : string) (now : time) (req : option agent_request)
    (s : option agent_db) : answer :=
  match claims with
  | None => Some (s, not_authenticated)
  | Some claims =>
      match req with
      | None => Some (s, writeError StatusBadRequest "invalid request body")
      | Some req =>
          if str_empty (ar_Name req) then Some (s, writeError StatusBadRequest "name is required")
          else
            let agent := new_agent id (first_tenant claims) now req in
            db ← s;
            match ads_Create fault commit_fault agent db with
            | (db, Some _) => Some (Some db, writeError StatusInternalServerError "failed to create agent")
            | (db, None) => Some (Some db, writeJSON StatusCreated (AgentData agent))
            end
      end
  end.

(** What six handlers begin with: the agent, if the caller may access it. *)
Definition with_agent (claims : option Claims) (agentID : string) (s : option agent_db)
    (k : agent_db → mysql_AgentDefinition → agent_db * Response agent_data) : answer :=
  match claims with
  | None => Some (s, not_authenticated)
  | Some claims =>
      if str_empty agentID then Some (s, writeError StatusBadRequest "agent_id is required")
      else
        db ← s;
        match ads_Get fault agentID db with
        | Err _ => Some (s, writeError StatusInternalServerError "failed to get agent")
        | Ok None => Some (s, writeError StatusNotFound "agent not found")
        | Ok (Some agent) =>
            if negb (verifyTenantAccess claims (ad_TenantID agent)) then Some (s, writeError StatusForbidden "access denied")
            else let '(db, r) := k db agent in Some (Some db, r)
        end
  end.

(** The end of the handlers that update: store the agent and answer with [v], or an error. *)
Definition save_agent (agent : mysql_AgentDefinition) (msg : string) (v : agent_data) (db : agent_db)
    : agent_db * Response agent_data :=
  match ads_Update fault commit_fault agent db with
  | (db, Some _) => (db, writeError StatusInternalServerError msg)
  | (db, None) => (db, writeJSON StatusOK v)
  end.

Definition updated_agent (agentID : string) (now : time) (req : agent_request) (a : mysql_AgentDefinition)
    : mysql_AgentDefinition :=
  {| ad_ID := ad_ID a; ad_TenantID := ad_TenantID a; ad_Name := or_default (ar_Name req) (ad_Name a);
     ad_Description := or_default (ar_Description req) (ad_Description a);
     ad_Avatar := or_default (ar_Avatar req) (ad_Avatar a); ad_Model := or_default (ar_Model req) (ad_Model a);
     ad_Provider := or_default (ar_Provider req) (ad_Provider a); ad_Status := or_default (ar_Status req) (ad_Status a);
     ad_Config := match ar_Config req with Some c => Some c | None => ad_Config a end;
     ad_Channels := match ar_Channels req with
                    | [] => ad_Channels a
                    | chs => requested_channel agentID <$> chs
                    end;
     ad_CreatedAt := ad_CreatedAt a; ad_UpdatedAt := now |}.

Definition bad_body {A} (db : A) : A * Response agent_data := (db, writeError StatusBadRequest "invalid request body").

Definition agents_update (claims : option Claims) (agentID : string) (now : time) (req : option agent_request)
    (s : option agent_db) : answer :=
  with_agent claims agentID s (λ db existing,
    match req with
    | None => bad_body db
    | Some req =>
        let agent := updated_agent agentID now req existing in
        save_agent agent "failed to update agent" (AgentData agent) db
    end).

Definition agents_delete (claims : option Claims) (agentID : string) (s : option agent_db) : answer :=
  with_agent claims agentID s (λ db _,
    match ads_Delete fault commit_fault agentID db with
    | (db, Some _) => (db, writeError StatusInternalServerError "failed to delete agent")
    | (db, None) => (db, writeJSON StatusOK (AgentMessage "agent deleted"))
    end).

Definition agents_getConfig (claims : option Claims) (agentID : string) (s : option agent_db) : answer :=
  with_agent claims agentID s (λ db agent, (db, writeJSON StatusOK (ConfigData (ad_Config agent)))).

Definition with_config (now : time) (config : option payload) (a : mysql_AgentDefinition) : mysql_AgentDefinition :=
  {| ad_ID := ad_ID a; ad_TenantID := ad_TenantID a; ad_Name := ad_Name a; ad_Description := ad_Description a;
     ad_Avatar := ad_Avatar a; ad_Model := ad_Model a; ad_Provider := ad_Provider a; ad_Status := ad_Status a;
     ad_Config := config; ad_Channels := ad_Channels a; ad_CreatedAt := ad_CreatedAt a; ad_UpdatedAt := now |}.

(** The decoded body may be null, which is a nil map. *)
Definition agents_updateConfig (claims : option Claims) (agentID : string) (now : time) (body : option (option payload))
    (s : option agent_db) : answer :=
  with_agent claims agentID s (λ db agent,
    match body with
    | None => bad_body db
    | Some config => save_agent (with_config now config agent) "failed to update config" (ConfigData config) db
    end).

Definition agents_getChannels (claims : option Claims) (agentID : string) (s : option agent_db) : answer :=
  with_agent claims agentID s (λ db agent, (db, writeJSON StatusOK (ChannelsData (ad_Channels agent)))).

Definition with_request (now : time) (chs : list AgentChannel) (a : mysql_AgentDefinition) : mysql_AgentDefinition :=
  {| ad_ID := ad_ID a; ad_TenantID := ad_TenantID a; ad_Name := ad_Name a; ad_Description := ad_Description a;
     ad_Avatar := ad_Avatar a; ad_Model := ad_Model a; ad_Provider := ad_Provider a; ad_Status := ad_Status a;
     ad_Config := ad_Config a; ad_Channels := chs; ad_CreatedAt := ad_CreatedAt a; ad_UpdatedAt := now |}.

Definition agents_updateChannels (claims : option Claims) (agentID : string) (now : time)
    (body : option (list channel_request)) (s : option agent_db) : answer :=
  with_agent claims agentID s (λ db agent,
    match body with
    | None => bad_body db
    | Some channels =>
        let chs := requested_channel agentID <$> channels in
        save_agent (with_request now chs agent) "failed to update channels" (ChannelsData chs) db
    end).

(** The routes of [Handler] for agents, with the identifier of the path; [id] in [ReqCreate]
    is the new random identifier. *)
Inductive agents_request :=
| ReqList (today : string) | ReqGet (agentID today : string)
| ReqCreate (id : string) (now : time) (body : option agent_request)
| ReqUpdate (agentID : string) (now : time) (body : option agent_request)
| ReqDelete (agentID : string)
| ReqGetConfig (agentID : string) | ReqUpdateConfig (agentID : string) (now : time) (body : option (option payload))
| ReqGetChannels (agentID : string)
| ReqUpdateChannels (agentID : string) (now : time) (body : option (list channel_request)).

Definition agents_handle (claims : option Claims) (req : agents_request) (s : option agent_db) : answer :=
  match req with
  | ReqList today => Some (s, agents_list claims today s)
  | ReqGet agentID today => Some (s, agents_get claims agentID today s)
  | ReqCreate id now body => agents_create claims id now body s
  | ReqUpdate agentID now body => agents_update claims agentID now body s
  | ReqDelete agentID => agents_delete claims agentID s
  | ReqGetConfig agentID => agents_getConfig claims agentID s
  | ReqUpdateConfig agentID now body => agents_updateConfig claims agentID now body s
  | ReqGetChannels agentID => agents_getChannels claims agentID s
  | ReqUpdateChannels agentID now body => agents_updateChannels claims agentID now body s
  end.
End agents.

(** ** Properties of the agents' handlers *)

Section agent_properties.
Context `{JsonLaws} `{Scan} `{SliceSort} {Runner : Type}.
Context (fault : operation → agent_table → list string → agent_db → option goerror).
Context (commit_fault : agent_db → option goerror).
Context (registry : @AgentRegistry Runner) (order : list string).

(** Whether a caller may access the agents of a tenant. *)
Definition may_access (claims : option Claims) (tenantID : string) : bool :=
  match claims with Some c => verifyTenantAccess c tenantID | None => false end.

(** What a request does to the store: nothing, or one change to an agent of the caller. *)
Definition one_change (claims : option Claims) (s s' : agent_db) : Prop :=
  s' = s ∨ ∃ c err, apply_change fault commit_fault c s = (s', err) ∧ change_own c
    ∧ match c with
      | CCreate a => ∃ cl, claims = Some cl ∧ ad_TenantID a = first_tenant cl
      | CUpdate a => may_access claims (ad_TenantID a) = true
          ∧ ∃ m, ag_agents s !! ad_ID a = Some m ∧ adm_TenantID m = ad_TenantID a
      | CDelete id => ∃ m, ag_agents s !! id = Some m ∧ may_access claims (adm_TenantID m) = true
      end.

Lemma with_agent_inv claims agentID s k s' r :
  tables_ok s → with_agent fault claims agentID (Some s) k = Some (s', r) →
  s' = Some s
  ∨ ∃ a m, ag_agents s !! agentID = Some m ∧ adm_TenantID m = ad_TenantID a ∧ ad_ID a = agentID ∧ own_channels a
    ∧ may_access claims (ad_TenantID a) = true ∧ ads_Get fault agentID s = Ok (Some a) ∧ s' = Some (k s a).1 ∧ r = (k s a).2.
Proof.
  intros Hok. unfold with_agent. destruct claims as [c|]; [|intros [= <- <-]; by left].
  destruct (str_empty agentID); [intros [= <- <-]; by left|]. cbn [mbind option_bind].
  destruct (ads_Get fault agentID s) as [[a|]|] eqn:Hget; [|intros [= <- <-]; by left..].
  destruct (verifyTenantAccess c (ad_TenantID a)) eqn:Hv; cbn [negb]; [|intros [= <- <-]; by left].
  destruct (ads_Get_row fault _ _ _ Hok Hget) as (Hid & Hown & m & Hm & Ht).
  destruct (k s a) as [db r'] eqn:Hk. intros [= <- <-]. right. exists a, m. rewrite Hk. by repeat split.
Qed.

Lemma requested_own id chs : Forall (λ c, ac_AgentID c = id) (requested_channel id <$> chs).
Proof. apply Forall_fmap, Forall_true. done. Qed.

Lemma save_one_change claims s agent msg v m :
  may_access claims (ad_TenantID agent) = true → own_channels agent → ag_agents s !! ad_ID agent = Some m →
  adm_TenantID m = ad_TenantID agent → one_change claims s (save_agent fault commit_fault agent msg v s).1.
Proof.
  intros Hacc Hown Hm Ht. right. exists (CUpdate agent), (ads_Update fault commit_fault agent s).2. unfold save_agent. cbn.
  destruct (ads_Update _ _ _ s) as [s1 [e|]]; cbn; (split; [done|]; split; [done|]; split; [done|]; by exists m).
Qed.

Lemma handle_one_change claims req s s' r :
  tables_ok s → agents_handle fault commit_fault registry order claims req (Some s) = Some (Some s', r) → one_change claims s s'.
Proof.
  intros Hok. destruct req as [today|id today|id now body|id now body|id|id|id now body|id|id now body]; cbn [agents_handle];
    try (intros [= <- _]; by left).
  - unfold agents_create. destruct claims as [c|]; [|intros [= <- _]; by left].
    destruct body as [req|]; [|intros [= <- _]; by left]. destruct (str_empty _); [intros [= <- _]; by left|].
    cbn [mbind option_bind]. destruct (ads_Create _ _ _ s) as [s1 err] eqn:Hc. intros Heq. right.
    exists (CCreate (new_agent id (first_tenant c) now req)), err.
    assert (s1 = s') as -> by (by destruct err; injection Heq). split; [done|]. split; [|by exists c].
    unfold change_own, own_channels, new_agent. cbn. destruct (ar_Channels req) as [|ch chs]; [by repeat constructor|].
    apply (requested_own id (ch :: chs)).
  - intros [[= ->]|(a & m & Hm & Ht & Hid & Hown & Hacc & _ & [= ->] & _)]%with_agent_inv; [by left| |done].
    destruct body as [req|]; [|by left]. rewrite <- Hid in Hm.
    eapply (save_one_change _ _ (updated_agent id now req a)); [done| |exact Hm|done].
    unfold own_channels, updated_agent. cbn. rewrite Hid. destruct (ar_Channels req) as [|ch chs]; [by rewrite <- Hid|apply (requested_own id (ch :: chs))].
  - intros [[= ->]|(a & m & Hm & Ht & _ & _ & Hacc & _ & [= ->] & _)]%with_agent_inv; [by left| |done].
    right. exists (CDelete id), (ads_Delete fault commit_fault id s).2. cbn.
    destruct (ads_Delete _ _ _ s) as [s1 [e|]]; cbn; (split; [done|]; split; [done|]; exists m; by rewrite Ht).
  - by intros [[= ->]|(a & m & Hm & Ht & _ & _ & Hacc & _ & [= ->] & _)]%with_agent_inv; [left|left|].
  - intros [[= ->]|(a & m & Hm & Ht & Hid & Hown & Hacc & _ & [= ->] & _)]%with_agent_inv; [by left| |done].
    destruct body as [config|]; [|by left]. rewrite <- Hid in Hm.
    by eapply (save_one_change _ _ (with_config now config a)).
  - by intros [[= ->]|(a & m & Hm & Ht & _ & _ & Hacc & _ & [= ->] & _)]%with_agent_inv; [left|left|].
  - intros [[= ->]|(a & m & Hm & Ht & Hid & Hown & Hacc & _ & [= ->] & _)]%with_agent_inv; [by left| |done].
    destruct body as [chs|]; [|by left]. rewrite <- Hid in Hm.
    eapply (save_one_change _ _ (with_request now (requested_channel id <$> chs) a)); [done| |exact Hm|done].
    unfold own_channels. cbn. rewrite Hid. apply requested_own.
Qed.

(** What one change does to the row it is about. *)
Lemma own_row claims c err s s' :
  tables_ok s → apply_change fault commit_fault c s = (s', err) → change_own c →
  match c with
  | CCreate a => ∃ cl, claims = Some cl ∧ ad_TenantID a = first_tenant cl
  | CUpdate a => may_access claims (ad_TenantID a) = true ∧ ∃ m, ag_agents s !! ad_ID a = Some m ∧ adm_TenantID m = ad_TenantID a
  | CDelete id => ∃ m, ag_agents s !! id = Some m ∧ may_access claims (adm_TenantID m) = true
  end →
  s' = s
  ∨ (∀ m, ag_agents s !! change_id c = Some m → may_access claims (adm_TenantID m) = true)
    ∧ (∀ m m', ag_agents s !! change_id c = Some m → ag_agents s' !! change_id c = Some m' → adm_TenantID m' = adm_TenantID m)
    ∧ ∀ m', ag_agents s !! change_id c = None → ag_agents s' !! change_id c = Some m' →
        ∃ cl, claims = Some cl ∧ adm_TenantID m' = first_tenant cl.
Proof.
  intros Hok Hrun Hown Hc. destruct err as [e|]; [left; by eapply change_fails|right].
  assert (∀ a, own_channels a → stored a s s' → ∃ m', ag_agents s' !! ad_ID a = Some m' ∧ adm_TenantID m' = ad_TenantID a) as Hst.
  { intros a Ha Hs. destruct (stored_own _ _ _ Ha Hs) as (_ & m & Hm & ->). eexists. split; [done|].
    destruct (agentToModel_id _ _ Hm) as [_ <-]. unfold stored_row. by destruct (ag_agents s !! adm_ID m). }
  destruct c as [a|a|id]; cbn in *.
  - destruct (Create_stored _ _ _ _ _ Hok Hrun) as [Hnone Hs], (Hst _ Hown Hs) as (m' & Hm' & Ht), Hc as (cl & -> & Hcl).
    split; [congruence|]. split; [congruence|]. intros m2 _ Hm2. exists cl. split; [done|]. congruence.
  - destruct (Hst _ Hown (Update_stored _ _ _ _ _ Hrun)) as (m' & Hm' & Ht), Hc as (Hacc & m & Hm & Htm).
    repeat split; intros; simplify_eq; congruence.
  - destruct (Delete_spec _ _ _ _ _ Hrun) as [Ha _], Hc as (m & Hm & Hacc). rewrite Ha, lookup_delete.
    repeat split; intros; simplify_eq; try done; by rewrite decide_True in *.
Qed.

(** C7: No request changes an agent the caller may not access, or any channel of it; an agent
    keeps its tenant; a new agent belongs to the caller's first tenant; and the tables
    stay well-formed. *)
Theorem agents_api_confined claims req s s' r :
  tables_ok s → agents_handle fault commit_fault registry order claims req (Some s) = Some (Some s', r) →
  tables_ok s'
  ∧ (∀ j m, ag_agents s !! j = Some m → may_access claims (adm_TenantID m) = false →
       ag_agents s' !! j = Some m
       ∧ ∀ k ch, acm_AgentID ch = j → ag_channels s' !! k = Some ch ↔ ag_channels s !! k = Some ch)
  ∧ (∀ j m m', ag_agents s !! j = Some m → ag_agents s' !! j = Some m' → adm_TenantID m' = adm_TenantID m)
  ∧ (∀ j m', ag_agents s !! j = None → ag_agents s' !! j = Some m' → ∃ c, claims = Some c ∧ adm_TenantID m' = first_tenant c).
Proof.
  intros Hok Hh. apply (handle_one_change _ _ _ _ _ Hok) in Hh as [->|(c & err & Hrun & Hown & Hc)];
    [split; [done|]; split; [done|]; split; intros; by simplify_eq|].
  destruct (change_keeps_tables fault commit_fault _ _ _ _ Hok Hown Hrun) as [Hok' [Hrows Hchs]]. split; [done|].
  destruct (own_row _ _ _ _ _ Hok Hrun Hown Hc) as [->|(Hmay & Htenant & Hnew)]; [split; [done|]; split; intros; by simplify_eq|].
  split; [|split].
  - intros j m Hj Hacc. assert (j ≠ change_id c) as Hne by (intros ->; specialize (Hmay _ Hj); congruence).
    split; [by rewrite Hrows|]. intros k ch <-. by apply Hchs.
  - intros j m m' Hj Hj'. destruct (decide (j = change_id c)) as [->|Hne]; [by eapply Htenant|].
    rewrite Hrows in Hj' by done. congruence.
  - intros j m' Hj Hj'. destruct (decide (j = change_id c)) as [->|Hne]; [by eapply Hnew|].
    rewrite Hrows in Hj' by done. congruence.
Qed.

Lemma ads_List_tenant tenantID s l a : ads_List fault tenantID s = Ok l → a ∈ l → ad_TenantID a = tenantID.
Proof.
  unfold ads_List. destruct (fault _ _ _ _); [done|]. intros Hl Ha.
  apply (all_ok_elem _ _ _ _ Hl) in Ha as (m & Hin & (a0 & Ha0 & [= <-])%bind_Ok).
  unfold newest_first in Hin. rewrite sort_slice_perm, elem_of_rows in Hin. destruct Hin as [Hin%bool_decide_eq_true _].
  unfold modelToAgent in Ha0. by apply bind_Ok in Ha0 as (cfg & _ & [= <-]).
Qed.

(** What a response discloses of the stored agents is the caller's: the agents of its
    first tenant, an agent it may access or has just created, or the configuration or
    channels of an agent it may access. *)
Definition discloses_own (claims : option Claims) (s : agent_db) (d : agent_data) : Prop :=
  match d with
  | AgentsData l => ∃ c, claims = Some c ∧ Forall (λ a, ad_TenantID a = first_tenant c) l
  | AgentData a => may_access claims (ad_TenantID a) = true ∨ ∃ c, claims = Some c ∧ ad_TenantID a = first_tenant c
  | ConfigData _ | ChannelsData _ | AgentMessage _ =>
      ∃ j m, ag_agents s !! j = Some m ∧ may_access claims (adm_TenantID m) = true
  | EntriesData l => claims ≠ None ∧ ∀ v, v ∈ l → ∃ id e today, GetEntry registry id = Some e ∧ v = view_of today e
  | EntryData v => claims ≠ None ∧ ∃ id e today, GetEntry registry id = Some e ∧ v = view_of today e
  end.

Lemma with_agent_discloses claims id s k s' r d :
  tables_ok s → with_agent fault claims id (Some s) k = Some (s', r) → rs_Body r = Data d →
  ∃ a, may_access claims (ad_TenantID a) = true ∧ (∃ m, ag_agents s !! id = Some m ∧ adm_TenantID m = ad_TenantID a)
       ∧ r = (k s a).2.
Proof.
  intros Hok Hw Hd. pose proof Hw as Hw'. unfold with_agent in Hw. destruct claims as [c|]; [|by simplify_eq/=].
  destruct (str_empty id); [by simplify_eq/=|]. cbn [mbind option_bind] in Hw.
  destruct (ads_Get fault id s) as [[a|]|] eqn:Hget; [|by simplify_eq/=..].
  destruct (verifyTenantAccess c (ad_TenantID a)) eqn:Hv; cbn [negb] in Hw; [|by simplify_eq/=].
  destruct (ads_Get_row fault _ _ _ Hok Hget) as (_ & _ & m & Hm & Ht).
  exists a. split; [done|]. split; [by exists m|]. destruct (k s a). by injection Hw.
Qed.

Theorem agents_api_discloses claims req s s' r d :
  tables_ok s → agents_handle fault commit_fault registry order claims req (Some s) = Some (s', r) → rs_Body r = Data d →
  discloses_own claims s d.
Proof.
  intros Hok Hh Hd. destruct req as [today|id today|id now body|id now body|id|id|id now body|id|id now body]; cbn [agents_handle] in Hh.
  4-9: destruct (with_agent_discloses _ _ _ _ _ _ _ Hok Hh Hd) as (a & Hacc & (m & Hm & Ht) & ->).
  - injection Hh as <- <-. unfold agents_list in Hd. destruct claims as [c|]; [|done].
    destruct (ads_List _ _ _) as [l|] eqn:Hl; injection Hd as <-; cbn.
    + exists c. split; [done|]. apply Forall_forall. intros a Ha. exact (ads_List_tenant _ _ _ _ Hl Ha).
    + split; [done|]. intros v (en & -> & (id & _ & He)%list_elem_of_omap)%list_elem_of_fmap. by exists id, en, today.
  - injection Hh as <- <-. unfold agents_get in Hd. destruct claims as [c|]; [|done]. destruct (str_empty id); [done|].
    destruct (ads_Get _ _ _) as [[a|]|].
    1: destruct (verifyTenantAccess _ _) eqn:Hv; [|done]; injection Hd as <-; by left.
    all: destruct (GetEntry registry id) as [en|] eqn:He; [|done]; injection Hd as <-; split; [done|]; by exists id, en, today.
  - unfold agents_create in Hh. destruct claims as [c|]; [|by simplify_eq/=]. destruct body as [req|]; [|by simplify_eq/=].
    destruct (str_empty _); [by simplify_eq/=|]. cbn [mbind option_bind] in Hh.
    destruct (ads_Create _ _ _ s) as [s1 [e|]]; [by simplify_eq/=|]. injection Hh as <- <-. injection Hd as <-.
    right. by exists c.
  - destruct body as [req|]; [|done]. unfold save_agent in Hd. destruct (ads_Update _ _ _ s) as [? [?|]]; [done|].
    injection Hd as <-. by left.
  - destruct (ads_Delete _ _ _ s) as [? [?|]]; [done|]. injection Hd as <-. exists id, m. by rewrite Ht.
  - injection Hd as <-. exists id, m. by rewrite Ht.
  - destruct body as [config|]; [|done]. unfold save_agent in Hd. destruct (ads_Update _ _ _ s) as [? [?|]]; [done|].
    injection Hd as <-. exists id, m. by rewrite Ht.
  - injection Hd as <-. exists id, m. by rewrite Ht.
  - destruct body as [chs|]; [|done]. unfold save_agent in Hd. destruct (ads_Update _ _ _ s) as [? [?|]]; [done|].
    injection Hd as <-. exists id, m. by rewrite Ht.
Qed.

(** Deleting an agent does not reach the registry: afterwards any authenticated caller,
    whatever its tenants, is shown the entry the registry still has. *)
Theorem deleted_agent_is_shown_to_all c c' id today s s' e :
  agents_delete fault commit_fault (Some c) id (Some s) = Some (Some s', writeJSON StatusOK (AgentMessage "agent deleted")) →
  GetEntry registry id = Some e →
  agents_get fault registry (Some c') id today (Some s') = writeJSON StatusOK (EntryData (view_of today e)).
Proof.
  unfold agents_delete, with_agent, agents_get. destruct (str_empty id); [done|]. cbn [mbind option_bind]. intros Hd ->.
  destruct (ads_Get fault id s) as [[a|]|]; [|done..]. destruct (verifyTenantAccess _ _); [|done]. cbn [negb] in Hd.
  destruct (ads_Delete _ _ _ s) as [s1 [err|]] eqn:Hdel; [done|]. injection Hd as ->.
  apply Delete_spec in Hdel as [Ha _]. unfold ads_Get. destruct (fault _ _ _ _); [done|].
  by rewrite Ha, lookup_delete, decide_True.
Qed.
End agent_properties.

(** ** Witnesses *)

#[local] Existing Instance stable_sort.

Definition w_claims (tenant : string) : Claims :=
  {| cl_AccountID := "a"; cl_Role := "user"; cl_Tenants := [tenant]; cl_ExpiresAt := 0; cl_IssuedAt := 0; cl_Issuer := "" |}.
Definition w_secret : @AgentEntry nat :=
  {| ent_ID := "g"; ent_Runner := 0%nat;
     ent_Config := {| def_ID := "g"; def_Name := "n"; def_Description := "secret"; def_Model := "m";
                      def_IsDefault := false; def_Routes := [] |} |}.
Definition w_registry : @AgentRegistry nat := Register w_secret NewAgentRegistry.
Definition w_handle (claims : Claims) (req : agents_request) :=
  agents_handle no_agent_fault no_commit_fault w_registry ["g"%string] (Some claims) req (Some w_stored).

Lemma w_stored_ok : tables_ok w_stored.
Proof. apply change_keeps_tables_witness. Qed.

(** The two halves of an answer that is no panic. *)
Definition after (r : option (option agent_db * Response agent_data)) : agent_db :=
  match r with Some (Some s, _) => s | _ => w_agents end.
Definition answered (r : option (option agent_db * Response agent_data)) : Response agent_data :=
  match r with Some (_, r) => r | None => writeError 0 "" end.

(** A caller of another tenant cannot delete the agent. *)
Lemma agents_api_confined_witness :
  let r := w_handle (w_claims "other") (ReqDelete "g") in
  rs_Status (answered r) = StatusForbidden ∧ is_Some (ag_agents (after r) !! "g"%string).
Proof.
  intros r. split; [vm_compute; reflexivity|].
  assert (r = Some (Some (after r), answered r)) as Hr by (vm_compute; reflexivity).
  destruct (agents_api_confined no_agent_fault no_commit_fault w_registry ["g"%string] (Some (w_claims "other")) (ReqDelete "g")
    w_stored (after r) (answered r) w_stored_ok Hr) as (_ & Hkept & _).
  assert (adm_TenantID <$> ag_agents w_stored !! "g"%string = Some "t"%string) as Ht by (vm_compute; reflexivity).
  destruct (ag_agents w_stored !! "g"%string) as [m|] eqn:Hm; [|discriminate]. injection Ht as Ht.
  destruct (Hkept "g"%string m Hm) as [Hrow _]; [|by exists m]. unfold may_access. by rewrite Ht.
Defined.

(** A caller of the tenant deletes it, and anybody is still shown the registry's entry. *)
Lemma deleted_agent_is_shown_to_all_witness :
  agents_get (H0 := demo_scan) no_agent_fault w_registry (Some (w_claims "other")) "g" "2024-01-01"
      (Some (after (w_handle (w_claims "t") (ReqDelete "g"))))
  = writeJSON StatusOK (EntryData (view_of "2024-01-01" w_secret)).
Proof.
  apply (deleted_agent_is_shown_to_all no_agent_fault no_commit_fault w_registry (w_claims "t") (w_claims "other") "g"
    "2024-01-01" w_stored (after (w_handle (w_claims "t") (ReqDelete "g"))) w_secret); vm_compute; reflexivity.
Defined.

Definition w_get := w_handle (w_claims "t") (ReqGet "g" "").

Lemma agents_api_discloses_witness :
  ∃ a, rs_Body (answered w_get) = Data (AgentData a) ∧ discloses_own w_registry (Some (w_claims "t")) w_stored (AgentData a).
Proof.
  assert (w_get = Some (Some w_stored, answered w_get)) as Hh by (vm_compute; reflexivity).
  assert (match rs_Body (answered w_get) with Data (AgentData _) => true | _ => false end = true) as Hk by (vm_compute; reflexivity).
  destruct (rs_Body (answered w_get)) as [|[]| |] eqn:Hb; try discriminate Hk. eexists. split; [reflexivity|].
  exact (agents_api_discloses no_agent_fault no_commit_fault w_registry ["g"%string] (Some (w_claims "t")) (ReqGet "g" "")
    w_stored (Some w_stored) (answered w_get) _ w_stored_ok Hh Hb).
Defined.
