(* ===== verification/ConsoleChat.v ===== *)
(** [pkg/api/console/sessions.go] and [ws.go]: the chat sessions of the web console, and the
    connection over which a client chats.

    The handlers of sessions are functions on the interface of the session store.  A
    connection is a step relation: the loop that reads messages and the goroutines that
    run the agents interleave, and every entry of [cancelFuncs] is known by the number of
    the context it cancels. *)
From S2P Require Import Prelude GoStrings Values Types AgentRegistry Pruning Compression AgentLoop AgentStream Stores Api Accounts Auth.

(** ** sessions.go *)

Section sessions.
Context {S : Type} `{ChatSessionStore S}.

Record createSessionRequest := { sq_AgentID : string; sq_Title : string }.
Record updateSessionRequest := { up_Title : option string; up_Pinned : option bool; up_Archived : option bool }.

Record sessionResponse := {
  sn_ID : string; sn_TenantID : string; sn_AgentID : string; sn_Title : string; sn_Pinned : bool; sn_Archived : bool;
  sn_CreatedAt : time; sn_UpdatedAt : time;
}.

Definition toSessionResponse (cs : ChatSession) : sessionResponse :=
  {| sn_ID := cs_ID cs; sn_TenantID := cs_TenantID cs; sn_AgentID := cs_AgentID cs; sn_Title := cs_Title cs;
     sn_Pinned := cs_Pinned cs; sn_Archived := cs_Archived cs; sn_CreatedAt := cs_CreatedAt cs;
     sn_UpdatedAt := cs_UpdatedAt cs |}.

(** [SessionDetail] is a session with its messages, a role and a text each. *)
Inductive session_data :=
| SessionList (l : list sessionResponse) | SessionData (s : sessionResponse)
| SessionDetail (s : sessionResponse) (messages : list (string * string)) | SessionDeleted.

Definition no_claims : Response session_data := writeError StatusUnauthorized "not authenticated".
Definition session_not_found : Response session_data := writeError StatusNotFound "session not found".

(** The arguments are the query parameters, empty when they are missing. *)
Definition sessions_list (claims : option Claims) (archived tenant_id : string) (s : S) : Response session_data :=
  match claims with
  | None => no_claims
  | Some claims =>
      let tenantID := if str_empty tenant_id then default "" (head (cl_Tenants claims)) else tenant_id in
      match css_ListByAccount (cl_AccountID claims) tenantID (bool_decide (archived = "true"%string)) s with
      | Err _ => writeError StatusInternalServerError "failed to list sessions"
      | Ok l => writeJSON StatusOK (SessionList (toSessionResponse <$> l))
      end
  end.

Definition session_key (tenantID accountID sessionID : string) : string :=
  "console:" +:+ tenantID +:+ ":" +:+ accountID +:+ ":" +:+ sessionID.

(** [agents] is what the registry lists, in some order. *)
Definition new_session (claims : Claims) (agents : list string) (sessionID : string) (now : time)
    (req : createSessionRequest) : ChatSession :=
  let tenantID := default "" (head (cl_Tenants claims)) in
  {| cs_ID := sessionID; cs_TenantID := tenantID; cs_AccountID := cl_AccountID claims;
     cs_AgentID := if str_empty (sq_AgentID req) then default "" (head agents) else sq_AgentID req;
     cs_Title := or_default (sq_Title req) "New Chat"; cs_SessionKey := session_key tenantID (cl_AccountID claims) sessionID;
     cs_Pinned := false; cs_Archived := false; cs_CreatedAt := now; cs_UpdatedAt := now |}.

Definition sessions_create (claims : option Claims) (agents : list string) (sessionID : string) (now : time)
    (req : option createSessionRequest) (s : S) : S * Response session_data :=
  match claims with
  | None => (s, no_claims)
  | Some claims =>
      match req with
      | None => (s, writeError StatusBadRequest "invalid request body")
      | Some req =>
          let cs := new_session claims agents sessionID now req in
          match css_Create cs s with
          | (s, Some _) => (s, writeError StatusInternalServerError "failed to create session")
          | (s, None) => (s, writeJSON StatusCreated (SessionData (toSessionResponse cs)))
          end
      end
  end.

(** The events of the conversation are fetched and not looked at: there are no messages. *)
Definition sessions_get (claims : option Claims) (id : string) (s : S) : Response session_data :=
  match claims with
  | None => no_claims
  | Some claims =>
      match css_GetByAccountID id (cl_AccountID claims) s with
      | Err _ => session_not_found
      | Ok cs => writeJSON StatusOK (SessionDetail (toSessionResponse cs) [])
      end
  end.

Definition updated_session (now : time) (req : updateSessionRequest) (cs : ChatSession) : ChatSession :=
  {| cs_ID := cs_ID cs; cs_TenantID := cs_TenantID cs; cs_AccountID := cs_AccountID cs; cs_AgentID := cs_AgentID cs;
     cs_Title := default (cs_Title cs) (up_Title req); cs_SessionKey := cs_SessionKey cs;
     cs_Pinned := default (cs_Pinned cs) (up_Pinned req); cs_Archived := default (cs_Archived cs) (up_Archived req);
     cs_CreatedAt := cs_CreatedAt cs; cs_UpdatedAt := now |}.

Definition sessions_update (claims : option Claims) (id : string) (now : time) (req : option updateSessionRequest) (s : S)
    : S * Response session_data :=
  match claims with
  | None => (s, no_claims)
  | Some claims =>
      match css_GetByAccountID id (cl_AccountID claims) s with
      | Err _ => (s, session_not_found)
      | Ok cs =>
          match req with
          | None => (s, writeError StatusBadRequest "invalid request body")
          | Some req =>
              let cs := updated_session now req cs in
              match css_Update cs s with
              | (s, Some _) => (s, writeError StatusInternalServerError "failed to update session")
              | (s, None) => (s, writeJSON StatusOK (SessionData (toSessionResponse cs)))
              end
          end
      end
  end.

Definition sessions_delete (claims : option Claims) (id : string) (s : S) : S * Response session_data :=
  match claims with
  | None => (s, no_claims)
  | Some claims =>
      match css_GetByAccountID id (cl_AccountID claims) s with
      | Err _ => (s, session_not_found)
      | Ok _ =>
          match css_Delete id s with
          | (s, Some _) => (s, writeError StatusInternalServerError "failed to delete session")
          | (s, None) => (s, writeJSON StatusOK SessionDeleted)
          end
      end
  end.

(** The routes of [Handler] for sessions. *)
Inductive sessions_request :=
| SReqList (archived tenant_id : string)
| SReqCreate (agents : list string) (sessionID : string) (now : time) (req : option createSessionRequest)
| SReqGet (id : string)
| SReqUpdate (id : string) (now : time) (req : option updateSessionRequest)
| SReqDelete (id : string).

Definition sessions_handle (claims : option Claims) (r : sessions_request) (s : S) : S * Response session_data :=
  match r with
  | SReqList archived tenant_id => (s, sessions_list claims archived tenant_id s)
  | SReqCreate agents sessionID now req => sessions_create claims agents sessionID now req s
  | SReqGet id => (s, sessions_get claims id s)
  | SReqUpdate id now req => sessions_update claims id now req s
  | SReqDelete id => sessions_delete claims id s
  end.

(** *** Properties *)

Context `{!ChatSessionLaws S}.

(** What is shown of sessions is of the caller's own. *)
Definition shows_own (claims : option Claims) (s : S) (d : session_data) : Prop :=
  let own r := ∃ c cs, claims = Some c ∧ css_row (cs_ID cs) s = Some cs ∧ cs_AccountID cs = cl_AccountID c
                       ∧ r = toSessionResponse cs in
  match d with
  | SessionList l => Forall own l
  | SessionDetail r _ => own r
  | SessionData r => ∃ c cs, claims = Some c ∧ cs_AccountID cs = cl_AccountID c ∧ r = toSessionResponse cs
  | SessionDeleted => True
  end.

(** C30: Requests about sessions are confined to the caller's account: the sessions of every
    other account stay as they are, even when the new random identifier is taken, and
    nothing is shown of them. *)
Theorem sessions_are_isolated claims r s s' resp :
  sessions_handle claims r s = (s', resp) →
  (∀ i cs, css_row i s = Some cs → (∀ c, claims = Some c → cs_AccountID cs ≠ cl_AccountID c) → css_row i s' = Some cs)
  ∧ ∀ d, rs_Body resp = Data d → shows_own claims s d.
Proof.
  assert (∀ i c cs, css_GetByAccountID i (cl_AccountID c) s = Ok cs →
    cs_ID cs = i ∧ css_row (cs_ID cs) s = Some cs ∧ cs_AccountID cs = cl_AccountID c) as Hown.
  { intros i c cs [Hrow Ha]%css_by_account. pose proof (css_row_id _ _ _ Hrow) as Hid. by rewrite Hid. }
  assert (∀ c d i cs, css_row d s = Some cs → cs_AccountID cs = cl_AccountID c → claims = Some c →
    ∀ cs', css_row i s = Some cs' → (∀ c, claims = Some c → cs_AccountID cs' ≠ cl_AccountID c) → i ≠ d) as Hne.
  { intros c d i cs Hd Ha -> cs' Hi Hother ->. rewrite Hd in Hi. injection Hi as <-. by apply (Hother c). }
  destruct r as [archived tenant|agents sid now req|id|id now req|id]; cbn [sessions_handle].
  - intros [= <- <-]. split; [done|]. unfold sessions_list. destruct claims as [c|]; [|done].
    destruct (css_ListByAccount _ _ _ s) as [l|] eqn:Hl; [|done]. intros d [= <-]. apply Forall_fmap, Forall_forall.
    intros cs (Hrow & Ha & _)%(css_list _ _ _ _ _ cs Hl). by exists c, cs.
  - unfold sessions_create. destruct claims as [c|]; [|by intros [= <- <-]]. destruct req as [req|]; [|by intros [= <- <-]].
    set (cs := new_session _ _ _ _ _). intros Hcr.
    assert (s' = (css_Create cs s).1 ∧ ∀ d, rs_Body resp = Data d → d = SessionData (toSessionResponse cs)) as [-> Hd]
      by (destruct (css_Create cs s) as [? [?|]]; injection Hcr as <- <-; split; try done; by intros d [= <-]).
    split; [|intros d ->%Hd; by exists c, cs]. intros i cs' Hi _. destruct (decide (i = cs_ID cs)) as [->|Hni].
    + by rewrite css_create_taken, Hi by (rewrite Hi; done).
    + by rewrite css_create_other.
  - intros [= <- <-]. split; [done|]. unfold sessions_get. destruct claims as [c|]; [|done].
    destruct (css_GetByAccountID _ _ s) as [cs|] eqn:Hg; [|done]. intros d [= <-].
    destruct (Hown _ _ _ Hg) as (_ & Hrow & Ha). by exists c, cs.
  - unfold sessions_update. destruct claims as [c|]; [|by intros [= <- <-]].
    destruct (css_GetByAccountID _ _ s) as [cs|] eqn:Hg; [|by intros [= <- <-]]. destruct (Hown _ _ _ Hg) as (_ & Hrow & Ha).
    destruct req as [req|]; [|by intros [= <- <-]]. set (cs' := updated_session _ _ _). intros Hup.
    assert (s' = (css_Update cs' s).1 ∧ ∀ d, rs_Body resp = Data d → d = SessionData (toSessionResponse cs')) as [-> Hd]
      by (destruct (css_Update cs' s) as [? [?|]]; injection Hup as <- <-; split; try done; by intros d [= <-]).
    split; [|intros d ->%Hd; by exists c, cs']. intros i cs2 Hi Hother. rewrite css_update_other; [done|].
    by apply (Hne c (cs_ID cs) i cs Hrow Ha eq_refl cs2).
  - unfold sessions_delete. destruct claims as [c|]; [|by intros [= <- <-]].
    destruct (css_GetByAccountID _ _ s) as [cs|] eqn:Hg; [|by intros [= <- <-]]. destruct (Hown _ _ _ Hg) as (Hid & Hrow & Ha).
    intros Hdel. assert (s' = (css_Delete id s).1 ∧ ∀ d, rs_Body resp = Data d → d = SessionDeleted) as [-> Hd]
      by (destruct (css_Delete id s) as [? [?|]]; injection Hdel as <- <-; split; try done; by intros d [= <-]).
    split; [|by intros d ->%Hd]. intros i cs2 Hi Hother. rewrite css_delete_other; [done|]. rewrite <- Hid.
    by apply (Hne c (cs_ID cs) i cs Hrow Ha eq_refl cs2).
Qed.
End sessions.

(** ** ws.go *)

(** [makeOriginChecker]: the origin is empty when the header is missing. *)
Definition origin_allowed (allowed : list string) (origin : string) : bool :=
  match allowed with
  | [] => true
  | _ => str_empty origin || existsb (λ o, bool_decide (o = origin)) allowed
  end.

Record wsOutgoingMessage := { wo_Type : string; wo_Content : string; wo_Args : list (string * jany); wo_Error : option string }.

Definition ws_error (msg : string) : wsOutgoingMessage :=
  {| wo_Type := "error"; wo_Content := ""; wo_Args := []; wo_Error := Some msg |}.
Definition auth_ok : wsOutgoingMessage := {| wo_Type := "auth_ok"; wo_Content := ""; wo_Args := []; wo_Error := None |}.

(** A message as the decoder reads it; [BadMessage] is one it cannot. *)
Inductive wsIncomingMessage :=
| BadMessage
| AuthMessage (token : string)
| StopMessage (sessionID : string)
| ChatMessage (sessionID content : string)
| OtherMessage (ty : string).

Definition incoming_type (m : wsIncomingMessage) : string :=
  match m with
  | BadMessage => "" | AuthMessage _ => "auth" | StopMessage _ => "stop" | ChatMessage _ _ => "message"
  | OtherMessage ty => ty
  end.

(** The first phase: what is written, and the claims of an authenticated connection.  [token]
    is the query parameter, [first] the first message, [None] when none can be read in
    time. *)
Definition ws_authenticate `{JWT} (cfg : JWTConfig) (now : time) (token : string) (first : option wsIncomingMessage)
    : list wsOutgoingMessage * option Claims :=
  let validate tok := match ValidateToken cfg now tok with
                      | Err _ => ([ws_error "invalid token"], None)
                      | Ok claims => ([auth_ok], Some claims)
                      end in
  if negb (str_empty token) then validate token
  else match first with
       | None => ([], None)
       | Some (AuthMessage tok) =>
           if str_empty tok then ([ws_error "first message must be auth with token"], None) else validate tok
       | Some _ => ([ws_error "first message must be auth with token"], None)
       end.

Section ws.
Context {S : Type} `{ChatSessionStore S}.
(** The text of the errors of the agent loop. *)
Context (stream_text : stream_error → string) (direct_text : direct_error → string).
(** Whether a run of the agent for a message can give these events and this error. *)
Context (can_run : InboundMessage → list StreamEvent → option direct_error → Prop).

Definition forwarded (ev : StreamEvent) : wsOutgoingMessage :=
  {| wo_Type := sev_Type ev; wo_Content := sev_Content ev; wo_Args := sev_Args ev; wo_Error := stream_text <$> sev_Error ev |}.

(** A goroutine: its session, the events it still has to forward, and how its run ends;
    [EntryLeft] says that only its deferred function remains. *)
Inductive run_state := Streaming (events : list StreamEvent) (ret : option direct_error) | EntryLeft.
Record goroutine := { go_session : string; go_state : run_state }.

(** [cw_cancelled] holds the contexts that are cancelled; [cw_open] is whether the
    connection's handler still reads. *)
Record connection := {
  cw_claims : Claims; cw_cancelFuncs : gmap string nat; cw_cancelled : gset nat; cw_running : gmap nat goroutine;
  cw_next : nat; cw_out : list wsOutgoingMessage; cw_open : bool;
  (* the messages handed to the agent loop so far, for the properties *)
  cw_launched : list InboundMessage;
}.

Definition ws_start (claims : Claims) : connection :=
  {| cw_claims := claims; cw_cancelFuncs := ∅; cw_cancelled := ∅; cw_running := ∅; cw_next := 0; cw_out := [auth_ok];
     cw_open := true; cw_launched := [] |}.

(** [safeWriteJSON]; a closed connection takes nothing. *)
Definition ws_write (msg : wsOutgoingMessage) (c : connection) : connection :=
  {| cw_claims := cw_claims c; cw_cancelFuncs := cw_cancelFuncs c; cw_cancelled := cw_cancelled c;
     cw_running := cw_running c; cw_next := cw_next c;
     cw_out := if cw_open c then cw_out c ++ [msg] else cw_out c; cw_open := cw_open c; cw_launched := cw_launched c |}.

Definition set_running (m : gmap nat goroutine) (c : connection) : connection :=
  {| cw_claims := cw_claims c; cw_cancelFuncs := cw_cancelFuncs c; cw_cancelled := cw_cancelled c; cw_running := m;
     cw_next := cw_next c; cw_out := cw_out c; cw_open := cw_open c; cw_launched := cw_launched c |}.

Definition set_cancel (funcs : gmap string nat) (cancelled : gset nat) (c : connection) : connection :=
  {| cw_claims := cw_claims c; cw_cancelFuncs := funcs; cw_cancelled := cancelled; cw_running := cw_running c;
     cw_next := cw_next c; cw_out := cw_out c; cw_open := cw_open c; cw_launched := cw_launched c |}.

(** The case [stop]. *)
Definition ws_stop (sessionID : string) (c : connection) : connection :=
  match cw_cancelFuncs c !! sessionID with
  | Some n => set_cancel (delete sessionID (cw_cancelFuncs c)) ({[n]} ∪ cw_cancelled c) c
  | None => c
  end.

(** The message for the agent. *)
Definition ws_inbound (claims : Claims) (cs : ChatSession) (sessionID content : string) : InboundMessage :=
  {| in_Channel := "web";
     in_TenantID := if str_empty (cs_TenantID cs) then default "" (head (cl_Tenants claims)) else cs_TenantID cs;
     in_UserID := cl_AccountID claims; in_SenderID := ""; in_ChatID := sessionID; in_Content := content; in_Media := [];
     in_Metadata := ∅; in_SessionKey := cs_SessionKey cs; in_AgentID := cs_AgentID cs; in_Timestamp := time_zero |}.

(** The case [message] up to the start of the goroutine: an error to write, or the message
    to run. *)
Definition ws_check (claims : Claims) (sessionID content : string) (s : S) : result string InboundMessage :=
  if str_empty sessionID || str_empty content then Err "session_id and content are required"%string
  else match css_GetByAccountID sessionID (cl_AccountID claims) s with
       | Err _ => Err "session not found"%string
       | Ok cs => if str_empty (cs_AgentID cs) then Err "session has no agent assigned"%string
                  else Ok (ws_inbound claims cs sessionID content)
       end.

(** The new context replaces the entry of the session, whose old context is cancelled. *)
Definition ws_launch (sessionID : string) (inbound : InboundMessage) (events : list StreamEvent) (ret : option direct_error)
    (c : connection) : connection :=
  {| cw_claims := cw_claims c; cw_cancelFuncs := <[sessionID := cw_next c]> (cw_cancelFuncs c);
     cw_cancelled := match cw_cancelFuncs c !! sessionID with
                     | Some prev => {[prev]} ∪ cw_cancelled c
                     | None => cw_cancelled c
                     end;
     cw_running := <[cw_next c := {| go_session := sessionID; go_state := Streaming events ret |}]> (cw_running c);
     cw_next := (cw_next c + 1)%nat; cw_out := cw_out c; cw_open := cw_open c; cw_launched := cw_launched c ++ [inbound] |}.

(** The end of the reading loop: the context of the request is cancelled with all its
    children, and the connection is closed. *)
Definition ws_close (c : connection) : connection :=
  {| cw_claims := cw_claims c; cw_cancelFuncs := cw_cancelFuncs c; cw_cancelled := cw_cancelled c ∪ dom (cw_running c);
     cw_running := cw_running c; cw_next := cw_next c; cw_out := cw_out c; cw_open := false; cw_launched := cw_launched c |}.

Definition run_of (n : nat) (c : connection) (sid : string) (st : run_state) : Prop :=
  cw_running c !! n = Some {| go_session := sid; go_state := st |}.

Inductive ws_step (s : S) (c : connection) : connection → Prop :=
| step_bad : cw_open c = true → ws_step s c (ws_write (ws_error "invalid message format") c)
| step_stop sid : cw_open c = true → ws_step s c (ws_stop sid c)
| step_other m : cw_open c = true → (∃ tok, m = AuthMessage tok) ∨ (∃ ty, m = OtherMessage ty) →
    ws_step s c (ws_write (ws_error ("unknown message type: " +:+ incoming_type m)) c)
| step_refuse sid content e : cw_open c = true → ws_check (cw_claims c) sid content s = Err e →
    ws_step s c (ws_write (ws_error e) c)
| step_launch sid content inbound events ret : cw_open c = true →
    ws_check (cw_claims c) sid content s = Ok inbound → can_run inbound events ret →
    ws_step s c (ws_launch sid inbound events ret c)
| step_close : cw_open c = true → ws_step s c (ws_close c)
| step_forward n sid ev events ret : run_of n c sid (Streaming (ev :: events) ret) →
    ws_step s c (ws_write (forwarded ev)
      (set_running (<[n := {| go_session := sid; go_state := Streaming events ret |}]> (cw_running c)) c))
| step_end n sid ret : run_of n c sid (Streaming [] ret) →
    ws_step s c (let c := set_running (<[n := {| go_session := sid; go_state := EntryLeft |}]> (cw_running c)) c in
                 match ret with
                 | Some e => if decide (n ∈ cw_cancelled c) then c else ws_write (ws_error (direct_text e)) c
                 | None => c
                 end)
| step_deferred n sid : run_of n c sid EntryLeft →
    ws_step s c (set_running (delete n (cw_running c)) (set_cancel (delete sid (cw_cancelFuncs c)) (cw_cancelled c) c)).

(** *** Properties *)

(** The connections of authenticated clients, whatever becomes of the store meanwhile;
    [ok] restricts the steps considered. *)
Inductive ws_reach (ok : connection → connection → Prop) (claims : Claims) : connection → Prop :=
| reach_start : ws_reach ok claims (ws_start claims)
| reach_step s c c' : ws_reach ok claims c → ok c c' → ws_step s c c' → ws_reach ok claims c'.

Definition any_step (c c' : connection) : Prop := True.

(** A client that waits for the end of an answer before it writes to the session again. *)
Definition waits (c c' : connection) : Prop :=
  cw_next c' = cw_next c
  ∨ ∀ g, cw_running c' !! cw_next c = Some g → ∀ n g', cw_running c !! n = Some g' → go_session g' ≠ go_session g.

Context `{!ChatSessionLaws S}.

(** The claims of a connection do not change. *)
Lemma step_claims s c c' : ws_step s c c' → cw_claims c' = cw_claims c.
Proof.
  destruct 1 as [ | sid | m | sid content e | sid content inbound events ret | | n sid ev events ret | n sid ret | n sid ]; try done.
  - unfold ws_stop. by destruct (cw_cancelFuncs c !! sid).
  - destruct ret; [|done]. cbn. by destruct (decide _).
Qed.

Lemma reach_claims ok claims c : ws_reach ok claims c → cw_claims c = claims.
Proof. induction 1 as [|s c c' _ IH _ Hstep]; [done|]. by rewrite (step_claims _ _ _ Hstep). Qed.

(** A step that starts no goroutine. *)
Definition starts_nothing (c c' : connection) : Prop := cw_launched c' = cw_launched c ∧ dom (cw_running c') ⊆ dom (cw_running c).

Lemma update_starts_nothing n sid st st' c :
  run_of n c sid st → starts_nothing c (set_running (<[n := {| go_session := sid; go_state := st' |}]> (cw_running c)) c).
Proof.
  intros Hn. split; [done|]. cbn. rewrite dom_insert. assert (n ∈ dom (cw_running c)) by (apply elem_of_dom; by eexists). set_solver.
Qed.

(** C18: On a connection that was authenticated for an account, each step either starts no
    agent, or it starts one, for a message that is in the name of the account and whose
    session, agent and conversation are those of a row that the session store has at this
    step, under the identifier of the message, and that belongs to the account; the tenant
    is that of the row, or, where the row has none, the first of the account. *)
Theorem chat_is_the_accounts ok claims c s c' :
  ws_reach ok claims c → ws_step s c c' →
  starts_nothing c c'
  ∨ ∃ m cs events ret,
      cw_launched c' = cw_launched c ++ [m] ∧ can_run m events ret
      ∧ cw_running c' = <[cw_next c := {| go_session := in_ChatID m; go_state := Streaming events ret |}]> (cw_running c)
      ∧ css_row (in_ChatID m) s = Some cs ∧ cs_AccountID cs = cl_AccountID claims
      ∧ in_UserID m = cl_AccountID claims ∧ in_SessionKey m = cs_SessionKey cs
      ∧ in_AgentID m = cs_AgentID cs ∧ cs_AgentID cs ≠ ""%string
      ∧ (cs_TenantID cs ≠ ""%string → in_TenantID m = cs_TenantID cs)
      ∧ (cs_TenantID cs = ""%string → in_TenantID m = default ""%string (head (cl_Tenants claims))).
Proof.
  intros Hr%reach_claims Hstep.
  destruct Hstep as [ | sid | m | sid content e | sid content inbound events ret _ Hchk Hrun | | n sid ev events ret Hn | n sid ret Hn | n sid Hn ];
    try (left; by split).
  - left. unfold ws_stop. by destruct (cw_cancelFuncs c !! sid).
  - right. rewrite Hr in Hchk. unfold ws_check in Hchk. destruct (_ || _); [done|].
    destruct (css_GetByAccountID sid _ s) as [cs|] eqn:Hg; [|done]. apply css_by_account in Hg as [Hrow Hacc].
    destruct (str_empty (cs_AgentID cs)) eqn:Hag; [done|]. injection Hchk as <-. apply bool_decide_eq_false in Hag.
    exists (ws_inbound claims cs sid content), cs, events, ret. unfold ws_inbound, str_empty. cbn.
    split_and!; try done; intros Ht; [by rewrite bool_decide_false|by rewrite bool_decide_true].
  - left. destruct (update_starts_nothing n sid _ (Streaming events ret) c Hn) as [Hl Hd]. by split.
  - left. pose proof (update_starts_nothing n sid _ EntryLeft c Hn) as Hno. destruct ret as [e|]; [|done]. cbn.
    destruct (decide _); [done|]. destruct Hno as [Hl Hd]. by split.
  - left. split; [done|]. cbn. rewrite dom_delete. set_solver.
Qed.

(** *** Stopping *)

(** The entries name running goroutines of their sessions, and a goroutine whose context
    is good has the entry of its session; no two run for one session. *)
Definition entries_ok (c : connection) : Prop :=
  (∀ n g, cw_running c !! n = Some g → (n < cw_next c)%nat
     ∧ (n ∈ cw_cancelled c ∨ cw_cancelFuncs c !! go_session g = Some n))
  ∧ (∀ n m g h, cw_running c !! n = Some g → cw_running c !! m = Some h → go_session g = go_session h → n = m).

Lemma entries_write msg c : entries_ok c → entries_ok (ws_write msg c).
Proof. done. Qed.

(** Moving a goroutine on keeps its session. *)
Lemma entries_update n sid st st' c :
  run_of n c sid st → entries_ok c → entries_ok (set_running (<[n := {| go_session := sid; go_state := st' |}]> (cw_running c)) c).
Proof.
  intros Hn [Hent Huniq].
  assert (∀ k g, <[n := {| go_session := sid; go_state := st' |}]> (cw_running c) !! k = Some g →
    ∃ g0, cw_running c !! k = Some g0 ∧ go_session g0 = go_session g) as Hold.
  { intros k g [[<- <-]|[_ Hk]]%lookup_insert_Some; [by eexists|by exists g]. }
  split.
  - intros k g Hk. destruct (Hold k g Hk) as (g0 & Hg0 & <-). by apply Hent.
  - intros k m g h Hk Hm Heq. destruct (Hold k g Hk) as (g0 & Hg0 & Hs), (Hold m h Hm) as (h0 & Hh0 & Hs').
    apply (Huniq _ _ _ _ Hg0 Hh0). congruence.
Qed.

Lemma entries_inv claims c : ws_reach waits claims c → entries_ok c.
Proof.
  induction 1 as [|s c c' _ IH Hwait Hstep].
  { split; [intros n g Hg|intros n m g h Hg]; cbn in Hg; by rewrite lookup_empty in Hg. }
  destruct Hstep as [ | sid | m | sid content e | sid content inbound events ret | | n sid ev events ret Hn | n sid ret Hn | n sid Hn ];
    try (by apply entries_write).
  - unfold ws_stop. destruct (cw_cancelFuncs c !! sid) as [k|] eqn:Hk; [|done]. destruct IH as [Hent Huniq]. split; [|done].
    intros n g Hg. destruct (Hent n g Hg) as [Hlt [Hcan|Hfun]]; (split; [done|]); [left; cbn; set_solver|].
    destruct (decide (go_session g = sid)) as [<-|Hne]; [left; cbn; set_solver|right; cbn; by rewrite lookup_delete_ne].
  - destruct IH as [Hent Huniq]. destruct Hwait as [Hnext|Hwait]; [cbn in Hnext; lia|].
    specialize (Hwait {| go_session := sid; go_state := Streaming events ret |}). cbn in Hwait.
    rewrite lookup_insert, decide_True in Hwait by done. specialize (Hwait eq_refl). split.
    + intros n g. cbn [ws_launch cw_running]. intros [[<- <-]|[Hne Hg]]%lookup_insert_Some; cbn.
      * split; [lia|right]. by rewrite lookup_insert, decide_True.
      * destruct (Hent n g Hg) as [Hlt Hor]. split; [lia|]. specialize (Hwait n g Hg). cbn in Hwait.
        rewrite lookup_insert_ne by done. destruct Hor as [?|?]; [left|by right]. by destruct (cw_cancelFuncs c !! sid); [apply elem_of_union_r|].
    + intros n m g h. cbn [ws_launch cw_running]. intros [[<- <-]|[_ Hg]]%lookup_insert_Some [[<- <-]|[_ Hh]]%lookup_insert_Some; [done| | |by apply (Huniq n m g h)]; cbn;
        [intros Heq; by destruct (Hwait m h Hh)|intros Heq; by destruct (Hwait n g Hg)].
  - destruct IH as [Hent Huniq]. split; [|done]. intros n g Hg. destruct (Hent n g Hg) as [Hlt _]. split; [done|].
    left. cbn. apply elem_of_union_r, elem_of_dom. by exists g.
  - apply entries_write. by eapply entries_update.
  - pose proof (entries_update _ _ _ EntryLeft _ Hn IH). destruct ret as [e|]; [|done]. cbn. by destruct (decide _).
  - destruct IH as [Hent Huniq]. split.
    + intros k g. cbn [set_running cw_running]. intros [Hne Hg]%lookup_delete_Some. destruct (Hent k g Hg) as [Hlt Hor]. split; [done|]. cbn.
      destruct (decide (go_session g = sid)) as [Heq|Hs]; [|by rewrite lookup_delete_ne].
      destruct Hne. exact (Huniq _ _ _ _ Hn Hg (eq_sym Heq)).
    + intros k m g h. cbn [set_running cw_running]. intros [_ Hg]%lookup_delete_Some [_ Hh]%lookup_delete_Some. by apply (Huniq k m g h).
Qed.

(** A client that waits for the end of an answer before it writes to the session again can
    always stop the agent: stopping the session cancels its run. *)
Theorem stop_cancels claims c n sid st :
  ws_reach waits claims c → run_of n c sid st → n ∈ cw_cancelled (ws_stop sid c).
Proof.
  intros [Hent _]%entries_inv Hn. destruct (Hent _ _ Hn) as [_ [Hcan|Hfun]]; unfold ws_stop.
  - destruct (cw_cancelFuncs c !! sid); cbn; set_solver.
  - cbn in Hfun. rewrite Hfun. cbn. set_solver.
Qed.

(** Without waiting this is lost: when the first of two runs of a session ends, it removes
    the entry of the second, and stopping the session does nothing although the second
    run goes on, not cancelled. *)
Theorem stop_misses_second_run claims s sid content inbound events ret :
  ws_check claims sid content s = Ok inbound → can_run inbound [] None → can_run inbound events ret →
  ∃ c n, ws_reach any_step claims c ∧ run_of n c sid (Streaming events ret) ∧ (n ∉ cw_cancelled c) ∧ ws_stop sid c = c.
Proof.
  intros Hchk Hempty Hrun.
  set (c1 := ws_launch sid inbound [] None (ws_start claims)). set (c2 := ws_launch sid inbound events ret c1).
  set (c3 := set_running (<[0%nat := {| go_session := sid; go_state := EntryLeft |}]> (cw_running c2)) c2).
  set (c4 := set_running (delete 0%nat (cw_running c3)) (set_cancel (delete sid (cw_cancelFuncs c3)) (cw_cancelled c3) c3)).
  assert (run_of 0 c2 sid (Streaming [] None)) as H0'.
  { unfold run_of. cbn. by rewrite lookup_insert_ne, lookup_insert, decide_True. }
  exists c4, 1%nat. split; [|split; [|split]].
  - eapply (reach_step _ _ s c3); [|done|apply step_deferred; unfold run_of; cbn; by rewrite lookup_insert, decide_True].
    eapply (reach_step _ _ s c2); [|done|exact (step_end s c2 0 sid None H0')].
    eapply (reach_step _ _ s c1); [|done|by eapply step_launch].
    eapply (reach_step _ _ s (ws_start claims)); [constructor|done|by eapply step_launch].
  - unfold run_of. cbn. rewrite lookup_delete_ne by done. rewrite lookup_insert_ne by done.
    by rewrite lookup_insert, decide_True.
  - cbn. rewrite lookup_insert, decide_True by done. set_solver.
  - unfold ws_stop. cbn. by rewrite lookup_delete, decide_True.
Qed.

(** A run that ends in an error forwards its own error event, and then the connection
    writes the error again. *)
Lemma told_twice s c n sid events e :
  run_of n c sid (Streaming events (Some e)) → n ∉ cw_cancelled c → cw_open c = true → well_ended events (Some e) →
  ∃ c' pre why, rtc (ws_step s) c c' ∧ run_of n c' sid EntryLeft
    ∧ cw_out c' = cw_out c ++ pre ++ [forwarded (error_event why); ws_error (direct_text e)].
Proof.
  intros Hn Hcan Hopen (pre & why & -> & _).
  cut (∃ c', rtc (ws_step s) c c' ∧ run_of n c' sid EntryLeft
    ∧ cw_out c' = cw_out c ++ (forwarded <$> (pre ++ [error_event why])) ++ [ws_error (direct_text e)]).
  { intros (c' & Hr & Hn' & Hout). exists c', (forwarded <$> pre), why. split; [done|]. split; [done|].
    by rewrite Hout, fmap_app, <- !app_assoc. }
  revert c Hn Hcan Hopen. generalize (pre ++ [error_event why]) as evs. intros evs.
  induction evs as [|ev evs IH]; intros c Hn Hcan Hopen.
  - eexists. split; [apply rtc_once, (step_end s c n sid (Some e) Hn)|]. cbn. rewrite decide_False by done. split.
    + unfold run_of. cbn. by rewrite lookup_insert, decide_True.
    + cbn. by rewrite Hopen.
  - pose proof (step_forward s c n sid ev evs (Some e) Hn) as Hstep. set (c1 := ws_write _ _) in Hstep.
    destruct (IH c1) as (c' & Hr & Hn' & Hout); [|done|done|].
    { unfold run_of, c1. cbn. by rewrite lookup_insert, decide_True. }
    exists c'. split; [by eapply rtc_l|]. split; [done|]. rewrite Hout, fmap_cons. unfold c1. cbn. rewrite Hopen, <- app_assoc. done.
Qed.

(** An error is told twice: when the agent's run for a message ends in an error, whatever
    the reason, the client is sent the error as the last event of the run and then once
    more. *)
Theorem errors_are_told_twice `{UnicodeCase} {SS Runner : Type} `{SessionLaws SS}
    (Run : Runner → string → string → Content → SS → SS * list (result goerror (option RunEvent)) * bool)
    range function_call al order order2 msg ss ss' errs s c n sid events e :
  run_own Run → run_calm Run → ProcessDirectStream Run range function_call al order order2 msg ss = Some (ss', events, Some e, errs) →
  run_of n c sid (Streaming events (Some e)) → n ∉ cw_cancelled c → cw_open c = true →
  ∃ c' pre why, rtc (ws_step s) c c' ∧ run_of n c' sid EntryLeft
    ∧ cw_out c' = cw_out c ++ pre ++ [forwarded (error_event why); ws_error (direct_text e)].
Proof.
  intros Hown Hcalm Hrun Hn Hcan Hopen.
  destruct (stream_outcome Run range function_call al order order2 msg ss Hown Hcalm) as (s2 & out & ret & errs2 & Hr & Hw & _).
  rewrite Hrun in Hr. injection Hr as <- <- <- <-. by eapply told_twice.
Qed.
End ws.

(** ** Witnesses *)

#[local] Existing Instance stable_sort.
#[local] Existing Instance mysql_session_laws.

Definition w_session (id account : string) : ChatSession :=
  {| cs_ID := id; cs_TenantID := "t"; cs_AccountID := account; cs_AgentID := "a"; cs_Title := "x"; cs_SessionKey := "k";
     cs_Pinned := false; cs_Archived := false; cs_CreatedAt := 1; cs_UpdatedAt := 1 |}.
Definition w_caller (account : string) : Claims :=
  {| cl_AccountID := account; cl_Role := "user"; cl_Tenants := ["t"%string]; cl_ExpiresAt := 0; cl_IssuedAt := 0; cl_Issuer := "" |}.
Definition w_tables : tables :=
  {| tb_accounts := ∅; tb_links := ∅; tb_sessions := {["s1" := w_session "s1" "alice"; "s2" := w_session "s2" "bob"]};
     tb_tenants := ∅; tb_docs := ∅; tb_user_docs := ∅ |}.
Definition w_sessions : db := {| db_tables := w_tables; db_now := 5; db_ok := bool_decide_unpack (constraints w_tables) I |}.
Definition w_sessions_handle (account : string) (r : sessions_request) : db * Response session_data :=
  sessions_handle (H := mysql_sessions no_fault) (Some (w_caller account)) r w_sessions.

(** Bob cannot delete Alice's session. *)
Lemma sessions_are_isolated_witness :
  rs_Status (w_sessions_handle "bob" (SReqDelete "s1")).2 = StatusNotFound
  ∧ css_row (ChatSessionStore := mysql_sessions no_fault) "s1" (w_sessions_handle "bob" (SReqDelete "s1")).1
    = Some (w_session "s1" "alice").
Proof.
  split; [vm_compute; reflexivity|].
  destruct (sessions_are_isolated (H := mysql_sessions no_fault) (Some (w_caller "bob")) (SReqDelete "s1") w_sessions _ _
    (surjective_pairing (w_sessions_handle "bob" (SReqDelete "s1")))) as [Hkept _].
  apply Hkept; [vm_compute; reflexivity|]. intros c [= <-]. discriminate.
Defined.

Definition w_texts (e : stream_error) : string := "stream".
Definition w_direct_texts (e : direct_error) : string := "direct".
Definition w_can_run (m : InboundMessage) (evs : list StreamEvent) (ret : option direct_error) : Prop := True.
Definition w_claims_bob : Claims := w_caller "bob".
Definition w_inbound_bob : InboundMessage := ws_inbound w_claims_bob (w_session "s2" "bob") "s2" "hello".
Definition w_launched : connection := ws_launch "s2" w_inbound_bob [text_delta "hi"] None (ws_start w_claims_bob).

Lemma w_check : ws_check (H := mysql_sessions no_fault) w_claims_bob "s2" "hello" w_sessions = Ok w_inbound_bob.
Proof. reflexivity. Qed.

Lemma w_launch_step : ws_step (H := mysql_sessions no_fault) w_texts w_direct_texts w_can_run w_sessions (ws_start w_claims_bob) w_launched.
Proof.
  refine (step_launch _ _ _ w_sessions (ws_start w_claims_bob) "s2" "hello" w_inbound_bob [text_delta "hi"] None _ w_check I).
  reflexivity.
Qed.

Lemma w_reach ok : ok (ws_start w_claims_bob) w_launched →
  ws_reach (H := mysql_sessions no_fault) w_texts w_direct_texts w_can_run ok w_claims_bob w_launched.
Proof. intros Hok. by eapply reach_step; [constructor|exact Hok|apply w_launch_step]. Qed.

Lemma chat_is_the_accounts_witness :
  ∃ m cs, cw_launched w_launched = [m] ∧ css_row (ChatSessionStore := mysql_sessions no_fault) (in_ChatID m) w_sessions = Some cs
    ∧ cs_AccountID cs = "bob"%string ∧ in_TenantID m = "t"%string ∧ in_UserID m = "bob"%string.
Proof.
  destruct (chat_is_the_accounts (H := mysql_sessions no_fault) w_texts w_direct_texts w_can_run any_step w_claims_bob (ws_start w_claims_bob)
    w_sessions w_launched ltac:(constructor) w_launch_step) as [[Hno _]|(m & cs & evs & ret & Hl & _ & _ & Hrow & Hacc & Hu & _ & _ & _ & Ht & _)].
  - discriminate Hno.
  - exists m, cs. split; [exact Hl|]. injection Hl as <-. split; [exact Hrow|]. split; [exact Hacc|]. split; [|exact Hu].
    assert (Some cs = Some (w_session "s2" "bob")) as [= ->] by (etrans; [symmetry; exact Hrow|vm_compute; reflexivity]). apply Ht. discriminate.
Defined.

Lemma stop_cancels_witness : 0%nat ∈ cw_cancelled (ws_stop "s2" w_launched).
Proof.
  apply (stop_cancels (H := mysql_sessions no_fault) w_texts w_direct_texts w_can_run w_claims_bob w_launched 0%nat "s2"
    (Streaming [text_delta "hi"] None)); [|reflexivity].
  apply w_reach. right. intros g _ n g' Hn. cbn in Hn. by rewrite lookup_empty in Hn.
Defined.

Lemma stop_misses_second_run_witness :
  ∃ c n, run_of n c "s2" (Streaming [text_delta "hi"] None) ∧ ws_stop "s2" c = c.
Proof.
  destruct (stop_misses_second_run (H := mysql_sessions no_fault) w_texts w_direct_texts w_can_run w_claims_bob w_sessions
    "s2" "hello" w_inbound_bob [text_delta "hi"] None w_check I I) as (c & n & _ & Hn & _ & Hs).
  exists c, n. split; [exact Hn|exact Hs].
Defined.

(** The agent [x] has no runner: its run ends in an error, told twice. *)
Definition w_failing : InboundMessage :=
  {| in_Channel := "web"; in_TenantID := "t"; in_UserID := "bob"; in_SenderID := ""; in_ChatID := "s2"; in_Content := "hello";
     in_Media := []; in_Metadata := ∅; in_SessionKey := "k"; in_AgentID := "x"; in_Timestamp := time_zero |}.
Definition w_failed_events : list StreamEvent := [error_event (SErrLoop (ErrNoRunner "x"))].
Definition w_failed : connection :=
  ws_launch "s2" w_failing w_failed_events (Some (DErrLoop (ErrNoRunner "x"))) (ws_start w_claims_bob).

Lemma errors_are_told_twice_witness :
  ∃ c' pre why, rtc (ws_step (H := mysql_sessions no_fault) w_texts w_direct_texts w_can_run w_sessions) w_failed c'
    ∧ cw_out c' = cw_out w_failed ++ pre ++ [forwarded w_texts (error_event why); ws_error "direct"].
Proof.
  destruct (errors_are_told_twice (H := mysql_sessions no_fault) w_texts w_direct_texts w_can_run (H0 := bytewise_case)
    w_calm map_to_list (λ _, None) (w_loop 0) ["a"%string] ["a"%string] w_failing w_empty w_empty [] w_sessions w_failed 0%nat "s2"
    w_failed_events (DErrLoop (ErrNoRunner "x")) w_calm_own w_calm_calm) as (c' & pre & why & Hr & _ & Hout).
  - reflexivity.
  - reflexivity.
  - apply not_elem_of_empty.
  - reflexivity.
  - exists c', pre, why. split; [exact Hr|exact Hout].
Defined.
