(* ===== verification/Encryption.v ===== *)
(** [pkg/security/encryption.go]: the encryption of API keys, with base64 of the standard
    library written out.

    AES-GCM is a class: [gcm_seal] and [gcm_open] take a key of 32 bytes and a nonce of
    [gcm.NonceSize()] bytes.  The random nonce is an argument; [None] means that reading
    it failed. *)
From S2P Require Import Prelude GoStrings Types.

(** ** base64.StdEncoding *)

Definition b64_table : bytes := s2l "ABCDEFGHIJKLMNOPQRSTUVWXYZabcdefghijklmnopqrstuvwxyz0123456789+/".
Definition b64_char (n : Z) : ascii := nth (Z.to_nat n) b64_table "A"%char.

Fixpoint index_of (c : ascii) (l : bytes) (i : Z) : option Z :=
  match l with [] => None | d :: l => if Ascii.eqb c d then Some i else index_of c l (i + 1) end.
Definition b64_val (c : ascii) : option Z := index_of c b64_table 0.

Definition byte_of (z : Z) : ascii := ascii_of_N (Z.to_N z).

(** Three bytes are four digits; the last group is padded. *)
Fixpoint b64_encode (l : bytes) : bytes :=
  match l with
  | a :: b :: c :: l =>
      let n := byte_val a * 65536 + byte_val b * 256 + byte_val c in
      b64_char (n / 262144) :: b64_char ((n / 4096) `mod` 64) :: b64_char ((n / 64) `mod` 64) :: b64_char (n `mod` 64)
      :: b64_encode l
  | [a; b] =>
      let n := byte_val a * 65536 + byte_val b * 256 in
      [b64_char (n / 262144); b64_char ((n / 4096) `mod` 64); b64_char ((n / 64) `mod` 64); "="%char]
  | [a] =>
      let n := byte_val a * 65536 in
      [b64_char (n / 262144); b64_char ((n / 4096) `mod` 64); "="%char; "="%char]
  | [] => []
  end.

(** Line breaks are skipped; unused bits of the last group are ignored. *)
Definition not_newline (c : ascii) : bool := negb (Ascii.eqb c "010" || Ascii.eqb c "013").

Fixpoint b64_groups (l : bytes) : option bytes :=
  match l with
  | [] => Some []
  | [a; b; c; d] =>
      x ← b64_val a; y ← b64_val b;
      if Ascii.eqb c "=" && Ascii.eqb d "=" then Some [byte_of ((x * 64 + y) / 16)]
      else
        z ← b64_val c;
        if Ascii.eqb d "=" then
          let n := (x * 64 + y) * 64 + z in Some [byte_of (n / 1024); byte_of ((n / 4) `mod` 256)]
        else
          w ← b64_val d;
          let n := ((x * 64 + y) * 64 + z) * 64 + w in
          Some [byte_of (n / 65536); byte_of ((n / 256) `mod` 256); byte_of (n `mod` 256)]
  | a :: b :: c :: d :: l =>
      x ← b64_val a; y ← b64_val b; z ← b64_val c; w ← b64_val d;
      rest ← b64_groups l;
      let n := ((x * 64 + y) * 64 + z) * 64 + w in
      Some (byte_of (n / 65536) :: byte_of ((n / 256) `mod` 256) :: byte_of (n `mod` 256) :: rest)
  | _ => None
  end.

Definition EncodeToString (s : string) : string := l2s (b64_encode (s2l s)).
Definition DecodeString (s : string) : option string := l2s <$> b64_groups (List.filter not_newline (s2l s)).

(** *** The round trip *)

Definition b64_digit_ok (n : Z) : bool :=
  bool_decide (b64_val (b64_char n) = Some n) && not_newline (b64_char n) && negb (Ascii.eqb (b64_char n) "=").

Lemma b64_char_val n :
  0 ≤ n < 64 →
  b64_val (b64_char n) = Some n ∧ not_newline (b64_char n) = true ∧ Ascii.eqb (b64_char n) "=" = false.
Proof.
  intros Hn.
  assert (forallb b64_digit_ok (seqZ 0 64) = true) as Hall by (vm_compute; reflexivity).
  rewrite forallb_forall in Hall. specialize (Hall n). unfold b64_digit_ok in Hall.
  rewrite !andb_true_iff, negb_true_iff, bool_decide_eq_true in Hall.
  destruct Hall as [[??]?]; [|done]. apply list_elem_of_In, elem_of_seqZ. lia.
Qed.

Lemma byte_val_range c : 0 ≤ byte_val c < 256.
Proof. unfold byte_val. pose proof (N_ascii_bounded c). lia. Qed.

Lemma byte_of_val c : byte_of (byte_val c) = c.
Proof. unfold byte_of, byte_val. by rewrite N2Z.id, ascii_N_embedding. Qed.

(** The digits of a number below 2^24. *)
Lemma sextets_value n :
  0 ≤ n < 16777216 →
  0 ≤ n / 262144 < 64 ∧ 0 ≤ (n / 4096) `mod` 64 < 64 ∧ 0 ≤ (n / 64) `mod` 64 < 64 ∧ 0 ≤ n `mod` 64 < 64
  ∧ n / 262144 * 64 + (n / 4096) `mod` 64 = n / 4096 ∧ n / 4096 * 64 + (n / 64) `mod` 64 = n / 64
  ∧ n / 64 * 64 + n `mod` 64 = n.
Proof.
  intros Hn.
  assert (n / 262144 = n / 64 / 64 / 64) as -> by (rewrite !Z.div_div by lia; f_equal; lia).
  assert (n / 4096 = n / 64 / 64) as -> by (rewrite Z.div_div by lia; f_equal; lia).
  pose proof (Z.div_mod n 64 ltac:(lia)). pose proof (Z.div_mod (n / 64) 64 ltac:(lia)).
  pose proof (Z.div_mod (n / 64 / 64) 64 ltac:(lia)).
  pose proof (Z.mod_pos_bound n 64 ltac:(lia)). pose proof (Z.mod_pos_bound (n / 64) 64 ltac:(lia)).
  pose proof (Z.mod_pos_bound (n / 64 / 64) 64 ltac:(lia)). lia.
Qed.

(** The three bytes of such a number. *)
Lemma three_bytes a b c (n := byte_val a * 65536 + byte_val b * 256 + byte_val c) :
  0 ≤ n < 16777216 ∧ byte_of (n / 65536) = a ∧ byte_of ((n / 256) `mod` 256) = b ∧ byte_of (n `mod` 256) = c.
Proof.
  pose proof (byte_val_range a). pose proof (byte_val_range b). pose proof (byte_val_range c).
  assert (n / 65536 = byte_val a) as -> by (symmetry; apply (Z.div_unique n 65536 _ (byte_val b * 256 + byte_val c)); lia).
  assert (n / 256 = byte_val a * 256 + byte_val b) as -> by (symmetry; apply (Z.div_unique n 256 _ (byte_val c)); lia).
  assert ((byte_val a * 256 + byte_val b) `mod` 256 = byte_val b) as ->
    by (symmetry; apply (Z.mod_unique _ 256 (byte_val a)); lia).
  assert (n `mod` 256 = byte_val c) as -> by (symmetry; apply (Z.mod_unique n 256 (byte_val a * 256 + byte_val b)); lia).
  rewrite !byte_of_val. split; [lia|done].
Qed.

(** Four digits of a number below 2^24 are read back, whatever follows. *)
Lemma group_read n l :
  0 ≤ n < 16777216 →
  b64_groups (b64_char (n / 262144) :: b64_char ((n / 4096) `mod` 64) :: b64_char ((n / 64) `mod` 64)
              :: b64_char (n `mod` 64) :: l)
  = (λ rest, byte_of (n / 65536) :: byte_of ((n / 256) `mod` 256) :: byte_of (n `mod` 256) :: rest) <$> b64_groups l.
Proof.
  intros Hn. pose proof (sextets_value n Hn) as (H1 & H2 & H3 & H4 & V2 & V3 & V4).
  pose proof (b64_char_val _ H1) as (E1 & _ & _). pose proof (b64_char_val _ H2) as (E2 & _ & _).
  pose proof (b64_char_val _ H3) as (E3 & _ & F3). pose proof (b64_char_val _ H4) as (E4 & _ & F4).
  destruct l as [|x l]; cbn [b64_groups]; rewrite E1, E2, E3, E4; cbn [mbind option_bind]; [by rewrite F3, F4, V2, V3, V4|].
  rewrite V2, V3, V4. by destruct (b64_groups (x :: l)).
Qed.

Lemma encoded_read l : b64_groups (b64_encode l) = Some l.
Proof.
  induction l as [l IH] using (induction_ltof1 _ (@length ascii)). unfold ltof in IH.
  destruct l as [|a [|b [|c l]]]; [done|..]; cbn [b64_encode].
  - pose proof (three_bytes a "000" "000") as (Hn & Ha & _ & _). change (byte_val "000") with 0 in Hn, Ha.
    rewrite Z.mul_0_l, !Z.add_0_r in Hn, Ha. set (n := byte_val a * 65536) in *.
    pose proof (sextets_value n Hn) as (H1 & H2 & _ & _ & V2 & _ & _).
    pose proof (b64_char_val _ H1) as (E1 & _ & _). pose proof (b64_char_val _ H2) as (E2 & _ & _).
    cbn [b64_groups]. rewrite E1, E2. cbn. rewrite V2, Z.div_div by lia. by change (4096 * 16) with 65536; rewrite Ha.
  - pose proof (three_bytes a b "000") as (Hn & Ha & Hb & _). change (byte_val "000") with 0 in Hn, Ha, Hb.
    rewrite Z.add_0_r in Hn, Ha, Hb. set (n := byte_val a * 65536 + byte_val b * 256) in *.
    pose proof (sextets_value n Hn) as (H1 & H2 & H3 & _ & V2 & V3 & _).
    pose proof (b64_char_val _ H1) as (E1 & _ & _). pose proof (b64_char_val _ H2) as (E2 & _ & _).
    pose proof (b64_char_val _ H3) as (E3 & _ & F3).
    cbn [b64_groups]. rewrite E1, E2, E3, F3. cbn. rewrite V2, V3, !Z.div_div by lia.
    by change (64 * 1024) with 65536; change (64 * 4) with 256; rewrite Ha, Hb.
  - pose proof (three_bytes a b c) as (Hn & Ha & Hb & Hc). rewrite group_read, IH by (done || cbn; lia).
    cbn [fmap option_fmap option_map]. by rewrite Ha, Hb, Hc.
Qed.

Lemma encoded_filter l : List.filter not_newline (b64_encode l) = b64_encode l.
Proof.
  induction l as [l IH] using (induction_ltof1 _ (@length ascii)). unfold ltof in IH.
  destruct l as [|a [|b [|c l]]]; [done|..]; cbn [b64_encode List.filter].
  - pose proof (three_bytes a "000" "000") as (Hn & _). change (byte_val "000") with 0 in Hn.
    rewrite Z.mul_0_l, !Z.add_0_r in Hn. pose proof (sextets_value _ Hn) as (H1 & H2 & _).
    by rewrite (proj1 (proj2 (b64_char_val _ H1))), (proj1 (proj2 (b64_char_val _ H2))).
  - pose proof (three_bytes a b "000") as (Hn & _). change (byte_val "000") with 0 in Hn.
    rewrite Z.add_0_r in Hn. pose proof (sextets_value _ Hn) as (H1 & H2 & H3 & _).
    by rewrite (proj1 (proj2 (b64_char_val _ H1))), (proj1 (proj2 (b64_char_val _ H2))), (proj1 (proj2 (b64_char_val _ H3))).
  - pose proof (three_bytes a b c) as (Hn & _). pose proof (sextets_value _ Hn) as (H1 & H2 & H3 & H4 & _).
    rewrite (proj1 (proj2 (b64_char_val _ H1))), (proj1 (proj2 (b64_char_val _ H2))), (proj1 (proj2 (b64_char_val _ H3))),
      (proj1 (proj2 (b64_char_val _ H4))), IH by (cbn; lia). done.
Qed.

Lemma DecodeString_EncodeToString s : DecodeString (EncodeToString s) = Some s.
Proof. unfold DecodeString, EncodeToString. by rewrite s2l_l2s, encoded_filter, encoded_read; cbn; rewrite l2s_s2l. Qed.

(** ** AES-GCM *)

Class Gcm := {
  gcm_seal : string → string → string → string;  (* key, nonce, plaintext *)
  gcm_open : string → string → string → option string;  (* key, nonce, ciphertext *)
}.

Definition NonceSize : nat := 12.

Class GcmLaws `{Gcm} := {
  gcm_open_seal key nonce p : gcm_open key nonce (gcm_seal key nonce p) = Some p;
  (* a box is only opened with what was sealed under the key and the nonce *)
  gcm_authentic key nonce c p : gcm_open key nonce c = Some p → c = gcm_seal key nonce p;
}.

(** A cipher is always made of 32 bytes and a box of a cipher of 16-byte blocks, so the
    errors of [aes.NewCipher] and [cipher.NewGCM] do not occur. *)
Definition secret_key (secret : string) : string := l2s (take 32 (s2l secret)).

Definition EncryptAPIKey `{Gcm} (key secret : string) (nonce : option string) : result goerror string :=
  if str_empty key then Ok ""
  else if (str_len secret <? 32)%nat then Err (ErrText "encryption secret must be at least 32 bytes")
  else
    match nonce with
    | None => Err (ErrText "generate nonce")
    | Some nonce => Ok (EncodeToString (nonce +:+ gcm_seal (secret_key secret) nonce key))
    end.

Definition DecryptAPIKey `{Gcm} (encrypted secret : string) : result goerror string :=
  if str_empty encrypted then Ok ""
  else if (str_len secret <? 32)%nat then Err (ErrText "encryption secret must be at least 32 bytes")
  else
    match DecodeString encrypted with
    | None => Err (ErrText "decode base64")
    | Some ciphertext =>
        if (str_len ciphertext <? NonceSize)%nat then Err (ErrText "ciphertext too short")
        else
          match gcm_open (secret_key secret) (l2s (take NonceSize (s2l ciphertext))) (l2s (drop NonceSize (s2l ciphertext))) with
          | None => Err (ErrText "decrypt")
          | Some plaintext => Ok plaintext
          end
    end.

(** An encryption starts with its nonce, so it is not empty. *)
Lemma encoding_not_empty s : str_len s ≠ 0%nat → str_empty (EncodeToString s) = false.
Proof.
  intros Hs. unfold str_empty. apply bool_decide_eq_false. intros E.
  pose proof (DecodeString_EncodeToString s) as D. rewrite E in D. cbn in D. by simplify_eq.
Qed.

Lemma decrypt_boxed `{Gcm} secret nonce box :
  (32 ≤ str_len secret)%nat → str_len nonce = NonceSize →
  DecryptAPIKey (EncodeToString (nonce +:+ box)) secret
  = match gcm_open (secret_key secret) nonce box with None => Err (ErrText "decrypt") | Some p => Ok p end.
Proof.
  intros Hs Hn. unfold DecryptAPIKey, str_len in *. rewrite DecodeString_EncodeToString, encoding_not_empty, s2l_app, length_app.
  2: { unfold str_len. rewrite s2l_app, length_app, Hn. discriminate. }
  rewrite (proj2 (Nat.ltb_ge _ _)) by lia. rewrite (proj2 (Nat.ltb_ge _ _)) by lia.
  by rewrite take_app_length', drop_app_length', !l2s_s2l.
Qed.

Lemma encrypts `{Gcm} key secret nonce :
  (32 ≤ str_len secret)%nat → ∃ stored, EncryptAPIKey key secret (Some nonce) = Ok stored.
Proof.
  intros Hs. unfold EncryptAPIKey. destruct (str_empty key); [by eexists|]. rewrite (proj2 (Nat.ltb_ge _ _)) by done. by eexists.
Qed.

(** A text decrypts to the key it encrypts, and it is empty when the key is. *)
Lemma decrypts `{GcmLaws} key secret nonce stored :
  str_len nonce = NonceSize → (32 ≤ str_len secret)%nat → EncryptAPIKey key secret (Some nonce) = Ok stored →
  (stored = "" ↔ key = "")
  ∧ ∀ secret', (32 ≤ str_len secret')%nat → secret_key secret' = secret_key secret → DecryptAPIKey stored secret' = Ok key.
Proof.
  unfold EncryptAPIKey. intros Hn Hs. destruct (str_empty key) eqn:Ek.
  - apply bool_decide_eq_true in Ek. by intros [= <-]; subst.
  - rewrite (proj2 (Nat.ltb_ge _ _)) by done. intros [= <-]. apply bool_decide_eq_false in Ek. split.
    + split; [|done]. intros E. pose proof (encoding_not_empty (nonce +:+ gcm_seal (secret_key secret) nonce key)) as F.
      rewrite E in F. unfold str_len in *. rewrite s2l_app, length_app, Hn in F. by specialize (F ltac:(discriminate)).
    + intros secret' Hs' <-. by rewrite decrypt_boxed, gcm_open_seal.
Qed.

(** What decrypts was sealed. *)
Lemma decrypted `{GcmLaws} secret stored p :
  stored ≠ "" → DecryptAPIKey stored secret = Ok p →
  (32 ≤ str_len secret)%nat
  ∧ ∃ nonce', str_len nonce' = NonceSize
              ∧ DecodeString stored = Some (nonce' +:+ gcm_seal (secret_key secret) nonce' p).
Proof.
  intros Hne. unfold DecryptAPIKey. destruct (str_empty stored) eqn:Es; [by apply bool_decide_eq_true in Es|].
  destruct (_ <? 32)%nat eqn:Hs; [done|]. apply Nat.ltb_ge in Hs. destruct (DecodeString stored) as [c|]; [|done].
  destruct (str_len c <? NonceSize)%nat eqn:Hc; [done|]. apply Nat.ltb_ge in Hc.
  destruct (gcm_open _ _ _) as [p'|] eqn:Ho; [|done]. intros [= <-]. apply gcm_authentic in Ho. split; [done|].
  exists (l2s (take NonceSize (s2l c))). unfold str_len in *. rewrite s2l_l2s, length_take, <- Ho, <- l2s_app, take_drop, l2s_s2l.
  split; [lia|done].
Qed.

(** C31: With a secret of 32 bytes every key can be stored and is read back, under any secret that
    starts with the same 32 bytes; only the empty key is stored as the empty string.  And
    whatever else is read back under the secret was sealed under it. *)
Theorem keys_are_read_back `{GcmLaws} key secret nonce :
  str_len nonce = NonceSize → (32 ≤ str_len secret)%nat →
  (∃ stored, EncryptAPIKey key secret (Some nonce) = Ok stored ∧ (stored = "" ↔ key = "")
    ∧ ∀ secret', (32 ≤ str_len secret')%nat → secret_key secret' = secret_key secret →
                 DecryptAPIKey stored secret' = Ok key)
  ∧ ∀ stored p, stored ≠ "" → DecryptAPIKey stored secret = Ok p →
      ∃ nonce', str_len nonce' = NonceSize
                ∧ DecodeString stored = Some (nonce' +:+ gcm_seal (secret_key secret) nonce' p).
Proof.
  intros Hn Hs. split.
  - destruct (encrypts key secret nonce Hs) as [stored E]. exists stored. by split; [|apply (decrypts key secret nonce)].
  - intros stored p Hne Hd. apply (decrypted _ _ _ Hne Hd).
Qed.

(** *** Witness: a box is the key, the nonce and the text *)

Definition clear_open (key nonce c : string) : option string :=
  let p := s2l (key +:+ nonce) in
  if bool_decide (take (length p) (s2l c) = p) then Some (l2s (drop (length p) (s2l c))) else None.

Definition clear_gcm : Gcm := {| gcm_seal key nonce p := key +:+ nonce +:+ p; gcm_open := clear_open |}.

Lemma clear_gcm_laws : @GcmLaws clear_gcm.
Proof.
  assert (∀ a b c, a +:+ (b +:+ c) = (a +:+ b) +:+ c) as Happ by (intros; apply s2l_inj; by rewrite !s2l_app, app_assoc).
  constructor; unfold gcm_open, gcm_seal, clear_gcm, clear_open; intros key nonce.
  - intros p. rewrite Happ, (s2l_app (key +:+ nonce)), take_app_length, drop_app_length, l2s_s2l.
    by rewrite bool_decide_eq_true_2.
  - intros c p. case_bool_decide as E; [|done]. intros [= <-]. apply s2l_inj.
    rewrite Happ, (s2l_app (key +:+ nonce)), s2l_l2s, <- E at 1. apply eq_sym, take_drop.
Qed.

Definition w_secret : string := "0123456789abcdef0123456789abcdef-and-more".

Lemma keys_are_read_back_witness :
  let H := clear_gcm in
  EncryptAPIKey "sk-1234" w_secret (Some "nonce-nonce-") = Ok (EncodeToString ("nonce-nonce-" +:+ gcm_seal (secret_key w_secret) "nonce-nonce-" "sk-1234"))
  ∧ DecryptAPIKey (EncodeToString ("nonce-nonce-" +:+ gcm_seal (secret_key w_secret) "nonce-nonce-" "sk-1234"))
      "0123456789abcdef0123456789abcdef" = Ok "sk-1234"
  ∧ ∃ stored, EncryptAPIKey "sk-1234" w_secret (Some "nonce-nonce-") = Ok stored.
Proof.
  split; [vm_compute; reflexivity|]. split; [vm_compute; reflexivity|].
  assert (str_len "nonce-nonce-" = NonceSize) as Hn by reflexivity.
  assert (32 ≤ str_len w_secret)%nat as Hs by (vm_compute; lia).
  destruct (@keys_are_read_back clear_gcm clear_gcm_laws "sk-1234" w_secret "nonce-nonce-" Hn Hs) as [(stored & E & _) _].
  by exists stored.
Defined.
