(* ===== verification/ConsoleSettings.v ===== *)
(** [pkg/api/console/workspace_docs.go] and [providers.go]: the console's handlers for the
    documents of an account and for the provider settings of a tenant.

    The handlers work against the interfaces of the stores.  [None] as a result is a panic:
    the settings are read from a tenant without asking whether it is nil. *)
From S2P Require Import Prelude GoStrings Values Types Stores Api Accounts Auth Encryption.

(** ** workspace_docs.go *)

Section docs.
Context {S : Type} `{AccountTenantStore S} `{WorkspaceStore S} `{UserWorkspaceStore S}.

(** [UpdatedAt] is a formatted time, empty for [None]. *)
Record WorkspaceDocResponse := {
  wr_TenantID : string; wr_UserID : string; wr_DocType : string; wr_Content : string; wr_Version : Z;
  wr_UpdatedAt : option time;
}.

Inductive docs_data := DocData (d : WorkspaceDocResponse) | DocsData (l : list WorkspaceDocResponse).

Definition docs_unauthenticated : Response docs_data := writeError StatusUnauthorized "not authenticated".
Definition doc_type_missing : Response docs_data := writeError StatusBadRequest "doc_type is required".
Definition no_tenant : Response docs_data := writeError StatusInternalServerError "failed to get tenant".

Definition getTenantIDForAccount (accountID : string) (s : S) : result goerror string :=
  match ats_ListByAccount accountID s with
  | Err e => Err e
  | Ok [] => Ok DefaultTenantID
  | Ok (l :: _) => Ok (at_TenantID l)
  end.

Definition own_doc (d : UserWorkspaceDoc) : WorkspaceDocResponse :=
  {| wr_TenantID := ud_TenantID d; wr_UserID := ud_UserID d; wr_DocType := ud_DocType d; wr_Content := ud_Content d;
     wr_Version := ud_Version d; wr_UpdatedAt := Some (ud_UpdatedAt d) |}.
Definition tenant_doc (accountID : string) (d : WorkspaceDoc) : WorkspaceDocResponse :=
  {| wr_TenantID := wd_TenantID d; wr_UserID := accountID; wr_DocType := wd_DocType d; wr_Content := wd_Content d;
     wr_Version := wd_Version d; wr_UpdatedAt := Some (wd_UpdatedAt d) |}.
Definition empty_doc (tenantID accountID docType : string) : WorkspaceDocResponse :=
  {| wr_TenantID := tenantID; wr_UserID := accountID; wr_DocType := docType; wr_Content := ""; wr_Version := 0;
     wr_UpdatedAt := None |}.

Definition docs_get (claims : option Claims) (docType : string) (s : S) : Response docs_data :=
  match claims with
  | None => docs_unauthenticated
  | Some claims =>
      let accountID := cl_AccountID claims in
      if str_empty docType then doc_type_missing
      else
        match getTenantIDForAccount accountID s with
        | Err _ => no_tenant
        | Ok tenantID =>
            match uws_Get tenantID accountID docType s with
            | Ok (Some d) => writeJSON StatusOK (DocData (own_doc d))
            | _ =>
                match ws_Get tenantID docType s with
                | Err _ => writeError StatusInternalServerError "failed to get workspace doc"
                | Ok None => writeJSON StatusOK (DocData (empty_doc tenantID accountID docType))
                | Ok (Some d) => writeJSON StatusOK (DocData (tenant_doc accountID d))
                end
            end
        end
  end.

Definition new_doc (tenantID accountID docType content : string) : UserWorkspaceDoc :=
  {| ud_TenantID := tenantID; ud_UserID := accountID; ud_DocType := docType; ud_Content := content; ud_Version := 1;
     ud_UpdatedAt := time_zero |}.

(** Of the body only the content is used. *)
Definition docs_update (claims : option Claims) (docType : string) (req : option string) (s : S) : S * Response docs_data :=
  match claims with
  | None => (s, docs_unauthenticated)
  | Some claims =>
      if str_empty docType then (s, doc_type_missing)
      else
        match req with
        | None => (s, writeError StatusBadRequest "invalid request body")
        | Some content =>
            match getTenantIDForAccount (cl_AccountID claims) s with
            | Err _ => (s, no_tenant)
            | Ok tenantID =>
                let doc := new_doc tenantID (cl_AccountID claims) docType content in
                match uws_Put doc s with
                | (s, Some _) => (s, writeError StatusInternalServerError "failed to update workspace doc")
                | (s, None) =>
                    (s, writeJSON StatusOK (DocData
                          {| wr_TenantID := tenantID; wr_UserID := cl_AccountID claims; wr_DocType := docType;
                             wr_Content := content; wr_Version := ud_Version doc; wr_UpdatedAt := None |}))
                end
            end
        end
  end.

Definition docTypes : list string := ["IDENTITY"; "SOUL"; "RULES"; "AGENT"].

Definition listed_doc (tenantID accountID : string) (s : S) (docType : string) : WorkspaceDocResponse :=
  match uws_Get tenantID accountID docType s with
  | Ok (Some d) => own_doc d
  | _ => match ws_Get tenantID docType s with
         | Ok (Some d) => tenant_doc accountID d
         | _ => empty_doc tenantID accountID docType
         end
  end.

Definition docs_list (claims : option Claims) (s : S) : Response docs_data :=
  match claims with
  | None => docs_unauthenticated
  | Some claims =>
      match getTenantIDForAccount (cl_AccountID claims) s with
      | Err _ => no_tenant
      | Ok tenantID => writeJSON StatusOK (DocsData (listed_doc tenantID (cl_AccountID claims) s <$> docTypes))
      end
  end.
End docs.

(** ** providers.go *)

(** [m[key] = v] on the decoded map. *)
Fixpoint jset (key : string) (v : jany) (m : config) : config :=
  match m with
  | [] => [(key, v)]
  | (k, w) :: m => if bool_decide (k = key) then (k, v) :: m else (k, w) :: jset key v m
  end.

Definition getString (m : config) (key : string) : string := as_str (jget key m).

Definition stars (n : nat) : bytes := repeat "*"%char n.

Definition maskKey (key : string) : string :=
  let l := s2l key in
  if (length l <=? 8)%nat then l2s (stars (length l))
  else l2s (take 4 l ++ stars (length l - 8) ++ drop (length l - 4) l).

Record providerSettingsDTO := { ps_APIBase : string; ps_APIKey : string; ps_Model : string }.

Inductive settings_data := Settings (d : providerSettingsDTO) | SettingsUpdated.

Section providers.
Context `{Gcm} {S : Type} `{TenantStore S}.

Definition settings_unauthenticated : Response settings_data := writeError StatusUnauthorized "not authenticated".
Definition tenant_not_found : Response settings_data := writeError StatusNotFound "tenant not found".

Definition shown_key (secret : string) (cfg : config) : string :=
  let encryptedKey := getString cfg "provider_api_key" in
  if negb (str_empty encryptedKey) && negb (str_empty secret)
  then match DecryptAPIKey encryptedKey secret with Ok key => key | Err _ => "" end
  else "".

Definition settings_of (secret : string) (cfg : config) : providerSettingsDTO :=
  {| ps_APIBase := getString cfg "provider_api_base"; ps_APIKey := maskKey (shown_key secret cfg);
     ps_Model := getString cfg "provider_model" |}.

Definition providers_get (secret : string) (claims : option Claims) (s : S) : option (Response settings_data) :=
  match claims with
  | None => Some settings_unauthenticated
  | Some claims =>
      match tns_Get (default "" (head (cl_Tenants claims))) s with
      | Err _ => Some tenant_not_found
      | Ok None => None
      | Ok (Some tenant) => Some (writeJSON StatusOK (Settings (settings_of secret (tn_Config tenant))))
      end
  end.

Definition updated_settings (secret : string) (nonce : option string) (req : providerSettingsDTO) (cfg : config)
    : result goerror config :=
  let cfg := if str_empty (ps_APIBase req) then cfg else jset "provider_api_base" (JStr (ps_APIBase req)) cfg in
  cfg <-? (if str_empty (ps_APIKey req) || contains (ps_APIKey req) "****" then Ok cfg
           else if str_empty secret then Ok (jset "provider_api_key" (JStr (ps_APIKey req)) cfg)
           else
             encrypted <-? EncryptAPIKey (ps_APIKey req) secret nonce ;;
             Ok (jset "provider_api_key" (JStr encrypted) cfg)) ;;
  Ok (if str_empty (ps_Model req) then cfg else jset "provider_model" (JStr (ps_Model req)) cfg).

Definition with_settings (cfg : config) (t : Tenant) : Tenant :=
  {| tn_TenantID := tn_TenantID t; tn_Name := tn_Name t; tn_GroupID := tn_GroupID t; tn_Config := cfg;
     tn_CreatedAt := tn_CreatedAt t |}.

Definition providers_update (secret : string) (nonce : option string) (claims : option Claims)
    (req : option providerSettingsDTO) (s : S) : option (S * Response settings_data) :=
  match claims with
  | None => Some (s, settings_unauthenticated)
  | Some claims =>
      match req with
      | None => Some (s, writeError StatusBadRequest "invalid request body")
      | Some req =>
          match tns_Get (default "" (head (cl_Tenants claims))) s with
          | Err _ => Some (s, tenant_not_found)
          | Ok None => None
          | Ok (Some tenant) =>
              match updated_settings secret nonce req (tn_Config tenant) with
              | Err _ => Some (s, writeError StatusInternalServerError "failed to encrypt API key")
              | Ok cfg =>
                  match tns_Put (with_settings cfg tenant) s with
                  | (s, Some _) => Some (s, writeError StatusInternalServerError "failed to save settings")
                  | (s, None) => Some (s, writeJSON StatusOK SettingsUpdated)
                  end
              end
          end
      end
  end.
End providers.

(** ** Settings *)

Lemma jget_cons key k (v : jany) (m : config) :
  jget key ((k, v) :: m) = if bool_decide (k = key) then Some v else jget key m.
Proof. unfold jget. cbn. by case_bool_decide. Qed.

Lemma jget_jset key k v m : jget key (jset k v m) = if bool_decide (k = key) then Some v else jget key m.
Proof.
  induction m as [|[k' w] m IH]; cbn [jset].
  - rewrite jget_cons. by case_bool_decide.
  - destruct (bool_decide (k' = k)) eqn:E; [apply bool_decide_eq_true in E; subst|apply bool_decide_eq_false in E];
      rewrite !jget_cons; [by case_bool_decide|]. rewrite IH. by repeat case_bool_decide; subst.
Qed.

Lemma jset_same k v m : jget k m = Some v → jset k v m = m.
Proof.
  induction m as [|[k' w] m IH]; [done|]. rewrite jget_cons. cbn [jset]. case_bool_decide; subst; [by intros [= ->]|].
  intros Hk. by rewrite IH.
Qed.

(** A text that is shown of a setting is the setting. *)
Lemma getString_set m key : str_empty (getString m key) = false → jget key m = Some (JStr (getString m key)).
Proof. unfold getString. by destruct (jget key m) as [[]|]. Qed.

Lemma getString_jset m key k s : getString (jset k (JStr s) m) key = if bool_decide (k = key) then s else getString m key.
Proof. unfold getString. rewrite jget_jset. by case_bool_decide. Qed.

Lemma stars_app n k : stars (n + k) = stars n ++ stars k.
Proof. apply repeat_app. Qed.

Lemma length_stars n : length (stars n) = n.
Proof. apply repeat_length. Qed.

Lemma str_len_maskKey key : str_len (maskKey key) = str_len key.
Proof.
  unfold maskKey, str_len. destruct (_ <=? _)%nat eqn:Hl; rewrite s2l_l2s; [apply length_stars|].
  apply Nat.leb_gt in Hl. rewrite !length_app, length_stars, length_take, length_drop. lia.
Qed.

Lemma contains_l2s l p : contains (l2s l) p = contains_bytes l (s2l p).
Proof. unfold contains. by rewrite s2l_l2s. Qed.

Definition is_star (c : ascii) : bool := Ascii.eqb c "*".
Definition starless (key : string) : bool := forallb (λ c, negb (is_star c)) (s2l key).

(** The masks that are recognised as masks. *)
Lemma masked key : (4 ≤ str_len key ≤ 8 ∨ 12 ≤ str_len key)%nat → contains (maskKey key) "****" = true.
Proof.
  unfold maskKey, str_len. intros Hl. destruct (_ <=? _)%nat eqn:Hb; rewrite contains_l2s; apply contains_bytes_spec.
  - exists [], (stars (length (s2l key) - 4)). apply Nat.leb_le in Hb.
    replace (length (s2l key)) with (4 + (length (s2l key) - 4))%nat at 1 by lia. by rewrite stars_app.
  - apply Nat.leb_gt in Hb. eexists (take 4 (s2l key)), (stars (length (s2l key) - 12) ++ _).
    replace (length (s2l key) - 8)%nat with (4 + (length (s2l key) - 12))%nat by lia. by rewrite stars_app, <- app_assoc.
Qed.

Lemma star_count l : contains_bytes l (s2l "****") = true → (4 ≤ length (List.filter is_star l))%nat.
Proof.
  intros (a & b & ->)%contains_bytes_spec. rewrite !List.filter_app, !length_app. cbn. lia.
Qed.

Lemma starless_filter l : forallb (λ c, negb (is_star c)) l = true → List.filter is_star l = [].
Proof. induction l as [|c l IH]; [done|]. cbn. destruct (is_star c); [done|]. exact IH. Qed.

Lemma filter_stars n : List.filter is_star (stars n) = stars n.
Proof. induction n as [|n IH]; [done|]. cbn. by rewrite <- IH at 2. Qed.

(** The masks of short keys are not, unless stars of the key help. *)
Lemma not_masked key : (str_len key ≤ 3 ∨ 9 ≤ str_len key ≤ 11)%nat → starless key = true → contains (maskKey key) "****" = false.
Proof.
  unfold maskKey, str_len, starless. intros Hl Hs. apply not_true_is_false.
  assert (∀ k, List.filter is_star (take k (s2l key)) = [] ∧ List.filter is_star (drop k (s2l key)) = []) as Hparts.
  { intros k. rewrite <- (take_drop k (s2l key)), forallb_app, andb_true_iff in Hs.
    destruct Hs. by split; apply starless_filter. }
  destruct (_ <=? _)%nat eqn:Hb; rewrite contains_l2s; intros Hc%star_count.
  - rewrite filter_stars, length_stars in Hc. apply Nat.leb_le in Hb. lia.
  - rewrite !List.filter_app, (proj1 (Hparts _)), (proj2 (Hparts _)), filter_stars, app_nil_r in Hc. cbn in Hc.
    rewrite length_stars in Hc. apply Nat.leb_gt in Hb. lia.
Qed.

(** A key is shown only under a secret of 32 bytes. *)
Lemma shown_secret `{GcmLaws} secret cfg :
  str_len (shown_key secret cfg) ≠ 0%nat → str_empty secret = false ∧ (32 ≤ str_len secret)%nat.
Proof.
  unfold shown_key. destruct (str_empty (getString _ _)) eqn:Ek; [by intros []|].
  destruct (str_empty secret); [by cbn|].
  cbn [negb andb]. intros Hl. split; [done|]. destruct (DecryptAPIKey _ _) as [p|e] eqn:Hd; [|by destruct Hl].
  apply bool_decide_eq_false in Ek. apply (decrypted _ _ _ Ek Hd).
Qed.

(** An encrypted key that is stored is the one that is shown. *)
Lemma shown_stored `{GcmLaws} key secret nonce cfg :
  str_len nonce = NonceSize → (32 ≤ str_len secret)%nat →
  EncryptAPIKey key secret (Some nonce) = Ok (getString cfg "provider_api_key") → shown_key secret cfg = key.
Proof.
  intros Hn Hs He. destruct (decrypts _ _ _ _ Hn Hs He) as [Hempty Hd]. unfold shown_key.
  assert (str_empty secret = false) as -> by (apply bool_decide_eq_false; intros ->; cbn in Hs; lia).
  destruct (str_empty (getString cfg "provider_api_key")) eqn:Ek; cbn [negb andb].
  - apply bool_decide_eq_true in Ek. symmetry. by apply Hempty.
  - by rewrite Hd.
Qed.

(** A mask has a star, whatever it masks. *)
Lemma mask_differs key : str_len key ≠ 0%nat → str_len key ≠ 8%nat → starless key = true → maskKey key ≠ key.
Proof.
  intros Hl H8 Hs E. unfold starless in Hs. apply starless_filter in Hs. revert Hs. rewrite <- E at 1. unfold maskKey, str_len in *.
  destruct (_ <=? _)%nat eqn:Hb; rewrite s2l_l2s, ?List.filter_app, filter_stars; intros Hnil; apply (f_equal length) in Hnil;
    rewrite ?length_app, length_stars in Hnil; cbn in Hnil; [lia|apply Nat.leb_gt in Hb; lia].
Qed.

(** Reading the settings and writing back what was shown changes nothing, when the key is
    empty, or long enough for its mask to be recognised: 4 to 8, or 12 bytes and more.  The
    mask of any other key without stars takes the place of the key. *)
Theorem settings_echo `{GcmLaws} secret cfg nonce (k := shown_key secret cfg) :
  let result := updated_settings secret (Some nonce) (settings_of secret cfg) cfg in
  ((str_len k = 0 ∨ 4 ≤ str_len k ≤ 8 ∨ 12 ≤ str_len k)%nat → result = Ok cfg)
  ∧ ((1 ≤ str_len k ≤ 3 ∨ 9 ≤ str_len k ≤ 11)%nat → starless k = true → str_len nonce = NonceSize →
     ∃ cfg', result = Ok cfg' ∧ shown_key secret cfg' = maskKey k ∧ maskKey k ≠ k).
Proof.
  cbn zeta. assert (∀ key, str_empty (getString cfg key) = false → jset key (JStr (getString cfg key)) cfg = cfg) as Hsame
    by (intros; by apply jset_same, getString_set).
  assert (∀ key, (if str_empty (getString cfg key) then cfg else jset key (JStr (getString cfg key)) cfg) = cfg) as Hset
    by (intros key; destruct (str_empty (getString cfg key)) eqn:E; auto).
  unfold updated_settings, settings_of. cbn [ps_APIBase ps_APIKey ps_Model]. rewrite Hset. fold k. split.
  - intros Hl. assert (str_empty (maskKey k) || contains (maskKey k) "****" = true) as ->; [|cbn [result_bind]; by rewrite Hset].
    apply orb_true_iff. destruct Hl as [Hl|Hl]; [left|right; by apply masked].
    apply bool_decide_eq_true. rewrite <- str_len_maskKey in Hl. unfold str_len in Hl. by destruct (maskKey k).
  - intros Hl Hs Hn.
    assert (str_empty (maskKey k) || contains (maskKey k) "****" = false) as ->.
    { apply orb_false_iff. split; [|apply not_masked; [lia|done]]. apply bool_decide_eq_false. intros E.
      pose proof (str_len_maskKey k) as E'. rewrite E in E'. cbn in E'. lia. }
    destruct (shown_secret secret cfg) as [-> Hlen]; [fold k; lia|].
    destruct (encrypts (maskKey k) secret nonce Hlen) as [e He]. rewrite He. cbn [result_bind]. eexists. split; [done|].
    split; [|apply mask_differs; [lia..|done]]. apply (shown_stored _ _ nonce); [done..|]. rewrite He. f_equal.
    destruct (str_empty (getString cfg "provider_model")); by rewrite !getString_jset.
Qed.

(** What is shown after an update with a key. *)
Lemma updated_shown `{GcmLaws} secret nonce req cfg :
  str_len nonce = NonceSize → (32 ≤ str_len secret)%nat →
  ps_APIKey req ≠ "" → contains (ps_APIKey req) "****" = false →
  ∃ cfg', updated_settings secret (Some nonce) req cfg = Ok cfg'
    ∧ settings_of secret cfg'
      = {| ps_APIBase := or_default (ps_APIBase req) (getString cfg "provider_api_base");
           ps_APIKey := maskKey (ps_APIKey req);
           ps_Model := or_default (ps_Model req) (getString cfg "provider_model") |}.
Proof.
  intros Hn Hs Hk Hstars. unfold updated_settings. rewrite Hstars.
  assert (str_empty (ps_APIKey req) = false) as -> by by apply bool_decide_eq_false.
  assert (str_empty secret = false) as -> by (apply bool_decide_eq_false; intros ->; cbn in Hs; lia).
  destruct (encrypts (ps_APIKey req) secret nonce Hs) as [e He]. rewrite He. cbn [orb result_bind]. eexists. split; [done|].
  unfold settings_of, or_default. f_equal.
  - destruct (str_empty (ps_Model req)), (str_empty (ps_APIBase req)); by rewrite !getString_jset.
  - f_equal. apply (shown_stored _ _ nonce); [done..|]. rewrite He. f_equal.
    destruct (str_empty (ps_Model req)), (str_empty (ps_APIBase req)); by rewrite !getString_jset.
  - destruct (str_empty (ps_Model req)), (str_empty (ps_APIBase req)); by rewrite !getString_jset.
Qed.

(** ** On the database *)

Section mysql.
Context (fault : operation → table → list string → db → option goerror).
Context `{Scan} `{SliceSort}.

(** A statement runs when it does not fail and keeps the constraints. *)
Lemma exec_runs op tb key f s t :
  fault op tb key s = None → f (db_tables s) = Some t → constraints t →
  ∃ s', exec fault op tb key f s = (s', None) ∧ db_tables s' = t ∧ db_now s' = db_now s.
Proof.
  intros Hf Ht Hc. unfold exec. rewrite Hf, Ht. destruct (decide (constraints t)) as [ok|]; [|done]. by eexists.
Qed.

Lemma upsert_tenant_constraints now t tb :
  constraints tb →
  constraints {| tb_accounts := tb_accounts tb; tb_links := tb_links tb; tb_sessions := tb_sessions tb;
                 tb_tenants := upsert_tenant now t (tb_tenants tb); tb_docs := tb_docs tb; tb_user_docs := tb_user_docs tb |}.
Proof.
  intros (Ha & Hl & Hs & Ht & Hd & Hu). refine (conj Ha (conj Hl (conj Hs (conj _ (conj Hd Hu))))).
  by apply map_Forall_insert_2.
Qed.

Lemma tns_Put_runs t s :
  fault OpUpsert TTenants [tn_TenantID t] s = None →
  ∃ s', tns_Put (TenantStore := mysql_tenants fault) t s = (s', None)
        ∧ tb_tenants (db_tables s') = upsert_tenant (db_now s) t (tb_tenants (db_tables s)).
Proof.
  intros Hf. pose proof (upsert_tenant_constraints (db_now s) t _ (db_ok s)) as Hc.
  destruct (exec_runs OpUpsert TTenants [tn_TenantID t] (with_tenants (upsert_tenant (db_now s) t)) s _ Hf eq_refl Hc)
    as (s' & He & Ht & _). exists s'. split; [done|by rewrite Ht].
Qed.

Definition user_doc_key (d : UserWorkspaceDoc) : string * string * string := (ud_TenantID d, ud_UserID d, ud_DocType d).

Definition stored_user_doc (now : time) (d : UserWorkspaceDoc) : UserWorkspaceDoc :=
  {| ud_TenantID := ud_TenantID d; ud_UserID := ud_UserID d; ud_DocType := ud_DocType d; ud_Content := ud_Content d;
     ud_Version := ud_Version d; ud_UpdatedAt := or_now now (ud_UpdatedAt d) |}.

Lemma upsert_doc_constraints now d tb :
  constraints tb →
  constraints {| tb_accounts := tb_accounts tb; tb_links := tb_links tb; tb_sessions := tb_sessions tb;
                 tb_tenants := tb_tenants tb; tb_docs := tb_docs tb;
                 tb_user_docs := <[user_doc_key d := stored_user_doc now d]> (tb_user_docs tb) |}.
Proof.
  intros (Ha & Hl & Hs & Ht & Hd & Hu). refine (conj Ha (conj Hl (conj Hs (conj Ht (conj Hd _))))).
  by apply map_Forall_insert_2.
Qed.

(** When the statements on tenants run, the owner of a tenant that gives a key and perhaps
    an address and a model is shown them, the key masked, from then on; no other tenant is
    changed. *)
Theorem settings_round_trip `{GcmLaws} claims req secret nonce s t (tenantID := default "" (head (cl_Tenants claims))) :
  (∀ op s, fault op TTenants [tenantID] s = None) →
  tb_tenants (db_tables s) !! tenantID = Some t →
  str_len nonce = NonceSize → (32 ≤ str_len secret)%nat →
  ps_APIKey req ≠ "" → contains (ps_APIKey req) "****" = false →
  ∃ s', providers_update (H0 := mysql_tenants fault) secret (Some nonce) (Some claims) (Some req) s
        = Some (s', writeJSON StatusOK SettingsUpdated)
    ∧ providers_get (H0 := mysql_tenants fault) secret (Some claims) s'
      = Some (writeJSON StatusOK (Settings
          {| ps_APIBase := or_default (ps_APIBase req) (getString (tn_Config t) "provider_api_base");
             ps_APIKey := maskKey (ps_APIKey req);
             ps_Model := or_default (ps_Model req) (getString (tn_Config t) "provider_model") |}))
    ∧ ∀ id, id ≠ tenantID → tb_tenants (db_tables s') !! id = tb_tenants (db_tables s) !! id.
Proof.
  intros Hf Ht Hn Hs Hk Hstars. unfold providers_update, providers_get. fold tenantID.
  cbn [tns_Get tns_Put mysql_tenants]. unfold query. rewrite !Hf, Ht. cbn [found_ptr found fmap option_fmap option_map].
  destruct (updated_shown secret nonce req (tn_Config t) Hn Hs Hk Hstars) as (cfg & -> & Hshown).
  pose proof (proj1 (proj2 (proj2 (proj2 (db_ok s)))) tenantID t Ht) as Hid. cbn in Hid.
  destruct (tns_Put_runs (with_settings cfg t) s) as (s' & Hput & Htab); [cbn; rewrite Hid; apply Hf|].
  cbn [tns_Put mysql_tenants] in Hput. rewrite Hput.
  exists s'. split; [done|]. rewrite Hf, Htab. unfold upsert_tenant. cbn [tn_TenantID with_settings tn_Config].
  rewrite Hid. split.
  - rewrite lookup_insert, decide_True by done. cbn [found_ptr found fmap option_fmap option_map tn_Config]. by rewrite Hshown.
  - intros id Hne. by rewrite lookup_insert_ne by done.
Qed.

Lemma uws_Put_runs d s :
  fault OpUpsert TUserWorkspaceDocs [ud_TenantID d; ud_UserID d; ud_DocType d] s = None →
  ∃ s', uws_Put (UserWorkspaceStore := mysql_user_docs fault) d s = (s', None)
        ∧ tb_user_docs (db_tables s') = <[user_doc_key d := stored_user_doc (db_now s) d]> (tb_user_docs (db_tables s))
        ∧ tb_links (db_tables s') = tb_links (db_tables s) ∧ tb_docs (db_tables s') = tb_docs (db_tables s).
Proof.
  intros Hf. pose proof (upsert_doc_constraints (db_now s) d _ (db_ok s)) as Hc.
  destruct (exec_runs _ _ _ (with_user_docs (insert (user_doc_key d) (stored_user_doc (db_now s) d))) s _ Hf eq_refl Hc)
    as (s' & He & Ht & _). exists s'. split; [done|by rewrite Ht].
Qed.

Abbreviation update_doc := (docs_update (H := mysql_links fault) (H1 := mysql_user_docs fault)).
Abbreviation get_doc := (docs_get (H := mysql_links fault) (H0 := mysql_docs fault) (H1 := mysql_user_docs fault)).
Abbreviation list_docs := (docs_list (H := mysql_links fault) (H0 := mysql_docs fault) (H1 := mysql_user_docs fault)).

Lemma getTenantID_links accountID s s' :
  (∀ s, fault OpQuery TAccountTenants [accountID] s = None) → tb_links (db_tables s') = tb_links (db_tables s) →
  ∃ tenantID, getTenantIDForAccount (H := mysql_links fault) accountID s = Ok tenantID
              ∧ getTenantIDForAccount (H := mysql_links fault) accountID s' = Ok tenantID.
Proof.
  intros Hf Hl. unfold getTenantIDForAccount. cbn [ats_ListByAccount mysql_links]. unfold query. rewrite !Hf, Hl.
  destruct (scan _); by eexists.
Qed.

(** When the statements run, what an account writes to a document it reads from then on,
    and nobody else's document is changed, nor the tenant's. *)
Theorem docs_round_trip claims docType content s :
  (∀ s, fault OpQuery TAccountTenants [cl_AccountID claims] s = None) →
  (∀ op k s, fault op TUserWorkspaceDocs k s = None) →
  docType ≠ "" →
  ∃ s' tenantID r,
    getTenantIDForAccount (H := mysql_links fault) (cl_AccountID claims) s = Ok tenantID
    ∧ update_doc (Some claims) docType (Some content) s = (s', r) ∧ rs_Status r = StatusOK
    ∧ get_doc (Some claims) docType s'
      = writeJSON StatusOK (DocData (own_doc (stored_user_doc (db_now s) (new_doc tenantID (cl_AccountID claims) docType content))))
    ∧ tb_docs (db_tables s') = tb_docs (db_tables s)
    ∧ ∀ k, k ≠ (tenantID, cl_AccountID claims, docType) → tb_user_docs (db_tables s') !! k = tb_user_docs (db_tables s) !! k.
Proof.
  intros Hl Hu Hd. destruct (getTenantID_links (cl_AccountID claims) s s Hl eq_refl) as (tenantID & Ht & _).
  destruct (uws_Put_runs (new_doc tenantID (cl_AccountID claims) docType content) s) as (s' & Hput & Hdocs & Hlinks & Hother);
    [apply Hu|]. destruct (getTenantID_links (cl_AccountID claims) s s' Hl Hlinks) as (tenantID' & Ht1 & Ht').
  rewrite Ht in Ht1. injection Ht1 as <-. exists s', tenantID. unfold docs_update, docs_get.
  assert (str_empty docType = false) as -> by by apply bool_decide_eq_false.
  rewrite Ht, Ht', Hput. eexists. split; [done|]. split; [done|]. split; [done|]. cbn [uws_Get mysql_user_docs]. unfold query. rewrite Hu, Hdocs.
  split; [|split; [done|]].
  - change (user_doc_key _) with (tenantID, cl_AccountID claims, docType). rewrite lookup_insert, decide_True by done. done.
  - intros k Hk. by rewrite lookup_insert_ne by done.
Qed.

(** Where a document that an account may be shown comes from: its own row, or the row of a
    tenant, or nowhere. *)
Definition doc_origin (accountID tenantID : string) (s : db) (d : WorkspaceDocResponse) : Prop :=
  (∃ u, tb_user_docs (db_tables s) !! (tenantID, accountID, wr_DocType d) = Some u ∧ d = own_doc u)
  ∨ (∃ w, tb_docs (db_tables s) !! (tenantID, wr_DocType d) = Some w ∧ d = tenant_doc accountID w)
  ∨ d = empty_doc tenantID accountID (wr_DocType d).

(** The tenant whose documents an account works with. *)
Definition docs_tenant (accountID tenantID : string) (s : db) : Prop :=
  ats_linked (AccountTenantStore := mysql_links fault) accountID tenantID s = true
  ∨ tenantID = DefaultTenantID ∧ ∀ t, ats_linked (AccountTenantStore := mysql_links fault) accountID t s = false.

Lemma getTenantID_origin accountID s tenantID :
  getTenantIDForAccount (H := mysql_links fault) accountID s = Ok tenantID → docs_tenant accountID tenantID s.
Proof.
  unfold getTenantIDForAccount. destruct (ats_ListByAccount accountID s) as [l|e] eqn:Hl; [|done].
  destruct (ats_list _ _ _ Hl) as [_ Hlinked]. destruct l as [|l ls]; intros [= <-].
  - right. split; [done|]. intros t. apply not_true_is_false. rewrite Hlinked. apply not_elem_of_nil.
  - left. apply Hlinked. by left.
Qed.

Lemma own_row_origin tenantID accountID docType s u :
  uws_Get (UserWorkspaceStore := mysql_user_docs fault) tenantID accountID docType s = Ok (Some u) →
  wr_DocType (own_doc u) = docType ∧ doc_origin accountID tenantID s (own_doc u).
Proof.
  intros Hq%query_ok%found_ok. apply fmap_Some in Hq as (u' & Hu & [= <-]).
  pose proof (proj2 (proj2 (proj2 (proj2 (proj2 (db_ok s))))) _ _ Hu) as [= _ _ Hd].
  split; [done|]. left. exists u. split; [|done]. cbn [own_doc wr_DocType]. by rewrite Hd.
Qed.

Lemma tenant_row_origin tenantID accountID docType s w :
  ws_Get (WorkspaceStore := mysql_docs fault) tenantID docType s = Ok (Some w) →
  wr_DocType (tenant_doc accountID w) = docType ∧ doc_origin accountID tenantID s (tenant_doc accountID w).
Proof.
  intros Hq%query_ok%found_ok. apply fmap_Some in Hq as (w' & Hw & [= <-]).
  pose proof (proj1 (proj2 (proj2 (proj2 (proj2 (db_ok s))))) _ _ Hw) as [= _ Hd].
  split; [done|]. right. left. exists w. split; [|done]. cbn [tenant_doc wr_DocType]. by rewrite Hd.
Qed.

Lemma empty_doc_origin tenantID accountID docType s :
  wr_DocType (empty_doc tenantID accountID docType) = docType
  ∧ doc_origin accountID tenantID s (empty_doc tenantID accountID docType).
Proof. split; [done|]. by right; right. Qed.

Lemma listed_doc_origin accountID tenantID s docType
    (d := listed_doc (H0 := mysql_docs fault) (H1 := mysql_user_docs fault) tenantID accountID s docType) :
  wr_DocType d = docType ∧ doc_origin accountID tenantID s d.
Proof.
  subst d. unfold listed_doc. destruct (uws_Get _ _ _ _) as [[u|]|] eqn:Hu; [by apply own_row_origin|..];
    (destruct (ws_Get _ _ _) as [[w|]|] eqn:Hw; [by apply tenant_row_origin|apply empty_doc_origin..]).
Qed.

(** A document that is shown, alone or in the list, is the account's own, or that of the one
    tenant the account works with, which it is linked to (the default tenant if it has
    none), or it is empty; the list has one of each type, and a single one has the type that
    was asked for. *)
Theorem docs_disclosed claims s :
  (∀ d, rs_Body (list_docs (Some claims) s) = Data d →
    ∃ tenantID l, d = DocsData l ∧ docs_tenant (cl_AccountID claims) tenantID s
      ∧ Forall (doc_origin (cl_AccountID claims) tenantID s) l ∧ wr_DocType <$> l = docTypes)
  ∧ ∀ docType d, rs_Body (get_doc (Some claims) docType s) = Data d →
    ∃ tenantID x, d = DocData x ∧ docs_tenant (cl_AccountID claims) tenantID s
      ∧ wr_DocType x = docType ∧ doc_origin (cl_AccountID claims) tenantID s x.
Proof.
  split.
  - intros d. unfold docs_list. destruct (getTenantIDForAccount _ s) as [tenantID|e] eqn:Ht; [|done]. intros [= <-].
    do 2 eexists. split; [done|]. split; [by apply getTenantID_origin|]. split.
    + do 4 (apply Forall_cons; split; [apply listed_doc_origin|]). by apply Forall_nil.
    + cbn [fmap list_fmap]. by repeat (rewrite (proj1 (listed_doc_origin _ _ _ _))).
  - intros docType d. unfold docs_get. destruct (str_empty docType); [done|].
    destruct (getTenantIDForAccount _ s) as [tenantID|e] eqn:Ht; [|done]. apply getTenantID_origin in Ht.
    destruct (uws_Get _ _ _ s) as [[u|]|] eqn:Hu; [|destruct (ws_Get _ _ s) as [[w|]|] eqn:Hw..]; try done; intros [= <-];
      do 2 eexists; (split; [done|split; [done|]]);
      first [by apply own_row_origin|by apply tenant_row_origin|apply empty_doc_origin].
Qed.
End mysql.

(** ** Witnesses *)

Definition w_tenant (cfg : config) : Tenant :=
  {| tn_TenantID := "t1"; tn_Name := "T"; tn_GroupID := ""; tn_Config := cfg; tn_CreatedAt := 1 |}.
Definition w_link (account : string) : AccountTenant :=
  {| at_AccountID := account; at_TenantID := "t1"; at_Role := "owner"; at_CreatedAt := 1 |}.
Definition w_user_doc : UserWorkspaceDoc := new_doc "t1" "bob" "SOUL" "Bob's".
Definition w_settings_tables : tables :=
  {| tb_accounts := ∅; tb_links := {[("ann", "t1") := w_link "ann"; ("bob", "t1") := w_link "bob"]}; tb_sessions := ∅;
     tb_tenants := {["t1" := w_tenant []]}; tb_docs := ∅; tb_user_docs := {[("t1", "bob", "SOUL") := w_user_doc]} |}.
Definition w_settings_db : db :=
  {| db_tables := w_settings_tables; db_now := 9; db_ok := bool_decide_unpack (constraints w_settings_tables) I |}.
Definition w_member (account : string) : Claims :=
  {| cl_AccountID := account; cl_Role := "user"; cl_Tenants := ["t1"]; cl_ExpiresAt := 10; cl_IssuedAt := 1; cl_Issuer := "" |}.
Definition w_nonce : string := "nonce-nonce-".
Definition w_req : providerSettingsDTO := {| ps_APIBase := ""; ps_APIKey := "sk-0123456789"; ps_Model := "m1" |}.

Definition w_echo_cfg : config :=
  [("provider_api_key", JStr (EncodeToString (w_nonce +:+ clear_gcm.(gcm_seal) (secret_key w_secret) w_nonce "sk-123456")))].

(** A key of nine bytes is lost to its mask, one of eight is not. *)
Lemma settings_echo_witness :
  shown_key (H := clear_gcm) w_secret w_echo_cfg = "sk-123456"
  ∧ ∃ cfg', updated_settings (H := clear_gcm) w_secret (Some w_nonce) (settings_of (H := clear_gcm) w_secret w_echo_cfg) w_echo_cfg = Ok cfg'
            ∧ shown_key (H := clear_gcm) w_secret cfg' = "sk-1*3456".
Proof.
  split; [vm_compute; reflexivity|].
  assert (str_len (shown_key (H := clear_gcm) w_secret w_echo_cfg) = 9%nat) as Hl by (vm_compute; reflexivity).
  destruct (proj2 (@settings_echo clear_gcm clear_gcm_laws w_secret w_echo_cfg w_nonce)) as (cfg' & He & Hk & _).
  - rewrite Hl. lia.
  - vm_compute; reflexivity.
  - vm_compute; reflexivity.
  - exists cfg'. split; [exact He|]. rewrite Hk. vm_compute; reflexivity.
Defined.

Lemma settings_round_trip_witness :
  ∃ s', providers_get (H0 := mysql_tenants no_fault) (H := clear_gcm) w_secret (Some (w_member "ann")) s'
        = Some (writeJSON StatusOK (Settings {| ps_APIBase := ""; ps_APIKey := "sk-0*****6789"; ps_Model := "m1" |})).
Proof.
  destruct (@settings_round_trip no_fault demo_scan clear_gcm clear_gcm_laws (w_member "ann") w_req w_secret w_nonce
    w_settings_db (w_tenant [])) as (s' & _ & Hget & _).
  - intros op s. reflexivity.
  - vm_compute; reflexivity.
  - vm_compute; reflexivity.
  - vm_compute; lia.
  - discriminate.
  - vm_compute; reflexivity.
  - exists s'. rewrite Hget. vm_compute; reflexivity.
Defined.

(** Ann writes her document; Bob's stays. *)
Lemma docs_round_trip_witness :
  ∃ s', tb_user_docs (db_tables s') !! ("t1", "bob", "SOUL") = Some w_user_doc
        ∧ docs_get (H := mysql_links no_fault) (H0 := mysql_docs no_fault) (H1 := mysql_user_docs no_fault)
            (Some (w_member "ann")) "SOUL" s'
          = writeJSON StatusOK (DocData (own_doc (stored_user_doc 9 (new_doc "t1" "ann" "SOUL" "Ann's")))).
Proof.
  destruct (@docs_round_trip no_fault demo_scan (w_member "ann") "SOUL" "Ann's" w_settings_db)
    as (s' & tenantID & r & Ht & _ & _ & Hget & _ & Hkeep); [reflexivity|reflexivity|discriminate|].
  vm_compute in Ht. injection Ht as <-.
  exists s'. split; [|exact Hget]. rewrite Hkeep by discriminate. vm_compute; reflexivity.
Defined.

Lemma docs_disclosed_witness :
  ∃ tenantID x, docs_tenant no_fault (cl_AccountID (w_member "bob")) tenantID w_settings_db
    ∧ doc_origin "bob" tenantID w_settings_db x ∧ wr_Content x = "Bob's".
Proof.
  destruct (proj2 (@docs_disclosed no_fault demo_scan (w_member "bob") w_settings_db) "SOUL" (DocData (own_doc w_user_doc)))
    as (tenantID & x & Hx & Ht & _ & Ho); [vm_compute; reflexivity|].
  exists tenantID, x. split; [exact Ht|]. split; [exact Ho|]. injection Hx as <-. reflexivity.
Defined.
