(* ===== verification/AgentManager.v ===== *)
(** [pkg/api/console/agent_manager.go]: the manager that keeps the registry of running agents
    with the agents of the database.

    An agent and its runner are made by the ADK: [new_runner] is what the two constructors
    give for a name and a description.  Where the code ranges over the channels of a
    configuration, [ranged] is the order. *)
From S2P Require Import Prelude GoStrings Values Types AgentRegistry Stores Accounts AgentDefs.

(** ** The operations *)

Section manager.
Context `{JsonCodec} `{Scan} `{SliceSort} {Runner : Type}.
Context (fault : operation → agent_table → list string → agent_db → option goerror).
Context (commit_fault : agent_db → option goerror).
Context (new_runner : string → string → result goerror Runner).
Context (ranged : list (string * jany) → list (string * jany)).

(** The store and the registry. *)
Record manager := { am_store : agent_db; am_registry : AgentRegistry Runner }.

Definition agent_route (agentID channel : string) : AgentRoute :=
  {| route_AgentID := agentID; route_Channel := channel; route_ChatID := ""; route_AccountID := ""; route_Peer := None;
     route_GuildID := ""; route_TeamID := ""; route_Priority := 0; route_IsDefault := false |}.

(** The channels of a configuration that are enabled, other than the web. *)
Definition enabled_channel (kv : string * jany) : option string :=
  if bool_decide (kv.1 = "web"%string) then None
  else match kv.2 with JObj o => if as_bool (jget "enabled" o) then Some kv.1 else None | _ => None end.

Definition config_channels (config : option payload) : list (string * jany) :=
  match config ≫= lookup "channels" with Some (JObj channels) => channels | _ => [] end.

Definition buildRoutes (def : mysql_AgentDefinition) : list AgentRoute :=
  agent_route (ad_ID def) "web" :: (agent_route (ad_ID def) <$> omap enabled_channel (ranged (config_channels (ad_Config def)))).

Definition entry_of (def : mysql_AgentDefinition) (r : Runner) : AgentEntry Runner :=
  {| ent_ID := ad_ID def; ent_Runner := r;
     ent_Config := {| def_ID := ad_ID def; def_Name := ad_Name def; def_Description := ad_Description def;
                      def_Model := ad_Model def; def_IsDefault := false; def_Routes := buildRoutes def |} |}.

Definition registerAgent (def : mysql_AgentDefinition) (r : AgentRegistry Runner) : AgentRegistry Runner * option goerror :=
  match new_runner (ad_Name def) (ad_Description def) with
  | Err e => (r, Some e)
  | Ok runner => (Register (entry_of def runner) r, None)
  end.

(** An error of the registration is logged. *)
Definition CreateAgent (def : mysql_AgentDefinition) (m : manager) : manager * option goerror :=
  match ads_Create fault commit_fault def (am_store m) with
  | (s, Some e) => ({| am_store := s; am_registry := am_registry m |}, Some e)
  | (s, None) => ({| am_store := s; am_registry := (registerAgent def (am_registry m)).1 |}, None)
  end.

Definition UpdateAgent (def : mysql_AgentDefinition) (m : manager) : manager * option goerror :=
  match ads_Update fault commit_fault def (am_store m) with
  | (s, Some e) => ({| am_store := s; am_registry := am_registry m |}, Some e)
  | (s, None) => ({| am_store := s; am_registry := (registerAgent def (am_registry m)).1 |}, None)
  end.

Definition DeleteAgent (agentID : string) (m : manager) : manager * option goerror :=
  match ads_Delete fault commit_fault agentID (am_store m) with
  | (s, Some e) => ({| am_store := s; am_registry := am_registry m |}, Some e)
  | (s, None) => ({| am_store := s; am_registry := Unregister agentID (am_registry m) |}, None)
  end.

Definition register_all (agents : list mysql_AgentDefinition) (r : AgentRegistry Runner) : AgentRegistry Runner :=
  fold_left (λ r def, (registerAgent def r).1) agents r.

Definition LoadAllAgents (tenantID : string) (m : manager) : manager * option goerror :=
  match (if str_empty tenantID then ads_ListAll fault (am_store m) else ads_List fault tenantID (am_store m)) with
  | Err e => (m, Some e)
  | Ok agents => ({| am_store := am_store m; am_registry := register_all agents (am_registry m) |}, None)
  end.

Definition RegisterAgent (def : mysql_AgentDefinition) (m : manager) : manager * option goerror :=
  let '(r, err) := registerAgent def (am_registry m) in ({| am_store := am_store m; am_registry := r |}, err).

Inductive manager_op :=
| MCreate (def : mysql_AgentDefinition) | MUpdate (def : mysql_AgentDefinition) | MDelete (agentID : string)
| MLoad (tenantID : string) | MRegister (def : mysql_AgentDefinition).

Definition manager_step (m : manager) (o : manager_op) : manager :=
  match o with
  | MCreate def => (CreateAgent def m).1 | MUpdate def => (UpdateAgent def m).1 | MDelete id => (DeleteAgent id m).1
  | MLoad tenantID => (LoadAllAgents tenantID m).1 | MRegister def => (RegisterAgent def m).1
  end.
End manager.
Arguments manager : clear implicits.
Arguments manager_op : clear implicits.

(** ** Lemmas *)

Section facts.
Context `{JsonLaws} `{Scan} `{SliceSort} {Runner : Type}.
Context (fault : operation → agent_table → list string → agent_db → option goerror).
Context (commit_fault : agent_db → option goerror).
Context (new_runner : string → string → result goerror Runner).
Context (ranged : list (string * jany) → list (string * jany)).

Abbreviation register := (registerAgent new_runner ranged).
Abbreviation step := (manager_step fault commit_fault new_runner ranged).

(** Agents are filed under their identifiers. *)
Definition agents_keyed (s : agent_db) : Prop := map_Forall (λ id m, adm_ID m = id) (ag_agents s).

(** A row and a definition that say the same of an agent. *)
Definition same_agent (a : mysql_AgentDefinition) (m : AgentDefinitionModel) : Prop :=
  adm_ID m = ad_ID a ∧ adm_Name m = ad_Name a ∧ adm_Description m = ad_Description a ∧ adm_Model m = ad_Model a.

Lemma agentToModel_same a m : agentToModel a = Ok m → same_agent a m.
Proof. unfold agentToModel. by intros (cfg & _ & [= <-])%bind_Ok. Qed.

Lemma load_same s m a : load fault s m = Ok a → same_agent a m.
Proof. intros (a0 & (cfg & _ & [= <-])%bind_Ok & [= <-])%bind_Ok. done. Qed.

Lemma Create_agents a s s' :
  ads_Create fault commit_fault a s = (s', None) → ∃ m, same_agent a m ∧ ag_agents s' = <[ad_ID a := m]> (ag_agents s).
Proof.
  unfold ads_Create. destruct (agentToModel a) as [m|] eqn:Hm; [|done]. pose proof (agentToModel_same _ _ Hm) as Hsame.
  intros (s1 & Hst%statement_Ok & Hc)%transaction_Ok%bind_Ok. apply bind_Ok in Hst as (t & Ht & [= <-]).
  unfold taken in Ht. destruct (insert_new _ _ _) as [t'|] eqn:Hins; [|done]. injection Ht as <-.
  apply insert_new_Some in Hins as [_ ->]. destruct (create_channels_spec fault commit_fault _ _ _ Hc) as (Ha & _ & _). cbn in Ha.
  exists (created_agent (ag_now s) m). rewrite Ha, (proj1 Hsame). split; [exact Hsame|done].
Qed.

Lemma Update_agents a s s' :
  ads_Update fault commit_fault a s = (s', None) → ∃ m, same_agent a m ∧ ag_agents s' = <[ad_ID a := m]> (ag_agents s).
Proof.
  intros Hu. apply Update_stored in Hu as (m & _ & Hm & _ & Ha & _). pose proof (agentToModel_same _ _ Hm) as Hsame.
  eexists. split; [|done]. unfold stored_row. by destruct (ag_agents s !! adm_ID m).
Qed.

(** What is listed are rows. *)
Lemma listed_row s f l a :
  agents_keyed s → all_ok (load fault s) (newest_first (rows f (ag_agents s))) = Ok l → a ∈ l →
  ∃ m, ag_agents s !! ad_ID a = Some m ∧ load fault s m = Ok a.
Proof.
  intros Hk Hl Ha. destruct (proj1 (all_ok_elem _ _ _ _ Hl) Ha) as (m & Hm & Hload). unfold newest_first in Hm.
  rewrite sort_slice_perm, elem_of_rows in Hm. destruct Hm as [_ [id Hid]]. exists m. split; [|done].
  by rewrite <- (proj1 (load_same _ _ _ Hload)), (Hk _ _ Hid).
Qed.

(** The agents that [LoadAllAgents] registers. *)
Definition listed (tenantID : string) (s : agent_db) : result goerror (list mysql_AgentDefinition) :=
  if str_empty tenantID then ads_ListAll fault s else ads_List fault tenantID s.

Lemma listed_rows tenantID s l a :
  agents_keyed s → listed tenantID s = Ok l → a ∈ l → ∃ m, ag_agents s !! ad_ID a = Some m ∧ load fault s m = Ok a.
Proof.
  intros Hk. unfold listed, ads_ListAll, ads_List. destruct (str_empty tenantID), (fault _ _ _ s); try done;
    intros Hl; by apply (listed_row s _ l a Hk Hl).
Qed.

Lemma registerAgent_cases def r :
  (∃ e, register def r = (r, Some e) ∧ new_runner (ad_Name def) (ad_Description def) = Err e)
  ∨ ∃ x, register def r = (Register (entry_of ranged def x) r, None) ∧ new_runner (ad_Name def) (ad_Description def) = Ok x.
Proof. unfold registerAgent. destruct (new_runner _ _) as [x|e]; [right|left]; by eexists. Qed.

Lemma registerAgent_entries def r id :
  is_Some (ar_agents (register def r).1 !! id) → id = ad_ID def ∨ is_Some (ar_agents r !! id).
Proof.
  destruct (registerAgent_cases def r) as [(e & -> & _)|(x & -> & _)]; [by right|]. cbn [fst Register ar_agents entry_of ent_ID].
  destruct (decide (id = ad_ID def)) as [->|Hne]; [by left|]. rewrite lookup_insert_ne by done. by right.
Qed.

Lemma register_all_entries l r id :
  is_Some (ar_agents (register_all new_runner ranged l r) !! id) → (∃ a, a ∈ l ∧ id = ad_ID a) ∨ is_Some (ar_agents r !! id).
Proof.
  revert r. induction l as [|a l IH]; intros r; [by right|]. cbn. intros [(a' & Hin & ->)|Hr]%IH; [left; exists a'; set_solver|].
  apply registerAgent_entries in Hr as [->|Hr]; [left; exists a; set_solver|by right].
Qed.

Lemma registerAgent_wf def r : registry_wf r → registry_wf (register def r).1.
Proof.
  intros Hwf. destruct (registerAgent_cases def r) as [(e & -> & _)|(x & -> & _)]; [done|].
  by apply (registry_step_wf (RRegister _)).
Qed.

(** Identifiers that the registry may have without the store: those it was created with, from
    the configuration, and those given to [RegisterAgent], which writes no row. *)
Context (foreign : gset string).
Definition op_allowed (o : manager_op) : Prop := match o with MRegister def => ad_ID def ∈ foreign | _ => True end.

(** Every other registered agent has a row, and every route an agent. *)
Definition in_step (m : manager Runner) : Prop :=
  agents_keyed (am_store m) ∧ registry_wf (am_registry m)
  ∧ ∀ id, id ∉ foreign → is_Some (ar_agents (am_registry m) !! id) → is_Some (ag_agents (am_store m) !! id).

Lemma registered_in_step def s s' r m :
  in_step {| am_store := s; am_registry := r |} → same_agent def m → ag_agents s' = <[ad_ID def := m]> (ag_agents s) →
  in_step {| am_store := s'; am_registry := (register def r).1 |}.
Proof.
  intros (Hk & Hwf & Hdom) Hid Hs'. unfold in_step, agents_keyed. cbn. rewrite Hs'.
  split; [by apply map_Forall_insert_2; [apply Hid|]|]. split; [by apply registerAgent_wf|]. intros id Hid' [->|Hr]%registerAgent_entries; [by rewrite lookup_insert, decide_True|].
  destruct (decide (id = ad_ID def)) as [->|]; [by rewrite lookup_insert, decide_True|]. rewrite lookup_insert_ne by done.
  by apply Hdom.
Qed.

Lemma step_in_step o m : op_allowed o → in_step m → in_step (step m o).
Proof.
  intros Hallowed Hm. pose proof Hm as (Hk & Hwf & Hdom). destruct m as [s r], o as [def|def|id|tenantID|def]; cbn [manager_step].
  - unfold CreateAgent. destruct (ads_Create _ _ _ _) as [s' [e|]] eqn:Hc; cbn [fst].
    + by rewrite (change_fails _ _ (CCreate def) _ _ _ Hc).
    + destruct (Create_agents _ _ _ Hc) as (row & Hid & Hs'). by apply (registered_in_step def s s' r row).
  - unfold UpdateAgent. destruct (ads_Update _ _ _ _) as [s' [e|]] eqn:Hc; cbn [fst].
    + by rewrite (change_fails _ _ (CUpdate def) _ _ _ Hc).
    + destruct (Update_agents _ _ _ Hc) as (row & Hid & Hs'). by apply (registered_in_step def s s' r row).
  - unfold DeleteAgent. destruct (ads_Delete _ _ _ _) as [s' [e|]] eqn:Hc; cbn [fst].
    + by rewrite (change_fails _ _ (CDelete id) _ _ _ Hc).
    + destruct (Delete_spec _ _ _ _ _ Hc) as [Hs' _]. unfold in_step, agents_keyed. cbn [am_store am_registry] in *. rewrite Hs'.
      split; [by apply map_Forall_delete|]. split; [by apply (registry_step_wf (RUnregister id))|]. intros id' Hf. cbn.
      destruct (decide (id' = id)) as [->|]; [by rewrite lookup_delete_eq; intros []|]. rewrite !lookup_delete_ne by done. by apply Hdom.
  - unfold LoadAllAgents. fold (listed tenantID (am_store {| am_store := s; am_registry := r |})).
    destruct (listed _ _) as [l|e] eqn:Hl; [|done]. cbn [fst]. split; [done|]. split.
    + cbn. clear - Hwf. cbn in Hwf. revert r Hwf. induction l as [|a l IH]; intros r Hwf; [done|]. by apply IH, registerAgent_wf.
    + cbn. intros id Hf [(a & Ha & ->)|Hr]%register_all_entries; [|by apply Hdom].
      destruct (listed_rows _ _ _ _ Hk Hl Ha) as (row & Hrow & _). by eexists.
  - unfold RegisterAgent. cbn [am_registry am_store]. destruct (register def r) as [r' err] eqn:Hreg. pose proof (registerAgent_entries def r) as Hent.
    pose proof (registerAgent_wf def r Hwf) as Hwf'. rewrite Hreg in Hent, Hwf'. cbn [fst am_registry am_store] in *.
    split; [done|]. split; [done|]. cbn. intros id Hf [->|Hr]%Hent; [done|by apply Hdom].
Qed.

(** An entry that says of an agent what its row says. *)
Definition mirrored (s : agent_db) (id : string) (e : AgentEntry Runner) : Prop :=
  ∃ row, ag_agents s !! id = Some row
    ∧ def_ID (ent_Config e) = adm_ID row ∧ def_Name (ent_Config e) = adm_Name row
    ∧ def_Description (ent_Config e) = adm_Description row ∧ def_Model (ent_Config e) = adm_Model row.

(** The registry has an entry for each row, and but for the foreign ones no others, and they
    agree. *)
Definition mirrors (m : manager Runner) : Prop :=
  (∀ id e, id ∉ foreign → ar_agents (am_registry m) !! id = Some e → mirrored (am_store m) id e)
  ∧ ∀ id, is_Some (ag_agents (am_store m) !! id) → is_Some (ar_agents (am_registry m) !! id).

Lemma entry_mirrored s def row x :
  same_agent def row → ag_agents s !! ad_ID def = Some row → mirrored s (ad_ID def) (entry_of ranged def x).
Proof. intros (Hid & Hn & Hd & Hm) Hrow. by exists row. Qed.

Lemma registerAgent_mirrored s def row r id e :
  same_agent def row → ag_agents s !! ad_ID def = Some row →
  (∀ id e, id ∉ foreign → ar_agents r !! id = Some e → mirrored s id e) →
  id ∉ foreign → ar_agents (register def r).1 !! id = Some e → mirrored s id e.
Proof.
  intros Hsame Hrow Hr Hf. destruct (registerAgent_cases def r) as [(err & -> & _)|(x & -> & _)]; [by apply Hr|]. cbn.
  intros [[<- <-]|[_ He]]%lookup_insert_Some; [by apply (entry_mirrored s def row)|by apply Hr].
Qed.

Lemma registerAgent_grows def r id :
  is_Some (ar_agents r !! id) ∨ (∀ n d, is_ok (new_runner n d) = true) ∧ id = ad_ID def →
  is_Some (ar_agents (register def r).1 !! id).
Proof.
  destruct (registerAgent_cases def r) as [(err & -> & He)|(x & -> & _)]; intros [Hr|[Hok ->]]; cbn; try done.
  - specialize (Hok (ad_Name def) (ad_Description def)). by rewrite He in Hok.
  - destruct (decide (id = ad_ID def)) as [->|]; [by rewrite lookup_insert, decide_True|by rewrite lookup_insert_ne by done].
  - by rewrite lookup_insert, decide_True.
Qed.

Lemma register_all_mirrored s l r :
  (∀ a, a ∈ l → ∃ row, ag_agents s !! ad_ID a = Some row ∧ same_agent a row) →
  (∀ id e, id ∉ foreign → ar_agents r !! id = Some e → mirrored s id e) →
  ∀ id e, id ∉ foreign → ar_agents (register_all new_runner ranged l r) !! id = Some e → mirrored s id e.
Proof.
  revert r. induction l as [|a l IH]; intros r Hl Hr; [done|]. cbn [register_all fold_left]. apply IH; [set_solver|].
  intros id e. destruct (Hl a) as (row & Hrow & Hsame); [set_solver|]. by apply (registerAgent_mirrored s a row).
Qed.

Lemma register_all_grows l r id :
  is_Some (ar_agents r !! id) ∨ (∀ n d, is_ok (new_runner n d) = true) ∧ (∃ a, a ∈ l ∧ id = ad_ID a) →
  is_Some (ar_agents (register_all new_runner ranged l r) !! id).
Proof.
  revert r. induction l as [|a l IH]; intros r; cbn [register_all fold_left].
  - intros [Hr|(_ & a & Ha%not_elem_of_nil & _)]; done.
  - intros [Hr|(Hok & a' & [->|Ha]%elem_of_cons & ->)]; apply IH.
    + left. apply registerAgent_grows. by left.
    + left. apply registerAgent_grows. by right.
    + right. split; [done|by exists a'].
Qed.

Lemma mirrored_other s s' id id' row e :
  ag_agents s' = <[id := row]> (ag_agents s) → id' ≠ id → mirrored s id' e → mirrored s' id' e.
Proof. intros Hs' Hne (row' & Hrow & Hsame). exists row'. by rewrite Hs', lookup_insert_ne. Qed.

(** A definition written to the store and registered. *)
Lemma registered_mirrors def s s' r row :
  (∀ n d, is_ok (new_runner n d) = true) → mirrors {| am_store := s; am_registry := r |} →
  same_agent def row → ag_agents s' = <[ad_ID def := row]> (ag_agents s) →
  mirrors {| am_store := s'; am_registry := (register def r).1 |}.
Proof.
  intros Hok [He Hd] Hsame Hs'. cbn [am_store am_registry] in *. split; cbn [am_store am_registry].
  - intros id e Hf. destruct (registerAgent_cases def r) as [(err & _ & Hn)|(x & -> & _)].
    + specialize (Hok (ad_Name def) (ad_Description def)). by rewrite Hn in Hok.
    + cbn. intros [[<- <-]|[Hne Hr]]%lookup_insert_Some.
      * apply (entry_mirrored s' def row); [done|]. by rewrite Hs', lookup_insert, decide_True.
      * apply (mirrored_other s s' (ad_ID def) id row); [done|congruence|by apply He].
  - intros id Hid. apply registerAgent_grows. rewrite Hs' in Hid.
    destruct (decide (id = ad_ID def)) as [->|]; [by right|left]. apply Hd. by rewrite lookup_insert_ne in Hid.
Qed.

Lemma step_mirrors o m :
  (∀ n d, is_ok (new_runner n d) = true) → op_allowed o → agents_keyed (am_store m) → mirrors m → mirrors (step m o).
Proof.
  intros Hok Hallowed Hk Hm. destruct m as [s r], o as [def|def|id|tenantID|def]; cbn [manager_step].
  - unfold CreateAgent. destruct (ads_Create _ _ _ _) as [s' [e|]] eqn:Hc; cbn [fst am_store am_registry] in *.
    + by rewrite (change_fails _ _ (CCreate def) _ _ _ Hc).
    + destruct (Create_agents _ _ _ Hc) as (row & Hsame & Hs'). by apply (registered_mirrors def s s' r row).
  - unfold UpdateAgent. destruct (ads_Update _ _ _ _) as [s' [e|]] eqn:Hc; cbn [fst am_store am_registry] in *.
    + by rewrite (change_fails _ _ (CUpdate def) _ _ _ Hc).
    + destruct (Update_agents _ _ _ Hc) as (row & Hsame & Hs'). by apply (registered_mirrors def s s' r row).
  - unfold DeleteAgent. destruct (ads_Delete _ _ _ _) as [s' [e|]] eqn:Hc; cbn [fst am_store am_registry] in *.
    + by rewrite (change_fails _ _ (CDelete id) _ _ _ Hc).
    + destruct (Delete_spec _ _ _ _ _ Hc) as [Hs' _], Hm as [He Hd]. cbn [am_store am_registry] in *.
      split; cbn [am_store am_registry Unregister ar_agents]; rewrite ?Hs'.
      * intros id' e Hf [Hne Hr]%lookup_delete_Some. destruct (He _ _ Hf Hr) as (row & Hrow & Hsame). exists row.
        by rewrite Hs', lookup_delete_ne.
      * intros id' [row [Hne Hrow]%lookup_delete_Some]. rewrite lookup_delete_ne by done. by apply Hd.
  - unfold LoadAllAgents. fold (listed tenantID (am_store {| am_store := s; am_registry := r |})).
    destruct (listed _ _) as [l|e] eqn:Hl; [|done]. cbn [fst am_store am_registry] in *. destruct Hm as [He Hd].
    cbn [am_store am_registry] in *. split; cbn [am_store am_registry].
    + apply register_all_mirrored; [|done]. intros a Ha. destruct (listed_rows _ _ _ _ Hk Hl Ha) as (row & Hrow & Hload).
      exists row. split; [done|by apply (load_same s)].
    + intros id Hid. apply register_all_grows. left. by apply Hd.
  - unfold RegisterAgent. cbn [am_registry am_store]. destruct (register def r) as [r' err] eqn:Hreg. destruct Hm as [He Hd].
    pose proof (registerAgent_grows def r) as Hgrow. rewrite Hreg in Hgrow. cbn [fst snd am_store am_registry] in *. split; cbn [am_store am_registry].
    + intros id e Hf Hr. apply He; [done|]. revert Hr. assert (id ≠ ad_ID def) as Hne by (intros ->; by apply Hf).
      destruct (registerAgent_cases def r) as [(x & Hx & _)|(x & Hx & _)]; rewrite Hx in Hreg; injection Hreg as <- _; [done|].
      cbn. by rewrite lookup_insert_ne.
    + intros id Hid. apply Hgrow. left. by apply Hd.
Qed.

(** Loading all agents into a registry that has foreign ones only. *)
Lemma load_mirrors m m' :
  (∀ n d, is_ok (new_runner n d) = true) → agents_keyed (am_store m) → dom (ar_agents (am_registry m)) ⊆ foreign →
  LoadAllAgents fault new_runner ranged "" m = (m', None) → mirrors m'.
Proof.
  intros Hok Hk Hr. unfold LoadAllAgents. fold (listed "" (am_store m)). destruct (listed _ _) as [l|e] eqn:Hl; [|done].
  intros [= <-]. split; cbn [am_store am_registry].
  - apply register_all_mirrored; [|intros id e Hf He; destruct Hf; apply Hr; apply elem_of_dom; by eexists]. intros a Ha.
    destruct (listed_rows _ _ _ _ Hk Hl Ha) as (row & Hrow & Hload). exists row. split; [done|by apply (load_same (am_store m))].
  - intros id [row Hrow]. apply register_all_grows. right. split; [done|]. unfold listed, ads_ListAll in Hl. cbn in Hl.
    destruct (fault _ _ _ _); [done|]. destruct (all_ok_in _ _ _ row Hl) as (a & Ha & Hload).
    + unfold newest_first. rewrite sort_slice_perm, elem_of_rows. split; [done|by exists id].
    + exists a. split; [done|]. rewrite <- (proj1 (load_same _ _ _ Hload)). by rewrite (Hk _ _ Hrow).
Qed.

(** ** Properties *)

(** C22: Take a well-formed registry, which may have agents of the configuration, and any
    history of the manager's operations.  Leaving aside the agents the registry began with
    and those given to [RegisterAgent], which writes no row: each registered agent has a row
    in the store; and each route leads to a registered agent.  If the history began with
    loading all agents successfully, and the library makes every runner it is asked for,
    then also each row has its agent in the registry, and of each agent that is not left
    aside the registry says what the row says. *)
Theorem registry_mirrors_store m0 ops (m := fold_left step ops m0) :
  agents_keyed (am_store m0) → registry_wf (am_registry m0) →
  dom (ar_agents (am_registry m0)) ⊆ foreign → (∀ def, MRegister def ∈ ops → ad_ID def ∈ foreign) →
  in_step m
  ∧ ((∀ n d, is_ok (new_runner n d) = true) → head ops = Some (MLoad "") →
     (LoadAllAgents fault new_runner ranged "" m0).2 = None → mirrors m).
Proof.
  intros Hk Hwf Hr Hops. assert (Forall op_allowed ops) as Hall.
  { apply Forall_forall. intros [def|def|id|t|def] Ho; try exact I. by apply Hops. }
  assert (in_step m0) as Hm0.
  { split; [done|]. split; [done|]. intros id Hf He. destruct Hf. apply Hr. by apply elem_of_dom. }
  assert (∀ ops m, Forall op_allowed ops → in_step m → in_step (fold_left step ops m)) as Hrun.
  { clear - H0. intros ops m Hall. revert m. induction Hall as [|o ops Ho _ IH]; intros m Hm; [done|]. by apply IH, step_in_step. }
  subst m. split; [by apply Hrun|].
  intros Hok Hhead Hload. destruct ops as [|o ops]; [done|]. injection Hhead as ->. apply Forall_cons in Hall as [_ Hall]. cbn [fold_left].
  assert (mirrors (step m0 (MLoad ""))) as Hm.
  { cbn [manager_step]. destruct (LoadAllAgents _ _ _ _ m0) as [m1 err] eqn:Hl. cbn in *. subst err. by apply (load_mirrors m0). }
  assert (in_step (step m0 (MLoad ""))) as Hstep by by apply step_in_step.
  clear - H0 Hok Hm Hstep Hall. revert Hm Hstep. generalize (step m0 (MLoad "")). induction Hall as [|o ops Ho _ IH]; intros m Hm Hstep; [done|].
  apply IH; [by apply step_mirrors; [..|apply Hstep|]|by apply step_in_step].
Qed.

(** ** Routes *)

Lemma best_loop_app msg l k best s bound :
  (bound ≤ s ∨ ∃ route, route ∈ l ∧ bound ≤ MatchScore route msg) →
  Forall (λ r, MatchScore r msg ≤ bound) k → best_loop msg (l ++ k) best s = best_loop msg l best s.
Proof.
  revert best s. induction l as [|r l IH]; intros best s Hb Hk; cbn [app best_loop].
  - destruct Hb as [Hb|(x & Hx%not_elem_of_nil & _)]; [|done]. apply best_loop_keep.
    eapply Forall_impl; [exact Hk|]. cbn. lia.
  - destruct (Z.ltb_spec s (MatchScore r msg)); (apply IH; [|done]);
      (destruct Hb as [Hb|(x & [->|Hx]%elem_of_cons & Hs)]; [left; lia|left; lia|right; by exists x]).
Qed.

Lemma buildRoutes_score def msg :
  Forall (λ r, MatchScore r msg ≤ 1) (route_with_agent (ad_ID def) <$> buildRoutes ranged def).
Proof.
  assert (∀ ch, MatchScore (route_with_agent (ad_ID def) (agent_route (ad_ID def) ch)) msg ≤ 1) as Hr.
  { intros ch. unfold MatchScore. cbn. cases_match; lia. }
  unfold buildRoutes. cbn. apply Forall_cons. split; [apply Hr|]. apply Forall_fmap, Forall_fmap, Forall_forall.
  intros ch _. apply Hr.
Qed.

(** Creating or updating an agent takes no message from another, and none from the agent
    itself: what a route of a channel matched before goes where it went, also when the
    channel is no longer enabled in the new definition. *)
Theorem update_keeps_routes def m m' msg order order2 order' order2' :
  CreateAgent fault commit_fault new_runner ranged def m = (m', None)
  ∨ UpdateAgent fault commit_fault new_runner ranged def m = (m', None) →
  (∃ route, route ∈ ar_routes (am_registry m) ∧ 1 ≤ MatchScore route msg) →
  ResolveRoute (am_registry m') order' order2' msg = ResolveRoute (am_registry m) order order2 msg.
Proof.
  intros Hop (route & Hin & Hscore). assert (am_registry m' = (register def (am_registry m)).1) as ->.
  { unfold CreateAgent, UpdateAgent in Hop.
    destruct Hop as [Hop|Hop]; [destruct (ads_Create _ _ _ _) as [? []]|destruct (ads_Update _ _ _ _) as [? []]]; by simplify_eq. }
  assert (∃ new, ar_routes (register def (am_registry m)).1 = ar_routes (am_registry m) ++ new
                 ∧ Forall (λ r, MatchScore r msg ≤ 1) new) as (new & Hnew & Hlow).
  { destruct (registerAgent_cases def (am_registry m)) as [(e & -> & _)|(x & -> & _)].
    - exists []. by rewrite app_nil_r.
    - eexists. split; [done|]. apply buildRoutes_score. }
  unfold ResolveRoute. rewrite Hnew, (best_loop_app msg _ _ None (-1) 1) by (done || right; by exists route).
  destruct (best_loop_result msg (ar_routes (am_registry m)) None (-1)) as [(l1 & r & l2 & _ & -> & _)|[_ Hall]]; [done|].
  rewrite Forall_forall in Hall. specialize (Hall _ Hin). cbn in Hall. lia.
Qed.

(** An agent that was deleted has no row, no runner and no route, and the others are what
    they were. *)
Theorem deleted_agent_is_gone id (m m' : manager Runner) :
  DeleteAgent fault commit_fault id m = (m', None) →
  ag_agents (am_store m') !! id = None ∧ GetRunner (am_registry m') id = None
  ∧ Forall (λ r, route_AgentID r ≠ id) (ar_routes (am_registry m'))
  ∧ (∀ j, j ≠ id → ag_agents (am_store m') !! j = ag_agents (am_store m) !! j
                  ∧ GetEntry (am_registry m') j = GetEntry (am_registry m) j)
  ∧ ∀ r, route_AgentID r ≠ id → r ∈ ar_routes (am_registry m') ↔ r ∈ ar_routes (am_registry m).
Proof.
  unfold DeleteAgent. destruct (ads_Delete _ _ _ _) as [s' [e|]] eqn:Hd; [done|]. intros [= <-].
  destruct (Delete_spec _ _ _ _ _ Hd) as [Hs' _]. cbn [am_store am_registry Unregister ar_routes]. unfold GetRunner, GetEntry.
  cbn [Unregister ar_agents]. rewrite Hs', !lookup_delete_eq. split; [done|]. split; [done|]. split.
  - apply Forall_forall. by intros r [Hne _]%list_elem_of_filter.
  - split; [intros j Hne; by rewrite !lookup_delete_ne|]. intros r Hne. rewrite list_elem_of_filter. naive_solver.
Qed.

(** One row whose configuration cannot be read keeps all agents from being loaded. *)
Theorem one_bad_row_loads_nothing (m : manager Runner) id row :
  ag_agents (am_store m) !! id = Some row → is_ok (load fault (am_store m) row) = false →
  ∃ e, LoadAllAgents fault new_runner ranged "" m = (m, Some e).
Proof.
  intros Hrow Hbad. unfold LoadAllAgents, ads_ListAll. change (str_empty "") with true. cbv iota.
  destruct (fault _ _ _ _) as [e|]; [by exists e|].
  destruct (all_ok _ _) as [l|e] eqn:Hl; [|by exists e]. exfalso. destruct (all_ok_in _ _ _ row Hl) as (a & _ & Hload).
  - unfold newest_first. rewrite sort_slice_perm, elem_of_rows. split; [done|by exists id].
  - by rewrite Hload in Hbad.
Qed.
End facts.

(** ** Witnesses *)

#[local] Existing Instance stable_sort.

Definition w_new_runner (name description : string) : result goerror string := Ok name.
Definition w_plain (id : string) (config : option payload) : mysql_AgentDefinition :=
  {| ad_ID := id; ad_TenantID := "t"; ad_Name := id; ad_Description := ""; ad_Avatar := ""; ad_Model := "m";
     ad_Provider := "primary"; ad_Status := "active"; ad_Config := config; ad_Channels := []; ad_CreatedAt := 3; ad_UpdatedAt := 3 |}.
Definition w_manager : manager string := {| am_store := w_stored; am_registry := NewAgentRegistry |}.
Definition w_history : list manager_op := [MLoad ""; MCreate (w_plain "h" None); MRegister (w_plain "c" None); MUpdate (w_plain "g" None)].
Definition w_managed : manager string :=
  fold_left (manager_step no_agent_fault no_commit_fault w_new_runner id) w_history w_manager.

(** The agent [c] was registered without a row. *)
Lemma registry_mirrors_store_witness :
  mirrors {["c"%string]} w_managed ∧ GetRunner (am_registry w_managed) "h" = Some "h"%string
  ∧ GetRunner (am_registry w_managed) "c" = Some "c"%string ∧ ag_agents (am_store w_managed) !! "c"%string = None.
Proof.
  split; [|split_and!; vm_compute; reflexivity].
  refine (proj2 (registry_mirrors_store no_agent_fault no_commit_fault w_new_runner id {["c"%string]} w_manager w_history _ _ _ _) _ _ _);
    [|apply (registry_run_wf [])| | |reflexivity..|vm_compute; reflexivity].
  - refine (bool_decide_unpack (map_Forall (λ id m, adm_ID m = id) (ag_agents w_stored)) _). vm_compute. exact I.
  - cbn. by rewrite dom_empty.
  - intros def Hdef. repeat (apply elem_of_cons in Hdef as [Hdef|Hdef]; [try discriminate Hdef; by injection Hdef as ->; apply elem_of_singleton|]).
    by apply not_elem_of_nil in Hdef.
Defined.

(** An agent of the channel [wecom] is updated to one without it. *)
Definition w_wecom : mysql_AgentDefinition :=
  w_plain "g" (Some {["channels" := JObj [("wecom", JObj [("enabled", JBool true)])]]}).
Definition w_routed : manager string :=
  {| am_store := w_stored; am_registry := (registerAgent w_new_runner id w_wecom NewAgentRegistry).1 |}.
Definition w_unrouted : manager string * option goerror :=
  UpdateAgent no_agent_fault no_commit_fault w_new_runner id (w_plain "g" None) w_routed.
Definition w_wecom_msg : InboundMessage :=
  {| in_Channel := "wecom"; in_TenantID := ""; in_UserID := ""; in_SenderID := ""; in_ChatID := "c"; in_Content := "";
     in_Media := []; in_Metadata := ∅; in_SessionKey := ""; in_AgentID := ""; in_Timestamp := 0 |}.

Lemma update_keeps_routes_witness :
  ResolveRoute (am_registry w_unrouted.1) [] [] w_wecom_msg = "g"%string.
Proof.
  rewrite (update_keeps_routes no_agent_fault no_commit_fault w_new_runner id (w_plain "g" None) w_routed w_unrouted.1
    w_wecom_msg [] [] [] []).
  - vm_compute; reflexivity.
  - right. fold w_unrouted. transitivity (w_unrouted.1, w_unrouted.2); [apply surjective_pairing|].
    f_equal.
  - exists (agent_route "g" "wecom"). split; [vm_compute; right; left|vm_compute; discriminate].
Defined.

Lemma deleted_agent_is_gone_witness :
  GetRunner (am_registry (DeleteAgent no_agent_fault no_commit_fault "g" w_managed).1) "g" = None
  ∧ GetEntry (am_registry (DeleteAgent no_agent_fault no_commit_fault "g" w_managed).1) "h" = GetEntry (am_registry w_managed) "h".
Proof.
  destruct (deleted_agent_is_gone no_agent_fault no_commit_fault w_new_runner "g" w_managed
    (DeleteAgent no_agent_fault no_commit_fault "g" w_managed).1) as (_ & Hr & _ & Ho & _).
  - transitivity ((DeleteAgent no_agent_fault no_commit_fault "g" w_managed).1, (DeleteAgent no_agent_fault no_commit_fault "g" w_managed).2);
      [apply surjective_pairing|]. f_equal.
  - split; [exact Hr|]. apply Ho. discriminate.
Defined.

Definition w_bad_row : AgentDefinitionModel :=
  {| adm_ID := "b"; adm_TenantID := "t"; adm_Name := "b"; adm_Description := ""; adm_Avatar := ""; adm_Model := "";
     adm_Provider := ""; adm_Status := ""; adm_Config := Some "{2"; adm_CreatedAt := 0; adm_UpdatedAt := 0 |}.
Definition w_bad_store : manager string :=
  {| am_store := {| ag_agents := <["b" := w_bad_row]> (ag_agents w_stored); ag_channels := ∅; ag_now := 7 |};
     am_registry := NewAgentRegistry |}.

Lemma one_bad_row_loads_nothing_witness :
  ∃ e, LoadAllAgents no_agent_fault w_new_runner id "" w_bad_store = (w_bad_store, Some e).
Proof.
  apply (one_bad_row_loads_nothing no_agent_fault w_new_runner id w_bad_store "b" w_bad_row).
  - vm_compute; reflexivity.
  - vm_compute; reflexivity.
Defined.
