(* ===== verification/Shell.v ===== *)
(** [pkg/tools/shell.go], [sandbox.go], [sandbox_container.go], [sandbox_gvisor.go] and the
    deny patterns of [security.go]: the tool that runs shell commands.

    The operating system is a parameter: what [exec.LookPath] and [os.Stat] find, the
    environment, and the run of a command, which changes the world and gives an exit code
    with two outputs or an error. *)
From stdpp Require Import pretty.
From S2P Require Import Prelude GoStrings Regex Types Stores Paths PathGuard FileTools.

(** ** security.go: the deny patterns *)

Definition blanks : re := rplus rspace.
Definition one_from (s : string) : re := RSet (λ c, existsb (Ascii.eqb c) (s2l s)).
Definition letters : re := RStar (RSet (λ c, is_upper_byte c || is_lower_byte c)).
(** Perhaps a dash and letters. *)
Definition flags : re := ropt (RSeq (rbyte "-") letters).
(** Words with blanks between them. *)
Definition spaced (a b : string) : re := rseq [rstr a; blanks; rstr b].
(** A word and one blank after it. *)
Definition word_blank (a : string) : re := rseq [rstr a; rspace].
(** A pipe into a shell. *)
Definition piped (shell : string) : re := rseq [rbyte "|"; RStar rspace; rstr shell; RWordB].
Definition fetched (tool : string) : re :=
  rseq [rstr tool; rspace; RStar rany; rbyte "|"; RStar rspace; RAlt (rstr "sh") (rstr "bash")].

(** Each pattern as it is written, and as an expression. *)
Definition DefaultDenyPatterns : list (string * re) := [
  ("rm\s+(-[a-zA-Z]*)?r", rseq [rstr "rm"; blanks; flags; rstr "r"]);
  ("rm\s+(-[a-zA-Z]*)?f", rseq [rstr "rm"; blanks; flags; rstr "f"]);
  ("del\s+/[fFsS]", rseq [rstr "del"; blanks; rstr "/"; one_from "fFsS"]);
  ("rmdir\s+/[sS]", rseq [rstr "rmdir"; blanks; rstr "/"; one_from "sS"]);
  ("format\s", word_blank "format"); ("mkfs\.", rstr "mkfs.");
  ("dd\s+if=", spaced "dd" "if="); (">\s*/dev/sd", rseq [rbyte ">"; RStar rspace; rstr "/dev/sd"]);
  (">\s*/dev/nvme", rseq [rbyte ">"; RStar rspace; rstr "/dev/nvme"]);
  ("shutdown", rstr "shutdown"); ("reboot", rstr "reboot"); ("poweroff", rstr "poweroff");
  ("halt\b", rseq [rstr "halt"; RWordB]);
  ("init\s+[0-6]", rseq [rstr "init"; blanks; one_from "0123456"]);
  ("systemctl\s+(halt|poweroff|reboot)",
     rseq [rstr "systemctl"; blanks; RAlt (rstr "halt") (RAlt (rstr "poweroff") (rstr "reboot"))]);
  ("sudo\s", word_blank "sudo"); ("su\s+-", spaced "su" "-"); ("doas\s", word_blank "doas");
  ("chmod\s+[0-7]*777", rseq [rstr "chmod"; blanks; RStar (one_from "01234567"); rstr "777"]);
  ("chmod\s+(-[a-zA-Z]*)?\+s", rseq [rstr "chmod"; blanks; flags; rstr "+s"]);
  ("chown\s", word_blank "chown"); ("chgrp\s", word_blank "chgrp");
  ("pkill\s", word_blank "pkill"); ("killall\s", word_blank "killall"); ("kill\s+-9", spaced "kill" "-9");
  ("\$\(", rstr "$("); ("\$\{", rstr "${"); ("`", rstr "`");
  ("\|\s*sh\b", piped "sh"); ("\|\s*bash\b", piped "bash"); ("\|\s*zsh\b", piped "zsh");
  ("\|\s*dash\b", piped "dash"); ("\|\s*ksh\b", piped "ksh");
  ("<<\s*EOF", rseq [rstr "<<"; RStar rspace; rstr "EOF"]); ("<<-\s*EOF", rseq [rstr "<<-"; RStar rspace; rstr "EOF"]);
  ("curl\s.*\|\s*(sh|bash)", fetched "curl"); ("wget\s.*\|\s*(sh|bash)", fetched "wget");
  ("npm\s+install\s+-g", rseq [rstr "npm"; blanks; rstr "install"; blanks; rstr "-g"]);
  ("pip\s+install\s+--user", rseq [rstr "pip"; blanks; rstr "install"; blanks; rstr "--user"]);
  ("apt\s+install", spaced "apt" "install"); ("apt-get\s+install", spaced "apt-get" "install");
  ("yum\s+install", spaced "yum" "install"); ("dnf\s+install", spaced "dnf" "install");
  ("ssh\s", word_blank "ssh"); ("scp\s", word_blank "scp");
  ("rsync\s.*:", rseq [rstr "rsync"; rspace; RStar rany; rbyte ":"]);
  ("git\s+push\s+(-[a-zA-Z]*)?f", rseq [rstr "git"; blanks; rstr "push"; blanks; flags; rstr "f"]);
  ("git\s+push\s+--force", rseq [rstr "git"; blanks; rstr "push"; blanks; rstr "--force"]);
  ("git\s+reset\s+--hard", rseq [rstr "git"; blanks; rstr "reset"; blanks; rstr "--hard"]);
  ("docker\s+run", spaced "docker" "run"); ("docker\s+exec", spaced "docker" "exec");
  ("\beval\s", rseq [RWordB; rstr "eval"; rspace]);
  ("source\s+.*\.sh", rseq [rstr "source"; blanks; RStar rany; rstr ".sh"]);
  (":\(\)\s*\{", rseq [rstr ":()"; RStar rspace; rbyte "{"]); ("fork\s*bomb", rseq [rstr "fork"; RStar rspace; rstr "bomb"]);
  ("fdisk\s", word_blank "fdisk"); ("parted\s", word_blank "parted"); ("lvm\s", word_blank "lvm");
  ("iptables\s", word_blank "iptables"); ("nft\s", word_blank "nft"); ("ufw\s", word_blank "ufw")
]%string.

Section shell.
Context `{UnicodeCase}.
(** [regexp.Compile] on the configured patterns, and what matches them. *)
Context (compile : string → option (string → bool)).

Inductive exec_error := BlockedByPolicy (pattern : string) | BlockedByCustom (pattern : string)
| MkdirFailed (e : goerror) | CommandRefused (e : command_error) | ExecFailed (e : goerror).

Definition compileDenyPatterns (patterns : list string) : list (string * (string → bool)) :=
  omap (λ p, pair p <$> compile p) patterns.

Definition ValidateCommand (cmd : string) (extraDeny : list string) : option exec_error :=
  let lower := to_lower cmd in
  match find_first (λ p, re_match p.2 lower) DefaultDenyPatterns with
  | Some (p, _) => Some (BlockedByPolicy p)
  | None =>
      match find_first (λ p, p.2 lower) (compileDenyPatterns extraDeny) with
      | Some (p, _) => Some (BlockedByCustom p)
      | None => None
      end
  end.

(** ** shell.go *)

Definition defaultExecTimeout : duration := 60 * Second.
Definition maxOutputLen : nat := 100 * 100.

Record ExecLimits := { el_MemoryMB : Z; el_CPUSeconds : Z; el_FileSizeMB : Z; el_NProc : Z }.

Definition wrapWithLimits (goos cmd : string) (limits : ExecLimits) : string :=
  if bool_decide (goos = "windows"%string) then cmd
  else
    let part (n : Z) (flag : string) (v : Z) : list string :=
      if 0 <? n then ["ulimit -" +:+ flag +:+ " " +:+ pretty (wrap64 v)] else [] in
    let parts := part (el_MemoryMB limits) "v" (el_MemoryMB limits * 1024) ++ part (el_CPUSeconds limits) "t" (el_CPUSeconds limits)
                 ++ part (el_FileSizeMB limits) "f" (el_FileSizeMB limits * 2048) ++ part (el_NProc limits) "u" (el_NProc limits) in
    match parts with [] => cmd | _ => join parts "; " +:+ "; " +:+ cmd end.

Definition list_separator (goos : string) : string := if bool_decide (goos = "windows"%string) then ";" else ":".

(** The first entry for the path gets the new directories in front, and one is made if there
    is none. *)
Fixpoint prepend_path (newPath : string) (env : list string) : option (list string) :=
  match env with
  | [] => None
  | e :: env => if has_prefix e "PATH=" then Some (("PATH=" +:+ newPath +:+ trim_prefix e "PATH=") :: env)
                else cons e <$> prepend_path newPath env
  end.

Definition workspaceEnv (goos wsDir : string) (env : list string) : list string :=
  let newPath := Join [wsDir; ".tools"; "bin"] +:+ list_separator goos
                 +:+ Join [wsDir; "node_modules"; ".bin"] +:+ list_separator goos in
  match prepend_path newPath env with
  | Some env => env
  | None => env ++ ["PATH=" +:+ newPath +:+ "/usr/local/bin:/usr/bin:/bin"]
  end.

(** [utf8.RuneStart], and [utf8.DecodeRuneInString] giving [RuneError], which is also the
    replacement character itself. *)
Definition rune_start (c : ascii) : bool := negb (is_cont c).
Definition rune_error (l : bytes) : bool :=
  match l with
  | [] => true
  | c :: _ => (rune_width l =? 1)%nat && negb (is_ascii_byte c) || bool_decide (take 3 l = ["239"; "191"; "189"]%char)
  end.

(** The loop over the last four bytes: [k] of them are left, at [i] downwards. *)
Fixpoint cut_rune (k i : nat) (l : bytes) : bytes :=
  match k with
  | O => l
  | S k =>
      match l !! i with
      | None => l
      | Some c => if rune_start c then (if rune_error (drop i l) then take i l else l)
                  else match i with O => l | S i => cut_rune k i l end
      end
  end.

Definition Truncate (s : string) (max : nat) : string :=
  let l := s2l s in
  if (length l <=? max)%nat then s
  else l2s (cut_rune 4 (max - 1) (take max l)) +:+ lf +:+ "... (Truncated)".
End shell.

(** ** sandbox.go *)

Inductive SandboxLevel :=
| SandboxNone | SandboxStandard | SandboxStrict | SandboxGVisor | SandboxContainer | SandboxUnset
| SandboxOther (s : string).

Definition level_string (l : SandboxLevel) : string :=
  match l with
  | SandboxNone => "none" | SandboxStandard => "standard" | SandboxStrict => "strict" | SandboxGVisor => "gvisor"
  | SandboxContainer => "container" | SandboxUnset => "" | SandboxOther s => s
  end.

Record SandboxOpts := {
  so_Level : SandboxLevel; so_HelperBinary : string;
  so_ContainerImage : string; so_ContainerRuntime : string; so_ContainerBinary : string; so_ContainerMemMB : Z;
  so_ContainerCPUs : string; so_ContainerPids : Z; so_ContainerNetwork : string; so_ContainerTmpMB : Z; so_ContainerDiskMB : Z;
  so_ContainerWorkspaceRoot : string; so_GVisorBinary : string; so_GVisorNetwork : bool;
}.

(** What of the operating system the choice of the sandbox depends on. *)
Record platform := {
  pf_GOOS : string; pf_LookPath : string → option string; pf_Exists : string → bool; pf_Executable : option string;
  pf_Getwd : option string;
}.

Record wrapped := { wr_bin : string; wr_args : list string; wr_sandboxed : bool }.

Section sandbox.
Context (pf : platform).

Definition plain_shell (shellCmd : string) : wrapped :=
  {| wr_bin := "sh"; wr_args := ["-c"%string; shellCmd]; wr_sandboxed := false |}.

Definition SandboxBinaryPath (explicit : string) : string :=
  if negb (str_empty explicit) && pf_Exists pf explicit then explicit
  else
    let candidate := (λ self, Join [Dir self; "abot-sandbox"%string]) <$> pf_Executable pf in
    match candidate with
    | Some c => if pf_Exists pf c then c else default "" (pf_LookPath pf "abot-sandbox")
    | None => default "" (pf_LookPath pf "abot-sandbox")
    end.

Definition abs_or_same (dir : string) : string := default dir (Abs (pf_Getwd pf) dir).

Definition resolveHostWorkspace (wsDir hostRoot : string) : string :=
  if str_empty hostRoot then wsDir
  else match index wsDir "workspace" with
       | None => wsDir
       | Some idx => Join [hostRoot; l2s (drop (idx + 9) (s2l wsDir))]
       end.

Definition first_found (names : list string) : string := default "" (head (omap (pf_LookPath pf) names)).

Definition resolveContainerBinary (explicit : string) : string :=
  if negb (str_empty explicit) then default "" (pf_LookPath pf explicit) else first_found ["docker"; "nerdctl"; "podman"].

Definition or_positive (n d : Z) : Z := if n <=? 0 then d else n.
Definition or_text (s d : string) : string := if str_empty s then d else s.

(** The arguments between [run --rm] and the workspace. *)
Definition container_flags (opts : SandboxOpts) : list string :=
  let tmp := pretty (or_positive (so_ContainerTmpMB opts) 100) in
  (if str_empty (so_ContainerRuntime opts) then [] else ["--runtime=" +:+ so_ContainerRuntime opts])
  ++ ["--memory=" +:+ pretty (or_positive (so_ContainerMemMB opts) 512) +:+ "m";
      "--cpus=" +:+ or_text (so_ContainerCPUs opts) "1";
      "--pids-limit=" +:+ pretty (or_positive (so_ContainerPids opts) 256);
      "--network=" +:+ or_text (so_ContainerNetwork opts) "none";
      "--read-only"; "--security-opt=no-new-privileges";
      "--tmpfs=/tmp:size=" +:+ tmp +:+ "m,exec"; "--tmpfs=/home/sandbox:size=" +:+ tmp +:+ "m";
      "-e"; "HOME=/home/sandbox"; "-e"; "NPM_CONFIG_CACHE=/tmp/.npm"; "-e"; "PIP_CACHE_DIR=/tmp/.pip";
      "-e"; "YARN_CACHE_FOLDER=/tmp/.yarn"]%string.

Definition workspace_mount (wsDir : string) (opts : SandboxOpts) : list string :=
  if str_empty wsDir then []
  else ["-v"; resolveHostWorkspace (abs_or_same wsDir) (so_ContainerWorkspaceRoot opts) +:+ ":/workspace"]%string.

Definition container_args (shellCmd wsDir : string) (opts : SandboxOpts) : list string :=
  ["run"; "--rm"] ++ container_flags opts ++ workspace_mount wsDir opts
  ++ ["-w"; "/workspace"; "--user"; "1000:1000"; or_text (so_ContainerImage opts) "abot/sandbox:latest"; "sh"; "-c"; shellCmd].

Definition wrapWithContainer (shellCmd wsDir : string) (opts : SandboxOpts) : wrapped :=
  let dockerBin := resolveContainerBinary (so_ContainerBinary opts) in
  if str_empty dockerBin then plain_shell shellCmd
  else {| wr_bin := dockerBin; wr_args := container_args shellCmd wsDir opts; wr_sandboxed := true |}.

Definition resolveRunsc (explicit : string) : string :=
  default "" (pf_LookPath pf (or_text explicit "runsc")).

Definition wrapWithGVisor (shellCmd wsDir : string) (opts : SandboxOpts) : wrapped :=
  if negb (bool_decide (pf_GOOS pf = "linux"%string)) then plain_shell shellCmd
  else
    let runscBin := resolveRunsc (so_GVisorBinary opts) in
    if str_empty runscBin then plain_shell shellCmd
    else {| wr_bin := runscBin;
            wr_args := ["do"] ++ (if so_GVisorNetwork opts then ["--network=host"] else [])
                       ++ (if str_empty wsDir then [] else ["--root=" +:+ abs_or_same wsDir]) ++ ["--"; "sh"; "-c"; shellCmd];
            wr_sandboxed := true |}.

Definition WrapWithSandbox (shellCmd wsDir : string) (opts : option SandboxOpts) : wrapped :=
  match opts with
  | None => plain_shell shellCmd
  | Some opts =>
      match so_Level opts with
      | SandboxNone | SandboxUnset => plain_shell shellCmd
      | SandboxContainer => wrapWithContainer shellCmd wsDir opts
      | SandboxGVisor => wrapWithGVisor shellCmd wsDir opts
      | level =>
          if negb (bool_decide (pf_GOOS pf = "linux"%string)) then plain_shell shellCmd
          else
            let helperPath := SandboxBinaryPath (so_HelperBinary opts) in
            if str_empty helperPath then plain_shell shellCmd
            else {| wr_bin := helperPath;
                    wr_args := ["--workspace=" +:+ wsDir; "--level=" +:+ level_string level; "--"; "sh"; "-c"; shellCmd];
                    wr_sandboxed := true |}
      end
  end.
End sandbox.

(** ** The tool *)

Record process := {
  pr_bin : string; pr_args : list string; pr_dir : string; pr_env : list string; pr_timeout : duration;
  pr_sandboxed : bool;
}.

Record exec_args := { xa_Command : string; xa_Timeout : Z }.
Record exec_result := { xr_Stdout : string; xr_Stderr : string; xr_ExitCode : Z }.

Record exec_deps := {
  xd_WorkspaceDir : string; xd_DenyPatterns : list string; xd_ExecLimits : option ExecLimits;
  xd_SandboxOpts : option SandboxOpts;
}.

Section exec.
Context `{UnicodeCase} (compile : string → option (string → bool)) (pf : platform) (environ : list string).
Context {W : Type} (mkdirAll : string → W → W * option goerror).
(** [cmd.Run]: the two outputs and the exit code, or an error that is not one. *)
Context (run_process : process → W → W * result goerror (string * string * Z)).

Definition container_mode (d : exec_deps) : bool :=
  match xd_SandboxOpts d with Some o => match so_Level o with SandboxContainer => true | _ => false end | None => false end.

Definition exec_timeout (args : exec_args) : duration :=
  if 0 <? xa_Timeout args then wrap64 (xa_Timeout args * Second) else defaultExecTimeout.

Definition exec_process (d : exec_deps) (ws : string) (args : exec_args) : process :=
  let shellCmd := match xd_ExecLimits d with
                  | Some limits => if container_mode d then xa_Command args
                                   else wrapWithLimits (pf_GOOS pf) (xa_Command args) limits
                  | None => xa_Command args
                  end in
  let w := if bool_decide (pf_GOOS pf = "windows"%string)
           then {| wr_bin := "powershell"; wr_args := ["-NoProfile"; "-NonInteractive"; "-Command"; shellCmd]; wr_sandboxed := false |}
           else WrapWithSandbox pf shellCmd ws (xd_SandboxOpts d) in
  {| pr_bin := wr_bin w; pr_args := wr_args w; pr_dir := ws; pr_env := workspaceEnv (pf_GOOS pf) ws environ;
     pr_timeout := exec_timeout args; pr_sandboxed := wr_sandboxed w |}.

Definition exec (d : exec_deps) (ctx : tool_ctx) (args : exec_args) (w : W) : W * result exec_error exec_result :=
  match ValidateCommand compile (xa_Command args) (xd_DenyPatterns d) with
  | Some e => (w, Err e)
  | None =>
      let ws := UserWorkspaceDir (xd_WorkspaceDir d) (tc_tenant ctx) (tc_user ctx) in
      match mkdirAll ws w with
      | (w, Some e) => (w, Err (MkdirFailed e))
      | (w, None) =>
          match ValidateWorkspaceCommand (pf_Getwd pf) (xa_Command args) ws with
          | Some e => (w, Err (CommandRefused e))
          | None =>
              match run_process (exec_process d ws args) w with
              | (w, Err e) => (w, Err (ExecFailed e))
              | (w, Ok (stdout, stderr, code)) =>
                  (w, Ok {| xr_Stdout := Truncate stdout maxOutputLen; xr_Stderr := Truncate stderr maxOutputLen;
                            xr_ExitCode := code |})
              end
          end
      end
  end.
End exec.

(** ** Deny patterns *)

(** A pattern found somewhere in a text. *)
Definition occurs (r : re) (l : bytes) : Prop := ∃ a b q, l = a ++ b ∧ q ∈ rmatch r (last a, b).

Lemma re_find_from_occurs r prev l :
  is_Some (re_find_from r prev l) ↔ ∃ a b q, l = a ++ b ∧ q ∈ rmatch r (match last a with Some c => Some c | None => prev end, b).
Proof.
  revert prev. induction l as [|c l IH]; intros prev; cbn [re_find_from].
  - destruct (rmatch r (prev, [])) as [|[q rest] ps] eqn:Hm.
    + split; [by intros []|]. intros (a & b & q & Hl & Hq). symmetry in Hl. apply app_eq_nil in Hl as [-> ->]. cbn in Hq.
      rewrite Hm in Hq. by apply not_elem_of_nil in Hq.
    + split; [intros _|by eexists]. exists [], [], (q, rest). split; [done|]. cbn. rewrite Hm. by left.
  - destruct (rmatch r (prev, c :: l)) as [|[q rest] ps] eqn:Hm.
    + rewrite IH. split; intros (a & b & q & Hl & Hq).
      * exists (c :: a), b, q. split; [by rewrite Hl|]. rewrite last_cons. by destruct (last a).
      * destruct a as [|d a]; cbn in Hl; [subst b; cbn in Hq; rewrite Hm in Hq; by apply not_elem_of_nil in Hq|].
        injection Hl as -> Hl. exists a, b, q. split; [done|]. rewrite last_cons in Hq. by destruct (last a).
    + split; [intros _|by eexists]. exists [], (c :: l), (q, rest). split; [done|]. cbn. rewrite Hm. by left.
Qed.

Lemma re_match_occurs r s : re_match r s = true ↔ occurs r (s2l s).
Proof.
  transitivity (is_Some (re_find r s)).
  - unfold re_match. destruct (re_find r s); split; [by eexists|done|done|by intros []].
  - unfold re_find. rewrite re_find_from_occurs. unfold occurs.
    split; intros (a & b & q & Hl & Hq); exists a, b, q; (split; [done|]); by destruct (last a).
Qed.

(** Without a word boundary, a pattern occurs where a text of its language stands. *)
Lemma occurs_lang r l : no_wordb r = true → occurs r l ↔ ∃ a k b, l = a ++ k ++ b ∧ lang r k.
Proof.
  intros Hr. split.
  - intros (a & b & [pr rest] & -> & Hq).
    destruct (proj1 (rmatch_lang r Hr _ _) (ex_intro _ pr Hq)) as (k & Hk & HL). cbn in Hk. subst b. by exists a, k, rest.
  - intros (a & k & b & -> & HL).
    destruct (proj2 (rmatch_lang r Hr (last a, k ++ b) b) (ex_intro _ k (conj eq_refl HL))) as [pr Hq]. by exists a, (k ++ b), (pr, b).
Qed.

(** A command is refused if and only if a default pattern, or a configured one that
    compiles, occurs in its lower-cased text. *)
Theorem ValidateCommand_spec `{UnicodeCase} compile cmd extraDeny :
  ValidateCommand compile cmd extraDeny ≠ None ↔
  (∃ p r, (p, r) ∈ DefaultDenyPatterns ∧ occurs r (s2l (to_lower cmd)))
  ∨ ∃ p f, p ∈ extraDeny ∧ compile p = Some f ∧ f (to_lower cmd) = true.
Proof.
  unfold ValidateCommand. destruct (find_first _ DefaultDenyPatterns) as [[p r]|] eqn:Hf.
  - apply find_first_elem in Hf as [Hin Hm]. split; [intros _; left|done]. exists p, r. by rewrite <- re_match_occurs.
  - apply find_first_None in Hf. rewrite Forall_forall in Hf.
    assert (¬ ∃ p r, (p, r) ∈ DefaultDenyPatterns ∧ occurs r (s2l (to_lower cmd))) as Hno.
    { intros (p & r & Hin & Ho%re_match_occurs). specialize (Hf _ Hin). cbn in Hf. congruence. }
    destruct (find_first _ (compileDenyPatterns compile extraDeny)) as [[p f]|] eqn:Hx.
    + apply find_first_elem in Hx as [Hin Hm]. split; [intros _; right|done].
      apply list_elem_of_omap in Hin as (p' & Hp' & Hc). destruct (compile p') as [f'|] eqn:Hcomp; [|done]. injection Hc as <- <-.
      by exists p', f'.
    + apply find_first_None in Hx. rewrite Forall_forall in Hx. split; [done|]. intros [?|(p & f & Hp & Hc & Hm)]; [done|].
      specialize (Hx (p, f)). cbn in Hx. rewrite Hx in Hm; [done|]. apply list_elem_of_omap. exists p. by rewrite Hc.
Qed.

(** The two patterns for here-documents are written in capitals and never match, since the
    text is lower-cased. *)
Theorem heredocs_pass `{UnicodeCase} cmd p r :
  (p, r) ∈ DefaultDenyPatterns → p = "<<\s*EOF"%string ∨ p = "<<-\s*EOF"%string → ¬ occurs r (s2l (to_lower cmd)).
Proof.
  intros Hin Hp Ho. assert (∃ r0, r = rseq [r0; RStar rspace; rstr "EOF"] ∧ no_wordb r = true) as (r0 & -> & Hr).
  { repeat (apply elem_of_cons in Hin as [Hin|Hin]; [injection Hin as -> ->; destruct Hp as [Hp|Hp]; try discriminate;
      eexists; split; reflexivity|]). by apply not_elem_of_nil in Hin. }
  apply occurs_lang in Ho as (a & k & b & Hl & (ks & -> & Hks)%lang_rseq); [|done].
  apply Forall2_cons_inv_l in Hks as (k0 & ks0 & _ & Hks & ->). apply Forall2_cons_inv_l in Hks as (k1 & ks1 & _ & Hks & ->).
  apply Forall2_cons_inv_l in Hks as (k2 & ks2 & (es & -> & Hes)%lang_rseq & _ & ->).
  apply Forall2_cons_inv_l in Hes as (e & es1 & ->%lang_byte & _ & ->).
  pose proof (to_lower_no_upper cmd) as Hup. rewrite Hl, Forall_forall in Hup.
  specialize (Hup "E"%char). cbn in Hup. discriminate Hup. rewrite !elem_of_app. set_solver.
Qed.

(** The list is a list of words: a flag in between, or a long flag, passes. *)
Lemma deny_gaps :
  let H := bytewise_case in
  ValidateCommand (λ _, None) "rm -i -rf /" [] = None ∧ ValidateCommand (λ _, None) "rm --recursive --force x" [] = None
  ∧ ValidateCommand (λ _, None) "echo perform reviews" [] ≠ None.
Proof. vm_compute. done. Qed.

(** ** Truncation *)

(** The bytes of one rune, and texts made of runes. *)
Definition rune (r : bytes) : Prop :=
  (∃ c, r = [c] ∧ is_ascii_byte c = true) ∨ (2 ≤ length r)%nat ∧ rune_width r = length r.
Definition valid_utf8 (l : bytes) : Prop := ∃ rs, l = concat rs ∧ Forall rune rs.

Lemma valid_utf8_app l k : valid_utf8 l → valid_utf8 k → valid_utf8 (l ++ k).
Proof. intros (rs & -> & Hr) (ss & -> & Hs). exists (rs ++ ss). rewrite concat_app. split; [done|by apply Forall_app]. Qed.

Lemma lead_of_spec c w second : lead_of c = Some (w, second) →
  is_cont c = false ∧ is_ascii_byte c = false ∧ (2 ≤ w ≤ 4)%nat ∧ ∀ d, second d = true → is_cont d = true.
Proof.
  unfold lead_of, is_cont, is_ascii_byte, byte_in. intros H.
  repeat match type of H with (if ?b then _ else _) = _ => destruct b eqn:?; [injection H as <- <-; split_and!; try lia; intros d Hd; lia|] end.
  done.
Qed.

(** A rune of several bytes: a leading byte and continuations. *)
Lemma rune_shape r : rune r →
  ∃ c t, r = c :: t ∧ is_cont c = false ∧ Forall (λ d, is_cont d = true) t ∧ (length t ≤ 3)%nat
    ∧ (t = [] ∧ is_ascii_byte c = true ∨ ∃ second, lead_of c = Some (length r, second)).
Proof.
  intros [(c & -> & Hc)|[Hl Hw]].
  - exists c, []. split; [done|]. split; [|split; [constructor|split; [cbn; lia|by left]]].
    unfold is_cont, byte_in, is_ascii_byte in *. lia.
  - destruct r as [|c t]; [cbn in Hl; lia|]. exists c, t. unfold rune_width in Hw. cbn [length] in *.
    destruct (lead_of c) as [[w second]|] eqn:Hlead; [|lia]. destruct (lead_of_spec _ _ _ Hlead) as (Hc & _ & Hw4 & Hsec).
    destruct (take (w - 1) t) as [|d tail] eqn:Ht; [lia|].
    destruct (second d && forallb is_cont tail && (length tail =? w - 2)%nat) eqn:Hok; [|lia].
    apply andb_true_iff in Hok as [[Hd Htail]%andb_true_iff Hlen]. subst w.
    rewrite take_ge in Ht by lia. subst t. split_and!; [done|done| |cbn in *; lia|right; by exists second].
    constructor; [by apply Hsec|]. apply Forall_forall. intros x Hx. rewrite forallb_forall in Htail. apply Htail. by apply list_elem_of_In.
Qed.

(** A rune that is cut short is an error. *)
Lemma partial_rune_error c t second n :
  lead_of c = Some (n, second) → (S (length t) < n)%nat → rune_error (c :: t) = true.
Proof.
  intros Hlead Hn. destruct (lead_of_spec _ _ _ Hlead) as (_ & Ha & Hw & _). unfold rune_error, rune_width. rewrite Hlead, Ha.
  rewrite take_ge by lia. destruct t as [|d tail]; [done|].
  assert ((length tail =? n - 2)%nat = false) as -> by (apply Nat.eqb_neq; cbn in Hn; lia). by rewrite andb_false_r.
Qed.

(** Scanning back over continuation bytes to the start of a rune. *)
Lemma cut_rune_back a c t k j :
  is_cont c = false → Forall (λ d, is_cont d = true) t → (j ≤ length t)%nat → (j < k)%nat →
  cut_rune k (length a + j) (a ++ c :: t) = if rune_error (c :: t) then a else a ++ c :: t.
Proof.
  intros Hc Ht. revert j. induction k as [|k IH]; intros j Hj Hk; [lia|]. cbn [cut_rune].
  rewrite lookup_app_r by lia. replace (length a + j - length a)%nat with j by lia. destruct j as [|j].
  - cbn [lookup list_lookup]. unfold rune_start. rewrite Hc. cbn [negb]. rewrite Nat.add_0_r, drop_app_length, take_app_length. done.
  - cbn [lookup list_lookup]. destruct (t !! j) as [d|] eqn:Hd; [|apply lookup_ge_None in Hd; lia].
    rewrite Forall_lookup in Ht. unfold rune_start. rewrite (Ht _ _ Hd). cbn [negb]. rewrite Nat.add_succ_r. cbn [lookup].
    apply IH; lia.
Qed.

Lemma cut_rune_prefix k i l : ∃ m, cut_rune k i l = take m l ∧ (length l ≤ m ∨ S i - k ≤ m)%nat.
Proof.
  revert i. induction k as [|k IH]; intros i; cbn [cut_rune]; [exists (length l); rewrite take_ge by lia; split; [done|lia]|].
  assert (∃ m, l = take m l ∧ (length l ≤ m ∨ S i - S k ≤ m)%nat) as Hall by (exists (length l); rewrite take_ge by lia; split; [done|lia]).
  destruct (l !! i) as [c|]; [|done]. destruct (rune_start c).
  - destruct (rune_error _); [|done]. exists i. split; [done|lia].
  - destruct i as [|i]; [done|]. destruct (IH i) as (m & Hm & Hle). exists m. split; [done|]. lia.
Qed.

(** Where a text of runes is cut: a text of runes, and perhaps the beginning of a rune. *)
Lemma take_runes rs n :
  Forall rune rs → ∃ rs1 p, take n (concat rs) = concat rs1 ++ p ∧ Forall rune rs1
    ∧ (p = [] ∨ ∃ r q, rune r ∧ r = p ++ q ∧ p ≠ [] ∧ q ≠ []).
Proof.
  intros Hrs. revert n. induction Hrs as [|r rs Hr Hrs IH]; intros n.
  - exists [], []. split; [by destruct n|]. split; [constructor|by left].
  - cbn [concat]. destruct (decide (length r ≤ n)%nat) as [Hle|Hgt].
    + destruct (IH (n - length r)%nat) as (rs1 & p & Ht & Hrs1 & Hp). exists (r :: rs1), p. cbn [concat].
      rewrite take_app_ge by done. rewrite Ht, app_assoc. split; [done|]. split; [by constructor|done].
    + exists [], (take n r). rewrite take_app_le by lia. split; [done|]. split; [done|].
      destruct (decide (n = 0)%nat) as [->|Hn]; [by left|right]. exists r, (drop n r). split; [done|]. split; [by rewrite take_drop|].
      split; intros Hnil%(f_equal length); rewrite ?length_take, ?length_drop in Hnil; cbn in Hnil; lia.
Qed.

Lemma cut_rune_valid l n :
  valid_utf8 l → (0 < n)%nat → (n < length l)%nat → valid_utf8 (cut_rune 4 (n - 1) (take n l)).
Proof.
  intros (rs & -> & Hrs) Hn0 Hn. destruct (take_runes rs n Hrs) as (rs1 & p & Ht & Hrs1 & Hp).
  assert (length (concat rs1 ++ p) = n) as Hlen by (rewrite <- Ht, length_take; lia). rewrite Ht.
  destruct Hp as [->|(r & q & Hr & -> & Hp & Hq)].
  - rewrite app_nil_r in *. destruct rs1 as [|r rs2 _] using rev_ind; [cbn in Hlen; lia|].
    apply Forall_app in Hrs1 as [Hrs2 Hr%Forall_cons]. destruct Hr as [Hr _]. rewrite concat_app in *. cbn [concat] in *. rewrite app_nil_r in *.
    destruct (rune_shape r Hr) as (c & t & -> & Hc & Htail & Hlt & _). rewrite length_app in Hlen. cbn [length] in Hlen.
    replace (n - 1)%nat with (length (concat rs2) + length t)%nat by lia. rewrite cut_rune_back by (done || lia).
    destruct (rune_error _); [by exists rs2|]. apply valid_utf8_app; [by exists rs2|]. exists [c :: t]. cbn. rewrite app_nil_r.
    split; [done|]. by constructor.
  - destruct (rune_shape _ Hr) as (c & t & Hct & Hc & Htail & Hlt & Hkind). destruct p as [|c' p]; [done|]. cbn in Hct.
    injection Hct as -> <-. apply Forall_app in Htail as [Hptail _]. rewrite length_app in Hlt, Hlen. cbn [length] in Hlen.
    assert (length q ≠ 0%nat) by (by intros ?%nil_length_inv).
    replace (n - 1)%nat with (length (concat rs1) + length p)%nat by lia. rewrite cut_rune_back by (done || lia).
    destruct Hkind as [[Hnil _]|[second Hlead]]; [by apply app_eq_nil in Hnil as [_ ->]|].
    rewrite (partial_rune_error c p second _ Hlead); [by exists rs1|]. cbn [length app]. rewrite length_app. lia.
Qed.

(** A text over the limit is cut to a beginning that is at most four bytes shorter than the
    limit, with a note; a text that is valid UTF-8 is cut between two runes. *)
Theorem Truncate_spec s max :
  ((str_len s ≤ max)%nat → Truncate s max = s)
  ∧ ((max < str_len s)%nat → ∃ k rest, Truncate s max = k +:+ lf +:+ "... (Truncated)" ∧ s = k +:+ rest
      ∧ (max - 4 ≤ str_len k ≤ max)%nat ∧ (valid_utf8 (s2l s) → valid_utf8 (s2l k))).
Proof.
  unfold Truncate, str_len. destruct (Nat.leb_spec (length (s2l s)) max) as [Hle|Hgt]; (split; [intros Hl|intros Hl]); try done; try lia.
  destruct (cut_rune_prefix 4 (max - 1) (take max (s2l s))) as (m & Hm & Hbound). rewrite length_take in Hbound.
  exists (l2s (cut_rune 4 (max - 1) (take max (s2l s)))), (l2s (drop (m `min` max) (s2l s))). split; [done|].
  rewrite s2l_l2s, Hm, take_take. split; [by rewrite <- l2s_app, take_drop, l2s_s2l|]. split; [rewrite length_take; lia|].
  intros Hv. rewrite <- take_take, <- Hm. destruct (decide (max = 0)%nat) as [->|Hne]; [by exists []|]. by apply cut_rune_valid; [|lia..].
Qed.

(** ** The sandbox *)

Ltac ends := repeat first [reflexivity | apply suffix_app_r | apply suffix_cons_r].

(** Whatever the sandbox, the command is one argument, after [-c] at the end; without one it
    is given to the plain shell.  In a container everything but the workspace is read-only,
    nothing else of the host is mounted, the command has no other user's rights, and unless
    another network is configured it has none. *)
Theorem WrapWithSandbox_spec pf shellCmd wsDir opts (r := WrapWithSandbox pf shellCmd wsDir opts) :
  ["-c"%string; shellCmd] `suffix_of` wr_args r
  ∧ (wr_sandboxed r = false → r = plain_shell shellCmd)
  ∧ ∀ o, opts = Some o → so_Level o = SandboxContainer → wr_sandboxed r = true →
      ∃ image,
        wr_args r = ["run"; "--rm"]%string ++ container_flags o ++ workspace_mount pf wsDir o
                    ++ ["-w"; "/workspace"; "--user"; "1000:1000"; image; "sh"; "-c"; shellCmd]%string
        ∧ "--read-only"%string ∈ container_flags o ∧ "--security-opt=no-new-privileges"%string ∈ container_flags o
        ∧ ("-v"%string ∉ container_flags o) ∧ (so_ContainerNetwork o = ""%string → "--network=none"%string ∈ container_flags o).
Proof.
  subst r. split; [|split].
  - unfold WrapWithSandbox, wrapWithContainer, wrapWithGVisor.
    assert (["-c"%string; shellCmd] `suffix_of` wr_args (plain_shell shellCmd)) as Hplain by done.
    destruct opts as [o|]; [|done]. destruct (so_Level o); try done;
      try (destruct (str_empty (resolveContainerBinary _ _)); [done|by cbn [wr_args]; unfold container_args; ends]);
      (destruct (negb _); [done|]);
      (destruct (str_empty (resolveRunsc _ _)) || destruct (str_empty (SandboxBinaryPath _ _))); try done; cbn [wr_args]; by ends.
  - unfold WrapWithSandbox, wrapWithContainer, wrapWithGVisor. destruct opts as [o|]; [|done].
    destruct (so_Level o); try done; try (destruct (str_empty (resolveContainerBinary _ _)); done);
      (destruct (negb _); [done|]); (destruct (str_empty (resolveRunsc _ _)) || destruct (str_empty (SandboxBinaryPath _ _))); done.
  - intros o -> Hlevel. unfold WrapWithSandbox. rewrite Hlevel. unfold wrapWithContainer.
    destruct (str_empty (resolveContainerBinary _ _)); [done|]. intros _. cbn [wr_args]. unfold container_args.
    eexists. split; [reflexivity|]. unfold container_flags. rewrite !elem_of_app. split; [right; set_solver|].
    split; [right; set_solver|]. split; [|intros ->; right; unfold or_text; set_solver].
    intros [Hv|Hv].
    + destruct (str_empty _); [by apply not_elem_of_nil in Hv|]. by apply list_elem_of_singleton in Hv.
    + repeat (apply elem_of_cons in Hv as [Hv|Hv]; [discriminate Hv|]). by apply not_elem_of_nil in Hv.
Qed.

(** ** The tool *)

Section exec_properties.
Context `{UnicodeCase} (compile : string → option (string → bool)) (pf : platform) (environ : list string).
Context {W : Type} (mkdirAll : string → W → W * option goerror).
Context (run_process : process → W → W * result goerror (string * string * Z)).

(** What a command must be to run: none of the forbidden patterns occurs in its lower-cased
    text, and with a workspace it does not lead out of it as far as its words tell. *)
Definition may_run (d : exec_deps) (ws : string) (args : exec_args) : Prop :=
  (¬ ∃ p r, (p, r) ∈ DefaultDenyPatterns ∧ occurs r (s2l (to_lower (xa_Command args))))
  ∧ (∀ p f, p ∈ xd_DenyPatterns d → compile p = Some f → f (to_lower (xa_Command args)) = false)
  ∧ (ws ≠ ""%string → stays_inside (pf_Getwd pf) ws (xa_Command args)).

Lemma guards_passed d ws args :
  (∀ wd, pf_Getwd pf = Some wd → IsAbs wd = true) → ValidateCommand compile (xa_Command args) (xd_DenyPatterns d) = None →
  ValidateWorkspaceCommand (pf_Getwd pf) (xa_Command args) ws = None → may_run d ws args.
Proof.
  intros Hwd Hv Hw. assert (¬ ValidateCommand compile (xa_Command args) (xd_DenyPatterns d) ≠ None) as Hno by (intros Hne; by apply Hne).
  rewrite ValidateCommand_spec in Hno. split; [|split].
  - intros Hp. apply Hno. by left.
  - intros p f Hp Hf. destruct (f (to_lower (xa_Command args))) eqn:Hm; [|done]. destruct Hno. right. by exists p, f.
  - intros Hws. by apply ValidateWorkspaceCommand_inside.
Qed.

(** C15: A command is run at most once, in the directory of the caller's workspace, and only
    when no default pattern and no configured pattern that compiles occurs in its lower-cased
    text, it has no [../] in it, and every word of it that begins with a slash is the
    workspace or a path below it; a word is what stands between blanks, tabs and the signs
    for pipes, redirections and sequences, so that a path after a quote or an equals sign is
    no such word and is not looked at.  Without a configured workspace the last two are not
    asked.  A command that is not run is answered with an error, and at most the directory of
    the workspace is made.  What is returned of the outputs is bounded. *)
Theorem exec_spec d ctx args w w' r (ws := UserWorkspaceDir (xd_WorkspaceDir d) (tc_tenant ctx) (tc_user ctx)) :
  (∀ wd, pf_Getwd pf = Some wd → IsAbs wd = true) →
  exec compile pf environ mkdirAll run_process d ctx args w = (w', r) →
  (w' = w ∨ w' = (mkdirAll ws w).1) ∧ is_ok r = false
  ∨ may_run d ws args ∧ ∃ w1 out,
      mkdirAll ws w = (w1, None) ∧ run_process (exec_process pf environ d ws args) w1 = (w', out)
      ∧ pr_dir (exec_process pf environ d ws args) = ws
      ∧ match out, r with
        | Ok (_, _, code), Ok x => xr_ExitCode x = code ∧ (str_len (xr_Stdout x) ≤ maxOutputLen + 16)%nat
                                  ∧ (str_len (xr_Stderr x) ≤ maxOutputLen + 16)%nat
        | Err e, Err e' => e' = ExecFailed e
        | _, _ => False
        end.
Proof.
  intros Hwd. assert (∀ s, (str_len (Truncate s maxOutputLen) ≤ maxOutputLen + 16)%nat) as Hlen.
  { intros s. unfold Truncate, str_len. generalize maxOutputLen. intros n. destruct (Nat.leb_spec (length (s2l s)) n); [lia|].
    destruct (cut_rune_prefix 4 (n - 1) (take n (s2l s))) as (m & -> & _). rewrite !s2l_app, !length_app, s2l_l2s, !length_take. cbn. lia. }
  unfold exec. fold ws. destruct (ValidateCommand _ _ _) as [e|] eqn:Hv; [intros [= <- <-]; left; split; [by left|done]|].
  destruct (mkdirAll ws w) as [w1 [e|]] eqn:Hm; [intros [= <- <-]; left; split; [by right|done]|].
  destruct (ValidateWorkspaceCommand _ _ _) as [e|] eqn:Hw; [intros [= <- <-]; left; split; [by right|done]|].
  destruct (run_process _ w1) as [w2 out] eqn:Hr. intros Heq. right. split; [by apply guards_passed|]. exists w1, out.
  destruct out as [[[out err] code]|e]; injection Heq as <- <-; (split; [done|]; split; [done|]; split; [done|]); [|done].
  split; [done|]. split; apply Hlen.
Qed.
End exec_properties.

(** ** Witnesses *)

(** A world that records the processes that were run. *)
Definition w_run_process (p : process) (w : list process) : list process * result goerror (string * string * Z) :=
  (w ++ [p], Ok ("out", "", 0)).
Definition w_mkdir (p : string) (w : list process) : list process * option goerror := (w, None).
Definition w_platform : platform :=
  {| pf_GOOS := "linux"; pf_LookPath := λ n, if bool_decide (n = "docker") then Some "/usr/bin/docker" else None;
     pf_Exists := λ _, false; pf_Executable := None; pf_Getwd := Some "/" |}.
Definition w_container : SandboxOpts :=
  {| so_Level := SandboxContainer; so_HelperBinary := ""; so_ContainerImage := ""; so_ContainerRuntime := "runsc";
     so_ContainerBinary := ""; so_ContainerMemMB := 0; so_ContainerCPUs := ""; so_ContainerPids := 0; so_ContainerNetwork := "";
     so_ContainerTmpMB := 0; so_ContainerDiskMB := 0; so_ContainerWorkspaceRoot := "/data/abot/workspace"; so_GVisorBinary := ""; so_GVisorNetwork := false |}.
Definition w_exec_deps : exec_deps :=
  {| xd_WorkspaceDir := "/app/workspace"; xd_DenyPatterns := []; xd_ExecLimits := None; xd_SandboxOpts := Some w_container |}.
Definition w_exec (cmd : string) : list process * result exec_error exec_result :=
  exec (H := bytewise_case) (λ _, None) w_platform ["PATH=/bin"] w_mkdir w_run_process w_exec_deps
    {| tc_tenant := "t1"; tc_user := "u1" |} {| xa_Command := cmd; xa_Timeout := 0 |} [].

Lemma w_getwd_abs wd : pf_Getwd w_platform = Some wd → IsAbs wd = true.
Proof. by intros [= <-]. Qed.

Lemma exec_spec_witness :
  length (w_exec "make test").1 = 1%nat ∧ (w_exec "cat /etc/passwd").1 = [] ∧ is_ok (w_exec "make test").2 = true.
Proof.
  assert (is_ok (w_exec "make test").2 = true) as Hok by (vm_compute; reflexivity).
  destruct (exec_spec (H := bytewise_case) (λ _, None) w_platform ["PATH=/bin"] w_mkdir w_run_process w_exec_deps
    {| tc_tenant := "t1"; tc_user := "u1" |} {| xa_Command := "make test"; xa_Timeout := 0 |} [] _ _
    w_getwd_abs (surjective_pairing (w_exec "make test"))) as [[_ Hbad]|(_ & w1 & out & Hm & Hr & _)].
  - rewrite Hok in Hbad. discriminate Hbad.
  - injection Hm as <-. split; [|split; [vm_compute; reflexivity|exact Hok]].
    apply (f_equal fst) in Hr. cbn [w_run_process fst] in Hr. rewrite <- Hr. reflexivity.
Defined.

(** A path in quotes is no word that begins with a slash, and the command is run. *)
Lemma quoted_path_runs : length (w_exec "cat '/etc/passwd'").1 = 1%nat ∧ is_ok (w_exec "cat '/etc/passwd'").2 = true.
Proof. by vm_compute. Qed.

(** The translation of a workspace into the host's, as its comment has it; the directory is
    looked for anywhere in the path, and a longer name is cut. *)
Lemma host_workspace_examples :
  resolveHostWorkspace "/app/workspace/t1/u1" "/data/abot/workspace" = "/data/abot/workspace/t1/u1"%string
  ∧ resolveHostWorkspace "/home/workspaces/t1/u1" "/data/ws" = "/data/ws/s/t1/u1"%string.
Proof. vm_compute. done. Qed.
