(* ===== verification/Web.v ===== *)
(** [pkg/tools/web.go]: the tools that search the web and fetch pages.

    The resolver, connections and the exchange of a request on a connection are parameters
    that change the world; a connection is opened for each request.  Of [net/http] the
    following of redirects is written out.  [url.Parse] and the JSON indentation are
    parameters.  A slice out of range is a panic, [None]. *)
From S2P Require Import Prelude GoStrings Types Paths.

Definition maxFetchBytes : nat := 50 * 1024.
Definition maxSearchRespBytes : nat := 256 * 1024.
Definition maxRedirects : nat := 5.

(** ** Addresses *)

(** [net.IP]: 4 or 16 bytes. *)
Abbreviation IP := (list Z) (only parsing).

Definition To4 (ip : IP) : option IP :=
  if bool_decide (length ip = 4%nat) then Some ip
  else if bool_decide (length ip = 16%nat) && bool_decide (take 12 ip = replicate 10 0 ++ [255; 255]) then Some (drop 12 ip)
  else None.

(** [net.IPNet]: the network number and the mask. *)
Record IPNet := { n_IP : IP; n_Mask : list Z }.

(** [net.CIDRMask] for a number of bytes. *)
Fixpoint CIDRMask (ones : Z) (bytes : nat) : list Z :=
  match bytes with
  | O => []
  | S bytes => Z.land 255 (Z.shiftl 255 (8 - Z.max 0 (Z.min ones 8))) :: CIDRMask (ones - 8) bytes
  end.

Definition Contains (n : IPNet) (ip : IP) : bool :=
  let ip := default ip (To4 ip) in
  bool_decide (length ip = length (n_IP n))
  && bool_decide (zip_with Z.land (n_IP n) (n_Mask n) = zip_with Z.land ip (n_Mask n)).

Definition cidr (ip : IP) (ones : Z) : IPNet := {| n_IP := ip; n_Mask := CIDRMask ones (length ip) |}.

Definition privateNets : list IPNet := [
  cidr [127; 0; 0; 0] 8; cidr [10; 0; 0; 0] 8; cidr [172; 16; 0; 0] 12;
  cidr [192; 168; 0; 0] 16; cidr [169; 254; 0; 0] 16; cidr [0; 0; 0; 0] 8;
  cidr (replicate 15 0 ++ [1]) 128; cidr (252 :: replicate 15 0) 7; cidr (254 :: 128 :: replicate 14 0) 10 ].

Definition isPrivateIP (ip : IP) : bool := existsb (λ n, Contains n ip) privateNets.

(** ** Connections *)

Record url := { u_Scheme : string; u_Host : string; u_addr : string }.
(** The body of an answer, and the error that ends it if it breaks off. *)
Record web_reply := { wr_Status : Z; wr_ContentType : string; wr_Body : bytes; wr_Err : option goerror }.
Inductive web_answer := Answer (r : web_reply) | Moved (u : url).

Section web.
Context `{UnicodeCase}.
Context {W C : Type} (SplitHostPort : string → result goerror (string * string)).
Context (LookupIPAddr : string → W → W * result goerror (list IP)).
Context (dial : IP → string → W → W * result goerror C).
Context (exchange : C → url → W → W * result goerror web_answer).

(** The world and the connections opened so far. *)
Record net := { nt_world : W; nt_dialled : list (IP * string) }.

(** [DialContext] of [ssrfSafeTransport]. *)
Definition DialContext (addr : string) (s : net) : option (net * result goerror C) :=
  match SplitHostPort addr with
  | Err e => Some (s, Err e)
  | Ok (host, port) =>
      match LookupIPAddr host (nt_world s) with
      | (w, Err e) => Some ({| nt_world := w; nt_dialled := nt_dialled s |}, Err e)
      | (w, Ok ips) =>
          if existsb isPrivateIP ips
          then Some ({| nt_world := w; nt_dialled := nt_dialled s |}, Err (ErrText "SSRF blocked"))
          else
            match ips with
            | [] => None
            | ip :: _ =>
                let '(w, r) := dial ip port w in
                Some ({| nt_world := w; nt_dialled := nt_dialled s ++ [(ip, port)] |}, r)
            end
      end
  end.

Definition web_scheme (u : url) : bool := bool_decide (u_Scheme u = "http" ∨ u_Scheme u = "https")%string.

(** [client.Do]: redirects are followed until [CheckRedirect] refuses, [hops] more. *)
Fixpoint client_do (hops : nat) (u : url) (s : net) : option (net * result goerror web_reply) :=
  if negb (web_scheme u) then Some (s, Err (ErrText "unsupported protocol scheme"))
  else
    '(s, r) ← DialContext (u_addr u) s;
    match r with
    | Err e => Some (s, Err e)
    | Ok conn =>
        let '(w, a) := exchange conn u (nt_world s) in
        let s := {| nt_world := w; nt_dialled := nt_dialled s |} in
        match a with
        | Err e => Some (s, Err e)
        | Ok (Answer r) => Some (s, Ok r)
        | Ok (Moved u') =>
            match hops with
            | O => Some (s, Err (ErrText "too many redirects"))
            | S hops => client_do hops u' s
            end
        end
    end.

(** [io.ReadAll(io.LimitReader(body, limit))]. *)
Definition read_limited (limit : nat) (r : web_reply) : result goerror bytes :=
  if (limit <=? length (wr_Body r))%nat then Ok (take limit (wr_Body r))
  else match wr_Err r with Some e => Err e | None => Ok (wr_Body r) end.

(** ** Text *)

(** The replacement character that an invalid byte is written as. *)
Definition RuneError : bytes := ["239"; "191"; "189"]%char.

(** The runes of the text one by one; [skip] bytes of the rune [keep]s or drops. *)
Fixpoint strip_tags_from (skip : nat) (inTag : bool) (l : bytes) : bytes :=
  match l with
  | [] => []
  | c :: l' =>
      match skip with
      | S skip => (if inTag then [] else [c]) ++ strip_tags_from skip inTag l'
      | O =>
          if Ascii.eqb c "<" then strip_tags_from 0 true l'
          else if Ascii.eqb c ">" then strip_tags_from 0 false l'
          else if is_ascii_byte c then (if inTag then [] else [c]) ++ strip_tags_from 0 inTag l'
          else if (rune_width l =? 1)%nat then (if inTag then [] else RuneError) ++ strip_tags_from 0 inTag l'
          else (if inTag then [] else [c]) ++ strip_tags_from (rune_width l - 1) inTag l'
      end
  end.

Definition StripTags (s : string) : string := trim_space (l2s (strip_tags_from 0 false (s2l s))).

(** Every round removes a block; [fuel] is the length of the text. *)
Fixpoint remove_blocks (fuel : nat) (tag : string) (html : bytes) : option bytes :=
  match index (to_lower (l2s html)) ("<" +:+ tag) with
  | None => Some html
  | Some open =>
      if (length html <? open)%nat then None
      else
        match index (to_lower (l2s (drop open html))) ("</" +:+ tag +:+ ">") with
        | None => Some (take open html)
        | Some close =>
            let next := (open + close + str_len ("</" +:+ tag +:+ ">"))%nat in
            if (length html <? next)%nat then None
            else match fuel with
                 | O => None
                 | S fuel => remove_blocks fuel tag (take open html ++ drop next html)
                 end
        end
  end.

Definition text_lines (text : string) : list string :=
  filter (λ l, l ≠ ""%string) (trim_space <$> split text "010").

Definition ExtractText (html : string) : option string :=
  html ← remove_blocks (str_len html) "script" (s2l html);
  html ← remove_blocks (length html) "style" html;
  Some (join (text_lines (StripTags (l2s html))) lf).

(** ** web_fetch *)

Record webFetchResult := { fr_Status : Z; fr_ContentType : string; fr_Body : string; fr_Truncated : bool }.

Context (url_Parse : string → option url).
(** A JSON document, indented. *)
Context (MarshalIndent : string → option string).

Definition page_text (ct : string) (body : bytes) : option string :=
  let text := l2s body in
  text' ← (if contains ct "html" || has_prefix (trim_space text) "<" then ExtractText text else Some text);
  Some (if contains ct "json" then default text' (MarshalIndent text) else text').

Definition web_fetch (arg : string) (s : net) : option (net * result goerror webFetchResult) :=
  match url_Parse arg with
  | None => Some (s, Err (ErrText "invalid URL: must be http or https"))
  | Some u =>
      if negb (web_scheme u) then Some (s, Err (ErrText "invalid URL: must be http or https"))
      else if str_empty (u_Host u) then Some (s, Err (ErrText "invalid URL: missing host"))
      else
        '(s, r) ← client_do (maxRedirects - 1) u s;
        match r with
        | Err e => Some (s, Err e)
        | Ok resp =>
            match read_limited (maxFetchBytes + 1) resp with
            | Err e => Some (s, Err e)
            | Ok body =>
                let truncated := (maxFetchBytes <? length body)%nat in
                let body := if truncated then take maxFetchBytes body else body in
                text ← page_text (wr_ContentType resp) body;
                Some (s, Ok {| fr_Status := wr_Status resp; fr_ContentType := wr_ContentType resp; fr_Body := text;
                               fr_Truncated := truncated |})
            end
        end
  end.

(** ** web_search *)

Definition is_unreserved (c : ascii) : bool :=
  is_lower_byte c || is_upper_byte c || is_digit_byte c || existsb (Ascii.eqb c) ["-"; "_"; "."; "~"]%char.

Definition hex_digit (n : Z) : ascii := ascii_of_N (Z.to_N (if n <? 10 then n + 48 else n + 55)).
Definition unhex (c : ascii) : option Z :=
  if is_digit_byte c then Some (byte_val c - 48)
  else if in_range "a" "f" c then Some (byte_val c - 87)
  else if in_range "A" "F" c then Some (byte_val c - 55)
  else None.

(** [url.QueryEscape] and [url.QueryUnescape]. *)
Definition escape_byte (c : ascii) : bytes :=
  if is_unreserved c then [c]
  else if Ascii.eqb c " " then ["+"%char]
  else ["%"%char; hex_digit (Z.shiftr (byte_val c) 4); hex_digit (Z.land (byte_val c) 15)].
Definition QueryEscape (s : string) : string := l2s (flat_map escape_byte (s2l s)).

Fixpoint unescape_bytes (l : bytes) : option bytes :=
  match l with
  | [] => Some []
  | c :: l =>
      if Ascii.eqb c "%" then
        match l with
        | a :: b :: l => h ← unhex a; d ← unhex b; cons (ascii_of_N (Z.to_N (h * 16 + d))) <$> unescape_bytes l
        | _ => None
        end
      else cons (if Ascii.eqb c "+" then " "%char else c) <$> unescape_bytes l
  end.
Definition QueryUnescape (s : string) : option string := l2s <$> unescape_bytes (s2l s).

(** [strings.Split] at a text that is not empty; [skip] bytes of a separator are still to be
    left out. *)
Fixpoint split_text_from (skip : nat) (sep cur l : bytes) : list bytes :=
  match l with
  | [] => [cur]
  | c :: l' =>
      match skip with
      | S skip => split_text_from skip sep cur l'
      | O => match strip_prefix sep l with
             | Some _ => cur :: split_text_from (length sep - 1) sep [] l'
             | None => split_text_from 0 sep (cur ++ [c]) l'
             end
      end
  end.
Definition split_text (s sep : string) : list string := l2s <$> split_text_from 0 (s2l sep) [] (s2l s).

(** [s[i:]] and [s[:i]] of an index that was found. *)
Definition from (i : nat) (s : string) : string := l2s (drop i (s2l s)).
Definition upto (i : nat) (s : string) : string := l2s (take i (s2l s)).

Record webSearchHit := { wh_Title : string; wh_URL : string; wh_Snippet : string }.

(** What [url.Parse] finds under a key of the query. *)
Context (query_Get : string → string → option string).

Definition dquote : string := String (Ascii.ascii_of_nat 34) "".

(** The text of [rest] before [stop], which is not at its start. *)
Definition before (stop rest : string) : option string :=
  match index rest stop with Some (S n) => Some (upto (S n) rest) | _ => None end.

Definition hit_url (part : string) : string :=
  match (idx ← index part ("href=" +:+ dquote); before dquote (from (idx + 6) part)) with
  | None => ""
  | Some rawURL =>
      let rawURL := default rawURL (QueryUnescape rawURL) in
      if contains rawURL "uddg="
      then match query_Get rawURL "uddg" with
           | Some actual => if str_empty actual then rawURL else actual
           | None => rawURL
           end
      else rawURL
  end.

Definition hit_title (part : string) : string :=
  match (idx ← index part ">"; before "</a>" (from (idx + 1) part)) with
  | Some t => StripTags t
  | None => ""
  end.

Definition hit_snippet (part : string) : string :=
  match (idx ← index part ("class=" +:+ quoted "result__snippet");
         start ← index (from idx part) ">"; before "</" (from (start + 1) (from idx part))) with
  | Some t => StripTags t
  | None => ""
  end.

Definition hit_of (part : string) : option webSearchHit :=
  let hit := {| wh_Title := hit_title part; wh_URL := hit_url part; wh_Snippet := hit_snippet part |} in
  if negb (str_empty (wh_URL hit)) && negb (str_empty (wh_Title hit)) then Some hit else None.

(** The loop over the parts, while fewer than [limit] hits were found. *)
Fixpoint hits_loop (limit : Z) (parts : list string) (hits : list webSearchHit) : list webSearchHit :=
  match parts with
  | [] => hits
  | part :: parts =>
      if Z.of_nat (length hits) <? limit
      then hits_loop limit parts (match hit_of part with Some h => hits ++ [h] | None => hits end)
      else hits
  end.

Definition ParseDDGResults (html : string) (limit : Z) : list webSearchHit :=
  hits_loop limit (tail (split_text html ("class=" +:+ quoted "result__a"))) [].

(** The request is sent by a client without the checks of [web_fetch]. *)
Context (plain_get : string → W → W * result goerror web_reply).

Definition duckduckgoSearch (query : string) (limit : Z) (w : W) : W * result goerror (list webSearchHit) :=
  match plain_get ("https://html.duckduckgo.com/html/?q=" +:+ QueryEscape query) w with
  | (w, Err e) => (w, Err e)
  | (w, Ok resp) =>
      match read_limited maxSearchRespBytes resp with
      | Err e => (w, Err e)
      | Ok body => (w, Ok (ParseDDGResults (l2s body) limit))
      end
  end.

Definition web_search (query : string) (maxResults : Z) (w : W) : W * result goerror (list webSearchHit) :=
  let limit := if (maxResults <=? 0) || (10 <? maxResults) then 5 else maxResults in
  duckduckgoSearch query limit w.
End web.

#[local] Opaque maxFetchBytes maxSearchRespBytes.

(** ** Addresses *)

(** The bytes of an address. *)
Definition is_ip (ip : IP) : Prop := (length ip = 4%nat ∨ length ip = 16%nat) ∧ Forall (λ b, 0 ≤ b < 256) ip.

(** What is blocked: loopback, private and link-local addresses and "this network", also in
    the form of an IPv6 address; of IPv6 loopback, unique local and link-local addresses. *)
Definition blocked4 (ip : IP) : Prop :=
  match ip with
  | [a; b; _; _] => a = 0 ∨ a = 10 ∨ a = 127 ∨ a = 172 ∧ 16 ≤ b < 32 ∨ a = 192 ∧ b = 168 ∨ a = 169 ∧ b = 254
  | _ => False
  end.
Definition blocked6 (ip : IP) : Prop :=
  match ip with
  | a :: b :: _ => ip = replicate 15 0 ++ [1] ∨ 252 ≤ a < 254 ∨ a = 254 ∧ 128 ≤ b < 192
  | _ => False
  end.
Definition blocked (ip : IP) : Prop := match To4 ip with Some ip => blocked4 ip | None => blocked6 ip end.

Lemma byte_cases (P : Z → Prop) `{∀ b, Decision (P b)} :
  forallb (λ b, bool_decide (P b)) (seqZ 0 256) = true → ∀ b, 0 ≤ b < 256 → P b.
Proof.
  intros Hall b Hb. rewrite forallb_forall in Hall. apply (bool_decide_unpack (P b)), Is_true_eq_left, Hall.
  apply list_elem_of_In, elem_of_seqZ. lia.
Qed.

Lemma land_255 b : 0 ≤ b < 256 → Z.land b 255 = b.
Proof. apply (byte_cases (λ b, Z.land b 255 = b)). by vm_compute. Qed.
Lemma land_mask m n hi b :
  (∀ b, 0 ≤ b < 256 → (n = Z.land b m ↔ n ≤ b < hi)) → 0 ≤ b < 256 → bool_decide (n = Z.land b m) = bool_decide (n ≤ b < hi).
Proof. intros H Hb. apply bool_decide_ext. by apply H. Qed.
Lemma land_240 b : 0 ≤ b < 256 → (16 = Z.land b 240 ↔ 16 ≤ b < 32).
Proof. apply (byte_cases (λ b, 16 = Z.land b 240 ↔ 16 ≤ b < 32)). by vm_compute. Qed.
Lemma land_254 b : 0 ≤ b < 256 → (252 = Z.land b 254 ↔ 252 ≤ b < 254).
Proof. apply (byte_cases (λ b, 252 = Z.land b 254 ↔ 252 ≤ b < 254)). by vm_compute. Qed.
Lemma land_192 b : 0 ≤ b < 256 → (128 = Z.land b 192 ↔ 128 ≤ b < 192).
Proof. apply (byte_cases (λ b, 128 = Z.land b 192 ↔ 128 ≤ b < 192)). by vm_compute. Qed.

Lemma To4_length ip k : To4 ip = Some k → length k = 4%nat.
Proof.
  unfold To4. case_bool_decide; [by intros [= <-]|]. case_bool_decide as H16; [|done].
  cbn [andb]. case_bool_decide; [|done]. intros [= <-]. rewrite length_drop. lia.
Qed.

Lemma To4_bytes ip k P : Forall P ip → To4 ip = Some k → Forall P k.
Proof.
  unfold To4. intros HP. case_bool_decide; [by intros [= <-]|]. destruct (_ && _); [|done]. intros [= <-]. by apply Forall_drop.
Qed.

Lemma land_0_byte b : Z.land b 0 = 0.
Proof. apply Z.land_0_r. Qed.

(** A branch of the disjunction over the networks. *)
Ltac pick_net :=
  first [solve [left; split; [done|]; repeat f_equal; first [done | by apply land_240 | by apply land_254 | by apply land_192]]
        | right; pick_net].
(** All networks but those of the other length, one after the other. *)
Ltac each_net H :=
  first [discriminate H
        | let Hl := fresh "Hl" in destruct H as [[Hl H]|H]; [try discriminate Hl; injection H; clear H; intros|each_net H]].

Lemma isPrivateIP_spec ip : is_ip ip → isPrivateIP ip = true ↔ blocked ip.
Proof.
  intros [Hlen Hb]. unfold isPrivateIP, blocked, Contains.
  let nets := eval vm_compute in privateNets in change privateNets with nets. cbn [existsb n_IP n_Mask].
  destruct (To4 ip) as [k|] eqn:Hk; cbn [default from_option]; unfold id.
  - pose proof (To4_length _ _ Hk) as Hl. pose proof (To4_bytes _ _ _ Hb Hk) as Hkb.
    destruct k as [|a [|b [|c [|d [|]]]]]; try discriminate Hl. clear Hl.
    rewrite !Forall_cons in Hkb. destruct Hkb as (Ha & Hbb & _).
    rewrite ?orb_true_iff, ?andb_true_iff, ?bool_decide_eq_true. cbn [blocked4 zip_with length].
    rewrite !land_0_byte, !land_255 by done. change (Z.land 16 240) with 16.
    split; [|intros [?|[?|[?|[[? ?]|[[? ?]|[? ?]]]]]]; subst; pick_net].
    intros Hx. each_net Hx; subst; try tauto; match goal with Hm : 16 = _ |- _ => apply land_240 in Hm; tauto end.
  - assert (length ip = 16%nat) as Hl.
    { destruct Hlen as [H4|]; [|done]. unfold To4 in Hk. by rewrite bool_decide_true in Hk. }
    do 17 (destruct ip as [|? ip]; try discriminate Hl). clear Hl.
    rewrite !Forall_cons in Hb. destruct_and!.
    rewrite ?orb_true_iff, ?andb_true_iff, ?bool_decide_eq_true. cbn [blocked6 zip_with length replicate app].
    rewrite !land_0_byte, !land_255 by done. change (Z.land 252 254) with 252. change (Z.land 128 192) with 128.
    split; [|intros [Hx|[Hx|[Hx Hy]]]; [injection Hx; intros; subst; pick_net|pick_net|subst; pick_net]].
    intros Hx. each_net Hx; subst; [by left|right; left; by apply land_254|right; right; split; [done|by apply land_192]].
Qed.

(** *** Addresses as numbers

    Apart from the list of the code: an address is a number of 32 or of 128 bits, and the
    reserved ranges are those of the registries, from their first to their last address. *)

Definition addr_number (ip : IP) : Z := foldl (λ n b, n * 256 + b) 0 ip.

(** The host that an address means: the IPv4 host of an IPv4 address, in either form
    (RFC 4291, 2.5.5.2), or an IPv6 host. *)
Inductive target := V4 (n : Z) | V6 (n : Z).
Definition target_of (ip : IP) : target :=
  let n := addr_number ip in
  if bool_decide (length ip = 4%nat) then V4 n
  else if n `div` 2 ^ 32 =? 0xffff then V4 (n `mod` 2 ^ 32) else V6 n.

Definition dotted (a b c d : Z) : Z := a * 2 ^ 24 + b * 2 ^ 16 + c * 2 ^ 8 + d.
(** The IPv6 address whose first 16 bits are [x]. *)
Definition leading (x : Z) : Z := x * 2 ^ 112.

(** The host itself (RFC 1122, 3.2.1.3; RFC 4291, 2.5.3). *)
Definition own_host (t : target) : Prop :=
  match t with
  | V4 n => dotted 127 0 0 0 ≤ n ≤ dotted 127 255 255 255 ∨ dotted 0 0 0 0 ≤ n ≤ dotted 0 255 255 255
  | V6 n => n = 1
  end.
(** Private networks (RFC 1918; RFC 4193). *)
Definition private_net (t : target) : Prop :=
  match t with
  | V4 n => dotted 10 0 0 0 ≤ n ≤ dotted 10 255 255 255 ∨ dotted 172 16 0 0 ≤ n ≤ dotted 172 31 255 255
            ∨ dotted 192 168 0 0 ≤ n ≤ dotted 192 168 255 255
  | V6 n => leading 0xfc00 ≤ n < leading 0xfe00
  end.
(** The link (RFC 3927; RFC 4291, 2.5.6). *)
Definition on_link (t : target) : Prop :=
  match t with
  | V4 n => dotted 169 254 0 0 ≤ n ≤ dotted 169 254 255 255
  | V6 n => leading 0xfe80 ≤ n < leading 0xfec0
  end.
Definition reserved (ip : IP) : Prop := own_host (target_of ip) ∨ private_net (target_of ip) ∨ on_link (target_of ip).

Abbreviation byte := (λ b, 0 ≤ b < 256).

Lemma addr_number_snoc l b : addr_number (l ++ [b]) = addr_number l * 256 + b.
Proof. unfold addr_number. by rewrite foldl_app. Qed.

Lemma addr_number_app l k : addr_number (l ++ k) = addr_number l * 256 ^ Z.of_nat (length k) + addr_number k.
Proof.
  induction k as [|b k IH] using rev_ind; [rewrite app_nil_r; cbn; lia|].
  rewrite app_assoc, !addr_number_snoc, IH, length_app. cbn [length]. rewrite Nat.add_comm. cbn [Nat.add].
  rewrite Nat2Z.inj_succ, Z.pow_succ_r by lia. lia.
Qed.

Lemma addr_number_bound l : Forall byte l → 0 ≤ addr_number l < 256 ^ Z.of_nat (length l).
Proof.
  induction l as [|b l IH] using rev_ind; intros Hl; [done|]. apply Forall_app in Hl as [Hl [Hb _]%Forall_cons].
  specialize (IH Hl). cbn in Hb. rewrite addr_number_snoc, length_app. cbn [length]. rewrite Nat.add_comm. cbn [Nat.add].
  rewrite Nat2Z.inj_succ, Z.pow_succ_r by lia. lia.
Qed.

Lemma addr_number_inj l k : Forall byte l → Forall byte k → length l = length k → addr_number l = addr_number k → l = k.
Proof.
  revert k. induction l as [|b l IH] using rev_ind; intros k Hl Hk Hlen Heq; [by destruct k|].
  destruct k as [|c k _] using rev_ind; [rewrite length_app in Hlen; cbn in Hlen; lia|].
  apply Forall_app in Hl as [Hl [Hb _]%Forall_cons], Hk as [Hk [Hc _]%Forall_cons]. cbn in Hb, Hc.
  rewrite !length_app in Hlen. cbn in Hlen. rewrite !addr_number_snoc in Heq.
  assert (b = c) as -> by lia. f_equal. apply IH; [done|done|lia|lia].
Qed.

(** The bytes of the IPv4 address, and the number it is. *)
Lemma To4_target ip : is_ip ip → target_of ip = match To4 ip with Some k => V4 (addr_number k) | None => V6 (addr_number ip) end.
Proof.
  intros [Hlen Hb]. unfold target_of, To4. case_bool_decide as H4; [done|]. destruct Hlen as [?|Hlen]; [done|].
  assert (addr_number ip = addr_number (take 12 ip) * 2 ^ 32 + addr_number (drop 12 ip)) as Hn.
  { rewrite <- (take_drop 12 ip) at 1. rewrite addr_number_app, length_drop, Hlen. done. }
  pose proof (addr_number_bound (drop 12 ip) ltac:(by apply Forall_drop)) as Hd. rewrite length_drop, Hlen in Hd.
  change (256 ^ Z.of_nat (16 - 12)) with (2 ^ 32) in Hd.
  assert (addr_number ip `div` 2 ^ 32 = addr_number (take 12 ip) ∧ addr_number ip `mod` 2 ^ 32 = addr_number (drop 12 ip)) as [Hdiv Hmod].
  { rewrite Hn. split; [symmetry; apply (Z.div_unique_pos _ _ _ (addr_number (drop 12 ip))); lia|].
    symmetry. apply (Z.mod_unique_pos _ _ (addr_number (take 12 ip))); lia. }
  rewrite Hdiv, Hmod, bool_decide_true by done. cbn [andb]. case_bool_decide as Ht; [by rewrite Ht|].
  destruct (Z.eqb_spec (addr_number (take 12 ip)) 0xffff) as [He|]; [|done]. destruct Ht.
  apply addr_number_inj; [by apply Forall_take|repeat constructor; lia|by rewrite length_take, Hlen|exact He].
Qed.

Lemma blocked_reserved ip : is_ip ip → blocked ip ↔ reserved ip.
Proof.
  intros Hip. pose proof Hip as [Hlen Hb]. unfold blocked, reserved. rewrite (To4_target ip Hip).
  destruct (To4 ip) as [k|] eqn:Hk.
  - pose proof (To4_length _ _ Hk) as Hl. pose proof (To4_bytes _ _ _ Hb Hk) as Hkb.
    destruct k as [|a [|b [|c [|d [|]]]]]; try discriminate Hl. rewrite !Forall_cons in Hkb. destruct Hkb as (Ha & Hbb & Hc & Hd & _).
    unfold addr_number, own_host, private_net, on_link, dotted, blocked4. cbn [foldl]. lia.
  - assert (length ip = 16%nat) as Hl.
    { destruct Hlen as [H4|]; [|done]. unfold To4 in Hk. by rewrite bool_decide_true in Hk. }
    destruct ip as [|a [|b ip]]; [done..|]. injection Hl as Hl.
    apply Forall_cons in Hb as [Ha [Hb Hr]%Forall_cons]. cbn in Ha, Hb.
    pose proof (addr_number_bound ip Hr) as Hbound. rewrite Hl in Hbound. change (256 ^ Z.of_nat 14) with (2 ^ 112) in Hbound.
    assert (addr_number (a :: b :: ip) = (a * 256 + b) * 2 ^ 112 + addr_number ip) as Hn by (etrans; [exact (addr_number_app [a; b] ip)|by rewrite Hl]).
    assert (a :: b :: ip = replicate 15 0 ++ [1] ↔ addr_number (a :: b :: ip) = 1) as H1.
    { split; [by intros ->|]. intros H1. apply addr_number_inj; [by do 2 (constructor; [done|])|repeat constructor; lia|cbn; by rewrite Hl|exact H1]. }
    unfold blocked6, own_host, private_net, on_link, leading. rewrite H1, Hn. lia.
Qed.

(** The unspecified address of IPv6 stands for the local host, like that of IPv4, but it is
    in none of the ranges and is not blocked; nor is an IPv4 address that is embedded for
    translation (64:ff9b::/96). *)
Lemma unspecified_passes :
  isPrivateIP (replicate 16 0) = false ∧ isPrivateIP (replicate 4 0) = true
  ∧ isPrivateIP ([0; 100; 255; 155] ++ replicate 8 0 ++ [127; 0; 0; 1]) = false.
Proof. by vm_compute. Qed.

(** ** Connections *)

Section fetch.
Context `{UnicodeCase}.
Context {W C : Type} (SplitHostPort : string → result goerror (string * string)).
Context (LookupIPAddr : string → W → W * result goerror (list IP)).
Context (dial : IP → string → W → W * result goerror C).
Context (exchange : C → url → W → W * result goerror web_answer).
(** Addresses have 4 or 16 bytes. *)
Context (Hips : ∀ host w ips, (LookupIPAddr host w).2 = Ok ips → Forall is_ip ips).

(** [s'] has up to [n] connections more than [s], all to addresses in none of the reserved ranges. *)
Definition dials (n : nat) (s s' : net (W := W)) : Prop :=
  ∃ ds, nt_dialled s' = nt_dialled s ++ ds ∧ (length ds ≤ n)%nat ∧ Forall (λ d, ¬ reserved d.1) ds.

Lemma dials_nothing n s s' : nt_dialled s' = nt_dialled s → dials n s s'.
Proof. intros Hs. exists []. rewrite app_nil_r. split_and!; [done|cbn; lia|constructor]. Qed.
Lemma dials_trans n m s1 s2 s3 : dials n s1 s2 → dials m s2 s3 → dials (n + m) s1 s3.
Proof.
  intros (ds1 & H1 & Hl1 & Hf1) (ds2 & H2 & Hl2 & Hf2). exists (ds1 ++ ds2).
  rewrite H2, H1, app_assoc, length_app. split_and!; [done|lia|by apply Forall_app].
Qed.

Lemma DialContext_dials addr s s' r :
  DialContext SplitHostPort LookupIPAddr dial addr s = Some (s', r) → dials 1 s s'.
Proof.
  unfold DialContext. destruct (SplitHostPort addr) as [[host port]|e]; [|intros [= <- <-]; by apply dials_nothing].
  destruct (LookupIPAddr host (nt_world s)) as [w [ips|e]] eqn:Hl; [|intros [= <- <-]; by apply dials_nothing].
  pose proof (Hips host (nt_world s) ips) as Hip. rewrite Hl in Hip. specialize (Hip eq_refl).
  destruct (existsb isPrivateIP ips) eqn:Hp; [intros [= <- <-]; by apply dials_nothing|].
  destruct ips as [|ip ips]; [done|]. destruct (dial ip port w) as [w' r']. intros [= <- <-].
  cbn [existsb] in Hp. apply orb_false_iff in Hp as [Hp _]. apply Forall_cons in Hip as [Hip _].
  exists [(ip, port)]. split_and!; [done|cbn; lia|constructor; [|constructor]]. cbn. rewrite <- blocked_reserved, <- isPrivateIP_spec by done. congruence.
Qed.

Lemma client_do_dials hops u s s' r :
  client_do SplitHostPort LookupIPAddr dial exchange hops u s = Some (s', r) → dials (S hops) s s'.
Proof.
  revert u s. induction hops as [|hops IH]; intros u s; cbn [client_do];
    (destruct (web_scheme u); cbn [negb]; [|intros [= <- <-]; by apply dials_nothing]);
    (destruct (DialContext _ _ _ _ s) as [[s1 [conn|e]]|] eqn:Hd; cbn; [| |done]);
    apply DialContext_dials in Hd;
    try (intros [= <- <-]; apply (dials_trans 1 _ _ _ _ Hd); by apply dials_nothing);
    (destruct (exchange conn u (nt_world s1)) as [w [[rep|u']|e]]); intros Hr;
    try (injection Hr as <- <-; apply (dials_trans 1 _ _ _ _ Hd); by apply dials_nothing).
  apply IH in Hr. apply (dials_trans 1 _ _ _ _ Hd), Hr.
Qed.

Context (url_Parse : string → option url) (MarshalIndent : string → option string).

(** C16: Fetching a page opens at most five connections, whatever the page redirects to and
    whatever its name resolves to, and none to an address of the ranges that the registries
    reserve for the host itself (127.0.0.0/8, 0.0.0.0/8 and the IPv6 loopback address), for
    private networks (RFC 1918 and RFC 4193) or for the link, in either form of an IPv4
    address.  The ranges are given as numbers; they do not have the IPv6 unspecified address,
    which reaches the host itself all the same ([unspecified_passes]), nor translated and
    multicast addresses.  Other schemes than http and https are refused, and the text is made
    of at most the first 50 kB. *)
Theorem web_fetch_confined arg s s' r :
  web_fetch SplitHostPort LookupIPAddr dial exchange url_Parse MarshalIndent arg s = Some (s', r) →
  dials maxRedirects s s'
  ∧ ∀ x, r = Ok x → (∃ u, url_Parse arg = Some u ∧ (u_Scheme u = "http" ∨ u_Scheme u = "https")%string)
      ∧ ∃ body, (length body ≤ maxFetchBytes)%nat ∧ page_text MarshalIndent (fr_ContentType x) body = Some (fr_Body x)
                ∧ (fr_Truncated x = true → length body = maxFetchBytes).
Proof.
  unfold web_fetch. destruct (url_Parse arg) as [u|] eqn:Hu; [|intros [= <- <-]; split; [by apply dials_nothing|done]].
  destruct (web_scheme u) eqn:Hs; cbn [negb]; [|intros [= <- <-]; split; [by apply dials_nothing|done]].
  destruct (str_empty (u_Host u)); [intros [= <- <-]; split; [by apply dials_nothing|done]|].
  destruct (client_do _ _ _ _ _ u s) as [[s1 [resp|e]]|] eqn:Hc; cbn [mbind option_bind]; [| |done];
    apply client_do_dials in Hc; [|by intros [= <- <-]].
  destruct (read_limited _ resp) as [body|e] eqn:Hr; [|by intros [= <- <-]].
  destruct (page_text _ _ _) as [text|] eqn:Hp; cbn; [|done]. intros [= <- <-]. split; [done|].
  intros x [= <-]. split; [exists u; split; [done|by apply bool_decide_eq_true in Hs]|].
  destruct (maxFetchBytes <? length body)%nat eqn:Hlen; eexists; (split_and!; [|exact Hp|]); cbn [fr_Truncated].
  - rewrite length_take. lia.
  - intros _. rewrite length_take. apply Nat.ltb_lt in Hlen. lia.
  - by apply Nat.ltb_ge in Hlen.
  - intros Hx. assert ((maxFetchBytes <? length body)%nat = true) as Ht by exact Hx. congruence.
Qed.
End fetch.

(** ** Text *)

Definition no_angle (l : bytes) : Prop := ("<"%char ∉ l) ∧ ">"%char ∉ l.

Lemma no_angle_app l k : no_angle (l ++ k) ↔ no_angle l ∧ no_angle k.
Proof. unfold no_angle. rewrite !elem_of_app. naive_solver. Qed.
Lemma no_angle_infix l k a b : l = a ++ k ++ b → no_angle l → no_angle k.
Proof. intros ->. rewrite !no_angle_app. tauto. Qed.
Lemma no_angle_cont c : is_ascii_byte c = false → no_angle [c].
Proof. intros Hc. unfold no_angle. rewrite !list_elem_of_singleton. split; intros <-; by vm_compute in Hc. Qed.

(** The bytes of a rune after its first. *)
Lemma rune_tail_not_ascii c l d : d ∈ take (rune_width (c :: l) - 1) l → is_ascii_byte d = false.
Proof.
  unfold rune_width. destruct (lead_of c) as [[w second]|] eqn:Hlead; [|by rewrite take_0; intros ?%not_elem_of_nil].
  destruct (take (w - 1) l) as [|e tail] eqn:Ht; [by rewrite take_0; intros ?%not_elem_of_nil|].
  destruct (second e && forallb is_cont tail && _) eqn:Hb; [|by rewrite take_0; intros ?%not_elem_of_nil].
  apply andb_true_iff in Hb as [Hb _]. apply andb_true_iff in Hb as [He Htl]. rewrite Ht.
  assert (∀ x, is_cont x = true → is_ascii_byte x = false) as Hcont by (intros x; by_bytes x).
  intros [->|Hd]%elem_of_cons; [|rewrite forallb_forall in Htl; apply Hcont, Htl; by apply list_elem_of_In].
  unfold lead_of in Hlead. revert Hlead. 
  repeat (destruct (byte_in _ _ c); [intros [= <- <-]; first [by apply Hcont | revert He; clear; by_bytes e]|]). done.
Qed.

Lemma strip_tags_no_angle skip inTag l :
  Forall (λ d, is_ascii_byte d = false) (take skip l) → no_angle (strip_tags_from skip inTag l).
Proof.
  revert skip inTag. induction l as [|c l IH]; intros skip inTag Hs; [by split; apply not_elem_of_nil|].
  cbn [strip_tags_from]. destruct skip as [|skip].
  - destruct (Ascii.eqb_spec c "<"); [apply IH; constructor|]. destruct (Ascii.eqb_spec c ">"); [apply IH; constructor|].
    assert (no_angle []) as Hnil by (by split; apply not_elem_of_nil).
    destruct (is_ascii_byte c) eqn:Ha; [|destruct (rune_width (c :: l) =? 1)%nat]; apply no_angle_app;
      (split; [destruct inTag; [done|]|apply IH]); try (by constructor).
    + unfold no_angle. rewrite !list_elem_of_singleton. split; congruence.
    + by split; vm_compute; intros H; repeat (apply elem_of_cons in H as [H|H]; [discriminate H|]); apply not_elem_of_nil in H.
    + by apply no_angle_cont.
    + apply Forall_forall. intros d. apply rune_tail_not_ascii.
  - cbn [take] in Hs. apply Forall_cons in Hs as [Hc Hs]. apply no_angle_app. split; [|by apply IH].
    destruct inTag; [by split; apply not_elem_of_nil|by apply no_angle_cont].
Qed.

Lemma StripTags_no_angle s : no_angle (s2l (StripTags s)).
Proof.
  unfold StripTags. set (t := l2s _). destruct (trim_space_infix t) as (a & b & Ht).
  eapply (no_angle_infix _ _ a b Ht). subst t. rewrite s2l_l2s. apply strip_tags_no_angle. constructor.
Qed.

Abbreviation lower l := (lower_byte <$> l).
Abbreviation ascii l := (Forall (λ c, is_ascii_byte c = true) l).

Lemma index_split l p i :
  index_bytes l p = Some i → ∃ b, l = take i l ++ p ++ b ∧ (p ≠ [] → contains_bytes (take i l) p = false).
Proof.
  revert i. induction l as [|c l IH]; intros i; cbn [index_bytes]; destruct (strip_prefix p _) as [k|] eqn:Hk.
  1,3: intros [= <-]; apply strip_prefix_Some in Hk; exists k; split; [done|]; intros Hp; by destruct p.
  { done. }
  destruct (index_bytes l p) as [j|]; [|done]. intros [= <-]. destruct (IH j eq_refl) as (b & Hl & Hno).
  exists b. cbn [take]. split; [by rewrite <- app_comm_cons, <- Hl|]. intros Hp. cbn [contains_bytes].
  destruct (strip_prefix p (c :: take j l)) as [k|] eqn:Hk'; [|by apply Hno].
  apply strip_prefix_Some in Hk'. enough (strip_prefix p (c :: l) = Some (k ++ p ++ b)) by congruence.
  apply strip_prefix_Some. by rewrite Hl, app_comm_cons, Hk', <- app_assoc.
Qed.
Lemma index_None l p : index_bytes l p = None → contains_bytes l p = false.
Proof.
  induction l as [|c l IH]; cbn [index_bytes contains_bytes]; destruct (strip_prefix p _); try done.
  destruct (index_bytes l p); [done|]. intros _. by apply IH.
Qed.

(** What is left of a text when the blocks of a tag are removed, whatever the case of their
    letters: each begins with its opening and ends with its closing, or has none and is the
    rest of the text; in the end no opening is left. *)
Definition opening (tag : string) : bytes := s2l ("<" +:+ tag).
Definition closing (tag : string) : bytes := s2l ("</" +:+ tag +:+ ">").

Inductive cleaned (tag : string) : bytes → bytes → Prop :=
| cleaned_done l : contains_bytes (lower l) (opening tag) = false → cleaned tag l l
| cleaned_block a block b out :
    opening tag `prefix_of` lower block → closing tag `suffix_of` lower block →
    cleaned tag (a ++ b) out → cleaned tag (a ++ block ++ b) out
| cleaned_rest a rest :
    opening tag `prefix_of` lower rest → contains_bytes (lower rest) (closing tag) = false →
    contains_bytes (lower a) (opening tag) = false → cleaned tag (a ++ rest) a.

(** The first place where a text stands, up to case. *)
Lemma find_lower l p i :
  p ≠ [] → index_bytes (lower l) p = Some i →
  ∃ a m b, l = a ++ m ++ b ∧ length a = i ∧ lower m = p ∧ contains_bytes (lower a) p = false.
Proof.
  intros Hp (b & Hl & Hno)%index_split. specialize (Hno Hp).
  apply fmap_app_inv in Hl as (a & r & Hat & (m & rest & Hm & Hb & ->)%eq_sym%fmap_app_inv & ->).
  exists a, m, rest. rewrite Hat in Hno. split_and!; try done.
  apply (f_equal length) in Hat. rewrite length_take, !length_fmap, !length_app in Hat.
  destruct m as [|c m]; [by subst p|]. cbn in Hat. lia.
Qed.

Lemma prefix_shorter {A} (p l k : list A) : p `prefix_of` l ++ k → (length p ≤ length l)%nat → p `prefix_of` l.
Proof.
  intros [z Hz] Hlen. exists (take (length l - length p) z).
  apply (f_equal (take (length l))) in Hz. by rewrite take_app_length, take_app_ge in Hz by done.
Qed.

Section text.
Context `{UnicodeCase}.

Lemma to_lower_ascii l : ascii l → s2l (to_lower (l2s l)) = lower l.
Proof.
  intros Ha. unfold to_lower, is_ascii_str. rewrite s2l_l2s.
  assert (forallb is_ascii_byte l = true) as ->.
  { apply forallb_forall. intros c Hc. rewrite Forall_forall in Ha. apply Ha. by apply list_elem_of_In. }
  unfold bytewise_lower. by rewrite !s2l_l2s.
Qed.

Lemma remove_blocks_cleans fuel tag l :
  ascii l → (length l ≤ fuel)%nat →
  ∃ out, remove_blocks fuel tag l = Some out ∧ cleaned tag l out ∧ ascii out.
Proof.
  revert l. induction fuel as [|fuel IH]; intros l Ha Hf; cbn [remove_blocks]; unfold index;
    rewrite to_lower_ascii by done; fold (opening tag) (closing tag); unfold str_len; fold (closing tag);
    (destruct (index_bytes (lower l) _) as [i|] eqn:Hi;
      [|exists l; split; [done|]; split; [by constructor; apply index_None|done]]);
    apply find_lower in Hi as (a & first & rest & -> & Hla & Hfirst & Hno); try done.
  { destruct first; [done|]. rewrite !length_app in Hf. cbn in Hf. lia. }
  rewrite <- Hla, drop_app_length, take_app_length.
  apply Forall_app in Ha as [Haa Har].
  rewrite to_lower_ascii by done. rewrite length_app.
  destruct (Nat.ltb_spec (length a + length (first ++ rest)) (length a)); [lia|].
  assert (opening tag `prefix_of` lower (first ++ rest)) as Hopen by (rewrite fmap_app, Hfirst; by apply prefix_app_r).
  destruct (index_bytes (lower (first ++ rest)) _) as [j|] eqn:Hj.
  2:{ exists a. split; [done|]. split; [|done]. apply cleaned_rest; [done|by apply index_None|done]. }
  apply find_lower in Hj as (a2 & last & b & Heq & Hl2 & Hlast & _); [|done].
  assert (length last = length (closing tag)) as Hcl by (by rewrite <- Hlast, length_fmap).
  rewrite Heq, app_assoc in *. rewrite <- Hl2, <- Hcl, <- Nat.add_assoc.
  set (block := a2 ++ last) in *. assert (length a2 + length last = length block)%nat as Hbl by (unfold block; by rewrite length_app).
  rewrite Hbl.
  rewrite length_app.
  destruct (Nat.ltb_spec (length a + (length block + length b)) (length a + length block)); [lia|].
  assert (ascii b) as Hab by (apply Forall_app in Har as [_ ?]; done).
  assert (length (opening tag) < length block)%nat as Hlt.
  { unfold block. rewrite length_app, Hcl. unfold opening, closing. autorewrite with abot_str. rewrite !length_app. cbn. lia. }
  assert (drop (length a + length block) (a ++ block ++ b) = b) as -> by (by rewrite app_assoc, <- length_app, drop_app_length).
  destruct (IH (a ++ b)) as (out & Hout & Hclean & Haout).
  { by apply Forall_app. }
  { rewrite !length_app in Hf. rewrite length_app. lia. }
  exists out. split_and!; [done| |done]. apply cleaned_block; [| |done].
  - rewrite fmap_app in Hopen. apply (prefix_shorter _ _ (lower b)); [done|]. rewrite length_fmap. lia.
  - exists (lower a2). unfold block. by rewrite fmap_app, Hlast.
Qed.

(** *** Lines *)

Lemma ascii_infix (l k a b : bytes) : l = a ++ k ++ b → ascii l → ascii k.
Proof. intros ->. rewrite !Forall_app. tauto. Qed.
Lemma trim_space_ascii s : ascii (s2l s) → ascii (s2l (trim_space s)).
Proof. destruct (trim_space_infix s) as (a & b & Hs). by apply (ascii_infix _ _ a b). Qed.

Lemma strip_tags_ascii skip inTag l : ascii l → skip = 0%nat → ascii (strip_tags_from skip inTag l).
Proof.
  intros Ha. revert skip inTag. induction Ha as [|c l Hc _ IH]; intros skip inTag ->; [constructor|]. cbn [strip_tags_from].
  rewrite Hc. repeat case_match; try (by apply IH); apply Forall_app; (split; [by repeat constructor|by apply IH]).
Qed.
(** A text without angle brackets stays. *)
Lemma strip_tags_id l : ascii l → no_angle l → strip_tags_from 0 false l = l.
Proof.
  induction 1 as [|c l Hc _ IH]; intros Hn; [done|]. cbn [strip_tags_from].
  destruct (Ascii.eqb_spec c "<"); [subst; unfold no_angle in Hn; set_solver|].
  destruct (Ascii.eqb_spec c ">"); [subst; unfold no_angle in Hn; set_solver|].
  rewrite Hc. cbn [app]. f_equal. apply IH. by apply (no_angle_infix (c :: l) l [c] []); [rewrite app_nil_r|].
Qed.

(** Lines as the extraction leaves them. *)
Definition tidy (l : string) : Prop :=
  trim_space l = l ∧ l ≠ "" ∧ ascii (s2l l) ∧ no_angle (s2l l) ∧ ("010"%char ∉ s2l l).

Lemma text_lines_tidy text : ascii (s2l text) → no_angle (s2l text) → Forall tidy (text_lines text).
Proof.
  intros Ha Hn. unfold text_lines. apply Forall_forall. intros l [Hne Hin]%list_elem_of_filter.
  apply list_elem_of_fmap in Hin as (raw & -> & Hraw). unfold split in Hraw.
  apply list_elem_of_fmap in Hraw as (r & -> & Hr).
  assert (∃ a b, s2l text = a ++ r ++ b) as (a & b & Htext).
  { clear -Hr. enough (∀ cur l, r ∈ split_bytes "010" cur l → ∃ a b, reverse cur ++ l = a ++ r ++ b) as Hg.
    { by apply (Hg [] (s2l text)). }
    clear Hr. intros cur l. revert cur. induction l as [|c l IH]; intros cur; cbn [split_bytes].
    - intros ->%list_elem_of_singleton. by exists [], [].
    - destruct (Ascii.eqb_spec c "010").
      + intros [->|Hr]%elem_of_cons; [by exists [], (c :: l)|]. destruct (IH [] Hr) as (a & b & Hl). cbn in Hl.
        exists (reverse cur ++ c :: a), b. by rewrite Hl, <- app_assoc.
      + intros Hr. destruct (IH _ Hr) as (a & b & Hl). exists a, b. by rewrite <- Hl, reverse_cons, <- app_assoc. }
  pose proof (split_bytes_no_sep "010" [] (s2l text) ltac:(by apply not_elem_of_nil)) as Hsep.
  rewrite Forall_forall in Hsep. specialize (Hsep _ Hr).
  destruct (trim_space_infix (l2s r)) as (x & y & Hinf). rewrite s2l_l2s in Hinf.
  split_and!.
  - apply trim_space_idem.
  - done.
  - eapply ascii_infix; [exact Hinf|]. by eapply ascii_infix.
  - eapply no_angle_infix; [exact Hinf|]. by eapply no_angle_infix.
  - intros Hin. apply Hsep. rewrite Hinf. set_solver.
Qed.

Lemma split_join ls : Forall tidy ls → ls ≠ [] → split (join ls lf) "010" = ls.
Proof.
  unfold split. induction 1 as [|l ls (_ & _ & _ & _ & Hl) Hls IH]; intros Hne; [done|]. destruct ls as [|l2 ls].
  - cbn [join]. by rewrite split_bytes_nosep, fmap_cons, reverse_nil, app_nil_l, l2s_s2l.
  - change (join (l :: l2 :: ls) lf) with (l +:+ lf +:+ join (l2 :: ls) lf). autorewrite with abot_str.
    change (s2l lf) with ["010"%char]. cbn [app]. rewrite split_bytes_app, split_bytes_nosep, fmap_app by done.
    rewrite IH by done. by rewrite fmap_cons, reverse_nil, app_nil_l, l2s_s2l.
Qed.

(** The first byte of a tidy line is no space, nor is the last. *)
Lemma solid_starts_clean runes c k :
  Forall head_not_ascii runes → is_ascii_byte c = true → is_ascii_space c = false → starts_clean runes (c :: k).
Proof. intros Hr Hc Hs c' k' [= <- <-]. split; [done|]. by apply strip_runes_ascii. Qed.

Lemma tidy_ends l : tidy l → ∃ c k d k', s2l l = c :: k ∧ reverse (s2l l) = d :: k'
  ∧ is_ascii_byte c = true ∧ is_ascii_space c = false ∧ is_ascii_byte d = true ∧ is_ascii_space d = false.
Proof.
  intros (Ht & Hne & Ha & _). destruct (trim_space_clean l) as [Hl Hr]. rewrite Ht in Hl, Hr.
  pose proof (proj2 (Forall_reverse _ _) Ha) as Har.
  destruct (s2l l) as [|c k] eqn:Hs; [destruct Hne; by rewrite <- (l2s_s2l l), Hs|].
  destruct (reverse (c :: k)) as [|d k'] eqn:Hrev; [by apply (f_equal length) in Hrev; rewrite length_reverse in Hrev|].
  exists c, k, d, k'. destruct (Hl c k eq_refl) as [? _]. destruct (Hr d k' eq_refl) as [? _].
  apply Forall_cons in Ha as [? _]. apply Forall_cons in Har as [? _]. done.
Qed.

Lemma trim_join ls : Forall tidy ls → trim_space (join ls lf) = join ls lf.
Proof.
  intros Hls. destruct ls as [|l ls]; [done|]. pose proof Hls as Hl. apply Forall_cons in Hl as [Hl _].
  apply tidy_ends in Hl as (c & k & _ & _ & Hc & _ & Hca & Hcs & _ & _).
  destruct (last (l :: ls)) as [z|] eqn:Hz; [|by apply last_None in Hz].
  assert (tidy z) as Hzt by (rewrite Forall_forall in Hls; by apply Hls, last_Some_elem_of).
  apply tidy_ends in Hzt as (_ & _ & d & k' & _ & Hd & _ & _ & Hda & Hds).
  assert (∃ x, s2l (join (l :: ls) lf) = s2l l ++ x) as [x Hx].
  { destruct ls; [exists []; by rewrite app_nil_r|].
    eexists. change (join (l :: s :: ls) lf) with (l +:+ lf +:+ join (s :: ls) lf). by rewrite s2l_app. }
  assert (∃ y, s2l (join (l :: ls) lf) = y ++ s2l z) as [y Hy].
  { clear -Hz. revert l Hz. induction ls as [|l2 ls IH]; intros l Hz; [injection Hz as ->; by exists []|].
    destruct (IH l2 Hz) as [y Hy]. change (join (l :: l2 :: ls) lf) with (l +:+ lf +:+ join (l2 :: ls) lf).
    rewrite !s2l_app, Hy. exists (s2l l ++ s2l lf ++ y). by rewrite <- !app_assoc. }
  apply trim_space_stays.
  - rewrite Hx, Hc. by apply solid_starts_clean; [apply space_runes_head|..].
  - rewrite Hy, reverse_app, Hd. by apply solid_starts_clean; [apply space_runes_rev_head|..].
Qed.

Lemma text_lines_join ls : Forall tidy ls → text_lines (join ls lf) = ls.
Proof.
  intros Hls. destruct (decide (ls = [])) as [->|Hne]; [by vm_compute|].
  unfold text_lines. rewrite split_join by done. clear Hne.
  induction Hls as [|l ls (Ht & Hl & _) _ IH]; [done|]. cbn [fmap list_fmap].
  rewrite filter_cons_True by (by rewrite Ht). by rewrite Ht, IH.
Qed.

Lemma join_plain ls : Forall tidy ls → ascii (s2l (join ls lf)) ∧ no_angle (s2l (join ls lf)).
Proof.
  induction 1 as [|l ls (_ & _ & Ha & Hn & _) _ [IHa IHn]]; [split; [constructor|by split; apply not_elem_of_nil]|].
  destruct ls as [|l2 ls]; [done|]. change (join (l :: l2 :: ls) lf) with (l +:+ lf +:+ join (l2 :: ls) lf).
  rewrite !s2l_app, !Forall_app, !no_angle_app. split_and!; try done; [by repeat constructor|].
  split; by vm_compute; intros [?|?%not_elem_of_nil]%elem_of_cons.
Qed.

Lemma no_angle_no_tag l tag : no_angle l → index_bytes (lower l) (opening tag) = None.
Proof.
  intros [Hn _]. destruct (index_bytes _ _) as [i|] eqn:Hi; [|done].
  apply find_lower in Hi as (a & [|c m] & b & -> & _ & Hm & _); try done.
  injection Hm as Hc _. exfalso. apply Hn. assert (lower_byte c = "<"%char → c = "<"%char) as Hlow by by_bytes c.
  rewrite (Hlow Hc). apply elem_of_app. right. cbn. left.
Qed.

Lemma remove_blocks_id fuel l tag : ascii l → no_angle l → remove_blocks fuel tag l = Some l.
Proof.
  intros Ha Hn. destruct fuel; cbn [remove_blocks]; unfold index; rewrite to_lower_ascii by done; fold (opening tag);
    by rewrite no_angle_no_tag.
Qed.

(** The text of an ASCII page is what is left when the script and style blocks and then
    all tags are removed, in lines that are not blank and have no space around them; no
    angle bracket is left, and extracting the text again leaves it as it is. *)
Theorem ExtractText_spec html :
  ascii (s2l html) →
  ∃ h1 h2 out, cleaned "script" (s2l html) h1 ∧ cleaned "style" h1 h2
    ∧ out = text_lines (StripTags (l2s h2)) ∧ Forall tidy out
    ∧ ExtractText html = Some (join out lf) ∧ ExtractText (join out lf) = Some (join out lf).
Proof.
  intros Ha. destruct (remove_blocks_cleans (str_len html) "script" _ Ha) as (h1 & H1 & Hc1 & Ha1); [done|].
  destruct (remove_blocks_cleans (length h1) "style" _ Ha1) as (h2 & H2 & Hc2 & Ha2); [done|].
  set (out := text_lines (StripTags (l2s h2))). assert (Forall tidy out) as Ht.
  { apply text_lines_tidy; [|apply StripTags_no_angle]. apply trim_space_ascii. rewrite s2l_l2s.
    apply strip_tags_ascii; [by rewrite s2l_l2s|done]. }
  exists h1, h2, out. split_and!; try done; unfold ExtractText.
  - by rewrite H1; cbn; rewrite H2.
  - destruct (join_plain _ Ht) as [Hja Hjn]. rewrite remove_blocks_id by done. cbn.
    rewrite remove_blocks_id by done. cbn. unfold StripTags. rewrite !s2l_l2s, strip_tags_id by done.
    rewrite l2s_s2l, trim_join by done. by rewrite text_lines_join.
Qed.
End text.

(** ** Searching *)

Lemma unhex_digit n : 0 ≤ n < 16 → unhex (hex_digit n) = Some n.
Proof.
  intros Hn. assert (forallb (λ n, bool_decide (unhex (hex_digit n) = Some n)) (seqZ 0 16) = true) as Hall by (by vm_compute).
  rewrite forallb_forall in Hall. apply (bool_decide_unpack (unhex (hex_digit n) = Some n)), Is_true_eq_left, Hall.
  apply list_elem_of_In, elem_of_seqZ. lia.
Qed.

Lemma escape_byte_back c l : unescape_bytes (escape_byte c ++ l) = cons c <$> unescape_bytes l.
Proof.
  unfold escape_byte. destruct (is_unreserved c) eqn:Hu; [|destruct (Ascii.eqb_spec c " ") as [->|]; [done|]]; cbn [app unescape_bytes].
  - assert (is_unreserved c = true → Ascii.eqb c "%" = false ∧ Ascii.eqb c "+" = false) as [-> ->]; [by_bytes c|done|done].
  - change (Ascii.eqb "%" "%") with true. cbn iota.
    assert (0 ≤ byte_val c < 256) as Hc by (by_bytes c).
    rewrite !unhex_digit; cbn [mbind option_bind].
    + assert (ascii_of_N (Z.to_N (Z.shiftr (byte_val c) 4 * 16 + Z.land (byte_val c) 15)) = c) as -> by (by_bytes c). done.
    + by_bytes c.
    + by_bytes c.
Qed.

(** The query can be read back from the request. *)
Lemma QueryEscape_back s : QueryUnescape (QueryEscape s) = Some s.
Proof.
  unfold QueryUnescape, QueryEscape. rewrite s2l_l2s.
  enough (unescape_bytes (flat_map escape_byte (s2l s)) = Some (s2l s)) as -> by (cbn; by rewrite l2s_s2l).
  induction (s2l s) as [|c l IH]; [done|]. cbn [flat_map]. by rewrite escape_byte_back, IH.
Qed.

Section search.
Context `{UnicodeCase} {W : Type} (query_Get : string → string → option string).
Context (plain_get : string → W → W * result goerror web_reply).

(** A hit has a link and a title, and no tags in its texts. *)
Definition good_hit (h : webSearchHit) : Prop :=
  wh_URL h ≠ "" ∧ wh_Title h ≠ "" ∧ no_angle (s2l (wh_Title h)) ∧ no_angle (s2l (wh_Snippet h)).

Lemma no_angle_nil : no_angle [].
Proof. by split; apply not_elem_of_nil. Qed.

Lemma hit_of_good part h : hit_of query_Get part = Some h → good_hit h.
Proof.
  unfold hit_of. destruct (str_empty _) eqn:Hu; [done|]. destruct (str_empty (wh_Title _)) eqn:Ht; [done|]. intros [= <-].
  unfold str_empty in *. apply bool_decide_eq_false in Hu, Ht. split_and!; [done|done|..]; cbn [wh_Title wh_Snippet].
  - unfold hit_title. case_match; [apply StripTags_no_angle|apply no_angle_nil].
  - unfold hit_snippet. case_match; [apply StripTags_no_angle|apply no_angle_nil].
Qed.

Lemma hits_loop_spec limit parts hits :
  Forall good_hit hits → Z.of_nat (length hits) ≤ Z.max limit 0 →
  Forall good_hit (hits_loop query_Get limit parts hits) ∧ Z.of_nat (length (hits_loop query_Get limit parts hits)) ≤ Z.max limit 0.
Proof.
  revert hits. induction parts as [|part parts IH]; intros hits Hg Hl; cbn [hits_loop]; [done|].
  destruct (Z.of_nat (length hits) <? limit) eqn:Hlt; [|done]. apply IH; destruct (hit_of query_Get part) eqn:Hh; try done.
  - apply Forall_app. split; [done|]. constructor; [by eapply hit_of_good|constructor].
  - rewrite length_app. cbn. lia.
Qed.

(** A search sends one request, from which the query can be read back, and gives as many
    hits as were asked for or five, never more than ten, each with a link and a title and
    without tags. *)
Theorem web_search_spec query maxResults w w' r :
  web_search query_Get plain_get query maxResults w = (w', r) →
  (∃ q, QueryUnescape q = Some query ∧ w' = (plain_get ("https://html.duckduckgo.com/html/?q=" +:+ q) w).1)
  ∧ ∀ hits, r = Ok hits → Forall good_hit hits
      ∧ Z.of_nat (length hits) ≤ (if decide (1 ≤ maxResults ≤ 10) then maxResults else 5).
Proof.
  unfold web_search, duckduckgoSearch. intros Hr. split.
  - exists (QueryEscape query). split; [apply QueryEscape_back|]. destruct (plain_get _ w) as [w1 [resp|e]]; [|by injection Hr].
    destruct (read_limited _ resp); by injection Hr.
  - intros hits ->. destruct (plain_get _ w) as [w1 [resp|e]]; [|done]. destruct (read_limited _ resp) as [body|]; [|done].
    injection Hr as <- <-. unfold ParseDDGResults.
    set (limit := if _ || _ then 5 else maxResults).
    assert (Z.max limit 0 = if decide (1 ≤ maxResults ≤ 10) then maxResults else 5) as <-.
    { unfold limit. destruct (decide _), (Z.leb_spec maxResults 0), (Z.ltb_spec 10 maxResults); cbn; lia. }
    apply hits_loop_spec; [constructor|cbn; lia].
Qed.
End search.

(** ** Examples *)

(** Lower-casing can make a text longer: U+023A has two bytes, its small letter three. *)
Definition cap_stroke : string := l2s ["200"; "186"]%char.
Definition small_stroke : string := l2s ["226"; "177"; "165"]%char.

Lemma replace_from_no_upper skip old new l :
  Forall (λ c, is_upper_byte c = false) new → Forall (λ c, is_upper_byte c = false) l →
  Forall (λ c, is_upper_byte c = false) (replace_from skip old new l).
Proof.
  intros Hn Hl. revert skip. induction Hl as [|c l Hc _ IH]; intros skip; cbn [replace_from]; [constructor|].
  destruct skip; [|apply IH]. case_match; [by apply Forall_app|by constructor].
Qed.

Definition stroke_case : UnicodeCase.
Proof.
  refine {| unicode_lower s := replace_all (bytewise_lower s) cap_stroke small_stroke |}.
  intros s. unfold replace_all. rewrite s2l_l2s. apply replace_from_no_upper; [by repeat constructor|].
  apply bytewise_lower_no_upper.
Defined.

(** Positions found in the lower-cased page are used in the page itself: twenty such letters
    before a script make the slice go out of range, so that the tool panics. *)
Lemma ExtractText_panics :
  ExtractText (H := stroke_case) (foldr String.append "<script>x</script>" (replicate 20 cap_stroke)) = None.
Proof. by vm_compute. Qed.

Lemma ExtractText_example :
  ExtractText (H := bytewise_case) "<p>a</p>  <SCRIPT>var x = 1 < 2;</script> b <style>" = Some "a   b"%string.
Proof. by vm_compute. Qed.

Definition w_split (addr : string) : result goerror (string * string) := Ok (addr, "80"%string).
Definition w_resolve (host : string) (w : nat) : nat * result goerror (list IP) :=
  (S w, Ok [if bool_decide (host = "inside"%string) then [192; 168; 1; 1] else [93; 184; 216; 34]]).
Definition w_dial (ip : IP) (port : string) (w : nat) : nat * result goerror IP := (w, Ok ip).
Definition w_url (host : string) : url := {| u_Scheme := "http"; u_Host := host; u_addr := host |}.
(** The first page leads to a host inside. *)
Definition w_exchange (c : IP) (u : url) (w : nat) : nat * result goerror web_answer := (w, Ok (Moved (w_url "inside"))).
Definition w_parse (s : string) : option url := Some (w_url s).

Lemma w_resolve_ips host w ips : (w_resolve host w).2 = Ok ips → Forall is_ip ips.
Proof.
  cbn. intros [= <-]. constructor; [|constructor]. case_bool_decide; (split; [by left|repeat constructor; lia]).
Qed.

Definition w_net : net := {| nt_world := 0%nat; nt_dialled := [] |}.

Lemma web_fetch_confined_witness :
  dials (W := nat) maxRedirects w_net {| nt_world := 2%nat; nt_dialled := [([93; 184; 216; 34], "80"%string)] |}.
Proof.
  refine (proj1 (web_fetch_confined (H := bytewise_case) w_split w_resolve w_dial w_exchange w_resolve_ips w_parse (λ _, None)
    "outside" w_net _ (Err (ErrText "SSRF blocked")) _)).
  vm_compute. reflexivity.
Defined.

Lemma ExtractText_spec_witness : ∃ out,
  Forall tidy out ∧ ExtractText (H := bytewise_case) "<b>x</b>" = Some (join out lf).
Proof.
  destruct (ExtractText_spec (H := bytewise_case) "<b>x</b>") as (h1 & h2 & out & _ & _ & _ & Ht & Hout & _); [repeat constructor|].
  by exists out.
Defined.

Definition w_page : string :=
  "<a class=" +:+ quoted "result__a" +:+ " href=" +:+ quoted "http://x" +:+ "><b>T</b></a>".
Definition w_get (u : string) (w : nat) : nat * result goerror web_reply :=
  (S w, Ok {| wr_Status := 200; wr_ContentType := "text/html"; wr_Body := s2l w_page; wr_Err := None |}).

Lemma web_search_spec_witness :
  Forall good_hit [{| wh_Title := "T"; wh_URL := "http://x"; wh_Snippet := "" |}].
Proof.
  refine (proj1 (proj2 (web_search_spec (λ _ _, None) w_get "a b" 3 0%nat 1%nat _ _) _ eq_refl)).
  vm_compute. reflexivity.
Defined.
