(* ===== verification/SkillStores.v ===== *)
(** [pkg/storage/mysql/skills.go], [tenant_skills.go] and [skill_proposals.go]: the registry of
    skills, what tenants have installed and the proposals, as tables of a database.

    Rows are filed under their primary keys; the columns that hold JSON hold their values.
    A statement fails when [fault] says so or when its key is taken.  The database never
    gives an identifier twice; it also counts one up when an insert turns into an update. *)
From S2P Require Import Prelude GoStrings Values Types Stores Accounts.

Record skill_db := {
  sk_records : gmap Z SkillRecord; sk_next : Z;
  sk_installed : gmap (string * Z) TenantSkill;
  sk_proposals : gmap Z SkillProposal; sk_next_proposal : Z;
  sk_now : time;
}.

Inductive skill_table := TSkillRecords | TTenantSkills | TSkillProposals.
(** The key of a statement: a text and a number. *)
Abbreviation skill_key := (string * Z)%type (only parsing).

Definition set_records (m : gmap Z SkillRecord) (next : Z) (s : skill_db) : skill_db :=
  {| sk_records := m; sk_next := next; sk_installed := sk_installed s; sk_proposals := sk_proposals s;
     sk_next_proposal := sk_next_proposal s; sk_now := sk_now s |}.
Definition set_installed (m : gmap (string * Z) TenantSkill) (s : skill_db) : skill_db :=
  {| sk_records := sk_records s; sk_next := sk_next s; sk_installed := m; sk_proposals := sk_proposals s;
     sk_next_proposal := sk_next_proposal s; sk_now := sk_now s |}.
Definition set_proposals (m : gmap Z SkillProposal) (next : Z) (s : skill_db) : skill_db :=
  {| sk_records := sk_records s; sk_next := sk_next s; sk_installed := sk_installed s; sk_proposals := m;
     sk_next_proposal := next; sk_now := sk_now s |}.

Section mysql.
Context (fault : operation → skill_table → skill_key → skill_db → option goerror).
Context `{Scan} `{SliceSort}.

Definition sk_exec (op : operation) (tb : skill_table) (key : skill_key) (f : skill_db → option skill_db) (s : skill_db)
    : skill_db * option goerror :=
  match fault op tb key s with
  | Some e => (s, Some e)
  | None => match f s with Some s => (s, None) | None => (s, Some ErrConstraint) end
  end.

Definition sk_query {A} (tb : skill_table) (key : skill_key) (f : skill_db → result goerror A) (s : skill_db) : result goerror A :=
  match fault OpQuery tb key s with Some e => Err e | None => f s end.

(** ** skills.go *)

Definition record_named (name : string) (s : skill_db) : option SkillRecord :=
  head (scan (rows (λ r, bool_decide (sr_Name r = name)) (sk_records s))).

(** The row an insert runs into: of the same identifier, if one is given, or of the same
    name. *)
Definition conflict (r : SkillRecord) (s : skill_db) : option SkillRecord :=
  match (if sr_ID r =? 0 then None else sk_records s !! sr_ID r) with
  | Some old => Some old
  | None => record_named (sr_Name r) s
  end.

(** [clause.AssignmentColumns]: all columns but the identifier, the name and the time of
    creation. *)
Definition assigned (now : time) (old r : SkillRecord) : SkillRecord :=
  {| sr_ID := sr_ID old; sr_Name := sr_Name old; sr_Description := sr_Description r; sr_Version := sr_Version r;
     sr_ObjectPath := sr_ObjectPath r; sr_Tier := sr_Tier r; sr_AlwaysLoad := sr_AlwaysLoad r; sr_Status := sr_Status r;
     sr_Metadata := sr_Metadata r; sr_CreatedAt := sr_CreatedAt old; sr_UpdatedAt := or_now now (sr_UpdatedAt r) |}.

Definition created_record (now : time) (id : Z) (r : SkillRecord) : SkillRecord :=
  {| sr_ID := id; sr_Name := sr_Name r; sr_Description := sr_Description r; sr_Version := sr_Version r;
     sr_ObjectPath := sr_ObjectPath r; sr_Tier := sr_Tier r; sr_AlwaysLoad := sr_AlwaysLoad r; sr_Status := sr_Status r;
     sr_Metadata := sr_Metadata r; sr_CreatedAt := or_now now (sr_CreatedAt r); sr_UpdatedAt := or_now now (sr_UpdatedAt r) |}.

Definition put_record (r : SkillRecord) (s : skill_db) : skill_db :=
  let id := if sr_ID r =? 0 then sk_next s else sr_ID r in
  let next := Z.max (sk_next s) (id + 1) in
  match conflict r s with
  | Some old => set_records (<[sr_ID old := assigned (sk_now s) old r]> (sk_records s)) next s
  | None => set_records (<[id := created_record (sk_now s) id r]> (sk_records s)) next s
  end.

#[global] Instance mysql_skills : SkillRegistryStore skill_db := {
  srs_Get name := sk_query TSkillRecords (name, 0) (λ s, found_ptr (record_named name s));
  srs_GetByID id := sk_query TSkillRecords (""%string, id) (λ s, found_ptr (sk_records s !! id));
  srs_GetByIDs ids s :=
    match ids with
    | [] => Ok []
    | _ => sk_query TSkillRecords (""%string, 0) (λ s, Ok (scan (rows (λ r, bool_decide (sr_ID r ∈ ids)) (sk_records s)))) s
    end;
  srs_List opts :=
    sk_query TSkillRecords (slo_Status opts, 0)
      (λ s, Ok (scan (rows (λ r, (str_empty (slo_Tier opts) || bool_decide (tier_string (sr_Tier r) = slo_Tier opts))
                                 && (str_empty (slo_Status opts) || bool_decide (sr_Status r = slo_Status opts))) (sk_records s))));
  srs_Put r := sk_exec OpUpsert TSkillRecords (sr_Name r, sr_ID r) (λ s, Some (put_record r s));
  srs_Delete name := sk_exec OpDelete TSkillRecords (name, 0)
    (λ s, Some (set_records (filter (λ kr, sr_Name kr.2 ≠ name) (sk_records s)) (sk_next s) s));
}.

(** ** tenant_skills.go *)

Definition stored_install (now : time) (ts : TenantSkill) : TenantSkill :=
  {| ts_TenantID := ts_TenantID ts; ts_SkillID := ts_SkillID ts; ts_AlwaysLoad := ts_AlwaysLoad ts; ts_Config := ts_Config ts;
     ts_Priority := ts_Priority ts; ts_InstalledAt := or_now now (ts_InstalledAt ts) |}.
Definition with_config (c : config) (ts : TenantSkill) : TenantSkill :=
  {| ts_TenantID := ts_TenantID ts; ts_SkillID := ts_SkillID ts; ts_AlwaysLoad := ts_AlwaysLoad ts; ts_Config := c;
     ts_Priority := ts_Priority ts; ts_InstalledAt := ts_InstalledAt ts |}.

#[global] Instance mysql_installed : TenantSkillStore skill_db := {
  tss_Install ts := sk_exec OpInsert TTenantSkills (ts_TenantID ts, ts_SkillID ts)
    (λ s, m ← insert_new (ts_TenantID ts, ts_SkillID ts) (stored_install (sk_now s) ts) (sk_installed s);
          Some (set_installed m s));
  tss_Uninstall t id := sk_exec OpDelete TTenantSkills (t, id) (λ s, Some (set_installed (delete (t, id) (sk_installed s)) s));
  tss_ListInstalled t :=
    sk_query TTenantSkills (t, 0)
      (λ s, Ok (sort_slice (λ a b, ts_Priority a <? ts_Priority b)
                  (scan (rows (λ ts, bool_decide (ts_TenantID ts = t)) (sk_installed s)))));
  tss_UpdateConfig t id c := sk_exec OpSave TTenantSkills (t, id)
    (λ s, Some (set_installed (alter (with_config c) (t, id) (sk_installed s)) s));
}.

(** ** skill_proposals.go *)

Definition created_proposal (now : time) (id : Z) (p : SkillProposal) : SkillProposal :=
  {| sp_ID := id; sp_SkillName := sp_SkillName p; sp_ProposedBy := sp_ProposedBy p; sp_ObjectPath := sp_ObjectPath p;
     sp_Status := sp_Status p; sp_ReviewedBy := sp_ReviewedBy p; sp_CreatedAt := or_now now (sp_CreatedAt p) |}.
Definition reviewed (status reviewedBy : string) (p : SkillProposal) : SkillProposal :=
  {| sp_ID := sp_ID p; sp_SkillName := sp_SkillName p; sp_ProposedBy := sp_ProposedBy p; sp_ObjectPath := sp_ObjectPath p;
     sp_Status := status; sp_ReviewedBy := reviewedBy; sp_CreatedAt := sp_CreatedAt p |}.

#[global] Instance mysql_proposals : SkillProposalStore skill_db := {
  sps_Create p := sk_exec OpInsert TSkillProposals (""%string, sp_ID p)
    (λ s, let id := if sp_ID p =? 0 then sk_next_proposal s else sp_ID p in
          m ← insert_new id (created_proposal (sk_now s) id p) (sk_proposals s);
          Some (set_proposals m (Z.max (sk_next_proposal s) (id + 1)) s));
  sps_Get id := sk_query TSkillProposals (""%string, id) (λ s, found (sk_proposals s !! id));
  sps_List status :=
    sk_query TSkillProposals (status, 0)
      (λ s, Ok (sort_slice (λ a b, sp_CreatedAt b <? sp_CreatedAt a)
                  (scan (rows (λ p, str_empty status || bool_decide (sp_Status p = status)) (sk_proposals s)))));
  sps_UpdateStatus id status by_ := sk_exec OpSave TSkillProposals (""%string, id)
    (λ s, Some (set_proposals (alter (reviewed status by_) id (sk_proposals s)) (sk_next_proposal s) s));
}.
End mysql.

(** ** Histories *)

Inductive skill_op :=
| OpPut (r : SkillRecord) | OpDeleteSkill (name : string)
| OpInstall (ts : TenantSkill) | OpUninstall (tenant : string) (id : Z) | OpConfigure (tenant : string) (id : Z) (c : config)
| OpPropose (p : SkillProposal) | OpReview (id : Z) (status by_ : string).

(** Every identifier is that of its row and was counted, and names are unique. *)
Definition skills_ok (s : skill_db) : Prop :=
  map_Forall (λ i r, sr_ID r = i ∧ i < sk_next s ∧ map_Forall (λ j r', sr_Name r' = sr_Name r → j = i) (sk_records s)) (sk_records s)
  ∧ 0 < sk_next s
  ∧ map_Forall (λ k ts, (ts_TenantID ts, ts_SkillID ts) = k) (sk_installed s)
  ∧ map_Forall (λ i p, sp_ID p = i ∧ i < sk_next_proposal s) (sk_proposals s).

Section histories.
Context (fault : operation → skill_table → skill_key → skill_db → option goerror).
Context `{Scan}.
Existing Instances mysql_skills mysql_installed mysql_proposals.

Definition skill_step `{SliceSort} (s : skill_db) (op : skill_op) : skill_db :=
  match op with
  | OpPut r => (srs_Put (SkillRegistryStore := mysql_skills fault) r s).1
  | OpDeleteSkill name => (srs_Delete (SkillRegistryStore := mysql_skills fault) name s).1
  | OpInstall ts => (tss_Install (TenantSkillStore := mysql_installed fault) ts s).1
  | OpUninstall t i => (tss_Uninstall (TenantSkillStore := mysql_installed fault) t i s).1
  | OpConfigure t i c => (tss_UpdateConfig (TenantSkillStore := mysql_installed fault) t i c s).1
  | OpPropose p => (sps_Create (SkillProposalStore := mysql_proposals fault) p s).1
  | OpReview i st by_ => (sps_UpdateStatus (SkillProposalStore := mysql_proposals fault) i st by_ s).1
  end.

Lemma record_named_Some name s r : record_named name s = Some r → sr_Name r = name ∧ ∃ i, sk_records s !! i = Some r.
Proof.
  unfold record_named. intros Hh. assert (r ∈ scan (rows (λ r, bool_decide (sr_Name r = name)) (sk_records s))) as Hin.
  { destruct (scan _); [done|]. injection Hh as ->. left. }
  rewrite scan_perm in Hin. apply elem_of_rows in Hin as [Hn Hi]. split; [by apply bool_decide_eq_true in Hn|done].
Qed.
Lemma record_named_None name s : record_named name s = None → ∀ i r, sk_records s !! i = Some r → sr_Name r ≠ name.
Proof.
  unfold record_named. intros Hh i r Hi Hn.
  assert (r ∈ scan (rows (λ r, bool_decide (sr_Name r = name)) (sk_records s))) as Hin.
  { rewrite scan_perm. apply elem_of_rows. split; [by apply bool_decide_eq_true|by exists i]. }
  destruct (scan _); [by apply not_elem_of_nil in Hin|done].
Qed.

Lemma conflict_Some r s old : conflict r s = Some old → ∃ i, sk_records s !! i = Some old.
Proof.
  unfold conflict. destruct (if sr_ID r =? 0 then None else sk_records s !! sr_ID r) as [o|] eqn:Ho.
  - intros [= ->]. destruct (sr_ID r =? 0); [done|]. by eexists.
  - intros [_ Hi]%record_named_Some. done.
Qed.
Lemma conflict_None r s : conflict r s = None →
  (sr_ID r ≠ 0 → sk_records s !! sr_ID r = None) ∧ ∀ i r', sk_records s !! i = Some r' → sr_Name r' ≠ sr_Name r.
Proof.
  unfold conflict. destruct (if sr_ID r =? 0 then None else sk_records s !! sr_ID r) as [o|] eqn:Ho; [done|].
  intros Hn. split; [|by apply record_named_None]. destruct (Z.eqb_spec (sr_ID r) 0); [done|]. done.
Qed.

Lemma put_record_ok r s : 0 ≤ sr_ID r → skills_ok s → skills_ok (put_record r s).
Proof.
  intros Hid (Hrec & Hnext & Hins & Hprop). unfold put_record.
  set (id := if sr_ID r =? 0 then sk_next s else sr_ID r). set (next := Z.max (sk_next s) (id + 1)).
  assert (0 < id) as Hpos by (unfold id; destruct (Z.eqb_spec (sr_ID r) 0); lia).
  destruct (conflict r s) as [old|] eqn:Hc; (split_and!; [|cbn; lia|done|done]); cbn [set_records sk_records sk_next].
  - apply conflict_Some in Hc as [i Hi]. destruct (Hrec i old Hi) as (Hio & Hlt & Huniq). rewrite Hio.
    intros j r' [[<- <-]|[Hne Hj]]%lookup_insert_Some.
    + split_and!; [done|lia|]. intros k r'' [[<- <-]|[Hne Hk]]%lookup_insert_Some; [done|]. cbn. by apply Huniq.
    + destruct (Hrec j r' Hj) as (? & ? & Huniq'). split_and!; [done|lia|].
      intros k r'' [[<- <-]|[Hne' Hk]]%lookup_insert_Some; [|by apply (Huniq' k r'')]. cbn. by apply (Huniq' i old).
  - apply conflict_None in Hc as [Hfree Hnames].
    intros j r' [[<- <-]|[Hne Hj]]%lookup_insert_Some.
    + split_and!; [done|lia|]. intros k r'' [[<- <-]|[Hne Hk]]%lookup_insert_Some; [done|]. intros Hn. by destruct (Hnames k r'' Hk).
    + destruct (Hrec j r' Hj) as (? & ? & Huniq'). split_and!; [done|lia|].
      intros k r'' [[<- <-]|[Hne' Hk]]%lookup_insert_Some; [|by apply (Huniq' k r'')]. cbn. intros Hn. by destruct (Hnames j r' Hj).
Qed.

(** Identifiers of records are not negative. *)
Definition op_plain (op : skill_op) : Prop :=
  match op with OpPut r => 0 ≤ sr_ID r | OpPropose p => 0 ≤ sp_ID p | _ => True end.

Lemma sk_exec_cases op tb key f s s' e :
  sk_exec fault op tb key f s = (s', e) → s' = s ∧ e ≠ None ∨ f s = Some s' ∧ e = None.
Proof.
  unfold sk_exec. destruct (fault op tb key s); [intros [= <- <-]; by left|].
  destruct (f s); intros [= <- <-]; [by right|by left].
Qed.
Lemma sk_exec_keeps (P : skill_db → Prop) op tb key f s :
  P s → (∀ s', f s = Some s' → P s') → P (sk_exec fault op tb key f s).1.
Proof.
  intros HP Hf. destruct (sk_exec fault op tb key f s) as [s' e] eqn:He.
  apply sk_exec_cases in He as [[-> _]|[Hs _]]; [done|by apply Hf].
Qed.

Lemma skill_step_ok `{SliceSort} s op : op_plain op → skills_ok s → skills_ok (skill_step s op).
Proof.
  intros Hp Hok. destruct op as [r|name|ts|t i|t i c|p|i st by_]; cbn in Hp |- *; apply sk_exec_keeps; try done.
  - intros s' [= <-]. by apply put_record_ok.
  - intros s' [= <-]. destruct Hok as (Hrec & Hnext & Hins & Hprop). split_and!; try done. cbn.
    intros i r [Hi _]%map_lookup_filter_Some. destruct (Hrec i r Hi) as (? & ? & Hu). split_and!; try done.
    intros j r' [Hj _]%map_lookup_filter_Some. by apply Hu.
  - intros s'. destruct (insert_new _ _ _) as [m|] eqn:Hm; [|done]. intros [= <-].
    destruct Hok as (Hrec & Hnext & Hins & Hprop). split_and!; try done. cbn.
    unfold insert_new in Hm. destruct (sk_installed s !! _); [done|]. injection Hm as <-. by apply map_Forall_insert_2.
  - intros s' [= <-]. destruct Hok as (Hrec & Hnext & Hins & Hprop). split_and!; try done. cbn. by apply map_Forall_delete.
  - intros s' [= <-]. destruct Hok as (Hrec & Hnext & Hins & Hprop). split_and!; try done. cbn.
    intros k ts' [(<- & old & Hk & ->)|[_ Hk]]%lookup_alter_Some; exact (Hins _ _ Hk).
  - intros s'. destruct (insert_new _ _ _) as [m|] eqn:Hm; [|done]. intros [= <-].
    destruct Hok as (Hrec & Hnext & Hins & Hprop). split_and!; try done. cbn.
    unfold insert_new in Hm. destruct (sk_proposals s !! _); [done|]. injection Hm as <-.
    intros j p' [[<- <-]|[_ Hj]]%lookup_insert_Some; [split; [done|lia]|].
    destruct (Hprop j p' Hj). split; [done|lia].
  - intros s' [= <-]. destruct Hok as (Hrec & Hnext & Hins & Hprop). split_and!; try done. cbn.
    intros k p' [(<- & old & Hk & ->)|[_ Hk]]%lookup_alter_Some; exact (Hprop _ _ Hk).
Qed.

Definition skill_run `{SliceSort} (ops : list skill_op) (s : skill_db) : skill_db := fold_left skill_step ops s.

Lemma skill_run_ok `{SliceSort} ops s : Forall op_plain ops → skills_ok s → skills_ok (skill_run ops s).
Proof. intros Hp. revert s. induction Hp as [|op ops Hop _ IH]; intros s Hok; [done|]. apply IH. by apply skill_step_ok. Qed.

(** What an identifier stands for: nothing yet, a skill of some name, or a skill that was
    deleted. *)
Definition means (id : Z) (name : string) (s : skill_db) : Prop :=
  id < sk_next s ∧ ∀ r, sk_records s !! id = Some r → sr_Name r = name.

Definition op_counted (op : skill_op) : Prop := match op with OpPut r => sr_ID r = 0 | _ => op_plain op end.

Lemma skill_step_means `{SliceSort} id name s op :
  op_counted op → skills_ok s → means id name s → means id name (skill_step s op).
Proof.
  intros Hp Hok [Hlt Hm]. destruct op as [r|n|ts|t i|t i c|p|i st by_]; cbn in Hp |- *; apply sk_exec_keeps; try done.
  2-7: intros s'; try (destruct (insert_new _ _ _); [|done]); intros [= <-]; (split; [done|]); try done.
  - intros s' [= <-]. unfold put_record. rewrite Hp. cbn [Z.eqb]. destruct (conflict r s) as [old|] eqn:Hc.
    + apply conflict_Some in Hc as [i Hi]. destruct (proj1 Hok i old Hi) as (-> & _ & _). split; [cbn; lia|].
      cbn [set_records sk_records]. intros r' [[<- <-]|[_ Hr']]%lookup_insert_Some; [exact (Hm old Hi)|by apply Hm].
    + split; [cbn; lia|]. cbn [set_records sk_records]. intros r' [[<- <-]|[_ Hr']]%lookup_insert_Some; [lia|by apply Hm].
  - cbn. intros r' [Hr' _]%map_lookup_filter_Some. by apply Hm.
Qed.

(** Installing a skill is for good: whatever is put, deleted and put again afterwards, under
    the same name or another, the identifier that was installed never comes to stand for a
    skill of another name; and no two skills share a name. *)
Theorem installs_mean_the_same `{SliceSort} s ops id r :
  skills_ok s → Forall op_counted ops → sk_records s !! id = Some r →
  (∀ r', sk_records (skill_run ops s) !! id = Some r' → sr_Name r' = sr_Name r)
  ∧ ∀ i j r1 r2, sk_records (skill_run ops s) !! i = Some r1 → sk_records (skill_run ops s) !! j = Some r2 →
      sr_Name r1 = sr_Name r2 → i = j.
Proof.
  intros Hok Hops Hr. split.
  - assert (means id (sr_Name r) s) as Hm.
    { destruct (proj1 Hok id r Hr) as (_ & Hlt & _). split; [done|]. intros r' Hr'. congruence. }
    clear Hr. revert s Hok Hm. induction Hops as [|op ops Hop _ IH]; intros s Hok Hm; [apply Hm|].
    apply IH; [|by apply skill_step_means]. apply skill_step_ok; [|done]. destruct op; try done. cbn in Hop |- *. lia.
  - intros i j r1 r2 H1 H2 Hn. assert (skills_ok (skill_run ops s)) as (Hrec & _).
    { apply skill_run_ok; [|done]. eapply Forall_impl; [exact Hops|]. intros []; try done. cbn. lia. }
    destruct (Hrec j r2 H2) as (_ & _ & Hu). by apply (Hu i r1).
Qed.
End histories.

(** ** An empty database *)

Definition w_skill_db : skill_db :=
  {| sk_records := ∅; sk_next := 1; sk_installed := ∅; sk_proposals := ∅; sk_next_proposal := 1; sk_now := 1000 |}.
Definition no_skill_fault : operation → skill_table → skill_key → skill_db → option goerror := λ _ _ _ _, None.
Definition w_skill (name : string) : SkillRecord :=
  {| sr_ID := 0; sr_Name := name; sr_Description := ""; sr_Version := "1.0.0"; sr_ObjectPath := "o"; sr_Tier := SkillTierGlobal;
     sr_AlwaysLoad := false; sr_Status := StatusPublished; sr_Metadata := []; sr_CreatedAt := time_zero; sr_UpdatedAt := time_zero |}.

Lemma skills_ok_empty : skills_ok w_skill_db.
Proof. split_and!; [apply map_Forall_empty|done|apply map_Forall_empty..]. Qed.

Definition w_history : list skill_op := [OpPut (w_skill "pdf"); OpDeleteSkill "pdf"; OpPut (w_skill "web"); OpPut (w_skill "pdf")].
Definition w_skill_run := skill_run (H0 := stable_sort) no_skill_fault.

(** A deleted skill comes back under another identifier: what had been installed stays without
    a skill. *)
Lemma reinstalled_elsewhere :
  (sk_records (w_skill_run (take 1 w_history) w_skill_db) !! 1) ≠ None
  ∧ sk_records (w_skill_run w_history w_skill_db) !! 1 = None ∧ sk_records (w_skill_run w_history w_skill_db) !! 3 ≠ None.
Proof. by vm_compute. Qed.

Lemma installs_mean_the_same_witness :
  sr_Name <$> sk_records (w_skill_run [OpPut (w_skill "pdf"); OpPut (w_skill "web")] w_skill_db) !! 1 = Some "pdf"%string.
Proof.
  destruct (installs_mean_the_same (H0 := stable_sort) no_skill_fault (w_skill_run [OpPut (w_skill "pdf")] w_skill_db) [OpPut (w_skill "web")] 1
    (created_record 1000 1 (w_skill "pdf"))) as [Hn _].
  - apply skill_run_ok; [|exact skills_ok_empty]. constructor; [vm_compute; discriminate|constructor].
  - repeat constructor.
  - vm_compute. reflexivity.
  - change (w_skill_run [OpPut (w_skill "pdf"); OpPut (w_skill "web")] w_skill_db)
      with (w_skill_run [OpPut (w_skill "web")] (w_skill_run [OpPut (w_skill "pdf")] w_skill_db)).
    unfold w_skill_run at 1. destruct (sk_records _ !! 1) as [r'|] eqn:Hr; [exact (f_equal Some (Hn r' eq_refl))|vm_compute in Hr; discriminate Hr].
Defined.
