(* ===== verification/SkillMarket.v ===== *)
(** [pkg/api/marketplace/handler.go] and [pkg/tools/skills.go]: how skills are published and
    installed, by requests to the API and by the agents' tools, against the interfaces of
    the stores.

    Requests come with the claims of their token, those of the public routes without.  A
    body that could not be decoded is [None].  The remote registries are parameters. *)
From stdpp Require Import pretty.
From S2P Require Import Prelude GoStrings Floats Values Types Stores Accounts Api Auth FileTools SkillStores.

(** ** The API *)

Inductive market_data :=
| SkillsData (l : list SkillRecord) | SkillData (s : option SkillRecord) | InstalledData (l : list TenantSkill)
| ProposalData (p : SkillProposal) | ProposalsData (l : list SkillProposal) | ResultData (result : string).

Section api.
Context {S : Type} `{SkillRegistryStore S} `{TenantSkillStore S} `{SkillProposalStore S}.

Definition market_answer (status : Z) (d : market_data) : Response market_data := JSON status (Some d).
(** [writeError]: the text alone. *)
Definition market_error (status : Z) (msg : string) : Response market_data := {| rs_Status := status; rs_Body := TextBody msg |}.

Definition market_access (claims : option Claims) (tenantID : string) : bool :=
  match claims with Some c => existsb (λ t, bool_decide (t = tenantID)) (cl_Tenants c) | None => false end.

Definition listSkills (tier status : string) (s : S) : S * Response market_data :=
  match srs_List {| slo_Tier := tier; slo_Status := status |} s with
  | Err _ => (s, market_error StatusInternalServerError "failed to list skills")
  | Ok l => (s, market_answer StatusOK (SkillsData l))
  end.

Definition getSkill (name : string) (s : S) : S * Response market_data :=
  match srs_Get name s with
  | Err _ => (s, market_error StatusNotFound "skill not found")
  | Ok skill => (s, market_answer StatusOK (SkillData skill))
  end.

(** What the two handlers share that change what a tenant has installed: [k] is given the
    tenant and the identifier of the skill.  A nil skill is dereferenced: a panic. *)
Definition with_skill (claims : option Claims) (name : string) (tenant : option string) (s : S)
    (k : string → Z → S → S * Response market_data) : option (S * Response market_data) :=
  match tenant with
  | None | Some "" => Some (s, market_error StatusBadRequest "tenant_id is required")
  | Some tenantID =>
      if negb (market_access claims tenantID) then Some (s, market_error StatusForbidden "access denied to tenant")
      else match srs_Get name s with
           | Err _ => Some (s, market_error StatusNotFound "skill not found")
           | Ok None => None
           | Ok (Some skill) => Some (k tenantID (sr_ID skill) s)
           end
  end%string.

Definition new_install (tenantID : string) (id : Z) (at_ : time) : TenantSkill :=
  {| ts_TenantID := tenantID; ts_SkillID := id; ts_AlwaysLoad := None; ts_Config := []; ts_Priority := 0; ts_InstalledAt := at_ |}.

Definition installSkill (claims : option Claims) (name : string) (tenant : option string) (s : S) : option (S * Response market_data) :=
  with_skill claims name tenant s (λ t id s,
    match tss_Install (new_install t id time_zero) s with
    | (s, Some _) => (s, market_error StatusInternalServerError "failed to install skill")
    | (s, None) => (s, market_answer StatusOK (ResultData "installed"))
    end).

Definition uninstallSkill (claims : option Claims) (name : string) (tenant : option string) (s : S) : option (S * Response market_data) :=
  with_skill claims name tenant s (λ t id s,
    match tss_Uninstall t id s with
    | (s, Some _) => (s, market_error StatusInternalServerError "failed to uninstall skill")
    | (s, None) => (s, market_answer StatusOK (ResultData "uninstalled"))
    end).

Definition listInstalled (claims : option Claims) (tenant : string) (s : S) : S * Response market_data :=
  if str_empty tenant then (s, market_error StatusBadRequest "tenant is required")
  else if negb (market_access claims tenant) then (s, market_error StatusForbidden "access denied to tenant")
  else match tss_ListInstalled tenant s with
       | Err _ => (s, market_error StatusInternalServerError "failed to list installed skills")
       | Ok l => (s, market_answer StatusOK (InstalledData l))
       end.

(** The whole proposal is decoded from the body, then two fields are set. *)
Definition submitted (claims : option Claims) (p : SkillProposal) : SkillProposal :=
  {| sp_ID := sp_ID p; sp_SkillName := sp_SkillName p;
     sp_ProposedBy := match claims with Some c => cl_AccountID c | None => sp_ProposedBy p end;
     sp_ObjectPath := sp_ObjectPath p; sp_Status := "pending"; sp_ReviewedBy := sp_ReviewedBy p; sp_CreatedAt := sp_CreatedAt p |}.

Definition createProposal (claims : option Claims) (body : option SkillProposal) (s : S) : S * Response market_data :=
  match body with
  | None => (s, market_error StatusBadRequest "invalid JSON")
  | Some p =>
      if str_empty (sp_SkillName p) then (s, market_error StatusBadRequest "skill_name is required")
      else let p := submitted claims p in
           match sps_Create p s with
           | (s, Some _) => (s, market_error StatusInternalServerError "failed to create proposal")
           | (s, None) => (s, market_answer StatusCreated (ProposalData p))
           end
  end.

Definition listProposals (status : string) (s : S) : S * Response market_data :=
  match sps_List status s with
  | Err _ => (s, market_error StatusInternalServerError "failed to list proposals")
  | Ok l => (s, market_answer StatusOK (ProposalsData l))
  end.

Definition reviewProposal (claims : option Claims) (idStr : string) (body : option string) (s : S) : S * Response market_data :=
  match claims with
  | Some c =>
      if negb (bool_decide (cl_Role c = "admin"%string)) then (s, market_error StatusForbidden "admin access required")
      else match atoi idStr with
           | None => (s, market_error StatusBadRequest "invalid proposal id")
           | Some id =>
               match body with
               | None => (s, market_error StatusBadRequest "invalid JSON")
               | Some status =>
                   if bool_decide (status = "approved" ∨ status = "rejected")%string
                   then match sps_UpdateStatus id status (cl_AccountID c) s with
                        | (s, Some _) => (s, market_error StatusInternalServerError "failed to update proposal")
                        | (s, None) => (s, market_answer StatusOK (ResultData status))
                        end
                   else (s, market_error StatusBadRequest "status must be approved or rejected")
               end
           end
  | None => (s, market_error StatusForbidden "admin access required")
  end.

(** The routes of [Handler]. *)
Inductive market_request :=
| MListSkills (tier status : string) | MGetSkill (name : string)
| MInstall (name : string) (tenant : option string) | MUninstall (name : string) (tenant : option string)
| MListInstalled (tenant : string)
| MCreateProposal (body : option SkillProposal) | MListProposals (status : string) | MReview (id : string) (body : option string).

Definition market_handle (claims : option Claims) (r : market_request) (s : S) : option (S * Response market_data) :=
  match r with
  | MListSkills tier status => Some (listSkills tier status s)
  | MGetSkill name => Some (getSkill name s)
  | MInstall name t => installSkill claims name t s
  | MUninstall name t => uninstallSkill claims name t s
  | MListInstalled t => Some (listInstalled claims t s)
  | MCreateProposal p => Some (createProposal claims p s)
  | MListProposals status => Some (listProposals status s)
  | MReview id body => Some (reviewProposal claims id body s)
  end.
End api.

(** ** The tools *)

Record SkillSearchResult := {
  ss_Score : spec_float; ss_Slug : string; ss_DisplayName : string; ss_Summary : string; ss_Version : string;
  ss_RegistryName : string;
}.
Record SkillInstallResult := { si_Version : string; si_IsMalwareBlocked : bool; si_IsSuspicious : bool; si_Summary : string }.

Inductive skill_error :=
| NotConfigured | SlugMissing | NameMissing | SearchFailed (e : goerror) | InstallFailed (e : goerror) | MalwareBlocked
| RegistrySaveFailed (e : goerror) | UploadFailed (e : goerror) | ProposalFailed (e : goerror) | ProposalNotFound (e : goerror)
| ProposalNotPending (status : string) | ForeignProposal.

(** The stores, the objects and the calls of [InvalidateCache], which is optional. *)
Record skill_world (S O : Type) := { kw_store : S; kw_objects : O; kw_invalidated : list (string * string) }.
Arguments kw_store {S O} _.
Arguments kw_objects {S O} _.
Arguments kw_invalidated {S O} _.

Section tools.
Context {S O : Type} `{SkillRegistryStore S} `{TenantSkillStore S} `{SkillProposalStore S} `{ObjectStore O}.
(** Downloading a skill into the object store. *)
Context (SkillInstaller_Install : string → string → string → string → O → O * result goerror SkillInstallResult).

Definition with_store (s : S) (w : skill_world S O) : skill_world S O :=
  {| kw_store := s; kw_objects := kw_objects w; kw_invalidated := kw_invalidated w |}.
Definition with_objects (o : O) (w : skill_world S O) : skill_world S O :=
  {| kw_store := kw_store w; kw_objects := o; kw_invalidated := kw_invalidated w |}.

Definition find_skills (searcher : option (string → Z → result goerror (list SkillSearchResult))) (query : string) (limit : Z)
    : result skill_error (list SkillSearchResult) :=
  match searcher with
  | None => Err NotConfigured
  | Some SearchAll =>
      match SearchAll query (if (limit <=? 0) || (20 <? limit) then 5 else limit) with
      | Err e => Err (SearchFailed e)
      | Ok hits => Ok hits
      end
  end.

Record installSkillArgs := { is_Slug : string; is_Version : string; is_Registry : string }.

Definition published_record (name version objectPath : string) (now1 now2 : time) : SkillRecord :=
  {| sr_ID := 0; sr_Name := name; sr_Description := ""; sr_Version := version; sr_ObjectPath := objectPath;
     sr_Tier := SkillTierGlobal; sr_AlwaysLoad := false; sr_Status := StatusPublished; sr_Metadata := [];
     sr_CreatedAt := now1; sr_UpdatedAt := now2 |}.

(** Errors of reading the record back and of the installation for the tenant are dropped. *)
Definition install_for_tenant (has_loader : bool) (tenantID slug version : string) (now : time) (w : skill_world S O) : skill_world S O :=
  if str_empty tenantID then w
  else match srs_Get slug (kw_store w) with
       | Ok (Some saved) =>
           let w := with_store (tss_Install (new_install tenantID (sr_ID saved) now) (kw_store w)).1 w in
           if has_loader
           then {| kw_store := kw_store w; kw_objects := kw_objects w; kw_invalidated := kw_invalidated w ++ [(slug, version)] |}
           else w
       | _ => w
       end.

(** [configured]: there are an installer and an object store.  The result is the version and
    the warning. *)
Definition install_skill (configured has_loader : bool) (ctx : tool_ctx) (now1 now2 now3 : time) (args : installSkillArgs)
    (w : skill_world S O) : skill_world S O * result skill_error (string * option string) :=
  if negb configured then (w, Err NotConfigured)
  else if str_empty (is_Slug args) then (w, Err SlugMissing)
  else
    let version := if str_empty (is_Version args) then "latest"%string else is_Version args in
    let objectPath := "skills/" +:+ is_Slug args +:+ "/" +:+ version +:+ ".tar.gz" in
    match SkillInstaller_Install (is_Slug args) version (is_Registry args) objectPath (kw_objects w) with
    | (o, Err e) => (with_objects o w, Err (InstallFailed e))
    | (o, Ok res) =>
        let w := with_objects o w in
        if si_IsMalwareBlocked res then (w, Err MalwareBlocked)
        else
          match srs_Put (published_record (is_Slug args) (si_Version res) objectPath now1 now2) (kw_store w) with
          | (s, Some e) => (with_store s w, Err (RegistrySaveFailed e))
          | (s, None) =>
              (install_for_tenant has_loader (tc_tenant ctx) (is_Slug args) version now3 (with_store s w),
               Ok (si_Version res, if si_IsSuspicious res then Some (si_Summary res) else None))
          end
    end.

Record createSkillArgs := { ck_Name : string; ck_Description : string; ck_Content : string }.

Definition create_skill (configured : bool) (ctx : tool_ctx) (nanos : Z) (now : time) (args : createSkillArgs)
    (w : skill_world S O) : skill_world S O * result skill_error unit :=
  if str_empty (ck_Name args) || str_empty (ck_Content args) then (w, Err NameMissing)
  else if negb configured then (w, Err NotConfigured)
  else
    let objectPath := "proposals/" +:+ ck_Name args +:+ "/" +:+ pretty nanos +:+ "/SKILL.md" in
    match obj_Put objectPath (ck_Content args) (kw_objects w) with
    | (o, Some e) => (with_objects o w, Err (UploadFailed e))
    | (o, None) =>
        let w := with_objects o w in
        match sps_Create {| sp_ID := 0; sp_SkillName := ck_Name args; sp_ProposedBy := tc_tenant ctx; sp_ObjectPath := objectPath;
                            sp_Status := "pending"; sp_ReviewedBy := ""; sp_CreatedAt := now |} (kw_store w) with
        | (s, Some e) => (with_store s w, Err (ProposalFailed e))
        | (s, None) => (with_store s w, Ok ())
        end
    end.

(** The name of the promoted skill. *)
Definition promote_skill (configured : bool) (ctx : tool_ctx) (id : Z) (now1 now2 : time) (w : skill_world S O)
    : skill_world S O * result skill_error string :=
  if negb configured then (w, Err NotConfigured)
  else
    match sps_Get id (kw_store w) with
    | Err e => (w, Err (ProposalNotFound e))
    | Ok p =>
        if negb (bool_decide (sp_Status p = "pending"%string)) then (w, Err (ProposalNotPending (sp_Status p)))
        else if negb (bool_decide (sp_ProposedBy p = tc_tenant ctx)) then (w, Err ForeignProposal)
        else
          match srs_Put (published_record (sp_SkillName p) "1.0.0" (sp_ObjectPath p) now1 now2) (kw_store w) with
          | (s, Some e) => (with_store s w, Err (RegistrySaveFailed e))
          | (s, None) => (with_store (sps_UpdateStatus id "approved" (tc_user ctx) s).1 w, Ok (sp_SkillName p))
          end
    end.
End tools.

(** ** On the database *)

Section properties.
Context `{Scan} `{SliceSort}.
Context (fault : operation → skill_table → skill_key → skill_db → option goerror).

#[local] Instance db_skills : SkillRegistryStore skill_db := mysql_skills fault.
#[local] Instance db_installed : TenantSkillStore skill_db := mysql_installed fault.
#[local] Instance db_proposals : SkillProposalStore skill_db := mysql_proposals fault.

Lemma sk_exec_inv op tb key f s s' e :
  sk_exec fault op tb key f s = (s', e) → s' = s ∨ f s = Some s'.
Proof. intros [[-> _]|[Hf _]]%sk_exec_cases; [by left|by right]. Qed.

(** A review of a proposal by an administrator. *)
Definition reviewed_by_admin (claims : option Claims) (p p' : SkillProposal) : Prop :=
  ∃ c status, claims = Some c ∧ cl_Role c = "admin"%string ∧ (status = "approved" ∨ status = "rejected")%string
              ∧ p' = reviewed status (cl_AccountID c) p.

(** What a request may change. *)
Definition market_change (claims : option Claims) (s s' : skill_db) : Prop :=
  sk_records s' = sk_records s
  ∧ (∀ t i, market_access claims t = false → sk_installed s' !! (t, i) = sk_installed s !! (t, i))
  ∧ ∀ i, match sk_proposals s !! i, sk_proposals s' !! i with
         | Some p, Some p' => p' = p ∨ reviewed_by_admin claims p p'
         | None, Some p' => sp_Status p' = "pending"%string ∧ ∀ c, claims = Some c → sp_ProposedBy p' = cl_AccountID c
         | None, None => True
         | Some _, None => False
         end.

(** What holds of the outcome of a request. *)
Definition market_ok (claims : option Claims) (s : skill_db) (x : skill_db * Response market_data) : Prop :=
  market_change claims s x.1
  ∧ ∀ l, rs_Body x.2 = Data (InstalledData l) → Forall (λ ts, market_access claims (ts_TenantID ts) = true) l.

Lemma market_change_refl claims s : market_change claims s s.
Proof. split_and!; try done. intros i. destruct (sk_proposals s !! i); [by left|done]. Qed.

Lemma market_same claims s resp : (∀ l, rs_Body resp ≠ Data (InstalledData l)) → market_ok claims s (s, resp).
Proof. intros Hr. split; [apply market_change_refl|]. intros l Hl. by destruct (Hr l). Qed.

Lemma with_skill_ok claims name tenant s k :
  (∀ t id, market_access claims t = true → market_ok claims s (k t id s)) →
  ∃ x, with_skill claims name tenant s k = Some x ∧ market_ok claims s x.
Proof.
  intros Hk. unfold with_skill.
  destruct tenant as [[|c t]|]; try (eexists; split; [done|by apply market_same]).
  destruct (market_access claims (String c t)) eqn:Ha; cbn [negb]; [|eexists; split; [done|by apply market_same]].
  destruct (srs_Get name s) as [[skill|]|e] eqn:Hg; [| |eexists; split; [done|by apply market_same]].
  - eexists. split; [done|]. by apply Hk.
  - exfalso. cbn in Hg. unfold sk_query in Hg. destruct (fault _ _ _ s); [done|].
    unfold found_ptr, found in Hg. by destruct (record_named name s).
Qed.

Lemma installed_change claims t i s s' m :
  market_access claims t = true → s' = set_installed m s → (∀ k, k ≠ (t, i) → m !! k = sk_installed s !! k) → market_change claims s s'.
Proof.
  intros Ha -> Hm. split_and!; [done| |exact (proj2 (proj2 (market_change_refl claims s)))].
  intros t' j Ha'. apply Hm. intros [= -> ->]. congruence.
Qed.

Lemma proposals_change claims s s' m next :
  s' = set_proposals m next s →
  (∀ i, match sk_proposals s !! i, m !! i with
        | Some p, Some p' => p' = p ∨ reviewed_by_admin claims p p'
        | None, Some p' => sp_Status p' = "pending"%string ∧ ∀ c, claims = Some c → sp_ProposedBy p' = cl_AccountID c
        | None, None => True
        | Some _, None => False
        end) → market_change claims s s'.
Proof. by intros ->. Qed.

(** C17: Requests to the marketplace never panic and never change the registry; they change what
    is installed for tenants of the caller only, and show it of them only; a proposal is
    pending and in the name of the caller when it is made, and afterwards only an
    administrator's review changes it, and of it only the status and the reviewer. *)
Theorem market_confined claims r s :
  ∃ s' resp, market_handle claims r s = Some (s', resp) ∧ market_change claims s s'
    ∧ ∀ l, rs_Body resp = Data (InstalledData l) → Forall (λ ts, market_access claims (ts_TenantID ts) = true) l.
Proof.
  enough (∃ x, market_handle claims r s = Some x ∧ market_ok claims s x) as ([s' resp] & Hr & Hok) by (by exists s', resp).
  destruct r as [tier status|name|name t|name t|t|p|status|id body]; cbn [market_handle].
  - eexists. split; [done|]. unfold listSkills. case_match; by apply market_same.
  - eexists. split; [done|]. unfold getSkill. case_match; by apply market_same.
  - apply with_skill_ok. intros t' id Ha. destruct (tss_Install _ s) as [s' e] eqn:Hi.
    enough (market_change claims s s') by (by destruct e; split).
    apply sk_exec_inv in Hi as [->|Hi]; [apply market_change_refl|].
    destruct (insert_new _ _ _) as [m|] eqn:Hm; [|done]. injection Hi as <-. eapply installed_change; [done..|].
    unfold insert_new in Hm. destruct (sk_installed s !! _); [done|]. injection Hm as <-. intros k Hk. by rewrite lookup_insert_ne.
  - apply with_skill_ok. intros t' id Ha. destruct (tss_Uninstall _ _ s) as [s' e] eqn:Hi.
    enough (market_change claims s s') by (by destruct e; split).
    apply sk_exec_inv in Hi as [->|Hi]; [apply market_change_refl|]. injection Hi as <-.
    eapply installed_change; [done..|]. intros k Hk. by rewrite lookup_delete_ne.
  - eexists. split; [done|]. unfold listInstalled. destruct (str_empty t); [by apply market_same|].
    destruct (market_access claims t) eqn:Ha; cbn [negb]; [|by apply market_same].
    destruct (tss_ListInstalled t s) as [l|e] eqn:Hl; [|by apply market_same].
    split; [apply market_change_refl|]. intros l' [= <-]. cbn in Hl. unfold sk_query in Hl. destruct (fault _ _ _ s); [done|].
    injection Hl as <-. rewrite sort_slice_perm, scan_perm. apply Forall_forall. intros ts [Hts _]%elem_of_rows.
    apply bool_decide_eq_true in Hts. by subst t.
  - eexists. split; [done|]. unfold createProposal. destruct p as [p|]; [|by apply market_same].
    destruct (str_empty _); [by apply market_same|]. destruct (sps_Create _ s) as [s' e] eqn:Hc.
    enough (market_change claims s s') by (by destruct e; split).
    apply sk_exec_inv in Hc as [->|Hc]; [apply market_change_refl|]. cbv zeta in Hc.
    destruct (insert_new _ _ _) as [m|] eqn:Hm; [|done]. injection Hc as <-. eapply proposals_change; [done|].
    unfold insert_new in Hm. destruct (sk_proposals s !! _) eqn:Hn; [done|]. injection Hm as <-. intros i.
    destruct (decide (i = if sp_ID p =? 0 then sk_next_proposal s else sp_ID p)) as [->|Hne].
    + cbn [submitted sp_ID] in Hn |- *. rewrite Hn, lookup_insert_eq. split; [done|]. by intros c ->.
    + rewrite lookup_insert_ne by done. destruct (sk_proposals s !! i); [by left|done].
  - eexists. split; [done|]. unfold listProposals. case_match; by apply market_same.
  - eexists. split; [done|]. unfold reviewProposal. destruct claims as [c|]; [|by apply market_same].
    case_bool_decide as Hadm; cbn [negb]; [|by apply market_same]. destruct (atoi id) as [n|]; [|by apply market_same].
    destruct body as [status|]; [|by apply market_same]. case_bool_decide as Hst; [|by apply market_same].
    destruct (sps_UpdateStatus _ _ _ s) as [s' e] eqn:Hu. enough (market_change (Some c) s s') by (by destruct e; split).
    apply sk_exec_inv in Hu as [->|Hu]; [apply market_change_refl|]. injection Hu as <-. eapply proposals_change; [done|].
    intros i. destruct (decide (i = n)) as [->|Hne].
    + rewrite lookup_alter_eq. destruct (sk_proposals s !! n) as [p|]; [|done]. right. by exists c, status.
    + rewrite lookup_alter_ne by done. destruct (sk_proposals s !! i); [by left|done].
Qed.
(** *** Publishing *)

(** The registry after a record was published: the skill of that name has the new version,
    which is public, and every skill of another name is as it was. *)
Definition published (r : SkillRecord) (s s' : skill_db) : Prop :=
  (∃ rec, record_named (sr_Name r) s' = Some rec ∧ sr_Status rec = StatusPublished ∧ sr_Tier rec = SkillTierGlobal
          ∧ sr_Version rec = sr_Version r ∧ sr_ObjectPath rec = sr_ObjectPath r)
  ∧ (∀ i old, sr_Name old ≠ sr_Name r → sk_records s !! i = Some old ↔ sk_records s' !! i = Some old)
  ∧ sk_installed s' = sk_installed s ∧ sk_proposals s' = sk_proposals s.

Lemma record_named_is s i rec : skills_ok s → sk_records s !! i = Some rec → record_named (sr_Name rec) s = Some rec.
Proof.
  intros (Hrec & _) Hi. destruct (record_named (sr_Name rec) s) as [r'|] eqn:Hn.
  - apply record_named_Some in Hn as [Hn [j Hj]]. destruct (Hrec i rec Hi) as (_ & _ & Hu). rewrite (Hu j r' Hj Hn) in Hj. congruence.
  - by destruct (record_named_None _ _ Hn i rec Hi).
Qed.

Lemma put_published name version path now1 now2 s s' :
  skills_ok s → srs_Put (published_record name version path now1 now2) s = (s', None) →
  published (published_record name version path now1 now2) s s' ∧ skills_ok s'.
Proof.
  intros Hok Hp. set (r := published_record _ _ _ _ _) in *.
  assert (s' = put_record r s) as ->.
  { apply sk_exec_cases in Hp as [[_ ?]|[Hp _]]; [done|]. by injection Hp. }
  assert (skills_ok (put_record r s)) as Hok' by (by apply put_record_ok). split; [|done].
  revert Hok'. unfold put_record. cbn [r published_record sr_ID Z.eqb]. fold r.
  destruct (conflict r s) as [old|] eqn:Hc; intros Hok'.
  - assert (∃ i, sk_records s !! i = Some old ∧ sr_ID old = i ∧ sr_Name old = name) as (i & Hi & Hid & Hname).
    { unfold conflict in Hc. cbn in Hc. apply record_named_Some in Hc as [Hn [i Hi]]. exists i.
      destruct (proj1 Hok i old Hi) as [? _]. done. }
    rewrite Hid in *. split_and!; [|..|done|done].
    + exists (assigned (sk_now s) old r). split_and!; try done.
      rewrite <- (record_named_is _ i _ Hok' (lookup_insert_eq _ _ _)). cbn. by rewrite Hname.
    + intros j o Ho. cbn [set_records sk_records]. destruct (decide (j = i)) as [->|Hne].
      * rewrite Hi, lookup_insert_eq. cbn in Ho. split; intros [= <-]; [done|]. cbn in Ho. done.
      * by rewrite lookup_insert_ne.
  - apply conflict_None in Hc as [_ Hnames]. split_and!; [|..|done|done].
    + exists (created_record (sk_now s) (sk_next s) r). split_and!; try done.
      by rewrite <- (record_named_is _ (sk_next s) _ Hok' (lookup_insert_eq _ _ _)).
    + intros j o Ho. cbn [set_records sk_records]. destruct (decide (j = sk_next s)) as [->|Hne].
      * rewrite lookup_insert_eq. split; [intros Hj|intros [= <-]; done]. destruct (proj1 Hok _ o Hj) as (_ & Hlt & _). lia.
      * by rewrite lookup_insert_ne.
Qed.

Lemma put_fails r s s' e : srs_Put r s = (s', Some e) → s' = s.
Proof. by intros [[-> _]|[_ ?]]%sk_exec_cases. Qed.

Context {O : Type} `{ObjectStore O}.

(** Promoting publishes exactly pending proposals of the caller's tenant: the registry gets
    the proposed object under the proposed name; no installation and no other proposal
    changes, and otherwise nothing happens. *)
Theorem promote_skill_spec configured ctx id now1 now2 (w w' : skill_world skill_db O) r :
  skills_ok (kw_store w) → promote_skill configured ctx id now1 now2 w = (w', r) →
  (is_ok r = false → w' = w)
  ∧ ∀ name, r = Ok name → ∃ p s1,
      sk_proposals (kw_store w) !! id = Some p ∧ sp_Status p = "pending"%string ∧ sp_ProposedBy p = tc_tenant ctx ∧ sp_SkillName p = name
      ∧ published (published_record name "1.0.0" (sp_ObjectPath p) now1 now2) (kw_store w) s1
      ∧ (kw_store w' = s1 ∨ kw_store w' = set_proposals (<[id := reviewed "approved" (tc_user ctx) p]> (sk_proposals s1)) (sk_next_proposal s1) s1)
      ∧ kw_objects w' = kw_objects w ∧ kw_invalidated w' = kw_invalidated w.
Proof.
  intros Hok. unfold promote_skill. destruct configured; cbn [negb]; [|by intros [= <- <-]].
  destruct (sps_Get id (kw_store w)) as [p|e] eqn:Hg; [|by intros [= <- <-]].
  assert (sk_proposals (kw_store w) !! id = Some p) as Hp.
  { cbn in Hg. unfold sk_query, found in Hg. destruct (fault _ _ _ _); [done|]. by destruct (sk_proposals _ !! id); simplify_eq. }
  case_bool_decide as Hst; cbn [negb]; [|by intros [= <- <-]]. case_bool_decide as Hby; cbn [negb]; [|by intros [= <- <-]].
  destruct (srs_Put _ (kw_store w)) as [s1 [e|]] eqn:Hput; intros [= <- <-].
  { apply put_fails in Hput as ->. split; [by destruct w|done]. }
  split; [done|]. intros name [= <-]. apply put_published in Hput as [Hpub _]; [|done].
  exists p, s1. split_and!; try done. unfold with_store. destruct (sps_UpdateStatus id "approved" (tc_user ctx) s1) as [s2 e] eqn:Hu.
  cbn in Hu |- *. rewrite Hu. cbn [fst]. apply sk_exec_inv in Hu as [->|Hu]; [by left|]. injection Hu as <-. right. f_equal.
  destruct Hpub as (_ & _ & _ & Hsame). rewrite Hsame. apply map_eq. intros j. destruct (decide (j = id)) as [->|Hne].
  - by rewrite lookup_alter_eq, lookup_insert_eq, Hp.
  - by rewrite lookup_alter_ne, lookup_insert_ne.
Qed.

(** *** Installing *)

Context (SkillInstaller_Install : string → string → string → string → O → O * result goerror SkillInstallResult).

Lemma install_for_tenant_spec has_loader tenantID slug version now (w : skill_world skill_db O) rec :
  record_named slug (kw_store w) = Some rec →
  let w' := install_for_tenant has_loader tenantID slug version now w in
  sk_records (kw_store w') = sk_records (kw_store w) ∧ sk_proposals (kw_store w') = sk_proposals (kw_store w)
  ∧ kw_objects w' = kw_objects w
  ∧ (∀ k, k ≠ (tenantID, sr_ID rec) → sk_installed (kw_store w') !! k = sk_installed (kw_store w) !! k)
  ∧ (tenantID ≠ ""%string → fault OpQuery TSkillRecords (slug, 0) (kw_store w) = None →
     fault OpInsert TTenantSkills (tenantID, sr_ID rec) (kw_store w) = None →
     is_Some (sk_installed (kw_store w') !! (tenantID, sr_ID rec))).
Proof.
  intros Hrec. unfold install_for_tenant. destruct (str_empty tenantID) eqn:Ht.
  { split_and!; try done. apply bool_decide_eq_true in Ht as ->. done. }
  destruct (srs_Get slug (kw_store w)) as [o|e] eqn:Hg; cbn in Hg; unfold sk_query in Hg.
  2:{ split_and!; try done. intros _ Hf. rewrite Hf, Hrec in Hg. done. }
  destruct (fault OpQuery _ _ _); [done|]. rewrite Hrec in Hg. injection Hg as <-.
  destruct (tss_Install _ (kw_store w)) as [s' e] eqn:Hi.
  assert (sk_records s' = sk_records (kw_store w) ∧ sk_proposals s' = sk_proposals (kw_store w)
          ∧ (∀ k, k ≠ (tenantID, sr_ID rec) → sk_installed s' !! k = sk_installed (kw_store w) !! k)
          ∧ (fault OpInsert TTenantSkills (tenantID, sr_ID rec) (kw_store w) = None → is_Some (sk_installed s' !! (tenantID, sr_ID rec)))) as (H1' & H2' & H3' & H4').
  { cbn in Hi. unfold sk_exec, insert_new in Hi. destruct (fault OpInsert _ _ _); [by injection Hi as <- _|].
    destruct (sk_installed (kw_store w) !! _) eqn:Hold; cbn in Hi; injection Hi as <- _.
    - split_and!; try done; intros _; by eexists.
    - split_and!; try done; cbn; [intros k Hk; by rewrite lookup_insert_ne|intros _; rewrite lookup_insert_eq; by eexists]. }
  destruct has_loader; cbn; split_and!; auto.
Qed.

(** A skill that is reported as installed was downloaded and is not blocked as malware; the
    registry gives it under its name to everybody, in the version that was downloaded; the
    caller's tenant has it, as long as its own statements run; no other skill, no
    installation of another skill or tenant and no proposal changes.  A failure leaves the
    database as it is. *)
Theorem install_skill_spec configured has_loader ctx now1 now2 now3 args (w w' : skill_world skill_db O) r :
  skills_ok (kw_store w) →
  install_skill SkillInstaller_Install configured has_loader ctx now1 now2 now3 args w = (w', r) →
  (is_ok r = false → kw_store w' = kw_store w)
  ∧ ∀ v warning, r = Ok (v, warning) → ∃ res version path s1 rec,
      SkillInstaller_Install (is_Slug args) version (is_Registry args) path (kw_objects w) = (kw_objects w', Ok res)
      ∧ si_IsMalwareBlocked res = false ∧ v = si_Version res
      ∧ published (published_record (is_Slug args) v path now1 now2) (kw_store w) s1
      ∧ record_named (is_Slug args) s1 = Some rec
      ∧ sk_records (kw_store w') = sk_records s1 ∧ sk_proposals (kw_store w') = sk_proposals s1
      ∧ (∀ k, k ≠ (tc_tenant ctx, sr_ID rec) → sk_installed (kw_store w') !! k = sk_installed (kw_store w) !! k)
      ∧ (tc_tenant ctx ≠ ""%string → fault OpQuery TSkillRecords (is_Slug args, 0) s1 = None →
         fault OpInsert TTenantSkills (tc_tenant ctx, sr_ID rec) s1 = None →
         is_Some (sk_installed (kw_store w') !! (tc_tenant ctx, sr_ID rec))).
Proof.
  intros Hok. unfold install_skill. destruct configured; cbn [negb]; [|by intros [= <- <-]].
  destruct (str_empty (is_Slug args)); [by intros [= <- <-]|].
  set (version := if str_empty (is_Version args) then _ else _). set (path := _ +:+ _).
  destruct (SkillInstaller_Install _ _ _ _ _) as [o [res|e]] eqn:Hinst; [|by intros [= <- <-]].
  destruct (si_IsMalwareBlocked res) eqn:Hmal; [by intros [= <- <-]|].
  change (kw_store (with_objects o w)) with (kw_store w).
  destruct (srs_Put _ (kw_store w)) as [s1 [e|]] eqn:Hput; intros [= <- <-].
  { apply put_fails in Hput as ->. by split. }
  split; [done|]. intros v warning [= <- <-]. apply put_published in Hput as [Hpub _]; [|done].
  pose proof Hpub as ((rec & Hrec & _) & _ & Hins & _).
  destruct (install_for_tenant_spec has_loader (tc_tenant ctx) (is_Slug args) version now3 (with_store s1 (with_objects o w)) rec Hrec)
    as (Hr & Hp & Ho & Hk & Hi).
  exists res, version, path, s1, rec. split_and!; try done.
  - rewrite Hinst. f_equal. symmetry. exact Ho.
  - intros k Hne. rewrite <- Hins. by apply Hk.
Qed.
End properties.

(** ** Examples *)

Definition w_caller (account role : string) : option Claims :=
  Some {| cl_AccountID := account; cl_Role := role; cl_Tenants := ["t1"%string]; cl_ExpiresAt := 0; cl_IssuedAt := 0; cl_Issuer := "" |}.

(** Objects in memory. *)
#[local] Instance mem_objects : ObjectStore (gmap string string) := {
  obj_Put p c s := (<[p := c]> s, None);
  obj_Get p s := match s !! p with Some c => Ok c | None => Err (ErrText "not found") end;
  obj_Delete p s := (delete p s, None);
}.

Section examples.
#[local] Existing Instance stable_sort.
#[local] Instance ex_skills : SkillRegistryStore skill_db := mysql_skills no_skill_fault.
#[local] Instance ex_installed : TenantSkillStore skill_db := mysql_installed no_skill_fault.
#[local] Instance ex_proposals : SkillProposalStore skill_db := mysql_proposals no_skill_fault.

Definition w_market (claims : option Claims) (r : market_request) (s : skill_db) : skill_db :=
  from_option fst s (market_handle claims r s).
Definition w_proposal : SkillProposal :=
  {| sp_ID := 0; sp_SkillName := "pdf"; sp_ProposedBy := "t1"; sp_ObjectPath := "secret/object"; sp_Status := "approved";
     sp_ReviewedBy := ""; sp_CreatedAt := 0 |}.
Definition w_proposed : skill_db := w_market (w_caller "alice" "user") (MCreateProposal (Some w_proposal)) w_skill_db.
Definition w_world (s : skill_db) : skill_world skill_db (gmap string string) :=
  {| kw_store := s; kw_objects := ∅; kw_invalidated := [] |}.
Definition w_ctx : tool_ctx := {| tc_tenant := "t1"; tc_user := "u" |}.

(** A proposal made by a request is in the name of the account, one made by the tool in that
    of the tenant, with which promoting compares: the former can not be promoted, and an
    approval by an administrator does not publish it either. *)
Lemma web_proposals_are_never_published :
  (promote_skill (H1 := ex_proposals) true w_ctx 1 0 0 (w_world w_proposed)).2 = Err ForeignProposal
  ∧ (let s := w_market (w_caller "root" "admin") (MReview "1" (Some "approved"%string)) w_proposed in
     (sp_Status <$> sk_proposals s !! 1) = Some "approved"%string ∧ sk_records s = ∅).
Proof. by vm_compute. Qed.

(** The tool's own proposal is promoted by its tenant, and then reviewed again. *)
Definition w_created : skill_world skill_db (gmap string string) :=
  (create_skill true w_ctx 7 0 {| ck_Name := "pdf"; ck_Description := ""; ck_Content := "x" |} (w_world w_skill_db)).1.
Definition w_promoted : skill_world skill_db (gmap string string) := (promote_skill true w_ctx 1 0 0 w_created).1.

Lemma own_proposal_is_promoted :
  (sr_ObjectPath <$> record_named "pdf" (kw_store w_promoted)) = Some "proposals/pdf/7/SKILL.md"%string
  ∧ sp_Status <$> sk_proposals (w_market (w_caller "root" "admin") (MReview "1" (Some "rejected"%string)) (kw_store w_promoted)) !! 1
    = Some "rejected"%string.
Proof. by vm_compute. Qed.

Lemma promote_skill_spec_witness : ∃ p,
  sk_proposals (kw_store w_created) !! 1 = Some p ∧ sp_Status p = "pending"%string ∧ sp_ProposedBy p = "t1"%string.
Proof.
  assert (skills_ok (kw_store w_created)) as Hok.
  { exact (skill_step_ok no_skill_fault w_skill_db (OpPropose {| sp_ID := 0; sp_SkillName := "pdf"; sp_ProposedBy := "t1";
      sp_ObjectPath := "proposals/pdf/7/SKILL.md"; sp_Status := "pending"; sp_ReviewedBy := ""; sp_CreatedAt := 0 |})
      ltac:(cbn; lia) skills_ok_empty). }
  destruct (proj2 (promote_skill_spec no_skill_fault true w_ctx 1 0 0 w_created w_promoted (Ok "pdf"%string) Hok
    (surjective_pairing _)) _ eq_refl) as (p & s1 & Hp & Hst & Hby & _).
  exists p. split; [exact Hp|]. by split.
Defined.

Definition w_download (slug version registry path : string) (o : gmap string string) : gmap string string * result goerror SkillInstallResult :=
  (<[path := slug]> o, Ok {| si_Version := "2.0.0"; si_IsMalwareBlocked := false; si_IsSuspicious := false; si_Summary := "" |}).
Definition w_args : installSkillArgs := {| is_Slug := "pdf"; is_Version := ""; is_Registry := "" |}.
Definition w_install (s : skill_db) : skill_world skill_db (gmap string string) * result skill_error (string * option string) :=
  install_skill w_download true true w_ctx 0 0 0 w_args (w_world s).

(** The cache is told the version that was asked for, not the one that was downloaded. *)
Lemma stale_version_invalidated :
  (w_install w_skill_db).2 = Ok ("2.0.0"%string, None)
  ∧ kw_invalidated (w_install w_skill_db).1 = [("pdf", "latest")]%string.
Proof. by vm_compute. Qed.

(** A builtin skill is replaced for everybody by installing one of its name. *)
Definition w_builtin : skill_db :=
  put_record {| sr_ID := 0; sr_Name := "pdf"; sr_Description := "builtin"; sr_Version := "1"; sr_ObjectPath := "builtin/pdf";
     sr_Tier := SkillTierBuiltin; sr_AlwaysLoad := true; sr_Status := StatusPublished; sr_Metadata := []; sr_CreatedAt := 0; sr_UpdatedAt := 0 |} w_skill_db.
Lemma builtin_is_replaced :
  (λ r, (sr_Tier r, sr_ObjectPath r)) <$> record_named "pdf" (kw_store (w_install w_builtin).1)
  = Some (SkillTierGlobal, "skills/pdf/latest.tar.gz"%string).
Proof. by vm_compute. Qed.

Lemma install_skill_spec_witness : ∃ rec,
  is_Some (sk_installed (kw_store (w_install w_skill_db).1) !! ("t1"%string, sr_ID rec)) ∧ sr_Name rec = "pdf"%string.
Proof.
  destruct (proj2 (install_skill_spec no_skill_fault w_download true true w_ctx 0 0 0 w_args (w_world w_skill_db) _ (Ok ("2.0.0"%string, None))
    skills_ok_empty (surjective_pairing (w_install w_skill_db))) _ _ eq_refl) as (res & version & path & s1 & rec & _ & _ & _ & _ & Hrec & _ & _ & _ & Hi).
  exists rec. split; [exact (Hi ltac:(discriminate) eq_refl eq_refl)|]. by apply record_named_Some in Hrec as [? _].
Defined.
End examples.
