(* ===== verification/Wecom.v ===== *)
(** [pkg/channels/wecom]: the transport for WeCom bots, which is called by a webhook with
    signed and encrypted messages ([wecom.go], [crypto.go], [types.go]).

    SHA-1, AES in CBC mode and the JSON and XML decoders are parameters, base64 is the one of
    [Encryption].  A panic is [None]; the HTTP server recovers from it.  Starting and
    stopping is in [Lifecycle]; log lines are left out. *)
From S2P Require Import Prelude GoStrings Values Types Channels Encryption.

Definition wecom_name : string := "wecom".

(** ** crypto.go *)

(** [aes.NewCipher] and [NewCBCDecrypter]: deciphering whole blocks under a key of 16, 24 or
    32 bytes. *)
Class Cbc := { cbc_decrypt : bytes → bytes → bytes → bytes }.
Class CbcLaws `{Cbc} := {
  cbc_encrypt : bytes → bytes → bytes → bytes;
  cbc_length key iv l : length (cbc_encrypt key iv l) = length l;
  cbc_inverse key iv l : (length l `mod` 16 = 0)%nat → cbc_decrypt key iv (cbc_encrypt key iv l) = l;
}.

Definition str_less (s t : string) : bool := match String.compare s t with Lt => true | _ => false end.

(** [binary.BigEndian.Uint32]. *)
Definition be_uint32 (l : bytes) : Z := foldl (λ n c, n * 256 + byte_val c) 0 l.

Definition ErrInvalidPadding : goerror := ErrText "decryption failed".

Definition Pkcs7Unpad (data : bytes) (blockSize : Z) : result goerror bytes :=
  match last data with
  | None => Ok data
  | Some c =>
      let padding := byte_val c in
      if (padding =? 0) || (blockSize <? padding) || (Z.of_nat (length data) <? padding) then Err ErrInvalidPadding
      else
        let n := (length data - Z.to_nat padding)%nat in
        if forallb (λ b, byte_val b =? padding) (drop n data) then Ok (take n data) else Err ErrInvalidPadding
  end.

Definition unseal (plain : bytes) (receiveid : string) : result goerror string :=
  if (length plain <? 20)%nat then Err (ErrText "decrypted payload too short")
  else
    let msgLen := be_uint32 (take 4 (drop 16 plain)) in
    if Z.of_nat (length plain) - 20 <? msgLen then Err (ErrText "invalid message length")
    else
      let n := Z.to_nat msgLen in
      if negb (str_empty receiveid) && (20 + n <? length plain)%nat && negb (bool_decide (l2s (drop (20 + n) plain) = receiveid))
      then Err (ErrText "receiveid mismatch")
      else Ok (l2s (take n (drop 20 plain))).

Definition key_length (n : nat) : bool := (n =? 16)%nat || (n =? 24)%nat || (n =? 32)%nat.

Definition DecryptMessage `{Cbc} (encryptedMsg encodingAESKey receiveid : string) : option (result goerror string) :=
  if str_empty encodingAESKey then
    Some (match DecodeString encryptedMsg with Some d => Ok d | None => Err (ErrText "illegal base64 data") end)
  else
    match DecodeString (encodingAESKey +:+ "="), DecodeString encryptedMsg with
    | None, _ => Some (Err (ErrText "decode AES key"))
    | _, None => Some (Err (ErrText "decode ciphertext"))
    | Some aesKey, Some cipherText =>
        let aesKey := s2l aesKey in let cipherText := s2l cipherText in
        if negb (key_length (length aesKey)) then Some (Err (ErrText "create cipher"))
        else if (length cipherText <? 16)%nat then Some (Err (ErrText "ciphertext too short"))
        (* CryptBlocks: input not full blocks *)
        else if negb (length cipherText `mod` 16 =? 0)%nat then None
        else
          Some (match Pkcs7Unpad (cbc_decrypt aesKey (take 16 aesKey) cipherText) 32 with
                | Err e => Err e
                | Ok plain => unseal plain receiveid
                end)
    end.

(** ** The messages *)

Record MixedItem := { mi_MsgType : string; mi_Content : string; mi_ImageURL : string }.

Record BotMessage := {
  bm_WebhookURL : string; bm_MsgID : string; bm_ChatID : string; bm_PostID : string; bm_ChatType : string;
  bm_FromUserID : string; bm_FromName : string; bm_FromAlias : string; bm_GetChatInfoURL : string; bm_MsgType : string;
  bm_TextContent : string; bm_ImageURL : string; bm_MixedItems : list MixedItem; bm_EventType : string; bm_CallbackID : string;
}.

(** [JSONBotMessage] and [XMLBotMessage], which differ in the names of their fields. *)
Record wire_item := { wi_MsgType : string; wi_Text : string; wi_Image : string }.
Record wire_message := {
  wr_WebhookURL : string; wr_MsgID : string; wr_ChatID : string; wr_PostID : string; wr_ChatType : string;
  wr_From : string * string * string; wr_GetChatInfoURL : string; wr_MsgType : string; wr_Text : string; wr_Image : string;
  wr_MsgItem : list wire_item; wr_EventType : string; wr_CallbackID : string;
}.

Definition of_wire (m : wire_message) : BotMessage :=
  let '(userID, name, alias) := wr_From m in
  {| bm_WebhookURL := wr_WebhookURL m; bm_MsgID := wr_MsgID m; bm_ChatID := wr_ChatID m; bm_PostID := wr_PostID m;
     bm_ChatType := wr_ChatType m; bm_FromUserID := userID; bm_FromName := name; bm_FromAlias := alias;
     bm_GetChatInfoURL := wr_GetChatInfoURL m; bm_MsgType := wr_MsgType m; bm_TextContent := wr_Text m;
     bm_ImageURL := wr_Image m;
     bm_MixedItems := (λ i, {| mi_MsgType := wi_MsgType i; mi_Content := wi_Text i; mi_ImageURL := wi_Image i |}) <$> wr_MsgItem m;
     bm_EventType := wr_EventType m; bm_CallbackID := wr_CallbackID m |}.

Record WeComConfig := {
  wc_Token : string; wc_EncodingAESKey : string; wc_WebhookURL : string; wc_ReplyTimeout : Z; wc_AllowFrom : list string;
  wc_TenantID : string; wc_UserID : string;
}.

(** A request: its method, the parameters of the query and the body, if it could be read. *)
Inductive wc_method := MethodGet | MethodPost | MethodOther.
Record wc_request := {
  rq_method : wc_method; rq_signature : string; rq_timestamp : string; rq_nonce : string; rq_echostr : string;
  rq_body : option string;
}.
Record wc_response := { wp_Status : Z; wp_Body : string }.

Section wecom.
Context `{UnicodeFold} `{Cbc} {B : Type} `{InboundBus B}.
(** The hexadecimal digest of [sha1.Sum]; the decoder of the envelope, which gives the field
    [Encrypt]; those of the messages. *)
Context (sha1_hex : string → string) (parse_envelope : string → option string).
Context (json_Unmarshal xml_Unmarshal : string → result goerror wire_message).
Context (cfg : WeComConfig).

Definition VerifySignature (token msgSignature timestamp nonce msgEncrypt : string) : bool :=
  if str_empty token then true
  else
    let params := insertion_sort str_less [token; timestamp; nonce; msgEncrypt] in
    bool_decide (sha1_hex (join params "") = msgSignature).

Definition parseJSONMessage (data : string) : result goerror BotMessage := m <-? json_Unmarshal data ;; Ok (of_wire m).
Definition parseXMLMessage (data : string) : result goerror BotMessage := m <-? xml_Unmarshal data ;; Ok (of_wire m).

Definition parseDecryptedMessage (data : string) : result goerror BotMessage :=
  let trimmed := trim_space data in
  if has_prefix trimmed "{" then parseJSONMessage trimmed else parseXMLMessage trimmed.

Definition reply (status : Z) (text : string) : wc_response := {| wp_Status := status; wp_Body := text |}.

(** The byte order mark. *)
Definition bom : string := l2s ["239"; "187"; "191"]%char.

Definition HandleVerification (rq : wc_request) : option wc_response :=
  if str_empty (rq_signature rq) || str_empty (rq_timestamp rq) || str_empty (rq_nonce rq) || str_empty (rq_echostr rq)
  then Some (reply 200 "ok")
  else if negb (VerifySignature (wc_Token cfg) (rq_signature rq) (rq_timestamp rq) (rq_nonce rq) (rq_echostr rq))
  then Some (reply 403 "Invalid signature")
  else
    d ← DecryptMessage (rq_echostr rq) (wc_EncodingAESKey cfg) "";
    Some (match d with
          | Err _ => reply 500 "Decryption failed"
          | Ok decrypted => reply 200 (trim_prefix (trim_space decrypted) bom)
          end).

(** The answer and the message a goroutine is started for. *)
Definition HandleMessageCallback (rq : wc_request) : option (wc_response * option BotMessage) :=
  if str_empty (rq_signature rq) || str_empty (rq_timestamp rq) || str_empty (rq_nonce rq)
  then Some (reply 400 "Missing parameters", None)
  else
    match rq_body rq with
    | None => Some (reply 400 "Failed to read body", None)
    | Some body =>
        match parse_envelope body with
        | None => Some (reply 400 "Invalid XML", None)
        | Some encrypt =>
            if negb (VerifySignature (wc_Token cfg) (rq_signature rq) (rq_timestamp rq) (rq_nonce rq) encrypt)
            then Some (reply 403 "Invalid signature", None)
            else
              d ← DecryptMessage encrypt (wc_EncodingAESKey cfg) "";
              Some (match d with
                    | Err _ => (reply 500 "Decryption failed", None)
                    | Ok decrypted =>
                        match parseDecryptedMessage decrypted with
                        | Err _ => (reply 400 "Invalid message format", None)
                        | Ok msg => (reply 200 "", Some msg)
                        end
                    end)
        end
    end.

Definition HandleWebhook (rq : wc_request) : option (wc_response * option BotMessage) :=
  match rq_method rq with
  | MethodGet => (λ r, (r, None)) <$> HandleVerification rq
  | MethodPost => HandleMessageCallback rq
  | MethodOther => Some (reply 405 "Method not allowed", None)
  end.

(** ** processMessage *)

Definition wecom_base : BaseChannel := {| bc_name := wecom_name; bc_allowList := wc_AllowFrom cfg; bc_running := true |}.

Definition is_group (msg : BotMessage) : bool := bool_decide (bm_ChatType msg = "group"%string).
Definition chat_of (msg : BotMessage) : string := if is_group msg then bm_ChatID msg else bm_FromUserID msg.

(** The text and the media by the type of the message. *)
Definition message_content (msg : BotMessage) : string * list string :=
  if bool_decide (bm_MsgType msg = "text"%string) then (bm_TextContent msg, [])
  else if bool_decide (bm_MsgType msg = "image"%string) then ("", if str_empty (bm_ImageURL msg) then [] else [bm_ImageURL msg])
  else fold_left (λ '(content, media) item,
         (if bool_decide (mi_MsgType item = "text"%string) then content +:+ mi_Content item else content,
          if bool_decide (mi_MsgType item = "image"%string) && negb (str_empty (mi_ImageURL item)) then media ++ [mi_ImageURL item] else media))
         (bm_MixedItems msg) ("", []).

Definition message_metadata (msg : BotMessage) : gmap string string :=
  let m : gmap string string :=
    <["response_url" := if str_empty (bm_WebhookURL msg) then wc_WebhookURL cfg else bm_WebhookURL msg]>
    (<["platform" := "wecom"]> (<["msg_id" := bm_MsgID msg]> {["msg_type" := bm_MsgType msg]})) in
  let m := if is_group msg
           then <["sender_id" := bm_FromUserID msg]> (<["chat_id" := bm_ChatID msg]> (<["peer_kind" := "group"]> m))
           else <["peer_kind" := "direct"]> m in
  if str_empty (bm_FromName msg) then m else <["sender_name" := bm_FromName msg]> m.

Definition wanted (msg : BotMessage) : bool :=
  existsb (λ t, bool_decide (bm_MsgType msg = t)) ["text"; "image"; "mixed"]%string.

Definition user_of (msg : BotMessage) : string := if str_empty (wc_UserID cfg) then bm_FromUserID msg else wc_UserID cfg.

(** [now] of the duplicate filter and of the message. *)
Definition processMessage (now now2 : time) (order : list string) (msg : BotMessage) (d : DedupCache) (b : B) : DedupCache * B :=
  if negb (wanted msg) then (d, b)
  else
    match dd_Check (bm_MsgID msg) now order d with
    | (d, true) => (d, b)
    | (d, false) =>
        let '(content, media) := message_content msg in
        (d, (HandleMessage wecom_base (wc_TenantID cfg) (user_of msg) (bm_FromUserID msg) (chat_of msg) content media
               (message_metadata msg) now2 b).1)
    end.

(** ** Sending *)

(** [sendReply] posts a JSON text with a time limit; the answer is decoded to a code and a
    text. *)
Context {W : Type} (post : string → string → duration → W → W * result goerror string).
Context (marshal_reply : string → string) (unmarshal_answer : string → result goerror (Z * string)).

Definition reply_timeout : duration := (if wc_ReplyTimeout cfg <=? 0 then 5 else wc_ReplyTimeout cfg) * Second.

Definition sendReply (responseURL content : string) (w : W) : W * option goerror :=
  match post responseURL (marshal_reply content) (wrap64 reply_timeout) w with
  | (w, Err e) => (w, Some e)
  | (w, Ok body) =>
      match unmarshal_answer body with
      | Err e => (w, Some e)
      | Ok (code, msg) => (w, if code =? 0 then None else Some (ErrText msg))
      end
  end.

Definition wecom_Send (running : bool) (msg : OutboundMessage) (w : W) : W * option goerror :=
  if negb running then (w, Some (ErrText "wecom: channel not running"))
  else
    let url := match out_Metadata msg !! "response_url"%string with
               | Some u => if str_empty u then wc_WebhookURL cfg else u
               | None => wc_WebhookURL cfg
               end in
    sendReply url (out_Content msg) w.

(** ** The channel *)

(** The messages goroutines are started for, the duplicate filter and the bus. *)
Record wecom := { wm_pending : list BotMessage; wm_dedup : DedupCache; wm_bus : B }.

(** [NewWeComChannel]: messages are remembered for five minutes. *)
Definition dedupTTL : duration := 5 * Minute.
Definition NewWeComChannel (b : B) : result goerror wecom :=
  if str_empty (wc_Token cfg) || str_empty (wc_WebhookURL cfg) then Err (ErrText "wecom: token and webhook_url are required")
  else Ok {| wm_pending := []; wm_dedup := NewDedupCache dedupTTL; wm_bus := b |}.

Inductive wecom_event :=
| WRequest (rq : wc_request)
| WProcess (i : nat) (now now2 : time) (order : list string)
| WCleanup (now : time).

(** A request whose handler panics starts no goroutine. *)
Definition wecom_step (s : wecom) (e : wecom_event) : wecom :=
  match e with
  | WRequest rq =>
      match HandleWebhook rq with
      | Some (_, Some msg) => {| wm_pending := wm_pending s ++ [msg]; wm_dedup := wm_dedup s; wm_bus := wm_bus s |}
      | _ => s
      end
  | WProcess i now now2 order =>
      match wm_pending s !! i with
      | Some msg =>
          let '(d, b) := processMessage now now2 order msg (wm_dedup s) (wm_bus s) in
          {| wm_pending := delete i (wm_pending s); wm_dedup := d; wm_bus := b |}
      | None => s
      end
  | WCleanup now => {| wm_pending := wm_pending s; wm_dedup := dd_cleanup now (wm_dedup s); wm_bus := wm_bus s |}
  end.
End wecom.

(** ** Decryption *)

(** The padding that [Pkcs7Unpad] takes off. *)
Definition pad_byte (n : nat) : ascii := ascii_of_N (N.of_nat n).
Definition padded (n : nat) (l : bytes) : bytes := l ++ replicate n (pad_byte n).
Definition pkcs7 (l : bytes) : bytes := padded (32 - length l `mod` 32) l.

Lemma pad_byte_val n : (n < 256)%nat → byte_val (pad_byte n) = Z.of_nat n.
Proof. intros Hn. unfold byte_val, pad_byte. rewrite N_ascii_embedding by lia. lia. Qed.

Lemma padded_last k c n d : (1 ≤ n)%nat → k ++ [c] = padded n d → c = pad_byte n.
Proof.
  intros Hn Hd. apply (f_equal last) in Hd. rewrite last_snoc in Hd. unfold padded in Hd. destruct n as [|n]; [lia|].
  rewrite replicate_S_end, app_assoc, last_snoc in Hd. by injection Hd.
Qed.

(** What is unpadded is exactly what was padded by 1 to 32 bytes, or nothing at all. *)
Lemma Pkcs7Unpad_spec data d :
  Pkcs7Unpad data 32 = Ok d ↔ data = [] ∧ d = [] ∨ ∃ n, (1 ≤ n ≤ 32)%nat ∧ data = padded n d.
Proof.
  unfold Pkcs7Unpad. destruct (last data) as [c|] eqn:Hl.
  2:{ apply last_None in Hl as ->. split; [intros [= <-]; by left|].
      intros [[_ ->]|(n & Hn & Hd)]; [done|]. destruct d; [|done]. destruct n; [lia|done]. }
  assert (∃ k, data = k ++ [c]) as [k ->] by (by apply last_Some in Hl). rewrite length_app. cbn [length].
  assert (0 ≤ byte_val c < 256) as Hc by (by_bytes c).
  destruct ((byte_val c =? 0) || _ || _) eqn:Hbad; split.
  - done.
  - intros [[Hd _]|(n & Hn & Hd)]; [by destruct k|]. exfalso.
    pose proof (padded_last _ _ _ _ (proj1 Hn) Hd) as ->.
    apply (f_equal length) in Hd. unfold padded in Hd. rewrite !length_app, length_replicate in Hd. cbn in Hd.
    rewrite pad_byte_val, !orb_true_iff, Z.eqb_eq, !Z.ltb_lt in Hbad by lia. lia.
  - rewrite !orb_false_iff, Z.eqb_neq, !Z.ltb_ge in Hbad. set (n := Z.to_nat (byte_val c)). destruct (forallb _ _) eqn:Hall; [|done]. intros [= <-]. right. exists n. split; [lia|].
    unfold padded. rewrite <- (take_drop (length k + 1 - n) (k ++ [c])) at 1. f_equal.
    symmetry. apply replicate_as_elem_of. rewrite length_drop, length_app. cbn [length]. split; [lia|].
    intros x Hx. rewrite forallb_forall in Hall. specialize (Hall x ltac:(by apply list_elem_of_In)). apply Z.eqb_eq in Hall.
    unfold pad_byte, n. rewrite <- Hall. rewrite Z_nat_N. unfold byte_val. rewrite N2Z.id. symmetry. apply ascii_N_embedding.
  - intros [[Hd _]|(n & Hn & Hd)]; [by destruct k|].
    pose proof (padded_last _ _ _ _ (proj1 Hn) Hd) as ->.
    rewrite Hd, pad_byte_val, Nat2Z.id by lia. pose proof (f_equal length Hd) as Hlen. unfold padded in *.
    rewrite !length_app, length_replicate in Hlen. cbn in Hlen. rewrite Hlen.
    replace (length d + n - n)%nat with (length d) by lia. rewrite drop_app_length, take_app_length.
    assert (forallb (λ b, byte_val b =? Z.of_nat n) (replicate n (pad_byte n)) = true) as ->; [|done].
    apply forallb_forall. intros x Hx%list_elem_of_In%elem_of_replicate. destruct Hx as [-> _]. rewrite pad_byte_val by lia. lia.
Qed.

(** A message as the sender seals it: sixteen random bytes, the length of the text, the text
    and who it is for. *)
Definition be_bytes (n : Z) : bytes :=
  (λ k, ascii_of_N (Z.to_N (Z.shiftr n k `mod` 256))) <$> [24; 16; 8; 0].
Definition sealed `{CbcLaws} (key random : bytes) (msg receiveid : string) : string :=
  EncodeToString (l2s (cbc_encrypt key (take 16 key)
    (pkcs7 (random ++ be_bytes (Z.of_nat (str_len msg)) ++ s2l msg ++ s2l receiveid)))).

Lemma byte_of_Z_val n : 0 ≤ n < 256 → byte_val (ascii_of_N (Z.to_N n)) = n.
Proof. intros Hn. unfold byte_val. rewrite N_ascii_embedding by lia. lia. Qed.

Lemma be_bytes_back n : 0 ≤ n < 2 ^ 32 → be_uint32 (be_bytes n) = n.
Proof.
  intros Hn. unfold be_uint32, be_bytes. cbn [fmap list_fmap foldl].
  rewrite !byte_of_Z_val by (apply Z.mod_pos_bound; lia). rewrite !Z.shiftr_div_pow2 by lia.
  change (2 ^ 24) with 16777216. change (2 ^ 16) with 65536. change (2 ^ 8) with 256. change (2 ^ 0) with 1. change (2 ^ 32) with 4294967296 in Hn.
  Z.to_euclidean_division_equations. lia.
Qed.

Lemma length_pkcs7 l : (length (pkcs7 l) `mod` 16 = 0)%nat ∧ (32 ≤ length (pkcs7 l))%nat ∧ ∃ n, (1 ≤ n ≤ 32)%nat ∧ pkcs7 l = padded n l.
Proof.
  unfold pkcs7, padded. rewrite length_app, length_replicate. pose proof (Nat.mod_upper_bound (length l) 32 ltac:(lia)) as Hm.
  pose proof (Nat.div_mod (length l) 32 ltac:(lia)) as Hd. split_and!.
  - replace (length l + (32 - length l `mod` 32))%nat with ((length l / 32 * 2 + 2) * 16)%nat by lia. apply Nat.Div0.mod_mul.
  - lia.
  - exists (32 - length l `mod` 32)%nat. split; [lia|done].
Qed.

(** What was sealed under the key is read, for the receiver it was meant for or if the
    receiver is not checked; another receiver is refused. *)
Theorem DecryptMessage_reads `{CbcLaws} encodingAESKey key random msg sender receiveid :
  DecodeString (encodingAESKey +:+ "=") = Some (l2s key) → encodingAESKey ≠ "" → key_length (length key) = true →
  length random = 16%nat → Z.of_nat (str_len msg) < 2 ^ 32 →
  DecryptMessage (sealed key random msg sender) encodingAESKey receiveid
  = Some (if bool_decide (receiveid = "" ∨ sender = "" ∨ sender = receiveid) then Ok msg else Err (ErrText "receiveid mismatch")).
Proof.
  intros Hkey Hne Hlen Hrand Hmsg. unfold DecryptMessage, str_empty at 1. rewrite bool_decide_false by done. rewrite Hkey.
  unfold sealed. set (plain := _ ++ be_bytes _ ++ _). rewrite DecodeString_EncodeToString, !s2l_l2s, Hlen. cbn [negb].
  destruct (length_pkcs7 plain) as (Hmod & Hlong & n & Hn & Hpad).
  rewrite cbc_length. destruct (Nat.ltb_spec (length (pkcs7 plain)) 16); [lia|]. rewrite Hmod. cbn [Nat.eqb negb].
  rewrite cbc_inverse by done. f_equal.
  assert (Pkcs7Unpad (pkcs7 plain) 32 = Ok plain) as -> by (apply Pkcs7Unpad_spec; right; by exists n).
  unfold unseal. assert (length plain = 20 + str_len msg + str_len sender)%nat as Hpl.
  { unfold plain. rewrite !length_app, Hrand. unfold be_bytes. rewrite length_fmap. unfold str_len. cbn. lia. }
  destruct (Nat.ltb_spec (length plain) 20); [lia|].
  assert (drop 16 plain = be_bytes (Z.of_nat (str_len msg)) ++ s2l msg ++ s2l sender) as Hd16.
  { unfold plain. rewrite <- Hrand. apply drop_app_length. }
  rewrite Hd16. change (take 4 (be_bytes ?n ++ ?l)) with (be_bytes n). rewrite be_bytes_back by lia.
  destruct (Z.ltb_spec (Z.of_nat (length plain) - 20) (Z.of_nat (str_len msg))); [lia|]. rewrite Nat2Z.id.
  assert (drop 20 plain = s2l msg ++ s2l sender) as Hd20.
  { change 20%nat with (16 + 4)%nat. rewrite <- drop_drop, Hd16. reflexivity. }
  rewrite <- drop_drop, Hd20.
  assert (drop (str_len msg) (s2l msg ++ s2l sender) = s2l sender) as -> by apply drop_app_length.
  assert (take (str_len msg) (s2l msg ++ s2l sender) = s2l msg) as -> by apply take_app_length.
  rewrite !l2s_s2l.
  unfold str_empty. destruct (decide (receiveid = "")) as [->|Hr]; [by rewrite !bool_decide_true by auto|].
  rewrite (bool_decide_false (receiveid = "")) by done. cbn [negb andb].
  destruct (decide (sender = "")) as [->|Hs].
  { rewrite Hpl. change (str_len "") with 0%nat. rewrite Nat.add_0_r, Nat.ltb_irrefl. cbn [andb]. by rewrite bool_decide_true by auto. }
  assert (0 < str_len sender)%nat by (destruct sender; [done|unfold str_len, s2l; cbn; lia]).
  assert ((20 + str_len msg <? length plain)%nat = true) as -> by (apply Nat.ltb_lt; lia). cbn [andb].
  destruct (decide (sender = receiveid)) as [->|Hsr]; [by rewrite !bool_decide_true by auto|].
  rewrite !bool_decide_false by tauto. done.
Qed.

(** ** The channel *)

#[local] Existing Instance log_bus.

Section channel.
Context `{UnicodeFold} `{Cbc}.
Context (sha1_hex : string → string) (parse_envelope : string → option string).
Context (json_Unmarshal xml_Unmarshal : string → result goerror wire_message).
Context (cfg : WeComConfig).

(** The message a request carries, signed with the token and encrypted with the key. *)
Definition carries (rq : wc_request) (msg : BotMessage) : Prop :=
  ∃ body encrypt text, rq_method rq = MethodPost ∧ rq_body rq = Some body ∧ parse_envelope body = Some encrypt
    ∧ (wc_Token cfg ≠ "" → rq_signature rq = sha1_hex (join (insertion_sort str_less [wc_Token cfg; rq_timestamp rq; rq_nonce rq; encrypt]) ""))
    ∧ DecryptMessage encrypt (wc_EncodingAESKey cfg) "" = Some (Ok text)
    ∧ parseDecryptedMessage json_Unmarshal xml_Unmarshal text = Ok msg.

Lemma HandleWebhook_carries rq r msg :
  HandleWebhook sha1_hex parse_envelope json_Unmarshal xml_Unmarshal cfg rq = Some (r, Some msg) → carries rq msg.
Proof.
  unfold HandleWebhook. destruct (rq_method rq) eqn:Hm; [by destruct (HandleVerification _ _ _)|..|done].
  unfold HandleMessageCallback. destruct (_ || _ || _); [done|].
  destruct (rq_body rq) as [body|] eqn:Hb; [|done]. destruct (parse_envelope body) as [enc|] eqn:He; [|done].
  destruct (VerifySignature _ _ _ _ _ _) eqn:Hv; cbn [negb]; [|done].
  destruct (DecryptMessage _ _ _) as [[text|e]|] eqn:Hd; cbn; [|done..].
  destruct (parseDecryptedMessage _ _ text) as [m|e] eqn:Hp; [|done]. intros [= _ <-].
  exists body, enc, text. split_and!; try done. intros Ht. unfold VerifySignature, str_empty in Hv.
  rewrite bool_decide_false in Hv by done. by apply bool_decide_eq_true in Hv.
Qed.

(** What is handed to the bus for a message. *)
Definition delivered (msg : BotMessage) (m : InboundMessage) : Prop :=
  wanted msg = true ∧ bc_IsAllowed (wecom_base cfg) (bm_FromUserID msg) = true
  ∧ ∃ now, m = inbound_of (wecom_base cfg) (wc_TenantID cfg) (user_of cfg msg) (bm_FromUserID msg) (chat_of msg)
                 (message_content msg).1 (message_content msg).2 (message_metadata cfg msg) now.

Abbreviation step := (wecom_step sha1_hex parse_envelope json_Unmarshal xml_Unmarshal cfg).
Abbreviation wecom_log := (wecom (B := list InboundMessage)).

Lemma processMessage_cases now now2 order msg d (b : list InboundMessage) d' b' :
  processMessage cfg now now2 order msg d b = (d', b') →
  b' = b ∧ (d' = d ∨ d' = (dd_Check (bm_MsgID msg) now order d).1)
  ∨ dd_Check (bm_MsgID msg) now order d = (d', false) ∧ ∃ m, b' = b ++ [m] ∧ delivered msg m.
Proof.
  unfold processMessage. destruct (wanted msg) eqn:Hw; cbn [negb]; [|intros [= <- <-]; by left; split; [|left]].
  destruct (dd_Check _ _ _ _) as [d1 [|]] eqn:Hd; [intros [= <- <-]; left; split; [done|by right]|].
  destruct (message_content msg) as [content media] eqn:Hc. unfold HandleMessage.
  destruct (bc_IsAllowed _ _) eqn:Ha; cbn [negb]; intros [= <- <-]; [right|left; split; [done|by right]].
  split; [done|]. eexists. split; [reflexivity|]. split_and!; [done|done|]. exists now2. by rewrite Hc.
Qed.

(** Everything on the bus was delivered for a message that a request carried, and the
    messages in waiting were carried by requests as well. *)
Definition authentic (rqs : list wc_request) (s : wecom_log) : Prop :=
  (∀ msg, msg ∈ wm_pending s → ∃ rq, rq ∈ rqs ∧ carries rq msg)
  ∧ ∀ m, m ∈ wm_bus s → ∃ rq msg, rq ∈ rqs ∧ carries rq msg ∧ delivered msg m.

Definition requests (es : list wecom_event) : list wc_request :=
  omap (λ e, match e with WRequest rq => Some rq | _ => None end) es.

Lemma authentic_more rqs rqs' s : rqs ⊆ rqs' → authentic rqs s → authentic rqs' s.
Proof.
  intros Hsub [Hp Hb]. split.
  - intros msg Hm. destruct (Hp msg Hm) as (rq & ? & ?). exists rq. split; [by apply Hsub|done].
  - intros m Hm. destruct (Hb m Hm) as (rq & msg & ? & ? & ?). exists rq, msg. split; [by apply Hsub|done].
Qed.

Lemma step_authentic rqs s e : authentic rqs s → authentic (rqs ++ requests [e]) (step s e).
Proof.
  intros Ha. assert (authentic (rqs ++ requests [e]) s) as Hmore by (apply (authentic_more rqs); [set_solver|done]).
  destruct e as [rq|i now now2 order|now]; cbn [wecom_step].
  - destruct (HandleWebhook _ _ _ _ _ rq) as [[r [msg|]]|] eqn:Hw; try exact Hmore.
    split; [|exact (proj2 Hmore)]. cbn. intros m [Hm| ->%list_elem_of_singleton]%elem_of_app; [by apply Hmore|].
    exists rq. split; [set_solver|]. by apply HandleWebhook_carries in Hw.
  - destruct (wm_pending s !! i) as [msg|] eqn:Hi; [|exact Hmore].
    destruct (processMessage _ _ _ _ _ _ _) as [d b] eqn:Hp. destruct Hmore as [Hpend Hbus]. split; cbn.
    + intros m Hm. apply Hpend. rewrite list_elem_of_lookup in Hm. destruct Hm as [j Hj].
      apply list_elem_of_lookup. destruct (decide (j < i)%nat).
      * exists j. by rewrite list_lookup_delete_lt in Hj.
      * exists (S j). rewrite list_lookup_delete_ge in Hj by lia. done.
    + apply processMessage_cases in Hp as [[-> _]|(_ & m & -> & Hdel)]; [exact Hbus|].
      intros m' [Hm| ->%list_elem_of_singleton]%elem_of_app; [by apply Hbus|].
      destruct (Hpend msg) as (rq & Hrq & Hcar); [by eapply list_elem_of_lookup_2|]. by exists rq, msg.
  - exact Hmore.
Qed.

(** *** Once *)

Definition msg_id (m : InboundMessage) : option string := in_Metadata m !! "msg_id"%string.

Lemma delivered_msg_id msg m : delivered msg m → msg_id m = Some (bm_MsgID msg).
Proof.
  intros (_ & _ & now & ->). unfold msg_id. cbn. unfold message_metadata.
  destruct (str_empty _), (is_group msg); by simplify_map_eq.
Qed.

(** What an event does to the duplicate filter. *)
Definition filter_op (s : wecom_log) (e : wecom_event) : list dedup_op :=
  match e with
  | WRequest _ => []
  | WProcess i now _ order =>
      match wm_pending s !! i with Some msg => if wanted msg then [DCheck (bm_MsgID msg) now order] else [] | None => [] end
  | WCleanup now => [DCleanup now]
  end.

Fixpoint filter_ops (s : wecom_log) (es : list wecom_event) : list dedup_op :=
  match es with [] => [] | e :: es => filter_op s e ++ filter_ops (step s e) es end.

Lemma step_filter s e : wm_dedup (step s e) = dedup_run (wm_dedup s) (filter_op s e).
Proof.
  destruct e as [rq|i now now2 order|now]; cbn [wecom_step filter_op].
  - by destruct (HandleWebhook _ _ _ _ _ rq) as [[r [msg|]]|].
  - destruct (wm_pending s !! i) as [msg|]; [|done]. unfold processMessage. destruct (wanted msg); [|done]. cbn.
    destruct (dd_Check _ _ _ _) as [d [|]]; [done|]. by destruct (message_content msg).
  - done.
Qed.

(** A message is handed over only when the filter did not know its identifier. *)
Lemma step_bus s e :
  wm_bus (step s e) = wm_bus s
  ∨ ∃ i now now2 order id m, e = WProcess i now now2 order ∧ filter_op s e = [DCheck id now order]
      ∧ (dd_Check id now order (wm_dedup s)).2 = false ∧ wm_bus (step s e) = wm_bus s ++ [m] ∧ msg_id m = Some id.
Proof.
  destruct e as [rq|i now now2 order|now]; cbn [wecom_step filter_op]; [|destruct (wm_pending s !! i) as [msg|]; [|by left]|by left].
  - left. by destruct (HandleWebhook _ _ _ _ _ rq) as [[r [msg|]]|].
  - destruct (processMessage _ _ _ _ _ _ _) as [d b] eqn:Hp. cbn [wm_bus].
    apply processMessage_cases in Hp as [[-> _]|(Hd & m & -> & Hdel)]; [by left|right].
    exists i, now, now2, order, (bm_MsgID msg), m. rewrite Hd. pose proof Hdel as [-> _]. split_and!; try done. by apply delivered_msg_id.
Qed.

Lemma filter_ops_app s es es' : filter_ops s (es ++ es') = filter_ops s es ++ filter_ops (fold_left step es s) es'.
Proof. revert s. induction es as [|e es IH]; intros s; cbn; [done|]. by rewrite IH, app_assoc. Qed.

Lemma dedup_valid_app d ops ops' : dedup_valid d (ops ++ ops') ↔ dedup_valid d ops ∧ dedup_valid (dedup_run d ops) ops'.
Proof. revert d. induction ops as [|o ops IH]; intros d; cbn; [tauto|]. rewrite IH. unfold dedup_run. cbn. tauto. Qed.

Lemma recorded_app d ops ops' : recorded d (ops ++ ops') = (recorded d ops + recorded (dedup_run d ops) ops')%nat.
Proof. revert d. induction ops as [|o ops IH]; intros d; cbn; [done|]. rewrite IH. unfold dedup_run. cbn. lia. Qed.

(** The filter after a history of events. *)
Lemma filter_run s es : wm_dedup (fold_left step es s) = dedup_run (wm_dedup s) (filter_ops s es).
Proof.
  revert s. induction es as [|e es IH]; intros s; cbn [fold_left filter_ops]; [done|].
  rewrite IH, step_filter. unfold dedup_run. by rewrite fold_left_app.
Qed.

(** An identifier the filter knows is not handed over while it is kept. *)
Lemma known_not_handed id t0 es s k :
  kept_inv id t0 k (wm_dedup s) → dedup_valid (wm_dedup s) (filter_ops s es) →
  Forall (in_window t0 (dd_ttl (wm_dedup s))) (filter_ops s es) →
  Z.of_nat (k + recorded (wm_dedup s) (filter_ops s es)) < dd_maxSize (wm_dedup s) →
  ∃ l, wm_bus (fold_left step es s) = wm_bus s ++ l ∧ Some id ∉ msg_id <$> l.
Proof.
  revert s k. induction es as [|e es IH]; intros s k Hk Hv Hw Hroom.
  { exists []. split; [by rewrite app_nil_r|by intros ?%not_elem_of_nil]. }
  cbn [fold_left filter_ops] in *. apply dedup_valid_app in Hv as [Hv1 Hv2]. apply Forall_app in Hw as [Hw1 Hw2].
  rewrite recorded_app in Hroom. rewrite <- step_filter in Hv2, Hroom.
  assert (dd_ttl (wm_dedup (step s e)) = dd_ttl (wm_dedup s) ∧ dd_maxSize (wm_dedup (step s e)) = dd_maxSize (wm_dedup s)
          ∧ kept_inv id t0 (k + recorded (wm_dedup s) (filter_op s e)) (wm_dedup (step s e))) as (Httl & Hmax & Hk').
  { rewrite step_filter. assert (filter_op s e = [] ∨ ∃ o, filter_op s e = [o]) as [->|[o Ho]].
    { destruct e; cbn; repeat case_match; eauto. }
    { cbn. by rewrite Nat.add_0_r. }
    rewrite Ho in *. cbn in Hv1, Hw1, Hroom |- *. apply Forall_cons in Hw1 as [Hw1 _]. rewrite Nat.add_0_r in *.
    destruct (dedup_step_params (wm_dedup s) o) as [Ht Hm]. split_and!; [done|done|]. apply kept_step; [done|by apply Hv1|done|lia]. }
  destruct (IH (step s e) _ Hk' Hv2 ltac:(by rewrite Httl) ltac:(rewrite Hmax; lia)) as (l & Hl & Hid).
  destruct (step_bus s e) as [Hbus|(i & now & now2 & order & id2 & m & _ & _ & Hd & Hbus & Hm)]; rewrite Hl, Hbus.
  - by exists l.
  - exists (m :: l). split; [by rewrite <- app_assoc|]. rewrite fmap_cons, Hm. intros [[= <-]|?]%elem_of_cons; [|done].
    destruct Hk as (_ & He & _). unfold dd_Check in Hd. by rewrite He in Hd.
Qed.

(** C11: Whatever requests come in, and in whatever order their messages are processed, the bus
    is handed messages only that came in a signed request, could be decrypted and are from a
    sender who is allowed; they are in the name of the configured tenant.  And none twice:
    after a message was handed over at the time [now], none with its identifier is, in
    whatever follows, as long as no clean-up runs more than five minutes after [now] and
    fewer than 100000 other identifiers were recorded at [now] or later, on clocks that do
    not go back behind [now]; for messages whose identifiers are not empty. *)
Theorem wecom_delivers es s0 (s := fold_left step es s0) :
  NewWeComChannel cfg [] = Ok s0 →
  (∀ m, m ∈ wm_bus s → in_Channel m = wecom_name ∧ in_TenantID m = wc_TenantID cfg ∧ bc_IsAllowed (wecom_base cfg) (in_SenderID m) = true
     ∧ ∃ rq msg, WRequest rq ∈ es ∧ carries rq msg ∧ delivered msg m)
  ∧ (dedup_valid (wm_dedup s0) (filter_ops s0 es) → ∀ es1 i now now2 order es2 m id,
      es = es1 ++ WProcess i now now2 order :: es2 →
      let s1 := fold_left step es1 s0 in let s2 := step s1 (WProcess i now now2 order) in
      wm_bus s2 = wm_bus s1 ++ [m] → msg_id m = Some id →
      Forall (in_window now dedupTTL) (filter_ops s2 es2) →
      Z.of_nat (size (younger id now (dd_entries (wm_dedup s2))) + recorded (wm_dedup s2) (filter_ops s2 es2)) < defaultDedupMaxSize →
      ∃ l, wm_bus s = wm_bus s2 ++ l ∧ Some id ∉ msg_id <$> l).
Proof.
  unfold NewWeComChannel. destruct (_ || _); [done|]. intros [= <-].
  set (s0 := {| wm_pending := []; wm_dedup := _; wm_bus := _ |}) in *. split.
  - assert (authentic (requests es) s) as [_ Hbus].
    { assert (authentic [] s0) as Hstart by (by split; intros ? ?%not_elem_of_nil).
      subst s. rewrite <- (app_nil_l (requests es)). revert Hstart. generalize (@nil wc_request) as rqs. generalize s0 as s'.
      induction es as [|e es IH]; intros s' rqs Hstart; [by rewrite app_nil_r|].
      change (requests (e :: es)) with (requests ([e] ++ es)). unfold requests. rewrite omap_app, app_assoc. apply IH. by apply step_authentic. }
    intros m Hm. destruct (Hbus m Hm) as (rq & msg & Hrq & Hcar & Hdel).
    pose proof Hdel as (_ & Hall & now & ->). split_and!; try done. exists rq, msg. split_and!; try done.
    apply list_elem_of_omap in Hrq as (e & He & Heq). destruct e; try done. by injection Heq as ->.
  - intros Hv es1 i now now2 order es2 m id Hes Hbus Hid Hw Hroom. set (e := WProcess i now now2 order) in *.
    set (s1 := fold_left step es1 s0) in *. set (s2 := step s1 e) in *.
    assert (fold_left step (es1 ++ [e]) s0 = s2) as Hs2 by (by rewrite fold_left_app).
    assert (s = fold_left step es2 s2) as -> by (subst s es s2 s1; by rewrite fold_left_app).
    rewrite Hes in Hv. change (e :: es2) with ([e] ++ es2) in Hv. rewrite app_assoc, filter_ops_app, Hs2 in Hv.
    apply dedup_valid_app in Hv as [Hv1 Hv2]. rewrite <- filter_run, Hs2 in Hv2.
    assert (dedup_inv (wm_dedup s0)) as Hinv0 by (split_and!; [done|by vm_compute|by vm_compute]).
    pose proof (dedup_run_inv _ _ Hinv0 Hv1) as Hinv. rewrite <- filter_run, Hs2 in Hinv.
    assert (dd_ttl (wm_dedup s2) = dedupTTL ∧ dd_maxSize (wm_dedup s2) = defaultDedupMaxSize) as [Httl Hmax].
    { rewrite <- Hs2, filter_run. apply dedup_run_params. }
    apply (known_not_handed id now es2 s2 (size (younger id now (dd_entries (wm_dedup s2))))); [|done|by rewrite Httl|by rewrite Hmax].
    split; [done|]. split; [|done].
    destruct (step_bus s1 e) as [Hsame|(i' & now' & n2 & order' & id' & m' & [= <- <- <- <-] & Hop & Hd & Hbus' & Hm')].
    { exfalso. fold s2 in Hsame. rewrite Hsame in Hbus. apply (f_equal length) in Hbus. rewrite length_app in Hbus. cbn in Hbus. lia. }
    assert (m' = m) as -> by (fold s2 in Hbus'; rewrite Hbus in Hbus'; by apply app_inv_head in Hbus' as [= <-]).
    assert (id' = id) as -> by congruence. subst s2. rewrite step_filter, Hop. cbn. by apply dd_Check_stores.
Qed.
End channel.

(** ** Examples *)

(** A cipher that changes nothing. *)
Definition clear_cbc : Cbc := {| cbc_decrypt _ _ l := l |}.
Definition clear_cbc_laws : @CbcLaws clear_cbc.
Proof. refine {| cbc_encrypt _ _ l := l |}; done. Defined.

(** Under [w_aes_key] with the letter that base64 lacks at its end, 32 bytes. *)
Definition w_key : bytes := replicate 32 "000"%char.
Definition w_aes_key : string := l2s (replicate 43 "A"%char).

Lemma DecryptMessage_reads_witness :
  DecryptMessage (H := clear_cbc) (sealed (H0 := clear_cbc_laws) w_key (replicate 16 "r"%char) "hi" "corp") w_aes_key ""
  = Some (Ok "hi"%string).
Proof.
  apply (DecryptMessage_reads (H0 := clear_cbc_laws) w_aes_key w_key (replicate 16 "r"%char) "hi" "corp" "");
    [vm_compute; reflexivity|discriminate|vm_compute; reflexivity|reflexivity|reflexivity].
Defined.

(** A text that is no whole number of blocks makes the cipher panic. *)
Lemma DecryptMessage_panics : DecryptMessage (H := clear_cbc) (EncodeToString (l2s (replicate 17 "x"%char))) w_aes_key "" = None.
Proof. by vm_compute. Qed.

Section examples.
#[local] Instance same_fold : UnicodeFold := {| unicode_fold s t := bool_decide (s = t) |}.
#[local] Existing Instance clear_cbc.

Definition w_wecom : WeComConfig :=
  {| wc_Token := "tok"; wc_EncodingAESKey := ""; wc_WebhookURL := "https://reply"; wc_ReplyTimeout := 0; wc_AllowFrom := ["bob"%string];
     wc_TenantID := "t1"; wc_UserID := "" |}.
Definition w_sha1 (s : string) : string := s.
Definition w_wire (text : string) : result goerror wire_message :=
  Ok {| wr_WebhookURL := ""; wr_MsgID := "m1"; wr_ChatID := "c"; wr_PostID := ""; wr_ChatType := "single"; wr_From := ("bob", "Bob", "")%string;
        wr_GetChatInfoURL := ""; wr_MsgType := "text"; wr_Text := text; wr_Image := ""; wr_MsgItem := []; wr_EventType := "";
        wr_CallbackID := "" |}.
Definition w_request : wc_request :=
  {| rq_method := MethodPost; rq_signature := "12aGk=tok"; rq_timestamp := "1"; rq_nonce := "2"; rq_echostr := ""; rq_body := Some "aGk="%string |}.
(** The same message twice. *)
Definition w_events : list wecom_event :=
  [WRequest w_request; WRequest w_request; WProcess 1 10 10 []; WProcess 0 20 20 ["m1"%string]; WCleanup (300 * Second)].
Definition w_wecom_step := wecom_step (B := list InboundMessage) w_sha1 Some w_wire w_wire w_wecom.
Definition w_started : wecom (B := list InboundMessage) := {| wm_pending := []; wm_dedup := NewDedupCache dedupTTL; wm_bus := [] |}.
Definition w_channel : wecom (B := list InboundMessage) := fold_left w_wecom_step w_events w_started.

Lemma wecom_example : in_Content <$> wm_bus w_channel = ["hi"%string] ∧ wm_pending w_channel = [].
Proof. by vm_compute. Qed.

(** The message was handed over at 10; the copy that is processed at 20, and a clean-up
    almost five minutes later, do not bring it again. *)
Lemma wecom_delivers_witness :
  let s1 := fold_left w_wecom_step [WRequest w_request; WRequest w_request] w_started in
  let s2 := w_wecom_step s1 (WProcess 1 10 10 []) in
  wm_bus s1 = [] ∧ msg_id <$> wm_bus s2 = [Some "m1"%string] ∧ ∃ l, wm_bus w_channel = wm_bus s2 ++ l ∧ Some "m1"%string ∉ msg_id <$> l.
Proof.
  intros s1 s2. split; [by vm_compute|]. split; [by vm_compute|].
  assert (∃ m, wm_bus s2 = wm_bus s1 ++ [m] ∧ msg_id m = Some "m1"%string) as (m & Hm & Hid) by (vm_compute; eexists; split; reflexivity).
  assert (dedup_valid (wm_dedup w_started) (filter_ops w_sha1 Some w_wire w_wire w_wecom w_started w_events)) as Hv.
  { assert (filter_ops w_sha1 Some w_wire w_wire w_wecom w_started w_events
            = [DCheck "m1" 10 []; DCheck "m1" 20 ["m1"%string]; DCleanup (300 * Second)]) as -> by (by vm_compute).
    split; [|split; [|split; exact I]]; (split; [discriminate|]); vm_compute; constructor; constructor. }
  assert (filter_ops w_sha1 Some w_wire w_wire w_wecom s2 [WProcess 0 20 20 ["m1"%string]; WCleanup (300 * Second)]
          = [DCheck "m1" 20 ["m1"%string]; DCleanup (300 * Second)]) as Hops by (by vm_compute).
  pose proof (proj2 (wecom_delivers w_sha1 Some w_wire w_wire w_wecom w_events w_started eq_refl) Hv
    [WRequest w_request; WRequest w_request] 1%nat 10 10 [] [WProcess 0 20 20 ["m1"%string]; WCleanup (300 * Second)] m "m1"%string eq_refl) as Hthm.
  cbv zeta in Hthm. change (wecom_step w_sha1 Some w_wire w_wire w_wecom) with w_wecom_step in Hthm.
  fold s1 in Hthm. fold s2 in Hthm. rewrite Hops in Hthm.
  apply Hthm; [exact Hm|exact Hid|repeat constructor; discriminate|vm_compute; reflexivity].
Defined.
End examples.
