(* ===== verification/Telegram.v ===== *)
(** [pkg/channels/telegram]: the transport for Telegram bots, which polls for updates
    ([telegram.go], [types.go]).

    The HTTP clients, with the server behind them, and the JSON codecs are parameters; a
    loop runs for as many rounds as are given.  Log lines are left out. *)
From stdpp Require Import pretty.
From S2P Require Import Prelude GoStrings Quote Types Stores Channels.

(** ** Numbers in text *)

(** [strconv.FormatInt(n, 10)] and [strconv.ParseInt(s, 10, 64)]. *)
Definition FormatInt (n : Z) : string := pretty n.
Definition ParseInt (s : string) : option Z := atoi s.

Lemma digits_value_snoc l c : digits_value (l ++ [c]) = digits_value l * 10 + (byte_val c - 48).
Proof. unfold digits_value. by rewrite foldl_app. Qed.

Lemma pretty_N_char_digit n : (n < 10)%N → is_digit (pretty_N_char n) = true ∧ byte_val (pretty_N_char n) - 48 = Z.of_N n.
Proof.
  intros Hn. assert (n = 0 ∨ n = 1 ∨ n = 2 ∨ n = 3 ∨ n = 4 ∨ n = 5 ∨ n = 6 ∨ n = 7 ∨ n = 8 ∨ n = 9)%N as Hin by lia.
  by destruct_or! Hin; subst.
Qed.

Lemma pretty_N_go_digits x s :
  ∃ d, s2l (pretty_N_go x s) = d ++ s2l s ∧ forallb is_digit d = true ∧ digits_value d = Z.of_N x ∧ ((0 < x)%N → d ≠ []).
Proof.
  revert s. induction (N.lt_wf_0 x) as [x _ IH]; intros s. destruct (N.eq_0_gt_0_cases x) as [->|Hx].
  - exists []. by rewrite pretty_N_go_0.
  - rewrite pretty_N_go_step by done. destruct (IH (x `div` 10)%N (N.div_lt x 10 Hx eq_refl) (String (pretty_N_char (x `mod` 10)) s)) as (d & Hs & Hd & Hv & _).
    destruct (pretty_N_char_digit (x `mod` 10)) as [Hc Hcv]; [by apply N.mod_lt|].
    exists (d ++ [pretty_N_char (x `mod` 10)]). split_and!; [by rewrite Hs, <- app_assoc|by rewrite forallb_app, Hd; cbn; rewrite Hc| |by destruct d].
    rewrite digits_value_snoc, Hv, Hcv. pose proof (N.div_mod x 10). lia.
Qed.

Lemma pretty_N_digits x : ∃ d, s2l (pretty x) = d ∧ forallb is_digit d = true ∧ digits_value d = Z.of_N x ∧ d ≠ [].
Proof.
  unfold pretty, pretty_N. case_decide as Hx; [subst; by exists ["0"%char]|].
  destruct (pretty_N_go_digits x "") as (d & Hs & Hd & Hv & Hne). exists d. rewrite Hs, app_nil_r. split_and!; try done. apply Hne. lia.
Qed.

Lemma split_sign_digits d : d ≠ [] → forallb is_digit d = true → split_sign d = (false, d).
Proof.
  destruct d as [|c d]; [done|]. cbn. unfold is_digit. intros _ [Hc _]%andb_true_iff. bool_arith.
  destruct (Z.eqb_spec (byte_val c) 45), (Z.eqb_spec (byte_val c) 43); lia || done.
Qed.

(** A number of 64 bits is read as it was written. *)
Lemma ParseInt_FormatInt n : min_int64 ≤ n ≤ max_int64 → ParseInt (FormatInt n) = Some n.
Proof.
  intros Hn. assert (in_int64 n = true) as Hin by (unfold in_int64; bool_arith; lia).
  unfold ParseInt, FormatInt, atoi. destruct n as [|p|p]; [done|..]; unfold pretty, pretty_Z, pretty, pretty_positive.
  - destruct (pretty_N_digits (Npos p)) as (d & -> & Hd & Hv & Hne). rewrite split_sign_digits by done.
    cbv beta iota. destruct d as [|c d]; [done|]. rewrite Hd, Hv. cbn [signed Z.of_N]. by rewrite Hin.
  - rewrite s2l_app. destruct (pretty_N_digits (Npos p)) as (d & -> & Hd & Hv & Hne). change (split_sign _) with (true, d).
    cbv beta iota. destruct d as [|c d]; [done|]. rewrite Hd, Hv. change (signed true _) with (Z.neg p). by rewrite Hin.
Qed.

(** ** Data *)

Record User := { us_ID : Z; us_IsBot : bool; us_FirstName : string; us_Username : string }.
Record Chat := { ct_ID : Z; ct_Type : string; ct_Title : string }.
Record PhotoSize := { ph_FileID : string; ph_Width : Z; ph_Height : Z }.
Record Voice := { vo_FileID : string; vo_Duration : Z }.
Record Document := { do_FileID : string; do_FileName : string }.

Record Message := {
  tm_MessageID : Z; tm_From : option User; tm_Chat : Chat; tm_Text : string; tm_Photo : list PhotoSize;
  tm_Voice : option Voice; tm_Document : option Document;
}.
Record Update := { up_UpdateID : Z; up_Message : option Message }.

Record TelegramConfig := {
  tl_Token : string; tl_WebhookURL : string; tl_WebhookPort : Z; tl_WebhookPath : string; tl_AllowFrom : list string;
  tl_TenantID : string; tl_PollTimeout : Z;
}.

Record getUpdatesResponse := { gu_OK : bool; gu_Result : list Update }.
Record sendMessageRequest := { sm_ChatID : Z; sm_Text : string; sm_ParseMode : string }.
Record apiResponse := { ar_OK : bool; ar_Description : string }.

Definition telegram_name : string := "telegram".

Record TelegramChannel := {
  tc_base : BaseChannel; tc_config : TelegramConfig; tc_apiBase : string; tc_offset : Z; tc_tenantID : string;
}.

Definition with_timeout (t : Z) (cfg : TelegramConfig) : TelegramConfig :=
  {| tl_Token := tl_Token cfg; tl_WebhookURL := tl_WebhookURL cfg; tl_WebhookPort := tl_WebhookPort cfg;
     tl_WebhookPath := tl_WebhookPath cfg; tl_AllowFrom := tl_AllowFrom cfg; tl_TenantID := tl_TenantID cfg; tl_PollTimeout := t |}.

Definition NewTelegramChannel (cfg : TelegramConfig) : result goerror TelegramChannel :=
  if str_empty (tl_Token cfg) then Err (ErrText "telegram: token is required")
  else
    let cfg := if tl_PollTimeout cfg <=? 0 then with_timeout 30 cfg else cfg in
    Ok {| tc_base := {| bc_name := telegram_name; bc_allowList := tl_AllowFrom cfg; bc_running := false |};
          tc_config := cfg; tc_apiBase := "https://api.telegram.org/bot" +:+ tl_Token cfg; tc_offset := 0;
          tc_tenantID := if str_empty (tl_TenantID cfg) then DefaultTenantID else tl_TenantID cfg |}.

Definition with_offset (n : Z) (c : TelegramChannel) : TelegramChannel :=
  {| tc_base := tc_base c; tc_config := tc_config c; tc_apiBase := tc_apiBase c; tc_offset := n; tc_tenantID := tc_tenantID c |}.

Section telegram.
Context `{UnicodeFold} {B : Type} `{InboundBus B}.
(** The clients: an address and a time limit, or an address and a body; the text of the
    answer, or an error.  The clock. *)
Context {W : Type} (http_get : string → duration → W → W * result goerror string).
Context (http_post : string → string → W → W * result goerror string) (clock : W → W * time).
Context (unmarshal_updates : string → result goerror getUpdatesResponse) (unmarshal_api : string → result goerror apiResponse).
Context (marshal_request : sendMessageRequest → string).

(** ** Receiving *)

Definition update_metadata (msg : Message) (from : User) : gmap string string :=
  let m : gmap string string :=
    <["platform" := "telegram"]> (<["chat_type" := ct_Type (tm_Chat msg)]> {["message_id" := FormatInt (tm_MessageID msg)]}) in
  if str_empty (us_Username from) then m else <["username" := us_Username from]> m.

Definition processUpdate (c : TelegramChannel) (msg : Message) (now : time) (b : B) : B :=
  match tm_From msg with
  | None => b
  | Some from =>
      if us_IsBot from then b
      else
        let senderID := FormatInt (us_ID from) in
        let media := match last (tm_Photo msg) with Some p => [ph_FileID p] | None => [] end in
        if str_empty (tm_Text msg) && (length media =? 0)%nat then b
        else (HandleMessage (tc_base c) (tc_tenantID c) senderID senderID (FormatInt (ct_ID (tm_Chat msg))) (tm_Text msg) media
                (update_metadata msg from) now b).1
  end.

Definition updates_url (c : TelegramChannel) : string :=
  tc_apiBase c +:+ "/getUpdates?offset=" +:+ pretty (tc_offset c) +:+ "&timeout=" +:+ pretty (tl_PollTimeout (tc_config c)).

Definition poll_timeout (c : TelegramChannel) : duration := wrap64 (wrap64 (tl_PollTimeout (tc_config c) + 5) * Second).

Definition getUpdates (c : TelegramChannel) (w : W) : W * result goerror (list Update) :=
  let '(w, r) := http_get (updates_url c) (poll_timeout c) w in
  (w, body <-? r ;; resp <-? unmarshal_updates body ;;
      if gu_OK resp then Ok (gu_Result resp) else Err (ErrText "API returned ok=false")).

(** The loop over the updates of an answer. *)
Fixpoint process_updates (us : list Update) (c : TelegramChannel) (b : B) (w : W) : TelegramChannel * B * W :=
  match us with
  | [] => (c, b, w)
  | u :: us =>
      let c := with_offset (wrap64 (up_UpdateID u + 1)) c in
      match up_Message u with
      | None => process_updates us c b w
      | Some msg => let '(w, now) := clock w in process_updates us c (processUpdate c msg now b) w
      end
  end.

(** [pollLoop]: for each round whether the context was cancelled at its start, and whether
    it is after a failed call. *)
Fixpoint pollLoop (rounds : list (bool * bool)) (c : TelegramChannel) (b : B) (w : W) : TelegramChannel * B * W :=
  match rounds with
  | [] | (true, _) :: _ => (c, b, w)
  | (false, cancelled) :: rounds =>
      match getUpdates c w with
      | (w, Err _) => if cancelled then (c, b, w) else pollLoop rounds c b w
      | (w, Ok us) => let '(c, b, w) := process_updates us c b w in pollLoop rounds c b w
      end
  end.

(** ** Sending *)

Definition sendMessage (c : TelegramChannel) (chatID : Z) (text : string) (w : W) : W * option goerror :=
  let '(w, r) := http_post (tc_apiBase c +:+ "/sendMessage")
                   (marshal_request {| sm_ChatID := chatID; sm_Text := text; sm_ParseMode := "" |}) w in
  match r with
  | Err e => (w, Some e)
  | Ok body =>
      match unmarshal_api body with
      | Err e => (w, Some e)
      | Ok resp => (w, if ar_OK resp then None else Some (ErrText ("telegram: API error: " +:+ ar_Description resp)))
      end
  end.

Definition telegram_Send (c : TelegramChannel) (msg : OutboundMessage) (w : W) : W * option goerror :=
  if str_empty (out_Content msg) then (w, None)
  else
    match ParseInt (out_ChatID msg) with
    | None => (w, Some (ErrText ("telegram: invalid chat_id " +:+ go_quote (out_ChatID msg))))
    | Some chatID => sendMessage c chatID (out_Content msg) w
    end.
End telegram.

(** ** Exactly once *)

Section once.
Context `{UnicodeFold}.

(** A bus that keeps what it was handed with its answer.  It may refuse any message, as the
    one of the program does when the context is cancelled or the bus is closed; what it
    accepted is on the bus. *)
Definition handed : Type := list (InboundMessage * option goerror).
Context (refuse : handed → InboundMessage → option goerror).
#[local] Instance choosy_bus : InboundBus handed := {| bus_PublishInbound m b := (b ++ [(m, refuse b m)], refuse b m) |}.
Definition accepted (b : handed) : list InboundMessage := (filter (λ p, p.2 = None) b).*1.

Context {W : Type} (http_get : string → duration → W → W * result goerror string) (clock : W → W * time).
Context (unmarshal_updates : string → result goerror getUpdatesResponse).

(** The updates in the order of their identifiers. *)
Definition increasing (l : list Update) : Prop := StronglySorted (λ u v, up_UpdateID u < up_UpdateID v) l.

(** The updates the server was given so far: more come in, with greater identifiers; a call
    is answered with the first ones from the offset on, or fails. *)
Record Server (c0 : TelegramChannel) := {
  srv_log : W → list Update;
  srv_sorted w : increasing (srv_log w);
  srv_range w u : u ∈ srv_log w → 0 ≤ up_UpdateID u < max_int64;
  srv_get url timeout w : srv_log w `prefix_of` srv_log (http_get url timeout w).1;
  srv_clock w : srv_log w `prefix_of` srv_log (clock w).1;
  srv_answer o w w1 us :
    getUpdates http_get unmarshal_updates (with_offset o c0) w = (w1, Ok us) →
    us `prefix_of` filter (λ u, o ≤ up_UpdateID u) (srv_log w1);
}.

(** The message of an update, its time aside. *)
Definition update_message (c : TelegramChannel) (u : Update) : option InboundMessage :=
  msg ← up_Message u; from ← tm_From msg;
  let media := option_list (ph_FileID <$> last (tm_Photo msg)) in
  let sender := FormatInt (us_ID from) in
  if us_IsBot from || (bool_decide (tm_Text msg = ""%string) && bool_decide (media = [])) || negb (bc_IsAllowed (tc_base c) sender)
  then None
  else Some (inbound_of (tc_base c) (tc_tenantID c) sender sender (FormatInt (ct_ID (tm_Chat msg))) (tm_Text msg) media
               (update_metadata msg from) time_zero).

Lemma processUpdate_spec c u msg now b :
  up_Message u = Some msg →
  untimed <$> (processUpdate c msg now b).*1 = (untimed <$> b.*1) ++ option_list (update_message c u).
Proof.
  intros Hu. unfold processUpdate, update_message. rewrite Hu. cbn.
  destruct (tm_From msg) as [from|]; cbn; [|by rewrite app_nil_r].
  destruct (us_IsBot from); cbn; [by rewrite app_nil_r|].
  unfold str_empty, HandleMessage. destruct (last (tm_Photo msg)) as [p|]; cbn.
  - rewrite !andb_false_r. cbn. destruct (bc_IsAllowed _ _); cbn; [by rewrite !fmap_app|by rewrite app_nil_r].
  - rewrite !andb_true_r. destruct (bool_decide _); cbn; [by rewrite app_nil_r|].
    destruct (bc_IsAllowed _ _); cbn; [by rewrite !fmap_app|by rewrite app_nil_r].
Qed.

Lemma filter_all {A} (P : A → Prop) `{∀ x, Decision (P x)} (l : list A) : (∀ x, x ∈ l → P x) → filter P l = l.
Proof.
  induction l as [|x l IH]; intros Hl; [done|]. rewrite filter_cons_True by (apply Hl; by left).
  f_equal. apply IH. intros y Hy. apply Hl. by right.
Qed.

Lemma filter_none {A} (P : A → Prop) `{∀ x, Decision (P x)} (l : list A) : (∀ x, x ∈ l → ¬ P x) → filter P l = [].
Proof.
  induction l as [|x l IH]; intros Hl; [done|]. rewrite filter_cons_False by (apply Hl; by left).
  apply IH. intros y Hy. apply Hl. by right.
Qed.

Abbreviation below o := (filter (λ u, up_UpdateID u < o)).
Abbreviation from o := (filter (λ u, o ≤ up_UpdateID u)).

Ltac cut_lia := repeat match goal with Hv : ?v ∈ ?l, Hl : ∀ x, x ∈ ?l → _ |- _ => pose proof (Hl v Hv); clear Hl end; lia.

Lemma increasing_cut A u R :
  increasing (A ++ u :: R) →
  below (up_UpdateID u) (A ++ u :: R) = A ∧ below (up_UpdateID u + 1) (A ++ u :: R) = A ++ [u]
  ∧ from (up_UpdateID u + 1) (A ++ u :: R) = R.
Proof.
  intros Hs. apply StronglySorted_app in Hs as (HAR & _ & [_ HR]%StronglySorted_inv). rewrite Forall_forall in HR.
  assert (∀ v, v ∈ A → up_UpdateID v < up_UpdateID u) as HA by (intros v Hv; apply HAR; [done|by left]).
  rewrite !filter_app, !filter_cons. split_and!.
  - rewrite decide_False, (filter_all _ A), (filter_none _ R) by (try lia; intros v Hv; cut_lia). by rewrite app_nil_r.
  - by rewrite decide_True, (filter_all _ A), (filter_none _ R) by (try lia; intros v Hv; cut_lia).
  - by rewrite decide_False, (filter_none _ A), (filter_all _ R) by (try lia; intros v Hv; cut_lia).
Qed.

(** The first update from [o] on: those below it are those below [o]. *)
Lemma from_cons o l u r :
  increasing l → from o l = u :: r →
  below (up_UpdateID u + 1) l = below o l ++ [u] ∧ from (up_UpdateID u + 1) l = r ∧ u ∈ l.
Proof.
  intros Hs Hf. assert (o ≤ up_UpdateID u ∧ u ∈ l) as [Ho Hin].
  { apply (list_elem_of_filter (λ u, o ≤ up_UpdateID u)). rewrite Hf. apply list_elem_of_here. }
  apply list_elem_of_split in Hin as (A & R & ->). destruct (increasing_cut A u R Hs) as (_ & HB & HF).
  assert (from o A = []) as HA.
  { destruct (from o A) as [|v k] eqn:Hk; [done|]. exfalso. rewrite filter_app, Hk in Hf. injection Hf as -> _.
    assert (u ∈ from o A) as [_ Hu]%list_elem_of_filter by (rewrite Hk; by left).
    apply StronglySorted_app in Hs as (HAR & _). specialize (HAR u u Hu ltac:(by left)). lia. }
  rewrite filter_app, HA, filter_cons, decide_True in Hf by done. injection Hf as Hf.
  assert (∀ v, v ∈ R → up_UpdateID u < up_UpdateID v) as HR.
  { apply StronglySorted_app in Hs as (_ & _ & [_ HR]%StronglySorted_inv). by rewrite Forall_forall in HR. }
  assert (below o A = A) as HA'.
  { apply filter_all. intros v Hv. destruct (decide (o ≤ up_UpdateID v)) as [Hle|]; [|lia].
    by destruct (filter_nil_not_elem_of _ A v HA Hle). }
  rewrite HB, HF. split_and!; [|rewrite <- Hf, filter_all; [done|intros v Hv; cut_lia]|set_solver].
  rewrite filter_app, HA', filter_cons, decide_False by lia. rewrite filter_none; [by rewrite app_nil_r|]. intros v Hv. cut_lia.
Qed.

(** ** The invariant *)

Section server.
Context (c0 : TelegramChannel) (srv : Server c0).
Abbreviation log := (srv_log c0 srv).

(** An offset the channel may be at: the start, or past an update. *)
Definition reached (o : Z) (l : list Update) : Prop := o = 0 ∨ ∃ u, u ∈ l ∧ o = up_UpdateID u + 1.

(** What comes in later is not below the offset. *)
Lemma below_grows o w w' : log w `prefix_of` log w' → reached o (log w) → below o (log w') = below o (log w).
Proof.
  intros [k Hk] Ho. pose proof (srv_sorted c0 srv w') as Hs. rewrite Hk in Hs |- *.
  rewrite filter_app, (filter_none _ k); [by rewrite app_nil_r|]. intros v Hv.
  destruct Ho as [->|(u & Hu & ->)].
  - enough (0 ≤ up_UpdateID v) by lia. apply (srv_range c0 srv w'). rewrite Hk. apply elem_of_app. by right.
  - apply StronglySorted_app in Hs as (Hlt & _). specialize (Hlt u v Hu Hv). lia.
Qed.

Lemma reached_grows o w w' : log w `prefix_of` log w' → reached o (log w) → reached o (log w').
Proof. intros [k ->] [Ho|(u & Hu & Ho)]; [by left|right]. exists u. split; [|done]. apply elem_of_app. by left. Qed.

Lemma from_grows o w w' us : log w `prefix_of` log w' → us `prefix_of` from o (log w) → us `prefix_of` from o (log w').
Proof. intros [k ->] Hus. rewrite filter_app. by apply prefix_app_r. Qed.

(** The bus has the messages of the updates below the offset. *)
Record in_step (c : TelegramChannel) (b : handed) (w : W) : Prop := {
  is_channel : c = with_offset (tc_offset c) c0;
  is_reached : reached (tc_offset c) (log w);
  is_bus : untimed <$> b.*1 = omap (update_message c0) (below (tc_offset c) (log w));
}.

Lemma in_step_grows c b w w' : log w `prefix_of` log w' → in_step c b w → in_step c b w'.
Proof.
  intros Hw [Hc Ho Hb]. split; [done|by eapply reached_grows|]. by rewrite Hb, (below_grows _ w w').
Qed.

(** One update more. *)
Lemma in_step_update c b b' w u us :
  in_step c b w → u :: us `prefix_of` from (tc_offset c) (log w) →
  untimed <$> b'.*1 = (untimed <$> b.*1) ++ option_list (update_message c0 u) →
  let c' := with_offset (wrap64 (up_UpdateID u + 1)) c in
  in_step c' b' w ∧ us `prefix_of` from (tc_offset c') (log w).
Proof.
  intros [Hc Ho Hb] [r Hr] Hb'. destruct (from_cons _ _ _ _ (srv_sorted c0 srv w) Hr) as (HB & HF & Hu).
  pose proof (srv_range c0 srv w u Hu). cbn. rewrite wrap64_id by (unfold min_int64, max_int64 in *; lia).
  split; [|rewrite HF; by exists r]. split; cbn.
  - by rewrite Hc.
  - right. by exists u.
  - rewrite Hb', Hb, HB, omap_app. cbn. by destruct (update_message c0 u).
Qed.

(** One turn of the loop. *)
Lemma process_one_in_step u us c b w (c1 := with_offset (wrap64 (up_UpdateID u + 1)) c) :
  in_step c b w → u :: us `prefix_of` from (tc_offset c) (log w) →
  ∃ b1 w1, process_updates clock (u :: us) c b w = process_updates clock us c1 b1 w1
           ∧ log w `prefix_of` log w1 ∧ in_step c1 b1 w1 ∧ us `prefix_of` from (tc_offset c1) (log w1).
Proof.
  intros Hi Hus. cbn [process_updates]. fold c1. destruct (up_Message u) as [msg|] eqn:Hmsg.
  - destruct (clock w) as [w1 now] eqn:Hclock. pose proof (srv_clock c0 srv w) as Hw. rewrite Hclock in Hw. cbn [fst] in Hw.
    exists (processUpdate c1 msg now b), w1. split; [done|]. split; [done|]. subst c1.
    apply (in_step_update _ b); [by eapply in_step_grows|by eapply from_grows|].
    rewrite (processUpdate_spec _ u) by done. by rewrite (is_channel _ _ _ Hi).
  - exists b, w. split; [done|]. split; [done|]. apply (in_step_update _ b); [done..|].
    unfold update_message. by rewrite Hmsg, app_nil_r.
Qed.

Lemma process_updates_in_step us c b w c' b' w' :
  in_step c b w → us `prefix_of` from (tc_offset c) (log w) → process_updates clock us c b w = (c', b', w') →
  in_step c' b' w' ∧ log w `prefix_of` log w' ∧ tc_offset c ≤ tc_offset c' ∧ ∀ u, u ∈ us → up_UpdateID u < tc_offset c'.
Proof.
  revert c b w. induction us as [|u us IH]; intros c b w Hi Hus.
  { intros [= <- <- <-]. split_and!; [done|done|done|]. by intros ? ?%not_elem_of_nil. }
  assert (u ∈ from (tc_offset c) (log w)) as [Hle Hu]%list_elem_of_filter by (destruct Hus as [r ->]; set_solver).
  pose proof (srv_range c0 srv w u Hu) as Hrange.
  destruct (process_one_in_step u us c b w Hi Hus) as (b1 & w1 & -> & Hw & Hi1 & Hus1). intros Hrun.
  destruct (IH _ _ _ Hi1 Hus1 Hrun) as (Hi' & Hw' & Ho & Hall). cbn [tc_offset with_offset] in Ho.
  rewrite wrap64_id in Ho by (unfold min_int64, max_int64 in *; lia).
  split_and!; [done|by etrans|lia|]. intros v [->|Hv]%elem_of_cons; [lia|by apply Hall].
Qed.

Lemma getUpdates_in_step c b w w1 us :
  in_step c b w → getUpdates http_get unmarshal_updates c w = (w1, us) →
  in_step c b w1 ∧ ∀ l, us = Ok l → l `prefix_of` from (tc_offset c) (log w1).
Proof.
  intros Hi Hget. split.
  - apply (in_step_grows c b w); [|done]. pose proof (srv_get c0 srv (updates_url c) (poll_timeout c) w) as Hw.
    unfold getUpdates in Hget. destruct (http_get _ _ w). by injection Hget as <- _.
  - intros l ->. rewrite (is_channel _ _ _ Hi) in Hget. by apply (srv_answer c0 srv) in Hget.
Qed.

Lemma pollLoop_in_step rounds c b w c' b' w' :
  in_step c b w → pollLoop http_get clock unmarshal_updates rounds c b w = (c', b', w') → in_step c' b' w'.
Proof.
  revert c b w. induction rounds as [|[[|] cancelled] rounds IH]; intros c b w Hi; cbn [pollLoop]; [by intros [= <- <- <-]..|].
  destruct (getUpdates _ _ _ _) as [w1 us] eqn:Hget. destruct (getUpdates_in_step _ _ _ _ _ Hi Hget) as [Hi1 Hus].
  destruct us as [us|e].
  - destruct (process_updates _ _ _ _ _) as [[c2 b2] w2] eqn:Hp. apply IH.
    by destruct (process_updates_in_step us c b w1 c2 b2 w2 Hi1 (Hus us eq_refl) Hp).
  - destruct cancelled; [by intros [= <- <- <-]|by apply IH].
Qed.
End server.

(** The answers of a bus that refuses nothing. *)
Lemma all_accepted rounds c b w c' b' w' :
  (∀ b m, refuse b m = None) → Forall (λ p, p.2 = None) b →
  pollLoop http_get clock unmarshal_updates rounds c b w = (c', b', w') → accepted b' = b'.*1.
Proof.
  intros Hr Hb Hrun. enough (Forall (λ p, p.2 = None) b') as Hb' by (unfold accepted; f_equal; by apply filter_all, Forall_forall).
  assert (∀ us c b w, Forall (λ p, p.2 = None) b → Forall (λ p, p.2 = None) (process_updates clock us c b w).1.2) as Hus.
  { clear -Hr. induction us as [|u us IH]; intros c b w Hb; [done|]. cbn [process_updates]. destruct (up_Message u) as [msg|]; [|by apply IH].
    destruct (clock w) as [w1 now]. apply IH. unfold processUpdate.
    destruct (tm_From msg) as [from|]; [|done]. destruct (us_IsBot from); [done|]. destruct (str_empty (tm_Text msg) && _); [done|].
    unfold HandleMessage. case_match; [done|]. cbn. apply Forall_app; split; [done|]. repeat constructor. apply Hr. }
  revert c b w Hb Hrun. induction rounds as [|[[|] cancelled] rounds IH]; intros c b w Hb; cbn [pollLoop]; [by intros [= <- <- <-]..|].
  destruct (getUpdates _ _ _ _) as [w1 [us|e]]; [|destruct cancelled; [by intros [= <- <- <-]|by apply IH]].
  specialize (Hus us c b w1 Hb). destruct (process_updates _ _ _ _ _) as [[c2 b2] w2]. by apply IH.
Qed.

(** C10: In one run of the loop, whatever the calls answer and however many rounds it
    takes, the bus was handed one message for each update below the offset that is of a
    person who is allowed and has a text or a photo, in their order, none twice, and none for
    the other updates; a round that is answered with everything that waits leaves nothing
    out.  A bus that refuses nothing has accepted all of them.  One that refuses a message,
    because the context was cancelled or the bus was closed, is never handed it again: the
    offset has moved on, and the message is lost. *)
Theorem telegram_exactly_once cfg c0 w0 rounds c b w (srv : Server c0) :
  NewTelegramChannel cfg = Ok c0 →
  pollLoop http_get clock unmarshal_updates rounds c0 [] w0 = (c, b, w) →
  untimed <$> b.*1 = omap (update_message c0) (below (tc_offset c) (srv_log c0 srv w))
  ∧ ((∀ b' m, refuse b' m = None) → accepted b = b.*1)
  ∧ ∀ w1 us c2 b2 w2,
      getUpdates http_get unmarshal_updates c w = (w1, Ok us) → us = from (tc_offset c) (srv_log c0 srv w1) →
      process_updates clock us c b w1 = (c2, b2, w2) →
      omap (update_message c0) (srv_log c0 srv w1) `prefix_of` (untimed <$> b2.*1).
Proof.
  intros Hnew Hrun.
  assert (tc_offset c0 = 0 ∧ c0 = with_offset 0 c0) as [H0 Hc0].
  { unfold NewTelegramChannel in Hnew. destruct (str_empty _); [done|]. by injection Hnew as <-. }
  assert (in_step c0 srv c0 [] w0) as Hstart.
  { split; rewrite H0; [done|by left|]. rewrite filter_none; [done|]. intros u Hu. pose proof (srv_range c0 srv w0 u Hu). lia. }
  pose proof (pollLoop_in_step c0 srv _ _ _ _ _ _ _ Hstart Hrun) as Hi. split; [by apply Hi|].
  split; [intros Hr; eapply all_accepted; [exact Hr|constructor|exact Hrun]|].
  intros w1 us c2 b2 w2 Hget Hall Hp. destruct (getUpdates_in_step c0 srv _ _ _ _ _ Hi Hget) as [Hi1 Hus].
  destruct (process_updates_in_step c0 srv us c b w1 c2 b2 w2 Hi1 (Hus us eq_refl) Hp) as (Hi2 & [k Hw] & Ho & Hbelow).
  rewrite (is_bus _ _ _ _ _ Hi2), Hw, filter_app, omap_app, (filter_all _ (srv_log c0 srv w1)); [by eexists|].
  intros u Hu. destruct (decide (tc_offset c ≤ up_UpdateID u)) as [Hle|]; [|lia].
  apply Hbelow. rewrite Hall. by apply list_elem_of_filter.
Qed.

(** An answer to a message goes to the chat the message is from. *)
Lemma reply_reaches_chat c u m :
  update_message c u = Some m → (∀ msg, up_Message u = Some msg → min_int64 ≤ ct_ID (tm_Chat msg) ≤ max_int64) →
  ∃ msg, up_Message u = Some msg ∧ ParseInt (in_ChatID m) = Some (ct_ID (tm_Chat msg)).
Proof.
  unfold update_message. destruct (up_Message u) as [msg|]; cbn; [|done]. destruct (tm_From msg) as [fr|]; cbn; [|done].
  case_match; [done|]. intros [= <-] Hrange. exists msg. split; [done|]. apply ParseInt_FormatInt. by apply Hrange.
Qed.
End once.

(** ** Examples *)

Section examples.
#[local] Instance same_fold : UnicodeFold := {| unicode_fold s t := bool_decide (s = t) |}.

Definition w_cfg : TelegramConfig :=
  {| tl_Token := "tok"; tl_WebhookURL := ""; tl_WebhookPort := 0; tl_WebhookPath := ""; tl_AllowFrom := []; tl_TenantID := "t1";
     tl_PollTimeout := 0 |}.
Definition w_c0 : TelegramChannel :=
  {| tc_base := {| bc_name := "telegram"; bc_allowList := []; bc_running := false |}; tc_config := with_timeout 30 w_cfg;
     tc_apiBase := "https://api.telegram.org/bottok"; tc_offset := 0; tc_tenantID := "t1" |}.
Definition w_update (id : Z) (bot : bool) (text : string) : Update :=
  {| up_UpdateID := id;
     up_Message := Some {| tm_MessageID := 7; tm_From := Some {| us_ID := 42; us_IsBot := bot; us_FirstName := ""; us_Username := "" |};
                           tm_Chat := {| ct_ID := -100; ct_Type := "group"; ct_Title := "" |}; tm_Text := text; tm_Photo := [];
                           tm_Voice := None; tm_Document := None |} |}.
Definition w_log : list Update := [w_update 5 false "one"; w_update 6 true "beep"; w_update 9 false "two"].

(** A server whose first call is the only one to find something. *)
Definition w_get (url : string) (timeout : duration) (w : unit) : unit * result goerror string :=
  (w, if bool_decide (url = updates_url w_c0) then Ok "all"%string else Ok "none"%string).
Definition w_clock (w : unit) : unit * time := (w, 77).
Definition w_unmarshal (s : string) : result goerror getUpdatesResponse :=
  Ok {| gu_OK := true; gu_Result := if bool_decide (s = "all"%string) then w_log else [] |}.

Lemma updates_url_inj c o o' : updates_url (with_offset o c) = updates_url (with_offset o' c) → o = o'.
Proof.
  unfold updates_url. cbn [tc_apiBase tc_offset tc_config with_offset]. intros Heq%(f_equal s2l).
  rewrite !s2l_app in Heq. apply app_inv_head, app_inv_head in Heq.
  apply app_inv_tail in Heq. apply (f_equal l2s) in Heq. rewrite !l2s_s2l in Heq. by apply (inj pretty) in Heq.
Qed.

Definition w_server : Server w_get w_clock w_unmarshal w_c0.
Proof.
  refine {| srv_log _ := w_log |}.
  - intros _. repeat constructor.
  - intros _. apply Forall_forall. repeat constructor; vm_compute; (discriminate || reflexivity).
  - done.
  - done.
  - intros o w w1 us. unfold getUpdates, w_get. case_bool_decide as Hurl; cbn; intros [= <- <-]; [|by eexists].
    change w_c0 with (with_offset 0 w_c0) in Hurl at 2. apply updates_url_inj in Hurl as ->. by eexists [].
Defined.

(** The context is cancelled after the first message. *)
Definition w_refuse (b : handed) (m : InboundMessage) : option goerror :=
  if bool_decide (b = []) then None else Some (ErrText "context canceled").
Definition w_run refuse := pollLoop (H0 := choosy_bus refuse) w_get w_clock w_unmarshal [(false, false); (true, false)] w_c0 [] ().

Lemma telegram_example :
  let '(c, b, _) := w_run (λ _ _, None) in (tc_offset c, in_Content <$> accepted b) = (10, ["one"%string; "two"%string]).
Proof. by vm_compute. Qed.

(** Stopping the channel while an answer is processed loses the rest of it: the offset is
    past both messages, and only the first is on the bus. *)
Lemma stopping_loses_messages :
  let '(c, b, _) := w_run w_refuse in (tc_offset c, in_Content <$> accepted b) = (10, ["one"%string]).
Proof. by vm_compute. Qed.

Lemma telegram_exactly_once_witness :
  untimed <$> (w_run w_refuse).1.2.*1 = omap (update_message w_c0) (filter (λ u, up_UpdateID u < tc_offset (w_run w_refuse).1.1) w_log).
Proof.
  apply (telegram_exactly_once w_refuse w_get w_clock w_unmarshal w_cfg w_c0 () [(false, false); (true, false)]
           (w_run w_refuse).1.1 (w_run w_refuse).1.2 (w_run w_refuse).2 w_server).
  - reflexivity.
  - rewrite <- !surjective_pairing. reflexivity.
Defined.
End examples.
