(* ===== verification/Feishu.v ===== *)
(** [pkg/channels/feishu]: the transport for Feishu bots, which is called by a webhook and
    answers through an API that wants a token ([feishu.go], [types.go]).

    The HTTP client, with the server behind it, the clock and the JSON codecs are
    parameters.  Starting and stopping is in [Lifecycle]; log lines are left out. *)
From stdpp Require Import pretty.
From S2P Require Import Prelude GoStrings Types Stores Channels.

Definition feishu_name : string := "feishu".

Record FeishuConfig := {
  fs_AppID : string; fs_AppSecret : string; fs_VerificationToken : string; fs_EncryptKey : string; fs_WebhookHost : string;
  fs_WebhookPort : Z; fs_WebhookPath : string; fs_AllowFrom : list string; fs_TenantID : string;
}.

Record FeishuChannel := {
  fc_base : BaseChannel; fc_config : FeishuConfig; fc_tenantID : string; fc_accessToken : string; fc_tokenExpiry : time;
}.

Definition NewFeishuChannel (cfg : FeishuConfig) : result goerror FeishuChannel :=
  if str_empty (fs_AppID cfg) || str_empty (fs_AppSecret cfg) then Err (ErrText "feishu: app_id and app_secret are required")
  else if str_empty (fs_VerificationToken cfg) then Err (ErrText "feishu: verification_token is required")
  else
    Ok {| fc_base := {| bc_name := feishu_name; bc_allowList := fs_AllowFrom cfg; bc_running := false |}; fc_config := cfg;
          fc_tenantID := if str_empty (fs_TenantID cfg) then DefaultTenantID else fs_TenantID cfg;
          fc_accessToken := ""; fc_tokenExpiry := time_zero |}.

Definition with_token (token : string) (expiry : time) (c : FeishuChannel) : FeishuChannel :=
  {| fc_base := fc_base c; fc_config := fc_config c; fc_tenantID := fc_tenantID c; fc_accessToken := token; fc_tokenExpiry := expiry |}.

(** A request: whether it is a POST, and its body if it could be read. *)
Record fs_request := { fr_post : bool; fr_body : option string }.
Record fs_response := { fp_Status : Z; fp_Body : string }.

(** The envelope, its header with a type and a token, and the event in it. *)
Record fs_header := { fh_EventType : string; fh_Token : string }.
Record fs_envelope := {
  fe_Challenge : string; fe_Token : string; fe_Type : string; fe_Header : option fs_header; fe_Event : string;
}.
Record fs_event := {
  ev_OpenID : string; ev_MessageID : string; ev_ChatID : string; ev_ChatType : string; ev_MessageType : string; ev_Content : string;
}.

(** The answer to a request for a token. *)
Record token_answer := { ta_Code : Z; ta_Msg : string; ta_Token : string; ta_Expire : Z }.

Definition message_event : string := "im.message.receive_v1".

Section feishu.
Context `{UnicodeFold} {B : Type} `{InboundBus B}.
(** The decoders of the envelope, the event and the content of a message. *)
Context (unmarshal_envelope : string → option fs_envelope) (unmarshal_event : string → option fs_event).
Context (unmarshal_text : string → option string).
Context (marshal_challenge : string → string).

(** ** Receiving *)

Definition fs_answer (status : Z) (text : string) : fs_response := {| fp_Status := status; fp_Body := text |}.

(** The answer and the event a goroutine is started for. *)
Definition handleWebhook (c : FeishuChannel) (rq : fs_request) : fs_response * option string :=
  if negb (fr_post rq) then (fs_answer 405 "Method not allowed", None)
  else
    match fr_body rq with
    | None => (fs_answer 400 "read body failed", None)
    | Some body =>
        match unmarshal_envelope body with
        | None => (fs_answer 400 "invalid JSON", None)
        | Some envelope =>
            if negb (str_empty (fe_Challenge envelope)) then (fs_answer 200 (marshal_challenge (fe_Challenge envelope)), None)
            else
              let token := match fe_Header envelope with Some h => fh_Token h | None => fe_Token envelope end in
              if negb (bool_decide (token = fs_VerificationToken (fc_config c))) then (fs_answer 403 "invalid token", None)
              else
                let eventType := match fe_Header envelope with Some h => fh_EventType h | None => ""%string end in
                (fs_answer 200 "", if bool_decide (eventType = message_event) then Some (fe_Event envelope) else None)
        end
    end.

Definition event_content (ev : fs_event) : string :=
  if bool_decide (ev_MessageType ev = "text"%string) then default ""%string (unmarshal_text (ev_Content ev)) else "".

(** [dropped]: the context is that of the request, which is cancelled once its handler
    has returned; the bus then may not take the message, though it still may. *)
Definition processEvent (c : FeishuChannel) (raw : string) (dropped : bool) (now : time) (b : B) : B :=
  match unmarshal_event raw with
  | None => b
  | Some ev =>
      let senderID := ev_OpenID ev in
      let chatID := if str_empty (ev_ChatID ev) then senderID else ev_ChatID ev in
      let content := event_content ev in
      if str_empty content || dropped then b
      else
        (HandleMessage (fc_base c) (fc_tenantID c) senderID senderID chatID content []
           (<["platform" := "feishu"]> (<["message_id" := ev_MessageID ev]> {["chat_type" := ev_ChatType ev]}))%string now b).1
  end.

(** The channel, the events goroutines are started for and the bus. *)
Record feishu := { fm_channel : FeishuChannel; fm_pending : list string; fm_bus : B }.

Inductive feishu_event := FRequest (rq : fs_request) | FProcess (i : nat) (dropped : bool) (now : time).

Definition feishu_step (s : feishu) (e : feishu_event) : feishu :=
  match e with
  | FRequest rq =>
      match handleWebhook (fm_channel s) rq with
      | (_, Some raw) => {| fm_channel := fm_channel s; fm_pending := fm_pending s ++ [raw]; fm_bus := fm_bus s |}
      | (_, None) => s
      end
  | FProcess i dropped now =>
      match fm_pending s !! i with
      | Some raw =>
          {| fm_channel := fm_channel s; fm_pending := delete i (fm_pending s);
             fm_bus := processEvent (fm_channel s) raw dropped now (fm_bus s) |}
      | None => s
      end
  end.

(** ** Sending *)

(** [DefaultHTTPClient]: an address, a token for the header and a payload; the status and,
    as far as it can be read, the text of the answer.  The clock. *)
Context {W : Type} (http_post : string → string → string → W → W * result goerror (Z * string)) (clock : W → W * time).
Context (unmarshal_token : string → result goerror token_answer).
Context (marshal_token_request : string → string → string) (marshal_message : string → string → string).

Definition token_url : string := "https://open.feishu.cn/open-apis/auth/v3/tenant_access_token/internal".
Definition message_url : string := "https://open.feishu.cn/open-apis/im/v1/messages?receive_id_type=chat_id".

Definition fetch_token (c : FeishuChannel) (w : W) : FeishuChannel * W * result goerror string :=
  match http_post token_url "" (marshal_token_request (fs_AppID (fc_config c)) (fs_AppSecret (fc_config c))) w with
  | (w, Err e) => (c, w, Err e)
  | (w, Ok (_, body)) =>
      match unmarshal_token body with
      | Err e => (c, w, Err e)
      | Ok answer =>
          if negb (ta_Code answer =? 0) then (c, w, Err (ErrText ("feishu: token error " +:+ pretty (ta_Code answer) +:+ ": " +:+ ta_Msg answer)))
          else
            let '(w, now) := clock w in
            let c := with_token (ta_Token answer) (time_add now (wrap64 (wrap64 (ta_Expire answer - 60) * Second))) c in
            (c, w, Ok (fc_accessToken c))
      end
  end.

Definition getAccessToken (c : FeishuChannel) (w : W) : FeishuChannel * W * result goerror string :=
  if str_empty (fc_accessToken c) then fetch_token c w
  else
    let '(w, now) := clock w in
    if Before now (fc_tokenExpiry c) then (c, w, Ok (fc_accessToken c)) else fetch_token c w.

Definition replyMessage (c : FeishuChannel) (chatID text : string) (w : W) : FeishuChannel * W * option goerror :=
  match getAccessToken c w with
  | (c, w, Err e) => (c, w, Some e)
  | (c, w, Ok token) =>
      match http_post message_url ("Bearer " +:+ token) (marshal_message chatID text) w with
      | (w, Err e) => (c, w, Some e)
      | (w, Ok (status, body)) =>
          (c, w, if 400 <=? status then Some (ErrText ("feishu: API error " +:+ pretty status +:+ ": " +:+ body)) else None)
      end
  end.

Definition feishu_Send (c : FeishuChannel) (msg : OutboundMessage) (w : W) : FeishuChannel * W * option goerror :=
  if str_empty (out_Content msg) then (c, w, None) else replyMessage c (out_ChatID msg) (out_Content msg) w.
End feishu.

#[local] Existing Instance log_bus.

(** ** Receiving: what reaches the bus *)

Section receive.
Context `{UnicodeFold}.
Context (unmarshal_envelope : string → option fs_envelope) (unmarshal_event : string → option fs_event).
Context (unmarshal_text : string → option string) (marshal_challenge : string → string).

(** The message of an event, its time aside. *)
Definition event_message (c : FeishuChannel) (raw : string) : option InboundMessage :=
  ev ← unmarshal_event raw;
  let content := event_content unmarshal_text ev in
  let sender := ev_OpenID ev in
  if bool_decide (content = ""%string) || negb (bc_IsAllowed (fc_base c) sender) then None
  else Some (inbound_of (fc_base c) (fc_tenantID c) sender sender (if str_empty (ev_ChatID ev) then sender else ev_ChatID ev) content []
               (<["platform" := "feishu"]> (<["message_id" := ev_MessageID ev]> {["chat_type" := ev_ChatType ev]}))%string time_zero).

(** The event of a request: it has the verification token and is no challenge. *)
Definition request_event (c : FeishuChannel) (rq : fs_request) : option string :=
  body ← fr_body rq; envelope ← unmarshal_envelope body; header ← fe_Header envelope;
  if fr_post rq && bool_decide (fe_Challenge envelope = ""%string) && bool_decide (fh_Token header = fs_VerificationToken (fc_config c))
     && bool_decide (fh_EventType header = message_event)
  then Some (fe_Event envelope) else None.

Lemma handleWebhook_event c rq : (handleWebhook unmarshal_envelope marshal_challenge c rq).2 = request_event c rq.
Proof.
  unfold handleWebhook, request_event. destruct (fr_post rq); cbn; [|by destruct (fr_body rq) as [b|]; cbn; [destruct (unmarshal_envelope b) as [en|]; cbn; [destruct (fe_Header en)|]|]].
  destruct (fr_body rq) as [body|]; cbn; [|done]. destruct (unmarshal_envelope body) as [en|]; cbn; [|done].
  unfold str_empty. destruct (bool_decide (fe_Challenge en = ""%string)); cbn; [|by destruct (fe_Header en)].
  destruct (fe_Header en) as [h|]; cbn.
  - destruct (bool_decide (fh_Token h = _)); [|done]. done.
  - by destruct (bool_decide (fe_Token en = _)).
Qed.

Lemma processEvent_spec c raw dropped now b :
  untimed <$> processEvent (B := list InboundMessage) unmarshal_event unmarshal_text c raw dropped now b
  = (untimed <$> b) ++ if dropped then [] else option_list (event_message c raw).
Proof.
  unfold processEvent, event_message. destruct (unmarshal_event raw) as [ev|]; cbn; [|by destruct dropped; rewrite app_nil_r].
  unfold str_empty. destruct (bool_decide (event_content _ ev = _)); cbn; [by destruct dropped; rewrite app_nil_r|].
  destruct dropped; cbn; [by rewrite app_nil_r|]. unfold HandleMessage.
  destruct (bc_IsAllowed _ _); cbn; [by rewrite fmap_app|by rewrite app_nil_r].
Qed.

Abbreviation step := (feishu_step unmarshal_envelope unmarshal_event unmarshal_text marshal_challenge).

Definition fs_events (c : FeishuChannel) (es : list feishu_event) : list string :=
  omap (λ e, match e with FRequest rq => request_event c rq | FProcess _ _ _ => None end) es.

(** The goroutines whose message was dropped. *)
Definition is_drop (e : feishu_event) : bool := match e with FProcess _ dropped _ => dropped | FRequest _ => false end.
Definition fs_drops (es : list feishu_event) : nat :=
  length (filter (λ e, is_drop e = true) es).

(** The messages of the requests are on the bus, in waiting or dropped. *)
Definition accounted (c : FeishuChannel) (es : list feishu_event) (s : feishu (B := list InboundMessage)) : Prop :=
  fm_channel s = c ∧ ∃ lost, (length lost ≤ fs_drops es)%nat
    ∧ (untimed <$> fm_bus s) ++ omap (event_message c) (fm_pending s) ++ lost ≡ₚ omap (event_message c) (fs_events c es).

Lemma fs_drops_app es e : fs_drops (es ++ [e]) = (fs_drops es + fs_drops [e])%nat.
Proof. unfold fs_drops. by rewrite filter_app, length_app. Qed.

Lemma omap_cons_list {A C} (f : A → option C) x l : omap f (x :: l) = option_list (f x) ++ omap f l.
Proof. cbn. by destruct (f x). Qed.

Lemma step_accounted c es s e : accounted c es s → accounted c (es ++ [e]) (step s e).
Proof.
  intros (Hc & lost & Hlost & Hp). unfold accounted, fs_events. rewrite omap_app, fs_drops_app.
  destruct e as [rq|i dropped now]; cbn [feishu_step].
  - pose proof (handleWebhook_event c rq) as Hev. rewrite Hc.
    destruct (handleWebhook _ _ c rq) as [r [raw|]]; cbn in Hev |- *; rewrite <- Hev; cbn [omap list_omap].
    + split; [done|]. exists lost. split; [lia|]. rewrite !omap_app, omap_cons_list, <- Hp. cbn [omap list_omap].
      rewrite app_nil_r, <- !app_assoc. by rewrite (Permutation_app_comm lost).
    + split; [done|]. exists lost. split; [lia|]. by rewrite app_nil_r.
  - rewrite app_nil_r. destruct (fm_pending s !! i) as [raw|] eqn:Hi; [|split; [done|]; exists lost; split; [lia|done]].
    split; [done|]. cbn [fm_bus fm_pending]. rewrite Hc, processEvent_spec.
    apply delete_Permutation in Hi. rewrite Hi, omap_cons_list in Hp. set (m := option_list _) in *.
    assert (length m ≤ 1)%nat as Hm by (subst m; destruct (event_message c raw); cbn; lia).
    exists (if dropped then m ++ lost else lost). assert (fs_drops [FProcess i dropped now] = if dropped then 1 else 0)%nat as -> by (by destruct dropped).
    destruct dropped; cbn -[fs_drops].
    + rewrite length_app, app_nil_r. split; [lia|]. rewrite <- Hp, <- app_assoc. by rewrite (Permutation_app_swap_app m).
    + rewrite <- Hp, <- !app_assoc. split; [lia|done].
Qed.

(** Each request that has the verification token and a message event in it puts one message
    on the bus at the most, and nothing else gets there, in whatever order the requests and
    their goroutines run; when no goroutine is left waiting, there are no more messages
    missing than the request's own context made the bus refuse. *)
Theorem feishu_delivers c es (s := fold_left step es {| fm_channel := c; fm_pending := []; fm_bus := [] |}) :
  let sent := omap (event_message c) (fs_events c es) in
  (untimed <$> fm_bus s) ⊆+ sent
  ∧ (fm_pending s = [] → (length sent ≤ length (fm_bus s) + fs_drops es)%nat)
  ∧ (fm_pending s = [] → fs_drops es = 0%nat → (untimed <$> fm_bus s) ≡ₚ sent).
Proof.
  assert (accounted c es s) as (_ & lost & Hlost & Hp).
  { subst s. induction es as [|e es IH] using rev_ind; [by split; [|exists []]|]. rewrite fold_left_app. by apply step_accounted. }
  cbn zeta. split_and!.
  - rewrite <- Hp. by apply submseteq_inserts_r.
  - intros Hpend. rewrite <- Hp, Hpend. cbn. rewrite length_app, length_fmap. lia.
  - intros Hpend H0. rewrite <- Hp, Hpend. cbn. destruct lost; [by rewrite app_nil_r|]. cbn in Hlost. lia.
Qed.
End receive.

(** ** Sending: the token *)

(** The time limit of [DefaultHTTPClient]. *)
Definition http_timeout : duration := 30 * Second.

Section token.
Context {W : Type} (http_post : string → string → string → W → W * result goerror (Z * string)) (clock : W → W * time).
Context (unmarshal_token : string → result goerror token_answer).
Context (marshal_token_request : string → string → string) (marshal_message : string → string → string).

(** The tokens that were issued and until when they are valid.  One that is given out for
    some seconds was issued within the time limit of the call, as the clock is read after it. *)
Record TokenServer := {
  ts_issued : W → list (string * time);
  ts_post url token payload w : ts_issued w ⊆ ts_issued (http_post url token payload w).1;
  ts_clock w : ts_issued w ⊆ ts_issued (clock w).1;
  ts_answer payload w w1 status body answer :
    http_post token_url "" payload w = (w1, Ok (status, body)) → unmarshal_token body = Ok answer → ta_Code answer = 0 →
    0 ≤ ta_Expire answer ≤ 10 ^ 9
    ∧ ∃ valid, (ta_Token answer, valid) ∈ ts_issued w1 ∧ (clock w1).2 + ta_Expire answer * Second - http_timeout ≤ valid;
}.

Context (srv : TokenServer).
Abbreviation send := (feishu_Send http_post clock unmarshal_token marshal_token_request marshal_message).
Abbreviation fetch := (fetch_token http_post clock unmarshal_token marshal_token_request).
Abbreviation get_token := (getAccessToken http_post clock unmarshal_token marshal_token_request).

(** The kept token is valid beyond the time it is kept for. *)
Definition token_ok (c : FeishuChannel) (w : W) : Prop :=
  fc_accessToken c = ""%string
  ∨ ∃ valid, (fc_accessToken c, valid) ∈ ts_issued srv w ∧ fc_tokenExpiry c + http_timeout ≤ valid.

Lemma token_ok_later c w w' : ts_issued srv w ⊆ ts_issued srv w' → token_ok c w → token_ok c w'.
Proof. intros Hsub [?|(v & Hin & ?)]; [by left|right]. exists v. split; [by apply Hsub|done]. Qed.

Lemma seconds_exact n : 0 ≤ n ≤ 10 ^ 9 → wrap64 (wrap64 (n - 60) * Second) = (n - 60) * Second.
Proof.
  intros Hn. assert (10 ^ 9 = 1000000000) as H9 by done. rewrite H9 in Hn.
  rewrite (wrap64_id (n - 60)) by (unfold min_int64, max_int64; lia).
  apply wrap64_id. unfold min_int64, max_int64, Second, Millisecond. lia.
Qed.

(** A token just fetched: until when it was issued. *)
Lemma fetch_token_ok c w c' w' r :
  token_ok c w → fetch c w = (c', w', r) →
  ts_issued srv w ⊆ ts_issued srv w' ∧ token_ok c' w'
  ∧ ∀ t, r = Ok t → ∃ valid, (t, valid) ∈ ts_issued srv w' ∧ fc_tokenExpiry c' + http_timeout ≤ valid.
Proof.
  intros Hok. unfold fetch_token. pose proof (ts_post srv token_url "" (marshal_token_request (fs_AppID (fc_config c)) (fs_AppSecret (fc_config c))) w) as Hsub.
  destruct (http_post _ _ _ w) as [w1 [[status body]|e]] eqn:Hpost; cbn [fst] in Hsub.
  2:{ intros [= <- <- <-]. split_and!; [done|by eapply token_ok_later|done]. }
  destruct (unmarshal_token body) as [answer|e] eqn:Hu; [|intros [= <- <- <-]; split_and!; [done|by eapply token_ok_later|done]].
  destruct (Z.eqb_spec (ta_Code answer) 0) as [Hcode|]; cbn [negb]; [|intros [= <- <- <-]; split_and!; [done|by eapply token_ok_later|done]].
  destruct (ts_answer srv _ _ _ _ _ _ Hpost Hu Hcode) as (Hrange & valid & Hin & Hvalid).
  pose proof (ts_clock srv w1) as Hclock. destruct (clock w1) as [w2 now]. cbn [fst snd] in *. intros [= <- <- <-].
  assert (∃ v, (ta_Token answer, v) ∈ ts_issued srv w2 ∧ time_add now (wrap64 (wrap64 (ta_Expire answer - 60) * Second)) + http_timeout ≤ v) as Hv.
  { exists valid. split; [by apply Hclock|]. rewrite seconds_exact by done. unfold time_add, http_timeout, Second, Millisecond in *. lia. }
  split_and!; [by etrans|right; exact Hv|]. intros t [= <-]. exact Hv.
Qed.

Lemma getAccessToken_ok c w c' w' r :
  token_ok c w → get_token c w = (c', w', r) → ts_issued srv w ⊆ ts_issued srv w' ∧ token_ok c' w'.
Proof.
  intros Hok. unfold getAccessToken. destruct (str_empty _); [intros Hf; by destruct (fetch_token_ok _ _ _ _ _ Hok Hf) as (? & ? & _)|].
  pose proof (ts_clock srv w) as Hclock. destruct (clock w) as [w1 now]. cbn [fst] in Hclock.
  pose proof (token_ok_later _ _ _ Hclock Hok) as Hok1. destruct (Before _ _); [by intros [= <- <- <-]|].
  intros Hf. destruct (fetch_token_ok _ _ _ _ _ Hok1 Hf) as (? & ? & _). split; [by etrans|done].
Qed.

Lemma send_ok c msg w c' w' e : token_ok c w → send c msg w = (c', w', e) → token_ok c' w'.
Proof.
  intros Hok. unfold feishu_Send. destruct (str_empty _); [by intros [= <- <- <-]|]. unfold replyMessage.
  destruct (get_token c w) as [[c1 w1] [t|]] eqn:Hg; destruct (getAccessToken_ok _ _ _ _ _ Hok Hg) as [_ Hok1]; [|by intros [= <- <- <-]].
  pose proof (ts_post srv message_url ("Bearer " +:+ t) (marshal_message (out_ChatID msg) (out_Content msg)) w1) as Hsub.
  destruct (http_post _ _ _ w1) as [w2 [[status body]|]]; cbn [fst] in Hsub; intros [= <- <- <-]; by eapply token_ok_later.
Qed.

Fixpoint send_all (msgs : list OutboundMessage) (c : FeishuChannel) (w : W) : FeishuChannel * W :=
  match msgs with [] => (c, w) | m :: msgs => let '(c, w, _) := send c m w in send_all msgs c w end.

(** After whatever messages were sent, and whatever the calls for them answered, the token
    of the next call was issued, and is valid for more than the time limit of the call
    after the clock was read to check it, unless the server just gave it out for less. *)
Theorem token_outlives_call cfg c0 w0 msgs c w c' w' t :
  NewFeishuChannel cfg = Ok c0 → send_all msgs c0 w0 = (c, w) → get_token c w = (c', w', Ok t) →
  ∃ valid, (t, valid) ∈ ts_issued srv w'
    ∧ (c' = c ∧ (clock w).2 + http_timeout < valid ∨ fc_accessToken c' = t ∧ fc_tokenExpiry c' + http_timeout ≤ valid).
Proof.
  intros Hnew Hsend Hget. assert (token_ok c w) as Hok.
  { assert (token_ok c0 w0) as H0 by (left; unfold NewFeishuChannel in Hnew; repeat (case_match; try done); by injection Hnew as <-).
    clear Hnew Hget. revert c0 w0 H0 Hsend. induction msgs as [|m msgs IH]; intros c0 w0 H0; cbn; [by intros [= <- <-]|].
    destruct (send c0 m w0) as [[c1 w1] e] eqn:Hs. apply IH. by eapply send_ok. }
  assert (∀ w1, token_ok c w1 → fetch c w1 = (c', w', Ok t) →
    ∃ valid, (t, valid) ∈ ts_issued srv w' ∧ fc_accessToken c' = t ∧ fc_tokenExpiry c' + http_timeout ≤ valid) as Hfetch.
  { intros w1 Hok1 Hf. destruct (fetch_token_ok _ _ _ _ _ Hok1 Hf) as (_ & _ & Hv). destruct (Hv t eq_refl) as (v & ? & ?). exists v. split_and!; try done.
    unfold fetch_token in Hf. repeat (case_match; try done); by simplify_eq/=. }
  unfold getAccessToken in Hget. destruct (str_empty (fc_accessToken c)) eqn:He.
  { destruct (Hfetch w Hok Hget) as (v & ? & ? & ?). exists v. split; [done|by right]. }
  pose proof (ts_clock srv w) as Hclock. destruct (clock w) as [w1 now]. cbn [fst snd] in *.
  pose proof (token_ok_later _ _ _ Hclock Hok) as Hok1. destruct (Before now _) eqn:Hb.
  - injection Hget as <- <- <-. destruct Hok1 as [Hempty|(v & Hin & Hv)].
    { unfold str_empty in He. by rewrite bool_decide_true in He. }
    exists v. split; [done|]. left. split; [done|]. unfold Before in Hb. apply Z.ltb_lt in Hb. lia.
  - destruct (Hfetch w1 Hok1 Hget) as (v & ? & ? & ?). exists v. split; [done|by right].
Qed.
End token.

(** ** Examples *)

Section examples.
#[local] Instance same_fold : UnicodeFold := {| unicode_fold s t := bool_decide (s = t) |}.

Definition w_fs_cfg : FeishuConfig :=
  {| fs_AppID := "app"; fs_AppSecret := "secret"; fs_VerificationToken := "tok"; fs_EncryptKey := ""; fs_WebhookHost := "";
     fs_WebhookPort := 0; fs_WebhookPath := ""; fs_AllowFrom := ["bob"%string]; fs_TenantID := "" |}.
Definition w_fs : FeishuChannel :=
  {| fc_base := {| bc_name := "feishu"; bc_allowList := ["bob"%string]; bc_running := false |}; fc_config := w_fs_cfg;
     fc_tenantID := "default"; fc_accessToken := ""; fc_tokenExpiry := 0 |}.

(** A body is the token, and the event the name of its sender. *)
Definition w_envelope (body : string) : option fs_envelope :=
  Some {| fe_Challenge := ""; fe_Token := ""; fe_Type := ""; fe_Header := Some {| fh_EventType := message_event; fh_Token := body |}; fe_Event := "bob" |}.
Definition w_event (raw : string) : option fs_event :=
  Some {| ev_OpenID := raw; ev_MessageID := "m"; ev_ChatID := ""; ev_ChatType := "p2p"; ev_MessageType := "text"; ev_Content := "hi" |}.
Definition w_fs_events : list feishu_event :=
  [FRequest {| fr_post := true; fr_body := Some "tok"%string |}; FRequest {| fr_post := true; fr_body := Some "bad"%string |};
   FRequest {| fr_post := true; fr_body := Some "tok"%string |}; FProcess 1 false 5; FProcess 0 false 6].
Definition w_fs_step := feishu_step (B := list InboundMessage) w_envelope w_event Some (λ s, s).
Definition w_fs_end : feishu (B := list InboundMessage) :=
  fold_left w_fs_step w_fs_events {| fm_channel := w_fs; fm_pending := []; fm_bus := [] |}.

Lemma feishu_delivers_witness :
  fm_pending w_fs_end = [] ∧ (untimed <$> fm_bus w_fs_end) ≡ₚ omap (event_message w_event Some w_fs) (fs_events w_envelope w_fs w_fs_events).
Proof. split; [reflexivity|]. apply (feishu_delivers w_envelope w_event Some (λ s, s) w_fs w_fs_events); reflexivity. Defined.

(** A server that gives the same token out for two hours each time; the world is the time. *)
Definition w_post (url token payload : string) (w : time) : time * result goerror (Z * string) := (w + 1, Ok (200, "answer"%string)).
Definition w_clock (w : time) : time * time := (w, w).
Definition w_token (body : string) : result goerror token_answer := Ok {| ta_Code := 0; ta_Msg := ""; ta_Token := "t"; ta_Expire := 7200 |}.

Definition w_issued (w : time) : list (string * time) := (λ n : nat, ("t"%string, Z.of_nat n + 7200 * Second - http_timeout)) <$> seq 0 (S (Z.to_nat w)).

Definition w_token_server : TokenServer w_post w_clock w_token.
Proof.
  refine {| ts_issued := w_issued |}.
  - intros url token payload w. change (w_post _ _ _ w).1 with (w + 1). unfold w_issued.
    intros x (n & -> & Hn)%list_elem_of_fmap. apply list_elem_of_fmap. exists n. split; [done|]. rewrite elem_of_seq in *. lia.
  - done.
  - intros payload w w1 status body answer [= <- <- <-] [= <-] _. split; [cbn; lia|]. cbn [w_clock snd ta_Token ta_Expire]. unfold w_issued.
    exists (Z.of_nat (Z.to_nat (w + 1)) + 7200 * Second - http_timeout). split; [|lia].
    apply list_elem_of_fmap. exists (Z.to_nat (w + 1)). split; [done|]. rewrite elem_of_seq. lia.
Defined.

Definition w_out : OutboundMessage := {| out_Channel := "feishu"; out_ChatID := "c"; out_Content := "hi"; out_Media := []; out_Metadata := ∅ |}.
Definition w_fs_sent := send_all w_post w_clock w_token (λ _ s, s) (λ _ s, s) [w_out; w_out] w_fs 0.
Definition w_fs_token := getAccessToken w_post w_clock w_token (λ _ s, s) w_fs_sent.1 w_fs_sent.2.

Lemma token_example : w_fs_sent.2 = 3 ∧ fc_tokenExpiry w_fs_sent.1 = 1 + 7140 * Second ∧ w_fs_token.2 = Ok "t"%string.
Proof. by vm_compute. Qed.

Lemma token_outlives_call_witness : ∃ valid, ("t"%string, valid) ∈ w_issued w_fs_token.1.2.
Proof.
  destruct (token_outlives_call w_post w_clock w_token (λ _ s, s) (λ _ s, s) w_token_server w_fs_cfg w_fs 0 [w_out; w_out]
              w_fs_sent.1 w_fs_sent.2 w_fs_token.1.1 w_fs_token.1.2 "t") as (valid & Hin & _).
  - reflexivity.
  - apply surjective_pairing.
  - vm_compute. reflexivity.
  - exists valid. exact Hin.
Defined.
End examples.
