(* ===== verification/Discord.v ===== *)
(** [pkg/channels/discord]: the transport for Discord bots, a session with the gateway over
    a web socket and an API to send to ([discord.go], [types.go]).

    The socket, the HTTP client and the JSON codecs are parameters.  A run of the gateway is
    a list of what is read from the socket; starting and stopping is in [Lifecycle]; log
    lines are left out. *)
From stdpp Require Import pretty.
From S2P Require Import Prelude GoStrings Types Stores Channels.

Definition discord_name : string := "discord".
Definition gatewayURL : string := "wss://gateway.discord.gg/?v=10&encoding=json".
Definition apiBase : string := "https://discord.com/api/v10".
Definition opDispatch : Z := 0.
Definition opHeartbeat : Z := 1.
Definition opIdentify : Z := 2.
Definition opHello : Z := 10.
Definition defaultIntents : Z := Z.lor (Z.lor (Z.lor 1 512) 32768) 4096.
Definition reconnectDelay : duration := 5 * Second.

Record DiscordConfig := { dc_Token : string; dc_AllowFrom : list string; dc_TenantID : string; dc_GuildID : string }.

Record gatewayPayload := { gp_Op : Z; gp_D : string; gp_S : option Z; gp_T : string }.
Record identifyPayload := { ip_Token : string; ip_Intents : Z; ip_Properties : list (string * string) }.
Record helloPayload := { hp_HeartbeatInterval : Z }.
Record discordUser := { du_ID : string; du_Username : string; du_Bot : bool }.
Record discordMessage := { dm_ID : string; dm_ChannelID : string; dm_GuildID : string; dm_Author : discordUser; dm_Content : string }.

Record DiscordChannel := { dn_base : BaseChannel; dn_config : DiscordConfig; dn_tenantID : string; dn_seq : option Z }.

Definition NewDiscordChannel (cfg : DiscordConfig) : result goerror DiscordChannel :=
  if str_empty (dc_Token cfg) then Err (ErrText "discord: token is required")
  else
    Ok {| dn_base := {| bc_name := discord_name; bc_allowList := dc_AllowFrom cfg; bc_running := false |}; dn_config := cfg;
          dn_tenantID := if str_empty (dc_TenantID cfg) then DefaultTenantID else dc_TenantID cfg; dn_seq := None |}.

Definition with_seq (n : option Z) (c : DiscordChannel) : DiscordChannel :=
  {| dn_base := dn_base c; dn_config := dn_config c; dn_tenantID := dn_tenantID c; dn_seq := n |}.

(** The socket: connecting to an address, reading and writing payloads, closing. *)
Class Gateway (W : Type) := {
  gw_dial : string → W → W * option goerror;
  gw_read : W → W * result goerror gatewayPayload;
  gw_write : gatewayPayload → W → W * option goerror;
  gw_close : W → W;
}.

Section discord.
Context `{UnicodeFold} {B : Type} `{InboundBus B}.
Context (unmarshal_message : string → result goerror discordMessage) (unmarshal_hello : string → helloPayload).
Context (marshal_identify : identifyPayload → string) (marshal_seq : Z → string).

(** ** Receiving *)

Definition discord_metadata (msg : discordMessage) : gmap string string :=
  let m : gmap string string :=
    <["platform" := "discord"]> (<["message_id" := dm_ID msg]> {["username" := du_Username (dm_Author msg)]}) in
  if str_empty (dm_GuildID msg) then m else <["guild_id" := dm_GuildID msg]> m.

Definition processMessage (c : DiscordChannel) (msg : discordMessage) (now : time) (b : B) : B :=
  if du_Bot (dm_Author msg) then b
  else if negb (str_empty (dc_GuildID (dn_config c))) && negb (bool_decide (dm_GuildID msg = dc_GuildID (dn_config c))) then b
  else
    let senderID := du_ID (dm_Author msg) in
    (HandleMessage (dn_base c) (dn_tenantID c) senderID senderID (dm_ChannelID msg) (dm_Content msg) [] (discord_metadata msg) now b).1.

Definition store_seq (p : gatewayPayload) (c : DiscordChannel) : DiscordChannel :=
  match gp_S p with Some n => with_seq (Some n) c | None => c end.

(** The payload of an event. *)
Definition on_event (p : gatewayPayload) (now : time) (c : DiscordChannel) (b : B) : DiscordChannel * B :=
  let c := store_seq p c in
  if negb (gp_Op p =? opDispatch) then (c, b)
  else if bool_decide (gp_T p = "MESSAGE_CREATE"%string) then
    match unmarshal_message (gp_D p) with
    | Err _ => (c, b)
    | Ok msg => (c, processMessage c msg now b)
    end
  else (c, b).

(** [heartbeatLoop]: what is written at a tick. *)
Definition heartbeat (c : DiscordChannel) : gatewayPayload :=
  {| gp_Op := opHeartbeat; gp_D := match dn_seq c with Some n => marshal_seq n | None => "" end; gp_S := None; gp_T := "" |}.

Definition identify (c : DiscordChannel) : gatewayPayload :=
  {| gp_Op := opIdentify;
     gp_D := marshal_identify {| ip_Token := dc_Token (dn_config c); ip_Intents := defaultIntents;
                                 ip_Properties := [("os", "linux"); ("browser", "abot"); ("device", "abot")]%string |};
     gp_S := None; gp_T := "" |}.

Context {W : Type} `{Gateway W}.

(** What happens while events are read, which two goroutines do: an event is read at some
    time, with the context cancelled or not, or the ticker of the heartbeats fires. *)
Inductive tick := TRead (cancelled : bool) (now : time) | TBeat.

(** The loops [readEvents] and [heartbeatLoop], [beating] while the latter runs; the answer
    of the first once it has ended. *)
Fixpoint session (ts : list tick) (beating : bool) (c : DiscordChannel) (b : B) (w : W) : DiscordChannel * B * W * option (option goerror) :=
  match ts with
  | [] => (c, b, w, None)
  | TRead true _ :: _ => (c, b, w, Some None)
  | TRead false now :: ts =>
      match gw_read w with
      | (w, Err e) => (c, b, w, Some (Some e))
      | (w, Ok p) => let '(c, b) := on_event p now c b in session ts beating c b w
      end
  | TBeat :: ts =>
      if beating then
        match gw_write (heartbeat c) w with
        | (w, Some _) => session ts false c b w
        | (w, None) => session ts true c b w
        end
      else session ts beating c b w
  end.

(** [runGateway]; [None] when the ticker panics, as its interval is not positive. *)
Definition runGateway (ts : list tick) (c : DiscordChannel) (b : B) (w : W)
    : option (DiscordChannel * B * W * option (option goerror)) :=
  match gw_dial gatewayURL w with
  | (w, Some e) => Some (c, b, w, Some (Some e))
  | (w, None) =>
      match gw_read w with
      | (w, Err e) => Some (c, b, gw_close w, Some (Some e))
      | (w, Ok hello) =>
          if negb (gp_Op hello =? opHello)
          then Some (c, b, gw_close w, Some (Some (ErrText ("expected hello, got op=" +:+ pretty (gp_Op hello)))))
          else
            match gw_write (identify c) w with
            | (w, Some e) => Some (c, b, gw_close w, Some (Some e))
            | (w, None) =>
                if wrap64 (hp_HeartbeatInterval (unmarshal_hello (gp_D hello)) * Millisecond) <=? 0 then None
                else
                  match session ts true c b w with
                  | (c, b, w, None) => Some (c, b, w, None)
                  | (c, b, w, answer) => Some (c, b, gw_close w, answer)
                  end
            end
      end
  end.

(** [gatewayLoop]: for each session whether the context was cancelled before it and after
    it; [time.Sleep] between two sessions takes the delay. *)
Fixpoint gatewayLoop (runs : list (bool * list tick * bool)) (c : DiscordChannel) (b : B) (w : W) : option (DiscordChannel * B * W) :=
  match runs with
  | [] | (true, _, _) :: _ => Some (c, b, w)
  | (false, ts, cancelled) :: runs =>
      match runGateway ts c b w with
      | None => None
      | Some (c, b, w, None) => Some (c, b, w)
      | Some (c, b, w, Some None) => gatewayLoop runs c b w
      | Some (c, b, w, Some (Some _)) => if cancelled then Some (c, b, w) else gatewayLoop runs c b w
      end
  end.

(** ** Sending *)

(** [DefaultHTTPClient]: an address, the header with the token and a body; the status and,
    as far as it can be read, the text of the answer. *)
Context {V : Type} (http_post : string → string → string → V → V * result goerror (Z * string)) (marshal_body : string → string).

Definition discord_sendMessage (c : DiscordChannel) (channelID text : string) (w : V) : V * option goerror :=
  match http_post (apiBase +:+ "/channels/" +:+ channelID +:+ "/messages") ("Bot " +:+ dc_Token (dn_config c)) (marshal_body text) w with
  | (w, Err e) => (w, Some e)
  | (w, Ok (status, body)) =>
      (w, if 400 <=? status then Some (ErrText ("discord: API error " +:+ pretty status +:+ ": " +:+ body)) else None)
  end.

Definition discord_Send (c : DiscordChannel) (msg : OutboundMessage) (w : V) : V * option goerror :=
  if str_empty (out_Content msg) then (w, None) else discord_sendMessage c (out_ChatID msg) (out_Content msg) w.
End discord.

#[local] Existing Instance log_bus.

(** ** What reaches the bus *)

Section delivers.
Context `{UnicodeFold}.
Context (unmarshal_message : string → result goerror discordMessage) (unmarshal_hello : string → helloPayload).
Context (marshal_identify : identifyPayload → string) (marshal_seq : Z → string).
Context {W : Type} `{Gateway W}.

(** What was read in each session, the newest session first. *)
Record GatewayLog := {
  gl_seen : W → list (list gatewayPayload);
  gl_dial url w : gl_seen (gw_dial url w).1 = match (gw_dial url w).2 with None => [] :: gl_seen w | Some _ => gl_seen w end;
  gl_read w : gl_seen (gw_read w).1 = match (gw_read w).2, gl_seen w with Ok p, s :: ss => (s ++ [p]) :: ss | _, ss => ss end;
  gl_write p w : gl_seen (gw_write p w).1 = gl_seen w;
  gl_close w : gl_seen (gw_close w) = gl_seen w;
}.

(** The message of an event, its time aside. *)
Definition event_message (c : DiscordChannel) (p : gatewayPayload) : option InboundMessage :=
  if (gp_Op p =? opDispatch) && bool_decide (gp_T p = "MESSAGE_CREATE"%string) then
    match unmarshal_message (gp_D p) with
    | Err _ => None
    | Ok msg =>
        let sender := du_ID (dm_Author msg) in
        let guild := dc_GuildID (dn_config c) in
        if negb (du_Bot (dm_Author msg)) && (bool_decide (guild = ""%string) || bool_decide (dm_GuildID msg = guild))
           && bc_IsAllowed (dn_base c) sender
        then Some (inbound_of (dn_base c) (dn_tenantID c) sender sender (dm_ChannelID msg) (dm_Content msg) [] (discord_metadata msg) time_zero)
        else None
    end
  else None.

Context (gl : GatewayLog) (c0 : DiscordChannel).

(** What was read after the first payload of each session. *)
Definition events (w : W) : list gatewayPayload := concat (reverse (tail <$> gl_seen gl w)).

Definition up_to_date (c : DiscordChannel) (b : list InboundMessage) (l : list gatewayPayload) : Prop :=
  c = with_seq (dn_seq c) c0 ∧ untimed <$> b = omap (event_message c0) l ∧ dn_seq c = last (omap gp_S l).

Lemma on_event_up_to_date p now c b l :
  up_to_date c b l →
  up_to_date (on_event unmarshal_message p now c b).1 (on_event unmarshal_message p now c b).2 (l ++ [p]).
Proof.
  intros (Hc & Hb & Hs).
  assert (∀ b', untimed <$> b' = (untimed <$> b) ++ option_list (event_message c0 p) → up_to_date (store_seq p c) b' (l ++ [p])) as Hnext.
  { intros b' Hb'. split_and!.
    - rewrite Hc. unfold store_seq. by destruct (gp_S p).
    - rewrite omap_app, Hb', Hb. cbn. by destruct (event_message c0 p).
    - rewrite omap_app. unfold store_seq. cbn. destruct (gp_S p); cbn; [by rewrite last_snoc|by rewrite app_nil_r]. }
  assert (dn_base (store_seq p c) = dn_base c0 ∧ dn_config (store_seq p c) = dn_config c0 ∧ dn_tenantID (store_seq p c) = dn_tenantID c0) as (Hbase & Hcfg & Hten).
  { rewrite Hc. unfold store_seq. by destruct (gp_S p). }
  unfold on_event. revert Hnext. unfold event_message.
  destruct (gp_Op p =? opDispatch); cbn; [|intros Hn; apply Hn; by rewrite app_nil_r].
  destruct (bool_decide _); cbn; [|intros Hn; apply Hn; by rewrite app_nil_r].
  destruct (unmarshal_message (gp_D p)) as [msg|]; cbn; [|intros Hn; apply Hn; by rewrite app_nil_r].
  intros Hn. apply Hn. unfold processMessage, str_empty. rewrite Hbase, Hcfg, Hten.
  destruct (du_Bot _); cbn; [by rewrite app_nil_r|].
  destruct (bool_decide (dc_GuildID _ = _)), (bool_decide (dm_GuildID msg = _)); cbn; try (by rewrite app_nil_r);
    unfold HandleMessage; destruct (bc_IsAllowed _ _); cbn; (by rewrite fmap_app || by rewrite app_nil_r).
Qed.

Lemma events_in w h s ss : gl_seen gl w = (h :: s) :: ss → events w = concat (reverse (tail <$> ss)) ++ s.
Proof. intros Hs. unfold events. rewrite Hs, fmap_cons, reverse_cons, concat_app. cbn. by rewrite app_nil_r. Qed.

Lemma session_up_to_date ts beating c b w c' b' w' r :
  up_to_date c b (events w) → (∃ h s ss, gl_seen gl w = (h :: s) :: ss) →
  session unmarshal_message marshal_seq ts beating c b w = (c', b', w', r) → up_to_date c' b' (events w').
Proof.
  revert beating c b w. induction ts as [|[[|] now|] ts IH]; intros beating c b w Hu Hopen; cbn [session];
    [by intros [= <- <- <- <-]|by intros [= <- <- <- <-]|..].
  - destruct Hopen as (h & s & ss & Hseen). pose proof (gl_read gl w) as Hread.
    destruct (gw_read w) as [w1 [p|e]]; cbn [fst snd] in Hread; rewrite Hseen in Hread.
    2:{ intros [= <- <- <- <-]. by rewrite (events_in w1 _ _ _ Hread), <- (events_in w _ _ _ Hseen). }
    pose proof (on_event_up_to_date p now c b _ Hu) as Hu'. destruct (on_event _ p now c b) as [c1 b1]. apply IH.
    + rewrite (events_in w1 h (s ++ [p]) ss Hread), app_assoc, <- (events_in w _ _ _ Hseen). exact Hu'.
    + by exists h, (s ++ [p]), ss.
  - destruct beating; [|by apply IH]. pose proof (gl_write gl (heartbeat marshal_seq c) w) as Hwrite.
    assert (events (gw_write (heartbeat marshal_seq c) w).1 = events w) as Hev by (unfold events; by rewrite Hwrite).
    destruct (gw_write _ w) as [w1 [e|]]; cbn [fst] in *; apply IH; rewrite ?Hev, ?Hwrite; done.
Qed.

Lemma runGateway_up_to_date ts c b w c' b' w' r :
  up_to_date c b (events w) → runGateway unmarshal_message unmarshal_hello marshal_identify marshal_seq ts c b w = Some (c', b', w', r) →
  up_to_date c' b' (events w').
Proof.
  intros Hu. unfold runGateway. pose proof (gl_dial gl gatewayURL w) as Hdial.
  destruct (gw_dial _ w) as [w1 [e|]]; cbn [fst snd] in Hdial.
  { intros [= <- <- <- <-]. unfold events. by rewrite Hdial. }
  assert (events w1 = events w) as Hev1.
  { unfold events. rewrite Hdial, fmap_cons, reverse_cons, concat_app. cbn. by rewrite app_nil_r. }
  pose proof (gl_read gl w1) as Hread. rewrite Hdial in Hread.
  destruct (gw_read w1) as [w2 [hello|e]]; cbn [fst snd app] in Hread.
  2:{ intros [= <- <- <- <-]. unfold events. rewrite gl_close, Hread, <- Hdial. fold (events w1). by rewrite Hev1. }
  assert (events w2 = events w) as Hev2.
  { unfold events. rewrite Hread, fmap_cons, reverse_cons, concat_app. cbn. by rewrite app_nil_r. }
  destruct (negb _); [intros [= <- <- <- <-]; unfold events; rewrite gl_close; fold (events w2); by rewrite Hev2|].
  pose proof (gl_write gl (identify marshal_identify c) w2) as Hwrite.
  assert (events (gw_write (identify marshal_identify c) w2).1 = events w) as Hev3 by (unfold events; rewrite Hwrite; exact Hev2).
  destruct (gw_write _ w2) as [w3 [e|]]; cbn [fst] in *.
  { intros [= <- <- <- <-]. unfold events. rewrite gl_close. fold (events w3). by rewrite Hev3. }
  destruct (_ <=? 0); [done|]. destruct (session _ _ ts true c b w3) as [[[c4 b4] w4] r4] eqn:Hs.
  apply session_up_to_date in Hs; [|by rewrite Hev3|exists hello, [], (gl_seen gl w); by rewrite Hwrite, Hread].
  destruct r4; intros [= <- <- <- <-]; [|done]. unfold events. rewrite gl_close. exact Hs.
Qed.
End delivers.

(** However often the gateway is lost and connected to again, the bus was given the
    messages that were read from it, each of them once and in their order: those of persons
    who are allowed, no bots, and of the guild if one is configured.  The sequence number
    of the heartbeats is the last one that was read. *)
Theorem discord_delivers `{UnicodeFold} {W} `{Gateway W} unmarshal_message unmarshal_hello marshal_identify marshal_seq
    (gl : GatewayLog (W := W)) cfg c0 w0 runs c b w :
  NewDiscordChannel cfg = Ok c0 → gl_seen gl w0 = [] →
  gatewayLoop unmarshal_message unmarshal_hello marshal_identify marshal_seq runs c0 [] w0 = Some (c, b, w) →
  untimed <$> b = omap (event_message unmarshal_message c0) (events gl w)
  ∧ heartbeat marshal_seq c
    = {| gp_Op := opHeartbeat; gp_D := from_option marshal_seq "" (last (omap gp_S (events gl w))); gp_S := None; gp_T := "" |}.
Proof.
  intros Hnew Hstart Hrun.
  assert (up_to_date unmarshal_message c0 c0 [] (events gl w0)) as Hu.
  { unfold events. rewrite Hstart. unfold NewDiscordChannel in Hnew. case_match; [done|]. by injection Hnew as <-. }
  enough (up_to_date unmarshal_message c0 c b (events gl w)) as (_ & Hb & Hs).
  { split; [exact Hb|]. unfold heartbeat. rewrite Hs. by destruct (last _). }
  clear Hstart Hnew. revert Hu Hrun. generalize c0 at 2 3 as c1. generalize (@nil InboundMessage) as b1. revert w0.
  induction runs as [|[[[|] ts] cancelled] runs IH]; intros w1 b1 c1 Hu; cbn [gatewayLoop]; [by intros [= <- <- <-]..|].
  destruct (runGateway _ _ _ _ ts c1 b1 w1) as [[[[c2 b2] w2] r]|] eqn:Hr; [|done].
  apply (runGateway_up_to_date _ _ _ _ gl c0) in Hr; [|done].
  destruct r as [[e|]|]; [destruct cancelled; [by intros [= <- <- <-]|by apply IH]|by apply IH|by intros [= <- <- <-]].
Qed.

(** A gateway that asks for heartbeats without a pause makes the program end. *)
Lemma zero_interval_panics `{UnicodeFold} `{InboundBus B} {W} `{Gateway W} um uh mi ms ts c (b : B) w w1 w2 w3 hello :
  gw_dial gatewayURL w = (w1, None) → gw_read w1 = (w2, Ok hello) → gp_Op hello = opHello → uh (gp_D hello) = {| hp_HeartbeatInterval := 0 |} →
  gw_write (identify mi c) w2 = (w3, None) →
  runGateway um uh mi ms ts c b w = None.
Proof. intros Hd Hr Ho Hh Hw. unfold runGateway. by rewrite Hd, Hr, Ho, Hw, Hh. Qed.

(** ** Examples *)

Section examples.
#[local] Instance same_fold : UnicodeFold := {| unicode_fold s t := bool_decide (s = t) |}.

(** A socket that reads what is left of a script, with what was read so far. *)
Definition socket : Type := list gatewayPayload * list (list gatewayPayload).
#[local] Instance w_socket : Gateway socket := {|
  gw_dial _ '(l, seen) := ((l, [] :: seen), None);
  gw_read '(l, seen) := match l, seen with
                        | p :: l, s :: ss => ((l, (s ++ [p]) :: ss), Ok p)
                        | p :: l, [] => ((l, []), Ok p)
                        | [], _ => (([], seen), Err (ErrText "EOF"))
                        end;
  gw_write _ w := (w, None);
  gw_close w := w;
|}.
Definition w_gl : GatewayLog (W := socket).
Proof.
  refine {| gl_seen w := w.2 |}; [by intros ? []| |done|done].
  intros [[|p l] [|s ss]]; done.
Defined.

Definition w_dc_cfg : DiscordConfig := {| dc_Token := "tok"; dc_AllowFrom := []; dc_TenantID := ""; dc_GuildID := "g" |}.
Definition w_dc : DiscordChannel :=
  {| dn_base := {| bc_name := "discord"; bc_allowList := []; bc_running := false |}; dn_config := w_dc_cfg; dn_tenantID := "default"; dn_seq := None |}.
(** A payload is the text of a message in the guild. *)
Definition w_dc_message (s : string) : result goerror discordMessage :=
  Ok {| dm_ID := "i"; dm_ChannelID := "c"; dm_GuildID := "g"; dm_Author := {| du_ID := "u"; du_Username := "n"; du_Bot := false |}; dm_Content := s |}.
Definition w_hello : gatewayPayload := {| gp_Op := 10; gp_D := ""; gp_S := None; gp_T := "" |}.
Definition w_create (n : Z) (s : string) : gatewayPayload := {| gp_Op := 0; gp_D := s; gp_S := Some n; gp_T := "MESSAGE_CREATE" |}.
Definition w_script : list gatewayPayload := [w_hello; w_create 1 "one"; w_hello; w_create 2 "two"].
Definition w_runs : list (bool * list tick * bool) :=
  [(false, [TRead false 5; TBeat; TRead true 6], false); (false, [TRead false 7; TRead false 8], false)].
Definition w_gateway := gatewayLoop (H0 := log_bus) w_dc_message (λ _, {| hp_HeartbeatInterval := 41250 |}) ip_Token pretty w_runs w_dc [] (w_script, []).
Definition w_end : DiscordChannel * list InboundMessage * socket := default (w_dc, [], (w_script, [])) w_gateway.

Lemma discord_delivers_witness :
  in_Content <$> w_end.1.2 = ["one"; "two"]%string
  ∧ untimed <$> w_end.1.2 = omap (event_message w_dc_message w_dc) (events w_gl w_end.2).
Proof.
  split; [reflexivity|].
  apply (discord_delivers w_dc_message (λ _, {| hp_HeartbeatInterval := 41250 |}) ip_Token pretty w_gl w_dc_cfg w_dc (w_script, []) w_runs
           w_end.1.1 w_end.1.2 w_end.2); reflexivity.
Defined.
End examples.
