(* ===== verification/Cli.v ===== *)
(** [pkg/channels/cli/cli.go]: the transport that reads lines from an input and writes
    texts to an output.

    The input is what is left to be read, with an end; it is read a line at a time with one
    step of fuel for each, so a byte more than it has is enough ([read_fuel]). *)
From S2P Require Import Prelude GoStrings Types Channels.

Definition cli_name : string := "cli".
Definition DefaultChatID : string := "direct".
Definition DefaultUser : string := "user".

Definition nl : ascii := "010".
Definition cr : ascii := "013".

(** [statusProvider], if there is one: its text at some time. *)
Record CLIChannel := {
  cl_base : BaseChannel; cl_tenantID : string; cl_userID : string; cl_noMarkdown : bool; cl_status : option (time → string);
}.

Inductive Option := WithNoMarkdown (v : bool) | WithStatusProvider (f : time → string).

Definition apply_option (c : CLIChannel) (o : Option) : CLIChannel :=
  match o with
  | WithNoMarkdown v =>
      {| cl_base := cl_base c; cl_tenantID := cl_tenantID c; cl_userID := cl_userID c; cl_noMarkdown := v; cl_status := cl_status c |}
  | WithStatusProvider f =>
      {| cl_base := cl_base c; cl_tenantID := cl_tenantID c; cl_userID := cl_userID c; cl_noMarkdown := cl_noMarkdown c; cl_status := Some f |}
  end.

Definition NewCLI (tenantID userID : string) (opts : list Option) : CLIChannel :=
  fold_left apply_option opts
    {| cl_base := {| bc_name := cli_name; bc_allowList := []; bc_running := false |}; cl_tenantID := tenantID; cl_userID := userID;
       cl_noMarkdown := false; cl_status := None |}.

Definition with_running (v : bool) (c : CLIChannel) : CLIChannel :=
  {| cl_base := {| bc_name := bc_name (cl_base c); bc_allowList := bc_allowList (cl_base c); bc_running := v |};
     cl_tenantID := cl_tenantID c; cl_userID := cl_userID c; cl_noMarkdown := cl_noMarkdown c; cl_status := cl_status c |}.

(** ** Lines *)

Definition is_line_end (c : ascii) : bool := Ascii.eqb c nl || Ascii.eqb c cr.
Definition trimLine (s : string) : string := l2s (drop_while_end is_line_end (s2l s)).

Definition helpText : string :=
  join ["commands:"; "  /new          reset session"; "  /status       show system status"; "  /help         show this help";
        "  /show model   show current model"; "  /show channel show current channel"; "  exit, quit    exit the CLI"] lf.

Definition is_exit (line : string) : bool := bool_decide (line = "exit"%string) || bool_decide (line = "quit"%string).

(** The response to a command and the channel after it. *)
Definition handleCommand (c : CLIChannel) (input : string) (now : time) : option (CLIChannel * string) :=
  if is_exit input then Some (with_running false c, "bye"%string)
  else if bool_decide (input = "/new"%string) then Some (c, "session reset"%string)
  else if bool_decide (input = "/help"%string) then Some (c, helpText)
  else if bool_decide (input = "/show model"%string) then Some (c, "model: (configured at bootstrap)"%string)
  else if bool_decide (input = "/show channel"%string) then Some (c, "channel: " +:+ bc_name (cl_base c))
  else if bool_decide (input = "/status"%string) then
    Some (c, match cl_status c with Some f => f now | None => "status: running"%string end)
  else None.

Section cli.
Context `{UnicodeFold} {B : Type} `{InboundBus B}.

(** The channel, the bus and what was written. *)
Definition cli_state : Type := CLIChannel * B * string.

Definition processLine (line : string) (now : time) (s : cli_state) : cli_state :=
  let '(c, b, out) := s in
  match handleCommand c line now with
  | Some (c, resp) => (c, b, if str_empty resp then out else out +:+ resp +:+ lf)
  | None => (c, (HandleMessage (cl_base c) (cl_tenantID c) (cl_userID c) DefaultUser DefaultChatID line [] ∅ now b).1, out)
  end.

(** [ReadString]: a line with its end, what is left, and whether the input ended. *)
Definition ReadString (l : bytes) : bytes * bytes * bool :=
  match cut_bytes nl l with Some (a, rest) => (a ++ [nl], rest, false) | None => (l, [], true) end.

Fixpoint readLoop (fuel : nat) (nows : nat → time) (l : bytes) (s : cli_state) : option cli_state :=
  match fuel with
  | O => None
  | S fuel =>
      if negb (bc_running (cl_base s.1.1)) then Some s
      else
        let '(raw, rest, ended) := ReadString l in
        let line := trimLine (l2s raw) in
        let s := if str_empty line then s else processLine line (nows (length l)) s in
        if ended then Some s else readLoop fuel nows rest s
  end.
End cli.

(** ** Plain text *)

Definition fence : string := l2s (replicate 3 "096"%char).
Definition backtick : string := l2s ["096"%char].

Definition is_space_byte (c : ascii) : bool := Ascii.eqb c " ".

Definition clean_line (line : string) : string :=
  let cleaned :=
    if negb (str_empty (trim_space line)) && has_prefix line "#" then
      let from := match index line " " with Some i => S i | None => 0%nat end in
      l2s (drop_while is_space_byte (drop from (s2l line)))
    else line in
  let cleaned := replace_all cleaned "**" "" in
  let cleaned := replace_all cleaned "__" "" in
  let cleaned := replace_all cleaned "*" "" in
  let cleaned := replace_all cleaned "_" "" in
  replace_all cleaned backtick "".

Fixpoint strip_lines (i : nat) (inCodeBlock : bool) (lines : list string) : string :=
  match lines with
  | [] => ""
  | line :: lines =>
      if has_prefix line fence then strip_lines (S i) (negb inCodeBlock) lines
      else (if (0 <? i)%nat then lf else "") +:+ (if inCodeBlock then line else clean_line line) +:+ strip_lines (S i) inCodeBlock lines
  end.

Definition stripMarkdown (s : string) : string := strip_lines 0 false (split s nl).

(** What [Send] writes. *)
Definition cli_Send (c : CLIChannel) (msg : OutboundMessage) : string :=
  let text := out_Content msg in
  if str_empty text then ""
  else (if cl_noMarkdown c then stripMarkdown text else text) +:+ lf.

(** ** Reading: the lines *)

Section reads.
Context `{UnicodeFold}.
#[local] Existing Instance log_bus.

Fixpoint until_exit (lines : list string) : list string :=
  match lines with [] => [] | line :: lines => if is_exit line then [] else line :: until_exit lines end.

Definition is_command (c : CLIChannel) (line : string) : bool := bool_decide (is_Some (handleCommand c line 0)).

(** The lines that are messages: those before the end that are neither empty nor commands. *)
Definition cli_messages (c : CLIChannel) (input : string) : list string :=
  filter (λ line, negb (str_empty line) && negb (is_command c line) = true) (until_exit (trimLine <$> split input nl)).

Lemma split_cut sep cur l :
  split_bytes sep cur l = match cut_bytes sep l with
                          | Some (a, b) => (reverse cur ++ a) :: split_bytes sep [] b
                          | None => [reverse cur ++ l]
                          end.
Proof.
  revert cur. induction l as [|c l IH]; intros cur; cbn; [by rewrite app_nil_r|].
  destruct (Ascii.eqb c sep); [by rewrite app_nil_r|]. rewrite IH, reverse_cons.
  destruct (cut_bytes sep l) as [[a b]|]; by rewrite <- app_assoc.
Qed.

Lemma trimLine_end a : trimLine (l2s (a ++ [nl])) = trimLine (l2s a).
Proof. unfold trimLine. rewrite !s2l_l2s. unfold drop_while_end. by rewrite reverse_app. Qed.

Lemma is_command_same c line now : is_command c line = true ↔ is_Some (handleCommand c line now).
Proof.
  unfold is_command. rewrite bool_decide_eq_true. unfold handleCommand.
  repeat (case_match; [done|]). done.
Qed.

(** The message of a line, its time aside. *)
Definition line_message (c : CLIChannel) (line : string) : InboundMessage :=
  inbound_of (cl_base c) (cl_tenantID c) (cl_userID c) DefaultUser DefaultChatID line [] ∅ time_zero.

(** A line that is no end of the session: the channel stays as it is. *)
Lemma processLine_spec c b out line now :
  bc_allowList (cl_base c) = [] → is_exit line = false →
  ∃ b' out', processLine (B := list InboundMessage) line now (c, b, out) = (c, b', out')
    ∧ untimed <$> b' = (untimed <$> b) ++ if is_command c line then [] else [line_message c line].
Proof.
  intros Hal Hexit. unfold processLine. destruct (handleCommand c line now) as [[c' resp]|] eqn:Hc.
  - assert (c' = c) as -> by (unfold handleCommand in Hc; rewrite Hexit in Hc; repeat (case_match; [congruence|]); congruence).
    rewrite (proj2 (is_command_same c line now)) by (rewrite Hc; by eexists).
    eexists b, _. split; [reflexivity|]. by rewrite app_nil_r.
  - assert (is_command c line = false) as ->.
    { apply not_true_is_false. intros Hx. apply (is_command_same c line now) in Hx as [? Hx]. congruence. }
    unfold HandleMessage, bc_IsAllowed. rewrite Hal. cbn. eexists _, out. split; [reflexivity|]. by rewrite fmap_app.
Qed.

Lemma processLine_exit c b out line now :
  is_exit line = true → ∃ out', processLine (B := list InboundMessage) line now (c, b, out) = (with_running false c, b, out').
Proof. intros Hexit. unfold processLine, handleCommand. rewrite Hexit. by eexists. Qed.

Definition messages_of (c : CLIChannel) (lines : list string) : list InboundMessage :=
  line_message c <$> filter (λ line, negb (str_empty line) && negb (is_command c line) = true) (until_exit lines).

(** The rest of the input, when a line has been read. *)
Lemma split_ReadString l :
  let '(raw, rest, ended) := ReadString l in
  trimLine <$> split (l2s l) nl = trimLine (l2s raw) :: if ended then [] else trimLine <$> split (l2s rest) nl.
Proof.
  unfold ReadString, split. rewrite s2l_l2s, split_cut. destruct (cut_bytes nl l) as [[a rest]|]; [|done].
  rewrite s2l_l2s, fmap_cons, fmap_cons, trimLine_end. done.
Qed.

Lemma ReadString_shorter l raw rest : ReadString l = (raw, rest, false) → (length rest < length l)%nat.
Proof.
  unfold ReadString. destruct (cut_bytes nl l) as [[a r]|] eqn:Hc; [|done]. intros [= _ <-].
  apply cut_bytes_Some in Hc as [-> _]. rewrite length_app. cbn. lia.
Qed.

Lemma readLoop_spec fuel nows l c b out :
  (length l < fuel)%nat → bc_running (cl_base c) = true → bc_allowList (cl_base c) = [] →
  ∃ c' b' out', readLoop fuel nows l (c, b, out) = Some (c', b', out')
    ∧ untimed <$> b' = (untimed <$> b) ++ messages_of c (trimLine <$> split (l2s l) nl).
Proof.
  revert l b out. induction fuel as [|fuel IH]; intros l b out Hfuel Hrun Hal; [lia|]. cbn [readLoop fst]. rewrite Hrun. cbn [negb].
  pose proof (split_ReadString l) as Hsplit. destruct (ReadString l) as [[raw rest] ended] eqn:Hread. rewrite Hsplit. cbv beta iota zeta.
  set (line := trimLine (l2s raw)). set (more := if ended then [] else trimLine <$> split (l2s rest) nl).
  assert (∀ b1 out1, ∃ c' b' out', (if ended then Some (c, b1, out1) else readLoop fuel nows rest (c, b1, out1)) = Some (c', b', out')
           ∧ untimed <$> b' = (untimed <$> b1) ++ messages_of c more) as Hnext.
  { intros b1 out1. subst more. destruct ended; [exists c, b1, out1; by rewrite app_nil_r|].
    apply IH; [apply ReadString_shorter in Hread; lia|done..]. }
  destruct (str_empty line) eqn:Hempty.
  { destruct (Hnext b out) as (c' & b' & out' & Hrest & Hb'). exists c', b', out'. split; [exact Hrest|].
    unfold messages_of in *. cbn [until_exit]. unfold str_empty in Hempty. apply bool_decide_eq_true in Hempty. by rewrite Hempty. }
  destruct (is_exit line) eqn:Hexit.
  { destruct (processLine_exit c b out line (nows (length l)) Hexit) as (out1 & ->).
    exists (with_running false c), b, out1. unfold messages_of. cbn [until_exit]. rewrite Hexit. cbn [filter list_filter fmap list_fmap].
    rewrite app_nil_r. split; [|done]. destruct ended; [done|]. destruct fuel; [|done]. exfalso. apply ReadString_shorter in Hread. lia. }
  destruct (processLine_spec c b out line (nows (length l)) Hal Hexit) as (b1 & out1 & -> & Hb1).
  destruct (Hnext b1 out1) as (c' & b' & out' & Hrest & Hb'). exists c', b', out'. split; [exact Hrest|].
  rewrite Hb', Hb1, <- app_assoc. f_equal. unfold messages_of. cbn [until_exit]. rewrite Hexit, filter_cons, Hempty. cbn [negb andb].
  by destruct (is_command c line).
Qed.

(** The loop ends, and the bus was given the lines of the input, each as a message in
    the name of the configured account: those before the first [exit] or [quit] that are
    neither empty nor commands, in their order. *)
Theorem cli_reads tenantID userID opts nows input out (c := with_running true (NewCLI tenantID userID opts)) :
  ∃ c' b out', readLoop (S (str_len input)) nows (s2l input) (c, [], out) = Some (c', b, out')
    ∧ untimed <$> b = line_message c <$> cli_messages c input.
Proof.
  assert (bc_allowList (cl_base c) = []) as Hal.
  { unfold c, NewCLI. cbn [cl_base with_running bc_allowList]. 
    set (c1 := {| cl_base := _ |}). assert (bc_allowList (cl_base c1) = []) as H1 by done. revert H1. generalize c1.
    induction opts as [|[v|f] opts IH]; intros c2 H2; [done|..]; by apply IH. }
  destruct (readLoop_spec (S (str_len input)) nows (s2l input) c [] out) as (c' & b & out' & Hrun & Hb); [unfold str_len; lia|done|done|].
  exists c', b, out'. split; [exact Hrun|]. rewrite Hb, l2s_s2l. done.
Qed.
End reads.

(** ** Plain text *)

Lemma replace_none_sub skip old l : replace_from skip old [] l ⊆ l.
Proof.
  revert skip. induction l as [|c l IH]; intros skip; cbn [replace_from]; [done|].
  destruct skip as [|skip]; [|intros x Hx; right; by eapply IH].
  destruct (strip_prefix old (c :: l)); cbn [app]; intros x Hx; [right; by eapply IH|].
  apply elem_of_cons in Hx as [->|Hx]; [by left|right; by eapply IH].
Qed.

Lemma replace_byte_gone c l : c ∉ replace_from 0 [c] [] l.
Proof.
  rewrite replace_from_byte. induction l as [|x l IH]; cbn; [apply not_elem_of_nil|].
  destruct (Ascii.eqb_spec x c) as [->|Hne]; [done|]. cbn. intros [->|Hin]%elem_of_cons; [done|by apply IH].
Qed.

Lemma replace_absent c p new l : c ∉ l → replace_from 0 (c :: p) new l = l.
Proof.
  induction l as [|x l IH]; cbn [replace_from strip_prefix]; [done|]. intros [Hx Hl]%not_elem_of_cons.
  destruct (Ascii.eqb_spec c x); [done|]. by rewrite IH.
Qed.

(** The bytes that mark bold and italic texts and code. *)
Definition markers : bytes := ["042"; "095"; "096"]%char.

Lemma clean_line_no_markers line m : m ∈ markers → m ∉ s2l (clean_line line).
Proof.
  unfold clean_line. set (l0 := if _ && _ then _ else line). unfold replace_all. rewrite !s2l_l2s.
  change (s2l "") with (@nil ascii). change (s2l "*") with ["042"%char]. change (s2l "_") with ["095"%char].
  change (s2l backtick) with ["096"%char]. intros Hm Hin.
  apply elem_of_cons in Hm as [->|[->|[->|[]%not_elem_of_nil]%elem_of_cons]%elem_of_cons].
  - apply replace_none_sub, replace_none_sub in Hin. by apply replace_byte_gone in Hin.
  - apply replace_none_sub in Hin. by apply replace_byte_gone in Hin.
  - by apply replace_byte_gone in Hin.
Qed.

Lemma clean_line_id line : (∀ m, m ∈ markers → m ∉ s2l line) → has_prefix line "#" = false → clean_line line = line.
Proof.
  intros Hm Hh. unfold clean_line. rewrite Hh, andb_false_r. unfold replace_all. rewrite !s2l_l2s.
  change (s2l "**") with ["042"; "042"]%char. change (s2l "__") with ["095"; "095"]%char.
  change (s2l "*") with ["042"%char]. change (s2l "_") with ["095"%char]. change (s2l backtick) with ["096"%char].
  assert (("042" ∉ s2l line) ∧ ("095" ∉ s2l line) ∧ ("096" ∉ s2l line))%char as (H1 & H2 & H3).
  { split_and!; apply Hm; unfold markers; set_solver. }
  rewrite (replace_absent "042" ["042"%char] _ _ H1), (replace_absent "095" ["095"%char] _ _ H2), (replace_absent "042" [] _ _ H1),
    (replace_absent "095" [] _ _ H2), (replace_absent "096" [] _ _ H3). apply l2s_s2l.
Qed.

Lemma markers_not_nl m : m ∈ markers → m ≠ nl.
Proof. revert m. apply Forall_forall. repeat constructor; discriminate. Qed.

Lemma strip_lines_no_markers m i lines :
  m ∈ markers → Forall (λ line, has_prefix line fence = false) lines → m ∉ s2l (strip_lines i false lines).
Proof.
  intros Hm Hl. revert i. induction Hl as [|line lines Hline _ IH]; intros i; cbn [strip_lines]; [apply not_elem_of_nil|].
  rewrite Hline, !s2l_app, !not_elem_of_app. split_and!; [|by apply clean_line_no_markers|apply IH].
  destruct (0 <? i)%nat; [|apply not_elem_of_nil]. intros ->%list_elem_of_singleton. by apply (markers_not_nl nl).
Qed.

Lemma split_bytes_join cur l : concat ((λ x, nl :: x) <$> split_bytes nl cur l) = nl :: reverse cur ++ l.
Proof.
  revert cur. induction l as [|c l IH]; intros cur; cbn; [by rewrite app_nil_r|].
  destruct (Ascii.eqb_spec c nl) as [->|]; cbn; [by rewrite IH|]. by rewrite IH, reverse_cons, <- app_assoc.
Qed.

Lemma strip_lines_id i lines :
  (0 < i)%nat → Forall (λ line, has_prefix line fence = false ∧ clean_line line = line) lines →
  s2l (strip_lines i false lines) = concat ((λ x, nl :: x) <$> (s2l <$> lines)).
Proof.
  intros Hi Hl. revert i Hi. induction Hl as [|line lines [Hf Hc] _ IH]; intros i Hi; [done|]. cbn [strip_lines].
  rewrite Hf, Hc, !s2l_app, IH by lia. by destruct (Nat.ltb_spec 0 i); [|lia].
Qed.

Lemma no_prefix c p line : c ∉ s2l line → has_prefix line (String c p) = false.
Proof.
  unfold has_prefix. destruct (s2l line) as [|x l]; cbn; [done|]. intros [Hne _]%not_elem_of_cons.
  by destruct (Ascii.eqb_spec c x).
Qed.

(** The pieces of a text have no other bytes than it. *)
Lemma split_piece s line m : m ≠ nl → line ∈ split s nl → m ∈ s2l line → m ∈ s2l s.
Proof.
  intros Hm (x & -> & Hx)%list_elem_of_fmap. rewrite s2l_l2s. intros Hin.
  assert (m ∈ concat ((λ x, nl :: x) <$> split_bytes nl [] (s2l s))) as Hc.
  { apply list_elem_of_In, in_concat. exists (nl :: x). split; [|right; by apply list_elem_of_In].
    apply list_elem_of_In, list_elem_of_fmap. by exists x. }
  rewrite split_bytes_join in Hc. cbn in Hc. by apply elem_of_cons in Hc as [->|].
Qed.

Lemma plain_not_nl m : m ∈ "035"%char :: markers → m ≠ nl.
Proof. intros [->|Hm]%elem_of_cons; [done|by apply markers_not_nl]. Qed.

(** Without code blocks, what is written has none of the bytes that mark bold and italic
    texts and code; a text without these and without a number sign stays as it is. *)
Theorem stripMarkdown_spec s :
  (Forall (λ line, has_prefix line fence = false) (split s nl) → ∀ m, m ∈ markers → m ∉ s2l (stripMarkdown s))
  ∧ ((∀ m, m ∈ "035"%char :: markers → m ∉ s2l s) → stripMarkdown s = s).
Proof.
  split; [intros Hl m Hm; by apply strip_lines_no_markers|]. intros Hs.
  assert (Forall (λ line, has_prefix line fence = false ∧ clean_line line = line) (split s nl)) as Hlines.
  { apply Forall_forall. intros line Hin. assert (∀ m, m ∈ "035"%char :: markers → m ∉ s2l line) as Hline.
    { intros m Hm Hml. apply (Hs m Hm). apply (split_piece s line); [by apply plain_not_nl|done|done]. }
    split; [apply (no_prefix "096"), Hline; unfold markers; set_solver|].
    apply clean_line_id; [intros m Hm; apply Hline; by right|apply (no_prefix "035"), Hline; by left]. }
  apply (inj s2l). pose proof (split_bytes_join [] (s2l s)) as Hj. unfold stripMarkdown, split in *.
  destruct (split_bytes nl [] (s2l s)) as [|x xs] eqn:Hx; [done|]. cbn in Hlines |- *. apply Forall_cons in Hlines as [[Hf Hc] Hxs].
  cbn in Hj. injection Hj as Hj. rewrite Hf, Hc. cbn. rewrite !s2l_app, strip_lines_id, <- Hj by (lia || done). cbn.
  rewrite s2l_l2s. f_equal. rewrite <- !list_fmap_compose. f_equal. apply list_fmap_ext. intros i y _. cbn. by rewrite s2l_l2s.
Qed.

(** A heading and bold words are taken apart, but names and products as well. *)
Lemma stripMarkdown_names :
  stripMarkdown ("# Title" +:+ lf +:+ "**bold** snake_case 2*3") = "Title" +:+ lf +:+ "bold snakecase 23".
Proof. by vm_compute. Qed.

(** The command that is to reset the session answers that it did, and does nothing. *)
Lemma new_does_nothing `{UnicodeFold} {B} `{InboundBus B} c (b : B) out now :
  processLine "/new" now (c, b, out) = (c, b, out +:+ "session reset" +:+ lf).
Proof. done. Qed.
