(* ===== verification/CronStore.v ===== *)
(** The tables of scheduled jobs behind the cron service: [pkg/storage/mysql/scheduler.go],
    with the models of [mysql/migrate.go], and in [Sqlite] [pkg/storage/sqlite/scheduler.go].

    A statement may fail instead of running: [fault] says whether it does.  The JSON codec
    of the two structured columns is a class with laws; the database may round a time.  The
    order in which rows are scanned is an argument. *)
From S2P Require Import Prelude GoStrings Values Types Cron.

(** [json.Marshal] and [json.Unmarshal] for the two columns; what cannot be decoded leaves
    the zero value. *)
Class JobCodec := {
  enc_sched : CronSchedule → string; dec_sched : string → CronSchedule;
  enc_state : CronJobState → string; dec_state : string → CronJobState;
}.
Class JobCodecLaws `{JobCodec} := {
  dec_enc_sched s : dec_sched (enc_sched s) = s;
  dec_enc_state s : dec_state (enc_state s) = s;
}.

Record CronJobModel := {
  cm_ID : string; cm_TenantID : string; cm_UserID : string; cm_Name : string; cm_Enabled : bool; cm_Schedule : string;
  cm_Message : string; cm_Channel : string; cm_ChatID : string; cm_DeleteAfterRun : bool; cm_State : string; cm_CreatedAt : time;
}.

Record CronJobLogModel := { lm_ID : Z; lm_Log : CronJobLog }.

(** The tables [cron_jobs], with its primary key, and [cron_job_logs], in the order of
    their automatic identifiers. *)
Record cron_db := { cron_jobs : gmap string CronJobModel; cron_logs : list CronJobLogModel; cron_next : Z }.
Definition empty_cron_db : cron_db := {| cron_jobs := ∅; cron_logs := []; cron_next := 1 |}.

Inductive cron_stmt := StSave (id : string) | StList | StDelete (id : string) | StState (id : string) | StLog | StLogs.

Section store.
Context `{JobCodec} (round : time → time) (scan : gmap string CronJobModel → list string).
Context (fault : cron_stmt → cron_db → option goerror).

Definition cronJobToModel (j : CronJob) : CronJobModel :=
  {| cm_ID := job_ID j; cm_TenantID := job_TenantID j; cm_UserID := job_UserID j; cm_Name := job_Name j;
     cm_Enabled := job_Enabled j; cm_Schedule := enc_sched (job_Schedule j); cm_Message := job_Message j;
     cm_Channel := job_Channel j; cm_ChatID := job_ChatID j; cm_DeleteAfterRun := job_DeleteAfterRun j;
     cm_State := enc_state (job_State j); cm_CreatedAt := job_CreatedAt j |}.

Definition cronJobFromModel (m : CronJobModel) : CronJob :=
  {| job_ID := cm_ID m; job_TenantID := cm_TenantID m; job_UserID := cm_UserID m; job_Name := cm_Name m;
     job_Enabled := cm_Enabled m; job_Schedule := dec_sched (cm_Schedule m); job_Message := cm_Message m;
     job_Channel := cm_Channel m; job_ChatID := cm_ChatID m; job_DeleteAfterRun := cm_DeleteAfterRun m;
     job_State := dec_state (cm_State m); job_CreatedAt := cm_CreatedAt m |}.

(** The row as the database keeps it. *)
Definition stored_row (m : CronJobModel) : CronJobModel :=
  {| cm_ID := cm_ID m; cm_TenantID := cm_TenantID m; cm_UserID := cm_UserID m; cm_Name := cm_Name m; cm_Enabled := cm_Enabled m;
     cm_Schedule := cm_Schedule m; cm_Message := cm_Message m; cm_Channel := cm_Channel m; cm_ChatID := cm_ChatID m;
     cm_DeleteAfterRun := cm_DeleteAfterRun m; cm_State := cm_State m; cm_CreatedAt := round (cm_CreatedAt m) |}.

Definition row_with_state (s : string) (m : CronJobModel) : CronJobModel :=
  {| cm_ID := cm_ID m; cm_TenantID := cm_TenantID m; cm_UserID := cm_UserID m; cm_Name := cm_Name m; cm_Enabled := cm_Enabled m;
     cm_Schedule := cm_Schedule m; cm_Message := cm_Message m; cm_Channel := cm_Channel m; cm_ChatID := cm_ChatID m;
     cm_DeleteAfterRun := cm_DeleteAfterRun m; cm_State := s; cm_CreatedAt := cm_CreatedAt m |}.

Definition with_jobs (t : gmap string CronJobModel) (s : cron_db) : cron_db :=
  {| cron_jobs := t; cron_logs := cron_logs s; cron_next := cron_next s |}.

Definition SaveJob (j : CronJob) (s : cron_db) : cron_db * option goerror :=
  match fault (StSave (job_ID j)) s with
  | Some e => (s, Some e)
  | None => (with_jobs (<[job_ID j := stored_row (cronJobToModel j)]> (cron_jobs s)) s, None)
  end.

Definition ListJobs (tenantID : string) (s : cron_db) : result goerror (list CronJob) :=
  match fault StList s with
  | Some e => Err e
  | None =>
      Ok (cronJobFromModel <$> filter (λ m, (str_empty tenantID || bool_decide (cm_TenantID m = tenantID)) = true)
                                 (omap (λ id, cron_jobs s !! id) (scan (cron_jobs s))))
  end.

Definition DeleteJob (jobID : string) (s : cron_db) : cron_db * option goerror :=
  match fault (StDelete jobID) s with
  | Some e => (s, Some e)
  | None => (with_jobs (delete jobID (cron_jobs s)) s, None)
  end.

Definition UpdateJobState (jobID : string) (state : CronJobState) (s : cron_db) : cron_db * option goerror :=
  match fault (StState jobID) s with
  | Some e => (s, Some e)
  | None => (with_jobs (alter (row_with_state (enc_state state)) jobID (cron_jobs s)) s, None)
  end.

Definition LogExecution (log : CronJobLog) (s : cron_db) : cron_db * option goerror :=
  match fault StLog s with
  | Some e => (s, Some e)
  | None => ({| cron_jobs := cron_jobs s; cron_logs := cron_logs s ++ [{| lm_ID := cron_next s; lm_Log := log |}]; cron_next := cron_next s + 1 |}, None)
  end.

(** The newest first; the order of logs of the same time is that of the table. *)
Definition newer (a b : CronJobLogModel) : bool := log_RunAt (lm_Log b) <? log_RunAt (lm_Log a).

Definition ListLogs (jobID : string) (limit : Z) (s : cron_db) : result goerror (list CronJobLogModel) :=
  match fault StLogs s with
  | Some e => Err e
  | None =>
      let logs := insertion_sort newer (filter (λ l, log_JobID (lm_Log l) = jobID) (cron_logs s)) in
      Ok (if 0 <? limit then take (Z.to_nat limit) logs else logs)
  end.

(** The jobs of a query are fresh objects; their pointers are numbered. *)
#[export] Instance cron_store : SchedulerStore cron_db := {|
  st_SaveJob := SaveJob;
  st_ListJobs t s := match ListJobs t s with Err e => Err e | Ok l => Ok (imap pair l) end;
  st_DeleteJob := DeleteJob;
  st_UpdateJobState := UpdateJobState;
  st_LogExecution := LogExecution;
|}.
End store.

Definition no_cron_fault (st : cron_stmt) (s : cron_db) : option goerror := None.

(** ** The two halves of [EnableJob]

    It lets go of its lock before it saves the job, which it does through the pointer. *)

Section halves.
Context {Loc Sched : Type} (UTC : Loc) (LoadLocation : string → option Loc).
Context (parse : string → option Sched) (inner_Next : Sched → Loc → time → time).
Context {St B : Type} `{SchedulerStore St} `{InboundBus B}.

Definition enable_locked (now : time) (jobID : string) (enabled : bool) (w : Cron.world (St := St) (B := B)) : option (nat * Cron.world) :=
  match lookup_job (svc w) jobID with
  | None => None
  | Some (p, j) =>
      let j := job_with_enabled j enabled in
      let j := if enabled then job_set_next j (ComputeNextRun UTC LoadLocation parse inner_Next j now) else j in
      Some (p, with_svc w (set_job p j (svc w)))
  end.

Definition enable_save (p : nat) (w : Cron.world (St := St) (B := B)) : Cron.world * option goerror :=
  match cs_heap (svc w) !! p with
  | None => (w, None)
  | Some j =>
      match st_SaveJob j (store w) with
      | (s, Some e) => (with_store w s, Some (ErrText ("scheduler: save job: " +:+ error_text e)))
      | (s, None) => (with_svc (with_store w s) (signal (svc w)), None)
      end
  end.

Lemma EnableJob_halves now jobID enabled (w : Cron.world (St := St) (B := B)) :
  EnableJob UTC LoadLocation parse inner_Next now jobID enabled w
  = match enable_locked now jobID enabled w with
    | Some (p, w) => enable_save p w
    | None => (w, Some (ErrText "scheduler: job not found"))
    end.
Proof.
  unfold EnableJob, enable_locked. destruct (lookup_job (svc w) jobID) as [[p j]|]; [|done].
  unfold enable_save. cbn. by rewrite lookup_insert_eq.
Qed.
End halves.

(** ** The service and its table *)

Section mirror.
Context `{JobCodecLaws} (round : time → time) (scan : gmap string CronJobModel → list string).
Context (round_idem : ∀ t, round (round t) = round t) (scan_rows : ∀ t, range_order t (scan t)).
Context {Loc Sched : Type} (UTC : Loc) (LoadLocation : string → option Loc).
Context (parse : string → option Sched) (inner_Next : Sched → Loc → time → time).
Context {B : Type} `{InboundBus B} (fault : cron_stmt → cron_db → option goerror).

#[local] Instance any_store : SchedulerStore cron_db := cron_store round scan fault.
Abbreviation cworld := (Cron.world (St := cron_db) (B := B)).

(** What is done with the service: its operations, [EnableJob] in its two halves, the firing
    of a job that was picked, and a restart of the program.  [ESave k] is the second half of
    the [k]th call of [EnableJob] that is under way. *)
Inductive cron_event :=
| EAdd (now : time) (p : nat) (job : CronJob)
| ERemove (id : string)
| EEnable (now : time) (id : string) (enabled : bool)
| ESave (k : nat)
| EFire (now : time) (durationMs : Z) (p : nat)
| ERestart (now : time).

(** The world, and the calls of [EnableJob] that have let go of the lock: the identifier
    they were given and the pointer they hold. *)
Definition cstate : Type := cworld * list (string * nat).

Definition cron_event_step (c : cstate) (e : cron_event) : cstate :=
  let '(w, unsaved) := c in
  match e with
  | EAdd now p job => ((AddJob UTC LoadLocation parse inner_Next now p job w).1, unsaved)
  | ERemove id => ((RemoveJob id w).1, unsaved)
  | EEnable now id enabled =>
      match enable_locked UTC LoadLocation parse inner_Next now id enabled w with
      | Some (p, w) => (w, (id, p) :: unsaved)
      | None => (w, unsaved)
      end
  | ESave k => match unsaved !! k with Some (_, p) => ((enable_save p w).1, delete k unsaved) | None => (w, unsaved) end
  | EFire now d p => (fireJob UTC LoadLocation parse inner_Next now d p w, unsaved)
  | ERestart now => ((Start UTC LoadLocation parse inner_Next now (with_svc w New)).1, [])
  end.

(** A job is added as a new object with an identifier no object has; no job is removed, or
    fired for its only time, between the halves of an [EnableJob] on it; the listing of the
    jobs at the start succeeds. *)
Definition valid_event (c : cstate) (e : cron_event) : Prop :=
  let w := c.1 in let unsaved := c.2 in
  match e with
  | EAdd _ p job => cs_heap (svc w) !! p = None ∧ map_Forall (λ _ j, job_ID j ≠ job_ID job) (cs_heap (svc w))
  | ERemove id => id ∉ unsaved.*1
  | EFire _ _ p => ∀ j, cs_heap (svc w) !! p = Some j → one_shot j = true → job_ID j ∉ unsaved.*1
  | ERestart _ => fault StList (store w) = None
  | _ => True
  end.

Fixpoint valid_events (c : cstate) (es : list cron_event) : Prop :=
  match es with [] => True | e :: es => valid_event c e ∧ valid_events (cron_event_step c e) es end.

(** The statements on a job's row never fail; those on other rows and the log may. *)
Definition reliable (id : string) : Prop :=
  ∀ s, fault (StSave id) s = None ∧ fault (StDelete id) s = None ∧ fault (StState id) s = None.

(** A job with its creation time as the database keeps it. *)
Definition kept (j : CronJob) : CronJob := job_with_created j (round (job_CreatedAt j)).

(** A job in memory and its stored form: they are the same, but that a job without a next
    time got one when the service was started. *)
Definition same_job (s j : CronJob) : Prop :=
  kept j = s ∨ (job_Enabled s = true ∧ NextRunAt (job_State s) = time_zero ∧ ∃ t, kept j = job_set_next s t).

Definition job_of (s : CronService) (id : string) : option CronJob := snd <$> lookup_job s id.
Definition row_of (s : cron_db) (id : string) : option CronJob := cronJobFromModel <$> cron_jobs s !! id.

(** The objects have identifiers of their own, and those in the map are found under them. *)
Record svc_wf (s : CronService) : Prop := {
  sw_jobs : jobs_wf s;
  sw_ids p p' j j' : cs_heap s !! p = Some j → cs_heap s !! p' = Some j' → job_ID j = job_ID j' → p = p';
}.

Record mirrors (c : cstate) : Prop := {
  mi_wf : svc_wf (svc c.1);
  mi_rows id s : row_of (store c.1) id = Some s → job_ID s = id ∧ kept s = s;
  mi_unsaved id p : (id, p) ∈ c.2 → cs_jobs (svc c.1) !! id = Some p;
  mi_same id : reliable id →
    option_Forall2 (λ s j, id ∈ c.2.*1 ∨ same_job s j) (row_of (store c.1) id) (job_of (svc c.1) id);
}.

Lemma fromModel_toModel j : cronJobFromModel (stored_row round (cronJobToModel j)) = kept j.
Proof. unfold cronJobFromModel, stored_row, cronJobToModel, kept, job_with_created. cbn. by rewrite dec_enc_sched, dec_enc_state. Qed.

Lemma fromModel_with_state s m : cronJobFromModel (row_with_state (enc_state s) m) = job_with_state (cronJobFromModel m) s.
Proof. unfold cronJobFromModel, row_with_state, job_with_state. cbn. by rewrite dec_enc_state. Qed.

Lemma kept_with_state j s : kept (job_with_state j s) = job_with_state (kept j) s.
Proof. done. Qed.

Lemma same_job_state s j st : same_job s j → same_job (job_with_state s st) (job_with_state j st).
Proof. intros [<-|(_ & _ & t & Hk)]; left; [done|]. by rewrite kept_with_state, Hk. Qed.

(** Writing to an object. *)
Lemma job_of_set_job s p j id :
  svc_wf s → cs_jobs s !! job_ID j = Some p → (∀ j0, cs_heap s !! p = Some j0 → job_ID j0 = job_ID j) →
  job_of (set_job p j s) id = if decide (id = job_ID j) then Some j else job_of s id.
Proof.
  intros [Hwf _] Hp Hid. unfold job_of, lookup_job. cbn. case_decide as Hd.
  - subst id. rewrite Hp. cbn. by rewrite lookup_insert_eq.
  - destruct (cs_jobs s !! id) as [p'|] eqn:Hp'; cbn; [|done]. rewrite lookup_insert_ne; [done|]. intros ->.
    destruct (Hwf _ _ Hp') as (j' & Hj' & <-). by rewrite (Hid _ Hj') in Hd.
Qed.

Lemma job_of_drop s id id' : job_of (drop_job id s) id' = if decide (id' = id) then None else job_of s id'.
Proof.
  unfold job_of, lookup_job. cbn. case_decide as Hd; [subst; by rewrite lookup_delete_eq|by rewrite lookup_delete_ne].
Qed.

(** What the statements do to the rows, whether they fail or not. *)
Definition failed (st : cron_stmt) (s : cron_db) : bool := match fault st s with Some _ => true | None => false end.

Lemma row_of_save j s id :
  row_of (SaveJob round fault j s).1 id
  = if failed (StSave (job_ID j)) s then row_of s id else if decide (id = job_ID j) then Some (kept j) else row_of s id.
Proof.
  unfold row_of, SaveJob, failed. destruct (fault _ s); [done|]. cbn.
  case_decide as Hd; [subst; rewrite lookup_insert_eq; cbn; by rewrite fromModel_toModel|by rewrite lookup_insert_ne].
Qed.
Lemma row_of_delete s id id' :
  row_of (DeleteJob fault id s).1 id'
  = if failed (StDelete id) s then row_of s id' else if decide (id' = id) then None else row_of s id'.
Proof.
  unfold row_of, DeleteJob, failed. destruct (fault _ s); [done|]. cbn.
  case_decide as Hd; [subst; by rewrite lookup_delete_eq|by rewrite lookup_delete_ne].
Qed.
Lemma row_of_state s id st id' :
  row_of (UpdateJobState fault id st s).1 id'
  = if failed (StState id) s then row_of s id'
    else if decide (id' = id) then (λ j, job_with_state j st) <$> row_of s id' else row_of s id'.
Proof.
  unfold row_of, UpdateJobState, failed. destruct (fault _ s); [done|]. cbn.
  case_decide as Hd; [subst id'|by rewrite lookup_alter_ne].
  rewrite lookup_alter_eq. destruct (cron_jobs s !! id) as [m|]; cbn; [|done]. by rewrite fromModel_with_state.
Qed.

Lemma reliable_not_failed id s :
  reliable id → failed (StSave id) s = false ∧ failed (StDelete id) s = false ∧ failed (StState id) s = false.
Proof. intros Hr. destruct (Hr s) as (Hs & Hd & Hst). unfold failed. by rewrite Hs, Hd, Hst. Qed.

Lemma kept_kept j : kept (kept j) = kept j.
Proof. unfold kept, job_with_created. cbn. by rewrite round_idem. Qed.

(** The rows after each statement are again found under their identifiers. *)
Definition rows_wf (s : cron_db) : Prop := ∀ id j, row_of s id = Some j → job_ID j = id ∧ kept j = j.

Lemma rows_wf_save j s : rows_wf s → rows_wf (SaveJob round fault j s).1.
Proof.
  intros Hs id j'. rewrite row_of_save. case_match; [apply Hs|]. case_decide as Hd; [|apply Hs].
  intros [= <-]. subst id. split; [done|]. apply kept_kept.
Qed.
Lemma rows_wf_delete id s : rows_wf s → rows_wf (DeleteJob fault id s).1.
Proof. intros Hs id' j'. rewrite row_of_delete. case_match; [apply Hs|]. case_decide; [done|apply Hs]. Qed.
Lemma rows_wf_state id st s : rows_wf s → rows_wf (UpdateJobState fault id st s).1.
Proof.
  intros Hs id' j'. rewrite row_of_state. case_match; [apply Hs|]. case_decide; [|apply Hs].
  intros (j & [<- Hk]%Hs & ->)%fmap_Some. split; [done|]. by rewrite kept_with_state, Hk.
Qed.

(** A new object. *)
Definition fresh (p : nat) (id : string) (s : CronService) : Prop :=
  cs_heap s !! p = None ∧ ∀ p' j, cs_heap s !! p' = Some j → job_ID j ≠ id.

Lemma svc_wf_same s s' : cs_jobs s' = cs_jobs s → cs_heap s' = cs_heap s → svc_wf s → svc_wf s' ∧ ∀ id, job_of s' id = job_of s id.
Proof.
  intros Hj Hh [Hwf Hids]. split; [|intros id; unfold job_of, lookup_job; by rewrite Hj, Hh].
  split; [intros id p; rewrite Hj, Hh; apply Hwf|]. intros p p' j j'. rewrite Hh. apply Hids.
Qed.

Lemma insert_fresh s s' p j :
  cs_jobs s' = <[job_ID j := p]> (cs_jobs s) → cs_heap s' = <[p := j]> (cs_heap s) → fresh p (job_ID j) s → svc_wf s →
  svc_wf s' ∧ ∀ id, job_of s' id = if decide (id = job_ID j) then Some j else job_of s id.
Proof.
  intros Hj Hh [Hp Hid] [Hwf Hids]. split; [split|].
  - intros id q. rewrite Hj, Hh. intros [[<- <-]|[Hne Hq]]%lookup_insert_Some; [exists j; by rewrite lookup_insert_eq|].
    destruct (Hwf _ _ Hq) as (j' & Hj' & Hid'). exists j'. rewrite lookup_insert_ne; [done|]. congruence.
  - intros q q' j1 j2. rewrite Hh. intros [[<- <-]|[Hne Hq]]%lookup_insert_Some [[<- <-]|[Hne' Hq']]%lookup_insert_Some Heq; [done|..].
    + by destruct (Hid _ _ Hq').
    + by destruct (Hid _ _ Hq).
    + by eapply Hids.
  - intros id. unfold job_of, lookup_job. rewrite Hj, Hh. case_decide as Hd.
    + subst id. rewrite lookup_insert_eq. cbn. by rewrite lookup_insert_eq.
    + rewrite lookup_insert_ne by done. destruct (cs_jobs s !! id) as [q|] eqn:Hq; cbn; [|done].
      destruct (Hwf _ _ Hq) as (j' & Hj' & _). rewrite lookup_insert_ne; [done|]. congruence.
Qed.

(** An object written to keeps its identifier. *)
Lemma set_job_wf s p j j0 : cs_heap s !! p = Some j0 → job_ID j = job_ID j0 → svc_wf s → svc_wf (set_job p j s).
Proof.
  intros Hp Hid [Hwf Hids].
  assert (∀ q j1, <[p := j]> (cs_heap s) !! q = Some j1 → ∃ j2, cs_heap s !! q = Some j2 ∧ job_ID j2 = job_ID j1) as Hold.
  { intros q j1 [[<- <-]|[_ Hq]]%lookup_insert_Some; eauto. }
  split; cbn [cs_jobs cs_heap set_job].
  - intros id q Hq. cbn [cs_jobs cs_heap set_job] in Hq |- *. destruct (Hwf _ _ Hq) as (j1 & Hj1 & <-). destruct (decide (p = q)) as [<-|Hne].
    + exists j. rewrite lookup_insert_eq. split; [done|]. congruence.
    + exists j1. by rewrite lookup_insert_ne.
  - intros q q' j1 j2 (k1 & Hk1 & <-)%Hold (k2 & Hk2 & <-)%Hold. by apply Hids.
Qed.

Lemma drop_job_wf s id : svc_wf s → svc_wf (drop_job id s).
Proof. intros [Hwf Hids]. split; [|exact Hids]. intros id' p Hp. cbn [cs_jobs cs_heap drop_job] in Hp |- *. apply lookup_delete_Some in Hp as [_ Hp]. by apply Hwf. Qed.

(** A step after which the row and the job [id] are as they should and all others as they were. *)
Lemma mirrors_change w w' pend pend' id :
  mirrors (w, pend) → svc_wf (svc w') → rows_wf (store w') →
  (∀ i p, (i, p) ∈ pend' → cs_jobs (svc w') !! i = Some p) →
  (∀ i, i ≠ id → i ∈ pend.*1 → i ∈ pend'.*1) →
  (∀ i, i ≠ id → row_of (store w') i = row_of (store w) i ∧ job_of (svc w') i = job_of (svc w) i) →
  (reliable id → option_Forall2 (λ s j, id ∈ pend'.*1 ∨ same_job s j) (row_of (store w') id) (job_of (svc w') id)) →
  mirrors (w', pend').
Proof.
  intros Hm Hwf Hrows Hun Hmono Hsame Hid. split; [exact Hwf|exact Hrows|exact Hun|]. intros i Hi.
  destruct (decide (i = id)) as [->|Hne]; [by apply Hid|]. cbn [fst snd]. destruct (Hsame i Hne) as [-> ->].
  pose proof (mi_same _ Hm i Hi) as Ho. cbn [fst snd] in Ho. destruct Ho as [s j [Hp|Hs]|]; constructor; [left; by apply Hmono|by right].
Qed.

Lemma mirrors_add w pend now p job :
  mirrors (w, pend) → fresh p (job_ID job) (svc w) → mirrors (cron_event_step (w, pend) (EAdd now p job)).
Proof.
  intros Hm Hf. cbn [cron_event_step]. unfold AddJob. set (j1 := if IsZero (job_CreatedAt job) then _ else job).
  set (j2 := if IsZero (NextRunAt (job_State j1)) then _ else j1).
  assert (job_ID j2 = job_ID job) as Hid by (subst j2 j1; by repeat case_match).
  cbn [st_SaveJob any_store cron_store]. rewrite <- Hid in Hf. pose proof (row_of_save j2 (store w)) as Hrow.
  pose proof (rows_wf_save j2 _ (mi_rows _ Hm)) as Hrows. unfold SaveJob, failed in Hrow, Hrows |- *.
  destruct (fault _ _); [by destruct w, Hm|]. cbn in Hrow, Hrows |- *.
  destruct (insert_fresh (svc w) (signal {| cs_jobs := <[job_ID j2 := p]> (cs_jobs (svc w)); cs_heap := <[p := j2]> (cs_heap (svc w));
    cs_wake := cs_wake (svc w); cs_running := cs_running (svc w) |}) p j2 eq_refl eq_refl Hf (mi_wf _ Hm)) as [Hwf Hjob].
  apply (mirrors_change w _ pend pend (job_ID j2) Hm); [exact Hwf|exact Hrows| |done|..].
  - intros i q Hq. cbn. apply (mi_unsaved _ Hm) in Hq. cbn in Hq. rewrite lookup_insert_ne; [done|]. intros <-.
    destruct (sw_jobs _ (mi_wf _ Hm) _ _ Hq) as (j' & Hj' & Hid'). by destruct (proj2 Hf _ _ Hj').
  - intros i Hne. cbn [store svc with_svc with_store] in *. by rewrite Hrow, Hjob, !decide_False.
  - intros _. cbn [store svc with_svc with_store] in *. rewrite Hrow, Hjob, !decide_True by done. constructor. right. by left.
Qed.

(** The row is deleted, if the statement succeeds, and the job is out of the map. *)
Lemma mirrors_dropped w w' pend id :
  mirrors (w, pend) → id ∉ pend.*1 → svc_wf (svc w') → store w' = (DeleteJob fault id (store w)).1 →
  cs_jobs (svc w') = delete id (cs_jobs (svc w)) →
  (∀ i, job_of (svc w') i = if decide (i = id) then None else job_of (svc w) i) → mirrors (w', pend).
Proof.
  intros Hm Hid Hwf Hst Hjobs Hjob. pose proof (row_of_delete (store w) id) as Hrow. rewrite <- Hst in Hrow.
  apply (mirrors_change w _ pend pend id Hm); [done|rewrite Hst; exact (rows_wf_delete _ _ (mi_rows _ Hm))| |done|..].
  - intros i q Hq. rewrite Hjobs, lookup_delete_ne; [by apply (mi_unsaved _ Hm)|]. intros <-. apply Hid.
    apply list_elem_of_fmap. by exists (id, q).
  - intros i Hne. rewrite Hrow, Hjob, !decide_False by done. by case_match.
  - intros Hr. rewrite Hrow, Hjob, !decide_True by done. destruct (reliable_not_failed id (store w) Hr) as (_ & -> & _). constructor.
Qed.

Lemma mirrors_remove w pend id : mirrors (w, pend) → id ∉ pend.*1 → mirrors (cron_event_step (w, pend) (ERemove id)).
Proof.
  intros Hm Hid. cbn [cron_event_step]. unfold RemoveJob. cbn [st_DeleteJob any_store cron_store].
  destruct (fault (StDelete id) (store w)) as [e|] eqn:Hf; unfold DeleteJob; rewrite Hf; [by destruct w, Hm|]. cbn.
  apply (mirrors_dropped w _ pend id Hm Hid); [|cbn; unfold DeleteJob; by rewrite Hf|done|apply (job_of_drop (svc w))].
  eapply (svc_wf_same (drop_job id (svc w))); [done|done|]. apply drop_job_wf, (mi_wf _ Hm).
Qed.

(** A job found in the map is the object of its pointer. *)
Lemma lookup_found s id p j : svc_wf s → lookup_job s id = Some (p, j) → cs_jobs s !! id = Some p ∧ cs_heap s !! p = Some j ∧ job_ID j = id.
Proof.
  intros Hwf [Hp Hj]%lookup_job_Some. destruct (sw_jobs _ Hwf _ _ Hp) as (j' & Hj' & Hid). split_and!; [done|done|congruence].
Qed.

Lemma mirrors_enable w pend now id b : mirrors (w, pend) → mirrors (cron_event_step (w, pend) (EEnable now id b)).
Proof.
  intros Hm. cbn [cron_event_step]. unfold enable_locked. destruct (lookup_job (svc w) id) as [[p j]|] eqn:Hl; [|exact Hm].
  pose proof (mi_wf _ Hm : svc_wf (svc w)) as Hwf. destruct (lookup_found _ _ _ _ Hwf Hl) as (Hp & Hj & <-). set (j1 := if b then _ else _).
  assert (job_ID j1 = job_ID j) as Hid1 by (subst j1; by destruct b).
  assert (∀ i, job_of (svc (with_svc w (set_job p j1 (svc w)))) i = if decide (i = job_ID j) then Some j1 else job_of (svc w) i) as Hjob.
  { intros i. rewrite <- Hid1. apply job_of_set_job; [done|by rewrite Hid1|]. intros j0 Hj0. simplify_eq. congruence. }
  apply (mirrors_change w _ pend _ (job_ID j) Hm); [by apply (set_job_wf _ _ _ j)|exact (mi_rows _ Hm)|..].
  - intros i q [[= -> ->]|Hq]%elem_of_cons; [done|by apply (mi_unsaved _ Hm)].
  - intros i _ Hi. rewrite fmap_cons. by right.
  - intros i Hne. by rewrite Hjob, decide_False.
  - intros Hr. rewrite Hjob, decide_True by done. cbn [store with_svc].
    pose proof (mi_same _ Hm (job_ID j) Hr) as Hsame. unfold job_of in Hsame. cbn [fst] in Hsame. rewrite Hl in Hsame.
    inversion Hsame. constructor. left. rewrite fmap_cons. by left.
Qed.

Lemma mirrors_save w pend k : mirrors (w, pend) → mirrors (cron_event_step (w, pend) (ESave k)).
Proof.
  intros Hm. cbn [cron_event_step]. destruct (pend !! k) as [[id p]|] eqn:Hk; [|exact Hm].
  pose proof (mi_unsaved _ Hm id p (list_elem_of_lookup_2 _ _ _ Hk)) as Hp. cbn in Hp.
  destruct (sw_jobs _ (mi_wf _ Hm) _ _ Hp) as (j & Hj & <-). cbn in Hj.
  assert (job_of (svc w) (job_ID j) = Some j) as Hjob by (unfold job_of, lookup_job; rewrite Hp; cbn; by rewrite Hj).
  unfold enable_save. rewrite Hj. pose proof (row_of_save j (store w)) as Hrow.
  pose proof (rows_wf_save j _ (mi_rows _ Hm)) as Hrows. cbn [st_SaveJob any_store cron_store].
  set (w' := fst (match SaveJob round fault j (store w) with (s, Some e) => _ | (s, None) => _ end)).
  assert (cs_jobs (svc w') = cs_jobs (svc w) ∧ cs_heap (svc w') = cs_heap (svc w) ∧ store w' = (SaveJob round fault j (store w)).1)
    as (Hjobs & Hheap & Hst) by (subst w'; by destruct (SaveJob _ _ _ _) as [? []]).
  destruct (svc_wf_same (svc w) (svc w') Hjobs Hheap (mi_wf _ Hm)) as [Hwf Hsame].
  assert (∀ i, i ≠ job_ID j → i ∈ pend.*1 → i ∈ (delete k pend).*1) as Hmono.
  { intros i Hne ([i' q] & -> & [k' Hk']%list_elem_of_lookup)%list_elem_of_fmap. cbn in Hne |- *.
    apply list_elem_of_fmap. exists (i', q). split; [done|]. rewrite delete_take_drop. apply elem_of_app.
    destruct (decide (k' < k)%nat); [left|right].
    - apply list_elem_of_lookup. exists k'. by rewrite lookup_take_lt.
    - assert (k' ≠ k) by (intros ->; congruence). apply list_elem_of_lookup. exists (k' - S k)%nat.
      rewrite lookup_drop. by replace (S k + (k' - S k))%nat with k' by lia. }
  apply (mirrors_change w w' pend _ (job_ID j) Hm); [exact Hwf|by rewrite Hst| |exact Hmono|..].
  - intros i q Hq. rewrite Hjobs. apply (mi_unsaved _ Hm). cbn. eapply elem_of_submseteq; [exact Hq|].
    apply sublist_submseteq, sublist_delete.
  - intros i Hne. rewrite Hst, Hrow, Hsame, decide_False by done. by case_match.
  - intros Hr. rewrite Hst, Hrow, Hsame, Hjob, decide_True by done.
    destruct (reliable_not_failed _ (store w) Hr) as (-> & _). constructor. right. by left.
Qed.

Lemma mirrors_log w pend id now d e : mirrors (w, pend) → mirrors (logExecution id now d e w, pend).
Proof.
  intros [Hwf Hr Hu Hs]. unfold logExecution. cbn [st_LogExecution any_store cron_store]. unfold LogExecution.
  destruct (fault _ _); split; done.
Qed.

Lemma job_of_set_other s p j j0 id :
  svc_wf s → cs_heap s !! p = Some j0 → job_ID j0 = job_ID j → id ≠ job_ID j → job_of (set_job p j s) id = job_of s id.
Proof.
  intros [Hwf _] Hp Hid Hne. unfold job_of, lookup_job. cbn.
  destruct (cs_jobs s !! id) as [q|] eqn:Hq; cbn; [|done]. rewrite lookup_insert_ne; [done|]. intros ->.
  destruct (Hwf _ _ Hq) as (j' & Hj' & <-). congruence.
Qed.

(** The next state of a job that fired; a job that was removed in the meantime has no row. *)
Lemma mirrors_state w pend p j j2 b :
  mirrors (w, pend) → cs_heap (svc w) !! p = Some j → j2 = job_with_state j (job_State j2) →
  mirrors ({| svc := set_job p j2 (svc w); store := (UpdateJobState fault (job_ID j) (job_State j2) (store w)).1; bus := b |}, pend).
Proof.
  intros Hm Hj Hj2. pose proof (mi_wf _ Hm) as Hwf. cbn in Hwf.
  assert (job_ID j2 = job_ID j) as Hid by (by rewrite Hj2).
  assert (svc_wf (set_job p j2 (svc w))) as Hwf2 by (by apply (set_job_wf _ _ _ j)).
  apply (mirrors_change w _ pend pend (job_ID j) Hm); [exact Hwf2|exact (rows_wf_state _ _ _ (mi_rows _ Hm))|apply (mi_unsaved _ Hm)|done|..]; cbn [svc store].
  - intros i Hne. rewrite row_of_state, decide_False by done. rewrite (job_of_set_other _ _ _ j) by (done || congruence). by case_match.
  - intros Hr. rewrite row_of_state, decide_True by done. destruct (reliable_not_failed _ (store w) Hr) as (_ & _ & ->).
    pose proof (mi_same _ Hm (job_ID j) Hr) as Hsame. cbn [fst snd] in Hsame.
    destruct (cs_jobs (svc w) !! job_ID j) as [q|] eqn:Hq.
    + destruct (sw_jobs _ Hwf _ _ Hq) as (j' & Hj' & Hid'). rewrite <- (sw_ids _ Hwf p q j j' Hj Hj' (eq_sym Hid')) in Hq.
      assert (job_of (svc w) (job_ID j) = Some j) as Hjob by (unfold job_of, lookup_job; rewrite Hq; cbn; by rewrite Hj).
      rewrite Hjob in Hsame. inversion Hsame as [s ? Hs Hrow|]; subst.
      assert (job_of (set_job p j2 (svc w)) (job_ID j) = Some j2) as ->.
      { rewrite <- Hid, job_of_set_job, decide_True; [done|done|done|by rewrite Hid|]. intros j0 Hj0. cbn in Hj0. congruence. }
      cbn. constructor. destruct Hs as [Hs|Hs]; [by left|right]. rewrite Hj2. by apply same_job_state.
    + assert (∀ t, cs_jobs t = cs_jobs (svc w) → job_of t (job_ID j) = None) as Hnone by (intros t Ht; unfold job_of, lookup_job; by rewrite Ht, Hq).
      rewrite (Hnone (svc w)) in Hsame by done. inversion Hsame as [|Hrow]. rewrite Hnone by done. constructor.
Qed.

(** A job that was picked and then removed is fired as well, but does not come back. *)
Lemma mirrors_fire w pend now d p :
  mirrors (w, pend) → (∀ j, cs_heap (svc w) !! p = Some j → one_shot j = true → job_ID j ∉ pend.*1) →
  mirrors (cron_event_step (w, pend) (EFire now d p)).
Proof.
  intros Hm Hv. cbn [cron_event_step]. unfold fireJob. destruct (cs_heap (svc w) !! p) as [j|] eqn:Hj; [|exact Hm].
  destruct (bus_PublishInbound _ _) as [b err]. set (j1 := job_with_state j _).
  pose proof (mi_wf _ Hm) as Hwf. destruct (job_DeleteAfterRun j1 && is_at (job_Schedule j1)) eqn:Hone.
  - apply mirrors_log. apply (mirrors_dropped w _ pend (job_ID j) Hm); cbn [svc store with_store]; [by apply Hv| |done|done|].
    + apply drop_job_wf. by apply (set_job_wf _ _ _ j).
    + intros i. rewrite (job_of_drop _ (job_ID j)). case_decide; [done|]. by apply (job_of_set_other _ _ _ j).
  - apply mirrors_log. exact (mirrors_state w pend p j _ b Hm Hj eq_refl).
Qed.

(** *** A restart *)

(** What [Start] makes of a stored job. *)
Definition refreshed (now : time) (j : CronJob) : CronJob :=
  if job_Enabled j && IsZero (NextRunAt (job_State j)) then job_set_next j (ComputeNextRun UTC LoadLocation parse inner_Next j now) else j.

Lemma refreshed_ID now j : job_ID (refreshed now j) = job_ID j.
Proof. unfold refreshed. by case_match. Qed.

Lemma same_job_refreshed now s : kept s = s → same_job s (refreshed now s).
Proof.
  intros Hk. unfold refreshed. destruct (job_Enabled s) eqn:He; cbn [andb]; [|by left].
  destruct (IsZero _) eqn:Hz; [|by left]. right. split_and!; [done|by apply Z.eqb_eq|].
  set (t := ComputeNextRun UTC LoadLocation parse inner_Next s now). exists t. exact (f_equal (λ x, job_set_next x t) Hk).
Qed.

Lemma start_jobs_spec now (l : list (nat * CronJob)) s :
  svc_wf s → NoDup l.*1 → NoDup (job_ID <$> l.*2) → (∀ p j, (p, j) ∈ l → fresh p (job_ID j) s) →
  let s' := fold_left (start_job UTC LoadLocation parse inner_Next now) l s in
  svc_wf s' ∧ (∀ p j, (p, j) ∈ l → job_of s' (job_ID j) = Some (refreshed now j))
  ∧ ∀ id, id ∉ job_ID <$> l.*2 → job_of s' id = job_of s id.
Proof.
  revert s. induction l as [|[p j] l IH]; intros s Hwf Hp Hid Hf; [cbn; split_and!; [done|by intros ? ? ?%not_elem_of_nil|done]|].
  cbn [fold_left fmap list_fmap fst snd] in *. apply NoDup_cons in Hp as [Hp Hps], Hid as [Hid Hids].
  set (s1 := start_job _ _ _ _ now s (p, j)).
  destruct (insert_fresh s s1 p (refreshed now j)) as [Hwf1 Hjob1]; [reflexivity|reflexivity|rewrite refreshed_ID; apply Hf; by left|done|].
  rewrite refreshed_ID in Hjob1.
  destruct (IH s1 Hwf1 Hps Hids) as (Hwf' & Hin & Hout).
  { intros q k Hqk. destruct (Hf q k ltac:(by right)) as [Hq Hk]. split.
    - subst s1. cbn. rewrite lookup_insert_ne; [done|]. intros ->. apply Hp. apply list_elem_of_fmap. by exists (q, k).
    - intros q' k'. subst s1. cbn. intros [[<- <-]|[_ Hq']]%lookup_insert_Some; [|exact (Hk _ _ Hq')].
      fold (refreshed now j). rewrite refreshed_ID. intros Heq. apply Hid. rewrite Heq. apply list_elem_of_fmap. exists k. split; [done|]. apply list_elem_of_fmap. by exists (q, k). }
  split_and!; [done| |].
  - intros q k [[= -> ->]|Hqk]%elem_of_cons; [|by apply (Hin q)]. rewrite Hout, Hjob1 by done. by rewrite decide_True.
  - intros id [Hne Hni]%not_elem_of_cons. rewrite Hout, Hjob1 by done. by rewrite decide_False.
Qed.

(** The list of all jobs, as [Start] reads it. *)
Lemma listed_jobs s (l := omap (λ id, row_of s id) (scan (cron_jobs s))) :
  fault StList s = None → ListJobs scan fault "" s = Ok l ∧ ∀ j, j ∈ l ↔ ∃ id, row_of s id = Some j.
Proof.
  intros Hf. split.
  - unfold ListJobs. rewrite Hf. cbn. f_equal. subst l. unfold row_of.
    induction (scan (cron_jobs s)) as [|id ids IH]; cbn; [done|]. destruct (cron_jobs s !! id); cbn; [|exact IH]. by rewrite <- IH.
  - intros j. subst l. rewrite list_elem_of_omap. split; [intros (id & _ & ?); by exists id|]. intros (id & Hid).
    exists id. split; [|done]. apply (range_order_elem _ _ _ (scan_rows (cron_jobs s))). unfold row_of in Hid.
    destruct (cron_jobs s !! id); [by eexists|done].
Qed.

Lemma listed_NoDup s : rows_wf s → NoDup (job_ID <$> omap (λ id, row_of s id) (scan (cron_jobs s))).
Proof.
  intros Hr. pose proof (range_order_NoDup _ _ (scan_rows (cron_jobs s))) as Hnd.
  induction (scan (cron_jobs s)) as [|id ids IH]; cbn; [constructor|]. apply NoDup_cons in Hnd as [Hid Hnd].
  destruct (row_of s id) as [j|] eqn:Hj; [|by apply IH]. cbn. constructor; [|by apply IH].
  destruct (Hr _ _ Hj) as [-> _]. rewrite list_elem_of_fmap. intros (j' & Heq & (id' & Hin & Hj')%list_elem_of_omap).
  destruct (Hr _ _ Hj') as [<- _]. by subst.
Qed.

Lemma mirrors_restart w pend now :
  mirrors (w, pend) → fault StList (store w) = None → mirrors (cron_event_step (w, pend) (ERestart now)).
Proof.
  intros Hm Hf. pose proof (mi_rows _ Hm) as Hrows. cbn [fst] in Hrows.
  cbn [cron_event_step]. unfold Start. cbn [st_ListJobs any_store cron_store store with_svc].
  destruct (listed_jobs (store w) Hf) as [Hlist Hin]. rewrite Hlist. set (l := omap _ _) in *. cbn [fst].
  assert ((imap pair l).*2 = l ∧ (imap pair l).*1 = seq 0 (length l)) as [Hsnd Hfst].
  { rewrite !fmap_imap. split; [rewrite <- (list_fmap_id l) at 2; apply (imap_const id)|]. rewrite <- (list_fmap_id (seq _ _)). apply (imap_seq_0 l id). }
  assert (svc_wf New) as Hnew by (split; [intros ? ? [=]|intros ? ? ? ? [=]]).
  destruct (start_jobs_spec now (imap pair l) New Hnew) as (Hwf & Hjob & Hout).
  { rewrite Hfst. apply NoDup_seq. }
  { rewrite Hsnd. by apply listed_NoDup. }
  { intros p j _. split; [done|]. intros ? ? [=]. }
  set (s' := fold_left _ _ _) in *.
  destruct (svc_wf_same s' {| cs_jobs := cs_jobs s'; cs_heap := cs_heap s'; cs_wake := cs_wake s'; cs_running := true |} eq_refl eq_refl Hwf) as [Hwf' Hsame].
  split; [exact Hwf'|exact Hrows|by intros ? ? ?%not_elem_of_nil|]. intros id _. cbn [fst snd svc store with_svc]. rewrite Hsame. rewrite Hsnd in Hout.
  destruct (row_of (store w) id) as [j|] eqn:Hrow.
  - destruct (Hrows _ _ Hrow) as [<- Hk]. assert (j ∈ l) as Hj by (apply Hin; eauto).
    rewrite <- Hsnd in Hj. apply list_elem_of_fmap in Hj as ([p j'] & -> & Hp). cbn [snd]. rewrite (Hjob _ _ Hp). constructor. right. by apply same_job_refreshed.
  - rewrite Hout; [constructor|]. intros (j & -> & [id' Hj]%Hin)%list_elem_of_fmap.
    destruct (Hrows _ _ Hj) as [<- _]. congruence.
Qed.

(** C9: Take a history of the service that begins with no job, in which jobs are added,
    removed, switched, and fired once they were picked (some of them removed in the
    meantime), and the program is started again; [EnableJob] counts as two steps, with any
    others between, and each other operation as one.  Statements may fail.  Suppose that a
    job is added as a new object with a new identifier, that the listing at each start
    succeeds, and that no job is removed, or fired for its only time, while an [EnableJob]
    on it has not saved yet.  Then for every identifier on whose row no statement fails: the
    table has a row if and only if the service has the job, and, once no [EnableJob] on it
    is under way, the row is the job, but that a job without a next time may have got one at
    the start. *)
Theorem table_mirrors_service (b : B) es
    (c0 : cstate := ({| svc := New; store := empty_cron_db; bus := b |}, [])) (c := fold_left cron_event_step es c0) :
  valid_events c0 es → ∀ id, reliable id →
    option_Forall2 (λ s j, id ∈ c.2.*1 ∨ same_job s j) (row_of (store c.1) id) (job_of (svc c.1) id).
Proof.
  intros Hv. enough (mirrors c) as Hm by apply Hm.
  assert (mirrors c0) as Hstart.
  { split; [split; [intros ? ? [=]|intros ? ? ? ? [=]]|intros ? ? [=]|by intros ? ? ?%not_elem_of_nil|]. intros id _. constructor. }
  subst c. revert Hv Hstart. generalize c0 as c1. induction es as [|e es IH]; intros [w pend]; cbn [fold_left valid_events]; [done|].
  intros [Hv Hvs] Hm. apply IH; [exact Hvs|].
  destruct e; [by apply mirrors_add|by apply mirrors_remove|by apply mirrors_enable|by apply mirrors_save|by apply mirrors_fire|by apply mirrors_restart].
Qed.
End mirror.

(** ** Examples *)

(** A codec by way of numbers. *)
Fixpoint pos_text (p : positive) : string := match p with xH => "" | xO p => String "0" (pos_text p) | xI p => String "1" (pos_text p) end.
Fixpoint text_pos (s : string) : positive :=
  match s with EmptyString => xH | String c s => if Ascii.eqb c "0" then xO (text_pos s) else xI (text_pos s) end.
Lemma text_pos_text p : text_pos (pos_text p) = p.
Proof. induction p as [p IH|p IH|]; cbn; by rewrite ?IH. Qed.

#[local] Instance sched_countable_eq : EqDecision CronSchedule.
Proof. solve_decision. Defined.
#[local] Instance sched_countable : Countable CronSchedule.
Proof.
  refine (inj_countable' (λ s, match s with
      | ScheduleAt t => inl (inl t) | ScheduleEvery d => inl (inr d) | ScheduleCron e z => inr (inl (e, z)) | ScheduleOther k => inr (inr k) end)
    (λ s : (Z + Z) + ((string * string) + string), match s with
      | inl (inl t) => ScheduleAt t | inl (inr d) => ScheduleEvery d | inr (inl (e, z)) => ScheduleCron e z | inr (inr k) => ScheduleOther k end) _).
  by intros [].
Defined.
#[local] Instance state_countable_eq : EqDecision CronJobState.
Proof. solve_decision. Defined.
#[local] Instance state_countable : Countable CronJobState.
Proof.
  refine (inj_countable' (λ s, (NextRunAt s, LastRunAt s, LastStatus s, LastError s))
    (λ '(n, l, s, e), {| NextRunAt := n; LastRunAt := l; LastStatus := s; LastError := e |}) _).
  by intros [].
Defined.

Definition zero_state : CronJobState := {| NextRunAt := 0; LastRunAt := 0; LastStatus := ""; LastError := "" |}.
#[local] Instance w_codec : JobCodec := {|
  enc_sched s := pos_text (encode s); dec_sched t := default (ScheduleOther "") (decode (text_pos t));
  enc_state s := pos_text (encode s); dec_state t := default zero_state (decode (text_pos t));
|}.
#[local] Instance w_codec_laws : JobCodecLaws.
Proof. split; intros s; cbn; by rewrite text_pos_text, decode_encode. Defined.

Definition w_scan (t : gmap string CronJobModel) : list string := (map_to_list t).*1.
Definition w_round (t : time) : time := t.

Section examples.
#[local] Existing Instance w_cron_bus.
#[local] Instance w_store : SchedulerStore cron_db := cron_store w_round w_scan no_cron_fault.

Definition w_once (id : string) (t : time) : CronJob :=
  {| job_ID := id; job_TenantID := "t"; job_UserID := "u"; job_Name := id; job_Enabled := true; job_Schedule := ScheduleAt t;
     job_Message := "hi"; job_Channel := "c"; job_ChatID := "h"; job_DeleteAfterRun := true; job_State := zero_state; job_CreatedAt := 0 |}.
Definition w_every (id : string) (d : duration) : CronJob :=
  {| job_ID := id; job_TenantID := "t"; job_UserID := "u"; job_Name := id; job_Enabled := true; job_Schedule := ScheduleEvery d;
     job_Message := "hi"; job_Channel := "c"; job_ChatID := "h"; job_DeleteAfterRun := false; job_State := zero_state; job_CreatedAt := 0 |}.

(** No statement on the job "b" fails; removing any other job does. *)
Definition w_fault (st : cron_stmt) (s : cron_db) : option goerror :=
  match st with
  | StDelete id => if bool_decide (id = "b"%string) then None else Some (ErrText "disk full")
  | _ => None
  end.

(** Jobs are added, one fires and goes, one is switched off, the program is started again. *)
Definition w_cron_events : list cron_event :=
  [EAdd 10 0 (w_once "a" 50); EAdd 11 1 (w_every "b" 20); EEnable 40 "b" true; EFire 50 3 0; EFire 51 3 1; ESave 0; EEnable 60 "b" false; ESave 0;
   ERestart 100; EFire 120 3 1].
Definition w_cron_start : cstate (B := list InboundMessage) := ({| svc := New; store := empty_cron_db; bus := [] |}, []).
Definition w_cron_step := cron_event_step (B := list InboundMessage) w_round w_scan tt (λ _, None) (λ _, Some 1) w_next w_fault.

Lemma table_mirrors_service_witness :
  let c := fold_left w_cron_step w_cron_events w_cron_start in
  dom (cron_jobs (store c.1)) = {["a"%string; "b"%string]} ∧ option_Forall2 (λ s j, "b"%string ∈ c.2.*1 ∨ same_job w_round s j) (row_of (store c.1) "b") (job_of (svc c.1) "b").
Proof.
  split; [by vm_compute|].
  apply (table_mirrors_service w_round w_scan (λ t, eq_refl) (λ t, reflexivity _) tt (λ _, None) (λ _, Some 1) w_next w_fault [] w_cron_events).
  - unfold w_cron_events. cbn [valid_events]. split_and!; hnf; try exact I; try (split; apply (bool_decide_unpack _); vm_compute; exact I); try reflexivity.
    all: intros j Hj Hone; vm_compute in Hj; injection Hj as <-; first [discriminate Hone | apply (bool_decide_unpack _); vm_compute; exact I].
  - intros s. split_and!; reflexivity.
Defined.

(** A job is removed while [EnableJob] is between its lock and its save: the service no
    longer has it, the table does, and the next start brings it back. *)
Lemma removed_job_returns :
  let w := (AddJob tt (λ _, None) (λ _, Some 1) w_next 10 0 (w_every "b" 20) w_cron_start.1).1 in
  match enable_locked tt (λ _, None) (λ _, Some 1) w_next 60 "b" false w with
  | Some (p, w) => let w := (enable_save p (RemoveJob "b" w).1).1 in
                   job_of (svc w) "b" = None ∧ is_Some (row_of (store w) "b")
  | None => False
  end.
Proof. vm_compute. split; [reflexivity|eexists; reflexivity]. Qed.
End examples.

(** ** [pkg/storage/sqlite/scheduler.go]

    The table of scheduled jobs of the programs without a server.  The times are not rounded;
    the columns have no types, so that reading a row can fail, which [unread] says. *)

Module Sqlite.

Section sqlite.
Context `{JobCodec} (scan : gmap string CronJobModel → list string).
Context (fault : cron_stmt → cron_db → option goerror) (unread : CronJobModel → option goerror).
Context (unread_log : CronJobLogModel → option goerror).

Definition sqlite_SaveJob (j : CronJob) (s : cron_db) : cron_db * option goerror :=
  match fault (StSave (job_ID j)) s with
  | Some e => (s, Some e)
  | None => (with_jobs (<[job_ID j := cronJobToModel j]> (cron_jobs s)) s, None)
  end.

(** The loop over the rows of a query: the first one that cannot be read ends it. *)
Fixpoint scan_rows {A B : Type} (unread : A → option goerror) (f : A → B) (rows : list A) : result goerror (list B) :=
  match rows with
  | [] => Ok []
  | m :: rows => match unread m with Some e => Err e | None => l <-? scan_rows unread f rows ;; Ok (f m :: l) end
  end.

Definition sqlite_ListJobs (tenantID : string) (s : cron_db) : result goerror (list CronJob) :=
  match fault StList s with
  | Some e => Err e
  | None =>
      let rows := omap (λ id, cron_jobs s !! id) (scan (cron_jobs s)) in
      scan_rows unread cronJobFromModel (if str_empty tenantID then rows else filter (λ m, cm_TenantID m = tenantID) rows)
  end.

Definition sqlite_DeleteJob (jobID : string) (s : cron_db) : cron_db * option goerror :=
  match fault (StDelete jobID) s with
  | Some e => (s, Some e)
  | None => (with_jobs (delete jobID (cron_jobs s)) s, None)
  end.

Definition sqlite_UpdateJobState (jobID : string) (state : CronJobState) (s : cron_db) : cron_db * option goerror :=
  match fault (StState jobID) s with
  | Some e => (s, Some e)
  | None => (with_jobs (alter (row_with_state (enc_state state)) jobID (cron_jobs s)) s, None)
  end.

Definition sqlite_LogExecution (log : CronJobLog) (s : cron_db) : cron_db * option goerror :=
  match fault StLog s with
  | Some e => (s, Some e)
  | None => ({| cron_jobs := cron_jobs s; cron_logs := cron_logs s ++ [{| lm_ID := cron_next s; lm_Log := log |}]; cron_next := cron_next s + 1 |}, None)
  end.

Definition sqlite_ListLogs (jobID : string) (limit : Z) (s : cron_db) : result goerror (list CronJobLogModel) :=
  match fault StLogs s with
  | Some e => Err e
  | None =>
      let rows := insertion_sort newer (filter (λ l, log_JobID (lm_Log l) = jobID) (cron_logs s)) in
      scan_rows unread_log id (if 0 <? limit then take (Z.to_nat limit) rows else rows)
  end.

#[export] Instance sqlite_store : SchedulerStore cron_db := {|
  st_SaveJob := sqlite_SaveJob;
  st_ListJobs t s := match sqlite_ListJobs t s with Err e => Err e | Ok l => Ok (imap pair l) end;
  st_DeleteJob := sqlite_DeleteJob;
  st_UpdateJobState := sqlite_UpdateJobState;
  st_LogExecution := sqlite_LogExecution;
|}.

(** ** The two stores *)

Lemma scan_rows_all {A B} (un : A → option goerror) (f : A → B) rows :
  Forall (λ m, un m = None) rows → scan_rows un f rows = Ok (f <$> rows).
Proof. induction 1 as [|m rows Hm _ IH]; [done|]. cbn. by rewrite Hm, IH. Qed.

Lemma scan_rows_ok {A B} (un : A → option goerror) (f : A → B) rows l : scan_rows un f rows = Ok l → Forall (λ m, un m = None) rows.
Proof.
  revert l. induction rows as [|m rows IH]; intros l; [by constructor|]. cbn. destruct (un m) eqn:Hm; [done|].
  destruct (scan_rows un f rows) as [k|] eqn:Hr; [|done]. intros _. constructor; [done|by eapply IH].
Qed.

(** If every row can be read, the store does what the other one does when it does not round,
    for whatever statements fail. *)
Theorem sqlite_store_agrees :
  (∀ m, unread m = None) → (∀ l, unread_log l = None) →
  (∀ j s, sqlite_SaveJob j s = SaveJob id fault j s) ∧
  (∀ t s, sqlite_ListJobs t s = ListJobs scan fault t s) ∧
  (∀ i s, sqlite_DeleteJob i s = DeleteJob fault i s) ∧
  (∀ i st s, sqlite_UpdateJobState i st s = UpdateJobState fault i st s) ∧
  (∀ l s, sqlite_LogExecution l s = LogExecution fault l s) ∧
  (∀ i n s, sqlite_ListLogs i n s = ListLogs fault i n s).
Proof.
  intros Hu Hul. split_and!; intros; try done.
  - unfold sqlite_ListJobs, ListJobs. destruct (fault StList s); [done|]. rewrite scan_rows_all by (apply Forall_forall; auto).
    do 2 f_equal. destruct (str_empty t).
    + induction (omap _ _) as [|m rows IH]; [done|]. rewrite filter_cons_True by done. by rewrite <- IH.
    + apply list_filter_iff. intros m. cbn. by rewrite bool_decide_eq_true.
  - unfold sqlite_ListLogs, ListLogs. destruct (fault StLogs s); [done|]. rewrite scan_rows_all by (apply Forall_forall; auto).
    by rewrite list_fmap_id.
Qed.

(** One row that cannot be read fails the listing with which the service starts. *)
Theorem one_row_hides_all m s : (∀ t, range_order t (scan t)) → fault StList s = None →
  m ∈ (map_to_list (cron_jobs s)).*2 → unread m ≠ None → is_ok (sqlite_ListJobs "" s) = false.
Proof.
  intros Ho Hf Hm Hu. unfold sqlite_ListJobs. rewrite Hf. cbn [str_empty].
  destruct (scan_rows unread cronJobFromModel _) as [l|] eqn:Hs; [|done]. apply scan_rows_ok in Hs. rewrite Forall_forall in Hs.
  exfalso. apply Hu, Hs. apply list_elem_of_fmap in Hm as ([i m'] & -> & Hm%elem_of_map_to_list). cbn.
  apply list_elem_of_omap. exists i. split; [|done]. apply (range_order_elem _ _ (i) (Ho _)). by eexists.
Qed.
End sqlite.

End Sqlite.
