(* ===== verification/CronTools.v ===== *)
(** The [cron] tool of [pkg/tools/cron.go]: the agent's hold on the cron service of
    [Cron] and, where there is none, on the store.

    The clock is read where the code reads it; how a duration and a time are written is a
    parameter. *)
From stdpp Require Import pretty.
From S2P Require Import Prelude GoStrings Quote Consolidation.
From S2P Require Import Types Cron CronStore.

Record cronArgs := {
  ca_Action : string; ca_JobID : string; ca_Name : string; ca_Message : string; ca_AtSecs : Z; ca_EverySec : Z;
  ca_CronExpr : string; ca_Timezone : string;
}.

Record cronJobEntry := { je_ID : string; je_Name : string; je_Enabled : bool; je_Schedule : string }.
Record cronResult := { cr_Result : string; cr_Jobs : list cronJobEntry; cr_Error : string }.

(** The keys of the session state the tool reads. *)
Record cron_ctx := { cx_tenant : string; cx_channel : string; cx_chat : string; cx_user : string }.

(** The clock at the places where it is read. *)
Record readings := { rd_at : time; rd_id : time; rd_created : time; rd_service : time }.

Definition cron_ok (s : string) : cronResult := {| cr_Result := s; cr_Jobs := []; cr_Error := "" |}.
Definition cron_error (s : string) : cronResult := {| cr_Result := ""; cr_Jobs := []; cr_Error := s |}.

(** [fmt.Sprintf("cron-%d", time.Now().UnixNano())]. *)
Definition UnixNano (t : time) : Z := wrap64 (t - unix_epoch).
Definition new_job_id (t : time) : string := "cron-" +:+ pretty (UnixNano t).

Definition requested_schedule (args : cronArgs) (now : time) : option CronSchedule :=
  if 0 <? ca_AtSecs args then Some (ScheduleAt (time_add now (wrap64 (ca_AtSecs args * Second))))
  else if 0 <? ca_EverySec args then Some (ScheduleEvery (wrap64 (ca_EverySec args * Second)))
  else if negb (str_empty (ca_CronExpr args)) then Some (ScheduleCron (ca_CronExpr args) (ca_Timezone args))
  else None.

Definition requested_job (args : cronArgs) (ctx : cron_ctx) (sched : CronSchedule) (rd : readings) : CronJob :=
  {| job_ID := new_job_id (rd_id rd); job_TenantID := cx_tenant ctx; job_UserID := cx_user ctx; job_Name := ca_Name args;
     job_Enabled := true; job_Schedule := sched; job_Message := ca_Message args; job_Channel := cx_channel ctx;
     job_ChatID := cx_chat ctx; job_DeleteAfterRun := is_at sched;
     job_State := {| NextRunAt := time_zero; LastRunAt := time_zero; LastStatus := ""; LastError := "" |};
     job_CreatedAt := rd_created rd |}.

Section tool.
Context {Loc Sched : Type} (UTC : Loc) (LoadLocation : string → option Loc).
Context (parse : string → option Sched) (inner_Next : Sched → Loc → time → time).
Context {St B : Type} `{SchedulerStore St} `{InboundBus B}.
Context (duration_String format_RFC3339 : Z → string).
(** Whether [Deps] has a scheduler. *)
Context (scheduled : bool).

Abbreviation tworld := (Cron.world (St := St) (B := B)).

(** A step of the service, or one of the store alone. *)
Definition on_store (f : St → St * option goerror) (w : tworld) : tworld * option goerror :=
  let '(s, e) := f (store w) in (with_store w s, e).

Definition cronAdd (ctx : cron_ctx) (args : cronArgs) (p : nat) (rd : readings) (w : tworld) : tworld * cronResult :=
  if str_empty (ca_Message args) then (w, cron_error "message is required for add")
  else
    match requested_schedule args (rd_at rd) with
    | None => (w, cron_error "specify at_seconds, every_seconds, or cron_expr")
    | Some sched =>
        let job := requested_job args ctx sched rd in
        if scheduled then
          match AddJob UTC LoadLocation parse inner_Next (rd_service rd) p job w with
          | (w, Some e) => (w, cron_error ("add failed: " +:+ error_text e))
          | (w, None) => (w, cron_ok ("job " +:+ job_ID job +:+ " created"))
          end
        else
          match on_store (st_SaveJob job) w with
          | (w, Some e) => (w, cron_error ("save failed: " +:+ error_text e))
          | (w, None) => (w, cron_ok ("job " +:+ job_ID job +:+ " created"))
          end
    end.

Definition schedule_text (s : CronSchedule) : string :=
  match s with
  | ScheduleEvery d => "every " +:+ duration_String d
  | ScheduleCron e _ => e
  | ScheduleAt t => "at " +:+ format_RFC3339 t
  | ScheduleOther k => k
  end.

Definition job_entry (j : CronJob) : cronJobEntry :=
  {| je_ID := job_ID j; je_Name := job_Name j; je_Enabled := job_Enabled j; je_Schedule := schedule_text (job_Schedule j) |}.

Definition cronList (order : list string) (tenantID : string) (w : tworld) : cronResult :=
  if scheduled then {| cr_Result := ""; cr_Jobs := job_entry <$> Cron.ListJobs (svc w) order tenantID; cr_Error := "" |}
  else
    match st_ListJobs tenantID (store w) with
    | Err e => cron_error ("list failed: " +:+ error_text e)
    | Ok jobs => {| cr_Result := ""; cr_Jobs := job_entry <$> jobs.*2; cr_Error := "" |}
    end.

Definition cronJobOwnedByTenant (order : list string) (jobID tenantID : string) (w : tworld) : bool :=
  if negb scheduled then true
  else existsb (λ j, bool_decide (job_ID j = jobID)) (Cron.ListJobs (svc w) order tenantID).

Definition cronRemove (order : list string) (jobID tenantID : string) (w : tworld) : tworld * cronResult :=
  if str_empty jobID then (w, cron_error "job_id is required")
  else if negb (cronJobOwnedByTenant order jobID tenantID w) then (w, cron_error "job not found")
  else
    match (if scheduled then RemoveJob jobID w else on_store (st_DeleteJob jobID) w) with
    | (w, Some e) => (w, cron_error ("delete failed: " +:+ error_text e))
    | (w, None) => (w, cron_ok ("job " +:+ jobID +:+ " removed"))
    end.

(** The state that is written where there is no scheduler. *)
Definition toggled_state (enabled : bool) : CronJobState :=
  {| NextRunAt := time_zero; LastRunAt := time_zero; LastStatus := if enabled then "enabled" else "disabled"; LastError := "" |}.

Definition cronToggle (order : list string) (jobID : string) (enabled : bool) (tenantID : string) (now : time) (w : tworld) : tworld * cronResult :=
  if str_empty jobID then (w, cron_error "job_id is required")
  else if negb (cronJobOwnedByTenant order jobID tenantID w) then (w, cron_error "job not found")
  else
    match (if scheduled then EnableJob UTC LoadLocation parse inner_Next now jobID enabled w
           else on_store (st_UpdateJobState jobID (toggled_state enabled)) w) with
    | (w, Some e) => (w, cron_error ("toggle failed: " +:+ error_text e))
    | (w, None) => (w, cron_ok ("job " +:+ jobID +:+ " " +:+ if enabled then "enabled" else "disabled"))
    end.

Definition cron_tool (ctx : cron_ctx) (args : cronArgs) (order : list string) (p : nat) (rd : readings) (w : tworld) : tworld * cronResult :=
  let tenantID := cx_tenant ctx in
  if bool_decide (ca_Action args = "add"%string) then cronAdd ctx args p rd w
  else if bool_decide (ca_Action args = "list"%string) then (w, cronList order tenantID w)
  else if bool_decide (ca_Action args = "remove"%string) then cronRemove order (ca_JobID args) tenantID w
  else if bool_decide (ca_Action args = "enable"%string) then cronToggle order (ca_JobID args) true tenantID (rd_service rd) w
  else if bool_decide (ca_Action args = "disable"%string) then cronToggle order (ca_JobID args) false tenantID (rd_service rd) w
  else (w, cron_error ("unknown action " +:+ go_quote (ca_Action args) +:+ ", use: add, list, remove, enable, disable")).
End tool.

(** ** Confinement *)

Section confined.
Context `{JobCodec} (round : time → time) (scan : gmap string CronJobModel → list string).
Context (fault : cron_stmt → cron_db → option goerror).
Context {Loc Sched : Type} (UTC : Loc) (LoadLocation : string → option Loc).
Context (parse : string → option Sched) (inner_Next : Sched → Loc → time → time).
Context {B : Type} `{InboundBus B} (duration_String format_RFC3339 : Z → string).

#[local] Instance tool_store : SchedulerStore cron_db := cron_store round scan fault.
Abbreviation dworld := (Cron.world (St := cron_db) (B := B)).

(** The job and the row under an identifier are as they were. *)
Definition untouched (id : string) (w w' : dworld) : Prop :=
  job_of (svc w') id = job_of (svc w) id ∧ cron_jobs (store w') !! id = cron_jobs (store w) !! id.

Lemma save_other j s id : id ≠ job_ID j → cron_jobs (SaveJob round fault j s).1 !! id = cron_jobs s !! id.
Proof. intros Hne. unfold SaveJob. destruct (fault _ s); [done|]. cbn. by rewrite lookup_insert_ne. Qed.
Lemma delete_other jid s id : id ≠ jid → cron_jobs (DeleteJob fault jid s).1 !! id = cron_jobs s !! id.
Proof. intros Hne. unfold DeleteJob. destruct (fault _ s); [done|]. cbn. by rewrite lookup_delete_ne. Qed.

Lemma AddJob_untouched now p job (w : dworld) id :
  svc_wf (svc w) → cs_heap (svc w) !! p = None → id ≠ job_ID job →
  untouched id w (AddJob UTC LoadLocation parse inner_Next now p job w).1.
Proof.
  intros Hwf Hp Hne. unfold AddJob. set (j1 := if IsZero (job_CreatedAt job) then _ else job).
  set (j2 := if IsZero (NextRunAt (job_State j1)) then _ else j1).
  assert (job_ID j2 = job_ID job) as Hid by (subst j2 j1; by repeat case_match).
  pose proof (save_other j2 (store w) id ltac:(by rewrite Hid)) as Hrow. cbn [st_SaveJob tool_store cron_store].
  destruct (SaveJob _ _ j2 (store w)) as [s [e|]]; cbn in Hrow; (split; [|exact Hrow]); cbn [fst svc with_svc with_store]; [done|].
  unfold job_of, lookup_job. cbn. rewrite lookup_insert_ne by congruence.
  destruct (cs_jobs (svc w) !! id) as [q|] eqn:Hq; cbn; [|done]. destruct (sw_jobs _ Hwf _ _ Hq) as (j' & Hj' & _).
  rewrite lookup_insert_ne; [done|]. congruence.
Qed.

Lemma RemoveJob_untouched jid (w : dworld) id : id ≠ jid → untouched id w (RemoveJob jid w).1.
Proof.
  intros Hne. unfold RemoveJob. pose proof (delete_other jid (store w) id Hne) as Hrow. cbn [st_DeleteJob tool_store cron_store].
  destruct (DeleteJob _ _ _) as [s [e|]]; cbn in Hrow; (split; [|exact Hrow]); [done|].
  change (job_of (drop_job jid (svc w)) id = job_of (svc w) id). rewrite job_of_drop. by rewrite decide_False.
Qed.

Lemma EnableJob_untouched now jid b (w : dworld) id :
  svc_wf (svc w) → id ≠ jid → untouched id w (EnableJob UTC LoadLocation parse inner_Next now jid b w).1.
Proof.
  intros Hwf Hne. unfold EnableJob. destruct (lookup_job (svc w) jid) as [[p j]|] eqn:Hl; [|done].
  apply lookup_job_Some in Hl as [Hp Hj]. destruct (sw_jobs _ Hwf _ _ Hp) as (j' & Hj' & Hid). assert (j' = j) as -> by congruence.
  set (j1 := if b then _ else _). assert (job_ID j1 = jid) as Hid1 by (subst j1; by destruct b).
  pose proof (save_other j1 (store w) id ltac:(congruence)) as Hrow. cbn [st_SaveJob tool_store cron_store store with_svc].
  assert (job_of (set_job p j1 (svc w)) id = job_of (svc w) id) as Hjob by (apply (job_of_set_other _ _ _ j); congruence || done).
  destruct (SaveJob _ _ j1 (store w)) as [s [e|]]; cbn in Hrow; (split; [exact Hjob|exact Hrow]).
Qed.

(** What the tenant is shown are its own jobs. *)
Lemma listed_own s order tenantID j :
  svc_wf s → range_order (cs_jobs s) order → tenantID ≠ ""%string →
  j ∈ Cron.ListJobs s order tenantID → job_of s (job_ID j) = Some j ∧ job_TenantID j = tenantID.
Proof.
  intros Hwf Ho Ht ([p j'] & -> & [Hten Hin]%list_elem_of_filter)%list_elem_of_fmap. cbn in *.
  apply ranged_elem in Hin as (id & _ & Hp & Hj). destruct (sw_jobs _ Hwf _ _ Hp) as (j & Hj' & <-). assert (j = j') as -> by congruence. split.
  - unfold job_of, lookup_job. rewrite Hp. cbn. by rewrite Hj.
  - unfold str_empty in Hten. rewrite bool_decide_false in Hten by done. by apply bool_decide_eq_true in Hten.
Qed.

Lemma owned_own (w : dworld) order jobID tenantID j :
  svc_wf (svc w) → range_order (cs_jobs (svc w)) order → tenantID ≠ ""%string →
  cronJobOwnedByTenant true order jobID tenantID w = true → job_of (svc w) jobID = Some j → job_TenantID j = tenantID.
Proof.
  intros Hwf Ho Ht (j' & Hin%list_elem_of_In & Heq%bool_decide_eq_true)%existsb_exists Hj. subst jobID.
  destruct (listed_own _ _ _ _ Hwf Ho Ht Hin) as [Hj' Hten]. congruence.
Qed.

(** Only what the tenant owns, or the identifier of a new job, is touched or shown. *)
Definition within (t newID : string) (w w' : dworld) (r : cronResult) : Prop :=
  (∀ id j, job_of (svc w) id = Some j → job_TenantID j ≠ t → id ≠ newID → untouched id w w')
  ∧ ∀ e, e ∈ cr_Jobs r → ∃ j, job_of (svc w) (je_ID e) = Some j ∧ job_TenantID j = t.

Lemma within_none t n w r : cr_Jobs r = [] → within t n w w r.
Proof. intros Hr. split; [done|]. rewrite Hr. by intros ? ?%not_elem_of_nil. Qed.

Lemma within_own t n w w' r :
  cr_Jobs r = [] → (∀ id j, job_of (svc w) id = Some j → job_TenantID j ≠ t → id ≠ n → untouched id w w') → within t n w w' r.
Proof. intros Hr Hw. split; [exact Hw|]. rewrite Hr. by intros ? ?%not_elem_of_nil. Qed.

Abbreviation add := (cronAdd UTC LoadLocation parse inner_Next true).
Abbreviation toggle := (cronToggle UTC LoadLocation parse inner_Next true).

Lemma cronAdd_within ctx args p rd (w : dworld) :
  svc_wf (svc w) → cs_heap (svc w) !! p = None →
  within (cx_tenant ctx) (new_job_id (rd_id rd)) w (add ctx args p rd w).1 (add ctx args p rd w).2.
Proof.
  intros Hwf Hp. unfold cronAdd. destruct (str_empty (ca_Message args)); [by apply within_none|].
  destruct (requested_schedule _ _) as [sched|]; [|by apply within_none].
  pose proof (AddJob_untouched (rd_service rd) p (requested_job args ctx sched rd) w) as Hadd.
  destruct (AddJob _ _ _ _ _ _ _ w) as [w1 [e|]]; (apply within_own; [done|]; intros id j _ _ Hne; by apply Hadd).
Qed.

Lemma cronRemove_within order jobID t n (w : dworld) :
  svc_wf (svc w) → range_order (cs_jobs (svc w)) order → t ≠ ""%string →
  within t n w (cronRemove true order jobID t w).1 (cronRemove true order jobID t w).2.
Proof.
  intros Hwf Ho Ht. unfold cronRemove. destruct (str_empty jobID); [by apply within_none|].
  destruct (cronJobOwnedByTenant _ _ _ _ w) eqn:Hown; cbn [negb]; [|by apply within_none].
  pose proof (RemoveJob_untouched jobID w) as Hrem.
  destruct (RemoveJob _ w) as [w1 [e|]];
    (apply within_own; [done|]; intros id j Hj Hten _; apply Hrem; intros ->; apply Hten; by eapply owned_own).
Qed.

Lemma cronToggle_within order jobID b t n now (w : dworld) :
  svc_wf (svc w) → range_order (cs_jobs (svc w)) order → t ≠ ""%string →
  within t n w (toggle order jobID b t now w).1 (toggle order jobID b t now w).2.
Proof.
  intros Hwf Ho Ht. unfold cronToggle. destruct (str_empty jobID); [by apply within_none|].
  destruct (cronJobOwnedByTenant _ _ _ _ w) eqn:Hown; cbn [negb]; [|by apply within_none].
  pose proof (EnableJob_untouched now jobID b w) as Hen.
  destruct (EnableJob _ _ _ _ _ _ _ w) as [w1 [e|]];
    (apply within_own; [done|]; intros id j Hj Hten _; apply Hen; [done|]; intros ->; apply Hten; by eapply owned_own).
Qed.

(** C24: In a program with a scheduler, and for a session that has a tenant (not the empty
    one), whatever the session asks for and whatever the statements answer: the jobs of other
    tenants and their rows stay as they are, unless the clock gives out the identifier of
    such a job for a new one; and no job of another tenant is shown.  Neither condition can
    be dropped: without a scheduler anybody's job is removed or switched
    ([unscheduled_remove], [unscheduled_toggle]), and a session without a tenant owns every
    job. *)
Theorem cron_confined ctx args order p rd (w w' : dworld) r (t := cx_tenant ctx) :
  t ≠ ""%string → svc_wf (svc w) → range_order (cs_jobs (svc w)) order → cs_heap (svc w) !! p = None →
  cron_tool UTC LoadLocation parse inner_Next duration_String format_RFC3339 true ctx args order p rd w = (w', r) →
  (∀ id j, job_of (svc w) id = Some j → job_TenantID j ≠ t → id ≠ new_job_id (rd_id rd) → untouched id w w')
  ∧ ∀ e, e ∈ cr_Jobs r → ∃ j, job_of (svc w) (je_ID e) = Some j ∧ job_TenantID j = t.
Proof.
  intros Ht Hwf Ho Hp Hrun. fold (within t (new_job_id (rd_id rd)) w w' r).
  change (within t (new_job_id (rd_id rd)) w (w', r).1 (w', r).2). rewrite <- Hrun. unfold cron_tool. clear Hrun. repeat case_match; [by apply cronAdd_within| |by apply cronRemove_within|by apply cronToggle_within..|by apply within_none].
  split; [done|]. cbn. intros e (j & -> & Hj)%list_elem_of_fmap. exists j. by apply (listed_own _ order).
Qed.

(** Without a scheduler a job is looked up nowhere: a session may remove the job of
    anybody, and switching a job off does not, but forgets when it is to run. *)
Lemma unscheduled_remove order jobID t (w : dworld) :
  jobID ≠ ""%string → fault (StDelete jobID) (store w) = None →
  cron_jobs (store (cronRemove false order jobID t w).1) = delete jobID (cron_jobs (store w)).
Proof. intros Hid Hf. unfold cronRemove, str_empty, on_store. rewrite bool_decide_false by done. cbn. unfold DeleteJob. by rewrite Hf. Qed.

Lemma unscheduled_toggle order jobID b t now (w : dworld) m :
  jobID ≠ ""%string → fault (StState jobID) (store w) = None → cron_jobs (store w) !! jobID = Some m →
  ∃ m', cron_jobs (store (cronToggle UTC LoadLocation parse inner_Next false order jobID b t now w).1) !! jobID = Some m'
    ∧ cm_Enabled m' = cm_Enabled m ∧ cm_State m' = enc_state (toggled_state b).
Proof.
  intros Hid Hf Hm. unfold cronToggle, str_empty, on_store. rewrite bool_decide_false by done. cbn. unfold UpdateJobState. rewrite Hf. cbn.
  rewrite lookup_alter_eq, Hm. by eexists.
Qed.
End confined.

(** An interval that does not fit is negative: the job is due whenever it has fired. *)
Lemma every_overflows :
  requested_schedule {| ca_Action := "add"; ca_JobID := ""; ca_Name := ""; ca_Message := "hi"; ca_AtSecs := 0; ca_EverySec := 10 ^ 10;
                        ca_CronExpr := ""; ca_Timezone := "" |} 5 = Some (ScheduleEvery (-8446744073709551616)).
Proof. by vm_compute. Qed.

(** ** Examples *)

Section examples.
#[local] Existing Instance w_codec.
#[local] Existing Instance w_cron_bus.
#[local] Instance w_tool_store : SchedulerStore cron_db := cron_store w_round w_scan no_cron_fault.

(** The service has a job of tenant [t]; a session of [u] tries to remove it. *)
Definition w_tenant_world := (AddJob tt (λ _, None) (λ _, Some 1) w_next 10 0 (w_every "b" 20) w_cron_start.1).1.
Definition w_other : cron_ctx := {| cx_tenant := "u"; cx_channel := "c"; cx_chat := "h"; cx_user := "eve" |}.
Definition w_remove : cronArgs :=
  {| ca_Action := "remove"; ca_JobID := "b"; ca_Name := ""; ca_Message := ""; ca_AtSecs := 0; ca_EverySec := 0; ca_CronExpr := ""; ca_Timezone := "" |}.
Definition w_readings : readings := {| rd_at := 20; rd_id := 20; rd_created := 20; rd_service := 20 |}.
Definition w_removal :=
  cron_tool tt (λ _, None) (λ _, Some 1) w_next pretty pretty true w_other w_remove ["b"%string] 1 w_readings w_tenant_world.

Lemma cron_confined_witness :
  cr_Error w_removal.2 = "job not found"%string ∧ job_of (svc w_removal.1) "b" = job_of (svc w_tenant_world) "b".
Proof.
  split; [by vm_compute|].
  refine (proj1 (proj1 (cron_confined w_round w_scan no_cron_fault tt (λ _, None) (λ _, Some 1) w_next pretty pretty w_other w_remove
    ["b"%string] 1 w_readings w_tenant_world w_removal.1 w_removal.2 _ _ _ _ _) "b"%string (job_set_next (job_with_created (w_every "b" 20) 10) 30) _ _ _)).
  - discriminate.
  - split.
    + intros id p Hp. change (cs_jobs (svc w_tenant_world)) with (<["b"%string := 0%nat]> (∅ : gmap string nat)) in Hp.
      apply lookup_insert_Some in Hp as [[<- <-]|[_ Hp]]; [by eexists|]. done.
    + change (cs_heap (svc w_tenant_world)) with (<[0%nat := job_set_next (job_with_created (w_every "b" 20) 10) 30]> (∅ : gmap nat CronJob)).
      intros p p' j j' [[<- _]|[_ Hp]]%lookup_insert_Some [[<- _]|[_ Hp']]%lookup_insert_Some _; done.
  - unfold range_order. vm_compute. reflexivity.
  - vm_compute. reflexivity.
  - apply surjective_pairing.
  - vm_compute. reflexivity.
  - discriminate.
  - vm_compute. discriminate.
Defined.
End examples.
