(* ===== verification/Config.v ===== *)
(** The configuration and what is made of it: the structures and [Validate] of
    [pkg/agent/bootstrap.go], and of [pkg/bootstrap] the checks of the programs
    ([validation.go]), the transports ([channels.go]) and what the tools are given
    ([tools.go]).

    Reading the YAML file is left out. *)
From stdpp Require Import pretty.
From S2P Require Import Wecom Telegram Discord Feishu.
From S2P Require Import Prelude GoStrings Quote Floats Types Stores Channels Shell.

(** ** The structures *)

Record ObjectStoreConfig := { os_Type : string; os_Bucket : string; os_Region : string; os_Dir : string }.
Record VectorDBConfig := { vd_Addr : string; vd_Collection : string }.
Record EmbeddingConfig := { em_APIBase : string; em_APIKey : string; em_Model : string; em_Dimension : Z }.
Record CacheConfig := { ch_TenantSize : Z; ch_SkillSize : Z }.
Record ProviderConfig := {
  pv_Name : string; pv_APIBase : string; pv_APIKey : string; pv_Model : string; pv_Proxy : string; pv_MaxTokensField : string;
  pv_PromptCaching : bool;
}.
Record SchedulerConfig := { sd_HeartbeatInterval : string; sd_HeartbeatChannel : string; sd_DecisionMode : string }.
Record MCPServerConfig := {
  ms_Command : string; ms_Args : list string; ms_Env : gmap string string; ms_URL : string; ms_Headers : gmap string string;
  ms_ToolTimeout : Z;
}.
Record WeComChannelConfig := {
  wm_Token : string; wm_EncodingAESKey : string; wm_WebhookURL : string; wm_WebhookHost : string; wm_WebhookPort : Z;
  wm_WebhookPath : string; wm_ReplyTimeout : Z; wm_AllowFrom : list string; wm_TenantID : string; wm_UserID : string;
}.
Record TelegramChannelConfig := { tg_Token : string; tg_AllowFrom : list string; tg_TenantID : string; tg_PollTimeout : Z }.
Record DiscordChannelConfig := { di_Token : string; di_AllowFrom : list string; di_TenantID : string; di_GuildID : string }.
Record FeishuChannelConfig := {
  fi_AppID : string; fi_AppSecret : string; fi_VerificationToken : string; fi_EncryptKey : string; fi_WebhookHost : string;
  fi_WebhookPort : Z; fi_WebhookPath : string; fi_AllowFrom : list string; fi_TenantID : string;
}.
Record SessionConfig := { se_Type : string; se_Dir : string }.
Record A2AConfig := { aa_Enabled : bool; aa_Addr : string }.
Record ConsoleConfig := {
  cn_Addr : string; cn_JWTSecret : string; cn_EncryptionSecret : string; cn_StaticDir : string; cn_AllowedOrigins : list string;
}.
Record SandboxConfig := {
  sb_RestrictToWorkspace : bool; sb_AllowedPaths : list string; sb_ExtraDenyPatterns : list string;
  sb_ExecMemoryMB : Z; sb_ExecCPUSeconds : Z; sb_ExecFileSizeMB : Z; sb_ExecNProc : Z;
  sb_RateLimit : float64; sb_RateBurst : Z; sb_Level : string; sb_SandboxBinary : string;
  sb_ContainerImage : string; sb_ContainerRuntime : string; sb_ContainerBinary : string; sb_ContainerMemMB : Z;
  sb_ContainerCPUs : string; sb_ContainerPids : Z; sb_ContainerNetwork : string; sb_ContainerTmpMB : Z; sb_ContainerDiskMB : Z;
  sb_ContainerWorkspaceRoot : string; sb_GVisorBinary : string; sb_GVisorNetwork : bool;
}.
Record PluginsConfig := { pl_AuditLog : bool; pl_TokenTracker : bool; pl_MemoryConsolidation : bool }.
Record AgentDefConfig := { ac_ID : string; ac_Name : string; ac_Description : string; ac_Model : string; ac_Routes : list AgentRoute }.

Record Config := {
  cf_AppName : string; cf_MySQLDSN : string; cf_ObjectStore : ObjectStoreConfig; cf_VectorDB : VectorDBConfig;
  cf_Embedding : EmbeddingConfig; cf_Cache : CacheConfig; cf_Providers : list ProviderConfig; cf_Agents : list AgentDefConfig;
  cf_Plugins : PluginsConfig; cf_Scheduler : SchedulerConfig; cf_MCP : gmap string MCPServerConfig; cf_WeCom : WeComChannelConfig;
  cf_Telegram : TelegramChannelConfig; cf_Discord : DiscordChannelConfig; cf_Feishu : FeishuChannelConfig; cf_Session : SessionConfig;
  cf_A2A : A2AConfig; cf_Sandbox : SandboxConfig; cf_Console : ConsoleConfig; cf_SkillCacheDir : string; cf_ContextWindow : Z;
  cf_BusBufferSize : Z; cf_HealthAddr : string; cf_CLITenantID : string; cf_CLIUserID : string; cf_CLINoMarkdown : bool;
}.

(** ** Validate *)

(** A message if a condition holds. *)
Definition complain (b : bool) (msg : string) : list string := if b then [msg] else [].

Definition provider_problems (i : nat) (p : ProviderConfig) : list string :=
  let prefix := "providers[" +:+ pretty i +:+ "] (" +:+ pv_Name p +:+ "): " in
  complain (str_empty (pv_APIKey p)) (prefix +:+ "api_key is required")
  ++ complain (str_empty (pv_Model p)) (prefix +:+ "model is required").

Definition agent_problems (i : nat) (a : AgentDefConfig) : list string :=
  complain (str_empty (ac_ID a)) ("agents[" +:+ pretty i +:+ "]: id is required")
  ++ complain (str_empty (ac_Model a)) ("agents[" +:+ pretty i +:+ "] (" +:+ ac_ID a +:+ "): model is required").

Definition sandbox_levels : list string := [""; "none"; "standard"; "strict"; "gvisor"; "container"]%string.

(** The problems, in the order in which they are added. *)
Definition problems (c : Config) : list string :=
  complain (str_empty (cf_MySQLDSN c)) "mysql_dsn is required"
  ++ complain (length (cf_Providers c) =? 0)%nat "at least one provider is required"
  ++ concat (imap provider_problems (cf_Providers c))
  ++ complain (length (cf_Agents c) =? 0)%nat "at least one agent is required"
  ++ concat (imap agent_problems (cf_Agents c))
  ++ complain (negb (str_empty (vd_Addr (cf_VectorDB c))) && str_empty (em_APIBase (cf_Embedding c)))
       "embedding.api_base is required when vector_db is configured"
  ++ complain (aa_Enabled (cf_A2A c) && str_empty (aa_Addr (cf_A2A c))) "a2a.addr is required when a2a is enabled"
  ++ complain (bool_decide (sd_DecisionMode (cf_Scheduler c) = "llm"%string) && (length (cf_Providers c) <? 1)%nat)
       "scheduler.decision_mode=llm requires at least one provider"
  ++ complain (negb (bool_decide (sb_Level (cf_Sandbox c) ∈ sandbox_levels)))
       ("sandbox.level " +:+ go_quote (sb_Level (cf_Sandbox c)) +:+ " is invalid; must be one of: none, standard, strict, gvisor, container").

Definition Validate (c : Config) : option goerror :=
  match problems c with
  | [] => None
  | errs => Some (ErrText ("config validation failed:" +:+ lf +:+ "  - " +:+ join errs (lf +:+ "  - ")))
  end.

(** ** validation.go *)

Definition ValidateForAgent (c : Config) : option goerror :=
  if (length (cf_Providers c) =? 0)%nat then Some (ErrText "at least one provider is required for agent mode") else None.

(** [ValidateForServer] and [ValidateForWeb], which differ in the name of the mode. *)
Definition validate_console (mode : string) (c : Config) : option goerror :=
  if (length (cf_Providers c) =? 0)%nat then Some (ErrText ("at least one provider is required for " +:+ mode +:+ " mode"))
  else if str_empty (cf_MySQLDSN c) then Some (ErrText ("mysql_dsn is required for " +:+ mode +:+ " mode"))
  else if str_empty (cn_JWTSecret (cf_Console c))
  then Some (ErrText ("console.jwt_secret is required for " +:+ mode +:+ " mode (do not use default secrets in production)"))
  else None.
Definition ValidateForServer : Config → option goerror := validate_console "server".
Definition ValidateForWeb : Config → option goerror := validate_console "web".

(** ** tools.go *)

Definition level_of_string (s : string) : SandboxLevel :=
  if bool_decide (s = "none"%string) then SandboxNone
  else if bool_decide (s = "standard"%string) then SandboxStandard
  else if bool_decide (s = "strict"%string) then SandboxStrict
  else if bool_decide (s = "gvisor"%string) then SandboxGVisor
  else if bool_decide (s = "container"%string) then SandboxContainer
  else if bool_decide (s = ""%string) then SandboxUnset
  else SandboxOther s.

Definition buildSandboxOpts (c : SandboxConfig) : SandboxOpts :=
  let level := level_of_string (sb_Level c) in
  let container := match level with SandboxContainer => true | _ => false end in
  let gvisor := match level with SandboxGVisor => true | _ => false end in
  {| so_Level := level; so_HelperBinary := sb_SandboxBinary c;
     so_ContainerImage := if container then sb_ContainerImage c else "";
     so_ContainerRuntime := if container then sb_ContainerRuntime c else "";
     so_ContainerBinary := if container then sb_ContainerBinary c else "";
     so_ContainerMemMB := if container then sb_ContainerMemMB c else 0;
     so_ContainerCPUs := if container then sb_ContainerCPUs c else "";
     so_ContainerPids := if container then sb_ContainerPids c else 0;
     so_ContainerNetwork := if container then sb_ContainerNetwork c else "";
     so_ContainerTmpMB := if container then sb_ContainerTmpMB c else 0;
     so_ContainerDiskMB := if container then sb_ContainerDiskMB c else 0;
     so_ContainerWorkspaceRoot := if container then sb_ContainerWorkspaceRoot c else "";
     so_GVisorBinary := if gvisor then sb_GVisorBinary c else "";
     so_GVisorNetwork := gvisor && sb_GVisorNetwork c |}.

Definition exec_limits (c : SandboxConfig) : option ExecLimits :=
  if (0 <? sb_ExecMemoryMB c) || (0 <? sb_ExecCPUSeconds c) || (0 <? sb_ExecFileSizeMB c) || (0 <? sb_ExecNProc c)
  then Some {| el_MemoryMB := sb_ExecMemoryMB c; el_CPUSeconds := sb_ExecCPUSeconds c; el_FileSizeMB := sb_ExecFileSizeMB c;
               el_NProc := sb_ExecNProc c |}
  else None.

(** What [BuildLightweightTools] and [BuildFullTools] give the [exec] tool. *)
Definition tool_exec_deps (c : Config) : exec_deps :=
  {| xd_WorkspaceDir := "workspace";
     xd_DenyPatterns := [".env"; "*.key"; "*.pem"]%string ++ sb_ExtraDenyPatterns (cf_Sandbox c);
     xd_ExecLimits := exec_limits (cf_Sandbox c);
     xd_SandboxOpts := if negb (str_empty (sb_Level (cf_Sandbox c))) && negb (bool_decide (sb_Level (cf_Sandbox c) = "none"%string))
                       then Some (buildSandboxOpts (cf_Sandbox c)) else None |}.

(** ** channels.go *)

Section channels.
Context {B : Type}.

(** A transport of some kind. *)
Inductive channel :=
| ChWeCom (c : wecom (B := B)) | ChTelegram (c : TelegramChannel) | ChDiscord (c : DiscordChannel) | ChFeishu (c : FeishuChannel).

Definition wecom_config (c : WeComChannelConfig) : WeComConfig :=
  {| wc_Token := wm_Token c; wc_EncodingAESKey := wm_EncodingAESKey c; wc_WebhookURL := wm_WebhookURL c;
     wc_ReplyTimeout := wm_ReplyTimeout c; wc_AllowFrom := wm_AllowFrom c; wc_TenantID := wm_TenantID c; wc_UserID := wm_UserID c |}.
Definition telegram_config (c : TelegramChannelConfig) : TelegramConfig :=
  {| tl_Token := tg_Token c; tl_WebhookURL := ""; tl_WebhookPort := 0; tl_WebhookPath := ""; tl_AllowFrom := tg_AllowFrom c;
     tl_TenantID := tg_TenantID c; tl_PollTimeout := tg_PollTimeout c |}.
Definition discord_config (c : DiscordChannelConfig) : DiscordConfig :=
  {| dc_Token := di_Token c; dc_AllowFrom := di_AllowFrom c; dc_TenantID := di_TenantID c; dc_GuildID := di_GuildID c |}.
Definition feishu_config (c : FeishuChannelConfig) : FeishuConfig :=
  {| fs_AppID := fi_AppID c; fs_AppSecret := fi_AppSecret c; fs_VerificationToken := fi_VerificationToken c;
     fs_EncryptKey := fi_EncryptKey c; fs_WebhookHost := fi_WebhookHost c; fs_WebhookPort := fi_WebhookPort c;
     fs_WebhookPath := fi_WebhookPath c; fs_AllowFrom := fi_AllowFrom c; fs_TenantID := fi_TenantID c |}.

(** Each transport in turn: skipped if it is not configured, an error if it cannot be made. *)
Definition add_channel (configured : bool) (name : string) (made : result goerror channel) (chans : gmap string channel)
    : result goerror (gmap string channel) :=
  if negb configured then Ok chans
  else match made with Err e => Err (ErrText (name +:+ " channel: " +:+ error_text e)) | Ok ch => Ok (<[name := ch]> chans) end.

Definition map_ok {A C} (f : A → C) (r : result goerror A) : result goerror C := x <-? r ;; Ok (f x).

Definition NewChannels (c : Config) (b : B) : result goerror (gmap string channel) :=
  chans <-? add_channel (negb (str_empty (wm_Token (cf_WeCom c)))) wecom_name
              (map_ok ChWeCom (NewWeComChannel (wecom_config (cf_WeCom c)) b)) ∅ ;;
  chans <-? add_channel (negb (str_empty (tg_Token (cf_Telegram c)))) telegram_name
              (map_ok ChTelegram (NewTelegramChannel (telegram_config (cf_Telegram c)))) chans ;;
  chans <-? add_channel (negb (str_empty (di_Token (cf_Discord c)))) discord_name
              (map_ok ChDiscord (NewDiscordChannel (discord_config (cf_Discord c)))) chans ;;
  add_channel (negb (str_empty (fi_AppID (cf_Feishu c)))) feishu_name
    (map_ok ChFeishu (NewFeishuChannel (feishu_config (cf_Feishu c)))) chans.
End channels.
Arguments channel : clear implicits.

(** ** What is checked *)

Lemma complain_nil b msg : complain b msg = [] ↔ b = false.
Proof. by destruct b. Qed.

Lemma concat_nil {A} (ls : list (list A)) : concat ls = [] ↔ Forall (λ l, l = []) ls.
Proof.
  induction ls as [|l ls IH]; cbn; [by split|]. rewrite app_nil, Forall_cons, IH. done.
Qed.

Lemma imap_Forall {A C} (f : nat → A → C) (P : C → Prop) (Q : A → Prop) l :
  (∀ i x, P (f i x) ↔ Q x) → Forall P (imap f l) ↔ Forall Q l.
Proof.
  revert f. induction l as [|x l IH]; intros f Hf; cbn; [done|]. rewrite !Forall_cons, Hf, IH; [done|]. intros i y. apply (Hf (S i)).
Qed.

Lemma str_empty_false s : str_empty s = false ↔ s ≠ ""%string.
Proof. unfold str_empty. by rewrite bool_decide_eq_false. Qed.

Lemma provider_problems_nil i p : provider_problems i p = [] ↔ pv_APIKey p ≠ ""%string ∧ pv_Model p ≠ ""%string.
Proof. unfold provider_problems. by rewrite app_nil, !complain_nil, !str_empty_false. Qed.
Lemma agent_problems_nil i a : agent_problems i a = [] ↔ ac_ID a ≠ ""%string ∧ ac_Model a ≠ ""%string.
Proof. unfold agent_problems. by rewrite app_nil, !complain_nil, !str_empty_false. Qed.

(** What a configuration has to have. *)
Record valid (c : Config) : Prop := {
  va_dsn : cf_MySQLDSN c ≠ ""%string;
  va_providers : cf_Providers c ≠ [] ∧ Forall (λ p, pv_APIKey p ≠ ""%string ∧ pv_Model p ≠ ""%string) (cf_Providers c);
  va_agents : cf_Agents c ≠ [] ∧ Forall (λ a, ac_ID a ≠ ""%string ∧ ac_Model a ≠ ""%string) (cf_Agents c);
  va_embedding : vd_Addr (cf_VectorDB c) ≠ ""%string → em_APIBase (cf_Embedding c) ≠ ""%string;
  va_a2a : aa_Enabled (cf_A2A c) = true → aa_Addr (cf_A2A c) ≠ ""%string;
  va_level : sb_Level (cf_Sandbox c) ∈ sandbox_levels;
}.

Lemma length_zero {A} (l : list A) : (length l =? 0)%nat = false ↔ l ≠ [].
Proof. by destruct l. Qed.

(** [Validate] accepts what a configuration has to be; the sandbox then has a level that
    the [exec] tool knows, with the name that was configured. *)
Theorem Validate_spec c :
  (Validate c = None ↔ valid c)
  ∧ (Validate c = None → level_string (so_Level (buildSandboxOpts (cf_Sandbox c))) = sb_Level (cf_Sandbox c)
       ∧ ∀ s, so_Level (buildSandboxOpts (cf_Sandbox c)) ≠ SandboxOther s).
Proof.
  assert (Validate c = None ↔ problems c = []) as Hv by (unfold Validate; by destruct (problems c)).
  assert (problems c = [] ↔ valid c) as Hp.
  { unfold problems. rewrite !app_nil, !complain_nil, !concat_nil, str_empty_false, !length_zero.
    rewrite (imap_Forall _ _ _ _ provider_problems_nil), (imap_Forall _ _ _ _ agent_problems_nil).
    rewrite !andb_false_iff, !negb_false_iff, !bool_decide_eq_true, !bool_decide_eq_false, !str_empty_false. split.
    - intros (? & ? & ? & ? & ? & He & Ha & _ & ?). split; try done.
      + intros Hne. destruct He as [He|]; [|done]. unfold str_empty in He. by apply bool_decide_eq_true in He.
      + intros Hen. destruct Ha; congruence.
    - intros [Hd [Hp1 Hp2] [Ha1 Ha2] He Ha Hl]. split_and!; try done.
      + destruct (str_empty (vd_Addr _)) eqn:Hs; [by left|right]. apply He. by apply str_empty_false.
      + destruct (aa_Enabled _); [right; by apply Ha|by left].
      + right. by destruct (cf_Providers c). }
  rewrite Hv. split; [exact Hp|]. intros Hok%Hp. pose proof (va_level _ Hok) as Hl. unfold buildSandboxOpts. cbn. unfold level_of_string.
  unfold sandbox_levels in Hl. rewrite !elem_of_cons in Hl.
  destruct Hl as [->|[->|[->|[->|[->|[->|[]%not_elem_of_nil]]]]]]; (split; [reflexivity|by intros s]).
Qed.

(** *** The transports *)

Section transports.
Context {B : Type} (b : B).

(** What there is under the name of a transport. *)
Definition made_if {A} (configured : bool) (made : result goerror A) (f : A → channel B) (o : option (channel B)) : Prop :=
  if configured then ∃ x, made = Ok x ∧ o = Some (f x) else o = None.

Definition set_opt (name : string) (o : option (channel B)) (m : gmap string (channel B)) : gmap string (channel B) :=
  match o with Some ch => <[name := ch]> m | None => m end.

Lemma lookup_set_opt name o m k : set_opt name o m !! k = if decide (k = name) then match o with Some _ => o | None => m !! k end else m !! k.
Proof. destruct o; cbn; case_decide; subst; by simplify_map_eq. Qed.

Lemma add_channel_Ok {A} configured name (made : result goerror A) f chans r :
  add_channel configured name (map_ok f made) chans = Ok r → ∃ o, made_if configured made f o ∧ r = set_opt name o chans.
Proof.
  unfold add_channel, made_if. destruct configured; cbn; [|intros [= <-]; by exists None].
  destruct made as [x|e]; cbn; [|done]. intros [= <-]. exists (Some (f x)). split; [by exists x|done].
Qed.

(** Each transport whose token, or application, is configured is there under its own name,
    made of its own part of the configuration, and there is no other. *)
Theorem NewChannels_spec c chans :
  NewChannels c b = Ok chans →
  made_if (negb (str_empty (wm_Token (cf_WeCom c)))) (NewWeComChannel (wecom_config (cf_WeCom c)) b) ChWeCom (chans !! wecom_name)
  ∧ made_if (negb (str_empty (tg_Token (cf_Telegram c)))) (NewTelegramChannel (telegram_config (cf_Telegram c))) ChTelegram (chans !! telegram_name)
  ∧ made_if (negb (str_empty (di_Token (cf_Discord c)))) (NewDiscordChannel (discord_config (cf_Discord c))) ChDiscord (chans !! discord_name)
  ∧ made_if (negb (str_empty (fi_AppID (cf_Feishu c)))) (NewFeishuChannel (feishu_config (cf_Feishu c))) ChFeishu (chans !! feishu_name)
  ∧ ∀ name, is_Some (chans !! name) → name ∈ [wecom_name; telegram_name; discord_name; feishu_name].
Proof.
  unfold NewChannels. set (w := negb _). set (t := negb (str_empty (tg_Token _))). set (d := negb (str_empty (di_Token _))).
  set (f := negb (str_empty (fi_AppID _))).
  destruct (add_channel w _ _ _) as [m1|] eqn:H1; cbn; [|done]. destruct (add_channel t _ _ _) as [m2|] eqn:H2; cbn; [|done].
  destruct (add_channel d _ _ _) as [m3|] eqn:H3; cbn; [|done]. intros H4.
  apply add_channel_Ok in H1 as (o1 & H1 & ->), H2 as (o2 & H2 & ->), H3 as (o3 & H3 & ->), H4 as (o4 & H4 & ->).
  rewrite !lookup_set_opt, !lookup_empty. cbn. split_and!; [by destruct o1|by destruct o2|by destruct o3|by destruct o4|].
  intros name [ch Hch]. rewrite !lookup_set_opt, lookup_empty in Hch. rewrite !elem_of_cons.
  repeat (case_decide; [tauto|]). done.
Qed.
End transports.

(** *** The deny patterns *)

(** The patterns for key files are no regular expressions: those of Go do not compile
    them, and what does not compile is left out.  The first one is, and finds any letter
    followed by [env]. *)
Lemma key_patterns_do_nothing `{UnicodeCase} compile c cmd :
  compile "*.key"%string = None → compile "*.pem"%string = None →
  ValidateCommand compile cmd (xd_DenyPatterns (tool_exec_deps c))
  = ValidateCommand compile cmd (".env"%string :: sb_ExtraDenyPatterns (cf_Sandbox c)).
Proof. intros Hk Hp. unfold ValidateCommand, compileDenyPatterns. cbn. rewrite Hk, Hp. done. Qed.

(** ** Examples *)

Definition w_config : Config :=
  {| cf_AppName := ""; cf_MySQLDSN := "dsn"; cf_ObjectStore := {| os_Type := ""; os_Bucket := ""; os_Region := ""; os_Dir := "" |};
     cf_VectorDB := {| vd_Addr := ""; vd_Collection := "" |}; cf_Embedding := {| em_APIBase := ""; em_APIKey := ""; em_Model := ""; em_Dimension := 0 |};
     cf_Cache := {| ch_TenantSize := 0; ch_SkillSize := 0 |};
     cf_Providers := [{| pv_Name := "p"; pv_APIBase := ""; pv_APIKey := "k"; pv_Model := "m"; pv_Proxy := ""; pv_MaxTokensField := ""; pv_PromptCaching := false |}];
     cf_Agents := [{| ac_ID := "main"; ac_Name := "Main"; ac_Description := ""; ac_Model := "m"; ac_Routes := [] |};
                   {| ac_ID := "ops"; ac_Name := "Ops"; ac_Description := ""; ac_Model := "m"; ac_Routes := [] |}];
     cf_Plugins := {| pl_AuditLog := false; pl_TokenTracker := false; pl_MemoryConsolidation := false |};
     cf_Scheduler := {| sd_HeartbeatInterval := ""; sd_HeartbeatChannel := ""; sd_DecisionMode := "" |}; cf_MCP := ∅;
     cf_WeCom := {| wm_Token := "tok"; wm_EncodingAESKey := ""; wm_WebhookURL := "https://r"; wm_WebhookHost := ""; wm_WebhookPort := 0;
                    wm_WebhookPath := ""; wm_ReplyTimeout := 0; wm_AllowFrom := []; wm_TenantID := ""; wm_UserID := "" |};
     cf_Telegram := {| tg_Token := ""; tg_AllowFrom := []; tg_TenantID := ""; tg_PollTimeout := 0 |};
     cf_Discord := {| di_Token := "tok"; di_AllowFrom := []; di_TenantID := ""; di_GuildID := "" |};
     cf_Feishu := {| fi_AppID := ""; fi_AppSecret := ""; fi_VerificationToken := ""; fi_EncryptKey := ""; fi_WebhookHost := "";
                     fi_WebhookPort := 0; fi_WebhookPath := ""; fi_AllowFrom := []; fi_TenantID := "" |};
     cf_Session := {| se_Type := ""; se_Dir := "" |}; cf_A2A := {| aa_Enabled := false; aa_Addr := "" |};
     cf_Sandbox := {| sb_RestrictToWorkspace := true; sb_AllowedPaths := []; sb_ExtraDenyPatterns := []; sb_ExecMemoryMB := 512;
                      sb_ExecCPUSeconds := 0; sb_ExecFileSizeMB := 0; sb_ExecNProc := 0; sb_RateLimit := f64_zero; sb_RateBurst := 0;
                      sb_Level := "gvisor"; sb_SandboxBinary := ""; sb_ContainerImage := ""; sb_ContainerRuntime := ""; sb_ContainerBinary := "";
                      sb_ContainerMemMB := 0; sb_ContainerCPUs := ""; sb_ContainerPids := 0; sb_ContainerNetwork := ""; sb_ContainerTmpMB := 0;
                      sb_ContainerDiskMB := 0; sb_ContainerWorkspaceRoot := ""; sb_GVisorBinary := ""; sb_GVisorNetwork := false |};
     cf_Console := {| cn_Addr := ""; cn_JWTSecret := ""; cn_EncryptionSecret := ""; cn_StaticDir := ""; cn_AllowedOrigins := [] |};
     cf_SkillCacheDir := ""; cf_ContextWindow := 0; cf_BusBufferSize := 0; cf_HealthAddr := ""; cf_CLITenantID := ""; cf_CLIUserID := "";
     cf_CLINoMarkdown := false |}.

Lemma Validate_spec_witness : Validate w_config = None ∧ level_string (so_Level (buildSandboxOpts (cf_Sandbox w_config))) = "gvisor"%string.
Proof.
  assert (Validate w_config = None) as Hv by (vm_compute; reflexivity). split; [exact Hv|].
  apply (proj2 (Validate_spec w_config) Hv).
Defined.

Definition w_channels : gmap string (channel unit) :=
  match NewChannels w_config tt with Ok m => m | Err _ => ∅ end.

Lemma NewChannels_spec_witness : w_channels !! telegram_name = None ∧ is_Some (w_channels !! discord_name).
Proof.
  split.
  - exact (proj1 (proj2 (NewChannels_spec tt w_config w_channels eq_refl))).
  - vm_compute. eexists. reflexivity.
Defined.
