(* ===== verification/App.v ===== *)
(** The application: [Bootstrap], [Run] and [Shutdown] of [pkg/agent/bootstrap.go], and the
    server of [a2a.go].

    The agents and runners of the ADK are made by a parameter, and the parts that are started
    and stopped are known by what their start answers; a run is the list of what was done to
    them, in order.  Goroutines that serve are started and not waited for. *)
From stdpp Require Import pretty.
From S2P Require Import Wecom Telegram Discord Feishu Config.
From S2P Require Import Prelude GoStrings Quote Types Channels AgentRegistry.

(** ** Bootstrap *)

(** An element of [Tools]: a tool, or a value of another type. *)
Inductive any_tool := ATool (name : string) | ANoTool (type : string).

Section bootstrap.
Context {Runner C : Type}.
(** [llmagent.New] and [runner.New] for a name, a description and the tools. *)
Context (new_runner : string → string → list string → result goerror Runner).

Record BootstrapDeps := {
  bd_HasSummaryLLM : bool; bd_Tools : list any_tool; bd_Channels : gmap string C; bd_HasCron : bool; bd_HasHeartbeat : bool;
  bd_MCPClients : nat; bd_Plugins : nat;
}.

Record App := {
  ap_appName : string; ap_registry : AgentRegistry Runner; ap_channels : gmap string C; ap_compressor : bool; ap_window : Z;
  ap_a2a : option string; ap_health : option string; ap_cron : bool; ap_heartbeat : bool; ap_mcp : nat; ap_plugins : nat;
}.

Fixpoint cast_tools (l : list any_tool) : result goerror (list string) :=
  match l with
  | [] => Ok []
  | ANoTool type :: _ => Err (ErrText ("tool " +:+ type +:+ " does not implement tool.Tool"))
  | ATool name :: l => names <-? cast_tools l ;; Ok (name :: names)
  end.

Definition config_entry (a : AgentDefConfig) (r : Runner) : AgentEntry Runner :=
  {| ent_ID := ac_ID a; ent_Runner := r;
     ent_Config := {| def_ID := ac_ID a; def_Name := ac_Name a; def_Description := ac_Description a; def_Model := ac_Model a;
                      def_IsDefault := false; def_Routes := ac_Routes a |} |}.

Definition registerAgent (a : AgentDefConfig) (deps : BootstrapDeps) (reg : AgentRegistry Runner) : result goerror (AgentRegistry Runner) :=
  tools <-? cast_tools (bd_Tools deps) ;;
  r <-? new_runner (ac_Name a) (ac_Description a) tools ;;
  Ok (Register (config_entry a r) reg).

Fixpoint register_agents (agents : list AgentDefConfig) (deps : BootstrapDeps) (reg : AgentRegistry Runner)
    : result goerror (AgentRegistry Runner) :=
  match agents with
  | [] => Ok reg
  | a :: agents =>
      match registerAgent a deps reg with
      | Err e => Err (ErrText ("register agent " +:+ go_quote (ac_ID a) +:+ ": " +:+ error_text e))
      | Ok reg => register_agents agents deps reg
      end
  end.

(** The address of the server, if it is enabled. *)
Definition SetupA2AServer (cfg : A2AConfig) : option string := if aa_Enabled cfg then Some (aa_Addr cfg) else None.

(** The answer that lists the agents. *)
Definition ToJSONArray (items : list string) : string :=
  match items with [] => "[]" | _ => "[" +:+ join (go_quote <$> items) "," +:+ "]" end.

Definition Bootstrap (cfg : Config) (deps : BootstrapDeps) : result goerror App :=
  registry <-? register_agents (cf_Agents cfg) deps NewAgentRegistry ;;
  Ok {| ap_appName := if str_empty (cf_AppName cfg) then "abot" else cf_AppName cfg; ap_registry := registry;
        ap_channels := bd_Channels deps; ap_compressor := bd_HasSummaryLLM deps;
        ap_window := if cf_ContextWindow cfg <=? 0 then 128000 else cf_ContextWindow cfg;
        ap_a2a := SetupA2AServer (cf_A2A cfg);
        ap_health := if str_empty (cf_HealthAddr cfg) then None else Some (cf_HealthAddr cfg);
        ap_cron := bd_HasCron deps; ap_heartbeat := bd_HasHeartbeat deps; ap_mcp := bd_MCPClients deps; ap_plugins := bd_Plugins deps |}.

(** ** Run and Shutdown *)

Inductive part := PChannels | PA2A | PHealth | PCron | PHeartbeat | PLoop | PMCP (i : nat) | PPlugin (i : nat) | PBus.
Inductive action := AStart (p : part) | AServe (p : part) | AStop (p : part).

(** Whether a start, which may block others, failed. *)
Context (starts : part → option goerror).

(** A start that is waited for. *)
Definition start_part (wanted : bool) (p : part) (what : string) (k : list action * option goerror) : list action * option goerror :=
  if negb wanted then k
  else match starts p with
       | Some e => ([AStart p], Some (ErrText (what +:+ ": " +:+ error_text e)))
       | None => (AStart p :: k.1, k.2)
       end.

Definition serve_part (wanted : bool) (p : part) (k : list action * option goerror) : list action * option goerror :=
  if wanted then (AServe p :: k.1, k.2) else k.

Definition present (server : option string) : bool := match server with Some _ => true | None => false end.

(** The errors of the parts are logged. *)
Definition Shutdown (a : App) : list action :=
  (if ap_cron a then [AStop PCron] else []) ++ (if ap_heartbeat a then [AStop PHeartbeat] else []) ++ [AStop PChannels]
  ++ (if present (ap_a2a a) then [AStop PA2A] else []) ++ (if present (ap_health a) then [AStop PHealth] else [])
  ++ ((λ i, AStop (PMCP i)) <$> seq 0 (ap_mcp a)) ++ ((λ i, AStop (PPlugin i)) <$> seq 0 (ap_plugins a)) ++ [AStop PBus].

(** What ends the wait: a signal or the context, or an error of a server or of the loop. *)
Inductive run_end := EndSignal | EndCancelled | EndError (e : goerror).

Definition Run (a : App) (e : run_end) : list action * option goerror :=
  start_part true PChannels "start channels"
    (serve_part (present (ap_a2a a)) PA2A
      (serve_part (present (ap_health a)) PHealth
        (start_part (ap_cron a) PCron "start cron service"
          (start_part (ap_heartbeat a) PHeartbeat "start heartbeat service"
            (AServe PLoop :: match e with EndError _ => [] | _ => Shutdown a end,
             match e with EndError err => Some err | _ => None end))))).

Definition RunServices (a : App) : list action * option goerror :=
  start_part (ap_cron a) PCron "start cron service" (start_part (ap_heartbeat a) PHeartbeat "start heartbeat service" ([], None)).
End bootstrap.
Arguments BootstrapDeps : clear implicits.
Arguments App : clear implicits.

(** ** What a bootstrap registers *)

Section registered.
Context {Runner C : Type} (new_runner : string → string → list string → result goerror Runner).

Lemma register_agents_run agents (deps : BootstrapDeps C) ops reg :
  register_agents new_runner agents deps (registry_run ops) = Ok reg →
  ∃ entries, Forall2 (λ a e, ent_ID e = ac_ID a ∧ def_IsDefault (ent_Config e) = false ∧ def_Routes (ent_Config e) = ac_Routes a) agents entries
    ∧ reg = registry_run (ops ++ (RRegister <$> entries)).
Proof.
  revert ops. induction agents as [|a agents IH]; intros ops; cbn; [intros [= <-]; exists []; by rewrite app_nil_r|].
  destruct (registerAgent new_runner a deps (registry_run ops)) as [reg1|] eqn:Hreg; [|done]. intros Hrest.
  unfold registerAgent in Hreg. destruct (cast_tools _) as [tools|]; cbn in Hreg; [|done].
  destruct (new_runner _ _ tools) as [r|]; cbn in Hreg; [|done]. injection Hreg as <-.
  assert (Register (config_entry a r) (registry_run ops) = registry_run (ops ++ [RRegister (config_entry a r)])) as Hop.
  { unfold registry_run. by rewrite fold_left_app. }
  rewrite Hop in Hrest. destruct (IH _ Hrest) as (entries & Hall & ->). exists (config_entry a r :: entries). split; [by constructor|].
  cbn. by rewrite <- app_assoc.
Qed.

(** The entries of a run of registrations: the last one under each identifier. *)
Lemma registered_last (entries : list (AgentEntry Runner)) id :
  ar_agents (registry_run (RRegister <$> entries)) !! id = find_first (λ e, bool_decide (ent_ID e = id)) (reverse entries).
Proof.
  induction entries as [|e entries IH] using rev_ind; [done|]. rewrite fmap_app. unfold registry_run. rewrite fold_left_app.
  fold (registry_run (RRegister <$> entries)). cbn. rewrite reverse_snoc. cbn. case_bool_decide as Hid.
  - subst. by rewrite lookup_insert_eq.
  - by rewrite lookup_insert_ne.
Qed.

(** After a bootstrap every message is routed to an agent that was configured and runs;
    none is the default, so that one that no route fits goes to whichever agent the map is
    ranged over first: to any of them. *)
Theorem bootstrapped_agents cfg (deps : BootstrapDeps C) app :
  Bootstrap new_runner cfg deps = Ok app → cf_Agents cfg ≠ [] →
  let r := ap_registry app in
  (∀ id, is_Some (GetRunner r id) ↔ id ∈ (ac_ID <$> cf_Agents cfg))
  ∧ (∀ order order2 msg, range_order (ar_agents r) order → range_order (ar_agents r) order2 →
       ResolveRoute r order order2 msg ∈ (ac_ID <$> cf_Agents cfg))
  ∧ ∀ id msg, id ∈ (ac_ID <$> cf_Agents cfg) → Forall (λ route, MatchScore route msg = -1) (ar_routes r) →
       ∃ order, range_order (ar_agents r) order ∧ ResolveRoute r order order msg = id.
Proof.
  unfold Bootstrap. destruct (register_agents _ _ _ _) as [reg|] eqn:Hreg; cbn; [|done]. intros [= <-] Hne. cbn.
  apply (register_agents_run _ _ []) in Hreg as (entries & Hall & ->). cbn [app].
  set (r := registry_run (RRegister <$> entries)).
  assert (∀ id, is_Some (ar_agents r !! id) ↔ id ∈ (ac_ID <$> cf_Agents cfg)) as Hids.
  { intros id. subst r. rewrite registered_last. assert ((ac_ID <$> cf_Agents cfg) = (ent_ID <$> entries)) as ->.
    { clear Hne. induction Hall as [|a e agents entries [Hid _] _ IH]; [done|]. cbn. by rewrite Hid, IH. }
    rewrite list_elem_of_fmap. split.
    - intros [e He]. apply find_first_elem in He as [He Hid]. apply bool_decide_eq_true in Hid. exists e. split; [done|]. by apply elem_of_reverse.
    - intros (e & -> & He). destruct (find_first _ _) as [e'|] eqn:Hf; [by eexists|]. apply find_first_None in Hf.
      rewrite Forall_forall in Hf. specialize (Hf e (proj2 (elem_of_reverse _ _) He)). by rewrite bool_decide_true in Hf. }
  assert (ar_agents r ≠ ∅) as Hagents.
  { destruct (cf_Agents cfg) as [|a l]; [done|]. intros Hempty. assert (is_Some (ar_agents r !! ac_ID a)) as [e He] by (apply Hids; by left).
    by rewrite Hempty, lookup_empty in He. }
  split_and!.
  - intros id. rewrite <- Hids. unfold GetRunner. apply fmap_is_Some.
  - intros order order2 msg Ho Ho2. apply Hids. apply (fmap_is_Some ent_Runner).
    by apply (proj1 (resolved_agent_has_runner (RRegister <$> entries) order order2 msg Ho Ho2)).
  - intros id msg Hid Hunrouted. apply Hids in Hid as [e He].
    assert (id ∈ (map_to_list (ar_agents r)).*1) as [rest Hperm]%elem_of_Permutation.
    { apply list_elem_of_fmap. exists (id, e). split; [done|]. by apply elem_of_map_to_list. }
    exists (id :: rest). split; [unfold range_order; by rewrite Hperm|]. unfold ResolveRoute.
    rewrite best_loop_keep by (eapply Forall_impl; [exact Hunrouted|]; intros ? ->; done).
    unfold find_default. rewrite (proj2 (find_first_None _ _)); [done|]. apply Forall_forall.
    intros e' (id' & _ & He')%list_elem_of_omap. subst r. rewrite registered_last in He'. apply find_first_elem in He' as [He' _].
    rewrite elem_of_reverse in He'. apply list_elem_of_lookup in He' as [i Hi].
    by destruct (Forall2_lookup_r _ _ _ _ _ Hall Hi) as (a & _ & _ & Hd & _).
Qed.
End registered.

(** ** Starting and stopping *)

Section lifecycle.
Context {Runner C : Type} (starts : part → option goerror).

Definition stopped (acts : list action) (p : part) : Prop := AStop p ∈ acts.
Definition begun (acts : list action) (p : part) : Prop := AStart p ∈ acts ∨ AServe p ∈ acts.

(** The clients and plugins are running when the application is made; the loop ends with the
    context or when the bus is closed. *)
Definition own (a : App Runner C) (p : part) : Prop :=
  match p with
  | PChannels | PBus => True
  | PA2A => present (ap_a2a a) = true
  | PHealth => present (ap_health a) = true
  | PCron => ap_cron a = true
  | PHeartbeat => ap_heartbeat a = true
  | PMCP i => (i < ap_mcp a)%nat
  | PPlugin i => (i < ap_plugins a)%nat
  | PLoop => False
  end.

Lemma stop_if (b : bool) p q : AStop p ∈ (if b then [AStop q] else []) ↔ b = true ∧ p = q.
Proof. destruct b; [rewrite list_elem_of_singleton; naive_solver|rewrite elem_of_nil; naive_solver]. Qed.
Lemma stop_each_of (f : nat → part) n p : AStop p ∈ ((λ i, AStop (f i)) <$> seq 0 n) ↔ ∃ i, p = f i ∧ (i < n)%nat.
Proof.
  rewrite list_elem_of_fmap. split; intros (i & Hi & Hn); exists i.
  - apply elem_of_seq in Hn. split; [congruence|lia].
  - rewrite elem_of_seq. split; [congruence|lia].
Qed.

Lemma Shutdown_stops (a : App Runner C) p : stopped (Shutdown a) p ↔ own a p.
Proof.
  unfold stopped, Shutdown. rewrite !elem_of_app, !stop_if, !stop_each_of, !list_elem_of_singleton.
  destruct p; cbn; split; intros Hp; destruct_or?; destruct_and?; try (by naive_solver).
Qed.

Lemma NoDup_if (b : bool) (x : action) : NoDup (if b then [x] else []).
Proof. destruct b; [apply NoDup_singleton|constructor]. Qed.
Lemma in_if (b : bool) (x y : action) : x ∈ (if b then [y] else []) → x = y.
Proof. destruct b; [by intros ->%list_elem_of_singleton|by intros ?%not_elem_of_nil]. Qed.
Lemma NoDup_each (f : nat → part) n : Inj (=) (=) f → NoDup ((λ i, AStop (f i)) <$> seq 0 n).
Proof. intros Hf. apply NoDup_fmap_2; [|apply NoDup_seq]. intros i j Hij. apply Hf. congruence. Qed.

Ltac stops := rewrite ?elem_of_app, ?stop_if, ?stop_each_of, ?list_elem_of_singleton; naive_solver.

Lemma Shutdown_once (a : App Runner C) : NoDup (Shutdown a).
Proof.
  unfold Shutdown. rewrite !NoDup_app.
  split_and!; try apply NoDup_if; try apply NoDup_singleton; try (apply NoDup_each; intros ? ?; congruence).
  all: intros x Hx; try (apply in_if in Hx as ->); try (apply list_elem_of_singleton in Hx as ->); try (apply list_elem_of_fmap in Hx as (i & -> & _)); stops.
Qed.

(** Everything that starts. *)
Definition starting (a : App Runner C) : list action :=
  AStart PChannels :: (if present (ap_a2a a) then [AServe PA2A] else []) ++ (if present (ap_health a) then [AServe PHealth] else [])
  ++ (if ap_cron a then [AStart PCron] else []) ++ (if ap_heartbeat a then [AStart PHeartbeat] else []) ++ [AServe PLoop].

Lemma Run_started (a : App Runner C) e :
  (∀ p, starts p = None) →
  Run starts a e = (starting a ++ match e with EndError _ => [] | _ => Shutdown a end, match e with EndError err => Some err | _ => None end).
Proof.
  intros Hs. unfold Run, starting, start_part, serve_part. rewrite !Hs. cbn.
  destruct (present (ap_a2a a)), (present (ap_health a)), (ap_cron a), (ap_heartbeat a); done.
Qed.

Lemma start_part_stops wanted p what k q :
  stopped (start_part starts wanted p what k).1 q → (start_part starts wanted p what k).2 = None ∨ stopped k.1 q ∧ (start_part starts wanted p what k).2 = k.2.
Proof.
  unfold start_part, stopped. destruct wanted; cbn; [|by right]. destruct (starts p) as [e|]; cbn.
  - by intros ?%list_elem_of_singleton.
  - intros [|Hq]%elem_of_cons; [done|by right].
Qed.

(** When a signal or the context ends a run whose parts could all be started, every part of
    the application is stopped, each once and after all are started, the bus last, and no
    part is stopped that there is not.  When a part cannot be started, or a server or the
    loop fails, the run answers with the error and nothing is stopped. *)
Theorem run_stops_parts (a : App Runner C) e :
  ((∀ p, starts p = None) → (e = EndSignal ∨ e = EndCancelled) →
   ∃ before, Run starts a e = (starting a ++ before ++ [AStop PBus], None)
     ∧ NoDup (before ++ [AStop PBus]) ∧ ∀ p, AStop p ∈ before ++ [AStop PBus] ↔ own a p)
  ∧ ∀ acts err, Run starts a e = (acts, Some err) → ∀ p, ¬ stopped acts p.
Proof.
  split.
  - intros Hs He. pose proof (Shutdown_once a) as Hnd. pose proof (Shutdown_stops a) as Hst. unfold stopped in Hst.
    assert (∃ before, Shutdown a = before ++ [AStop PBus]) as [before Hb] by (unfold Shutdown; rewrite !app_assoc; by eexists).
    exists before. rewrite <- Hb. split_and!; [|done|done]. rewrite Run_started by done. by destruct He as [-> | ->].
  - intros acts err Hrun. assert (∀ q k, (stopped k.1 q → k.2 = None) → ∀ w p, stopped (serve_part w p k).1 q → (serve_part w p k).2 = None) as Hserve.
    { intros q k Hk w p. unfold serve_part, stopped. destruct w; [|exact Hk]. cbn. intros [|Hq]%elem_of_cons; [done|by apply Hk]. }
    assert (∀ q k, (stopped k.1 q → k.2 = None) → ∀ w p what, stopped (start_part starts w p what k).1 q → (start_part starts w p what k).2 = None) as Hstart.
    { intros q k Hk w p what [?|[Hq ->]]%start_part_stops; [done|by apply Hk]. }
    intros p Hp. assert (stopped (Run starts a e).1 p) as Hp' by (by rewrite Hrun).
    enough ((Run starts a e).2 = None) as Hn by (by rewrite Hrun in Hn). revert Hp'. unfold Run.
    repeat first [apply Hserve | apply Hstart]. cbn. unfold stopped. by destruct e; [..|intros ?%list_elem_of_singleton].
Qed.
End lifecycle.

(** ** Examples *)

Definition w_runner (name description : string) (tools : list string) : result goerror string := Ok name.
Definition w_deps : BootstrapDeps unit :=
  {| bd_HasSummaryLLM := false; bd_Tools := [ATool "exec"]; bd_Channels := ∅; bd_HasCron := true; bd_HasHeartbeat := false;
     bd_MCPClients := 2; bd_Plugins := 0 |}.
Definition w_empty_app : App string unit :=
  {| ap_appName := ""; ap_registry := NewAgentRegistry; ap_channels := ∅; ap_compressor := false; ap_window := 0; ap_a2a := None;
     ap_health := None; ap_cron := false; ap_heartbeat := false; ap_mcp := 0; ap_plugins := 0 |}.
Definition w_app : App string unit := match Bootstrap w_runner w_config w_deps with Ok a => a | Err _ => w_empty_app end.
Definition w_hello : InboundMessage :=
  {| in_Channel := "cli"; in_TenantID := "t"; in_UserID := "u"; in_SenderID := "u"; in_ChatID := "d"; in_Content := "hi"; in_Media := [];
     in_Metadata := ∅; in_SessionKey := ""; in_AgentID := ""; in_Timestamp := 0 |}.

(** A message that no route fits may go to either of the two agents. *)
Lemma bootstrapped_agents_witness :
  (∃ order, range_order (ar_agents (ap_registry w_app)) order ∧ ResolveRoute (ap_registry w_app) order order w_hello = "main"%string)
  ∧ ∃ order, range_order (ar_agents (ap_registry w_app)) order ∧ ResolveRoute (ap_registry w_app) order order w_hello = "ops"%string.
Proof.
  destruct (bootstrapped_agents w_runner w_config w_deps w_app eq_refl ltac:(discriminate)) as (_ & _ & Hany).
  split; apply Hany; [left|constructor|right; left|constructor].
Defined.

Lemma run_stops_parts_witness :
  (Run (λ _, None) w_app EndSignal).2 = None
  ∧ ∀ p, ¬ stopped (Run (λ p, match p with PCron => Some (ErrText "no table") | _ => None end) w_app EndSignal).1 p.
Proof.
  split.
  - destruct (proj1 (run_stops_parts (λ _, None) w_app EndSignal)) as (before & -> & _); [reflexivity|left; reflexivity|reflexivity].
  - apply (proj2 (run_stops_parts (λ p, match p with PCron => Some (ErrText "no table") | _ => None end) w_app EndSignal) _
             (ErrText "start cron service: no table")).
    vm_compute. reflexivity.
Defined.
