(* ===== verification/Mcp.v ===== *)
(** [pkg/mcp]: clients of tool servers, which are processes that answer lines on their
    output, or are asked over HTTP ([client.go], [types.go], [wrapper.go]).

    The operations of one client are functions of a world that holds the processes and
    what is behind the addresses; the calls of a process that goroutines make at the same
    time are a step relation ([mcp_step]), whose steps are those of the mutex and the pipes.
    JSON objects are values of a type [J]; the codecs are parameters. *)
From stdpp Require Import pretty.
From S2P Require Import Prelude GoStrings Quote Types.

(** ** types.go *)

Record ServerConfig := {
  sc_Command : string; sc_Args : list string; sc_Env : gmap string string; sc_URL : string; sc_Headers : gmap string string;
  sc_ToolTimeout : Z;  (* seconds *)
}.

Section types.
Context {J : Type}.

Record initializeParams := { ip_ProtocolVersion : string; ip_Name : string; ip_Version : string }.
Record toolCallParams := { tp_Name : string; tp_Arguments : J }.

(** What the client sends as [Params]. *)
Inductive rpc_params := NoParams | PInitialize (p : initializeParams) | PToolCall (p : toolCallParams).

Record JSONRPCRequest := { jq_JSONRPC : string; jq_ID : Z; jq_Method : string; jq_Params : rpc_params }.
Record JSONRPCError := { je_Code : Z; je_Message : string }.
(** [Result] is raw JSON. *)
Record JSONRPCResponse := { jr_JSONRPC : string; jr_ID : Z; jr_Result : string; jr_Error : option JSONRPCError }.

Record mcpToolDef := { td_Name : string; td_Description : string; td_InputSchema : J }.
Record contentBlock := { cb_Type : string; cb_Text : string }.
Record mcpCallResult := { mr_Output : string; mr_Error : string }.
End types.
Arguments rpc_params : clear implicits.
Arguments toolCallParams : clear implicits.
Arguments JSONRPCRequest : clear implicits.
Arguments mcpToolDef : clear implicits.

Definition defaultToolTimeout : Z := 30.
Definition maxSkipLines : nat := 50.

Section client.
Context {J W P : Type}.

(** [P] is a started process with its pipes. *)
Record Client := {
  ct_name : string; ct_config : ServerConfig; ct_process : option P; ct_httpURL : string; ct_httpHeaders : gmap string string;
  ct_httpTimeout : duration; ct_nextID : Z; ct_tools : list (mcpToolDef J);
}.

Definition NewClient (name : string) (cfg : ServerConfig) : Client :=
  {| ct_name := name;
     ct_config := {| sc_Command := sc_Command cfg; sc_Args := sc_Args cfg; sc_Env := sc_Env cfg; sc_URL := sc_URL cfg;
                     sc_Headers := sc_Headers cfg;
                     sc_ToolTimeout := if sc_ToolTimeout cfg <=? 0 then defaultToolTimeout else sc_ToolTimeout cfg |};
     ct_process := None; ct_httpURL := ""; ct_httpHeaders := ∅; ct_httpTimeout := 0; ct_nextID := 0; ct_tools := [] |}.

Definition with_process (p : P) (c : Client) : Client :=
  {| ct_name := ct_name c; ct_config := ct_config c; ct_process := Some p; ct_httpURL := ct_httpURL c;
     ct_httpHeaders := ct_httpHeaders c; ct_httpTimeout := ct_httpTimeout c; ct_nextID := ct_nextID c; ct_tools := ct_tools c |}.
Definition with_http (url : string) (headers : gmap string string) (timeout : duration) (c : Client) : Client :=
  {| ct_name := ct_name c; ct_config := ct_config c; ct_process := ct_process c; ct_httpURL := url; ct_httpHeaders := headers;
     ct_httpTimeout := timeout; ct_nextID := ct_nextID c; ct_tools := ct_tools c |}.
Definition with_nextID (n : Z) (c : Client) : Client :=
  {| ct_name := ct_name c; ct_config := ct_config c; ct_process := ct_process c; ct_httpURL := ct_httpURL c;
     ct_httpHeaders := ct_httpHeaders c; ct_httpTimeout := ct_httpTimeout c; ct_nextID := n; ct_tools := ct_tools c |}.
Definition with_tools (tools : list (mcpToolDef J)) (c : Client) : Client :=
  {| ct_name := ct_name c; ct_config := ct_config c; ct_process := ct_process c; ct_httpURL := ct_httpURL c;
     ct_httpHeaders := ct_httpHeaders c; ct_httpTimeout := ct_httpTimeout c; ct_nextID := ct_nextID c; ct_tools := tools |}.

(** Starting a process with its command, arguments and environment (none: that of the
    program), by pipes for its input and output; which of the three steps failed. *)
Inductive start_stage := StdinPipe | StdoutPipe | StartProcess.
Definition stage_text (s : start_stage) : string :=
  match s with StdinPipe => "stdin pipe" | StdoutPipe => "stdout pipe" | StartProcess => "start process" end.
Context (start_process : string → list string → list string → W → W * result (start_stage * goerror) P).
(** Writing and reading a line; closing the input; killing the process and waiting for it. *)
Context (write_stdin : P → string → W → W * option goerror) (read_line : P → W → W * result goerror string).
Context (close_stdin : P → W → W) (kill : P → W → W * option goerror) (wait_process : P → W → W).
(** A POST with the headers, and a time limit: whether the address is one, and the status and
    the body or the error of reading it.  The context of a call with its own time limit:
    its error, if it ended before the answer came. *)
Context (check_url : string → option goerror).
Context (http_post : string → gmap string string → duration → string → W → W * result goerror (Z * result goerror string)).
Context (cut_off : option duration → W → option goerror).
Context (marshal_request : JSONRPCRequest J → result goerror string) (unmarshal_response : string → result goerror JSONRPCResponse).
Context (unmarshal_tools : string → result goerror (list (mcpToolDef J))) (unmarshal_call : string → result goerror (list contentBlock)).

(** *** Requests *)

(** A line that was read: the answer to the request, or a line to be skipped. *)
Definition on_line (id : Z) (line : string) : option JSONRPCResponse :=
  match unmarshal_response line with
  | Err _ => None
  | Ok resp => if jr_ID resp =? 0 then None else if negb (jr_ID resp =? id) then None else Some resp
  end.

Definition no_match (name : string) : goerror :=
  ErrText ("mcp " +:+ go_quote name +:+ ": no matching response after " +:+ pretty maxSkipLines +:+ " lines").

(** The loop of the goroutine, over at most so many lines. *)
Fixpoint read_response (name : string) (lines : nat) (id : Z) (p : P) (w : W) : W * result goerror JSONRPCResponse :=
  match lines with
  | O => (w, Err (no_match name))
  | S lines =>
      match read_line p w with
      | (w, Err e) => (w, Err (ErrText ("read from stdout: " +:+ error_text e)))
      | (w, Ok line) => match on_line id line with Some resp => (w, Ok resp) | None => read_response name lines id p w end
      end
  end.

(** The goroutine that talks to the process. *)
Definition talk (name : string) (id : Z) (data : string) (p : P) (w : W) : W * result goerror JSONRPCResponse :=
  match write_stdin p (data +:+ lf) w with
  | (w, Some e) => (w, Err (ErrText ("write to stdin: " +:+ error_text e)))
  | (w, None) => read_response name maxSkipLines id p w
  end.

(** The caller waits for the goroutine or for the end of its context; without a process the
    goroutine writes to a nil input, which panics. *)
Definition sendStdio (timeout : option duration) (c : Client) (req : JSONRPCRequest J) (w : W) : option (W * result goerror JSONRPCResponse) :=
  match marshal_request req with
  | Err e => Some (w, Err (ErrText ("marshal request: " +:+ error_text e)))
  | Ok data =>
      p ← ct_process c;
      let '(w', r) := talk (ct_name c) (jq_ID req) data p w in
      Some (w', match cut_off timeout w with
                | Some e => Err (ErrText ("mcp " +:+ go_quote (ct_name c) +:+ ": " +:+ error_text e))
                | None => r
                end)
  end.

Definition sendHTTP (c : Client) (req : JSONRPCRequest J) (w : W) : W * result goerror JSONRPCResponse :=
  match marshal_request req with
  | Err e => (w, Err (ErrText ("marshal request: " +:+ error_text e)))
  | Ok data =>
      match check_url (ct_httpURL c) with
      | Some e => (w, Err (ErrText ("create http request: " +:+ error_text e)))
      | None =>
          match http_post (ct_httpURL c) (ct_httpHeaders c) (ct_httpTimeout c) data w with
          | (w, Err e) => (w, Err (ErrText ("http request: " +:+ error_text e)))
          | (w, Ok (_, Err e)) => (w, Err (ErrText ("read http response: " +:+ error_text e)))
          | (w, Ok (status, Ok body)) =>
              if negb (status =? 200) then (w, Err (ErrText ("http " +:+ pretty status +:+ ": " +:+ body)))
              else match unmarshal_response body with
                   | Err e => (w, Err (ErrText ("unmarshal response: " +:+ error_text e)))
                   | Ok resp => (w, Ok resp)
                   end
          end
      end
  end.

Definition sendRequest (timeout : option duration) (method : string) (params : rpc_params J) (c : Client) (w : W)
    : option (Client * W * result goerror JSONRPCResponse) :=
  let id := wrap64 (ct_nextID c + 1) in
  let c := with_nextID id c in
  let req := {| jq_JSONRPC := "2.0"; jq_ID := id; jq_Method := method; jq_Params := params |} in
  '(w, r) ← (if negb (str_empty (ct_httpURL c)) then Some (sendHTTP c req w) else sendStdio timeout c req w);
  Some (c, w, r).

(** *** Connecting *)

(** The prefix of the client's errors. *)
Definition mcp_error (c : Client) (text : string) : goerror := ErrText ("mcp " +:+ go_quote (ct_name c) +:+ ": " +:+ text).
Definition rpc_error (what : string) (e : JSONRPCError) : string := what +:+ " error " +:+ pretty (je_Code e) +:+ ": " +:+ je_Message e.

(** The notification, whose errors are logged. *)
Definition notify (c : Client) (w : W) : W :=
  let notif := {| jq_JSONRPC := "2.0"; jq_ID := 0; jq_Method := "notifications/initialized"; jq_Params := NoParams |} in
  let data := match marshal_request notif with Ok d => d | Err _ => ""%string end in
  if negb (str_empty (ct_httpURL c))
  then match check_url (ct_httpURL c) with
       | Some _ => w
       | None => (http_post (ct_httpURL c) (ct_httpHeaders c) (ct_httpTimeout c) data w).1
       end
  else match ct_process c with Some p => (write_stdin p (data +:+ lf) w).1 | None => w end.

Definition initialize (c : Client) (w : W) : option (Client * W * option goerror) :=
  '(c, w, r) ← sendRequest None "initialize"
    (PInitialize {| ip_ProtocolVersion := "2024-11-05"; ip_Name := "abot"; ip_Version := "0.1.0" |}) c w;
  Some match r with
  | Err e => (c, w, Some (mcp_error c ("initialize: " +:+ error_text e)))
  | Ok resp =>
      match jr_Error resp with
      | Some e => (c, w, Some (mcp_error c (rpc_error "initialize" e)))
      | None => (c, notify c w, None)
      end
  end.

Definition listTools (c : Client) (w : W) : option (Client * W * option goerror) :=
  '(c, w, r) ← sendRequest None "tools/list" NoParams c w;
  Some match r with
  | Err e => (c, w, Some (mcp_error c ("list tools: " +:+ error_text e)))
  | Ok resp =>
      match jr_Error resp with
      | Some e => (c, w, Some (mcp_error c (rpc_error "list tools" e)))
      | None =>
          match unmarshal_tools (jr_Result resp) with
          | Err e => (c, w, Some (mcp_error c ("unmarshal tools list: " +:+ error_text e)))
          | Ok tools => (with_tools tools c, w, None)
          end
      end
  end.

Definition Close (c : Client) (w : W) : W * option goerror :=
  match ct_process c with
  | None => (w, None)
  | Some p =>
      match kill p (close_stdin p w) with
      | (w, Some e) => (w, Some e)
      | (w, None) => (wait_process p w, None)
      end
  end.

(** The variables of the environment, in the order in which the map is ranged over. *)
Definition env_of (order : list string) (env : gmap string string) : list string :=
  omap (λ k, v ← env !! k; Some (k +:+ "=" +:+ v)) order.

Definition connectStdio (order : list string) (c : Client) (w : W) : option (Client * W * option goerror) :=
  match start_process (sc_Command (ct_config c)) (sc_Args (ct_config c)) (env_of order (sc_Env (ct_config c))) w with
  | (w, Err (stage, e)) => Some (c, w, Some (mcp_error c (stage_text stage +:+ ": " +:+ error_text e)))
  | (w, Ok p) =>
      '(c, w, e) ← initialize (with_process p c) w;
      match e with
      | Some e => Some (c, (Close c w).1, Some e)
      | None => listTools c w
      end
  end.

Definition trim_slashes (url : string) : string := l2s (drop_while_end (Ascii.eqb "/") (s2l url)).

Definition connectHTTP (c : Client) (w : W) : option (Client * W * option goerror) :=
  let cfg := ct_config c in
  '(c, w, e) ← initialize (with_http (trim_slashes (sc_URL cfg)) (sc_Headers cfg) (wrap64 (wrap64 (sc_ToolTimeout cfg * 2) * Second)) c) w;
  match e with
  | Some e => Some (c, w, Some e)
  | None => listTools c w
  end.

Definition Connect (order : list string) (c : Client) (w : W) : option (Client * W * option goerror) :=
  if negb (str_empty (sc_URL (ct_config c))) then connectHTTP c w
  else if negb (str_empty (sc_Command (ct_config c))) then connectStdio order c w
  else Some (c, w, Some (ErrText ("mcp server " +:+ go_quote (ct_name c) +:+ ": no command or url configured"))).

(** *** Tools *)

(** The texts of an answer. *)
Definition block_texts (blocks : list contentBlock) : list string :=
  omap (λ b, if bool_decide (cb_Type b = "text"%string) && negb (str_empty (cb_Text b)) then Some (cb_Text b) else None) blocks.

Definition CallTool (toolName : string) (args : J) (c : Client) (w : W) : option (Client * W * result goerror string) :=
  '(c, w, r) ← sendRequest (Some (wrap64 (sc_ToolTimeout (ct_config c) * Second))) "tools/call"
    (PToolCall {| tp_Name := toolName; tp_Arguments := args |}) c w;
  Some (c, w,
    match r with
    | Err e => Err (mcp_error c ("call tool " +:+ go_quote toolName +:+ ": " +:+ error_text e))
    | Ok resp =>
        match jr_Error resp with
        | Some e => Err (mcp_error c (rpc_error ("tool " +:+ go_quote toolName) e))
        | None =>
            match unmarshal_call (jr_Result resp) with
            | Err e => Err (mcp_error c ("unmarshal tool result: " +:+ error_text e))
            | Ok blocks =>
                match block_texts blocks with
                | [] => Ok "(no output)"%string
                | parts => Ok (join parts lf)
                end
            end
        end
    end).

(** ** wrapper.go *)

(** The tool of the framework: its name and description, and the client it calls. *)
Record mcp_tool := { mt_Name : string; mt_Description : string; mt_Server : string; mt_Original : string }.

Definition tool_name (serverName name : string) : string := "mcp_" +:+ serverName +:+ "_" +:+ name.

(** [functiontool.New]: whether it refuses the name and description. *)
Context (refuse_tool : string → string → option goerror).

Definition wrapTool (serverName : string) (def : mcpToolDef J) : option mcp_tool :=
  let desc := if str_empty (td_Description def) then td_Name def else td_Description def in
  match refuse_tool (tool_name serverName (td_Name def)) desc with
  | Some _ => None
  | None => Some {| mt_Name := tool_name serverName (td_Name def); mt_Description := desc; mt_Server := serverName; mt_Original := td_Name def |}
  end.

(** The function of the tool, for the text of the arguments. *)
Context (unmarshal_args : string → result goerror J) (nil_object : J).

Definition tool_Run (t : mcp_tool) (args : string) (c : Client) (w : W) : option (Client * W * mcpCallResult) :=
  match (if str_empty args then Ok nil_object else unmarshal_args args) with
  | Err e => Some (c, w, {| mr_Output := ""; mr_Error := "invalid args: " +:+ error_text e |})
  | Ok m =>
      '(c, w, r) ← CallTool (mt_Original t) m c w;
      Some (c, w, match r with
                  | Err e => {| mr_Output := ""; mr_Error := error_text e |}
                  | Ok out => {| mr_Output := out; mr_Error := "" |}
                  end)
  end.

(** Closing several clients, whose errors are dropped. *)
Definition close_all (clients : list Client) (w : W) : W := foldl (λ w c, (Close c w).1) w clients.

(** A tool that was refused is nil, and asking it for its name panics. *)
Fixpoint wrap_all (serverName : string) (defs : list (mcpToolDef J)) : option (list mcp_tool) :=
  match defs with
  | [] => Some []
  | def :: defs => t ← wrapTool serverName def; cons t <$> wrap_all serverName defs
  end.

Definition server_error (name : string) (e : goerror) : goerror :=
  ErrText ("mcp server " +:+ go_quote name +:+ ": " +:+ error_text e).

(** The servers, and each one's variables, in the order in which the maps are ranged over. *)
Fixpoint connect_loop (servers : list (string * ServerConfig * list string)) (clients : list Client) (tools : list mcp_tool) (w : W)
    : option (W * result goerror (list Client * list mcp_tool)) :=
  match servers with
  | [] => Some (w, Ok (clients, tools))
  | (name, cfg, order) :: servers =>
      '(c, w, e) ← Connect order (NewClient name cfg) w;
      match e with
      | Some e => Some (close_all clients w, Err (server_error name e))
      | None =>
          new ← wrap_all name (ct_tools c);
          connect_loop servers (clients ++ [c]) (tools ++ new) w
      end
  end.

Definition ConnectAll (servers : list (string * ServerConfig * list string)) (w : W)
    : option (W * result goerror (list Client * list mcp_tool)) := connect_loop servers [] [] w.
End client.
Arguments Client : clear implicits.

(** ** Several calls of one process

    Every call of [sendRequest] takes its identifier under the mutex of the client and
    leaves the rest to a goroutine, which holds the mutex while it writes the line and reads
    the answer.  A caller whose context has ended returns, but its goroutine stays. *)

Section calls.
Context {J : Type} (marshal_request : JSONRPCRequest J → result goerror string) (unmarshal_response : string → result goerror JSONRPCResponse).
Context (name : string).
Local Abbreviation line_for := (on_line unmarshal_response).

Inductive worker := NotStarted | Waiting (data : string) | Reading (lines : nat) | Done (r : result goerror JSONRPCResponse).

Record call := {
  cl_method : string; cl_params : rpc_params J; cl_id : option Z; cl_worker : worker; cl_ended : option goerror;
  cl_ret : option (result goerror JSONRPCResponse);
}.

(** The client, with what was written to the process ([ms_in]), what it has written and was
    not read yet ([ms_out]), whether it has closed its output, and what was read. *)
Record mcp_state := {
  ms_nextID : Z; ms_lock : option nat; ms_in : list string; ms_out : list string; ms_eof : bool; ms_read : list string;
  ms_calls : list call;
}.
Definition connected : mcp_state :=
  {| ms_nextID := 0; ms_lock := None; ms_in := []; ms_out := []; ms_eof := false; ms_read := []; ms_calls := [] |}.

Definition cl_with (id : option Z) (wk : worker) (ended : option goerror) (ret : option (result goerror JSONRPCResponse)) (c : call) : call :=
  {| cl_method := cl_method c; cl_params := cl_params c; cl_id := id; cl_worker := wk; cl_ended := ended; cl_ret := ret |}.
Definition set_worker (wk : worker) (c : call) : call := cl_with (cl_id c) wk (cl_ended c) (cl_ret c) c.
Definition set_ret (r : result goerror JSONRPCResponse) (c : call) : call := cl_with (cl_id c) (cl_worker c) (cl_ended c) (Some r) c.

Definition with_calls (f : list call → list call) (s : mcp_state) : mcp_state :=
  {| ms_nextID := ms_nextID s; ms_lock := ms_lock s; ms_in := ms_in s; ms_out := ms_out s; ms_eof := ms_eof s; ms_read := ms_read s;
     ms_calls := f (ms_calls s) |}.
Definition with_lock (l : option nat) (s : mcp_state) : mcp_state :=
  {| ms_nextID := ms_nextID s; ms_lock := l; ms_in := ms_in s; ms_out := ms_out s; ms_eof := ms_eof s; ms_read := ms_read s;
     ms_calls := ms_calls s |}.

(** A call begins; it takes its identifier, and the request is encoded; its goroutine
    takes the mutex and writes; it reads a line; the context of the caller ends; the caller
    returns by its context or with what the goroutine gave; the process writes a line, or
    ends. *)
Inductive mcp_event :=
| MCall (method : string) (params : rpc_params J) | MID (i : nat) | MLock (i : nat) (failed : option goerror) | MRead (i : nat)
| MEnd (i : nat) (e : goerror) | MReturn (i : nat) (by_context : bool) | MServer (line : string) | MEOF.

Definition request_of (id : Z) (c : call) : JSONRPCRequest J :=
  {| jq_JSONRPC := "2.0"; jq_ID := id; jq_Method := cl_method c; jq_Params := cl_params c |}.

Definition take_id (i : nat) (c : call) (s : mcp_state) : mcp_state :=
  let id := wrap64 (ms_nextID s + 1) in
  let c := match marshal_request (request_of id c) with
           | Err e => cl_with (Some id) NotStarted (cl_ended c) (Some (Err (ErrText ("marshal request: " +:+ error_text e)))) c
           | Ok data => cl_with (Some id) (Waiting data) (cl_ended c) (cl_ret c) c
           end in
  {| ms_nextID := id; ms_lock := ms_lock s; ms_in := ms_in s; ms_out := ms_out s; ms_eof := ms_eof s; ms_read := ms_read s;
     ms_calls := <[i := c]> (ms_calls s) |}.

Definition take_lock (i : nat) (data : string) (failed : option goerror) (s : mcp_state) : mcp_state :=
  match failed with
  | Some e => with_calls (alter (set_worker (Done (Err (ErrText ("write to stdin: " +:+ error_text e))))) i) s
  | None =>
      {| ms_nextID := ms_nextID s; ms_lock := Some i; ms_in := ms_in s ++ [data +:+ lf]; ms_out := ms_out s; ms_eof := ms_eof s;
         ms_read := ms_read s; ms_calls := alter (set_worker (Reading maxSkipLines)) i (ms_calls s) |}
  end.

(** The goroutine has its answer, and lets go of the mutex. *)
Definition finish (i : nat) (r : result goerror JSONRPCResponse) (s : mcp_state) : mcp_state :=
  with_lock None (with_calls (alter (set_worker (Done r)) i) s).

Definition end_of_output : goerror := ErrText "read from stdout: EOF".

Definition read_step (i : nat) (id : Z) (lines : nat) (s : mcp_state) : option mcp_state :=
  match ms_out s with
  | [] => if ms_eof s then Some (finish i (Err end_of_output) s) else None
  | line :: out =>
      let s := {| ms_nextID := ms_nextID s; ms_lock := ms_lock s; ms_in := ms_in s; ms_out := out; ms_eof := ms_eof s;
                  ms_read := ms_read s ++ [line]; ms_calls := ms_calls s |} in
      Some match line_for id line, lines with
           | Some resp, _ => finish i (Ok resp) s
           | None, S (S lines) => with_calls (alter (set_worker (Reading (S lines))) i) s
           | None, _ => finish i (Err (no_match name)) s
           end
  end.

Definition mcp_step (e : mcp_event) (s : mcp_state) : option mcp_state :=
  match e with
  | MCall method params =>
      Some (with_calls (λ l, l ++ [{| cl_method := method; cl_params := params; cl_id := None; cl_worker := NotStarted;
                                      cl_ended := None; cl_ret := None |}]) s)
  | MID i =>
      c ← ms_calls s !! i;
      match cl_id c, ms_lock s with None, None => Some (take_id i c s) | _, _ => None end
  | MLock i failed =>
      c ← ms_calls s !! i;
      match cl_worker c, ms_lock s with Waiting data, None => Some (take_lock i data failed s) | _, _ => None end
  | MRead i =>
      c ← ms_calls s !! i;
      match cl_worker c, cl_id c with Reading lines, Some id => read_step i id lines s | _, _ => None end
  | MEnd i e =>
      c ← ms_calls s !! i;
      match cl_ended c with
      | None => Some (with_calls (alter (λ c, cl_with (cl_id c) (cl_worker c) (Some e) (cl_ret c) c) i) s)
      | Some _ => None
      end
  | MReturn i by_context =>
      c ← ms_calls s !! i;
      match cl_ret c, cl_worker c with
      | Some _, _ | _, NotStarted => None
      | None, wk =>
          r ← (if by_context then e ← cl_ended c; Some (Err (ErrText ("mcp " +:+ go_quote name +:+ ": " +:+ error_text e)))
               else match wk with Done r => Some r | _ => None end);
          Some (with_calls (alter (set_ret r) i) s)
      end
  | MServer line =>
      if ms_eof s then None
      else Some {| ms_nextID := ms_nextID s; ms_lock := ms_lock s; ms_in := ms_in s; ms_out := ms_out s ++ [line]; ms_eof := false;
                   ms_read := ms_read s; ms_calls := ms_calls s |}
  | MEOF =>
      Some {| ms_nextID := ms_nextID s; ms_lock := ms_lock s; ms_in := ms_in s; ms_out := ms_out s; ms_eof := true;
              ms_read := ms_read s; ms_calls := ms_calls s |}
  end.

Definition mcp_run (es : list mcp_event) (s : mcp_state) : option mcp_state := foldl (λ s e, s ≫= mcp_step e) (Some s) es.
End calls.
Arguments call : clear implicits.
Arguments mcp_state : clear implicits.
Arguments mcp_event : clear implicits.

(** ** Whose answer a call gets *)

Section answers.
Context {J : Type} (marshal_request : JSONRPCRequest J → result goerror string) (unmarshal_response : string → result goerror JSONRPCResponse).
Context (name : string).
Local Abbreviation step := (mcp_step marshal_request unmarshal_response name).
Local Abbreviation run := (mcp_run marshal_request unmarshal_response name).

(** The request of a call was written, and its answer is a line that was read. *)
Definition written (inp : list string) (c : call J) : Prop :=
  ∃ id data, cl_id c = Some id ∧ marshal_request (request_of id c) = Ok data ∧ data +:+ lf ∈ inp.
Definition answered (inp read : list string) (c : call J) (resp : JSONRPCResponse) : Prop :=
  written inp c ∧ cl_id c = Some (jr_ID resp) ∧ ∃ line, line ∈ read ∧ unmarshal_response line = Ok resp.

Definition worker_ok (inp read : list string) (c : call J) : Prop :=
  match cl_worker c with
  | NotStarted => True
  | Waiting data => ∃ id, cl_id c = Some id ∧ marshal_request (request_of id c) = Ok data
  | Reading _ => written inp c
  | Done (Ok resp) => answered inp read c resp
  | Done (Err _) => True
  end.

Record call_ok (n : Z) (inp read : list string) (c : call J) : Prop := {
  co_id : ∀ id, cl_id c = Some id → 1 ≤ id ≤ n;
  co_new : cl_id c = None → cl_worker c = NotStarted ∧ cl_ret c = None;
  co_worker : worker_ok inp read c;
  co_ret : ∀ resp, cl_ret c = Some (Ok resp) → answered inp read c resp;
}.

Definition ids_differ (calls : list (call J)) : Prop :=
  ∀ i j c d id, calls !! i = Some c → calls !! j = Some d → cl_id c = Some id → cl_id d = Some id → i = j.

Record mcp_inv (n : Z) (s : mcp_state J) : Prop := {
  mi_next : 0 ≤ ms_nextID s ≤ n;
  mi_calls : ∀ i c, ms_calls s !! i = Some c → call_ok (ms_nextID s) (ms_in s) (ms_read s) c;
  mi_ids : ids_differ (ms_calls s);
}.

Lemma written_mono inp inp' c : inp ⊆ inp' → written inp c → written inp' c.
Proof. intros Hi (id & data & ? & ? & ?). exists id, data. auto. Qed.

Lemma answered_mono inp inp' read read' c resp : inp ⊆ inp' → read ⊆ read' → answered inp read c resp → answered inp' read' c resp.
Proof. intros Hi Hr (Hw & Hid & line & ? & ?). split_and!; [by eapply written_mono|done|]. exists line. auto. Qed.

Lemma call_ok_mono n n' inp inp' read read' c :
  n ≤ n' → inp ⊆ inp' → read ⊆ read' → call_ok n inp read c → call_ok n' inp' read' c.
Proof.
  intros Hn Hi Hr [Hid Hnew Hw Hret]. split; [intros id ?%Hid; lia|done| |intros resp ?%Hret; by eapply answered_mono].
  unfold worker_ok in *. destruct (cl_worker c) as [| | |[resp|]]; try done; [by eapply written_mono|by eapply answered_mono].
Qed.

(** Changing one call without its identifier. *)
Lemma inv_alter n s s' f i :
  ms_calls s' = alter f i (ms_calls s) → ms_nextID s' = ms_nextID s → ms_in s ⊆ ms_in s' → ms_read s ⊆ ms_read s' →
  (∀ c, cl_id (f c) = cl_id c) →
  (∀ c, ms_calls s !! i = Some c → call_ok (ms_nextID s') (ms_in s') (ms_read s') c → call_ok (ms_nextID s') (ms_in s') (ms_read s') (f c)) →
  mcp_inv n s → mcp_inv n s'.
Proof.
  intros Hc Hn Hi Hr Hid Hf [Hnext Hcalls Hids]. split; [by rewrite Hn|..].
  - intros j c. rewrite Hc. intros Hj. assert (∀ k d, ms_calls s !! k = Some d → call_ok (ms_nextID s') (ms_in s') (ms_read s') d) as Hmono.
    { intros k d Hk. eapply call_ok_mono; [| | |by apply (Hcalls k)]; [lia|done..]. }
    destruct (decide (i = j)) as [<-|Hne]; [|rewrite list_lookup_alter_ne in Hj by done; by eapply Hmono].
    rewrite list_lookup_alter_eq in Hj. apply fmap_Some in Hj as (d & Hd & ->). apply Hf; [done|]. by eapply Hmono.
  - intros j k c d id. rewrite Hc. intros Hj Hk Hjid Hkid.
    assert (∀ k d, alter f i (ms_calls s) !! k = Some d → cl_id d = Some id → ∃ d', ms_calls s !! k = Some d' ∧ cl_id d' = Some id) as Hback.
    { clear -Hid. intros k d Hd Hkid. destruct (decide (i = k)) as [<-|Hne]; [|rewrite list_lookup_alter_ne in Hd by done; by exists d].
      rewrite list_lookup_alter_eq in Hd. apply fmap_Some in Hd as (d' & Hd' & ->). exists d'. by rewrite Hid in Hkid. }
    destruct (Hback j c Hj Hjid) as (c' & ? & ?), (Hback k d Hk Hkid) as (d' & ? & ?). by eapply Hids.
Qed.

(** Giving a call that has an identifier a new state of its goroutine. *)
Lemma set_worker_ok n inp read wk c :
  is_Some (cl_id c) → (worker_ok inp read c → worker_ok inp read (set_worker wk c)) → call_ok n inp read c → call_ok n inp read (set_worker wk c).
Proof. intros [id Hid] Hw [H1 H2 H3 H4]. split; try done; [|by apply Hw]. cbn. congruence. Qed.

Lemma finish_inv n s i id r :
  (∀ c, ms_calls s !! i = Some c → cl_id c = Some id) →
  (∀ c, ms_calls s !! i = Some c → worker_ok (ms_in s) (ms_read s) c → worker_ok (ms_in s) (ms_read s) (set_worker (Done r) c)) →
  mcp_inv n s → mcp_inv n (finish i r s).
Proof.
  intros Hid Hw. apply (inv_alter n s _ (set_worker (Done r)) i); try done. intros c Hc. apply set_worker_ok; [by rewrite (Hid c Hc)|by apply Hw].
Qed.

Lemma read_step_inv n s s' i c id lines :
  ms_calls s !! i = Some c → cl_id c = Some id → cl_worker c = Reading lines → read_step unmarshal_response name i id lines s = Some s' →
  mcp_inv n s → mcp_inv n s'.
Proof.
  intros Hc Hid Hw. unfold read_step. destruct (ms_out s) as [|line out] eqn:Hout.
  - destruct (ms_eof s); [|done]. intros [= <-]. apply (finish_inv n s i id); [intros ? ?; by simplify_eq|done].
  - set (s1 := Build_mcp_state _ _ _ _ _ _ _). intros [= <-] Hinv.
    assert (mcp_inv n s1) as Hinv1.
    { destruct Hinv as [Hnext Hcalls Hids]. split; [done| |done]. intros j d Hd. eapply call_ok_mono; [..|by apply (Hcalls j)]; [done|done|].
      cbn. set_solver. }
    assert (∀ d, ms_calls s1 !! i = Some d → d = c) as Hd by (intros d Hd; cbn in Hd; by simplify_eq).
    destruct (on_line _ id line) as [resp|] eqn:Hline.
    + apply (finish_inv n s1 i id); [by intros d ->%Hd| |done]. intros d ->%Hd. unfold worker_ok. rewrite Hw. cbn. intros Hwr.
      unfold on_line in Hline. destruct (unmarshal_response line) as [resp'|] eqn:Hun; [|done]. destruct (_ =? 0); [done|].
      destruct (Z.eqb_spec (jr_ID resp') id) as [Heq|]; cbn in Hline; [|done]. injection Hline as ->.
      split_and!; [done|cbn; by rewrite Hid, Heq|]. exists line. split; [|done]. set_solver.
    + assert (∀ lines', mcp_inv n (with_calls (alter (set_worker (Reading lines')) i) s1)) as Hskip.
      { intros lines'. apply (inv_alter n s1 _ (set_worker (Reading lines')) i); try done. intros d ->%Hd. apply set_worker_ok; [by rewrite Hid|].
        unfold worker_ok. by rewrite Hw. }
      assert (∀ e, mcp_inv n (finish i (Err e) s1)) as Herr by (intros e; apply (finish_inv n s1 i id); [by intros d ->%Hd|done|done]).
      destruct lines as [|[|lines]]; [apply Herr..|apply Hskip].
Qed.

Lemma take_id_inv n s i c :
  ms_calls s !! i = Some c → cl_id c = None → n + 1 ≤ max_int64 → mcp_inv n s → mcp_inv (n + 1) (take_id marshal_request i c s).
Proof.
  intros Hc Hid Hn [Hnext Hcalls Hids]. unfold take_id. rewrite wrap64_id by (unfold min_int64, max_int64 in *; lia).
  set (id := ms_nextID s + 1). set (c' := match marshal_request (request_of id c) with Err e => _ | Ok data => _ end).
  assert (cl_id c' = Some id) as Hid' by (unfold c'; by destruct (marshal_request _)).
  destruct (co_new _ _ _ _ (Hcalls i c Hc) Hid) as [Hw Hret].
  assert (call_ok id (ms_in s) (ms_read s) c') as Hok.
  { split; [intros id' Heq; rewrite Hid' in Heq; injection Heq as <-; lia|by rewrite Hid'|..]; unfold c'.
    - destruct (marshal_request (request_of id c)) as [data|e] eqn:Hm; cbn; [by exists id|done].
    - intros resp. destruct (marshal_request (request_of id c)); cbn; [by rewrite Hret|done]. }
  split; cbn; [lia|..].
  - intros j d Hd. apply list_lookup_insert_Some in Hd as [(<- & <- & _)|[_ Hd]]; [done|]. eapply call_ok_mono; [..|by apply (Hcalls j)]; [lia|done..].
  - assert (∀ k d, ms_calls s !! k = Some d → cl_id d ≠ Some id) as Hfresh by (intros k d Hk ?%(co_id _ _ _ _ (Hcalls k d Hk)); lia).
    intros j k d e id' Hj Hk Hjid Hkid. apply list_lookup_insert_Some in Hj as [(<- & <- & _)|[_ Hj]];
      apply list_lookup_insert_Some in Hk as [(<- & <- & _)|[_ Hk]]; [done|..|by eapply Hids].
    + rewrite Hid' in Hjid. injection Hjid as <-. by apply Hfresh in Hk.
    + rewrite Hid' in Hkid. injection Hkid as <-. by apply Hfresh in Hj.
Qed.

Lemma take_lock_inv n s i c data failed :
  ms_calls s !! i = Some c → cl_worker c = Waiting data → mcp_inv n s → mcp_inv n (take_lock i data failed s).
Proof.
  intros Hc Hw Hinv. pose proof (co_worker _ _ _ _ (mi_calls _ _ Hinv i c Hc)) as Hok. unfold worker_ok in Hok.
  rewrite Hw in Hok. destruct Hok as (id & Hid & Hm).
  unfold take_lock. destruct failed as [e|]; (eapply inv_alter; [reflexivity|..|exact Hinv]; try done); cbn; try set_solver.
  - intros d Hd. assert (d = c) as -> by congruence. by apply set_worker_ok; [by rewrite Hid|].
  - intros d Hd. assert (d = c) as -> by congruence. apply set_worker_ok; [by rewrite Hid|]. intros _. exists id, data. split_and!; try done. set_solver.
Qed.

Lemma step_inv n e s s' : n + 1 ≤ max_int64 → step e s = Some s' → mcp_inv n s → mcp_inv (n + 1) s'.
Proof.
  intros Hn Hs Hinv. assert (∀ s'', mcp_inv n s'' → mcp_inv (n + 1) s'') as Hup by (intros s'' [? ? ?]; split; [lia|done..]).
  destruct e as [method params|i|i failed|i|i e|i ctx|line|]; cbn in Hs.
  - injection Hs as <-. apply Hup. destruct Hinv as [Hnext Hcalls Hids]. set (new := Build_call _ _ _ _ _ _).
    split; [done|..]; cbn.
    + intros i c [Hc|[_ Hc]]%lookup_app_Some; [by apply (Hcalls i)|]. apply list_lookup_singleton_Some in Hc as [_ <-]. by split.
    + intros i j c d id [Hi|[_ [_ <-]%list_lookup_singleton_Some]]%lookup_app_Some [Hj|[_ [_ <-]%list_lookup_singleton_Some]]%lookup_app_Some; try done.
      by eapply Hids.
  - destruct (ms_calls s !! i) as [c|] eqn:Hc; cbn in Hs; [|done]. destruct (cl_id c) eqn:Hid; [done|]. destruct (ms_lock s); [done|].
    injection Hs as <-. by apply take_id_inv.
  - destruct (ms_calls s !! i) as [c|] eqn:Hc; cbn in Hs; [|done]. destruct (cl_worker c) eqn:Hw; try done. destruct (ms_lock s); [done|].
    injection Hs as <-. by eapply Hup, take_lock_inv.
  - destruct (ms_calls s !! i) as [c|] eqn:Hc; cbn in Hs; [|done]. destruct (cl_worker c) eqn:Hw; try done. destruct (cl_id c) eqn:Hid; [|done].
    by eapply Hup, read_step_inv.
  - destruct (ms_calls s !! i) as [c|] eqn:Hc; cbn in Hs; [|done]. destruct (cl_ended c); [done|]. injection Hs as <-. apply Hup.
    eapply inv_alter; [reflexivity|..|exact Hinv]; try done. by intros d _ [? ? ? ?].
  - destruct (ms_calls s !! i) as [c|] eqn:Hc; cbn in Hs; [|done]. destruct (cl_ret c) eqn:Hret; [done|].
    assert (∃ r, (∀ resp, r = Ok resp → cl_worker c = Done (Ok resp)) ∧ with_calls (alter (set_ret r) i) s = s') as (r & Hr & <-).
    { destruct (cl_worker c) eqn:Hw; try done; destruct ctx; try done; try (destruct (cl_ended c); [|done]); cbn in Hs; injection Hs as <-;
        eexists; (split; [|reflexivity]); by intros ? [=]; subst. }
    apply Hup. eapply inv_alter; [reflexivity|..|exact Hinv]; try done. intros d Hd [H1 H2 H3 H4]. assert (d = c) as -> by congruence.
    split; [done|intros Hnone; destruct (H2 Hnone) as [Hw' _]|done|].
    + exfalso. by rewrite Hw' in Hs.
    + cbn. intros resp [= ->]. unfold worker_ok in H3. by rewrite (Hr resp eq_refl) in H3.
  - destruct (ms_eof s); [done|]. injection Hs as <-. apply Hup. by destruct Hinv; split.
  - injection Hs as <-. apply Hup. by destruct Hinv; split.
Qed.

Lemma run_snoc es e s : run (es ++ [e]) s = run es s ≫= step e.
Proof. unfold mcp_run. by rewrite foldl_app. Qed.

Lemma run_none es : foldl (λ s e, s ≫= step e) None es = None.
Proof. by induction es. Qed.

Lemma run_cons e es s : run (e :: es) s = step e s ≫= run es.
Proof. unfold mcp_run. cbn. destruct (step e s); cbn; [done|]. apply run_none. Qed.

Lemma run_inv es s : Z.of_nat (length es) ≤ max_int64 → run es connected = Some s → mcp_inv (Z.of_nat (length es)) s.
Proof.
  revert s. induction es as [|e es IH] using rev_ind; intros s Hlen.
  - cbn. intros [= <-]. split; [cbn; lia|by intros ? ? ?|by intros ? ? ? ? ? ?].
  - rewrite run_snoc. rewrite length_app in *. cbn in *. destruct (run es connected) as [s1|] eqn:Hr; cbn; [|done]. intros Hs.
    rewrite Nat2Z.inj_add in *. eapply step_inv; [lia|exact Hs|]. apply IH; [lia|done].
Qed.

(** C4: However many calls are made of one process at the same time, and whatever it writes:
    a call that returns an answer returns the one with its own identifier, from a line of
    the process, after its request was written; and no two calls return the same answer,
    since no two have the same identifier. *)
Theorem mcp_answers_own es s :
  run es connected = Some s → Z.of_nat (length es) ≤ max_int64 →
  (∀ i c resp, ms_calls s !! i = Some c → cl_ret c = Some (Ok resp) → answered (ms_in s) (ms_read s) c resp)
  ∧ ∀ i j c d r1 r2, ms_calls s !! i = Some c → ms_calls s !! j = Some d → i ≠ j →
      cl_ret c = Some (Ok r1) → cl_ret d = Some (Ok r2) → jr_ID r1 ≠ jr_ID r2.
Proof.
  intros Hrun Hlen. destruct (run_inv es s Hlen Hrun) as [_ Hcalls Hids]. split.
  - intros i c resp Hc. apply (co_ret _ _ _ _ (Hcalls i c Hc)).
  - intros i j c d r1 r2 Hc Hd Hne H1 H2 Heq. apply Hne.
    destruct (co_ret _ _ _ _ (Hcalls i c Hc) _ H1) as (_ & Hid1 & _), (co_ret _ _ _ _ (Hcalls j d Hd) _ H2) as (_ & Hid2 & _).
    eapply (Hids i j c d); [done..|]. by rewrite Heq.
Qed.

(** ** Who waits for the process *)

(** A goroutine that reads holds the mutex. *)
Definition reading (s : mcp_state J) (i : nat) (id : Z) (lines : nat) : Prop :=
  ms_lock s = Some i ∧ ∃ c, ms_calls s !! i = Some c ∧ cl_worker c = Reading lines ∧ cl_id c = Some id.

Definition comes_from_server (e : mcp_event J) : bool := match e with MServer _ | MEOF => true | _ => false end.

Lemma reader_step lines s i id line out :
  reading s i id (S lines) → ms_out s = line :: out →
  ∃ s', step (MRead i) s = Some s' ∧ ms_out s' = out ∧ ms_eof s' = ms_eof s ∧
    match on_line unmarshal_response id line, lines with
    | Some resp, _ => ms_lock s' = None ∧ cl_worker <$> ms_calls s' !! i = Some (Done (Ok resp))
    | None, S _ => reading s' i id lines
    | None, O => ms_lock s' = None ∧ cl_worker <$> ms_calls s' !! i = Some (Done (Err (no_match name)))
    end.
Proof.
  intros (Hl & c & Hc & Hw & Hid) Hout. cbn. rewrite Hc. cbn. rewrite Hw, Hid. unfold read_step. rewrite Hout.
  eexists. split; [reflexivity|]. unfold finish, with_lock, with_calls, reading.
  destruct (on_line _ id line) as [resp|]; [|destruct lines as [|lines]]; cbn; rewrite !list_lookup_alter_eq, Hc; cbn; split_and!; try done.
  eexists. split; [done|]. by cbn.
Qed.

(** A reading goroutine stops once it has been given enough lines, with the first that
    answers its request. *)
Lemma reader_lets_go lines s i id :
  reading s i id (S lines) → (S lines ≤ length (ms_out s) ∨ ms_eof s = true)%nat →
  ∃ m s' r, run (replicate m (MRead i)) s = Some s' ∧ ms_lock s' = None ∧ cl_worker <$> ms_calls s' !! i = Some (Done r)
    ∧ ∀ resp, head (omap (on_line unmarshal_response id) (take (S lines) (ms_out s))) = Some resp → r = Ok resp.
Proof.
  revert s. induction lines as [|lines IH]; intros s Hr Hen; destruct (ms_out s) as [|line out] eqn:Hout.
  1,3: destruct Hen as [Hen|Heof]; [cbn in Hen; lia|]; destruct Hr as (Hl & c & Hc & Hw & Hid);
       exists 1%nat, (finish i (Err end_of_output) s), (Err end_of_output); cbn [replicate]; rewrite run_cons; cbn; rewrite Hc; cbn; rewrite Hw, Hid; unfold read_step;
       rewrite Hout, Heof, list_lookup_alter_eq, Hc; by split_and!.
  all: destruct (reader_step _ _ _ _ _ _ Hr Hout) as (s' & Hs & Hout' & Heof' & Hcase); cbn [take omap list_omap].
  - destruct (on_line _ id line) as [resp|] eqn:Hline; destruct Hcase as [Hl Hw]; eexists 1%nat, s', _; cbn [replicate]; rewrite run_cons, Hs; split_and!; try done; by intros ? [=->].
  - destruct (on_line _ id line) as [resp|] eqn:Hline.
    + destruct Hcase as [Hl Hw]; eexists 1%nat, s', _; cbn [replicate]; rewrite run_cons, Hs; split_and!; try done; by intros ? [=->].
    + destruct (IH s' Hcase) as (m & s'' & r & Hrun & Hl & Hw & Hresp); [rewrite Hout', Heof'; destruct Hen as [Hen|Hen]; [left; cbn in Hen; lia|by right]|].
      exists (S m), s'', r. cbn [replicate]. rewrite run_cons, Hs. cbn. split_and!; try done. intros resp. rewrite <- Hout'. apply Hresp.
Qed.

(** While it reads and there is nothing to read, nothing changes but for the callers: no
    call that has no identifier gets one or returns. *)
Definition held_up (i : nat) (id : Z) (lines : nat) (s : mcp_state J) : Prop :=
  reading s i id lines ∧ ms_out s = [] ∧ ms_eof s = false ∧ ∀ j c, ms_calls s !! j = Some c → cl_id c = None → cl_worker c = NotStarted ∧ cl_ret c = None.

Lemma held_alter i id lines s f j :
  held_up i id lines s → (∀ c, cl_id (f c) = cl_id c ∧ cl_worker (f c) = cl_worker c) →
  (∀ c, ms_calls s !! j = Some c → cl_id c = None → cl_ret (f c) = None) → held_up i id lines (with_calls (alter f j) s).
Proof.
  intros ((Hl & c & Hc & Hw & Hid) & Ho & He & Hn) Hf Hret. split_and!; try done.
  - split; [done|]. destruct (decide (i = j)) as [<-|Hne]; cbn.
    + exists (f c). rewrite list_lookup_alter_eq, Hc. destruct (Hf c) as [-> ->]. by split_and!.
    + exists c. by rewrite list_lookup_alter_ne.
  - cbn. intros k d Hd Hnone. destruct (decide (j = k)) as [<-|Hne]; [|rewrite list_lookup_alter_ne in Hd by done; by eapply Hn].
    rewrite list_lookup_alter_eq in Hd. apply fmap_Some in Hd as (d' & Hd' & ->). destruct (Hf d') as [Hfi Hfw]. rewrite Hfi in Hnone. rewrite Hfw.
    split; [by eapply Hn|by eapply Hret].
Qed.

Lemma held_step i id lines e s s' :
  comes_from_server e = false → step e s = Some s' → held_up i id lines s → held_up i id lines s' ∧ ms_nextID s' = ms_nextID s.
Proof.
  intros He Hs Hh. pose proof Hh as ((Hl & c & Hc & Hw & Hid) & Ho & Heof & Hn).
  destruct e as [method params|j|j failed|j|j err|j ctx| |]; cbn in Hs; try done.
  - injection Hs as <-. split; [|done]. split_and!; try done.
    + split; [done|]. exists c. cbn. split_and!; try done. by apply lookup_app_l_Some.
    + cbn. intros k d [Hd|[_ [_ <-]%list_lookup_singleton_Some]]%lookup_app_Some Hnone; [by eapply Hn|done].
  - destruct (ms_calls s !! j) as [d|]; cbn in Hs; [|done]. rewrite Hl in Hs. by destruct (cl_id d).
  - destruct (ms_calls s !! j) as [d|]; cbn in Hs; [|done]. rewrite Hl in Hs. by destruct (cl_worker d).
  - destruct (ms_calls s !! j) as [d|]; cbn in Hs; [|done]. destruct (cl_worker d), (cl_id d); try done. unfold read_step in Hs. by rewrite Ho, Heof in Hs.
  - destruct (ms_calls s !! j) as [d|] eqn:Hd; cbn in Hs; [|done]. destruct (cl_ended d); [done|]. injection Hs as <-. split; [|done].
    apply held_alter; [done|by intros [? ? ? ? ? ?]|]. intros d' Hd' Hnone. cbn. by eapply Hn.
  - destruct (ms_calls s !! j) as [d|] eqn:Hd; cbn in Hs; [|done]. destruct (cl_ret d) eqn:Hret; [done|].
    assert (cl_worker d ≠ NotStarted ∧ ∃ r, s' = with_calls (alter (set_ret r) j) s) as (Hns & r & ->).
    { destruct (cl_worker d) eqn:Hwd; try done; destruct ctx; try done; try (destruct (cl_ended d); [|done]); cbn in Hs; injection Hs as <-; (split; [done|eexists; reflexivity]). }
    split; [|done]. apply held_alter; [done|by intros [? ? ? ? ? ?]|]. intros d' Hd' Hnone. assert (d' = d) as -> by congruence. by destruct (Hn _ _ Hd Hnone).
Qed.

(** C35: A call waits for the process that another call is talking to: given as many lines as
    the call may skip, or the end of the output, the mutex is let go with the first answer
    among them; but while a process writes nothing and stays open, no other call gets past
    taking its identifier, or returns, whatever becomes of its own context. *)
Theorem calls_wait_for_the_process es s i id lines :
  run es connected = Some s → Z.of_nat (length es) ≤ max_int64 → reading s i id (S lines) →
  ((S lines ≤ length (ms_out s) ∨ ms_eof s = true)%nat →
     ∃ m s' r, run (replicate m (MRead i)) s = Some s' ∧ ms_lock s' = None ∧ cl_worker <$> ms_calls s' !! i = Some (Done r)
       ∧ ∀ resp, head (omap (on_line unmarshal_response id) (take (S lines) (ms_out s))) = Some resp → r = Ok resp)
  ∧ (ms_out s = [] → ms_eof s = false → ∀ more s', forallb (negb ∘ comes_from_server) more = true → run more s = Some s' →
      ms_lock s' = Some i ∧ ms_nextID s' = ms_nextID s
      ∧ ∀ j c, ms_calls s' !! j = Some c → cl_id c = None → cl_ret c = None).
Proof.
  intros Hrun Hlen Hr. split; [by apply reader_lets_go|]. intros Ho He more s'.
  assert (held_up i id (S lines) s) as Hh.
  { split_and!; try done. intros j c Hc. apply (co_new _ _ _ _ (mi_calls _ _ (run_inv es s Hlen Hrun) j c Hc)). }
  assert (forallb (negb ∘ comes_from_server) more = true → run more s = Some s' → held_up i id (S lines) s' ∧ ms_nextID s' = ms_nextID s) as Hmore.
  { clear Hrun Hr Ho He. revert s Hh. induction more as [|e more IH]; intros s Hh; [by intros _ [= <-]|].
    cbn [forallb]. intros [Hne Hall]%andb_true_iff Hrun. rewrite run_cons in Hrun. destruct (step e s) as [s1|] eqn:Hs; cbn in Hrun; [|done].
    apply negb_true_iff in Hne. destruct (held_step _ _ _ _ _ _ Hne Hs Hh) as [Hh1 <-]. by apply IH. }
  intros Hall Hrun'. destruct (Hmore Hall Hrun') as [((Hl & _) & _ & _ & Hn) Hid]. split_and!; try done. intros j c Hc Hnone. by destruct (Hn j c Hc Hnone).
Qed.
End answers.

(** ** Which processes are left *)

Section processes.
Context {J W P : Type}.
Context (start_process : string → list string → list string → W → W * result (start_stage * goerror) P).
Context (write_stdin : P → string → W → W * option goerror) (read_line : P → W → W * result goerror string).
Context (close_stdin : P → W → W) (kill : P → W → W * option goerror) (wait_process : P → W → W).
Context (check_url : string → option goerror).
Context (http_post : string → gmap string string → duration → string → W → W * result goerror (Z * result goerror string)).
Context (cut_off : option duration → W → option goerror).
Context (marshal_request : JSONRPCRequest J → result goerror string) (unmarshal_response : string → result goerror JSONRPCResponse).
Context (unmarshal_tools : string → result goerror (list (mcpToolDef J))).
Context (refuse_tool : string → string → option goerror).
(** The processes that run.  A started one runs; a killed one does not (the error of killing
    is that it has ended); all others may end, but do not begin. *)
Context (alive : P → W → Prop).

Record ProcessLaws : Prop := {
  pl_start : ∀ cmd args env w p q, (start_process cmd args env w).2 = Ok p → alive q (start_process cmd args env w).1 → q = p ∨ alive q w;
  pl_start_failed : ∀ cmd args env w e q, (start_process cmd args env w).2 = Err e → alive q (start_process cmd args env w).1 → alive q w;
  pl_write : ∀ p s w q, alive q (write_stdin p s w).1 → alive q w;
  pl_read : ∀ p w q, alive q (read_line p w).1 → alive q w;
  pl_close : ∀ p w q, alive q (close_stdin p w) → alive q w;
  pl_kill : ∀ p w q, alive q (kill p w).1 → q ≠ p ∧ alive q w;
  pl_wait : ∀ p w q, alive q (wait_process p w) → alive q w;
  pl_post : ∀ u h t s w q, alive q (http_post u h t s w).1 → alive q w;
}.
Context (Hlaws : ProcessLaws).

Local Abbreviation send := (sendRequest (W := W) (P := P) write_stdin read_line check_url http_post cut_off marshal_request unmarshal_response).
Local Abbreviation init := (initialize (W := W) (P := P) write_stdin read_line check_url http_post cut_off marshal_request unmarshal_response).
Local Abbreviation list_tools := (listTools (W := W) (P := P) write_stdin read_line check_url http_post cut_off marshal_request unmarshal_response unmarshal_tools).
Local Abbreviation close := (Close (J := J) close_stdin kill wait_process).
Local Abbreviation connect := (Connect start_process write_stdin read_line close_stdin kill wait_process check_url http_post cut_off
                                 marshal_request unmarshal_response unmarshal_tools).
Local Abbreviation connect_all := (ConnectAll start_process write_stdin read_line close_stdin kill wait_process check_url http_post cut_off
                                     marshal_request unmarshal_response unmarshal_tools refuse_tool).

Lemma read_response_alive name lines id p w q :
  alive q (read_response read_line unmarshal_response name lines id p w).1 → alive q w.
Proof.
  revert w. induction lines as [|lines IH]; intros w; cbn; [done|]. pose proof (pl_read Hlaws p w q) as Hr.
  destruct (read_line p w) as [w1 [line|e]]; cbn in *; [|done]. destruct (on_line _ id line); [done|]. intros ?%IH. by apply Hr.
Qed.

Lemma send_alive t m ps c w c' w' r q : send t m ps c w = Some (c', w', r) → ct_process c' = ct_process c ∧ ct_name c' = ct_name c ∧ (alive q w' → alive q w).
Proof.
  unfold sendRequest. set (c1 := with_nextID _ c). set (req := Build_JSONRPCRequest _ _ _ _).
  destruct (if negb _ then _ else _) as [[w1 r1]|] eqn:Hs; cbn; [|done]. intros [= <- <- <-]. split_and!; [done..|].
  destruct (negb _); [injection Hs as Hs; unfold sendHTTP in Hs|unfold sendStdio in Hs]; destruct (marshal_request req) as [data|e]; try by simplify_eq.
  - destruct (check_url _); [by simplify_eq|]. pose proof (pl_post Hlaws (ct_httpURL c1) (ct_httpHeaders c1) (ct_httpTimeout c1) data w q) as Hp.
    destruct (http_post _ _ _ _ w) as [w2 [[status [body|e]]|e]]; cbn in *; repeat case_match; by simplify_eq.
  - destruct (ct_process c1) as [p|]; cbn [mbind option_bind] in Hs; [|done]. unfold talk in Hs.
    pose proof (pl_write Hlaws p (data +:+ lf) w q) as Hw. destruct (write_stdin p _ w) as [w2 [e|]]; cbn [fst] in *; [by simplify_eq|].
    pose proof (read_response_alive (ct_name c1) maxSkipLines (jq_ID req) p w2 q) as Hr.
    destruct (read_response _ _ _ _ _ p w2) as [w3 r3]. cbn [fst] in *. simplify_eq. intros ?. by apply Hw, Hr.
Qed.

Lemma notify_alive c w q : alive q (notify write_stdin check_url http_post marshal_request c w) → alive q w.
Proof.
  unfold notify. destruct (negb _); [destruct (check_url _); [done|apply (pl_post Hlaws)]|]. destruct (ct_process c) as [p|]; [apply (pl_write Hlaws)|done].
Qed.

Lemma init_alive c w c' w' e q : init c w = Some (c', w', e) → ct_process c' = ct_process c ∧ ct_name c' = ct_name c ∧ (alive q w' → alive q w).
Proof.
  unfold initialize. destruct (send _ _ _ c w) as [[[c1 w1] r]|] eqn:Hs; cbn; [|done]. apply (send_alive _ _ _ _ _ _ _ _ q) in Hs as (Hp & Hn & Ha).
  intros Heq. repeat case_match; simplify_eq; split_and!; try done. by intros ?%notify_alive%Ha.
Qed.

Lemma list_tools_alive c w c' w' e q : list_tools c w = Some (c', w', e) → ct_process c' = ct_process c ∧ ct_name c' = ct_name c ∧ (alive q w' → alive q w).
Proof.
  unfold listTools. destruct (send _ _ _ c w) as [[[c1 w1] r]|] eqn:Hs; cbn; [|done]. apply (send_alive _ _ _ _ _ _ _ _ q) in Hs as (Hp & Hn & Ha).
  intros Heq. repeat case_match; by simplify_eq.
Qed.

Lemma close_alive c w q : alive q (close c w).1 → ct_process c ≠ Some q ∧ alive q w.
Proof.
  unfold Close. destruct (ct_process c) as [p|]; [|done]. pose proof (pl_kill Hlaws p (close_stdin p w) q) as Hk.
  destruct (kill p _) as [w1 [e|]]; cbn in *; intros Ha.
  - destruct (Hk Ha) as [Hne ?%(pl_close Hlaws)]. split; [congruence|done].
  - apply (pl_wait Hlaws) in Ha. destruct (Hk Ha) as [Hne ?%(pl_close Hlaws)]. split; [congruence|done].
Qed.

Lemma close_all_alive cs w q : alive q (close_all close_stdin kill wait_process cs w) → alive q w ∧ ∀ c, c ∈ cs → ct_process (J := J) c ≠ Some q.
Proof.
  unfold close_all. revert w. induction cs as [|c cs IH]; intros w; cbn; [intros; split; [done|by intros ? ?%not_elem_of_nil]|].
  intros [[Hp Ha]%close_alive Hcs]%IH. split; [done|]. intros d [->|Hd]%elem_of_cons; [done|by apply Hcs].
Qed.

(** The process of a client whose server did not list its tools. *)
Definition listing_failed (name : string) (p : P) : Prop :=
  ∃ c w c' w' e, ct_name c = name ∧ ct_process c = Some p ∧ list_tools c w = Some (c', w', Some e).

Lemma connect_alive order name cfg w c w' e q :
  connect order (NewClient name cfg) w = Some (c, w', e) → alive q w' →
  ct_name c = name ∧ match e with None => alive q w ∨ ct_process c = Some q | Some _ => alive q w ∨ listing_failed name q end.
Proof.
  unfold Connect. set (c0 := NewClient name cfg). assert (ct_name c0 = name) as H0 by done. clearbody c0. destruct (negb _).
  { unfold connectHTTP. set (c1 := with_http _ _ _ c0). destruct (init c1 w) as [[[c2 w2] [e2|]]|] eqn:Hi; cbn; [| |done];
      apply (init_alive _ _ _ _ _ q) in Hi as (Hp & Hn & Ha).
    - intros [= <- <- <-] Hq. split; [by rewrite Hn|left; by apply Ha].
    - intros Hl Hq. pose proof Hl as (Hp2 & Hn2 & Ha2)%(list_tools_alive _ _ _ _ _ q). split; [by rewrite Hn2, Hn|]. destruct e; left; by apply Ha, Ha2. }
  destruct (negb _); [|intros [= <- <- <-] Hq; split; [done|by left]].
  unfold connectStdio. set (env := env_of _ _).
  pose proof (λ p, pl_start Hlaws (sc_Command (ct_config c0)) (sc_Args (ct_config c0)) env w p q) as Hst.
  pose proof (λ e, pl_start_failed Hlaws (sc_Command (ct_config c0)) (sc_Args (ct_config c0)) env w e q) as Hsf.
  destruct (start_process _ _ env w) as [w1 [p|[stage e1]]]; cbn in *; [|intros [= <- <- <-] Hq; split; [done|left; by eapply Hsf]].
  set (c1 := with_process p c0). destruct (init c1 w1) as [[[c2 w2] [e2|]]|] eqn:Hi; cbn; [| |done];
    apply (init_alive _ _ _ _ _ q) in Hi as (Hp & Hn & Ha).
  - intros [= <- <- <-] [Hne Hq]%close_alive. split; [by rewrite Hn|]. destruct (Hst p eq_refl (Ha Hq)) as [->|?]; [by rewrite Hp in Hne|by left].
  - intros Hl Hq. pose proof Hl as (Hp2 & Hn2 & Ha2)%(list_tools_alive _ _ _ _ _ q). split; [by rewrite Hn2, Hn|].
    destruct (Hst p eq_refl (Ha (Ha2 Hq))) as [->|?]; [|by destruct e; left].
    destruct e as [e|]; right; [|by rewrite Hp2, Hp]. exists c2, w2, c, w', e. by rewrite Hn, Hp.
Qed.

Lemma connect_loop_alive servers clients tools w w' r q :
  connect_loop start_process write_stdin read_line close_stdin kill wait_process check_url http_post cut_off
    marshal_request unmarshal_response unmarshal_tools refuse_tool servers clients tools w = Some (w', r) →
  alive q w' →
  match r with
  | Ok (clients', _) => alive q w ∨ ∃ c, c ∈ clients' ∧ ct_process c = Some q
  | Err _ => (alive q w ∧ ∀ c, c ∈ clients → ct_process c ≠ Some q) ∨ ∃ name, name ∈ servers.*1.*1 ∧ listing_failed name q
  end.
Proof.
  revert clients tools w. induction servers as [|[[name cfg] order] servers IH]; intros clients tools w; cbn [connect_loop].
  - intros [= <- <-] Hq. by left.
  - destruct (connect order _ w) as [[[c w1] e]|] eqn:Hc; cbn; [|done]. destruct e as [e|].
    + intros [= <- <-] [Hq Hcs]%close_all_alive. destruct (connect_alive _ _ _ _ _ _ _ _ Hc Hq) as [Hn [?|?]]; [by left|right; exists name]. split; [by left|done].
    + destruct (wrap_all _ _ _) as [new|]; cbn; [|done]. intros Hl Hq. specialize (IH _ _ _ Hl Hq). destruct r as [[clients' tools']|e].
      * destruct IH as [Hq1|?]; [|by right]. destruct (connect_alive _ _ _ _ _ _ _ _ Hc Hq1) as [_ [?|Hp]]; [by left|]. right.
        exists c. split; [|done]. clear -Hl. revert Hl. assert (c ∈ clients ++ [c]) as Hin by set_solver. revert Hin. generalize (clients ++ [c]) as cs. generalize (tools ++ new) as ts.
        revert w1. induction servers as [|[[name cfg] order] servers IH]; intros w1 ts cs Hin; cbn [connect_loop]; [by intros [= <- <- <-]|].
        destruct (connect order _ w1) as [[[d w2] [e|]]|]; cbn; [done| |done]. destruct (wrap_all _ _ _); cbn; [|done]. apply IH. set_solver.
      * destruct IH as [[Hq1 Hcs]|(n & Hn & Hf)]; [|right; exists n; split; [by right|done]].
        destruct (connect_alive _ _ _ _ _ _ _ _ Hc Hq1) as [_ [?|Hp]]; [|by destruct (Hcs c); [set_solver|]].
        left. split; [done|]. intros d Hd. apply Hcs. set_solver.
Qed.

(** When all servers are connected the only new processes are those of the clients; when
    one is not, those of the others are closed again, and the only process that may be left
    is one whose server was started but did not list its tools. *)
Theorem ConnectAll_closes servers w w' r q :
  connect_all servers w = Some (w', r) → alive q w' → ¬ alive q w →
  match r with
  | Ok (clients, _) => ∃ c, c ∈ clients ∧ ct_process c = Some q
  | Err _ => ∃ name, name ∈ servers.*1.*1 ∧ listing_failed name q
  end.
Proof.
  intros Hc Hq Hnew. pose proof (connect_loop_alive _ _ _ _ _ _ _ Hc Hq) as Hr. destruct r as [[clients tools]|e]; destruct Hr as [Hr|Hr]; try done. by destruct Hr.
Qed.
End processes.

(** ** Witnesses *)

Definition w_resp (id : Z) (e : option JSONRPCError) : JSONRPCResponse := {| jr_JSONRPC := "2.0"; jr_ID := id; jr_Result := ""; jr_Error := e |}.
Definition w_marshal (r : JSONRPCRequest unit) : result goerror string := Ok (pretty (jq_ID r)).
Definition w_unmarshal (line : string) : result goerror JSONRPCResponse :=
  if bool_decide (line ∈ ["1"; "01" +:+ lf; "11" +:+ lf]) then Ok (w_resp 1 None)
  else if bool_decide (line ∈ ["2"; "02" +:+ lf]) then Ok (w_resp 2 None)
  else if bool_decide (line = "12" +:+ lf) then Ok (w_resp 2 (Some {| je_Code := 5; je_Message := "m" |}))
  else Err (ErrText "no JSON").
Definition w_mcp_events : list (mcp_event unit) :=
  [MCall "a" NoParams; MCall "b" NoParams; MID 0; MID 1; MLock 1 None; MServer "n"; MServer "2"; MRead 1; MRead 1; MLock 0 None;
   MServer "1"; MRead 0; MReturn 0 false; MReturn 1 false].
Definition w_mcp_end : option (mcp_state unit) := Eval vm_compute in mcp_run w_marshal w_unmarshal "s" w_mcp_events connected.

Definition w_mcp_final : mcp_state unit := default connected w_mcp_end.

Lemma mcp_answers_own_witness :
  (cl_ret <$> ms_calls w_mcp_final) = [Some (Ok (w_resp 1 None)); Some (Ok (w_resp 2 None))]
  ∧ ∀ i c resp, ms_calls w_mcp_final !! i = Some c → cl_ret c = Some (Ok resp) → answered w_marshal w_unmarshal (ms_in w_mcp_final) (ms_read w_mcp_final) c resp.
Proof.
  split; [vm_compute; reflexivity|].
  refine (proj1 (mcp_answers_own w_marshal w_unmarshal "s" w_mcp_events w_mcp_final _ _)); [vm_compute; reflexivity|vm_compute; congruence].
Defined.

(** A call that another one waits for, while the process is silent. *)
Definition w_wait_events : list (mcp_event unit) := [MCall "a" NoParams; MCall "b" NoParams; MID 0; MLock 0 None].
Definition w_wait : option (mcp_state unit) := Eval vm_compute in mcp_run w_marshal w_unmarshal "s" w_wait_events connected.
Definition w_waiting : mcp_state unit := default connected w_wait.

Definition w_more : list (mcp_event unit) := [MEnd 1 (ErrText "deadline"); MEnd 0 (ErrText "deadline"); MReturn 0 true].
Definition w_still_waiting : mcp_state unit :=
  Eval vm_compute in default connected (mcp_run w_marshal w_unmarshal "s" w_more w_waiting).

Lemma calls_wait_for_the_process_witness : ms_lock w_still_waiting = Some 0%nat.
Proof.
  refine (proj1 (proj2 (calls_wait_for_the_process w_marshal w_unmarshal "s" w_wait_events w_waiting 0 1 49 _ _ _) _ _ w_more w_still_waiting _ _)).
  - vm_compute. reflexivity.
  - vm_compute. congruence.
  - split; [vm_compute; reflexivity|]. eexists. split; [vm_compute; reflexivity|]. split; vm_compute; reflexivity.
  - reflexivity.
  - reflexivity.
  - reflexivity.
  - vm_compute. reflexivity.
Defined.

(** Two servers, of which the second does not list its tools: its process is left. *)
Definition w_mcp_world : Type := list nat * string.
Definition w_start (cmd : string) (args env : list string) (w : w_mcp_world) : w_mcp_world * result (start_stage * goerror) nat :=
  let p := if bool_decide (cmd = "a"%string) then 0%nat else 1%nat in ((p :: w.1, w.2), Ok p).
Definition w_write (p : nat) (s : string) (w : w_mcp_world) : w_mcp_world * option goerror :=
  ((w.1, if bool_decide (s = "0" +:+ lf) then w.2 else pretty p +:+ s), None).
Definition w_read (p : nat) (w : w_mcp_world) : w_mcp_world * result goerror string := (w, Ok w.2).
Definition w_kill (p : nat) (w : w_mcp_world) : w_mcp_world * option goerror := ((filter (.≠ p) w.1, w.2), None).
Definition w_post (u : string) (h : gmap string string) (t : Z) (s : string) (w : w_mcp_world) : w_mcp_world * result goerror (Z * result goerror string) :=
  (w, Err (ErrText "unreachable")).
Definition w_server (cmd : string) : ServerConfig :=
  {| sc_Command := cmd; sc_Args := []; sc_Env := ∅; sc_URL := ""; sc_Headers := ∅; sc_ToolTimeout := 0 |}.
Definition w_mcp_alive (p : nat) (w : w_mcp_world) : Prop := p ∈ w.1.
Definition w_mcp_left : option (w_mcp_world * result goerror (list (Client unit nat) * list mcp_tool)) :=
  Eval vm_compute in
  ConnectAll w_start w_write w_read (λ _ w, w) w_kill (λ _ w, w) (λ _, None) w_post (λ _ _, None) w_marshal w_unmarshal (λ _, Ok [])
    (λ _ _, None) [("a", w_server "a", []); ("b", w_server "b", [])]%string ([], ""%string).

Lemma w_process_laws : ProcessLaws w_start w_write w_read (λ _ w, w) w_kill (λ _ w, w) w_post w_mcp_alive.
Proof.
  split; unfold w_mcp_alive; cbn; try done.
  - intros cmd _ _ w p q [= <-] [->|?]%elem_of_cons; auto.
  - intros p w q [? ?]%list_elem_of_filter. done.
Qed.

Lemma ConnectAll_closes_witness :
  match w_mcp_left with
  | Some (w', Err _) => ∀ q, q ∈ w'.1 → ∃ name, name ∈ ["a"; "b"]%string ∧
      listing_failed (W := w_mcp_world) w_write w_read (λ _, None) w_post (λ _ _, None) w_marshal w_unmarshal (λ _, Ok []) name q
  | _ => False
  end.
Proof.
  unfold w_mcp_left. intros q Hq.
  exact (ConnectAll_closes w_start w_write w_read (λ _ w, w) w_kill (λ _ w, w) (λ _, None) w_post (λ _ _, None) w_marshal w_unmarshal (λ _, Ok [])
           (λ _ _, None) w_mcp_alive w_process_laws [("a", w_server "a", []); ("b", w_server "b", [])]%string ([], ""%string) _ _ q
           ltac:(vm_compute; reflexivity) Hq (not_elem_of_nil q)).
Defined.

(** The tools of two servers may have the same name. *)
Lemma tool_names_collide : tool_name "a_b" "c" = tool_name "a" "b_c".
Proof. reflexivity. Qed.
