(* ===== verification/SkillRegistry.v ===== *)
(** Remote registries of skills: the manager that searches all of them at once
    ([pkg/skills/registry.go]) and the client of one ([pkg/skills/clawhub]).

    The goroutines of a search are a step relation ([search_step]); HTTP, the parsing of
    addresses and the JSON decoders are parameters. *)
From stdpp Require Import pretty.
From S2P Require Import Prelude GoStrings Quote Floats Types Stores.

(** ** registry.go *)

Record SearchResult := {
  rr_Score : float64; rr_Slug : string; rr_DisplayName : string; rr_Summary : string; rr_Version : string; rr_RegistryName : string;
}.
Record SkillMeta := {
  km_Slug : string; km_DisplayName : string; km_Summary : string; km_LatestVersion : string; km_IsMalwareBlocked : bool;
  km_IsSuspicious : bool; km_RegistryName : string;
}.
Record InstallResult := { ir_Version : string; ir_IsMalwareBlocked : bool; ir_IsSuspicious : bool; ir_Summary : string }.

Record ClawHubConfig := {
  cu_Enabled : bool; cu_BaseURL : string; cu_AuthToken : string; cu_SearchPath : string; cu_SkillsPath : string; cu_DownloadPath : string;
  cu_Timeout : Z; cu_MaxZipSize : Z; cu_MaxResponseSize : Z;
}.
Record RegistryConfig := { rc_ClawHub : ClawHubConfig; rc_MaxConcurrentSearches : Z }.

(** A registry, as the manager sees it: its name and how it searches. *)
Record SkillRegistry := { kr_Name : string; kr_Search : string → Z → result goerror (list SearchResult) }.

Definition defaultMaxConcurrentSearches : Z := 2.
Record RegistryManager := { rm_registries : list SkillRegistry; rm_maxConcurrent : Z }.

Definition NewRegistryManager : RegistryManager := {| rm_registries := []; rm_maxConcurrent := defaultMaxConcurrentSearches |}.
Definition NewRegistryManagerFromConfig (cfg : RegistryConfig) : RegistryManager :=
  {| rm_registries := [];
     rm_maxConcurrent := if 0 <? rc_MaxConcurrentSearches cfg then rc_MaxConcurrentSearches cfg else defaultMaxConcurrentSearches |}.
Definition AddRegistry (r : SkillRegistry) (rm : RegistryManager) : RegistryManager :=
  {| rm_registries := rm_registries rm ++ [r]; rm_maxConcurrent := rm_maxConcurrent rm |}.
Definition GetRegistry (name : string) (rm : RegistryManager) : option SkillRegistry :=
  find_first (λ r, bool_decide (kr_Name r = name)) (rm_registries rm).

(** *** The order of the results *)

(** The inner loop: [key] goes behind the last of the results before it whose score is not
    smaller.  The results before it are in reverse. *)
Fixpoint insert_back (key : SearchResult) (before : list SearchResult) : list SearchResult :=
  match before with
  | [] => [key]
  | r :: before' => if SFltb (rr_Score r) (rr_Score key) then r :: insert_back key before' else key :: before
  end.
Definition SortByScoreDesc (results : list SearchResult) : list SearchResult :=
  reverse (foldl (λ before key, insert_back key before) [] results).

(** *** The search *)

Definition reg_result : Type := result goerror (list SearchResult).

(** A goroutine: it waits for the semaphore, searches, and has sent its result. *)
Inductive searcher := SWaiting | SSearching | SSent.
#[global] Instance searcher_eq_dec : EqDecision searcher.
Proof. solve_decision. Defined.

(** The goroutines and what is in the channel, in the order of its arrival. *)
Record search_state := { ss_go : list searcher; ss_ch : list reg_result }.
Definition search_start (rm : RegistryManager) : search_state := {| ss_go := (λ _, SWaiting) <$> rm_registries rm; ss_ch := [] |}.

(** Taking the semaphore; the end of the context in place of it; the end of a search,
    which within its time gives what the registry answers, or else an error. *)
Inductive search_event := SAcquire (i : nat) | SEnded (i : nat) (e : goerror) | SFinish (i : nat) (cut : option goerror).

Definition searching (s : search_state) : nat := length (filter (λ g, g = SSearching) (ss_go s)).
Definition search_step (rm : RegistryManager) (query : string) (limit : Z) (e : search_event) (s : search_state) : option search_state :=
  match e with
  | SAcquire i =>
      match ss_go s !! i with
      | Some SWaiting =>
          if Z.of_nat (searching s) <? rm_maxConcurrent rm
          then Some {| ss_go := <[i := SSearching]> (ss_go s); ss_ch := ss_ch s |} else None
      | _ => None
      end
  | SEnded i e =>
      match ss_go s !! i with
      | Some SWaiting => Some {| ss_go := <[i := SSent]> (ss_go s); ss_ch := ss_ch s ++ [Err e] |}
      | _ => None
      end
  | SFinish i cut =>
      match ss_go s !! i, rm_registries rm !! i with
      | Some SSearching, Some r =>
          let res := match cut with Some e => Err e | None => kr_Search r query limit end in
          Some {| ss_go := <[i := SSent]> (ss_go s); ss_ch := ss_ch s ++ [res] |}
      | _, _ => None
      end
  end.
Definition search_run (rm : RegistryManager) (query : string) (limit : Z) (es : list search_event) : option search_state :=
  foldl (λ s e, s ≫= search_step rm query limit e) (Some (search_start rm)) es.

(** The channel is closed when all have sent, and the loop over it ends. *)
Definition all_sent (s : search_state) : Prop := Forall (λ g, g = SSent) (ss_go s).

(** The loop over the channel: the results, the last error and whether a registry answered. *)
Definition collect (ch : list reg_result) : list SearchResult * option goerror * bool :=
  foldl (λ '(merged, lastErr, anyOK) rr,
    match rr with
    | Err e => (merged, Some e, anyOK)
    | Ok results => (merged ++ results, lastErr, true)
    end) ([], None, false) ch.

(** What a search returns, for what came through the channel. *)
Definition SearchAll (rm : RegistryManager) (limit : Z) (ch : list reg_result) : result goerror (list SearchResult) :=
  match rm_registries rm with
  | [] => Err (ErrText "no registries configured")
  | _ =>
      let '(merged, lastErr, anyOK) := collect ch in
      match lastErr with
      | Some e => if negb anyOK then Err (ErrText ("all registries failed: " +:+ error_text e))
                  else let merged := SortByScoreDesc merged in Ok (if 0 <? limit then take (Z.to_nat limit) merged else merged)
      | None => let merged := SortByScoreDesc merged in Ok (if 0 <? limit then take (Z.to_nat limit) merged else merged)
      end
  end.

(** ** clawhub *)

Definition defaultTimeout : duration := 30 * Second.
Definition DefaultMaxZipSize : Z := 50 * 1024 * 1024.
Definition defaultMaxResponseSize : Z := 2 * 1024 * 1024.
Definition clawhub_name : string := "clawhub".

Definition is_alnum (c : ascii) : bool := is_lower_byte c || is_upper_byte c || is_digit_byte c.
(** Letters and digits in parts that are joined by single hyphens. *)
Definition SlugPattern (s : string) : bool := forallb (λ part, negb (str_empty part) && forallb is_alnum (s2l part)) (split s "-").

Record Registry := {
  hb_baseURL : string; hb_authToken : string; hb_searchPath : string; hb_skillsPath : string; hb_downloadPath : string;
  hb_maxZipSize : Z; hb_maxResponseSize : Z; hb_timeout : duration;
}.

Definition or_default (s d : string) : string := if str_empty s then d else s.

Definition New (cfg : ClawHubConfig) : Registry :=
  {| hb_baseURL := or_default (cu_BaseURL cfg) "https://clawhub.ai"; hb_authToken := cu_AuthToken cfg;
     hb_searchPath := or_default (cu_SearchPath cfg) "/api/v1/search"; hb_skillsPath := or_default (cu_SkillsPath cfg) "/api/v1/skills";
     hb_downloadPath := or_default (cu_DownloadPath cfg) "/api/v1/download";
     hb_maxZipSize := if 0 <? cu_MaxZipSize cfg then cu_MaxZipSize cfg else DefaultMaxZipSize;
     hb_maxResponseSize := if 0 <? cu_MaxResponseSize cfg then cu_MaxResponseSize cfg else defaultMaxResponseSize;
     hb_timeout := if 0 <? cu_Timeout cfg then wrap64 (cu_Timeout cfg * Second) else defaultTimeout |}.

(** The answers, with pointers that may be nil. *)
Record searchResult := {
  sr_Score : float64; sr_Slug : option string; sr_DisplayName : option string; sr_Summary : option string; sr_Version : option string;
}.
Record moderationInfo := { mi_IsMalwareBlocked : bool; mi_IsSuspicious : bool }.
Record skillResponse := {
  sp_Slug : string; sp_DisplayName : string; sp_Summary : string; sp_LatestVersion : option string; sp_Moderation : option moderationInfo;
}.
Definition Deref (s : option string) : string := default ""%string s.

Section clawhub.
(** A GET with a token, by a time limit: the status and the body, or what could be read of
    it with the error; the world holds what answers, and the object store. *)
Context {W : Type} {St : Type} `{ObjectStore St}.
Context (http_get : string → string → duration → W → W * result goerror (Z * string * option goerror)).
(** [url.Parse] of an address and its query, with these parameters set; [http.NewRequest]. *)
Context (with_query : string → list (string * string) → result goerror string) (check_url : string → option goerror).
Context (PathEscape : string → string).
Context (unmarshal_search : string → result goerror (list searchResult)) (unmarshal_skill : string → result goerror skillResponse).

Definition read_at_most (n : Z) (s : string) : string := l2s (take (Z.to_nat n) (s2l s)).

(** What a reader with a limit gives: its error comes only if it is reached before the limit. *)
Definition read_all (limit : Z) (body : string) (failed : option goerror) : result goerror string :=
  match failed with
  | Some e => if Z.of_nat (str_len body) <? limit then Err e else Ok (read_at_most limit body)
  | None => Ok (read_at_most limit body)
  end.

Definition http_status_error (status : Z) (body : string) : goerror := ErrText ("HTTP " +:+ pretty status +:+ ": " +:+ body).
Definition good_status (status : Z) : bool := (200 <=? status) && (status <? 300).

Definition doGet (r : Registry) (url : string) (w : W) : W * result goerror string :=
  match check_url url with
  | Some e => (w, Err (ErrText ("clawhub: create request: " +:+ error_text e)))
  | None =>
      match http_get url (hb_authToken r) (hb_timeout r) w with
      | (w, Err e) => (w, Err (ErrText ("clawhub: request " +:+ url +:+ ": " +:+ error_text e)))
      | (w, Ok (status, body, failed)) =>
          (w, match read_all (hb_maxResponseSize r) body failed with
              | Err e => Err (ErrText ("failed to read response: " +:+ error_text e))
              | Ok body => if negb (good_status status) then Err (http_status_error status body) else Ok body
              end)
      end
  end.

Definition doGetRaw (r : Registry) (url : string) (maxSize : Z) (w : W) : W * result goerror string :=
  match check_url url with
  | Some e => (w, Err (ErrText ("clawhub: create download request: " +:+ error_text e)))
  | None =>
      match http_get url (hb_authToken r) (hb_timeout r) w with
      | (w, Err e) => (w, Err (ErrText ("clawhub: download " +:+ url +:+ ": " +:+ error_text e)))
      | (w, Ok (status, body, failed)) =>
          (w, if negb (good_status status) then Err (http_status_error status (read_at_most 4096 body))
              else match read_all maxSize body failed with
                   | Err e => Err (ErrText ("failed to read response body: " +:+ error_text e))
                   | Ok data => Ok data
                   end)
      end
  end.

Definition result_of (sr : searchResult) : option SearchResult :=
  let slug := Deref (sr_Slug sr) in
  let summary := Deref (sr_Summary sr) in
  if str_empty slug then None else if str_empty summary then None
  else Some {| rr_Score := sr_Score sr; rr_Slug := slug; rr_DisplayName := or_default (Deref (sr_DisplayName sr)) slug; rr_Summary := summary;
               rr_Version := Deref (sr_Version sr); rr_RegistryName := clawhub_name |}.

Definition Search (r : Registry) (query : string) (limit : Z) (w : W) : W * result goerror (list SearchResult) :=
  match with_query (hb_baseURL r +:+ hb_searchPath r) (("q"%string, query) :: if 0 <? limit then [("limit"%string, pretty limit)] else []) with
  | Err e => (w, Err (ErrText ("invalid base URL: " +:+ error_text e)))
  | Ok url =>
      match doGet r url w with
      | (w, Err e) => (w, Err (ErrText ("search request failed: " +:+ error_text e)))
      | (w, Ok body) =>
          (w, match unmarshal_search body with
              | Err e => Err (ErrText ("failed to parse search response: " +:+ error_text e))
              | Ok results => Ok (omap result_of results)
              end)
      end
  end.

Definition invalid_slug (slug : string) : goerror := ErrText ("invalid slug " +:+ go_quote slug).

Definition meta_of (resp : skillResponse) : SkillMeta :=
  {| km_Slug := sp_Slug resp; km_DisplayName := sp_DisplayName resp; km_Summary := sp_Summary resp;
     km_LatestVersion := Deref (sp_LatestVersion resp);
     km_IsMalwareBlocked := match sp_Moderation resp with Some m => mi_IsMalwareBlocked m | None => false end;
     km_IsSuspicious := match sp_Moderation resp with Some m => mi_IsSuspicious m | None => false end;
     km_RegistryName := clawhub_name |}.

Definition meta_url (r : Registry) (slug : string) : string := hb_baseURL r +:+ hb_skillsPath r +:+ "/" +:+ PathEscape slug.

Definition GetSkillMeta (r : Registry) (slug : string) (w : W) : W * result goerror SkillMeta :=
  if negb (SlugPattern slug) then (w, Err (invalid_slug slug))
  else
    match doGet r (meta_url r slug) w with
    | (w, Err e) => (w, Err (ErrText ("skill metadata request failed: " +:+ error_text e)))
    | (w, Ok body) =>
        (w, match unmarshal_skill body with
            | Err e => Err (ErrText ("failed to parse skill metadata: " +:+ error_text e))
            | Ok resp => Ok (meta_of resp)
            end)
    end.

(** The version: the one asked for, or the latest if the metadata tells it. *)
Definition install_version (version : string) (meta : option SkillMeta) : string :=
  or_default (or_default version (match meta with Some m => km_LatestVersion m | None => "" end)) "latest".

Definition download_query (slug version : string) : list (string * string) :=
  ("slug", slug)%string :: if bool_decide (version = "latest"%string) then [] else [("version", version)%string].

Definition DownloadAndInstall (r : Registry) (slug version objectPath : string) (w : W) (o : St)
    : W * St * result goerror InstallResult :=
  if negb (SlugPattern slug) then (w, o, Err (invalid_slug slug))
  else
    let '(w, got) := GetSkillMeta r slug w in
    let meta := match got with Ok m => Some m | Err _ => None end in
    let v := install_version version meta in
    let res := {| ir_Version := v; ir_IsMalwareBlocked := match meta with Some m => km_IsMalwareBlocked m | None => false end;
                  ir_IsSuspicious := match meta with Some m => km_IsSuspicious m | None => false end;
                  ir_Summary := match meta with Some m => km_Summary m | None => "" end |} in
    match with_query (hb_baseURL r +:+ hb_downloadPath r) (download_query slug v) with
    | Err e => (w, o, Err (ErrText ("invalid base URL: " +:+ error_text e)))
    | Ok url =>
        match doGetRaw r url (hb_maxZipSize r) w with
        | (w, Err e) => (w, o, Err (ErrText ("download failed: " +:+ error_text e)))
        | (w, Ok data) =>
            match obj_Put objectPath data o with
            | (o, Some e) => (w, o, Err (ErrText ("upload to object store failed: " +:+ error_text e)))
            | (o, None) => (w, o, Ok res)
            end
        end
    end.
End clawhub.

(** ** What a search finds *)

Definition not_less (x y : SearchResult) : Prop := SFltb (rr_Score x) (rr_Score y) = false.

Lemma insert_back_perm key before : insert_back key before ≡ₚ key :: before.
Proof. induction before as [|r before IH]; cbn; [done|]. destruct (SFltb _ _); [|done]. rewrite IH. apply Permutation_swap. Qed.

Lemma SortByScoreDesc_perm l : SortByScoreDesc l ≡ₚ l.
Proof.
  unfold SortByScoreDesc. rewrite reverse_Permutation. rewrite <- (app_nil_r l) at 2. generalize (@nil SearchResult) as before.
  induction l as [|x l IH]; intros before; cbn [foldl]; [done|]. rewrite IH, insert_back_perm. symmetry. apply Permutation_middle.
Qed.

Lemma insert_back_sorted key before :
  Forall (λ r, is_nan (rr_Score r) = false) (key :: before) →
  StronglySorted (flip not_less) before → StronglySorted (flip not_less) (insert_back key before).
Proof.
  intros [Hk Hn]%Forall_cons. induction before as [|r before IH]; intros Hs; cbn; [repeat constructor|].
  apply Forall_cons in Hn as [Hr Hn]. apply StronglySorted_inv in Hs as [Hs Hall]. destruct (SFltb _ _) eqn:Hlt.
  - constructor; [by apply IH|]. rewrite insert_back_perm. constructor; [|done]. unfold flip, not_less. by apply SFltb_asym.
  - constructor; [by constructor|]. constructor; [done|]. rewrite Forall_forall in Hall, Hn |- *. intros z Hz.
    unfold flip, not_less in *. eapply (SFltb_false_trans _ (rr_Score r)); auto.
Qed.

Lemma StronglySorted_reverse {A} (R : A → A → Prop) l : StronglySorted (flip R) l → StronglySorted R (reverse l).
Proof.
  induction 1 as [|x l _ IH Hx]; [constructor|]. rewrite reverse_cons. apply StronglySorted_app_2; [| |repeat constructor]; [|done].
  intros y z Hy ->%list_elem_of_singleton. rewrite Forall_forall in Hx. by apply Hx, elem_of_reverse.
Qed.

Lemma SortByScoreDesc_sorted l : Forall (λ r, is_nan (rr_Score r) = false) l → StronglySorted not_less (SortByScoreDesc l).
Proof.
  intros Hl. apply StronglySorted_reverse. assert (StronglySorted (flip not_less) []) as Hs by constructor. revert Hs.
  assert (Forall (λ r, is_nan (rr_Score r) = false) (l ++ [])) as Hall by (by rewrite app_nil_r). revert Hall. generalize (@nil SearchResult) as before.
  induction l as [|x l IH]; intros before Hall Hs; cbn [foldl]; [done|]. apply Forall_cons in Hl as [_ Hl].
  apply IH; [done| |].
  - rewrite insert_back_perm. by rewrite <- Permutation_middle.
  - apply insert_back_sorted; [|done]. apply Forall_app in Hall as [[? _]%Forall_cons ?]. by constructor.
Qed.

(** The results of the registries that answered. *)
Definition answers (ch : list reg_result) : list (list SearchResult) := omap (λ rr, match rr with Ok l => Some l | Err _ => None end) ch.

Lemma collect_spec ch :
  (collect ch).1.1 = concat (answers ch) ∧ ((collect ch).2 = true ↔ answers ch ≠ [])
  ∧ (is_Some (collect ch).1.2 ↔ ∃ e, Err e ∈ ch).
Proof.
  induction ch as [|rr ch IH] using rev_ind.
  - cbn. split_and!; [done|done|]. split; [by intros [? [=]]|intros (e & He); by apply not_elem_of_nil in He].
  - unfold collect in *. rewrite foldl_app. unfold answers in *. rewrite omap_app. destruct (foldl _ _ ch) as [[merged lastErr] anyOK]. cbn in *.
    destruct IH as (-> & Hok & Herr). destruct rr as [l|e]; cbn.
    + split_and!; [by rewrite concat_app; cbn; rewrite app_nil_r|split; [by intros _ [_ [=]]%app_eq_nil|done]|].
      rewrite Herr. split; intros [e He]; exists e; [set_solver|]. apply elem_of_app in He as [|He%list_elem_of_singleton]; [done|discriminate He].
    + rewrite app_nil_r. split_and!; [done|done|]. split; [|by eexists]. intros _. exists e. set_solver.
Qed.

(** What a goroutine may have sent for its registry. *)
Definition sent_for (query : string) (limit : Z) (r : SkillRegistry) (out : reg_result) : Prop :=
  out = kr_Search r query limit ∨ ∃ e, out = Err e.

Record search_inv (rm : RegistryManager) (query : string) (limit : Z) (s : search_state) : Prop := {
  sv_length : length (ss_go s) = length (rm_registries rm);
  sv_bound : Z.of_nat (searching s) ≤ rm_maxConcurrent rm;
  sv_sent : ∃ order, NoDup order ∧ (∀ i, i ∈ order ↔ ss_go s !! i = Some SSent)
              ∧ Forall2 (λ i out, ∃ r, rm_registries rm !! i = Some r ∧ sent_for query limit r out) order (ss_ch s);
}.

Lemma searching_insert (go : list searcher) i g g' : go !! i = Some g →
  (length (filter (λ g, g = SSearching) (<[i := g']> go)) + (if decide (g = SSearching) then 1 else 0)
   = length (filter (λ g, g = SSearching) go) + (if decide (g' = SSearching) then 1 else 0))%nat.
Proof.
  intros Hi. rewrite <- (take_drop_middle go i g Hi) at 2. rewrite insert_take_drop by (by eapply lookup_lt_Some).
  rewrite !filter_app, !filter_cons, !length_app. repeat destruct (decide _); cbn; lia.
Qed.

Lemma send_inv rm query limit s i g out r :
  ss_go s !! i = Some g → g ≠ SSent → rm_registries rm !! i = Some r → sent_for query limit r out → search_inv rm query limit s →
  search_inv rm query limit {| ss_go := <[i := SSent]> (ss_go s); ss_ch := ss_ch s ++ [out] |}.
Proof.
  intros Hi Hg Hr Hout [Hl Hb (order & Hnd & Hin & Hall)]. split; cbn.
  - by rewrite length_insert.
  - unfold searching in *. cbn. pose proof (searching_insert _ _ _ SSent Hi) as Hc. rewrite (decide_False (P := SSent = SSearching)) in Hc by done. lia.
  - exists (order ++ [i]). split_and!.
    + apply NoDup_app. split_and!; [done| |by apply NoDup_singleton]. intros j Hj ->%list_elem_of_singleton. apply Hin in Hj. congruence.
    + intros j. rewrite elem_of_app, list_elem_of_singleton, Hin. destruct (decide (j = i)) as [->|Hne].
      * rewrite list_lookup_insert_eq by (by eapply lookup_lt_Some). naive_solver.
      * rewrite list_lookup_insert_ne by done. naive_solver.
    + apply Forall2_app; [done|]. constructor; [|constructor]. by exists r.
Qed.

Lemma search_run_inv rm query limit es s : 0 ≤ rm_maxConcurrent rm → search_run rm query limit es = Some s → search_inv rm query limit s.
Proof.
  intros Hmax. revert s. induction es as [|e es IH] using rev_ind; intros s.
  - intros [= <-]. split; cbn; [by rewrite length_fmap| |].
    + unfold searching. cbn. assert (filter (λ g, g = SSearching) ((λ _ : SkillRegistry, SWaiting) <$> rm_registries rm) = []) as ->; [|done].
      by induction (rm_registries rm).
    + exists []. split_and!; [constructor| |constructor]. intros i. rewrite list_lookup_fmap. split; [by intros ?%not_elem_of_nil|].
      by destruct (_ !! i).
  - unfold search_run. rewrite foldl_app. fold (search_run rm query limit es). destruct (search_run _ _ _ _) as [s1|]; cbn; [|done].
    specialize (IH s1 eq_refl). pose proof (sv_length _ _ _ _ IH) as Hlen.
    assert (∀ i g, ss_go s1 !! i = Some g → ∃ r, rm_registries rm !! i = Some r) as Hreg.
    { intros i g Hi. apply lookup_lt_is_Some. rewrite <- Hlen. by eapply lookup_lt_Some. }
    destruct e as [i|i e|i cut]; cbn; destruct (ss_go s1 !! i) as [[]|] eqn:Hi; try done.
    + destruct (Z.ltb_spec (Z.of_nat (searching s1)) (rm_maxConcurrent rm)); [|done]. intros [= <-]. destruct IH as [_ Hb Hs]. split; cbn; [by rewrite length_insert|..].
      * unfold searching in *. cbn. pose proof (searching_insert _ _ _ SSearching Hi) as Hc.
        rewrite (decide_False (P := SWaiting = SSearching)), decide_True in Hc by done. lia.
      * destruct Hs as (order & ? & Hin & ?). exists order. split_and!; [done| |done]. intros j. rewrite Hin. destruct (decide (j = i)) as [->|?].
        -- rewrite list_lookup_insert_eq by (by eapply lookup_lt_Some). by rewrite Hi.
        -- by rewrite list_lookup_insert_ne.
    + intros [= <-]. destruct (Hreg _ _ Hi) as [r Hr]. eapply send_inv; [done|done|done| |done]. right. by eexists.
    + destruct (Hreg _ _ Hi) as [r Hr]. rewrite Hr. intros [= <-]. eapply send_inv; [done|done|done| |done]. destruct cut; [right; by eexists|by left].
Qed.

(** Whatever the order in which the registries answer: never more than so many are searched
    at once; when all have sent, each has sent once, its answer or an error; the search
    fails only if all sent errors, and otherwise returns the best results of all the others,
    none changed, lost or doubled up to the limit, sorted by score when no score is a
    NaN. *)
Theorem SearchAll_spec rm query limit es s :
  0 ≤ rm_maxConcurrent rm → search_run rm query limit es = Some s →
  Z.of_nat (searching s) ≤ rm_maxConcurrent rm
  ∧ (all_sent s →
     (∃ order, order ≡ₚ seq 0 (length (rm_registries rm))
        ∧ Forall2 (λ i out, ∃ r, rm_registries rm !! i = Some r ∧ sent_for query limit r out) order (ss_ch s))
     ∧ match SearchAll rm limit (ss_ch s) with
       | Err _ => answers (ss_ch s) = []
       | Ok l =>
           answers (ss_ch s) ≠ [] ∧ ∃ rest, l ++ rest ≡ₚ concat (answers (ss_ch s))
             ∧ (rest = [] ∨ 0 < limit ∧ Z.of_nat (length l) = limit) ∧ (0 < limit → Z.of_nat (length l) ≤ limit)
             ∧ (Forall (λ r, is_nan (rr_Score r) = false) (concat (answers (ss_ch s))) → StronglySorted not_less (l ++ rest))
       end).
Proof.
  intros Hmax Hrun. destruct (search_run_inv _ _ _ _ _ Hmax Hrun) as [Hlen Hb (order & Hnd & Hin & Hall)]. split; [done|]. intros Hsent. split.
  - exists order. split; [|done]. apply NoDup_Permutation; [done|apply NoDup_seq|]. intros i. rewrite Hin, elem_of_seq.
    split; [intros Hi%lookup_lt_Some; lia|]. intros [_ Hi]. destruct (lookup_lt_is_Some_2 (ss_go s) i) as [g Hg]; [lia|].
    rewrite Hg. f_equal. unfold all_sent in Hsent. rewrite Forall_lookup in Hsent. by eapply Hsent.
  - destruct (collect_spec (ss_ch s)) as (Hm & Hok & Herr). unfold SearchAll.
    destruct (rm_registries rm) as [|reg regs] eqn:Hregs.
    { destruct order as [|i order]; [by apply Forall2_nil_inv_l in Hall as ->|]. apply Forall2_cons_inv_l in Hall as (? & ? & (r & [=] & _) & _). }
    assert (ss_ch s ≠ []) as Hne.
    { intros Hch. rewrite Hch in Hall. apply Forall2_nil_inv_r in Hall as ->. destruct (ss_go s) as [|g go] eqn:Hgo; [cbn in Hlen; lia|].
      unfold all_sent in Hsent. rewrite Hgo in Hsent. apply Forall_cons in Hsent as [-> _]. 
      assert (0%nat ∈ @nil nat) as Hx by by apply Hin. by apply not_elem_of_nil in Hx. }
    destruct (collect (ss_ch s)) as [[merged lastErr] anyOK]. cbn in *. subst merged.
    assert (∀ l, answers (ss_ch s) ≠ [] →
      l = (if 0 <? limit then take (Z.to_nat limit) (SortByScoreDesc (concat (answers (ss_ch s)))) else SortByScoreDesc (concat (answers (ss_ch s)))) →
      answers (ss_ch s) ≠ [] ∧ ∃ rest, l ++ rest ≡ₚ concat (answers (ss_ch s))
        ∧ (rest = [] ∨ 0 < limit ∧ Z.of_nat (length l) = limit) ∧ (0 < limit → Z.of_nat (length l) ≤ limit)
        ∧ (Forall (λ r, is_nan (rr_Score r) = false) (concat (answers (ss_ch s))) → StronglySorted not_less (l ++ rest))) as Hres.
    { intros l Hans ->. split; [done|]. destruct (Z.ltb_spec 0 limit).
      - exists (drop (Z.to_nat limit) (SortByScoreDesc (concat (answers (ss_ch s))))). rewrite take_drop, length_take.
        split_and!; [apply SortByScoreDesc_perm| |lia|by apply SortByScoreDesc_sorted].
        destruct (decide (length (SortByScoreDesc (concat (answers (ss_ch s)))) ≤ Z.to_nat limit)%nat); [left; by apply drop_ge|right; lia].
      - exists []. rewrite app_nil_r. split_and!; [apply SortByScoreDesc_perm|by left|lia|by apply SortByScoreDesc_sorted]. }
    assert (anyOK = false → answers (ss_ch s) = []) as Hnone.
    { intros ->. destruct (answers (ss_ch s)); [done|]. by discriminate (proj2 Hok). }
    destruct lastErr as [e|].
    + destruct anyOK; cbn [negb]; [|by apply Hnone]. apply Hres; [by apply Hok|done].
    + apply Hres; [|done]. destruct (ss_ch s) as [|[l|e] ch]; [done|done|]. exfalso.
      destruct (proj2 Herr) as [? [=]]. exists e. by left.
Qed.

(** ** What an installation stores *)

Section install.
Context {W : Type} `{ObjectStore St}.
Context (http_get : string → string → duration → W → W * result goerror (Z * string * option goerror)).
Context (with_query : string → list (string * string) → result goerror string) (check_url : string → option goerror).
Context (PathEscape : string → string).
Context (unmarshal_skill : string → result goerror skillResponse).
Local Abbreviation get_meta := (GetSkillMeta http_get check_url PathEscape unmarshal_skill).
Local Abbreviation download := (DownloadAndInstall http_get with_query check_url PathEscape unmarshal_skill).

(** A slug that is none asks nobody and stores nothing.  An installation that succeeds has
    stored what a download of the version it tells gave, up to the size limit, whether or
    not the skill is known to be malware; that it is said to be blocked only if the
    metadata, which need not have been answered, says so. *)
Theorem DownloadAndInstall_spec r slug version path w o w' o' res :
  download r slug version path w o = (w', o', res) →
  (SlugPattern slug = false → w' = w ∧ o' = o ∧ res = Err (invalid_slug slug))
  ∧ ∀ x, res = Ok x →
      (∃ url w1 status body failed data,
         with_query (hb_baseURL r +:+ hb_downloadPath r) (download_query slug (ir_Version x)) = Ok url
         ∧ http_get url (hb_authToken r) (hb_timeout r) w1 = (w', Ok (status, body, failed)) ∧ good_status status = true
         ∧ data = read_at_most (hb_maxZipSize r) body ∧ obj_Put path data o = (o', None))
      ∧ (version ≠ "" → ir_Version x = version)
      ∧ (ir_IsMalwareBlocked x = true ↔ ∃ m, (get_meta r slug w).2 = Ok m ∧ km_IsMalwareBlocked m = true).
Proof.
  unfold DownloadAndInstall. destruct (SlugPattern slug); cbn [negb]; [|by intros [= <- <- <-]].
  destruct (get_meta r slug w) as [w1 got] eqn:Hmeta. cbn [fst snd]. set (meta := match got with Ok m => Some m | Err _ => None end).
  set (v := install_version version meta). intros Hrun. split; [done|]. intros x ->.
  destruct (with_query _ _) as [url|] eqn:Hq; [|done]. destruct (doGetRaw _ _ r url _ w1) as [w2 [data|e]] eqn:Hraw; [|done].
  destruct (obj_Put path data o) as [o2 [e|]] eqn:Hput; [done|]. injection Hrun as <- <- <-. cbn [ir_Version ir_IsMalwareBlocked]. split_and!.
  - unfold doGetRaw in Hraw. destruct (check_url url); [done|].
    destruct (http_get url _ _ w1) as [w3 [[[status body] failed]|e]] eqn:Hg; [|done]. destruct (good_status status) eqn:Hst; cbn [negb] in Hraw; [|done].
    assert (data = read_at_most (hb_maxZipSize r) body ∧ w3 = w2) as [-> ->].
    { unfold read_all in Hraw. destruct failed as [e|]; [destruct (_ <? _)|]; by simplify_eq. }
    by exists url, w1, status, body, failed, (read_at_most (hb_maxZipSize r) body).
  - intros Hv. unfold v, install_version, or_default, str_empty. rewrite (bool_decide_false (version = ""%string)) by done.
    by rewrite bool_decide_false.
  - subst meta. destruct got as [m|e]; [split; [intros Hm; by exists m|by intros (m' & [= <-] & Hm)]|]. split; [done|]. by intros (? & [=] & _).
Qed.
End install.

(** A package that is larger than the limit is cut and stored. *)
Definition w_get (url token : string) (limit : duration) (w : unit) : unit * result goerror (Z * string * option goerror) :=
  (w, if bool_decide (url = "d"%string) then Ok (200, "package"%string, None) else Err (ErrText "down")).
Definition w_hub : Registry := New {| cu_Enabled := true; cu_BaseURL := ""; cu_AuthToken := ""; cu_SearchPath := ""; cu_SkillsPath := "";
  cu_DownloadPath := ""; cu_Timeout := 0; cu_MaxZipSize := 4; cu_MaxResponseSize := 0 |}.
#[local] Instance w_objects : ObjectStore (gmap string string) :=
  {| obj_Put p d o := (<[p := d]> o, None); obj_Get p o := match o !! p with Some d => Ok d | None => Err (ErrText "not found") end;
     obj_Delete p o := (delete p o, None) |}.
Definition w_installed : unit * gmap string string * result goerror InstallResult :=
  DownloadAndInstall w_get (λ _ _, Ok "d"%string) (λ _, None) (λ s, s) (λ _, Err (ErrText "no JSON")) w_hub "a-b" "" "p" tt ∅.

Lemma cut_package_is_stored : w_installed.1.2 !! "p"%string = Some "pack"%string ∧ is_ok w_installed.2 = true.
Proof. split; vm_compute; reflexivity. Qed.

(** ** Witnesses *)

Lemma DownloadAndInstall_spec_witness :
  match w_installed with (_, _, Ok x) => ir_Version x = "latest"%string ∧ (ir_IsMalwareBlocked x = false) | _ => False end.
Proof.
  assert (∃ x, w_installed = (tt, w_installed.1.2, Ok x) ∧ ir_Version x = "latest"%string) as (x & Hx & Hv) by (eexists; split; vm_compute; reflexivity).
  rewrite Hx. split; [exact Hv|].
  destruct (DownloadAndInstall_spec w_get (λ _ _, Ok "d"%string) (λ _, None) (λ s, s) (λ _, Err (ErrText "no JSON")) w_hub "a-b" "" "p" tt ∅ tt _ _ Hx) as [_ Hs].
  destruct (Hs x eq_refl) as (_ & _ & Hm). destruct (ir_IsMalwareBlocked x); [|reflexivity].
  destruct (proj1 Hm eq_refl) as (m & Hg & _). discriminate Hg.
Defined.

Definition w_result (score : float64) (slug : string) : SearchResult :=
  {| rr_Score := score; rr_Slug := slug; rr_DisplayName := ""; rr_Summary := ""; rr_Version := ""; rr_RegistryName := "" |}.
Definition w_manager : RegistryManager :=
  foldl (λ rm r, AddRegistry r rm) NewRegistryManager
    [{| kr_Name := "a"; kr_Search := λ _ _, Ok [w_result f64_half "x"; w_result f64_one "y"] |};
     {| kr_Name := "b"; kr_Search := λ _ _, Err (ErrText "down") |};
     {| kr_Name := "c"; kr_Search := λ _ _, Ok [w_result f64_one "z"] |}]%string.
Definition w_search_events : list search_event := [SAcquire 1; SAcquire 2; SFinish 2 None; SAcquire 0; SFinish 1 None; SFinish 0 None].
Definition w_search_end : search_state := default (search_start w_manager) (search_run w_manager "q" 2 w_search_events).

Lemma SearchAll_spec_witness :
  fmap (M := list) rr_Slug <$> (match SearchAll w_manager 2 (ss_ch w_search_end) with Ok l => Some l | Err _ => None end) = Some ["z"; "y"]%string
  ∧ Z.of_nat (searching w_search_end) ≤ 2 ∧ ∃ order, order ≡ₚ [0; 1; 2]%nat.
Proof.
  split; [vm_compute; reflexivity|].
  destruct (SearchAll_spec w_manager "q" 2 w_search_events w_search_end ltac:(vm_compute; congruence) ltac:(vm_compute; reflexivity)) as [Hb Hs].
  split; [exact Hb|]. destruct Hs as [(order & Ho & _) _]; [vm_compute; repeat constructor|]. by exists order.
Defined.
