(* ===== verification/AgentTools.v ===== *)
(** The tools by which an agent talks to others, and the list of all tools:
    [pkg/tools/message.go], [spawn.go], [subagent.go], [list_tasks.go] and [builder.go].

    The bus is that of [Types], the subagents are those of [Subagent]; a nil interface is
    [None].  The random identifier of a synchronous task and what the session service and the
    runner answer are arguments. *)
From S2P Require Import Prelude GoStrings Quote Types AgentRegistry Subagent.

(** The strings of the session state, empty where there is none. *)
Record origin := { og_channel : string; og_chat_id : string; og_tenant_id : string; og_user_id : string }.

(** The answer of a tool: its result and its error, one of them empty. *)
Record text_answer := { ta_Result : string; ta_Error : string }.
Definition answer_ok (s : string) : text_answer := {| ta_Result := s; ta_Error := "" |}.
Definition answer_error (s : string) : text_answer := {| ta_Result := ""; ta_Error := s |}.

Record messageArgs := { ma_Content : string; ma_Channel : string; ma_ChatID : string }.
Record spawnArgs := { pa_Task : string; pa_AgentID : string }.
Record subagentArgs := { ua_Task : string; ua_AgentID : string }.
Record TaskSummary := { sm_ID : string; sm_AgentID : string; sm_Status : string; sm_Task : string }.
Record listTasksResult := { lt_Tasks : list TaskSummary; lt_Error : string }.

Section bus.
Context {B : Type} `{MessageBus B} `{InboundBus B}.

(** ** message *)

Definition message_of (ctx : origin) (args : messageArgs) : OutboundMessage :=
  {| out_Channel := if str_empty (ma_Channel args) then og_channel ctx else ma_Channel args;
     out_ChatID := if str_empty (ma_ChatID args) then og_chat_id ctx else ma_ChatID args;
     out_Content := ma_Content args; out_Media := []; out_Metadata := ∅ |}.

Definition message (ctx : origin) (args : messageArgs) (b : B) : B * text_answer :=
  if str_empty (ma_Content args) then (b, answer_error "content is required")
  else
    let msg := message_of ctx args in
    if str_empty (out_Channel msg) then (b, answer_error "no target channel")
    else match bus_PublishOutbound msg b with
         | (b, Some e) => (b, answer_error ("send failed: " +:+ error_text e))
         | (b, None) => (b, answer_ok "message sent")
         end.

(** ** spawn *)

Definition spawned (ctx : origin) (args : spawnArgs) : InboundMessage :=
  {| in_Channel := og_channel ctx; in_TenantID := og_tenant_id ctx; in_UserID := ""; in_SenderID := "";
     in_ChatID := og_chat_id ctx; in_Content := pa_Task args; in_Media := [];
     in_Metadata := <["type" := "spawn"]> {["agent_id" := pa_AgentID args]}; in_SessionKey := ""; in_AgentID := "";
     in_Timestamp := time_zero |}%string.

Definition spawn (ctx : origin) (args : spawnArgs) (b : B) : B * text_answer :=
  if str_empty (pa_Task args) then (b, answer_error "task description is required")
  else match bus_PublishInbound (spawned ctx args) b with
       | (b, Some e) => (b, answer_error ("spawn failed: " +:+ error_text e))
       | (b, None) =>
           let label := if str_empty (pa_AgentID args) then "subtask" else "subtask for agent " +:+ pa_AgentID args in
           (b, answer_ok (label +:+ " dispatched"))
       end.
End bus.

(** ** subagent and list_tasks *)

Section subagents.
Context {Runner : Type}.

(** With the random identifier, what creating the session answers and the events of the run. *)
Definition subagent (reg : option (AgentRegistry Runner)) (ctx : origin) (args : subagentArgs)
    (id : string) (err : option goerror) (evs : list (result goerror (option AgentLoop.RunEvent)))
    : list (sub_call (Runner := Runner)) * text_answer :=
  match reg with
  | None => ([], answer_error "subagent not configured")
  | Some reg =>
      if str_empty (ua_Task args) then ([], answer_error "task is required")
      else
        match SpawnSync reg id (ua_Task args) (ua_AgentID args) (og_channel ctx) (og_chat_id ctx) (og_tenant_id ctx) (og_user_id ctx) err evs with
        | None => ([], answer_error ("subagent failed: agent " +:+ go_quote (ua_AgentID args) +:+ " not found"))
        | Some (calls, Err e) => (calls, answer_error ("subagent failed: " +:+ error_text e))
        | Some (calls, Ok result) => (calls, answer_ok result)
        end
  end.

Definition summary (t : string * string * string * string) : TaskSummary :=
  let '(id, agent, status, task) := t in {| sm_ID := id; sm_AgentID := agent; sm_Status := status; sm_Task := task |}.

(** [order]: the order in which the map of the tasks is ranged over. *)
Definition list_tasks (tasks : option (sub_state (Runner := Runner))) (order : list string) (taskID : string) : listTasksResult :=
  match tasks with
  | None => {| lt_Tasks := []; lt_Error := "subagent not configured" |}
  | Some s =>
      if negb (str_empty taskID) then
        match GetTaskStatus taskID s with
        | None => {| lt_Tasks := []; lt_Error := "task not found: " +:+ taskID |}
        | Some (status, result) => {| lt_Tasks := [{| sm_ID := taskID; sm_AgentID := ""; sm_Status := status; sm_Task := result |}]; lt_Error := "" |}
        end
      else {| lt_Tasks := summary <$> ListTasks order s; lt_Error := "" |}
  end.
End subagents.

(** ** builder.go *)

Definition candidates (has_subagent : bool) : list string :=
  ["read_file"; "write_file"; "edit_file"; "append_file"; "list_dir"; "exec"; "web_search"; "web_fetch"; "message"; "spawn"; "cron";
   "find_skills"; "install_skill"; "create_skill"; "promote_skill"; "save_memory"; "search_memory"]%string
  ++ (if has_subagent then ["subagent"; "list_tasks"]%string else []).

(** [built] is the tool of a name, if its constructor gives one; [guard] wraps it. *)
Definition BuildAllTools {T} (built : string → option T) (guard : string → T → T) (has_subagent : bool) : list T :=
  omap (λ name, guard name <$> built name) (candidates has_subagent).

(** ** What they do *)

(** The agent that is asked for does not change where the task is routed. *)
Lemma best_loop_ext msg msg' routes best score :
  in_Channel msg = in_Channel msg' → in_ChatID msg = in_ChatID msg' → best_loop msg routes best score = best_loop msg' routes best score.
Proof.
  intros Hc Hi. revert best score. induction routes as [|route routes IH]; intros best score; cbn; [done|].
  assert (MatchScore route msg = MatchScore route msg') as -> by (unfold MatchScore; by rewrite Hc, Hi). by rewrite !IH.
Qed.

(** However the agent is asked for, a spawned task goes where every message of its chat
    goes: the name of the agent is only put into the metadata. *)
Theorem spawn_ignores_agent {Runner} (reg : AgentRegistry Runner) order order2 ctx task a1 a2 :
  let m1 := spawned ctx {| pa_Task := task; pa_AgentID := a1 |} in
  let m2 := spawned ctx {| pa_Task := task; pa_AgentID := a2 |} in
  ResolveRoute reg order order2 m1 = ResolveRoute reg order order2 m2 ∧ in_AgentID m1 = ""%string ∧ in_AgentID m2 = ""%string
  ∧ EffectiveSessionKey m1 = EffectiveSessionKey m2.
Proof. cbn. split_and!; try done. unfold ResolveRoute. by rewrite (best_loop_ext _ (spawned ctx {| pa_Task := task; pa_AgentID := a2 |})). Qed.

(** A synchronous task runs the agent that is asked for, in the name of the tenant and user
    of the session that asks. *)
Theorem subagent_runs_for_the_session {Runner} (reg : AgentRegistry Runner) ctx args id err evs calls a :
  subagent (Some reg) ctx args id err evs = (calls, a) → ua_Task args ≠ "" →
  (GetRunner reg (ua_AgentID args) = None → calls = [])
  ∧ (∀ r userID sessionID task, CallRun r userID sessionID task ∈ calls →
       GetRunner reg (ua_AgentID args) = Some r ∧ userID = or_system (og_user_id ctx) ∧ task = ua_Task args)
  ∧ (∀ userID sessionID st, CallCreate userID sessionID st ∈ calls →
       userID = or_system (og_user_id ctx) ∧ st = task_state (og_tenant_id ctx) (or_system (og_user_id ctx)) (og_channel ctx) (og_chat_id ctx))
  ∧ (ta_Error a = "" → err = None ∧ collect_final evs "" = Ok (ta_Result a)).
Proof.
  unfold subagent, str_empty. intros Hrun Htask. rewrite bool_decide_false in Hrun by done. unfold SpawnSync in Hrun.
  destruct (GetRunner reg (ua_AgentID args)) as [r|] eqn:Hr; cbn in Hrun.
  2: { injection Hrun as <- <-. split_and!; [done|by intros ? ? ? ? ?%not_elem_of_nil|by intros ? ? ? ?%not_elem_of_nil|done]. }
  destruct err as [e|]; cbn in Hrun.
  - injection Hrun as <- <-. split_and!; [done| | |done].
    + by intros ? ? ? ? [=]%list_elem_of_singleton.
    + by intros ? ? ? [= -> -> ->]%list_elem_of_singleton.
  - assert (calls = [CallCreate (or_system (og_user_id ctx)) ("sync-" +:+ id) (task_state (og_tenant_id ctx) (or_system (og_user_id ctx)) (og_channel ctx) (og_chat_id ctx));
                     CallRun r (or_system (og_user_id ctx)) ("sync-" +:+ id) (ua_Task args)]
            ∧ match collect_final evs "" with Ok x => a = answer_ok x | Err e => a = answer_error ("subagent failed: " +:+ error_text e) end) as [-> Ha].
    { destruct (collect_final evs "") as [x|e]; by simplify_eq. }
    split_and!; [done| | |].
    + intros r' u sid t. rewrite !elem_of_cons. by intros [?|[[= -> -> -> ->]|?%not_elem_of_nil]].
    + intros u sid st. rewrite !elem_of_cons. by intros [[= -> -> ->]|[?|?%not_elem_of_nil]].
    + destruct (collect_final evs "") as [x|e]; by subst a.
Qed.

(** Some tools that the package has are never given to an agent. *)
Lemma tools_left_out b : Forall (λ name, name ∉ candidates b) ["delete_memory"; "browse_events"; "update_doc"]%string.
Proof. apply (bool_decide_unpack (Forall (λ name, name ∉ candidates b) _)). destruct b; vm_compute; exact I. Qed.

(** ** Witnesses *)

Definition w_origin : origin := {| og_channel := "web"; og_chat_id := "c"; og_tenant_id := "t"; og_user_id := "" |}.

Lemma subagent_runs_for_the_session_witness :
  ∃ calls, subagent (Some w_sub_reg) w_origin {| ua_Task := "sum"; ua_AgentID := "main" |} "1" None [Ok None] = (calls, answer_ok "")
    ∧ ∀ r userID sessionID task, CallRun r userID sessionID task ∈ calls → userID = "system"%string ∧ task = "sum"%string.
Proof.
  eexists. split; [reflexivity|]. intros r userID sessionID task Hin.
  destruct (subagent_runs_for_the_session w_sub_reg w_origin {| ua_Task := "sum"; ua_AgentID := "main" |} "1" None [Ok None] _ (answer_ok "") eq_refl
              ltac:(discriminate)) as (_ & Hrun & _).
  destruct (Hrun r userID sessionID task Hin) as (_ & Hu & Ht). split; [exact Hu|exact Ht].
Defined.
