(* ===== verification/Plugins.v ===== *)
(** [pkg/plugins/auditlog] and [pkg/plugins/tokentracker]: callbacks around the calls of
    models and tools that write a log of them and count tokens.

    The callbacks of the token tracker run at the same time: they are a step relation whose
    steps are its atomic additions and critical sections; its counters are shared objects on
    a heap.  The clock is an argument. *)
From S2P Require Import Prelude GoStrings Types.

(** ** auditlog *)

Record Entry (J : Type) := {
  en_Timestamp : time; en_Kind : string; en_Phase : string; en_AgentName : string; en_ModelName : string; en_ToolName : string;
  en_CallID : string; en_DurationMs : Z; en_InputTokens : Z; en_OutputTokens : Z; en_Error : string; en_Args : option J; en_Result : option J;
}.
Arguments en_Timestamp {J}. Arguments en_Kind {J}. Arguments en_Phase {J}. Arguments en_AgentName {J}. Arguments en_ModelName {J}.
Arguments en_ToolName {J}. Arguments en_CallID {J}. Arguments en_DurationMs {J}. Arguments en_InputTokens {J}. Arguments en_OutputTokens {J}.
Arguments en_Error {J}. Arguments en_Args {J}. Arguments en_Result {J}.

(** What a callback sees of a response: its tokens, and its error with a message. *)
Record audit_response := { au_usage : option (Z * Z); au_ErrorCode : string; au_ErrorMessage : string }.

Section audit.
Context {J : Type}.

(** The plugin with the entries that its writer was given. *)
Record AuditPlugin := { ap_modelStart : gmap string time; ap_toolStart : gmap string time; ap_entries : list (Entry J) }.
Definition audit_new : AuditPlugin := {| ap_modelStart := ∅; ap_toolStart := ∅; ap_entries := [] |}.

Definition modelTimerKey (invocationID agentName : string) : string := invocationID +:+ ":" +:+ agentName.

Definition write_entry (e : Entry J) (p : AuditPlugin) : AuditPlugin :=
  {| ap_modelStart := ap_modelStart p; ap_toolStart := ap_toolStart p; ap_entries := ap_entries p ++ [e] |}.

(** The clock is read for the timer ([start]) and for the entry. *)
Definition BeforeModel (inv agent : string) (model : option string) (start now : time) (p : AuditPlugin) : AuditPlugin :=
  write_entry {| en_Timestamp := now; en_Kind := "model"; en_Phase := "before"; en_AgentName := agent; en_ModelName := default ""%string model;
                 en_ToolName := ""; en_CallID := ""; en_DurationMs := 0; en_InputTokens := 0; en_OutputTokens := 0; en_Error := "";
                 en_Args := None; en_Result := None |}
    {| ap_modelStart := <[modelTimerKey inv agent := start]> (ap_modelStart p); ap_toolStart := ap_toolStart p; ap_entries := ap_entries p |}.

Definition Milliseconds (d : duration) : Z := Z.quot d Millisecond.
Definition since (start : option time) (now : time) : Z := match start with Some t => Milliseconds (time_sub now t) | None => 0 end.

Definition AfterModel (inv agent : string) (resp : option audit_response) (respErr : option goerror) (now later : time) (p : AuditPlugin) : AuditPlugin :=
  let key := modelTimerKey inv agent in
  let err := match respErr with Some e => error_text e | None => ""%string end in
  let err := match resp with
             | Some r => if str_empty (au_ErrorCode r) then err else au_ErrorCode r +:+ ": " +:+ au_ErrorMessage r
             | None => err
             end in
  let usage := default (0, 0) (resp ≫= au_usage) in
  write_entry {| en_Timestamp := now; en_Kind := "model"; en_Phase := "after"; en_AgentName := agent; en_ModelName := ""; en_ToolName := "";
                 en_CallID := ""; en_DurationMs := since (ap_modelStart p !! key) later; en_InputTokens := usage.1; en_OutputTokens := usage.2;
                 en_Error := err; en_Args := None; en_Result := None |}
    {| ap_modelStart := delete key (ap_modelStart p); ap_toolStart := ap_toolStart p; ap_entries := ap_entries p |}.

Definition beforeTool (callID agent tool : string) (args : option J) (start now : time) (p : AuditPlugin) : AuditPlugin :=
  write_entry {| en_Timestamp := now; en_Kind := "tool"; en_Phase := "before"; en_AgentName := agent; en_ModelName := ""; en_ToolName := tool;
                 en_CallID := callID; en_DurationMs := 0; en_InputTokens := 0; en_OutputTokens := 0; en_Error := ""; en_Args := args; en_Result := None |}
    {| ap_modelStart := ap_modelStart p; ap_toolStart := <[callID := start]> (ap_toolStart p); ap_entries := ap_entries p |}.

Definition afterTool (callID agent tool : string) (result : option J) (toolErr : option goerror) (now later : time) (p : AuditPlugin) : AuditPlugin :=
  write_entry {| en_Timestamp := now; en_Kind := "tool"; en_Phase := "after"; en_AgentName := agent; en_ModelName := ""; en_ToolName := tool;
                 en_CallID := callID; en_DurationMs := since (ap_toolStart p !! callID) later; en_InputTokens := 0; en_OutputTokens := 0;
                 en_Error := match toolErr with Some e => error_text e | None => ""%string end; en_Args := None; en_Result := result |}
    {| ap_modelStart := ap_modelStart p; ap_toolStart := delete callID (ap_toolStart p); ap_entries := ap_entries p |}.

(** What the default writer writes of an entry. *)
Inductive attr := AString (key value : string) | AInt (key : string) (n : Z).
Definition slog_attrs (e : Entry J) : list attr :=
  [AString "kind" (en_Kind e); AString "agent" (en_AgentName e); AString "phase" (en_Phase e)]
  ++ (if str_empty (en_ModelName e) then [] else [AString "model" (en_ModelName e)])
  ++ (if str_empty (en_ToolName e) then [] else [AString "tool" (en_ToolName e)])
  ++ (if 0 <? en_DurationMs e then [AInt "duration_ms" (en_DurationMs e)] else [])
  ++ (if str_empty (en_Error e) then [] else [AString "error" (en_Error e)]).

Inductive audit_event :=
| EvBeforeModel (inv agent : string) (model : option string) (start now : time)
| EvAfterModel (inv agent : string) (resp : option audit_response) (err : option goerror) (now later : time)
| EvBeforeTool (callID agent tool : string) (args : option J) (start now : time)
| EvAfterTool (callID agent tool : string) (result : option J) (err : option goerror) (now later : time).

Definition audit_step (p : AuditPlugin) (e : audit_event) : AuditPlugin :=
  match e with
  | EvBeforeModel inv agent model start now => BeforeModel inv agent model start now p
  | EvAfterModel inv agent resp err now later => AfterModel inv agent resp err now later p
  | EvBeforeTool id agent tool args start now => beforeTool id agent tool args start now p
  | EvAfterTool id agent tool result err now later => afterTool id agent tool result err now later p
  end.
Definition audit_run (es : list audit_event) : AuditPlugin := foldl audit_step audit_new es.

Definition about_tool (id : string) (e : audit_event) : bool :=
  match e with EvBeforeTool i _ _ _ _ _ | EvAfterTool i _ _ _ _ _ _ => bool_decide (i = id) | _ => false end.

Lemma audit_other id es p : forallb (negb ∘ about_tool id) es = true → ap_toolStart (foldl audit_step p es) !! id = ap_toolStart p !! id.
Proof.
  revert p. induction es as [|e es IH]; intros p; cbn [foldl forallb]; [done|]. intros [He Hes]%andb_true_iff. rewrite IH by done.
  destruct e; cbn in *; try done; apply negb_true_iff, bool_decide_eq_false in He; [by rewrite lookup_insert_ne|by rewrite lookup_delete_ne].
Qed.

(** Whatever else happens at the same time, the entry after a tool call tells how long the
    call took, and the plugin keeps nothing of it. *)
Theorem tool_call_is_timed es mid id agent tool args start now agent' tool' result err later end_ (p := audit_run (es ++ EvBeforeTool id agent tool args start now :: mid)) :
  forallb (negb ∘ about_tool id) mid = true →
  let p' := audit_step p (EvAfterTool id agent' tool' result err later end_) in
  (∃ e, ap_entries p' = ap_entries p ++ [e] ∧ en_CallID e = id ∧ en_DurationMs e = Milliseconds (time_sub end_ start))
  ∧ ap_toolStart p' !! id = None
  ∧ length (ap_entries p') = (length es + length mid + 2)%nat.
Proof.
  intros Hmid. assert (ap_toolStart p !! id = Some start) as Hs.
  { unfold p, audit_run. rewrite foldl_app. cbn [foldl]. rewrite audit_other by done. cbn. by rewrite lookup_insert_eq. }
  assert (∀ l q, length (ap_entries (foldl audit_step q l)) = (length (ap_entries q) + length l)%nat) as Hlen.
  { clear. intros l. induction l as [|e l IH]; intros q; cbn [foldl length]; [lia|]. rewrite IH. destruct e; cbn; rewrite length_app; cbn; lia. }
  cbn. split_and!.
  - eexists. split; [reflexivity|]. cbn. by rewrite Hs.
  - by rewrite lookup_delete_eq.
  - rewrite length_app. cbn. unfold p, audit_run. rewrite Hlen, length_app. cbn. lia.
Qed.

(** Model calls are told apart by the invocation and the agent only: of two calls of one
    agent at the same time the first to end is timed from the start of the second, and the
    other is not timed at all. *)
Lemma overlapping_model_calls inv agent t0 t1 t2 t3 :
  en_DurationMs <$> ap_entries (audit_run [EvBeforeModel inv agent None t0 t0; EvBeforeModel inv agent None t1 t1;
    EvAfterModel inv agent None None t2 t2; EvAfterModel inv agent None None t3 t3]) = [0; 0; Milliseconds (time_sub t2 t1); 0].
Proof. cbn. by rewrite lookup_insert_eq, lookup_delete_eq. Qed.

(** The tokens of an entry are not among what the default writer writes. *)
Lemma default_writer_drops_tokens (e : Entry J) n m :
  slog_attrs {| en_Timestamp := en_Timestamp e; en_Kind := en_Kind e; en_Phase := en_Phase e; en_AgentName := en_AgentName e;
                en_ModelName := en_ModelName e; en_ToolName := en_ToolName e; en_CallID := en_CallID e; en_DurationMs := en_DurationMs e;
                en_InputTokens := n; en_OutputTokens := m; en_Error := en_Error e; en_Args := en_Args e; en_Result := en_Result e |} = slog_attrs e.
Proof. done. Qed.
End audit.
Arguments AuditPlugin : clear implicits.
Arguments audit_event : clear implicits.

(** ** tokentracker *)

(** The counters wrap like [atomic.Int64]. *)
Record Usage := { ug_InputTokens : Z; ug_OutputTokens : Z; ug_CallCount : Z }.
Definition no_usage : Usage := {| ug_InputTokens := 0; ug_OutputTokens := 0; ug_CallCount := 0 |}.
Definition add_input (n : Z) (u : Usage) : Usage :=
  {| ug_InputTokens := wrap64 (ug_InputTokens u + n); ug_OutputTokens := ug_OutputTokens u; ug_CallCount := ug_CallCount u |}.
Definition add_output (n : Z) (u : Usage) : Usage :=
  {| ug_InputTokens := ug_InputTokens u; ug_OutputTokens := wrap64 (ug_OutputTokens u + n); ug_CallCount := ug_CallCount u |}.
Definition add_call (u : Usage) : Usage :=
  {| ug_InputTokens := ug_InputTokens u; ug_OutputTokens := ug_OutputTokens u; ug_CallCount := wrap64 (ug_CallCount u + 1) |}.

(** Where a callback stands: before which of its steps, with the counters of its agent once
    it has got them. *)
Inductive tracker_pc :=
| AtGlobalIn | AtGlobalOut | AtGlobalCount | AtLookup | AtCreate | AtIn (p : nat) | AtOut (p : nat) | AtCount (p : nat)
| AtRecord (p : nat) | Returned (p : nat).
Record tracker_call := { tk_agent : string; tk_in : Z; tk_out : Z; tk_pc : tracker_pc }.

(** The tracker, the callbacks of model calls and what [onRecord] was given. *)
Record Tracker := {
  tr_global : Usage; tr_byAgent : gmap string nat; tr_heap : list Usage; tr_calls : list tracker_call; tr_recorded : list (string * Z * Z);
}.
Definition tracker_new : Tracker := {| tr_global := no_usage; tr_byAgent := ∅; tr_heap := []; tr_calls := []; tr_recorded := [] |}.

Definition at_pc (pc : tracker_pc) (c : tracker_call) : tracker_call :=
  {| tk_agent := tk_agent c; tk_in := tk_in c; tk_out := tk_out c; tk_pc := pc |}.
Definition move (i : nat) (pc : tracker_pc) (s : Tracker) : Tracker :=
  {| tr_global := tr_global s; tr_byAgent := tr_byAgent s; tr_heap := tr_heap s; tr_calls := alter (at_pc pc) i (tr_calls s);
     tr_recorded := tr_recorded s |}.
Definition on_global (f : Usage → Usage) (s : Tracker) : Tracker :=
  {| tr_global := f (tr_global s); tr_byAgent := tr_byAgent s; tr_heap := tr_heap s; tr_calls := tr_calls s; tr_recorded := tr_recorded s |}.
Definition on_usage (p : nat) (f : Usage → Usage) (s : Tracker) : Tracker :=
  {| tr_global := tr_global s; tr_byAgent := tr_byAgent s; tr_heap := alter f p (tr_heap s); tr_calls := tr_calls s; tr_recorded := tr_recorded s |}.
Definition create_usage (agent : string) (s : Tracker) : Tracker :=
  {| tr_global := tr_global s; tr_byAgent := <[agent := length (tr_heap s)]> (tr_byAgent s); tr_heap := tr_heap s ++ [no_usage];
     tr_calls := tr_calls s; tr_recorded := tr_recorded s |}.
Definition record (agent : string) (n m : Z) (s : Tracker) : Tracker :=
  {| tr_global := tr_global s; tr_byAgent := tr_byAgent s; tr_heap := tr_heap s; tr_calls := tr_calls s;
     tr_recorded := tr_recorded s ++ [(agent, n, m)] |}.

(** A callback begins, for a response that may be nil or without usage, for which it does
    nothing; a callback makes its next step. *)
Inductive tracker_event := TCall (agent : string) (usage : option (Z * Z)) | TStep (i : nat).

Definition tracker_move (i : nat) (c : tracker_call) (s : Tracker) : option Tracker :=
  match tk_pc c with
  | AtGlobalIn => Some (move i AtGlobalOut (on_global (add_input (tk_in c)) s))
  | AtGlobalOut => Some (move i AtGlobalCount (on_global (add_output (tk_out c)) s))
  | AtGlobalCount => Some (move i AtLookup (on_global add_call s))
  | AtLookup => Some (move i (match tr_byAgent s !! tk_agent c with Some p => AtIn p | None => AtCreate end) s)
  | AtCreate =>
      Some match tr_byAgent s !! tk_agent c with
           | Some p => move i (AtIn p) s
           | None => move i (AtIn (length (tr_heap s))) (create_usage (tk_agent c) s)
           end
  | AtIn p => Some (move i (AtOut p) (on_usage p (add_input (tk_in c)) s))
  | AtOut p => Some (move i (AtCount p) (on_usage p (add_output (tk_out c)) s))
  | AtCount p => Some (move i (AtRecord p) (on_usage p add_call s))
  | AtRecord p => Some (move i (Returned p) (record (tk_agent c) (tk_in c) (tk_out c) s))
  | Returned _ => None
  end.

Definition tracker_step (e : tracker_event) (s : Tracker) : option Tracker :=
  match e with
  | TCall agent None => Some s
  | TCall agent (Some (n, m)) =>
      Some {| tr_global := tr_global s; tr_byAgent := tr_byAgent s; tr_heap := tr_heap s;
              tr_calls := tr_calls s ++ [{| tk_agent := agent; tk_in := n; tk_out := m; tk_pc := AtGlobalIn |}]; tr_recorded := tr_recorded s |}
  | TStep i => c ← tr_calls s !! i; tracker_move i c s
  end.
Definition tracker_run (es : list tracker_event) : option Tracker := foldl (λ s e, s ≫= tracker_step e) (Some tracker_new) es.

Definition ByAgent (s : Tracker) (name : string) : option Usage := p ← tr_byAgent s !! name; tr_heap s !! p.
Definition AllAgents (s : Tracker) : gmap string Usage := omap (λ p, tr_heap s !! p) (tr_byAgent s).

(** *** What the counters count *)

(** How much of a call is in the counters already. *)
Definition global_part (c : tracker_call) : Z * Z * Z :=
  match tk_pc c with
  | AtGlobalIn => (0, 0, 0) | AtGlobalOut => (tk_in c, 0, 0) | AtGlobalCount => (tk_in c, tk_out c, 0) | _ => (tk_in c, tk_out c, 1)
  end.
Definition agent_part (a : string) (c : tracker_call) : Z * Z * Z :=
  if bool_decide (tk_agent c = a) then
    match tk_pc c with
    | AtOut _ => (tk_in c, 0, 0) | AtCount _ => (tk_in c, tk_out c, 0) | AtRecord _ | Returned _ => (tk_in c, tk_out c, 1) | _ => (0, 0, 0)
    end
  else (0, 0, 0).
Definition pc_ptr (pc : tracker_pc) : option nat :=
  match pc with AtIn p | AtOut p | AtCount p | AtRecord p | Returned p => Some p | _ => None end.
Definition recorded_part (c : tracker_call) : option (string * Z * Z) :=
  match tk_pc c with Returned _ => Some (tk_agent c, tk_in c, tk_out c) | _ => None end.

Definition usage_of (f : tracker_call → Z * Z * Z) (l : list tracker_call) : Usage :=
  {| ug_InputTokens := wrap64 (sum_of (λ c, (f c).1.1) l); ug_OutputTokens := wrap64 (sum_of (λ c, (f c).1.2) l);
     ug_CallCount := wrap64 (sum_of (λ c, (f c).2) l) |}.

Lemma wrap64_add x y : wrap64 (wrap64 x + y) = wrap64 (x + y).
Proof.
  unfold wrap64. replace ((x + 2 ^ 63) `mod` 2 ^ 64 - 2 ^ 63 + y + 2 ^ 63) with ((x + 2 ^ 63) `mod` 2 ^ 64 + y) by ring.
  rewrite Zplus_mod_idemp_l. replace (x + 2 ^ 63 + y) with (x + y + 2 ^ 63) by ring. done.
Qed.

Lemma wrap64_idem x : wrap64 (wrap64 x) = wrap64 x.
Proof. pose proof (wrap64_add x 0) as Hx. by rewrite !Z.add_0_r in Hx. Qed.

Lemma sum_of_alter {A} (f : A → Z) g i l x : l !! i = Some x → sum_of f (alter g i l) = sum_of f l + (f (g x) - f x).
Proof.
  revert i. induction l as [|y l IH]; intros [|i]; cbn [lookup list_lookup alter list_alter]; [done|done|..].
  - intros [= ->]. rewrite !sum_of_cons. lia.
  - intros Hi. change (list_alter g i l) with (alter g i l). rewrite !sum_of_cons, (IH _ Hi). lia.
Qed.

Section alter.
Context (f : tracker_call → Z * Z * Z) (g : tracker_call → tracker_call) (i : nat) (l : list tracker_call) (c : tracker_call).
Context (Hi : l !! i = Some c).

Lemma usage_alter u : f (g c) = u →
  usage_of f (alter g i l) = {| ug_InputTokens := wrap64 (ug_InputTokens (usage_of f l) + (u.1.1 - (f c).1.1));
                                ug_OutputTokens := wrap64 (ug_OutputTokens (usage_of f l) + (u.1.2 - (f c).1.2));
                                ug_CallCount := wrap64 (ug_CallCount (usage_of f l) + (u.2 - (f c).2)) |}.
Proof.
  intros Hu. unfold usage_of. cbn. rewrite !wrap64_add.
  rewrite (sum_of_alter (λ c, (f c).1.1) g i l c Hi), (sum_of_alter (λ c, (f c).1.2) g i l c Hi), (sum_of_alter (λ c, (f c).2) g i l c Hi).
  by rewrite Hu.
Qed.

Lemma usage_same : f (g c) = f c → usage_of f (alter g i l) = usage_of f l.
Proof. intros Hu. rewrite (usage_alter _ Hu), !Z.sub_diag, !Z.add_0_r. unfold usage_of. cbn. by rewrite !wrap64_idem. Qed.

Lemma usage_input n : f (g c) = ((f c).1.1 + n, (f c).1.2, (f c).2) → usage_of f (alter g i l) = add_input n (usage_of f l).
Proof.
  intros Hu. rewrite (usage_alter _ Hu). unfold add_input, usage_of. cbn. rewrite !Z.sub_diag, !Z.add_0_r, !wrap64_idem. do 3 f_equal. lia.
Qed.
Lemma usage_output n : f (g c) = ((f c).1.1, (f c).1.2 + n, (f c).2) → usage_of f (alter g i l) = add_output n (usage_of f l).
Proof.
  intros Hu. rewrite (usage_alter _ Hu). unfold add_output, usage_of. cbn. rewrite !Z.sub_diag, !Z.add_0_r, !wrap64_idem. do 3 f_equal. lia.
Qed.
Lemma usage_call : f (g c) = ((f c).1.1, (f c).1.2, (f c).2 + 1) → usage_of f (alter g i l) = add_call (usage_of f l).
Proof.
  intros Hu. rewrite (usage_alter _ Hu). unfold add_call, usage_of. cbn. rewrite !Z.sub_diag, !Z.add_0_r, !wrap64_idem. do 3 f_equal. lia.
Qed.
End alter.

Record tracker_inv (s : Tracker) : Prop := {
  tv_global : tr_global s = usage_of global_part (tr_calls s);
  tv_agent : ∀ a p, tr_byAgent s !! a = Some p → tr_heap s !! p = Some (usage_of (agent_part a) (tr_calls s));
  tv_ptr : ∀ i c p, tr_calls s !! i = Some c → pc_ptr (tk_pc c) = Some p → tr_byAgent s !! tk_agent c = Some p;
  tv_inj : ∀ a b p, tr_byAgent s !! a = Some p → tr_byAgent s !! b = Some p → a = b;
  tv_recorded : tr_recorded s ≡ₚ omap recorded_part (tr_calls s);
}.

Lemma part_other a pc c : tk_agent c ≠ a → agent_part a (at_pc pc c) = agent_part a c.
Proof. intros Ha. unfold agent_part. cbn. by rewrite bool_decide_false. Qed.

Lemma omap_alter_none {A B} (f : A → option B) g (i : nat) (l : list A) x : l !! i = Some x → f x = None → f (g x) = None → omap f (alter g i l) = omap f l.
Proof.
  revert i. induction l as [|y l IH]; intros [|i] Hi Hx Hg; cbn in *; try done; [|destruct (f y); [f_equal|]; by apply IH].
  injection Hi as ->. by rewrite Hx, Hg.
Qed.

Lemma omap_alter_some {A B} (f : A → option B) g (i : nat) (l : list A) x b : l !! i = Some x → f x = None → f (g x) = Some b → omap f (alter g i l) ≡ₚ b :: omap f l.
Proof.
  revert i. induction l as [|y l IH]; intros [|i] Hi Hx Hg; cbn in *; try done.
  - injection Hi as ->. by rewrite Hx, Hg.
  - destruct (f y); [|by apply IH]. change (list_alter g i l) with (alter g i l). rewrite (IH i) by done. apply Permutation_swap.
Qed.

(** A call moves without touching the counters of its agent. *)
Lemma move_inv s i c pc u :
  tr_calls s !! i = Some c → tracker_inv s → u = usage_of global_part (alter (at_pc pc) i (tr_calls s)) →
  agent_part (tk_agent c) (at_pc pc c) = agent_part (tk_agent c) c →
  (∀ p, pc_ptr pc = Some p → tr_byAgent s !! tk_agent c = Some p) → recorded_part c = None → recorded_part (at_pc pc c) = None →
  tracker_inv (move i pc (on_global (λ _, u) s)).
Proof.
  intros Hc [Hg Ha Hp Hi Hr] -> Hpart Hptr Hrc Hrn. split; cbn; [done| | |done|].
  - intros a p Hap. rewrite (Ha a p Hap). f_equal. symmetry. apply (usage_same _ _ _ _ _ Hc). destruct (decide (tk_agent c = a)) as [<-|?]; [done|by apply part_other].
  - intros j d p Hj Hd. destruct (decide (i = j)) as [<-|?]; [|rewrite list_lookup_alter_ne in Hj by done; by eapply Hp].
    rewrite list_lookup_alter_eq, Hc in Hj. injection Hj as <-. by apply Hptr.
  - rewrite Hr. by rewrite (omap_alter_none _ _ _ _ _ Hc).
Qed.

(** A call counts at its agent. *)
Lemma count_inv s i c pc p f :
  tr_calls s !! i = Some c → tracker_inv s → pc_ptr (tk_pc c) = Some p → pc_ptr pc = Some p →
  global_part (at_pc pc c) = global_part c →
  usage_of (agent_part (tk_agent c)) (alter (at_pc pc) i (tr_calls s)) = f (usage_of (agent_part (tk_agent c)) (tr_calls s)) →
  recorded_part c = None → recorded_part (at_pc pc c) = None →
  tracker_inv (move i pc (on_usage p f s)).
Proof.
  intros Hc [Hg Ha Hp Hi Hr] Hpc Hpc' Hpart Hf Hrc Hrn. pose proof (Hp i c p Hc Hpc) as Hown. split; cbn.
  - rewrite Hg. symmetry. by apply (usage_same _ _ _ _ _ Hc).
  - intros a q Hap. destruct (decide (tk_agent c = a)) as [<-|Hne].
    + assert (q = p) as -> by congruence. by rewrite list_lookup_alter_eq, (Ha _ _ Hap), Hf.
    + assert (p ≠ q) by (intros ->; by apply Hne, (Hi _ _ q)). rewrite list_lookup_alter_ne, (Ha a q Hap) by done. f_equal. symmetry.
      apply (usage_same _ _ _ _ _ Hc). by apply part_other.
  - intros j d q Hj Hd. destruct (decide (i = j)) as [<-|?]; [|rewrite list_lookup_alter_ne in Hj by done; by eapply Hp].
    rewrite list_lookup_alter_eq, Hc in Hj. injection Hj as <-. cbn in Hd |- *. congruence.
  - done.
  - rewrite Hr. by rewrite (omap_alter_none _ _ _ _ _ Hc).
Qed.

(** The counters of an agent that has none are all zero. *)
Lemma unseen_agent s a : tracker_inv s → tr_byAgent s !! a = None → usage_of (agent_part a) (tr_calls s) = no_usage.
Proof.
  intros [_ _ Hp _ _] Hnone. assert (∀ c, c ∈ tr_calls s → agent_part a c = (0, 0, 0)) as Hz.
  { intros c [i Hi]%list_elem_of_lookup. unfold agent_part. case_bool_decide as Heq; [|done]. specialize (Hp i c).
    destruct (tk_pc c) as [| | | | |p|p|p|p|p]; try done; by rewrite Heq, Hnone in *; specialize (Hp p Hi eq_refl). }
  assert (∀ (h : Z * Z * Z → Z) l, h (0, 0, 0) = 0 → (∀ c, c ∈ l → agent_part a c = (0, 0, 0)) → sum_of (λ c, h (agent_part a c)) l = 0) as Hsum.
  { clear. intros h l H0. induction l as [|c l IH]; intros Hl; [done|]. rewrite sum_of_cons, IH, (Hl c), H0; [done|by left|]. intros d Hd. apply Hl. by right. }
  unfold usage_of. by rewrite (Hsum (λ t, t.1.1)), (Hsum (λ t, t.1.2)), (Hsum (λ t, t.2)).
Qed.

Lemma create_inv s a : tracker_inv s → tr_byAgent s !! a = None → tracker_inv (create_usage a s).
Proof.
  intros Hinv Hnone. pose proof (unseen_agent s a Hinv Hnone) as Hz. destruct Hinv as [Hg Ha Hp Hi Hr].
  assert (∀ b p, tr_byAgent s !! b = Some p → p < length (tr_heap s))%nat as Hlt by (intros b p Hb; by eapply lookup_lt_Some, Ha).
  split; cbn; [done| | | |done].
  - intros b p [[<- <-]|[Hne Hb]]%lookup_insert_Some; [by rewrite lookup_app_r, Nat.sub_diag, Hz by lia|]. rewrite lookup_app_l by by eapply Hlt. by apply Ha.
  - intros i c p Hc Hpc. pose proof (Hp i c p Hc Hpc) as Hb. rewrite lookup_insert_ne; [done|]. intros Heq. congruence.
  - intros b b' p [[<- <-]|[? Hb]]%lookup_insert_Some [[<- Heq]|[? Hb']]%lookup_insert_Some; [done|..|by eapply Hi].
    + apply Hlt in Hb'. lia.
    + subst p. apply Hlt in Hb. lia.
Qed.

Lemma on_global_same s : on_global (λ _, tr_global s) s = s.
Proof. by destruct s. Qed.

Lemma tracker_move_inv s s' i c : tr_calls s !! i = Some c → tracker_move i c s = Some s' → tracker_inv s → tracker_inv s'.
Proof.
  intros Hc Hs Hinv. pose proof (tv_global _ Hinv) as Hg. unfold tracker_move in Hs. destruct (tk_pc c) as [| | | | |p|p|p|p|p] eqn:Hpc; [injection Hs as <-..|done].
  - apply (move_inv s i c AtGlobalOut); try done; unfold recorded_part, agent_part; cbn; rewrite ?Hpc; try done.
    rewrite Hg. symmetry. apply (usage_input _ _ _ _ _ Hc). unfold global_part. by rewrite Hpc.
  - apply (move_inv s i c AtGlobalCount); try done; unfold recorded_part, agent_part; cbn; rewrite ?Hpc; try done.
    rewrite Hg. symmetry. apply (usage_output _ _ _ _ _ Hc). unfold global_part. by rewrite Hpc.
  - apply (move_inv s i c AtLookup); try done; unfold recorded_part, agent_part; cbn; rewrite ?Hpc; try done.
    rewrite Hg. symmetry. apply (usage_call _ _ _ _ _ Hc). unfold global_part. by rewrite Hpc.
  - rewrite <- (on_global_same s) at 2. apply (move_inv s i c); try done; unfold recorded_part, agent_part; cbn; rewrite ?Hpc; try by (destruct (tr_byAgent s !! tk_agent c); done).
    rewrite Hg. symmetry. apply (usage_same _ _ _ _ _ Hc). unfold global_part. rewrite Hpc. by destruct (tr_byAgent s !! tk_agent c).
  - destruct (tr_byAgent s !! tk_agent c) as [p|] eqn:Hb.
    + rewrite <- (on_global_same s). apply (move_inv s i c (AtIn p)); try done; unfold recorded_part, agent_part; cbn; rewrite ?Hpc; try done.
      * rewrite Hg. symmetry. apply (usage_same _ _ _ _ _ Hc). unfold global_part. by rewrite Hpc.
      * by intros q [= <-].
    + pose proof (create_inv s _ Hinv Hb) as Hinv'. rewrite <- (on_global_same (create_usage _ s)).
      apply (move_inv (create_usage (tk_agent c) s) i c); try done; unfold recorded_part, agent_part; cbn; rewrite ?Hpc; try done.
      * rewrite Hg. symmetry. apply (usage_same _ _ _ _ _ Hc). unfold global_part. by rewrite Hpc.
      * intros q [= <-]. by rewrite lookup_insert_eq.
  - apply (count_inv s i c); try done; unfold recorded_part, global_part; cbn; rewrite ?Hpc; try done.
    apply (usage_input _ _ _ _ _ Hc). unfold agent_part. cbn. rewrite bool_decide_true by done. by rewrite Hpc.
  - apply (count_inv s i c); try done; unfold recorded_part, global_part; cbn; rewrite ?Hpc; try done.
    apply (usage_output _ _ _ _ _ Hc). unfold agent_part. cbn. rewrite bool_decide_true by done. by rewrite Hpc.
  - apply (count_inv s i c); try done; unfold recorded_part, global_part; cbn; rewrite ?Hpc; try done.
    apply (usage_call _ _ _ _ _ Hc). unfold agent_part. cbn. rewrite bool_decide_true by done. by rewrite Hpc.
  - destruct Hinv as [_ Ha Hp Hi Hr]. pose proof (Hp i c p Hc ltac:(by rewrite Hpc)) as Hown. split; cbn; [| | |done|].
    + rewrite Hg. symmetry. apply (usage_same _ _ _ _ _ Hc). unfold global_part. by rewrite Hpc.
    + intros a q Hap. rewrite (Ha a q Hap). f_equal. symmetry. apply (usage_same _ _ _ _ _ Hc).
      destruct (decide (tk_agent c = a)) as [<-|?]; [|by apply part_other]. unfold agent_part. cbn. by rewrite bool_decide_true, Hpc.
    + intros j d q Hj Hd. destruct (decide (i = j)) as [<-|?]; [|rewrite list_lookup_alter_ne in Hj by done; by eapply Hp].
      rewrite list_lookup_alter_eq, Hc in Hj. injection Hj as <-. cbn in Hd |- *. congruence.
    + rewrite (omap_alter_some recorded_part _ _ _ _ (tk_agent c, tk_in c, tk_out c) Hc), Hr; [|by unfold recorded_part; rewrite Hpc|done].
      symmetry. apply Permutation_cons_append.
Qed.

Lemma tracker_run_inv es s : tracker_run es = Some s → tracker_inv s.
Proof.
  revert s. induction es as [|e es IH] using rev_ind; intros s.
  - intros [= <-]. split; cbn; [done|by intros ? ? ?%lookup_empty_Some|by intros ? ? ? ?|by intros ? ? ? ?%lookup_empty_Some|done].
  - unfold tracker_run. rewrite foldl_app. fold (tracker_run es). destruct (tracker_run es) as [s1|]; cbn; [|done]. specialize (IH s1 eq_refl).
    destruct e as [agent [[n m]|]|i]; cbn; [|by intros [= <-]|].
    + intros [= <-]. destruct IH as [Hg Ha Hp Hi Hr]. set (new := Build_tracker_call agent n m AtGlobalIn).
      assert (∀ f, f new = (0, 0, 0) → usage_of f (tr_calls s1 ++ [new]) = usage_of f (tr_calls s1)) as Hnew.
      { intros f Hf. unfold usage_of. rewrite !sum_of_app. unfold sum_of at 2 4 6. cbn. by rewrite Hf, !Z.add_0_r. }
      split; cbn; [by rewrite Hnew|..].
      * intros a p Hap. rewrite (Ha a p Hap), Hnew; [done|]. unfold agent_part. by destruct (bool_decide _).
      * intros j d p [Hj|[_ [_ <-]%list_lookup_singleton_Some]]%lookup_app_Some; [by eapply Hp|done].
      * done.
      * by rewrite omap_app, app_nil_r.
    + destruct (tr_calls s1 !! i) as [c|] eqn:Hc; cbn; [|done]. intros Hs. by eapply tracker_move_inv.
Qed.

(** *** What a tracker tells *)

(** The sums over the calls of a list, as 64-bit integers. *)
Definition total (l : list tracker_call) : Usage :=
  {| ug_InputTokens := wrap64 (sum_of tk_in l); ug_OutputTokens := wrap64 (sum_of tk_out l); ug_CallCount := wrap64 (Z.of_nat (length l)) |}.

Lemma usage_filter (P : tracker_call → bool) (f : tracker_call → Z * Z * Z) l :
  (∀ c, c ∈ l → f c = if P c then (tk_in c, tk_out c, 1) else (0, 0, 0)) → usage_of f l = total (filter (λ c, P c = true) l).
Proof.
  intros Hf. unfold usage_of, total.
  assert (sum_of (λ c, (f c).1.1) l = sum_of tk_in (filter (λ c, P c = true) l) ∧ sum_of (λ c, (f c).1.2) l = sum_of tk_out (filter (λ c, P c = true) l)
          ∧ sum_of (λ c, (f c).2) l = Z.of_nat (length (filter (λ c, P c = true) l))) as (-> & -> & ->); [|done].
  induction l as [|c l IH]; [done|]. rewrite !sum_of_cons. destruct IH as (-> & -> & ->); [intros d Hd; apply Hf; by right|].
  rewrite (Hf c) by by left. destruct (P c) eqn:HP; [rewrite !filter_cons_True by done|rewrite !filter_cons_False by (by rewrite HP)];
    rewrite ?sum_of_cons; cbn [length fst snd]; lia.
Qed.

(** C20: However the callbacks of the model calls interleave, once all have returned no token and
    no call is lost or counted twice: the tracker tells the sums over all calls with usage,
    and for each agent the sums over its calls, and it has told each call to [onRecord]
    once. *)
Theorem tracker_counts es s :
  tracker_run es = Some s → (∀ c, c ∈ tr_calls s → ∃ p, tk_pc c = Returned p) →
  tr_global s = total (tr_calls s)
  ∧ (∀ a, let own := filter (λ c, bool_decide (tk_agent c = a) = true) (tr_calls s) in
       own ≠ [] → ByAgent s a = Some (total own))
  ∧ tr_recorded s ≡ₚ (λ c, (tk_agent c, tk_in c, tk_out c)) <$> tr_calls s.
Proof.
  intros Hrun Hdone. destruct (tracker_run_inv es s Hrun) as [Hg Ha Hp _ Hr]. split_and!.
  - rewrite Hg, (usage_filter (λ _, true)); [|intros c Hc; destruct (Hdone c Hc) as [p Hpc]; unfold global_part; by rewrite Hpc].
    f_equal. clear. induction (tr_calls s) as [|c l IH]; [done|]. by rewrite filter_cons_True, IH.
  - intros a own Hne. destruct own as [|c l] eqn:Hown; [done|].
    assert (c ∈ own) as [Hca Hc]%list_elem_of_filter by (rewrite Hown; by left). apply bool_decide_eq_true in Hca.
    destruct (Hdone c Hc) as [p Hpc]. apply list_elem_of_lookup in Hc as [i Hi]. pose proof (Hp i c p Hi ltac:(by rewrite Hpc)) as Hap. rewrite Hca in Hap.
    unfold ByAgent. rewrite Hap. cbn. rewrite (Ha a p Hap). f_equal. rewrite (usage_filter (λ c, bool_decide (tk_agent c = a))).
    + by rewrite <- Hown.
    + intros d Hd. destruct (Hdone d Hd) as [q Hq]. unfold agent_part. by rewrite Hq.
  - rewrite Hr. assert (omap recorded_part (tr_calls s) = (λ c, (tk_agent c, tk_in c, tk_out c)) <$> tr_calls s) as ->; [|done].
    revert Hdone. clear. induction (tr_calls s) as [|c l IH]; intros Hd; [done|]. destruct (Hd c ltac:(by left)) as [p Hpc]. cbn. unfold recorded_part at 1. rewrite Hpc.
    f_equal. apply IH. intros d Hin. apply Hd. by right.
Qed.

(** ** Witnesses *)

Definition w_tracker_events : list tracker_event :=
  [TCall "a" (Some (3, 4)); TCall "b" None; TCall "a" (Some (5, 6))]%string ++ concat (replicate 9 [TStep 0; TStep 1]).
Definition w_tracker : Tracker := default tracker_new (tracker_run w_tracker_events).

Lemma tracker_counts_witness :
  ByAgent w_tracker "a" = Some {| ug_InputTokens := 8; ug_OutputTokens := 10; ug_CallCount := 2 |} ∧ tr_global w_tracker = total (tr_calls w_tracker).
Proof.
  assert (∀ c, c ∈ tr_calls w_tracker → ∃ p, tk_pc c = Returned p) as Hd.
  { apply Forall_forall. vm_compute. repeat constructor; eexists; reflexivity. }
  destruct (tracker_counts w_tracker_events w_tracker ltac:(vm_compute; reflexivity) Hd) as (Hg & Ha & _). split; [|exact Hg].
  rewrite (Ha "a"%string); [vm_compute; reflexivity|vm_compute; discriminate].
Defined.

Lemma tool_call_is_timed_witness :
  ap_toolStart (audit_run (J := unit) [EvBeforeTool "1" "a" "exec" None 0 0; EvBeforeModel "i" "a" None 5 5; EvAfterTool "1" "a" "exec" None None 7 7000000])
    !! "1"%string = None.
Proof.
  exact (proj1 (proj2 (tool_call_is_timed (J := unit) [] [EvBeforeModel "i" "a" None 5 5] "1" "a" "exec" None 0 0 "a" "exec" None None 7 7000000 eq_refl))).
Defined.
