(* ===== verification/Repl.v ===== *)
(** [cmd/abot/agent.go] and [cmd/abot-agent]: talking to the agents from a terminal.  The
    two programs have the same loop; [readline] is a list of what each prompt gave, with
    what the environment decides while that prompt is dealt with.

    A run is the list of what it printed and of the messages it sent; the messages go to
    [ProcessDirectStream] of [AgentStream]. *)
From stdpp Require Import pretty.
From S2P Require Import Prelude GoStrings Quote Values Types Search AgentRegistry Pruning Compression AgentLoop AgentStream.

(** ** The ring of turns *)

Record historyEntry := { he_User : string; he_Assistant : string }.
Record historyRing := { hr_entries : list historyEntry; hr_pos : nat; hr_full : bool; hr_size : nat }.

Definition newHistoryRing (size : nat) : historyRing :=
  {| hr_entries := replicate size {| he_User := ""; he_Assistant := "" |}; hr_pos := 0; hr_full := false; hr_size := size |}.

(** The rings of the programs have a size, so the index is in range. *)
Definition history_push (e : historyEntry) (h : historyRing) : historyRing :=
  let pos := ((hr_pos h + 1) mod (hr_size h))%nat in
  {| hr_entries := <[hr_pos h := e]> (hr_entries h); hr_pos := pos; hr_full := hr_full h || (pos =? 0)%nat; hr_size := hr_size h |}.

Definition history_list (h : historyRing) : list historyEntry :=
  if negb (hr_full h) then take (hr_pos h) (hr_entries h)
  else drop (hr_pos h) (hr_entries h) ++ take (hr_pos h) (hr_entries h).

(** ** Reading *)

Inductive read := ReadLine (line : string) | ReadInterrupt | ReadEOF | ReadErr (e : goerror).

(** A prompt: whether the context was done when the loop looked at it, what was read, the
    orders in which the registry is ranged over, the next identifier, whether an interrupt
    arrived while the answer was streamed, and whether the context was done after it. *)
Record prompt := {
  pr_done : bool; pr_read : read; pr_order : list string; pr_order2 : list string; pr_uuid : string;
  pr_sigint : bool; pr_done_after : bool;
}.

Definition quotes : string := l2s (replicate 3 "034"%char).
Definition fence : string := l2s (replicate 3 "096"%char).
Definition backslash : string := "\".

Definition isMultilineStart (line : string) : bool :=
  if bool_decide (line = quotes) || has_prefix line quotes then true
  else if bool_decide (line = fence) || has_prefix line fence then true
  else has_suffix line backslash.

(** The lines up to the closing mark, and how many prompts they took; [None] waits for
    another one. *)
Fixpoint read_fenced (mark : string) (lines : list string) (ps : list prompt) : option (option (list string) * nat) :=
  match ps with
  | [] => None
  | p :: ps =>
      match pr_read p with
      | ReadLine next =>
          if bool_decide (next = mark) || has_suffix next mark
          then let content := trim_suffix next mark in
               Some (Some (if str_empty content then lines else lines ++ [content]), 1%nat)
          else '(r, n) ← read_fenced mark (lines ++ [next]) ps; Some (r, S n)
      | _ => Some (None, 1%nat)
      end
  end.

Fixpoint read_continued (lines : list string) (ps : list prompt) : option (option (list string) * nat) :=
  match ps with
  | [] => None
  | p :: ps =>
      match pr_read p with
      | ReadLine next =>
          if has_suffix next backslash
          then '(r, n) ← read_continued (lines ++ [trim_suffix next backslash]) ps; Some (r, S n)
          else Some (Some (lines ++ [next]), 1%nat)
      | _ => Some (None, 1%nat)
      end
  end.

(** [None] inside is the error of a read. *)
Definition multiline_lines (firstLine : string) (ps : list prompt) : option (option (list string) * nat) :=
  if bool_decide (firstLine = quotes) || has_prefix firstLine quotes then read_fenced quotes [trim_prefix firstLine quotes] ps
  else if bool_decide (firstLine = fence) || has_prefix firstLine fence then read_fenced fence [trim_prefix firstLine fence] ps
  else if has_suffix firstLine backslash then read_continued [trim_suffix firstLine backslash] ps
  else Some (Some [], 0%nat).

Definition readMultiline (firstLine : string) (ps : list prompt) : option (option string * nat) :=
  match multiline_lines firstLine ps with
  | None => None
  | Some (lines, n) => Some ((λ l, join l lf) <$> lines, n)
  end.

(** ** What is printed *)

Definition cut_at (s : string) (n : nat) : string := l2s (take n (s2l s)).

Definition truncate (s : string) (maxLen : nat) : string :=
  if (str_len s <=? maxLen)%nat then s else cut_at s maxLen +:+ "...".

(** [%-16s] counts runes. *)
Definition pad16 (s : string) : string := s +:+ l2s (replicate (16 - rune_count s) " "%char).

Definition loop_error_text (e : loop_error) : string :=
  match e with
  | ErrNoAgent channel chatID => "no agent found for channel=" +:+ channel +:+ " chatID=" +:+ chatID
  | ErrNoRunner agentID => "runner not found for agent " +:+ go_quote agentID
  | ErrCreateSession e => "create session: " +:+ error_text e
  | ErrPublish e => "publish outbound: " +:+ error_text e
  | ErrPanic => "panic recovered in processMessage"
  end.

Definition stream_error_text (e : stream_error) : string :=
  match e with
  | SErrLoop e => loop_error_text e
  | SErrRun e => error_text e
  | SErrRetries => "context overflow after retries"
  | SErrNoCompressor => "context overflow, no compressor"
  | SErrGetSession => "failed to get session for compression"
  | SErrCompression => "compression failed"
  end.

Definition direct_error_text (e : direct_error) : string :=
  match e with DErrLoop e => loop_error_text e | DErr e => error_text e end.

(** What the callback prints. *)
Definition show_event (ev : StreamEvent) : string :=
  if bool_decide (sev_Type ev = "text_delta") then sev_Content ev
  else if bool_decide (sev_Type ev = "tool_call") then lf +:+ "[calling: " +:+ sev_Content ev +:+ "]" +:+ lf
  else if bool_decide (sev_Type ev = "tool_result") then "[result: " +:+ truncate (sev_Content ev) 200 +:+ "]" +:+ lf
  else if bool_decide (sev_Type ev = "done") then lf +:+ lf
  else if bool_decide (sev_Type ev = "error") then
    lf +:+ "[error: " +:+ match sev_Error ev with Some e => stream_error_text e | None => "" end +:+ "]" +:+ lf +:+ lf
  else "".

(** What the callback collects. *)
Definition response_text (evs : list StreamEvent) : string :=
  String.concat "" ((λ ev, if bool_decide (sev_Type ev = "text_delta") then sev_Content ev else "") <$> evs).

Definition reply_of (evs : list StreamEvent) : string :=
  let resp := trim_space (response_text evs) in if str_empty resp then "(no response)" else resp.

(** The context of a stream with its [sync.Once]. *)
Record stream_ctx := { sc_once : bool; sc_done : bool }.
Definition once_cancel (c : stream_ctx) : stream_ctx := if sc_once c then c else {| sc_once := true; sc_done := true |}.

Definition error_note (sigint done_after : bool) (streamErr : option direct_error) : list string :=
  let c := {| sc_once := false; sc_done := false |} in
  let c := if sigint then once_cancel c else c in
  let c := once_cancel c in
  match streamErr with
  | None => []
  | Some e =>
      if sc_done c && negb done_after then [lf +:+ "(interrupted)" +:+ lf +:+ lf]
      else [lf +:+ "[error: " +:+ direct_error_text e +:+ "]" +:+ lf +:+ lf]
  end.

(** ** The commands *)

Record repl := { rp_agent : string; rp_session : string; rp_history : historyRing }.

Definition help_text : string :=
  join ["Commands:"; "  /help            Show this help message"; "  /agents          List available agents";
        "  /switch <id>     Switch to a different agent"; "  /session new     Start a new session";
        "  /session info    Show current session info"; "  /history         Show recent conversation history";
        "  /clear           Clear the screen"; "  /model           Show the current agent's model";
        "  /status          Show system status"; "  /exit, /quit     Exit the REPL"] lf.

Definition clear_screen : string := let esc := String (Ascii.ascii_of_nat 27) "" in esc +:+ "[H" +:+ esc +:+ "[2J".

Definition or_text (s other : string) : string := if str_empty s then other else s.
Definition println (s : string) : string := s +:+ lf.
Definition show_nat (n : nat) : string := pretty (Z.of_nat n).

Section repl.
Context `{U : UnicodeCase} {S Runner : Type} `{SessionService S}.
Context (Run : Runner → string → string → Content → S → S * list (result goerror (option RunEvent)) * bool).
Context (range : gmap string any → list (string * any)).
Context (function_call : Part → option (string * list (string * jany))).
Context (al : @AgentLoop Runner) (appName tenantID userID : string).

Definition switch_session (target uuid : string) : string :=
  "agent:" +:+ tenantID +:+ ":" +:+ userID +:+ ":" +:+ target +:+ ":" +:+ cut_at uuid 8.
Definition new_session (uuid : string) : string := "agent:" +:+ tenantID +:+ ":" +:+ userID +:+ ":" +:+ cut_at uuid 8.

Definition agent_line (active id : string) (entry : AgentEntry Runner) : string :=
  println ("  " +:+ (if bool_decide (id = active) then "*" else " ") +:+ " " +:+ pad16 id +:+ " "
           +:+ or_text (def_Name (ent_Config entry)) id +:+ " - " +:+ or_text (def_Description (ent_Config entry)) "(no description)").

Definition history_lines (entries : list historyEntry) : list string :=
  imap (λ i e, println ("[" +:+ show_nat (i + 1) +:+ "] You: " +:+ truncate (he_User e) 80)
               +:+ println ("    Bot: " +:+ truncate (he_Assistant e) 80)) entries.

(** Whether the loop ends, the state after the command and what it prints. *)
Definition handleSlashCommand (p : prompt) (line : string) (st : repl) : bool * repl * list string :=
  let reg := al_registry al in
  let print out := (false, st, out) in
  let say text := print [println text] in
  let '(cmd, args) := match Fields line with [] => (""%string, []) | cmd :: args => (cmd, args) end in
  if bool_decide (cmd = "/exit") || bool_decide (cmd = "/quit") then (true, st, [println "bye"])
  else if bool_decide (cmd = "/help") then say help_text
  else if bool_decide (cmd = "/agents") then
    match ListAgents reg (pr_order p) with
    | [] => say "(no agents registered)"
    | ids => print (println "Available agents:" :: omap (λ id, agent_line (rp_agent st) id <$> GetEntry reg id) ids)
    end
  else if bool_decide (cmd = "/switch") then
    match args with
    | [] => say "Usage: /switch <agent-id>"
    | target :: _ =>
        match GetEntry reg target with
        | None => print [println ("Unknown agent: " +:+ target); println ("Available: " +:+ join (ListAgents reg (pr_order p)) ", ")]
        | Some _ =>
            (false, {| rp_agent := target; rp_session := switch_session target (pr_uuid p); rp_history := rp_history st |},
             [println ("Switched to agent: " +:+ target +:+ " (new session)")])
        end
    end
  else if bool_decide (cmd = "/session") then
    match args with
    | [] => say "Usage: /session new | /session info"
    | what :: _ =>
        if bool_decide (what = "new") then
          let key := new_session (pr_uuid p) in
          (false, {| rp_agent := rp_agent st; rp_session := key; rp_history := rp_history st |}, [println ("New session started: " +:+ key)])
        else if bool_decide (what = "info") then
          say ("Tenant:  " +:+ tenantID +:+ lf +:+ "User:    " +:+ userID +:+ lf
               +:+ "Agent:   " +:+ or_text (rp_agent st) "(auto-routed)" +:+ lf
               +:+ "Session: " +:+ or_text (rp_session st) ("(auto: " +:+ tenantID +:+ ":" +:+ userID +:+ ":agent)"))
        else say "Usage: /session new | /session info"
    end
  else if bool_decide (cmd = "/history") then
    match history_list (rp_history st) with [] => say "(no history)" | entries => print (history_lines entries) end
  else if bool_decide (cmd = "/clear") then print [clear_screen]
  else if bool_decide (cmd = "/model") then
    let agentID := if str_empty (rp_agent st) then match ListAgents reg (pr_order p) with id :: _ => id | [] => rp_agent st end else rp_agent st in
    if str_empty agentID then say "(no agents registered)"
    else match GetEntry reg agentID with
         | None => say ("Agent not found: " +:+ agentID)
         | Some entry => say ("Agent: " +:+ agentID +:+ lf +:+ "Model: " +:+ or_text (def_Model (ent_Config entry)) "(not set)")
         end
  else if bool_decide (cmd = "/status") then
    say ("App:     " +:+ appName +:+ lf +:+ "Agents:  " +:+ show_nat (length (ListAgents reg (pr_order p))) +:+ " registered" +:+ lf
         +:+ "Active:  " +:+ or_text (rp_agent st) "(auto-routed)" +:+ lf +:+ "Session: " +:+ or_text (rp_session st) "(auto)" +:+ lf
         +:+ "Tenant:  " +:+ tenantID +:+ lf +:+ "User:    " +:+ userID)
  else say ("Unknown command: " +:+ cmd +:+ " (type /help for available commands)").

(** ** The loop *)

(** What a run did, in order: texts it printed and messages it sent, with the events it was
    given for each. *)
Inductive act := Printed (s : string) | Sent (msg : InboundMessage) (evs : list StreamEvent) (err : option direct_error).

(** Another prompt is awaited, the loop returned, with an error or without, or a panic. *)
Inductive repl_end := ReplWaits | ReplReturned (e : option goerror) | ReplPanicked.

Definition repl_message (line : string) (st : repl) : InboundMessage :=
  {| in_Channel := "agent"; in_TenantID := tenantID; in_UserID := userID; in_SenderID := ""; in_ChatID := "direct"; in_Content := line;
     in_Media := []; in_Metadata := ∅; in_SessionKey := rp_session st; in_AgentID := rp_agent st; in_Timestamp := time_zero |}.

(** A message: what the stream does, and the turn that is remembered. *)
Definition converse (p : prompt) (line : string) (st : repl) (s : S) : option (S * repl * list act) :=
  let msg := repl_message line st in
  '(s, evs, err, _) ← ProcessDirectStream Run range function_call al (pr_order p) (pr_order2 p) msg s;
  let turn := {| he_User := line; he_Assistant := reply_of evs |} in
  Some (s, {| rp_agent := rp_agent st; rp_session := rp_session st; rp_history := history_push turn (rp_history st) |},
        Printed lf :: Sent msg evs err :: (Printed <$> (show_event <$> evs) ++ error_note (pr_sigint p) (pr_done_after p) err)).

(** [skip] prompts were read by [readMultiline]. *)
Fixpoint repl_loop (skip : nat) (ps : list prompt) (st : repl) (s : S) : S * repl * list act * repl_end :=
  match ps with
  | [] => (s, st, [], ReplWaits)
  | p :: ps =>
      match skip with
      | Datatypes.S skip => repl_loop skip ps st s
      | O =>
          let finish out e := (s, st, Printed <$> out, ReplReturned e) in
          let deal skip line :=
            if has_prefix line "/" then
              let '(exit, st, out) := handleSlashCommand p line st in
              if exit then (s, st, Printed <$> out, ReplReturned None)
              else let '(s, st, acts, e) := repl_loop skip ps st s in (s, st, (Printed <$> out) ++ acts, e)
            else
              match converse p line st s with
              | None => (s, st, [], ReplPanicked)
              | Some (s, st, acts) => let '(s, st, acts', e) := repl_loop skip ps st s in (s, st, acts ++ acts', e)
              end in
          if pr_done p then finish [] None
          else
            match pr_read p with
            | ReadInterrupt | ReadEOF => finish [println "bye"] None
            | ReadErr e => finish [] (Some (ErrText ("readline: " +:+ error_text e)))
            | ReadLine raw =>
                let line := trim_space raw in
                if str_empty line then repl_loop 0 ps st s
                else if bool_decide (line = "exit") || bool_decide (line = "quit") then finish [println "bye"] None
                else if isMultilineStart line then
                  match readMultiline line ps with
                  | None => (s, st, [], ReplWaits)
                  | Some (None, n) => repl_loop n ps st s
                  | Some (Some full, n) => deal n full
                  end
                else deal 0%nat line
            end
      end
  end.

Definition new_repl : repl := {| rp_agent := ""; rp_session := ""; rp_history := newHistoryRing 20 |}.

Definition agentREPL (ps : list prompt) (s : S) : S * repl * list act * repl_end :=
  let '(s, st, acts, e) := repl_loop 0 ps new_repl s in
  (s, st, Printed (println "abot agent mode (type /help for commands, exit/quit to leave)") :: acts, e).

(** The loop of [abot-agent]; it does not log the errors. *)
Definition runREPL (ps : list prompt) (s : S) : S * repl * list act * repl_end := agentREPL ps s.
End repl.

(** ** The ring remembers the last turns *)

Definition last_n {A} (n : nat) (l : list A) : list A := drop (length l - n) l.

Lemma last_n_snoc {A} n (l : list A) x : (n ≤ length l)%nat → (0 < n)%nat → last_n n (l ++ [x]) = drop 1 (last_n n l) ++ [x].
Proof.
  intros Hl Hn. unfold last_n. rewrite length_app, drop_drop. cbn [length].
  rewrite drop_app_le by lia. f_equal. f_equal. lia.
Qed.

Lemma last_n_all {A} n (l : list A) : (length l ≤ n)%nat → last_n n l = l.
Proof. intros Hl. unfold last_n. replace (length l - n)%nat with 0%nat by lia. apply drop_0. Qed.

(** A ring that was given the turns [es]. *)
Definition ring_of (n : nat) (es : list historyEntry) (h : historyRing) : Prop :=
  hr_size h = n ∧ length (hr_entries h) = n ∧ (hr_pos h < n)%nat ∧ history_list h = last_n n es
  ∧ if hr_full h then (n ≤ length es)%nat else hr_pos h = length es.

Lemma ring_new n : (0 < n)%nat → ring_of n [] (newHistoryRing n).
Proof. intros Hn. split_and!; cbn; [done|by rewrite length_replicate|done| |done]. unfold last_n. by rewrite drop_nil. Qed.

Lemma ring_push n es h e : (0 < n)%nat → ring_of n es h → ring_of n (es ++ [e]) (history_push e h).
Proof.
  intros Hn (Hsize & Hlen & Hpos & Hlist & Hfull). unfold ring_of, history_push. cbn. rewrite Hsize, length_insert.
  assert ((hr_pos h + 1) mod n < n)%nat by (apply Nat.mod_upper_bound; lia).
  assert (drop (hr_pos h + 1) (<[hr_pos h:=e]> (hr_entries h)) = drop (hr_pos h + 1) (hr_entries h)) as Hdrop by (by rewrite drop_insert_lt by lia).
  assert (take (hr_pos h + 1) (<[hr_pos h:=e]> (hr_entries h)) = take (hr_pos h) (hr_entries h) ++ [e]) as Htake.
  { rewrite Nat.add_1_r. rewrite (take_S_r _ _ e) by (apply list_lookup_insert_eq; lia). by rewrite take_insert_ge by lia. }
  unfold history_list in *. cbn. destruct (hr_full h) eqn:Hf; cbn in *.
  - split_and!; [done|done|done| |rewrite length_app; lia]. rewrite last_n_snoc by lia. rewrite <- Hlist.
    destruct (decide (hr_pos h + 1 = n)%nat) as [Heq|Hne].
    + rewrite Heq, Nat.Div0.mod_same, drop_0. cbn. rewrite app_nil_r.
      rewrite <- (take_drop (hr_pos h + 1) (<[hr_pos h:=e]> (hr_entries h))) at 1. rewrite Htake, Hdrop.
      rewrite (drop_ge _ (hr_pos h + 1)) by lia. rewrite app_nil_r. f_equal.
      rewrite drop_app_le by (rewrite length_drop; lia). rewrite drop_drop, drop_ge by lia. done.
    + rewrite Nat.mod_small by lia. rewrite Hdrop, Htake, app_assoc. f_equal.
      rewrite drop_app_le by (rewrite length_drop; lia). rewrite drop_drop. done.
  - rewrite length_app. cbn. assert (length es < n)%nat by lia. rewrite last_n_all in Hlist by lia.
    destruct (decide (hr_pos h + 1 = n)%nat) as [Heq|Hne].
    + rewrite Heq, Nat.Div0.mod_same. cbn. split_and!; [done|done|lia| |lia]. rewrite drop_0, app_nil_r.
      rewrite last_n_all by (rewrite length_app; cbn; lia).
      rewrite <- (take_drop (hr_pos h + 1) (<[hr_pos h:=e]> (hr_entries h))). rewrite Htake, Hdrop, Hlist.
      rewrite drop_ge by lia. by rewrite app_nil_r.
    + rewrite Nat.mod_small by lia. assert ((hr_pos h + 1 =? 0)%nat = false) as -> by (apply Nat.eqb_neq; lia). cbn.
      split_and!; [done|done|lia| |lia]. rewrite Htake, Hlist. rewrite last_n_all by (rewrite length_app; cbn; lia). done.
Qed.

(** ** Blocks of lines *)

Definition reads_line (p : prompt) (line : string) : Prop := pr_read p = ReadLine line.

Lemma read_fenced_block mark lines ps ls p last rest :
  Forall2 reads_line ps ls → Forall (λ l, has_suffix l mark = false ∧ l ≠ mark) ls → reads_line p last → has_suffix last mark = true →
  read_fenced mark lines (ps ++ p :: rest)
  = Some (Some (lines ++ ls ++ if str_empty (trim_suffix last mark) then [] else [trim_suffix last mark]), length ls + 1)%nat.
Proof.
  intros Hps Hls Hp Hlast. revert lines. induction Hps as [|q l ps ls Hq Hps IH]; intros lines; cbn [app read_fenced].
  - rewrite Hp, Hlast, orb_true_r. cbn. by destruct (str_empty _); rewrite ?app_nil_r.
  - apply Forall_cons in Hls as [[Hno Hne] Hls]. rewrite Hq, Hno, bool_decide_false by done. cbn [orb].
    rewrite IH by done. cbn. by rewrite <- app_assoc.
Qed.

Lemma read_continued_block lines ps ls p last rest :
  Forall2 (λ p l, reads_line p (l +:+ backslash)) ps ls → reads_line p last → has_suffix last backslash = false →
  read_continued lines (ps ++ p :: rest) = Some (Some (lines ++ ls ++ [last]), length ls + 1)%nat.
Proof.
  intros Hps Hp Hlast. revert lines. induction Hps as [|q l ps ls Hq Hps IH]; intros lines; cbn [app read_continued].
  - by rewrite Hp, Hlast.
  - rewrite Hq. assert (∀ x, strip_prefix (reverse (s2l backslash)) (reverse (s2l (x +:+ backslash))) = Some (reverse (s2l x))) as Hs.
    { intros x. apply strip_prefix_Some. by rewrite s2l_app, reverse_app. }
    unfold has_suffix at 1, trim_suffix. rewrite Hs. rewrite IH by done. cbn. rewrite reverse_involutive, l2s_s2l, <- app_assoc. done.
Qed.

(** The ring lists the last [n] of the turns given to it, oldest first. *)
Theorem history_keeps_last n es : (0 < n)%nat → history_list (foldl (flip history_push) (newHistoryRing n) es) = last_n n es.
Proof.
  intros Hn. enough (ring_of n es (foldl (flip history_push) (newHistoryRing n) es)) as (_ & _ & _ & Hl & _) by exact Hl.
  induction es as [|e es IH] using rev_ind; [by apply ring_new|]. rewrite foldl_app. by apply ring_push.
Qed.

(** ** A whole run *)

Section confined.
Context `{U : UnicodeCase} {S Runner : Type} `{SessionService S} `{!SessionLaws S}.
Context (Run : Runner → string → string → Content → S → S * list (result goerror (option RunEvent)) * bool).
Context (range : gmap string any → list (string * any)).
Context (function_call : Part → option (string * list (string * jany))).
Context (al : @AgentLoop Runner) (appName tenantID userID : string).

Abbreviation command := (handleSlashCommand al appName tenantID userID).
Abbreviation loop := (repl_loop Run range function_call al appName tenantID userID).

Definition agent_known (id : string) : Prop := id = ""%string ∨ is_Some (GetEntry (al_registry al) id).

(** A session that one of the prompts began, or the one that is chosen by the route. *)
Definition session_own (ps : list prompt) (key : string) : Prop :=
  key = ""%string ∨ ∃ p, p ∈ ps ∧ (key = new_session tenantID userID (pr_uuid p)
    ∨ ∃ target, is_Some (GetEntry (al_registry al) target) ∧ key = switch_session tenantID userID target (pr_uuid p)).

Definition repl_ok (ps : list prompt) (st : repl) : Prop := agent_known (rp_agent st) ∧ session_own ps (rp_session st).

Definition sent_ok (ps : list prompt) (a : act) : Prop :=
  match a with
  | Printed _ => True
  | Sent msg evs err =>
      in_TenantID msg = tenantID ∧ in_UserID msg = userID ∧ agent_known (in_AgentID msg) ∧ session_own ps (in_SessionKey msg)
      ∧ well_ended evs err
  end.

Definition turn_of (a : act) : option historyEntry :=
  match a with Printed _ => None | Sent msg evs _ => Some {| he_User := in_Content msg; he_Assistant := reply_of evs |} end.

Lemma command_ok ps p line st : p ∈ ps → repl_ok ps st →
  repl_ok ps (command p line st).1.2 ∧ rp_history (command p line st).1.2 = rp_history st.
Proof.
  intros Hp Hok. unfold handleSlashCommand. destruct (Fields line) as [|cmd args];
    repeat (case_match; try (by split)); (split; [|done]); destruct Hok as [Ha Hs]; split; cbn; try done.
  all: try (right; by eexists). all: right; exists p; split; [done|]; first [by left|right; eexists; split; [by eexists|done]].
Qed.

Definition others_untouched (s s' : S) : Prop := ∀ u k, u ≠ userID → svc_Get u k s' = svc_Get u k s.

Lemma turns_printed {M} (f : M → string) (l : list M) : omap turn_of (Printed <$> (f <$> l)) = [].
Proof. induction l; [done|]. cbn. done. Qed.
Lemma sent_printed ps (l : list string) : Forall (sent_ok ps) (Printed <$> l).
Proof. by apply Forall_fmap, Forall_true. Qed.
Lemma omap_printed (l : list string) : omap turn_of (Printed <$> l) = [].
Proof. induction l; [done|]. cbn. done. Qed.

Lemma converse_ok ps p line st s :
  run_own Run → run_calm Run → repl_ok ps st →
  ∃ s' acts e, converse Run range function_call al tenantID userID p line st s
      = Some (s', {| rp_agent := rp_agent st; rp_session := rp_session st; rp_history := history_push e (rp_history st) |}, acts)
    ∧ Forall (sent_ok ps) acts ∧ omap turn_of acts = [e] ∧ others_untouched s s'.
Proof.
  intros Hrun Hcalm [Ha Hs]. unfold converse. set (msg := repl_message tenantID userID line st).
  destruct (stream_outcome Run range function_call al (pr_order p) (pr_order2 p) msg s Hrun Hcalm) as (s' & out & ret & errs & -> & Hw & _ & Ho).
  cbn [mbind option_bind]. eexists _, _, _. split; [reflexivity|]. split; [|split].
  - constructor; [done|]. constructor; [done|]. apply sent_printed.
  - cbn. by rewrite omap_printed.
  - intros u k Hu. apply Ho. cbn. congruence.
Qed.

(** What a run does from any state; [n] is the size of the ring, [es] the turns so far. *)
Lemma loop_ok all n es skip ps st s :
  run_own Run → run_calm Run → ps ⊆ all → repl_ok all st → (0 < n)%nat → ring_of n es (rp_history st) →
  let '(s', st', acts, e) := loop skip ps st s in
  repl_ok all st' ∧ Forall (sent_ok all) acts ∧ ring_of n (es ++ omap turn_of acts) (rp_history st') ∧ others_untouched s s' ∧ e ≠ ReplPanicked.
Proof.
  intros Hrun Hcalm Hsub Hok Hn Hring. revert es skip st s Hsub Hok Hring. induction ps as [|p ps IH]; intros es skip st s Hsub Hok Hring; cbn [repl_loop].
  { split_and!; try done. by rewrite app_nil_r. }
  assert (p ∈ all) as Hp by (apply Hsub; by left). assert (ps ⊆ all) as Hsub' by (intros x Hx; apply Hsub; by right). clear Hsub. rename Hsub' into Hsub.
  destruct skip as [|skip]; [|by apply IH].
  assert (∀ out e, e ≠ ReplPanicked → repl_ok all st ∧ Forall (sent_ok all) (Printed <$> out)
      ∧ ring_of n (es ++ omap turn_of (Printed <$> out)) (rp_history st) ∧ others_untouched s s ∧ e ≠ ReplPanicked) as Hfinish.
  { intros out e He. rewrite omap_printed, app_nil_r. split_and!; try done. apply sent_printed. }
  assert (∀ skip line, let '(s', st', acts, e) :=
      (if has_prefix line "/" then
         let '(exit, st, out) := command p line st in
         if exit then (s, st, Printed <$> out, ReplReturned None)
         else let '(s, st, acts, e) := loop skip ps st s in (s, st, (Printed <$> out) ++ acts, e)
       else match converse Run range function_call al tenantID userID p line st s with
            | None => (s, st, [], ReplPanicked)
            | Some (s, st, acts) => let '(s, st, acts', e) := loop skip ps st s in (s, st, acts ++ acts', e)
            end) in
      repl_ok all st' ∧ Forall (sent_ok all) acts ∧ ring_of n (es ++ omap turn_of acts) (rp_history st') ∧ others_untouched s s' ∧ e ≠ ReplPanicked) as Hdeal.
  { intros skip line. destruct (has_prefix line "/").
    - destruct (command_ok all p line st Hp Hok) as [Hok' Hhist]. destruct (command p line st) as [[exit st1] out]. cbn in Hok', Hhist.
      destruct exit.
      + rewrite omap_printed, app_nil_r, Hhist. split_and!; try done. apply sent_printed.
      + specialize (IH es skip st1 s Hsub Hok'). rewrite Hhist in IH. specialize (IH Hring). destruct (loop skip ps st1 s) as [[[s2 st2] acts] e].
        destruct IH as (? & ? & ? & ? & ?). rewrite omap_app, omap_printed. cbn. split_and!; try done. apply Forall_app. split; [apply sent_printed|done].
    - destruct (converse_ok all p line st s Hrun Hcalm Hok) as (s1 & acts & e & -> & Hsent & Hturn & Ho1).
      set (st1 := {| rp_agent := _ |}). specialize (IH (es ++ [e]) skip st1 s1 Hsub). cbn in IH.
      specialize (IH ltac:(destruct Hok; by split) ltac:(by apply ring_push)). destruct (loop skip ps st1 s1) as [[[s2 st2] acts2] e2].
      destruct IH as (? & ? & Hr2 & Ho2 & ?). rewrite omap_app, Hturn, app_assoc. split_and!; try done.
      + apply Forall_app. by split.
      + intros u k Hu. by rewrite Ho2, Ho1. }
  destruct (pr_done p); [by apply (Hfinish [])|]. destruct (pr_read p) as [raw| | |e]; [|by apply (Hfinish [_])|by apply (Hfinish [_])|by apply (Hfinish [])].
  destruct (str_empty _); [by apply IH|]. destruct (_ || _); [by apply (Hfinish [_])|].
  destruct (isMultilineStart _); [|apply Hdeal]. destruct (readMultiline _ _) as [[[full|] k]|]; [apply Hdeal|by apply IH|by apply (Hfinish [])].
Qed.

(** A terminal speaks for the tenant and the user it was started for: whatever is typed,
    every message carries both, names no agent or one that is registered, and belongs to the
    session of the route or to one that a command of this run began; no session of another
    user changes, and nothing panics, with a runner that works on its own session and never
    panics itself.  The history is that of the last twenty messages with their answers. *)
Theorem repl_confined ps s s' st' acts e :
  run_own Run → run_calm Run → agentREPL Run range function_call al appName tenantID userID ps s = (s', st', acts, e) →
  Forall (sent_ok ps) acts ∧ others_untouched s s' ∧ e ≠ ReplPanicked
  ∧ history_list (rp_history st') = last_n 20 (omap turn_of acts).
Proof.
  intros Hrun Hcalm Hr. unfold agentREPL in Hr.
  pose proof (loop_ok ps 20 [] 0 ps new_repl s Hrun Hcalm ltac:(done) ltac:(by split; left) ltac:(lia) ltac:(apply ring_new; lia)) as Hl.
  destruct (repl_loop _ _ _ _ _ _ _ 0 ps new_repl s) as [[[s1 st1] acts1] e1]. injection Hr as <- <- <- <-.
  destruct Hl as (_ & Hsent & (_ & _ & _ & Hlist & _) & Ho & He). split_and!; try done. by constructor.
Qed.

(** An error of a stream is shown as an interruption, and not told, unless the context of
    the program is done: the context of the stream is cancelled before it is looked at. *)
Theorem errors_look_interrupted sigint err : error_note sigint false (Some err) = [lf +:+ "(interrupted)" +:+ lf +:+ lf].
Proof. by destruct sigint. Qed.
End confined.

(** ** Examples *)

Definition w_prompt (r : read) : prompt :=
  {| pr_done := false; pr_read := r; pr_order := ["a"]; pr_order2 := ["a"]; pr_uuid := "0123456789"; pr_sigint := false; pr_done_after := false |}.
Definition w_prompts : list prompt :=
  w_prompt ∘ ReadLine <$> ["/switch a"; "hello"; quotes +:+ "one"; "two" +:+ quotes; "/exit"].

Definition w_repl := agentREPL (U := bytewise_case) w_calm map_to_list (λ _, None) (w_loop 0) "abot" "t" "u" w_prompts w_empty.

Lemma repl_confined_witness :
  history_list (rp_history w_repl.1.1.2)
  = [{| he_User := "hello"; he_Assistant := "hi" |}; {| he_User := "one" +:+ lf +:+ "two"; he_Assistant := "hi" |}].
Proof.
  destruct (repl_confined (U := bytewise_case) w_calm map_to_list (λ _, None) (w_loop 0) "abot" "t" "u" w_prompts w_empty
    w_repl.1.1.1 w_repl.1.1.2 w_repl.1.2 w_repl.2 w_calm_own w_calm_calm) as (_ & _ & _ & ->).
  - unfold w_repl. destruct (agentREPL _ _ _ _ _ _ _ _ _) as [[[? ?] ?] ?]. reflexivity.
  - vm_compute. reflexivity.
Defined.
