(* ===== verification/VectorDB.v ===== *)
(** [pkg/storage/vectordb]: the client of the vector database Qdrant, the memory service on
    it and the client for embeddings.

    The database is a class of the requests the client makes, with what its documentation
    says of them as laws; a fake of it is an instance.  The client is an instance of
    the interface [EntryStore], against which the memory service is stated.  A value of a
    payload keeps its dynamic type, since the client tells [int] from [int64]. *)
From stdpp Require Import pretty.
From S2P Require Import Prelude GoStrings Floats Types Pruning.
From S2P Require Consolidation.

(** ** Values *)

Inductive goval := GStr (s : string) | GFloat (x : float64) | GInt (z : Z) | GInt64 (z : Z) | GBool (b : bool) | GOther.
Inductive qvalue := QString (s : string) | QDouble (x : float64) | QInteger (z : Z) | QBool (b : bool) | QOther.

Abbreviation gpayload := (gmap string goval).
Abbreviation qpayload := (gmap string qvalue).

Definition to_qvalue (v : goval) : option qvalue :=
  match v with
  | GStr s => Some (QString s) | GFloat x => Some (QDouble x) | GInt z => Some (QInteger z) | GBool b => Some (QBool b)
  | GInt64 _ | GOther => None
  end.
Definition from_qvalue (v : qvalue) : option goval :=
  match v with
  | QString s => Some (GStr s) | QDouble x => Some (GFloat x) | QInteger z => Some (GInt64 z) | QBool b => Some (GBool b)
  | QOther => None
  end.
Definition toQdrantPayload (m : gpayload) : qpayload := omap to_qvalue m.
Definition fromQdrantPayload (m : qpayload) : gpayload := omap from_qvalue m.

(** A condition of a filter: a field and the value it has. *)
Inductive qmatch := MatchKeyword (s : string) | MatchBoolean (b : bool).
Definition qcond : Type := string * qmatch.

Definition to_cond (kv : string * goval) : option qcond :=
  match kv.2 with GStr s => Some (kv.1, MatchKeyword s) | GBool b => Some (kv.1, MatchBoolean b) | _ => None end.

(** [range] is an order of the map. *)
Definition buildFilter (range : gpayload → list (string * goval)) (m : gpayload) : option (list qcond) :=
  if bool_decide (m = ∅) then None else Some (omap to_cond (range m)).

Definition uint64 (z : Z) : Z := z `mod` 2 ^ 64.

(** ** The database *)

Record scored (Vec : Type) := { sc_Uuid : string; sc_Score : spec_float; sc_Payload : qpayload }.
Arguments sc_Uuid {_}. Arguments sc_Score {_}. Arguments sc_Payload {_}. Arguments Build_scored {_}.

Class Qdrant (Q Vec : Type) := {
  q_get : string → Q → option goerror;
  q_create : string → Z → Q → Q * option goerror;
  q_upsert : string → list (string * (Vec * qpayload)) → Q → Q * option goerror;
  q_search : string → Vec → Z → option (list qcond) → Q → result goerror (list (scored Vec));
  q_delete : string → option (list qcond) → Q → Q * option goerror;
  q_set_payload : string → list qcond → qpayload → Q → Q * option goerror;
  (* the point with an identifier in a collection once all acknowledged writes are applied,
     what a search may see of it before that, and the texts that are identifiers *)
  q_point : string → string → Q → option (Vec * qpayload);
  q_seen : string → string → Q → option (Vec * qpayload) → Prop;
  uuid_ok : string → bool;
  (* what a collection with the cosine distance keeps of a vector: it is normalised *)
  q_normal : Vec → Vec;
}.

(** Whether a field that has one value is the value of a condition. *)
Definition cond_holds (p : qpayload) (c : qcond) : Prop :=
  p !! c.1 = Some match c.2 with MatchKeyword s => QString s | MatchBoolean b => QBool b end.

#[global] Instance qvalue_eq_dec : EqDecision qvalue.
Proof. intros [] []; try (right; congruence); try (left; reflexivity);
  match goal with |- Decision (_ ?a = _ ?b) => first [destruct (decide (a = b)) | destruct (spec_float_eq_dec a b)]; [left|right]; congruence end. Defined.
#[global] Instance goval_eq_dec : EqDecision goval.
Proof. intros [] []; try (right; congruence); try (left; reflexivity);
  match goal with |- Decision (_ ?a = _ ?b) => first [destruct (decide (a = b)) | destruct (spec_float_eq_dec a b)]; [left|right]; congruence end. Defined.
#[global] Instance cond_holds_dec p c : Decision (cond_holds p c).
Proof. unfold cond_holds. apply _. Defined.

(** The points that an upsert of [pts] leaves in its collection. *)
Definition put_points `{Qdrant Q Vec} (pts : list (string * (Vec * qpayload))) (id : string) (old : option (Vec * qpayload)) : option (Vec * qpayload) :=
  match (list_to_map (reverse pts) : gmap string (Vec * qpayload)) !! id with
  | Some vp => Some (q_normal vp.1, vp.2)
  | None => old
  end.

(** Every field has one value. *)
Definition scalar_payload (p : qpayload) : Prop := map_Forall (λ _ v, v ≠ QOther) p.

(** What the documentation says: the calls do not wait, so an acknowledged write is applied
    later, in the order of the writes, and a search may see a point as it was before. *)
Class QdrantLaws (Q Vec : Type) `{Qdrant Q Vec} := {
  point_seen c id q : q_seen c id q (q_point c id q);
  create_seen coll d q c id x : q_seen c id (q_create coll d q).1 x → q_seen c id q x;
  upsert_seen coll pts q q' r c id x : q_upsert coll pts q = (q', r) → q_seen c id q' x → q_seen c id q x ∨ x = q_point c id q';
  delete_seen coll f q q' r c id x : q_delete coll f q = (q', r) → q_seen c id q' x → q_seen c id q x ∨ x = q_point c id q';
  set_payload_seen coll f p q q' r c id x : q_set_payload coll f p q = (q', r) → q_seen c id q' x → q_seen c id q x ∨ x = q_point c id q';
  create_points coll d q c id : q_point c id (q_create coll d q).1 = q_point c id q;
  upsert_points coll pts q q' c id : q_upsert coll pts q = (q', None) →
    q_point c id q' = if bool_decide (c = coll) then put_points pts id (q_point c id q) else q_point c id q;
  upsert_failed coll pts q q' e c id : q_upsert coll pts q = (q', Some e) →
    q_point c id q' = q_point c id q ∨ c = coll ∧ q_point c id q' = put_points pts id (q_point c id q);
  upsert_bad_id coll pts q : existsb (λ pt, negb (uuid_ok pt.1)) pts = true →
    (∃ e, (q_upsert coll pts q).2 = Some e) ∧ ∀ c id, q_point c id (q_upsert coll pts q).1 = q_point c id q;
  search_found coll v limit f q l r : q_search coll v limit f q = Ok l → r ∈ l →
    ∃ v', q_seen coll (sc_Uuid r) q (Some (v', sc_Payload r))
      ∧ (scalar_payload (sc_Payload r) → Forall (cond_holds (sc_Payload r)) (default [] f));
  delete_points coll f q q' c id vp : q_delete coll (Some f) q = (q', None) → q_point c id q = Some vp → scalar_payload vp.2 →
    q_point c id q' = if bool_decide (c = coll ∧ Forall (cond_holds vp.2) f) then None else Some vp;
  delete_new coll f q q' c id : q_delete coll f q = (q', None) → q_point c id q = None → q_point c id q' = None;
  set_payload_points coll f p q q' c id vp : q_set_payload coll f p q = (q', None) → q_point c id q = Some vp → scalar_payload vp.2 →
    q_point c id q' = if bool_decide (c = coll ∧ Forall (cond_holds vp.2) f) then Some (vp.1, p ∪ vp.2) else Some vp;
}.

(** ** store.go *)

Record VectorEntry (Vec : Type) := { ve_ID : string; ve_Vector : Vec; ve_Payload : gpayload }.
Record SearchHit := { sh_ID : string; sh_Score : spec_float; sh_Payload : gpayload }.
Arguments ve_ID {_}. Arguments ve_Vector {_}. Arguments ve_Payload {_}. Arguments Build_VectorEntry {_}.

Section store.
Context {Q Vec : Type} `{Qdrant Q Vec} (range : gpayload → list (string * goval)) (dimension : Z).

Definition EnsureCollection (coll : string) (q : Q) : Q * option goerror :=
  match q_get coll q with None => (q, None) | Some _ => q_create coll (uint64 dimension) q end.

Definition to_point (e : VectorEntry Vec) : string * (Vec * qpayload) := (ve_ID e, (ve_Vector e, toQdrantPayload (ve_Payload e))).

Definition Upsert (coll : string) (entries : list (VectorEntry Vec)) (q : Q) : Q * option goerror :=
  q_upsert coll (to_point <$> entries) q.

Definition from_hit (r : scored Vec) : SearchHit :=
  {| sh_ID := sc_Uuid r; sh_Score := sc_Score r; sh_Payload := fromQdrantPayload (sc_Payload r) |}.

Definition Search (coll : string) (vec : Vec) (filter : gpayload) (topK : Z) (q : Q) : result goerror (list SearchHit) :=
  match q_search coll vec (uint64 topK) (buildFilter range filter) q with
  | Err e => Err e
  | Ok l => Ok (from_hit <$> l)
  end.

Definition Delete (coll : string) (filter : gpayload) (q : Q) : Q * option goerror := q_delete coll (buildFilter range filter) q.

Definition UpdatePayload (coll : string) (filter payload : gpayload) (q : Q) : Q * option goerror :=
  match buildFilter range filter with
  | None => (q, Some (ErrText "UpdatePayload requires a non-empty filter"))
  | Some f => q_set_payload coll f (toQdrantPayload payload) q
  end.
End store.

(** ** The interface of the store *)

Class EntryStore (St Vec : Type) := {
  es_Ensure : string → St → St * option goerror;
  es_Upsert : string → list (VectorEntry Vec) → St → St * option goerror;
  es_Search : string → Vec → gpayload → Z → St → result goerror (list SearchHit);
  es_point : string → string → St → option (Vec * gpayload);
  es_seen : string → string → St → option (Vec * gpayload) → Prop;
  es_normal : Vec → Vec;
  (* what holds of the points of every state that is reached through the store *)
  es_ok : St → Prop;
}.

(** The values of which nothing is lost, and the part of a filter that is looked at. *)
Definition kept_value (v : goval) : bool := match v with GStr _ | GFloat _ | GBool _ => true | _ => false end.
Definition filter_value (v : goval) : bool := match v with GStr _ | GBool _ => true | _ => false end.
Definition kept_payload (p : gpayload) : Prop := map_Forall (λ _ v, kept_value v = true) p.
Definition looked_at (f : gpayload) : gpayload := filter (λ kv, filter_value kv.2 = true) f.

Class EntryLaws (St Vec : Type) `{EntryStore St Vec} := {
  ensure_kept coll s c id : es_point c id (es_Ensure coll s).1 = es_point c id s;
  ensure_ok coll s : es_ok s → es_ok (es_Ensure coll s).1;
  upsert_ok coll es s : es_ok s → es_ok (es_Upsert coll es s).1;
  upsert_stores coll es s s' e : es_Upsert coll es s = (s', None) → NoDup (ve_ID <$> es) → e ∈ es → kept_payload (ve_Payload e) →
    es_point coll (ve_ID e) s' = Some (es_normal (ve_Vector e), ve_Payload e);
  upsert_keeps coll es s s' c id : es_Upsert coll es s = (s', None) → c ≠ coll ∨ id ∉ (ve_ID <$> es) → es_point c id s' = es_point c id s;
  hits_are_points coll v f k s l r : es_ok s → es_Search coll v f k s = Ok l → r ∈ l →
    (∃ v', es_seen coll (sh_ID r) s (Some (v', sh_Payload r))) ∧ looked_at f ⊆ sh_Payload r;
}.

(** ** memory_service.go *)

Record memory_event := { mev_Content : option Content; mev_Timestamp : time }.
Record memory_session := {
  ses_AppName : string; ses_ID : string; ses_UserID : string; ses_State : gmap string any; ses_Events : list memory_event;
}.
Record SearchRequest := { srq_AppName : string; srq_UserID : string; srq_Query : string }.
Record memory_entry := { men_Text : string; men_Author : string; men_Timestamp : time }.

Definition CollectionName (tenantID : string) : string := "tenant_" +:+ tenantID.

Definition stateString (state : gmap string any) (key : string) : string :=
  match state !! key with Some (AStr s) => s | _ => "" end.

Definition ExtractEventText (ev : memory_event) : string :=
  match mev_Content ev with
  | None => ""
  | Some c => join (filter (λ t, t ≠ ""%string) (part_Text <$> ct_Parts c)) lf
  end.

(** The texts of a session with their times. *)
Definition session_chunks (s : memory_session) : list (string * time) :=
  omap (λ ev, let text := ExtractEventText ev in if str_empty text then None else Some (text, mev_Timestamp ev)) (ses_Events s).

Definition session_tenant (s : memory_session) : string :=
  let tenantID := stateString (ses_State s) "tenant_id" in if str_empty tenantID then ses_AppName s else tenantID.

Definition chunk_id (s : memory_session) (i : nat) : string :=
  ses_ID s +:+ "_" +:+ ses_UserID s +:+ "_" +:+ pretty (Z.of_nat i).

Section memory.
Context {St Vec W : Type} `{EntryStore St Vec} (Embed : list string → W → W * result goerror (list Vec)).
Context (rfc3339 : time → string) (parse_time : string → option time).

Definition chunk_payload (s : memory_session) (c : string * time) : gpayload :=
  <["text" := GStr c.1]> (<["user_id" := GStr (stateString (ses_State s) "user_id")]>
    (<["session_id" := GStr (ses_ID s)]> {[ "timestamp"%string := GStr (rfc3339 c.2) ]})).

(** The entries, [None] when there are fewer vectors than texts. *)
Fixpoint chunk_entries (s : memory_session) (i : nat) (chunks : list (string * time)) (vecs : list Vec) : option (list (VectorEntry Vec)) :=
  match chunks, vecs with
  | [], _ => Some []
  | c :: chunks, v :: vecs =>
      es ← chunk_entries s (S i) chunks vecs;
      Some ({| ve_ID := chunk_id s i; ve_Vector := v; ve_Payload := chunk_payload s c |} :: es)
  | _ :: _, [] => None
  end.

(** [None] is a panic. *)
Definition AddSession (s : memory_session) (st : St) (w : W) : option (St * W * option goerror) :=
  let col := CollectionName (session_tenant s) in
  match es_Ensure col st with
  | (st, Some e) => Some (st, w, Some e)
  | (st, None) =>
      match session_chunks s with
      | [] => Some (st, w, None)
      | chunks =>
          match Embed (fst <$> chunks) w with
          | (w, Err e) => Some (st, w, Some e)
          | (w, Ok vecs) =>
              entries ← chunk_entries s 0 chunks vecs;
              let '(st, err) := es_Upsert col entries st in Some (st, w, err)
          end
      end
  end.

Definition hit_memory (r : SearchHit) : option memory_entry :=
  match sh_Payload r !! "text"%string with
  | Some (GStr text) =>
      if str_empty text then None
      else let ts := match sh_Payload r !! "timestamp"%string with Some (GStr t) => t | _ => "" end in
           Some {| men_Text := text; men_Author := "memory"; men_Timestamp := default time_zero (parse_time ts) |}
  | _ => None
  end.

Definition search_filter (rq : SearchRequest) : gpayload :=
  if str_empty (srq_UserID rq) then ∅ else {[ "user_id"%string := GStr (srq_UserID rq) ]}.

Definition memory_Search (rq : SearchRequest) (st : St) (w : W) : option (W * result goerror (list memory_entry)) :=
  match Embed [srq_Query rq] w with
  | (w, Err e) => Some (w, Err e)
  | (_, Ok []) => None
  | (w, Ok (v :: _)) =>
      Some (w, match es_Search (CollectionName (srq_AppName rq)) v (search_filter rq) 10 st with
               | Err e => Err e
               | Ok results => Ok (omap hit_memory results)
               end)
  end.
End memory.

(** ** openai_embedder.go *)

Record OpenAIEmbedder := { oe_baseURL : string; oe_apiKey : string; oe_model : string; oe_dimension : Z }.

Section embedder.
Context {Vec W : Type} (http_post : string → string → string → W → W * result goerror (Z * string)).
(** The body for the texts and the model; the vectors of an answer. *)
Context (marshal : list string → string → string) (decode : string → result goerror (list Vec)).

Definition Embed (e : OpenAIEmbedder) (texts : list string) (w : W) : W * result goerror (list Vec) :=
  match http_post (oe_baseURL e +:+ "/embeddings") ("Bearer " +:+ oe_apiKey e) (marshal texts (oe_model e)) w with
  | (w, Err err) => (w, Err err)
  | (w, Ok (status, body)) =>
      (w, if negb (status =? 200) then Err (ErrText ("embedding API " +:+ pretty status +:+ ": " +:+ body)) else decode body)
  end.
End embedder.

(** ** What is stored and read back *)

Lemma read_back (m : gpayload) : fromQdrantPayload (toQdrantPayload m)
  = omap (λ v, match v with GInt z => Some (GInt64 z) | GInt64 _ | GOther => None | v => Some v end) m.
Proof. apply map_eq. intros k. unfold fromQdrantPayload, toQdrantPayload. rewrite !lookup_omap. by destruct (m !! k) as [[]|]. Qed.

Lemma kept_read_back m : kept_payload m → fromQdrantPayload (toQdrantPayload m) = m.
Proof.
  intros Hm. rewrite read_back. apply map_eq. intros k. rewrite lookup_omap. destruct (m !! k) as [v|] eqn:Hk; [|done].
  specialize (Hm k v Hk). by destruct v.
Qed.

(** An integer that is read and written again is lost. *)
Lemma integers_are_lost m k z : m !! k = Some (GInt z) →
  fromQdrantPayload (toQdrantPayload m) !! k = Some (GInt64 z)
  ∧ fromQdrantPayload (toQdrantPayload (fromQdrantPayload (toQdrantPayload m))) !! k = None.
Proof. intros Hk. by rewrite !read_back, !lookup_omap, Hk. Qed.

Lemma stored_scalar m : scalar_payload (toQdrantPayload m).
Proof. intros k v. unfold toQdrantPayload. rewrite lookup_omap. destruct (m !! k) as [[]|]; cbn; intros; by simplify_eq. Qed.

Section laws.
Context {Q Vec : Type} `{QdrantLaws Q Vec} (range : gpayload → list (string * goval)) (dimension : Z).
Hypothesis (Hrange : ∀ m, range m ≡ₚ map_to_list m).

(** What a filter asks of a point. *)
Lemma filter_conds (f : gpayload) (p : qpayload) :
  Forall (cond_holds p) (default [] (buildFilter range f)) ↔ looked_at f ⊆ fromQdrantPayload p.
Proof.
  assert (Forall (cond_holds p) (default [] (buildFilter range f)) ↔ ∀ k v, f !! k = Some v → filter_value v = true → fromQdrantPayload p !! k = Some v) as ->.
  - unfold buildFilter. case_bool_decide as Hf; cbn; [subst f; split; [intros _ k v; by rewrite lookup_empty|constructor]|].
    rewrite Forall_forall. split.
    + intros Hall k v Hk Hv. unfold fromQdrantPayload. rewrite lookup_omap. destruct v; try done; cbn in Hv.
      all: match goal with Hk : _ !! _ = Some ?v |- _ => assert ((k, v) ∈ range f) as Hin by (rewrite Hrange; by apply elem_of_map_to_list) end.
      * assert (cond_holds p (k, MatchKeyword s)) as Hc by (apply Hall, list_elem_of_omap; eexists; by split). by rewrite Hc.
      * assert (cond_holds p (k, MatchBoolean b)) as Hc by (apply Hall, list_elem_of_omap; eexists; by split). by rewrite Hc.
    + intros Hall c ([k v] & Hin & Hc)%list_elem_of_omap. rewrite Hrange in Hin. apply elem_of_map_to_list in Hin.
      specialize (Hall k v Hin). unfold to_cond in Hc. cbn in Hc. unfold cond_holds, fromQdrantPayload in *. rewrite lookup_omap in Hall.
      destruct v; simplify_eq/=; specialize (Hall eq_refl); by destruct (p !! k) as [[]|]; simplify_eq/=.
  - split.
    + intros Hall. apply map_subseteq_spec. intros k v [Hk Hv]%map_lookup_filter_Some. by apply Hall.
    + intros Hsub k v Hk Hv. eapply lookup_weaken; [|exact Hsub]. by apply map_lookup_filter_Some.
Qed.

(** The points as the program reads them. *)
Definition read_point (coll id : string) (q : Q) : option (Vec * gpayload) := (λ vp, (vp.1, fromQdrantPayload vp.2)) <$> q_point coll id q.
Definition read_seen (coll id : string) (q : Q) (x : option (Vec * gpayload)) : Prop :=
  ∃ y, q_seen coll id q y ∧ x = (λ vp, (vp.1, fromQdrantPayload vp.2)) <$> y.
Definition all_scalar (q : Q) : Prop := ∀ c id vp, q_seen c id q (Some vp) → scalar_payload vp.2.

Lemma scalar_point c id q vp : all_scalar q → q_point c id q = Some vp → scalar_payload vp.2.
Proof. intros Hq Hp. apply (Hq c id). rewrite <- Hp. apply point_seen. Qed.

#[local] Instance qdrant_entries : EntryStore Q Vec := {|
  es_Ensure := EnsureCollection dimension; es_Upsert := Upsert; es_Search := Search range; es_point := read_point; es_seen := read_seen; es_normal := q_normal; es_ok := all_scalar;
|}.

Lemma put_points_scalar es id old vp :
  (∀ vp, old = Some vp → scalar_payload vp.2) → put_points (to_point <$> es) id old = Some vp → scalar_payload vp.2.
Proof.
  intros Hold. unfold put_points. destruct (list_to_map _ !! id) as [vp'|] eqn:Hl; [|by apply Hold]. intros [= <-]. cbn.
  apply elem_of_list_to_map_2 in Hl. rewrite elem_of_reverse in Hl. apply list_elem_of_fmap in Hl as (e & [= -> ->] & _). apply stored_scalar.
Qed.

Lemma put_points_in (es : list (VectorEntry Vec)) e old : NoDup (ve_ID <$> es) → e ∈ es →
  put_points (to_point <$> es) (ve_ID e) old = Some (q_normal (ve_Vector e), toQdrantPayload (ve_Payload e)).
Proof.
  intros Hnd He. unfold put_points. rewrite (elem_of_list_to_map_1 _ (ve_ID e) (ve_Vector e, toQdrantPayload (ve_Payload e))); [done| |].
  - rewrite fmap_reverse, <- list_fmap_compose. rewrite reverse_Permutation. exact Hnd.
  - rewrite elem_of_reverse. apply list_elem_of_fmap. by exists e.
Qed.

Lemma put_points_out (es : list (VectorEntry Vec)) id old : id ∉ ve_ID <$> es → put_points (to_point <$> es) id old = old.
Proof.
  intros Hid. unfold put_points. rewrite not_elem_of_list_to_map_1; [done|].
  rewrite fmap_reverse, <- list_fmap_compose, elem_of_reverse. exact Hid.
Qed.

#[local] Instance qdrant_entry_laws : EntryLaws Q Vec.
Proof.
  split; unfold es_Ensure, es_Upsert, es_Search, es_point, es_ok, qdrant_entries.
  - intros coll q c id. unfold EnsureCollection, read_point. destruct (q_get coll q); [by rewrite create_points|done].
  - intros coll q Hq c id vp. unfold EnsureCollection. destruct (q_get coll q); [intros Hs%create_seen; by apply (Hq c id)|apply Hq].
  - intros coll es q Hq c id vp Hvp. unfold Upsert in Hvp. destruct (q_upsert coll (to_point <$> es) q) as [q' r] eqn:Hu; cbn in Hvp.
    destruct (upsert_seen _ _ _ _ _ _ _ _ Hu Hvp) as [Hs|Hs]; [by apply (Hq c id)|]. symmetry in Hs. destruct r as [e|].
    + destruct (upsert_failed _ _ _ _ _ c id Hu) as [Heq|[-> Heq]]; rewrite Heq in Hs; [by eapply scalar_point|].
      eapply put_points_scalar; [|exact Hs]. intros vp0. by apply scalar_point.
    + rewrite (upsert_points _ _ _ _ c id Hu) in Hs. case_bool_decide; [|by eapply scalar_point].
      eapply put_points_scalar; [|exact Hs]. intros vp0. by apply scalar_point.
  - intros coll es q q' e Hu Hnd He Hp. unfold read_point. rewrite (upsert_points _ _ _ _ _ _ Hu), bool_decide_true by done.
    rewrite put_points_in by done. cbn. by rewrite kept_read_back.
  - intros coll es q q' c id Hu Hout. unfold read_point. rewrite (upsert_points _ _ _ _ _ _ Hu). case_bool_decide as Hc; [|done].
    rewrite put_points_out; [done|]. by destruct Hout.
  - intros coll v f k q l r Hq Hs Hr. unfold Search in Hs. destruct (q_search _ _ _ _ q) as [hits|] eqn:Hqs; [|done]. injection Hs as <-.
    apply list_elem_of_fmap in Hr as (h & -> & Hh). destruct (search_found _ _ _ _ _ _ _ Hqs Hh) as (v' & Hpt & Hcond). cbn.
    split; [exists v', (Some (v', sc_Payload h)); by split|]. apply filter_conds, Hcond. by apply (Hq _ _ _ Hpt).
Qed.

(** What a search may see after a write: what it might have seen before, or the new state. *)
Definition seen_after (q q' : Q) : Prop := ∀ c id x, read_seen c id q' x → read_seen c id q x ∨ x = read_point c id q'.

Lemma seen_after_write q q' :
  (∀ c id x, q_seen c id q' x → q_seen c id q x ∨ x = q_point c id q') → seen_after q q'.
Proof.
  intros Hs c id x (y & [Hy|Hy]%Hs & ->); [left; by exists y|right]. unfold read_point. by rewrite <- Hy.
Qed.

(** The deletion by a filter, as the program reads the points. *)
Lemma Delete_points coll f q q' c id :
  all_scalar q → f ≠ ∅ → Delete range coll f q = (q', None) →
  read_point c id q' = match read_point c id q with
                       | Some vp => if bool_decide (c = coll ∧ looked_at f ⊆ vp.2) then None else Some vp
                       | None => None
                       end.
Proof.
  intros Hq Hf Hd. unfold Delete, buildFilter in Hd. rewrite bool_decide_false in Hd by done. unfold read_point.
  destruct (q_point c id q) as [vp|] eqn:Hp; cbn; [|by rewrite (delete_new _ _ _ _ _ _ Hd Hp)].
  rewrite (delete_points _ _ _ _ _ _ _ Hd Hp (scalar_point _ _ _ _ Hq Hp)).
  assert (Forall (cond_holds vp.2) (omap to_cond (range f)) ↔ looked_at f ⊆ fromQdrantPayload vp.2) as Hiff.
  { rewrite <- filter_conds. unfold buildFilter. by rewrite bool_decide_false. }
  rewrite (bool_decide_ext _ (c = coll ∧ looked_at f ⊆ fromQdrantPayload vp.2)) by (by rewrite Hiff). by case_bool_decide.
Qed.

Lemma UpdatePayload_points coll f p q q' c id vp :
  all_scalar q → UpdatePayload range coll f p q = (q', None) → kept_payload p → read_point c id q = Some vp →
  read_point c id q' = Some (if bool_decide (c = coll ∧ looked_at f ⊆ vp.2) then (vp.1, p ∪ vp.2) else vp).
Proof.
  intros Hq Hu Hkept Hvp. unfold UpdatePayload in Hu. destruct (buildFilter range f) as [conds|] eqn:Hb; [|done].
  unfold read_point in *. destruct (q_point c id q) as [vp0|] eqn:Hp; [|done]. injection Hvp as <-. cbn.
  rewrite (set_payload_points _ _ _ _ _ _ _ _ Hu Hp (scalar_point _ _ _ _ Hq Hp)).
  assert (Forall (cond_holds vp0.2) conds ↔ looked_at f ⊆ fromQdrantPayload vp0.2) as Hiff by (rewrite <- filter_conds; by rewrite Hb).
  rewrite (bool_decide_ext _ (c = coll ∧ looked_at f ⊆ fromQdrantPayload vp0.2)) by (by rewrite Hiff). case_bool_decide; [|done]. cbn.
  do 2 f_equal. apply map_eq. intros k. unfold fromQdrantPayload. rewrite lookup_omap, !lookup_union, lookup_omap.
  unfold toQdrantPayload. rewrite lookup_omap. destruct (p !! k) as [v|] eqn:Hk; [|by destruct (vp0.2 !! k) as [[]|]].
  specialize (Hkept k v Hk). by destruct v, (vp0.2 !! k) as [[]|].
Qed.

(** C25: The client refines the interface of the vector store, for entries with identifiers
    that differ, and for payloads of texts, floating-point numbers and truth values (an
    integer comes back as another type, and is lost when it is stored again).  Once the
    acknowledged writes are applied: what was stored is found under its identifier, with its
    payload and its vector normalised, and nothing else changes; a deletion with a filter
    that is not empty removes exactly the points of the collection that have the texts and
    truth values of the filter, and a patch changes exactly those, whose other fields stay.
    A search, which may be answered before that, gives points as they are or were before
    writes that are not applied yet, and as they are given they have the texts and truth
    values of the filter.  Other values of a filter are not looked at: a filter that has only
    such values matches the whole collection. *)
Theorem store_refines_points coll q :
  all_scalar q →
  (∀ es q', Upsert coll es q = (q', None) → NoDup (ve_ID <$> es) →
     all_scalar q' ∧ seen_after q q'
     ∧ (∀ e, e ∈ es → kept_payload (ve_Payload e) → read_point coll (ve_ID e) q' = Some (q_normal (ve_Vector e), ve_Payload e))
     ∧ ∀ c id, c ≠ coll ∨ id ∉ ve_ID <$> es → read_point c id q' = read_point c id q)
  ∧ (∀ v f k l r, Search range coll v f k q = Ok l → r ∈ l →
       (∃ v', read_seen coll (sh_ID r) q (Some (v', sh_Payload r))) ∧ looked_at f ⊆ sh_Payload r)
  ∧ (∀ f q', f ≠ ∅ → Delete range coll f q = (q', None) → seen_after q q' ∧ ∀ c id,
       read_point c id q' = match read_point c id q with
                            | Some vp => if bool_decide (c = coll ∧ looked_at f ⊆ vp.2) then None else Some vp
                            | None => None
                            end)
  ∧ (∀ f p q', UpdatePayload range coll f p q = (q', None) → kept_payload p → seen_after q q' ∧ ∀ c id vp, read_point c id q = Some vp →
       read_point c id q' = Some (if bool_decide (c = coll ∧ looked_at f ⊆ vp.2) then (vp.1, p ∪ vp.2) else vp)).
Proof.
  intros Hq. split_and!.
  - intros es q' Hu Hnd. split_and!.
    + pose proof (upsert_ok coll es q Hq) as Hok. cbn in Hok. by rewrite Hu in Hok.
    + apply seen_after_write. intros c id x. by eapply upsert_seen.
    + intros e He Hp. exact (upsert_stores coll es q q' e Hu Hnd He Hp).
    + intros c id Hout. exact (upsert_keeps coll es q q' c id Hu Hout).
  - intros v f k l r. exact (hits_are_points coll v f k q l r Hq).
  - intros f q' Hf Hd. split; [|intros c id; by apply Delete_points]. apply seen_after_write. intros c id x. by eapply delete_seen.
  - intros f p q' Hu Hkept. split; [|intros c id vp Hvp; by apply (UpdatePayload_points coll f p q)].
    apply seen_after_write. intros c id x. unfold UpdatePayload in Hu. destruct (buildFilter range f); [|done]. by eapply set_payload_seen.
Qed.
End laws.

(** ** The memory service *)

Lemma str_app_inj_r (a x y : string) : a +:+ x = a +:+ y → x = y.
Proof. intros Hs. apply (inj s2l). apply (f_equal s2l) in Hs. rewrite !s2l_app in Hs. by simplify_list_eq. Qed.

Lemma chunk_id_inj s i j : chunk_id s i = chunk_id s j → i = j.
Proof. unfold chunk_id. intros Hs. do 4 apply str_app_inj_r in Hs. apply (inj pretty) in Hs. lia. Qed.

Section memory_laws.
Context {St Vec W : Type} `{EntryLaws St Vec} (embed : list string → W → W * result goerror (list Vec)).
Context (rfc3339 : time → string) (parse_time : string → option time).

Lemma chunk_entries_spec s i chunks vecs (es : list (VectorEntry Vec)) : chunk_entries rfc3339 s i chunks vecs = Some es →
  (ve_ID <$> es) = (chunk_id s <$> seq i (length chunks))
  ∧ ∀ j c, chunks !! j = Some c → ∃ e : VectorEntry Vec, e ∈ es ∧ ve_ID e = chunk_id s (i + j) ∧ ve_Payload e = chunk_payload rfc3339 s c.
Proof.
  revert i vecs es. induction chunks as [|c chunks IH]; intros i vecs es; cbn; [by intros [= <-]|].
  destruct vecs as [|v vecs]; [done|]. destruct (chunk_entries _ _ _ _ vecs) as [es'|] eqn:Hes; cbn; [|done]. intros [= <-].
  destruct (IH _ _ _ Hes) as [Hids Hin]. split; [cbn; by rewrite Hids|]. intros [|j] c' Hj; cbn in Hj.
  - injection Hj as <-. eexists. split; [by left|]. cbn. by rewrite Nat.add_0_r.
  - destruct (Hin _ _ Hj) as (e & He & Hid & Hp). exists e. split; [by right|]. rewrite Hid. split; [f_equal; lia|done].
Qed.

Lemma chunk_payload_kept s c : kept_payload (chunk_payload rfc3339 s c).
Proof. unfold kept_payload, chunk_payload. repeat apply map_Forall_insert_2; done. Qed.

(** A session that could be added has a point for each event with a text, in order, with
    the text, the user and the session; the points of other collections and under other
    identifiers are as before. *)
Theorem session_is_remembered s st w st' w' :
  AddSession embed rfc3339 s st w = Some (st', w', None) →
  (∀ i c, session_chunks s !! i = Some c →
     ∃ v, es_point (CollectionName (session_tenant s)) (chunk_id s i) st' = Some (v, chunk_payload rfc3339 s c))
  ∧ ∀ coll id, coll ≠ CollectionName (session_tenant s) ∨ (∀ i, id ≠ chunk_id s i) → es_point coll id st' = es_point coll id st.
Proof.
  unfold AddSession. set (col := CollectionName _). pose proof (ensure_kept col st) as Hens.
  destruct (es_Ensure col st) as [st1 [e|]]; [done|]. cbn in Hens.
  destruct (session_chunks s) as [|c0 chunks0] eqn:Hchunks; [intros [= <- <-]; split; [done|by intros]|]. rewrite <- Hchunks. clear c0 chunks0 Hchunks.
  destruct (embed _ w) as [w1 [vecs|e]]; [|done]. destruct (chunk_entries _ _ _ _ vecs) as [es|] eqn:Hes; cbn [mbind option_bind]; [|done].
  destruct (es_Upsert col es st1) as [st2 err] eqn:Hu. intros [= -> -> ->]. destruct (chunk_entries_spec _ _ _ _ _ Hes) as [Hids Hin].
  assert (NoDup (ve_ID <$> es)) as Hnd by (rewrite Hids; apply NoDup_fmap_2_strong; [intros ? ? _ _; apply chunk_id_inj|apply NoDup_seq]).
  split.
  - intros i c Hc. destruct (Hin _ _ Hc) as (e & He & Hid & Hp). exists (es_normal (ve_Vector e)). rewrite <- Hp. cbn in Hid. rewrite <- Hid.
    apply (upsert_stores _ _ _ _ _ Hu); [done|done|]. rewrite Hp. apply chunk_payload_kept.
  - intros coll id Hout. rewrite <- Hens. apply (upsert_keeps _ _ _ _ _ _ Hu). destruct Hout as [Hc|Hid]; [by left|right].
    rewrite Hids. intros (i & -> & _)%list_elem_of_fmap. by apply (Hid i).
Qed.

(** What a search finds are texts of points that may be seen in the application's collection,
    and of the user who asks when there is one. *)
Theorem memories_are_the_users rq st w w' l m :
  es_ok st → memory_Search embed parse_time rq st w = Some (w', Ok l) → m ∈ l →
  ∃ id v p, es_seen (CollectionName (srq_AppName rq)) id st (Some (v, p)) ∧ p !! "text"%string = Some (GStr (men_Text m))
    ∧ (srq_UserID rq ≠ ""%string → p !! "user_id"%string = Some (GStr (srq_UserID rq))).
Proof.
  intros Hok. unfold memory_Search. destruct (embed _ w) as [w1 [[|v vecs]|e]]; try done. destruct (es_Search _ _ _ _ st) as [hits|] eqn:Hs; [|done].
  intros [= <- <-] (r & Hr & Hm)%list_elem_of_omap. destruct (hits_are_points _ _ _ _ _ _ _ Hok Hs Hr) as [[v' Hpt] Hf].
  exists (sh_ID r), v', (sh_Payload r). split; [done|]. unfold hit_memory in Hm.
  destruct (sh_Payload r !! "text"%string) as [[text| | | | |]|] eqn:Ht; try done. destruct (str_empty text); [done|]. injection Hm as <-.
  split; [done|]. intros Hu. eapply lookup_weaken; [|exact Hf]. unfold search_filter.
  assert (str_empty (srq_UserID rq) = false) as -> by (by destruct (srq_UserID rq)). apply map_lookup_filter_Some. by rewrite lookup_singleton_eq.
Qed.

(** A session of a tenant is added to the tenant's collection, but the application's is
    searched: its memories are not there. *)
Lemma tenants_are_not_searched s st w st' w' id :
  AddSession embed rfc3339 s st w = Some (st', w', None) → session_tenant s ≠ ses_AppName s →
  es_point (CollectionName (ses_AppName s)) id st' = es_point (CollectionName (ses_AppName s)) id st.
Proof.
  intros Hadd Hne. apply (proj2 (session_is_remembered _ _ _ _ _ Hadd)). left. intros Heq. apply str_app_inj_r in Heq. congruence.
Qed.
End memory_laws.

(** ** Identifiers

    A point has a number or a UUID as its identifier, and no UUID has an underscore. *)
Section identifiers.
Context {Q Vec W : Type} `{QdrantLaws Q Vec} (range : gpayload → list (string * goval)) (dimension : Z).
Hypothesis (Huuid : ∀ x, contains x "_" = true → uuid_ok x = false).
#[local] Existing Instance qdrant_entries.

Lemma underscore_rejected a b : uuid_ok (a +:+ "_" +:+ b) = false.
Proof. apply Huuid, contains_spec. by exists a, b. Qed.

Lemma upsert_rejected coll (e : VectorEntry Vec) es (q : Q) :
  uuid_ok (ve_ID e) = false →
  (∃ err, (Upsert coll (e :: es) q).2 = Some err) ∧ ∀ c id, read_point c id (Upsert coll (e :: es) q).1 = read_point c id q.
Proof.
  intros He. destruct (upsert_bad_id coll (to_point <$> e :: es) q) as [Herr Hp]; [cbn; by rewrite He|].
  split; [exact Herr|]. intros c id. unfold read_point, Upsert. by rewrite Hp.
Qed.

(** No session that has a text can be added to Qdrant: its points have no identifiers that
    Qdrant accepts. *)
Theorem sessions_are_rejected (embed : list string → W → W * result goerror (list Vec)) rfc3339 s (q q' : Q) w w' err :
  AddSession (H := qdrant_entries range dimension) embed rfc3339 s q w = Some (q', w', err) → session_chunks s ≠ [] →
  err ≠ None ∧ ∀ c id, read_point c id q' = read_point c id q.
Proof.
  unfold AddSession. set (col := CollectionName _). intros Hadd Hne.
  assert (∀ c id, read_point c id (EnsureCollection dimension col q).1 = read_point c id q) as Hens.
  { intros c id. unfold EnsureCollection, read_point. destruct (q_get col q); [by rewrite create_points|done]. }
  cbn [es_Ensure es_Upsert qdrant_entries] in Hadd. destruct (EnsureCollection dimension col q) as [q1 [e|]]; [by injection Hadd as <- <- <-|]. cbn in Hens.
  destruct (session_chunks s) as [|c chunks]; [done|]. destruct (embed _ w) as [w1 [vecs|e]]; [|by injection Hadd as <- <- <-].
  destruct vecs as [|v vecs]; cbn [chunk_entries mbind option_bind] in Hadd; [done|]. destruct (chunk_entries _ _ _ chunks vecs) as [es|]; cbn [mbind option_bind] in Hadd; [|done].
  match type of Hadd with context [Upsert col (?e :: es) q1] => destruct (upsert_rejected col e es q1 (underscore_rejected _ _)) as [[e' He'] Hp] end.
  destruct (Upsert col _ q1) as [q2 err2]. injection Hadd as <- <- <-. cbn in He', Hp. split; [congruence|]. intros c' id. by rewrite Hp, Hens.
Qed.

(** Nor is a memory that the consolidation makes. *)
Lemma consolidated_rejected tenantID now : uuid_ok (Consolidation.memory_id tenantID now) = false.
Proof. unfold Consolidation.memory_id. apply (underscore_rejected "mem"). Qed.
End identifiers.

(** ** A fake database

    It applies each write when the next one comes: [fk_now] has all of them, and a search sees
    [fk_applied].  Of a vector it keeps the sign. *)

Abbreviation fake_points := (gmap (string * string) (Z * qpayload)).
Record fake_db := { fk_now : fake_points; fk_applied : fake_points }.
Definition fake_write (f : fake_points → fake_points) (q : fake_db) : fake_db := {| fk_now := f (fk_now q); fk_applied := fk_now q |}.

Definition fake_put (coll : string) (pts : list (string * (Z * qpayload))) (q : fake_points) : fake_points :=
  foldl (λ q pt, <[(coll, pt.1) := (Z.sgn pt.2.1, pt.2.2)]> q) q pts.
Definition fake_hit (coll : string) (f : list qcond) (kv : (string * string) * (Z * qpayload)) : Prop :=
  kv.1.1 = coll ∧ Forall (cond_holds kv.2.2) f.
#[global] Instance fake_hit_dec coll f kv : Decision (fake_hit coll f kv).
Proof. unfold fake_hit. apply _. Defined.

Definition fake_qdrant (ids : string → bool) : Qdrant fake_db Z := {|
  q_get := λ _ _, None;
  q_create := λ _ _ q, (q, None);
  q_upsert := λ coll pts q, if existsb (λ pt, negb (ids pt.1)) pts then (q, Some (ErrText "Unable to parse UUID")) else (fake_write (fake_put coll pts) q, None);
  q_search := λ coll _ limit f q, Ok (take (Z.to_nat limit) ((λ kv, {| sc_Uuid := kv.1.2; sc_Score := S754_zero false; sc_Payload := kv.2.2 |})
                <$> filter (fake_hit coll (default [] f)) (map_to_list (fk_applied q))));
  q_delete := λ coll f q, match f with
                          | None => (q, Some (ErrText "no filter"))
                          | Some f => (fake_write (filter (λ kv, ¬ fake_hit coll f kv)) q, None)
                          end;
  q_set_payload := λ coll f p q,
    (fake_write (map_imap (λ k vp, Some (if bool_decide (fake_hit coll f (k, vp)) then (vp.1, p ∪ vp.2) else vp))) q, None);
  q_point := λ coll id q, fk_now q !! (coll, id);
  q_seen := λ coll id q x, x = fk_now q !! (coll, id) ∨ x = fk_applied q !! (coll, id);
  uuid_ok := ids;
  q_normal := Z.sgn;
|}.

Lemma fake_put_lookup (ids : string → bool) (coll : string) (pts : list (string * (Z * qpayload))) (q : fake_points) (c id : string) :
  fake_put coll pts q !! (c, id)
  = if bool_decide (c = coll) then put_points (H := fake_qdrant ids) pts id (q !! (c, id)) else q !! (c, id).
Proof.
  unfold fake_put, put_points. induction pts as [|pt pts IH] using rev_ind; cbn; [rewrite lookup_empty; by case_bool_decide|].
  rewrite foldl_app, reverse_snoc. destruct pt as [id' vp]. cbn. destruct (decide (c = coll)) as [->|Hc].
  - rewrite bool_decide_true in IH |- * by done. destruct (decide (id = id')) as [->|Hid].
    + by rewrite lookup_insert_eq, lookup_insert_eq.
    + rewrite lookup_insert_ne by congruence. rewrite IH. by rewrite lookup_insert_ne by congruence.
  - rewrite bool_decide_false in IH |- * by done. by rewrite lookup_insert_ne by congruence.
Qed.

(** A write makes nothing seen but the state before it and after it. *)
Lemma fake_seen f (q q' : fake_db) (r r' : option goerror) k (x : option (Z * qpayload)) :
  (fake_write f q, r') = (q', r) → x = fk_now q' !! k ∨ x = fk_applied q' !! k →
  (x = fk_now q !! k ∨ x = fk_applied q !! k) ∨ x = fk_now q' !! k.
Proof. intros [= <- _]. cbn. tauto. Qed.

#[global] Instance fake_laws ids : QdrantLaws fake_db Z (H := fake_qdrant ids).
Proof.
  split; cbn.
  - by left.
  - done.
  - intros coll pts q q' r c id x. destruct (existsb _ pts); [intros [= <- _]; tauto|]. apply fake_seen.
  - intros coll f q q' r c id x. destruct f as [f|]; [apply fake_seen|]. intros [= <- _]. tauto.
  - intros coll f p q q' r c id x. apply fake_seen.
  - done.
  - intros coll pts q q' c id. destruct (existsb _ pts); [done|]. intros [= <-]. apply fake_put_lookup.
  - intros coll pts q q' e c id. destruct (existsb _ pts); [|done]. intros [= <- _]. by left.
  - intros coll pts q ->. split; [by eexists|done].
  - intros coll v limit f q l r [= <-] Hr.
    assert (r ∈ ((λ kv : (string * string) * (Z * qpayload), {| sc_Uuid := kv.1.2; sc_Score := S754_zero false; sc_Payload := kv.2.2 |})
      <$> filter (fake_hit coll (default [] f)) (map_to_list (fk_applied q)))) as Hin by (eapply elem_of_take in Hr as (i & Hi & _); by eapply list_elem_of_lookup_2).
    apply list_elem_of_fmap in Hin as ([[c id] [v' p]] & -> & [[Hc Hall] Hin]%list_elem_of_filter). cbn in *. subst c.
    apply elem_of_map_to_list in Hin. exists v'. split; [by right|done].
  - intros coll f q q' c id vp [= <-] Hp _. cbn. destruct (decide (fake_hit coll f ((c, id), vp))) as [Hh|Hh].
    + rewrite bool_decide_true by done. apply map_lookup_filter_None. right. intros vp' Hp'. naive_solver.
    + rewrite bool_decide_false by done. by apply map_lookup_filter_Some.
  - intros coll f q q' c id Hd Hp. destruct f as [f|]; injection Hd as <-; [|done]. apply map_lookup_filter_None. by left.
  - intros coll f p q q' c id vp [= <-] Hp _. cbn. rewrite map_lookup_imap, Hp. cbn. f_equal. by repeat case_bool_decide.
Qed.

(** ** Examples *)

Definition w_db : fake_db := {| fk_now := ∅; fk_applied := ∅ |}.
Definition w_range (m : gpayload) : list (string * goval) := map_to_list m.
Definition w_all : Qdrant fake_db Z := fake_qdrant (λ _, true).
Definition w_entry (id who : string) : VectorEntry Z := {| ve_ID := id; ve_Vector := 5; ve_Payload := {[ "user_id"%string := GStr who ]} |}.
Definition w_db2 : fake_db := (Upsert (H := w_all) "c" [w_entry "1" "u"; w_entry "2" "v"] w_db).1.

Lemma w_db_scalar : all_scalar (H := w_all) w_db.
Proof. intros c id vp [Hp|Hp]; discriminate Hp. Qed.

(** The entry is there, with its vector normalised, but a search does not find it yet. *)
Lemma store_refines_points_witness :
  read_point (H := w_all) "c" "2" w_db2 = Some (1, {[ "user_id"%string := GStr "v" ]})
  ∧ Search (H := w_all) w_range "c" 5 ∅ 10 w_db2 = Ok [].
Proof.
  destruct (store_refines_points (H := w_all) w_range 768 (λ m, reflexivity _) "c" w_db w_db_scalar) as [Hu _].
  split; [|vm_compute; reflexivity].
  refine (proj1 (proj2 (proj2 (Hu [w_entry "1" "u"; w_entry "2" "v"] w_db2 _ _))) (w_entry "2" "v") _ _).
  - vm_compute. reflexivity.
  - vm_compute. repeat constructor; set_solver.
  - right. left.
  - intros k v. cbn. intros [<- <-]%lookup_singleton_Some. reflexivity.
Defined.

Definition w_text (text : string) : memory_event :=
  {| mev_Content := Some {| ct_Role := "user"; ct_Parts := [{| part_Text := text; part_FunctionResponse := None; part_rest := 0 |}] |}; mev_Timestamp := 0 |}.
Definition w_session : memory_session :=
  {| ses_AppName := "abot"; ses_ID := "s"; ses_UserID := "u"; ses_State := {[ "tenant_id"%string := AStr "t" ]}; ses_Events := [w_text "one"; w_text "two"] |}.
Definition w_embed (texts : list string) (w : unit) : unit * result goerror (list Z) := (w, Ok ((λ _, 1) <$> texts)).
Definition w_store : EntryStore fake_db Z := qdrant_entries (H := w_all) w_range 768.
Definition w_added : fake_db :=
  match AddSession (H := w_store) w_embed (λ _, "now"%string) w_session w_db tt with Some (st, _, _) => st | None => w_db end.

Lemma session_is_remembered_witness :
  ∃ v, read_point (H := w_all) "tenant_t" "s_u_1" w_added = Some (v, chunk_payload (λ _, "now"%string) w_session ("two"%string, 0)).
Proof.
  refine (proj1 (session_is_remembered (H := w_store) (H0 := qdrant_entry_laws (H := w_all) w_range 768 (λ m, reflexivity _))
    w_embed (λ _, "now"%string) w_session w_db tt w_added tt _) 1%nat ("two"%string, 0) _); vm_compute; reflexivity.
Defined.

Lemma sessions_are_rejected_witness :
  ∃ err, AddSession (H := qdrant_entries (H := fake_qdrant (λ x, negb (contains x "_"))) w_range 768) w_embed (λ _, "now"%string) w_session w_db tt
    = Some (w_db, tt, err) ∧ err ≠ None.
Proof.
  eexists. split; [vm_compute; reflexivity|].
  refine (proj1 (sessions_are_rejected (H := fake_qdrant (λ x, negb (contains x "_"))) w_range 768 _ w_embed (λ _, "now"%string)
    w_session w_db w_db tt tt _ _ _)).
  - intros x Hx. cbn. rewrite Hx. reflexivity.
  - vm_compute. reflexivity.
  - vm_compute. discriminate.
Defined.
