(* ===== verification/Seeder.v ===== *)
(** [pkg/storage/seeder]: the tenants and documents that every start makes sure of.

    The stores are those of [Stores] on one state, [os.ReadFile] is a parameter, and the
    orders of the maps of files are arguments.  The theorems are about the tables of
    [Accounts]. *)
From S2P Require Import Prelude GoStrings Types Stores Accounts.

Definition workspace_files : list (string * string) :=
  [("IDENTITY", "workspace/IDENTITY.md"); ("SOUL", "workspace/SOUL.md"); ("AGENT", "workspace/AGENT.md");
   ("TOOLS", "workspace/TOOLS.md"); ("RULES", "workspace/RULES.md"); ("HEARTBEAT", "workspace/HEARTBEAT.md")]%string.
Definition user_files : list (string * string) :=
  [("USER", "workspace/USER.md"); ("EXPERIMENTS", "workspace/EXPERIMENTS.md"); ("NOTES", "workspace/NOTES.md")]%string.
Definition test_tenant : string := "test-corp".
Definition test_docs : list (string * string) :=
  [("IDENTITY", "你是 Test Corp 的专属助手「小测」。你说话简洁、幽默，喜欢用比喻解释技术概念。");
   ("RULES", "1. 始终用中文回复" +:+ lf +:+ "2. 回答控制在 3 句话以内" +:+ lf +:+ "3. 遇到不确定的问题要诚实说不知道")]%string.
Definition test_users : list (string * string) :=
  [("alice", "Alice 是后端工程师，熟悉 Go 和 Rust，偏好简洁的代码风格。"); ("bob", "Bob 是产品经理，关注用户体验，喜欢用数据说话。")]%string.

Definition wrapped (what : string) (e : goerror) : goerror := ErrText (what +:+ ": " +:+ error_text e).
Definition new_tenant (id name : string) : Tenant :=
  {| tn_TenantID := id; tn_Name := name; tn_GroupID := ""; tn_Config := []; tn_CreatedAt := time_zero |}.
Definition new_doc (tenantID docType content : string) : WorkspaceDoc :=
  {| wd_TenantID := tenantID; wd_DocType := docType; wd_Content := content; wd_Version := 1; wd_UpdatedAt := time_zero |}.
Definition new_user_doc (tenantID userID docType content : string) : UserWorkspaceDoc :=
  {| ud_TenantID := tenantID; ud_UserID := userID; ud_DocType := docType; ud_Content := content; ud_Version := 1; ud_UpdatedAt := time_zero |}.

(** The files whose documents are not there: what cannot be read is skipped. *)
Fixpoint seed_each {S} (ReadFile : string → result goerror string) (has : string → S → bool) (put : string → string → S → S * option goerror)
    (what : string) (files : list (string * string)) (s : S) : S * option goerror :=
  match files with
  | [] => (s, None)
  | (docType, path) :: files =>
      if has docType s then seed_each ReadFile has put what files s
      else match ReadFile path with
           | Err _ => seed_each ReadFile has put what files s
           | Ok data => match put docType data s with
                        | (s, Some e) => (s, Some (wrapped (what +:+ " " +:+ docType) e))
                        | (s, None) => seed_each ReadFile has put what files s
                        end
           end
  end.

(** Rows that are put whether they are there or not. *)
Fixpoint put_each {S} (put : string → string → S → S * option goerror) (what : string) (items : list (string * string)) (s : S)
    : S * option goerror :=
  match items with
  | [] => (s, None)
  | (key, content) :: items =>
      match put key content s with
      | (s, Some e) => (s, Some (wrapped (what +:+ " " +:+ key) e))
      | (s, None) => put_each put what items s
      end
  end.

(** One step after another, until one fails. *)
Definition and_then {S} (f g : S → S * option goerror) (s : S) : S * option goerror :=
  match f s with (s, Some e) => (s, Some e) | (s, None) => g s end.
Definition wrap_step {S} (what : string) (f : S → S * option goerror) (s : S) : S * option goerror :=
  let '(s, e) := f s in (s, wrapped what <$> e).

Section seed.
Context {S : Type} `{TenantStore S} `{WorkspaceStore S} `{UserWorkspaceStore S} (ReadFile : string → result goerror string).
(** The orders of the maps. *)
Context (order uorder torder : list (string * string)).

Definition seedWorkspaceDocs (tenantID : string) : S → S * option goerror :=
  seed_each ReadFile (λ docType s, is_ok (ws_Get tenantID docType s)) (λ docType data, ws_Put (new_doc tenantID docType data)) "seed doc" order.
Definition seedUserDocs (tenantID userID : string) : S → S * option goerror :=
  seed_each ReadFile (λ docType s, is_ok (uws_Get tenantID userID docType s)) (λ docType data, uws_Put (new_user_doc tenantID userID docType data))
    "seed user doc" uorder.

Definition seedDefaultTenant : S → S * option goerror :=
  and_then (λ s, if is_ok (tns_Get DefaultTenantID s) then (s, None)
                 else wrap_step "seed tenant" (tns_Put (new_tenant DefaultTenantID "Default Tenant")) s)
    (and_then (seedWorkspaceDocs DefaultTenantID) (seedUserDocs DefaultTenantID DefaultUserID)).

Definition seedTestTenant (s : S) : S * option goerror :=
  if is_ok (tns_Get test_tenant s) then (s, None)
  else
    and_then (wrap_step "create tenant" (tns_Put (new_tenant test_tenant "Test Corporation")))
      (and_then (put_each (λ docType content, ws_Put (new_doc test_tenant docType content)) "seed doc" torder)
        (put_each (λ user profile, uws_Put (new_user_doc test_tenant user "USER" profile)) "seed user" test_users)) s.

Definition Seed : S → S * option goerror :=
  and_then (wrap_step "default tenant" seedDefaultTenant) (wrap_step "test tenant" seedTestTenant).

(** The transaction of [BuildFullDeps]; its commit may fail. *)
Definition seed_transaction (commit : option goerror) (s : S) : S * option goerror :=
  match Seed s with
  | (_, Some e) => (s, Some e)
  | (s', None) => match commit with Some e => (s, Some e) | None => (s', None) end
  end.
End seed.

(** ** Lemmas *)

Lemma and_then_ok {S} (f g : S → S * option goerror) s s' : and_then f g s = (s', None) → ∃ s1, f s = (s1, None) ∧ g s1 = (s', None).
Proof. unfold and_then. destruct (f s) as [s1 [e|]]; [done|]. by exists s1. Qed.
Lemma and_then_step {S} (f g : S → S * option goerror) s s1 : f s = (s1, None) → and_then f g s = g s1.
Proof. unfold and_then. by intros ->. Qed.
Lemma wrap_step_ok {S} what (f : S → S * option goerror) s s' : wrap_step what f s = (s', None) ↔ f s = (s', None).
Proof. unfold wrap_step. destruct (f s) as [s1 [e|]]; cbn; split; intros; simplify_eq; done. Qed.

(** Rows seen as a map of a store. *)
Section views.
Context {S K V : Type} `{Countable K} (ReadFile : string → result goerror string) (view : S → gmap K V) (key : string → K).
Context (has : string → S → bool) (put : string → string → S → S * option goerror).
Hypothesis (Hhas : ∀ docType s, has docType s = bool_decide (is_Some (view s !! key docType))).
Hypothesis (Hput : ∀ docType data s s', put docType data s = (s', None) → ∃ v, view s' = <[key docType := v]> (view s)).

Lemma seed_each_frame {X} (frame : S → X) what files s s' :
  (∀ docType data s s', put docType data s = (s', None) → frame s' = frame s) →
  seed_each ReadFile has put what files s = (s', None) → frame s' = frame s.
Proof.
  intros Hframe. revert s. induction files as [|[docType path] files IH]; intros s; cbn; [by intros [= ->]|].
  destruct (has docType s); [apply IH|]. destruct (ReadFile path) as [data|e]; [|apply IH].
  destruct (put docType data s) as [s1 [e|]] eqn:Hp; [done|]. intros Hs. by rewrite (IH _ Hs), (Hframe _ _ _ _ Hp).
Qed.

Lemma seed_each_spec what files s s' :
  seed_each ReadFile has put what files s = (s', None) →
  (∀ k v, view s !! k = Some v → view s' !! k = Some v)
  ∧ (∀ k, (∀ docType, k ≠ key docType) → view s' !! k = view s !! k)
  ∧ ∀ docType path, (docType, path) ∈ files → is_ok (ReadFile path) = true → is_Some (view s' !! key docType).
Proof.
  revert s. induction files as [|[docType path] files IH]; intros s; cbn.
  { intros [= ->]. split_and!; [done|done|]. by intros ? ? ?%not_elem_of_nil. }
  destruct (has docType s) eqn:Hh.
  - intros (Hk & Ho & Hm)%IH. split_and!; [done|done|]. intros d p [[= -> ->]|Hin]%elem_of_cons Hr; [|by eapply Hm].
    rewrite Hhas in Hh. apply bool_decide_eq_true in Hh as [v Hv]. by eexists; apply Hk.
  - destruct (ReadFile path) as [data|e] eqn:Hr.
    + destruct (put docType data s) as [s1 [e|]] eqn:Hp; [done|]. destruct (Hput _ _ _ _ Hp) as [v Hv]. intros (Hk & Ho & Hm)%IH. split_and!.
      * intros k w Hw. apply Hk. rewrite Hv, lookup_insert_ne; [done|]. intros <-. rewrite Hhas, Hw, bool_decide_true in Hh by eauto. done.
      * intros k Hne. rewrite Ho, Hv by done. by apply lookup_insert_ne.
      * intros d p [[= -> ->]|Hin]%elem_of_cons Hok; [|by eapply Hm]. eexists. apply Hk. rewrite Hv. apply lookup_insert_eq.
    + intros (Hk & Ho & Hm)%IH. split_and!; [done|done|]. intros d p [[= -> ->]|Hin]%elem_of_cons Hok; [by rewrite Hr in Hok|by eapply Hm].
Qed.

(** Nothing is left to do. *)
Lemma seed_each_again what files s :
  (∀ docType path, (docType, path) ∈ files → is_ok (ReadFile path) = true → is_Some (view s !! key docType)) →
  seed_each ReadFile has put what files s = (s, None).
Proof.
  induction files as [|[docType path] files IH]; intros Hm; cbn; [done|].
  assert (seed_each ReadFile has put what files s = (s, None)) as Hrest by (apply IH; intros d p Hin; apply Hm; by right).
  destruct (has docType s) eqn:Hh; [done|]. destruct (ReadFile path) as [data|e] eqn:Hr; [|done].
  destruct (Hm docType path ltac:(by left)) as [v Hv]; [by rewrite Hr|]. rewrite Hhas, Hv, bool_decide_true in Hh by eauto. done.
Qed.

Lemma put_each_frame {X} (frame : S → X) what items s s' :
  (∀ docType data s s', put docType data s = (s', None) → frame s' = frame s) →
  put_each put what items s = (s', None) → frame s' = frame s.
Proof.
  intros Hframe. revert s. induction items as [|[d c] items IH]; intros s; cbn; [by intros [= ->]|].
  destruct (put d c s) as [s1 [e|]] eqn:Hp; [done|]. intros Hs. by rewrite (IH _ Hs), (Hframe _ _ _ _ Hp).
Qed.
Lemma put_each_other what items s s' k : put_each put what items s = (s', None) → (∀ docType, k ≠ key docType) → view s' !! k = view s !! k.
Proof.
  revert s. induction items as [|[d c] items IH]; intros s; cbn; [by intros [= ->]|].
  destruct (put d c s) as [s1 [e|]] eqn:Hp; [done|]. intros Hs Hne. destruct (Hput _ _ _ _ Hp) as [v Hv].
  by rewrite (IH _ Hs Hne), Hv, lookup_insert_ne.
Qed.
End views.

(** ** On the tables *)

Section tables.
Context (fault : operation → table → list string → db → option goerror) `{Scan} `{SliceSort}.
Context (ReadFile : string → result goerror string) (order uorder torder : list (string * string)).
#[local] Existing Instances mysql_tenants mysql_docs mysql_user_docs.
(** Queries do not fail; every statement that writes may. *)
Hypothesis (Hquery : ∀ tb key s, fault OpQuery tb key s = None).

Abbreviation tenants s := (tb_tenants (db_tables s)).
Abbreviation docs s := (tb_docs (db_tables s)).
Abbreviation user_docs s := (tb_user_docs (db_tables s)).
Abbreviation tenant_store := (mysql_tenants fault).
Abbreviation doc_store := (mysql_docs fault).
Abbreviation user_store := (mysql_user_docs fault).

Lemma has_row {A} tb key (o : tables → option A) (s : db) :
  is_ok (query fault tb key (λ t, found_ptr (o t)) s) = bool_decide (is_Some (o (db_tables s))).
Proof.
  unfold query, found_ptr. rewrite Hquery. destruct (o (db_tables s)); symmetry; [by apply bool_decide_eq_true_2; eexists|].
  apply bool_decide_eq_false_2. by intros [? ?].
Qed.

Lemma put_tenant t s s' : tns_Put (TenantStore := tenant_store) t s = (s', None) →
  (∃ v, tenants s' = <[tn_TenantID t := v]> (tenants s)) ∧ docs s' = docs s ∧ user_docs s' = user_docs s.
Proof. intros He%exec_ok. injection He as Ht. rewrite <- Ht. cbn. split; [by eexists|done]. Qed.
Lemma put_doc d s s' : ws_Put (WorkspaceStore := doc_store) d s = (s', None) →
  (∃ v, docs s' = <[(wd_TenantID d, wd_DocType d) := v]> (docs s)) ∧ tenants s' = tenants s ∧ user_docs s' = user_docs s.
Proof. intros He%exec_ok. injection He as Ht. rewrite <- Ht. cbn. split; [by eexists|done]. Qed.
Lemma put_user_doc d s s' : uws_Put (UserWorkspaceStore := user_store) d s = (s', None) →
  (∃ v, user_docs s' = <[(ud_TenantID d, ud_UserID d, ud_DocType d) := v]> (user_docs s)) ∧ tenants s' = tenants s ∧ docs s' = docs s.
Proof. intros He%exec_ok. injection He as Ht. rewrite <- Ht. cbn. split; [by eexists|done]. Qed.

Abbreviation seed_docs := (seedWorkspaceDocs (H0 := doc_store) ReadFile order).
Abbreviation seed_user_docs := (seedUserDocs (H1 := user_store) ReadFile uorder).
Abbreviation seed := (Seed (H := tenant_store) (H0 := doc_store) (H1 := user_store) ReadFile order uorder torder).

Lemma seed_docs_spec tenantID s s' : seed_docs tenantID s = (s', None) →
  tenants s' = tenants s ∧ user_docs s' = user_docs s
  ∧ (∀ k v, docs s !! k = Some v → docs s' !! k = Some v)
  ∧ (∀ k, k.1 ≠ tenantID → docs s' !! k = docs s !! k)
  ∧ ∀ docType path, (docType, path) ∈ order → is_ok (ReadFile path) = true → is_Some (docs s' !! (tenantID, docType)).
Proof.
  intros Hs. assert (∀ docType data s s', ws_Put (WorkspaceStore := doc_store) (new_doc tenantID docType data) s = (s', None) →
    ∃ v, docs s' = <[(tenantID, docType) := v]> (docs s)) as Hput by (intros docType data t t' Hp; apply (put_doc _ _ _ Hp)).
  destruct (seed_each_spec ReadFile (λ s, docs s) (λ d, (tenantID, d)) _ _ (λ d s, has_row TWorkspaceDocs _ (λ t, tb_docs t !! (tenantID, d)) s)
    Hput _ _ _ _ Hs) as (Hk & Ho & Hm).
  split_and!; [| |exact Hk| |exact Hm].
  - eapply (seed_each_frame _ _ _ (λ s, tenants s)); [|exact Hs]. intros ? ? ? ? Hp. apply (put_doc _ _ _ Hp).
  - eapply (seed_each_frame _ _ _ (λ s, user_docs s)); [|exact Hs]. intros ? ? ? ? Hp. apply (put_doc _ _ _ Hp).
  - intros k Hne. apply Ho. intros d ->. done.
Qed.

Lemma seed_user_docs_spec tenantID userID s s' : seed_user_docs tenantID userID s = (s', None) →
  tenants s' = tenants s ∧ docs s' = docs s
  ∧ (∀ k v, user_docs s !! k = Some v → user_docs s' !! k = Some v)
  ∧ (∀ k, k.1.1 ≠ tenantID → user_docs s' !! k = user_docs s !! k)
  ∧ ∀ docType path, (docType, path) ∈ uorder → is_ok (ReadFile path) = true → is_Some (user_docs s' !! (tenantID, userID, docType)).
Proof.
  intros Hs. assert (∀ docType data s s', uws_Put (UserWorkspaceStore := user_store) (new_user_doc tenantID userID docType data) s = (s', None) →
    ∃ v, user_docs s' = <[(tenantID, userID, docType) := v]> (user_docs s)) as Hput by (intros docType data t t' Hp; apply (put_user_doc _ _ _ Hp)).
  destruct (seed_each_spec ReadFile (λ s, user_docs s) (λ d, (tenantID, userID, d)) _ _
    (λ d s, has_row TUserWorkspaceDocs _ (λ t, tb_user_docs t !! (tenantID, userID, d)) s) Hput _ _ _ _ Hs) as (Hk & Ho & Hm).
  split_and!; [| |exact Hk| |exact Hm].
  - eapply (seed_each_frame _ _ _ (λ s, tenants s)); [|exact Hs]. intros ? ? ? ? Hp. apply (put_user_doc _ _ _ Hp).
  - eapply (seed_each_frame _ _ _ (λ s, docs s)); [|exact Hs]. intros ? ? ? ? Hp. apply (put_user_doc _ _ _ Hp).
  - intros k Hne. apply Ho. intros d ->. done.
Qed.

(** What is there when nothing is left to do. *)
Definition seeded (s : db) : Prop :=
  is_Some (tenants s !! DefaultTenantID) ∧ is_Some (tenants s !! test_tenant)
  ∧ (∀ docType path, (docType, path) ∈ order → is_ok (ReadFile path) = true → is_Some (docs s !! (DefaultTenantID, docType)))
  ∧ ∀ docType path, (docType, path) ∈ uorder → is_ok (ReadFile path) = true → is_Some (user_docs s !! (DefaultTenantID, DefaultUserID, docType)).

(** What a seeding keeps: every tenant, and every document but those of a test tenant that
    it makes; what it changes is of the two tenants. *)
Definition seed_keeps (s s' : db) : Prop :=
  (∀ id t, tenants s !! id = Some t → tenants s' !! id = Some t)
  ∧ (∀ k d, docs s !! k = Some d → k.1 ≠ test_tenant ∨ is_Some (tenants s !! test_tenant) → docs s' !! k = Some d)
  ∧ (∀ k d, user_docs s !! k = Some d → k.1.1 ≠ test_tenant ∨ is_Some (tenants s !! test_tenant) → user_docs s' !! k = Some d)
  ∧ ∀ tenantID, tenantID ≠ DefaultTenantID → tenantID ≠ test_tenant →
      tenants s' !! tenantID = tenants s !! tenantID
      ∧ (∀ docType, docs s' !! (tenantID, docType) = docs s !! (tenantID, docType))
      ∧ ∀ userID docType, user_docs s' !! (tenantID, userID, docType) = user_docs s !! (tenantID, userID, docType).

Abbreviation seed_default := (seedDefaultTenant (H := tenant_store) (H0 := doc_store) (H1 := user_store) ReadFile order uorder).
Abbreviation seed_test := (seedTestTenant (H := tenant_store) (H0 := doc_store) (H1 := user_store) torder).

Lemma seed_default_spec s s' : seed_default s = (s', None) →
  (∀ id t, tenants s !! id = Some t → tenants s' !! id = Some t)
  ∧ (∀ id, id ≠ DefaultTenantID → tenants s' !! id = tenants s !! id) ∧ is_Some (tenants s' !! DefaultTenantID)
  ∧ (∀ k v, docs s !! k = Some v → docs s' !! k = Some v) ∧ (∀ k, k.1 ≠ DefaultTenantID → docs s' !! k = docs s !! k)
  ∧ (∀ k v, user_docs s !! k = Some v → user_docs s' !! k = Some v) ∧ (∀ k, k.1.1 ≠ DefaultTenantID → user_docs s' !! k = user_docs s !! k)
  ∧ (∀ docType path, (docType, path) ∈ order → is_ok (ReadFile path) = true → is_Some (docs s' !! (DefaultTenantID, docType)))
  ∧ ∀ docType path, (docType, path) ∈ uorder → is_ok (ReadFile path) = true → is_Some (user_docs s' !! (DefaultTenantID, DefaultUserID, docType)).
Proof.
  unfold seedDefaultTenant. intros (s1 & H1 & (s2 & H2 & H3)%and_then_ok)%and_then_ok.
  destruct (seed_docs_spec _ _ _ H2) as (Ht2 & Hu2 & Hk2 & Ho2 & Hm2). destruct (seed_user_docs_spec _ _ _ _ H3) as (Ht3 & Hd3 & Hk3 & Ho3 & Hm3).
  assert ((∀ id t, tenants s !! id = Some t → tenants s1 !! id = Some t) ∧ (∀ id, id ≠ DefaultTenantID → tenants s1 !! id = tenants s !! id)
    ∧ is_Some (tenants s1 !! DefaultTenantID) ∧ docs s1 = docs s ∧ user_docs s1 = user_docs s) as (Hk1 & Ho1 & Hm1 & Hd1 & Hu1).
  { destruct (is_ok _) eqn:Hhas; cbn in Hhas; rewrite has_row in Hhas.
    - injection H1 as <-. apply bool_decide_eq_true in Hhas. done.
    - apply wrap_step_ok, put_tenant in H1 as ([v Hv] & Hd & Hu). apply bool_decide_eq_false in Hhas. rewrite Hv. cbn. split_and!; try done.
      + intros id t Hid. rewrite lookup_insert_ne; [done|]. intros <-. apply Hhas. by eexists.
      + intros id Hne. by apply lookup_insert_ne.
      + rewrite lookup_insert_eq. by eexists. }
  rewrite Ht3, Ht2, Hd3. rewrite Hd1 in Hk2, Ho2. rewrite Hu2, Hu1 in Hk3, Ho3. split_and!; try done. 
Qed.

Lemma seed_test_spec s s' : seed_test s = (s', None) →
  (∀ id t, tenants s !! id = Some t → tenants s' !! id = Some t)
  ∧ (∀ id, id ≠ test_tenant → tenants s' !! id = tenants s !! id) ∧ is_Some (tenants s' !! test_tenant)
  ∧ (∀ k, k.1 ≠ test_tenant ∨ is_Some (tenants s !! test_tenant) → docs s' !! k = docs s !! k)
  ∧ (∀ k, k.1.1 ≠ test_tenant ∨ is_Some (tenants s !! test_tenant) → user_docs s' !! k = user_docs s !! k).
Proof.
  unfold seedTestTenant. destruct (is_ok _) eqn:Hhas; cbn in Hhas; rewrite has_row in Hhas.
  { intros [= <-]. apply bool_decide_eq_true in Hhas. by split_and!. }
  apply bool_decide_eq_false in Hhas. intros (s1 & H1%wrap_step_ok & (s2 & H2 & H3)%and_then_ok)%and_then_ok.
  apply put_tenant in H1 as ([v Hv] & Hd1 & Hu1). cbn in Hv.
  assert (tenants s2 = tenants s1 ∧ user_docs s2 = user_docs s1) as [Ht2 Hu2].
  { split; [eapply (put_each_frame _ (λ s, tenants s))|eapply (put_each_frame _ (λ s, user_docs s))]; try exact H2; intros ? ? ? ? Hp; apply (put_doc _ _ _ Hp). }
  assert (tenants s' = tenants s2 ∧ docs s' = docs s2) as [Ht3 Hd3].
  { split; [eapply (put_each_frame _ (λ s, tenants s))|eapply (put_each_frame _ (λ s, docs s))]; try exact H3; intros ? ? ? ? Hp; apply (put_user_doc _ _ _ Hp). }
  rewrite Ht3, Ht2, Hv, Hd3. split_and!.
  - intros id t Hid. rewrite lookup_insert_ne; [done|]. intros <-. apply Hhas. by eexists.
  - intros id Hne. by apply lookup_insert_ne.
  - rewrite lookup_insert_eq. by eexists.
  - intros k [Hk|?]; [|done]. rewrite <- Hd1. eapply (put_each_other (λ s, docs s) (λ d, (test_tenant, d))); [|exact H2|by intros ? ->].
    intros ? ? ? ? Hp. apply (put_doc _ _ _ Hp).
  - intros k [Hk|?]; [|done]. rewrite <- Hu1, <- Hu2. eapply (put_each_other (λ s, user_docs s) (λ u, (test_tenant, u, "USER"%string))); [|exact H3|by intros ? ->].
    intros ? ? ? ? Hp. apply (put_user_doc _ _ _ Hp).
Qed.

Lemma seeded_again s : seeded s → seed s = (s, None).
Proof.
  intros (Hd & Ht & Hdocs & Huser).
  assert (seed_default s = (s, None)) as Hdef.
  { unfold seedDefaultTenant. rewrite (and_then_step _ _ s s); [rewrite (and_then_step _ _ s s)|].
    - unfold seedUserDocs. eapply (seed_each_again ReadFile (λ s, user_docs s) (λ d, (DefaultTenantID, DefaultUserID, d))); [|exact Huser].
      intros d t. cbn. by rewrite has_row.
    - unfold seedWorkspaceDocs. eapply (seed_each_again ReadFile (λ s, docs s) (λ d, (DefaultTenantID, d))); [|exact Hdocs].
      intros d t. cbn. by rewrite has_row.
    - cbn. rewrite has_row. by rewrite bool_decide_true. }
  unfold Seed. rewrite (and_then_step _ _ s s); [|by apply wrap_step_ok]. apply wrap_step_ok.
  unfold seedTestTenant. cbn. rewrite has_row. by rewrite bool_decide_true.
Qed.

(** C29: A start that seeds the database, on which no query fails (a query that fails is taken
    for a missing document, which is then written over), leaves both tenants and every
    document of the default tenant whose file can be read; it changes no tenant, no document
    of another tenant, no document of the default tenant that is there, and none of the test
    tenant if that has its row; without the row the test tenant is made, and documents that
    it has are written over.  Seeding again does nothing.  And a seeding that fails changes
    nothing at all. *)
Theorem seed_spec commit s s' err :
  seed_transaction (H := tenant_store) (H0 := doc_store) (H1 := user_store) ReadFile order uorder torder commit s = (s', err) →
  match err with
  | Some _ => s' = s
  | None => seeded s' ∧ seed_keeps s s' ∧ seed s' = (s', None)
  end.
Proof.
  unfold seed_transaction. destruct (seed s) as [s1 [e|]] eqn:Hs; [by intros [= <- <-]|]. destruct commit as [e|]; intros [= <- <-]; [done|].
  unfold Seed in Hs. apply and_then_ok in Hs as (s2 & Hd%wrap_step_ok & Ht%wrap_step_ok).
  apply seed_default_spec in Hd as (Hk1 & Ho1 & Hm1 & Hdk1 & Hdo1 & Huk1 & Huo1 & Hdm1 & Hum1).
  apply seed_test_spec in Ht as (Hk2 & Ho2 & Hm2 & Hd2 & Hu2).
  assert (is_Some (tenants s !! test_tenant) → is_Some (tenants s2 !! test_tenant)) as Htest by (rewrite Ho1; done).
  assert (seeded s1) as Hseeded.
  { destruct Hm1 as [t Hm1]. split_and!; [by eexists; apply Hk2|done| |].
    - intros docType path Hin Hr. rewrite Hd2 by (by left). by eapply Hdm1.
    - intros docType path Hin Hr. rewrite Hu2 by (by left). by eapply Hum1. }
  split; [done|]. split; [|by apply seeded_again]. split_and!.
  - intros id t Hid. by apply Hk2, Hk1.
  - intros k d Hd Hor. rewrite Hd2; [by apply Hdk1|]. destruct Hor; [by left|right; by apply Htest].
  - intros k d Hd Hor. rewrite Hu2; [by apply Huk1|]. destruct Hor; [by left|right; by apply Htest].
  - intros tenantID Hne1 Hne2. split_and!; [by rewrite Ho2, Ho1| |].
    + intros docType. rewrite Hd2 by (by left). by apply Hdo1.
    + intros userID docType. rewrite Hu2 by (by left). by apply Huo1.
Qed.
End tables.

(** A missing document and a query that fails are the same to the seeder: then it writes over
    a document that is there. *)
Definition w_doc : WorkspaceDoc := {| wd_TenantID := DefaultTenantID; wd_DocType := "SOUL"; wd_Content := "mine"; wd_Version := 7; wd_UpdatedAt := 5 |}.
Definition w_files (path : string) : result goerror string := if bool_decide (path = "workspace/SOUL.md"%string) then Ok "default"%string else Err (ErrText "no file").
Definition w_flaky (op : operation) (tb : table) (key : list string) (s : db) : option goerror :=
  match op, tb with OpQuery, TWorkspaceDocs => Some ErrDeadlineExceeded | _, _ => None end.
Definition w_mine : db := (ws_Put (WorkspaceStore := mysql_docs no_fault) w_doc w_db).1.

Definition w_overwritten : db * option goerror :=
  Seed (H := mysql_tenants w_flaky) (H0 := mysql_docs w_flaky) (H1 := mysql_user_docs w_flaky) w_files workspace_files user_files test_docs w_mine.
Definition soul (s : db) : option string := wd_Content <$> tb_docs (db_tables s) !! (DefaultTenantID, "SOUL"%string).

Lemma flaky_seed_overwrites : w_overwritten.2 = None ∧ soul w_mine = Some "mine"%string ∧ soul w_overwritten.1 = Some "default"%string.
Proof. split_and!; vm_compute; reflexivity. Qed.

Definition w_seeding : db * option goerror :=
  seed_transaction (H := mysql_tenants no_fault) (H0 := mysql_docs no_fault) (H1 := mysql_user_docs no_fault) w_files workspace_files user_files test_docs None w_mine.

Lemma seed_spec_witness : seed_keeps w_mine w_seeding.1 ∧ soul w_seeding.1 = Some "mine"%string.
Proof.
  split; [|vm_compute; reflexivity].
  assert (w_seeding.2 = None) as Hok by (vm_compute; reflexivity).
  pose proof (seed_spec no_fault w_files workspace_files user_files test_docs (λ _ _ _, eq_refl) None w_mine w_seeding.1 w_seeding.2
    (surjective_pairing _)) as Hs.
  rewrite Hok in Hs. exact (proj1 (proj2 Hs)).
Defined.
