(* ===== verification/Boot.v ===== *)
(** How the programs put the parts together: [pkg/bootstrap/deps.go], [tools.go],
    [session.go] and [database.go], and the programs [cmd/abot], [cmd/abot-agent],
    [cmd/abot-server] and [cmd/abot-web]; and in [Setup] how configurations are made and
    loaded.

    Parts that are made of the configuration alone are those of the other files.  What the
    others do to the world is given by the operations of this section's context: opening the
    database and its migration, the session directory, connecting the MCP servers
    ([ConnectAll] of [Mcp]), registering the built-in skills and the caches of the loader
    ([Skills]), the client of the vector database, and the seeding ([Seeder]).  A step is
    a world's function that may panic ([None]) or fail. *)
From stdpp Require Import pretty.
From S2P Require Bus Mcp Providers Heartbeat Auth.
From S2P Require Import Prelude GoStrings Quote Floats Types Shell AgentTools AgentRegistry Config App.

(** ** Steps *)

Definition step_of (W A : Type) : Type := W → option (W * result goerror A).

Definition step_ret {W A} (a : A) : step_of W A := λ w, Some (w, Ok a).
Definition step_bind {W A C} (m : step_of W A) (k : A → step_of W C) : step_of W C := λ w,
  match m w with
  | None => None
  | Some (w, Err e) => Some (w, Err e)
  | Some (w, Ok a) => k a w
  end.
Notation "x <~ m ;; k" := (step_bind m (λ x, k)) (at level 100, m at next level, right associativity).

(** [fmt.Errorf] with a prefix and [%w]. *)
Definition wrap_err (what : string) (e : goerror) : goerror := ErrText (what +:+ ": " +:+ error_text e).
Definition pure_step {W A} (r : result goerror A) : step_of W A := λ w, Some (w, r).
Definition wrapped {W A} (what : string) (m : step_of W A) : step_of W A := λ w,
  match m w with Some (w, Err e) => Some (w, Err (wrap_err what e)) | r => r end.
(** An operation that only fails or not, and one whose error is logged. *)
Definition try_step {W} (f : W → W * option goerror) : step_of W () := λ w,
  match f w with (w, Some e) => Some (w, Err e) | (w, None) => Some (w, Ok ()) end.
Definition run_step {W} (f : W → W) : step_of W () := λ w, Some (f w, Ok ()).

(** ** What is made of the configuration *)

Inductive session_kind := SessJSONL (dir : string) | SessMemory.

Definition or_else (s other : string) : string := if str_empty s then other else s.

Definition bus_size (c : Config) : Z := if cf_BusBufferSize c <=? 0 then Bus.DefaultBufferSize else cf_BusBufferSize c.

Definition server_config (s : MCPServerConfig) : Mcp.ServerConfig :=
  {| Mcp.sc_Command := ms_Command s; Mcp.sc_Args := ms_Args s; Mcp.sc_Env := ms_Env s; Mcp.sc_URL := ms_URL s;
     Mcp.sc_Headers := ms_Headers s; Mcp.sc_ToolTimeout := ms_ToolTimeout s |}.

Definition provider_config (p : ProviderConfig) : Providers.ProviderConfig :=
  {| Providers.pc_Name := pv_Name p;
     Providers.pc_Config := {| Providers.fc_Model := pv_Model p; Providers.fc_APIKey := pv_APIKey p; Providers.fc_APIBase := pv_APIBase p;
                               Providers.fc_PromptCaching := pv_PromptCaching p |} |}.

Definition factory_text (e : Providers.factory_error) : string :=
  match e with
  | Providers.ErrModelRequired => "model is required"
  | Providers.ErrKeyRequired model => "api_key is required for anthropic (model: " +:+ model +:+ ")"
  | Providers.ErrBaseRequired protocol model => "api_base is required for protocol " +:+ go_quote protocol +:+ " (model: " +:+ model +:+ ")"
  end.
Definition providers_text (e : Providers.providers_error) : string :=
  match e with
  | Providers.ErrNoProviders => "at least one provider is required"
  | Providers.ErrCreateLLM i name e => "create LLM [" +:+ pretty i +:+ "] " +:+ name +:+ ": " +:+ factory_text e
  end.

Definition models (c : Config) : result goerror (list Providers.LLMEntry * option Providers.LLM) :=
  match Providers.NewProviders (provider_config <$> cf_Providers c) with
  | Err e => Err (ErrText (providers_text e))
  | Ok m => Ok m
  end.

(** What the tools are given: the fields of [tools.Deps], of those that are interfaces or
    pointers whether there is one. *)
Record tool_deps := {
  td_Bus : bool; td_Stores : bool; td_TenantStore : bool; td_ObjectDir : string; td_exec : exec_deps; td_Restrict : bool;
  td_Allowed : list string; td_RateLimiter : option (float64 * Z); td_VectorStore : bool; td_Embedder : bool; td_Events : bool;
  td_SkillsLoader : bool; td_Cron : bool; td_Subagent : bool; td_SkillSearcher : bool; td_SkillInstaller : bool;
}.

(** [full]: with the database and the bus. *)
Definition tool_deps_of (full : bool) (c : Config) : tool_deps :=
  {| td_Bus := full; td_Stores := full; td_TenantStore := full; td_ObjectDir := or_else (os_Dir (cf_ObjectStore c)) "data/objects";
     td_exec := tool_exec_deps c; td_Restrict := sb_RestrictToWorkspace (cf_Sandbox c); td_Allowed := sb_AllowedPaths (cf_Sandbox c);
     td_RateLimiter := if SFltb f64_zero (sb_RateLimit (cf_Sandbox c))
                       then Some (sb_RateLimit (cf_Sandbox c), if sb_RateBurst (cf_Sandbox c) <=? 0 then 10 else sb_RateBurst (cf_Sandbox c))
                       else None;
     td_VectorStore := false; td_Embedder := false; td_Events := false; td_SkillsLoader := false; td_Cron := false; td_Subagent := false;
     td_SkillSearcher := false; td_SkillInstaller := false |}.

(** The fields that [BuildFullDeps] sets when the tools are already built; they share the
    record. *)
Definition inject (vector embedder : bool) (d : tool_deps) : tool_deps :=
  {| td_Bus := td_Bus d; td_Stores := td_Stores d; td_TenantStore := td_TenantStore d; td_ObjectDir := td_ObjectDir d; td_exec := td_exec d;
     td_Restrict := td_Restrict d; td_Allowed := td_Allowed d; td_RateLimiter := td_RateLimiter d; td_VectorStore := vector;
     td_Embedder := embedder; td_Events := true; td_SkillsLoader := true; td_Cron := true; td_Subagent := td_Subagent d;
     td_SkillSearcher := td_SkillSearcher d; td_SkillInstaller := td_SkillInstaller d |}.

Definition embedding_dimension (c : Config) : Z := if em_Dimension (cf_Embedding c) <=? 0 then 768 else em_Dimension (cf_Embedding c).
Definition has_vectors (c : Config) : bool := negb (str_empty (vd_Addr (cf_VectorDB c))).
Definition has_embedder (c : Config) : bool :=
  has_vectors c && negb (str_empty (em_APIBase (cf_Embedding c))) && negb (str_empty (em_APIKey (cf_Embedding c))).

(** Which model: the one with the failover, or the one for summaries. *)
Inductive which_model := PrimaryLLM | SummaryLLM.
Definition cheap_model {A} (summary : option A) : which_model := match summary with Some _ => SummaryLLM | None => PrimaryLLM end.

Definition jwt_expiry : duration := 24 * Hour.
Definition jwt_config (secret : string) : Auth.JWTConfig := {| Auth.jc_Secret := secret; Auth.jc_Expiry := jwt_expiry |}.

Section boot.
Context {W Cl : Type}.
Context (open_db : string → W → W * option goerror) (migrate : W → W * option goerror).
Context (new_jsonl : string → W → W * option goerror).
Context (connect : list (string * Mcp.ServerConfig) → W → option (W * result goerror (list Cl * list string))).
Context (register_builtins seed : W → W * option goerror) (warmup cleanup : string → W → W).
Context (qdrant_new : string → Z → W → W * option goerror).
(** [time.ParseDuration]; which tools [functiontool.New] makes; an order of the map of the servers. *)
Context (parse_duration : string → result goerror duration) (built : string → bool).
Context (range_mcp : gmap string MCPServerConfig → list (string * MCPServerConfig)).

(** ** session.go, database.go, tools.go *)

Definition NewSessionService (c : Config) : step_of W session_kind :=
  if bool_decide (se_Type (cf_Session c) = "jsonl"%string) then
    let dir := or_else (se_Dir (cf_Session c)) "data/sessions" in
    _ <~ wrapped "jsonl session" (try_step (new_jsonl dir)) ;; step_ret (SessJSONL dir)
  else step_ret SessMemory.

Definition NewDatabase (c : Config) : step_of W () :=
  if str_empty (cf_MySQLDSN c) then pure_step (Err (ErrText "mysql_dsn is required"))
  else _ <~ wrapped "open mysql" (try_step (open_db (cf_MySQLDSN c))) ;; wrapped "auto migrate" (try_step migrate).

(** The tools by their names. *)
Definition build_tools (d : tool_deps) : list string :=
  BuildAllTools (λ name, if built name then Some name else None) (λ _ name, name) (td_Subagent d).
Definition BuildLightweightTools (c : Config) : list string := build_tools (tool_deps_of false c).
Definition BuildFullTools (c : Config) : list string * tool_deps := (build_tools (tool_deps_of true c), tool_deps_of true c).

(** ** deps.go *)

(** The servers of the configuration, if there are any. *)
Definition connect_servers (c : Config) : step_of W (list Cl * list string) :=
  if bool_decide (cf_MCP c = ∅) then step_ret ([], [])
  else wrapped "mcp connect" (connect (prod_map id server_config <$> range_mcp (cf_MCP c))).

Record core_deps := {
  cd_bus : Bus.ChannelBus; cd_session : session_kind; cd_llm : list Providers.LLMEntry; cd_summary : option Providers.LLM;
  cd_tools : list string; cd_clients : list Cl;
}.

Definition BuildCoreDeps (c : Config) : step_of W core_deps :=
  session <~ NewSessionService c ;;
  models <~ pure_step (models c) ;;
  mcp <~ connect_servers c ;;
  step_ret {| cd_bus := Bus.New (bus_size c); cd_session := session; cd_llm := models.1; cd_summary := models.2;
              cd_tools := BuildLightweightTools c ++ mcp.2; cd_clients := mcp.1 |}.

Record full_deps := {
  fd_core : core_deps; fd_tool_deps : tool_deps; fd_consolidation : option which_model; fd_channels : gmap string (channel Bus.ChannelBus);
  fd_heartbeat : option (Heartbeat.HeartbeatConfig * option which_model); fd_marketplace : Auth.JWTConfig;
}.

(** The vector store and the embedder: whether there are any. *)
Definition vectors (c : Config) : step_of W (bool * bool) :=
  if has_vectors c then
    _ <~ wrapped "qdrant connect" (try_step (qdrant_new (vd_Addr (cf_VectorDB c)) (embedding_dimension c))) ;;
    step_ret (true, has_embedder c)
  else step_ret (false, false).

Definition heartbeat (c : Config) (summary : option Providers.LLM) : result goerror (option (Heartbeat.HeartbeatConfig * option which_model)) :=
  let s := cf_Scheduler c in
  if str_empty (sd_HeartbeatInterval s) then Ok None
  else
    match parse_duration (sd_HeartbeatInterval s) with
    | Err e => Err (wrap_err "parse heartbeat interval" e)
    | Ok interval =>
        let llm := bool_decide (sd_DecisionMode s = "llm"%string) in
        Ok (Some ({| Heartbeat.hc_Interval := interval; Heartbeat.hc_Channel := sd_HeartbeatChannel s;
                     Heartbeat.hc_DecisionMode := sd_DecisionMode s; Heartbeat.hc_HasLLM := llm |},
                  if llm then Some (cheap_model summary) else None))
    end.

Definition BuildFullDeps (c : Config) : step_of W full_deps :=
  _ <~ NewDatabase c ;;
  session <~ NewSessionService c ;;
  models <~ pure_step (models c) ;;
  let '(tools, tdeps) := BuildFullTools c in
  mcp <~ connect_servers c ;;
  let cacheDir := or_else (cf_SkillCacheDir c) "data/skill-cache" in
  _ <~ wrapped "register builtins" (try_step register_builtins) ;;
  _ <~ run_step (warmup cacheDir) ;;
  _ <~ run_step (cleanup cacheDir) ;;
  vec <~ vectors c ;;
  let consolidation := if vec.1 && vec.2 then Some (cheap_model models.2) else None in
  _ <~ wrapped "seed data" (try_step seed) ;;
  channels <~ pure_step (NewChannels c (Bus.New (bus_size c))) ;;
  heartbeat <~ pure_step (heartbeat c models.2) ;;
  step_ret {| fd_core := {| cd_bus := Bus.New (bus_size c); cd_session := session; cd_llm := models.1; cd_summary := models.2;
                            cd_tools := tools ++ mcp.2; cd_clients := mcp.1 |};
              fd_tool_deps := inject vec.1 vec.2 tdeps; fd_consolidation := consolidation; fd_channels := channels;
              fd_heartbeat := heartbeat; fd_marketplace := jwt_config (cn_JWTSecret (cf_Console c)) |}.

(** ** The programs *)

Definition core_parts (d : core_deps) : BootstrapDeps (channel Bus.ChannelBus) :=
  {| bd_HasSummaryLLM := match cd_summary d with Some _ => true | None => false end; bd_Tools := ATool <$> cd_tools d; bd_Channels := ∅;
     bd_HasCron := false; bd_HasHeartbeat := false; bd_MCPClients := length (cd_clients d); bd_Plugins := 0 |}.
(** [channels]: whether the program keeps the transports. *)
Definition full_parts (channels : bool) (d : full_deps) : BootstrapDeps (channel Bus.ChannelBus) :=
  {| bd_HasSummaryLLM := match cd_summary (fd_core d) with Some _ => true | None => false end; bd_Tools := ATool <$> cd_tools (fd_core d);
     bd_Channels := if channels then fd_channels d else ∅; bd_HasCron := true;
     bd_HasHeartbeat := match fd_heartbeat d with Some _ => true | None => false end; bd_MCPClients := length (cd_clients (fd_core d));
     bd_Plugins := match fd_consolidation d with Some _ => 1 | None => 0 end |}.

Context {Runner : Type} (new_runner : string → string → list string → result goerror Runner).

Abbreviation TheApp := (App Runner (channel Bus.ChannelBus)).

Definition boot_app (c : Config) (d : BootstrapDeps (channel Bus.ChannelBus)) : step_of W TheApp :=
  wrapped "bootstrap" (pure_step (Bootstrap new_runner c d)).

(** The secrets of the console: for its tokens and for the keys of providers. *)
Record console_secrets := { cs_jwt : string; cs_encryption : string }.

(** [abot console], which makes a secret of the clock when there is none. *)
Definition abot_secrets (now36 : string) (c : Config) : console_secrets :=
  let secret := or_else (cn_JWTSecret (cf_Console c)) ("abot-ephemeral-" +:+ now36) in {| cs_jwt := secret; cs_encryption := secret |}.
(** [abot-server] and [abot-web]. *)
Definition server_secrets (c : Config) : result goerror console_secrets :=
  let secret := cn_JWTSecret (cf_Console c) in
  if str_empty secret then Err (ErrText "console.jwt_secret is required; refusing to start with an empty secret")
  else Ok {| cs_jwt := secret; cs_encryption := or_else (cn_EncryptionSecret (cf_Console c)) secret |}.

Definition console_addr (c : Config) : string := or_else (cn_Addr (cf_Console c)) ":3000".
Definition static_dir (c : Config) : string := or_else (cn_StaticDir (cf_Console c)) "web/out".

(** What a program comes to: the application with everything ([Run]), or with the
    services only ([RunServices]) and a console or a terminal in front. *)
Inductive front := Gateway (marketplace : Auth.JWTConfig) | ConsoleFront (secrets : console_secrets) (addr : string) (static : option string)
  | TerminalFront (services : bool) (tenantID userID : string).

Definition with_cli (tenantID userID : string) (c : Config) : Config :=
  {| cf_AppName := cf_AppName c; cf_MySQLDSN := cf_MySQLDSN c; cf_ObjectStore := cf_ObjectStore c; cf_VectorDB := cf_VectorDB c;
     cf_Embedding := cf_Embedding c; cf_Cache := cf_Cache c; cf_Providers := cf_Providers c; cf_Agents := cf_Agents c;
     cf_Plugins := cf_Plugins c; cf_Scheduler := cf_Scheduler c; cf_MCP := cf_MCP c; cf_WeCom := cf_WeCom c; cf_Telegram := cf_Telegram c;
     cf_Discord := cf_Discord c; cf_Feishu := cf_Feishu c; cf_Session := cf_Session c; cf_A2A := cf_A2A c; cf_Sandbox := cf_Sandbox c;
     cf_Console := cf_Console c; cf_SkillCacheDir := cf_SkillCacheDir c; cf_ContextWindow := cf_ContextWindow c;
     cf_BusBufferSize := cf_BusBufferSize c; cf_HealthAddr := cf_HealthAddr c; cf_CLITenantID := tenantID; cf_CLIUserID := userID;
     cf_CLINoMarkdown := cf_CLINoMarkdown c |}.

Definition runGateway (c : Config) : step_of W (TheApp * front) :=
  d <~ wrapped "build deps" (BuildFullDeps c) ;;
  app <~ boot_app c (full_parts true d) ;;
  step_ret (app, Gateway (fd_marketplace d)).

(** [starts]: which parts cannot be started. *)
Context (starts : part → option goerror).
Definition run_services (a : TheApp) : step_of W () :=
  match (RunServices starts a).2 with Some e => pure_step (Err (wrap_err "run services" e)) | None => step_ret () end.

(** The agents of the database are loaded into the registry ([LoadAllAgents] of
    [AgentManager], for every tenant); an error is logged. *)
Context (load_agents : AgentRegistry Runner → W → W * AgentRegistry Runner).
Definition with_registry (r : AgentRegistry Runner) (a : TheApp) : TheApp :=
  {| ap_appName := ap_appName a; ap_registry := r; ap_channels := ap_channels a; ap_compressor := ap_compressor a; ap_window := ap_window a;
     ap_a2a := ap_a2a a; ap_health := ap_health a; ap_cron := ap_cron a; ap_heartbeat := ap_heartbeat a; ap_mcp := ap_mcp a;
     ap_plugins := ap_plugins a |}.
Definition load_all (a : TheApp) : step_of W TheApp := λ w,
  let '(w, r) := load_agents (ap_registry a) w in Some (w, Ok (with_registry r a)).

Definition runConsole (now36 : string) (c : Config) : step_of W (TheApp * front) :=
  d <~ wrapped "build deps" (BuildFullDeps c) ;;
  app <~ boot_app c (full_parts false d) ;;
  _ <~ run_services app ;;
  app <~ load_all app ;;
  step_ret (app, ConsoleFront (abot_secrets now36 c) (console_addr c) (Some (static_dir c))).

Definition runAgent (c : Config) : step_of W (TheApp * front) :=
  parts <~ wrapped "build deps"
    (if negb (str_empty (cf_MySQLDSN c)) then d <~ BuildFullDeps c ;; step_ret (full_parts false d)
     else d <~ BuildCoreDeps c ;; step_ret (core_parts d)) ;;
  app <~ boot_app c parts ;;
  _ <~ run_services app ;;
  step_ret (app, TerminalFront true (or_else (cf_CLITenantID c) "default") (or_else (cf_CLIUserID c) "user")).

(** [cmd/abot]: the subcommand, if it is the first argument, and the flags. *)
Definition abot_run (load : result goerror Config) (args : list string) (tenant user now36 : string) : step_of W (TheApp * front) :=
  let subcmd := match args with x :: _ => if bool_decide (x = "agent"%string) || bool_decide (x = "console"%string) then x else "" | [] => "" end in
  c <~ wrapped "load config" (pure_step load) ;;
  match Validate c with
  | Some e => pure_step (Err e)
  | None =>
      let c := with_cli tenant user c in
      if bool_decide (subcmd = "agent"%string) then runAgent c
      else if bool_decide (subcmd = "console"%string) then runConsole now36 c
      else runGateway c
  end.

(** [cmd/abot-server] and [cmd/abot-web], which also serves the files of the console. *)
Definition runAPIServer (c : Config) (app : TheApp) : step_of W (TheApp * front) :=
  secrets <~ pure_step (server_secrets c) ;;
  app <~ load_all app ;;
  step_ret (app, ConsoleFront secrets (console_addr c) None).
Definition runWebConsole (c : Config) (app : TheApp) : step_of W (TheApp * front) :=
  secrets <~ pure_step (server_secrets c) ;;
  app <~ load_all app ;;
  step_ret (app, ConsoleFront secrets (console_addr c) (Some (static_dir c))).

Definition console_program (web : bool) (load : result goerror Config) : step_of W (TheApp * front) :=
  c <~ wrapped "load config" (pure_step load) ;;
  match (if web then ValidateForWeb c else ValidateForServer c) with
  | Some e => pure_step (Err (wrap_err "validate config" e))
  | None =>
      d <~ wrapped "build deps" (BuildFullDeps c) ;;
      app <~ boot_app c (full_parts true d) ;;
      _ <~ run_services app ;;
      if web then runWebConsole c app else runAPIServer c app
  end.
Definition server_run : result goerror Config → step_of W (TheApp * front) := console_program false.
Definition web_run : result goerror Config → step_of W (TheApp * front) := console_program true.

(** [cmd/abot-agent]: the agent that is made up when there is none, and the quick start. *)
Definition default_agents (c : Config) : list AgentDefConfig :=
  match cf_Agents c, cf_Providers c with
  | [], p :: _ => [{| ac_ID := "default-bot"; ac_Name := "assistant"; ac_Description := ""; ac_Model := pv_Model p; ac_Routes := [] |}]
  | agents, _ => agents
  end.
Definition with_agents (agents : list AgentDefConfig) (c : Config) : Config :=
  {| cf_AppName := cf_AppName c; cf_MySQLDSN := cf_MySQLDSN c; cf_ObjectStore := cf_ObjectStore c; cf_VectorDB := cf_VectorDB c;
     cf_Embedding := cf_Embedding c; cf_Cache := cf_Cache c; cf_Providers := cf_Providers c; cf_Agents := agents;
     cf_Plugins := cf_Plugins c; cf_Scheduler := cf_Scheduler c; cf_MCP := cf_MCP c; cf_WeCom := cf_WeCom c; cf_Telegram := cf_Telegram c;
     cf_Discord := cf_Discord c; cf_Feishu := cf_Feishu c; cf_Session := cf_Session c; cf_A2A := cf_A2A c; cf_Sandbox := cf_Sandbox c;
     cf_Console := cf_Console c; cf_SkillCacheDir := cf_SkillCacheDir c; cf_ContextWindow := cf_ContextWindow c;
     cf_BusBufferSize := cf_BusBufferSize c; cf_HealthAddr := cf_HealthAddr c; cf_CLITenantID := cf_CLITenantID c; cf_CLIUserID := cf_CLIUserID c;
     cf_CLINoMarkdown := cf_CLINoMarkdown c |}.

(** A configuration of providers, agents and sessions only. *)
Definition minimal_config (providers : list ProviderConfig) (agents : list AgentDefConfig) (session : SessionConfig) : Config :=
  {| cf_AppName := "abot"; cf_MySQLDSN := ""; cf_ObjectStore := {| os_Type := ""; os_Bucket := ""; os_Region := ""; os_Dir := "" |};
     cf_VectorDB := {| vd_Addr := ""; vd_Collection := "" |};
     cf_Embedding := {| em_APIBase := ""; em_APIKey := ""; em_Model := ""; em_Dimension := 0 |};
     cf_Cache := {| ch_TenantSize := 0; ch_SkillSize := 0 |};
     cf_Providers := providers; cf_Agents := agents;
     cf_Plugins := {| pl_AuditLog := false; pl_TokenTracker := false; pl_MemoryConsolidation := false |};
     cf_Scheduler := {| sd_HeartbeatInterval := ""; sd_HeartbeatChannel := ""; sd_DecisionMode := "" |}; cf_MCP := ∅;
     cf_WeCom := {| wm_Token := ""; wm_EncodingAESKey := ""; wm_WebhookURL := ""; wm_WebhookHost := ""; wm_WebhookPort := 0;
                    wm_WebhookPath := ""; wm_ReplyTimeout := 0; wm_AllowFrom := []; wm_TenantID := ""; wm_UserID := "" |};
     cf_Telegram := {| tg_Token := ""; tg_AllowFrom := []; tg_TenantID := ""; tg_PollTimeout := 0 |};
     cf_Discord := {| di_Token := ""; di_AllowFrom := []; di_TenantID := ""; di_GuildID := "" |};
     cf_Feishu := {| fi_AppID := ""; fi_AppSecret := ""; fi_VerificationToken := ""; fi_EncryptKey := ""; fi_WebhookHost := "";
                     fi_WebhookPort := 0; fi_WebhookPath := ""; fi_AllowFrom := []; fi_TenantID := "" |};
     cf_Session := session; cf_A2A := {| aa_Enabled := false; aa_Addr := "" |};
     cf_Sandbox := {| sb_RestrictToWorkspace := false; sb_AllowedPaths := []; sb_ExtraDenyPatterns := []; sb_ExecMemoryMB := 0;
                      sb_ExecCPUSeconds := 0; sb_ExecFileSizeMB := 0; sb_ExecNProc := 0; sb_RateLimit := f64_zero; sb_RateBurst := 0;
                      sb_Level := ""; sb_SandboxBinary := ""; sb_ContainerImage := ""; sb_ContainerRuntime := ""; sb_ContainerBinary := "";
                      sb_ContainerMemMB := 0; sb_ContainerCPUs := ""; sb_ContainerPids := 0; sb_ContainerNetwork := ""; sb_ContainerTmpMB := 0;
                      sb_ContainerDiskMB := 0; sb_ContainerWorkspaceRoot := ""; sb_GVisorBinary := ""; sb_GVisorNetwork := false |};
     cf_Console := {| cn_Addr := ""; cn_JWTSecret := ""; cn_EncryptionSecret := ""; cn_StaticDir := ""; cn_AllowedOrigins := [] |};
     cf_SkillCacheDir := ""; cf_ContextWindow := 128000; cf_BusBufferSize := 0; cf_HealthAddr := ""; cf_CLITenantID := ""; cf_CLIUserID := "";
     cf_CLINoMarkdown := false |}.
Definition quick_config (apiKey : string) : Config :=
  minimal_config
    [{| pv_Name := "openai"; pv_APIBase := "https://api.openai.com/v1"; pv_APIKey := apiKey; pv_Model := "gpt-4o-mini";
        pv_Proxy := ""; pv_MaxTokensField := ""; pv_PromptCaching := false |}]
    [{| ac_ID := "default-bot"; ac_Name := "assistant"; ac_Description := "Quick start assistant"; ac_Model := "gpt-4o-mini"; ac_Routes := [] |}]
    {| se_Type := "memory"; se_Dir := "" |}.

Definition agent_app (c : Config) (tenant user : string) : step_of W (TheApp * front) :=
  d <~ wrapped "build deps" (BuildCoreDeps c) ;;
  app <~ boot_app c (core_parts d) ;;
  step_ret (app, TerminalFront false tenant user).

Definition agent_run (load : result goerror Config) (tenant user : string) : step_of W (TheApp * front) :=
  c <~ wrapped "load config" (pure_step load) ;;
  match ValidateForAgent c with
  | Some e => pure_step (Err (wrap_err "validate config" e))
  | None => agent_app (with_agents (default_agents c) c) tenant user
  end.

Definition runQuick (apiKey tenant user : string) : step_of W (TheApp * front) := agent_app (quick_config apiKey) tenant user.

(** [main] of [cmd/abot-agent], but for [init]: the key may be that of the environment. *)
Definition agent_main (quick : bool) (apiKey envKey : string) (load : result goerror Config) (tenant user : string) : step_of W (TheApp * front) :=
  if quick then
    let key := or_else apiKey envKey in
    if str_empty key then pure_step (Err (ErrText "--api-key required in quick mode (or set OPENAI_API_KEY)")) else runQuick key tenant user
  else agent_run load tenant user.

(** What becomes of the inbound messages: a gateway runs the agent loop, the others do not. *)
Definition program_actions (a : TheApp) (f : front) (e : run_end) : list action :=
  match f with
  | Gateway _ => (Run starts a e).1
  | ConsoleFront _ _ _ => (RunServices starts a).1 ++ Shutdown a
  | TerminalFront services _ _ => if services then (RunServices starts a).1 else []
  end.
End boot.

(** ** Steps *)

Lemma step_bind_Some {W A C} (m : step_of W A) (k : A → step_of W C) w w' r :
  step_bind m k w = Some (w', r) →
  (∃ e, m w = Some (w', Err e) ∧ r = Err e) ∨ ∃ w1 a, m w = Some (w1, Ok a) ∧ k a w1 = Some (w', r).
Proof. unfold step_bind. destruct (m w) as [[w1 [a|e]]|]; [|intros [= <- <-]|done]; [right|left]; eauto. Qed.

Lemma step_bind_Ok {W A C} (m : step_of W A) (k : A → step_of W C) w w' b :
  step_bind m k w = Some (w', Ok b) → ∃ w1 a, m w = Some (w1, Ok a) ∧ k a w1 = Some (w', Ok b).
Proof. intros [(e & _ & ?)|?]%step_bind_Some; done. Qed.

Lemma wrapped_Ok {W A} what (m : step_of W A) w w' a : wrapped what m w = Some (w', Ok a) → m w = Some (w', Ok a).
Proof. unfold wrapped. by destruct (m w) as [[w1 [b|e]]|]. Qed.
Lemma wrapped_Some {W A} what (m : step_of W A) w w' r : wrapped what m w = Some (w', r) → ∃ r', m w = Some (w', r') ∧ (is_ok r' = is_ok r).
Proof. unfold wrapped. destruct (m w) as [[w1 [b|e]]|]; intros; simplify_eq; eexists; done. Qed.
Lemma pure_step_Ok {W A} (r : result goerror A) w (w' : W) a : pure_step r w = Some (w', Ok a) → w' = w ∧ r = Ok a.
Proof. by intros [= -> ->]. Qed.

Lemma pure_step_Some {W A} (r r' : result goerror A) (w w' : W) : pure_step r w = Some (w', r') → w' = w ∧ r' = r.
Proof. by intros [= -> ->]. Qed.
Lemma step_ret_Some {W A} (a : A) (w w' : W) r : step_ret a w = Some (w', r) → w' = w ∧ r = Ok a.
Proof. by intros [= -> ->]. Qed.
Lemma step_ret_Ok {W A} (a b : A) (w w' : W) : step_ret a w = Some (w', Ok b) → w' = w ∧ b = a.
Proof. by intros [= -> ->]. Qed.

Section programs.
Context {W Cl Runner : Type}.
Context (open_db : string → W → W * option goerror) (migrate : W → W * option goerror).
Context (new_jsonl : string → W → W * option goerror).
Context (connect : list (string * Mcp.ServerConfig) → W → option (W * result goerror (list Cl * list string))).
Context (register_builtins seed : W → W * option goerror) (warmup cleanup : string → W → W).
Context (qdrant_new : string → Z → W → W * option goerror).
Context (parse_duration : string → result goerror duration) (built : string → bool).
Context (range_mcp : gmap string MCPServerConfig → list (string * MCPServerConfig)).
Context (new_runner : string → string → list string → result goerror Runner) (starts : part → option goerror).
Context (load_agents : AgentRegistry Runner → W → W * AgentRegistry Runner).

Abbreviation full := (BuildFullDeps open_db migrate new_jsonl connect register_builtins seed warmup cleanup qdrant_new parse_duration built range_mcp).
Abbreviation core := (BuildCoreDeps new_jsonl connect built range_mcp).
Abbreviation servers := (connect_servers connect range_mcp).
Abbreviation abot := (abot_run open_db migrate new_jsonl connect register_builtins seed warmup cleanup qdrant_new parse_duration built range_mcp new_runner starts load_agents).
Abbreviation console := (console_program open_db migrate new_jsonl connect register_builtins seed warmup cleanup qdrant_new parse_duration built range_mcp new_runner starts load_agents).

(** *** What is wired *)

Lemma full_Ok c w w' d : full c w = Some (w', Ok d) →
  fd_marketplace d = jwt_config (cn_JWTSecret (cf_Console c))
  ∧ ∃ vec mcp, cd_tools (fd_core d) = build_tools built (tool_deps_of true c) ++ mcp ∧ fd_tool_deps d = inject vec.1 vec.2 (tool_deps_of true c).
Proof.
  unfold BuildFullDeps. intros (w1 & ? & _ & H1)%step_bind_Ok. apply step_bind_Ok in H1 as (w2 & session & _ & H2).
  apply step_bind_Ok in H2 as (w3 & ms & _ & H3). unfold BuildFullTools in H3. apply step_bind_Ok in H3 as (w4 & mcp & _ & H4).
  apply step_bind_Ok in H4 as (w5 & ? & _ & H5). apply step_bind_Ok in H5 as (w6 & ? & _ & H6).
  apply step_bind_Ok in H6 as (w7 & ? & _ & H7). apply step_bind_Ok in H7 as (w8 & vec & _ & H8).
  apply step_bind_Ok in H8 as (w9 & ? & _ & H9). apply step_bind_Ok in H9 as (w10 & chans & _ & H10).
  apply step_bind_Ok in H10 as (w11 & hb & _ & H11). apply step_ret_Ok in H11 as [_ ->].
  split; [reflexivity|]. exists vec, mcp.2. split; reflexivity.
Qed.

(** Subtasks and the search of remote skills are never provided: the tools of subtasks are
    not built, and those of skills have nothing to ask. *)
Theorem never_provided c w w' d : full c w = Some (w', Ok d) →
  td_Subagent (fd_tool_deps d) = false ∧ td_SkillSearcher (fd_tool_deps d) = false ∧ td_SkillInstaller (fd_tool_deps d) = false
  ∧ ∃ mcp, cd_tools (fd_core d) = build_tools built (tool_deps_of true c) ++ mcp
      ∧ ("subagent"%string ∉ build_tools built (tool_deps_of true c)) ∧ ("list_tasks"%string ∉ build_tools built (tool_deps_of true c)).
Proof.
  intros (_ & vec & mcp & Htools & ->)%full_Ok. split_and!; [done..|]. exists mcp. split; [done|].
  assert (∀ name, name ∈ build_tools built (tool_deps_of true c) → name ∈ candidates false) as Hsub.
  { intros name (n & Hn & Hb)%list_elem_of_omap. destruct (built n); by simplify_eq/=. }
  split; intros Hin%Hsub; revert Hin; vm_compute; set_solver.
Qed.

(** *** Who listens *)

(** A program in whose front is no gateway starts the schedulers of its application but
    neither the transports nor the agent loop, whatever becomes of it. *)
Lemma services_listen_to_nothing (a : App Runner (channel Bus.ChannelBus)) f e :
  (∀ m, f ≠ Gateway m) → (AServe PLoop ∉ program_actions starts a f e) ∧ (AStart PChannels ∉ program_actions starts a f e).
Proof.
  intros Hf. assert (∀ x, x = AServe PLoop ∨ x = AStart PChannels → x ∉ (RunServices starts a).1) as Hs.
  { intros x Hx. unfold RunServices, start_part. destruct (ap_cron a), (ap_heartbeat a); cbn; repeat (case_match; cbn);
      rewrite ?elem_of_cons; intros Hin; destruct Hx as [-> | ->]; destruct_or?; try done; by apply elem_of_nil in Hin. }
  assert (∀ x, x = AServe PLoop ∨ x = AStart PChannels → x ∉ Shutdown a) as Hd.
  { intros x Hx. unfold Shutdown. rewrite !elem_of_app. destruct Hx as [-> | ->]; intros Hin; destruct_or?;
      repeat match goal with
             | H : _ ∈ (if ?b then _ else _) |- _ => destruct b
             | H : _ ∈ [_] |- _ => apply list_elem_of_singleton in H
             | H : _ ∈ [] |- _ => by apply elem_of_nil in H
             | H : _ ∈ _ <$> seq _ _ |- _ => apply list_elem_of_fmap in H as (? & ? & _)
             end; done. }
  destruct f as [m|secrets addr static|services t u]; [by destruct (Hf m)|..]; cbn.
  - split; rewrite elem_of_app; intros [Hin|Hin]; revert Hin; first [by apply Hs; auto|by apply Hd; auto].
  - destruct services; [|by split; apply not_elem_of_nil]. split; apply Hs; auto.
Qed.

Lemma console_runs web c a w w' app f :
  (if web : bool then runWebConsole load_agents c a else runAPIServer load_agents c a) w = Some (w', Ok (app, f)) →
  ∃ secrets r static, server_secrets c = Ok secrets ∧ app = with_registry r a ∧ f = ConsoleFront secrets (console_addr c) static.
Proof.
  destruct web; unfold runWebConsole, runAPIServer; intros (w1 & secrets & [-> Hs]%pure_step_Ok & H1)%step_bind_Ok;
    apply step_bind_Ok in H1 as (w2 & a' & Ha & [_ [= -> ->]]%step_ret_Ok); unfold load_all in Ha; destruct (load_agents _ _) as [w3 r];
    injection Ha as _ <-; by eexists _, _, _.
Qed.

(** The consoles answer their own requests, but the messages of the schedulers and of the
    tools go to a bus of which nobody takes them: such a program starts no agent loop and no
    transports, its application has a cron scheduler, and its bus accepts no more
    messages in a direction than it has room for.  The secrets of its tokens are those of the
    configuration, and never empty. *)
Theorem consoles_do_not_listen web c w w' app f :
  console web (Ok c) w = Some (w', Ok (app, f)) →
  (∃ secrets addr static, f = ConsoleFront secrets addr static ∧ cs_jwt secrets = cn_JWTSecret (cf_Console c) ∧ cs_jwt secrets ≠ "" ∧ cs_encryption secrets ≠ "")
  ∧ ap_cron app = true
  ∧ (∀ e, (AServe PLoop ∉ program_actions starts app f e) ∧ (AStart PChannels ∉ program_actions starts app f e))
  ∧ ∀ s, Bus.bus_reachable (bus_size c) s →
      (Bus.del_in s = [] → Z.of_nat (length (Bus.acc_in s)) ≤ bus_size c) ∧ (Bus.del_out s = [] → Z.of_nat (length (Bus.acc_out s)) ≤ bus_size c).
Proof.
  unfold console_program. intros (w1 & c' & Hc%wrapped_Ok & H1)%step_bind_Ok. apply pure_step_Ok in Hc as [-> [= <-]].
  destruct (if web then _ else _) as [e|]; [done|]. apply step_bind_Ok in H1 as (w2 & d & _ & H2). apply step_bind_Ok in H2 as (w3 & a & Ha & H3).
  apply step_bind_Ok in H3 as (w4 & ? & _ & (secrets & r & static & Hs & -> & ->)%console_runs).
  unfold server_secrets in Hs. destruct (str_empty (cn_JWTSecret _)) eqn:He; [done|]. injection Hs as <-.
  assert (cn_JWTSecret (cf_Console c) ≠ "") as Hne by (intros Heq; by rewrite Heq in He).
  split; [|split; [|split]].
  - eexists _, _, _. split; [done|]. cbn. split_and!; [done|done|]. unfold or_else. destruct (str_empty (cn_EncryptionSecret _)) eqn:Hen; [done|].
    intros Heq. by rewrite Heq in Hen.
  - apply wrapped_Ok, pure_step_Ok in Ha as [_ Ha]. unfold Bootstrap in Ha. destruct (register_agents _ _ _ _); cbn in Ha; [|done]. by injection Ha as <-.
  - intros e. by apply services_listen_to_nothing.
  - intros s Hs. destruct (Bus.bus_fifo _ _ Hs) as (Hin & Hout & Hsi & Hso). unfold Bus.InboundSize, Bus.OutboundSize in *.
    assert ((if bus_size c <=? 0 then Bus.DefaultBufferSize else bus_size c) = bus_size c) as Hsize.
    { unfold bus_size. destruct (Z.leb_spec (cf_BusBufferSize c) 0); [done|]. by destruct (Z.leb_spec (cf_BusBufferSize c) 0); [lia|]. }
    rewrite Hsize in Hsi, Hso. split; intros Hd; [rewrite Hin, Hd|rewrite Hout, Hd]; cbn; done.
Qed.

(** *** Secrets *)

(** A gateway may be started without a secret, since [Validate] does not ask for one: then
    its marketplace takes the tokens that anybody signs with the empty key. *)
Theorem gateway_without_secret `{Auth.JWTLaws} c tenant user now36 w w' app f tok claims now :
  abot (Ok c) [] tenant user now36 w = Some (w', Ok (app, f)) → cn_JWTSecret (cf_Console c) = ""%string →
  Auth.jwt_sign (Auth.HMAC "HS256") "" claims = Ok tok → now < Auth.cl_ExpiresAt claims →
  ∃ m, f = Gateway m ∧ Auth.ValidateToken m now tok = Ok claims.
Proof.
  intros Hrun Hempty Hsign Hnow. unfold abot_run in Hrun. apply step_bind_Ok in Hrun as (w1 & c' & Hc%wrapped_Ok & H1).
  apply pure_step_Ok in Hc as [-> [= <-]]. destruct (Validate c); [done|]. rewrite !bool_decide_false in H1 by done. unfold runGateway in H1.
  apply step_bind_Ok in H1 as (w2 & d & Hd%wrapped_Ok & H2). apply step_bind_Ok in H2 as (w3 & a & _ & H3). apply step_ret_Ok in H3 as [_ [= -> ->]].
  apply full_Ok in Hd as [Hm _]. cbn in Hm. rewrite Hempty in Hm. eexists. split; [reflexivity|]. rewrite Hm. unfold Auth.ValidateToken.
  by rewrite (Auth.jwt_round_trip _ _ _ _ _ _ Hsign).
Qed.

(** *** Processes *)

Context {P : Type} (alive : P → W → Prop) (process : Cl → option P) (left_over : P → Prop).

(** What the other operations promise about processes: they start none.  Connecting
    starts those of its clients, and leaves only some when it fails. *)
Record BootLaws : Prop := {
  bl_open : ∀ dsn w q, alive q (open_db dsn w).1 → alive q w;
  bl_migrate : ∀ w q, alive q (migrate w).1 → alive q w;
  bl_jsonl : ∀ dir w q, alive q (new_jsonl dir w).1 → alive q w;
  bl_register : ∀ w q, alive q (register_builtins w).1 → alive q w;
  bl_seed : ∀ w q, alive q (seed w).1 → alive q w;
  bl_warmup : ∀ dir w q, alive q (warmup dir w) → alive q w;
  bl_cleanup : ∀ dir w q, alive q (cleanup dir w) → alive q w;
  bl_qdrant : ∀ addr n w q, alive q (qdrant_new addr n w).1 → alive q w;
  bl_connect : ∀ l w w' cs ts q, connect l w = Some (w', Ok (cs, ts)) → alive q w' → alive q w ∨ ∃ c, c ∈ cs ∧ process c = Some q;
  bl_connect_failed : ∀ l w w' e q, connect l w = Some (w', Err e) → alive q w' → alive q w ∨ left_over q;
}.
Context (Hlaws : BootLaws).

Definition starts_none {A} (m : step_of W A) : Prop := ∀ w w' r q, m w = Some (w', r) → alive q w' → alive q w.

Lemma starts_none_bind {A C} (m : step_of W A) (k : A → step_of W C) : starts_none m → (∀ a, starts_none (k a)) → starts_none (step_bind m k).
Proof. intros Hm Hk w w' r q [(e & H1 & _)|(w1 & a & H1 & H2)]%step_bind_Some Hq; [by eapply Hm|]. eapply Hm; [done|]. by eapply Hk. Qed.
Lemma starts_none_pure {A} (r : result goerror A) : starts_none (pure_step r).
Proof. by intros w w' r' q [= -> _]. Qed.
Lemma starts_none_ret {A} (a : A) : starts_none (step_ret a).
Proof. by intros w w' r' q [= -> _]. Qed.
Lemma starts_none_wrapped {A} what (m : step_of W A) : starts_none m → starts_none (wrapped what m).
Proof. intros Hm w w' r q (r' & Hw & _)%wrapped_Some. by eapply Hm. Qed.
Lemma starts_none_try f : (∀ w q, alive q (f w).1 → alive q w) → starts_none (try_step f).
Proof. intros Hf w w' r q Hw Hq. apply Hf. unfold try_step in Hw. by destruct (f w) as [w1 [e|]]; injection Hw as -> _. Qed.
Lemma starts_none_run f : (∀ w q, alive q (f w) → alive q w) → starts_none (run_step f).
Proof. intros Hf w w' r q [= <- _] Hq. by apply Hf. Qed.
Hint Resolve starts_none_pure starts_none_ret starts_none_wrapped starts_none_try starts_none_run : core.

Lemma database_starts_none c : starts_none (NewDatabase open_db migrate c).
Proof.
  unfold NewDatabase. destruct (str_empty _); [auto|]. apply starts_none_bind; [|intros _]; apply starts_none_wrapped, starts_none_try; apply Hlaws.
Qed.
Lemma session_starts_none c : starts_none (NewSessionService new_jsonl c).
Proof. unfold NewSessionService. destruct (bool_decide _); [|auto]. apply starts_none_bind; [|auto]. apply starts_none_wrapped, starts_none_try, Hlaws. Qed.
Lemma vectors_starts_none c : starts_none (vectors qdrant_new c).
Proof. unfold vectors. destruct (has_vectors c); [|auto]. apply starts_none_bind; [|auto]. apply starts_none_wrapped, starts_none_try, Hlaws. Qed.

Lemma servers_alive c w w' r q : servers c w = Some (w', r) → alive q w' →
  alive q w ∨ match r with Ok (cs, _) => ∃ cl, cl ∈ cs ∧ process cl = Some q | Err _ => left_over q end.
Proof.
  unfold connect_servers. destruct (bool_decide _); [intros [= -> <-]; by left|]. unfold wrapped.
  destruct (connect _ w) as [[w1 [[cs ts]|e]]|] eqn:Hc; [| |done]; intros [= <- <-] Hq; [by eapply (bl_connect Hlaws)|by eapply (bl_connect_failed Hlaws)].
Qed.

(** Every process that is new after the parts are put together is that of a client the
    application has, which its end stops; if putting them together fails, no process is left
    but those of servers that were connected before the failure, and what connecting leaves. *)
Theorem boot_processes c w w' r q :
  full c w = Some (w', r) → alive q w' → ¬ alive q w →
  match r with
  | Ok d => (∃ cl, cl ∈ cd_clients (fd_core d) ∧ process cl = Some q) ∧ bd_MCPClients (full_parts false d) = length (cd_clients (fd_core d))
  | Err _ => left_over q ∨ ∃ w1 w2 cs ts, servers c w1 = Some (w2, Ok (cs, ts)) ∧ ∃ cl, cl ∈ cs ∧ process cl = Some q
  end.
Proof.
  unfold BuildFullDeps. intros Hf Hq Hnew. apply step_bind_Some in Hf as [(e & H1 & ->)|(w1 & ? & H1 & Hf)];
    [destruct Hnew; by eapply database_starts_none|]. assert (alive q w1 → alive q w) as Hb1 by (by eapply database_starts_none).
  apply step_bind_Some in Hf as [(e & H2 & ->)|(w2 & session & H2 & Hf)]; [destruct Hnew; apply Hb1; by eapply session_starts_none|].
  assert (alive q w2 → alive q w1) as Hb2 by (by eapply session_starts_none). apply step_bind_Some in Hf as [(e & [-> _]%pure_step_Some & ->)|(w3 & ms & [-> _]%pure_step_Some & Hf)];
    [destruct Hnew; by apply Hb1, Hb2|]. unfold BuildFullTools in Hf.
  apply step_bind_Some in Hf as [(e & H4 & ->)|(w4 & [cs ts] & H4 & Hf)].
  { destruct (servers_alive _ _ _ _ _ H4 Hq) as [?|?]; [destruct Hnew; auto|by left]. }
  assert (alive q w4 → ∃ cl, cl ∈ cs ∧ process cl = Some q) as Hcl.
  { intros Hq4. destruct (servers_alive _ _ _ _ _ H4 Hq4) as [?|?]; [destruct Hnew; auto|done]. }
  cbv zeta in Hf. cbn [fst snd] in Hf.
  assert (alive q w4 ∧ ∀ d, r = Ok d → cd_clients (fd_core d) = cs) as [Hq4 Hd].
  { split.
    - revert Hf Hq. match goal with |- ?m w4 = _ → _ => enough (starts_none m) as Hs by (intros; by eapply Hs) end.
      repeat first [apply starts_none_bind; [|intros ?] | apply starts_none_wrapped | apply starts_none_try | apply starts_none_run
                   | apply vectors_starts_none | apply starts_none_pure | apply starts_none_ret]; intros ? ?; apply Hlaws.
    - intros d ->. do 7 apply step_bind_Ok in Hf as (? & ? & _ & Hf). apply step_ret_Ok in Hf as [_ ->]. reflexivity. }
  destruct r as [d|e].
  - rewrite (Hd d eq_refl). split; [by apply Hcl|]. cbn. by rewrite (Hd d eq_refl).
  - right. exists w2, w4, cs, ts. split; [done|]. by apply Hcl.
Qed.
End programs.

(** ** Making and loading configurations

    The wizard of [cmd/abot-agent/init.go], [pkg/bootstrap/config.go] and
    [pkg/config/allowlist.go].  The YAML library, the environment and the file system are
    arguments.  The lines of the terminal are a list; when it is at its end the scanner gives
    an empty text.  What is printed is left out. *)

Module Setup.

(** *** config.go *)

(** [os.Expand] of Go.  The name after a dollar sign, with the bytes it takes. *)
Definition is_shell_special (c : ascii) : bool :=
  is_digit_byte c || existsb (Ascii.eqb c) ["*"; "#"; "$"; "@"; "!"; "?"; "-"]%char.
Definition is_alpha_num (c : ascii) : bool := Ascii.eqb c "_" || is_digit_byte c || is_lower_byte c || is_upper_byte c.

Fixpoint to_brace (l : bytes) : option bytes :=
  match l with
  | [] => None
  | c :: l => if Ascii.eqb c "}" then Some [] else cons c <$> to_brace l
  end.
Fixpoint alpha_nums (l : bytes) : bytes :=
  match l with c :: l => if is_alpha_num c then c :: alpha_nums l else [] | [] => [] end.

Definition getShellName (l : bytes) : bytes * nat :=
  match l with
  | [] => ([], 0%nat)
  | c :: rest =>
      if Ascii.eqb c "{" then
        match rest with
        | d :: e :: _ =>
            if is_shell_special d && Ascii.eqb e "}" then ([d], 3%nat)
            else match to_brace rest with
                 | None => ([], 1%nat)
                 | Some [] => ([], 2%nat)
                 | Some name => (name, S (S (length name)))
                 end
        | _ => match to_brace rest with
               | None => ([], 1%nat)
               | Some [] => ([], 2%nat)
               | Some name => (name, S (S (length name)))
               end
        end
      else if is_shell_special c then ([c], 1%nat)
      else (alpha_nums l, length (alpha_nums l))
  end.

Definition no_more (l : bytes) : bool := match l with [] => true | _ => false end.

(** [skip] bytes of a reference are still to be passed. *)
Fixpoint expand (getenv : string → string) (skip : nat) (l : bytes) : bytes :=
  match l with
  | [] => []
  | c :: rest =>
      match skip with
      | S k => expand getenv k rest
      | O =>
          if Ascii.eqb c "$" && negb (no_more rest) then
            let '(name, w) := getShellName rest in
            match name with
            | [] => if (w =? 0)%nat then c :: expand getenv 0 rest else expand getenv w rest
            | _ => s2l (getenv (l2s name)) ++ expand getenv w rest
            end
          else c :: expand getenv 0 rest
      end
  end.
Definition ExpandEnv (getenv : string → string) (s : string) : string := l2s (expand getenv 0 (s2l s)).

Section load.
Context (read_file : string → result goerror string) (unmarshal : string → result goerror Config) (getenv : string → string).

Definition load_with (f : string → string) (path : string) : result goerror Config :=
  match read_file path with
  | Err e => Err (wrap_err "read config file" e)
  | Ok data => match unmarshal (f data) with Err e => Err (wrap_err "parse config yaml" e) | Ok c => Ok c end
  end.
Definition LoadConfig : string → result goerror Config := load_with (λ data, data).
Definition LoadConfigWithEnv : string → result goerror Config := load_with (ExpandEnv getenv).

(** A text without a dollar sign means the same to both. *)
Lemma expand_plain l : "$"%char ∉ l → expand getenv 0 l = l.
Proof.
  induction l as [|c l IH]; intros Hl; cbn; [done|]. destruct (Ascii.eqb_spec c "$") as [->|]; [set_solver|]. cbn. f_equal. apply IH. set_solver.
Qed.
Lemma load_plain path data : read_file path = Ok data → "$"%char ∉ s2l data → LoadConfigWithEnv path = LoadConfig path.
Proof.
  intros Hr Hd. unfold LoadConfigWithEnv, LoadConfig, load_with. rewrite Hr. unfold ExpandEnv. by rewrite expand_plain, l2s_s2l.
Qed.

(** A name in braces stands for its value. *)
Lemma to_brace_name name rest : "}"%char ∉ name → to_brace (name ++ "}"%char :: rest) = Some name.
Proof.
  induction name as [|c name IH]; intros Hn; cbn; [done|]. destruct (Ascii.eqb_spec c "}") as [->|]; [set_solver|]. rewrite IH; [done|]. set_solver.
Qed.
Lemma expand_skip l k : expand getenv (length l) (l ++ k) = expand getenv 0 k.
Proof. induction l as [|c l IH]; cbn; [|done]. by destruct k. Qed.
Lemma expand_name name rest : name ≠ [] → "}"%char ∉ name →
  expand getenv 0 (s2l "${" ++ name ++ "}"%char :: rest) = s2l (getenv (l2s name)) ++ expand getenv 0 rest.
Proof.
  intros Hne Hb. assert (getShellName ("{"%char :: name ++ "}"%char :: rest) = (name, S (S (length name)))) as Hname.
  { unfold getShellName. cbn [Ascii.eqb]. destruct name as [|d [|e name]]; [done|..]; cbn -[to_brace is_shell_special].
    - destruct (Ascii.eqb_spec d "}") as [->|Hd]; [set_solver|]. change (to_brace (d :: "}"%char :: rest)) with (to_brace ([d] ++ "}"%char :: rest)).
      rewrite to_brace_name by done. by destruct (is_shell_special d).
    - destruct (Ascii.eqb_spec e "}") as [->|He]; [set_solver|]. rewrite andb_false_r.
      change (d :: e :: name ++ "}"%char :: rest) with ((d :: e :: name) ++ "}"%char :: rest). by rewrite to_brace_name. }
  assert (expand getenv (S (S (length name))) ("{"%char :: name ++ "}"%char :: rest) = expand getenv 0 rest) as Hskip.
  { rewrite <- (expand_skip ("{"%char :: name ++ ["}"%char])). f_equal; [rewrite length_cons, length_app; cbn; lia|]. cbn. by rewrite <- app_assoc. }
  change (s2l "${" ++ name ++ "}"%char :: rest) with ("$"%char :: "{"%char :: name ++ "}"%char :: rest).
  cbn [expand]. rewrite Hname. change (Ascii.eqb "$" "$" && negb (no_more ("{"%char :: name ++ "}"%char :: rest))) with true. cbn iota.
  destruct name as [|d name]; [done|]. by rewrite <- Hskip.
Qed.
End load.

(** *** The example configuration *)

(** The secret of the console in [config.web.example.yaml]. *)
Definition example_secret : string := "${JWT_SECRET}".

(** The programs load the file as it is, so a console that is configured like the example
    is started, and the secret of its tokens is the text of the example, whatever the
    environment says; expanding the variables would have given the value. *)
Theorem example_secret_is_used c : cf_Providers c ≠ [] → cf_MySQLDSN c ≠ ""%string → cn_JWTSecret (cf_Console c) = example_secret →
  ValidateForServer c = None ∧ ValidateForWeb c = None
  ∧ (∃ secrets, server_secrets c = Ok secrets ∧ cs_jwt secrets = example_secret)
  ∧ ∀ getenv, ExpandEnv getenv example_secret = getenv "JWT_SECRET"%string.
Proof.
  intros Hp Hd Hs. assert ((length (cf_Providers c) =? 0)%nat = false) as Hlen by (by destruct (cf_Providers c)).
  assert (str_empty (cf_MySQLDSN c) = false) as Hdsn by (by apply bool_decide_eq_false_2).
  unfold ValidateForServer, ValidateForWeb, validate_console, server_secrets. rewrite Hlen, Hdsn, Hs. split_and!; [done|done| |].
  - by eexists.
  - intros getenv. unfold ExpandEnv, example_secret. change (s2l "${JWT_SECRET}") with (s2l "${" ++ s2l "JWT_SECRET" ++ ["}"%char]).
    rewrite expand_name; [|done|set_solver]. cbn [expand]. by rewrite app_nil_r, !l2s_s2l.
Qed.

(** *** init.go *)

Definition scan_line (lines : list string) : string * list string := match lines with [] => (""%string, []) | l :: ls => (trim_space l, ls) end.

Definition wizard_model (choice : string) : string :=
  if bool_decide (choice = "2"%string) then "gpt-4o" else if bool_decide (choice = "3"%string) then "gpt-4-turbo" else "gpt-4o-mini".

Definition wizard_config (apiKey model agentName : string) (memory : bool) : Config :=
  minimal_config
    [{| pv_Name := "primary"; pv_APIBase := "https://api.openai.com/v1"; pv_APIKey := apiKey; pv_Model := model; pv_Proxy := "";
        pv_MaxTokensField := ""; pv_PromptCaching := false |}]
    [{| ac_ID := "default-bot"; ac_Name := agentName; ac_Description := "A helpful assistant"; ac_Model := model; ac_Routes := [] |}]
    (if memory then {| se_Type := "memory"; se_Dir := "" |} else {| se_Type := "jsonl"; se_Dir := "data/sessions" |}).

Section wizard.
Context {W : Type} (marshal : Config → result goerror string) (write_file : string → string → W → W * option goerror).

Definition runInitWizard (envKey : string) (lines : list string) (w : W) : W * option goerror :=
  let '(apiKey, lines) := if str_empty envKey then scan_line lines else (envKey, lines) in
  if str_empty apiKey then (w, Some (ErrText "API Key 不能为空"))
  else
    let '(modelChoice, lines) := scan_line lines in
    let model := wizard_model (or_else modelChoice "1") in
    let '(name, lines) := scan_line lines in
    let agentName := or_else name "assistant" in
    let '(storage, lines) := scan_line lines in
    let storageChoice := or_else storage "2" in
    match marshal (wizard_config apiKey model agentName (bool_decide (storageChoice = "1"%string))) with
    | Err e => (w, Some (wrap_err "marshal config" e))
    | Ok data => match write_file "config.yaml" data w with
                 | (w, Some e) => (w, Some (wrap_err "write config" e))
                 | (w, None) => (w, None)
                 end
    end.

(** [promptInt], which nothing calls: the number, or the least one for an empty line; an end of
    the terminal is an empty line. *)
Fixpoint promptInt (min max : Z) (lines : list string) : Z :=
  match lines with
  | [] => min
  | line :: lines =>
      let input := trim_space line in
      if str_empty input then min
      else match atoi input with
           | Some n => if (min <=? n) && (n <=? max) then n else promptInt min max lines
           | None => promptInt min max lines
           end
  end.

Lemma promptInt_bounds min max lines : min ≤ max → min ≤ promptInt min max lines ≤ max.
Proof.
  intros Hm. induction lines as [|line lines IH]; cbn; [lia|]. destruct (str_empty _); [lia|]. destruct (atoi _) as [n|]; [|done].
  destruct (Z.leb_spec min n), (Z.leb_spec n max); cbn; lia.
Qed.

(** The models on offer are made with any key. *)
Lemma wizard_models apiKey choice name memory : apiKey ≠ ""%string → ∃ e, models (wizard_config apiKey (wizard_model choice) name memory) = Ok ([e], None).
Proof.
  intros _. unfold models, wizard_config, minimal_config. cbn [cf_Providers fmap list_fmap].
  unfold provider_config. cbn [pv_Name pv_Model pv_APIKey pv_APIBase pv_PromptCaching]. unfold wizard_model.
  destruct (bool_decide (choice = "2"%string)), (bool_decide (choice = "3"%string)); by eexists.
Qed.

Context {Cl Runner : Type} (new_jsonl : string → W → W * option goerror).
Context (connect : list (string * Mcp.ServerConfig) → W → option (W * result goerror (list Cl * list string))) (built : string → bool).
Context (range_mcp : gmap string MCPServerConfig → list (string * MCPServerConfig)) (new_runner : string → string → list string → result goerror Runner).

Lemma session_opens c w : (∀ dir w, (new_jsonl dir w).2 = None) → ∃ w1 k, NewSessionService new_jsonl c w = Some (w1, Ok k).
Proof.
  intros Hj. unfold NewSessionService. destruct (bool_decide _); [|by eexists _, _]. set (dir := or_else _ _).
  specialize (Hj dir w). unfold step_bind, wrapped, try_step. destruct (new_jsonl dir w) as [w1 o]. cbn in Hj. subst o. by eexists _, _.
Qed.

Lemma core_builds c m w : (∀ dir w, (new_jsonl dir w).2 = None) → models c = Ok m → cf_MCP c = ∅ →
  ∃ w1 d, BuildCoreDeps new_jsonl connect built range_mcp c w = Some (w1, Ok d).
Proof.
  intros Hj Hm Hmcp. destruct (session_opens c w Hj) as (w1 & k & Hs). unfold BuildCoreDeps, step_bind at 1. rewrite Hs.
  unfold step_bind, pure_step. rewrite Hm. unfold connect_servers. rewrite bool_decide_true by done. by eexists _, _.
Qed.

Lemma one_agent_boots (c : Config) a (d : core_deps (Cl := Cl)) : cf_Agents c = [a] → (∀ name d ts, is_ok (new_runner name d ts) = true) →
  ∃ app, Bootstrap new_runner c (core_parts d) = Ok app ∧ ∃ entry, AgentRegistry.ar_agents (ap_registry app) = {[ac_ID a := entry]}.
Proof.
  intros Ha Hr. unfold Bootstrap. rewrite Ha. cbn [register_agents]. unfold registerAgent, core_parts. cbn [bd_Tools].
  assert (∀ l, cast_tools (ATool <$> l) = Ok l) as Hcast by (induction l as [|t l IH]; cbn; [done|by rewrite IH]).
  rewrite Hcast. cbn. specialize (Hr (ac_Name a) (ac_Description a) (cd_tools d)). destruct (new_runner _ _ _) as [r|]; [|done].
  eexists. split; [reflexivity|]. eexists. cbn. by rewrite insert_empty.
Qed.

(** Whatever is answered, a wizard that ends well has written a configuration with which
    [abot-agent] starts and its one agent is there, if the session directory can be
    opened and the agent can be made. *)
Theorem wizard_starts envKey lines w w1 tenant user :
  runInitWizard envKey lines w = (w1, None) →
  (∀ dir w, (new_jsonl dir w).2 = None) → (∀ name d ts, is_ok (new_runner name d ts) = true) →
  ∃ c data, marshal c = Ok data ∧ write_file "config.yaml" data w = (w1, None)
    ∧ ∀ load_result, load_result = Ok c → ∀ w2, ∃ w3 app,
        agent_run new_jsonl connect built range_mcp new_runner load_result tenant user w2 = Some (w3, Ok (app, TerminalFront false tenant user))
        ∧ ∃ entry, AgentRegistry.ar_agents (ap_registry app) = {[ "default-bot"%string := entry ]}.
Proof.
  unfold runInitWizard. intros Hw Hjsonl Hrunner.
  destruct (if str_empty envKey then _ else _) as [apiKey lines1]. destruct (str_empty apiKey) eqn:Hkey; [done|].
  destruct (scan_line lines1) as [choice lines2], (scan_line lines2) as [name lines3], (scan_line lines3) as [storage lines4].
  set (c := wizard_config _ _ _ _) in Hw. destruct (marshal c) as [data|e] eqn:Hm; [|done].
  destruct (write_file "config.yaml" data w) as [w0 [e|]] eqn:Hwrite; [done|]. injection Hw as <-.
  exists c, data. split; [done|]. split; [done|]. intros r -> w2.
  destruct (wizard_models apiKey (or_else choice "1") (or_else name "assistant") (bool_decide (or_else storage "2" = "1"%string))) as [e He].
  { intros ->. done. }
  destruct (core_builds c _ w2 Hjsonl He eq_refl) as (w3 & d & Hd).
  destruct (one_agent_boots c _ d eq_refl Hrunner) as (app & Happ & entry & Hentry).
  exists w3, app. split; [|by exists entry]. unfold agent_run, step_bind at 1. cbn [wrapped pure_step].
  change (ValidateForAgent c) with (@None goerror). cbn iota.
  change (with_agents (default_agents c) c) with c. unfold agent_app, step_bind at 1, wrapped at 1. rewrite Hd.
  unfold step_bind, boot_app, wrapped, pure_step. by rewrite Happ.
Qed.
End wizard.

(** *** Examples *)

Definition w_getenv (name : string) : string := if bool_decide (name = "A"%string) then "1" else "".

Example expansions :
  ExpandEnv w_getenv "x$A-${A}.$B|${B}" = "x1-1.|"%string ∧ ExpandEnv w_getenv "5$ ${} $$A ${A" = "5$  A A"%string.
Proof. by vm_compute. Qed.

Definition w_wizard (envKey : string) (lines : list string) : list (string * Config) * option goerror :=
  runInitWizard (W := list (string * Config)) (λ _, Ok ""%string)
    (λ path _ w, (w ++ [(path, wizard_config "" "" "" false)], None)) envKey lines [].

Example wizard_runs : (w_wizard "" ["  "]).2 = Some (ErrText "API Key 不能为空") ∧ (w_wizard "" [" k "; "2"]).2 = None ∧ (w_wizard "k" []).1.*1 = ["config.yaml"%string].
Proof. by vm_compute. Qed.

(** *** [pkg/config/allowlist.go] *)

Section allowlist.
Context (read_file : string → result goerror string) (is_not_exist : goerror → bool).
Context (unmarshal : string → result goerror (AllowlistEntry * gmap string AllowlistEntry)).

Definition defaultAllowlist : SenderAllowlist :=
  {| al_Default := {| al_Allow := ["*"%string]; al_Mode := AllowlistModeTrigger |}; al_Chats := ∅ |}.

Definition LoadAllowlistFromFile (path : string) : result goerror SenderAllowlist :=
  match read_file path with
  | Err e => if is_not_exist e then Ok defaultAllowlist else Err e
  | Ok data =>
      match unmarshal data with
      | Err e => Err e
      | Ok (d, chats) => Ok {| al_Default := d; al_Chats := chats |}
      end
  end.

(** Without the file everybody is allowed in every chat; with a file whose entries are
    absent, nobody is, and nobody's messages are dropped. *)
Theorem allowlist_file path a :
  LoadAllowlistFromFile path = Ok a →
  (∀ e, read_file path = Err e → ∀ c s, al_IsAllowed a c s = true ∧ ShouldDrop a c s = false) ∧
  (∀ data, read_file path = Ok data → unmarshal data = Ok ({| al_Allow := []; al_Mode := AllowlistModeOther "" |}, ∅) →
     ∀ c s, al_IsAllowed a c s = false ∧ ShouldDrop a c s = false).
Proof.
  unfold LoadAllowlistFromFile. intros Ha. split.
  - intros e Hr c s. rewrite Hr in Ha. destruct (is_not_exist e); [|done]. injection Ha as <-.
    unfold ShouldDrop, al_IsAllowed, Types.GetEntry. cbn. by rewrite lookup_empty.
  - intros data Hr Hu c s. rewrite Hr, Hu in Ha. injection Ha as <-.
    unfold ShouldDrop, al_IsAllowed, Types.GetEntry. cbn. by rewrite lookup_empty.
Qed.
End allowlist.

End Setup.
