(* ===== verification/Http.v ===== *)
(** HTTP handlers: what the program uses of [net/http] (patterns, the request multiplexer,
    the response writer), and the middleware of [pkg/api/middleware].

    A handler is a function of the request, the writer and the state; it also says whether
    it panicked.  Patterns are those of the program: a method or none, no host, wildcards
    that stand for one segment, and a trailing slash for everything below. *)
From S2P Require Web.
From S2P Require Import Prelude GoStrings Paths Types Api Accounts Auth RateLimit.

(** ** Patterns *)

Inductive seg := Lit (s : string) | Wild (name : string) | Multi.
Record pattern := { pt_method : string; pt_segs : list seg }.

Definition parse_seg (s : bytes) : seg :=
  match s with
  | [] => Lit ""
  | c :: l => if Ascii.eqb c "{" then Wild (l2s (removelast l)) else Lit (l2s s)
  end.
(** The last segment is empty after a trailing slash. *)
Fixpoint parse_segs (l : list bytes) : list seg :=
  match l with
  | [] => []
  | [[]] => [Multi]
  | s :: l => parse_seg s :: parse_segs l
  end.

(** [parsePattern]. *)
Definition parse_pattern (s : string) : pattern :=
  match split_bytes " " [] (s2l s) with
  | [m; p] => {| pt_method := l2s m; pt_segs := parse_segs (tail (split_bytes slash [] p)) |}
  | _ => {| pt_method := ""; pt_segs := parse_segs (tail (split_bytes slash [] (s2l s))) |}
  end.

Inductive relationship := Equivalent | MoreGeneral | MoreSpecific | Disjoint | Overlaps.

#[global] Instance relationship_eq_dec : EqDecision relationship.
Proof. solve_decision. Defined.

Definition inverse (r : relationship) : relationship :=
  match r with MoreGeneral => MoreSpecific | MoreSpecific => MoreGeneral | r => r end.

(** [combineRelationships]. *)
Definition combine_rel (r1 r2 : relationship) : relationship :=
  match r1 with
  | Equivalent => r2
  | Disjoint => Disjoint
  | Overlaps => if bool_decide (r2 = Disjoint) then Disjoint else Overlaps
  | MoreGeneral | MoreSpecific =>
      if bool_decide (r2 = Equivalent) then r1 else if bool_decide (r2 = inverse r1) then Overlaps else r2
  end.

Definition compare_segs (a b : seg) : relationship :=
  match a, b with
  | Multi, Multi => Equivalent
  | Multi, _ => MoreGeneral
  | _, Multi => MoreSpecific
  | Wild _, Wild _ => Equivalent
  | Wild _, Lit _ => MoreGeneral
  | Lit _, Wild _ => MoreSpecific
  | Lit s, Lit t => if String.eqb s t then Equivalent else Disjoint
  end.

Definition compare_methods (m n : string) : relationship :=
  if String.eqb m n then Equivalent
  else if str_empty m then MoreGeneral
  else if str_empty n then MoreSpecific
  else if String.eqb m "GET" && String.eqb n "HEAD" then MoreGeneral
  else if String.eqb n "GET" && String.eqb m "HEAD" then MoreSpecific
  else Disjoint.

Definition ends_multi (l : list seg) : bool := match last l with Some Multi => true | _ => false end.

(** [comparePaths]: [l] and [k] are what is left of the segments of [p] and [q]. *)
Fixpoint compare_rest (p q l k : list seg) (rel : relationship) : relationship :=
  match l, k with
  | a :: l, b :: k =>
      let rel := combine_rel rel (compare_segs a b) in if bool_decide (rel = Disjoint) then rel else compare_rest p q l k rel
  | [], [] => rel
  | [], _ => if ends_multi p then combine_rel rel MoreGeneral else Disjoint
  | _, [] => if ends_multi q then combine_rel rel MoreSpecific else Disjoint
  end.
Definition compare_paths (p q : list seg) : relationship :=
  if negb (length p =? length q)%nat && negb (ends_multi p) && negb (ends_multi q) then Disjoint else compare_rest p q p q Equivalent.

(** [conflictsWith]. *)
Definition conflicts (p q : pattern) : bool :=
  let m := compare_methods (pt_method p) (pt_method q) in
  if bool_decide (m = Disjoint) then false
  else let r := combine_rel m (compare_paths (pt_segs p) (pt_segs q)) in bool_decide (r = Equivalent ∨ r = Overlaps).

(** ** The multiplexer *)

Definition mux (A : Type) : Type := list (pattern * A).

(** [Handle] panics when the pattern conflicts with one that is registered. *)
Fixpoint registered {A} (l : list (string * A)) (m : mux A) : option (mux A) :=
  match l with
  | [] => Some m
  | (s, a) :: l =>
      let p := parse_pattern s in if existsb (λ qa, conflicts p qa.1) m then None else registered l (m ++ [(p, a)])
  end.
Definition NewServeMux {A} (l : list (string * A)) : option (mux A) := registered l [].

(** [url.PathUnescape], or the text itself. *)
Fixpoint path_unescape_bytes (l : bytes) : option bytes :=
  match l with
  | [] => Some []
  | c :: l =>
      if Ascii.eqb c "%" then
        match l with
        | a :: b :: l => h ← Web.unhex a; d ← Web.unhex b; cons (ascii_of_N (Z.to_N (h * 16 + d))) <$> path_unescape_bytes l
        | _ => None
        end
      else cons c <$> path_unescape_bytes l
  end.
Definition pathUnescape (l : bytes) : string := l2s (default l (path_unescape_bytes l)).

(** The segments of a path that begins with a slash, as [firstSegment] gives them: a
    trailing slash is a segment. *)
Fixpoint segments (l : list bytes) : list string :=
  match l with
  | [] => []
  | [c] => [if bool_decide (c = []) then "/"%string else pathUnescape c]
  | c :: l => pathUnescape c :: segments l
  end.
Definition path_segs (path : string) : list string := segments (tail (parts path)).

(** A node of the routing tree is the patterns that lead through it, with what is left of
    their segments. *)
Definition node (A : Type) : Type := list (list seg * (pattern * A)).

Definition lit_child {A} (s : string) (n : node A) : node A :=
  omap (λ pa, match pa.1 with Lit x :: l => if String.eqb x s then Some (l, pa.2) else None | _ => None end) n.
Definition wild_child {A} (n : node A) : node A :=
  omap (λ pa, match pa.1 with Wild _ :: l => Some (l, pa.2) | _ => None end) n.
Definition multi_child {A} (n : node A) : option (pattern * A) :=
  head (omap (λ pa, match pa.1 with Multi :: _ => Some pa.2 | _ => None end) n).
Definition leaf {A} (n : node A) : option (pattern * A) :=
  head (omap (λ pa, match pa.1 with [] => Some pa.2 | _ => None end) n).

(** [matchPath]: the literal first, then the wildcard, then what matches the rest. *)
Fixpoint match_path {A} (segs : list string) (vals : list string) (n : node A) : option ((pattern * A) * list string) :=
  match segs with
  | [] => (λ pa, (pa, vals)) <$> leaf n
  | s :: rest =>
      match match_path rest vals (lit_child s n) with
      | Some r => Some r
      | None =>
          match (if String.eqb s "/" then None else match_path rest (vals ++ [s]) (wild_child n)) with
          | Some r => Some r
          | None => (λ pa, (pa, vals)) <$> multi_child n
          end
      end
  end.

Definition method_node {A} (meth : string) (m : mux A) : node A :=
  omap (λ pa, if String.eqb (pt_method pa.1) meth then Some (pt_segs pa.1, pa) else None) m.

(** [matchMethodAndPath]. *)
Definition mux_match {A} (m : mux A) (meth : string) (segs : list string) : option ((pattern * A) * list string) :=
  match match_path segs [] (method_node meth m) with
  | Some r => Some r
  | None =>
      match (if String.eqb meth "HEAD" then match_path segs [] (method_node "GET" m) else None) with
      | Some r => Some r
      | None => match_path segs [] (method_node "" m)
      end
  end.

(** [exactMatch]: a pattern that ends in a slash matches exactly if nothing is below it. *)
Definition exact_match {A} (r : option ((pattern * A) * list string)) (segs : list string) : bool :=
  match r with
  | None => false
  | Some (pa, _) =>
      if negb (ends_multi (pt_segs pa.1)) then true
      else match last segs with
           | Some s => String.eqb s "/" && (length (pt_segs pa.1) =? length segs)%nat
           | None => false
           end
  end.

(** [matchingMethods]; those of the program, in order. *)
Definition all_methods : list string := ["DELETE"; "GET"; "HEAD"; "PATCH"; "POST"; "PUT"].
Definition allowed_methods {A} (m : mux A) (segs : list string) : list string :=
  let has meth := bool_decide (is_Some (match_path segs [] (method_node meth m)))
                  || match last segs with
                     | Some s => negb (String.eqb s "/") && bool_decide (is_Some (match_path (segs ++ ["/"%string]) [] (method_node meth m)))
                     | None => false
                     end in
  filter (λ meth, has meth || (String.eqb meth "HEAD" && has "GET"%string) = true) all_methods.

Definition cleanPath (p : string) : string :=
  if str_empty p then "/"%string
  else let p := if IsAbs p then p else "/" +:+ p in
       let np := Clean p in
       if has_suffix p "/" && negb (bool_decide (np = "/"%string)) then np +:+ "/" else np.

Inductive found (A : Type) :=
| Found (pa : pattern * A) (vals : list string) | Redirect (location : string) | NotAllowed (methods : list string) | NoRoute.
Arguments Found {_}. Arguments Redirect {_}. Arguments NotAllowed {_}. Arguments NoRoute {_}.

(** [findHandler] for a path that is clean; [slashed] is where a redirect leads. *)
Definition find_segs {A} (m : mux A) (meth : string) (segs : list string) (slashed : string) : found A :=
  let r := mux_match m meth segs in
  let trailing := match last segs with Some s => String.eqb s "/" | None => false end in
  let more := segs ++ ["/"%string] in
  if negb (exact_match r segs) && negb trailing && exact_match (mux_match m meth more) more then Redirect slashed
  else match r with
       | Some (pa, vals) => Found pa vals
       | None => match allowed_methods m segs with [] => NoRoute | l => NotAllowed l end
       end.

(** [findHandler]: the path of a [CONNECT] is not cleaned, another that is not clean is
    redirected. *)
Definition mux_find {A} (m : mux A) (meth path : string) : found A :=
  let clean := if String.eqb meth "CONNECT" then path else cleanPath path in
  match find_segs m meth (path_segs clean) (cleanPath (pathUnescape (s2l path)) +:+ "/") with
  | Redirect l => Redirect l
  | r => if bool_decide (clean = path) then r else Redirect clean
  end.

(** ** Requests and answers *)

(** The escaped path, the headers (an absent one is empty), the connection, and what the
    middleware puts into the context. *)
Record request := {
  rq_method : string; rq_path : string; rq_origin : string; rq_auth : string; rq_id_header : string; rq_xff : string; rq_xri : string;
  rq_remote : string; rq_tls : bool; rq_now : time; rq_fresh_id : string; rq_body : string;
  rq_ctx_id : string; rq_claims : option Claims; rq_values : list (string * string);
}.
Definition with_values (v : list (string * string)) (r : request) : request :=
  {| rq_method := rq_method r; rq_path := rq_path r; rq_origin := rq_origin r; rq_auth := rq_auth r; rq_id_header := rq_id_header r;
     rq_xff := rq_xff r; rq_xri := rq_xri r; rq_remote := rq_remote r; rq_tls := rq_tls r; rq_now := rq_now r; rq_fresh_id := rq_fresh_id r;
     rq_body := rq_body r; rq_ctx_id := rq_ctx_id r; rq_claims := rq_claims r; rq_values := v |}.
Definition with_id (i : string) (r : request) : request :=
  {| rq_method := rq_method r; rq_path := rq_path r; rq_origin := rq_origin r; rq_auth := rq_auth r; rq_id_header := rq_id_header r;
     rq_xff := rq_xff r; rq_xri := rq_xri r; rq_remote := rq_remote r; rq_tls := rq_tls r; rq_now := rq_now r; rq_fresh_id := rq_fresh_id r;
     rq_body := rq_body r; rq_ctx_id := i; rq_claims := rq_claims r; rq_values := rq_values r |}.
Definition with_claims (c : option Claims) (r : request) : request :=
  {| rq_method := rq_method r; rq_path := rq_path r; rq_origin := rq_origin r; rq_auth := rq_auth r; rq_id_header := rq_id_header r;
     rq_xff := rq_xff r; rq_xri := rq_xri r; rq_remote := rq_remote r; rq_tls := rq_tls r; rq_now := rq_now r; rq_fresh_id := rq_fresh_id r;
     rq_body := rq_body r; rq_ctx_id := rq_ctx_id r; rq_claims := c; rq_values := rq_values r |}.

(** The path of the URL. *)
Definition URL_Path (r : request) : string := pathUnescape (s2l (rq_path r)).
Definition PathValue (name : string) (r : request) : string :=
  default "" (snd <$> find (λ nv, String.eqb nv.1 name) (rq_values r)).

(** A response: the headers that are set, those sent with the status, the text; what the
    wrapper of the logger has seen, and the lines of the log. *)
Record log_line := { ll_method : string; ll_path : string; ll_status : Z; ll_bytes : nat; ll_id : string }.
Record writer := {
  w_header : gmap string string; w_sent : option (Z * gmap string string); w_text : string;
  w_status : Z; w_written : nat; w_log : list log_line;
}.
Definition new_writer : writer := {| w_header := ∅; w_sent := None; w_text := ""; w_status := 0; w_written := 0; w_log := [] |}.

Definition set_header (k v : string) (w : writer) : writer :=
  {| w_header := <[k := v]> (w_header w); w_sent := w_sent w; w_text := w_text w; w_status := w_status w; w_written := w_written w; w_log := w_log w |}.
(** Only the first status is sent. *)
Definition WriteHeader (code : Z) (w : writer) : writer :=
  {| w_header := w_header w; w_sent := match w_sent w with Some x => Some x | None => Some (code, w_header w) end; w_text := w_text w;
     w_status := code; w_written := w_written w; w_log := w_log w |}.
(** Writing sends the status 200 if none is sent. *)
Definition write_text (s : string) (w : writer) : writer :=
  {| w_header := w_header w; w_sent := match w_sent w with Some x => Some x | None => Some (200, w_header w) end; w_text := w_text w +:+ s;
     w_status := w_status w; w_written := w_written w + str_len s; w_log := w_log w |}.

Definition http_error (code : Z) (msg : string) (w : writer) : writer :=
  write_text (msg +:+ lf) (WriteHeader code (set_header "X-Content-Type-Options" "nosniff" (set_header "Content-Type" "text/plain; charset=utf-8" w))).
(** The text that is written for a browser is left out. *)
Definition http_redirect (location : string) (w : writer) : writer := WriteHeader 301 (set_header "Location" location w).

Definition handler (S : Type) : Type := request → writer → S → S * writer * bool.

Definition wild_names (p : pattern) : list string := omap (λ s, match s with Wild n => Some n | _ => None end) (pt_segs p).

Definition ServeHTTP {S} (m : mux (handler S)) : handler S := λ r w s,
  match mux_find m (rq_method r) (rq_path r) with
  | Found pa vals => pa.2 (with_values (zip (wild_names pa.1) vals) r) w s
  | Redirect l => (s, http_redirect l w, false)
  | NotAllowed l => (s, http_error 405 "Method Not Allowed" (set_header "Allow" (join l ", ") w), false)
  | NoRoute => (s, http_error 404 "404 page not found" w, false)
  end.

(** ** Middleware *)

Definition GetRequestID (r : request) : string := rq_ctx_id r.

Definition internal_error (id : string) : string :=
  "{" +:+ quoted "error" +:+ ":{" +:+ quoted "code" +:+ ":" +:+ quoted "INTERNAL_ERROR" +:+ "," +:+ quoted "message" +:+ ":"
  +:+ quoted "Internal server error" +:+ "," +:+ quoted "request_id" +:+ ":" +:+ quoted id +:+ "}}".

Definition Recovery {S} (next : handler S) : handler S := λ r w s,
  match next r w s with
  | (s, w, true) =>
      (s, write_text (internal_error (GetRequestID r)) (WriteHeader 500 (set_header "Content-Type" "application/json" w)), false)
  | r => r
  end.

Definition RequestID {S} (next : handler S) : handler S := λ r w s,
  let requestID := if str_empty (rq_id_header r) then rq_fresh_id r else rq_id_header r in
  next (with_id requestID r) (set_header "X-Request-ID" requestID w) s.

(** The wrapped writer starts with the status 200; a panic passes the log by. *)
Definition start_log (w : writer) : writer :=
  {| w_header := w_header w; w_sent := w_sent w; w_text := w_text w; w_status := 200; w_written := 0; w_log := w_log w |}.
Definition end_log (r : request) (w : writer) : writer :=
  {| w_header := w_header w; w_sent := w_sent w; w_text := w_text w; w_status := w_status w; w_written := w_written w;
     w_log := w_log w ++ [{| ll_method := rq_method r; ll_path := URL_Path r; ll_status := w_status w; ll_bytes := w_written w;
                             ll_id := GetRequestID r |}] |}.
Definition Logger {S} (next : handler S) : handler S := λ r w s,
  match next r (start_log w) s with
  | (s, w, false) => (s, end_log r w, false)
  | r => r
  end.

Record SecurityConfig := {
  sy_ContentSecurityPolicy : string; sy_XFrameOptions : string; sy_XContentTypeOptions : string;
  sy_StrictTransportSecurity : string; sy_ReferrerPolicy : string;
}.
Definition DefaultSecurityConfig : SecurityConfig :=
  {| sy_ContentSecurityPolicy := "default-src 'self'"; sy_XFrameOptions := "DENY"; sy_XContentTypeOptions := "nosniff";
     sy_StrictTransportSecurity := "max-age=31536000; includeSubDomains"; sy_ReferrerPolicy := "strict-origin-when-cross-origin" |}.

Definition set_unless (skip : bool) (k v : string) (w : writer) : writer := if skip then w else set_header k v w.
Definition security_headers (cfg : SecurityConfig) (r : request) (w : writer) : writer :=
  let w := set_unless (str_empty (sy_ContentSecurityPolicy cfg)) "Content-Security-Policy" (sy_ContentSecurityPolicy cfg) w in
  let w := set_unless (str_empty (sy_XFrameOptions cfg)) "X-Frame-Options" (sy_XFrameOptions cfg) w in
  let w := set_unless (str_empty (sy_XContentTypeOptions cfg)) "X-Content-Type-Options" (sy_XContentTypeOptions cfg) w in
  let w := set_unless (str_empty (sy_StrictTransportSecurity cfg) || negb (rq_tls r)) "Strict-Transport-Security" (sy_StrictTransportSecurity cfg) w in
  set_unless (str_empty (sy_ReferrerPolicy cfg)) "Referrer-Policy" (sy_ReferrerPolicy cfg) w.
Definition SecurityHeaders {S} (cfg : SecurityConfig) (next : handler S) : handler S := λ r w s, next r (security_headers cfg r w) s.

(** A star allows every origin, or every subdomain. *)
Definition isAllowedOrigin (origin : string) (allowed : list string) : bool :=
  existsb (λ a, bool_decide (a = "*"%string) || bool_decide (a = origin) || (has_prefix a "*." && has_suffix origin (l2s (tail (s2l a))))) allowed.

Definition allow_origin (origin : string) (w : writer) : writer :=
  set_header "Access-Control-Max-Age" "3600" (set_header "Access-Control-Allow-Credentials" "true"
    (set_header "Access-Control-Allow-Headers" "Content-Type, Authorization"
      (set_header "Access-Control-Allow-Methods" "GET, POST, PUT, PATCH, DELETE, OPTIONS" (set_header "Access-Control-Allow-Origin" origin w)))).

Definition CORS {S} (allowed : list string) (next : handler S) : handler S := λ r w s,
  let w := if negb (str_empty (rq_origin r)) && isAllowedOrigin (rq_origin r) allowed then allow_origin (rq_origin r) w else w in
  if bool_decide (rq_method r = "OPTIONS"%string) then (s, WriteHeader 204 w, false) else next r w s.

(** The state of the handlers, with the limiter of the middleware. *)
Record world (S : Type) := { wd_state : S; wd_limiter : rateLimiter }.
Arguments wd_state {_}. Arguments wd_limiter {_}. Arguments Build_world {_}.

Definition limited {S} (next : handler (world S)) : handler (world S) := λ r w s,
  let '(rl, answer) := RateLimit (rq_xff r) (rq_xri r) (rq_remote r) (rq_now r) (wd_limiter s) in
  let s := {| wd_state := wd_state s; wd_limiter := rl |} in
  match answer with
  | Some (code, body) => (s, write_text body (WriteHeader code (set_header "Content-Type" "application/json" w)), false)
  | None => next r w s
  end.

Section auth.
Context `{JWT}.

Definition error_json (msg : string) : string := "{" +:+ quoted "error" +:+ ":" +:+ quoted msg +:+ "}".

(** [AuthMiddleware] of [Auth], which decides. *)
Definition authenticated {S} (cfg : JWTConfig) (next : handler S) : handler S := λ r w s,
  let '(s', resp) := AuthMiddleware (D := writer * bool) cfg (rq_now r) (rq_auth r)
    (λ c s, let '(s, w', p) := next (with_claims c r) w s in (s, {| rs_Status := 200; rs_Body := Data (w', p) |})) s in
  match rs_Body resp with
  | Data (w', p) => (s', w', p)
  | TextBody msg => (s', http_error (rs_Status resp) (error_json msg) w, false)
  | _ => (s', w, false)
  end.
End auth.

(** ** Lemmas *)

Lemma registered_all {A} (l : list (string * A)) m m' : registered l m = Some m' → m' = m ++ (prod_map parse_pattern id <$> l).
Proof.
  revert m. induction l as [|[s a] l IH]; intros m; cbn; [intros [= <-]; by rewrite app_nil_r|].
  destruct (existsb _ m); [done|]. intros ->%IH. by rewrite <- app_assoc.
Qed.
Lemma NewServeMux_all {A} (l : list (string * A)) m : NewServeMux l = Some m → m = prod_map parse_pattern id <$> l.
Proof. apply (registered_all l []). Qed.

(** Whether registering panics is a matter of the patterns. *)
Fixpoint no_conflicts (l : list pattern) (m : list pattern) : bool :=
  match l with [] => true | p :: l => negb (existsb (conflicts p) m) && no_conflicts l (m ++ [p]) end.
Lemma registered_some {A} (l : list (string * A)) m :
  no_conflicts (parse_pattern <$> l.*1) m.*1 = true → registered l m = Some (m ++ (prod_map parse_pattern id <$> l)).
Proof.
  revert m. induction l as [|[s a] l IH]; intros m; cbn; [by rewrite app_nil_r|].
  intros [Hc Hl]%andb_true_iff. assert (existsb (λ qa, conflicts (parse_pattern s) qa.1) m = existsb (conflicts (parse_pattern s)) m.*1) as ->.
  { clear. induction m as [|[q b] m IH]; cbn; [done|by rewrite IH]. }
  destruct (existsb _ m.*1); [done|]. rewrite IH; [by rewrite <- app_assoc|]. by rewrite fmap_app.
Qed.
Lemma NewServeMux_some {A} (l : list (string * A)) :
  no_conflicts (parse_pattern <$> l.*1) [] = true → NewServeMux l = Some (prod_map parse_pattern id <$> l).
Proof. apply (registered_some l []). Qed.

(** Nothing is matched where no pattern leads. *)
Lemma match_path_none {A} segs vals : match_path segs vals ([] : node A) = None.
Proof. revert vals. induction segs as [|s segs IH]; intros vals; cbn; [done|]. rewrite !IH. by destruct (String.eqb s "/"). Qed.

(** What is below a node is what leads through it. *)
Lemma child_in {A} (f : list seg * (pattern * A) → option (list seg * (pattern * A))) n x :
  (∀ a b, f a = Some b → b.2 = a.2) → x ∈ (omap f n).*2 → x ∈ n.*2.
Proof.
  intros Hf (b & -> & (a & Ha & Hab)%list_elem_of_omap)%list_elem_of_fmap. apply list_elem_of_fmap. exists a. split; [by apply Hf|done].
Qed.
Lemma found_in {A} (f : list seg * (pattern * A) → option (pattern * A)) n x :
  (∀ a b, f a = Some b → b = a.2) → head (omap f n) = Some x → x ∈ n.*2.
Proof.
  intros Hf [l Hl]%head_Some. assert (x ∈ omap f n) as (a & Ha & Hab)%list_elem_of_omap by (rewrite Hl; by left).
  apply list_elem_of_fmap. exists a. split; [by apply Hf|done].
Qed.

Lemma match_path_in {A} segs vals (n : node A) pa v : match_path segs vals n = Some (pa, v) → pa ∈ n.*2.
Proof.
  revert vals n. induction segs as [|s segs IH]; intros vals n; cbn.
  { unfold leaf. destruct (head _) as [x|] eqn:Hh; [|done]. intros [= -> _]. eapply found_in; [|exact Hh]. intros [[|? ?] ?] b; cbn; congruence. }
  destruct (match_path segs vals (lit_child s n)) as [[pa1 v1]|] eqn:Hl.
  { intros [= -> ->]. apply IH in Hl. eapply child_in; [|exact Hl]. intros [[|[x|x|] l] y] b; cbn; [done| |done..].
    case_match; [|done]. by intros [= <-]. }
  destruct (if String.eqb s "/" then None else _) as [[pa1 v1]|] eqn:Hw.
  { intros [= -> ->]. destruct (String.eqb s "/"); [done|]. apply IH in Hw. eapply child_in; [|exact Hw].
    intros [[|[x|x|] l] y] b; cbn; [done|done| |done]. by intros [= <-]. }
  unfold multi_child. destruct (head _) as [x|] eqn:Hh; [|done]. intros [= -> _]. eapply found_in; [|exact Hh].
  intros [[|[? | ? |] ?] ?] b; cbn; congruence.
Qed.

Lemma method_node_in {A} meth (m : mux A) pa : pa ∈ (method_node meth m).*2 → pa ∈ m ∧ pt_method pa.1 = meth.
Proof.
  unfold method_node. intros (a & -> & (b & Hb & Hab)%list_elem_of_omap)%list_elem_of_fmap.
  destruct (String.eqb_spec (pt_method b.1) meth) as [<-|]; [|done]. by injection Hab as <-.
Qed.

(** A pattern that was found is registered, and for the method. *)
Lemma mux_find_in {A} (m : mux A) meth path pa vals : mux_find m meth path = Found pa vals →
  pa ∈ m ∧ (pt_method pa.1 = meth ∨ pt_method pa.1 = "" ∨ meth = "HEAD" ∧ pt_method pa.1 = "GET")%string.
Proof.
  unfold mux_find, find_segs. set (segs := path_segs _). destruct (_ && _ && _); [done|].
  destruct (mux_match m meth segs) as [[pa' v']|] eqn:Hm; [|destruct (allowed_methods m segs); case_bool_decide; done].
  case_bool_decide; [|done]. intros [= -> ->]. unfold mux_match in Hm.
  destruct (match_path segs [] (method_node meth m)) as [[p v]|] eqn:H1.
  { injection Hm as -> ->. apply match_path_in, method_node_in in H1. naive_solver. }
  destruct (if String.eqb meth "HEAD" then _ else None) as [[p v]|] eqn:H2.
  { injection Hm as -> ->. destruct (String.eqb_spec meth "HEAD") as [->|]; [|done]. apply match_path_in, method_node_in in H2. naive_solver. }
  apply match_path_in, method_node_in in Hm. naive_solver.
Qed.

(** *** Clean paths *)

Lemma has_suffix_slash s : has_suffix s "/" = match last (s2l s) with Some c => Ascii.eqb slash c | None => false end.
Proof.
  unfold has_suffix. change (reverse (s2l "/")) with [slash]. rewrite <- head_reverse. destruct (reverse (s2l s)) as [|c l]; [done|].
  cbn [strip_prefix head]. by destruct (Ascii.eqb slash c).
Qed.

Lemma plain_last c : plain c → match last c with Some b => Ascii.eqb slash b | None => false end = false.
Proof.
  intros (Hne & _ & _ & Hs). destruct (last c) as [b|] eqn:Hl; [|done]. destruct (Ascii.eqb_spec slash b) as [<-|]; [|done].
  destruct Hs. by apply last_Some_elem_of.
Qed.

Lemma abs_path_no_slash l : l ≠ [] → Forall plain l → has_suffix (abs_path l) "/" = false.
Proof.
  intros Hne HF. rewrite has_suffix_slash. unfold abs_path. rewrite s2l_l2s. destruct (exists_last Hne) as (k & c & ->).
  apply Forall_app in HF as [_ Hc]. inversion_clear Hc as [|? ? Hp _]. transitivity (match last c with Some b => Ascii.eqb slash b | None => false end);
    [|by apply plain_last]. pose proof (proj1 Hp) as Hcne.
  assert (∀ (a : bytes), last (a ++ c) = last c) as Hlast.
  { intros a. rewrite last_app. destruct (last c) eqn:Hl; [done|]. by apply last_None in Hl. }
  destruct k as [|x k]; [by rewrite <- (Hlast [slash])|].
  rewrite (join_parts_app (x :: k) [c]) by done. change (slash :: join_parts [c]) with ([slash] ++ c).
  rewrite app_comm_cons, app_assoc, Hlast. done.
Qed.

Lemma cleanPath_abs l : l ≠ [] → Forall plain l → cleanPath (abs_path l) = abs_path l.
Proof.
  intros Hne HF. unfold cleanPath. rewrite str_empty_abs, IsAbs_abs_path, Clean_abs_path by done. by rewrite abs_path_no_slash.
Qed.

Lemma segments_plain l : Forall plain l → segments l = pathUnescape <$> l.
Proof.
  induction 1 as [|c l Hc HF IH]; [done|]. destruct l as [|d l]; [|exact (f_equal (cons (pathUnescape c)) IH)].
  cbn. rewrite bool_decide_false; [done|]. by destruct Hc.
Qed.

Lemma path_segs_abs l : l ≠ [] → Forall plain l → path_segs (abs_path l) = pathUnescape <$> l.
Proof. intros Hne HF. unfold path_segs. rewrite abs_path_parts by done. by apply segments_plain. Qed.

(** The handler of a path that is clean. *)
Lemma mux_find_clean {A} (m : mux A) meth l : l ≠ [] → Forall plain l →
  mux_find m meth (abs_path l) = find_segs m meth (pathUnescape <$> l) (cleanPath (pathUnescape (s2l (abs_path l))) +:+ "/").
Proof.
  intros Hne HF. unfold mux_find. rewrite cleanPath_abs by done.
  assert ((if String.eqb meth "CONNECT" then abs_path l else abs_path l) = abs_path l) as -> by (by destruct (String.eqb _ _)).
  rewrite path_segs_abs, bool_decide_true by done. by destruct (find_segs _ _ _ _).
Qed.

(** *** Names for handlers *)

Definition found_map {A B} (f : A → B) (x : found A) : found B :=
  match x with Found pa v => Found (prod_map id f pa) v | Redirect l => Redirect l | NotAllowed l => NotAllowed l | NoRoute => NoRoute end.

Section names.
Context {A B : Type} (f : A → B).
Abbreviation node_map := (fmap (M := list) (prod_map (@id (list seg)) (prod_map (@id pattern) f))).
Abbreviation res_map := (fmap (M := option) (prod_map (prod_map (@id pattern) f) (@id (list string)))).

Lemma omap_map {X Y X' Y'} (g : X → option Y) (g' : X' → option Y') (a : X → X') (b : Y → Y') (l : list X) :
  (∀ x, g' (a x) = b <$> g x) → omap g' (a <$> l) = b <$> omap g l.
Proof.
  intros Hg. induction l as [|x l IH]; [done|]. change (omap g' (a <$> (x :: l))) with (match g' (a x) with Some y => y :: omap g' (a <$> l) | None => omap g' (a <$> l) end).
  change (omap g (x :: l)) with (match g x with Some y => y :: omap g l | None => omap g l end). rewrite Hg, IH. by destruct (g x).
Qed.
Lemma head_map {X Y} (b : X → Y) (l : list X) : head (b <$> l) = b <$> head l.
Proof. by destruct l. Qed.

Lemma match_path_map segs vals (n : node A) : match_path segs vals (node_map n) = res_map (match_path segs vals n).
Proof.
  revert vals n. induction segs as [|s segs IH]; intros vals n; cbn [match_path].
  { unfold leaf. rewrite (omap_map (λ pa : list seg * (pattern * A), match pa.1 with [] => Some pa.2 | _ => None end) _ _ (prod_map id f)), head_map.
    - by destruct (head _).
    - by intros [[|? ?] ?]. }
  assert (lit_child s (node_map n) = node_map (lit_child s n)) as ->.
  { apply omap_map. intros [[|[x|x|] l] y]; cbn; [done| |done..]. by destruct (String.eqb x s). }
  assert (wild_child (node_map n) = node_map (wild_child n)) as ->.
  { apply omap_map. by intros [[|[x|x|] l] y]. }
  assert (multi_child (node_map n) = prod_map id f <$> multi_child n) as ->.
  { unfold multi_child. rewrite <- head_map. f_equal. apply omap_map. by intros [[|[x|x|] l] y]. }
  rewrite !IH. destruct (match_path segs vals (lit_child s n)); [done|]. cbn [fmap option_fmap option_map].
  destruct (String.eqb s "/"); [by destruct (multi_child n)|]. destruct (match_path segs (vals ++ [s]) (wild_child n)); [done|]. by destruct (multi_child n).
Qed.

Abbreviation mux_map := (fmap (M := list) (prod_map (@id pattern) f)).

Lemma method_node_map meth (m : mux A) : method_node meth (mux_map m) = node_map (method_node meth m).
Proof. apply omap_map. intros [p a]. cbn. by destruct (String.eqb _ _). Qed.

Lemma mux_match_map m meth segs : mux_match (mux_map m) meth segs = res_map (mux_match m meth segs).
Proof.
  unfold mux_match. rewrite !method_node_map, !match_path_map. destruct (match_path segs [] (method_node meth m)); [done|].
  cbn [fmap option_fmap option_map]. destruct (String.eqb meth "HEAD"); [|done]. by destruct (match_path segs [] (method_node "GET" m)).
Qed.

Lemma exact_match_map r segs : exact_match (res_map r) segs = exact_match r segs.
Proof. by destruct r as [[[p a] v]|]. Qed.

Lemma allowed_methods_map m segs : allowed_methods (mux_map m) segs = allowed_methods m segs.
Proof.
  unfold allowed_methods. assert (∀ meth l, bool_decide (is_Some (match_path l [] (method_node meth (mux_map m))))
    = bool_decide (is_Some (match_path l [] (method_node meth m)))) as Hb.
  { intros meth l. rewrite method_node_map, match_path_map. by destruct (match_path l [] _). }
  by destruct (last segs); cbn; rewrite !Hb.
Qed.

(** Where a request goes does not depend on what the handlers are. *)
Lemma find_segs_map m meth segs sl : find_segs (mux_map m) meth segs sl = found_map f (find_segs m meth segs sl).
Proof.
  unfold find_segs. rewrite !mux_match_map, !exact_match_map, allowed_methods_map. destruct (_ && _ && _); [done|].
  destruct (mux_match m meth segs) as [[pa v]|]; [done|]. by destruct (allowed_methods m segs).
Qed.
End names.

Lemma serve_found {S B} (f : B → handler S) (l : list (string * B)) meth path segs pat b vals r w s :
  rq_method r = meth → rq_path r = abs_path segs → segs ≠ [] → Forall plain segs → path = pathUnescape <$> segs →
  (∀ sl, find_segs (prod_map parse_pattern id <$> l) meth path sl = Found (parse_pattern pat, b) vals) →
  ServeHTTP (prod_map parse_pattern f <$> l) r w s = f b (with_values (zip (wild_names (parse_pattern pat)) vals) r) w s.
Proof.
  intros Hm Hp Hne HF -> Hf. unfold ServeHTTP. rewrite Hm, Hp, mux_find_clean by done.
  assert (prod_map parse_pattern f <$> l = prod_map id f <$> (prod_map parse_pattern id <$> l)) as -> by (rewrite <- list_fmap_compose; done).
  by rewrite find_segs_map, Hf.
Qed.

(** *** Patterns without wildcards *)

(** A part of a path that stands for itself in a pattern. *)
Definition literal (c : bytes) : Prop := plain c ∧ ∀ x, x ∈ c → x ∉ [" "; "009"; "{"; "%"]%char.
Definition lits (k : list bytes) : list seg := Lit ∘ l2s <$> k.

Lemma parse_segs_literal k : Forall literal k → parse_segs k = lits k.
Proof.
  induction 1 as [|c k [Hp Hl] Hk IH]; [done|]. assert (parse_seg c = Lit (l2s c)) as Hc.
  { destruct c as [|x c]; [by destruct Hp|]. cbn. destruct (Ascii.eqb_spec x "{") as [->|]; [|done].
    exfalso. apply (Hl "{"%char); set_solver. }
  unfold lits. cbn. destruct c as [|x c]; [by destruct Hp|]. cbn -[parse_seg]. rewrite Hc, IH. by destruct k.
Qed.

Lemma literal_plain k : Forall literal k → Forall plain k.
Proof. intros H. eapply Forall_impl; [exact H|]. by intros c [? _]. Qed.

Lemma no_space k : Forall literal k → " "%char ∉ s2l (abs_path k).
Proof.
  intros Hk. unfold abs_path. rewrite s2l_l2s. assert (" "%char ∉ join_parts k) as Hj; [|set_solver].
  induction Hk as [|c k [_ Hc] Hk IH]; [set_solver|]. assert (" "%char ∉ c) as Hc' by (intros Hin; apply (Hc _ Hin); set_solver).
  cbn. destruct k; [done|]. set_solver.
Qed.

Lemma parse_literal k : k ≠ [] → Forall literal k → parse_pattern (abs_path k) = {| pt_method := ""; pt_segs := lits k |}.
Proof.
  intros Hne Hk. unfold parse_pattern. rewrite split_bytes_nosep by by apply no_space. cbn [reverse].
  change (reverse [] ++ s2l (abs_path k)) with (s2l (abs_path k)).
  change (split_bytes slash [] (s2l (abs_path k))) with (parts (abs_path k)).
  rewrite abs_path_parts by (try done; by apply literal_plain). cbn [tail]. by rewrite parse_segs_literal.
Qed.

Lemma lits_not_multi k : ends_multi (lits k) = false.
Proof.
  unfold ends_multi. destruct (last (lits k)) as [s|] eqn:E; [|done]. apply last_Some_elem_of in E.
  unfold lits in E. apply list_elem_of_fmap in E as (c & -> & _). done.
Qed.

(** *** Matching *)

(** The patterns of a node, by the parts that are left, with a page for the rest if any. *)
Definition literal_node {A} (kas : list (list bytes * (pattern * A))) (rest : option (pattern * A)) : node A :=
  (prod_map lits id <$> kas) ++ match rest with Some pa => [([Multi], pa)] | None => [] end.

Definition literal_child {A} (s : string) (kas : list (list bytes * (pattern * A))) : list (list bytes * (pattern * A)) :=
  omap (λ ka, match ka.1 with c :: k => if String.eqb (l2s c) s then Some (k, ka.2) else None | [] => None end) kas.

Definition first_literal {A} (segs : list string) (kas : list (list bytes * (pattern * A))) : option (pattern * A) :=
  snd <$> find_first (λ ka, bool_decide (l2s <$> ka.1 = segs)) kas.

Lemma literal_node_child {A} s (kas : list (list bytes * (pattern * A))) rest :
  lit_child s (literal_node kas rest) = literal_node (literal_child s kas) None ∧ wild_child (literal_node kas rest) = [] ∧
  multi_child (literal_node kas rest) = rest.
Proof.
  induction kas as [|[[|c k] pa] kas (IH1 & IH2 & IH3)]; [by destruct rest|by split_and!|]. split_and!; [|done|done].
  unfold literal_node, lit_child, literal_child in *. cbn in *. destruct (String.eqb (l2s c) s); [|done]. cbn. by rewrite IH1.
Qed.

Lemma first_literal_child {A} s segs (kas : list (list bytes * (pattern * A))) :
  first_literal segs (literal_child s kas) = first_literal (s :: segs) kas.
Proof.
  unfold first_literal. induction kas as [|[[|c k] pa] kas IH]; [done|done|]. cbn.
  destruct (String.eqb_spec (l2s c) s) as [<-|Hne]; cbn.
  - destruct (decide (l2s <$> k = segs)) as [->|Hk]; [by rewrite !bool_decide_true|].
    rewrite (bool_decide_false (l2s <$> k = segs)), bool_decide_false by congruence. done.
  - rewrite bool_decide_false by congruence. done.
Qed.

Lemma match_literals {A} segs vals (kas : list (list bytes * (pattern * A))) :
  match_path segs vals (literal_node kas None) = (λ pa, (pa, vals)) <$> first_literal segs kas.
Proof.
  revert vals kas. induction segs as [|s segs IH]; intros vals kas; cbn [match_path].
  - unfold leaf, first_literal, literal_node. rewrite app_nil_r. induction kas as [|[[|c k] pa] kas IHk]; [done|done|]. exact IHk.
  - destruct (literal_node_child s kas None) as (-> & -> & ->). rewrite IH, first_literal_child.
    destruct (first_literal (s :: segs) kas); [done|]. cbn. rewrite match_path_none. by destruct (String.eqb s "/").
Qed.

Lemma match_rest {A} segs vals (kas : list (list bytes * (pattern * A))) pa : segs ≠ [] →
  match_path segs vals (literal_node kas (Some pa)) = Some (default pa (first_literal segs kas), vals).
Proof.
  intros Hne. destruct segs as [|s segs]; [done|]. cbn [match_path]. destruct (literal_node_child s kas (Some pa)) as (-> & -> & ->).
  rewrite match_literals, first_literal_child. destruct (first_literal (s :: segs) kas); [done|]. cbn. rewrite match_path_none.
  by destruct (String.eqb s "/").
Qed.

(** A multiplexer whose patterns are for every method. *)
Definition literal_mux {A} (kas : list (list bytes * A)) (rest : option A) : mux A :=
  ((λ ka, ({| pt_method := ""; pt_segs := lits ka.1 |}, ka.2)) <$> kas)
  ++ match rest with Some a => [({| pt_method := ""; pt_segs := [Multi] |}, a)] | None => [] end.

Definition with_pattern {A} (ka : list bytes * A) : list bytes * (pattern * A) :=
  (ka.1, ({| pt_method := ""; pt_segs := lits ka.1 |}, ka.2)).
Definition rest_pattern {A} (a : A) : pattern * A := ({| pt_method := ""; pt_segs := [Multi] |}, a).

Lemma literal_mux_node {A} meth (kas : list (list bytes * A)) rest :
  method_node meth (literal_mux kas rest) = if String.eqb "" meth then literal_node (with_pattern <$> kas) (rest_pattern <$> rest) else [].
Proof.
  unfold method_node, literal_mux, literal_node. induction kas as [|ka kas IH]; cbn in *.
  - by destruct rest, meth.
  - destruct meth; [|done]. cbn. by rewrite IH.
Qed.

Lemma literal_mux_match {A} meth segs (kas : list (list bytes * A)) rest :
  mux_match (literal_mux kas rest) meth segs = match_path segs [] (literal_node (with_pattern <$> kas) (rest_pattern <$> rest)).
Proof.
  unfold mux_match. rewrite !literal_mux_node, String.eqb_refl. change (String.eqb "" "GET") with false. cbn iota. rewrite match_path_none.
  assert ((if String.eqb meth "HEAD" then None else None) = (None : option (pattern * A * list string))) as -> by by destruct (String.eqb _ _).
  destruct (String.eqb "" meth); [|by rewrite match_path_none]. by destruct (match_path _ _ _).
Qed.

Definition chosen {A} (segs : list string) (kas : list (list bytes * A)) : option (list bytes * A) :=
  find_first (λ ka, bool_decide (l2s <$> ka.1 = segs)) kas.

Lemma first_literal_chosen {A} segs (kas : list (list bytes * A)) :
  first_literal segs (with_pattern <$> kas) = snd ∘ with_pattern <$> chosen segs kas.
Proof. unfold first_literal, chosen. induction kas as [|ka kas IH]; [done|]. cbn. by case_bool_decide. Qed.

Lemma chosen_no_slash {A} segs (kas : list (list bytes * A)) :
  (∀ ka, ka ∈ kas → "/"%string ∉ l2s <$> ka.1) → chosen (segs ++ ["/"%string]) kas = None.
Proof.
  intros Hks. destruct (chosen (segs ++ ["/"%string]) kas) as [ka|] eqn:E; [|done]. apply find_first_Some in E as (l1 & l2 & -> & Hk & _).
  apply bool_decide_eq_true in Hk. exfalso. apply (Hks ka); [set_solver|]. rewrite Hk. set_solver.
Qed.

(** Every page is reached by its parts, and the page for the rest by all others. *)
Lemma literal_mux_find {A} meth l (kas : list (list bytes * A)) a : l ≠ [] → Forall plain l →
  (∀ ka, ka ∈ kas → "/"%string ∉ l2s <$> ka.1) →
  ∃ p, mux_find (literal_mux kas (Some a)) meth (abs_path l) = Found (p, from_option snd a (chosen (pathUnescape <$> l) kas)) [].
Proof.
  intros Hne Hpl Hks. rewrite mux_find_clean by done. unfold find_segs. rewrite !literal_mux_match.
  set (segs := pathUnescape <$> l). assert (segs ≠ []) as Hs by (by destruct l).
  cbn [fmap option_fmap option_map]. assert (segs ++ ["/"%string] ≠ []) as Hs2 by (by destruct segs).
  rewrite !match_rest by done. rewrite !first_literal_chosen, chosen_no_slash by done.
  cbn [fmap option_fmap option_map default]. assert (exact_match (Some (rest_pattern a, [])) (segs ++ ["/"%string]) = false) as ->.
  { cbn. rewrite last_snoc, length_app. destruct segs; [done|]. cbn. rewrite Nat.add_comm. done. }
  rewrite andb_false_r. destruct (chosen segs kas) as [ka|]; cbn; by eexists.
Qed.

(** Without a page for the rest. *)
Lemma literal_mux_find_alone {A} meth l (kas : list (list bytes * A)) : l ≠ [] → Forall plain l →
  (∀ ka, ka ∈ kas → "/"%string ∉ l2s <$> ka.1) →
  match chosen (pathUnescape <$> l) kas with
  | Some ka => ∃ p, mux_find (literal_mux kas None) meth (abs_path l) = Found (p, ka.2) []
  | None => mux_find (literal_mux kas None) meth (abs_path l) = NoRoute
  end.
Proof.
  intros Hne Hpl Hks. rewrite mux_find_clean by done. unfold find_segs. rewrite !literal_mux_match.
  set (segs := pathUnescape <$> l). cbn [fmap option_fmap option_map]. rewrite !match_literals, !first_literal_chosen, chosen_no_slash by done.
  rewrite andb_false_r. destruct (chosen segs kas) as [ka|]; [by eexists|]. cbn [fmap option_fmap option_map].
  assert (∀ mt ss, mt ∈ all_methods → match_path ss [] (method_node mt (literal_mux kas None)) = None) as Hm.
  { intros mt ss Hmt. rewrite literal_mux_node. destruct mt; [|apply match_path_none]. exfalso. unfold all_methods in Hmt. set_solver. }
  assert (allowed_methods (literal_mux kas None) segs = []) as ->; [|done]. unfold allowed_methods.
  apply elem_of_nil_inv. intros mt [Hh Hmt]%list_elem_of_filter. rewrite !Hm in Hh by (first [done|unfold all_methods; set_solver]).
  destruct (last segs); cbn in Hh; rewrite ?andb_false_r in Hh; done.
Qed.
