(* ===== verification/Routes.v ===== *)
(** The routes of the program's HTTP servers: [pkg/api/console/handler.go] and [static.go],
    [Handler] of [pkg/api/auth] and of [pkg/api/marketplace], the health server of
    [pkg/agent/bootstrap.go], and the multiplexers of [cmd/abot], [cmd/abot-server] and
    [cmd/abot-web].

    What the endpoints do is said by [Auth], [Console], [ConsoleChat], [ConsoleSettings] and
    [SkillMarket]; here they are any handlers that may also panic. *)
From stdpp Require Import pretty.
From S2P Require Bus.
From S2P Require Import Prelude GoStrings Paths Types Api Accounts Auth RateLimit Http.

(** ** Endpoints *)

Inductive endpoint :=
| EpRegister | EpLogin | EpRefresh | EpMe
| EpSessionsList | EpSessionsCreate | EpSessionsGet | EpSessionsUpdate | EpSessionsDelete
| EpAgentsList | EpAgentsCreate | EpAgentsGet | EpAgentsUpdate | EpAgentsDelete
| EpAgentsGetConfig | EpAgentsUpdateConfig | EpAgentsGetChannels | EpAgentsUpdateChannels
| EpDocsList | EpDocsGet | EpDocsUpdate | EpProvidersGet | EpProvidersUpdate
| EpChat.

#[global] Instance seg_eq_dec : EqDecision seg.
Proof. solve_decision. Defined.
#[global] Instance endpoint_eq_dec : EqDecision endpoint.
Proof. solve_decision. Defined.

Inductive market_endpoint := MkListSkills | MkGetSkill | MkInstall | MkUninstall | MkListInstalled | MkCreate | MkList | MkReview.

(** The routes that need a token, and those of accounts. *)
Definition protected_routes : list (string * endpoint) :=
  [("GET /api/v1/sessions", EpSessionsList); ("POST /api/v1/sessions", EpSessionsCreate); ("GET /api/v1/sessions/{id}", EpSessionsGet);
   ("PATCH /api/v1/sessions/{id}", EpSessionsUpdate); ("DELETE /api/v1/sessions/{id}", EpSessionsDelete);
   ("GET /api/v1/agents", EpAgentsList); ("POST /api/v1/agents", EpAgentsCreate); ("GET /api/v1/agents/{id}", EpAgentsGet);
   ("PUT /api/v1/agents/{id}", EpAgentsUpdate); ("DELETE /api/v1/agents/{id}", EpAgentsDelete);
   ("GET /api/v1/agents/{id}/config", EpAgentsGetConfig); ("PUT /api/v1/agents/{id}/config", EpAgentsUpdateConfig);
   ("GET /api/v1/agents/{id}/channels", EpAgentsGetChannels); ("PUT /api/v1/agents/{id}/channels", EpAgentsUpdateChannels);
   ("GET /api/v1/workspace/docs", EpDocsList); ("GET /api/v1/workspace/docs/{doc_type}", EpDocsGet);
   ("PUT /api/v1/workspace/docs/{doc_type}", EpDocsUpdate);
   ("GET /api/v1/settings/providers", EpProvidersGet); ("PUT /api/v1/settings/providers", EpProvidersUpdate)].
Definition auth_routes : list (string * endpoint) :=
  [("POST /api/v1/auth/register", EpRegister); ("POST /api/v1/auth/login", EpLogin); ("POST /api/v1/auth/refresh", EpRefresh)].
Definition market_public : list (string * market_endpoint) := [("GET /api/skills", MkListSkills); ("GET /api/skills/{name}", MkGetSkill)].
Definition market_protected : list (string * market_endpoint) :=
  [("POST /api/skills/{name}/install", MkInstall); ("DELETE /api/skills/{name}/uninstall", MkUninstall);
   ("GET /api/tenants/{tenant}/skills", MkListInstalled); ("POST /api/proposals", MkCreate); ("GET /api/proposals", MkList);
   ("POST /api/proposals/{id}/review", MkReview)].

(** The limiter of registration and login: they share it. *)
Definition auth_limiter : rateLimiter := newRateLimiter 20 5.
Definition throttled (e : endpoint) : bool := match e with EpRegister | EpLogin => true | _ => false end.

(** [Recovery → RequestID → Logger → Security → CORS → Handler]. *)
Definition stack {S} (origins : list string) (h : handler S) : handler S :=
  Recovery (RequestID (Logger (SecurityHeaders DefaultSecurityConfig (CORS origins h)))).

(** A handler on the state without the limiter. *)
Definition lift {S} (h : handler S) : handler (world S) := λ r w s,
  let '(s', w', p) := h r w (wd_state s) in ({| wd_state := s'; wd_limiter := wd_limiter s |}, w', p).

Section console.
Context `{JWT} {S : Type} (serve : endpoint → handler S) (cfg : JWTConfig) (origins : list string).

Definition ep (e : endpoint) : handler (world S) := lift (serve e).
Definition routes (l : list (string * endpoint)) : list (string * handler (world S)) :=
  prod_map id (λ e, if throttled e then limited (ep e) else ep e) <$> l.

(** [auth.Handler]. *)
Definition auth_Handler : option (handler (world S)) := ServeHTTP <$> NewServeMux (routes auth_routes).

(** [console.Handler]; [None] if a pattern is refused. *)
Definition console_Handler : option (handler (world S)) :=
  authHandler ← auth_Handler;
  protected ← NewServeMux (routes protected_routes);
  m ← NewServeMux
    [("/api/v1/auth/"%string, stack origins authHandler);
     ("/api/v1/"%string, stack origins (authenticated cfg (ServeHTTP protected)));
     ("/api/v1/auth/me"%string, stack origins (authenticated cfg (ep EpMe)));
     ("/api/v1/chat/ws"%string, ep EpChat)];
  Some (ServeHTTP m).
End console.

(** ** The marketplace *)

Section market.
Context `{JWT} {S : Type} (serve : market_endpoint → handler S) (cfg : JWTConfig).

Definition market_Handler : option (handler S) :=
  protected ← NewServeMux (prod_map id serve <$> market_protected);
  let guarded := authenticated cfg (ServeHTTP protected) in
  m ← NewServeMux ((prod_map id serve <$> market_public)
        ++ [("/api/skills/"%string, guarded); ("/api/tenants/"%string, guarded); ("/api/proposals"%string, guarded);
            ("/api/proposals/"%string, guarded)]);
  Some (ServeHTTP m).
End market.

(** ** Static files *)

(** [containsDotDot] of [net/http]; a backslash separates too. *)
Definition containsDotDot (p : string) : bool :=
  existsb (λ c, bool_decide (c = dotdot)) (split_bytes slash [] ((λ c, if Ascii.eqb c "\" then slash else c) <$> s2l p)).

Section static.
(** [os.Stat]: whether the file is a directory; sending a file. *)
Context {S : Type} (stat : string → option bool) (send : string → handler S).

Definition ServeFile (path : string) : handler S := λ r w s,
  if containsDotDot (URL_Path r) then (s, http_error 400 "invalid URL path" w, false)
  else if has_suffix (URL_Path r) "/index.html" then (s, http_redirect "./" w, false)
  else send path r w s.

Definition http_NotFound : handler S := λ r w s, (s, http_error 404 "404 page not found" w, false).

Definition StaticHandler (dir : string) : handler S := λ r w s,
  if has_prefix (URL_Path r) "/api/" then http_NotFound r w s
  else
    let path := Join [dir; Clean (URL_Path r)] in
    match stat path with
    | Some false => ServeFile path r w s
    | _ => let indexPath := Join [dir; "index.html"] in
           match stat indexPath with
           | None => http_NotFound r w s
           | Some _ => ServeFile indexPath r w s
           end
    end.
End static.

(** ** The servers *)

Definition healthz_text (b : Bus.ChannelBus) : string :=
  "{" +:+ quoted "status" +:+ ":" +:+ quoted "ok" +:+ "," +:+ quoted "inbound_pending" +:+ ":" +:+ pretty (Bus.InboundSize b) +:+ ","
  +:+ quoted "outbound_pending" +:+ ":" +:+ pretty (Bus.OutboundSize b) +:+ "}".
Definition healthz {S} (b : S → Bus.ChannelBus) : handler S := λ r w s,
  (s, write_text (healthz_text (b s)) (WriteHeader 200 (set_header "Content-Type" "application/json" w)), false).
Definition health_ok {S} : handler S := λ r w s, (s, write_text "OK" (WriteHeader 200 w), false).

(** The health server of the gateway, with the marketplace. *)
Definition health_server {S} (b : S → Bus.ChannelBus) (api : option (handler S)) : option (handler S) :=
  ServeHTTP <$> NewServeMux (("/healthz"%string, healthz b) :: match api with Some h => [("/api/"%string, h)] | None => [] end).
(** [abot-server], [abot-web] and [abot console]. *)
Definition api_server {S} (console : handler S) : option (handler S) :=
  ServeHTTP <$> NewServeMux [("/api/"%string, console); ("/health"%string, health_ok)].
Definition web_server {S} (console static : handler S) : option (handler S) :=
  ServeHTTP <$> NewServeMux [("/api/"%string, console); ("/"%string, static); ("/health"%string, health_ok)].
Definition console_server {S} (console static : handler S) : option (handler S) :=
  ServeHTTP <$> NewServeMux [("/api/"%string, console); ("/"%string, static)].

(** ** What a request may reach *)

(** The request as it came, without what the middleware puts into the context. *)
Definition bare (r : request) : request := with_values [] (with_claims None (with_id "" r)).

Definition method_ok (registered asked : string) : Prop :=
  registered = asked ∨ registered = ""%string ∨ asked = "HEAD"%string ∧ registered = "GET"%string.

(** The statuses of the multiplexers and of the middleware. *)
Definition own_codes : list Z := [204; 301; 401; 404; 405; 429].

Section sound.
Context `{JWT} {T S E : Type} (serve : E → handler S) (state : T → S).
(** When an endpoint may be called, for the request and the state as they came. *)
Context (guard : request → T → E → option Claims → Prop) (guard_bare : ∀ r r' s e c, bare r = bare r' → guard r s e c → guard r' s e c).

(** How the writer and the panic of the endpoint show in the answer. *)
Context (deliver : E → writer * bool → writer * bool → Prop).

Definition answers (s : T) (res : T * writer * bool) : Prop :=
  state res.1.1 = state s ∧ res.2 = false ∧ ∃ code hd, w_sent res.1.2 = Some (code, hd) ∧ code ∈ own_codes.

(** The endpoint is called once, and what it answers is the answer. *)
Definition calls (r : request) (s : T) (res : T * writer * bool) (e : E) : Prop :=
  ∃ r1 w1 w2 p2, serve e r1 w1 (state s) = (state res.1.1, w2, p2) ∧ bare r1 = bare r ∧ w_sent w1 = None
    ∧ deliver e (w2, p2) (res.1.2, res.2) ∧ guard r s e (rq_claims r1).

Definition sound (pre : request → Prop) (h : handler T) : Prop :=
  ∀ r w s, pre r → w_sent w = None → answers s (h r w s) ∨ ∃ e, calls r s (h r w s) e.

Lemma calls_bare r r' s res e : bare r = bare r' → calls r s res e → calls r' s res e.
Proof. intros Hb (r1 & w1 & w2 & p2 & Hs & Hr & Hw & Hd & Hg). exists r1, w1, w2, p2. split_and!; try done; [congruence|by eapply guard_bare]. Qed.

Lemma bare_values v r : bare (with_values v r) = bare r. Proof. done. Qed.
Lemma bare_claims c r : bare (with_claims c r) = bare r. Proof. done. Qed.
Lemma bare_id i r : bare (with_id i r) = bare r. Proof. done. Qed.
Lemma sent_http_error code msg w : w_sent w = None → ∃ hd, w_sent (http_error code msg w) = Some (code, hd).
Proof. unfold http_error, write_text, WriteHeader, set_header. cbn. intros ->. by eexists. Qed.

Lemma sound_mux (pre : request → Prop) m :
  (∀ v r, pre r → pre (with_values v r)) →
  Forall (λ ph, sound (λ r, pre r ∧ method_ok (pt_method ph.1) (rq_method r)) ph.2) m → sound pre (ServeHTTP m).
Proof.
  intros Hpre HF r w s Hr Hw. unfold ServeHTTP. destruct (mux_find m (rq_method r) (rq_path r)) as [pa vals|l|l|] eqn:Hf.
  - apply mux_find_in in Hf as [Hin Hm]. rewrite Forall_forall in HF.
    destruct (HF pa Hin (with_values (zip (wild_names pa.1) vals) r) w s) as [Ha|[e Hc]]; [|done|by left|].
    + split; [by apply Hpre|]. exact Hm.
    + right. exists e. by eapply calls_bare; [apply (bare_values (zip (wild_names pa.1) vals))|].
  - left. split_and!; [done|done|]. unfold http_redirect, WriteHeader, set_header. cbn. rewrite Hw. do 2 eexists. split; [done|]. unfold own_codes. set_solver.
  - left. split_and!; [done|done|]. destruct (sent_http_error 405 "Method Not Allowed" (set_header "Allow" (join l ", ") w) Hw) as [hd Hhd].
    do 2 eexists. split; [exact Hhd|]. unfold own_codes. set_solver.
  - left. split_and!; [done|done|]. destruct (sent_http_error 404 "404 page not found" w Hw) as [hd Hhd].
    do 2 eexists. split; [exact Hhd|]. unfold own_codes. set_solver.
Qed.

(** A handler that only prepares the writer, and one that changes the request too. *)
Lemma sound_prepared (pre : request → Prop) h (f : request → writer → writer) (g : request → request) :
  (∀ r w, w_sent (f r w) = w_sent w) → (∀ r, bare (g r) = bare r) → (∀ r, pre r → pre (g r)) →
  sound pre h → sound pre (λ r w s, h (g r) (f r w) s).
Proof.
  intros Hf Hg Hpre Hs r w s Hr Hw. destruct (Hs (g r) (f r w) s) as [Ha|[e Hc]]; [auto|by rewrite Hf|by left|].
  right. exists e. eapply (calls_bare (g r)); [apply Hg|exact Hc].
Qed.

Lemma sound_request_id pre h : (∀ i r, pre r → pre (with_id i r)) → sound pre h → sound pre (RequestID h).
Proof.
  intros Hp. set (i := λ r, if str_empty (rq_id_header r) then rq_fresh_id r else rq_id_header r).
  apply (sound_prepared pre h (λ r, set_header "X-Request-ID" (i r)) (λ r, with_id (i r) r)); [done|done|]. intros r. apply Hp.
Qed.
Lemma sound_security pre cfg h : sound pre h → sound pre (SecurityHeaders cfg h).
Proof.
  apply (sound_prepared pre h (λ r w, security_headers cfg r w) (λ r, r)); [|done|done]. intros r w. unfold security_headers, set_unless.
  by destruct (str_empty (sy_ContentSecurityPolicy _)), (str_empty (sy_XFrameOptions _)), (str_empty (sy_XContentTypeOptions _)), (_ || _), (str_empty (sy_ReferrerPolicy _)).
Qed.
Lemma sound_cors pre allowed h : sound pre h → sound pre (CORS allowed h).
Proof.
  intros Hs r w s Hr Hw. unfold CORS. set (w1 := if _ && _ then _ else w).
  assert (w_sent w1 = None) as Hw1 by (unfold w1; by destruct (_ && _)). destruct (bool_decide _); [|by apply Hs].
  left. split_and!; [done|done|]. unfold WriteHeader. cbn. rewrite Hw1. do 2 eexists. split; [done|]. unfold own_codes. set_solver.
Qed.
Lemma sound_logger pre h :
  (∀ e x r w, deliver e x (w, false) → deliver e x (end_log r w, false)) → sound pre h → sound pre (Logger h).
Proof.
  intros Hlog Hs r w s Hr Hw. unfold Logger. destruct (Hs r (start_log w) s Hr Hw) as [(Hst & Hp & code & hd & Hsent & Hc)|(e & r1 & w1 & w2 & p2 & Hse & Hb & Hw1 & Hd & Hg)];
    destruct (h r (start_log w) s) as [[s' w'] p]; cbn in *.
  - subst p. left. split_and!; [done|done|]. by exists code, hd.
  - right. exists e, r1, w1, w2, p2. destruct p; split_and!; try done. by apply Hlog.
Qed.

Lemma sound_authenticated pre (cfg : JWTConfig) h :
  (∀ c r, pre r → pre (with_claims c r)) →
  sound (λ r, pre r ∧ ∃ c, rq_claims r = Some c ∧ ValidateToken cfg (rq_now r) (extractBearerToken (rq_auth r)) = Ok c) h → sound pre (authenticated cfg h).
Proof.
  intros Hpre Hs r w s Hr Hw. unfold authenticated, AuthMiddleware.
  assert (∀ msg : string, answers s (s, http_error StatusUnauthorized (error_json msg) w, false)) as Herr.
  { intros msg. split_and!; [done|done|]. destruct (sent_http_error StatusUnauthorized (error_json msg) w Hw) as [hd Hhd].
    do 2 eexists. split; [exact Hhd|]. unfold own_codes, StatusUnauthorized. set_solver. }
  destruct (str_empty _); [left; apply Herr|]. destruct (ValidateToken cfg (rq_now r) _) as [c|err] eqn:Hv; [|left; apply Herr].
  destruct (Hs (with_claims (Some c) r) w s) as [Ha|[e Hc]].
  - split; [by apply Hpre|]. by exists c.
  - done.
  - left. by destruct (h (with_claims (Some c) r) w s) as [[s' w'] p].
  - right. exists e. apply (calls_bare _ r _ _ _ (bare_claims (Some c) r)). by destruct (h (with_claims (Some c) r) w s) as [[s' w'] p].
Qed.
End sound.

(** The answer is that of the endpoint, or it is that unless the endpoint panicked: then
    the status is 500 if none was sent. *)
Definition as_is {E} (e : E) (x y : writer * bool) : Prop := y.2 = x.2 ∧ w_sent y.1 = w_sent x.1 ∧ w_text y.1 = w_text x.1.
Definition recovered {E} (e : E) (x y : writer * bool) : Prop :=
  if x.2 then y.2 = false ∧ fst <$> w_sent y.1 = Some (default 500 (fst <$> w_sent x.1)) else as_is e x y.

Lemma as_is_log {E} (e : E) x r w : as_is e x (w, false) → as_is e x (end_log r w, false).
Proof. done. Qed.

Lemma sound_recovery {T S E} (serve : E → handler S) (state : T → S) guard pre h :
  sound serve state guard as_is pre h → sound serve state guard recovered pre (Recovery h).
Proof.
  intros Hs r w s Hr Hw. unfold Recovery.
  destruct (Hs r w s Hr Hw) as [Ha|(e & r1 & w1 & w2 & p2 & Hse & Hb & Hw1 & (Hp & Hsent & Ht) & Hg)]; destruct (h r w s) as [[s' w'] p]; cbn in *.
  - left. destruct Ha as (Hst & Hp & Hc). cbn in Hp. subst p. by split_and!.
  - right. exists e, r1, w1, w2, p2. subst p2. unfold recovered. destruct p; cbn; split_and!; try done.
    unfold write_text, WriteHeader, set_header. cbn. rewrite Hsent. by destruct (w_sent w2) as [[? ?]|].
Qed.

Lemma sound_weaken {T S E} (serve : E → handler S) (state : T → S) (guard guard' : request → T → E → option Claims → Prop)
    (d d' : E → writer * bool → writer * bool → Prop) (pre : request → Prop) h :
  (∀ r s e c x y, guard r s e c → d e x y → guard' r s e c ∧ d' e x y) → sound serve state guard d pre h → sound serve state guard' d' pre h.
Proof.
  intros Hd Hs r w s Hr Hw. destruct (Hs r w s Hr Hw) as [Ha|(e & r1 & w1 & w2 & p2 & Hse & Hb & Hw1 & Hde & Hg)]; [by left|].
  right. exists e, r1, w1, w2, p2. destruct (Hd _ _ _ _ _ _ Hg Hde). by split_and!.
Qed.

(** ** The console *)

Definition needs_token (e : endpoint) : bool := match e with EpRegister | EpLogin | EpRefresh | EpChat => false | _ => true end.
(** The method an endpoint is for; the description of the caller and the chat take every one. *)
Definition ep_method (e : endpoint) : string :=
  match e with
  | EpRegister | EpLogin | EpRefresh | EpSessionsCreate | EpAgentsCreate => "POST"
  | EpSessionsUpdate => "PATCH"
  | EpSessionsDelete | EpAgentsDelete => "DELETE"
  | EpAgentsUpdate | EpAgentsUpdateConfig | EpAgentsUpdateChannels | EpDocsUpdate | EpProvidersUpdate => "PUT"
  | EpMe | EpChat => ""
  | _ => "GET"
  end.
Definition or_get (m : string) : string := if str_empty m then "GET"%string else m.
(** Only the chat is outside the middleware. *)
Definition console_answer (e : endpoint) : writer * bool → writer * bool → Prop :=
  match e with EpChat => as_is e | _ => recovered e end.

Section guarded.
Context `{JWT} {S : Type} (serve : endpoint → handler S) (cfg : JWTConfig) (origins : list string).

Definition console_guard (r : request) (s : world S) (e : endpoint) (c : option Claims) : Prop :=
  method_ok (ep_method e) (rq_method r)
  ∧ (needs_token e = true → ∃ cl, c = Some cl ∧ ValidateToken cfg (rq_now r) (extractBearerToken (rq_auth r)) = Ok cl)
  ∧ (throttled e = true → (RateLimit (rq_xff r) (rq_xri r) (rq_remote r) (rq_now r) (wd_limiter s)).2 = None).

Lemma console_guard_bare r r' s e c : bare r = bare r' → console_guard r s e c → console_guard r' s e c.
Proof.
  intros Hb. unfold console_guard. assert (rq_method r = rq_method r' ∧ rq_now r = rq_now r' ∧ rq_auth r = rq_auth r' ∧ rq_xff r = rq_xff r' ∧ rq_xri r = rq_xri r'
    ∧ rq_remote r = rq_remote r') as (-> & -> & -> & -> & -> & ->); [|done].
  by injection Hb; intros; split_and!.
Qed.

(** Below the middleware. *)
Definition stacked_guard (r : request) (s : world S) (e : endpoint) (c : option Claims) : Prop := e ≠ EpChat ∧ console_guard r s e c.
Lemma stacked_guard_bare r r' s e c : bare r = bare r' → stacked_guard r s e c → stacked_guard r' s e c.
Proof. intros Hb [Hne Hg]. split; [done|]. by eapply console_guard_bare. Qed.

Abbreviation console_sound d := (sound serve wd_state stacked_guard d).

Lemma sound_route (pre : request → Prop) e : e ≠ EpChat →
  (∀ r, pre r → method_ok (ep_method e) (rq_method r)) →
  (∀ r, pre r → needs_token e = true → ∃ cl, rq_claims r = Some cl ∧ ValidateToken cfg (rq_now r) (extractBearerToken (rq_auth r)) = Ok cl) →
  console_sound as_is pre (if throttled e then limited (ep serve e) else ep serve e).
Proof.
  intros Hne Hm Ht r w s Hr Hw.
  assert (∀ s1, wd_state s1 = wd_state s → (throttled e = true → (RateLimit (rq_xff r) (rq_xri r) (rq_remote r) (rq_now r) (wd_limiter s)).2 = None) →
    calls serve wd_state stacked_guard as_is r s (ep serve e r w s1) e) as Hcall.
  { intros s1 Hs1 Hlim. unfold ep, lift. rewrite Hs1. destruct (serve e r w (wd_state s)) as [[s' w'] p] eqn:Hse.
    exists r, w, w', p. split_and!; try done. split; [done|]. split_and!; auto. }
  destruct (throttled e) eqn:He; [|right; exists e; by apply Hcall].
  unfold limited. destruct (RateLimit (rq_xff r) (rq_xri r) (rq_remote r) (rq_now r) (wd_limiter s)) as [rl [[code body]|]] eqn:Hrl.
  - left. split_and!; [done|done|]. unfold write_text, WriteHeader, set_header. cbn. rewrite Hw. do 2 eexists. split; [done|].
    revert Hrl. unfold RateLimit. destruct (rl_allow _ _ _) as [rl' []]; [done|]. intros [= _ <- _]. unfold own_codes. set_solver.
  - right. exists e. by apply Hcall.
Qed.

Lemma sound_stack (pre : request → Prop) h :
  (∀ i r, pre r → pre (with_id i r)) → console_sound as_is pre h → console_sound recovered pre (stack origins h).
Proof.
  intros Hp Hs. apply sound_recovery. apply sound_request_id; [apply stacked_guard_bare|done|].
  apply sound_logger; [apply as_is_log|]. apply sound_security; [apply stacked_guard_bare|]. by apply sound_cors; [apply stacked_guard_bare|].
Qed.

Lemma sound_routes pre l :
  (∀ v r, pre r → pre (with_values v r)) →
  Forall (λ se, se.2 ≠ EpChat ∧ pt_method (parse_pattern se.1) = ep_method se.2
    ∧ (needs_token se.2 = true → ∀ r, pre r → ∃ cl, rq_claims r = Some cl ∧ ValidateToken cfg (rq_now r) (extractBearerToken (rq_auth r)) = Ok cl)) l →
  console_sound as_is pre (ServeHTTP (prod_map parse_pattern id <$> routes serve l)).
Proof.
  intros Hv HF. apply sound_mux; [apply stacked_guard_bare|done|]. unfold routes. rewrite <- list_fmap_compose, Forall_fmap.
  eapply Forall_impl; [exact HF|]. intros [s e] (Hne & Hm & Ht). cbn in *. apply sound_route; [done|..].
  - intros r [_ Hr]. by rewrite <- Hm.
  - intros r [Hr _] Hn. by apply Ht.
Qed.

(** C6: Whatever is asked of the console's server, and whatever its endpoints do: either it answers
    itself, with an empty preflight, a redirect or an error, and no endpoint has run; or
    exactly one endpoint has run, for its method, and the answer is its own, save that a
    panic becomes the status 500 everywhere but in the chat.  An endpoint that is not of
    registration, login, refreshing a token or the chat only runs with the claims of a
    valid token of the request; registration and login only run while their limiter lets
    the address through. *)
Theorem console_guarded h r w s : console_Handler serve cfg origins = Some h → w_sent w = None →
  answers wd_state s (h r w s) ∨ ∃ e, calls serve wd_state console_guard console_answer r s (h r w s) e.
Proof.
  unfold console_Handler, auth_Handler. destruct (NewServeMux (routes serve auth_routes)) as [ma|] eqn:Ha; [|done].
  destruct (NewServeMux (routes serve protected_routes)) as [mp|] eqn:Hp; [|done]. cbn [fmap option_fmap option_map mbind option_bind].
  destruct (NewServeMux _) as [m|] eqn:Hm in |- *; [|done]. intros [= <-] Hw.
  apply NewServeMux_all in Ha as ->, Hp as ->, Hm as ->.
  enough (sound serve wd_state console_guard console_answer (λ _, True)
    (ServeHTTP (prod_map parse_pattern id <$>
      [("/api/v1/auth/"%string, stack origins (ServeHTTP (prod_map parse_pattern id <$> routes serve auth_routes)));
       ("/api/v1/"%string, stack origins (authenticated cfg (ServeHTTP (prod_map parse_pattern id <$> routes serve protected_routes))));
       ("/api/v1/auth/me"%string, stack origins (authenticated cfg (ep serve EpMe))); ("/api/v1/chat/ws"%string, ep serve EpChat)]))) as Hs
    by (by apply Hs).
  assert (∀ pre h, (∀ i r, pre r → pre (with_id i r)) → console_sound as_is pre h → sound serve wd_state console_guard console_answer pre (stack origins h)) as Hstack.
  { intros pre h Hpre Hh. eapply sound_weaken; [|by apply sound_stack]. intros r0 s0 e c x y [Hne Hg] Hd. split; [done|]. by destruct e. }
  apply sound_mux; [apply console_guard_bare|done|]. rewrite Forall_fmap. repeat apply Forall_cons_2; [..|by apply Forall_nil_2]; cbn [prod_map fst snd compose].
  - apply Hstack; [done|]. apply sound_routes; [done|]. by repeat constructor.
  - apply Hstack; [done|]. apply sound_authenticated; [apply stacked_guard_bare|done|]. apply sound_routes; [done|].
    repeat (apply Forall_cons_2; [split_and!; [done|done|by intros _ r0 [_ ?]]|]). by apply Forall_nil_2.
  - apply Hstack; [done|]. apply sound_authenticated; [apply stacked_guard_bare|done|].
    apply (sound_route _ EpMe); [done|intros; by right; left|]. by intros r0 [_ ?].
  - intros r0 w0 s0 _ Hw0. right. exists EpChat. unfold ep, lift, id. destruct (serve EpChat r0 w0 (wd_state s0)) as [[s' w'] p] eqn:Hse.
    exists r0, w0, w', p. split_and!; try done. split; [by right; left|by split].
Qed.

(** *** Every route is there *)

(** The components of a path that a pattern matches, with [v] for its wildcard. *)
Definition fill (pat v : string) : list bytes :=
  (λ s, match s with Lit x => s2l x | Wild _ => s2l v | Multi => [] end) <$> pt_segs (parse_pattern pat).
Definition route_method (e : endpoint) : string := or_get (ep_method e).
Definition console_routes : list (string * endpoint) := auth_routes ++ protected_routes ++ [("/api/v1/auth/me"%string, EpMe)].

Lemma stack_runs (h : handler (world S)) r w s : rq_method r ≠ "OPTIONS"%string →
  ∃ i w1, w_sent w1 = w_sent w ∧ let x := h (with_id i r) w1 s in
    (stack origins h r w s).1.1 = x.1.1 ∧ recovered () (x.1.2, x.2) ((stack origins h r w s).1.2, (stack origins h r w s).2).
Proof.
  intros Hm. unfold stack, Recovery, RequestID, Logger, SecurityHeaders, CORS. set (i := if str_empty (rq_id_header r) then _ else _).
  rewrite (bool_decide_false (rq_method (with_id i r) = "OPTIONS"%string)) by done. set (w1 := if negb _ && _ then _ else _).
  exists i, w1. split.
  { unfold w1. transitivity (w_sent (security_headers DefaultSecurityConfig (with_id i r) (start_log (set_header "X-Request-ID" i w)))).
    - by destruct (negb _ && _).
    - unfold security_headers, set_unless. cbn. by destruct (negb (rq_tls r)). }
  destruct (h (with_id i r) w1 s) as [[s' w'] p]. destruct p; cbn; split_and!; try done. unfold recovered, as_is. cbn.
  by destruct (w_sent w') as [[? ?]|].
Qed.

Definition presents (r : request) (c : Claims) : Prop :=
  extractBearerToken (rq_auth r) ≠ "" ∧ ValidateToken cfg (rq_now r) (extractBearerToken (rq_auth r)) = Ok c.

Lemma authenticated_runs c (h : handler (world S)) r w s : presents r c → authenticated cfg h r w s = h (with_claims (Some c) r) w s.
Proof.
  intros [Hne Hv]. unfold authenticated, AuthMiddleware. destruct (str_empty (extractBearerToken (rq_auth r))) eqn:He.
  - by apply bool_decide_eq_true in He.
  - rewrite Hv. by destruct (h (with_claims (Some c) r) w s) as [[s' w'] p].
Qed.

(** The outer multiplexer: which of its handlers a route goes to. *)
Definition outer : list (string * nat) := [("/api/v1/auth/", 0); ("/api/v1/", 1); ("/api/v1/auth/me", 2); ("/api/v1/chat/ws", 3)]%nat%string.

Ltac find_route Hx :=
  vm_compute in Hx; repeat (apply Forall_cons_2; [split; vm_compute; rewrite ?Hx; reflexivity|]); by apply Forall_nil_2.

Definition route_segs (pat x : string) : list string :=
  (λ s, match s with Lit y => y | Wild _ => x | Multi => "" end) <$> pt_segs (parse_pattern pat).

(** The path matches, and nothing with a slash at its end matches better. *)
Lemma find_segs_found {A} (m : mux A) meth segs sl pa vals :
  mux_match m meth segs = Some (pa, vals) →
  ends_multi (pt_segs pa.1) = false ∨ exact_match (mux_match m meth (segs ++ ["/"%string])) (segs ++ ["/"%string]) = false →
  find_segs m meth segs sl = Found pa vals.
Proof.
  intros Hm He. unfold find_segs. rewrite Hm. destruct He as [He| ->].
  - unfold exact_match at 1. by rewrite He.
  - by rewrite andb_false_r.
Qed.

Lemma outer_match x : String.eqb x "/" = false →
  Forall (λ pe, let segs := route_segs pe.1 x in let more := segs ++ ["/"%string] in
    mux_match (prod_map parse_pattern id <$> outer) (route_method pe.2) segs
    = Some (if bool_decide (pe.2 = EpMe) then (parse_pattern "/api/v1/auth/me", 2%nat)
            else if needs_token pe.2 then (parse_pattern "/api/v1/", 1%nat) else (parse_pattern "/api/v1/auth/", 0%nat), [])
    ∧ exact_match (mux_match (prod_map parse_pattern id <$> outer) (route_method pe.2) more) more = false) console_routes.
Proof.
  intros Hx. unfold console_routes, auth_routes, protected_routes. cbn [app]. find_route Hx.
Qed.

Definition route_values (pat x : string) : list string := (λ _, x) <$> wild_names (parse_pattern pat).

Lemma inner_match x l : l = auth_routes ∨ l = protected_routes → String.eqb x "/" = false →
  Forall (λ pe, mux_match (prod_map parse_pattern id <$> l) (route_method pe.2) (route_segs pe.1 x)
    = Some (parse_pattern pe.1, pe.2, route_values pe.1 x) ∧ ends_multi (pt_segs (parse_pattern pe.1)) = false) l.
Proof.
  intros Hl Hx. destruct Hl as [-> | ->]; unfold auth_routes, protected_routes.
  all: find_route Hx.
Qed.

(** The literal segments are plain and mean themselves. *)
Definition plain_route (pat : string) : bool :=
  negb (bool_decide (pt_segs (parse_pattern pat) = []))
  && forallb (λ s, match s with Lit y => bool_decide (plain (s2l y)) && bool_decide (pathUnescape (s2l y) = y) | Wild _ => true | Multi => false end)
       (pt_segs (parse_pattern pat)).

Lemma route_path pat v : plain_route pat = true → plain (s2l v) →
  Forall plain (fill pat v) ∧ fill pat v ≠ [] ∧ route_segs pat (pathUnescape (s2l v)) = pathUnescape <$> fill pat v.
Proof.
  unfold plain_route, fill, route_segs. intros [Hne Hall]%andb_true_iff Hv. split_and!.
  - rewrite Forall_fmap, Forall_forall. intros s Hs. rewrite forallb_forall in Hall. apply list_elem_of_In, Hall in Hs. cbn.
    destruct s; [|done|done]. apply andb_true_iff in Hs as [Hs _]. by apply bool_decide_eq_true in Hs.
  - intros Heq%fmap_nil_inv. by rewrite Heq in Hne.
  - rewrite <- list_fmap_compose. apply list_fmap_ext. intros i s Hs%list_elem_of_lookup_2. rewrite forallb_forall in Hall.
    apply list_elem_of_In, Hall in Hs. cbn. destruct s; [|done|done]. apply andb_true_iff in Hs as [_ Hs]. by apply bool_decide_eq_true in Hs.
Qed.
Lemma plain_routes : Forall (λ pe, plain_route pe.1 = true) console_routes.
Proof. apply Forall_forall. intros pe Hpe%list_elem_of_In. revert pe Hpe. apply forallb_forall. vm_compute. reflexivity. Qed.

(** The handlers of the outer multiplexer. *)
Definition outer_handler (n : nat) : handler (world S) :=
  match n with
  | 0%nat => stack origins (ServeHTTP (prod_map parse_pattern id <$> routes serve auth_routes))
  | 1%nat => stack origins (authenticated cfg (ServeHTTP (prod_map parse_pattern id <$> routes serve protected_routes)))
  | 2%nat => stack origins (authenticated cfg (ep serve EpMe))
  | _ => ep serve EpChat
  end.

(** Nothing is refused. *)
Lemma console_Handler_built : console_Handler serve cfg origins = Some (ServeHTTP (prod_map parse_pattern outer_handler <$> outer)).
Proof.
  unfold console_Handler, auth_Handler. rewrite !NewServeMux_some by (vm_compute; reflexivity). reflexivity.
Qed.

(** A request for a route: of its method and path, with a plain value for the wildcard. *)
Definition asks (pat : string) (e : endpoint) (v : string) (r : request) : Prop :=
  plain (s2l v) ∧ pathUnescape (s2l v) ≠ "/"%string ∧ rq_method r = route_method e ∧ rq_path r = abs_path (fill pat v).
Definition values_of (pat v : string) : list (string * string) := zip (wild_names (parse_pattern pat)) (route_values pat (pathUnescape (s2l v))).
Definition outer_label (e : endpoint) : string * nat :=
  if bool_decide (e = EpMe) then ("/api/v1/auth/me"%string, 2%nat) else if needs_token e then ("/api/v1/"%string, 1%nat) else ("/api/v1/auth/"%string, 0%nat).

Lemma asks_path pat e v r : (pat, e) ∈ console_routes → asks pat e v r →
  String.eqb (pathUnescape (s2l v)) "/" = false ∧ Forall plain (fill pat v) ∧ fill pat v ≠ [] ∧ route_segs pat (pathUnescape (s2l v)) = pathUnescape <$> fill pat v.
Proof.
  intros Hin (Hv & Hx & _). split; [by apply String.eqb_neq|]. apply route_path; [|done].
  exact (proj1 (Forall_forall _ _) plain_routes (pat, e) Hin).
Qed.

Lemma outer_runs pat e v r w s : (pat, e) ∈ console_routes → asks pat e v r →
  ServeHTTP (prod_map parse_pattern outer_handler <$> outer) r w s = outer_handler (outer_label e).2 (with_values [] r) w s.
Proof.
  intros Hin Ha. destruct (asks_path _ _ _ _ Hin Ha) as (Hslash & HF & Hne & Hsegs). destruct Ha as (_ & _ & Hm & Hp).
  pose proof (outer_match _ Hslash) as Hout. rewrite Forall_forall in Hout. destruct (Hout _ Hin) as [Hom Hoe]. cbn [fst snd] in Hom, Hoe.
  assert (mux_match (prod_map parse_pattern id <$> outer) (route_method e) (route_segs pat (pathUnescape (s2l v)))
    = Some (parse_pattern (outer_label e).1, (outer_label e).2, [])) as Hom'.
  { rewrite Hom. unfold outer_label. by destruct (bool_decide _), (needs_token e). }
  rewrite (serve_found outer_handler outer _ _ _ (outer_label e).1 (outer_label e).2 [] r w s Hm Hp Hne HF Hsegs); [by rewrite zip_with_nil_r|].
  intros sl. by apply find_segs_found; [exact Hom'|right].
Qed.

Lemma inner_runs l pat e v r r0 w0 s : l = auth_routes ∨ l = protected_routes → (pat, e) ∈ l → (pat, e) ∈ console_routes → asks pat e v r →
  rq_method r0 = rq_method r → rq_path r0 = rq_path r →
  ServeHTTP (prod_map parse_pattern id <$> routes serve l) r0 w0 s
  = (if throttled e then limited (ep serve e) else ep serve e) (with_values (values_of pat v) r0) w0 s.
Proof.
  intros Hl Hinl Hin Ha Hm0 Hp0. destruct (asks_path _ _ _ _ Hin Ha) as (Hslash & HF & Hne & Hsegs). destruct Ha as (_ & _ & Hm & Hp).
  pose proof (inner_match _ l Hl Hslash) as Hf. rewrite Forall_forall in Hf. destruct (Hf _ Hinl) as [Him Hie].
  unfold routes. rewrite <- list_fmap_compose. eapply (serve_found (λ e, if throttled e then limited (ep serve e) else ep serve e) l);
    [by rewrite Hm0|by rewrite Hp0|done|done|exact Hsegs|]. intros sl. apply find_segs_found; [exact Him|by left].
Qed.

(** What is known when an endpoint ran below the middleware, for the result [y]. *)
Definition ran (e : endpoint) (c : Claims) (vals : list (string * string)) (r : request) (s : world S) (y : world S * writer * bool) : Prop :=
  ∃ r1 w1 w2 p2, serve e r1 w1 (wd_state s) = (wd_state y.1.1, w2, p2) ∧ recovered e (w2, p2) (y.1.2, y.2)
    ∧ bare r1 = bare r ∧ w_sent w1 = None ∧ (needs_token e = true → rq_claims r1 = Some c) ∧ rq_values r1 = vals.

Lemma route_ran e c vals r r1 w1 s y :
  bare r1 = bare r → w_sent w1 = None → (needs_token e = true → rq_claims r1 = Some c) → rq_values r1 = vals →
  (throttled e = true → (RateLimit (rq_xff r) (rq_xri r) (rq_remote r) (rq_now r) (wd_limiter s)).2 = None) →
  (let res := (if throttled e then limited (ep serve e) else ep serve e) r1 w1 s in
   y.1.1 = res.1.1 ∧ recovered () (res.1.2, res.2) (y.1.2, y.2)) → ran e c vals r s y.
Proof.
  intros Hb Hw1 Hc1 Hv1 Hlim. cbv zeta.
  assert (∃ s1, wd_state s1 = wd_state s ∧ (if throttled e then limited (ep serve e) else ep serve e) r1 w1 s = ep serve e r1 w1 s1) as (s1 & Hs1 & ->).
  { destruct (throttled e); [|by exists s]. assert (rq_xff r1 = rq_xff r ∧ rq_xri r1 = rq_xri r ∧ rq_remote r1 = rq_remote r ∧ rq_now r1 = rq_now r)
      as (H1 & H2 & H3 & H4) by (by injection Hb; intros; split_and!).
    unfold limited. rewrite H1, H2, H3, H4. specialize (Hlim eq_refl). destruct (RateLimit _ _ _ _ _) as [rl o]. cbn in Hlim. subst o.
    by exists {| wd_state := wd_state s; wd_limiter := rl |}. }
  unfold ep, lift. rewrite Hs1. destruct (serve e r1 w1 (wd_state s)) as [[s2 w2] p2] eqn:Hse. intros [Hst Hrec].
  exists r1, w1, w2, p2. rewrite Hst, Hse. by split_and!.
Qed.

Lemma routes_kind : Forall (λ pe, needs_token pe.2 = false ∧ pe.2 ≠ EpMe) auth_routes
  ∧ Forall (λ pe, needs_token pe.2 = true ∧ pe.2 ≠ EpMe ∧ throttled pe.2 = false) protected_routes.
Proof. split; by repeat constructor. Qed.

(** C28: Every route of the console but that of the chat is reached: a request with the method
    and the path of a route, where a path segment that a clean path keeps, and that is not an
    escaped slash alone (then there is no such route), stands for the wildcard, with a token
    if the endpoint needs one and not held back by the limiter if it is throttled, runs the
    endpoint once, with the claims of the token if it needs one and the unescaped value of
    the wildcard, and the answer is the endpoint's own unless it panics. *)
Theorem routes_reached h pat e v r w s c :
  console_Handler serve cfg origins = Some h → (pat, e) ∈ console_routes →
  asks pat e v r → w_sent w = None →
  (needs_token e = true → presents r c) →
  (throttled e = true → (RateLimit (rq_xff r) (rq_xri r) (rq_remote r) (rq_now r) (wd_limiter s)).2 = None) →
  ran e c (values_of pat v) r s (h r w s).
Proof.
  rewrite console_Handler_built. intros <-%(inj Some) Hin Ha Hw Hc Hlim. rewrite (outer_runs _ _ _ _ _ _ Hin Ha).
  assert (rq_method r ≠ "OPTIONS"%string) as Hopt by (destruct Ha as (_ & _ & -> & _); by destruct e).
  pose proof Hin as Hin'. unfold console_routes in Hin'. rewrite !elem_of_app in Hin'. destruct routes_kind as [Hauth Hprot].
  destruct Hin' as [Hl|[Hl|Hl]].
  - rewrite Forall_forall in Hauth. destruct (Hauth _ Hl) as [Hnt Hnm]. cbn in Hnt, Hnm. unfold outer_label.
    rewrite bool_decide_false, Hnt by done. cbn [snd outer_handler].
    destruct (stack_runs (ServeHTTP (prod_map parse_pattern id <$> routes serve auth_routes)) (with_values [] r) w s) as (i & w1 & Hw1 & Hres); [done|].
    rewrite (inner_runs auth_routes pat e v r) in Hres by auto. eapply route_ran; [..|exact Hres]; [done|by rewrite Hw1|by rewrite Hnt|done|done].
  - rewrite Forall_forall in Hprot. destruct (Hprot _ Hl) as (Hnt & Hnm & Hth). cbn in Hnt, Hnm, Hth. unfold outer_label.
    rewrite bool_decide_false, Hnt by done. cbn [snd outer_handler].
    destruct (stack_runs (authenticated cfg (ServeHTTP (prod_map parse_pattern id <$> routes serve protected_routes))) (with_values [] r) w s)
      as (i & w1 & Hw1 & Hres); [done|].
    rewrite (authenticated_runs c), (inner_runs protected_routes pat e v r) in Hres by first [exact (Hc Hnt)|auto].
    eapply route_ran; [..|exact Hres]; [done|by rewrite Hw1|done|done|done].
  - apply list_elem_of_singleton in Hl. assert (e = EpMe ∧ pat = "/api/v1/auth/me"%string) as [-> ->] by (split; [exact (f_equal snd Hl)|exact (f_equal fst Hl)]).
    destruct (stack_runs (authenticated cfg (ep serve EpMe)) (with_values [] r) w s) as (i & w1 & Hw1 & Hres); [done|].
    rewrite (authenticated_runs c) in Hres by exact (Hc eq_refl). eapply (route_ran EpMe); [..|exact Hres]; [done|by rewrite Hw1|done|done|done].
Qed.
End guarded.

(** ** The servers around the console *)

(** Labels of the handlers of a server. *)
Definition mounts (web health : bool) : list (string * nat) :=
  ("/api/", 0%nat)%string :: (if web then [("/"%string, 1%nat)] else []) ++ (if health then [("/health"%string, 2%nat)] else []).

Lemma mounts_api web health meth y rest sl : meth ≠ ""%string →
  find_segs (prod_map parse_pattern id <$> mounts web health) meth ("api"%string :: y :: rest) sl = Found (parse_pattern "/api/", 0%nat) [].
Proof.
  intros Hmeth. set (m := prod_map parse_pattern id <$> mounts web health).
  assert (∀ meth', meth' ≠ ""%string → method_node meth' m = []) as Hnone.
  { intros meth' Hne. destruct meth'; [done|]. by destruct web, health. }
  assert (∀ z l, mux_match m meth ("api"%string :: z :: l) = Some (parse_pattern "/api/", 0%nat, [])) as Hmatch.
  { intros z l. unfold mux_match. rewrite (Hnone meth), (Hnone "GET"%string), !match_path_none by done.
    assert ((if String.eqb meth "HEAD" then @None (pattern * nat * list string) else None) = None) as -> by (by destruct (String.eqb _ _)).
    assert (match_path ("api"%string :: z :: l) [] (method_node "" m) = match match_path (z :: l) [] [([Multi], (parse_pattern "/api/", 0%nat))] with
      | Some r => Some r | None => None end) as Hstep.
    { destruct web, health; cbn [match_path]; vm_compute (lit_child "api" _); cbn; rewrite ?match_path_none; cbn; by destruct (String.eqb z "/"). }
    rewrite Hstep. cbn [match_path]. change (lit_child z [([Multi], (parse_pattern "/api/", 0%nat))]) with ([] : node nat).
    change (wild_child [([Multi], (parse_pattern "/api/", 0%nat))]) with ([] : node nat). rewrite !match_path_none. by destruct (String.eqb z "/"). }
  apply find_segs_found; [apply Hmatch|]. right. cbn [app]. rewrite Hmatch. unfold exact_match. change (negb _) with false. cbn iota.
  destruct (last _); [|done]. apply andb_false_iff. right. apply Nat.eqb_neq. cbn. rewrite length_app. cbn. lia.
Qed.

Definition mounted {S} (console static : handler S) (n : nat) : handler S :=
  match n with 0%nat => console | 1%nat => static | _ => health_ok end.

(** The servers are built and hand every path below [/api/] to the console. *)
Lemma servers_mount {S} (console static : handler S) : ∃ api web own,
  api_server console = Some api ∧ web_server console static = Some web ∧ console_server console static = Some own
  ∧ ∀ r w s y l, Forall plain (s2l "api" :: y :: l) → rq_path r = abs_path (s2l "api" :: y :: l) → rq_method r ≠ ""%string →
      api r w s = console (with_values [] r) w s ∧ web r w s = console (with_values [] r) w s ∧ own r w s = console (with_values [] r) w s.
Proof.
  do 3 eexists. unfold api_server, web_server, console_server. rewrite !NewServeMux_some by (vm_compute; reflexivity).
  split; [reflexivity|]. split; [reflexivity|]. split; [reflexivity|]. intros r w s y l HF Hp Hm.
  assert (∀ web health, ServeHTTP (prod_map parse_pattern (mounted console static) <$> mounts web health) r w s = console (with_values [] r) w s) as Hrun.
  { intros web health. rewrite (serve_found (mounted console static) (mounts web health) _ _ _ "/api/" 0%nat [] r w s eq_refl Hp ltac:(done) HF eq_refl);
      [done|]. intros sl. by apply mounts_api. }
  split_and!; [apply (Hrun false true)|apply (Hrun true true)|apply (Hrun true false)].
Qed.

(** *** The marketplace *)

Definition market_token (e : market_endpoint) : bool := match e with MkListSkills | MkGetSkill => false | _ => true end.
Definition market_method (e : market_endpoint) : string :=
  match e with MkInstall | MkCreate | MkReview => "POST" | MkUninstall => "DELETE" | _ => "GET" end.

Section market_guarded.
Context `{JWT} {S : Type} (serve : market_endpoint → handler S) (cfg : JWTConfig).

Definition market_guard (r : request) (s : S) (e : market_endpoint) (c : option Claims) : Prop :=
  method_ok (market_method e) (rq_method r)
  ∧ (market_token e = true → ∃ cl, c = Some cl ∧ ValidateToken cfg (rq_now r) (extractBearerToken (rq_auth r)) = Ok cl).
Lemma market_guard_bare r r' s e c : bare r = bare r' → market_guard r s e c → market_guard r' s e c.
Proof.
  intros Hb. unfold market_guard. assert (rq_method r = rq_method r' ∧ rq_now r = rq_now r' ∧ rq_auth r = rq_auth r') as (-> & -> & ->); [|done].
  by injection Hb; intros; split_and!.
Qed.

Lemma market_route (pre : request → Prop) e :
  (∀ r, pre r → method_ok (market_method e) (rq_method r)) →
  (∀ r, pre r → market_token e = true → ∃ cl, rq_claims r = Some cl ∧ ValidateToken cfg (rq_now r) (extractBearerToken (rq_auth r)) = Ok cl) →
  sound serve id market_guard as_is pre (serve e).
Proof.
  intros Hm Ht r w s Hr Hw. right. exists e. destruct (serve e r w s) as [[s' w'] p] eqn:Hse. exists r, w, w', p. split_and!; try done. split_and!; auto.
Qed.

(** The marketplace shows its skills to everybody; every other endpoint only runs with the
    claims of a valid token of the request. *)
Theorem market_guarded h r w s : market_Handler serve cfg = Some h → w_sent w = None →
  answers id s (h r w s) ∨ ∃ e, calls serve id market_guard as_is r s (h r w s) e.
Proof.
  unfold market_Handler. destruct (NewServeMux (prod_map id serve <$> market_protected)) as [mp|] eqn:Hp; [|done]. cbn [mbind option_bind].
  destruct (NewServeMux _) as [m|] eqn:Hm in |- *; [|done]. intros <-%(inj Some) Hw. apply NewServeMux_all in Hp as ->, Hm as ->.
  assert (∀ pre, (∀ v r, pre r → pre (with_values v r)) → (∀ c r, pre r → pre (with_claims c r)) →
    sound serve id market_guard as_is pre (authenticated cfg (ServeHTTP (prod_map parse_pattern id <$> (prod_map id serve <$> market_protected))))) as Hg.
  { intros pre Hv Hc. apply sound_authenticated; [apply market_guard_bare|done|]. apply sound_mux; [apply market_guard_bare|by intros v r0 [? ?]; split; auto|].
    unfold market_protected. repeat (apply Forall_cons_2; [apply market_route; [by intros ? [_ ?]|by intros ? [[_ ?] _]]|]); by apply Forall_nil_2. }
  enough (sound serve id market_guard as_is (λ _, True) (ServeHTTP (prod_map parse_pattern id <$> ((prod_map id serve <$> market_public)
    ++ [("/api/skills/"%string, authenticated cfg (ServeHTTP (prod_map parse_pattern id <$> (prod_map id serve <$> market_protected))));
        ("/api/tenants/"%string, authenticated cfg (ServeHTTP (prod_map parse_pattern id <$> (prod_map id serve <$> market_protected))));
        ("/api/proposals"%string, authenticated cfg (ServeHTTP (prod_map parse_pattern id <$> (prod_map id serve <$> market_protected))));
        ("/api/proposals/"%string, authenticated cfg (ServeHTTP (prod_map parse_pattern id <$> (prod_map id serve <$> market_protected))))])))) as Hs
    by (by apply Hs).
  apply sound_mux; [apply market_guard_bare|done|]. unfold market_public. cbn [app].
  apply Forall_cons_2; [apply market_route; [by intros ? [_ ?]|done]|]. apply Forall_cons_2; [apply market_route; [by intros ? [_ ?]|done]|].
  repeat (apply Forall_cons_2; [by apply Hg; intros ? ? [? ?]|]); by apply Forall_nil_2.
Qed.
End market_guarded.

(** *** Headers *)

(** The identifier of a request that panicked is not in the answer: [Recovery] is outside of
    [RequestID] and does not see what that puts into the context. *)
Lemma recovery_without_id {S} origins (h : handler S) r w s :
  rq_ctx_id r = ""%string → rq_method r ≠ "OPTIONS"%string → (∀ r w s, (h r w s).2 = true) →
  ∃ t, w_text (stack origins h r w s).1.2 = t +:+ internal_error "".
Proof.
  intros Hid Hm Hp. unfold stack, Recovery, RequestID, Logger, SecurityHeaders, CORS. set (i := if str_empty (rq_id_header r) then _ else _).
  rewrite (bool_decide_false (rq_method (with_id i r) = "OPTIONS"%string)) by done.
  match goal with |- context [h ?a ?b ?c] => specialize (Hp a b c); destruct (h a b c) as [[s' w'] p] end. cbn in Hp. subst p. cbn.
  exists (w_text w'). unfold GetRequestID. by rewrite Hid.
Qed.

(** An origin is allowed to read answers only when it is listed, by itself, by a star or
    by a star for its domain. *)
Lemma cors_allows {S} allowed (h : handler S) r w s :
  (∀ r w s, w_header (h r w s).1.2 = w_header w) → w_header w !! "Access-Control-Allow-Origin"%string = None →
  ∀ o, w_header (CORS allowed h r w s).1.2 !! "Access-Control-Allow-Origin"%string = Some o →
  o = rq_origin r ∧ o ≠ ""%string ∧ ∃ a, a ∈ allowed ∧ (a = "*"%string ∨ a = o ∨ has_prefix a "*." = true ∧ has_suffix o (l2s (tail (s2l a))) = true).
Proof.
  intros Hh Hw o Ho. unfold CORS in Ho. destruct (str_empty (rq_origin r)) eqn:He; cbn [negb andb] in Ho;
    [|destruct (isAllowedOrigin (rq_origin r) allowed) eqn:Ha].
  - assert (w_header w !! "Access-Control-Allow-Origin"%string = Some o) as Hx; [|congruence].
    revert Ho. destruct (bool_decide _); cbn; [done|by rewrite Hh].
  - assert (w_header (allow_origin (rq_origin r) w) !! "Access-Control-Allow-Origin"%string = Some o) as Hx.
    { revert Ho. destruct (bool_decide _); cbn; [done|by rewrite Hh]. }
    unfold allow_origin, set_header in Hx. cbn in Hx. rewrite !lookup_insert_ne, lookup_insert_eq in Hx by done. injection Hx as <-.
    split; [done|]. split; [intros Heq; by rewrite Heq in He|]. unfold isAllowedOrigin in Ha. apply existsb_exists in Ha as (a & Hin & Hor).
    exists a. split; [by apply list_elem_of_In|]. rewrite !orb_true_iff, andb_true_iff, !bool_decide_eq_true in Hor. naive_solver.
  - assert (w_header w !! "Access-Control-Allow-Origin"%string = Some o) as Hx; [|congruence].
    revert Ho. destruct (bool_decide _); cbn; [done|by rewrite Hh].
Qed.

(** *** Static files *)

(** Plain components are pushed, whether the path is rooted or not. *)
Lemma clean_push rooted l stack : Forall plain l → foldl (clean_step rooted) stack l = reverse l ++ stack.
Proof.
  revert stack. induction l as [|c l IH]; intros stack HF; [done|]. inversion HF as [|? ? (H1 & H2 & H3 & _) HF']; subst. cbn [foldl].
  unfold clean_step at 2. rewrite bool_decide_false by naive_solver. rewrite bool_decide_false by done. rewrite IH by done.
  by rewrite reverse_cons, <- app_assoc.
Qed.

(** A path whose components are plain, but for a leading slash. *)
Definition walks (p : string) (k : list bytes) : Prop := Forall plain k ∧ ∀ rooted stack, foldl (clean_step rooted) stack (parts p) = reverse k ++ stack.
Lemma walks_abs k : Forall plain k → walks (abs_path k) k.
Proof.
  intros Hk. split; [done|]. intros rooted stack. unfold parts, abs_path. rewrite s2l_l2s. cbn [split_bytes]. rewrite Ascii.eqb_refl. cbn [foldl].
  destruct (decide (k = [])) as [->|Hne]; [done|]. rewrite parts_join by done. unfold clean_step at 2. cbn. by apply clean_push.
Qed.
Lemma walks_one c : plain c → walks (l2s c) [c].
Proof. intros Hc. split; [by apply Forall_singleton|]. intros rooted stack. rewrite plain_parts by done. apply clean_push. by apply Forall_singleton. Qed.

(** A directory that is clean, absolute or not. *)
Inductive clean_dir : string → (list bytes → string) → Prop :=
| abs_dir d : Forall plain d → clean_dir (abs_path d) (λ k, abs_path (d ++ k))
| rel_dir d : d ≠ [] → Forall plain d → clean_dir (l2s (join_parts d)) (λ k, l2s (join_parts (d ++ k))).

Lemma Join_below dir at_ p k : clean_dir dir at_ → walks p k → Join [dir; p] = at_ k.
Proof.
  intros Hd [Hk Hwalk]. destruct Hd as [d Hd|d Hne Hd].
  - rewrite Join_abs, Hwalk by done. by rewrite reverse_app, !reverse_involutive.
  - assert (str_empty (l2s (join_parts d)) = false ∧ IsAbs (l2s (join_parts d) +:+ "/" +:+ p) = false) as [He Habs].
    { destruct d as [|c d]; [done|]. inversion Hd as [|? ? (Hc & _ & _ & Hs) _]; subst. destruct c as [|b c]; [done|].
      assert (∃ t, join_parts ((b :: c) :: d) = b :: t) as [t ->] by (destruct d; cbn; by eexists). split; [done|].
      unfold IsAbs. rewrite s2l_app, s2l_l2s. cbn. apply Ascii.eqb_neq. intros ->. set_solver. }
    cbn [Join]. rewrite He. cbn [join]. unfold Clean. rewrite Habs. unfold clean_parts. rewrite parts_slash.
    assert (parts (l2s (join_parts d)) = d) as -> by (unfold parts; rewrite s2l_l2s; by apply parts_join).
    rewrite foldl_app, (clean_push false d), app_nil_r, Hwalk by done. rewrite <- reverse_app, reverse_involutive. by destruct d.
Qed.

(** Whatever the path of the URL, what is sent is a file below the directory of the
    console, and its path has none but ordinary components; a file that is sent for the path is
    there and no directory, and otherwise it is the page of the console. *)
Theorem static_confined {S} stat (send : string → handler S) dir at_ r w s :
  clean_dir dir at_ → IsAbs (URL_Path r) = true →
  (StaticHandler stat send dir r w s).1.1 = s ∧ is_Some (w_sent (StaticHandler stat send dir r w s).1.2)
  ∨ ∃ k, Forall plain k ∧ StaticHandler stat send dir r w s = send (at_ k) r w s
      ∧ (k = clean_parts true (parts (URL_Path r)) ∧ stat (at_ k) = Some false ∨ k = [s2l "index.html"] ∧ is_Some (stat (at_ k)))
      ∧ has_prefix (URL_Path r) "/api/" = false ∧ containsDotDot (URL_Path r) = false.
Proof.
  intros Hdir Habs. unfold StaticHandler. destruct (has_prefix (URL_Path r) "/api/") eqn:Hapi.
  { left. split; [done|]. unfold http_NotFound, http_error, write_text, WriteHeader, set_header. cbn. destruct (w_sent w); by eexists. }
  assert (∀ path, (ServeFile send path r w s).1.1 = s ∧ is_Some (w_sent (ServeFile send path r w s).1.2)
    ∨ ServeFile send path r w s = send path r w s ∧ containsDotDot (URL_Path r) = false) as Hserve.
  { intros path. unfold ServeFile. destruct (containsDotDot _); [|destruct (has_suffix _ _); [|by right]]; left;
      (split; [done|]); unfold http_redirect, http_error, write_text, WriteHeader, set_header; cbn; destruct (w_sent w); by eexists. }
  rewrite Clean_abs by done. assert (Forall plain (clean_parts true (parts (URL_Path r)))) as Hk by apply clean_parts_plain.
  rewrite (Join_below dir at_ _ _ Hdir (walks_abs _ Hk)).
  assert (plain (s2l "index.html")) as Hi by (apply (bool_decide_unpack _); vm_compute; exact I).
  pose proof (Join_below dir at_ _ _ Hdir (walks_one _ Hi)) as Hindex. rewrite l2s_s2l in Hindex. rewrite Hindex.
  assert (∀ path, path = at_ [s2l "index.html"] → is_Some (stat path) →
    (ServeFile send path r w s).1.1 = s ∧ is_Some (w_sent (ServeFile send path r w s).1.2)
    ∨ ∃ k, Forall plain k ∧ ServeFile send path r w s = send (at_ k) r w s
        ∧ (k = clean_parts true (parts (URL_Path r)) ∧ stat (at_ k) = Some false ∨ k = [s2l "index.html"] ∧ is_Some (stat (at_ k)))
        ∧ false = false ∧ containsDotDot (URL_Path r) = false) as Hpage.
  { intros path -> Hst. destruct (Hserve (at_ [s2l "index.html"])) as [?|[? ?]]; [by left|]. right. exists [s2l "index.html"].
    split_and!; try done; [by apply Forall_singleton|by right]. }
  assert ((http_NotFound r w s).1.1 = s ∧ is_Some (w_sent (http_NotFound r w s).1.2)) as Hnf.
  { split; [done|]. unfold http_NotFound, http_error, write_text, WriteHeader, set_header. cbn. destruct (w_sent w); by eexists. }
  destruct (stat (at_ (clean_parts true (parts (URL_Path r))))) as [[]|] eqn:Hst.
  1, 3: destruct (stat (at_ [s2l "index.html"])) as [d|] eqn:Hsi; [apply Hpage; [done|by eexists]|by left].
  destruct (Hserve (at_ (clean_parts true (parts (URL_Path r))))) as [?|[? ?]]; [by left|]. right.
  exists (clean_parts true (parts (URL_Path r))). split_and!; try done. by left.
Qed.

(** ** Examples *)

Definition w_request (meth path auth : string) : request :=
  {| rq_method := meth; rq_path := path; rq_origin := "https://a.example.com"; rq_auth := auth; rq_id_header := ""; rq_xff := ""; rq_xri := "";
     rq_remote := "10.0.0.1:80"; rq_tls := true; rq_now := 0; rq_fresh_id := "id-1"; rq_body := ""; rq_ctx_id := ""; rq_claims := None;
     rq_values := [] |}.
Definition w_cfg : JWTConfig := {| jc_Secret := "secret"; jc_Expiry := 0 |}.
(** Endpoints that log what they are called with; one panics. *)
Definition w_serve (e : endpoint) : handler (list (endpoint * string * bool)) := λ r w s,
  (s ++ [(e, PathValue "id" r, bool_decide (is_Some (rq_claims r)))], if bool_decide (e = EpAgentsDelete) then w else WriteHeader 200 w,
   bool_decide (e = EpAgentsDelete)).
Definition w_world : world (list (endpoint * string * bool)) := {| wd_state := []; wd_limiter := auth_limiter |}.
Definition w_token : string := match GenerateToken w_cfg 0 "acc" "user" ["t"%string] with Ok t => "Bearer " +:+ t | Err _ => "" end.
Definition w_handler : handler (world (list (endpoint * string * bool))) :=
  ServeHTTP (prod_map parse_pattern (outer_handler w_serve w_cfg ["*.example.com"%string]) <$> outer).
Definition w_ask (meth path auth : string) : list (endpoint * string * bool) * option Z :=
  let '(s, w, _) := w_handler (w_request meth path auth) new_writer w_world in (wd_state s, fst <$> w_sent w).

Example requests_are_routed :
  w_ask "PUT" "/api/v1/agents/a%20b/config" w_token = ([(EpAgentsUpdateConfig, "a b"%string, true)], Some 200)
  ∧ w_ask "PUT" "/api/v1/agents/a%20b/config" "" = ([], Some 401)
  ∧ w_ask "DELETE" "/api/v1/agents/x" w_token = ([(EpAgentsDelete, "x"%string, true)], Some 500)
  ∧ w_ask "PUT" "/api/v1/sessions/x" w_token = ([], Some 405) ∧ w_ask "GET" "/api/v1/none" w_token = ([], Some 404)
  ∧ w_ask "GET" "/api/v1//agents" w_token = ([], Some 301) ∧ w_ask "OPTIONS" "/api/v1/agents" "" = ([], Some 204)
  ∧ w_ask "POST" "/api/v1/auth/login" "" = ([(EpLogin, ""%string, false)], Some 200)
  ∧ w_ask "GET" "/api/v1/agents/%2F" w_token = ([], Some 404).
Proof. vm_compute. repeat split. Qed.

Definition w_refused : request := w_request "DELETE" "/api/v1/agents/x" "".
Definition w_answer (r : request) : world (list (endpoint * string * bool)) * writer * bool := w_handler r new_writer w_world.

Lemma console_guarded_witness :
  answers wd_state w_world (w_answer w_refused)
  ∨ ∃ e, calls w_serve wd_state (console_guard w_cfg) console_answer w_refused w_world (w_answer w_refused) e.
Proof.
  apply (console_guarded w_serve w_cfg ["*.example.com"%string]); [apply console_Handler_built|reflexivity].
Defined.

Definition w_claims : Claims :=
  {| cl_AccountID := "acc"; cl_Role := "user"; cl_Tenants := ["t"%string]; cl_ExpiresAt := NewNumericDate (time_add 0 (24 * Hour)); cl_IssuedAt := 0;
     cl_Issuer := "abot-console" |}.
Definition w_config : request := w_request "PUT" "/api/v1/agents/a%20b/config" w_token.

Lemma routes_reached_witness :
  ran w_serve EpAgentsUpdateConfig w_claims [("id", "a b")]%string w_config w_world (w_answer w_config)
  ∧ wd_state (w_answer w_config).1.1 = [(EpAgentsUpdateConfig, "a b"%string, true)].
Proof.
  split; [|vm_compute; reflexivity].
  refine (routes_reached w_serve w_cfg ["*.example.com"%string] w_handler "PUT /api/v1/agents/{id}/config" EpAgentsUpdateConfig "a%20b"
    w_config new_writer w_world w_claims (console_Handler_built _ _ _) _ _ eq_refl _ _).
  - unfold console_routes, protected_routes. set_solver.
  - split_and!; [apply (bool_decide_unpack _); vm_compute; exact I|vm_compute; discriminate|reflexivity|vm_compute; reflexivity].
  - intros _. split; [vm_compute; discriminate|vm_compute; reflexivity].
  - discriminate.
Defined.

Definition w_stat (p : string) : option bool :=
  if bool_decide (p ∈ ["web/out/index.html"; "web/out/app.js"]%string) then Some false else None.
Definition w_send (p : string) : handler (list string) := λ r w s, (s ++ [p], WriteHeader 200 w, false).
Definition w_static (path : string) : list string * writer * bool :=
  StaticHandler w_stat w_send "web/out" (w_request "GET" path "") new_writer [].

Lemma static_confined_witness :
  (∃ k, Forall plain k ∧ w_static "/x/%2e./app.js" = w_send (l2s (join_parts ([s2l "web"; s2l "out"] ++ k))) (w_request "GET" "/x/%2e./app.js" "") new_writer [])
  ∨ (w_static "/x/%2e./app.js").1.1 = [] ∧ (w_static "/app.js").1.1 = ["web/out/app.js"%string] ∧ (w_static "/other").1.1 = ["web/out/index.html"%string].
Proof.
  assert (clean_dir "web/out" (λ k, l2s (join_parts ([s2l "web"; s2l "out"] ++ k)))) as Hd.
  { apply (rel_dir [s2l "web"; s2l "out"]); [done|]. apply (bool_decide_unpack _). vm_compute. exact I. }
  destruct (static_confined w_stat w_send "web/out" _ (w_request "GET" "/x/%2e./app.js" "") new_writer [] Hd) as [[Hs _]|(k & Hk & Hrun & _)];
    [vm_compute; reflexivity|right|left; by exists k].
  split; [exact Hs|]. split; vm_compute; reflexivity.
Defined.
