(* ===== verification/SideStores.v ===== *)
(** The stores beside the main ones: [pkg/storage/mysql/memory_events.go], [agents.go] and
    [allowlist.go], [pkg/storage/sqlite/allowlist.go] and [pkg/storage/objectstore/s3], and in
    [LocalObjects] the directory of [pkg/storage/objectstore/store.go].

    Tables have primary keys; any statement may fail instead of running, by [fault].  The
    order of rows that a query does not order, the JSON codec of the allow-list entries and the
    client of the object store are arguments. *)
From S2P Require FileTools Paths.
From S2P Require Import Prelude GoStrings Floats Values Types Stores Route Consolidation Search MemoryTools.

(** ** memory_events.go *)

Record MemoryEventModel := { em_ID : Z; em_Event : MemoryEvent }.
(** The rows in the order of their automatic identifiers. *)
Record event_db := { ev_rows : list MemoryEventModel; ev_next : Z }.
Definition no_events : event_db := {| ev_rows := []; ev_next := 1 |}.

Inductive side_stmt := SdAdd | SdList | SdGet | SdPut | SdDelete.

Section events.
Context `{SliceSort} (round : time → time) (fault : side_stmt → event_db → option goerror).

Definition created (e : MemoryEvent) (t : time) : MemoryEvent :=
  {| mv_TenantID := mv_TenantID e; mv_UserID := mv_UserID e; mv_Category := mv_Category e; mv_Summary := mv_Summary e; mv_CreatedAt := t |}.

Definition me_Add (now : time) (event : MemoryEvent) (s : event_db) : event_db * option goerror :=
  let m := created event (if IsZero (mv_CreatedAt event) then now else mv_CreatedAt event) in
  match fault SdAdd s with
  | Some e => (s, Some e)
  | None => ({| ev_rows := ev_rows s ++ [{| em_ID := ev_next s; em_Event := created m (round (mv_CreatedAt m)) |}]; ev_next := ev_next s + 1 |}, None)
  end.

Definition event_matches (tenantID userID : string) (from to : time) (e : MemoryEvent) : bool :=
  bool_decide (mv_TenantID e = tenantID) && (str_empty userID || bool_decide (mv_UserID e = userID))
  && (IsZero from || negb (Before (mv_CreatedAt e) from)) && (IsZero to || negb (After (mv_CreatedAt e) to)).
Definition event_limit (limit : Z) : Z := if limit <=? 0 then 50 else limit.
Definition newest_event (a b : MemoryEventModel) : bool := mv_CreatedAt (em_Event b) <? mv_CreatedAt (em_Event a).

Definition me_List (s : event_db) (tenantID userID : string) (from to : time) (limit : Z) : result goerror (list MemoryEvent) :=
  match fault SdList s with
  | Some e => Err e
  | None =>
      let rows := filter (λ m, event_matches tenantID userID from to (em_Event m) = true) (ev_rows s) in
      Ok (em_Event <$> take (Z.to_nat (event_limit limit)) (sort_slice newest_event rows))
  end.

(** *** What a list says *)

Lemma newest_order : weak_order (λ _, True) newest_event.
Proof. split; unfold newest_event; intros *; rewrite ?Z.ltb_lt, ?Z.ltb_ge; lia. Qed.

Lemma take_sorted {A} (R : A → A → Prop) n l x y : StronglySorted R l → x ∈ take n l → y ∈ drop n l → R x y.
Proof.
  intros Hs. rewrite <- (take_drop n l) in Hs. revert Hs. generalize (take n l), (drop n l). intros a b Hs Hx Hy.
  induction a as [|z a IH]; [by apply elem_of_nil in Hx|]. inversion_clear Hs as [|? ? Hs' HF]. apply elem_of_cons in Hx as [->|Hx]; [|by apply IH].
  rewrite Forall_forall in HF. apply HF, elem_of_app. by right.
Qed.

(** A list has events of the tenant, of the user if one is named, and of the time asked
    for; none is missing unless there are as many newer ones as are asked for; and they
    come newest first. *)
Theorem events_listed s tenantID userID from to limit l :
  me_List s tenantID userID from to limit = Ok l →
  (∀ e, e ∈ l → (∃ m, m ∈ ev_rows s ∧ em_Event m = e) ∧ event_matches tenantID userID from to e = true)
  ∧ StronglySorted (λ a b, mv_CreatedAt b ≤ mv_CreatedAt a) l
  ∧ Z.of_nat (length l) ≤ event_limit limit
  ∧ ∀ m, m ∈ ev_rows s → event_matches tenantID userID from to (em_Event m) = true →
      em_Event m ∈ l ∨ Z.of_nat (length l) = event_limit limit ∧ ∀ e, e ∈ l → mv_CreatedAt (em_Event m) ≤ mv_CreatedAt e.
Proof.
  unfold me_List. destruct (fault SdList s); [done|]. intros [= <-]. set (rows := filter _ (ev_rows s)). set (n := Z.to_nat (event_limit limit)).
  assert (0 ≤ event_limit limit) as Hpos by (unfold event_limit; destruct (Z.leb_spec limit 0); lia).
  pose proof (sort_slice_sorted (λ _, True) newest_event rows newest_order (Forall_true _ _ (λ _, I))) as Hsorted.
  assert (∀ m, m ∈ sort_slice newest_event rows ↔ event_matches tenantID userID from to (em_Event m) = true ∧ m ∈ ev_rows s) as Hin.
  { intros m. rewrite sort_slice_perm. unfold rows. by rewrite list_elem_of_filter. }
  split_and!.
  - intros e (m & -> & Hm)%list_elem_of_fmap. apply elem_of_take in Hm as (i & Hi & _). apply list_elem_of_lookup_2, Hin in Hi as [Hm Hr].
    split; [by exists m|done].
  - clear Hin. revert Hsorted. generalize (sort_slice newest_event rows). intros l Hs. revert l Hs. induction n as [|n IH]; intros l Hs; cbn; [constructor|].
    destruct l as [|m l]; cbn; [constructor|]. inversion_clear Hs as [|? ? Hs' HF]. constructor; [by apply IH|].
    rewrite Forall_fmap, Forall_forall. intros x (i & Hi & _)%elem_of_take. rewrite Forall_forall in HF.
    apply list_elem_of_lookup_2, HF in Hi. cbn. unfold newest_event in Hi. apply Z.ltb_ge in Hi. lia.
  - rewrite length_fmap, length_take. unfold n. lia.
  - intros m Hm Hmatch. assert (m ∈ sort_slice newest_event rows) as Hs by (by apply Hin). rewrite <- (take_drop n) in Hs.
    apply elem_of_app in Hs as [Hs|Hs]; [left; apply list_elem_of_fmap; by exists m|right]. split.
    + rewrite length_fmap, length_take. assert (n < length (sort_slice newest_event rows))%nat as Hlen.
      { destruct (decide (n < length (sort_slice newest_event rows))%nat); [done|]. rewrite drop_ge in Hs by lia. by apply elem_of_nil in Hs. }
      unfold n in *. lia.
    + intros e (x & -> & Hx)%list_elem_of_fmap. pose proof (take_sorted _ _ _ _ _ Hsorted Hx Hs) as Hr. unfold newest_event in Hr. apply Z.ltb_ge in Hr. lia.
Qed.

(** An event of a consolidation is shown when the user browses a time around it, unless as
    many newer ones are. *)
Theorem consolidation_is_browsed rfc3339 parse_rfc3339 parse_date now s s' (ctx : memory_ctx) entries args minus_week hits event :
  writeEventLog (mem_tenant ctx) (mc_user ctx) entries now = Some event → me_Add now event s = (s', None) →
  round now = now → IsZero now = false →
  browse_events rfc3339 parse_rfc3339 parse_date (Some (me_List s')) minus_week ctx args now = Ok hits →
  (let '(from, to) := parseDateBounds parse_rfc3339 parse_date (ba_DateFrom args) (ba_DateTo args) in
   let from := if IsZero from then minus_week now else from in
   (IsZero from || negb (Before now from)) && (IsZero to || negb (After now to)) = true) →
  ("consolidation"%string, mv_Summary event, rfc3339 now) ∈ hits ∨ Z.of_nat (length hits) = event_limit (browse_limit (ba_Limit args)).
Proof.
  unfold writeEventLog. destruct (is_nil entries); [done|]. intros [= <-]. unfold me_Add. cbn [mv_CreatedAt]. destruct (fault SdAdd s); [done|].
  intros [= <-] Hround Hnow. rewrite Hnow. unfold created. cbn. rewrite Hround. set (row := {| em_ID := ev_next s; em_Event := _ |}).
  unfold browse_events, parseDateBounds. destruct (me_List _ _ _ _ _ _) as [l|e] eqn:Hl; [|done]. intros [= <-] Hbounds.
  destruct (events_listed _ _ _ _ _ _ _ Hl) as (_ & _ & _ & Hall). destruct (Hall row) as [Hin|[Hlen _]].
  - cbn. apply elem_of_app. right. by left.
  - unfold event_matches. cbn. rewrite !bool_decide_true, orb_true_r by done. exact Hbounds.
  - left. apply list_elem_of_fmap. by exists (em_Event row).
  - right. by rewrite length_fmap.
Qed.
End events.

(** ** agents.go *)

Record AgentRouteModel := {
  arm_AgentID : string; arm_Channel : string; arm_ChatID : string; arm_AccountID : string; arm_PeerKind : string; arm_PeerID : string;
  arm_GuildID : string; arm_TeamID : string; arm_Priority : Z; arm_IsDefault : bool;
}.
(** The rows by their primary key. *)
Abbreviation route_db := (gmap string AgentRouteModel).

Definition agentRouteToModel (r : AgentRoute) : AgentRouteModel :=
  {| arm_AgentID := route_AgentID r; arm_Channel := route_Channel r; arm_ChatID := route_ChatID r; arm_AccountID := route_AccountID r;
     arm_PeerKind := match route_Peer r with Some p => pm_Kind p | None => "" end;
     arm_PeerID := match route_Peer r with Some p => pm_ID p | None => "" end;
     arm_GuildID := route_GuildID r; arm_TeamID := route_TeamID r; arm_Priority := route_Priority r; arm_IsDefault := route_IsDefault r |}.

Definition agentRouteFromModel (m : AgentRouteModel) : AgentRoute :=
  {| route_AgentID := arm_AgentID m; route_Channel := arm_Channel m; route_ChatID := arm_ChatID m; route_AccountID := arm_AccountID m;
     route_Peer := if negb (str_empty (arm_PeerKind m)) || negb (str_empty (arm_PeerID m))
                   then Some {| pm_Kind := arm_PeerKind m; pm_ID := arm_PeerID m |} else None;
     route_GuildID := arm_GuildID m; route_TeamID := arm_TeamID m; route_Priority := arm_Priority m; route_IsDefault := arm_IsDefault m |}.

Definition store_error (what : string) (e : goerror) : goerror := ErrText (what +:+ ": " +:+ error_text e).

Section agent_routes.
Context `{SliceSort} (fault : side_stmt → route_db → option goerror) (scan : route_db → list AgentRouteModel).

Definition ar_Get (agentID : string) (s : route_db) : result goerror AgentRoute :=
  let what := "AgentStore.Get(" +:+ agentID +:+ ")" in
  match fault SdGet s with
  | Some e => Err (store_error what e)
  | None => match s !! agentID with
            | None => Err (store_error what (ErrText "record not found"))
            | Some m => Ok (agentRouteFromModel m)
            end
  end.

Definition by_priority (a b : AgentRouteModel) : bool := arm_Priority a <? arm_Priority b.
Definition ar_List (s : route_db) : result goerror (list AgentRoute) :=
  match fault SdList s with
  | Some e => Err (store_error "AgentStore.List" e)
  | None => Ok (agentRouteFromModel <$> sort_slice by_priority (scan s))
  end.

Definition ar_Put (route : AgentRoute) (s : route_db) : route_db * option goerror :=
  let m := agentRouteToModel route in
  match fault SdPut s with
  | Some e => (s, Some (store_error ("AgentStore.Put(" +:+ route_AgentID route +:+ ")") e))
  | None => (<[arm_AgentID m := m]> s, None)
  end.

Definition ar_Delete (agentID : string) (s : route_db) : route_db * option goerror :=
  match fault SdDelete s with
  | Some e => (s, Some (store_error ("AgentStore.Delete(" +:+ agentID +:+ ")") e))
  | None => (delete agentID s, None)
  end.

(** The route as it is read back: a peer without kind and identifier is none. *)
Definition route_kept (r : AgentRoute) : AgentRoute := agentRouteFromModel (agentRouteToModel r).

Lemma route_kept_same r : route_Peer r ≠ Some {| pm_Kind := ""; pm_ID := "" |} ↔ route_kept r = r.
Proof.
  unfold route_kept, agentRouteFromModel, agentRouteToModel. destruct r as [a c ch ac p g t pr d]. cbn. split.
  - intros Hne. f_equal. destruct p as [[k i]|]; cbn; [|done]. destruct (str_empty k) eqn:Hk, (str_empty i) eqn:Hi; cbn; try done.
    apply bool_decide_eq_true in Hk, Hi. by subst.
  - intros [= Hp] ->. by vm_compute in Hp.
Qed.

(** What is stored for an agent is read back until it is replaced or deleted, and the
    statements about one agent leave the others alone; there is one route for an agent. *)
Theorem routes_read_back r s s' :
  (∀ st s, fault st s = None) → ar_Put r s = (s', None) →
  ar_Get (route_AgentID r) s' = Ok (route_kept r)
  ∧ (∀ id, id ≠ route_AgentID r → ar_Get id s' = ar_Get id s)
  ∧ (∀ id s'', ar_Delete id s' = (s'', None) → is_ok (ar_Get id s'') = false ∧ ∀ id', id' ≠ id → ar_Get id' s'' = ar_Get id' s').
Proof.
  intros Hf. unfold ar_Put, ar_Get, ar_Delete. setoid_rewrite Hf. intros [= <-]. split_and!.
  - change (arm_AgentID (agentRouteToModel r)) with (route_AgentID r). by rewrite lookup_insert_eq.
  - intros id Hne. by rewrite lookup_insert_ne.
  - intros id s'' [= <-]. rewrite lookup_delete_eq. split; [done|]. intros id' Hne. by rewrite lookup_delete_ne.
Qed.

(** A binding to an empty peer, which matches nobody, comes back as one for every message of
    its channel and account. *)
Lemma empty_peer_widens `{UnicodeCase} r : route_Peer r = Some {| pm_Kind := ""; pm_ID := "" |} → route_GuildID r = ""%string → route_TeamID r = ""%string →
  is_specific r = true ∧ is_specific (route_kept r) = false ∧ ∀ peer, peer_match peer r = false.
Proof.
  intros Hp Hg Ht. unfold is_specific, route_kept, agentRouteFromModel, agentRouteToModel, peer_match. cbn. rewrite Hp, Hg, Ht. done.
Qed.
End agent_routes.

(** ** allowlist.go, of both databases *)

Class EntryCodec := { enc_entry : AllowlistEntry → string; dec_entry : string → AllowlistEntry }.
Class EntryCodecLaws `{EntryCodec} := { dec_enc_entry e : dec_entry (enc_entry e) = e }.

(** The rows by tenant and chat. *)
Abbreviation allow_db := (gmap (string * string) string).

Class AllowlistStore (S : Type) := {
  als_GetEntry : string → string → S → result goerror (option AllowlistEntry);
  als_SetEntry : string → string → AllowlistEntry → S → S * option goerror;
  als_DeleteEntry : string → string → S → S * option goerror;
  als_ListEntries : string → S → result goerror (gmap string AllowlistEntry);
}.

Section allowlists.
Context `{EntryCodec} (fault : side_stmt → allow_db → option goerror) (scan : allow_db → list (string * string * string)).

(** The decoder's error is dropped; what it cannot decode is the zero entry. *)
Definition mysql_GetEntry (tenantID chatID : string) (s : allow_db) : result goerror (option AllowlistEntry) :=
  match fault SdGet s with
  | Some e => Err e
  | None => match s !! (tenantID, chatID) with None => Ok None | Some m => Ok (Some (dec_entry m)) end
  end.
Definition mysql_SetEntry (tenantID chatID : string) (entry : AllowlistEntry) (s : allow_db) : allow_db * option goerror :=
  match fault SdPut s with Some e => (s, Some e) | None => (<[(tenantID, chatID) := enc_entry entry]> s, None) end.
Definition mysql_DeleteEntry (tenantID chatID : string) (s : allow_db) : allow_db * option goerror :=
  match fault SdDelete s with Some e => (s, Some e) | None => (delete (tenantID, chatID) s, None) end.

Definition entries_of (tenantID : string) (rows : list (string * string * string)) : gmap string AllowlistEntry :=
  foldl (λ m row, let '(t, c, e) := row in if bool_decide (t = tenantID) then <[c := dec_entry e]> m else m) ∅ rows.
Definition mysql_ListEntries (tenantID : string) (s : allow_db) : result goerror (gmap string AllowlistEntry) :=
  match fault SdList s with Some e => Err e | None => Ok (entries_of tenantID (scan s)) end.

(** The rows of the other database are read one by one, which may fail in between. *)
Context (scan_fails : string → option goerror) (rows_err : option goerror).
Fixpoint scan_entries (tenantID : string) (rows : list (string * string * string)) (m : gmap string AllowlistEntry)
    : result goerror (gmap string AllowlistEntry) :=
  match rows with
  | [] => match rows_err with Some e => Err e | None => Ok m end
  | (t, c, e) :: rows =>
      if bool_decide (t = tenantID) then
        match scan_fails c with Some err => Err err | None => scan_entries tenantID rows (<[c := dec_entry e]> m) end
      else scan_entries tenantID rows m
  end.
Definition sqlite_GetEntry (tenantID chatID : string) (s : allow_db) : result goerror (option AllowlistEntry) :=
  match fault SdGet s with
  | Some e => Err e
  | None => match s !! (tenantID, chatID) with None => Ok None | Some entryJSON => Ok (Some (dec_entry entryJSON)) end
  end.
Definition sqlite_SetEntry (tenantID chatID : string) (entry : AllowlistEntry) (s : allow_db) : allow_db * option goerror :=
  match fault SdPut s with Some e => (s, Some e) | None => (<[(tenantID, chatID) := enc_entry entry]> s, None) end.
Definition sqlite_DeleteEntry (tenantID chatID : string) (s : allow_db) : allow_db * option goerror :=
  match fault SdDelete s with Some e => (s, Some e) | None => (delete (tenantID, chatID) s, None) end.
Definition sqlite_ListEntries (tenantID : string) (s : allow_db) : result goerror (gmap string AllowlistEntry) :=
  match fault SdList s with Some e => Err e | None => scan_entries tenantID (scan s) ∅ end.

#[local] Instance mysql_allowlists : AllowlistStore allow_db := {|
  als_GetEntry := mysql_GetEntry; als_SetEntry := mysql_SetEntry; als_DeleteEntry := mysql_DeleteEntry; als_ListEntries := mysql_ListEntries |}.
#[local] Instance sqlite_allowlists : AllowlistStore allow_db := {|
  als_GetEntry := sqlite_GetEntry; als_SetEntry := sqlite_SetEntry; als_DeleteEntry := sqlite_DeleteEntry; als_ListEntries := sqlite_ListEntries |}.

Lemma scan_entries_all tenantID rows m : (∀ c, scan_fails c = None) → rows_err = None →
  scan_entries tenantID rows m = Ok (foldl (λ m row, let '(t, c, e) := row in if bool_decide (t = tenantID) then <[c := dec_entry e]> m else m) m rows).
Proof.
  intros Hs Hr. revert m. induction rows as [|[[t c] e] rows IH]; intros m; cbn; [by rewrite Hr|].
  destruct (bool_decide _); [by rewrite Hs, IH|apply IH].
Qed.

(** Each row once, in any order. *)
Context (scan_rows : ∀ s, scan s ≡ₚ map_to_list s).

Lemma fold_entries tenantID rows (m : gmap string AllowlistEntry) c :
  NoDup rows.*1 →
  foldl (λ m row, let '(t, c, e) := row in if bool_decide (t = tenantID) then <[c := dec_entry e]> m else m) m rows !! c
  = match (list_to_map (M := gmap (string * string) string) rows) !! (tenantID, c) with Some e => Some (dec_entry e) | None => m !! c end.
Proof.
  revert m. induction rows as [|[[t c'] e] rows IH]; intros m Hnd; [cbn; by rewrite (lookup_empty (M := gmap (string * string)))|]. inversion_clear Hnd as [|? ? Hnin Hnd'].
  cbn [foldl list_to_map foldr fst snd]. rewrite IH by done. destruct (decide ((t, c') = (tenantID, c))) as [[= -> ->]|Hne].
  - rewrite lookup_insert_eq, bool_decide_true by done. rewrite not_elem_of_list_to_map_1 by done. by rewrite lookup_insert_eq.
  - rewrite lookup_insert_ne by done. destruct (list_to_map rows !! (tenantID, c)); [done|]. case_bool_decide as Ht; [|done].
    subst t. rewrite lookup_insert_ne; [done|]. intros ->. by apply Hne.
Qed.

Lemma entries_of_spec tenantID s c : entries_of tenantID (scan s) !! c = dec_entry <$> s !! (tenantID, c).
Proof.
  assert (NoDup (scan s).*1) as Hnd by (rewrite scan_rows; apply NoDup_fst_map_to_list).
  unfold entries_of. rewrite fold_entries by done. rewrite lookup_empty.
  rewrite (list_to_map_proper _ (map_to_list s)), list_to_map_to_list by done. by destruct (s !! (tenantID, c)).
Qed.

(** What a store of allow lists promises on a table: an entry that was set is the one of
    its tenant and chat until it is set again or deleted, the others stay, and a list has
    exactly the entries of the tenant. *)
Definition allow_spec {S} `{AllowlistStore S} (view : S → string → string → option AllowlistEntry) : Prop :=
  (∀ t c s, als_GetEntry t c s = Ok (view s t c))
  ∧ (∀ t c e s s' err, als_SetEntry t c e s = (s', err) → err = None ∧ view s' t c = Some e ∧ ∀ t' c', (t', c') ≠ (t, c) → view s' t' c' = view s t' c')
  ∧ (∀ t c s s' err, als_DeleteEntry t c s = (s', err) → err = None ∧ view s' t c = None ∧ ∀ t' c', (t', c') ≠ (t, c) → view s' t' c' = view s t' c')
  ∧ ∀ t s m, als_ListEntries t s = Ok m → ∀ c, m !! c = view s t c.
Definition entry_view (s : allow_db) (t c : string) : option AllowlistEntry := dec_entry <$> s !! (t, c).

(** Both stores keep the promise, as long as the database does not fail, and tell the same. *)
Theorem allowlists_agree `{!EntryCodecLaws} :
  (∀ st s, fault st s = None) → (∀ c, scan_fails c = None) → rows_err = None →
  allow_spec (H0 := mysql_allowlists) entry_view ∧ allow_spec (H0 := sqlite_allowlists) entry_view
  ∧ ∀ t s, mysql_ListEntries t s = sqlite_ListEntries t s ∧ is_ok (mysql_ListEntries t s) = true.
Proof.
  intros Hf Hs Hr. assert (∀ t s, sqlite_ListEntries t s = mysql_ListEntries t s) as Hlist.
  { intros t s. unfold sqlite_ListEntries, mysql_ListEntries. rewrite Hf. by apply scan_entries_all. }
  assert (∀ t s m, mysql_ListEntries t s = Ok m → ∀ c, m !! c = entry_view s t c) as Hview.
  { intros t s m. unfold mysql_ListEntries. rewrite Hf. intros [= <-] c. apply entries_of_spec. }
  assert (∀ t c (e : AllowlistEntry) (s : allow_db), entry_view (<[(t, c) := enc_entry e]> s) t c = Some e
    ∧ ∀ t' c', (t', c') ≠ (t, c) → entry_view (<[(t, c) := enc_entry e]> s) t' c' = entry_view s t' c') as Hset.
  { intros t c e s. unfold entry_view. rewrite lookup_insert_eq. cbn. rewrite dec_enc_entry. split; [done|]. intros t' c' Hne. by rewrite lookup_insert_ne. }
  assert (∀ t c (s : allow_db), entry_view (delete (t, c) s) t c = None
    ∧ ∀ t' c', (t', c') ≠ (t, c) → entry_view (delete (t, c) s) t' c' = entry_view s t' c') as Hdel.
  { intros t c s. unfold entry_view. rewrite lookup_delete_eq. split; [done|]. intros t' c' Hne. by rewrite lookup_delete_ne. }
  split; [|split].
  - split; [|split; [|split; [|exact Hview]]]; cbn; unfold mysql_GetEntry, mysql_SetEntry, mysql_DeleteEntry; intros *; rewrite Hf.
    + unfold entry_view. by destruct (s !! (t, c)).
    + intros [= <- <-]. split; [done|apply Hset].
    + intros [= <- <-]. split; [done|apply Hdel].
  - split; [|split; [|split]]; cbn; [unfold sqlite_GetEntry, sqlite_SetEntry, sqlite_DeleteEntry; intros *; rewrite Hf..|].
    + unfold entry_view. by destruct (s !! (t, c)).
    + intros [= <- <-]. split; [done|apply Hset].
    + intros [= <- <-]. split; [done|apply Hdel].
    + intros t s m. rewrite Hlist. apply Hview.
  - intros t s. split; [by rewrite Hlist|]. unfold mysql_ListEntries. by rewrite Hf.
Qed.
End allowlists.

(** ** objectstore/s3 *)

(** The client: an object that is not there is an error of [GetObject] and [HeadObject]. *)
Class S3Client (S : Type) := {
  s3_put : string → string → string → S → S * option goerror;
  s3_get : string → string → S → result goerror string;
  s3_delete : string → string → S → S * option goerror;
  s3_head : string → string → S → option goerror;
}.

Section s3.
Context {S : Type} `{S3Client S} (bucket : string).

Definition s3_Put (path data : string) (s : S) : S * option goerror := s3_put bucket path data s.
Definition s3_Get (path : string) (s : S) : result goerror string := s3_get bucket path s.
Definition s3_Delete (path : string) (s : S) : S * option goerror := s3_delete bucket path s.
Definition s3_Exists (path : string) (s : S) : result goerror bool :=
  match s3_head bucket path s with Some _ => Ok false | None => Ok true end.

#[export] Instance s3_objects : ObjectStore S := {| obj_Put := s3_Put; obj_Get := s3_Get; obj_Delete := s3_Delete |}.

(** Asking whether an object exists never fails: an outage is told as absence. *)
Lemma s3_Exists_hides path s e : s3_head bucket path s = Some e → s3_Exists path s = Ok false.
Proof. unfold s3_Exists. by intros ->. Qed.
End s3.

(** ** Examples *)

Definition w_event (t u : string) (at_ : time) : MemoryEvent :=
  {| mv_TenantID := t; mv_UserID := u; mv_Category := "c"; mv_Summary := u; mv_CreatedAt := at_ |}.
Definition w_events : event_db :=
  foldl (λ s e, (me_Add (λ t, t) (λ _ _, None) 7 e s).1) no_events [w_event "t" "a" 0; w_event "t" "b" 3; w_event "x" "a" 5; w_event "t" "a" 9].

Definition w_listed (u : string) (to limit : Z) : list (string * time) :=
  match me_List (H := stable_sort) (λ _ _, None) w_events "t" u 0 to limit with
  | Ok l => ((λ e, (mv_UserID e, mv_CreatedAt e)) <$> l : list (string * time))
  | Err _ => []
  end.
Example events_are_listed : w_listed "a" 8 0 = [("a"%string, 7)] ∧ w_listed "" 0 2 = [("a"%string, 9); ("a"%string, 7)].
Proof. by vm_compute. Qed.

(** ** [pkg/storage/objectstore/store.go]: objects as files below a directory

    The file system is the class [FileSystem] of [FileTools]; removing a file, and telling
    that an error means that there is none, are parameters. *)

Module LocalObjects.

Import FileTools Prelude GoStrings Types Paths.

Inductive local_error :=
| EmptyPath | AbsolutePath (path : string) | NoRoot | NoPath | EscapesRoot (path : string) | SymlinkEscapes (path : string) | FileError (e : goerror).

Record LocalStore := { lo_root : string }.
Definition NewLocalStore (root : string) : LocalStore := {| lo_root := root |}.

Section store.
Context {F : Type} `{FileSystem F} (getwd : option string).
Context (os_Remove : string → F → F * option goerror) (IsNotExist : goerror → bool).

(** The loop: up from a path that does not exist to the first directory that does; without
    an end it runs out of fuel. *)
Fixpoint check_links (fuel : nat) (s : LocalStore) (absRoot path checkPath : string) (fs : F) : option (result local_error unit) :=
  match fuel with
  | O => None
  | S fuel =>
      if bool_decide (checkPath = absRoot) then Some (Ok tt)
      else match fs_EvalSymlinks fs checkPath with
           | None => check_links fuel s absRoot path (Dir checkPath) fs
           | Some real =>
               let realRoot := default absRoot (fs_EvalSymlinks fs (lo_root s)) in
               Some (if under real realRoot then Ok tt else Err (SymlinkEscapes path))
           end
  end.

Definition sanitize (s : LocalStore) (path : string) (fs : F) : option (result local_error string) :=
  if str_empty path then Some (Err EmptyPath)
  else if IsAbs path then Some (Err (AbsolutePath path))
  else
    let full := Join [lo_root s; Clean path] in
    match Abs getwd (lo_root s), Abs getwd full with
    | None, _ => Some (Err NoRoot)
    | _, None => Some (Err NoPath)
    | Some absRoot, Some absFull =>
        if negb (under absFull absRoot) then Some (Err (EscapesRoot path))
        else r ← check_links (S (length (parts full))) s absRoot path full fs;
             Some (match r with Ok _ => Ok full | Err e => Err e end)
    end.

(** The data of a reader, which may break off with an error: what came is written. *)
Definition Put (s : LocalStore) (path data : string) (broken : option goerror) (fs : F) : option (F * option local_error) :=
  r ← sanitize s path fs;
  Some match r with
       | Err e => (fs, Some e)
       | Ok full =>
           match fs_MkdirAll (Dir full) fs with
           | (fs, Some e) => (fs, Some (FileError e))
           | (fs, None) =>
               match fs_WriteFile full data fs with
               | (fs, Some e) => (fs, Some (FileError e))
               | (fs, None) => (fs, FileError <$> broken)
               end
           end
       end.

Definition with_path {A} (s : LocalStore) (path : string) (fs : F) (k : string → result local_error A) : option (result local_error A) :=
  r ← sanitize s path fs; Some match r with Err e => Err e | Ok full => k full end.

Definition of_file {A} (r : result goerror A) : result local_error A := match r with Ok x => Ok x | Err e => Err (FileError e) end.

Definition Get (s : LocalStore) (path : string) (fs : F) : option (result local_error string) :=
  with_path s path fs (λ full, of_file (fs_ReadFile full fs)).

Definition Delete (s : LocalStore) (path : string) (fs : F) : option (F * option local_error) :=
  r ← sanitize s path fs;
  Some match r with Err e => (fs, Some e) | Ok full => let '(fs, e) := os_Remove full fs in (fs, FileError <$> e) end.

Definition Exists (s : LocalStore) (path : string) (fs : F) : option (result local_error bool) :=
  with_path s path fs (λ full, match fs_Stat full fs with
                               | Ok _ => Ok true
                               | Err e => if IsNotExist e then Ok false else Err (FileError e)
                               end).

(** *** Confinement *)

(** The resolution of the longest prefix of the path that exists lies in the root. *)
Definition nearest_inside (rl k : list bytes) (fs : F) : Prop :=
  ∀ j real, (0 < j ≤ length k)%nat → fs_EvalSymlinks fs (abs_path (rl ++ take j k)) = Some real →
    (∀ i, (j < i ≤ length k)%nat → fs_EvalSymlinks fs (abs_path (rl ++ take i k)) = None) →
    under real (default (abs_path rl) (fs_EvalSymlinks fs (abs_path rl))) = true.

Lemma check_links_spec rl k path fs fuel :
  Forall plain (rl ++ k) → (length k < fuel)%nat →
  ∃ r, check_links fuel (NewLocalStore (abs_path rl)) (abs_path rl) path (abs_path (rl ++ k)) fs = Some r
    ∧ (r = Ok tt → nearest_inside rl k fs)
    ∧ (rl ≠ [] → (∀ q real, fs_EvalSymlinks fs q = Some real → real = q) → r = Ok tt).
Proof.
  revert fuel. induction k as [|c k IH] using rev_ind; intros fuel Hp Hf; (destruct fuel as [|fuel]; [lia|]); cbn [check_links].
  - rewrite app_nil_r, bool_decide_true by done. exists (Ok tt). split_and!; [done| |done]. intros _ j real Hj. cbn in Hj. lia.
  - rewrite length_app in Hf. cbn in Hf. rewrite app_assoc in *.
    assert (Forall plain (rl ++ k)) as Hp' by (by apply Forall_app in Hp as [? _]).
    assert (Forall plain rl) as Hrl by (by apply Forall_app in Hp' as [? _]).
    rewrite bool_decide_false by (intros Heq%abs_path_inj; [apply (f_equal length) in Heq; rewrite !length_app in Heq; cbn in Heq; lia|done..]).
    destruct (fs_EvalSymlinks fs (abs_path ((rl ++ k) ++ [c]))) as [real|] eqn:He.
    + pose proof He as He2. rewrite <- app_assoc in He2. cbn [lo_root NewLocalStore]. eexists. split; [reflexivity|]. split.
      * destruct (under real _) eqn:Hu; [|done]. intros _ j real' Hj He' Hall. rewrite length_app in Hj, Hall. cbn [length] in Hj, Hall.
        destruct (decide (j = length k + 1)%nat) as [->|Hne].
        -- rewrite take_ge in He' by (rewrite length_app; cbn; lia). congruence.
        -- specialize (Hall (length k + 1)%nat ltac:(lia)). rewrite take_ge in Hall by (rewrite length_app; cbn; lia). congruence.
      * intros Hne Hsame. rewrite (Hsame _ _ He). assert (default (abs_path rl) (fs_EvalSymlinks fs (abs_path rl)) = abs_path rl) as ->.
        { destruct (fs_EvalSymlinks fs (abs_path rl)) as [rr|] eqn:Hr; [|done]. cbn. by apply Hsame in Hr. }
        by rewrite <- app_assoc, under_app.
    + rewrite Dir_abs_path by done. destruct (IH fuel Hp' ltac:(lia)) as (r & Hr & Hin & Hok). exists r. split_and!; [done| |done].
      intros Hrok j real Hj He' Hall. rewrite length_app in Hj, Hall. cbn [length] in Hj, Hall.
      destruct (decide (j = length k + 1)%nat) as [->|Hne].
      * rewrite take_ge in He' by (rewrite length_app; cbn; lia). by rewrite app_assoc, He in He'.
      * rewrite take_app_le in He' by lia. apply (Hin Hrok j real); [lia|done|]. intros i Hi. rewrite <- (Hall i) by lia. by rewrite take_app_le by lia.
Qed.

(** With a clean absolute root the check always ends; what it accepts is a path of ordinary
    components below the root, none of them [..], and the longest part of it that exists
    leads to a place below where the root leads. *)
Theorem sanitize_confined rl path fs :
  Forall plain rl →
  ∃ r, sanitize (NewLocalStore (abs_path rl)) path fs = Some r
    ∧ ∀ full, r = Ok full → ∃ k, Forall plain (rl ++ k) ∧ full = abs_path (rl ++ k) ∧ nearest_inside rl k fs.
Proof.
  intros Hrl. unfold sanitize. destruct (str_empty path); [by eexists|]. destruct (IsAbs path); [by eexists|].
  cbn [lo_root NewLocalStore]. rewrite Join_abs by done. set (fl := reverse _). assert (Forall plain fl) as Hfl by by apply walk_plain.
  unfold Abs. rewrite !IsAbs_abs_path, !Clean_abs_path by done.
  destruct (under (abs_path fl) (abs_path rl)) eqn:Hu; cbn [negb]; [|by eexists].
  destruct (under_abs _ _ Hfl Hrl Hu) as [k Hk]. rewrite Hk in *.
  destruct (check_links_spec rl k path fs (S (length (parts (abs_path (rl ++ k))))) Hfl) as (r & -> & Hin & _).
  { destruct k as [|c k]; [cbn; lia|]. rewrite abs_path_parts by (by destruct rl || done). cbn. rewrite length_app. cbn. lia. }
  cbn. eexists. split; [reflexivity|]. intros full Hr. destruct r as [[]|e]; [|done]. injection Hr as <-. exists k. by split_and!; [..|apply Hin].
Qed.

Lemma Clean_plain path : Forall plain (parts path) → IsAbs path = false ∧ path ≠ ""%string ∧ parts (Clean path) = parts path.
Proof.
  intros Hp. assert (parts path ≠ []) as Hne by apply split_bytes_nonempty.
  assert (IsAbs path = false) as Hrel.
  { destruct (IsAbs path) eqn:Ha; [|done]. unfold IsAbs in Ha. unfold parts in Hp. destruct (s2l path) as [|c l]; [done|]. cbn in Hp. rewrite Ha in Hp.
    inversion Hp as [|? ? Hc]. by destruct Hc. }
  split_and!; [done| |].
  - intros ->. cbn in Hp. inversion Hp as [|? ? Hc]. by destruct Hc.
  - unfold Clean. rewrite Hrel. unfold clean_parts.
    assert (∀ l stack, Forall plain l → foldl (clean_step false) stack l = reverse l ++ stack) as Hpush.
    { clear. intros l stack HF. revert stack. induction HF as [|c l (H1 & H2 & H3 & _) HF IH]; intros stack; cbn [foldl]; [done|].
      rewrite IH, reverse_cons, <- app_assoc. unfold clean_step. by rewrite !bool_decide_false by naive_solver. }
    rewrite Hpush, app_nil_r, reverse_involutive by done. destruct (parts path) as [|c l] eqn:Hl; [done|].
    unfold parts. rewrite s2l_l2s. by rewrite parts_join.
Qed.

(** Without links a relative path of ordinary components stands for the file of that name
    below the root. *)
Lemma sanitize_plain rl path fs :
  Forall plain (rl ++ parts path) → rl ≠ [] → (∀ q real, fs_EvalSymlinks fs q = Some real → real = q) →
  sanitize (NewLocalStore (abs_path rl)) path fs = Some (Ok (abs_path (rl ++ parts path))).
Proof.
  intros Hp Hne Hsame. pose proof Hp as [Hrl Hpp]%Forall_app. destruct (Clean_plain path Hpp) as (Hrel & Hnon & Hcl).
  unfold sanitize, str_empty. rewrite bool_decide_false, Hrel by done. cbn [lo_root NewLocalStore].
  rewrite Join_plain by (by rewrite ?Hcl). rewrite Hcl. unfold Abs. rewrite !IsAbs_abs_path, !Clean_abs_path by done.
  rewrite under_app by done. cbn [negb].
  destruct (check_links_spec rl (parts path) path fs (S (length (parts (abs_path (rl ++ parts path))))) Hp) as (r & -> & _ & Hok).
  { rewrite abs_path_parts; [cbn; rewrite length_app; lia|done|by destruct rl]. }
  by rewrite (Hok Hne Hsame).
Qed.

Lemma check_links_error fuel s absRoot path p fs e : check_links fuel s absRoot path p fs = Some (Err e) → e = SymlinkEscapes path.
Proof.
  revert p. induction fuel as [|fuel IH]; intros p; cbn; [done|]. case_bool_decide; [done|].
  destruct (fs_EvalSymlinks fs p); [|apply IH]. destruct (under _ _); congruence.
Qed.

Lemma sanitize_errors s path fs fs' full e :
  sanitize s path fs = Some (Ok full) → sanitize s path fs' = Some (Err e) → e = SymlinkEscapes path.
Proof.
  unfold sanitize. repeat case_match; try done. intros _. destruct (check_links _ _ _ _ _ fs') as [[|e']|] eqn:Hc; cbn; try done.
  intros [= <-]. by eapply check_links_error.
Qed.

Lemma sanitize_full s path fs full : sanitize s path fs = Some (Ok full) → full = Join [lo_root s; Clean path].
Proof. unfold sanitize. repeat case_match; try done. destruct (check_links _ _ _ _ _ _) as [[]|]; cbn; congruence. Qed.

(** What was put is got back, unless the path now leads out of the root; and had its reader
    broken off there, the object would be the same, with what came of it, though the caller
    is told of the error. *)
Theorem put_then_get `{!FileLaws F} rl path data fs fs' (s := NewLocalStore (abs_path rl)) :
  Forall plain rl → Put s path data None fs = Some (fs', None) →
  (∃ r, Get s path fs' = Some r ∧ (r = Ok data ∨ r = Err (SymlinkEscapes path)))
  ∧ ∀ err, Put s path data (Some err) fs = Some (fs', Some (FileError err)).
Proof.
  intros Hrl. unfold Put. destruct (sanitize s path fs) as [[full|e]|] eqn:Hs; cbn; [|done..].
  destruct (fs_MkdirAll (Dir full) fs) as [fs1 [e|]]; [done|]. destruct (fs_WriteFile full data fs1) as [fs2 [e|]] eqn:Hw; [done|].
  intros [= <-]. split; [|done]. unfold Get, with_path. destruct (sanitize_confined rl path fs2 Hrl) as (r & Hr & _). fold s in Hr. rewrite Hr. cbn.
  eexists. split; [reflexivity|]. destruct r as [full'|e].
  - rewrite (sanitize_full _ _ _ _ Hr), <- (sanitize_full _ _ _ _ Hs). rewrite (proj1 (write_read _ _ _ _ Hw)). by left.
  - right. by rewrite (sanitize_errors _ _ _ _ _ _ Hs Hr).
Qed.
End store.

(** With the root of the default configuration, which is relative, nothing can be stored
    before somebody makes the directory: the working directory is where the search ends,
    and it does not lie in the root, which is compared as an absolute path. *)
Section first.
#[local] Instance no_files : FileSystem unit :=
  {| fs_EvalSymlinks _ p := if bool_decide (p = "."%string) then Some "."%string else None; fs_Stat _ _ := Err (ErrText "no file");
     fs_ReadFile _ _ := Err (ErrText "no file"); fs_ReadDir _ _ := Err (ErrText "no file"); fs_MkdirAll _ s := (s, None);
     fs_WriteFile _ _ s := (s, None); fs_OpenAppend _ s := (s, None); fs_WriteString _ _ s := (s, None) |}.

Lemma first_put_fails : Put (Some "/app"%string) (NewLocalStore "data/objects") "skills/a" "x" None tt = Some (tt, Some (SymlinkEscapes "skills/a")).
Proof. vm_compute. reflexivity. Qed.
End first.

(** *** Witnesses *)

#[local] Existing Instance mem_fs.
#[local] Existing Instance mem_fs_laws.

Definition w_root : list bytes := [s2l "o"].
Definition w_put : mem_files := {["/o/a/b"%string := "data"%string]}.

Lemma w_root_plain : Forall plain w_root.
Proof. apply (bool_decide_unpack (Forall plain w_root)). vm_compute. exact I. Defined.

Lemma put_then_get_witness : Get (F := mem_files) None (NewLocalStore "/o") "a/b" w_put = Some (Ok "data"%string).
Proof.
  assert (Put (F := mem_files) None (NewLocalStore (abs_path w_root)) "a/b" "data" None ∅ = Some (w_put, None)) as Hp by (vm_compute; reflexivity).
  destruct (proj1 (put_then_get None w_root "a/b" "data" ∅ w_put w_root_plain Hp)) as (r & Hr & [->|Herr]).
  - exact Hr.
  - exfalso. subst r. assert (Get (F := mem_files) None (NewLocalStore (abs_path w_root)) "a/b" w_put = Some (Ok "data"%string)) as H2 by (vm_compute; reflexivity).
    rewrite H2 in Hr. discriminate Hr.
Defined.

Lemma sanitize_confined_witness :
  sanitize (F := mem_files) None (NewLocalStore "/o") "a/../../x" ∅ = Some (Err (EscapesRoot "a/../../x"))
  ∧ ∃ k, abs_path (w_root ++ k) = "/o/a/b"%string ∧ nearest_inside (F := mem_files) w_root k w_put.
Proof.
  split; [vm_compute; reflexivity|].
  assert (sanitize (F := mem_files) None (NewLocalStore (abs_path w_root)) "a/b" w_put = Some (Ok "/o/a/b"%string)) as Hs by (vm_compute; reflexivity).
  destruct (sanitize_confined (F := mem_files) None w_root "a/b" w_put w_root_plain) as (r & Hr & Hk). rewrite Hs in Hr. injection Hr as <-.
  destruct (Hk _ eq_refl) as (k & _ & Heq & Hn). exists k. split; [symmetry; exact Heq|exact Hn].
Defined.

End LocalObjects.
