(* ===== verification/Lifecycle.v ===== *)
(** Starting and stopping the transports of [pkg/channels]: the loops of Telegram, Discord and
    the terminal, the servers of WeCom and Feishu, and the dispatcher of [adapter.go].

    [Start] and [Stop] of a transport hold no lock.  A call is a list of its accesses to
    shared state, one step each, so that calls can be interleaved with each other and with the
    loops.  A loop is named by its context, which is fresh for every start.  What a loop does
    with its input is in the file of its transport. *)
From S2P Require Import Prelude GoStrings Paths Types Channels Http.


(** ** Transports with a loop: [telegram.go], [discord.go] and [cli.go] *)

(** Whether a loop can end before it is cancelled, and whether it can stop its transport:
    Telegram's can do neither; Discord's ends after a panic; the terminal's ends with its
    input, and on the line that says so it clears the flag and cancels. *)
Record loop_kind := { lk_leaves : bool; lk_quits : bool }.
Definition telegram_loop : loop_kind := {| lk_leaves := false; lk_quits := false |}.
Definition discord_loop : loop_kind := {| lk_leaves := true; lk_quits := false |}.
Definition cli_loop : loop_kind := {| lk_leaves := true; lk_quits := true |}.

(** What a call does next.  [SSpawn n]: [wg.Add] and [go] with the context [n]. *)
Inductive pc := SCheck | SSet | SContext | SSpawn (n : nat) | PCheck | PCancel | PWait | PClear | Returned.

#[global] Instance pc_eq_dec : EqDecision pc.
Proof. solve_decision. Defined.

(** The flag, the context that [c.cancel] cancels, the contexts that are cancelled, the loops
    that are counted by the wait group, the next context, and the calls. *)
Record life := {
  lf_running : bool; lf_cancel : option nat; lf_cancelled : gset nat; lf_loops : gset nat; lf_next : nat; lf_calls : list pc;
}.
Definition new_life : life :=
  {| lf_running := false; lf_cancel := None; lf_cancelled := ∅; lf_loops := ∅; lf_next := 0; lf_calls := [] |}.

Definition with_flag (v : bool) (s : life) : life :=
  {| lf_running := v; lf_cancel := lf_cancel s; lf_cancelled := lf_cancelled s; lf_loops := lf_loops s; lf_next := lf_next s;
     lf_calls := lf_calls s |}.
Definition with_context (s : life) : life :=
  {| lf_running := lf_running s; lf_cancel := Some (lf_next s); lf_cancelled := lf_cancelled s; lf_loops := lf_loops s;
     lf_next := S (lf_next s); lf_calls := lf_calls s |}.
Definition cancel (s : life) : life :=
  {| lf_running := lf_running s; lf_cancel := lf_cancel s;
     lf_cancelled := match lf_cancel s with Some n => {[n]} ∪ lf_cancelled s | None => lf_cancelled s end;
     lf_loops := lf_loops s; lf_next := lf_next s; lf_calls := lf_calls s |}.
Definition with_loops (l : gset nat) (s : life) : life :=
  {| lf_running := lf_running s; lf_cancel := lf_cancel s; lf_cancelled := lf_cancelled s; lf_loops := l; lf_next := lf_next s;
     lf_calls := lf_calls s |}.
Definition with_calls (l : list pc) (s : life) : life :=
  {| lf_running := lf_running s; lf_cancel := lf_cancel s; lf_cancelled := lf_cancelled s; lf_loops := lf_loops s; lf_next := lf_next s;
     lf_calls := l |}.

Definition Start_step (p : pc) (s : life) : option (pc * life) :=
  match p with
  | SCheck => Some (if lf_running s then (Returned, s) else (SSet, s))
  | SSet => Some (SContext, with_flag true s)
  | SContext => Some (SSpawn (lf_next s), with_context s)
  | SSpawn n => Some (Returned, with_loops ({[n]} ∪ lf_loops s) s)
  | _ => None
  end.

Definition Stop_step (p : pc) (s : life) : option (pc * life) :=
  match p with
  | PCheck => Some (if lf_running s then (PCancel, s) else (Returned, s))
  | PCancel => Some (PWait, cancel s)
  | PWait => if decide (lf_loops s = ∅) then Some (PClear, s) else None
  | PClear => Some (Returned, with_flag false s)
  | _ => None
  end.

Definition call_step (p : pc) (s : life) : option (pc * life) :=
  match Start_step p s with Some r => Some r | None => Stop_step p s end.

(** One step: a call begins, a call goes on, a loop ends, or a loop stops its transport. *)
Inductive action := ABegin (p : pc) | ACall (k : nat) | AEnd (n : nat) | AQuit (n : nat).

Definition act (kd : loop_kind) (a : action) (s : life) : option life :=
  match a with
  | ABegin p => if bool_decide (p = SCheck ∨ p = PCheck) then Some (with_calls (lf_calls s ++ [p]) s) else None
  | ACall k => p ← lf_calls s !! k; '(p', s') ← call_step p s; Some (with_calls (<[k := p']> (lf_calls s')) s')
  | AEnd n =>
      if bool_decide (n ∈ lf_loops s) && (lk_leaves kd || bool_decide (n ∈ lf_cancelled s))
      then Some (with_loops (lf_loops s ∖ {[n]}) s) else None
  | AQuit n => if lk_quits kd && bool_decide (n ∈ lf_loops s) then Some (cancel (with_flag false s)) else None
  end.
Fixpoint acts (kd : loop_kind) (l : list action) (s : life) : option life :=
  match l with [] => Some s | a :: l => s ← act kd a s; acts kd l s end.

Inductive life_reachable (kd : loop_kind) : life → Prop :=
| life_new : life_reachable kd new_life
| life_act s a s' : life_reachable kd s → act kd a s = Some s' → life_reachable kd s'.

(** Calls that do not overlap: one begins when the others have returned. *)
Definition quiet (s : life) : bool := forallb (λ p, bool_decide (p = Returned)) (lf_calls s).
Definition in_turn (s : life) (a : action) : bool := match a with ABegin _ => quiet s | _ => true end.

Inductive turns_reachable (kd : loop_kind) : life → Prop :=
| turns_new : turns_reachable kd new_life
| turns_act s a s' : turns_reachable kd s → in_turn s a = true → act kd a s = Some s' → turns_reachable kd s'.

(** ** Lemmas: calls in turn *)

(** The calls have returned except perhaps the last, which is at [p]. *)
Definition only_call (p : pc) (l : list pc) : Prop :=
  (l = [] ∧ p = Returned) ∨ ∃ n, l = replicate n Returned ++ [p].

(** Either the loop of the current context is the only one or, if loops may leave, there is none. *)
Definition one_loop (kd : loop_kind) (n : nat) (s : life) : Prop :=
  lf_cancel s = Some n ∧ (lf_loops s = {[n]} ∨ lk_leaves kd = true ∧ lf_loops s = ∅).
Definition stopped_life (s : life) : Prop := lf_running s = false ∧ lf_loops s = ∅.
Definition started_life (kd : loop_kind) (s : life) : Prop :=
  lf_running s = true ∧ ∃ n, one_loop kd n s ∧ n ∉ lf_cancelled s.

Definition at_pc (kd : loop_kind) (p : pc) (s : life) : Prop :=
  match p with
  | SCheck | PCheck | Returned => stopped_life s ∨ started_life kd s
  | SSet => stopped_life s
  | SContext => lf_running s = true ∧ lf_loops s = ∅
  | SSpawn n => lf_running s = true ∧ lf_loops s = ∅ ∧ lf_cancel s = Some n ∧ n ∉ lf_cancelled s
  | PCancel => started_life kd s
  | PWait => lf_running s = true ∧ ∃ n, lf_cancel s = Some n ∧ n ∈ lf_cancelled s ∧ lf_loops s ⊆ {[n]}
  | PClear => lf_running s = true ∧ lf_loops s = ∅
  end.

(** The contexts there are. *)
Definition lf_bounded (s : life) : Prop := ∀ n, n ∈ lf_cancelled s ∨ lf_cancel s = Some n → (n < lf_next s)%nat.

Definition turn_inv (kd : loop_kind) (s : life) : Prop :=
  lf_bounded s ∧ ∃ p, only_call p (lf_calls s) ∧ at_pc kd p s.

Lemma only_call_lookup p l k q : only_call p l → l !! k = Some q → q = Returned ∨ q = p ∧ ∃ n, l = replicate n Returned ++ [p] ∧ k = n.
Proof.
  intros [[-> _]|[n ->]]; [done|]. destruct (decide (k < n)%nat) as [Hk|Hk].
  - rewrite lookup_app_l by (by rewrite length_replicate). intros [-> _]%lookup_replicate. by left.
  - rewrite lookup_app_r by (rewrite length_replicate; lia). rewrite length_replicate.
    intros [Hz <-]%list_lookup_singleton_Some. right. split; [done|]. exists n. split; [done|lia].
Qed.

Lemma only_call_insert p p' n : only_call p' (<[n := p']> (replicate n Returned ++ [p])).
Proof. right. exists n. rewrite insert_app_r_alt by (by rewrite length_replicate). by rewrite length_replicate, Nat.sub_diag. Qed.

Lemma only_call_begin p l : only_call Returned l → only_call p (l ++ [p]).
Proof.
  intros [[-> _]|[n ->]]; right; [by exists 0%nat|]. exists (S n). f_equal. by rewrite replicate_S_end.
Qed.

Lemma only_call_quiet p s : only_call p (lf_calls s) → quiet s = true ↔ p = Returned.
Proof.
  intros Hp. unfold quiet. rewrite forallb_forall. setoid_rewrite bool_decide_eq_true. split.
  - destruct Hp as [[_ ->]|[n ->]]; [done|]. intros H. apply H, in_or_app. right. by left.
  - intros -> x Hx%list_elem_of_In. destruct Hp as [[Hl _]|[n Hl]]; rewrite Hl in Hx; [by apply not_elem_of_nil in Hx|].
    apply elem_of_app in Hx as [Hx|Hx%list_elem_of_singleton]; [|done]. by apply elem_of_replicate in Hx as [-> _].
Qed.

Lemma cancel_bounded s : lf_bounded s → lf_bounded (cancel s).
Proof. intros Hb n. cbn. intros [H|H]; apply Hb; [destruct (lf_cancel s); set_solver|by right]. Qed.

(** What a call does, apart from the list of calls. *)
Lemma call_step_inv kd p s p' s' : at_pc kd p s → lf_bounded s → call_step p s = Some (p', s') →
  at_pc kd p' s' ∧ lf_bounded s' ∧ lf_calls s' = lf_calls s.
Proof.
  intros Hat Hb. destruct p; cbn in *; intros Hs.
  - destruct (lf_running s) eqn:Hr; simplify_eq; [done|]. destruct Hat as [Hat|[Hat _]]; [done|congruence].
  - simplify_eq/=. by destruct Hat as [_ ?].
  - simplify_eq/=. destruct Hat as [? ?]. split_and!; try done; [intros Hx; specialize (Hb _ (or_introl Hx)); lia|].
    intros n [Hn|[= <-]]; cbn; [|lia]. specialize (Hb n (or_introl Hn)). lia.
  - simplify_eq/=. destruct Hat as (? & Hl & ? & ?). split_and!; try done. right. split; [done|]. exists n.
    split; [|done]. split; [done|]. left. cbn. rewrite Hl. set_solver.
  - destruct (lf_running s) eqn:Hr; simplify_eq; [|done]. destruct Hat as [[Hat _]|Hat]; [congruence|done].
  - simplify_eq/=. destruct Hat as (? & n & [Hc Hl] & _). split_and!; [done| |by apply cancel_bounded|done].
    exists n. rewrite Hc. split; [done|]. set_solver.
  - case_decide; simplify_eq/=. by destruct Hat as [? _].
  - simplify_eq/=. destruct Hat as [_ ?]. split_and!; try done. by left.
  - done.
Qed.

(** A loop that ends, when its transport is not stopped by it. *)
Lemma end_inv kd p n s : at_pc kd p s → n ∈ lf_loops s → (lk_leaves kd = true ∨ n ∈ lf_cancelled s) →
  at_pc kd p (with_loops (lf_loops s ∖ {[n]}) s).
Proof.
  assert (started_life kd s → n ∈ lf_loops s → lk_leaves kd = true ∨ n ∈ lf_cancelled s →
          started_life kd (with_loops (lf_loops s ∖ {[n]}) s)) as Hst.
  { intros (Hr & m & [Hc Hl] & Hm) Hn Ho. split; [done|]. exists m. split; [|done]. split; [done|]. cbn.
    destruct Hl as [Hl|[_ Hl]]; [|set_solver]. rewrite Hl in *. assert (n = m) as -> by set_solver.
    right. split; [by destruct Ho|set_solver]. }
  intros Hat Hn Ho. destruct p; cbn in *; try (by apply Hst); unfold stopped_life in *; try (set_solver by idtac).
  all: try (destruct Hat as [[_ Hat]|Hat]; [rewrite Hat in Hn; by apply not_elem_of_empty in Hn|right; by apply Hst]).
  all: try (destruct Hat as (_ & Hat & _); rewrite Hat in Hn; by apply not_elem_of_empty in Hn).
  all: try (destruct Hat as [_ Hat]; rewrite Hat in Hn; by apply not_elem_of_empty in Hn).
Qed.

Lemma act_turn_inv kd a s s' : lk_quits kd = false → turn_inv kd s → in_turn s a = true → act kd a s = Some s' → turn_inv kd s'.
Proof.
  intros Hq (Hb & p & Hp & Hat) Ht Ha. destruct a as [q|k|n|n]; cbn in *.
  - case_bool_decide as Hqq; simplify_eq. apply (only_call_quiet p s Hp) in Ht as ->. split; [done|].
    exists q. split; [by apply only_call_begin|]. by destruct Hqq as [-> | ->].
  - destruct (lf_calls s !! k) as [q|] eqn:Hk; [|done]. cbn in Ha. destruct (call_step q s) as [[p' t]|] eqn:Hs; [|done].
    simplify_eq/=. destruct (only_call_lookup _ _ _ _ Hp Hk) as [-> | (-> & m & Hl & ->)]; [done|].
    destruct (call_step_inv kd p s p' t Hat Hb Hs) as (Hat' & Hb' & Hcalls). split; [done|]. exists p'.
    split; [cbn; rewrite Hcalls, Hl; apply only_call_insert|]. by destruct p'.
  - destruct (bool_decide (n ∈ lf_loops s)) eqn:Hn; [|done]. apply bool_decide_eq_true in Hn. cbn in Ha.
    destruct (lk_leaves kd || bool_decide (n ∈ lf_cancelled s)) eqn:Ho; simplify_eq. split; [done|]. exists p. split; [done|].
    apply end_inv; [done..|]. apply orb_true_iff in Ho as [Ho|Ho%bool_decide_eq_true]; auto.
  - by rewrite Hq in Ha.
Qed.

Lemma turns_inv kd s : lk_quits kd = false → turns_reachable kd s → turn_inv kd s.
Proof.
  intros Hq. induction 1 as [|s a s' _ IH Ht Ha]; [|by eapply act_turn_inv].
  split; [intros n; cbn; set_solver|]. exists Returned. split; [by left|]. by left.
Qed.

(** ** Calls in turn start and stop one loop *)

(** When no call is under way, a transport that is not running has no loop, and one that is
    running has at most one, whose context is not cancelled; Telegram has exactly one. *)
Theorem one_loop_at_a_time kd s : lk_quits kd = false → turns_reachable kd s → quiet s = true →
  (lf_running s = false → lf_loops s = ∅) ∧
  (lf_running s = true → ∃ n, (lf_loops s ⊆ {[n]}) ∧ (n ∉ lf_cancelled s) ∧ (lk_leaves kd = false → lf_loops s = {[n]})).
Proof.
  intros Hq (_ & p & Hp & Hat)%(turns_inv _ _ Hq) Ht. apply (only_call_quiet p s Hp) in Ht as ->.
  destruct Hat as [[Hr Hl]|(Hr & n & [_ Hl] & Hn)]; rewrite Hr; (split; [done|]); [done|]. intros _. exists n.
  destruct Hl as [Hl|[Hk Hl]]; rewrite Hl; (split; [set_solver|]); (split; [done|]); [done|]. by rewrite Hk.
Qed.

(** The call that was the last to begin. *)
Lemma act_last kd l p s p' s' : lf_calls s = l ++ [p] → call_step p s = Some (p', s') → lf_calls s' = lf_calls s →
  act kd (ACall (length l)) s = Some (with_calls (l ++ [p']) s').
Proof.
  intros Hl Hs Hc. cbn. rewrite Hl, lookup_app_r, Nat.sub_diag by done. cbn. rewrite Hs. cbn.
  by rewrite Hc, Hl, insert_app_r_alt, Nat.sub_diag.
Qed.

(** A start of a transport that is not running: one more loop, with a context of its own. *)
Theorem Start_starts kd s : lf_running s = false →
  let k := length (lf_calls s) in
  acts kd [ABegin SCheck; ACall k; ACall k; ACall k; ACall k] s =
    Some {| lf_running := true; lf_cancel := Some (lf_next s); lf_cancelled := lf_cancelled s;
            lf_loops := {[lf_next s]} ∪ lf_loops s; lf_next := S (lf_next s); lf_calls := lf_calls s ++ [Returned] |}.
Proof.
  intros Hr k. destruct s as [r c cd lo nx calls]. cbn in Hr, k. subst r k. cbn [acts].
  change (act kd (ABegin SCheck) _) with
    (Some {| lf_running := false; lf_cancel := c; lf_cancelled := cd; lf_loops := lo; lf_next := nx; lf_calls := calls ++ [SCheck] |}).
  cbn [mbind option_bind]. repeat (erewrite act_last; [|reflexivity..]; cbn [mbind option_bind with_calls]). done.
Qed.

Lemma wait_returns kd l s : lf_loops s = ∅ → lf_calls s = l ++ [PWait] →
  acts kd [ACall (length l); ACall (length l)] s = Some (with_calls (l ++ [Returned]) (with_flag false s)).
Proof.
  intros Hl Hc. cbn [acts]. erewrite act_last; [|done| |done]; [|by cbn; rewrite decide_True by done].
  cbn [mbind option_bind]. rewrite (act_last _ l PClear _ Returned (with_flag false (with_calls (l ++ [PClear]) s))) by done. done.
Qed.

(** A stop that waits: the loops that are left are cancelled, and when they have ended the
    call returns and the transport is stopped. *)
Theorem Stop_stops kd s k : lk_quits kd = false → turns_reachable kd s → lf_calls s !! k = Some PWait →
  lf_loops s ⊆ lf_cancelled s ∧
  ∃ s', acts kd ((AEnd <$> elements (lf_loops s)) ++ [ACall k; ACall k]) s = Some s' ∧
        quiet s' = true ∧ stopped_life s'.
Proof.
  intros Hq Hr Hk. pose proof (turns_inv _ _ Hq Hr) as (_ & p & Hp & Hat).
  destruct (only_call_lookup _ _ _ _ Hp Hk) as [|(<- & m & Hc & ->)]; [done|]. cbn in Hat.
  destruct Hat as (Hrun & n & Hn & Hcd & Hl). split; [set_solver|].
  assert (∀ t, lf_calls t = replicate m Returned ++ [PWait] → lf_loops t = ∅ →
    ∃ s', acts kd [ACall m; ACall m] t = Some s' ∧ quiet s' = true ∧ stopped_life s') as Hend.
  { intros t Ht Hlt. pose proof (wait_returns kd (replicate m Returned) t Hlt Ht) as Ha. rewrite length_replicate in Ha.
    eexists. split; [exact Ha|]. split; [|done]. apply (only_call_quiet Returned); [|done]. right. by exists m. }
  destruct (decide (n ∈ lf_loops s)) as [Hin|Hin].
  - assert (lf_loops s = {[n]}) as E by set_solver. 
    assert (act kd (AEnd n) s = Some (with_loops (lf_loops s ∖ {[n]}) s)) as Hact by (cbn; by rewrite !bool_decide_true, orb_true_r by done).
    rewrite E, elements_singleton. change (acts kd ((AEnd <$> [n]) ++ [ACall m; ACall m]) s)
      with (t ← act kd (AEnd n) s; acts kd [ACall m; ACall m] t).
    rewrite Hact. apply Hend; [done|]. cbn. rewrite E. set_solver.
  - assert (lf_loops s = ∅) as E by set_solver. rewrite E, elements_empty. by apply Hend.
Qed.

(** ** Calls that overlap *)

(** A loop that nothing cancels any more. *)
Definition lost (n : nat) (s : life) : Prop :=
  (n ∈ lf_loops s) ∧ (n ∉ lf_cancelled s) ∧ lf_cancel s ≠ Some n ∧ (n < lf_next s)%nat.
Definition life_step (kd : loop_kind) (s t : life) : Prop := ∃ a, act kd a s = Some t.

Lemma cancel_lost n s : lost n s → lost n (cancel s).
Proof. intros (? & ? & ? & ?). split_and!; cbn; [done| |done|done]. destruct (lf_cancel s) as [c|]; [|done]. assert (c ≠ n) by congruence. set_solver. Qed.

Lemma call_step_lost n p s p' s' : lost n s → call_step p s = Some (p', s') → lost n s' ∧ lf_calls s' = lf_calls s ∧ p ≠ PWait.
Proof.
  intros Hl. pose proof Hl as (Hin & ? & ? & ?). destruct p; cbn; intros Hs; simplify_eq/=; try done.
  - by destruct (lf_running s); simplify_eq.
  - split; [|done]. split_and!; cbn; [done|done|intros [=]; lia|lia].
  - split; [|done]. split_and!; cbn; [set_solver|done..].
  - by destruct (lf_running s); simplify_eq.
  - split_and!; [by apply cancel_lost|done|done].
  - case_decide as E; [|done]. rewrite E in Hin. by apply not_elem_of_empty in Hin.
Qed.

Lemma act_lost kd n a s s' : lk_leaves kd = false → lost n s → act kd a s = Some s' →
  lost n s' ∧ ∀ k, lf_calls s !! k = Some PWait → lf_calls s' !! k = Some PWait.
Proof.
  intros Hk Hl Ha. destruct a as [p|k|m|m]; cbn in Ha.
  - case_bool_decide; simplify_eq. split; [done|]. intros k Hp. cbn. by apply lookup_app_l_Some.
  - destruct (lf_calls s !! k) as [p|] eqn:Hp; [|done]. cbn in Ha. destruct (call_step p s) as [[p' t]|] eqn:Hs; [|done].
    simplify_eq/=. destruct (call_step_lost _ _ _ _ _ Hl Hs) as (Hl' & Hc & Hne). split; [done|]. intros j Hj. cbn.
    rewrite Hc. rewrite list_lookup_insert_ne; [done|congruence].
  - destruct (bool_decide (m ∈ lf_loops s)); [|done]. rewrite Hk in Ha. cbn in Ha.
    destruct (bool_decide (m ∈ lf_cancelled s)) eqn:Hm; simplify_eq. apply bool_decide_eq_true in Hm.
    destruct Hl as (? & ? & ? & ?). split; [|done]. split_and!; cbn; [|done..]. set_solver.
  - destruct (lk_quits kd && _); simplify_eq. split; [by apply (cancel_lost n (with_flag false s))|done].
Qed.

(** Two starts that both find the transport stopped leave two loops and one [cancel]: a
    later [Stop] of Telegram's transport waits forever. *)
Theorem lost_loop_blocks_Stop kd s k n : lk_leaves kd = false → lost n s → lf_calls s !! k = Some PWait →
  ∀ t, rtc (life_step kd) s t → lost n t ∧ lf_calls t !! k = Some PWait.
Proof. intros Hk Hl Hp t. induction 1 as [s|s u t [a Ha] _ IH]; [done|]. destruct (act_lost _ _ _ _ _ Hk Hl Ha). eauto. Qed.

(** The state after these steps of Telegram's transport. *)
Definition after (l : list action) : life := default new_life (acts telegram_loop l new_life).
Definition two_starts : list action :=
  [ABegin SCheck; ABegin SCheck; ACall 0; ACall 1; ACall 0; ACall 0; ACall 0; ACall 1; ACall 1; ACall 1; ABegin PCheck; ACall 2; ACall 2].
Definition stop_in_start : list action :=
  [ABegin SCheck; ACall 0; ACall 0; ABegin PCheck; ACall 1; ACall 1; ACall 1; ACall 1; ACall 0; ACall 0].

Lemma acts_reachable kd l s t : life_reachable kd s → acts kd l s = Some t → life_reachable kd t.
Proof.
  revert s. induction l as [|a l IH]; cbn; intros s Hs; [by intros [= <-]|].
  destruct (act kd a s) as [u|] eqn:Ha; [|done]. apply IH. by eapply life_act.
Qed.

(** Such a state, and one after a [Stop] between the steps of a [Start]: both have returned,
    the transport counts as stopped, so that no [Stop] has an effect, and its loop runs on. *)
Theorem overlapping_calls :
  (∃ s, life_reachable telegram_loop s ∧ lost 0 s ∧ lf_calls s !! 2%nat = Some PWait) ∧
  (∃ s, life_reachable telegram_loop s ∧ quiet s = true ∧ lf_running s = false ∧ 0%nat ∈ lf_loops s ∧ 0%nat ∉ lf_cancelled s).
Proof.
  assert (∀ l, is_Some (acts telegram_loop l new_life) → life_reachable telegram_loop (after l)) as Hre.
  { intros l [s Hs]. unfold after. rewrite Hs. by eapply acts_reachable; [constructor|]. }
  split; [exists (after two_starts)|exists (after stop_in_start)]; (split; [apply Hre; vm_compute; by eexists|]); unfold lost;
    apply (bool_decide_unpack _); vm_compute; exact I.
Qed.

(** ** What calls in turn do not give *)

Fixpoint turn_acts (kd : loop_kind) (l : list action) (s : life) : option life :=
  match l with [] => Some s | a :: l => if in_turn s a then s ← act kd a s; turn_acts kd l s else None end.
Lemma turn_acts_reachable kd l s t : turns_reachable kd s → turn_acts kd l s = Some t → turns_reachable kd t.
Proof.
  revert s. induction l as [|a l IH]; cbn; intros s Hs; [by intros [= <-]|]. destruct (in_turn s a) eqn:Hi; [|done].
  destruct (act kd a s) as [u|] eqn:Ha; [|done]. apply IH. by eapply turns_act.
Qed.

Definition started_and (a : action) (l : list action) : list action :=
  [ABegin SCheck; ACall 0; ACall 0; ACall 0; ACall 0; a] ++ l.
Definition in_turns (kd : loop_kind) (l : list action) : life := default new_life (turn_acts kd l new_life).

(** The terminal that is told to quit and started again before its loop looks at the flag
    has two loops that read the same input; a loop of Discord that panicked leaves its
    transport running without a loop, so that no start has an effect. *)
Theorem loops_and_flags :
  (∃ s, turns_reachable cli_loop s ∧ quiet s = true ∧ lf_running s = true ∧ lf_loops s = {[0%nat; 1%nat]}) ∧
  (∃ s, turns_reachable discord_loop s ∧ quiet s = true ∧ lf_running s = true ∧ lf_loops s = ∅) ∧
  (∀ kd s, lf_running s = true →
     acts kd [ABegin SCheck; ACall (length (lf_calls s))] s = Some (with_calls (lf_calls s ++ [Returned]) s)).
Proof.
  assert (∀ kd l, is_Some (turn_acts kd l new_life) → turns_reachable kd (in_turns kd l)) as Hre.
  { intros kd l [s Hs]. unfold in_turns. rewrite Hs. by eapply turn_acts_reachable; [constructor|]. }
  split_and!.
  - exists (in_turns cli_loop (started_and (AQuit 0) [ABegin SCheck; ACall 1; ACall 1; ACall 1; ACall 1])).
    split; [apply Hre; vm_compute; by eexists|]. apply (bool_decide_unpack _). vm_compute. exact I.
  - exists (in_turns discord_loop (started_and (AEnd 0) [])).
    split; [apply Hre; vm_compute; by eexists|]. apply (bool_decide_unpack _). vm_compute. exact I.
  - intros kd s Hr. cbn [acts]. change (act kd (ABegin SCheck) s) with (Some (with_calls (lf_calls s ++ [SCheck]) s)).
    cbn [mbind option_bind]. erewrite act_last; [|done|cbn; by rewrite Hr|done]. done.
Qed.

(** ** Transports with a server: [wecom.go] and [feishu.go] *)

(** What a request reaches; the pages of WeCom that are not the webhook say [ok]. *)
Inductive endpoint := Webhook | CatchAll.

#[global] Instance endpoint_eq_dec : EqDecision endpoint.
Proof. solve_decision. Defined.

(** For a path that begins with a slash; Go refuses others unless they name a host. *)
Definition webhook_path (fallback path : string) : string := if str_empty path then fallback else path.
Definition wecom_mux (path : string) : option (mux endpoint) :=
  let path := webhook_path "/webhook/wecom" path in
  NewServeMux [(path, Webhook); (path +:+ path, Webhook); ("/"%string, CatchAll)].
Definition feishu_mux (path : string) : option (mux endpoint) := NewServeMux [(webhook_path "/webhook/feishu" path, Webhook)].

(** The flag, the server of the last start with whether it listens, and whether the duplicate
    filter still forgets. *)
Record server_life := { sv_running : bool; sv_server : option (mux endpoint); sv_listens : bool; sv_forgets : bool }.
Definition new_server_life : server_life := {| sv_running := false; sv_server := None; sv_listens := false; sv_forgets := true |}.

(** [bound]: whether the address could be bound, which the goroutine of the server finds out;
    the caller does not.  [None]: registering a pattern panics. *)
Definition server_Start (m : option (mux endpoint)) (bound : bool) (s : server_life) : option server_life :=
  if sv_running s then Some s
  else m ← m; Some {| sv_running := true; sv_server := Some m; sv_listens := bound; sv_forgets := sv_forgets s |}.
Definition wecom_Start (path : string) : bool → server_life → option server_life := server_Start (wecom_mux path).
Definition feishu_Start (path : string) : bool → server_life → option server_life := server_Start (feishu_mux path).

Definition server_Stop (closes_filter : bool) (s : server_life) : server_life :=
  if negb (sv_running s) then s
  else {| sv_running := false; sv_server := sv_server s; sv_listens := false; sv_forgets := sv_forgets s && negb closes_filter |}.
Definition wecom_Stop : server_life → server_life := server_Stop true.
Definition feishu_Stop : server_life → server_life := server_Stop false.

(** *** The webhooks *)

Lemma abs_path_twice k : k ≠ [] → abs_path k +:+ abs_path k = abs_path (k ++ k).
Proof. intros Hk. apply (inj s2l). unfold abs_path. by rewrite s2l_app, !s2l_l2s, join_parts_app by done. Qed.

Definition webhook_pages (k : list bytes) : list (list bytes * endpoint) := [(k, Webhook); (k ++ k, Webhook)].

Lemma no_conflict_lits k : k ≠ [] → conflicts {| pt_method := ""; pt_segs := lits (k ++ k) |} {| pt_method := ""; pt_segs := lits k |} = false.
Proof.
  intros Hk. unfold conflicts, compare_paths. cbn -[lits]. rewrite !lits_not_multi. unfold lits. rewrite !length_fmap, length_app.
  assert (length k ≠ 0%nat) by by destruct k. rewrite (proj2 (Nat.eqb_neq _ _)) by lia. done.
Qed.

Lemma no_conflict_rest k : k ≠ [] → conflicts {| pt_method := ""; pt_segs := [Multi] |} {| pt_method := ""; pt_segs := lits k |} = false.
Proof.
  intros Hk. unfold conflicts, compare_paths. cbn -[lits]. rewrite andb_false_r. cbn -[lits].
  destruct k as [|c [|d k]]; done.
Qed.

Lemma wecom_mux_literal k : k ≠ [] → Forall literal k → wecom_mux (abs_path k) = Some (literal_mux (webhook_pages k) (Some CatchAll)).
Proof.
  intros Hk Hl. assert (k ++ k ≠ []) as Hkk by (by destruct k). unfold wecom_mux, webhook_path. rewrite str_empty_abs, abs_path_twice by done.
  assert (Forall literal (k ++ k)) as Hll by by apply Forall_app.
  rewrite NewServeMux_some.
  - change (prod_map parse_pattern id <$> _) with
      [(parse_pattern (abs_path k), Webhook); (parse_pattern (abs_path (k ++ k)), Webhook); (parse_pattern "/", CatchAll)].
    by rewrite !parse_literal by done.
  - change (parse_pattern <$> _) with [parse_pattern (abs_path k); parse_pattern (abs_path (k ++ k)); parse_pattern "/"].
    rewrite !parse_literal by done. change (parse_pattern "/") with {| pt_method := ""; pt_segs := [Multi] |}. cbn -[conflicts lits].
    by rewrite no_conflict_lits, !no_conflict_rest by done.
Qed.

Lemma literal_no_slash k : Forall literal k → "/"%string ∉ l2s <$> k.
Proof.
  intros Hk%literal_plain (c & Hc & Hin)%list_elem_of_fmap. rewrite Forall_forall in Hk. destruct (Hk _ Hin) as (_ & _ & _ & Hsl).
  apply Hsl. assert (c = [slash]) as ->; [|by left]. by rewrite <- (s2l_l2s c), <- Hc.
Qed.

Definition is_webhook (k : list bytes) (segs : list string) : bool :=
  bool_decide (segs = l2s <$> k ∨ segs = l2s <$> (k ++ k)).

(** With a path of literal parts, a request with a clean path is for the webhook if its path
    is that path or the path twice, and every other one is answered by the page for the rest,
    whatever its method. *)
Theorem wecom_pages_reached k meth l : k ≠ [] → Forall literal k → l ≠ [] → Forall plain l →
  ∃ m p, wecom_mux (abs_path k) = Some m ∧
    mux_find m meth (abs_path l) = Found (p, if is_webhook k (pathUnescape <$> l) then Webhook else CatchAll) [].
Proof.
  intros Hk Hlit Hne Hpl. exists (literal_mux (webhook_pages k) (Some CatchAll)).
  destruct (literal_mux_find meth l (webhook_pages k) CatchAll Hne Hpl) as [p Hp].
  - pose proof (literal_no_slash k Hlit). intros ka [-> | ->%list_elem_of_singleton]%elem_of_cons; cbn [fst]; [done|]. rewrite fmap_app. set_solver.
  - exists p. split; [by apply wecom_mux_literal|]. rewrite Hp. do 3 f_equal. unfold is_webhook, chosen, webhook_pages. cbn.
    repeat case_bool_decide; naive_solver.
Qed.

(** Feishu's webhook is the only page of its server. *)
Theorem feishu_pages_reached k meth l : k ≠ [] → Forall literal k → l ≠ [] → Forall plain l →
  ∃ m, feishu_mux (abs_path k) = Some m ∧
    if bool_decide (pathUnescape <$> l = l2s <$> k) then ∃ p, mux_find m meth (abs_path l) = Found (p, Webhook) []
    else mux_find m meth (abs_path l) = NoRoute.
Proof.
  intros Hk Hlit Hne Hpl. exists (literal_mux [(k, Webhook)] None). split.
  - unfold feishu_mux, webhook_path. rewrite str_empty_abs. rewrite NewServeMux_some by done.
    change (prod_map parse_pattern id <$> _) with [(parse_pattern (abs_path k), Webhook)]. by rewrite parse_literal by done.
  - pose proof (literal_mux_find_alone meth l [(k, Webhook)] Hne Hpl) as Hf. unfold chosen in Hf. cbn in Hf.
    assert (∀ ka, ka ∈ [(k, Webhook)] → "/"%string ∉ l2s <$> ka.1) as Hs by (intros ka ->%list_elem_of_singleton; by apply literal_no_slash).
    specialize (Hf Hs). destruct (decide (pathUnescape <$> l = l2s <$> k)) as [E|E].
    + rewrite (bool_decide_true (l2s <$> k = _)) in Hf by done. rewrite bool_decide_true by done. destruct Hf as [p Hf]. by exists p.
    + rewrite (bool_decide_false (l2s <$> k = _)) in Hf by congruence. by rewrite bool_decide_false.
Qed.

(** *** Starting and stopping the servers *)

(** The root as the webhook of WeCom: the page for the rest is registered twice. *)
Theorem wecom_root_panics bound s : sv_running s = false → wecom_Start "/" bound s = None ∧ is_Some (feishu_Start "/" bound s).
Proof.
  intros Hr. unfold wecom_Start, feishu_Start, server_Start. rewrite Hr.
  assert (wecom_mux "/" = None) as -> by (vm_compute; reflexivity).
  assert (is_Some (feishu_mux "/")) as [m ->] by (vm_compute; by eexists). split; [done|by eexists].
Qed.

(** A transport whose address is taken counts as running, and starting it again has no
    effect before it is stopped. *)
Theorem unbound_server_runs m s : sv_running s = false →
  ∃ t, server_Start (Some m) false s = Some t ∧ sv_running t = true ∧ sv_listens t = false ∧
    (∀ m' bound, server_Start m' bound t = Some t) ∧
    ∀ closes, ∃ u, server_Start (Some m) true (server_Stop closes t) = Some u ∧ sv_listens u = true.
Proof.
  intros Hr. unfold server_Start at 1. rewrite Hr. eexists. split; [done|]. split_and!; [done|done|done|]. intros closes. by eexists.
Qed.

Inductive server_op := VStart (bound : bool) | VStop.
Definition wecom_op (path : string) (s : option server_life) (o : server_op) : option server_life :=
  s ← s; match o with VStart bound => wecom_Start path bound s | VStop => Some (wecom_Stop s) end.

(** The clean-up of WeCom's duplicate filter ends with the first stop for good. *)
Theorem stopped_filter_stays path ops s t : sv_forgets s = false → foldl (wecom_op path) (Some s) ops = Some t → sv_forgets t = false.
Proof.
  assert (∀ l, foldl (wecom_op path) None l = None) as Hn by (intros l; by induction l).
  revert s. induction ops as [|o ops IH]; intros s Hf; [by intros [= <-]|]. cbn [foldl]. intros Hs.
  destruct (wecom_op path (Some s) o) as [u|] eqn:Hu; [|by rewrite Hn in Hs]. apply (IH u); [|done].
  destruct o as [bound|]; cbn in Hu.
  - unfold wecom_Start, server_Start in Hu. destruct (sv_running s); [by simplify_eq|].
    destruct (wecom_mux path); cbn in Hu; by simplify_eq.
  - simplify_eq. unfold wecom_Stop, server_Stop. destruct (negb (sv_running s)); [done|]. cbn. by rewrite Hf.
Qed.

(** Then an identifier that was seen counts as a duplicate for all time, until the filter is
    full. *)
Definition is_check (o : dedup_op) : bool := match o with DCheck _ _ _ => true | DCleanup _ => false end.
Theorem stopped_filter_remembers ops d id now order :
  Forall (λ o, is_check o = true) ops → is_Some (dd_entries d !! id) →
  Z.of_nat (size (dd_entries d) + length ops) ≤ dd_maxSize d →
  (dd_Check id now order (dedup_run d ops)).2 = true.
Proof.
  revert d. induction ops as [|o ops IH]; intros d Hc [t Ht] Hs.
  - unfold dd_Check, dedup_run. cbn. by rewrite Ht.
  - inversion_clear Hc as [|? ? Ho Hc']. destruct o as [id' now' order'|]; [|done].
    change (dedup_run d (DCheck id' now' order' :: ops)) with (dedup_run (dd_Check id' now' order' d).1 ops).
    unfold dd_Check at 2. destruct (dd_entries d !! id') eqn:Hid; cbn [fst].
    { apply IH; [done|by eexists|]. cbn [length] in Hs. lia. }
    rewrite (proj2 (Z.leb_gt _ _)) by (cbn [length] in Hs; lia). apply IH; [done| |].
    + cbn. rewrite lookup_insert_ne by congruence. by eexists.
    + cbn. rewrite map_size_insert_None by done. cbn [length] in Hs. lia.
Qed.

(** ** The dispatcher of outbound messages: [adapter.go] *)

(** The dispatcher that the registry knows, those that run, and the next one. *)
Record dispatchers := { dp_current : option nat; dp_runs : gset nat; dp_next : nat }.
Definition no_dispatchers : dispatchers := {| dp_current := None; dp_runs := ∅; dp_next := 0 |}.

(** [NewOutboundDispatcher] with [Start], as [StartAll] does when there are channels. *)
Definition dispatcher_Start (s : dispatchers) : dispatchers :=
  {| dp_current := Some (dp_next s); dp_runs := {[dp_next s]} ∪ dp_runs s; dp_next := S (dp_next s) |}.
(** [Stop] cancels the loop of the one that the registry knows and waits for its end. *)
Definition dispatcher_Stop (s : dispatchers) : dispatchers :=
  {| dp_current := dp_current s; dp_runs := match dp_current s with Some n => dp_runs s ∖ {[n]} | None => dp_runs s end; dp_next := dp_next s |}.

Inductive dispatcher_op := OStart | OStop.
Definition dispatcher_step (s : dispatchers) (o : dispatcher_op) : dispatchers :=
  match o with OStart => dispatcher_Start s | OStop => dispatcher_Stop s end.

(** Starts and stops in turn, beginning with a start. *)
Fixpoint alternate (n : nat) : list dispatcher_op := match n with O => [] | S n => OStart :: OStop :: alternate n end.

(** Then one dispatcher runs between a start and a stop and none after it; after two starts
    without a stop the first one runs on and competes for the messages. *)
Theorem dispatchers_in_turn :
  (∀ n, dp_runs (foldl dispatcher_step no_dispatchers (alternate n)) = ∅) ∧
  (∀ s, dp_runs s = ∅ → dp_runs (dispatcher_Start s) = {[dp_next s]}) ∧
  (∀ l, 0%nat ∈ dp_runs (foldl dispatcher_step no_dispatchers (OStart :: OStart :: l))).
Proof.
  split_and!.
  - cut (∀ n s, dp_runs s = ∅ → dp_runs (foldl dispatcher_step s (alternate n)) = ∅); [auto|].
    induction n as [|n IH]; intros s Hs; [done|]. cbn. apply IH. cbn. rewrite Hs. set_solver.
  - intros s Hs. cbn. rewrite Hs. set_solver.
  - intros l. cbn [foldl]. set (s := dispatcher_step _ OStart). cut (0%nat ∈ dp_runs s ∧ dp_current s ≠ Some 0%nat ∧ (0 < dp_next s)%nat).
    + generalize s. clear s. induction l as [|o l IH]; intros s (Hr & Hc & Hn); [done|]. cbn [foldl]. apply IH. destruct o; cbn.
      * split_and!; [set_solver|intros [=]; lia|lia].
      * split_and!; [|done|done]. destruct (dp_current s) as [c|]; [|done]. assert (c ≠ 0%nat) by congruence. set_solver.
    + cbn. split_and!; [set_solver|done|lia].
Qed.
